(* ===== verification/_CoqProject ===== *)
-Q . S2P
Prelude.v
Order.v
Memory.v
CodeObject.v
Segments.v
MessagePack.v
MessagePackFormat.v
Metadata.v
ElfDynamic.v
KernelSymbols.v
LoadPlan.v
ElfReader.v
ExecutableImage.v
ImageValidation.v
ImageContents.v
LoaderImage.v
Launch.v
HiddenKernargs.v
BundleText.v
BundleManifest.v
BundleArgs.v
Topology.v
Scratch.v
CodeCache.v
AqlPacket.v
AqlQueue.v
AqlProducer.v
KfdProducer.v
Signal.v
KfdKernel.v
KfdMemory.v
KfdMemoryFacts.v
ScratchPool.v
ScratchPoolFacts.v
KfdVm.v
KfdSession.v
KfdSignal.v
KfdSignalFacts.v
KfdTopology.v
KfdTopologyFacts.v
CwsrLayout.v
KfdQueue.v
KfdQueueFacts.v
KfdQueueParts.v
KfdQueueLife.v
KfdImage.v
KfdCodeCache.v
KfdRegistry.v
MemoryState.v
RuntimeState.v
DirectQueue.v
DirectLaunch.v
DirectApi.v
DirectEvents.v
RuntimeFacts.v
DirectQueueFacts.v
DirectEventFacts.v
DirectLaunchFacts.v
DirectSync.v
DirectProperties.v
MemoryRegistry.v
MemoryCopy.v
CopyKernel.v
MemoryFrame.v
MemoryBooks.v
MemoryCalls.v
MemoryProperties.v
Modules.v
ModuleFacts.v
RuntimeApi.v
Shutdown.v
RuntimeProperties.v
StatefulGraph.v
ResidentScheduler.v
ResidentProgress.v
LoaderWitnesses.v
DeviceWitnesses.v
KfdWitnesses.v
DirectWitnesses.v
RuntimeWitnesses.v
