(* ===== verification/Prelude.v ===== *)
(** * light-rocm-runtime: verification development

    The program is a small ROCm runtime.  A code object (an AMDHSA ELF file)
    is parsed by the loader, its load plan is materialized in GPU-visible
    memory by the runtime, kernel arguments are laid out in a kernarg buffer,
    and kernels are launched by AQL packets written to a ring that the command
    processor reads.  This library models that path, from the bytes of the
    file to the packet in the ring, and proves it correct.  Paths below are
    under [src/].

    ** Parts of the program and files of the development

    Shared ground.
    - [Prelude]: machine integers as [Z] with their wrap-around written out,
      the result type of fallible code ([Err] is the error value the source
      returns, [Fault] is what it must never do: an access outside a buffer, a
      loop past its bound), the [safe] predicate and its automation.
    - [Order]: the comparison-based library calls of the source ([std::sort],
      [std::lower_bound], [std::upper_bound]) over a class of strict weak
      orders, and lemmas on ordered disjoint ranges.
    - [Memory]: buffers as lists of bytes, bounds-checked little-endian reads,
      [memcpy]/[memset] as bounds-checked writes, slices.

    The loader, [light-rocr/loader/].
    - [CodeObject]: the data of [code_object.hpp] and the error values.
    - [Segments]: PT_LOAD validation and the overlap search ([elf_reader.cpp]).
    - [MessagePack], [MessagePackFormat]: [MessagePackReader] of
      [metadata_reader.cpp], and an encoder of the format it is checked
      against.
    - [Metadata]: the AMDHSA metadata document (kernels and arguments).
    - [ElfDynamic], [KernelSymbols]: PT_DYNAMIC, notes, dynamic symbols, kernel
      descriptors ([metadata_reader.cpp]).
    - [LoadPlan]: relocations and the load plan ([load_plan_reader.cpp]).
    - [ElfReader]: [parse_code_object], the entry point.

    The runtime, [light-rocr/runtime/] and [light-rocr/arch/gfx11/].
    - [ExecutableImage], [ImageValidation], [ImageContents]:
      [executable_image.cpp], split into the operations, the exactness of
      [validate_plan], and the contents of a materialized image.
    - [LoaderImage]: the interface between loader and runtime, and the two
      composed.
    - [Launch]: kernarg buffers ([launch.cpp]); [HiddenKernargs]: the hidden
      arguments ([src/light_rocr_kernargs.cpp]).
    - [Topology]: target names and GPU selection ([topology.cpp]).
    - [Scratch], [CodeCache]: queue scratch and the code-cache command of
      gfx11 ([scratch.cpp], [code_cache.cpp]).
    - [Signal]: completion signals and the wait loop ([signal.cpp]).

    The queue, [src/aql_producer.cpp] and [light-rocr/transport/kfd/queue.cpp].
    - [AqlPacket]: packets, their layout, validation and publication.
    - [AqlQueue]: the index and doorbell primitives of a KFD queue, with the
      compare-and-swap loop as a step relation of any number of threads.
    - [AqlProducer]: submission, proved against the class [ProducerQueue] that
      states what the producer may rely on; [KfdProducer]: the operation table
      of [src/light_rocr_kfd_aql_queue.hpp] and the instance of the class.

    The bundle, [src/bundle.cpp].
    - [BundleText]: the character-level scanner of the manifest parser;
      [BundleManifest]: kernels, arguments, grid expressions, paths and the
      launch configuration; [BundleArgs]: [KernargBuffer] and the checks of
      [Bundle::launch].

    Memory of the KFD transport, [light-rocr/transport/kfd/].
    - [KfdKernel]: the kernel driver as a class of operations on an unknown
      world, and a class of laws that state its documented behaviour against a
      ledger of what the process holds (address ranges, buffers, files, queues
      and the memory they use, events); the [EINTR] loops; weakest preconditions.
    - [KfdMemory], [KfdMemoryFacts]: allocation, mapping, rollback and release
      ([memory.cpp]), and the account of several allocations in any order;
      [ScratchPool], [ScratchPoolFacts]: the per-GPU scratch pool (same file)
      and its runs.
    - [KfdVm]: render nodes and apertures ([vm.cpp]).
    - [KfdSession]: the session's methods and the owning classes, on top of
      both.
    - [KfdSignal], [KfdSignalFacts]: user signals as slots of shared,
      reference-counted pages ([signal.cpp]), and runs of their clients.

    Queues of the KFD transport, [queue.cpp] of the same directory.
    - [CwsrLayout]: the context save area.
    - [KfdQueue]: a queue with its memory, scratch, event, doorbell and driver
      queue, from [create_aql_queue] to the destructor.
    - [KfdQueueFacts]: the account of a queue and what is written to its
      memory; [KfdQueueParts]: its parts, their release and preparation;
      [KfdQueueLife]: the parts in order, and the whole.

    Code and sessions of the KFD transport.
    - [KfdImage]: an executable image in memory of a session
      ([executable_image.cpp]), on top of [ImageContents] and [KfdSession].
    - [KfdCodeCache]: the invalidation of the code cache through a queue
      ([code_cache.cpp]): trees of calls with every answer, read as traces.
    - [KfdRegistry]: opening a session, the registry of a process and the clock
      counters ([session.cpp]).
    - [KfdTopology], [KfdTopologyFacts]: the nodes read from sysfs
      ([topology.cpp]), and a printer of their files.

    The public API on the direct KFD transport, [src/queue.cpp],
    [src/launch.cpp], [src/event.cpp], [src/memory.cpp], [src/module.cpp] and
    [src/runtime.cpp] (the [LRRT_ENABLE_LIGHT_ROCR_KFD] branches).
    - [RuntimeState]: events, queues, dispatches, barriers, kernarg arenas,
      modules, kernels and devices of [src/runtime_internal.hpp] in heaps, with the pointers of the
      source between them; the transport below as a class of operations on an
      unknown world, and what other threads do while the lock is given up as
      an unknown change of the state.
    - [DirectQueue]: retirement of barriers, dispatches and events, waits and
      synchronization; [DirectLaunch]: room in the ring, scratch, kernarg
      arenas and the submission of a kernel; [DirectApi], [DirectEvents]: the
      public functions on queues, events and launches.
    - [RuntimeFacts]: the well-formed object graph ([runtime_wf]);
      [DirectQueueFacts], [DirectEventFacts]: what retirement does to it;
      [DirectLaunchFacts], [DirectSync]: submission, synchronization and room;
      [DirectProperties]: the theorems.
    - [MemoryState]: the registries of device and pinned memory, the statistics
      and the copy state; [MemoryRegistry]: pointer searches, pins, allocation,
      free and the release at shutdown; [MemoryCopy]: the copy state of a
      device, synchronous and asynchronous copies; [CopyKernel]: the kernel of
      [src/light_rocr_copy_kernel.cpp] on its grid, and the copy loops on top
      of it.
    - [MemoryFrame]: what no call of the API changes; [MemoryBooks],
      [MemoryCalls]: the invariant of registries and statistics, call by call,
      against what other threads may do; [MemoryProperties]: the theorems.
    - [Modules]: code objects on a device and kernel handles; [ModuleFacts]:
      the invariant of both, call by call.
    - [RuntimeApi]: initialisation, devices and shutdown; [Shutdown]: each step
      of the shutdown; [RuntimeProperties]: the theorems on modules and on the
      life of the runtime.

    The stateful-graph executor, [executor/stateful_graph/].
    - [StatefulGraph]: the descriptors of [stateful_graph_abi.hpp], the checks
      of a graph and of a compiled plan on the device ([device_scheduler.hpp],
      [compiled_scheduler.hpp]) and on the host, the plan compiler and the
      admission of workers ([resident_executor.hpp]); a graph as a relation
      between tasks, a plan as a tiling of its tasks.
    - [ResidentScheduler]: [run_resident], a machine of any number of workers
      whose steps are single accesses to shared memory; the run of a graph as a
      step relation, and the refinement.
    - [ResidentProgress]: what every worker brings nearer, and the end of a
      launch.

    - [LoaderWitnesses], [DeviceWitnesses], [KfdWitnesses], [DirectWitnesses],
      [RuntimeWitnesses]: a complete code object; a queue, a bundle manifest and
      a graph with two workers; a simulated driver that keeps the laws, with a
      queue, a signal page, a node, sessions and an image on it and runs of the
      code cache; a simulated device with a runtime on it; a device that copies
      and a runtime with a module; and the theorems applied to them.

    ** What the theorems show

    - Loader: on every byte string the parser returns, inside its buffer
      ([parse_code_object_total]); what it accepts is well formed
      ([parse_code_object_wf]: disjoint segments, descriptors that hold the
      metadata field by field, an ordered plan that covers the segments and
      nothing else).  The MessagePack reader inverts the format's encoder, the
      searches (overlaps, symbols) agree with exhaustive ones.
    - Image: validation accepts exactly the plans that can be materialized; a
      materialized image is the file's segments over zeros with every
      relocated word in place, stated apart from the code's own arithmetic
      ([relocated_word]); whatever the loader accepts and the runtime
      supports loads without error ([accepted_object_loads]).
    - Launch: kernarg bytes, hidden arguments (each the quantity of the grid its
      kind names), scratch registers and the code-cache command hold exactly the
      values their consumers decode.
    - Bundle: every manifest text is refused or gives well-formed kernels; a
      kernarg buffer holds, byte by byte, the latest value that was set, and is
      one independent slot per argument where arguments do not overlap; a launch goes out exactly when buffer, arguments and grid are
      right.
    - KFD memory: for every kernel that keeps the laws, and whatever it answers
      to each call, the process holds what it held before and exactly what the
      returned owners name ([kfd_memory_lifecycle], [session_memory_lifecycle]
      and the host variants), every call keeps the driver's protocol, the
      scratch pool is partitioned between free list and live ranges under any
      run ([scratch_pool_partition]), and render nodes and apertures settle
      ([acquire_vm_runs]).  One path loses a scratch range
      ([scratch_owner_never_releases]); the theorems on queues name it
      ([range_forgotten]).  What could not be released counts as lost only where
      the driver refused the release ([release_refused]).
    - KFD signals: over any run the signals of the clients are the used slots
      of the living pages, apart in memory, and nothing else is held but what
      the driver refused to release ([signal_pages_shared]); a new signal is ready ([created_signal_ready]).
    - Memory API: over any sequence of calls that return, with other threads
      acting wherever the lock is free and finishing what they have begun,
      registered allocations are disjoint and the live bytes
      of a device are exactly theirs ([memory_books_kept]); an allocation is
      registered or leaves no trace ([malloc_all_or_nothing]); a pointer search
      is exact ([find_allocation_exact]); a successful shutdown leaves nothing
      ([release_allocations_drains]).  The copy kernel copies every byte once
      in whatever order its work items run ([copy_kernel_copies]), and over
      any primitive that copies between ranges apart from each other the staged
      loops are a [memmove], overlaps included ([memcpy_moves_bytes]).  A copy can make another thread's wait on its
      event fail ([copy_breaks_event_wait]).
    - Modules: over any sequence of calls that return, with other threads acting
      wherever the lock is free, kernel handles, modules and their cleanup owners stay
      consistent ([modules_kept]); a kernel that was found is the one that was
      asked for ([kernel_get_resolves]).
    - Life of the runtime: an initialisation is all or nothing and selects the
      one supported GPU ([init_all_or_nothing]); a shutdown leaves nothing, or
      can be tried again ([shutdown_leaves_nothing]).  An initialisation that
      comes in the middle of a shutdown breaks both ([init_during_shutdown]).
    - KFD queues: whatever the driver answers and whatever new memory
      contains ([k_byte]), a creation returns and what is held afterwards is
      accounted for exactly, a queue it returns is complete and initialised
      ([aql_queue_creation]); any number of releases keeps the
      account ([aql_queue_release]); the save area is computed exactly
      ([cwsr_area_exact]).  A retried release can unmap memory of others
      ([retried_release_unmaps_other]).
    - KFD images and code cache: an image is materialized completely or not at
      all and its memory is never lost ([kfd_image_lifecycle]); a freeze that
      succeeds did each step in the order the GPU needs ([freeze_in_order]), and
      memory a packet names is not released while the GPU may use it, whatever
      fails ([cache_memory_outlives_packet]).
    - KFD sessions: the sessions of a process share one state per device, and
      the one [fstat] names, and an opening that fails leaves no descriptor
      ([session_open_shares]).
    - Direct KFD runtime: for every transport, and whatever the device does
      between two looks of the host, reaping keeps the object graph and the
      dependency counts ([dispatch_reaping]); with a device that makes progress
      a synchronization returns and leaves nothing pending
      ([synchronize_drains]) and room in the ring is found, with the lock kept or
      given up around the waits ([capacity_ensured]); a submission is all or nothing
      ([publish_all_or_nothing]); elapsed times are exact to a tick
      ([elapsed_time_accurate]).  Three paths go wrong: a dispatch outlives its
      event ([finished_event_still_borrowed]), an iterator outlives its vector
      ([destroyed_queue_iterator_stale]), and a failed reap forgets which
      signal to wait for ([failed_reap_forgets_event]).
    - Stateful graphs: the device accepts exactly the graphs and plans it can
      run ([graph_validation_exact]); a plan is compiled exactly for the graphs
      listed in order, and the device accepts it
      ([compile_resident_plan_exact]).  Whatever the interleaving of the
      workers, each task runs once and after its dependencies, and programs
      follow as their flags say ([resident_run_refines]); with tasks that end
      and a fair schedule every worker returns ([resident_run_ends]).
    - Topology: whatever the file system answers, a discovered topology is
      typed, ordered and from one generation ([topology_snapshot_typed]), and
      the files of a node read back as the node ([node_files_roundtrip]).
    - Queue: reservations of concurrent threads never overlap, a packet is
      never visible half-written, and the ring is a FIFO: every accepted packet
      stays in its slot, in order, until the device has taken it.

    ** Bounds and fuel

    Loops over a list or a count of the source are structural.  Fuel appears in
    [parse_value] (66, one more than the depth limit of the source allows),
    [note_loop] (one more than the file size: each note takes at least twelve
    bytes), [bisect] (the length of the range), [reserve_run] (two accesses:
    without interference the loop has no second round), the digit printer (ten,
    more digits than 32 bits have) and [signal_wait_loop] (the caller's number
    of rounds: the theorem says how many are enough), and in the manifest's
    field, argument and kernel loops (the characters left: each round moves
    on), and in [stage_end] and [compile_stages] (one more than the tasks of the
    program).  Each is shown never to run out.  The [EINTR] loops of the transport
    have no bound in the source: [k_patience] is how often in a row the kernel
    may report an interruption, and that this ends is one of its laws.  So is
    [t_patience] for the loops of the public API that poll a signal or wait for
    another thread; its loops over pending work take the amount of that work,
    which every round reduces.  [enough_rounds] of [ResidentProgress] is a number
    of rounds after which a launch has ended, from the phases, the workers and
    the accesses a task makes; it is a bound, not the cost.

    ** Not modelled

    The loop of the fault monitor of the KFD transport (a thread that waits for
    the driver's events), the code of its trap handler (a parameter of the
    model), the libhsakmt transport, the HSA and libhsakmt branches of the
    public API, the files of a bundle, the run loop of the compiled scheduler
    and the class [ResidentExecutor] of the stateful-graph executor, the IREE,
    Triton and Qwen executors, and the profiling counters.  Locks of the KFD
    session are taken as held: its operations are steps that do not interleave.
    In the public API the lock is modelled: the calls of other threads come
    where the source gives it up.

    The workers of a resident kernel interleave access by access; reorderings
    of a weaker memory than that are outside the model, and a workgroup, whose
    threads its barriers keep together, is one thread.

    What could follow, in this order: the run loop of the compiled scheduler,
    [ResidentExecutor], the fault monitor and the libhsakmt transport. *)

From stdpp Require Export base numbers list strings option sorting.
From Stdlib Require Export ZifyBool Lia.

#[global] Open Scope Z_scope.

(** ** Machine integers

    A C++ unsigned integer of width [w] is a [Z]; the literal moduli are
    notations so that [lia] sees constants. *)

Abbreviation U8_MOD := 256.
Abbreviation U16_MOD := 65536.
Abbreviation U32_MOD := 4294967296.
Abbreviation U64_MOD := 18446744073709551616.
Abbreviation UINT16_MAX := 65535.
Abbreviation UINT32_MAX := 4294967295.
Abbreviation UINT64_MAX := 18446744073709551615.
Abbreviation is_u8 x := (0 <= x < U8_MOD).
Abbreviation is_u16 x := (0 <= x < U16_MOD).
Abbreviation is_u32 x := (0 <= x < U32_MOD).
Abbreviation is_u64 x := (0 <= x < U64_MOD).

(** The wrap-around of a [static_cast] and of unsigned arithmetic. *)
Definition to_u16 (x : Z) : Z := x mod U16_MOD.
Definition to_u32 (x : Z) : Z := x mod U32_MOD.
Definition to_u64 (x : Z) : Z := x mod U64_MOD.
Definition u64_add (x y : Z) : Z := to_u64 (x + y).
Definition u64_sub (x y : Z) : Z := to_u64 (x - y).
Definition u64_mul (x y : Z) : Z := to_u64 (x * y).

(** Reinterpretation of [w]-bit patterns as two's-complement numbers. *)
Definition to_i8 (x : Z) : Z := if x <? 128 then x else x - U8_MOD.
Definition to_i64 (x : Z) : Z := if x <? 9223372036854775808 then x else x - U64_MOD.

Lemma to_u64_small x : is_u64 x -> to_u64 x = x.
Proof. apply Z.mod_small. Qed.

Lemma to_u32_small x : is_u32 x -> to_u32 x = x.
Proof. apply Z.mod_small. Qed.

Lemma to_u16_small x : is_u16 x -> to_u16 x = x.
Proof. apply Z.mod_small. Qed.

Lemma to_u64_range x : is_u64 (to_u64 x).
Proof. apply Z.mod_pos_bound. lia. Qed.

Lemma to_u32_range x : is_u32 (to_u32 x).
Proof. apply Z.mod_pos_bound. lia. Qed.

Lemma u64_add_small x y : 0 <= x + y < U64_MOD -> u64_add x y = x + y.
Proof. apply to_u64_small. Qed.

Lemma u64_sub_small x y : 0 <= x - y < U64_MOD -> u64_sub x y = x - y.
Proof. apply to_u64_small. Qed.

Lemma u64_mul_small x y : 0 <= x * y < U64_MOD -> u64_mul x y = x * y.
Proof. apply to_u64_small. Qed.

(** [value & ~(alignment - 1)] on [w]-bit words: the mask [2^w - 2^k]
    clears the [k] low bits. *)
Lemma land_high_mask w k x :
  0 <= k <= w -> 0 <= x < 2 ^ w -> Z.land x (2 ^ w - 2 ^ k) = x / 2 ^ k * 2 ^ k.
Proof.
  intros Hk Hx.
  replace (2 ^ w - 2 ^ k) with (Z.shiftl (Z.ones (w - k)) k).
  2:{ rewrite Z.shiftl_mul_pow2, Z.ones_equiv by lia. unfold Z.pred.
      rewrite Z.mul_add_distr_r, <-Z.pow_add_r by lia. replace (w - k + k) with w by lia. lia. }
  rewrite <-Z.shiftl_mul_pow2, <-Z.shiftr_div_pow2 by lia.
  apply Z.bits_inj'. intros i Hi. rewrite Z.land_spec, !Z.shiftl_spec by done.
  destruct (Z.lt_ge_cases i k) as [Hl|Hl].
  { rewrite !(Z.testbit_neg_r _ (i - k)) by lia. apply andb_false_r. }
  rewrite Z.shiftr_spec by lia. replace (i - k + k) with i by lia.
  rewrite Z.testbit_ones by lia. destruct (Z.lt_ge_cases i w) as [Hw|Hw].
  - replace ((0 <=? i - k) && (i - k <? w - k)) with true by lia. apply andb_true_r.
  - destruct (Z.eq_dec x 0) as [->|]; [by rewrite Z.bits_0|].
    rewrite (Z.bits_above_log2 x); [done|lia|].
    apply Z.log2_lt_pow2; [lia|]. eapply Z.lt_le_trans; [apply Hx|].
    apply Z.pow_le_mono_r; lia.
Qed.

(** ** Results of fallible code

    [Err] carries the error value the source returns or throws.  [Fault]
    is what the source must never do: touch memory outside its buffer, or
    run a loop past the bound the model gives it. *)

Inductive fault :=
| OutOfBounds
| OutOfFuel.

Inductive result (E A : Type) :=
| Ok (a : A)
| Err (e : E)
| Fault (f : fault).
Arguments Ok {E A} a.
Arguments Err {E A} e.
Arguments Fault {E A} f.

#[global] Instance result_ret {E} : MRet (result E) := fun A a => Ok a.
#[global] Instance result_bind {E} : MBind (result E) := fun A B k m =>
  match m with
  | Ok a => k a
  | Err e => Err e
  | Fault f => Fault f
  end.

(** The error types of the source have a value that means success; a failing
    computation must not return it. *)
Class Failure (E : Type) := is_failure : E -> Prop.

(** A function that always returns a value of its result type. *)
#[export] Instance no_failure : Failure Empty_set := fun _ => False.

(** [safe r Q]: [r] does not fault, a successful [r] satisfies [Q], and an
    error of [r] is really one. *)
Definition safe {E} `{Failure E} {A} (r : result E A) (Q : A -> Prop) : Prop :=
  match r with
  | Ok a => Q a
  | Err e => is_failure e
  | Fault _ => False
  end.

Section safe.
Context {E : Type} `{!Failure E}.

Lemma safe_ok {A} (a : A) (Q : A -> Prop) : Q a -> safe (E:=E) (Ok a) Q.
Proof. done. Qed.

Lemma safe_bind {A B} (m : result E A) (k : A -> result E B) P Q :
  safe m P -> (forall a, P a -> safe (k a) Q) -> safe (m ≫= k) Q.
Proof. destruct m; simpl; auto. Qed.

(** [safe_bind], remembering which call gave the value. *)
Lemma safe_bind_eq {A B} (m : result E A) (k : A -> result E B) P Q :
  safe m P -> (forall a, m = Ok a -> P a -> safe (k a) Q) -> safe (m ≫= k) Q.
Proof. destruct m; simpl; auto. Qed.

Lemma safe_mono {A} (m : result E A) (P Q : A -> Prop) :
  safe m P -> (forall a, P a -> Q a) -> safe m Q.
Proof. destruct m; simpl; auto. Qed.

Lemma safe_conj {A} (m : result E A) (P Q : A -> Prop) :
  safe m P -> safe m Q -> safe m (fun a => P a /\ Q a).
Proof. destruct m; simpl; auto. Qed.

Lemma safe_no_fault {A} (m : result E A) Q f : safe m Q -> m <> Fault f.
Proof. by intros H ->. Qed.

Lemma safe_inv {A} (m : result E A) Q a : safe m Q -> m = Ok a -> Q a.
Proof. by intros H ->. Qed.
End safe.

Lemma bind_ok {E A B} (m : result E A) (k : A -> result E B) b :
  m ≫= k = Ok b -> exists a, m = Ok a /\ k a = Ok b.
Proof. destruct m; naive_solver. Qed.

Create HintDb safe discriminated.

(** One step of a [safe] goal: guards split with their equation, calls use
    the hint database, early exits disappear. *)
Ltac safe_step :=
  lazymatch goal with
  | |- safe (mret _) _ => apply safe_ok
  | |- safe (Ok _) _ => apply safe_ok
  | |- safe (if ?b then _ else _) _ => let E := fresh "Hg" in destruct b eqn:E
  | |- safe (match ?x with _ => _ end) _ => let E := fresh "Hm" in destruct x eqn:E
  | |- safe (mbind _ _) _ => eapply safe_bind; [solve [eauto with safe lia] | cbn beta; intros ]
  | |- safe (let _ := _ in _) _ => cbv zeta
  end.

(** [lia] with the defining equations of [/] and [mod]. *)
Ltac zlia := Z.to_euclidean_division_equations; lia.
