(* ===== verification/Order.v ===== *)
(** * Sorting and searching

    [std::sort], [std::lower_bound] and [std::upper_bound] as the loader
    and the runtime use them: on a vector, with a strict comparison given
    as a function.  [std_sort] is an insertion sort; the C++ library only
    promises a sorted permutation, and [sorted_perm_unique] shows there is
    one such permutation whenever the comparison separates the elements.
    The binary searches are the halving loops of the C++ library, over a
    vector, and are shown to find the partition point. *)

From S2P Require Import Prelude.

(** ** Strict comparisons *)

Class StrictWeak {A} (less : A -> A -> bool) : Prop := {
  less_asym : forall x y, less x y = true -> less y x = false;
  less_negtrans : forall x y z, less y x = false -> less z y = false -> less z x = false
}.

#[global] Instance strict_weak_key {A} (key : A -> Z) :
  StrictWeak (fun x y => key x <? key y).
Proof. split; intros; lia. Qed.

(** The C++ idiom [if (l.k != r.k) return l.k < r.k; return rest;]. *)
#[global] Instance strict_weak_lex {A} (key : A -> Z) (less : A -> A -> bool) :
  StrictWeak less ->
  StrictWeak (fun x y => if negb (key x =? key y) then key x <? key y else less x y).
Proof.
  intros H. split; intros x y; [|intros z].
  - destruct (Z.eqb_spec (key x) (key y)), (Z.eqb_spec (key y) (key x)); simpl; try lia.
    apply less_asym.
  - destruct (Z.eqb_spec (key y) (key x)), (Z.eqb_spec (key z) (key y)),
      (Z.eqb_spec (key z) (key x)); simpl; try lia.
    apply less_negtrans.
Qed.

(** [std::string::operator<]: lexicographic on unsigned characters. *)
Lemma string_ltb_leb (x y : string) : String.ltb x y = negb (String.leb y x).
Proof.
  unfold String.ltb, String.leb. rewrite (String.compare_antisym x y).
  by destruct (String.compare y x).
Qed.

#[global] Instance strict_weak_string : StrictWeak String.ltb.
Proof.
  split; intros x y; [|intros z]; rewrite !string_ltb_leb.
  - destruct (String.leb_total x y) as [->|H]; [done|]. by rewrite H.
  - rewrite !negb_false_iff, <-!Is_true_true. intros H1 H2.
    by apply (transitivity (R:=String.le) (y:=y)).
Qed.

Lemma string_ltb_separates (x y : string) :
  String.ltb x y = false -> String.ltb y x = false -> x = y.
Proof.
  rewrite !string_ltb_leb, !negb_false_iff. intros. by apply String.leb_antisym.
Qed.

Lemma string_ltb_irrefl (x : string) : String.ltb x x = false.
Proof. rewrite string_ltb_leb. by destruct (String.leb_total x x) as [-> | ->]. Qed.

#[global] Instance strict_weak_string_lex {A} (key : A -> string) (less : A -> A -> bool) :
  StrictWeak less ->
  StrictWeak (fun x y => if negb (String.eqb (key x) (key y))
                         then String.ltb (key x) (key y) else less x y).
Proof.
  intros H. split; intros x y; [|intros z].
  - destruct (String.eqb_spec (key x) (key y)) as [He|], (String.eqb_spec (key y) (key x));
      simpl; try congruence; [apply less_asym|apply less_asym].
  - destruct (String.eqb_spec (key y) (key x)) as [Hyx|Hyx];
      destruct (String.eqb_spec (key z) (key y)) as [Hzy|Hzy];
      destruct (String.eqb_spec (key z) (key x)) as [Hzx|Hzx]; simpl; try congruence.
    + apply less_negtrans.
    + intros H1 H2. destruct Hyx. rewrite <-Hzx.
      apply string_ltb_separates; [|done]. by rewrite Hzx.
    + intros H1 H2. by eapply less_negtrans.
Qed.

(** ** Sorting *)

Section sorting.
Context {A : Type} (less : A -> A -> bool).

(** [x] may stand before [y] in a sorted range: not [y < x]. *)
Definition not_after (x y : A) : Prop := less y x = false.

Fixpoint sort_insert (x : A) (l : list A) : list A :=
  match l with
  | [] => [x]
  | y :: l' => if less y x then y :: sort_insert x l' else x :: y :: l'
  end.

Fixpoint std_sort (l : list A) : list A :=
  match l with
  | [] => []
  | x :: l' => sort_insert x (std_sort l')
  end.

Lemma sort_insert_perm x l : sort_insert x l ≡ₚ x :: l.
Proof.
  induction l as [|y l IH]; simpl; [done|].
  destruct (less y x); [|done]. rewrite IH. apply Permutation_swap.
Qed.

Lemma std_sort_perm l : std_sort l ≡ₚ l.
Proof. induction l as [|x l IH]; simpl; [done|]. by rewrite sort_insert_perm, IH. Qed.

Lemma elem_of_std_sort x l : x ∈ std_sort l <-> x ∈ l.
Proof. by rewrite std_sort_perm. Qed.

Lemma Forall_std_sort P l : Forall P (std_sort l) <-> Forall P l.
Proof. by rewrite std_sort_perm. Qed.

Lemma length_std_sort l : length (std_sort l) = length l.
Proof. by rewrite std_sort_perm. Qed.

Context `{!StrictWeak less}.

Lemma sort_insert_sorted x l :
  StronglySorted not_after l -> StronglySorted not_after (sort_insert x l).
Proof.
  induction 1 as [|y l Hs IH Hy]; simpl; [by repeat constructor|].
  destruct (less y x) eqn:E.
  - constructor; [done|]. rewrite sort_insert_perm. constructor; [|done].
    by apply less_asym.
  - constructor; [by constructor|]. constructor; [done|].
    eapply Forall_impl; [exact Hy|]. intros z Hz. by eapply less_negtrans.
Qed.

Lemma std_sort_sorted l : StronglySorted not_after (std_sort l).
Proof. induction l as [|x l IH]; simpl; [constructor|]. by apply sort_insert_sorted. Qed.

(** When the comparison separates distinct elements of a range, the sorted
    permutation is unique: the algorithm behind [std::sort] is irrelevant. *)
Lemma sorted_perm_unique (l1 l2 : list A) :
  StronglySorted not_after l1 -> StronglySorted not_after l2 -> l1 ≡ₚ l2 ->
  (forall x y, x ∈ l1 -> y ∈ l1 -> not_after x y -> not_after y x -> x = y) ->
  l1 = l2.
Proof.
  intros Hs1. revert l2. induction Hs1 as [|x l1 Hs1 IH Hx]; intros l2 Hs2 Hp Hsep.
  { symmetry. by apply Permutation_nil. }
  destruct Hs2 as [|y l2 Hs2 Hy]; [by apply Permutation_nil_r in Hp|].
  assert (x = y) as ->.
  { assert (x ∈ y :: l2) as Hin by (rewrite <-Hp; left).
    assert (y ∈ x :: l1) as Hin' by (rewrite Hp; left).
    apply elem_of_cons in Hin as [->|Hin]; [done|].
    apply elem_of_cons in Hin' as [->|Hin']; [done|].
    rewrite Forall_forall in Hx, Hy.
    apply Hsep; [left | by right | by apply Hx | by apply Hy]. }
  f_equal. apply IH; [done|by eapply Permutation_cons_inv|].
  intros; apply Hsep; by try right.
Qed.
End sorting.

Arguments not_after {A} less x y /.

(** A range sorted by a numeric key and with pairwise distinct keys is
    strictly increasing. *)
Lemma filter_none {A} (P : A -> Prop) `{!forall x, Decision (P x)} (l : list A) :
  Forall (fun x => ~ P x) l -> filter P l = [].
Proof. induction 1; [done|]. by rewrite filter_cons_False. Qed.

Lemma StronglySorted_drop {A} (R : relation A) n (l : list A) :
  StronglySorted R l -> StronglySorted R (drop n l).
Proof.
  revert n. induction l as [|x l IH]; intros [|n] H; try done.
  apply IH. by apply StronglySorted_inv in H as [? _].
Qed.

Lemma StronglySorted_impl {A} (R S : A -> A -> Prop) l :
  (forall x y, x ∈ l -> y ∈ l -> R x y -> S x y) -> StronglySorted R l -> StronglySorted S l.
Proof.
  intros HRS Hs. induction Hs as [|x l Hs IH Hx]; [constructor|]. constructor.
  - apply IH. intros; apply HRS; by try right.
  - rewrite Forall_forall in Hx |- *. intros y Hy. apply HRS; [left|by right|auto].
Qed.

Lemma StronglySorted_lookup {A} (R : A -> A -> Prop) (l : list A) (i j : nat) x y :
  StronglySorted R l -> l !! i = Some x -> l !! j = Some y -> (i < j)%nat -> R x y.
Proof.
  intros Hs. revert i j. induction Hs as [|z l Hs IH Hz]; intros i j Hi Hj Hij; [done|].
  destruct j as [|j]; [lia|]. simpl in Hj. destruct i as [|i]; simpl in Hi.
  - simplify_eq. rewrite Forall_forall in Hz. apply Hz. by eapply list_elem_of_lookup_2.
  - eapply IH; eauto with lia.
Qed.

(** ** Binary search *)

Section search.
Context {A : Type}.

(** The halving loop shared by [std::lower_bound] and [std::upper_bound]:
    [goes_right] says that the sought position is after the probed one. *)
Fixpoint bisect (goes_right : A -> bool) (l : list A) (fuel first len : nat) : nat :=
  match fuel with
  | O => first
  | S fuel =>
      match len with
      | O => first
      | _ =>
          let half := (len / 2)%nat in
          let middle := (first + half)%nat in
          match l !! middle with
          | None => first
          | Some x =>
              if goes_right x
              then bisect goes_right l fuel (middle + 1) (len - half - 1)
              else bisect goes_right l fuel first half
          end
      end
  end.

Definition std_lower_bound {B} (less : A -> B -> bool) (l : list A) (v : B) : nat :=
  bisect (fun x => less x v) l (length l) 0 (length l).

Definition std_upper_bound {B} (less : B -> A -> bool) (l : list A) (v : B) : nat :=
  bisect (fun x => negb (less v x)) l (length l) 0 (length l).

(** [l] is partitioned by [p]: no [false] element precedes a [true] one. *)
Definition partitioned (p : A -> bool) (l : list A) : Prop :=
  StronglySorted (fun x y => p y = true -> p x = true) l.

Lemma bisect_spec p (l : list A) fuel first len :
  partitioned p l ->
  (len <= fuel)%nat -> (first + len <= length l)%nat ->
  (forall i x, (i < first)%nat -> l !! i = Some x -> p x = true) ->
  (forall i x, (first + len <= i)%nat -> l !! i = Some x -> p x = false) ->
  let r := bisect p l fuel first len in
  (r <= length l)%nat /\
  (forall i x, (i < r)%nat -> l !! i = Some x -> p x = true) /\
  (forall i x, (r <= i)%nat -> l !! i = Some x -> p x = false).
Proof.
  intros Hp. revert first len.
  induction fuel as [|fuel IH]; intros first len Hf Hlen Hl Hr; cbn [bisect]; cbv zeta.
  { split_and!; [lia|done|]. intros i x Hi. apply Hr; lia. }
  destruct len as [|len'] eqn:Elen; [split_and!; [lia|done|]; intros i x Hi; apply Hr; lia|].
  rewrite <-Elen in *. assert (0 < len)%nat as Hpos by lia. clear Elen.
  pose proof (Nat.div_lt len 2 ltac:(lia) ltac:(lia)) as Hhalf.
  set (half := (len / 2)%nat) in *. clearbody half.
  destruct (l !! (first + half)%nat) as [m|] eqn:Em.
  2:{ apply lookup_ge_None_1 in Em. lia. }
  destruct (p m) eqn:Epm; apply IH; try lia; intros i x Hi Hx.
  - destruct (decide (i < first)%nat); [by eapply Hl|].
    destruct (decide (i = first + half)%nat) as [->|]; [by simplify_eq|].
    revert Epm. apply (StronglySorted_lookup _ l i (first + half) x m Hp Hx Em). lia.
  - eapply Hr; [|done]. lia.
  - by eapply Hl.
  - destruct (decide (i = first + half)%nat) as [->|]; [by simplify_eq|].
    destruct (p x) eqn:Epx; [|done]. rewrite <-Epm. symmetry. revert Epx.
    apply (StronglySorted_lookup _ l (first + half) i m x Hp Em Hx). lia.
Qed.

(** The partition point: [r] elements satisfy [p] and the rest do not. *)
Lemma bisect_partition p (l : list A) :
  partitioned p l ->
  let r := bisect p l (length l) 0 (length l) in
  (r <= length l)%nat /\
  (forall i x, (i < r)%nat -> l !! i = Some x -> p x = true) /\
  (forall i x, (r <= i)%nat -> l !! i = Some x -> p x = false).
Proof.
  intros Hp. apply bisect_spec; try lia; [done|].
  intros i x Hi Hx. apply lookup_lt_Some in Hx. lia.
Qed.
End search.

(** ** Pairwise relations and ranges *)

(** [R] holds of every two elements at distinct positions ([R] symmetric). *)
Abbreviation pairwise R l := (StronglySorted R l).

Lemma pairwise_perm {A} (R : A -> A -> Prop) l1 l2 :
  Symmetric R -> l1 ≡ₚ l2 -> pairwise R l1 -> pairwise R l2.
Proof.
  intros HR. induction 1 as [|x l1 l2 Hp IH|x y l|l1 l2 l3 _ IH1 _ IH2]; auto.
  - inversion 1 as [|? ? Hs Hx]; subst. constructor; [auto|]. by rewrite <-Hp.
  - inversion 1 as [|? ? Hs Hx]; subst. inversion Hs as [|? ? Hs' Hy]; subst.
    inversion Hx as [|? ? Hxy Hx']; subst.
    repeat constructor; auto.
Qed.

Lemma pairwise_filter {A} (R : A -> A -> Prop) (P : A -> Prop) `{!forall x, Decision (P x)} l :
  pairwise R (filter P l) <-> pairwise (fun x y => P x -> P y -> R x y) l.
Proof.
  induction l as [|x l IH]; [split; constructor|].
  rewrite filter_cons. case_decide as HP.
  - split; inversion 1 as [|? ? Hs Hx]; subst; (constructor; [by apply IH|]);
      rewrite Forall_forall in Hx |- *.
    + intros y Hy _ HPy. apply Hx. by apply list_elem_of_filter.
    + intros y [HPy Hy]%list_elem_of_filter. by apply Hx.
  - split; [intros Hs|by inversion 1; subst; apply IH].
    constructor; [by apply IH|]. by rewrite Forall_forall.
Qed.

(** What every two sources guarantee, their images under a list-valued map
    have. *)
Lemma pairwise_bind {A B} (R : A -> A -> Prop) (S : B -> B -> Prop) (f : A -> list B) l :
  pairwise R l -> (forall x, x ∈ l -> pairwise S (f x)) ->
  (forall x y a b, x ∈ l -> y ∈ l -> R x y -> a ∈ f x -> b ∈ f y -> S a b) ->
  pairwise S (l ≫= f).
Proof.
  intros HR Hf HS. induction l as [|x l IH]; [constructor|].
  apply StronglySorted_cons in HR as [Hx HR]. rewrite Forall_forall in Hx.
  simpl. apply StronglySorted_app_2.
  - intros a b Ha (y & Hb & Hy)%list_elem_of_bind.
    eapply (HS x y); [left|by right|by apply Hx|done|done].
  - apply Hf. left.
  - apply IH; [done|intros; apply Hf; by right|]. intros. eapply (HS x0 y); eauto; by right.
Qed.

Section ranges.
Context {A : Type} (start size : A -> Z).

Definition before (x y : A) : Prop := start x + size x <= start y.
Definition apart (x y : A) : Prop := before x y \/ before y x.

#[global] Instance apart_symmetric : Symmetric apart.
Proof. intros x y. unfold apart. tauto. Qed.

Lemma ordered_apart l : StronglySorted before l -> pairwise apart l.
Proof. apply StronglySorted_impl. by left. Qed.

(** Consecutive ranges in order are all in order. *)
Lemma ordered_of_adjacent l :
  Forall (fun x => 0 <= size x) l -> Sorted before l -> StronglySorted before l.
Proof.
  intros Hsz. induction 1 as [|x l Hs IH Hx]; [constructor|].
  apply Forall_cons in Hsz as [Hx0 Hsz]. specialize (IH Hsz).
  constructor; [done|]. destruct Hx as [|y l Hxy]; [constructor|].
  inversion IH as [|? ? _ Hy]; subst. apply Forall_cons in Hsz as [Hy0 _].
  constructor; [done|]. eapply Forall_impl; [exact Hy|].
  unfold before in *. simpl. lia.
Qed.

(** Disjoint non-empty ranges sorted by their start are in order. *)
Lemma ordered_of_sorted_apart l :
  Forall (fun x => 0 < size x) l ->
  StronglySorted (fun x y => start x <= start y) l -> pairwise apart l ->
  StronglySorted before l.
Proof.
  intros Hsz Hs Ha. induction l as [|x l IH]; [constructor|].
  apply Forall_cons in Hsz as [Hx Hsz].
  inversion Hs as [|? ? Hs' Hsx]; inversion Ha as [|? ? Ha' Hax]; subst.
  constructor; [auto|]. rewrite Forall_forall in *. intros y Hy.
  specialize (Hsx y Hy). specialize (Hsz y Hy). specialize (Hax y Hy).
  unfold apart, before in *. lia.
Qed.

(** Sorting disjoint non-empty ranges by their start puts them in order. *)
Lemma sort_ordered (less : A -> A -> bool) `{!StrictWeak less} l :
  (forall x y, less y x = false -> start x <= start y) ->
  Forall (fun x => 0 < size x) l -> pairwise apart l ->
  StronglySorted before (std_sort less l).
Proof.
  intros Hless Hsz Ha. apply ordered_of_sorted_apart.
  - by apply Forall_std_sort.
  - eapply StronglySorted_impl; [|apply std_sort_sorted; apply _]. intros; by apply Hless.
  - eapply pairwise_perm; [apply _|symmetry; apply std_sort_perm|done].
Qed.
End ranges.
