(* ===== verification/Memory.v ===== *)
(** * Byte buffers

    The buffers the program reads and writes through raw pointers: an HSACO
    file, an image allocation, a kernarg segment, an AQL ring.  Every access
    is bounds-checked in the model and an access outside the buffer is a
    [Fault], so that a proof of [safe] is a proof of memory safety.  The
    little-endian readers are the loops of [read_u16], [read_u32] and
    [read_u64] in [loader/elf_reader.cpp] (repeated in the other readers). *)

From S2P Require Import Prelude.

From Stdlib Require Export Strings.Byte.

Abbreviation bytes := (list byte).

#[export] Instance byte_eq_decision : EqDecision byte := Byte.byte_eq_dec.

Definition byte_val (b : byte) : Z := Z.of_N (Byte.to_N b).

Definition byte_of (z : Z) : byte :=
  default x00 (Byte.of_N (Z.to_N (z mod U8_MOD))).

Definition size_of (data : bytes) : Z := Z.of_nat (length data).

(** ** Accesses *)

Section access.
Context {E : Type}.

(** [data[offset]] *)
Definition read_u8 (data : bytes) (offset : Z) : result E Z :=
  if (0 <=? offset) && (offset <? size_of data) then
    match data !! Z.to_nat offset with
    | Some b => Ok (byte_val b)
    | None => Fault OutOfBounds
    end
  else Fault OutOfBounds.

Definition read_u16 (data : bytes) (offset : Z) : result E Z :=
  b0 ← read_u8 data offset;
  b1 ← read_u8 data (offset + 1);
  Ok (Z.lor b0 (to_u16 (Z.shiftl b1 8))).

(** [for (byte = index; ...) value |= data[byte] << (byte * 8)]; the shifted
    byte fits the word, so nothing is truncated. *)
Fixpoint read_loop (data : bytes) (offset : Z) (remaining : nat) (index value : Z)
  : result E Z :=
  match remaining with
  | O => Ok value
  | S remaining =>
      b ← read_u8 data (offset + index);
      read_loop data offset remaining (index + 1) (Z.lor value (Z.shiftl b (index * 8)))
  end.

Definition read_u32 (data : bytes) (offset : Z) : result E Z :=
  read_loop data offset 4 0 0.

Definition read_u64 (data : bytes) (offset : Z) : result E Z :=
  read_loop data offset 8 0 0.

Definition read_i64 (data : bytes) (offset : Z) : result E Z :=
  bits ← read_u64 data offset; Ok (to_i64 bits).

(** The [count] bytes at [offset], as [memcpy] and [memcmp] read them. *)
Definition read_bytes (data : bytes) (offset count : Z) : result E bytes :=
  if (0 <=? offset) && (0 <=? count) && (offset + count <=? size_of data)
  then Ok (take (Z.to_nat count) (drop (Z.to_nat offset) data))
  else Fault OutOfBounds.

(** [memcpy(memory + offset, source, source.size)] *)
Definition write_bytes (memory : bytes) (offset : Z) (source : bytes) : result E bytes :=
  if (0 <=? offset) && (offset + size_of source <=? size_of memory)
  then Ok (take (Z.to_nat offset) memory ++ source ++
           drop (Z.to_nat offset + length source) memory)
  else Fault OutOfBounds.

(** [memset(memory + offset, 0, count)] *)
Definition write_zeros (memory : bytes) (offset count : Z) : result E bytes :=
  write_bytes memory offset (replicate (Z.to_nat count) x00).
End access.

(** Little-endian value of a byte string and its inverse. *)
Fixpoint le_value (l : bytes) : Z :=
  match l with
  | [] => 0
  | b :: l => byte_val b + U8_MOD * le_value l
  end.

Fixpoint le_bytes (n : nat) (z : Z) : bytes :=
  match n with
  | O => []
  | S n => byte_of z :: le_bytes n (z / U8_MOD)
  end.

(** ** Bytes *)

Lemma byte_val_range b : is_u8 (byte_val b).
Proof. unfold byte_val. pose proof (Byte.to_N_bounded b). lia. Qed.

Lemma byte_val_of z : byte_val (byte_of z) = z mod U8_MOD.
Proof.
  unfold byte_val, byte_of.
  assert (0 <= z mod U8_MOD < U8_MOD) by (apply Z.mod_pos_bound; lia).
  destruct (Byte.of_N _) as [b|] eqn:E; simpl.
  - apply Byte.to_of_N_iff in E. rewrite E. lia.
  - apply Byte.of_N_None_iff in E. lia.
Qed.

Lemma byte_of_val b : byte_of (byte_val b) = b.
Proof.
  unfold byte_of. rewrite Z.mod_small by apply byte_val_range.
  unfold byte_val. by rewrite N2Z.id, Byte.of_to_N.
Qed.

Lemma le_value_range l : 0 <= le_value l < 2 ^ (8 * Z.of_nat (length l)).
Proof.
  induction l as [|b l IH]; simpl le_value; [simpl; lia|].
  pose proof (byte_val_range b).
  replace (8 * Z.of_nat (length (b :: l))) with (8 + 8 * Z.of_nat (length l)) by (simpl; lia).
  rewrite Z.pow_add_r by lia. change (2 ^ 8) with U8_MOD. nia.
Qed.

Lemma length_le_bytes n z : length (le_bytes n z) = n.
Proof. revert z. induction n; intros; simpl; auto. Qed.

Lemma le_value_bytes n z : le_value (le_bytes n z) = z mod 2 ^ (8 * Z.of_nat n).
Proof.
  revert z. induction n as [|n IH]; intros z; [by rewrite Z.mod_1_r|].
  cbn [le_bytes le_value]. rewrite IH, byte_val_of.
  replace (8 * Z.of_nat (S n)) with (8 + 8 * Z.of_nat n) by lia.
  rewrite Z.pow_add_r by lia. change (2 ^ 8) with U8_MOD.
  rewrite (Z.rem_mul_r z) by lia. lia.
Qed.

Lemma le_bytes_value l : le_bytes (length l) (le_value l) = l.
Proof.
  induction l as [|b l IH]; [done|]. cbn [length le_value le_bytes].
  pose proof (byte_val_range b). f_equal.
  - rewrite <-(byte_of_val b) at 2. unfold byte_of.
    rewrite Z.mul_comm, Z.mod_add by lia. done.
  - rewrite Z.mul_comm, Z.div_add, Z.div_small, Z.add_0_l by lia. done.
Qed.

(** ** Reads *)

Section reads.
Context {E : Type} `{!Failure E}.

Lemma read_u8_ok (data : bytes) offset :
  0 <= offset < size_of data ->
  exists b, data !! Z.to_nat offset = Some b /\
            read_u8 (E:=E) data offset = Ok (byte_val b).
Proof.
  intros H. unfold read_u8.
  destruct (lookup_lt_is_Some_2 data (Z.to_nat offset)) as [b Hb].
  { unfold size_of in H. lia. }
  exists b. split; [done|]. rewrite Hb.
  destruct (_ && _) eqn:G; [done|lia].
Qed.

Lemma lor_add_disjoint a b k : 0 <= k -> 0 <= a < 2 ^ k -> Z.lor a (Z.shiftl b k) = a + b * 2 ^ k.
Proof.
  intros Hk Ha. rewrite <-Z.shiftl_mul_pow2 by done.
  rewrite Z.add_nocarry_lxor; [symmetry; apply Z.lxor_lor|]; apply Z.bits_inj'; intros i Hi;
    rewrite Z.land_spec, Z.bits_0, Z.shiftl_spec by done.
  all: destruct (Z.lt_ge_cases i k) as [Hlt|Hge];
    [by rewrite (Z.testbit_neg_r b), andb_false_r by lia|].
  all: rewrite <-(Z.mod_small a (2 ^ k)) by done;
    by rewrite Z.mod_pow2_bits_high.
Qed.

Lemma read_loop_value (data : bytes) offset remaining index value :
  0 <= offset -> 0 <= index -> 0 <= value < 2 ^ (index * 8) ->
  offset + index + Z.of_nat remaining <= size_of data ->
  read_loop (E:=E) data offset remaining index value =
  Ok (value + 2 ^ (index * 8) *
        le_value (take remaining (drop (Z.to_nat (offset + index)) data))).
Proof.
  intros Ho. revert index value.
  induction remaining as [|n IH]; intros index value Hi Hv Hs; cbn [read_loop take].
  { change (take 0 _) with (@nil byte). cbn [le_value]. f_equal. lia. }
  destruct (read_u8_ok data (offset + index)) as (b & Hb & ->); [lia|]. cbn [mbind result_bind].
  pose proof (byte_val_range b). rewrite lor_add_disjoint by (done || lia).
  rewrite IH; try lia.
  - rewrite (drop_S data b (Z.to_nat (offset + index))) by done. cbn [firstn le_value].
    replace (Z.to_nat (offset + (index + 1))) with (S (Z.to_nat (offset + index))) by lia.
    replace ((index + 1) * 8) with (index * 8 + 8) by lia.
    rewrite Z.pow_add_r by lia. change (2 ^ 8) with U8_MOD. f_equal. lia.
  - replace ((index + 1) * 8) with (index * 8 + 8) by lia.
    rewrite Z.pow_add_r by lia. change (2 ^ 8) with U8_MOD. nia.
Qed.

Lemma read_u64_value (data : bytes) offset :
  0 <= offset -> offset + 8 <= size_of data ->
  read_u64 (E:=E) data offset = Ok (le_value (take 8 (drop (Z.to_nat offset) data))).
Proof.
  intros H1 H2. unfold read_u64. rewrite read_loop_value by (simpl; lia).
  rewrite Z.add_0_r. f_equal. change (2 ^ (0 * 8)) with 1. lia.
Qed.

Lemma read_u32_value (data : bytes) offset :
  0 <= offset -> offset + 4 <= size_of data ->
  read_u32 (E:=E) data offset = Ok (le_value (take 4 (drop (Z.to_nat offset) data))).
Proof.
  intros H1 H2. unfold read_u32. rewrite read_loop_value by (simpl; lia).
  rewrite Z.add_0_r. f_equal. change (2 ^ (0 * 8)) with 1. lia.
Qed.

Lemma read_u16_value (data : bytes) offset :
  0 <= offset -> offset + 2 <= size_of data ->
  read_u16 (E:=E) data offset = Ok (le_value (take 2 (drop (Z.to_nat offset) data))).
Proof.
  intros H1 H2. unfold read_u16.
  destruct (read_u8_ok data offset ltac:(lia)) as (b0 & L0 & ->).
  destruct (read_u8_ok data (offset + 1) ltac:(lia)) as (b1 & L1 & ->). cbn [mbind result_bind].
  pose proof (byte_val_range b0) as H3. pose proof (byte_val_range b1) as H4.
  rewrite (drop_S _ _ _ L0). replace (S (Z.to_nat offset)) with (Z.to_nat (offset + 1)) by lia.
  rewrite (drop_S _ _ _ L1). cbn [firstn le_value].
  rewrite to_u16_small by (rewrite Z.shiftl_mul_pow2 by lia; change (2 ^ 8) with U8_MOD; lia).
  rewrite lor_add_disjoint by (change (2 ^ 8) with U8_MOD; lia). change (2 ^ 8) with U8_MOD. rewrite take_0. cbn [le_value]. f_equal. lia.
Qed.

Lemma slice_value_range n k (data : bytes) :
  0 <= le_value (take n (drop k data)) < 2 ^ (8 * Z.of_nat n).
Proof.
  pose proof (le_value_range (take n (drop k data))) as H.
  rewrite length_take in H. split; [lia|].
  eapply Z.lt_le_trans; [apply H|]. apply Z.pow_le_mono_r; lia.
Qed.

Lemma read_u8_safe (data : bytes) offset :
  0 <= offset < size_of data ->
  safe (read_u8 (E:=E) data offset) (fun v => is_u8 v).
Proof.
  intros H. destruct (read_u8_ok data offset H) as (b & _ & ->).
  apply byte_val_range.
Qed.

Lemma read_u16_safe (data : bytes) offset :
  0 <= offset -> offset + 2 <= size_of data ->
  safe (read_u16 (E:=E) data offset) (fun v => is_u16 v).
Proof.
  intros H1 H2. unfold read_u16.
  eapply safe_bind; [apply read_u8_safe; lia|]. cbn beta; intros b0 H0.
  eapply safe_bind; [apply read_u8_safe; lia|]. cbn beta; intros b1 H3.
  simpl. rewrite to_u16_small.
  - rewrite lor_add_disjoint by (change (2 ^ 8) with U8_MOD; lia).
    change (2 ^ 8) with U8_MOD. lia.
  - rewrite Z.shiftl_mul_pow2 by lia. change (2 ^ 8) with U8_MOD. lia.
Qed.

Lemma read_u32_safe (data : bytes) offset :
  0 <= offset -> offset + 4 <= size_of data ->
  safe (read_u32 (E:=E) data offset) (fun v => is_u32 v).
Proof. intros. rewrite read_u32_value by done. apply (slice_value_range 4). Qed.

Lemma read_u64_safe (data : bytes) offset :
  0 <= offset -> offset + 8 <= size_of data ->
  safe (read_u64 (E:=E) data offset) (fun v => is_u64 v).
Proof. intros. rewrite read_u64_value by done. apply (slice_value_range 8). Qed.

Lemma read_i64_safe (data : bytes) offset :
  0 <= offset -> offset + 8 <= size_of data ->
  safe (read_i64 (E:=E) data offset)
    (fun v => -9223372036854775808 <= v < 9223372036854775808).
Proof.
  intros. unfold read_i64. eapply safe_bind; [by apply read_u64_safe|].
  cbn beta; intros v Hv. simpl. unfold to_i64. case_match; lia.
Qed.

Lemma read_bytes_safe (data : bytes) offset count :
  0 <= offset -> 0 <= count -> offset + count <= size_of data ->
  safe (read_bytes (E:=E) data offset count)
    (fun l => l = take (Z.to_nat count) (drop (Z.to_nat offset) data) /\
              size_of l = count).
Proof.
  intros. unfold read_bytes. destruct (_ && _) eqn:G; [|lia]. simpl. split; [done|].
  unfold size_of in *. rewrite length_take, length_drop. lia.
Qed.
End reads.

#[export] Hint Resolve read_u8_safe read_u16_safe read_u32_safe read_u64_safe
  read_i64_safe read_bytes_safe : safe.

(** ** Writes *)

Section writes.
Context {E : Type} `{!Failure E}.

(** The memory after a write, byte by byte. *)
Definition written (memory : bytes) (offset : Z) (source memory' : bytes) : Prop :=
  length memory' = length memory /\
  forall i : nat, memory' !! i =
    if (offset <=? Z.of_nat i) && (Z.of_nat i <? offset + size_of source)
    then source !! (i - Z.to_nat offset)%nat else memory !! i.

Lemma write_bytes_spec (memory source : bytes) offset :
  0 <= offset -> offset + size_of source <= size_of memory ->
  exists memory', write_bytes (E:=E) memory offset source = Ok memory' /\
                  written memory offset source memory'.
Proof.
  intros H1 H2. unfold write_bytes. destruct (_ && _) eqn:G; [|lia]. clear G.
  eexists. split; [done|]. unfold size_of in *. split.
  { rewrite !length_app, length_take, length_drop. lia. }
  intros i. unfold size_of. destruct (_ && _) eqn:G.
  - rewrite lookup_app_r by (rewrite length_take; lia). rewrite length_take.
    rewrite lookup_app_l by lia. f_equal. lia.
  - destruct (decide (i < Z.to_nat offset)%nat).
    + rewrite lookup_app_l by (rewrite length_take; lia). apply lookup_take_lt; lia.
    + rewrite lookup_app_r by (rewrite length_take; lia). rewrite length_take.
      rewrite lookup_app_r by lia. rewrite lookup_drop. f_equal. lia.
Qed.

Lemma write_bytes_safe (memory source : bytes) offset :
  0 <= offset -> offset + size_of source <= size_of memory ->
  safe (write_bytes (E:=E) memory offset source) (written memory offset source).
Proof.
  intros H1 H2. destruct (write_bytes_spec memory source offset H1 H2) as (m & -> & H).
  done.
Qed.

Lemma write_zeros_safe (memory : bytes) offset count :
  0 <= offset -> 0 <= count -> offset + count <= size_of memory ->
  safe (write_zeros (E:=E) memory offset count)
    (written memory offset (replicate (Z.to_nat count) x00)).
Proof.
  intros. apply write_bytes_safe; [done|]. unfold size_of in *.
  rewrite length_replicate. lia.
Qed.
End writes.

#[export] Hint Resolve write_bytes_safe write_zeros_safe : safe.

(** ** Slices *)

(** Byte [i] of the memory lies in the [n] bytes at [start]. *)
Definition covers (start n : Z) (i : nat) : Prop := start <= Z.of_nat i < start + n.

#[export] Instance covers_dec start n i : Decision (covers start n i).
Proof. unfold covers. apply _. Defined.

(** The [n] bytes at [offset]. *)
Definition slice (memory : bytes) (offset : Z) (n : nat) : bytes :=
  take n (drop (Z.to_nat offset) memory).

Lemma slice_ext (m1 m2 : bytes) offset n :
  0 <= offset -> (forall i, covers offset (Z.of_nat n) i -> m1 !! i = m2 !! i) ->
  slice m1 offset n = slice m2 offset n.
Proof.
  intros Ho H. apply list_eq. intros i. unfold slice.
  destruct (decide (i < n)%nat).
  - rewrite !lookup_take_lt, !lookup_drop by done. apply H. unfold covers. lia.
  - by rewrite !lookup_take_ge by lia.
Qed.

Lemma written_slice (memory new source : bytes) offset :
  0 <= offset -> written memory offset source new ->
  slice new offset (length source) = source.
Proof.
  intros Ho [_ Hw]. apply list_eq. intros i. unfold slice.
  destruct (decide (i < length source)%nat).
  - rewrite lookup_take_lt, lookup_drop, Hw by done. unfold size_of.
    destruct (_ && _) eqn:G; [|lia]. f_equal. lia.
  - rewrite lookup_take_ge by lia. symmetry. apply lookup_ge_None. lia.
Qed.
