(* ===== verification/CodeObject.v ===== *)
(** * Code objects

    The data model of [loader/include/light_rocr/loader/code_object.hpp]:
    what the loader produces from an AMDHSA code object and what the runtime
    consumes.  The enumerations sit in modules of their own, so that their
    constructors read as in the source ([ParseErrorCode.MalformedNote]).
    Record fields carry a short prefix for their struct.  Numbers are [Z],
    with the ranges of their C++ types stated by the well-formedness
    predicates of the components that need them. *)

From S2P Require Import Prelude Memory.

Definition kAmdgpuHsaOsAbi : Z := 64.
Definition kMinimumSupportedAmdgpuHsaAbiVersion : Z := 3.
Definition kMaximumSupportedAmdgpuHsaAbiVersion : Z := 4.
Definition kAmdgpuTargetMachineMask : Z := 0xff.
Definition kAmdgpuMachineGfx1101 : Z := 0x46.

Module ParseErrorCode.
Inductive t :=
| None
| InvalidArgument
| TruncatedElfHeader
| InvalidElfMagic
| UnsupportedElfClass
| UnsupportedEndianness
| UnsupportedElfVersion
| UnsupportedOsAbi
| UnsupportedAbiVersion
| UnsupportedObjectType
| UnsupportedMachine
| UnsupportedTarget
| InvalidElfHeaderSize
| MissingProgramHeaders
| UnsupportedExtendedProgramHeaderCount
| InvalidProgramHeaderEntrySize
| ProgramHeaderTableOutOfBounds
| InvalidSegmentFlags
| SegmentFileSizeExceedsMemorySize
| SegmentFileRangeOutOfBounds
| SegmentVirtualRangeOverflow
| InvalidSegmentAlignment
| IncongruentSegmentAlignment
| OverlappingSegmentFileRanges
| OverlappingSegmentVirtualRanges
| MissingLoadSegments
| MalformedNote
| DuplicateMetadataNote
| UnsupportedMetadataEncoding
| InvalidMetadata
| UnsupportedMetadataVersion
| MetadataTargetMismatch
| MissingDynamicSegment
| DuplicateDynamicSegment
| InvalidDynamicTable
| MissingDynamicEntry
| InvalidSymbolTable
| InvalidStringTable
| MissingKernelSymbol
| InvalidKernelSymbol
| KernelDescriptorOutOfBounds
| InvalidKernelDescriptor
| KernelMetadataMismatch
| KernelEntryOutOfBounds
| InvalidRelocationTable
| UnsupportedRelocationFormat
| UnsupportedRelocationType
| RelocationSymbolOutOfBounds
| RelocationTargetOutOfBounds.

#[global] Instance t_eq_dec : EqDecision t.
Proof. solve_decision. Defined.
End ParseErrorCode.

Definition parse_error_code_name (code : ParseErrorCode.t) : string :=
  match code with
  | ParseErrorCode.None => "none"
  | ParseErrorCode.InvalidArgument => "invalid_argument"
  | ParseErrorCode.TruncatedElfHeader => "truncated_elf_header"
  | ParseErrorCode.InvalidElfMagic => "invalid_elf_magic"
  | ParseErrorCode.UnsupportedElfClass => "unsupported_elf_class"
  | ParseErrorCode.UnsupportedEndianness => "unsupported_endianness"
  | ParseErrorCode.UnsupportedElfVersion => "unsupported_elf_version"
  | ParseErrorCode.UnsupportedOsAbi => "unsupported_os_abi"
  | ParseErrorCode.UnsupportedAbiVersion => "unsupported_abi_version"
  | ParseErrorCode.UnsupportedObjectType => "unsupported_object_type"
  | ParseErrorCode.UnsupportedMachine => "unsupported_machine"
  | ParseErrorCode.UnsupportedTarget => "unsupported_target"
  | ParseErrorCode.InvalidElfHeaderSize => "invalid_elf_header_size"
  | ParseErrorCode.MissingProgramHeaders => "missing_program_headers"
  | ParseErrorCode.UnsupportedExtendedProgramHeaderCount => "unsupported_extended_program_header_count"
  | ParseErrorCode.InvalidProgramHeaderEntrySize => "invalid_program_header_entry_size"
  | ParseErrorCode.ProgramHeaderTableOutOfBounds => "program_header_table_out_of_bounds"
  | ParseErrorCode.InvalidSegmentFlags => "invalid_segment_flags"
  | ParseErrorCode.SegmentFileSizeExceedsMemorySize => "segment_file_size_exceeds_memory_size"
  | ParseErrorCode.SegmentFileRangeOutOfBounds => "segment_file_range_out_of_bounds"
  | ParseErrorCode.SegmentVirtualRangeOverflow => "segment_virtual_range_overflow"
  | ParseErrorCode.InvalidSegmentAlignment => "invalid_segment_alignment"
  | ParseErrorCode.IncongruentSegmentAlignment => "incongruent_segment_alignment"
  | ParseErrorCode.OverlappingSegmentFileRanges => "overlapping_segment_file_ranges"
  | ParseErrorCode.OverlappingSegmentVirtualRanges => "overlapping_segment_virtual_ranges"
  | ParseErrorCode.MissingLoadSegments => "missing_load_segments"
  | ParseErrorCode.MalformedNote => "malformed_note"
  | ParseErrorCode.DuplicateMetadataNote => "duplicate_metadata_note"
  | ParseErrorCode.UnsupportedMetadataEncoding => "unsupported_metadata_encoding"
  | ParseErrorCode.InvalidMetadata => "invalid_metadata"
  | ParseErrorCode.UnsupportedMetadataVersion => "unsupported_metadata_version"
  | ParseErrorCode.MetadataTargetMismatch => "metadata_target_mismatch"
  | ParseErrorCode.MissingDynamicSegment => "missing_dynamic_segment"
  | ParseErrorCode.DuplicateDynamicSegment => "duplicate_dynamic_segment"
  | ParseErrorCode.InvalidDynamicTable => "invalid_dynamic_table"
  | ParseErrorCode.MissingDynamicEntry => "missing_dynamic_entry"
  | ParseErrorCode.InvalidSymbolTable => "invalid_symbol_table"
  | ParseErrorCode.InvalidStringTable => "invalid_string_table"
  | ParseErrorCode.MissingKernelSymbol => "missing_kernel_symbol"
  | ParseErrorCode.InvalidKernelSymbol => "invalid_kernel_symbol"
  | ParseErrorCode.KernelDescriptorOutOfBounds => "kernel_descriptor_out_of_bounds"
  | ParseErrorCode.InvalidKernelDescriptor => "invalid_kernel_descriptor"
  | ParseErrorCode.KernelMetadataMismatch => "kernel_metadata_mismatch"
  | ParseErrorCode.KernelEntryOutOfBounds => "kernel_entry_out_of_bounds"
  | ParseErrorCode.InvalidRelocationTable => "invalid_relocation_table"
  | ParseErrorCode.UnsupportedRelocationFormat => "unsupported_relocation_format"
  | ParseErrorCode.UnsupportedRelocationType => "unsupported_relocation_type"
  | ParseErrorCode.RelocationSymbolOutOfBounds => "relocation_symbol_out_of_bounds"
  | ParseErrorCode.RelocationTargetOutOfBounds => "relocation_target_out_of_bounds"
  end.

Record ParseError := mkParseError {
  pe_code : ParseErrorCode.t;
  pe_offset : Z;
  pe_message : string
}.

Definition no_error : ParseError := mkParseError ParseErrorCode.None 0 "".

Record LoadSegment := mkLoadSegment {
  seg_file_offset : Z;
  seg_file_size : Z;
  seg_virtual_address : Z;
  seg_memory_size : Z;
  seg_alignment : Z;
  seg_flags : Z
}.

Record MetadataVersion := mkMetadataVersion {
  mv_major : Z;
  mv_minor : Z
}.

Module KernelArgumentKind.
Inductive t :=
| ByValue
| GlobalBuffer
| DynamicSharedPointer
| Sampler
| Image
| Pipe
| Queue
| HiddenBlockCountX
| HiddenBlockCountY
| HiddenBlockCountZ
| HiddenGroupSizeX
| HiddenGroupSizeY
| HiddenGroupSizeZ
| HiddenRemainderX
| HiddenRemainderY
| HiddenRemainderZ
| HiddenGlobalOffsetX
| HiddenGlobalOffsetY
| HiddenGlobalOffsetZ
| HiddenGridDims
| HiddenNone
| HiddenPrintfBuffer
| HiddenHostcallBuffer
| HiddenHeapV1
| HiddenDefaultQueue
| HiddenCompletionAction
| HiddenMultiGridSyncArg
| HiddenDynamicLdsSize
| HiddenPrivateBase
| HiddenSharedBase
| HiddenQueuePtr.

#[global] Instance t_eq_dec : EqDecision t.
Proof. solve_decision. Defined.

(** The numeric value of the enumerator, which [>=] compares. *)
Definition index (kind : t) : Z :=
  match kind with
  | ByValue => 0
  | GlobalBuffer => 1
  | DynamicSharedPointer => 2
  | Sampler => 3
  | Image => 4
  | Pipe => 5
  | Queue => 6
  | HiddenBlockCountX => 7
  | HiddenBlockCountY => 8
  | HiddenBlockCountZ => 9
  | HiddenGroupSizeX => 10
  | HiddenGroupSizeY => 11
  | HiddenGroupSizeZ => 12
  | HiddenRemainderX => 13
  | HiddenRemainderY => 14
  | HiddenRemainderZ => 15
  | HiddenGlobalOffsetX => 16
  | HiddenGlobalOffsetY => 17
  | HiddenGlobalOffsetZ => 18
  | HiddenGridDims => 19
  | HiddenNone => 20
  | HiddenPrintfBuffer => 21
  | HiddenHostcallBuffer => 22
  | HiddenHeapV1 => 23
  | HiddenDefaultQueue => 24
  | HiddenCompletionAction => 25
  | HiddenMultiGridSyncArg => 26
  | HiddenDynamicLdsSize => 27
  | HiddenPrivateBase => 28
  | HiddenSharedBase => 29
  | HiddenQueuePtr => 30
  end.
End KernelArgumentKind.

Record KernelArgumentInfo := mkKernelArgumentInfo {
  ka_offset : Z;
  ka_size : Z;
  ka_kind : KernelArgumentKind.t
}.

Record KernelInfo := mkKernelInfo {
  ki_name : string;
  ki_symbol_name : string;
  ki_descriptor_virtual_address : Z;
  ki_code_entry_byte_offset : Z;
  ki_code_entry_virtual_address : Z;
  ki_kernarg_size : Z;
  ki_metadata_kernarg_alignment : Z;
  ki_kernarg_alignment : Z;
  ki_group_segment_size : Z;
  ki_private_segment_size : Z;
  ki_wavefront_size : Z;
  ki_uses_dynamic_stack : bool;
  ki_arguments : list KernelArgumentInfo;
  ki_explicit_argument_size : Z;
  ki_compute_pgm_rsrc1 : Z;
  ki_compute_pgm_rsrc2 : Z;
  ki_compute_pgm_rsrc3 : Z;
  ki_kernel_code_properties : Z;
  ki_kernarg_preload : Z
}.

Module RelocationEncoding.
Inductive t := Rel | Rela.

#[global] Instance t_eq_dec : EqDecision t.
Proof. solve_decision. Defined.

Definition index (encoding : t) : Z :=
  match encoding with Rel => 0 | Rela => 1 end.
End RelocationEncoding.

Record LoadCopy := mkLoadCopy {
  lc_file_offset : Z;
  lc_virtual_address : Z;
  lc_size : Z
}.

Record LoadZeroFill := mkLoadZeroFill {
  lz_virtual_address : Z;
  lz_size : Z
}.

Record LoadProtection := mkLoadProtection {
  lp_virtual_address : Z;
  lp_size : Z;
  lp_flags : Z
}.

Record Relocation := mkRelocation {
  rel_encoding : RelocationEncoding.t;
  rel_target_virtual_address : Z;
  rel_type : Z;
  rel_symbol_index : Z;
  rel_addend : Z;
  rel_symbol_value : Z;
  rel_symbol_is_absolute : bool
}.

Record LoadPlan := mkLoadPlan {
  plan_image_virtual_address : Z;
  plan_image_size : Z;
  plan_alignment : Z;
  plan_copies : list LoadCopy;
  plan_zero_fills : list LoadZeroFill;
  plan_protections : list LoadProtection;
  plan_relocations : list Relocation
}.

Record CodeObject := mkCodeObject {
  co_abi_version : Z;
  co_elf_flags : Z;
  co_target_machine : Z;
  co_load_segments : list LoadSegment;
  co_has_metadata : bool;
  co_metadata_version : MetadataVersion;
  co_target_isa : string;
  co_kernels : list KernelInfo;
  co_load_plan : LoadPlan
}.

(** [LoadPlan{}] and [CodeObject{}]. *)
Definition default_load_plan : LoadPlan := mkLoadPlan 0 0 1 [] [] [] [].
Definition default_code_object : CodeObject :=
  mkCodeObject 0 0 0 [] false (mkMetadataVersion 0 0) "" [] default_load_plan.

Definition default_kernel_info : KernelInfo :=
  mkKernelInfo "" "" 0 0 0 0 0 0 0 0 0 false [] 0 0 0 0 0 0.

Record ParseResult := mkParseResult {
  pr_code_object : CodeObject;
  pr_error : ParseError
}.

(** [explicit operator bool() const] *)
Definition parse_ok (result : ParseResult) : bool :=
  bool_decide (pe_code (pr_error result) = ParseErrorCode.None).

(** A computation of the loader: a value, the [ParseError] it returns, or a
    fault. *)
Abbreviation parse := (result ParseError).

(** [return failure(code, offset, message);] *)
Definition failure {A} (code : ParseErrorCode.t) (offset : Z) (message : string) : parse A :=
  Err (mkParseError code offset message).

#[export] Instance parse_error_failure : Failure ParseError :=
  fun e => pe_code e <> ParseErrorCode.None.

Lemma failure_safe {A} code offset message (Q : A -> Prop) :
  code <> ParseErrorCode.None -> safe (failure code offset message) Q.
Proof. done. Qed.

(** The early exits of the readers. *)
Ltac fails := apply failure_safe; discriminate.

(** [safe_step], knowing that [failure] exits. *)
Ltac parse_step :=
  lazymatch goal with
  | |- safe (failure _ _ _) _ => fails
  | _ => safe_step
  end.

(** ** Helpers every reader of the loader repeats *)

Definition checked_add (lhs rhs : Z) : option Z :=
  if rhs >? UINT64_MAX - lhs then None else Some (u64_add lhs rhs).

Definition range_is_in_file (offset length file_size : Z) : bool :=
  (offset <=? file_size) && (length <=? file_size - offset).

Definition is_power_of_two (value : Z) : bool :=
  negb (value =? 0) && (Z.land value (value - 1) =? 0).

Lemma checked_add_Some lhs rhs r :
  is_u64 lhs -> is_u64 rhs -> checked_add lhs rhs = Some r ->
  r = lhs + rhs /\ is_u64 r.
Proof.
  unfold checked_add. intros. case_match; [done|]. simplify_eq.
  rewrite u64_add_small by lia. lia.
Qed.

Lemma checked_add_None lhs rhs :
  checked_add lhs rhs = None -> lhs + rhs > UINT64_MAX.
Proof. unfold checked_add. case_match; [lia|done]. Qed.

Lemma checked_add_ok lhs rhs :
  0 <= lhs -> 0 <= rhs -> lhs + rhs < U64_MOD -> checked_add lhs rhs = Some (lhs + rhs).
Proof. intros. unfold checked_add. case_match; [lia|]. by rewrite u64_add_small by lia. Qed.

Lemma range_is_in_file_spec offset length file_size :
  range_is_in_file offset length file_size = true ->
  offset <= file_size /\ offset + length <= file_size.
Proof. unfold range_is_in_file. lia. Qed.

Lemma is_power_of_two_spec value :
  0 <= value -> is_power_of_two value = true -> exists k, 0 <= k /\ value = 2 ^ k.
Proof.
  unfold is_power_of_two. intros Hv H. apply andb_true_iff in H as [H1 H2].
  assert (0 < value) as Hpos by lia. apply Z.eqb_eq in H2.
  exists (Z.log2 value). split; [apply Z.log2_nonneg|].
  pose proof (Z.log2_spec value Hpos) as [Hlo Hhi].
  destruct (Z.eq_dec value (2 ^ Z.log2 value)) as [|Hne]; [done|exfalso].
  assert (Z.log2 (value - 1) = Z.log2 value) as Hlog
    by (apply Z.log2_unique; [apply Z.log2_nonneg|lia]).
  assert (0 < value - 1) as Hpos'.
  { pose proof (Z.pow_pos_nonneg 2 (Z.log2 value) ltac:(lia) (Z.log2_nonneg _)). lia. }
  assert (Z.testbit (Z.land value (value - 1)) (Z.log2 value) = true) as Hb.
  { rewrite Z.land_spec, Z.bit_log2 by done. rewrite <-Hlog at 1.
    by rewrite Z.bit_log2. }
  by rewrite H2, Z.bits_0 in Hb.
Qed.

Lemma is_power_of_two_pow k : 0 <= k -> is_power_of_two (2 ^ k) = true.
Proof.
  intros Hk. unfold is_power_of_two.
  pose proof (Z.pow_pos_nonneg 2 k ltac:(lia) Hk).
  apply andb_true_iff. split; [lia|]. apply Z.eqb_eq.
  change (2 ^ k - 1) with (Z.pred (2 ^ k)). rewrite <-Z.ones_equiv, Z.land_ones by done.
  by apply Z.mod_same, Z.pow_nonzero.
Qed.
