(* ===== verification/Segments.v ===== *)
(** * PT_LOAD segments

    The segment part of [loader/elf_reader.cpp]: the per-segment validation,
    the overlap search and the loop over the program-header table.  The
    theorems say which segments are accepted and that the overlap search,
    a sort followed by a sweep over neighbours, decides pairwise
    disjointness. *)

From S2P Require Import Prelude Order Memory CodeObject.

Definition kElf64ProgramHeaderSize : Z := 56.
Definition kProgramHeaderTypeLoad : Z := 1.
Definition kSegmentFlagExecute : Z := 1.
Definition kSegmentFlagWrite : Z := 2.
Definition kSegmentFlagRead : Z := 4.
Definition kKnownSegmentFlags : Z :=
  Z.lor (Z.lor kSegmentFlagExecute kSegmentFlagWrite) kSegmentFlagRead.
Definition kProgramHeaderTypeOffset : Z := 0.
Definition kProgramHeaderFlagsOffset : Z := 4.
Definition kProgramHeaderFileOffset : Z := 8.
Definition kProgramHeaderVirtualAddressOffset : Z := 16.
Definition kProgramHeaderFileSizeOffset : Z := 32.
Definition kProgramHeaderMemorySizeOffset : Z := 40.
Definition kProgramHeaderAlignmentOffset : Z := 48.

(** [flags & ~known] on [uint32_t] *)
Definition unknown_flags (flags known : Z) : Z :=
  Z.land flags (Z.lxor known UINT32_MAX).

Definition validate_load_segment (segment : LoadSegment) (file_size : Z)
    (program_header_offset : Z) : parse unit :=
  if negb (unknown_flags (seg_flags segment) kKnownSegmentFlags =? 0) then
    failure ParseErrorCode.InvalidSegmentFlags
      (u64_add program_header_offset kProgramHeaderFlagsOffset)
      "PT_LOAD has unknown permission flags"
  else if seg_file_size segment >? seg_memory_size segment then
    failure ParseErrorCode.SegmentFileSizeExceedsMemorySize
      (u64_add program_header_offset kProgramHeaderFileSizeOffset)
      "PT_LOAD file size exceeds memory size"
  else if negb (range_is_in_file (seg_file_offset segment) (seg_file_size segment)
                  file_size) then
    failure ParseErrorCode.SegmentFileRangeOutOfBounds
      (u64_add program_header_offset kProgramHeaderFileOffset)
      "PT_LOAD file range is outside the code object"
  else match checked_add (seg_virtual_address segment) (seg_memory_size segment) with
  | None =>
      failure ParseErrorCode.SegmentVirtualRangeOverflow
        (u64_add program_header_offset kProgramHeaderVirtualAddressOffset)
        "PT_LOAD virtual-address range overflows uint64"
  | Some _ =>
      if (seg_alignment segment >? 1) && negb (is_power_of_two (seg_alignment segment)) then
        failure ParseErrorCode.InvalidSegmentAlignment
          (u64_add program_header_offset kProgramHeaderAlignmentOffset)
          "PT_LOAD alignment is not zero, one, or a power of two"
      else if (seg_alignment segment >? 1) &&
              negb (seg_file_offset segment mod seg_alignment segment =?
                    seg_virtual_address segment mod seg_alignment segment) then
        failure ParseErrorCode.IncongruentSegmentAlignment
          (u64_add program_header_offset kProgramHeaderAlignmentOffset)
          "PT_LOAD file offset and virtual address are not congruent modulo alignment"
      else Ok ()
  end.

Record ParsedLoadSegment := mkParsedLoadSegment {
  ps_segment : LoadSegment;
  ps_program_header_offset : Z
}.

Section overlap.
Context (offset range_size : LoadSegment -> Z).

Definition segment_less (lhs rhs : ParsedLoadSegment) : bool :=
  if negb (offset (ps_segment lhs) =? offset (ps_segment rhs))
  then offset (ps_segment lhs) <? offset (ps_segment rhs)
  else ps_program_header_offset lhs <? ps_program_header_offset rhs.

Fixpoint overlap_scan (previous : ParsedLoadSegment) (rest : list ParsedLoadSegment)
  : option ParsedLoadSegment :=
  match rest with
  | [] => None
  | current :: rest =>
      let previous_end :=
        u64_add (offset (ps_segment previous)) (range_size (ps_segment previous)) in
      if offset (ps_segment current) <? previous_end then Some current
      else overlap_scan current rest
  end.

Definition find_overlapping_segment (segments : list ParsedLoadSegment)
  : option ParsedLoadSegment :=
  let ordered := filter (fun s => range_size (ps_segment s) <> 0) segments in
  match std_sort segment_less ordered with
  | [] => None
  | first :: rest => overlap_scan first rest
  end.
End overlap.

(** The body of the program-header loop for one PT_LOAD entry. *)
Definition read_load_segment (data : bytes) (entry : Z) : parse LoadSegment :=
  flags ← read_u32 data (entry + kProgramHeaderFlagsOffset);
  file_offset ← read_u64 data (entry + kProgramHeaderFileOffset);
  virtual_address ← read_u64 data (entry + kProgramHeaderVirtualAddressOffset);
  file_size ← read_u64 data (entry + kProgramHeaderFileSizeOffset);
  memory_size ← read_u64 data (entry + kProgramHeaderMemorySizeOffset);
  alignment ← read_u64 data (entry + kProgramHeaderAlignmentOffset);
  Ok (mkLoadSegment file_offset file_size virtual_address memory_size alignment flags).

(** [for (uint16_t index = 0; index < program_header_count; ++index)], from
    [index] with [remaining] entries to go. *)
Fixpoint read_load_segments (data : bytes) (size program_header_offset entry_size : Z)
    (remaining : nat) (index : Z) : parse (list ParsedLoadSegment) :=
  match remaining with
  | O => Ok []
  | S remaining =>
      let entry_offset := u64_add program_header_offset (u64_mul index entry_size) in
      type ← read_u32 data (entry_offset + kProgramHeaderTypeOffset);
      if negb (type =? kProgramHeaderTypeLoad) then
        read_load_segments data size program_header_offset entry_size remaining (index + 1)
      else
        segment ← read_load_segment data entry_offset;
        _ ← validate_load_segment segment size entry_offset;
        rest ← read_load_segments data size program_header_offset entry_size
                 remaining (index + 1);
        Ok (mkParsedLoadSegment segment entry_offset :: rest)
  end.

(** ** What an accepted segment satisfies *)

Record segment_fields (s : LoadSegment) : Prop := {
  sf_file_offset : is_u64 (seg_file_offset s);
  sf_file_size : is_u64 (seg_file_size s);
  sf_virtual_address : is_u64 (seg_virtual_address s);
  sf_memory_size : is_u64 (seg_memory_size s);
  sf_alignment : is_u64 (seg_alignment s);
  sf_flags : is_u32 (seg_flags s)
}.

Record segment_wf (file_size : Z) (s : LoadSegment) : Prop := {
  sw_fields : segment_fields s;
  sw_flags : 0 <= seg_flags s < 8;
  sw_file_le_memory : seg_file_size s <= seg_memory_size s;
  sw_in_file : seg_file_offset s + seg_file_size s <= file_size;
  sw_no_overflow : seg_virtual_address s + seg_memory_size s < U64_MOD;
  sw_alignment : 1 < seg_alignment s ->
    (exists k, 0 <= k /\ seg_alignment s = 2 ^ k) /\
    seg_file_offset s mod seg_alignment s = seg_virtual_address s mod seg_alignment s
}.

Lemma known_segment_flags flags :
  is_u32 flags -> unknown_flags flags kKnownSegmentFlags = 0 -> flags < 8.
Proof.
  intros Hf. unfold unknown_flags.
  change (Z.lxor kKnownSegmentFlags UINT32_MAX) with (Z.shiftl (Z.ones 29) 3).
  intros H. destruct (Z_lt_le_dec flags 8) as [|Hge]; [done|exfalso].
  assert (Z.shiftr (Z.land flags (Z.shiftl (Z.ones 29) 3)) 3 = flags / 8) as Hs.
  { rewrite Z.shiftr_land, Z.shiftr_shiftl_l, Z.sub_diag, Z.shiftl_0_r by lia.
    rewrite Z.shiftr_div_pow2, Z.land_ones by lia. change (2 ^ 3) with 8.
    apply Z.mod_small. change (2 ^ 29) with 536870912. zlia. }
  rewrite H in Hs. change (Z.shiftr 0 3) with 0 in Hs. zlia.
Qed.

Lemma validate_load_segment_safe s file_size header_offset :
  segment_fields s ->
  safe (validate_load_segment s file_size header_offset) (fun _ => segment_wf file_size s).
Proof.
  intros Hf. unfold validate_load_segment. pose proof Hf as [].
  repeat parse_step.
  split; try done.
  - split; [lia|]. apply known_segment_flags; [done|lia].
  - lia.
  - unfold range_is_in_file in *. lia.
  - match goal with H : checked_add _ _ = Some _ |- _ =>
      apply checked_add_Some in H as [-> ?]; lia end.
  - intros Ha. split; [|lia]. apply is_power_of_two_spec; lia.
Qed.

Lemma read_load_segment_safe (data : bytes) entry :
  0 <= entry -> entry + kElf64ProgramHeaderSize <= size_of data ->
  safe (read_load_segment data entry) segment_fields.
Proof.
  unfold kElf64ProgramHeaderSize. intros H1 H2. unfold read_load_segment.
  cbv [kProgramHeaderFlagsOffset kProgramHeaderFileOffset kProgramHeaderVirtualAddressOffset
    kProgramHeaderFileSizeOffset kProgramHeaderMemorySizeOffset kProgramHeaderAlignmentOffset].
  repeat parse_step. by split.
Qed.

(** Entry [i] of a program-header table that lies in the file. *)
Lemma header_entry_offset table_offset (count : nat) file_size index :
  is_u64 file_size -> 0 <= table_offset -> Z.of_nat count < U16_MOD ->
  table_offset + Z.of_nat count * kElf64ProgramHeaderSize <= file_size ->
  0 <= index < Z.of_nat count ->
  u64_add table_offset (u64_mul index kElf64ProgramHeaderSize) =
    table_offset + index * kElf64ProgramHeaderSize.
Proof.
  unfold kElf64ProgramHeaderSize. intros.
  rewrite u64_mul_small by lia. apply u64_add_small. lia.
Qed.

(** Every segment the loop returns was validated, and the entries are those
    of the table, in order. *)
Lemma read_load_segments_safe (data : bytes) table_offset (count : nat) remaining index :
  is_u64 (size_of data) -> 0 <= table_offset -> Z.of_nat count < U16_MOD ->
  table_offset + Z.of_nat count * kElf64ProgramHeaderSize <= size_of data ->
  0 <= index -> index + Z.of_nat remaining = Z.of_nat count ->
  safe (read_load_segments data (size_of data) table_offset kElf64ProgramHeaderSize
          remaining index)
    (fun ps => Forall (fun p => segment_wf (size_of data) (ps_segment p) /\
                                is_u64 (ps_program_header_offset p)) ps).
Proof.
  intros Hsize Ht Hc Htab. revert index.
  induction remaining as [|n IH]; intros index Hi Hn; cbn [read_load_segments].
  { safe_step. constructor. }
  rewrite (header_entry_offset _ count (size_of data)) by lia.
  set (entry := table_offset + index * kElf64ProgramHeaderSize).
  assert (0 <= entry /\ entry + kElf64ProgramHeaderSize <= size_of data) as [He1 He2]
    by (unfold entry, kElf64ProgramHeaderSize in *; lia).
  unfold kElf64ProgramHeaderSize in He2.
  unfold kProgramHeaderTypeOffset. parse_step. parse_step; [apply IH; lia|].
  eapply safe_bind; [by apply read_load_segment_safe|]. intros segment Hseg.
  eapply safe_bind; [by apply validate_load_segment_safe|]. intros ? Hwf.
  eapply safe_bind; [apply IH; lia|]. intros rest Hrest.
  safe_step. constructor; [|done]. split; [done|]. simpl. lia.
Qed.

(** ** The overlap search *)

Section overlap_facts.
Context (offset range_size : LoadSegment -> Z).
Let start (p : ParsedLoadSegment) := offset (ps_segment p).
Let extent (p : ParsedLoadSegment) := range_size (ps_segment p).

(** The ranges the sweep looks at: on [uint64_t], not wrapping. *)
Definition range_in_u64 (p : ParsedLoadSegment) : Prop :=
  0 <= start p /\ 0 <= extent p /\ start p + extent p < U64_MOD.

#[local] Instance segment_less_strict_weak : StrictWeak (segment_less offset).
Proof. apply (strict_weak_lex start), strict_weak_key. Qed.

Lemma overlap_scan_None previous rest :
  Forall range_in_u64 (previous :: rest) ->
  overlap_scan offset range_size previous rest = None <->
  Sorted (before start extent) (previous :: rest).
Proof.
  revert previous. induction rest as [|current rest IH]; intros previous Hr; simpl.
  { split; [by repeat constructor|done]. }
  apply Forall_cons in Hr as [Hp Hr]. pose proof Hp as (? & ? & ?).
  unfold start, extent in *. rewrite u64_add_small by lia.
  destruct (Z.ltb_spec (offset (ps_segment current))
    (offset (ps_segment previous) + range_size (ps_segment previous))).
  - split; [done|]. inversion 1 as [|? ? _ Hd]; subst. inversion Hd; subst.
    unfold before in *. lia.
  - rewrite IH by done. split; [|by inversion 1].
    intros Hs. constructor; [done|]. constructor. unfold before. lia.
Qed.

Lemma find_overlapping_segment_pairwise ps :
  Forall range_in_u64 ps ->
  find_overlapping_segment offset range_size ps = None <->
  pairwise (fun x y => extent x <> 0 -> extent y <> 0 -> apart start extent x y) ps.
Proof.
  intros Hr. unfold find_overlapping_segment.
  set (l := filter _ ps).
  assert (Forall (fun p => range_in_u64 p /\ extent p <> 0) l) as Hl.
  { apply Forall_forall. intros p [? ?]%list_elem_of_filter.
    rewrite Forall_forall in Hr. auto. }
  rewrite <-(pairwise_filter (apart start extent) (fun s => extent s <> 0)).
  change (filter _ ps) with l.
  pose proof (std_sort_perm (segment_less offset) l) as Hperm.
  pose proof (std_sort_sorted (segment_less offset) l) as Hsort.
  rewrite <-Hperm in Hl. apply (StronglySorted_impl _ (fun x y => start x <= start y)) in Hsort.
  2:{ unfold not_after, segment_less, start. intros x y _ _. case_match; lia. }
  destruct (std_sort (segment_less offset) l) as [|first rest] eqn:Es.
  { apply Permutation_nil_l in Hperm. rewrite <-Hperm. split; [constructor|done]. }
  rewrite overlap_scan_None by (eapply Forall_impl; [exact Hl|by intros ? []]).
  split; intros H.
  - eapply pairwise_perm; [apply _|exact Hperm|]. apply ordered_apart, ordered_of_adjacent; [|done].
    eapply Forall_impl; [exact Hl|]. unfold range_in_u64. intros p. lia.
  - apply StronglySorted_Sorted, ordered_of_sorted_apart; [|done|].
    + eapply Forall_impl; [exact Hl|]. unfold range_in_u64. intros p. lia.
    + eapply pairwise_perm; [apply _|symmetry; exact Hperm|done].
Qed.

(** The reported segment is one of the input, and starts inside another one. *)
Lemma overlap_scan_Some previous rest p :
  Forall range_in_u64 (previous :: rest) ->
  overlap_scan offset range_size previous rest = Some p ->
  p ∈ rest /\ exists q, q ∈ previous :: rest /\ start p < start q + extent q.
Proof.
  revert previous. induction rest as [|current rest IH]; intros previous Hr; simpl; [done|].
  apply Forall_cons in Hr as [Hp Hr]. pose proof Hp as (? & ? & ?).
  unfold start, extent in *. rewrite u64_add_small by lia. case_match; intros.
  - simplify_eq. split; [left|]. exists previous. split; [left|lia].
  - destruct (IH current) as [Hin (q & Hq & ?)]; [done..|].
    split; [by right|]. exists q. split; [by right|done].
Qed.
End overlap_facts.

