(* ===== verification/MessagePack.v ===== *)
(** * MessagePack reader

    [MessagePackReader] of [loader/metadata_reader.cpp]: the recursive
    reader of the AMDHSA metadata document.  [bytes_.data] points into the
    code object, so it is an offset into [data]; the member [cursor_] is
    passed through the calls.  [parse_value] recurses on a fuel that covers
    the nesting limit the source checks. *)

From S2P Require Import Prelude Order Memory CodeObject.

Definition kMaximumMetadataDepth : Z := 64.

(** [data] is [None] for [nullptr], else the offset of the first byte. *)
Record MetadataBytes := mkMetadataBytes {
  mb_data : option Z;
  mb_size : Z;
  mb_file_offset : Z
}.

Inductive MessagePackValue :=
| MNil (offset : Z)
| MBoolean (offset : Z) (boolean : bool)
| MUnsigned (offset : Z) (unsigned_integer : Z)
| MSigned (offset : Z) (signed_integer : Z)
| MString (offset : Z) (s : string)
| MArray (offset : Z) (array : list MessagePackValue)
| MMap (offset : Z) (map : list (string * MessagePackValue)).

Definition mp_offset (value : MessagePackValue) : Z :=
  match value with
  | MNil offset | MBoolean offset _ | MUnsigned offset _ | MSigned offset _
  | MString offset _ | MArray offset _ | MMap offset _ => offset
  end.

Section reader.
Context (data : bytes) (bytes_data bytes_size bytes_file_offset : Z).

Definition fail {A} (code : ParseErrorCode.t) (relative_offset : Z) (message : string)
  : parse A :=
  failure code (u64_add bytes_file_offset relative_offset) message.

(** The start of the bytes taken and the new cursor. *)
Definition take_bytes (count cursor : Z) : option (Z * Z) :=
  if count >? u64_sub bytes_size cursor then None
  else Some (bytes_data + cursor, cursor + count).

Fixpoint big_endian_loop (start : Z) (remaining : nat) (index result : Z) : parse Z :=
  match remaining with
  | O => Ok result
  | S remaining =>
      b ← read_u8 data (start + index);
      big_endian_loop start remaining (index + 1) (Z.lor (to_u64 (Z.shiftl result 8)) b)
  end.

Definition read_big_endian (count cursor : Z) : parse (option (Z * Z)) :=
  match take_bytes count cursor with
  | None => Ok None
  | Some (start, cursor) =>
      value ← big_endian_loop start (Z.to_nat count) 0 0;
      Ok (Some (value, cursor))
  end.

Definition read_length (width marker_offset cursor : Z) : parse (Z * Z) :=
  read ← read_big_endian width cursor;
  match read with
  | None => fail ParseErrorCode.InvalidMetadata marker_offset "MessagePack length is truncated"
  | Some (value, cursor) =>
      if value >? UINT64_MAX then
        fail ParseErrorCode.InvalidMetadata marker_offset
          "MessagePack length exceeds host size_t"
      else Ok (value, cursor)
  end.

Definition parse_string (length marker_offset offset cursor : Z)
  : parse (MessagePackValue * Z) :=
  match take_bytes length cursor with
  | None => fail ParseErrorCode.InvalidMetadata marker_offset "MessagePack string is truncated"
  | Some (start, cursor) =>
      characters ← read_bytes data start length;
      Ok (MString offset (String.string_of_list_byte characters), cursor)
  end.

Section elements.
(** The recursive call on an element, [parse_value(depth + 1, ...)]. *)
Context (parse_element : Z -> parse (MessagePackValue * Z)).

Fixpoint array_loop (remaining : nat) (cursor : Z)
  : parse (list MessagePackValue * Z) :=
  match remaining with
  | O => Ok ([], cursor)
  | S remaining =>
      '(element, cursor) ← parse_element cursor;
      '(rest, cursor) ← array_loop remaining cursor;
      Ok (element :: rest, cursor)
  end.

Definition parse_array (count marker_offset offset cursor : Z)
  : parse (MessagePackValue * Z) :=
  if count >? u64_sub bytes_size cursor then
    fail ParseErrorCode.InvalidMetadata marker_offset
      "MessagePack array count exceeds remaining bytes"
  else
    '(array, cursor) ← array_loop (Z.to_nat count) cursor;
    Ok (MArray offset array, cursor).

Fixpoint map_loop (remaining : nat) (keys : list string) (cursor : Z)
  : parse (list (string * MessagePackValue) * Z) :=
  match remaining with
  | O => Ok ([], cursor)
  | S remaining =>
      '(key, cursor) ← parse_element cursor;
      match key with
      | MString _ key_string =>
          if bool_decide (key_string ∈ keys) then
            fail ParseErrorCode.InvalidMetadata (u64_sub (mp_offset key) bytes_file_offset)
              "AMDHSA metadata map contains a duplicate key"
          else
            '(mapped, cursor) ← parse_element cursor;
            '(rest, cursor) ← map_loop remaining (key_string :: keys) cursor;
            Ok ((key_string, mapped) :: rest, cursor)
      | _ =>
          fail ParseErrorCode.InvalidMetadata (u64_sub (mp_offset key) bytes_file_offset)
            "AMDHSA metadata map key is not a string"
      end
  end.

Definition parse_map (count marker_offset offset cursor : Z)
  : parse (MessagePackValue * Z) :=
  if count >? u64_sub bytes_size cursor / 2 then
    fail ParseErrorCode.InvalidMetadata marker_offset
      "MessagePack map count exceeds remaining bytes"
  else
    '(map, cursor) ← map_loop (Z.to_nat count) [] cursor;
    Ok (MMap offset map, cursor).
End elements.

(** [bits |= UINT64_MAX << (width * 8)] when the sign bit is set *)
Definition sign_extend (width bits : Z) : Z :=
  if (width <? 8) && negb (Z.land bits (Z.shiftl 1 (width * 8 - 1)) =? 0)
  then Z.lor bits (to_u64 (Z.shiftl UINT64_MAX (width * 8)))
  else bits.

(** The dispatch on the marker byte; [cursor] is behind the marker. *)
Definition parse_marker (parse_element : Z -> parse (MessagePackValue * Z))
    (marker marker_offset offset cursor : Z) : parse (MessagePackValue * Z) :=
  if marker <=? 0x7f then Ok (MUnsigned offset marker, cursor)
  else if marker >=? 0xe0 then Ok (MSigned offset (to_i8 marker), cursor)
  else if Z.land marker 0xe0 =? 0xa0 then
    parse_string (Z.land marker 0x1f) marker_offset offset cursor
  else if Z.land marker 0xf0 =? 0x90 then
    parse_array parse_element (Z.land marker 0x0f) marker_offset offset cursor
  else if Z.land marker 0xf0 =? 0x80 then
    parse_map parse_element (Z.land marker 0x0f) marker_offset offset cursor
  else if marker =? 0xc0 then Ok (MNil offset, cursor)
  else if (marker =? 0xc2) || (marker =? 0xc3) then
    Ok (MBoolean offset (marker =? 0xc3), cursor)
  else if (0xcc <=? marker) && (marker <=? 0xcf) then
    read ← read_big_endian (Z.shiftl 1 (marker - 0xcc)) cursor;
    match read with
    | None =>
        fail ParseErrorCode.InvalidMetadata marker_offset
          "MessagePack unsigned integer is truncated"
    | Some (integer, cursor) => Ok (MUnsigned offset integer, cursor)
    end
  else if (0xd0 <=? marker) && (marker <=? 0xd3) then
    let width := Z.shiftl 1 (marker - 0xd0) in
    read ← read_big_endian width cursor;
    match read with
    | None =>
        fail ParseErrorCode.InvalidMetadata marker_offset
          "MessagePack signed integer is truncated"
    | Some (bits, cursor) => Ok (MSigned offset (to_i64 (sign_extend width bits)), cursor)
    end
  else if (0xd9 <=? marker) && (marker <=? 0xdb) then
    '(length, cursor) ← read_length (Z.shiftl 1 (marker - 0xd9)) marker_offset cursor;
    parse_string length marker_offset offset cursor
  else if (marker =? 0xdc) || (marker =? 0xdd) then
    '(length, cursor) ← read_length (if marker =? 0xdc then 2 else 4) marker_offset cursor;
    parse_array parse_element length marker_offset offset cursor
  else if (marker =? 0xde) || (marker =? 0xdf) then
    '(length, cursor) ← read_length (if marker =? 0xde then 2 else 4) marker_offset cursor;
    parse_map parse_element length marker_offset offset cursor
  else
    fail ParseErrorCode.UnsupportedMetadataEncoding marker_offset
      "AMDHSA metadata uses an unsupported MessagePack type".

Fixpoint parse_value (fuel : nat) (depth cursor : Z) : parse (MessagePackValue * Z) :=
  match fuel with
  | O => Fault OutOfFuel
  | S fuel =>
      if depth >? kMaximumMetadataDepth then
        fail ParseErrorCode.InvalidMetadata cursor
          "MessagePack nesting exceeds the loader limit"
      else
        match take_bytes 1 cursor with
        | None => fail ParseErrorCode.InvalidMetadata cursor "MessagePack value is truncated"
        | Some (marker_pointer, next) =>
            marker ← read_u8 data marker_pointer;
            parse_marker (parse_value fuel (depth + 1)) marker cursor
              (u64_add bytes_file_offset cursor) next
        end
  end.

(** Enough for [kMaximumMetadataDepth + 1] levels and the one that fails. *)
Definition parse_fuel : nat := 66.

(** [MessagePackReader(metadata).parse(&root)] *)
Definition parse_document : parse MessagePackValue :=
  '(value, cursor) ← parse_value parse_fuel 0 0;
  if negb (cursor =? bytes_size) then
    fail ParseErrorCode.InvalidMetadata cursor "metadata has trailing MessagePack values"
  else Ok value.
End reader.

(** ** Well-formed values

    [value_wf n v]: [v] nests at most [n] levels, its integers are in the
    range of their C++ type and its maps have distinct keys. *)
Inductive value_wf : nat -> MessagePackValue -> Prop :=
| wf_nil n o : value_wf (S n) (MNil o)
| wf_boolean n o b : value_wf (S n) (MBoolean o b)
| wf_unsigned n o u : is_u64 u -> value_wf (S n) (MUnsigned o u)
| wf_signed n o i :
    -9223372036854775808 <= i < 9223372036854775808 -> value_wf (S n) (MSigned o i)
| wf_string n o s : value_wf (S n) (MString o s)
| wf_array n o l : Forall (value_wf n) l -> value_wf (S n) (MArray o l)
| wf_map n o m :
    NoDup m.*1 -> Forall (fun kv => value_wf n kv.2) m -> value_wf (S n) (MMap o m).

(** ** Big-endian integers *)

Definition be_value (l : bytes) : Z := foldl (fun r b => r * U8_MOD + byte_val b) 0 l.

Lemma be_fold_range l r k :
  0 <= r < 2 ^ (8 * k) -> 0 <= k ->
  0 <= foldl (fun r b => r * U8_MOD + byte_val b) r l < 2 ^ (8 * (k + Z.of_nat (length l))).
Proof.
  revert r k. induction l as [|b l IH]; intros r k Hr Hk; simpl.
  { by rewrite Z.add_0_r. }
  replace (k + Z.of_nat (S (length l))) with ((k + 1) + Z.of_nat (length l)) by lia.
  apply IH; [|lia]. replace (8 * (k + 1)) with (8 * k + 8) by lia.
  rewrite Z.pow_add_r by lia. pose proof (byte_val_range b). change (2 ^ 8) with U8_MOD. nia.
Qed.

Section reader_facts.
Context (data : bytes) (bytes_data bytes_size bytes_file_offset : Z).
Context (Hfile : is_u64 (size_of data)).
Context (Hbegin : 0 <= bytes_data) (Hsize : 0 <= bytes_size).
Context (Hend : bytes_data + bytes_size <= size_of data).

#[local] Abbreviation take_bytes := (take_bytes bytes_data bytes_size).
#[local] Abbreviation big_endian_loop := (big_endian_loop data).
#[local] Abbreviation read_big_endian := (read_big_endian data bytes_data bytes_size).
#[local] Abbreviation read_length := (read_length data bytes_data bytes_size bytes_file_offset).
#[local] Abbreviation parse_string := (parse_string data bytes_data bytes_size bytes_file_offset).
#[local] Abbreviation parse_array := (parse_array bytes_size bytes_file_offset).
#[local] Abbreviation parse_map := (parse_map bytes_size bytes_file_offset).
#[local] Abbreviation parse_value := (parse_value data bytes_data bytes_size bytes_file_offset).

Lemma take_bytes_ok count cursor :
  0 <= cursor <= bytes_size -> 0 <= count <= bytes_size - cursor ->
  take_bytes count cursor = Some (bytes_data + cursor, cursor + count).
Proof.
  intros. unfold MessagePack.take_bytes. rewrite u64_sub_small by lia.
  case_match; [lia|done].
Qed.

Lemma take_bytes_Some count cursor start cursor' :
  0 <= cursor <= bytes_size ->
  take_bytes count cursor = Some (start, cursor') ->
  start = bytes_data + cursor /\ cursor' = cursor + count /\ cursor' <= bytes_size.
Proof.
  intros Hc. unfold MessagePack.take_bytes. rewrite u64_sub_small by lia.
  case_match; intros; simplify_eq. lia.
Qed.

Lemma big_endian_loop_value start n index r :
  0 <= start -> 0 <= index -> index + Z.of_nat n <= 8 ->
  0 <= r < 2 ^ (8 * index) -> start + index + Z.of_nat n <= size_of data ->
  big_endian_loop start n index r =
  Ok (foldl (fun r b => r * U8_MOD + byte_val b) r
        (take n (drop (Z.to_nat (start + index)) data))).
Proof.
  intros Hs. revert index r. induction n as [|n IH]; intros index r Hi Hn Hr He; [done|].
  cbn [MessagePack.big_endian_loop].
  destruct (read_u8_ok (E:=ParseError) data (start + index)) as (b & Hb & ->); [lia|].
  cbn [mbind result_bind]. pose proof (byte_val_range b).
  assert (r * U8_MOD < U64_MOD).
  { assert (2 ^ (8 * index) <= 2 ^ 56) by (apply Z.pow_le_mono_r; lia).
    change (2 ^ 56) with 72057594037927936 in *. lia. }
  rewrite to_u64_small by (rewrite Z.shiftl_mul_pow2 by lia; change (2 ^ 8) with U8_MOD; lia).
  rewrite Z.lor_comm, lor_add_disjoint by (change (2 ^ 8) with U8_MOD; lia).
  rewrite IH; try lia.
  - rewrite (drop_S data b (Z.to_nat (start + index))) by done. cbn [firstn foldl].
    replace (Z.to_nat (start + (index + 1))) with (S (Z.to_nat (start + index))) by lia.
    do 2 f_equal. change (2 ^ 8) with U8_MOD. lia.
  - replace (8 * (index + 1)) with (8 * index + 8) by lia.
    rewrite Z.pow_add_r by lia. change (2 ^ 8) with U8_MOD. nia.
Qed.

Lemma read_big_endian_ok count cursor :
  0 <= cursor <= bytes_size -> 0 <= count <= 8 -> count <= bytes_size - cursor ->
  read_big_endian count cursor =
  Ok (Some (be_value (take (Z.to_nat count) (drop (Z.to_nat (bytes_data + cursor)) data)),
            cursor + count)).
Proof.
  intros. unfold MessagePack.read_big_endian. rewrite take_bytes_ok by lia.
  rewrite big_endian_loop_value by (simpl; lia). cbn [mbind result_bind].
  by rewrite Z.add_0_r.
Qed.

Lemma be_slice_range (n : nat) k (l : bytes) :
  0 <= be_value (take n (drop k l)) < 2 ^ (8 * Z.of_nat n).
Proof.
  pose proof (be_fold_range (take n (drop k l)) 0 0 ltac:(simpl; lia) ltac:(lia)) as H.
  unfold be_value. split; [lia|]. eapply Z.lt_le_trans; [apply H|].
  apply Z.pow_le_mono_r; [lia|]. rewrite length_take. lia.
Qed.

Lemma read_big_endian_safe count cursor :
  0 <= cursor <= bytes_size -> 0 <= count <= 8 ->
  safe (read_big_endian count cursor)
    (fun r => forall v c, r = Some (v, c) ->
       0 <= v < 2 ^ (8 * count) /\ c = cursor + count /\ c <= bytes_size).
Proof.
  intros Hc Hcount.
  destruct (decide (count <= bytes_size - cursor)) as [Hle|Hgt].
  - rewrite read_big_endian_ok by lia. simpl. intros v c ?. simplify_eq.
    split; [|lia].
    pose proof (be_slice_range (Z.to_nat count) (Z.to_nat (bytes_data + cursor)) data) as Hb.
    by rewrite Z2Nat.id in Hb by lia.
  - unfold MessagePack.read_big_endian, MessagePack.take_bytes. rewrite u64_sub_small by lia.
    destruct (Z.gtb_spec count (bytes_size - cursor)); [done|lia].
Qed.

Lemma width_range k : 0 <= k <= 3 -> 1 <= Z.shiftl 1 k <= 8.
Proof.
  intros. rewrite Z.shiftl_mul_pow2, Z.mul_1_l by lia.
  assert (k = 0 \/ k = 1 \/ k = 2 \/ k = 3) as [-> | [-> | [-> | ->]]] by lia; simpl; lia.
Qed.

Lemma pow256_u64 k : 0 <= k <= 8 -> 2 ^ (8 * k) <= U64_MOD.
Proof. intros. change U64_MOD with (2 ^ 64). apply Z.pow_le_mono_r; lia. Qed.

Lemma read_length_safe width marker_offset cursor :
  0 <= cursor <= bytes_size -> 1 <= width <= 8 ->
  safe (read_length width marker_offset cursor)
    (fun '(v, c) => 0 <= v < U64_MOD /\ cursor < c <= bytes_size).
Proof.
  intros Hc Hw. unfold MessagePack.read_length.
  eapply safe_bind; [by apply read_big_endian_safe; lia|].
  intros [[v c]|] Hr; [|fails]. destruct (Hr v c eq_refl) as (? & -> & ?).
  pose proof (pow256_u64 width ltac:(lia)).
  case_match; [fails|]. simpl. lia.
Qed.

Lemma parse_string_safe length marker_offset offset cursor n :
  0 <= cursor <= bytes_size -> 0 <= length ->
  safe (parse_string length marker_offset offset cursor)
    (fun '(v, c) => cursor <= c <= bytes_size /\ value_wf (S n) v).
Proof.
  intros Hc Hl. unfold MessagePack.parse_string.
  destruct (take_bytes length cursor) as [[start c]|] eqn:Ht; [|fails].
  apply take_bytes_Some in Ht as (-> & -> & ?); [|done].
  eapply safe_bind; [apply read_bytes_safe; lia|]. intros l _.
  simpl. split; [lia|constructor].
Qed.

Section elements_facts.
Context (parse_element : Z -> parse (MessagePackValue * Z)) (n : nat).
Context (Helem : forall cursor, 0 <= cursor <= bytes_size ->
  safe (parse_element cursor) (fun '(v, c) => cursor < c <= bytes_size /\ value_wf n v)).

Lemma array_loop_safe remaining cursor :
  0 <= cursor <= bytes_size ->
  safe (array_loop parse_element remaining cursor)
    (fun '(l, c) => cursor <= c <= bytes_size /\ Forall (value_wf n) l).
Proof.
  revert cursor. induction remaining as [|m IH]; intros cursor Hc; simpl.
  { split; [lia|constructor]. }
  eapply safe_bind; [by apply Helem|]. intros [v c] [? ?].
  eapply safe_bind; [apply IH; lia|]. intros [l c'] [? ?]. simpl. split; [lia|by constructor].
Qed.

Lemma map_loop_safe remaining keys cursor :
  0 <= cursor <= bytes_size ->
  safe (map_loop bytes_file_offset parse_element remaining keys cursor)
    (fun '(m, c) => cursor <= c <= bytes_size /\ NoDup m.*1 /\
       Forall (fun k => k ∉ keys) m.*1 /\ Forall (fun kv => value_wf n kv.2) m).
Proof.
  revert keys cursor. induction remaining as [|m IH]; intros keys cursor Hc; simpl.
  { split_and!; [lia..|constructor|constructor|constructor]. }
  eapply safe_bind; [by apply Helem|]. intros [key c] [? ?].
  destruct key; try fails. case_bool_decide as Hin; [fails|].
  eapply safe_bind; [apply Helem; lia|]. intros [v c1] [? ?].
  eapply safe_bind; [apply IH; lia|]. intros [l c2] (? & ? & Hfresh & ?).
  simpl. rewrite Forall_forall in Hfresh. split_and!; [lia..| | |by constructor].
  - constructor; [|done]. intros Hk. apply (Hfresh _ Hk). left.
  - constructor; [done|]. apply Forall_forall. intros k Hk ?. apply (Hfresh _ Hk). by right.
Qed.

Lemma parse_array_safe count marker_offset offset cursor :
  0 <= cursor <= bytes_size ->
  safe (parse_array parse_element count marker_offset offset cursor)
    (fun '(v, c) => cursor <= c <= bytes_size /\ value_wf (S n) v).
Proof.
  intros Hc. unfold MessagePack.parse_array. case_match; [fails|].
  eapply safe_bind; [by apply array_loop_safe|]. intros [l c] [? ?].
  simpl. split; [done|by constructor].
Qed.

Lemma parse_map_safe count marker_offset offset cursor :
  0 <= cursor <= bytes_size ->
  safe (parse_map parse_element count marker_offset offset cursor)
    (fun '(v, c) => cursor <= c <= bytes_size /\ value_wf (S n) v).
Proof.
  intros Hc. unfold MessagePack.parse_map. case_match; [fails|].
  eapply safe_bind; [by apply map_loop_safe|]. intros [l c] (? & ? & _ & ?).
  simpl. split; [done|by constructor].
Qed.
End elements_facts.

Lemma sign_extend_range width bits :
  1 <= width <= 8 -> 0 <= bits < 2 ^ (8 * width) -> is_u64 (sign_extend width bits).
Proof.
  intros Hw Hb. pose proof (pow256_u64 width ltac:(lia)).
  unfold sign_extend. case_match; [|lia].
  split; [apply Z.lor_nonneg; split; [lia|apply to_u64_range]|].
  destruct (Z.eq_dec (Z.lor bits (to_u64 (Z.shiftl UINT64_MAX (width * 8)))) 0) as [->|Hne]; [lia|].
  assert (0 < Z.lor bits (to_u64 (Z.shiftl UINT64_MAX (width * 8)))) as Hpos.
  { assert (0 <= Z.lor bits (to_u64 (Z.shiftl UINT64_MAX (width * 8))))
      by (apply Z.lor_nonneg; split; [lia|apply to_u64_range]). lia. }
  change U64_MOD with (2 ^ 64). apply Z.log2_lt_pow2; [done|].
  pose proof (to_u64_range (Z.shiftl UINT64_MAX (width * 8))) as Hr.
  rewrite Z.log2_lor by lia. apply Z.max_lub_lt.
  - destruct (Z.eq_dec bits 0) as [->|]; [simpl; lia|]. apply Z.log2_lt_pow2; [lia|].
    change (2 ^ 64) with U64_MOD. lia.
  - destruct (Z.eq_dec (to_u64 (Z.shiftl UINT64_MAX (width * 8))) 0) as [->|]; [simpl; lia|].
    apply Z.log2_lt_pow2; [lia|]. change (2 ^ 64) with U64_MOD. lia.
Qed.

Lemma to_i64_range bits :
  is_u64 bits -> -9223372036854775808 <= to_i64 bits < 9223372036854775808.
Proof. unfold to_i64. intros. case_match; lia. Qed.

Lemma parse_marker_safe parse_element n marker marker_offset offset cursor :
  (forall c, 0 <= c <= bytes_size ->
    safe (parse_element c) (fun '(v, c') => c < c' <= bytes_size /\ value_wf n v)) ->
  is_u8 marker -> 0 <= cursor <= bytes_size ->
  safe (parse_marker data bytes_data bytes_size bytes_file_offset parse_element
          marker marker_offset offset cursor)
    (fun '(v, c) => cursor <= c <= bytes_size /\ value_wf (S n) v).
Proof.
  intros Helem Hmarker Hc. unfold parse_marker.
  assert (forall m k, 0 <= k -> 0 <= Z.land m k) as Hland
    by (intros; apply Z.land_nonneg; lia).
  case_match; [simpl; split; [lia|constructor; lia]|].
  case_match; [simpl; split; [lia|constructor; unfold to_i8; case_match; lia]|].
  case_match; [apply parse_string_safe; auto with lia|].
  case_match; [by apply parse_array_safe; [|lia]|].
  case_match; [by apply parse_map_safe; [|lia]|].
  case_match; [simpl; split; [lia|constructor]|].
  case_match; [simpl; split; [lia|constructor]|].
  case_match.
  { pose proof (width_range (marker - 0xcc) ltac:(lia)) as Hw.
    eapply safe_bind; [apply read_big_endian_safe; lia|].
    intros [[v c]|] Hr; [|fails]. destruct (Hr v c eq_refl) as (? & -> & ?).
    pose proof (pow256_u64 (Z.shiftl 1 (marker - 0xcc)) ltac:(lia)).
    simpl. split; [lia|constructor; lia]. }
  case_match.
  { pose proof (width_range (marker - 0xd0) ltac:(lia)) as Hw.
    eapply safe_bind; [apply read_big_endian_safe; lia|].
    intros [[v c]|] Hr; [|fails]. destruct (Hr v c eq_refl) as (? & -> & ?).
    simpl. split; [lia|constructor]. by apply to_i64_range, sign_extend_range. }
  case_match.
  { pose proof (width_range (marker - 0xd9) ltac:(lia)) as Hw.
    eapply safe_bind; [apply read_length_safe; lia|]. intros [len c] [? ?].
    eapply safe_mono; [apply parse_string_safe; lia|].
    intros [v c'] [? Hv]. split; [lia|exact Hv]. }
  case_match.
  { eapply safe_bind; [apply read_length_safe; [lia|case_match; lia]|]. intros [len c] [? ?].
    eapply safe_mono; [by apply parse_array_safe; [|lia]|].
    intros [v c'] [? Hv]. split; [lia|exact Hv]. }
  case_match; [|fails].
  eapply safe_bind; [apply read_length_safe; [lia|case_match; lia]|]. intros [len c] [? ?].
  eapply safe_mono; [by apply parse_map_safe; [|lia]|].
  intros [v c'] [? Hv]. split; [lia|exact Hv].
Qed.

(** The reader stays inside its bytes, always advances and yields a
    well-formed value whose nesting the depth check bounds. *)
Lemma parse_value_safe fuel depth cursor n :
  0 <= depth -> 66 <= depth + Z.of_nat fuel -> depth + Z.of_nat n = 65 ->
  0 <= cursor <= bytes_size ->
  safe (parse_value fuel depth cursor)
    (fun '(v, c) => cursor < c <= bytes_size /\ value_wf n v).
Proof.
  revert depth cursor n. induction fuel as [|fuel IH]; intros depth cursor n Hd Hf Hn Hc.
  { lia. }
  cbn [MessagePack.parse_value]. case_match eqn:Hdepth; [fails|].
  unfold kMaximumMetadataDepth in Hdepth. destruct n as [|n]; [lia|].
  destruct (take_bytes 1 cursor) as [[p c]|] eqn:Ht; [|fails].
  apply take_bytes_Some in Ht as (-> & -> & Hc'); [|done].
  eapply safe_bind; [apply read_u8_safe; lia|]. cbn beta. intros marker Hmarker.
  eapply safe_mono; [apply (parse_marker_safe _ n); [|done|lia]|].
  - intros. apply IH; lia.
  - intros [v c] [? ?]. split; [lia|done].
Qed.

Lemma parse_document_safe :
  safe (parse_document data bytes_data bytes_size bytes_file_offset) (value_wf 65).
Proof.
  unfold parse_document.
  eapply safe_bind; [apply (parse_value_safe parse_fuel 0 0 65); unfold parse_fuel; lia|].
  intros [v c] [? ?]. case_match; [fails|done].
Qed.
End reader_facts.

(** Whatever the bytes, [MessagePackReader::parse] returns: it reads only
    inside the descriptor, its recursion is bounded by the depth limit, every
    error is reported as one, and an accepted document has at most 65 levels,
    64-bit integers and no duplicate key in any map. *)
Theorem parse_document_total (data : bytes) bytes_data bytes_size bytes_file_offset :
  is_u64 (size_of data) -> 0 <= bytes_data -> 0 <= bytes_size ->
  bytes_data + bytes_size <= size_of data ->
  safe (parse_document data bytes_data bytes_size bytes_file_offset) (value_wf 65).
Proof. apply parse_document_safe. Qed.
