(* ===== verification/MessagePackFormat.v ===== *)
(** * The MessagePack format as a reference

    An encoder for the part of MessagePack the metadata uses, taken from the
    format's definition (smallest encoding of every value), and the theorem
    that [MessagePackReader] reads back every document the encoder writes.
    Values are compared up to the file offsets the reader records. *)

From S2P Require Import Prelude Order Memory CodeObject MessagePack.

Definition be_bytes (n : nat) (z : Z) : bytes := rev (le_bytes n z).

Definition encode_unsigned (u : Z) : bytes :=
  if u <? 128 then [byte_of u]
  else if u <? U8_MOD then xcc :: be_bytes 1 u
  else if u <? U16_MOD then xcd :: be_bytes 2 u
  else if u <? U32_MOD then xce :: be_bytes 4 u
  else xcf :: be_bytes 8 u.

Definition encode_signed (i : Z) : bytes :=
  if (-32 <=? i) && (i <? 0) then [byte_of i]
  else if (-128 <=? i) && (i <? 128) then xd0 :: be_bytes 1 i
  else if (-32768 <=? i) && (i <? 32768) then xd1 :: be_bytes 2 i
  else if (-2147483648 <=? i) && (i <? 2147483648) then xd2 :: be_bytes 4 i
  else xd3 :: be_bytes 8 i.

Definition encode_string (s : string) : bytes :=
  let chars := String.list_byte_of_string s in
  let n := size_of chars in
  (if n <? 32 then [byte_of (0xa0 + n)]
   else if n <? U8_MOD then xd9 :: be_bytes 1 n
   else if n <? U16_MOD then xda :: be_bytes 2 n
   else xdb :: be_bytes 4 n) ++ chars.

Definition array_header (n : Z) : bytes :=
  if n <? 16 then [byte_of (0x90 + n)]
  else if n <? U16_MOD then xdc :: be_bytes 2 n
  else xdd :: be_bytes 4 n.

Definition map_header (n : Z) : bytes :=
  if n <? 16 then [byte_of (0x80 + n)]
  else if n <? U16_MOD then xde :: be_bytes 2 n
  else xdf :: be_bytes 4 n.

Fixpoint encode (v : MessagePackValue) : bytes :=
  match v with
  | MNil _ => [xc0]
  | MBoolean _ b => [if b then xc3 else xc2]
  | MUnsigned _ u => encode_unsigned u
  | MSigned _ i => encode_signed i
  | MString _ s => encode_string s
  | MArray _ l => array_header (Z.of_nat (length l)) ++ concat (List.map encode l)
  | MMap _ m => map_header (Z.of_nat (length m)) ++
      concat (List.map (fun kv => encode_string kv.1 ++ encode kv.2) m)
  end.

(** The value without the offsets. *)
Fixpoint strip (v : MessagePackValue) : MessagePackValue :=
  match v with
  | MNil _ => MNil 0
  | MBoolean _ b => MBoolean 0 b
  | MUnsigned _ u => MUnsigned 0 u
  | MSigned _ i => MSigned 0 i
  | MString _ s => MString 0 s
  | MArray _ l => MArray 0 (List.map strip l)
  | MMap _ m => MMap 0 (List.map (fun kv => (kv.1, strip kv.2)) m)
  end.

Definition string_size (s : string) : Z := size_of (String.list_byte_of_string s).

(** The values MessagePack can carry: 32-bit lengths, 64-bit integers, at
    most [n] levels; and distinct keys, which the reader insists on. *)
Inductive encodable : nat -> MessagePackValue -> Prop :=
| enc_nil n o : encodable (S n) (MNil o)
| enc_boolean n o b : encodable (S n) (MBoolean o b)
| enc_unsigned n o u : is_u64 u -> encodable (S n) (MUnsigned o u)
| enc_signed n o i :
    -9223372036854775808 <= i < 9223372036854775808 -> encodable (S n) (MSigned o i)
| enc_string n o s : string_size s < U32_MOD -> encodable (S n) (MString o s)
| enc_array n o l :
    Z.of_nat (length l) < U32_MOD -> Forall (encodable n) l -> encodable (S n) (MArray o l)
| enc_map n o m :
    Z.of_nat (length m) < U32_MOD -> NoDup m.*1 ->
    Forall (fun kv => string_size kv.1 < U32_MOD /\ encodable n kv.2) m ->
    (0 < n)%nat -> encodable (S n) (MMap o m).

(** ** Big-endian integers *)

Lemma be_value_rev l : be_value (rev l) = le_value l.
Proof.
  induction l as [|b l IH]; [done|]. unfold be_value in *. cbn [rev le_value].
  rewrite foldl_app, IH. simpl. lia.
Qed.

Lemma be_value_bytes n z : be_value (be_bytes n z) = z mod 2 ^ (8 * Z.of_nat n).
Proof. unfold be_bytes. by rewrite be_value_rev, le_value_bytes. Qed.

Lemma length_be_bytes n z : length (be_bytes n z) = n.
Proof. unfold be_bytes. by rewrite length_rev, length_le_bytes. Qed.

Lemma size_of_app (l1 l2 : bytes) : size_of (l1 ++ l2) = size_of l1 + size_of l2.
Proof. unfold size_of. rewrite length_app. lia. Qed.

Lemma size_of_cons b (l : bytes) : size_of (b :: l) = 1 + size_of l.
Proof. unfold size_of. simpl. lia. Qed.

Lemma size_of_be_bytes n z : size_of (be_bytes n z) = Z.of_nat n.
Proof. unfold size_of. by rewrite length_be_bytes. Qed.

Lemma size_of_nonneg (l : bytes) : 0 <= size_of l.
Proof. unfold size_of. lia. Qed.

Lemma land_bit_eqb bits k :
  0 <= k -> 0 <= bits < 2 ^ (k + 1) -> (Z.land bits (Z.shiftl 1 k) =? 0) = (bits <? 2 ^ k).
Proof.
  intros Hk Hb. rewrite Z.pow_add_r, Z.pow_1_r in Hb by lia.
  assert (Z.testbit bits k = negb (bits <? 2 ^ k)) as Hbit.
  { apply eq_true_iff_eq. rewrite Z.testbit_true by done. rewrite negb_true_iff, Z.ltb_ge.
    pose proof (Z.pow_pos_nonneg 2 k ltac:(lia) Hk).
    split; intros Ht; [|replace (bits / 2 ^ k) with 1; [done|]].
    - destruct (Z_lt_le_dec bits (2 ^ k)); [|done]. by rewrite Z.div_small in Ht by lia.
    - apply Z.div_unique with (bits - 2 ^ k); lia. }
  destruct (Z.ltb_spec bits (2 ^ k)) as [Hlt|Hge]; simpl in Hbit.
  - apply Z.eqb_eq, Z.bits_inj'. intros i Hi. rewrite Z.land_spec, Z.bits_0.
    destruct (Z.eq_dec i k) as [->|Hne]; [by rewrite Hbit|].
    rewrite Z.shiftl_spec by done. destruct (Z_lt_le_dec i k).
    + by rewrite (Z.testbit_neg_r 1), andb_false_r by lia.
    + rewrite (Z.bits_above_log2 1), andb_false_r by (simpl; lia). done.
  - apply Z.eqb_neq. intros Hz. assert (Z.testbit 0 k = true) as Hc.
    { rewrite <-Hz, Z.land_spec, Hbit, Z.shiftl_spec, Z.sub_diag by done. done. }
    by rewrite Z.bits_0 in Hc.
Qed.

(** The bits of a [width]-byte two's-complement number give the number back. *)
Lemma sign_extend_id width i :
  width = 1 \/ width = 2 \/ width = 4 \/ width = 8 ->
  - 2 ^ (8 * width - 1) <= i < 2 ^ (8 * width - 1) ->
  to_i64 (sign_extend width (i mod 2 ^ (8 * width))) = i.
Proof.
  intros Hw Hi. unfold sign_extend.
  assert (width < 8 -> exists ext,
    to_u64 (Z.shiftl UINT64_MAX (width * 8)) = Z.shiftl ext (8 * width) /\
    ext * 2 ^ (8 * width) = U64_MOD - 2 ^ (8 * width)) as Hext.
  { intros. exists (2 ^ (64 - 8 * width) - 1).
    destruct Hw as [-> | [-> | [-> | ->]]]; [done..|lia]. }
  replace (width * 8 - 1) with (8 * width - 1) in * by lia.
  assert (2 ^ (8 * width) = 2 * 2 ^ (8 * width - 1)) as Hpow.
  { rewrite <-Z.pow_succ_r by lia. f_equal. lia. }
  assert (2 ^ (8 * width) <= U64_MOD) by (apply (pow256_u64 width); lia).
  assert (0 < 2 ^ (8 * width - 1)) by (apply Z.pow_pos_nonneg; lia).
  assert (i mod 2 ^ (8 * width) = if i <? 0 then i + 2 ^ (8 * width) else i) as Hm.
  { case_match; [|apply Z.mod_small; lia].
    symmetry. apply Z.mod_unique with (-1); lia. }
  destruct (i <? 0) eqn:Hneg; rewrite land_bit_eqb by
    (try lia; replace (8 * width - 1 + 1) with (8 * width) by lia; apply Z.mod_pos_bound; lia);
    destruct ((width <? 8) && _) eqn:G; rewrite Hm in G |- *; try lia.
  - destruct Hext as (ext & -> & Hx); [lia|]. rewrite lor_add_disjoint, Hx by lia.
    unfold to_i64. case_match; lia.
  - unfold to_i64. assert (2 ^ (8 * width) = U64_MOD) by
      (replace width with 8 by lia; done). case_match; lia.
  - unfold to_i64. case_match; lia.
Qed.

(** ** Reading placed bytes *)

Section placed.
Context (data : bytes) (bytes_data bytes_size bytes_file_offset : Z).
Context (Hfile : is_u64 (size_of data)).
Context (Hbegin : 0 <= bytes_data) (Hsize : 0 <= bytes_size).
Context (Hend : bytes_data + bytes_size <= size_of data).

(** The reader's bytes hold [l] at [cursor]. *)
Definition placed (cursor : Z) (l : bytes) : Prop :=
  0 <= cursor /\ cursor + size_of l <= bytes_size /\
  exists pre post, data = pre ++ l ++ post /\ size_of pre = bytes_data + cursor.

Lemma placed_app cursor l1 l2 :
  placed cursor (l1 ++ l2) -> placed cursor l1 /\ placed (cursor + size_of l1) l2.
Proof.
  intros (Hc & Hs & pre & post & Hd & Hp). rewrite size_of_app in Hs.
  pose proof (size_of_nonneg l1). pose proof (size_of_nonneg l2).
  split; (split; [lia|split; [lia|]]).
  - exists pre, (l2 ++ post). by rewrite Hd, <-!app_assoc.
  - exists (pre ++ l1), post. rewrite size_of_app. split; [|lia]. by rewrite Hd, <-!app_assoc.
Qed.

Lemma placed_slice cursor l :
  placed cursor l -> take (length l) (drop (Z.to_nat (bytes_data + cursor)) data) = l.
Proof.
  intros (Hc & Hs & pre & post & Hd & Hp). rewrite Hd, <-Hp. unfold size_of.
  by rewrite Nat2Z.id, drop_app_length, take_app_length.
Qed.

Lemma placed_take cursor l :
  placed cursor l ->
  take_bytes bytes_data bytes_size (size_of l) cursor =
    Some (bytes_data + cursor, cursor + size_of l).
Proof.
  intros (Hc & Hs & _). pose proof (size_of_nonneg l).
  apply (take_bytes_ok data); lia.
Qed.

Lemma placed_read_u8 cursor b l :
  placed cursor (b :: l) -> read_u8 (E:=ParseError) data (bytes_data + cursor) = Ok (byte_val b).
Proof.
  intros Hp. pose proof (placed_slice _ _ Hp) as Hs. destruct Hp as (Hc & Hle & _).
  rewrite size_of_cons in Hle. pose proof (size_of_nonneg l).
  destruct (read_u8_ok (E:=ParseError) data (bytes_data + cursor)) as (b' & Hb' & ->); [lia|].
  rewrite (drop_S _ b') in Hs by done. simpl in Hs. by simplify_eq.
Qed.

Lemma placed_big_endian cursor n z :
  (n <= 8)%nat -> placed cursor (be_bytes n z) ->
  read_big_endian data bytes_data bytes_size (Z.of_nat n) cursor =
  Ok (Some (z mod 2 ^ (8 * Z.of_nat n), cursor + Z.of_nat n)).
Proof.
  intros Hn Hp. pose proof (placed_slice _ _ Hp) as Hs. destruct Hp as (Hc & Hle & _).
  rewrite size_of_be_bytes in Hle. rewrite length_be_bytes in Hs.
  rewrite read_big_endian_ok by lia. by rewrite Nat2Z.id, Hs, be_value_bytes.
Qed.

Lemma placed_length cursor n z marker_offset :
  (n <= 8)%nat -> 0 <= z < 2 ^ (8 * Z.of_nat n) -> placed cursor (be_bytes n z) ->
  read_length data bytes_data bytes_size bytes_file_offset (Z.of_nat n) marker_offset cursor =
  Ok (z, cursor + Z.of_nat n).
Proof.
  intros Hn Hz Hp. unfold read_length. rewrite (placed_big_endian cursor n z) by done.
  cbn [mbind result_bind]. rewrite Z.mod_small by done.
  pose proof (pow256_u64 (Z.of_nat n) ltac:(lia)). case_match; [lia|done].
Qed.

Lemma placed_string cursor s marker_offset offset :
  placed cursor (String.list_byte_of_string s) ->
  parse_string data bytes_data bytes_size bytes_file_offset (string_size s)
    marker_offset offset cursor = Ok (MString offset s, cursor + string_size s).
Proof.
  intros Hp. unfold parse_string, string_size. rewrite placed_take by done.
  pose proof (placed_slice _ _ Hp) as Hs. destruct Hp as (Hc & Hle & _).
  pose proof (size_of_nonneg (String.list_byte_of_string s)).
  unfold read_bytes. destruct (_ && _) eqn:G; [|lia]. cbn [mbind result_bind].
  unfold size_of at 1. rewrite Nat2Z.id, Hs.
  by rewrite String.string_of_list_byte_of_string.
Qed.

#[local] Abbreviation parse_value := (parse_value data bytes_data bytes_size bytes_file_offset).
#[local] Abbreviation parse_marker := (parse_marker data bytes_data bytes_size bytes_file_offset).

Lemma parse_value_marker fuel depth cursor b l :
  depth <= kMaximumMetadataDepth -> placed cursor (b :: l) ->
  parse_value (S fuel) depth cursor =
  parse_marker (parse_value fuel (depth + 1)) (byte_val b) cursor
    (u64_add bytes_file_offset cursor) (cursor + 1).
Proof.
  intros Hd Hp. cbn [MessagePack.parse_value]. case_match; [lia|].
  pose proof (placed_app cursor [b] l Hp) as [Hb _].
  pose proof (placed_take cursor [b] Hb) as Ht. change (size_of [b]) with 1 in Ht.
  rewrite Ht, (placed_read_u8 cursor b l) by done. done.
Qed.

Lemma placed_tail cursor b l : placed cursor (b :: l) -> placed (cursor + 1) l.
Proof. intros Hp. by apply (placed_app cursor [b] l) in Hp as [_ ?]. Qed.

Lemma byte_val_small z : is_u8 z -> byte_val (byte_of z) = z.
Proof. intros. rewrite byte_val_of. by apply Z.mod_small. Qed.

(** Finitely many markers are checked by evaluation. *)
Lemma marker_cases (P : Z -> bool) (lo : Z) (n : nat) :
  forallb P (seqZ lo (Z.of_nat n)) = true ->
  forall z, lo <= z < lo + Z.of_nat n -> P z = true.
Proof.
  intros H z Hz. rewrite forallb_forall in H. apply H, list_elem_of_In, elem_of_seqZ. lia.
Qed.

Lemma parse_marker_string parse_element n mo o c :
  0 <= n < 32 ->
  parse_marker parse_element (0xa0 + n) mo o c =
  parse_string data bytes_data bytes_size bytes_file_offset n mo o c.
Proof.
  intros Hn. unfold MessagePack.parse_marker.
  pose proof (marker_cases (fun m => negb (m <=? 0x7f) && negb (m >=? 0xe0) &&
    (Z.land m 0xe0 =? 0xa0) && (Z.land m 0x1f =? m - 0xa0)) 0xa0 32 eq_refl (0xa0 + n)
    ltac:(lia)) as Hm. cbv beta in Hm.
  repeat (case_match; try lia).
  f_equal. lia.
Qed.

Lemma parse_marker_array parse_element n mo o c :
  0 <= n < 16 ->
  parse_marker parse_element (0x90 + n) mo o c =
  parse_array bytes_size bytes_file_offset parse_element n mo o c.
Proof.
  intros Hn. unfold MessagePack.parse_marker.
  pose proof (marker_cases (fun m => negb (m <=? 0x7f) && negb (m >=? 0xe0) &&
    negb (Z.land m 0xe0 =? 0xa0) && (Z.land m 0xf0 =? 0x90) &&
    (Z.land m 0x0f =? m - 0x90)) 0x90 16 eq_refl (0x90 + n) ltac:(lia)) as Hm. cbv beta in Hm.
  repeat (case_match; try lia).
  f_equal. lia.
Qed.

Lemma parse_marker_map parse_element n mo o c :
  0 <= n < 16 ->
  parse_marker parse_element (0x80 + n) mo o c =
  parse_map bytes_size bytes_file_offset parse_element n mo o c.
Proof.
  intros Hn. unfold MessagePack.parse_marker.
  pose proof (marker_cases (fun m => negb (m <=? 0x7f) && negb (m >=? 0xe0) &&
    negb (Z.land m 0xe0 =? 0xa0) && negb (Z.land m 0xf0 =? 0x90) && (Z.land m 0xf0 =? 0x80) &&
    (Z.land m 0x0f =? m - 0x80)) 0x80 16 eq_refl (0x80 + n) ltac:(lia)) as Hm. cbv beta in Hm.
  repeat (case_match; try lia).
  f_equal. lia.
Qed.

(** A marker followed by a big-endian length. *)
Lemma placed_length_header fuel depth cursor m n z rest :
  depth <= kMaximumMetadataDepth -> (n <= 8)%nat -> 0 <= z < 2 ^ (8 * Z.of_nat n) ->
  placed cursor (m :: be_bytes n z ++ rest) ->
  parse_value (S fuel) depth cursor =
    parse_marker (parse_value fuel (depth + 1)) (byte_val m) cursor
      (u64_add bytes_file_offset cursor) (cursor + 1) /\
  read_length data bytes_data bytes_size bytes_file_offset (Z.of_nat n) cursor (cursor + 1) =
    Ok (z, cursor + size_of (m :: be_bytes n z)) /\
  placed (cursor + size_of (m :: be_bytes n z)) rest.
Proof.
  intros Hd Hn Hz Hp. split; [by eapply parse_value_marker|].
  apply placed_tail, placed_app in Hp as [Hlen Hrest].
  rewrite size_of_cons, size_of_be_bytes, Z.add_assoc in *.
  split; [by apply placed_length|done].
Qed.

(** The dispatch on the markers that a length follows. *)
Lemma parse_marker_lengths pe mo o c :
  let len w k := '(length, cursor) ← read_length data bytes_data bytes_size
    bytes_file_offset w mo c; k length mo o cursor in
  let str := parse_string data bytes_data bytes_size bytes_file_offset in
  parse_marker pe (byte_val xd9) mo o c = len 1 str /\
  parse_marker pe (byte_val xda) mo o c = len 2 str /\
  parse_marker pe (byte_val xdb) mo o c = len 4 str /\
  parse_marker pe (byte_val xdc) mo o c = len 2 (parse_array bytes_size bytes_file_offset pe) /\
  parse_marker pe (byte_val xdd) mo o c = len 4 (parse_array bytes_size bytes_file_offset pe) /\
  parse_marker pe (byte_val xde) mo o c = len 2 (parse_map bytes_size bytes_file_offset pe) /\
  parse_marker pe (byte_val xdf) mo o c = len 4 (parse_map bytes_size bytes_file_offset pe).
Proof. done. Qed.

Lemma parse_value_string fuel depth cursor s :
  depth <= kMaximumMetadataDepth -> string_size s < U32_MOD ->
  placed cursor (encode_string s) ->
  parse_value (S fuel) depth cursor =
  Ok (MString (u64_add bytes_file_offset cursor) s, cursor + size_of (encode_string s)).
Proof.
  intros Hd Hs. unfold encode_string, string_size in *.
  set (chars := String.list_byte_of_string s) in *. pose proof (size_of_nonneg chars).
  assert (forall c mo o, placed c chars ->
    parse_string data bytes_data bytes_size bytes_file_offset (size_of chars) mo o c =
    Ok (MString o s, c + size_of chars)) as Hstr by (intros; by apply placed_string).
  destruct (parse_marker_lengths (parse_value fuel (depth + 1)) cursor
    (u64_add bytes_file_offset cursor) (cursor + 1)) as (M1 & M2 & M3 & _).
  rewrite size_of_app, Z.add_assoc. repeat case_match; cbn [app]; intros Hp.
  - rewrite (parse_value_marker _ _ _ (byte_of (0xa0 + size_of chars)) chars) by done.
    rewrite byte_val_small, parse_marker_string by lia.
    by rewrite Hstr by (by eapply placed_tail).
  - apply (placed_length_header fuel depth) in Hp as (-> & Hl & Hp); [|done|lia|simpl; lia].
    rewrite M1. change (Z.of_nat 1) with 1 in Hl. rewrite Hl. by apply Hstr.
  - apply (placed_length_header fuel depth) in Hp as (-> & Hl & Hp); [|done|lia|simpl; lia].
    rewrite M2. change (Z.of_nat 2) with 2 in Hl. rewrite Hl. by apply Hstr.
  - apply (placed_length_header fuel depth) in Hp as (-> & Hl & Hp); [|done|lia|simpl; lia].
    rewrite M3. change (Z.of_nat 4) with 4 in Hl. rewrite Hl. by apply Hstr.
Qed.

Lemma parse_value_array fuel depth cursor n rest :
  depth <= kMaximumMetadataDepth -> 0 <= n < U32_MOD ->
  placed cursor (array_header n ++ rest) ->
  parse_value (S fuel) depth cursor =
    parse_array bytes_size bytes_file_offset (parse_value fuel (depth + 1)) n cursor
      (u64_add bytes_file_offset cursor) (cursor + size_of (array_header n)) /\
  placed (cursor + size_of (array_header n)) rest.
Proof.
  intros Hd Hn. unfold array_header.
  destruct (parse_marker_lengths (parse_value fuel (depth + 1)) cursor
    (u64_add bytes_file_offset cursor) (cursor + 1)) as (_ & _ & _ & M1 & M2 & _).
  repeat case_match; cbn [app]; intros Hp.
  - rewrite (parse_value_marker _ _ _ (byte_of (0x90 + n)) rest) by done.
    rewrite byte_val_small, parse_marker_array by lia.
    split; [done|by eapply placed_tail].
  - apply (placed_length_header fuel depth) in Hp as (-> & Hl & Hp); [|done|lia|simpl; lia].
    rewrite M1. change (Z.of_nat 2) with 2 in Hl. by rewrite Hl.
  - apply (placed_length_header fuel depth) in Hp as (-> & Hl & Hp); [|done|lia|simpl; lia].
    rewrite M2. change (Z.of_nat 4) with 4 in Hl. by rewrite Hl.
Qed.

Lemma parse_value_map fuel depth cursor n rest :
  depth <= kMaximumMetadataDepth -> 0 <= n < U32_MOD ->
  placed cursor (map_header n ++ rest) ->
  parse_value (S fuel) depth cursor =
    parse_map bytes_size bytes_file_offset (parse_value fuel (depth + 1)) n cursor
      (u64_add bytes_file_offset cursor) (cursor + size_of (map_header n)) /\
  placed (cursor + size_of (map_header n)) rest.
Proof.
  intros Hd Hn. unfold map_header.
  destruct (parse_marker_lengths (parse_value fuel (depth + 1)) cursor
    (u64_add bytes_file_offset cursor) (cursor + 1)) as (_ & _ & _ & _ & _ & M1 & M2).
  repeat case_match; cbn [app]; intros Hp.
  - rewrite (parse_value_marker _ _ _ (byte_of (0x80 + n)) rest) by done.
    rewrite byte_val_small, parse_marker_map by lia.
    split; [done|by eapply placed_tail].
  - apply (placed_length_header fuel depth) in Hp as (-> & Hl & Hp); [|done|lia|simpl; lia].
    rewrite M1. change (Z.of_nat 2) with 2 in Hl. by rewrite Hl.
  - apply (placed_length_header fuel depth) in Hp as (-> & Hl & Hp); [|done|lia|simpl; lia].
    rewrite M2. change (Z.of_nat 4) with 4 in Hl. by rewrite Hl.
Qed.

Lemma size_of_encode v : 1 <= size_of (encode v).
Proof.
  assert (forall l1 l2, 1 <= size_of l1 -> 1 <= size_of (l1 ++ l2)) as Happ.
  { intros l1 l2. rewrite size_of_app. pose proof (size_of_nonneg l2). lia. }
  destruct v; simpl; try apply Happ;
    unfold encode_unsigned, encode_signed, encode_string, array_header, map_header;
    try apply Happ; repeat case_match; rewrite ?size_of_cons;
    match goal with |- _ <= _ + size_of ?l => pose proof (size_of_nonneg l); lia end.
Qed.

Lemma size_of_encode_string s : 1 <= size_of (encode_string s).
Proof. apply (size_of_encode (MString 0 s)). Qed.

Section elements.
Context (pe : Z -> parse (MessagePackValue * Z)).

(** [pe] reads [v] back wherever its encoding is placed. *)
Definition reads (v : MessagePackValue) : Prop :=
  forall c, placed c (encode v) ->
  exists v', pe c = Ok (v', c + size_of (encode v)) /\ strip v' = strip v.

Lemma array_loop_reads l c :
  Forall reads l -> placed c (concat (List.map encode l)) ->
  exists l', array_loop pe (length l) c = Ok (l', c + size_of (concat (List.map encode l))) /\
             List.map strip l' = List.map strip l.
Proof.
  intros Hl. revert c. induction Hl as [|v l Hv Hl IH]; intros c Hp; simpl in *.
  { exists []. split; [|done]. do 2 f_equal. change (size_of []) with 0. lia. }
  apply placed_app in Hp as [Hp1 Hp2].
  destruct (Hv c Hp1) as (v' & -> & Hv'). cbn [mbind result_bind].
  destruct (IH _ Hp2) as (l' & -> & Hl'). cbn [mbind result_bind].
  exists (v' :: l'). simpl. rewrite Hv', Hl', size_of_app, Z.add_assoc. done.
Qed.

Lemma map_loop_reads m keys c :
  Forall (fun kv => reads (MString 0 kv.1) /\ reads kv.2) m ->
  NoDup m.*1 -> (forall k, k ∈ m.*1 -> k ∉ keys) ->
  placed c (concat (List.map (fun kv => encode_string kv.1 ++ encode kv.2) m)) ->
  exists m', map_loop bytes_file_offset pe (length m) keys c =
      Ok (m', c + size_of (concat (List.map (fun kv => encode_string kv.1 ++ encode kv.2) m))) /\
    List.map (fun kv => (kv.1, strip kv.2)) m' = List.map (fun kv => (kv.1, strip kv.2)) m.
Proof.
  intros Hm. revert keys c. induction Hm as [|[k v] m [Hk Hv] Hm IH]; intros keys c Hnd Hfresh Hp;
    simpl in *.
  { exists []. split; [|done]. do 2 f_equal. change (size_of []) with 0. lia. }
  rewrite <-app_assoc in Hp. apply placed_app in Hp as [Hp1 Hp2].
  apply placed_app in Hp2 as [Hp2 Hp3]. apply NoDup_cons in Hnd as [Hk' Hnd].
  destruct (Hk c Hp1) as (kv & -> & Hkv). cbn [mbind result_bind].
  destruct kv; simplify_eq/=. rewrite bool_decide_false by (apply Hfresh; left).
  destruct (Hv _ Hp2) as (v' & -> & Hv'). cbn [mbind result_bind].
  edestruct (IH (k :: keys)) as (m' & -> & Hm'); [done| |exact Hp3|].
  { intros k2 Hk2 [->|Hin]%elem_of_cons; [done|]. by apply (Hfresh k2); [right|]. }
  cbn [mbind result_bind]. exists ((k, v') :: m'). simpl.
  rewrite Hv', Hm', !size_of_app, !Z.add_assoc. done.
Qed.
End elements.

(** The scalar markers. *)
Lemma parse_marker_scalars pe mo o c :
  parse_marker pe (byte_val xc0) mo o c = Ok (MNil o, c) /\
  parse_marker pe (byte_val xc2) mo o c = Ok (MBoolean o false, c) /\
  parse_marker pe (byte_val xc3) mo o c = Ok (MBoolean o true, c).
Proof. done. Qed.

(** The integer markers and the width they announce. *)
Definition unsigned_marker (m : byte) (w : Z) : Prop :=
  (m, w) ∈ [(xcc, 1); (xcd, 2); (xce, 4); (xcf, 8)].
Definition signed_marker (m : byte) (w : Z) : Prop :=
  (m, w) ∈ [(xd0, 1); (xd1, 2); (xd2, 4); (xd3, 8)].

Lemma parse_marker_unsigned pe m w z mo o c :
  unsigned_marker m w -> 0 <= z < 2 ^ (8 * w) -> placed c (be_bytes (Z.to_nat w) z) ->
  parse_marker pe (byte_val m) mo o c = Ok (MUnsigned o z, c + w).
Proof.
  intros Hm Hz Hp. unfold unsigned_marker in Hm.
  assert (parse_marker pe (byte_val m) mo o c =
    (read ← read_big_endian data bytes_data bytes_size w c;
     match read with
     | None => fail bytes_file_offset ParseErrorCode.InvalidMetadata mo
         "MessagePack unsigned integer is truncated"
     | Some (integer, cursor) => Ok (MUnsigned o integer, cursor)
     end) /\ 1 <= w <= 8) as [-> Hw].
  { rewrite !elem_of_cons, elem_of_nil in Hm.
    destruct_or?; simplify_eq; (split; [done|lia]). }
  apply placed_big_endian in Hp; [|lia]. rewrite Z2Nat.id in Hp by lia.
  by rewrite Hp, Z.mod_small by done.
Qed.

Lemma parse_marker_signed pe m w z mo o c :
  signed_marker m w -> - 2 ^ (8 * w - 1) <= z < 2 ^ (8 * w - 1) ->
  placed c (be_bytes (Z.to_nat w) z) ->
  parse_marker pe (byte_val m) mo o c = Ok (MSigned o z, c + w).
Proof.
  intros Hm Hz Hp. unfold signed_marker in Hm.
  assert (parse_marker pe (byte_val m) mo o c =
    (read ← read_big_endian data bytes_data bytes_size w c;
     match read with
     | None => fail bytes_file_offset ParseErrorCode.InvalidMetadata mo
         "MessagePack signed integer is truncated"
     | Some (bits, cursor) => Ok (MSigned o (to_i64 (sign_extend w bits)), cursor)
     end) /\ (w = 1 \/ w = 2 \/ w = 4 \/ w = 8)) as [-> Hw].
  { rewrite !elem_of_cons, elem_of_nil in Hm.
    destruct_or?; simplify_eq; (split; [done|lia]). }
  apply placed_big_endian in Hp; [|lia]. rewrite Z2Nat.id in Hp by lia.
  rewrite Hp. cbn [mbind result_bind]. by rewrite sign_extend_id.
Qed.

Lemma parse_value_unsigned fuel depth cursor u :
  depth <= kMaximumMetadataDepth -> is_u64 u -> placed cursor (encode_unsigned u) ->
  parse_value (S fuel) depth cursor =
  Ok (MUnsigned (u64_add bytes_file_offset cursor) u, cursor + size_of (encode_unsigned u)).
Proof.
  intros Hd Hu. unfold encode_unsigned.
  case_match; [intros Hp; erewrite parse_value_marker by done;
    rewrite byte_val_small by lia; unfold MessagePack.parse_marker; case_match; [done|lia]|].
  repeat case_match; intros Hp; (erewrite parse_value_marker by done);
    rewrite size_of_cons, size_of_be_bytes, Z.add_assoc; apply placed_tail in Hp;
    eapply parse_marker_unsigned; try exact Hp; try (simpl; lia);
    apply list_elem_of_In; simpl; auto.
Qed.

Lemma parse_value_signed fuel depth cursor i :
  depth <= kMaximumMetadataDepth ->
  -9223372036854775808 <= i < 9223372036854775808 -> placed cursor (encode_signed i) ->
  parse_value (S fuel) depth cursor =
  Ok (MSigned (u64_add bytes_file_offset cursor) i, cursor + size_of (encode_signed i)).
Proof.
  intros Hd Hi. unfold encode_signed. case_match.
  { intros Hp. erewrite parse_value_marker by done. rewrite byte_val_of.
    replace (i mod U8_MOD) with (i + U8_MOD) by (apply Z.mod_unique with (-1); lia).
    unfold MessagePack.parse_marker, to_i8. repeat (case_match; try lia).
    do 3 f_equal. lia. }
  repeat case_match; intros Hp; (erewrite parse_value_marker by done);
    rewrite size_of_cons, size_of_be_bytes, Z.add_assoc; apply placed_tail in Hp;
    eapply parse_marker_signed; try exact Hp; try (simpl; lia);
    apply list_elem_of_In; simpl; auto.
Qed.

Lemma concat_size (f : MessagePackValue -> bytes) l :
  (forall v, 1 <= size_of (f v)) -> Z.of_nat (length l) <= size_of (concat (List.map f l)).
Proof.
  intros Hf. induction l as [|v l IH]; simpl; [unfold size_of; simpl; lia|].
  rewrite size_of_app. specialize (Hf v). lia.
Qed.

Lemma concat_pair_size (m : list (string * MessagePackValue)) :
  2 * Z.of_nat (length m) <=
  size_of (concat (List.map (fun kv => encode_string kv.1 ++ encode kv.2) m)).
Proof.
  induction m as [|[k v] m IH]; simpl; [unfold size_of; simpl; lia|].
  rewrite !size_of_app. pose proof (size_of_encode_string k). pose proof (size_of_encode v). lia.
Qed.

Lemma placed_room cursor l : placed cursor l -> u64_sub bytes_size cursor >= size_of l.
Proof.
  intros (Hc & Hs & _). pose proof (size_of_nonneg l). rewrite u64_sub_small by lia. lia.
Qed.

(** The reader reads every encodable value back. *)
Lemma parse_value_encode n v fuel depth cursor :
  encodable n v -> 0 <= depth -> depth + Z.of_nat n <= 65 -> 66 <= depth + Z.of_nat fuel ->
  placed cursor (encode v) ->
  exists v', parse_value fuel depth cursor = Ok (v', cursor + size_of (encode v)) /\
             strip v' = strip v.
Proof.
  revert v fuel depth cursor.
  induction n as [|n IH]; intros v fuel depth cursor Hv Hd Hn Hf Hp; [inversion Hv|].
  destruct fuel as [|fuel]; [lia|].
  assert (depth <= kMaximumMetadataDepth) as Hdepth by (unfold kMaximumMetadataDepth; lia).
  assert (forall w, encodable n w -> reads (parse_value fuel (depth + 1)) w) as Hreads.
  { intros w Hw c Hc. apply IH; [done|lia..|done]. }
  destruct (parse_marker_scalars (parse_value fuel (depth + 1)) cursor
    (u64_add bytes_file_offset cursor) (cursor + 1)) as (M1 & M2 & M3).
  inversion Hv; subst; cbn [encode strip] in Hp |- *.
  - eexists. split; [by erewrite parse_value_marker by done|done].
  - eexists. split; [erewrite parse_value_marker by done; by destruct b|done].
  - eexists. split; [by apply parse_value_unsigned|done].
  - eexists. split; [by apply parse_value_signed|done].
  - eexists. split; [by apply parse_value_string|done].
  - apply (parse_value_array fuel depth) in Hp as [-> Hp]; [|done|lia].
    unfold parse_array. pose proof (concat_size encode l size_of_encode).
    pose proof (placed_room _ _ Hp). case_match; [lia|].
    destruct (array_loop_reads (parse_value fuel (depth + 1)) l _
      ltac:(eapply Forall_impl; eauto) Hp) as (l' & Hl & Hl').
    rewrite Nat2Z.id, Hl. eexists (MArray _ l'). split; [|cbn [strip]; by rewrite Hl'].
    cbn [mbind result_bind]. by rewrite size_of_app, Z.add_assoc.
  - apply (parse_value_map fuel depth) in Hp as [-> Hp]; [|done|lia].
    unfold parse_map. pose proof (concat_pair_size m).
    pose proof (placed_room _ _ Hp). case_match; [zlia|].
    edestruct (map_loop_reads (parse_value fuel (depth + 1)) m [])
      as (m' & Hm & Hm'); [|done|by intros ? _ ?%elem_of_nil|exact Hp|].
    { eapply Forall_impl; [done|]. intros [k w] [? ?]. split; [|auto].
      apply Hreads. destruct n; [lia|]. by constructor. }
    rewrite Nat2Z.id, Hm. eexists (MMap _ m'). split; [|cbn [strip]; by rewrite Hm'].
    cbn [mbind result_bind]. by rewrite size_of_app, Z.add_assoc.
Qed.
End placed.

(** C25: [MessagePackReader::parse] reads back every document of the format:
    for each encodable value (64-bit integers, lengths below 2^32, distinct
    map keys, at most [kMaximumMetadataDepth + 1] levels), placed anywhere in
    a file as the metadata bytes, parsing succeeds and returns the value, up
    to the recorded file offsets. *)
Theorem parse_document_encode (v : MessagePackValue) (pre post : bytes) :
  encodable 65 v -> is_u64 (size_of (pre ++ encode v ++ post)) ->
  exists v', parse_document (pre ++ encode v ++ post) (size_of pre) (size_of (encode v))
               (size_of pre) = Ok v' /\ strip v' = strip v.
Proof.
  intros Hv Hs. pose proof Hs as Hs'. rewrite !size_of_app in Hs'.
  pose proof (size_of_nonneg pre). pose proof (size_of_nonneg post).
  pose proof (size_of_nonneg (encode v)).
  destruct (parse_value_encode (pre ++ encode v ++ post) (size_of pre) (size_of (encode v))
    (size_of pre) Hs ltac:(lia) ltac:(rewrite !size_of_app; lia)
    65 v parse_fuel 0 0 Hv) as (v' & Hp & Hstrip); [lia|lia|unfold parse_fuel; lia| |].
  { split; [lia|]. split; [lia|]. exists pre, post. split; [done|lia]. }
  exists v'. split; [|done]. unfold parse_document. rewrite Hp. cbn [mbind result_bind].
  by rewrite Z.add_0_l, Z.eqb_refl.
Qed.

Lemma parse_document_encode_witness :
  let v := MMap 0 [("amdhsa.version"%string, MArray 0 [MUnsigned 0 1; MUnsigned 0 2]);
                   ("pad"%string, MSigned 0 (-3))] in
  exists v', parse_document ([x00; x01] ++ encode v ++ [x07]) 2 (size_of (encode v)) 2 = Ok v' /\
             strip v' = strip v.
Proof.
  intros v. apply (parse_document_encode v [x00; x01] [x07]).
  - unfold v. constructor; [done|by apply (bool_decide_unpack _)| |lia].
    constructor; [|constructor; [|constructor]]; (split; [reflexivity|]).
    + constructor; [done|]. repeat (constructor; [constructor; lia|]). constructor.
    + constructor. lia.
  - vm_compute. split; [discriminate|reflexivity].
Defined.
