(* ===== verification/Metadata.v ===== *)
(** * The AMDHSA metadata document

    The middle of [loader/metadata_reader.cpp]: the field accessors on the
    parsed MessagePack document, the decoding of kernel arguments and of the
    document itself.  Output parameters are results; an error return is an
    [Err]. *)

From S2P Require Import Prelude Order Memory CodeObject MessagePack.

Definition kMinimumKernargAlignment : Z := 16.

(** ** Fields *)

Module Kind.
Inductive t := Nil | Boolean | Unsigned | Signed | String | Array | Map.

#[global] Instance t_eq_dec : EqDecision t.
Proof. solve_decision. Defined.
End Kind.

Definition mp_kind (value : MessagePackValue) : Kind.t :=
  match value with
  | MNil _ => Kind.Nil
  | MBoolean _ _ => Kind.Boolean
  | MUnsigned _ _ => Kind.Unsigned
  | MSigned _ _ => Kind.Signed
  | MString _ _ => Kind.String
  | MArray _ _ => Kind.Array
  | MMap _ _ => Kind.Map
  end.

(** The members a value of another kind leaves at their defaults. *)
Definition mp_string (value : MessagePackValue) : string :=
  match value with MString _ s => s | _ => "" end.
Definition mp_array (value : MessagePackValue) : list MessagePackValue :=
  match value with MArray _ l => l | _ => [] end.
Definition mp_boolean (value : MessagePackValue) : bool :=
  match value with MBoolean _ b => b | _ => false end.

Fixpoint find_entry (entries : list (string * MessagePackValue)) (name : string)
  : option MessagePackValue :=
  match entries with
  | [] => None
  | (key, value) :: entries => if String.eqb key name then Some value else find_entry entries name
  end.

Definition find_field (map : MessagePackValue) (name : string) : option MessagePackValue :=
  match map with
  | MMap _ entries => find_entry entries name
  | _ => None
  end.

Definition required_field (map : MessagePackValue) (name : string) (kind : Kind.t)
  : parse MessagePackValue :=
  match find_field map name with
  | None =>
      failure ParseErrorCode.InvalidMetadata (mp_offset map)
        ("AMDHSA metadata is missing " +:+ name)
  | Some value =>
      if negb (bool_decide (mp_kind value = kind)) then
        failure ParseErrorCode.InvalidMetadata (mp_offset value)
          ("AMDHSA metadata field has the wrong type: " +:+ name)
      else Ok value
  end.

Definition metadata_uint32 (map : MessagePackValue) (name : string) : parse Z :=
  match find_field map name with
  | None =>
      failure ParseErrorCode.InvalidMetadata (mp_offset map)
        ("AMDHSA metadata is missing " +:+ name)
  | Some value =>
      let integer :=
        match value with
        | MUnsigned _ u => Some u
        | MSigned _ i => if i >=? 0 then Some i else None
        | _ => None
        end in
      match integer with
      | None =>
          failure ParseErrorCode.InvalidMetadata (mp_offset value)
            ("AMDHSA metadata field is not a nonnegative " +:+ "integer: " +:+ name)
      | Some integer =>
          if integer >? UINT32_MAX then
            failure ParseErrorCode.InvalidMetadata (mp_offset value)
              ("AMDHSA metadata field exceeds uint32: " +:+ name)
          else Ok integer
      end
  end.

(** ** Kernel arguments *)

Definition argument_kinds : list (string * KernelArgumentKind.t) := [
  ("by_value"%string, KernelArgumentKind.ByValue);
  ("global_buffer"%string, KernelArgumentKind.GlobalBuffer);
  ("dynamic_shared_pointer"%string, KernelArgumentKind.DynamicSharedPointer);
  ("sampler"%string, KernelArgumentKind.Sampler);
  ("image"%string, KernelArgumentKind.Image);
  ("pipe"%string, KernelArgumentKind.Pipe);
  ("queue"%string, KernelArgumentKind.Queue);
  ("hidden_block_count_x"%string, KernelArgumentKind.HiddenBlockCountX);
  ("hidden_block_count_y"%string, KernelArgumentKind.HiddenBlockCountY);
  ("hidden_block_count_z"%string, KernelArgumentKind.HiddenBlockCountZ);
  ("hidden_group_size_x"%string, KernelArgumentKind.HiddenGroupSizeX);
  ("hidden_group_size_y"%string, KernelArgumentKind.HiddenGroupSizeY);
  ("hidden_group_size_z"%string, KernelArgumentKind.HiddenGroupSizeZ);
  ("hidden_remainder_x"%string, KernelArgumentKind.HiddenRemainderX);
  ("hidden_remainder_y"%string, KernelArgumentKind.HiddenRemainderY);
  ("hidden_remainder_z"%string, KernelArgumentKind.HiddenRemainderZ);
  ("hidden_global_offset_x"%string, KernelArgumentKind.HiddenGlobalOffsetX);
  ("hidden_global_offset_y"%string, KernelArgumentKind.HiddenGlobalOffsetY);
  ("hidden_global_offset_z"%string, KernelArgumentKind.HiddenGlobalOffsetZ);
  ("hidden_grid_dims"%string, KernelArgumentKind.HiddenGridDims);
  ("hidden_none"%string, KernelArgumentKind.HiddenNone);
  ("hidden_printf_buffer"%string, KernelArgumentKind.HiddenPrintfBuffer);
  ("hidden_hostcall_buffer"%string, KernelArgumentKind.HiddenHostcallBuffer);
  ("hidden_heap_v1"%string, KernelArgumentKind.HiddenHeapV1);
  ("hidden_default_queue"%string, KernelArgumentKind.HiddenDefaultQueue);
  ("hidden_completion_action"%string, KernelArgumentKind.HiddenCompletionAction);
  ("hidden_multigrid_sync_arg"%string, KernelArgumentKind.HiddenMultiGridSyncArg);
  ("hidden_dynamic_lds_size"%string, KernelArgumentKind.HiddenDynamicLdsSize);
  ("hidden_private_base"%string, KernelArgumentKind.HiddenPrivateBase);
  ("hidden_shared_base"%string, KernelArgumentKind.HiddenSharedBase);
  ("hidden_queue_ptr"%string, KernelArgumentKind.HiddenQueuePtr)].

Fixpoint find_kind (kinds : list (string * KernelArgumentKind.t)) (name : string)
  : option KernelArgumentKind.t :=
  match kinds with
  | [] => None
  | (entry, kind) :: kinds => if String.eqb name entry then Some kind else find_kind kinds name
  end.

Definition kernel_argument_kind (name : string) : option KernelArgumentKind.t :=
  find_kind argument_kinds name.

Definition is_hidden_argument (kind : KernelArgumentKind.t) : bool :=
  KernelArgumentKind.index kind >=? KernelArgumentKind.index KernelArgumentKind.HiddenBlockCountX.

Definition required_hidden_argument_size (kind : KernelArgumentKind.t) : Z :=
  match kind with
  | KernelArgumentKind.HiddenBlockCountX
  | KernelArgumentKind.HiddenBlockCountY
  | KernelArgumentKind.HiddenBlockCountZ
  | KernelArgumentKind.HiddenDynamicLdsSize
  | KernelArgumentKind.HiddenPrivateBase
  | KernelArgumentKind.HiddenSharedBase => 4
  | KernelArgumentKind.HiddenGroupSizeX
  | KernelArgumentKind.HiddenGroupSizeY
  | KernelArgumentKind.HiddenGroupSizeZ
  | KernelArgumentKind.HiddenRemainderX
  | KernelArgumentKind.HiddenRemainderY
  | KernelArgumentKind.HiddenRemainderZ
  | KernelArgumentKind.HiddenGridDims => 2
  | KernelArgumentKind.HiddenGlobalOffsetX
  | KernelArgumentKind.HiddenGlobalOffsetY
  | KernelArgumentKind.HiddenGlobalOffsetZ
  | KernelArgumentKind.HiddenPrintfBuffer
  | KernelArgumentKind.HiddenHostcallBuffer
  | KernelArgumentKind.HiddenHeapV1
  | KernelArgumentKind.HiddenDefaultQueue
  | KernelArgumentKind.HiddenCompletionAction
  | KernelArgumentKind.HiddenMultiGridSyncArg
  | KernelArgumentKind.HiddenQueuePtr => 8
  | _ => 0
  end.

(** One iteration of the loop over [.args]. *)
Definition decode_argument (argument_value : MessagePackValue) (kernarg_size : Z)
  : parse KernelArgumentInfo :=
  if negb (bool_decide (mp_kind argument_value = Kind.Map)) then
    failure ParseErrorCode.InvalidMetadata (mp_offset argument_value)
      "AMDHSA kernel argument is not a map"
  else
    offset ← metadata_uint32 argument_value ".offset";
    size ← metadata_uint32 argument_value ".size";
    value_kind ← required_field argument_value ".value_kind" Kind.String;
    match kernel_argument_kind (mp_string value_kind) with
    | None =>
        failure ParseErrorCode.InvalidMetadata (mp_offset value_kind)
          "AMDHSA kernel argument has an unknown value kind"
    | Some kind =>
        if (size =? 0) || (offset >? kernarg_size) || (size >? kernarg_size - offset) then
          failure ParseErrorCode.InvalidMetadata (mp_offset argument_value)
            "AMDHSA kernel argument range exceeds the kernarg segment"
        else
          let required_size := required_hidden_argument_size kind in
          if negb (required_size =? 0) && negb (size =? required_size) then
            failure ParseErrorCode.InvalidMetadata (mp_offset argument_value)
              "AMDHSA hidden kernel argument has an invalid size"
          else Ok (mkKernelArgumentInfo offset size kind)
    end.

(** The arguments in document order, and [first_hidden_offset]. *)
Fixpoint decode_arguments (values : list MessagePackValue) (kernarg_size : Z)
    (first_hidden_offset : Z) : parse (list KernelArgumentInfo * Z) :=
  match values with
  | [] => Ok ([], first_hidden_offset)
  | value :: values =>
      argument ← decode_argument value kernarg_size;
      let first_hidden_offset :=
        if is_hidden_argument (ka_kind argument)
        then Z.min first_hidden_offset (ka_offset argument) else first_hidden_offset in
      '(rest, first_hidden_offset) ← decode_arguments values kernarg_size first_hidden_offset;
      Ok (argument :: rest, first_hidden_offset)
  end.

Definition argument_less (lhs rhs : KernelArgumentInfo) : bool :=
  ka_offset lhs <? ka_offset rhs.

(** The loop over the sorted arguments. *)
Fixpoint check_argument_ranges (arguments : list KernelArgumentInfo)
    (first_hidden_offset previous_end error_offset : Z) : parse unit :=
  match arguments with
  | [] => Ok ()
  | argument :: arguments =>
      if ka_offset argument <? previous_end then
        failure ParseErrorCode.InvalidMetadata error_offset
          "AMDHSA kernel argument ranges overlap"
      else if negb (is_hidden_argument (ka_kind argument)) &&
              (to_u32 (ka_offset argument + ka_size argument) >? first_hidden_offset) then
        failure ParseErrorCode.InvalidMetadata error_offset
          "AMDHSA explicit kernel argument follows hidden arguments"
      else
        check_argument_ranges arguments first_hidden_offset
          (to_u32 (ka_offset argument + ka_size argument)) error_offset
  end.

(** The members [arguments] and [explicit_argument_size] of the kernel. *)
Definition decode_kernel_arguments (kernel_value : MessagePackValue) (kernarg_size : Z)
  : parse (list KernelArgumentInfo * Z) :=
  match find_field kernel_value ".args" with
  | None => Ok ([], kernarg_size)
  | Some arguments =>
      if negb (bool_decide (mp_kind arguments = Kind.Array)) then
        failure ParseErrorCode.InvalidMetadata (mp_offset arguments)
          "AMDHSA kernel .args is not an array"
      else
        '(decoded, first_hidden_offset) ←
          decode_arguments (mp_array arguments) kernarg_size kernarg_size;
        let sorted := std_sort argument_less decoded in
        _ ← check_argument_ranges sorted first_hidden_offset 0 (mp_offset arguments);
        Ok (sorted, first_hidden_offset)
  end.

(** ** The document *)

Record MetadataKernel := mkMetadataKernel {
  mk_info : KernelInfo;
  mk_metadata_offset : Z
}.

(** The lambda [version_integer]. *)
Definition version_integer (value : MessagePackValue) : option Z :=
  let integer :=
    match value with
    | MUnsigned _ u => u
    | MSigned _ i => if i >=? 0 then i else UINT64_MAX
    | _ => UINT64_MAX
    end in
  if integer >? UINT32_MAX then None else Some integer.

Definition decode_version (version : MessagePackValue) : parse MetadataVersion :=
  match mp_array version with
  | [first; second] =>
      match version_integer first, version_integer second with
      | Some major, Some minor =>
          if negb (major =? 1) || negb (minor =? 2) then
            failure ParseErrorCode.UnsupportedMetadataVersion (mp_offset version)
              "initial light-rocr loader supports AMDHSA metadata 1.2"
          else Ok (mkMetadataVersion major minor)
      | _, _ =>
          failure ParseErrorCode.InvalidMetadata (mp_offset version)
            "amdhsa.version values must be uint32 integers"
      end
  | _ =>
      failure ParseErrorCode.InvalidMetadata (mp_offset version)
        "amdhsa.version must contain major and minor values"
  end.

(** [symbol_name.compare(size - 3, 3, ".kd") == 0], with the length test. *)
Definition ends_in_kd (symbol_name : string) : bool :=
  negb (String.length symbol_name <? 3)%nat &&
  String.eqb (String.substring (String.length symbol_name - 3) 3 symbol_name) ".kd".

(** [find_field(kernel_value, name)->offset], for a field that was read. *)
Definition field_offset (map : MessagePackValue) (name : string) : Z :=
  match find_field map name with Some value => mp_offset value | None => 0 end.

(** One iteration of the loop over [amdhsa.kernels], up to the test for
    duplicate names. *)
Definition decode_kernel (kernel_value : MessagePackValue) : parse MetadataKernel :=
  if negb (bool_decide (mp_kind kernel_value = Kind.Map)) then
    failure ParseErrorCode.InvalidMetadata (mp_offset kernel_value)
      "amdhsa.kernels entry is not a map"
  else
    name_field ← required_field kernel_value ".name" Kind.String;
    let name := mp_string name_field in
    symbol_field ← required_field kernel_value ".symbol" Kind.String;
    let symbol_name := mp_string symbol_field in
    if String.eqb name "" || String.eqb symbol_name "" then
      failure ParseErrorCode.InvalidMetadata (mp_offset symbol_field)
        "kernel name and symbol must not be empty"
    else if negb (ends_in_kd symbol_name) then
      failure ParseErrorCode.InvalidMetadata (mp_offset symbol_field)
        "kernel descriptor symbol does not end in .kd"
    else
      kernarg_size ← metadata_uint32 kernel_value ".kernarg_segment_size";
      metadata_kernarg_alignment ← metadata_uint32 kernel_value ".kernarg_segment_align";
      group_segment_size ← metadata_uint32 kernel_value ".group_segment_fixed_size";
      private_segment_size ← metadata_uint32 kernel_value ".private_segment_fixed_size";
      wavefront_size ← metadata_uint32 kernel_value ".wavefront_size";
      if negb (is_power_of_two metadata_kernarg_alignment) then
        failure ParseErrorCode.InvalidMetadata
          (field_offset kernel_value ".kernarg_segment_align")
          "kernel argument alignment is not a power of two"
      else
        let kernarg_alignment := Z.max metadata_kernarg_alignment kMinimumKernargAlignment in
        if negb (wavefront_size =? 32) && negb (wavefront_size =? 64) then
          failure ParseErrorCode.InvalidMetadata (field_offset kernel_value ".wavefront_size")
            "kernel wavefront size must be 32 or 64"
        else
          '(arguments, explicit_argument_size) ←
            decode_kernel_arguments kernel_value kernarg_size;
          stack_field ← required_field kernel_value ".uses_dynamic_stack" Kind.Boolean;
          Ok (mkMetadataKernel
            (mkKernelInfo name symbol_name 0 0 0 kernarg_size metadata_kernarg_alignment
               kernarg_alignment group_segment_size private_segment_size wavefront_size
               (mp_boolean stack_field) arguments explicit_argument_size 0 0 0 0 0)
            (mp_offset kernel_value)).

(** The loop over [amdhsa.kernels] with the two sets of names. *)
Fixpoint decode_kernels (values : list MessagePackValue) (kernel_names symbol_names : list string)
  : parse (list MetadataKernel) :=
  match values with
  | [] => Ok []
  | kernel_value :: values =>
      kernel ← decode_kernel kernel_value;
      let name := ki_name (mk_info kernel) in
      let symbol_name := ki_symbol_name (mk_info kernel) in
      if bool_decide (name ∈ kernel_names) || bool_decide (symbol_name ∈ symbol_names) then
        failure ParseErrorCode.InvalidMetadata (mp_offset kernel_value)
          "AMDHSA metadata contains a duplicate kernel name or symbol"
      else
        rest ← decode_kernels values (name :: kernel_names) (symbol_name :: symbol_names);
        Ok (kernel :: rest)
  end.

Definition decode_metadata_document (root : MessagePackValue)
  : parse (MetadataVersion * string * list MetadataKernel) :=
  if negb (bool_decide (mp_kind root = Kind.Map)) then
    failure ParseErrorCode.InvalidMetadata (mp_offset root) "AMDHSA metadata root is not a map"
  else
    version_field ← required_field root "amdhsa.version" Kind.Array;
    version ← decode_version version_field;
    target ← required_field root "amdhsa.target" Kind.String;
    let target_isa := mp_string target in
    if negb (String.eqb target_isa "amdgcn-amd-amdhsa--gfx1101") &&
       negb (String.eqb target_isa "amdgcn-amd-amdhsa-unknown-gfx1101") then
      failure ParseErrorCode.MetadataTargetMismatch (mp_offset target)
        "AMDHSA metadata target does not match gfx1101"
    else
      kernel_array ← required_field root "amdhsa.kernels" Kind.Array;
      match mp_array kernel_array with
      | [] =>
          failure ParseErrorCode.InvalidMetadata (mp_offset kernel_array)
            "amdhsa.kernels is empty"
      | _ =>
          kernels ← decode_kernels (mp_array kernel_array) [] [];
          Ok (version, target_isa, kernels)
      end.

(** ** Facts about fields *)

Lemma find_entry_elem entries name value :
  find_entry entries name = Some value -> (name, value) ∈ entries.
Proof.
  induction entries as [|[k v] entries IH]; simpl; [done|].
  destruct (String.eqb_spec k name) as [->|]; intros; simplify_eq; [left|right; auto].
Qed.

Lemma find_field_wf n map name value :
  value_wf (S n) map -> find_field map name = Some value -> value_wf n value.
Proof.
  intros Hwf. destruct map; try done. simpl. intros Hf%find_entry_elem.
  inversion Hwf as [| | | | | |? ? ? _ Hall]; subst. rewrite Forall_forall in Hall.
  by apply (Hall _ Hf).
Qed.

Lemma required_field_safe n map name kind :
  value_wf (S n) map ->
  safe (required_field map name kind) (fun v => value_wf n v /\ mp_kind v = kind).
Proof.
  intros Hwf. unfold required_field.
  destruct (find_field map name) as [v|] eqn:Hf; [|fails].
  case_bool_decide as Hk; [|fails]. simpl. split; [by eapply find_field_wf|done].
Qed.

Lemma metadata_uint32_safe n map name :
  value_wf (S n) map -> safe (metadata_uint32 map name) (fun v => is_u32 v).
Proof.
  intros Hwf. unfold metadata_uint32.
  destruct (find_field map name) as [v|] eqn:Hf; [|fails].
  apply (find_field_wf n) in Hf; [|done].
  destruct v as [| |? u|? i| | |]; try fails; inversion Hf; subst; cbv zeta;
    [|destruct (i >=? 0) eqn:?; [|fails]]; (case_match; [fails|simpl; lia]).
Qed.

Lemma mp_array_wf n v : value_wf (S n) v -> Forall (value_wf n) (mp_array v).
Proof. inversion 1; subst; simpl; auto using Forall_nil_2. Qed.

(** ** Kernel arguments *)

(** What holds of one accepted argument. *)
Record argument_ok (kernarg_size : Z) (a : KernelArgumentInfo) : Prop := {
  ao_offset : 0 <= ka_offset a;
  ao_size : 0 < ka_size a;
  ao_in_segment : ka_offset a + ka_size a <= kernarg_size;
  ao_hidden_size : required_hidden_argument_size (ka_kind a) <> 0 ->
    ka_size a = required_hidden_argument_size (ka_kind a)
}.

(** What holds of the decoded argument list: sorted, disjoint, inside the
    kernarg segment, explicit arguments before the hidden ones. *)
Record arguments_wf (kernarg_size : Z) (arguments : list KernelArgumentInfo)
    (explicit_size : Z) : Prop := {
  aw_each : Forall (argument_ok kernarg_size) arguments;
  aw_ordered : StronglySorted (before ka_offset ka_size) arguments;
  aw_explicit : 0 <= explicit_size <= kernarg_size;
  aw_split : Forall (fun a => if is_hidden_argument (ka_kind a)
                              then explicit_size <= ka_offset a
                              else ka_offset a + ka_size a <= explicit_size) arguments
}.

Lemma decode_argument_safe n value kernarg_size :
  value_wf (S n) value -> is_u32 kernarg_size ->
  safe (decode_argument value kernarg_size) (argument_ok kernarg_size).
Proof.
  intros Hwf Hk. unfold decode_argument. parse_step; [fails|].
  eapply safe_bind; [by eapply metadata_uint32_safe|]. cbn beta. intros offset Ho.
  eapply safe_bind; [by eapply metadata_uint32_safe|]. cbn beta. intros size Hs.
  eapply safe_bind; [by eapply required_field_safe|]. intros kind_value [_ _].
  repeat parse_step. split; simpl; lia.
Qed.

Lemma decode_arguments_safe n values kernarg_size fho :
  Forall (value_wf (S n)) values -> is_u32 kernarg_size -> 0 <= fho <= kernarg_size ->
  safe (decode_arguments values kernarg_size fho)
    (fun '(l, fho') => Forall (argument_ok kernarg_size) l /\ 0 <= fho' <= fho /\
       Forall (fun a => is_hidden_argument (ka_kind a) = true -> fho' <= ka_offset a) l).
Proof.
  intros Hv Hk. revert fho. induction Hv as [|v values Hv _ IH]; intros fho Hf; simpl.
  { split_and!; [constructor|lia..|constructor]. }
  eapply safe_bind; [by eapply decode_argument_safe|]. intros a Ha. pose proof Ha as [? ? ? _].
  eapply safe_bind; [apply IH; case_match; lia|].
  intros [l fho'] (Hl & Hfho & Hhid). simpl.
  split_and!; [by constructor|lia|case_match; lia|].
  constructor; [|done]. intros Hh. rewrite Hh in Hfho. lia.
Qed.

Lemma check_argument_ranges_safe kernarg_size fho l previous_end error_offset :
  is_u32 kernarg_size -> Forall (argument_ok kernarg_size) l ->
  safe (check_argument_ranges l fho previous_end error_offset)
    (fun _ => Sorted (before ka_offset ka_size) l /\
       match l with [] => True | a :: _ => previous_end <= ka_offset a end /\
       Forall (fun a => is_hidden_argument (ka_kind a) = false ->
                        ka_offset a + ka_size a <= fho) l).
Proof.
  intros Hk Hl. revert previous_end. induction Hl as [|a l Ha _ IH]; intros pe; simpl.
  { split_and!; constructor. }
  destruct Ha. rewrite to_u32_small by lia.
  parse_step; [fails|]. parse_step; [fails|].
  eapply safe_mono; [apply IH|]. intros _ (Hs & Hhead & Hexp).
  split_and!; [|lia|].
  - constructor; [done|]. destruct l; constructor. done.
  - constructor; [intros; lia|done].
Qed.

Lemma decode_kernel_arguments_safe n kernel_value kernarg_size :
  value_wf (S (S n)) kernel_value -> is_u32 kernarg_size ->
  safe (decode_kernel_arguments kernel_value kernarg_size)
    (fun '(l, explicit_size) => arguments_wf kernarg_size l explicit_size).
Proof.
  intros Hwf Hk. unfold decode_kernel_arguments.
  destruct (find_field kernel_value ".args") as [args|] eqn:Hf.
  2:{ simpl. split; try constructor; lia. }
  apply (find_field_wf (S n)) in Hf; [|done].
  parse_step; [fails|].
  destruct n as [|n].
  { assert (Forall (value_wf 0) (mp_array args)) as Hall by by apply mp_array_wf.
    destruct (mp_array args) as [|x l]; [simpl; split; try constructor; lia|].
    apply Forall_cons in Hall as [Hx _]. inversion Hx. }
  eapply safe_bind; [eapply decode_arguments_safe; [by apply mp_array_wf|done|lia]|].
  intros [l fho] (Hl & Hfho & Hhid). cbv zeta.
  rewrite <-(Forall_std_sort argument_less) in Hl, Hhid.
  eapply safe_bind; [by eapply check_argument_ranges_safe|]. intros _ (Hs & _ & Hexp).
  simpl. split; [done| |lia|].
  - apply ordered_of_adjacent; [|done]. eapply Forall_impl; [exact Hl|]. intros a []. lia.
  - rewrite Forall_forall in *. intros a Ha. specialize (Hhid a Ha). specialize (Hexp a Ha).
    destruct (is_hidden_argument (ka_kind a)); auto.
Qed.

(** ** Kernels and the document *)

(** The metadata half of an accepted kernel. *)
Record kernel_metadata_ok (k : KernelInfo) : Prop := {
  km_name : ki_name k <> ""%string;
  km_symbol : ends_in_kd (ki_symbol_name k) = true;
  km_kernarg_size : is_u32 (ki_kernarg_size k);
  km_group : is_u32 (ki_group_segment_size k);
  km_private : is_u32 (ki_private_segment_size k);
  km_alignment : exists e, 0 <= e /\ ki_metadata_kernarg_alignment k = 2 ^ e;
  km_kernarg_alignment : ki_kernarg_alignment k = Z.max (ki_metadata_kernarg_alignment k) 16;
  km_wavefront : ki_wavefront_size k = 32 \/ ki_wavefront_size k = 64;
  km_arguments :
    arguments_wf (ki_kernarg_size k) (ki_arguments k) (ki_explicit_argument_size k)
}.

Lemma decode_kernel_safe n value :
  value_wf (S (S n)) value ->
  safe (decode_kernel value) (fun k => kernel_metadata_ok (mk_info k)).
Proof.
  intros Hwf. unfold decode_kernel. parse_step; [fails|].
  eapply safe_bind; [by eapply required_field_safe|]. intros name_field _. cbv zeta.
  eapply safe_bind; [by eapply required_field_safe|]. intros symbol_field _. cbv zeta.
  parse_step; [fails|]. parse_step; [fails|].
  do 5 (eapply safe_bind; [by eapply metadata_uint32_safe|]; cbn beta; intros).
  parse_step; [fails|]. cbv zeta. parse_step; [fails|].
  eapply safe_bind; [by eapply decode_kernel_arguments_safe|]. intros [arguments explicit_size] Ha.
  eapply safe_bind; [by eapply required_field_safe|]. intros stack_field _.
  apply orb_false_iff in Hg0 as [Hname _]. apply String.eqb_neq in Hname.
  simpl. split; simpl; try done.
  - by apply negb_false_iff in Hg1.
  - apply is_power_of_two_spec; [lia|]. by apply negb_false_iff in Hg2.
  - lia.
Qed.

Lemma decode_kernels_safe n values kernel_names symbol_names :
  Forall (value_wf (S (S n))) values ->
  safe (decode_kernels values kernel_names symbol_names)
    (fun ks => Forall (fun k => kernel_metadata_ok (mk_info k)) ks /\
       NoDup ((fun k => ki_name (mk_info k)) <$> ks) /\
       NoDup ((fun k => ki_symbol_name (mk_info k)) <$> ks) /\
       Forall (fun k => ki_name (mk_info k) ∉ kernel_names /\
                        ki_symbol_name (mk_info k) ∉ symbol_names) ks /\
       length ks = length values).
Proof.
  intros Hv. revert kernel_names symbol_names.
  induction Hv as [|v values Hv _ IH]; intros names symbols; simpl.
  { by split_and!; try constructor. }
  eapply safe_bind; [by eapply decode_kernel_safe|]. intros k Hk.
  parse_step; [fails|]. apply orb_false_iff in Hg as [Hn Hs].
  apply bool_decide_eq_false_1 in Hn, Hs.
  eapply safe_bind; [apply IH|]. intros ks (Hks & Hnd1 & Hnd2 & Hfresh & Hlen).
  rewrite Forall_forall in Hfresh. simpl. split_and!; [by constructor| | | |by rewrite Hlen].
  - constructor; [|done]. intros (k' & Heq & [Hf _]%Hfresh)%list_elem_of_fmap.
    apply Hf. rewrite Heq. left.
  - constructor; [|done]. intros (k' & Heq & [_ Hf]%Hfresh)%list_elem_of_fmap.
    apply Hf. rewrite Heq. left.
  - constructor; [done|]. apply Forall_forall. intros k' [H1 H2]%Hfresh.
    split; intros ?; [apply H1|apply H2]; by right.
Qed.

(** The facts the loader relies on about a decoded document. *)
Record document_ok (version : MetadataVersion) (target : string)
    (kernels : list MetadataKernel) : Prop := {
  do_version : version = mkMetadataVersion 1 2;
  do_target : target = "amdgcn-amd-amdhsa--gfx1101"%string \/
              target = "amdgcn-amd-amdhsa-unknown-gfx1101"%string;
  do_nonempty : kernels <> [];
  do_kernels : Forall (fun k => kernel_metadata_ok (mk_info k)) kernels;
  do_names : NoDup ((fun k => ki_name (mk_info k)) <$> kernels);
  do_symbols : NoDup ((fun k => ki_symbol_name (mk_info k)) <$> kernels)
}.

Lemma decode_metadata_document_safe root :
  value_wf 65 root ->
  safe (decode_metadata_document root)
    (fun '(version, target, kernels) => document_ok version target kernels).
Proof.
  intros Hwf. unfold decode_metadata_document. parse_step; [fails|].
  eapply safe_bind; [by eapply (required_field_safe 64)|]. intros version_field _.
  eapply (safe_bind _ _ (fun v => v = mkMetadataVersion 1 2)).
  { unfold decode_version. repeat parse_step. f_equal; lia. }
  intros version ->.
  eapply safe_bind; [by eapply (required_field_safe 64)|]. intros target _. cbv zeta.
  parse_step; [fails|].
  eapply safe_bind; [by eapply (required_field_safe 64)|]. intros kernel_array [Hka _].
  destruct (mp_array kernel_array) as [|v values] eqn:Ea; [fails|].
  eapply safe_bind.
  { apply (decode_kernels_safe 61). rewrite <-Ea. by apply mp_array_wf. }
  intros ks (Hks & Hnd1 & Hnd2 & _ & Hlen). simpl. split; try done.
  - apply andb_false_iff in Hg0 as [H|H]; apply negb_false_iff, String.eqb_eq in H; auto.
  - by intros ->.
Qed.

(** The arguments of an accepted kernel are sorted, pairwise disjoint and
    inside the kernarg segment, hidden arguments have the size of their kind,
    and every explicit argument ends before the explicit size, where the first
    hidden one may begin. *)
Theorem decode_arguments_layout n kernel_value kernarg_size :
  value_wf (S (S n)) kernel_value -> is_u32 kernarg_size ->
  safe (decode_kernel_arguments kernel_value kernarg_size)
    (fun '(l, explicit_size) => arguments_wf kernarg_size l explicit_size).
Proof. apply decode_kernel_arguments_safe. Qed.
