(* ===== verification/ElfDynamic.v ===== *)
(** * Program headers and the dynamic segment

    What [loader/metadata_reader.cpp] and [loader/load_plan_reader.cpp] share
    (the second file repeats the first one's helpers): the walk over the
    program-header table for PT_DYNAMIC, the dynamic-table values and the
    translation from virtual addresses to file offsets. *)

From S2P Require Import Prelude Order Memory CodeObject Segments.

Definition kElfProgramHeaderOffset : Z := 32.
Definition kElfProgramHeaderEntrySizeOffset : Z := 54.
Definition kElfProgramHeaderCountOffset : Z := 56.
Definition kProgramHeaderTypeDynamic : Z := 2.
Definition kElf64DynamicEntrySize : Z := 16.
Definition kElf64SymbolSize : Z := 24.

(** ** Address translation *)

Fixpoint virtual_address_to_file (load_segments : list LoadSegment) (address length : Z)
  : option Z :=
  match load_segments with
  | [] => None
  | segment :: load_segments =>
      if address <? seg_virtual_address segment then
        virtual_address_to_file load_segments address length
      else
        let delta := u64_sub address (seg_virtual_address segment) in
        if (delta <=? seg_file_size segment) && (length <=? seg_file_size segment - delta)
        then Some (u64_add (seg_file_offset segment) delta)
        else virtual_address_to_file load_segments address length
  end.

Fixpoint virtual_address_in_memory (load_segments : list LoadSegment) (address length : Z)
  : bool :=
  match load_segments with
  | [] => false
  | segment :: load_segments =>
      if address <? seg_virtual_address segment then
        virtual_address_in_memory load_segments address length
      else
        let delta := u64_sub address (seg_virtual_address segment) in
        if (delta <=? seg_memory_size segment) && (length <=? seg_memory_size segment - delta)
        then true
        else virtual_address_in_memory load_segments address length
  end.

(** ** The dynamic table *)

Record DynamicValue := mkDynamicValue {
  dv_present : bool;
  dv_value : Z;
  dv_file_offset : Z
}.

Definition default_dynamic_value : DynamicValue := mkDynamicValue false 0 0.

Definition set_dynamic_value (destination : DynamicValue) (value file_offset : Z)
    (message : string) : parse DynamicValue :=
  if dv_present destination then
    failure ParseErrorCode.InvalidDynamicTable file_offset message
  else Ok (mkDynamicValue true value file_offset).

(** The loop over the program headers: [found] is the file range of the
    PT_DYNAMIC segment found so far. *)
Fixpoint find_dynamic_loop (data : bytes) (size program_header_offset entry_size : Z)
    (remaining : nat) (index : Z) (found : option (Z * Z)) : parse (option (Z * Z)) :=
  match remaining with
  | O => Ok found
  | S remaining =>
      let header_offset := u64_add program_header_offset (u64_mul index entry_size) in
      type ← read_u32 data (header_offset + kProgramHeaderTypeOffset);
      if negb (type =? kProgramHeaderTypeDynamic) then
        find_dynamic_loop data size program_header_offset entry_size remaining (index + 1) found
      else if bool_decide (is_Some found) then
        failure ParseErrorCode.DuplicateDynamicSegment header_offset
          "code object has more than one PT_DYNAMIC segment"
      else
        dynamic_offset ← read_u64 data (header_offset + kProgramHeaderFileOffset);
        dynamic_size ← read_u64 data (header_offset + kProgramHeaderFileSizeOffset);
        if negb (range_is_in_file dynamic_offset dynamic_size size) ||
           (dynamic_size =? 0) || negb (dynamic_size mod kElf64DynamicEntrySize =? 0) then
          failure ParseErrorCode.InvalidDynamicTable
            (u64_add header_offset kProgramHeaderFileOffset)
            "PT_DYNAMIC does not contain complete ELF64 entries"
        else
          find_dynamic_loop data size program_header_offset entry_size remaining (index + 1)
            (Some (dynamic_offset, dynamic_size))
  end.

Definition find_dynamic_segment (data : bytes) (size : Z) : parse (option (Z * Z)) :=
  program_header_offset ← read_u64 data kElfProgramHeaderOffset;
  entry_size ← read_u16 data kElfProgramHeaderEntrySizeOffset;
  count ← read_u16 data kElfProgramHeaderCountOffset;
  find_dynamic_loop data size program_header_offset entry_size (Z.to_nat count) 0 None.

(** ** Facts *)

(** The header facts [parse_code_object] has established before it calls the
    readers: the program-header table is in the file. *)
Record elf_table (data : bytes) (table_offset : Z) (count : nat) : Prop := {
  et_size : is_u64 (size_of data);
  et_header : 64 <= size_of data;
  et_offset : read_u64 (E:=ParseError) data kElfProgramHeaderOffset = Ok table_offset;
  et_entry_size : read_u16 (E:=ParseError) data kElfProgramHeaderEntrySizeOffset =
    Ok kElf64ProgramHeaderSize;
  et_count : read_u16 (E:=ParseError) data kElfProgramHeaderCountOffset = Ok (Z.of_nat count);
  et_offset_pos : 0 <= table_offset;
  et_count_u16 : Z.of_nat count < U16_MOD;
  et_table : table_offset + Z.of_nat count * kElf64ProgramHeaderSize <= size_of data
}.

Lemma virtual_address_to_file_spec file_size segments address length offset :
  is_u64 file_size -> is_u64 address -> 0 <= length ->
  Forall (segment_wf file_size) segments ->
  virtual_address_to_file segments address length = Some offset ->
  0 <= offset /\ offset + length <= file_size /\
  exists s, s ∈ segments /\ seg_virtual_address s <= address /\
    address + length <= seg_virtual_address s + seg_file_size s /\
    offset = seg_file_offset s + (address - seg_virtual_address s).
Proof.
  intros Hfs Ha Hl Hs. induction Hs as [|s segments Hs _ IH]; simpl; [done|].
  destruct Hs as [[] ? ? ? ? _].
  destruct (Z.ltb_spec address (seg_virtual_address s)).
  - intros H0. destruct (IH H0) as (? & ? & s' & ? & ?). split_and!; [done..|].
    exists s'. split; [by right|done].
  - rewrite u64_sub_small by lia. destruct (_ && _) eqn:G.
    + intros [= <-]. rewrite u64_add_small by lia. split_and!; [lia..|].
      exists s. split; [left|]. lia.
    + intros H0. destruct (IH H0) as (? & ? & s' & ? & ?). split_and!; [done..|].
      exists s'. split; [by right|done].
Qed.

Lemma virtual_address_in_memory_spec file_size segments address length :
  is_u64 address -> 0 <= length -> Forall (segment_wf file_size) segments ->
  virtual_address_in_memory segments address length = true <->
  exists s, s ∈ segments /\ seg_virtual_address s <= address /\
    address + length <= seg_virtual_address s + seg_memory_size s.
Proof.
  intros Ha Hl Hs. induction Hs as [|s segments Hs _ IH]; simpl.
  { split; [done|]. by intros (s & ?%elem_of_nil & _). }
  setoid_rewrite elem_of_cons. destruct Hs as [[] ? ? ? ? _].
  destruct (Z.ltb_spec address (seg_virtual_address s)).
  { rewrite IH. split; [naive_solver|]. intros (s' & [->|?] & ?); [lia|eauto]. }
  rewrite u64_sub_small by lia. destruct (_ && _) eqn:G.
  - split; [intros _|done]. exists s. split; [by left|]. lia.
  - rewrite IH. split; [naive_solver|]. intros (s' & [->|?] & ?); [lia|eauto].
Qed.

Lemma set_dynamic_value_safe dv value file_offset message :
  safe (set_dynamic_value dv value file_offset message)
    (fun dv' => dv' = mkDynamicValue true value file_offset).
Proof. unfold set_dynamic_value. by repeat parse_step. Qed.

(** The dynamic range, when there is one: in the file, whole entries. *)
Definition dynamic_range_ok (size : Z) (range : option (Z * Z)) : Prop :=
  match range with
  | None => True
  | Some (offset, length) =>
      0 <= offset /\ 0 < length /\ offset + length <= size /\
      length mod kElf64DynamicEntrySize = 0
  end.

Lemma find_dynamic_loop_safe (data : bytes) table_offset (count : nat) remaining index found :
  elf_table data table_offset count -> dynamic_range_ok (size_of data) found ->
  0 <= index -> index + Z.of_nat remaining = Z.of_nat count ->
  safe (find_dynamic_loop data (size_of data) table_offset kElf64ProgramHeaderSize
          remaining index found) (dynamic_range_ok (size_of data)).
Proof.
  intros [] Hfound. revert index found Hfound.
  induction remaining as [|n IH]; intros index found Hfound Hi Hn; cbn [find_dynamic_loop].
  { done. }
  rewrite (header_entry_offset _ count (size_of data)) by lia.
  set (entry := table_offset + index * kElf64ProgramHeaderSize).
  assert (0 <= entry /\ entry + 56 <= size_of data) as [He1 He2]
    by (unfold entry, kElf64ProgramHeaderSize in *; lia).
  unfold kProgramHeaderTypeOffset, kProgramHeaderFileOffset, kProgramHeaderFileSizeOffset.
  parse_step. parse_step; [apply IH; auto; lia|].
  parse_step; [fails|]. parse_step. parse_step. parse_step; [fails|].
  apply IH; [|lia..]. unfold range_is_in_file in *. simpl. lia.
Qed.

Lemma find_dynamic_segment_safe (data : bytes) table_offset (count : nat) :
  elf_table data table_offset count ->
  safe (find_dynamic_segment data (size_of data)) (dynamic_range_ok (size_of data)).
Proof.
  intros Ht. pose proof Ht as []. unfold find_dynamic_segment.
  rewrite et_offset0, et_entry_size0, et_count0. cbn [mbind result_bind].
  rewrite Nat2Z.id. eapply find_dynamic_loop_safe; [done|done|lia|lia].
Qed.
