(* ===== verification/KernelSymbols.v ===== *)
(** * Metadata note, kernel symbols and kernel descriptors

    The ELF half of [loader/metadata_reader.cpp]: the search for the AMDGPU
    metadata note, the dynamic symbol table, the lookup of a kernel's
    descriptor symbol and the decoding of the 64-byte descriptor, composed by
    [decode_amdhsa_metadata]. *)

From S2P Require Import Prelude Order Memory CodeObject Segments MessagePack Metadata ElfDynamic.

Definition kKernelDescriptorSize : Z := 64.
Definition kProgramHeaderTypeNote : Z := 4.
Definition kAmdgpuMetadataNoteType : Z := 32.
Definition kSymbolTypeObject : Z := 1.
Definition kUndefinedSection : Z := 0.
Definition kLowestReservedSectionIndex : Z := 0xff00.
Definition kKernelPropertyWavefrontSize32 : Z := Z.shiftl 1 10.
Definition kKernelPropertyUsesDynamicStack : Z := Z.shiftl 1 11.
Definition kKnownKernelProperties : Z := 0x0c7f.
Definition kSymbolNameOffset : Z := 0.
Definition kSymbolInfoOffset : Z := 4.
Definition kSymbolSectionIndexOffset : Z := 6.
Definition kSymbolValueOffset : Z := 8.
Definition kSymbolSizeOffset : Z := 16.
Definition kDescriptorGroupSegmentSizeOffset : Z := 0.
Definition kDescriptorPrivateSegmentSizeOffset : Z := 4.
Definition kDescriptorKernargSizeOffset : Z := 8.
Definition kDescriptorCodeEntryOffset : Z := 16.
Definition kDescriptorComputePgmRsrc3Offset : Z := 44.
Definition kDescriptorComputePgmRsrc1Offset : Z := 48.
Definition kDescriptorComputePgmRsrc2Offset : Z := 52.
Definition kDescriptorKernelPropertiesOffset : Z := 56.
Definition kDescriptorKernargPreloadOffset : Z := 58.

(** ** The metadata note *)

Definition align4 (value : Z) : option Z :=
  match checked_add value 3 with
  | None => None
  | Some with_padding => Some (Z.land with_padding (UINT64_MAX - 3))
  end.

(** ["AMDGPU"] with its terminator. *)
Definition kAmdgpuOwner : bytes := [x41; x4d; x44; x47; x50; x55; x00].

(** The owner comparison: [memcmp] runs only for a name of the right size. *)
Definition note_is_amdgpu (data : bytes) (name_size name_offset : Z) : parse bool :=
  if name_size =? size_of kAmdgpuOwner then
    name ← read_bytes data name_offset (size_of kAmdgpuOwner);
    Ok (bool_decide (name = kAmdgpuOwner))
  else Ok false.

(** [while (cursor < end)] over the notes of one PT_NOTE segment. *)
Fixpoint note_loop (data : bytes) (fuel : nat) (cursor end_ : Z) (metadata : MetadataBytes)
  : parse MetadataBytes :=
  match fuel with
  | O => Fault OutOfFuel
  | S fuel =>
  if negb (cursor <? end_) then Ok metadata
  else if u64_sub end_ cursor <? 12 then
    failure ParseErrorCode.MalformedNote cursor "note header is truncated"
  else
    name_size ← read_u32 data cursor;
    descriptor_size ← read_u32 data (cursor + 4);
    type ← read_u32 data (cursor + 8);
    let name_offset := u64_add cursor 12 in
    match align4 name_size, align4 descriptor_size with
    | Some aligned_name_size, Some aligned_descriptor_size =>
        match checked_add name_offset aligned_name_size with
        | None =>
            failure ParseErrorCode.MalformedNote cursor "note name or descriptor is truncated"
        | Some descriptor_offset =>
            match checked_add descriptor_offset aligned_descriptor_size with
            | None =>
                failure ParseErrorCode.MalformedNote cursor
                  "note name or descriptor is truncated"
            | Some next =>
                if next >? end_ then
                  failure ParseErrorCode.MalformedNote cursor
                    "note name or descriptor is truncated"
                else
                  is_amdgpu ← note_is_amdgpu data name_size name_offset;
                  if is_amdgpu && (type =? kAmdgpuMetadataNoteType) then
                    if bool_decide (is_Some (mb_data metadata)) then
                      failure ParseErrorCode.DuplicateMetadataNote cursor
                        "code object has more than one AMDGPU metadata note"
                    else
                      note_loop data fuel next end_
                        (mkMetadataBytes (Some descriptor_offset) descriptor_size
                           descriptor_offset)
                  else note_loop data fuel next end_ metadata
            end
        end
    | _, _ => failure ParseErrorCode.MalformedNote cursor "note size alignment overflows"
    end
  end.

(** Every note takes at least 12 bytes, so the size of the file bounds the
    iterations. *)
Definition note_fuel (data : bytes) : nat := S (length data).

Fixpoint find_note_loop (data : bytes) (size program_header_offset entry_size : Z)
    (remaining : nat) (index : Z) (metadata : MetadataBytes) : parse MetadataBytes :=
  match remaining with
  | O => Ok metadata
  | S remaining =>
      let header_offset := u64_add program_header_offset (u64_mul index entry_size) in
      type ← read_u32 data (header_offset + kProgramHeaderTypeOffset);
      if negb (type =? kProgramHeaderTypeNote) then
        find_note_loop data size program_header_offset entry_size remaining (index + 1) metadata
      else
        note_offset ← read_u64 data (header_offset + kProgramHeaderFileOffset);
        note_size ← read_u64 data (header_offset + kProgramHeaderFileSizeOffset);
        if negb (range_is_in_file note_offset note_size size) then
          failure ParseErrorCode.MalformedNote (u64_add header_offset kProgramHeaderFileOffset)
            "PT_NOTE file range is outside the code object"
        else
          metadata ← note_loop data (note_fuel data) note_offset
            (u64_add note_offset note_size) metadata;
          find_note_loop data size program_header_offset entry_size remaining (index + 1)
            metadata
  end.

Definition find_metadata_note (data : bytes) (size : Z) : parse MetadataBytes :=
  program_header_offset ← read_u64 data kElfProgramHeaderOffset;
  entry_size ← read_u16 data kElfProgramHeaderEntrySizeOffset;
  count ← read_u16 data kElfProgramHeaderCountOffset;
  find_note_loop data size program_header_offset entry_size (Z.to_nat count) 0
    (mkMetadataBytes None 0 0).

(** ** Dynamic symbols *)

Record DynamicInfo := mkDynamicInfo {
  di_symbol_table : DynamicValue;
  di_symbol_entry_size : DynamicValue;
  di_string_table : DynamicValue;
  di_string_table_size : DynamicValue;
  di_hash_table : DynamicValue
}.

Definition default_dynamic_info : DynamicInfo :=
  mkDynamicInfo default_dynamic_value default_dynamic_value default_dynamic_value
    default_dynamic_value default_dynamic_value.

(** The [switch] on the tag of one entry. *)
Definition set_dynamic_tag (info : DynamicInfo) (tag value file_offset : Z)
  : parse DynamicInfo :=
  let set dv := set_dynamic_value dv value (u64_add file_offset 8)
    "dynamic table contains a duplicate required tag" in
  match info with
  | mkDynamicInfo symbol_table symbol_entry_size string_table string_table_size hash_table =>
      if tag =? 4 then
        dv ← set hash_table;
        Ok (mkDynamicInfo symbol_table symbol_entry_size string_table string_table_size dv)
      else if tag =? 5 then
        dv ← set string_table;
        Ok (mkDynamicInfo symbol_table symbol_entry_size dv string_table_size hash_table)
      else if tag =? 6 then
        dv ← set symbol_table;
        Ok (mkDynamicInfo dv symbol_entry_size string_table string_table_size hash_table)
      else if tag =? 10 then
        dv ← set string_table_size;
        Ok (mkDynamicInfo symbol_table symbol_entry_size string_table dv hash_table)
      else if tag =? 11 then
        dv ← set symbol_entry_size;
        Ok (mkDynamicInfo symbol_table dv string_table string_table_size hash_table)
      else Ok info
  end.

(** The loop over the dynamic entries: the result is [None] when the table
    ends without DT_NULL. *)
Fixpoint read_dynamic_entries (data : bytes) (dynamic_offset : Z) (remaining : nat)
    (offset : Z) (info : DynamicInfo) : parse (option DynamicInfo) :=
  match remaining with
  | O => Ok None
  | S remaining =>
      let file_offset := u64_add dynamic_offset offset in
      tag ← read_i64 data file_offset;
      value ← read_u64 data (file_offset + 8);
      if tag =? 0 then Ok (Some info)
      else
        info ← set_dynamic_tag info tag value file_offset;
        read_dynamic_entries data dynamic_offset remaining
          (offset + kElf64DynamicEntrySize) info
  end.

Definition read_dynamic_info (data : bytes) (size : Z) : parse DynamicInfo :=
  found ← find_dynamic_segment data size;
  match found with
  | None =>
      failure ParseErrorCode.MissingDynamicSegment kElfProgramHeaderOffset
        "kernel metadata requires a PT_DYNAMIC segment"
  | Some (dynamic_offset, dynamic_size) =>
      entries ← read_dynamic_entries data dynamic_offset
        (Z.to_nat (dynamic_size / kElf64DynamicEntrySize)) 0 default_dynamic_info;
      match entries with
      | None =>
          failure ParseErrorCode.InvalidDynamicTable dynamic_offset
            "dynamic table has no DT_NULL terminator"
      | Some info =>
          if negb (dv_present (di_hash_table info)) || negb (dv_present (di_string_table info)) ||
             negb (dv_present (di_string_table_size info)) ||
             negb (dv_present (di_symbol_table info)) ||
             negb (dv_present (di_symbol_entry_size info)) then
            failure ParseErrorCode.MissingDynamicEntry dynamic_offset
              "dynamic table is missing HASH, STRTAB, STRSZ, SYMTAB, or SYMENT"
          else if negb (dv_value (di_symbol_entry_size info) =? kElf64SymbolSize) then
            failure ParseErrorCode.InvalidSymbolTable
              (dv_file_offset (di_symbol_entry_size info))
              "DT_SYMENT is not the ELF64 symbol size"
          else Ok info
      end
  end.

(** The characters up to the first NUL ([memchr]), if there is one. *)
Fixpoint until_nul (l : bytes) : option bytes :=
  match l with
  | [] => None
  | b :: l => if bool_decide (b = x00) then Some [] else cons b <$> until_nul l
  end.

Definition read_string (data : bytes) (table_offset table_size name_offset : Z)
  : parse (option string) :=
  if name_offset >=? table_size then Ok None
  else
    characters ← read_bytes data (u64_add table_offset name_offset) (table_size - name_offset);
    Ok (String.string_of_list_byte <$> until_nul characters).

Record Symbol := mkSymbol {
  sym_value : Z;
  sym_size : Z;
  sym_section_index : Z;
  sym_type : Z;
  sym_file_offset : Z
}.

Record NamedSymbol := mkNamedSymbol {
  ns_name : string;
  ns_symbol : Symbol
}.

Fixpoint read_symbol_entries (data : bytes)
    (symbol_table_offset string_table_offset string_table_size : Z)
    (remaining : nat) (index : Z) : parse (list NamedSymbol) :=
  match remaining with
  | O => Ok []
  | S remaining =>
      let entry := u64_add symbol_table_offset (u64_mul index kElf64SymbolSize) in
      name_offset ← read_u32 data (entry + kSymbolNameOffset);
      name ← read_string data string_table_offset string_table_size name_offset;
      match name with
      | None =>
          failure ParseErrorCode.InvalidStringTable (u64_add entry kSymbolNameOffset)
            "dynamic symbol name is outside DT_STRTAB"
      | Some name =>
          value ← read_u64 data (entry + kSymbolValueOffset);
          size ← read_u64 data (entry + kSymbolSizeOffset);
          section_index ← read_u16 data (entry + kSymbolSectionIndexOffset);
          info ← read_u8 data (entry + kSymbolInfoOffset);
          rest ← read_symbol_entries data symbol_table_offset string_table_offset
                   string_table_size remaining (index + 1);
          Ok (mkNamedSymbol name (mkSymbol value size section_index (Z.land info 0x0f) entry)
                :: rest)
      end
  end.

Definition named_symbol_less (lhs rhs : NamedSymbol) : bool :=
  if negb (String.eqb (ns_name lhs) (ns_name rhs))
  then String.ltb (ns_name lhs) (ns_name rhs)
  else sym_file_offset (ns_symbol lhs) <? sym_file_offset (ns_symbol rhs).

Definition read_dynamic_symbols (data : bytes) (size : Z) (load_segments : list LoadSegment)
  : parse (list NamedSymbol) :=
  dynamic ← read_dynamic_info data size;
  match virtual_address_to_file load_segments (dv_value (di_hash_table dynamic)) 8 with
  | None =>
      failure ParseErrorCode.InvalidDynamicTable (dv_file_offset (di_hash_table dynamic))
        "DT_HASH is not backed by a PT_LOAD file range"
  | Some hash_offset =>
      bucket_count ← read_u32 data hash_offset;
      symbol_count ← read_u32 data (hash_offset + 4);
      if bucket_count =? 0 then
        failure ParseErrorCode.InvalidDynamicTable (dv_file_offset (di_hash_table dynamic))
          "DT_HASH has no symbol buckets"
      else
        let hash_word_count := u64_add bucket_count symbol_count in
        let hash_size := u64_add 8 (u64_mul hash_word_count 4) in
        match virtual_address_to_file load_segments (dv_value (di_hash_table dynamic))
                hash_size with
        | None =>
            failure ParseErrorCode.InvalidDynamicTable (dv_file_offset (di_hash_table dynamic))
              "DT_HASH extends outside PT_LOAD file ranges"
        | Some _ =>
            let symbol_table_size := u64_mul symbol_count kElf64SymbolSize in
            match virtual_address_to_file load_segments (dv_value (di_symbol_table dynamic))
                    symbol_table_size with
            | None =>
                failure ParseErrorCode.InvalidSymbolTable
                  (dv_file_offset (di_symbol_table dynamic))
                  "DT_SYMTAB extends outside PT_LOAD file ranges"
            | Some symbol_table_offset =>
                match (if dv_value (di_string_table_size dynamic) =? 0 then None
                       else virtual_address_to_file load_segments
                              (dv_value (di_string_table dynamic))
                              (dv_value (di_string_table_size dynamic))) with
                | None =>
                    failure ParseErrorCode.InvalidStringTable
                      (dv_file_offset (di_string_table dynamic))
                      "DT_STRTAB extends outside PT_LOAD file ranges"
                | Some string_table_offset =>
                    symbols ← read_symbol_entries data symbol_table_offset string_table_offset
                      (dv_value (di_string_table_size dynamic)) (Z.to_nat symbol_count) 0;
                    Ok (std_sort named_symbol_less symbols)
                end
            end
        end
  end.

(** ** Kernel descriptors *)

(** The test on the symbol that was found. *)
Definition descriptor_symbol_ok (symbol : Symbol) : bool :=
  negb (negb (sym_type symbol =? kSymbolTypeObject) ||
        (sym_section_index symbol =? kUndefinedSection) ||
        (sym_section_index symbol >=? kLowestReservedSectionIndex) ||
        negb (sym_size symbol =? kKernelDescriptorSize)).

Definition find_kernel_symbol (symbols : list NamedSymbol) (symbol_name : string)
    (metadata_offset : Z) : parse Symbol :=
  let found := std_lower_bound (fun candidate name => String.ltb (ns_name candidate) name)
                 symbols symbol_name in
  match symbols !! found with
  | None =>
      failure ParseErrorCode.MissingKernelSymbol metadata_offset
        ("metadata kernel symbol was not found in DT_SYMTAB: " +:+ symbol_name)
  | Some candidate =>
      if negb (String.eqb (ns_name candidate) symbol_name) then
        failure ParseErrorCode.MissingKernelSymbol metadata_offset
          ("metadata kernel symbol was not found in DT_SYMTAB: " +:+ symbol_name)
      else
        let duplicate :=
          match symbols !! S found with
          | Some next => if String.eqb (ns_name next) symbol_name then Some next else None
          | None => None
          end in
        match duplicate with
        | Some next =>
            failure ParseErrorCode.InvalidKernelSymbol (sym_file_offset (ns_symbol next))
              "kernel descriptor symbol is defined more than once"
        | None =>
            if negb (descriptor_symbol_ok (ns_symbol candidate)) then
              failure ParseErrorCode.InvalidKernelSymbol
                (sym_file_offset (ns_symbol candidate))
                "kernel descriptor symbol has invalid type, section, or size"
            else Ok (ns_symbol candidate)
        end
  end.

Fixpoint address_has_executable_bytes (load_segments : list LoadSegment) (address : Z) : bool :=
  match load_segments with
  | [] => false
  | segment :: load_segments =>
      if (Z.land (seg_flags segment) 1 =? 0) || (address <? seg_virtual_address segment) then
        address_has_executable_bytes load_segments address
      else if u64_sub address (seg_virtual_address segment) <? seg_file_size segment then true
      else address_has_executable_bytes load_segments address
  end.

Definition add_signed_offset (base offset : Z) : option Z :=
  if offset >=? 0 then checked_add base (to_u64 offset)
  else
    let magnitude := u64_sub 0 (to_u64 offset) in
    if magnitude >? base then None else Some (u64_sub base magnitude).

(** [std::all_of(descriptor + from, descriptor + to, byte == 0)] *)
Definition reserved_is_zero (data : bytes) (descriptor from to : Z) : parse bool :=
  l ← read_bytes data (descriptor + from) (to - from);
  Ok (forallb (fun b => bool_decide (b = x00)) l).

Definition decode_kernel_descriptor (data : bytes) (load_segments : list LoadSegment)
    (symbol : Symbol) (info : KernelInfo) : parse KernelInfo :=
  match virtual_address_to_file load_segments (sym_value symbol) kKernelDescriptorSize with
  | None =>
      failure ParseErrorCode.KernelDescriptorOutOfBounds (sym_file_offset symbol)
        "kernel descriptor is not backed by a PT_LOAD file range"
  | Some descriptor =>
  r1 ← reserved_is_zero data descriptor 12 16;
  r2 ← reserved_is_zero data descriptor 24 44;
  r3 ← reserved_is_zero data descriptor 60 64;
  if negb (sym_value symbol mod kKernelDescriptorSize =? 0) || negb r1 || negb r2 || negb r3 then
    failure ParseErrorCode.InvalidKernelDescriptor descriptor
      "kernel descriptor alignment or reserved bytes are invalid"
  else
  code_entry_byte_offset ← read_i64 data (descriptor + kDescriptorCodeEntryOffset);
  match (match add_signed_offset (sym_value symbol) code_entry_byte_offset with
         | None => None
         | Some entry =>
             if address_has_executable_bytes load_segments entry then Some entry else None
         end) with
  | None =>
      failure ParseErrorCode.KernelEntryOutOfBounds
        (u64_add descriptor kDescriptorCodeEntryOffset)
        "kernel code entry does not point into an executable PT_LOAD segment"
  | Some code_entry =>
  descriptor_group ← read_u32 data (descriptor + kDescriptorGroupSegmentSizeOffset);
  descriptor_private ← read_u32 data (descriptor + kDescriptorPrivateSegmentSizeOffset);
  descriptor_kernarg ← read_u32 data (descriptor + kDescriptorKernargSizeOffset);
  if negb (descriptor_group =? ki_group_segment_size info) ||
     negb (descriptor_private =? ki_private_segment_size info) ||
     negb (descriptor_kernarg =? ki_kernarg_size info) then
    failure ParseErrorCode.KernelMetadataMismatch descriptor
      "kernel descriptor sizes do not match AMDHSA metadata"
  else
  compute_pgm_rsrc3 ← read_u32 data (descriptor + kDescriptorComputePgmRsrc3Offset);
  compute_pgm_rsrc1 ← read_u32 data (descriptor + kDescriptorComputePgmRsrc1Offset);
  compute_pgm_rsrc2 ← read_u32 data (descriptor + kDescriptorComputePgmRsrc2Offset);
  properties ← read_u16 data (descriptor + kDescriptorKernelPropertiesOffset);
  kernarg_preload ← read_u16 data (descriptor + kDescriptorKernargPreloadOffset);
  if negb (Z.land properties (Z.lxor kKnownKernelProperties UINT32_MAX) =? 0) then
    failure ParseErrorCode.InvalidKernelDescriptor
      (u64_add descriptor kDescriptorKernelPropertiesOffset)
      "kernel descriptor uses reserved property bits"
  else
  let descriptor_wavefront :=
    if negb (Z.land properties kKernelPropertyWavefrontSize32 =? 0) then 32 else 64 in
  let descriptor_dynamic_stack :=
    negb (Z.land properties kKernelPropertyUsesDynamicStack =? 0) in
  if negb (descriptor_wavefront =? ki_wavefront_size info) ||
     negb (Bool.eqb descriptor_dynamic_stack (ki_uses_dynamic_stack info)) then
    failure ParseErrorCode.KernelMetadataMismatch
      (u64_add descriptor kDescriptorKernelPropertiesOffset)
      "kernel descriptor properties do not match AMDHSA metadata"
  else
  Ok (mkKernelInfo (ki_name info) (ki_symbol_name info) (sym_value symbol)
        code_entry_byte_offset code_entry (ki_kernarg_size info)
        (ki_metadata_kernarg_alignment info) (ki_kernarg_alignment info)
        (ki_group_segment_size info) (ki_private_segment_size info) (ki_wavefront_size info)
        (ki_uses_dynamic_stack info) (ki_arguments info) (ki_explicit_argument_size info)
        compute_pgm_rsrc1 compute_pgm_rsrc2 compute_pgm_rsrc3 properties kernarg_preload)
  end
  end.

Fixpoint decode_descriptors (data : bytes) (load_segments : list LoadSegment)
    (symbols : list NamedSymbol) (kernels : list MetadataKernel) : parse (list KernelInfo) :=
  match kernels with
  | [] => Ok []
  | kernel :: kernels =>
      symbol ← find_kernel_symbol symbols (ki_symbol_name (mk_info kernel))
        (mk_metadata_offset kernel);
      info ← decode_kernel_descriptor data load_segments symbol (mk_info kernel);
      rest ← decode_descriptors data load_segments symbols kernels;
      Ok (info :: rest)
  end.

(** The code object with its metadata; without a metadata note it stays as
    it was, and so it does on every error. *)
Definition decode_amdhsa_metadata (data : bytes) (size : Z) (code_object : CodeObject)
  : parse CodeObject :=
  metadata ← find_metadata_note data size;
  match mb_data metadata with
  | None => Ok code_object
  | Some bytes_data =>
      root ← parse_document data bytes_data (mb_size metadata) (mb_file_offset metadata);
      '(metadata_version, target_isa, kernels) ← decode_metadata_document root;
      symbols ← read_dynamic_symbols data size (co_load_segments code_object);
      decoded_kernels ← decode_descriptors data (co_load_segments code_object) symbols kernels;
      Ok (mkCodeObject (co_abi_version code_object) (co_elf_flags code_object)
            (co_target_machine code_object) (co_load_segments code_object) true
            metadata_version target_isa decoded_kernels (co_load_plan code_object))
  end.

(** ** Facts: the note *)

Lemma align4_spec value r :
  is_u64 value -> align4 value = Some r -> value <= r < value + 4 /\ is_u64 r /\ r mod 4 = 0.
Proof.
  unfold align4. intros Hv. destruct (checked_add value 3) as [w|] eqn:Hw; [|done].
  apply checked_add_Some in Hw as [-> Hw]; [|lia..]. intros [= <-].
  change (UINT64_MAX - 3) with (2 ^ 64 - 2 ^ 2). rewrite land_high_mask by lia.
  change (2 ^ 2) with 4. zlia.
Qed.

(** The metadata bytes, when a note was found, lie in the file. *)
Definition metadata_in_file (data : bytes) (metadata : MetadataBytes) : Prop :=
  match mb_data metadata with
  | None => True
  | Some start =>
      mb_file_offset metadata = start /\ 0 <= start /\ 0 <= mb_size metadata /\
      start + mb_size metadata <= size_of data
  end.

Lemma note_is_amdgpu_safe (data : bytes) name_size name_offset :
  0 <= name_offset -> name_offset + name_size <= size_of data ->
  safe (note_is_amdgpu data name_size name_offset) (fun _ => True).
Proof.
  intros. unfold note_is_amdgpu. safe_step; [|done].
  change (size_of kAmdgpuOwner) with 7 in *. by repeat safe_step.
Qed.

(** The loop reads only inside its segment, and its fuel is enough. *)
Lemma note_loop_safe (data : bytes) fuel cursor end_ metadata :
  is_u64 (size_of data) -> 0 <= cursor -> end_ <= size_of data ->
  (end_ - cursor < Z.of_nat fuel) -> (0 < fuel)%nat ->
  metadata_in_file data metadata ->
  safe (note_loop data fuel cursor end_ metadata) (metadata_in_file data).
Proof.
  intros Hsize. revert cursor metadata.
  induction fuel as [|fuel IH]; intros cursor metadata Hc He Hf Hf0 Hm; [lia|].
  cbn [note_loop]. safe_step; [done|]. rewrite u64_sub_small by lia.
  parse_step; [fails|]. do 3 parse_step. cbv zeta. rewrite u64_add_small by lia.
  destruct (align4 a) as [an|] eqn:Han; [|fails].
  destruct (align4 a0) as [ad|] eqn:Had; [|fails].
  apply align4_spec in Han as (? & ? & ?); [|lia].
  apply align4_spec in Had as (? & ? & ?); [|lia].
  destruct (checked_add (cursor + 12) an) as [d|] eqn:Hd; [|fails].
  apply checked_add_Some in Hd as [-> Hd]; [|lia..].
  destruct (checked_add (cursor + 12 + an) ad) as [n|] eqn:Hn; [|fails].
  apply checked_add_Some in Hn as [-> Hn]; [|lia..].
  parse_step; [fails|].
  eapply safe_bind; [apply note_is_amdgpu_safe; lia|]. intros is_amdgpu _.
  safe_step; [|apply IH; [lia..|done]]. safe_step; [fails|].
  apply IH; [lia..|]. unfold metadata_in_file. simpl. split_and!; lia.
Qed.

Lemma find_note_loop_safe (data : bytes) table_offset (count : nat) remaining index metadata :
  elf_table data table_offset count -> metadata_in_file data metadata ->
  0 <= index -> index + Z.of_nat remaining = Z.of_nat count ->
  safe (find_note_loop data (size_of data) table_offset kElf64ProgramHeaderSize
          remaining index metadata) (metadata_in_file data).
Proof.
  intros []. revert index metadata.
  induction remaining as [|n IH]; intros index metadata Hm Hi Hn; cbn [find_note_loop]; [done|].
  rewrite (header_entry_offset _ count (size_of data)) by lia.
  set (entry := table_offset + index * kElf64ProgramHeaderSize).
  assert (0 <= entry /\ entry + 56 <= size_of data) as [He1 He2]
    by (unfold entry, kElf64ProgramHeaderSize in *; lia).
  unfold kProgramHeaderTypeOffset, kProgramHeaderFileOffset, kProgramHeaderFileSizeOffset.
  parse_step. parse_step; [apply IH; [done|lia..]|].
  parse_step. parse_step. parse_step; [fails|].
  apply negb_false_iff, range_is_in_file_spec in Hg0.
  rewrite (u64_add_small a0) by lia.
  eapply safe_bind.
  { apply note_loop_safe; [lia..| | |exact Hm]; unfold note_fuel, size_of in *; lia. }
  intros m Hm'. apply IH; [done|lia..].
Qed.

Lemma find_metadata_note_safe (data : bytes) table_offset (count : nat) :
  elf_table data table_offset count ->
  safe (find_metadata_note data (size_of data)) (metadata_in_file data).
Proof.
  intros Ht. pose proof Ht as [_ _ Hoffset Hentry Hcount _ _ _]. unfold find_metadata_note.
  rewrite Hoffset, Hentry, Hcount. cbn [mbind result_bind].
  rewrite Nat2Z.id. eapply find_note_loop_safe; [done|done|lia|lia].
Qed.

(** ** Facts: dynamic symbols *)

Definition dynamic_info_ok (info : DynamicInfo) : Prop :=
  is_u64 (dv_value (di_symbol_table info)) /\ is_u64 (dv_value (di_symbol_entry_size info)) /\
  is_u64 (dv_value (di_string_table info)) /\ is_u64 (dv_value (di_string_table_size info)) /\
  is_u64 (dv_value (di_hash_table info)).

Lemma set_dynamic_tag_safe info tag value file_offset :
  dynamic_info_ok info -> is_u64 value ->
  safe (set_dynamic_tag info tag value file_offset) dynamic_info_ok.
Proof.
  intros Hinfo Hv. unfold set_dynamic_tag. destruct info.
  repeat case_match; try done;
    (eapply safe_bind; [apply set_dynamic_value_safe|]; intros dv ->;
     unfold dynamic_info_ok in *; simpl in *; tauto).
Qed.

Lemma read_dynamic_entries_safe (data : bytes) dynamic_offset remaining offset info :
  is_u64 (size_of data) -> 0 <= dynamic_offset -> 0 <= offset ->
  dynamic_offset + offset + Z.of_nat remaining * kElf64DynamicEntrySize <= size_of data ->
  dynamic_info_ok info ->
  safe (read_dynamic_entries data dynamic_offset remaining offset info)
    (fun r => match r with Some info' => dynamic_info_ok info' | None => True end).
Proof.
  unfold kElf64DynamicEntrySize. intros Hs Hd. revert offset info.
  induction remaining as [|n IH]; intros offset info Ho Hr Hinfo; cbn [read_dynamic_entries];
    [done|].
  rewrite u64_add_small by lia. parse_step. parse_step. safe_step; [done|].
  eapply safe_bind; [by apply set_dynamic_tag_safe|]. intros info' Hinfo'.
  unfold kElf64DynamicEntrySize. apply IH; [lia..|done].
Qed.

Lemma read_dynamic_info_safe (data : bytes) table_offset (count : nat) :
  elf_table data table_offset count ->
  safe (read_dynamic_info data (size_of data)) dynamic_info_ok.
Proof.
  intros Ht. unfold read_dynamic_info.
  eapply safe_bind; [by eapply find_dynamic_segment_safe|].
  intros [[offset len]|] Hrange; [|fails]. destruct Hrange as (? & ? & ? & ?).
  eapply safe_bind.
  { apply read_dynamic_entries_safe; [apply Ht|lia..| |by unfold dynamic_info_ok].
    unfold kElf64DynamicEntrySize in *. zlia. }
  intros [info|] Hinfo; [|fails]. by repeat parse_step.
Qed.

Lemma read_string_safe (data : bytes) table_offset table_size name_offset :
  is_u64 (size_of data) -> 0 <= table_offset -> table_offset + table_size <= size_of data ->
  0 <= name_offset ->
  safe (read_string data table_offset table_size name_offset) (fun _ => True).
Proof.
  intros. unfold read_string. safe_step; [done|]. rewrite u64_add_small by lia.
  by repeat safe_step.
Qed.

(** Symbol [i] of the table was read from entry [i]. *)
Definition symbol_ok (s : NamedSymbol) : Prop :=
  is_u64 (sym_value (ns_symbol s)) /\ is_u64 (sym_size (ns_symbol s)).

Lemma read_symbol_entries_safe (data : bytes) symtab strtab strsz (count : nat) remaining index :
  is_u64 (size_of data) -> 0 <= symtab ->
  symtab + Z.of_nat count * kElf64SymbolSize <= size_of data ->
  0 <= strtab -> strtab + strsz <= size_of data ->
  0 <= index -> index + Z.of_nat remaining = Z.of_nat count ->
  safe (read_symbol_entries data symtab strtab strsz remaining index)
    (fun symbols => Forall symbol_ok symbols /\ length symbols = remaining).
Proof.
  unfold kElf64SymbolSize. intros Hs Hst Htab Hstr Hstrsz. revert index.
  induction remaining as [|n IH]; intros index Hi Hn; cbn [read_symbol_entries]; [done|].
  unfold kElf64SymbolSize. rewrite u64_mul_small by lia. rewrite u64_add_small by lia.
  cbv [kSymbolNameOffset kSymbolInfoOffset kSymbolSectionIndexOffset kSymbolValueOffset
    kSymbolSizeOffset]. cbv zeta. parse_step.
  eapply safe_bind; [apply read_string_safe; lia|]. intros [name|] _; [|fails].
  do 4 parse_step. eapply safe_bind; [apply IH; lia|]. intros rest [? ?].
  simpl. split; [by constructor|lia].
Qed.

#[export] Instance named_symbol_less_strict_weak : StrictWeak named_symbol_less.
Proof. apply strict_weak_string_lex, strict_weak_key. Qed.

(** The table [read_dynamic_symbols] returns: ordered by name. *)
Record symbols_wf (symbols : list NamedSymbol) : Prop := {
  sw_symbols : Forall symbol_ok symbols;
  sw_sorted : StronglySorted (not_after named_symbol_less) symbols
}.

Lemma read_dynamic_symbols_safe (data : bytes) table_offset (count : nat) segments :
  elf_table data table_offset count -> Forall (segment_wf (size_of data)) segments ->
  safe (read_dynamic_symbols data (size_of data) segments) symbols_wf.
Proof.
  intros Ht Hseg. pose proof (et_size _ _ _ Ht) as Hsize. unfold read_dynamic_symbols.
  eapply safe_bind; [by eapply read_dynamic_info_safe|].
  intros dynamic (Hsym & _ & Hstr & Hstrsz & Hhash).
  destruct (virtual_address_to_file _ (dv_value (di_hash_table dynamic)) 8) eqn:Hh; [|fails].
  eapply (virtual_address_to_file_spec (size_of data)) in Hh as (? & ? & _); [|done|done|lia|done].
  parse_step. parse_step. parse_step; [fails|]. cbv zeta.
  parse_step; [|fails]. unfold kElf64SymbolSize. rewrite u64_mul_small by lia.
  destruct (virtual_address_to_file _ (dv_value (di_symbol_table dynamic)) _) as [st|] eqn:Hst;
    [|fails].
  eapply (virtual_address_to_file_spec (size_of data)) in Hst as (? & ? & _); [|done|done|lia|done].
  match goal with |- safe (match ?x with _ => _ end) _ => destruct x as [ss|] eqn:Hss end;
    [|fails].
  destruct (dv_value (di_string_table_size dynamic) =? 0); [done|].
  eapply (virtual_address_to_file_spec (size_of data)) in Hss as (? & ? & _); [|done|done|lia|done].
  eapply safe_bind.
  { apply (read_symbol_entries_safe _ _ _ _ (Z.to_nat a0)); unfold kElf64SymbolSize; lia. }
  intros symbols [Hs _]. simpl. split; [by apply Forall_std_sort|apply std_sort_sorted; apply _].
Qed.

(** ** Facts: kernel descriptors *)

(** What [find_kernel_symbol] means, without the search: look at the symbols
    of that name in table order. *)
Definition lookup_kernel_symbol (symbols : list NamedSymbol) (symbol_name : string)
    (metadata_offset : Z) : parse Symbol :=
  match filter (fun s => ns_name s = symbol_name) symbols with
  | [] =>
      failure ParseErrorCode.MissingKernelSymbol metadata_offset
        ("metadata kernel symbol was not found in DT_SYMTAB: " +:+ symbol_name)
  | [s] =>
      if descriptor_symbol_ok (ns_symbol s) then Ok (ns_symbol s)
      else failure ParseErrorCode.InvalidKernelSymbol (sym_file_offset (ns_symbol s))
             "kernel descriptor symbol has invalid type, section, or size"
  | _ :: next :: _ =>
      failure ParseErrorCode.InvalidKernelSymbol (sym_file_offset (ns_symbol next))
        "kernel descriptor symbol is defined more than once"
  end.

Definition name_ordered (x y : NamedSymbol) : Prop :=
  String.ltb (ns_name y) (ns_name x) = false.

Lemma not_after_name_ordered x y : not_after named_symbol_less x y -> name_ordered x y.
Proof.
  unfold not_after, named_symbol_less, name_ordered.
  destruct (String.eqb_spec (ns_name y) (ns_name x)) as [->|]; [|done].
  intros _. apply string_ltb_irrefl.
Qed.

Lemma filter_after_other name (x : NamedSymbol) l :
  StronglySorted name_ordered (x :: l) -> String.ltb (ns_name x) name = false ->
  ns_name x <> name -> filter (fun s => ns_name s = name) (x :: l) = [].
Proof.
  intros Hs Hge Hne. apply StronglySorted_inv in Hs as [_ Hall].
  rewrite filter_cons_False by done.
  assert (Forall (fun s => ns_name s <> name) l) as Hl.
  { eapply Forall_impl; [exact Hall|]. unfold name_ordered. intros y Hy Hyn.
    rewrite Hyn in Hy. by apply Hne, string_ltb_separates. }
  by apply filter_none.
Qed.

Lemma find_kernel_symbol_lookup symbols name metadata_offset :
  StronglySorted (not_after named_symbol_less) symbols ->
  find_kernel_symbol symbols name metadata_offset =
  lookup_kernel_symbol symbols name metadata_offset.
Proof.
  intros Hsort. apply (StronglySorted_impl _ name_ordered) in Hsort;
    [|intros x y _ _; apply not_after_name_ordered].
  assert (partitioned (fun s => String.ltb (ns_name s) name) symbols) as Hpart.
  { eapply StronglySorted_impl; [|exact Hsort]. unfold name_ordered. intros x y _ _ Hxy Hy.
    destruct (String.ltb (ns_name x) name) eqn:Hx; [done|].
    by rewrite (less_negtrans _ _ _ Hx Hxy) in Hy. }
  unfold find_kernel_symbol, lookup_kernel_symbol, std_lower_bound.
  destruct (bisect_partition _ _ Hpart) as (Hr & Hlow & Hhigh).
  set (r := bisect _ _ _ _ _) in *. clearbody r. clear Hpart.
  assert (filter (fun s => ns_name s = name) symbols =
          filter (fun s => ns_name s = name) (drop r symbols)) as ->.
  { rewrite <-(take_drop r symbols) at 1. rewrite filter_app.
    rewrite (filter_none _ (take r symbols)); [done|].
    apply Forall_lookup. intros i s [Hi Hs]%lookup_take_Some <-.
    specialize (Hlow i s ltac:(lia) Hi). by rewrite string_ltb_irrefl in Hlow. }
  assert (forall i s, drop r symbols !! i = Some s -> String.ltb (ns_name s) name = false) as Hge.
  { intros i s Hs. rewrite lookup_drop in Hs. eapply Hhigh; [|exact Hs]; lia. }
  apply (StronglySorted_drop _ r) in Hsort.
  assert (symbols !! r = drop r symbols !! 0%nat) as -> by by rewrite lookup_drop, Nat.add_0_r.
  assert (symbols !! S r = drop r symbols !! 1%nat) as -> by by rewrite lookup_drop, Nat.add_1_r.
  destruct (drop r symbols) as [|x l]; [done|]. cbn [lookup list_lookup].
  destruct (String.eqb_spec (ns_name x) name) as [Hx|Hx]; cbn [negb].
  2:{ rewrite (filter_after_other name); [done|done|by apply (Hge 0%nat)|done]. }
  rewrite filter_cons_True by done. destruct l as [|y l]; cbn [lookup list_lookup].
  { rewrite filter_nil. by destruct (descriptor_symbol_ok _). }
  destruct (String.eqb_spec (ns_name y) name) as [Hy|Hy].
  - by rewrite filter_cons_True.
  - rewrite (filter_after_other name y); [by destruct (descriptor_symbol_ok _)| |by apply (Hge 1%nat)|done].
    by apply StronglySorted_inv in Hsort as [? _].
Qed.

Lemma address_has_executable_bytes_spec file_size segments address :
  is_u64 address -> Forall (segment_wf file_size) segments ->
  address_has_executable_bytes segments address = true <->
  exists s, s ∈ segments /\ Z.land (seg_flags s) 1 <> 0 /\
    seg_virtual_address s <= address < seg_virtual_address s + seg_file_size s.
Proof.
  intros Ha Hs. induction Hs as [|s segments Hs _ IH]; simpl.
  { split; [done|]. by intros (s & ?%elem_of_nil & _). }
  setoid_rewrite elem_of_cons. destruct Hs as [[] ? ? ? ? _].
  destruct (_ || _) eqn:G.
  { rewrite IH. split; [naive_solver|]. intros (s' & [->|?] & ?); [lia|eauto]. }
  rewrite u64_sub_small by lia. case_match.
  - split; [intros _|done]. exists s. split; [by left|]. lia.
  - rewrite IH. split; [naive_solver|]. intros (s' & [->|?] & ?); [lia|eauto].
Qed.

(** The signed addition is exact: no result means the sum leaves [uint64_t]. *)
Lemma add_signed_offset_spec base offset :
  is_u64 base -> -9223372036854775808 <= offset < 9223372036854775808 ->
  add_signed_offset base offset =
  if (0 <=? base + offset) && (base + offset <? U64_MOD) then Some (base + offset) else None.
Proof.
  intros Hb Ho. unfold add_signed_offset. case_match.
  - rewrite to_u64_small by lia. unfold checked_add. repeat case_match; try lia; [done|].
    by rewrite u64_add_small by lia.
  - assert (to_u64 offset = offset + U64_MOD) as ->.
    { unfold to_u64. rewrite <-(Z.mod_add _ 1) by lia. apply Z.mod_small. lia. }
    assert (u64_sub 0 (offset + U64_MOD) = - offset) as ->.
    { unfold u64_sub, to_u64. rewrite <-(Z.mod_add _ 1) by lia. rewrite Z.mod_small; lia. }
    repeat case_match; try lia; [done|]. rewrite u64_sub_small by lia. f_equal; lia.
Qed.

(** What [decode_kernel_descriptor] adds to the metadata of a kernel. *)
Record kernel_ok (segments : list LoadSegment) (k : KernelInfo) : Prop := {
  ko_metadata : kernel_metadata_ok k;
  ko_descriptor_aligned : ki_descriptor_virtual_address k mod kKernelDescriptorSize = 0;
  ko_descriptor_backed : exists s, s ∈ segments /\
    seg_virtual_address s <= ki_descriptor_virtual_address k /\
    ki_descriptor_virtual_address k + kKernelDescriptorSize <=
      seg_virtual_address s + seg_file_size s;
  ko_entry : ki_code_entry_virtual_address k =
    ki_descriptor_virtual_address k + ki_code_entry_byte_offset k;
  ko_entry_offset :
    -9223372036854775808 <= ki_code_entry_byte_offset k < 9223372036854775808;
  ko_entry_executable : exists s, s ∈ segments /\ Z.land (seg_flags s) 1 <> 0 /\
    seg_virtual_address s <= ki_code_entry_virtual_address k <
      seg_virtual_address s + seg_file_size s;
  ko_properties : Z.land (ki_kernel_code_properties k) kKnownKernelProperties =
    ki_kernel_code_properties k;
  ko_wavefront : ki_wavefront_size k =
    if Z.testbit (ki_kernel_code_properties k) 10 then 32 else 64;
  ko_dynamic_stack : ki_uses_dynamic_stack k = Z.testbit (ki_kernel_code_properties k) 11
}.

(** The 64 bytes of a kernel descriptor at an offset of the file, laid out as
    the AMDHSA ABI has them, and the kernel they describe. *)
Record descriptor_bytes (data : bytes) (d : Z) (k : KernelInfo) : Prop := {
  db_group_segment_size : le_value (slice data d 4) = ki_group_segment_size k;
  db_private_segment_size : le_value (slice data (d + 4) 4) = ki_private_segment_size k;
  db_kernarg_size : le_value (slice data (d + 8) 4) = ki_kernarg_size k;
  db_reserved0 : Forall (eq x00) (slice data (d + 12) 4);
  db_code_entry : to_i64 (le_value (slice data (d + 16) 8)) = ki_code_entry_byte_offset k;
  db_reserved1 : Forall (eq x00) (slice data (d + 24) 20);
  db_rsrc3 : le_value (slice data (d + 44) 4) = ki_compute_pgm_rsrc3 k;
  db_rsrc1 : le_value (slice data (d + 48) 4) = ki_compute_pgm_rsrc1 k;
  db_rsrc2 : le_value (slice data (d + 52) 4) = ki_compute_pgm_rsrc2 k;
  db_properties : le_value (slice data (d + 56) 2) = ki_kernel_code_properties k;
  db_preload : le_value (slice data (d + 58) 2) = ki_kernarg_preload k;
  db_reserved3 : Forall (eq x00) (slice data (d + 60) 4)
}.

(** The metadata of a kernel says what its descriptor in the file says. *)
Definition descriptor_agrees (data : bytes) (segments : list LoadSegment) (k : KernelInfo) : Prop :=
  exists s, s ∈ segments /\ seg_virtual_address s <= ki_descriptor_virtual_address k /\
    ki_descriptor_virtual_address k + kKernelDescriptorSize <= seg_virtual_address s + seg_file_size s /\
    descriptor_bytes data (seg_file_offset s + (ki_descriptor_virtual_address k - seg_virtual_address s)) k.

Lemma land_bit x n : 0 <= n -> negb (Z.land x (Z.shiftl 1 n) =? 0) = Z.testbit x n.
Proof.
  intros Hn. rewrite Z.shiftl_1_l.
  destruct (Z.testbit x n) eqn:E.
  - destruct (Z.eqb_spec (Z.land x (2 ^ n)) 0) as [H|]; [|done].
    assert (Z.testbit (Z.land x (2 ^ n)) n = true) as Hb
      by by rewrite Z.land_spec, E, Z.pow2_bits_true.
    by rewrite H, Z.bits_0 in Hb.
  - apply negb_false_iff, Z.eqb_eq, Z.bits_inj'. intros i Hi.
    rewrite Z.land_spec, Z.bits_0, Z.pow2_bits_eqb by done.
    destruct (Z.eqb_spec n i) as [<-|]; [by rewrite E|apply andb_false_r].
Qed.

Lemma known_properties p :
  is_u16 p -> Z.land p (Z.lxor kKnownKernelProperties UINT32_MAX) = 0 ->
  Z.land p kKnownKernelProperties = p.
Proof.
  intros Hp H. apply Z.bits_inj'. intros i Hi.
  assert (Z.testbit (Z.land p (Z.lxor kKnownKernelProperties UINT32_MAX)) i = false) as Hb
    by by rewrite H, Z.bits_0.
  rewrite Z.land_spec, Z.lxor_spec in Hb. rewrite Z.land_spec.
  change UINT32_MAX with (Z.ones 32) in Hb. rewrite Z.testbit_ones in Hb by lia.
  destruct (Z.testbit p i) eqn:Ep; [|done]. simpl in Hb.
  destruct (Z.lt_ge_cases i 32).
  - replace ((0 <=? i) && (i <? 32)) with true in Hb by lia.
    by destruct (Z.testbit kKnownKernelProperties i).
  - destruct (Z.eq_dec p 0) as [->|]; [by rewrite Z.bits_0 in Ep|].
    rewrite Z.bits_above_log2 in Ep; [done|lia|].
    apply Z.log2_lt_pow2; [lia|]. eapply Z.lt_le_trans with (2 ^ 32); [simpl; lia|].
    apply Z.pow_le_mono_r; lia.
Qed.

Lemma reserved_is_zero_safe (data : bytes) descriptor from to :
  0 <= descriptor -> 0 <= from <= to -> descriptor + to <= size_of data ->
  safe (reserved_is_zero data descriptor from to) (fun b => b = true ->
    Forall (eq x00) (slice data (descriptor + from) (Z.to_nat (to - from)))).
Proof.
  intros. unfold reserved_is_zero. eapply safe_bind; [apply read_bytes_safe; lia|]. intros l [-> _]. cbn. intros Hz.
  apply Forall_forall. intros x Hx. rewrite forallb_forall in Hz. symmetry.
  apply (bool_decide_eq_true_1 _), Hz, list_elem_of_In, Hx.
Qed.

Lemma decode_kernel_descriptor_safe (data : bytes) segments symbol info :
  is_u64 (size_of data) -> is_u64 (sym_value symbol) ->
  Forall (segment_wf (size_of data)) segments -> kernel_metadata_ok info ->
  safe (decode_kernel_descriptor data segments symbol info)
    (fun k => kernel_ok segments k /\ descriptor_agrees data segments k /\ ki_name k = ki_name info /\
              ki_symbol_name k = ki_symbol_name info).
Proof.
  intros Hsize Hsym Hseg Hinfo. unfold decode_kernel_descriptor.
  destruct (virtual_address_to_file _ _ _) as [descriptor|] eqn:Hd; [|fails].
  eapply (virtual_address_to_file_spec (size_of data)) in Hd as (? & Hin & Hback);
    [|done|done|unfold kKernelDescriptorSize; lia|done].
  unfold kKernelDescriptorSize in Hin.
  eapply safe_bind; [apply reserved_is_zero_safe; lia|]; cbn beta; intros r1 Hr1.
  eapply safe_bind; [apply reserved_is_zero_safe; lia|]; cbn beta; intros r2 Hr2.
  eapply safe_bind; [apply reserved_is_zero_safe; lia|]; cbn beta; intros r3 Hr3.
  parse_step; [fails|]. apply orb_false_iff in Hg as [Hg Hz3].
  apply orb_false_iff in Hg as [Hg Hz2]. apply orb_false_iff in Hg as [Hal Hz1].
  cbv [kDescriptorGroupSegmentSizeOffset kDescriptorPrivateSegmentSizeOffset
    kDescriptorKernargSizeOffset kDescriptorCodeEntryOffset kDescriptorComputePgmRsrc3Offset
    kDescriptorComputePgmRsrc1Offset kDescriptorComputePgmRsrc2Offset
    kDescriptorKernelPropertiesOffset kDescriptorKernargPreloadOffset].
  pose proof (read_i64_safe (E := ParseError) data (descriptor + 16) ltac:(lia) ltac:(lia)) as Hi64.
  unfold read_i64 in *. rewrite read_u64_value in * by lia. cbn [mbind result_bind safe] in *.
  rewrite add_signed_offset_spec by lia.
  destruct (_ && _) eqn:Hrange; [|fails].
  destruct (address_has_executable_bytes _ _) eqn:Hx; [|fails].
  eapply (address_has_executable_bytes_spec (size_of data)) in Hx; [|lia|done].
  rewrite !read_u32_value by lia. cbn [mbind result_bind]. parse_step; [fails|].
  rewrite !read_u16_value by lia. cbn [mbind result_bind]. parse_step; [fails|].
  cbv zeta. parse_step; [fails|].
  apply orb_false_iff in Hg1 as [Hwave Hdyn]. apply orb_false_iff in Hg as [Hg Hkernarg].
  apply orb_false_iff in Hg as [Hgroup Hprivate]. simpl.
  apply negb_false_iff in Hal, Hg0, Hwave, Hdyn, Hgroup, Hprivate, Hkernarg, Hz1, Hz2, Hz3.
  unfold kKernelPropertyWavefrontSize32, kKernelPropertyUsesDynamicStack in *.
  rewrite land_bit in Hwave, Hdyn by lia. destruct Hback as (s & Hs & Hlo & Hhi & ->).
  split; [|split; [|done]].
  - split; simpl; try done.
    + by destruct Hinfo.
    + lia.
    + by exists s.
    + apply known_properties; [apply (slice_value_range 2)|lia].
    + symmetry. by apply Z.eqb_eq.
    + symmetry. by apply eqb_prop.
  - exists s. split_and!; [done..|]. subst r1 r2 r3. unfold slice. rewrite Z.add_0_r in Hgroup.
    split; simpl; try done; try (by apply Z.eqb_eq);
      first [exact (Hr1 eq_refl)|exact (Hr2 eq_refl)|exact (Hr3 eq_refl)].
Qed.

Lemma find_kernel_symbol_safe symbols name metadata_offset :
  symbols_wf symbols ->
  safe (find_kernel_symbol symbols name metadata_offset) (fun s => is_u64 (sym_value s)).
Proof.
  intros [Hs _]. unfold find_kernel_symbol. cbv zeta.
  destruct (symbols !! _) as [candidate|] eqn:Hc; [|fails].
  repeat parse_step; by apply (Forall_lookup_1 _ _ _ _ Hs Hc).
Qed.

Lemma decode_descriptors_safe (data : bytes) segments symbols kernels :
  is_u64 (size_of data) -> Forall (segment_wf (size_of data)) segments ->
  symbols_wf symbols -> Forall (fun k => kernel_metadata_ok (mk_info k)) kernels ->
  safe (decode_descriptors data segments symbols kernels)
    (fun ks => Forall (kernel_ok segments) ks /\ Forall (descriptor_agrees data segments) ks /\
       ki_name <$> ks = (fun k => ki_name (mk_info k)) <$> kernels /\
       ki_symbol_name <$> ks = (fun k => ki_symbol_name (mk_info k)) <$> kernels).
Proof.
  intros Hsize Hseg Hsym. induction 1 as [|k kernels Hk _ IH]; simpl; [done|].
  eapply safe_bind; [by apply find_kernel_symbol_safe|]. intros symbol Hs.
  eapply safe_bind; [by apply decode_kernel_descriptor_safe|]. intros info (? & ? & ? & ?).
  eapply safe_bind; [exact IH|]. intros rest (? & ? & Hn & Hs'). simpl.
  split_and!; [by constructor..| |]; f_equal; done.
Qed.

(** The code object after its metadata was decoded. *)
Record metadata_wf (code_object : CodeObject) : Prop := {
  mw_version : co_metadata_version code_object = mkMetadataVersion 1 2;
  mw_target : co_target_isa code_object = "amdgcn-amd-amdhsa--gfx1101"%string \/
              co_target_isa code_object = "amdgcn-amd-amdhsa-unknown-gfx1101"%string;
  mw_nonempty : co_kernels code_object <> [];
  mw_kernels : Forall (kernel_ok (co_load_segments code_object)) (co_kernels code_object);
  mw_names : NoDup (ki_name <$> co_kernels code_object);
  mw_symbols : NoDup (ki_symbol_name <$> co_kernels code_object)
}.

Lemma decode_amdhsa_metadata_safe (data : bytes) table_offset (count : nat) code_object :
  elf_table data table_offset count ->
  Forall (segment_wf (size_of data)) (co_load_segments code_object) ->
  safe (decode_amdhsa_metadata data (size_of data) code_object)
    (fun result =>
       co_load_segments result = co_load_segments code_object /\
       co_abi_version result = co_abi_version code_object /\
       co_elf_flags result = co_elf_flags code_object /\
       co_target_machine result = co_target_machine code_object /\
       (result = code_object \/ co_has_metadata result = true /\ metadata_wf result /\
          Forall (descriptor_agrees data (co_load_segments result)) (co_kernels result))).
Proof.
  intros Ht Hseg. pose proof (et_size _ _ _ Ht) as Hsize. unfold decode_amdhsa_metadata.
  eapply safe_bind; [by eapply find_metadata_note_safe|].
  intros metadata Hm. unfold metadata_in_file in Hm.
  destruct (mb_data metadata) as [start|]; [|simpl; tauto]. destruct Hm as (-> & ? & ? & ?).
  eapply safe_bind; [by apply parse_document_safe|]. intros root Hroot.
  eapply safe_bind; [by apply decode_metadata_document_safe|]. intros [[version target] kernels] [].
  eapply safe_bind; [by eapply read_dynamic_symbols_safe|]. intros symbols Hsym.
  eapply safe_bind; [by apply decode_descriptors_safe|]. intros ks (? & ? & Hn & Hs).
  simpl. split_and!; [done..|]. right. split; [done|]. split; [|done]. split; simpl; try done.
  - intros ->. by destruct kernels.
  - by rewrite Hn.
  - by rewrite Hs.
Qed.

(** The binary search for a kernel descriptor's symbol in the sorted table
    gives what a search of the whole table would: the unique symbol of that
    name if it is a well-formed descriptor, and otherwise the error for a
    missing, a duplicate or an invalid symbol. *)
Theorem kernel_symbol_search_exact symbols name metadata_offset :
  let table := std_sort named_symbol_less symbols in
  find_kernel_symbol table name metadata_offset = lookup_kernel_symbol table name metadata_offset.
Proof. apply find_kernel_symbol_lookup. apply (std_sort_sorted named_symbol_less). Qed.

(** Decoding a kernel descriptor reads only the file, and an accepted
    kernel has an aligned descriptor in a segment's file bytes, a code entry
    (descriptor address plus signed offset) in executable bytes, only known
    property bits, and metadata that agrees with the descriptor. *)
Theorem kernel_descriptor_decoded (data : bytes) segments symbol info :
  is_u64 (size_of data) -> is_u64 (sym_value symbol) ->
  Forall (segment_wf (size_of data)) segments -> kernel_metadata_ok info ->
  safe (decode_kernel_descriptor data segments symbol info)
    (fun k => kernel_ok segments k /\ descriptor_agrees data segments k /\ ki_name k = ki_name info /\
              ki_symbol_name k = ki_symbol_name info).
Proof. apply decode_kernel_descriptor_safe. Qed.

(** The walk over the notes reads only the file and ends, for any sizes the
    notes claim; the metadata it finds is a range of the file. *)
Theorem metadata_note_search_total (data : bytes) table_offset (count : nat) :
  elf_table data table_offset count ->
  safe (find_metadata_note data (size_of data)) (metadata_in_file data).
Proof. apply find_metadata_note_safe. Qed.
