(* ===== verification/LoadPlan.v ===== *)
(** * The load plan

    [loader/load_plan_reader.cpp]: the plan by which the runtime builds the
    executable image of a code object: the copies, zero fills and protections
    of the PT_LOAD segments, and the dynamic relocations, read from the tables
    the dynamic segment names. *)

From stdpp Require Import pretty.
From S2P Require Import Prelude Order Memory CodeObject Segments ElfDynamic KernelSymbols.

Definition kElf64RelSize : Z := 16.
Definition kElf64RelaSize : Z := 24.
Definition kAbsoluteSection : Z := 0xfff1.
Definition kDynamicPltRelocationSize : Z := 2.
Definition kDynamicHash : Z := 4.
Definition kDynamicSymbolTable : Z := 6.
Definition kDynamicRela : Z := 7.
Definition kDynamicRelaSize : Z := 8.
Definition kDynamicRelaEntrySize : Z := 9.
Definition kDynamicSymbolEntrySize : Z := 11.
Definition kDynamicRel : Z := 17.
Definition kDynamicRelSize : Z := 18.
Definition kDynamicRelEntrySize : Z := 19.
Definition kDynamicPltRelocationType : Z := 20.
Definition kDynamicJumpRelocation : Z := 23.
Definition kDynamicRelrSize : Z := 35.
Definition kDynamicRelr : Z := 36.
Definition kDynamicRelrEntrySize : Z := 37.
Definition kDynamicRelaCount : Z := 0x6ffffff9.
Definition kDynamicRelCount : Z := 0x6ffffffa.

(** ** The relocation tags of the dynamic table *)

Record RelocationTableInfo := mkRelocationTableInfo {
  rt_address : DynamicValue;
  rt_size : DynamicValue;
  rt_entry_size : DynamicValue;
  rt_relative_count : DynamicValue
}.

Record DynamicRelocationInfo := mkDynamicRelocationInfo {
  dr_hash : DynamicValue;
  dr_symbol_table : DynamicValue;
  dr_symbol_entry_size : DynamicValue;
  dr_rel : RelocationTableInfo;
  dr_rela : RelocationTableInfo
}.

Definition default_table_info : RelocationTableInfo :=
  mkRelocationTableInfo default_dynamic_value default_dynamic_value default_dynamic_value
    default_dynamic_value.

Definition default_relocation_info : DynamicRelocationInfo :=
  mkDynamicRelocationInfo default_dynamic_value default_dynamic_value default_dynamic_value
    default_table_info default_table_info.

(** The four tags of one relocation table; [None] for any other tag. *)
Definition set_table_tag (table : RelocationTableInfo)
    (address_tag size_tag entry_tag count_tag : Z * string)
    (tag value file_offset : Z) : option (parse RelocationTableInfo) :=
  let set dv name := set_dynamic_value dv value (u64_add file_offset 8)
    ("dynamic table contains duplicate " +:+ name) in
  match table with
  | mkRelocationTableInfo address size entry_size relative_count =>
      if tag =? address_tag.1 then
        Some (dv ← set address address_tag.2;
              Ok (mkRelocationTableInfo dv size entry_size relative_count))
      else if tag =? size_tag.1 then
        Some (dv ← set size size_tag.2;
              Ok (mkRelocationTableInfo address dv entry_size relative_count))
      else if tag =? entry_tag.1 then
        Some (dv ← set entry_size entry_tag.2;
              Ok (mkRelocationTableInfo address size dv relative_count))
      else if tag =? count_tag.1 then
        Some (dv ← set relative_count count_tag.2;
              Ok (mkRelocationTableInfo address size entry_size dv))
      else None
  end.

Definition set_rel_tag (table : RelocationTableInfo) : Z -> Z -> Z ->
    option (parse RelocationTableInfo) :=
  set_table_tag table (kDynamicRel, "DT_REL"%string) (kDynamicRelSize, "DT_RELSZ"%string)
    (kDynamicRelEntrySize, "DT_RELENT"%string) (kDynamicRelCount, "DT_RELCOUNT"%string).

Definition set_rela_tag (table : RelocationTableInfo) : Z -> Z -> Z ->
    option (parse RelocationTableInfo) :=
  set_table_tag table (kDynamicRela, "DT_RELA"%string) (kDynamicRelaSize, "DT_RELASZ"%string)
    (kDynamicRelaEntrySize, "DT_RELAENT"%string) (kDynamicRelaCount, "DT_RELACOUNT"%string).

(** The [switch] on the tag of one entry. *)
Definition set_relocation_tag (info : DynamicRelocationInfo) (tag value file_offset : Z)
  : parse DynamicRelocationInfo :=
  let set dv name := set_dynamic_value dv value (u64_add file_offset 8)
    ("dynamic table contains duplicate " +:+ name) in
  match info with
  | mkDynamicRelocationInfo hash symbol_table symbol_entry_size rel rela =>
      if tag =? kDynamicHash then
        dv ← set hash "DT_HASH"%string;
        Ok (mkDynamicRelocationInfo dv symbol_table symbol_entry_size rel rela)
      else if tag =? kDynamicSymbolTable then
        dv ← set symbol_table "DT_SYMTAB"%string;
        Ok (mkDynamicRelocationInfo hash dv symbol_entry_size rel rela)
      else if tag =? kDynamicSymbolEntrySize then
        dv ← set symbol_entry_size "DT_SYMENT"%string;
        Ok (mkDynamicRelocationInfo hash symbol_table dv rel rela)
      else match set_rel_tag rel tag value file_offset with
      | Some table =>
          rel ← table;
          Ok (mkDynamicRelocationInfo hash symbol_table symbol_entry_size rel rela)
      | None =>
      match set_rela_tag rela tag value file_offset with
      | Some table =>
          rela ← table;
          Ok (mkDynamicRelocationInfo hash symbol_table symbol_entry_size rel rela)
      | None =>
      if (tag =? kDynamicPltRelocationSize) || (tag =? kDynamicPltRelocationType) ||
         (tag =? kDynamicJumpRelocation) then
        failure ParseErrorCode.UnsupportedRelocationFormat file_offset
          "PLT relocations are outside the observed HSACO subset"
      else if (tag =? kDynamicRelr) || (tag =? kDynamicRelrSize) ||
              (tag =? kDynamicRelrEntrySize) then
        failure ParseErrorCode.UnsupportedRelocationFormat file_offset
          "RELR relocations are outside the observed HSACO subset"
      else Ok info
      end
      end
  end.

Fixpoint read_relocation_tags (data : bytes) (dynamic_offset : Z) (remaining : nat)
    (offset : Z) (info : DynamicRelocationInfo) : parse (option DynamicRelocationInfo) :=
  match remaining with
  | O => Ok None
  | S remaining =>
      let file_offset := u64_add dynamic_offset offset in
      tag ← read_i64 data file_offset;
      value ← read_u64 data (file_offset + 8);
      if tag =? 0 then Ok (Some info)
      else
        info ← set_relocation_tag info tag value file_offset;
        read_relocation_tags data dynamic_offset remaining
          (offset + kElf64DynamicEntrySize) info
  end.

Definition read_dynamic_relocation_info (data : bytes) (size : Z)
  : parse DynamicRelocationInfo :=
  found ← find_dynamic_segment data size;
  match found with
  | None => Ok default_relocation_info
  | Some (dynamic_offset, dynamic_size) =>
      entries ← read_relocation_tags data dynamic_offset
        (Z.to_nat (dynamic_size / kElf64DynamicEntrySize)) 0 default_relocation_info;
      match entries with
      | None =>
          failure ParseErrorCode.InvalidDynamicTable dynamic_offset
            "dynamic table has no DT_NULL terminator"
      | Some info => Ok info
      end
  end.

(** ** Relocation tables *)

Definition table_is_present (table : RelocationTableInfo) : bool :=
  dv_present (rt_address table) || dv_present (rt_size table) ||
  dv_present (rt_entry_size table).

Definition validate_relocation_table_info (table : RelocationTableInfo)
    (expected_entry_size : Z) (table_name : string) : parse unit :=
  if negb (table_is_present table) then
    if dv_present (rt_relative_count table) &&
       negb (dv_value (rt_relative_count table) =? 0) then
      failure ParseErrorCode.InvalidRelocationTable (dv_file_offset (rt_relative_count table))
        (table_name +:+ " count is present without a relocation table")
    else Ok ()
  else if negb (dv_present (rt_address table)) || negb (dv_present (rt_size table)) ||
          negb (dv_present (rt_entry_size table)) then
    let offset :=
      if dv_present (rt_address table) then dv_file_offset (rt_address table)
      else if dv_present (rt_size table) then dv_file_offset (rt_size table)
      else dv_file_offset (rt_entry_size table) in
    failure ParseErrorCode.InvalidRelocationTable offset
      (table_name +:+ " requires address, size, and entry-size tags")
  else if negb (dv_value (rt_entry_size table) =? expected_entry_size) then
    failure ParseErrorCode.InvalidRelocationTable (dv_file_offset (rt_entry_size table))
      (table_name +:+ " entry size is not the ELF64 size")
  else if negb (dv_value (rt_size table) mod expected_entry_size =? 0) then
    failure ParseErrorCode.InvalidRelocationTable (dv_file_offset (rt_size table))
      (table_name +:+ " byte size is not a whole number of entries")
  else
    let entry_count := dv_value (rt_size table) / expected_entry_size in
    if dv_present (rt_relative_count table) &&
       (dv_value (rt_relative_count table) >? entry_count) then
      failure ParseErrorCode.InvalidRelocationTable (dv_file_offset (rt_relative_count table))
        (table_name +:+ " relative relocation count exceeds its entry count")
    else Ok ().

Definition validate_disjoint_relocation_tables (rel rela : RelocationTableInfo) : parse unit :=
  if negb (table_is_present rel) || negb (table_is_present rela) ||
     (dv_value (rt_size rel) =? 0) || (dv_value (rt_size rela) =? 0) then Ok ()
  else
    match checked_add (dv_value (rt_address rel)) (dv_value (rt_size rel)),
          checked_add (dv_value (rt_address rela)) (dv_value (rt_size rela)) with
    | Some rel_end, Some rela_end =>
        if (dv_value (rt_address rel) <? rela_end) && (dv_value (rt_address rela) <? rel_end)
        then failure ParseErrorCode.InvalidRelocationTable (dv_file_offset (rt_address rela))
               "DT_REL and DT_RELA tables overlap"
        else Ok ()
    | _, _ =>
        failure ParseErrorCode.InvalidRelocationTable (dv_file_offset (rt_address rela))
          "relocation table virtual range overflows uint64"
    end.

Definition is_known_amdgpu_relocation (type : Z) : bool :=
  bool_decide (type ∈ [0; 1; 2; 3; 4; 5; 6; 7; 8; 9; 10; 11; 13; 14]).

Definition relocation_width (type : Z) : Z :=
  if bool_decide (type = 0) then 0
  else if bool_decide (type = 14) then 2
  else if bool_decide (type ∈ [1; 2; 4; 6; 7; 8; 9; 10; 11]) then 4
  else if bool_decide (type ∈ [3; 5; 13]) then 8
  else 0.

Definition relocation_uses_symbol (type : Z) : bool :=
  negb (type =? 0) && negb (type =? 13).

Record DynamicSymbol := mkDynamicSymbol {
  dsym_value : Z;
  dsym_defined : bool;
  dsym_absolute : bool
}.

Definition read_symbol_count (data : bytes) (load_segments : list LoadSegment)
    (hash : DynamicValue) : parse Z :=
  if negb (dv_present hash) then
    failure ParseErrorCode.InvalidRelocationTable 0
      "relocations require DT_HASH to bound symbol indices"
  else match virtual_address_to_file load_segments (dv_value hash) 8 with
  | None =>
      failure ParseErrorCode.InvalidRelocationTable (dv_file_offset hash)
        "DT_HASH is not backed by a PT_LOAD file range"
  | Some hash_offset =>
      bucket_count ← read_u32 data hash_offset;
      symbol_count ← read_u32 data (u64_add hash_offset 4);
      if bucket_count =? 0 then
        failure ParseErrorCode.InvalidRelocationTable (dv_file_offset hash)
          "DT_HASH has no symbol buckets"
      else
        let word_count := u64_add bucket_count symbol_count in
        if word_count >? (UINT64_MAX - 8) / 4 then
          failure ParseErrorCode.InvalidRelocationTable (dv_file_offset hash)
            "DT_HASH size overflows uint64"
        else
          let hash_size := u64_add 8 (u64_mul word_count 4) in
          match virtual_address_to_file load_segments (dv_value hash) hash_size with
          | None =>
              failure ParseErrorCode.InvalidRelocationTable (dv_file_offset hash)
                "DT_HASH extends outside PT_LOAD file ranges"
          | Some _ => Ok symbol_count
          end
  end.

Fixpoint read_symbol_values (data : bytes) (table_offset : Z) (remaining : nat) (index : Z)
  : parse (list DynamicSymbol) :=
  match remaining with
  | O => Ok []
  | S remaining =>
      let entry := table_offset + index * kElf64SymbolSize in
      section_index ← read_u16 data (entry + kSymbolSectionIndexOffset);
      value ← read_u64 data (entry + kSymbolValueOffset);
      rest ← read_symbol_values data table_offset remaining (index + 1);
      Ok (mkDynamicSymbol value (negb (section_index =? kUndefinedSection))
            (section_index =? kAbsoluteSection) :: rest)
  end.

Definition read_relocation_symbols (data : bytes) (load_segments : list LoadSegment)
    (dynamic : DynamicRelocationInfo) (symbol_count : Z) : parse (list DynamicSymbol) :=
  if negb (dv_present (dr_symbol_table dynamic)) ||
     negb (dv_present (dr_symbol_entry_size dynamic)) ||
     negb (dv_value (dr_symbol_entry_size dynamic) =? kElf64SymbolSize) then
    failure ParseErrorCode.InvalidRelocationTable
      (if dv_present (dr_symbol_table dynamic)
       then dv_file_offset (dr_symbol_entry_size dynamic)
       else dv_file_offset (dr_hash dynamic))
      "relocations require DT_SYMTAB and ELF64 DT_SYMENT"
  else
    let table_size := u64_mul symbol_count kElf64SymbolSize in
    match virtual_address_to_file load_segments (dv_value (dr_symbol_table dynamic))
            table_size with
    | None =>
        failure ParseErrorCode.InvalidRelocationTable (dv_file_offset (dr_symbol_table dynamic))
          "DT_SYMTAB extends outside PT_LOAD file ranges"
    | Some table_offset => read_symbol_values data table_offset (Z.to_nat symbol_count) 0
    end.

(** The body of the loop over one table; [load_segments] is the image the
    addresses are checked against. *)
Definition read_relocation (data : bytes) (load_segments : list LoadSegment)
    (table : RelocationTableInfo) (encoding : RelocationEncoding.t)
    (symbols : list DynamicSymbol) (entry_offset index : Z) : parse Relocation :=
  target_virtual_address ← read_u64 data entry_offset;
  info ← read_u64 data (entry_offset + 8);
  let type := to_u32 (Z.land info 0xffffffff) in
  let symbol_index := to_u32 (Z.shiftr info 32) in
  addend ← (match encoding with
            | RelocationEncoding.Rela => read_i64 data (entry_offset + 16)
            | RelocationEncoding.Rel => Ok 0
            end);
  if negb (is_known_amdgpu_relocation type) then
    failure ParseErrorCode.UnsupportedRelocationType (u64_add entry_offset 8)
      ("relocation uses an unknown AMDGPU type " +:+ pretty type)
  else
  match symbols !! Z.to_nat symbol_index with
  | None =>
      failure ParseErrorCode.RelocationSymbolOutOfBounds (u64_add entry_offset 8)
        "relocation symbol index is outside DT_HASH bounds"
  | Some symbol =>
  if (index <? dv_value (rt_relative_count table)) &&
     (negb (type =? 13) || negb (symbol_index =? 0)) then
    failure ParseErrorCode.InvalidRelocationTable (u64_add entry_offset 8)
      "relative relocation prefix contains a non-relative entry"
  else
  '(symbol_value, symbol_is_absolute) ←
    (if relocation_uses_symbol type then
       if negb (dsym_defined symbol) then
         failure ParseErrorCode.InvalidRelocationTable (u64_add entry_offset 8)
           "relocation references an undefined dynamic symbol"
       else if negb (dsym_absolute symbol) &&
               negb (virtual_address_in_memory load_segments (dsym_value symbol) 1) then
         failure ParseErrorCode.InvalidRelocationTable (u64_add entry_offset 8)
           "relocation symbol is outside PT_LOAD memory ranges"
       else Ok (dsym_value symbol, dsym_absolute symbol)
     else Ok (0, false));
  let width := relocation_width type in
  if negb (width =? 0) &&
     negb (virtual_address_in_memory load_segments target_virtual_address width) then
    failure ParseErrorCode.RelocationTargetOutOfBounds entry_offset
      "relocation target is outside PT_LOAD memory ranges"
  else
  Ok (mkRelocation encoding target_virtual_address type symbol_index addend symbol_value
        symbol_is_absolute)
  end.

Fixpoint read_relocation_entries (data : bytes) (load_segments : list LoadSegment)
    (table : RelocationTableInfo) (encoding : RelocationEncoding.t)
    (symbols : list DynamicSymbol) (table_offset entry_size : Z) (remaining : nat) (index : Z)
  : parse (list Relocation) :=
  match remaining with
  | O => Ok []
  | S remaining =>
      let entry_offset := u64_add table_offset (u64_mul index entry_size) in
      relocation ← read_relocation data load_segments table encoding symbols entry_offset index;
      rest ← read_relocation_entries data load_segments table encoding symbols table_offset
               entry_size remaining (index + 1);
      Ok (relocation :: rest)
  end.

Definition relocation_entry_size (encoding : RelocationEncoding.t) : Z :=
  match encoding with
  | RelocationEncoding.Rela => kElf64RelaSize
  | RelocationEncoding.Rel => kElf64RelSize
  end.

Definition read_relocation_table (data : bytes) (load_segments : list LoadSegment)
    (table : RelocationTableInfo) (encoding : RelocationEncoding.t)
    (symbols : list DynamicSymbol) : parse (list Relocation) :=
  if negb (table_is_present table) || (dv_value (rt_size table) =? 0) then Ok []
  else
    let entry_size := relocation_entry_size encoding in
    match virtual_address_to_file load_segments (dv_value (rt_address table))
            (dv_value (rt_size table)) with
    | None =>
        failure ParseErrorCode.InvalidRelocationTable (dv_file_offset (rt_address table))
          "relocation table is not backed by a PT_LOAD file range"
    | Some table_offset =>
        read_relocation_entries data load_segments table encoding symbols table_offset
          entry_size (Z.to_nat (dv_value (rt_size table) / entry_size)) 0
    end.

Definition relocation_less (lhs rhs : Relocation) : bool :=
  if negb (rel_target_virtual_address lhs =? rel_target_virtual_address rhs)
  then rel_target_virtual_address lhs <? rel_target_virtual_address rhs
  else if negb (RelocationEncoding.index (rel_encoding lhs) =?
                RelocationEncoding.index (rel_encoding rhs))
  then RelocationEncoding.index (rel_encoding lhs) <? RelocationEncoding.index (rel_encoding rhs)
  else if negb (rel_type lhs =? rel_type rhs) then rel_type lhs <? rel_type rhs
  else if negb (rel_symbol_index lhs =? rel_symbol_index rhs)
  then rel_symbol_index lhs <? rel_symbol_index rhs
  else rel_addend lhs <? rel_addend rhs.

(** The relocations of the plan, in the order of application. *)
Definition append_relocations (data : bytes) (size : Z) (load_segments : list LoadSegment)
  : parse (list Relocation) :=
  dynamic ← read_dynamic_relocation_info data size;
  _ ← validate_relocation_table_info (dr_rel dynamic) kElf64RelSize "DT_REL";
  _ ← validate_relocation_table_info (dr_rela dynamic) kElf64RelaSize "DT_RELA";
  _ ← validate_disjoint_relocation_tables (dr_rel dynamic) (dr_rela dynamic);
  let has_relocations :=
    (table_is_present (dr_rel dynamic) && negb (dv_value (rt_size (dr_rel dynamic)) =? 0)) ||
    (table_is_present (dr_rela dynamic) && negb (dv_value (rt_size (dr_rela dynamic)) =? 0)) in
  if negb has_relocations then Ok []
  else
    symbol_count ← read_symbol_count data load_segments (dr_hash dynamic);
    symbols ← read_relocation_symbols data load_segments dynamic symbol_count;
    rel ← read_relocation_table data load_segments (dr_rel dynamic) RelocationEncoding.Rel
            symbols;
    rela ← read_relocation_table data load_segments (dr_rela dynamic) RelocationEncoding.Rela
             symbols;
    Ok (std_sort relocation_less (rel ++ rela)).

Definition amdgpu_relocation_type_name (type : Z) : string :=
  if bool_decide (type = 0) then "R_AMDGPU_NONE"
  else if bool_decide (type = 1) then "R_AMDGPU_ABS32_LO"
  else if bool_decide (type = 2) then "R_AMDGPU_ABS32_HI"
  else if bool_decide (type = 3) then "R_AMDGPU_ABS64"
  else if bool_decide (type = 4) then "R_AMDGPU_REL32"
  else if bool_decide (type = 5) then "R_AMDGPU_REL64"
  else if bool_decide (type = 6) then "R_AMDGPU_ABS32"
  else if bool_decide (type = 7) then "R_AMDGPU_GOTPCREL"
  else if bool_decide (type = 8) then "R_AMDGPU_GOTPCREL32_LO"
  else if bool_decide (type = 9) then "R_AMDGPU_GOTPCREL32_HI"
  else if bool_decide (type = 10) then "R_AMDGPU_REL32_LO"
  else if bool_decide (type = 11) then "R_AMDGPU_REL32_HI"
  else if bool_decide (type = 13) then "R_AMDGPU_RELATIVE64"
  else if bool_decide (type = 14) then "R_AMDGPU_REL16"
  else "R_AMDGPU_UNKNOWN".

(** ** The plan *)

(** The loop over the segments: the plan so far and [image_end]. *)
Definition plan_segment (plan : LoadPlan) (image_end : Z) (segment : LoadSegment)
  : parse (LoadPlan * Z) :=
  if seg_memory_size segment =? 0 then Ok (plan, image_end)
  else
    match checked_add (seg_virtual_address segment) (seg_memory_size segment) with
    | None =>
        failure ParseErrorCode.SegmentVirtualRangeOverflow (seg_virtual_address segment)
          "load-plan segment range overflows uint64"
    | Some segment_end =>
        zero_fills ←
          (if seg_memory_size segment >? seg_file_size segment then
             match checked_add (seg_virtual_address segment) (seg_file_size segment) with
             | None =>
                 failure ParseErrorCode.SegmentVirtualRangeOverflow
                   (seg_virtual_address segment)
                   "load-plan zero-fill address overflows uint64"
             | Some zero_address =>
                 Ok (plan_zero_fills plan ++
                     [mkLoadZeroFill zero_address
                        (seg_memory_size segment - seg_file_size segment)])
             end
           else Ok (plan_zero_fills plan));
        Ok (mkLoadPlan
              (Z.min (plan_image_virtual_address plan) (seg_virtual_address segment))
              (plan_image_size plan)
              (Z.max (plan_alignment plan) (seg_alignment segment))
              (plan_copies plan ++
               (if negb (seg_file_size segment =? 0)
                then [mkLoadCopy (seg_file_offset segment) (seg_virtual_address segment)
                        (seg_file_size segment)]
                else []))
              zero_fills
              (plan_protections plan ++
               [mkLoadProtection (seg_virtual_address segment) (seg_memory_size segment)
                  (seg_flags segment)])
              (plan_relocations plan),
            Z.max image_end segment_end)
    end.

Fixpoint plan_segments (plan : LoadPlan) (image_end : Z) (segments : list LoadSegment)
  : parse (LoadPlan * Z) :=
  match segments with
  | [] => Ok (plan, image_end)
  | segment :: segments =>
      '(plan, image_end) ← plan_segment plan image_end segment;
      plan_segments plan image_end segments
  end.

Definition copy_less (lhs rhs : LoadCopy) : bool :=
  if negb (lc_virtual_address lhs =? lc_virtual_address rhs)
  then lc_virtual_address lhs <? lc_virtual_address rhs
  else lc_file_offset lhs <? lc_file_offset rhs.

Definition zero_fill_less (lhs rhs : LoadZeroFill) : bool :=
  lz_virtual_address lhs <? lz_virtual_address rhs.

Definition protection_less (lhs rhs : LoadProtection) : bool :=
  lp_virtual_address lhs <? lp_virtual_address rhs.

(** The new code object: only [load_plan] changes, and only on success. *)
Definition build_load_plan (data : bytes) (size : Z) (code_object : CodeObject)
  : parse CodeObject :=
  '(plan, image_end) ← plan_segments
    (mkLoadPlan UINT64_MAX 0 1 [] [] [] []) 0 (co_load_segments code_object);
  let '(image_virtual_address, image_size) :=
    if plan_image_virtual_address plan =? UINT64_MAX
    then (0, plan_image_size plan)
    else (plan_image_virtual_address plan,
          u64_sub image_end (plan_image_virtual_address plan)) in
  relocations ← append_relocations data size (co_load_segments code_object);
  Ok (mkCodeObject (co_abi_version code_object) (co_elf_flags code_object)
        (co_target_machine code_object) (co_load_segments code_object)
        (co_has_metadata code_object) (co_metadata_version code_object)
        (co_target_isa code_object) (co_kernels code_object)
        (mkLoadPlan image_virtual_address image_size (plan_alignment plan)
           (std_sort copy_less (plan_copies plan))
           (std_sort zero_fill_less (plan_zero_fills plan))
           (std_sort protection_less (plan_protections plan))
           relocations)).

(** ** Facts: copies, zero fills and protections

    What one segment contributes, and that the loop collects exactly that. *)

Definition segment_copies (s : LoadSegment) : list LoadCopy :=
  if (seg_memory_size s =? 0) || (seg_file_size s =? 0) then []
  else [mkLoadCopy (seg_file_offset s) (seg_virtual_address s) (seg_file_size s)].

Definition segment_zero_fills (s : LoadSegment) : list LoadZeroFill :=
  if seg_memory_size s >? seg_file_size s
  then [mkLoadZeroFill (seg_virtual_address s + seg_file_size s)
          (seg_memory_size s - seg_file_size s)]
  else [].

Definition segment_protections (s : LoadSegment) : list LoadProtection :=
  if seg_memory_size s =? 0 then []
  else [mkLoadProtection (seg_virtual_address s) (seg_memory_size s) (seg_flags s)].

(** The segments that occupy memory, and the end of their range. *)
Definition live (s : LoadSegment) : Prop := seg_memory_size s <> 0.
Definition seg_end (s : LoadSegment) : Z := seg_virtual_address s + seg_memory_size s.

(** The loop from [plan], [image_end] over [segments] gives [plan'],
    [image_end']. *)
Record planned (plan : LoadPlan) (image_end : Z) (segments : list LoadSegment)
    (plan' : LoadPlan) (image_end' : Z) : Prop := {
  pd_copies : plan_copies plan' = plan_copies plan ++ (segments ≫= segment_copies);
  pd_zero_fills :
    plan_zero_fills plan' = plan_zero_fills plan ++ (segments ≫= segment_zero_fills);
  pd_protections :
    plan_protections plan' = plan_protections plan ++ (segments ≫= segment_protections);
  pd_relocations : plan_relocations plan' = plan_relocations plan;
  pd_image_size : plan_image_size plan' = plan_image_size plan;
  pd_start_le : plan_image_virtual_address plan' <= plan_image_virtual_address plan;
  pd_end_ge : image_end <= image_end';
  pd_cover : forall s, s ∈ segments -> live s ->
    plan_image_virtual_address plan' <= seg_virtual_address s /\ seg_end s <= image_end' /\
    seg_alignment s <= plan_alignment plan';
  pd_tight :
    (plan_image_virtual_address plan' = plan_image_virtual_address plan \/
     exists s, s ∈ segments /\ live s /\
       plan_image_virtual_address plan' = seg_virtual_address s) /\
    (image_end' = image_end \/
     exists s, s ∈ segments /\ live s /\ image_end' = seg_end s) /\
    (plan_alignment plan' = plan_alignment plan \/
     exists s, s ∈ segments /\ live s /\ plan_alignment plan' = seg_alignment s);
  pd_alignment_ge : plan_alignment plan <= plan_alignment plan'
}.

Lemma plan_segment_live file_size plan image_end s :
  segment_wf file_size s -> live s ->
  plan_segment plan image_end s =
  Ok (mkLoadPlan (Z.min (plan_image_virtual_address plan) (seg_virtual_address s))
        (plan_image_size plan) (Z.max (plan_alignment plan) (seg_alignment s))
        (plan_copies plan ++ segment_copies s) (plan_zero_fills plan ++ segment_zero_fills s)
        (plan_protections plan ++ segment_protections s) (plan_relocations plan),
      Z.max image_end (seg_end s)).
Proof.
  intros [[] ? ? ? ? _] Hlive. unfold live in Hlive.
  unfold plan_segment, segment_copies, segment_zero_fills, segment_protections.
  rewrite (proj2 (Z.eqb_neq _ _) Hlive), checked_add_ok by lia. cbn [orb].
  destruct (seg_memory_size s >? seg_file_size s); [rewrite checked_add_ok by lia|];
    cbn [mbind result_bind]; rewrite ?app_nil_r; by destruct (seg_file_size s =? 0).
Qed.

Lemma segment_dead file_size s :
  segment_wf file_size s -> ~ live s ->
  segment_copies s = [] /\ segment_zero_fills s = [] /\ segment_protections s = [].
Proof.
  intros [[] ? ? ? ? _] Hs. unfold live, segment_copies, segment_zero_fills,
    segment_protections in *. repeat case_match; done || lia.
Qed.

Lemma live_dec s : live s \/ ~ live s.
Proof. unfold live. lia. Qed.

Lemma plan_segments_planned file_size segments plan image_end :
  Forall (segment_wf file_size) segments ->
  exists plan' image_end', plan_segments plan image_end segments = Ok (plan', image_end') /\
    planned plan image_end segments plan' image_end'.
Proof.
  intros Hs. revert plan image_end. induction Hs as [|s segments Hs _ IH]; intros plan image_end.
  { exists plan, image_end. split; [done|].
    split; simpl; rewrite ?app_nil_r; auto; try lia. by intros ? ?%elem_of_nil. }
  cbn [plan_segments]. destruct (live_dec s) as [Hlive|Hdead].
  - erewrite plan_segment_live by done. cbn [mbind result_bind].
    edestruct IH as (plan' & image_end' & -> & H). eexists _, _. split; [done|].
    destruct H as [Hc Hz Hp Hr Hi Hstart Hend Hcover (Ht1 & Ht2 & Ht3) Hal]. simpl in *.
    split; simpl; rewrite ?app_assoc; try done; try lia.
    + intros s' [->|Hin]%elem_of_cons Hlive'; [lia|auto].
    + setoid_rewrite elem_of_cons. split_and!.
      * destruct Ht1 as [->|(s' & ? & ? & ?)]; [|naive_solver].
        destruct (Z.min_spec (plan_image_virtual_address plan) (seg_virtual_address s))
          as [[_ ->]|[_ ->]]; naive_solver.
      * destruct Ht2 as [->|(s' & ? & ? & ?)]; [|naive_solver].
        destruct (Z.max_spec image_end (seg_end s)) as [[_ ->]|[_ ->]]; naive_solver.
      * destruct Ht3 as [->|(s' & ? & ? & ?)]; [|naive_solver].
        destruct (Z.max_spec (plan_alignment plan) (seg_alignment s)) as [[_ ->]|[_ ->]]; naive_solver.
  - unfold plan_segment. rewrite (proj2 (Z.eqb_eq _ _)) by (unfold live in Hdead; lia).
    cbn [mbind result_bind]. destruct (IH plan image_end) as (plan' & image_end' & -> & H).
    eexists _, _. split; [done|].
    destruct (segment_dead file_size s Hs Hdead) as (Ec & Ez & Ep).
    destruct H as [Hc Hz Hp Hr Hi Hstart Hend Hcover (Ht1 & Ht2 & Ht3) Hal].
    split; simpl; rewrite ?Ec, ?Ez, ?Ep; try done.
    + intros s' [->|Hin]%elem_of_cons Hlive'; [done|auto].
    + setoid_rewrite elem_of_cons. naive_solver.
Qed.

(** ** Facts: relocations *)

Definition table_values_ok (table : RelocationTableInfo) : Prop :=
  is_u64 (dv_value (rt_address table)) /\ is_u64 (dv_value (rt_size table)) /\
  is_u64 (dv_value (rt_entry_size table)) /\ is_u64 (dv_value (rt_relative_count table)).

Definition relocation_info_ok (info : DynamicRelocationInfo) : Prop :=
  is_u64 (dv_value (dr_hash info)) /\ is_u64 (dv_value (dr_symbol_table info)) /\
  is_u64 (dv_value (dr_symbol_entry_size info)) /\
  table_values_ok (dr_rel info) /\ table_values_ok (dr_rela info).

Lemma default_relocation_info_ok : relocation_info_ok default_relocation_info.
Proof. done. Qed.

Lemma set_table_tag_safe table at_ st et ct tag value file_offset r :
  table_values_ok table -> is_u64 value ->
  set_table_tag table at_ st et ct tag value file_offset = Some r ->
  safe r table_values_ok.
Proof.
  intros Ht Hv. unfold set_table_tag. destruct table.
  repeat case_match; intros; simplify_eq;
    (eapply safe_bind; [apply set_dynamic_value_safe|]; intros dv ->;
     unfold table_values_ok in *; simpl in *; tauto).
Qed.

Lemma set_relocation_tag_safe info tag value file_offset :
  relocation_info_ok info -> is_u64 value ->
  safe (set_relocation_tag info tag value file_offset) relocation_info_ok.
Proof.
  intros Hinfo Hv. unfold set_relocation_tag. destruct info as [hash symtab syment rel rela].
  pose proof Hinfo as (? & ? & ? & ? & ?). simpl in *.
  do 3 (case_match; [eapply safe_bind; [apply set_dynamic_value_safe|]; by intros dv ->|]).
  destruct (set_rel_tag _ _ _ _) as [r|] eqn:Hr.
  { eapply safe_bind; [eapply set_table_tag_safe; [| |exact Hr]; done|]. by intros table Ht. }
  destruct (set_rela_tag _ _ _ _) as [r|] eqn:Hr'.
  { eapply safe_bind; [eapply set_table_tag_safe; [| |exact Hr']; done|]. by intros table Ht. }
  by repeat parse_step.
Qed.

Lemma read_relocation_tags_safe (data : bytes) dynamic_offset remaining offset info :
  is_u64 (size_of data) -> 0 <= dynamic_offset -> 0 <= offset ->
  dynamic_offset + offset + Z.of_nat remaining * kElf64DynamicEntrySize <= size_of data ->
  relocation_info_ok info ->
  safe (read_relocation_tags data dynamic_offset remaining offset info)
    (fun r => match r with Some info' => relocation_info_ok info' | None => True end).
Proof.
  unfold kElf64DynamicEntrySize. intros Hs Hd. revert offset info.
  induction remaining as [|n IH]; intros offset info Ho Hr Hinfo; cbn [read_relocation_tags];
    [done|].
  rewrite u64_add_small by lia. parse_step. parse_step. safe_step; [done|].
  eapply safe_bind; [by apply set_relocation_tag_safe|]. intros info' Hinfo'.
  unfold kElf64DynamicEntrySize. apply IH; [lia..|done].
Qed.

Lemma read_dynamic_relocation_info_safe (data : bytes) table_offset (count : nat) :
  elf_table data table_offset count ->
  safe (read_dynamic_relocation_info data (size_of data)) relocation_info_ok.
Proof.
  intros Ht. unfold read_dynamic_relocation_info.
  eapply safe_bind; [by eapply find_dynamic_segment_safe|].
  intros [[offset len]|] Hrange; [|done]. destruct Hrange as (? & ? & ? & ?).
  eapply safe_bind.
  { apply read_relocation_tags_safe; [apply Ht|lia..| |done].
    unfold kElf64DynamicEntrySize in *. zlia. }
  intros [info|] Hinfo; [done|fails].
Qed.

(** A table that passed its checks and is to be read. *)
Definition table_ready (table : RelocationTableInfo) (entry_size : Z) : Prop :=
  table_is_present table = true -> dv_value (rt_size table) mod entry_size = 0.

Lemma validate_relocation_table_info_safe table entry_size name :
  safe (validate_relocation_table_info table entry_size name)
    (fun _ => table_ready table entry_size).
Proof.
  unfold validate_relocation_table_info, table_ready.
  destruct (table_is_present table); cbn [negb]; repeat parse_step; done || (intros _; lia).
Qed.

Lemma validate_disjoint_relocation_tables_safe rel rela :
  safe (validate_disjoint_relocation_tables rel rela) (fun _ => True).
Proof. unfold validate_disjoint_relocation_tables. by repeat parse_step. Qed.

Lemma read_symbol_count_safe (data : bytes) segments hash :
  is_u64 (size_of data) -> Forall (segment_wf (size_of data)) segments ->
  is_u64 (dv_value hash) ->
  safe (read_symbol_count data segments hash) (fun count => is_u32 count).
Proof.
  intros Hsize Hseg Hh. unfold read_symbol_count. parse_step; [fails|].
  destruct (virtual_address_to_file _ _ 8) as [off|] eqn:Ho; [|fails].
  apply (virtual_address_to_file_spec (size_of data)) in Ho as (? & ? & _);
    [|done|done|lia|done].
  rewrite u64_add_small by lia. by repeat parse_step.
Qed.

Definition dsym_ok (s : DynamicSymbol) : Prop := is_u64 (dsym_value s).

Lemma read_symbol_values_safe (data : bytes) table_offset (count : nat) remaining index :
  0 <= table_offset -> table_offset + Z.of_nat count * kElf64SymbolSize <= size_of data ->
  0 <= index -> index + Z.of_nat remaining = Z.of_nat count ->
  safe (read_symbol_values data table_offset remaining index)
    (fun l => Forall dsym_ok l /\ length l = remaining).
Proof.
  unfold kElf64SymbolSize. intros Ht Htab. revert index.
  induction remaining as [|n IH]; intros index Hi Hn; cbn [read_symbol_values]; [done|].
  cbv [kSymbolSectionIndexOffset kSymbolValueOffset kElf64SymbolSize]. cbv zeta.
  parse_step. parse_step. eapply safe_bind; [apply IH; lia|]. intros rest [? ?].
  simpl. split; [by constructor|lia].
Qed.

Lemma read_relocation_symbols_safe (data : bytes) segments dynamic symbol_count :
  is_u64 (size_of data) -> Forall (segment_wf (size_of data)) segments ->
  relocation_info_ok dynamic -> is_u32 symbol_count ->
  safe (read_relocation_symbols data segments dynamic symbol_count)
    (fun l => Forall dsym_ok l /\ Z.of_nat (length l) = symbol_count).
Proof.
  intros Hsize Hseg (_ & ? & _) Hc. unfold read_relocation_symbols. parse_step; [fails|].
  cbv zeta. unfold kElf64SymbolSize. rewrite u64_mul_small by lia.
  destruct (virtual_address_to_file _ _ _) as [off|] eqn:Ho; [|fails].
  apply (virtual_address_to_file_spec (size_of data)) in Ho as (? & ? & _);
    [|done|done|lia|done].
  eapply safe_mono.
  { apply (read_symbol_values_safe _ _ (Z.to_nat symbol_count)); unfold kElf64SymbolSize; lia. }
  intros l [? ->]. split; [done|lia].
Qed.

(** What the plan promises of one relocation: its fields are of their C++
    types, the bytes it patches are in one segment, and so is the symbol it
    refers to, unless the symbol is absolute. *)
Record relocation_ok (segments : list LoadSegment) (r : Relocation) : Prop := {
  ro_target_u64 : is_u64 (rel_target_virtual_address r);
  ro_symbol_index : is_u32 (rel_symbol_index r);
  ro_symbol_value : is_u64 (rel_symbol_value r);
  ro_addend : -9223372036854775808 <= rel_addend r < 9223372036854775808;
  ro_rel_addend : rel_encoding r = RelocationEncoding.Rel -> rel_addend r = 0;
  ro_type : is_known_amdgpu_relocation (rel_type r) = true;
  ro_target : relocation_width (rel_type r) <> 0 ->
    exists s, s ∈ segments /\ seg_virtual_address s <= rel_target_virtual_address r /\
      rel_target_virtual_address r + relocation_width (rel_type r) <= seg_end s;
  ro_symbol : relocation_uses_symbol (rel_type r) = true -> rel_symbol_is_absolute r = false ->
    exists s, s ∈ segments /\ seg_virtual_address s <= rel_symbol_value r < seg_end s;
  ro_no_symbol : relocation_uses_symbol (rel_type r) = false -> rel_symbol_value r = 0
}.

Lemma relocation_width_range type : 0 <= relocation_width type <= 8.
Proof. unfold relocation_width. repeat case_match; lia. Qed.

Lemma read_relocation_safe (data : bytes) segments table encoding symbols entry_offset index :
  Forall (segment_wf (size_of data)) segments -> Forall dsym_ok symbols ->
  0 <= entry_offset ->
  entry_offset + relocation_entry_size encoding <= size_of data ->
  safe (read_relocation data segments table encoding symbols entry_offset index)
    (fun r => relocation_ok segments r /\ rel_symbol_index r < Z.of_nat (length symbols)).
Proof.
  intros Hseg Hsym He Hent.
  unfold relocation_entry_size, kElf64RelaSize, kElf64RelSize in Hent.
  assert (entry_offset + 16 <= size_of data) by (destruct encoding; lia).
  unfold read_relocation. do 2 parse_step. cbv zeta.
  set (type := to_u32 (Z.land a0 _)). set (symbol_index := to_u32 (Z.shiftr a0 32)).
  assert (is_u32 symbol_index) by apply to_u32_range.
  eapply (safe_bind _ _ (fun addend =>
    -9223372036854775808 <= addend < 9223372036854775808 /\
    (encoding = RelocationEncoding.Rel -> addend = 0))).
  { destruct encoding; [simpl; lia|].
    eapply safe_mono; [apply read_i64_safe; lia|]. simpl. done. }
  intros addend [Ha Hrel]. parse_step; [fails|].
  destruct (symbols !! _) as [symbol|] eqn:Hs; [|fails].
  pose proof (Forall_lookup_1 _ _ _ _ Hsym Hs) as Hsv. unfold dsym_ok in Hsv.
  apply lookup_lt_Some in Hs. parse_step; [fails|].
  eapply (safe_bind _ _ (fun '(v, absolute) => is_u64 v /\
    (relocation_uses_symbol type = true -> absolute = false ->
     exists s, s ∈ segments /\ seg_virtual_address s <= v < seg_end s) /\
    (relocation_uses_symbol type = false -> v = 0))).
  { destruct (relocation_uses_symbol type); [|simpl; done].
    repeat parse_step. split; [done|split; [|done]]. intros _ Habs. rewrite Habs in Hg2.
    apply negb_false_iff in Hg2.
    apply (virtual_address_in_memory_spec (size_of data)) in Hg2 as (s & ? & ? & ?);
      [|done|lia|done].
    exists s. unfold seg_end. split; [done|lia]. }
  intros [v absolute] (Hv & Habs & Hno). parse_step; [fails|]. simpl.
  split; [|lia]. split; simpl; try done.
  - by apply negb_false_iff in Hg.
  - intros Hw. apply andb_false_iff in Hg1 as [Hg1|Hg1]; [lia|].
    apply negb_false_iff in Hg1.
    apply (virtual_address_in_memory_spec (size_of data)) in Hg1 as (s & ? & ? & ?);
      [|done|apply relocation_width_range|done].
    exists s. unfold seg_end. split; [done|lia].
Qed.

Lemma read_relocation_table_safe (data : bytes) segments table encoding symbols :
  is_u64 (size_of data) -> Forall (segment_wf (size_of data)) segments ->
  Forall dsym_ok symbols -> table_values_ok table ->
  safe (read_relocation_table data segments table encoding symbols)
    (fun l => Forall (fun r => relocation_ok segments r /\
                        rel_symbol_index r < Z.of_nat (length symbols)) l).
Proof.
  intros Hsize Hseg Hsym (? & ? & _). unfold read_relocation_table. parse_step; [constructor|].
  cbv zeta. set (entry_size := relocation_entry_size encoding).
  destruct (virtual_address_to_file _ _ _) as [off|] eqn:Ho; [|fails].
  apply (virtual_address_to_file_spec (size_of data)) in Ho as (? & ? & _);
    [|done|done|lia|done].
  assert (0 < entry_size <= 24) as Hes
    by (destruct encoding; unfold entry_size, relocation_entry_size, kElf64RelaSize, kElf64RelSize; lia).
  set (count := dv_value (rt_size table) / entry_size).
  assert (count * entry_size <= dv_value (rt_size table)).
  { unfold count. rewrite Z.mul_comm. apply Z.mul_div_le. lia. }
  assert (0 <= count) by (apply Z.div_pos; lia).
  assert (forall remaining index, 0 <= index -> index + Z.of_nat remaining <= count ->
    safe (read_relocation_entries data segments table encoding symbols off entry_size
            remaining index)
      (fun l => Forall (fun r => relocation_ok segments r /\
                          rel_symbol_index r < Z.of_nat (length symbols)) l)) as Hloop.
  { induction remaining as [|n IH]; intros index Hi Hn; cbn [read_relocation_entries].
    { constructor. }
    assert (0 <= index * entry_size /\ index * entry_size + entry_size <= count * entry_size)
      by nia.
    rewrite u64_mul_small, u64_add_small by lia. cbv zeta.
    eapply safe_bind; [apply read_relocation_safe; [done|done|lia|]; fold entry_size; lia|].
    intros r Hr. eapply safe_bind; [apply IH; lia|]. intros rest Hrest. by constructor. }
  apply Hloop; lia.
Qed.

#[export] Instance relocation_less_strict_weak : StrictWeak relocation_less.
Proof.
  apply (strict_weak_lex rel_target_virtual_address).
  apply (strict_weak_lex (fun r => RelocationEncoding.index (rel_encoding r))).
  apply (strict_weak_lex rel_type), (strict_weak_lex rel_symbol_index), strict_weak_key.
Qed.

Record relocations_wf (segments : list LoadSegment) (relocations : list Relocation) : Prop := {
  rw_each : Forall (relocation_ok segments) relocations;
  rw_sorted : StronglySorted (not_after relocation_less) relocations
}.

Lemma append_relocations_safe (data : bytes) table_offset (count : nat) segments :
  elf_table data table_offset count -> Forall (segment_wf (size_of data)) segments ->
  safe (append_relocations data (size_of data) segments) (relocations_wf segments).
Proof.
  intros Ht Hseg. pose proof (et_size _ _ _ Ht) as Hsize. unfold append_relocations.
  eapply safe_bind; [by eapply read_dynamic_relocation_info_safe|]. intros dynamic Hdyn.
  pose proof Hdyn as (Hhash & _ & _ & Hrel & Hrela).
  eapply safe_bind; [apply validate_relocation_table_info_safe|]. intros _ _.
  eapply safe_bind; [apply validate_relocation_table_info_safe|]. intros _ _.
  eapply safe_bind; [apply validate_disjoint_relocation_tables_safe|]. intros _ _.
  cbv zeta. parse_step; [split; constructor|].
  eapply safe_bind; [by apply read_symbol_count_safe|]. intros n Hn.
  eapply safe_bind; [by apply read_relocation_symbols_safe|]. intros symbols [Hsym _].
  do 2 (eapply safe_bind; [by apply read_relocation_table_safe|]; cbn beta; intros).
  simpl. split; [|apply std_sort_sorted; apply _].
  apply Forall_std_sort, Forall_app_2; (eapply Forall_impl; [eassumption|]); by intros ? [? _].
Qed.

(** ** Facts: the plan *)

#[export] Instance copy_less_strict_weak : StrictWeak copy_less.
Proof. apply (strict_weak_lex lc_virtual_address), strict_weak_key. Qed.

#[export] Instance zero_fill_less_strict_weak : StrictWeak zero_fill_less.
Proof. apply strict_weak_key. Qed.

#[export] Instance protection_less_strict_weak : StrictWeak protection_less.
Proof. apply strict_weak_key. Qed.

(** The segments occupy disjoint memory, as [parse_code_object] has checked. *)
Definition segments_apart (segments : list LoadSegment) : Prop :=
  pairwise (fun x y => live x -> live y -> apart seg_virtual_address seg_memory_size x y)
    segments.

(** The contract between the loader and the runtime: the plan consists of
    exactly the copies, zero fills and protections of the segments, each list
    in address order and without overlap, inside an image that is the tight
    cover of the segments; the relocations are sound and sorted. *)
Record plan_wf (segments : list LoadSegment) (plan : LoadPlan) : Prop := {
  pw_copies : plan_copies plan ≡ₚ segments ≫= segment_copies;
  pw_copies_ordered : StronglySorted (before lc_virtual_address lc_size) (plan_copies plan);
  pw_zero_fills : plan_zero_fills plan ≡ₚ segments ≫= segment_zero_fills;
  pw_zero_fills_ordered :
    StronglySorted (before lz_virtual_address lz_size) (plan_zero_fills plan);
  pw_protections : plan_protections plan ≡ₚ segments ≫= segment_protections;
  pw_protections_ordered :
    StronglySorted (before lp_virtual_address lp_size) (plan_protections plan);
  pw_relocations : relocations_wf segments (plan_relocations plan);
  pw_image : 0 <= plan_image_virtual_address plan /\ 0 <= plan_image_size plan /\
    plan_image_virtual_address plan + plan_image_size plan < U64_MOD;
  pw_cover : forall s, s ∈ segments -> live s ->
    plan_image_virtual_address plan <= seg_virtual_address s /\
    seg_end s <= plan_image_virtual_address plan + plan_image_size plan;
  pw_tight : plan_image_size plan <> 0 ->
    (exists s, s ∈ segments /\ live s /\
       seg_virtual_address s = plan_image_virtual_address plan) /\
    (exists s, s ∈ segments /\ live s /\
       seg_end s = plan_image_virtual_address plan + plan_image_size plan);
  pw_empty : plan_image_size plan = 0 <-> Forall (fun s => ~ live s) segments;
  pw_alignment : exists k, 0 <= k /\ plan_alignment plan = 2 ^ k;
  pw_alignment_u64 : is_u64 (plan_alignment plan)
}.

Section plan_lists.
Context (file_size : Z) (segments : list LoadSegment).
Context (Hwf : Forall (segment_wf file_size) segments) (Hapart : segments_apart segments).

(** A list-valued contribution whose ranges stay inside the segment is in
    order after a sort by address. *)
Lemma contribution_ordered {A} (f : LoadSegment -> list A) (start size : A -> Z)
    (less : A -> A -> bool) `{!StrictWeak less} l :
  l = segments ≫= f ->
  (forall x y, less y x = false -> start x <= start y) ->
  (forall s a, segment_wf file_size s -> a ∈ f s ->
     live s /\ 0 < size a /\ seg_virtual_address s <= start a /\ start a + size a <= seg_end s) ->
  (forall s, (length (f s) <= 1)%nat) ->
  StronglySorted (before start size) (std_sort less l).
Proof.
  intros -> Hless Hf Hlen. rewrite Forall_forall in Hwf. apply sort_ordered; [done|done|..].
  - apply Forall_forall. intros a (s & Ha & Hs)%list_elem_of_bind.
    apply (Hf s a); auto.
  - eapply pairwise_bind; [exact Hapart|..].
    + intros s _. specialize (Hlen s). destruct (f s) as [|a [|b l]]; simpl in *; [..|lia];
        repeat constructor.
    + intros s1 s2 a b H1 H2 Hr Ha Hb.
      apply Hf in Ha as (? & ? & ? & ?), Hb as (? & ? & ? & ?); [|by auto..].
      unfold apart, before, seg_end in *. specialize (Hr ltac:(done) ltac:(done)). lia.
Qed.

Lemma segment_copies_in s c :
  segment_wf file_size s -> c ∈ segment_copies s ->
  live s /\ 0 < lc_size c /\ seg_virtual_address s <= lc_virtual_address c /\
  lc_virtual_address c + lc_size c <= seg_end s.
Proof.
  intros [[] ? ? ? ? _]. unfold segment_copies, live, seg_end.
  case_match; [by intros ?%elem_of_nil|]. intros ->%list_elem_of_singleton. simpl. lia.
Qed.

Lemma segment_zero_fills_in s z :
  segment_wf file_size s -> z ∈ segment_zero_fills s ->
  live s /\ 0 < lz_size z /\ seg_virtual_address s <= lz_virtual_address z /\
  lz_virtual_address z + lz_size z <= seg_end s.
Proof.
  intros [[] ? ? ? ? _]. unfold segment_zero_fills, live, seg_end.
  case_match; [|by intros ?%elem_of_nil]. intros ->%list_elem_of_singleton. simpl. lia.
Qed.

Lemma segment_protections_in s p :
  segment_wf file_size s -> p ∈ segment_protections s ->
  live s /\ 0 < lp_size p /\ seg_virtual_address s <= lp_virtual_address p /\
  lp_virtual_address p + lp_size p <= seg_end s.
Proof.
  intros [[] ? ? ? ? _]. unfold segment_protections, live, seg_end.
  case_match; [by intros ?%elem_of_nil|]. intros ->%list_elem_of_singleton. simpl. lia.
Qed.
End plan_lists.

(** The image [build_load_plan] derives from the loop's result. *)
Lemma planned_image file_size segments plan image_end :
  Forall (segment_wf file_size) segments ->
  planned (mkLoadPlan UINT64_MAX 0 1 [] [] [] []) 0 segments plan image_end ->
  let image := if plan_image_virtual_address plan =? UINT64_MAX
    then (0, plan_image_size plan)
    else (plan_image_virtual_address plan,
          u64_sub image_end (plan_image_virtual_address plan)) in
  0 <= image.1 /\ 0 <= image.2 /\ image.1 + image.2 < U64_MOD /\
  (forall s, s ∈ segments -> live s ->
     image.1 <= seg_virtual_address s /\ seg_end s <= image.1 + image.2) /\
  (image.2 <> 0 -> (exists s, s ∈ segments /\ live s /\ seg_virtual_address s = image.1) /\
     (exists s, s ∈ segments /\ live s /\ seg_end s = image.1 + image.2)).
Proof.
  intros Hwf [_ _ _ _ Hsize _ _ Hcover (Htstart & Htend & _) _]. simpl in Hsize, Htstart.
  assert (forall s, s ∈ segments -> live s -> 0 <= seg_virtual_address s /\
    seg_virtual_address s < seg_end s < U64_MOD) as Hrange.
  { intros s Hin Hl. rewrite Forall_forall in Hwf. destruct (Hwf s Hin) as [[] ? ? ? ? _].
    unfold live, seg_end in *. lia. }
  destruct (Z.eqb_spec (plan_image_virtual_address plan) UINT64_MAX) as [E|E].
  - assert (forall s, s ∈ segments -> ~ live s) as Hdead.
    { intros s Hin Hl. pose proof (Hcover s Hin Hl). specialize (Hrange s Hin Hl). lia. }
    rewrite Hsize. simpl. split_and!; [lia..| |done]. intros s Hin Hl. by destruct (Hdead s Hin).
  - destruct Htstart as [?|(s1 & Hin1 & Hl1 & E1)]; [done|].
    pose proof (Hrange s1 Hin1 Hl1). pose proof (Hcover s1 Hin1 Hl1).
    destruct Htend as [->|(s2 & Hin2 & Hl2 & ->)]; [lia|].
    pose proof (Hrange s2 Hin2 Hl2). pose proof (Hcover s2 Hin2 Hl2). simpl.
    rewrite u64_sub_small by lia. split_and!; [lia..| |].
    + intros s Hin Hl. pose proof (Hcover s Hin Hl). lia.
    + intros _. split; [by exists s1|]. exists s2. split_and!; [done..|lia].
Qed.

Lemma build_load_plan_safe (data : bytes) table_offset (count : nat) code_object :
  elf_table data table_offset count ->
  Forall (segment_wf (size_of data)) (co_load_segments code_object) ->
  segments_apart (co_load_segments code_object) ->
  safe (build_load_plan data (size_of data) code_object)
    (fun result => plan_wf (co_load_segments code_object) (co_load_plan result) /\
       result = mkCodeObject (co_abi_version code_object) (co_elf_flags code_object)
        (co_target_machine code_object) (co_load_segments code_object)
        (co_has_metadata code_object) (co_metadata_version code_object)
        (co_target_isa code_object) (co_kernels code_object) (co_load_plan result)).
Proof.
  intros Ht Hwf Hapart. unfold build_load_plan. set (segments := co_load_segments code_object) in *.
  destruct (plan_segments_planned (size_of data) segments
    (mkLoadPlan UINT64_MAX 0 1 [] [] [] []) 0 Hwf) as (plan & image_end & -> & Hp).
  cbn [mbind result_bind]. pose proof (planned_image _ _ _ _ Hwf Hp) as Himage. cbv zeta in Himage.
  destruct Hp as [Hc Hz Hpr _ _ _ _ Hcover (_ & _ & Htal) Hal]. simpl in Hc, Hz, Hpr, Htal, Hal.
  destruct (if plan_image_virtual_address plan =? UINT64_MAX then _ else _)
    as [image_start image_size].
  simpl in Himage. destruct Himage as (Hi1 & Hi2 & Hi3 & Hi4 & Hi5).
  assert (forall s, s ∈ segments -> segment_wf (size_of data) s) as Hs
    by (by apply Forall_forall).
  eapply safe_bind; [by eapply append_relocations_safe|]. intros relocations Hrel.
  simpl. split; [|done]. split; simpl; try done.
  - rewrite std_sort_perm. by rewrite Hc.
  - eapply contribution_ordered; [done|done|apply _|done| |by apply segment_copies_in|].
    + unfold copy_less. intros x y. case_match; lia.
    + intros s. unfold segment_copies. by case_match; simpl; lia.
  - rewrite std_sort_perm. by rewrite Hz.
  - eapply contribution_ordered; [done|done|apply _|done| |by apply segment_zero_fills_in|].
    + unfold zero_fill_less. lia.
    + intros s. unfold segment_zero_fills. by case_match; simpl; lia.
  - rewrite std_sort_perm. by rewrite Hpr.
  - eapply contribution_ordered; [done|done|apply _|done| |by apply segment_protections_in|].
    + unfold protection_less. lia.
    + intros s. unfold segment_protections. by case_match; simpl; lia.
  - split.
    + intros ->. apply Forall_forall. intros s Hin Hl.
      specialize (Hi4 s Hin Hl). destruct (Hs s Hin) as [[] ? ? ? ? _].
      unfold live, seg_end in *. lia.
    + intros Hdead. destruct (Z.eq_dec image_size 0) as [|Hne]; [done|].
      destruct (Hi5 Hne) as [(s & Hin & Hl & _) _]. rewrite Forall_forall in Hdead.
      by destruct (Hdead s Hin).
  - destruct Htal as [->|(s & Hin & Hl & Ea)]; [by exists 0|]. rewrite Ea in *.
    destruct (Hs s Hin) as [? ? ? ? ? Halign]. destruct (Z.eq_dec (seg_alignment s) 1) as [->|];
      [by exists 0|]. apply Halign. lia.
  - destruct Htal as [->|(s & Hin & Hl & ->)]; [lia|]. by destruct (Hs s Hin) as [[] _ _ _ _ _].
Qed.

(** The relocations of an accepted file are of known types, patch words
    inside a segment, name defined symbols inside a segment, carry 64-bit
    addends, and are sorted by target. *)
Theorem relocations_bounded (data : bytes) table_offset (count : nat) segments :
  elf_table data table_offset count -> Forall (segment_wf (size_of data)) segments ->
  safe (append_relocations data (size_of data) segments) (relocations_wf segments).
Proof. apply append_relocations_safe. Qed.

(** The load plan is exactly the plan of the segments: one copy per
    non-empty file range, one zero fill per tail, one protection per segment,
    each list sorted and disjoint, in the smallest image that covers all of
    them. *)
Theorem load_plan_exact (data : bytes) table_offset (count : nat) code_object :
  elf_table data table_offset count ->
  Forall (segment_wf (size_of data)) (co_load_segments code_object) ->
  segments_apart (co_load_segments code_object) ->
  safe (build_load_plan data (size_of data) code_object)
    (fun result => plan_wf (co_load_segments code_object) (co_load_plan result)).
Proof.
  intros H1 H2 H3. eapply safe_mono; [by eapply build_load_plan_safe|]. by intros result [? _].
Qed.
