(* ===== verification/ElfReader.v ===== *)
(** * The loader's entry point

    [parse_code_object] of [loader/elf_reader.cpp]: the checks on the ELF
    header, the PT_LOAD segments and their overlaps, the AMDHSA metadata and
    the load plan, with the partial results an error leaves. *)

From S2P Require Import Prelude Order Memory CodeObject Segments ElfDynamic KernelSymbols LoadPlan.

Definition kElf64HeaderSize : Z := 64.
Definition kEiClass : Z := 4.
Definition kEiData : Z := 5.
Definition kEiVersion : Z := 6.
Definition kEiOsAbi : Z := 7.
Definition kEiAbiVersion : Z := 8.
Definition kElfTypeOffset : Z := 16.
Definition kElfMachineOffset : Z := 18.
Definition kElfVersionOffset : Z := 20.
Definition kElfFlagsOffset : Z := 48.
Definition kElfHeaderSizeOffset : Z := 52.
Definition kElfClass64 : Z := 2.
Definition kElfDataLittleEndian : Z := 1.
Definition kElfCurrentVersion : Z := 1.
Definition kElfTypeDynamic : Z := 3.
Definition kElfMachineAmdgpu : Z := 224.
Definition kExtendedProgramHeaderCount : Z := 0xffff.
Definition kElfMagic : bytes := [x7f; x45; x4c; x46].

(** The header checks, to the position of the program-header table: the code
    object with its header fields, the table's offset, the size of its entries
    and their number. *)
Definition parse_header (data : option bytes) (size : Z)
  : parse (bytes * CodeObject * Z * Z * Z) :=
  if bool_decide (data = None) && negb (size =? 0) then
    failure ParseErrorCode.InvalidArgument 0 "non-empty code object has a null data pointer"
  else if size <? kElf64HeaderSize then
    failure ParseErrorCode.TruncatedElfHeader size "code object is smaller than an ELF64 header"
  else
  let data := default [] data in
  magic ← read_bytes data 0 (size_of kElfMagic);
  if negb (bool_decide (magic = kElfMagic)) then
    failure ParseErrorCode.InvalidElfMagic 0 "code object does not begin with the ELF magic"
  else
  class ← read_u8 data kEiClass;
  if negb (class =? kElfClass64) then
    failure ParseErrorCode.UnsupportedElfClass kEiClass "only ELF64 code objects are supported"
  else
  encoding ← read_u8 data kEiData;
  if negb (encoding =? kElfDataLittleEndian) then
    failure ParseErrorCode.UnsupportedEndianness kEiData
      "only little-endian code objects are supported"
  else
  ident_version ← read_u8 data kEiVersion;
  version ← read_u32 data kElfVersionOffset;
  if negb (ident_version =? kElfCurrentVersion) || negb (version =? kElfCurrentVersion) then
    failure ParseErrorCode.UnsupportedElfVersion kEiVersion
      "ELF identification and header versions must be current"
  else
  os_abi ← read_u8 data kEiOsAbi;
  if negb (os_abi =? kAmdgpuHsaOsAbi) then
    failure ParseErrorCode.UnsupportedOsAbi kEiOsAbi
      "code object does not use the AMDGPU-HSA OS ABI"
  else
  abi_version ← read_u8 data kEiAbiVersion;
  if (abi_version <? kMinimumSupportedAmdgpuHsaAbiVersion) ||
     (abi_version >? kMaximumSupportedAmdgpuHsaAbiVersion) then
    failure ParseErrorCode.UnsupportedAbiVersion kEiAbiVersion
      "only the observed AMDGPU-HSA ABI versions 3 and 4 are supported"
  else
  type ← read_u16 data kElfTypeOffset;
  if negb (type =? kElfTypeDynamic) then
    failure ParseErrorCode.UnsupportedObjectType kElfTypeOffset
      "AMDHSA code object must be an ELF shared object"
  else
  machine ← read_u16 data kElfMachineOffset;
  if negb (machine =? kElfMachineAmdgpu) then
    failure ParseErrorCode.UnsupportedMachine kElfMachineOffset "ELF machine is not EM_AMDGPU"
  else
  header_size ← read_u16 data kElfHeaderSizeOffset;
  if negb (header_size =? kElf64HeaderSize) then
    failure ParseErrorCode.InvalidElfHeaderSize kElfHeaderSizeOffset
      "ELF header size is not the ELF64 header size"
  else
  elf_flags ← read_u32 data kElfFlagsOffset;
  let target_machine := Z.land elf_flags kAmdgpuTargetMachineMask in
  if negb (target_machine =? kAmdgpuMachineGfx1101) then
    failure ParseErrorCode.UnsupportedTarget kElfFlagsOffset
      "initial light-rocr loader supports only gfx1101"
  else
  program_header_count ← read_u16 data kElfProgramHeaderCountOffset;
  if program_header_count =? 0 then
    failure ParseErrorCode.MissingProgramHeaders kElfProgramHeaderCountOffset
      "ELF code object has no program headers"
  else if program_header_count =? kExtendedProgramHeaderCount then
    failure ParseErrorCode.UnsupportedExtendedProgramHeaderCount kElfProgramHeaderCountOffset
      "extended ELF program-header counts are not supported"
  else
  program_header_entry_size ← read_u16 data kElfProgramHeaderEntrySizeOffset;
  if negb (program_header_entry_size =? kElf64ProgramHeaderSize) then
    failure ParseErrorCode.InvalidProgramHeaderEntrySize kElfProgramHeaderEntrySizeOffset
      "ELF program-header entry size is not the ELF64 size"
  else
  program_header_offset ← read_u64 data kElfProgramHeaderOffset;
  let program_header_table_size := u64_mul program_header_count kElf64ProgramHeaderSize in
  if negb (range_is_in_file program_header_offset program_header_table_size size) then
    failure ParseErrorCode.ProgramHeaderTableOutOfBounds kElfProgramHeaderOffset
      "ELF program-header table is outside the code object"
  else
  Ok (data,
      mkCodeObject abi_version elf_flags target_machine
        (co_load_segments default_code_object) (co_has_metadata default_code_object)
        (co_metadata_version default_code_object) (co_target_isa default_code_object)
        (co_kernels default_code_object) (co_load_plan default_code_object),
      program_header_offset, program_header_entry_size, program_header_count).

Definition set_load_segments (code_object : CodeObject) (segments : list LoadSegment)
  : CodeObject :=
  mkCodeObject (co_abi_version code_object) (co_elf_flags code_object)
    (co_target_machine code_object) segments (co_has_metadata code_object)
    (co_metadata_version code_object) (co_target_isa code_object) (co_kernels code_object)
    (co_load_plan code_object).

(** The part that returns [failure(...)], with an empty code object. *)
Definition parse_segments (data : option bytes) (size : Z) : parse (bytes * CodeObject) :=
  '(data, code_object, program_header_offset, program_header_entry_size,
    program_header_count) ← parse_header data size;
  parsed_load_segments ← read_load_segments data size program_header_offset
    program_header_entry_size (Z.to_nat program_header_count) 0;
  if bool_decide (ps_segment <$> parsed_load_segments = []) then
    failure ParseErrorCode.MissingLoadSegments program_header_offset
      "ELF code object has no PT_LOAD segments"
  else
  match find_overlapping_segment seg_file_offset seg_file_size parsed_load_segments with
  | Some file_overlap =>
      failure ParseErrorCode.OverlappingSegmentFileRanges
        (u64_add (ps_program_header_offset file_overlap) kProgramHeaderFileOffset)
        "PT_LOAD segments have overlapping file ranges"
  | None =>
  match find_overlapping_segment seg_virtual_address seg_memory_size parsed_load_segments with
  | Some virtual_overlap =>
      failure ParseErrorCode.OverlappingSegmentVirtualRanges
        (u64_add (ps_program_header_offset virtual_overlap) kProgramHeaderVirtualAddressOffset)
        "PT_LOAD segments have overlapping virtual ranges"
  | None => Ok (data, set_load_segments code_object (ps_segment <$> parsed_load_segments))
  end
  end.

(** [data] is the pointer, [None] for null; the buffer it points to has [size]
    bytes.  The function always returns a [ParseResult]: the error type of
    this result is empty. *)
Definition parse_code_object (data : option bytes) (size : Z) : result Empty_set ParseResult :=
  match parse_segments data size with
  | Fault f => Fault f
  | Err error => Ok (mkParseResult default_code_object error)
  | Ok (data, code_object) =>
      match decode_amdhsa_metadata data size code_object with
      | Fault f => Fault f
      | Err error => Ok (mkParseResult code_object error)
      | Ok code_object =>
          match build_load_plan data size code_object with
          | Fault f => Fault f
          | Err error => Ok (mkParseResult code_object error)
          | Ok code_object => Ok (mkParseResult code_object no_error)
          end
      end
  end.

(** ** Facts *)

Definition header_ok (data : bytes) (code_object : CodeObject) : Prop :=
  3 <= co_abi_version code_object <= 4 /\
  co_target_machine code_object = kAmdgpuMachineGfx1101 /\
  co_target_machine code_object =
    Z.land (co_elf_flags code_object) kAmdgpuTargetMachineMask /\
  co_has_metadata code_object = false /\ co_kernels code_object = [].

Lemma parse_header_safe (data : bytes) :
  is_u64 (size_of data) ->
  safe (parse_header (Some data) (size_of data))
    (fun '(data', code_object, table_offset, entry_size, count) =>
       data' = data /\ header_ok data code_object /\ entry_size = kElf64ProgramHeaderSize /\
       0 < count /\ elf_table data table_offset (Z.to_nat count)).
Proof.
  intros Hsize. unfold parse_header.
  cbv [kElf64HeaderSize kEiClass kEiData kEiVersion kEiOsAbi kEiAbiVersion kElfTypeOffset
    kElfMachineOffset kElfVersionOffset kElfFlagsOffset kElfHeaderSizeOffset].
  rewrite bool_decide_false by done. cbn [andb default from_option id].
  destruct (Z.ltb_spec (size_of data) 64); [fails|]. cbv zeta.
  change (size_of kElfMagic) with 4.
  parse_step. parse_step; [fails|]. do 2 (parse_step; parse_step; [fails|]).
  do 2 parse_step. parse_step; [fails|]. do 5 (parse_step; parse_step; [fails|]).
  parse_step. cbv zeta. parse_step; [fails|].
  unfold kElfProgramHeaderCountOffset, kElfProgramHeaderEntrySizeOffset, kElfProgramHeaderOffset.
  eapply safe_bind_eq; [apply read_u16_safe; lia|]. intros count Ec Hc.
  parse_step; [fails|]. parse_step; [fails|].
  eapply safe_bind_eq; [apply read_u16_safe; lia|]. intros es Ees Hes. parse_step; [fails|].
  eapply safe_bind_eq; [apply read_u64_safe; lia|]. intros offset Eo Ho. cbv zeta.
  unfold kElf64ProgramHeaderSize in *. rewrite u64_mul_small by lia.
  parse_step; [fails|]. match goal with H : negb (range_is_in_file _ _ _) = false |- _ =>
    apply negb_false_iff, range_is_in_file_spec in H end.
  assert (es = 56) as -> by lia. simpl. split_and!; try done; try lia.
  - unfold header_ok. simpl.
    unfold kMinimumSupportedAmdgpuHsaAbiVersion, kMaximumSupportedAmdgpuHsaAbiVersion in *.
    split_and!; done || lia.
  - split; unfold kElfProgramHeaderOffset, kElfProgramHeaderEntrySizeOffset,
      kElfProgramHeaderCountOffset, kElf64ProgramHeaderSize; rewrite ?Z2Nat.id by lia;
      done || lia.
Qed.

(** The segments of an accepted file. *)
Record segments_wf (file_size : Z) (segments : list LoadSegment) : Prop := {
  gw_nonempty : segments <> [];
  gw_each : Forall (segment_wf file_size) segments;
  gw_file_apart :
    pairwise (fun x y => seg_file_size x <> 0 -> seg_file_size y <> 0 ->
                apart seg_file_offset seg_file_size x y) segments;
  gw_memory_apart : segments_apart segments
}.

Lemma pairwise_fmap {A B} (f : A -> B) (R : B -> B -> Prop) l :
  pairwise (fun x y => R (f x) (f y)) l -> pairwise R (f <$> l).
Proof. induction 1; simpl; constructor; [done|]. by apply Forall_fmap. Qed.

Lemma parse_segments_safe (data : bytes) :
  is_u64 (size_of data) ->
  safe (parse_segments (Some data) (size_of data))
    (fun '(data', code_object) =>
       data' = data /\ header_ok data code_object /\
       segments_wf (size_of data) (co_load_segments code_object) /\
       exists table_offset count, elf_table data table_offset count).
Proof.
  intros Hsize. unfold parse_segments.
  eapply safe_bind; [by apply parse_header_safe|].
  intros [[[[data' code_object] table_offset] entry_size] count] (-> & Hh & -> & Hc & Ht).
  pose proof Ht as [].
  eapply safe_bind; [apply (read_load_segments_safe _ _ (Z.to_nat count)); lia|].
  intros segments Hseg. parse_step; [fails|]. apply bool_decide_eq_false_1 in Hg.
  assert (Forall (range_in_u64 seg_file_offset seg_file_size) segments) as Hfile.
  { eapply Forall_impl; [exact Hseg|]. intros p [[[] ? ? ? ? _] _]. unfold range_in_u64. lia. }
  assert (Forall (range_in_u64 seg_virtual_address seg_memory_size) segments) as Hmem.
  { eapply Forall_impl; [exact Hseg|]. intros p [[[] ? ? ? ? _] _]. unfold range_in_u64. lia. }
  destruct (find_overlapping_segment seg_file_offset _ _) eqn:Hf; [fails|].
  destruct (find_overlapping_segment seg_virtual_address _ _) eqn:Hv; [fails|].
  apply find_overlapping_segment_pairwise in Hf, Hv; [|done..]. simpl.
  split_and!; [done|done| |by eauto]. split.
  - done.
  - apply Forall_fmap. eapply Forall_impl; [exact Hseg|]. by intros p [? _].
  - by apply pairwise_fmap.
  - by apply pairwise_fmap.
Qed.

(** What [parse_code_object] promises of a code object it accepts. *)
Record code_object_wf (file_size : Z) (code_object : CodeObject) : Prop := {
  cw_abi_version : 3 <= co_abi_version code_object <= 4;
  cw_target_machine : co_target_machine code_object = kAmdgpuMachineGfx1101;
  cw_segments : segments_wf file_size (co_load_segments code_object);
  cw_metadata : if co_has_metadata code_object then metadata_wf code_object
                else co_kernels code_object = [];
  cw_plan : plan_wf (co_load_segments code_object) (co_load_plan code_object)
}.

(** Both halves at once: a result is returned, and when it is a success the
    code object is well formed. *)
Lemma parse_code_object_cases (data : bytes) :
  is_u64 (size_of data) ->
  exists result, parse_code_object (Some data) (size_of data) = Ok result /\
    (parse_ok result = true -> code_object_wf (size_of data) (pr_code_object result) /\
       Forall (descriptor_agrees data (co_load_segments (pr_code_object result)))
         (co_kernels (pr_code_object result))).
Proof.
  intros Hsize. unfold parse_code_object, parse_ok.
  pose proof (parse_segments_safe data Hsize) as Hs.
  destruct (parse_segments _ _) as [[data' co1]|e|]; simpl in Hs; [|clear Hsize|done].
  2:{ eexists. split; [done|]. simpl. by intros ?%bool_decide_eq_true. }
  destruct Hs as (-> & (Habi & Hmach & _ & Hhas & Hk) & Hseg & table_offset & count & Ht).
  pose proof (gw_each _ _ Hseg) as Heach.
  pose proof (decode_amdhsa_metadata_safe _ _ _ _ Ht Heach) as Hd.
  destruct (decode_amdhsa_metadata _ _ _) as [co2|e|]; simpl in Hd; [| |done].
  2:{ eexists. split; [done|]. simpl. by intros ?%bool_decide_eq_true. }
  destruct Hd as (Es & Ea & _ & Em & Hmeta). rewrite <-Es in Heach, Hseg.
  pose proof (build_load_plan_safe _ _ _ _ Ht Heach (gw_memory_apart _ _ Hseg)) as Hp.
  destruct (build_load_plan _ _ _) as [co3|e|]; simpl in Hp; [| |done].
  2:{ eexists. split; [done|]. simpl. by intros ?%bool_decide_eq_true. }
  destruct Hp as [Hplan Eq]. eexists. split; [done|]. intros _. cbn [pr_code_object].
  rewrite Eq. split.
  - split; simpl; try done; try congruence.
    destruct Hmeta as [->|[-> [[? ? ? ? ? ?] _]]]; [by rewrite Hhas|]. split; assumption.
  - simpl. destruct Hmeta as [->|[_ [_ Hagree]]]; [|exact Hagree]. rewrite Hk by done. constructor.
Qed.

(** C27: on every byte string the loader returns a result: no read leaves the
    buffer, no loop or recursion runs away. *)
Theorem parse_code_object_total (data : bytes) :
  is_u64 (size_of data) ->
  exists result, parse_code_object (Some data) (size_of data) = Ok result.
Proof.
  intros Hsize. destruct (parse_code_object_cases data Hsize) as (result & ? & _). by exists result.
Qed.

(** C1: an accepted code object is well formed: its segments are in the file
    and pairwise disjoint in file and memory; every kernel has a descriptor in
    a segment's file bytes that holds, field by field, the sizes, the entry
    offset, the registers and the properties of its metadata, with the reserved
    bytes zero, and an entry in executable bytes; and the load plan is exactly
    the ordered plan of the segments. *)
Theorem parse_code_object_wf (data : bytes) result :
  is_u64 (size_of data) ->
  parse_code_object (Some data) (size_of data) = Ok result -> parse_ok result = true ->
  code_object_wf (size_of data) (pr_code_object result) /\
  Forall (descriptor_agrees data (co_load_segments (pr_code_object result))) (co_kernels (pr_code_object result)).
Proof.
  intros Hsize Hp Hok. destruct (parse_code_object_cases data Hsize) as (result' & Hp' & Hwf).
  rewrite Hp in Hp'. simplify_eq. by apply Hwf.
Qed.

(** A null pointer is an error, whatever the size says. *)
Lemma parse_code_object_null size :
  0 <= size ->
  exists error, parse_code_object None size = Ok (mkParseResult default_code_object error) /\
    pe_code error = if size =? 0 then ParseErrorCode.TruncatedElfHeader
                    else ParseErrorCode.InvalidArgument.
Proof.
  intros Hs. unfold parse_code_object, parse_segments, parse_header.
  rewrite bool_decide_true by done. cbn [andb].
  destruct (Z.eqb_spec size 0) as [->|]; eexists; by split.
Qed.
