(* ===== verification/ExecutableImage.v ===== *)
(** * Executable images

    [runtime/executable_image.cpp]: the validation of a load plan, the
    translation of virtual addresses and the materialization of the image in
    a mapped buffer.  The buffer is a byte list; the writes the code performs
    are [write_bytes], which faults outside it. *)

From S2P Require Import Prelude Order Memory CodeObject Segments ElfDynamic KernelSymbols LoadPlan.

Definition kElfExecute : Z := 1.
Definition kKnownProtectionFlags : Z := 7.
Definition kExecutableImagePageSize : Z := 4096.
Definition kAmdhsaKernelDescriptorSize : Z := 64.
Definition kAmdhsaKernelDescriptorAlignment : Z := 64.

Module ExecutableImageError.
Inductive t :=
| None
| InvalidArgument
| EmptyImage
| ImageSizeOverflow
| UnsupportedAlignment
| UnsupportedRelocations
| InvalidCopyOperation
| InvalidZeroFillOperation
| InvalidProtectionOperation
| InvalidKernelDescriptor
| AllocationFailed
| MisalignedAllocation
| InvalidVirtualAddress
| GpuAddressOverflow.

#[global] Instance eq_dec : EqDecision t.
Proof. solve_decision. Defined.
End ExecutableImageError.

Definition executable_image_error_name (error : ExecutableImageError.t) : string :=
  match error with
  | ExecutableImageError.None => "none"
  | ExecutableImageError.InvalidArgument => "invalid_argument"
  | ExecutableImageError.EmptyImage => "empty_image"
  | ExecutableImageError.ImageSizeOverflow => "image_size_overflow"
  | ExecutableImageError.UnsupportedAlignment => "unsupported_alignment"
  | ExecutableImageError.UnsupportedRelocations => "unsupported_relocations"
  | ExecutableImageError.InvalidCopyOperation => "invalid_copy_operation"
  | ExecutableImageError.InvalidZeroFillOperation => "invalid_zero_fill_operation"
  | ExecutableImageError.InvalidProtectionOperation => "invalid_protection_operation"
  | ExecutableImageError.InvalidKernelDescriptor => "invalid_kernel_descriptor"
  | ExecutableImageError.AllocationFailed => "allocation_failed"
  | ExecutableImageError.MisalignedAllocation => "misaligned_allocation"
  | ExecutableImageError.InvalidVirtualAddress => "invalid_virtual_address"
  | ExecutableImageError.GpuAddressOverflow => "gpu_address_overflow"
  end.

Record ExecutableImageStatus := mkImageStatus {
  is_error : ExecutableImageError.t;
  is_message : string
}.

Definition image_ok : ExecutableImageStatus := mkImageStatus ExecutableImageError.None "".

(** [explicit operator bool() const] *)
Definition status_ok (status : ExecutableImageStatus) : bool :=
  bool_decide (is_error status = ExecutableImageError.None).

(** [return failure(error, message);] *)
Definition image_failure (error : ExecutableImageError.t) (message : string)
  : ExecutableImageStatus := mkImageStatus error message.

(** A check, then the rest when it passed: the early returns. *)
Definition and_then (status next : ExecutableImageStatus) : ExecutableImageStatus :=
  if status_ok status then next else status.

Declare Scope image_scope.
Notation "status ;; next" := (and_then status next)
  (at level 100, next at level 200, right associativity) : image_scope.
Local Open Scope image_scope.

(** [if (condition) { return failure; }] *)
Definition when (condition : bool) (failure : ExecutableImageStatus) : ExecutableImageStatus :=
  if condition then failure else image_ok.

(** ** Ranges of the plan *)

Definition image_offset (plan : LoadPlan) (virtual_address size : Z) : option Z :=
  if (size =? 0) || (virtual_address <? plan_image_virtual_address plan) then None
  else
    let candidate := u64_sub virtual_address (plan_image_virtual_address plan) in
    if (candidate >? plan_image_size plan) || (size >? plan_image_size plan - candidate)
    then None else Some candidate.

Section ordered.
Context {Operation : Type} (address size : Operation -> Z).

(** [previous_end] is [Some] once [has_previous] is set. *)
Fixpoint operations_are_ordered_from (previous_end : option Z) (operations : list Operation)
  : bool :=
  match operations with
  | [] => true
  | operation :: operations =>
      if size operation =? 0 then false
      else match checked_add (address operation) (size operation) with
      | None => false
      | Some operation_end =>
          match previous_end with
          | Some previous_end =>
              if address operation <? previous_end then false
              else operations_are_ordered_from (Some operation_end) operations
          | None => operations_are_ordered_from (Some operation_end) operations
          end
      end
  end.

Definition operations_are_ordered (operations : list Operation) : bool :=
  operations_are_ordered_from None operations.
End ordered.

(** The two-index sweep over the copies and the zero fills: the outer
    recursion advances [copy_index], the inner one [zero_fill_index]. *)
Fixpoint ranges_overlap (copies : list LoadCopy) : list LoadZeroFill -> bool :=
  match copies with
  | [] => fun _ => false
  | copy :: copies' =>
      fix sweep (zero_fills : list LoadZeroFill) : bool :=
        match zero_fills with
        | [] => false
        | zero_fill :: zero_fills' =>
            let copy_end := u64_add (lc_virtual_address copy) (lc_size copy) in
            let zero_fill_end := u64_add (lz_virtual_address zero_fill) (lz_size zero_fill) in
            if (lc_virtual_address copy <? zero_fill_end) &&
               (lz_virtual_address zero_fill <? copy_end) then true
            else if copy_end <=? lz_virtual_address zero_fill
            then ranges_overlap copies' zero_fills
            else sweep zero_fills'
        end
  end.

Definition copy_and_zero_fill_ranges_overlap (plan : LoadPlan) : bool :=
  ranges_overlap (plan_copies plan) (plan_zero_fills plan).

Definition range_has_protection (plan : LoadPlan) (address size required_flags : Z) : bool :=
  match std_upper_bound
          (fun candidate operation => candidate <? lp_virtual_address operation)
          (plan_protections plan) address with
  | O => false
  | S index =>
      match plan_protections plan !! index with
      | None => false
      | Some protection =>
          if negb (Z.land (lp_flags protection) required_flags =? required_flags) ||
             (address <? lp_virtual_address protection) then false
          else
            let offset := u64_sub address (lp_virtual_address protection) in
            (offset <=? lp_size protection) && (size <=? lp_size protection - offset)
      end
  end.

Definition range_is_file_backed (plan : LoadPlan) (address size : Z) : bool :=
  match std_upper_bound
          (fun candidate operation => candidate <? lc_virtual_address operation)
          (plan_copies plan) address with
  | O => false
  | S index =>
      match plan_copies plan !! index with
      | None => false
      | Some copy =>
          if address <? lc_virtual_address copy then false
          else
            let offset := u64_sub address (lc_virtual_address copy) in
            (offset <=? lc_size copy) && (size <=? lc_size copy - offset)
      end
  end.

(** [static_cast<uint64_t>(-(offset + 1)) + 1U] is the magnitude of a negative
    [offset], [INT64_MIN] included. *)
Definition image_add_signed_offset (base offset : Z) : option Z :=
  if offset >=? 0 then checked_add base (to_u64 offset)
  else
    let magnitude := u64_add (to_u64 (- (offset + 1))) 1 in
    if base <? magnitude then None else Some (u64_sub base magnitude).

Definition image_relocation_width (type : Z) : Z :=
  if bool_decide (type = 0) then 0
  else if bool_decide (type ∈ [3; 13]) then 8
  else 0.

(** ** Plan validation *)

Fixpoint validate_copies (plan : LoadPlan) (hsaco_size : Z) (copies : list LoadCopy)
  : ExecutableImageStatus :=
  match copies with
  | [] => image_ok
  | copy :: copies =>
      if negb (range_is_in_file (lc_file_offset copy) (lc_size copy) hsaco_size) ||
         negb (bool_decide (is_Some
                 (image_offset plan (lc_virtual_address copy) (lc_size copy)))) then
        image_failure ExecutableImageError.InvalidCopyOperation
          "load-plan copy range is outside the HSACO or image"
      else validate_copies plan hsaco_size copies
  end.

Fixpoint validate_zero_fills (plan : LoadPlan) (zero_fills : list LoadZeroFill)
  : ExecutableImageStatus :=
  match zero_fills with
  | [] => image_ok
  | zero_fill :: zero_fills =>
      match image_offset plan (lz_virtual_address zero_fill) (lz_size zero_fill) with
      | None =>
          image_failure ExecutableImageError.InvalidZeroFillOperation
            "load-plan zero-fill range is outside the image"
      | Some _ => validate_zero_fills plan zero_fills
      end
  end.

(** [previous_end] is [Some] once [has_previous_relocation] is set. *)
Fixpoint validate_relocations (plan : LoadPlan) (previous_end : option Z)
    (relocations : list Relocation) : ExecutableImageStatus :=
  match relocations with
  | [] => image_ok
  | relocation :: relocations =>
      let width := image_relocation_width (rel_type relocation) in
      if negb (rel_type relocation =? 0) && (width =? 0) then
        image_failure ExecutableImageError.UnsupportedRelocations
          "AMDHSA executable images support only NONE, ABS64, and RELATIVE64 dynamic relocations"
      else if (rel_type relocation =? 13) && negb (rel_symbol_index relocation =? 0) then
        image_failure ExecutableImageError.UnsupportedRelocations
          "RELATIVE64 relocation must use STN_UNDEF"
      else if width =? 0 then validate_relocations plan previous_end relocations
      else
        match image_offset plan (rel_target_virtual_address relocation) width,
              checked_add (rel_target_virtual_address relocation) width with
        | Some _, Some relocation_end =>
            if match previous_end with
               | Some previous_end => rel_target_virtual_address relocation <? previous_end
               | None => false
               end
            then image_failure ExecutableImageError.UnsupportedRelocations
                   "relocation targets are invalid, overlapping, or out of order"
            else validate_relocations plan (Some relocation_end) relocations
        | _, _ =>
            image_failure ExecutableImageError.UnsupportedRelocations
              "relocation targets are invalid, overlapping, or out of order"
        end
  end.

Definition protection_ok (plan : LoadPlan) (protection : LoadProtection) : bool :=
  negb (negb (unknown_flags (lp_flags protection) kKnownProtectionFlags =? 0) ||
        negb (bool_decide (is_Some
                (image_offset plan (lp_virtual_address protection) (lp_size protection))))).

Definition kernel_valid (plan : LoadPlan) (kernel : KernelInfo) : bool :=
  match image_offset plan (ki_descriptor_virtual_address kernel)
          kAmdhsaKernelDescriptorSize with
  | None => false
  | Some descriptor_offset =>
      if negb (ki_descriptor_virtual_address kernel mod kAmdhsaKernelDescriptorAlignment =? 0) ||
         negb (descriptor_offset mod kAmdhsaKernelDescriptorAlignment =? 0) ||
         negb (range_is_file_backed plan (ki_descriptor_virtual_address kernel)
                 kAmdhsaKernelDescriptorSize) then false
      else
        match image_add_signed_offset (ki_descriptor_virtual_address kernel)
                (ki_code_entry_byte_offset kernel) with
        | None => false
        | Some expected_code_entry =>
            (expected_code_entry =? ki_code_entry_virtual_address kernel) &&
            range_is_file_backed plan (ki_code_entry_virtual_address kernel) 1 &&
            range_has_protection plan (ki_code_entry_virtual_address kernel) 1 kElfExecute
        end
  end.

(** The checks of [validate_plan] before the assignment of
    [*allocation_size]. *)
Definition validate_image (hsaco : option bytes) (hsaco_size : Z) (plan : LoadPlan)
  : ExecutableImageStatus :=
  when (bool_decide (hsaco = None) && negb (hsaco_size =? 0))
    (image_failure ExecutableImageError.InvalidArgument
       "HSACO data is null but its size is non-zero") ;;
  when (plan_image_size plan =? 0)
    (image_failure ExecutableImageError.EmptyImage "load plan has an empty virtual image") ;;
  when (bool_decide (checked_add (plan_image_virtual_address plan) (plan_image_size plan) = None))
    (image_failure ExecutableImageError.ImageSizeOverflow
       "load-plan virtual image range overflows uint64") ;;
  when (negb (is_power_of_two (plan_alignment plan)) ||
        (plan_alignment plan >? kExecutableImagePageSize) ||
        negb (plan_image_virtual_address plan mod plan_alignment plan =? 0))
    (image_failure ExecutableImageError.UnsupportedAlignment
       "load-plan alignment must be a power of two no larger than 4096 bytes, and the image base must satisfy it") ;;
  when (plan_image_size plan >? UINT64_MAX - (kExecutableImagePageSize - 1))
    (image_failure ExecutableImageError.ImageSizeOverflow
       "page-rounded executable image size overflows uint64").

(** [(image_size + page - 1) & ~(page - 1)] *)
Definition page_rounded_size (plan : LoadPlan) : Z :=
  Z.land (u64_sub (u64_add (plan_image_size plan) kExecutableImagePageSize) 1)
    (UINT64_MAX - (kExecutableImagePageSize - 1)).

(** The checks after it; [size_t] has the width of [uint64_t], so the host
    address space check is the first line. *)
Definition validate_operations (hsaco_size : Z) (code_object : CodeObject)
    (allocation_size : Z) : ExecutableImageStatus :=
  let plan := co_load_plan code_object in
  when (allocation_size >? UINT64_MAX)
    (image_failure ExecutableImageError.ImageSizeOverflow
       "executable image does not fit in the host address space") ;;
  when (negb (operations_are_ordered lc_virtual_address lc_size (plan_copies plan)))
    (image_failure ExecutableImageError.InvalidCopyOperation
       "load-plan copy operations contain empty, overlapping, overflowing, or out-of-order ranges") ;;
  validate_copies plan hsaco_size (plan_copies plan) ;;
  when (negb (operations_are_ordered lz_virtual_address lz_size (plan_zero_fills plan)))
    (image_failure ExecutableImageError.InvalidZeroFillOperation
       "load-plan zero-fill operations contain empty, overlapping, overflowing, or out-of-order ranges") ;;
  validate_zero_fills plan (plan_zero_fills plan) ;;
  validate_relocations plan None (plan_relocations plan) ;;
  when (copy_and_zero_fill_ranges_overlap plan)
    (image_failure ExecutableImageError.InvalidZeroFillOperation
       "load-plan copy and zero-fill ranges overlap") ;;
  when (negb (operations_are_ordered lp_virtual_address lp_size (plan_protections plan)))
    (image_failure ExecutableImageError.InvalidProtectionOperation
       "load-plan protection operations contain empty, overlapping, overflowing, or out-of-order ranges") ;;
  when (negb (forallb (protection_ok plan) (plan_protections plan)))
    (image_failure ExecutableImageError.InvalidProtectionOperation
       "load-plan protection range or flags are invalid") ;;
  when (negb (forallb (fun copy =>
          range_has_protection plan (lc_virtual_address copy) (lc_size copy) 0)
          (plan_copies plan)))
    (image_failure ExecutableImageError.InvalidProtectionOperation
       "load-plan copy range has no matching protection") ;;
  when (negb (forallb (fun zero_fill =>
          range_has_protection plan (lz_virtual_address zero_fill) (lz_size zero_fill) 0)
          (plan_zero_fills plan)))
    (image_failure ExecutableImageError.InvalidProtectionOperation
       "load-plan zero-fill range has no matching protection") ;;
  when (negb (forallb (kernel_valid plan) (co_kernels code_object)))
    (image_failure ExecutableImageError.InvalidKernelDescriptor
       "kernel descriptor or code entry is inconsistent with the load plan").

(** [validate_plan] with its out-parameter: the status and the value of
    [*allocation_size] when it returns. *)
Definition validate_plan (hsaco : option bytes) (hsaco_size : Z) (code_object : CodeObject)
  : ExecutableImageStatus * Z :=
  let status := validate_image hsaco hsaco_size (co_load_plan code_object) in
  if negb (status_ok status) then (status, 0)
  else
    let allocation_size := page_rounded_size (co_load_plan code_object) in
    (validate_operations hsaco_size code_object allocation_size, allocation_size).

Record ExecutableImageRequirementsResult := mkRequirements {
  rq_status : ExecutableImageStatus;
  rq_allocation_size : Z
}.

Definition executable_image_requirements (hsaco : option bytes) (hsaco_size : Z)
    (code_object : CodeObject) : ExecutableImageRequirementsResult :=
  let '(status, allocation_size) := validate_plan hsaco hsaco_size code_object in
  mkRequirements status allocation_size.

(** ** Addresses *)

Record ExecutableAddressResult := mkAddressResult {
  ar_status : ExecutableImageStatus;
  ar_gpu_address : Z
}.

Definition translate_executable_address (plan : LoadPlan)
    (gpu_address virtual_address size alignment : Z) : ExecutableAddressResult :=
  if negb (is_power_of_two alignment) then
    mkAddressResult (image_failure ExecutableImageError.InvalidVirtualAddress
      "requested GPU address alignment is not a power of two") 0
  else match image_offset plan virtual_address size with
  | None =>
      mkAddressResult (image_failure ExecutableImageError.InvalidVirtualAddress
        "virtual-address range is outside the executable image") 0
  | Some offset =>
      match checked_add gpu_address offset with
      | None =>
          mkAddressResult (image_failure ExecutableImageError.GpuAddressOverflow
            "translated GPU address overflows uint64") 0
      | Some translated_address =>
          if negb (translated_address mod alignment =? 0) then
            mkAddressResult (image_failure ExecutableImageError.InvalidVirtualAddress
              "translated GPU address does not satisfy its alignment") 0
          else mkAddressResult image_ok translated_address
      end
  end.

(** ** Image objects *)

Record ResolvedKernel := mkResolvedKernel {
  rk_descriptor_gpu_address : Z;
  rk_code_entry_gpu_address : Z
}.

Record ExecutableImageInfo := mkImageInfo {
  ii_code_object : CodeObject;
  ii_allocation_size : Z;
  ii_gpu_address : Z;
  ii_kernels : list ResolvedKernel;
  ii_valid : bool
}.

Definition default_image_info : ExecutableImageInfo :=
  mkImageInfo default_code_object 0 0 [] false.

(** [void reset()] *)
Definition image_reset (image : ExecutableImageInfo) : ExecutableImageInfo :=
  mkImageInfo default_code_object 0 0 [] false.

(** The move constructor: the new object and what is left of [other]. *)
Definition image_move (other : ExecutableImageInfo)
  : ExecutableImageInfo * ExecutableImageInfo :=
  (mkImageInfo (ii_code_object other) (ii_allocation_size other) (ii_gpu_address other)
     (ii_kernels other) (ii_valid other), image_reset other).

Definition image_translate (image : ExecutableImageInfo)
    (virtual_address size alignment : Z) : ExecutableAddressResult :=
  if negb (ii_valid image) then
    mkAddressResult (image_failure ExecutableImageError.InvalidArgument
      "executable image is not GPU-usable") 0
  else translate_executable_address (co_load_plan (ii_code_object image))
         (ii_gpu_address image) virtual_address size alignment.

(** ** Materialization *)

#[export] Instance image_status_failure : Failure ExecutableImageStatus :=
  fun s => is_error s <> ExecutableImageError.None.

(** [return {failure(error, message), {}};] *)
Definition materialize_failure {A} (error : ExecutableImageError.t) (message : string)
  : result ExecutableImageStatus A := Err (mkImageStatus error message).

(** The loop that only checks: the symbol address of an ABS64 relocation must
    not overflow. *)
Definition relocation_symbol_overflows (load_bias : Z) (relocation : Relocation) : bool :=
  (rel_type relocation =? 3) && negb (rel_symbol_is_absolute relocation) &&
  bool_decide (checked_add load_bias (rel_symbol_value relocation) = None).

Fixpoint resolve_kernels (plan : LoadPlan) (gpu_address : Z) (kernels : list KernelInfo)
  : result ExecutableImageStatus (list ResolvedKernel) :=
  match kernels with
  | [] => Ok []
  | kernel :: kernels =>
      let descriptor := translate_executable_address plan gpu_address
        (ki_descriptor_virtual_address kernel) kAmdhsaKernelDescriptorSize
        kAmdhsaKernelDescriptorAlignment in
      let code_entry := translate_executable_address plan gpu_address
        (ki_code_entry_virtual_address kernel) 1 1 in
      if negb (status_ok (ar_status descriptor)) then Err (ar_status descriptor)
      else if negb (status_ok (ar_status code_entry)) then Err (ar_status code_entry)
      else
        rest ← resolve_kernels plan gpu_address kernels;
        Ok (mkResolvedKernel (ar_gpu_address descriptor) (ar_gpu_address code_entry) :: rest)
  end.

(** Everything before the first write: the allocation size, the load bias and
    the resolved kernels. *)
Definition prepare_image (hsaco : option bytes) (hsaco_size : Z) (code_object : CodeObject)
    (destination : option bytes) (destination_size gpu_address : Z)
  : result ExecutableImageStatus (Z * Z * list ResolvedKernel) :=
  let plan := co_load_plan code_object in
  let requirements := executable_image_requirements hsaco hsaco_size code_object in
  if negb (status_ok (rq_status requirements)) then Err (rq_status requirements)
  else if bool_decide (destination = None) ||
          (destination_size <? rq_allocation_size requirements) then
    materialize_failure ExecutableImageError.InvalidArgument
      "executable image destination is null or too small"
  else if negb (gpu_address mod kExecutableImagePageSize =? 0) ||
          negb (gpu_address mod plan_alignment plan =?
                plan_image_virtual_address plan mod plan_alignment plan) then
    materialize_failure ExecutableImageError.MisalignedAllocation
      "executable mapping does not satisfy the load-plan alignment"
  else if bool_decide (checked_add gpu_address (rq_allocation_size requirements) = None) then
    materialize_failure ExecutableImageError.GpuAddressOverflow
      "executable GPU-address range overflows uint64"
  else if gpu_address <? plan_image_virtual_address plan then
    materialize_failure ExecutableImageError.GpuAddressOverflow
      "executable GPU address is below its ELF image base"
  else
    let load_bias := u64_sub gpu_address (plan_image_virtual_address plan) in
    if existsb (relocation_symbol_overflows load_bias) (plan_relocations plan) then
      materialize_failure ExecutableImageError.GpuAddressOverflow
        "relocation symbol address overflows uint64"
    else
      kernels ← resolve_kernels plan gpu_address (co_kernels code_object);
      Ok (rq_allocation_size requirements, load_bias, kernels).

(** The three loops that write the image; [base] is the image's virtual
    address. *)
Fixpoint apply_copies (hsaco : bytes) (base : Z) (copies : list LoadCopy) (image : bytes)
  : result Empty_set bytes :=
  match copies with
  | [] => Ok image
  | copy :: copies =>
      source ← read_bytes hsaco (lc_file_offset copy) (lc_size copy);
      image ← write_bytes image (u64_sub (lc_virtual_address copy) base) source;
      apply_copies hsaco base copies image
  end.

Fixpoint apply_zero_fills (base : Z) (zero_fills : list LoadZeroFill) (image : bytes)
  : result Empty_set bytes :=
  match zero_fills with
  | [] => Ok image
  | zero_fill :: zero_fills =>
      image ← write_zeros image (u64_sub (lz_virtual_address zero_fill) base)
                (lz_size zero_fill);
      apply_zero_fills base zero_fills image
  end.

Definition relocation_value (load_bias addend : Z) (relocation : Relocation) : Z :=
  if rel_type relocation =? 13 then u64_add load_bias addend
  else
    let symbol_address :=
      if rel_symbol_is_absolute relocation then rel_symbol_value relocation
      else u64_add load_bias (rel_symbol_value relocation) in
    u64_add symbol_address addend.

Fixpoint apply_relocations (base load_bias : Z) (relocations : list Relocation) (image : bytes)
  : result Empty_set bytes :=
  match relocations with
  | [] => Ok image
  | relocation :: relocations =>
      if rel_type relocation =? 0 then apply_relocations base load_bias relocations image
      else
        let target_offset := u64_sub (rel_target_virtual_address relocation) base in
        addend ← (match rel_encoding relocation with
                  | RelocationEncoding.Rel => read_u64 image target_offset
                  | RelocationEncoding.Rela => Ok (to_u64 (rel_addend relocation))
                  end);
        image ← write_bytes image target_offset
                  (le_bytes 8 (relocation_value load_bias addend relocation));
        apply_relocations base load_bias relocations image
  end.

Definition write_image (hsaco : bytes) (plan : LoadPlan) (allocation_size load_bias : Z)
    (image : bytes) : result Empty_set bytes :=
  let base := plan_image_virtual_address plan in
  image ← write_zeros image 0 allocation_size;
  image ← apply_copies hsaco base (plan_copies plan) image;
  image ← apply_zero_fills base (plan_zero_fills plan) image;
  apply_relocations base load_bias (plan_relocations plan) image.

Record ExecutableImageMaterializationResult := mkMaterialization {
  mr_status : ExecutableImageStatus;
  mr_image : ExecutableImageInfo
}.

(** The result and the destination buffer when the function returns. *)
Definition materialize_executable_image (hsaco : option bytes) (hsaco_size : Z)
    (code_object : CodeObject) (destination : option bytes) (destination_size gpu_address : Z)
  : result Empty_set (ExecutableImageMaterializationResult * option bytes) :=
  match prepare_image hsaco hsaco_size code_object destination destination_size gpu_address with
  | Fault f => Fault f
  | Err status => Ok (mkMaterialization status default_image_info, destination)
  | Ok (allocation_size, load_bias, kernels) =>
      image ← write_image (default [] hsaco) (co_load_plan code_object) allocation_size
                load_bias (default [] destination);
      Ok (mkMaterialization image_ok
            (mkImageInfo code_object allocation_size gpu_address kernels true), Some image)
  end.

(** ** Facts: ranges

    The C++ types of a plan, which the validation relies on. *)

Definition copy_typed (c : LoadCopy) : Prop :=
  is_u64 (lc_file_offset c) /\ is_u64 (lc_virtual_address c) /\ is_u64 (lc_size c).
Definition zero_fill_typed (z : LoadZeroFill) : Prop :=
  is_u64 (lz_virtual_address z) /\ is_u64 (lz_size z).
Definition protection_typed (p : LoadProtection) : Prop :=
  is_u64 (lp_virtual_address p) /\ is_u64 (lp_size p) /\ is_u32 (lp_flags p).
Definition relocation_typed (r : Relocation) : Prop :=
  is_u64 (rel_target_virtual_address r) /\ is_u64 (rel_symbol_value r).
Definition kernel_typed (k : KernelInfo) : Prop :=
  is_u64 (ki_descriptor_virtual_address k) /\ is_u64 (ki_code_entry_virtual_address k) /\
  -9223372036854775808 <= ki_code_entry_byte_offset k < 9223372036854775808.

Record plan_typed (plan : LoadPlan) : Prop := {
  pt_base : is_u64 (plan_image_virtual_address plan);
  pt_size : is_u64 (plan_image_size plan);
  pt_alignment : is_u64 (plan_alignment plan);
  pt_copies : Forall copy_typed (plan_copies plan);
  pt_zero_fills : Forall zero_fill_typed (plan_zero_fills plan);
  pt_protections : Forall protection_typed (plan_protections plan);
  pt_relocations : Forall relocation_typed (plan_relocations plan)
}.

(** The range [virtual_address, virtual_address + size) is in the image. *)
Definition in_image (plan : LoadPlan) (virtual_address size : Z) : Prop :=
  0 < size /\ plan_image_virtual_address plan <= virtual_address /\
  virtual_address + size <= plan_image_virtual_address plan + plan_image_size plan.

Lemma image_offset_spec plan virtual_address size offset :
  is_u64 (plan_image_virtual_address plan) -> is_u64 virtual_address -> 0 <= size ->
  image_offset plan virtual_address size = Some offset <->
  in_image plan virtual_address size /\
  offset = virtual_address - plan_image_virtual_address plan.
Proof.
  intros Hb Hv Hs. unfold image_offset, in_image.
  destruct (_ || _) eqn:G; [split; [done|lia]|].
  rewrite u64_sub_small by lia. case_match; [split; [done|lia]|].
  split; [intros [= <-]; lia|]. intros [_ ->]. done.
Qed.

Lemma image_offset_in plan virtual_address size :
  is_u64 (plan_image_virtual_address plan) -> is_u64 virtual_address ->
  in_image plan virtual_address size ->
  image_offset plan virtual_address size =
    Some (virtual_address - plan_image_virtual_address plan).
Proof. intros ? ? Hin. apply image_offset_spec; [done|done| |done]. destruct Hin. lia. Qed.

Section ordered_facts.
Context {Operation : Type} (address size : Operation -> Z).

(** A non-empty range that does not wrap. *)
Definition range_proper (o : Operation) : Prop :=
  0 < size o /\ address o + size o < U64_MOD.

Lemma operations_are_ordered_from_spec operations previous :
  Forall (fun o => is_u64 (address o) /\ is_u64 (size o)) operations ->
  operations_are_ordered_from address size previous operations = true <->
  Forall range_proper operations /\ Sorted (before address size) operations /\
  match previous, operations with
  | Some e, o :: _ => e <= address o
  | _, _ => True
  end.
Proof.
  intros Ht. revert previous. induction Ht as [|o operations [Ha Hs] _ IH]; intros previous; simpl.
  { split; [intros _; split_and!; [constructor..|by destruct previous]|done]. }
  destruct (Z.eqb_spec (size o) 0).
  { split; [done|]. intros ([[? _] _]%Forall_cons & _). lia. }
  destruct (checked_add (address o) (size o)) as [e|] eqn:He.
  2:{ apply checked_add_None in He. split; [done|].
      intros ([[_ ?] _]%Forall_cons & _). lia. }
  apply checked_add_Some in He as [-> He]; [|done..].
  assert (forall P : Prop, (operations_are_ordered_from address size
    (Some (address o + size o)) operations = true /\ P) <->
    (Forall range_proper (o :: operations) /\ Sorted (before address size) (o :: operations)
     /\ P)) as Hcons.
  { intros P. rewrite IH. split.
    - intros ((Hf & Hs' & Hn) & HP). split_and!; [constructor; [split; lia|done]| |done].
      constructor; [done|]. destruct operations; constructor. unfold before. lia.
    - intros ([_ Hf]%Forall_cons & Hs' & HP). inversion Hs' as [|? ? ? Hd]; subst.
      split_and!; [done..| |done]. destruct operations; [done|]. by inversion Hd. }
  destruct previous as [p|].
  - destruct (Z.ltb_spec (address o) p).
    + split; [done|]. lia.
    + rewrite <-Hcons. tauto.
  - rewrite <-Hcons. tauto.
Qed.

Lemma operations_are_ordered_spec operations :
  Forall (fun o => is_u64 (address o) /\ is_u64 (size o)) operations ->
  operations_are_ordered address size operations = true <->
  Forall range_proper operations /\ StronglySorted (before address size) operations.
Proof.
  intros Ht. unfold operations_are_ordered. rewrite operations_are_ordered_from_spec by done.
  split; [intros (? & ? & _)|intros (? & ?)].
  - split; [done|]. apply ordered_of_adjacent; [|done].
    eapply Forall_impl; [done|]. unfold range_proper. lia.
  - split_and!; [done|by apply StronglySorted_Sorted|done].
Qed.

(** The range found by [upper_bound] is the only one that can contain a
    non-empty range starting at [a]. *)
Lemma upper_bound_covering operations a n :
  Forall range_proper operations -> StronglySorted (before address size) operations ->
  0 < n ->
  forall o, o ∈ operations -> address o <= a -> a + n <= address o + size o ->
  exists index,
    std_upper_bound (fun candidate operation => candidate <? address operation) operations a =
      S index /\ operations !! index = Some o.
Proof.
  intros Hr Hs Hn o [i Hi]%list_elem_of_lookup Ho Ha. rewrite Forall_forall in Hr.
  assert (partitioned (fun o => negb (a <? address o)) operations) as Hp.
  { eapply StronglySorted_impl; [|exact Hs]. intros x y Hx Hy Hb.
    specialize (Hr x Hx). unfold before, range_proper in *. lia. }
  destruct (bisect_partition _ _ Hp) as (Hlen & Hlow & Hhigh). unfold std_upper_bound.
  set (r := bisect _ _ _ _ _) in *. clearbody r.
  destruct (Nat.lt_ge_cases i r) as [Hir|Hir].
  2:{ specialize (Hhigh _ _ Hir Hi). lia. }
  exists i. split; [|done]. destruct (Nat.eq_dec r (S i)) as [|Hne]; [done|exfalso].
  destruct (lookup_lt_is_Some_2 operations (S i)) as [o' Ho']; [lia|].
  assert (before address size o o') as Hb
    by (eapply StronglySorted_lookup; [exact Hs|exact Hi|exact Ho'|lia]).
  specialize (Hlow (S i) o' ltac:(lia) Ho'). unfold before in Hb. lia.
Qed.

Lemma upper_bound_element operations a index :
  Forall range_proper operations -> StronglySorted (before address size) operations ->
  std_upper_bound (fun candidate operation => candidate <? address operation) operations a =
    S index ->
  exists o, operations !! index = Some o /\ address o <= a.
Proof.
  intros Hr Hs. rewrite Forall_forall in Hr.
  assert (partitioned (fun o => negb (a <? address o)) operations) as Hp.
  { eapply StronglySorted_impl; [|exact Hs]. intros x y Hx Hy Hb.
    specialize (Hr x Hx). unfold before, range_proper in *. lia. }
  destruct (bisect_partition _ _ Hp) as (Hlen & Hlow & _). unfold std_upper_bound.
  intros E. rewrite E in *.
  destruct (lookup_lt_is_Some_2 operations index) as [o Ho]; [lia|].
  exists o. split; [done|]. specialize (Hlow index o ltac:(lia) Ho). lia.
Qed.
End ordered_facts.

(** The two-index sweep finds an overlap exactly when there is one. *)
Definition copy_meets_zero_fill (c : LoadCopy) (z : LoadZeroFill) : Prop :=
  lc_virtual_address c < lz_virtual_address z + lz_size z /\
  lz_virtual_address z < lc_virtual_address c + lc_size c.

Lemma ranges_overlap_cons c copies z zero_fills :
  ranges_overlap (c :: copies) (z :: zero_fills) =
  let copy_end := u64_add (lc_virtual_address c) (lc_size c) in
  let zero_fill_end := u64_add (lz_virtual_address z) (lz_size z) in
  if (lc_virtual_address c <? zero_fill_end) && (lz_virtual_address z <? copy_end) then true
  else if copy_end <=? lz_virtual_address z then ranges_overlap copies (z :: zero_fills)
  else ranges_overlap (c :: copies) zero_fills.
Proof. done. Qed.

Lemma ranges_overlap_spec copies zero_fills :
  Forall copy_typed copies -> Forall zero_fill_typed zero_fills ->
  Forall (range_proper lc_virtual_address lc_size) copies ->
  StronglySorted (before lc_virtual_address lc_size) copies ->
  Forall (range_proper lz_virtual_address lz_size) zero_fills ->
  StronglySorted (before lz_virtual_address lz_size) zero_fills ->
  ranges_overlap copies zero_fills = true <->
  exists c z, c ∈ copies /\ z ∈ zero_fills /\ copy_meets_zero_fill c z.
Proof.
  intros Htc Htz Hrc Hsc Hrz Hsz. revert zero_fills Htz Hrz Hsz.
  induction copies as [|c copies IHc]; intros zero_fills Htz Hrz Hsz.
  { split; [done|]. by intros (? & ? & ?%elem_of_nil & _). }
  pose proof Hsc as [Hc Hsc']%StronglySorted_cons.
  pose proof Hrc as [Hpc Hrc']%Forall_cons. pose proof Htc as [Htc0 Htc']%Forall_cons.
  induction zero_fills as [|z zero_fills IHz].
  { split; [done|]. by intros (? & ? & _ & ?%elem_of_nil & _). }
  pose proof Hsz as [Hz Hsz']%StronglySorted_cons.
  pose proof Hrz as [Hpz Hrz']%Forall_cons. pose proof Htz as [Htz0 Htz']%Forall_cons.
  rewrite ranges_overlap_cons. cbv zeta. unfold range_proper, copy_typed, zero_fill_typed in Hpc, Hpz, Htc0, Htz0.
  rewrite !u64_add_small by lia. unfold copy_meets_zero_fill, before in *.
  rewrite Forall_forall in Hc. rewrite Forall_forall in Hz.
  destruct (_ && _) eqn:G.
  { split; [intros _|done]. exists c, z. split_and!; [left|left|lia..]. }
  case_match.
  - rewrite IHc by done. split.
    + intros (c' & z' & ? & ? & ?). exists c', z'. split_and!; [by right|done|lia..].
    + intros (c' & z' & [->|?]%elem_of_cons & Hz' & ? & ?); [|by exists c', z'].
      exfalso. apply elem_of_cons in Hz' as [->|Hz']; [lia|]. specialize (Hz z' Hz'). lia.
  - rewrite IHz by done. split.
    + intros (c' & z' & ? & ? & ?). exists c', z'. split_and!; [done|by right|lia..].
    + intros (c' & z' & Hc' & [->|?]%elem_of_cons & ? & ?); [|by exists c', z'].
      exfalso. apply elem_of_cons in Hc' as [->|Hc']; [lia|]. specialize (Hc c' Hc'). lia.
Qed.

(** The binary search in the protections decides whether one protection
    covers the range with the required flags. *)
Lemma range_has_protection_spec plan a n flags :
  plan_typed plan -> is_u64 a -> 0 < n ->
  Forall (range_proper lp_virtual_address lp_size) (plan_protections plan) ->
  StronglySorted (before lp_virtual_address lp_size) (plan_protections plan) ->
  range_has_protection plan a n flags = true <->
  exists p, p ∈ plan_protections plan /\ Z.land (lp_flags p) flags = flags /\
    lp_virtual_address p <= a /\ a + n <= lp_virtual_address p + lp_size p.
Proof.
  intros [_ _ _ _ _ Ht _] Ha Hn Hr Hs. rewrite Forall_forall in Ht.
  unfold range_has_protection. split.
  - destruct (std_upper_bound _ _ _) as [|index] eqn:E; [done|].
    destruct (upper_bound_element _ _ _ _ _ Hr Hs E) as (p & Hp & Hle). rewrite Hp.
    apply list_elem_of_lookup_2 in Hp. specialize (Ht p Hp). unfold protection_typed in Ht.
    case_match; [done|]. rewrite u64_sub_small by lia. intros. exists p. split; [done|lia].
  - intros (p & Hp & Hf & H1 & H2).
    destruct (upper_bound_covering _ _ _ _ _ Hr Hs Hn p Hp H1 H2) as (index & -> & ->).
    specialize (Ht p Hp). unfold protection_typed in Ht.
    rewrite Hf, Z.eqb_refl. cbn [negb orb]. case_match; [lia|].
    rewrite u64_sub_small by lia. lia.
Qed.

Lemma range_is_file_backed_spec plan a n :
  plan_typed plan -> is_u64 a -> 0 < n ->
  Forall (range_proper lc_virtual_address lc_size) (plan_copies plan) ->
  StronglySorted (before lc_virtual_address lc_size) (plan_copies plan) ->
  range_is_file_backed plan a n = true <->
  exists c, c ∈ plan_copies plan /\
    lc_virtual_address c <= a /\ a + n <= lc_virtual_address c + lc_size c.
Proof.
  intros [_ _ _ Ht _ _ _] Ha Hn Hr Hs. rewrite Forall_forall in Ht.
  unfold range_is_file_backed. split.
  - destruct (std_upper_bound _ _ _) as [|index] eqn:E; [done|].
    destruct (upper_bound_element _ _ _ _ _ Hr Hs E) as (c & Hc & Hle). rewrite Hc.
    apply list_elem_of_lookup_2 in Hc. specialize (Ht c Hc). unfold copy_typed in Ht.
    case_match; [done|]. rewrite u64_sub_small by lia. intros. exists c. split; [done|lia].
  - intros (c & Hc & H1 & H2).
    destruct (upper_bound_covering _ _ _ _ _ Hr Hs Hn c Hc H1 H2) as (index & -> & ->).
    specialize (Ht c Hc). unfold copy_typed in Ht. case_match; [lia|].
    rewrite u64_sub_small by lia. lia.
Qed.

(** Both signed additions of the code base are the same function. *)
Lemma image_add_signed_offset_spec base offset :
  is_u64 base -> -9223372036854775808 <= offset < 9223372036854775808 ->
  image_add_signed_offset base offset = add_signed_offset base offset.
Proof.
  intros Hb Ho. rewrite add_signed_offset_spec by done. unfold image_add_signed_offset.
  case_match.
  - rewrite to_u64_small by lia. unfold checked_add. repeat case_match; try lia; [done|].
    by rewrite u64_add_small by lia.
  - rewrite to_u64_small, u64_add_small by lia. repeat case_match; try lia; [done|].
    rewrite u64_sub_small by lia. f_equal; lia.
Qed.

(** ** Facts: validation *)

Lemma status_ok_and_then s1 s2 : status_ok (s1 ;; s2) = status_ok s1 && status_ok s2.
Proof. unfold and_then. destruct (status_ok s1) eqn:E; [done|by rewrite E]. Qed.

Lemma status_ok_when condition error message :
  error <> ExecutableImageError.None ->
  status_ok (when condition (image_failure error message)) = negb condition.
Proof.
  intros He. unfold when, status_ok. destruct condition; [|done]. simpl.
  by apply bool_decide_eq_false.
Qed.

Lemma status_ok_image_failure error message :
  error <> ExecutableImageError.None -> status_ok (image_failure error message) = false.
Proof. intros. by apply bool_decide_eq_false. Qed.

Lemma validate_copies_spec plan hsaco_size copies :
  is_u64 (plan_image_virtual_address plan) -> Forall copy_typed copies ->
  status_ok (validate_copies plan hsaco_size copies) = true <->
  Forall (fun c => lc_file_offset c + lc_size c <= hsaco_size /\
                   in_image plan (lc_virtual_address c) (lc_size c)) copies.
Proof.
  intros Hb. induction 1 as [|c copies (Hf & Hv & Hs) _ IH]; simpl; [split; [constructor|done]|].
  rewrite Forall_cons, <-IH.
  destruct (image_offset plan (lc_virtual_address c) (lc_size c)) as [o|] eqn:Ho.
  - apply image_offset_spec in Ho as [Hin _]; [|done|done|lia].
    rewrite bool_decide_true by done. unfold range_is_in_file.
    destruct (_ || _) eqn:G.
    + rewrite status_ok_image_failure by done. unfold in_image in Hin. split; [done|lia].
    + split; [|tauto]. intros; split; [|done]. split; [lia|done].
  - rewrite bool_decide_false by (by intros [? ?]). rewrite orb_true_r.
    rewrite status_ok_image_failure by done. split; [done|]. intros [[_ Hin] _].
    by rewrite image_offset_in in Ho.
Qed.

Lemma validate_zero_fills_spec plan zero_fills :
  is_u64 (plan_image_virtual_address plan) -> Forall zero_fill_typed zero_fills ->
  status_ok (validate_zero_fills plan zero_fills) = true <->
  Forall (fun z => in_image plan (lz_virtual_address z) (lz_size z)) zero_fills.
Proof.
  intros Hb. induction 1 as [|z zero_fills (Hv & Hs) _ IH]; simpl; [split; [constructor|done]|].
  rewrite Forall_cons, <-IH.
  destruct (image_offset plan (lz_virtual_address z) (lz_size z)) as [o|] eqn:Ho.
  - apply image_offset_spec in Ho as [Hin _]; [tauto|done|done|lia].
  - rewrite status_ok_image_failure by done. split; [done|]. intros [Hin _].
    by rewrite image_offset_in in Ho.
Qed.

(** A relocation the image supports: its type, and the eight bytes it patches
    are in the image. *)
Definition relocation_supported (plan : LoadPlan) (r : Relocation) : Prop :=
  rel_type r = 0 \/
  (rel_type r = 3 \/ rel_type r = 13 /\ rel_symbol_index r = 0) /\
  in_image plan (rel_target_virtual_address r) 8.

(** The relocations that write, and the order of their targets. *)
Definition patching (relocations : list Relocation) : list Relocation :=
  filter (fun r => rel_type r <> 0) relocations.

Abbreviation target_before := (before rel_target_virtual_address (fun _ => 8)).

Lemma image_relocation_width_cases type :
  image_relocation_width type = if (type =? 3) || (type =? 13) then 8 else 0.
Proof.
  unfold image_relocation_width. repeat case_match; try done; exfalso.
  all: repeat match goal with
    | H : bool_decide _ = true |- _ => apply bool_decide_eq_true in H
    | H : bool_decide _ = false |- _ => apply bool_decide_eq_false in H
    end; rewrite ?elem_of_cons, ?elem_of_nil in *; lia.
Qed.

Lemma validate_relocations_spec plan previous relocations :
  is_u64 (plan_image_virtual_address plan) ->
  plan_image_virtual_address plan + plan_image_size plan < U64_MOD ->
  Forall relocation_typed relocations ->
  status_ok (validate_relocations plan previous relocations) = true <->
  Forall (relocation_supported plan) relocations /\
  Sorted target_before (patching relocations) /\
  match previous, patching relocations with
  | Some e, r :: _ => e <= rel_target_virtual_address r
  | _, _ => True
  end.
Proof.
  intros Hb Hend Ht. revert previous.
  induction Ht as [|r relocations [Hr _] _ IH]; intros previous.
  { split; [intros _; split_and!; [constructor..|by destruct previous]|done]. }
  cbn [validate_relocations]. rewrite image_relocation_width_cases, Forall_cons.
  unfold patching. rewrite filter_cons. fold (patching relocations).
  destruct (Z.eqb_spec (rel_type r) 0) as [E0|E0]; cbn [negb andb].
  { rewrite E0. cbn. rewrite decide_False by lia. rewrite IH.
    assert (relocation_supported plan r) by by left. tauto. }
  rewrite decide_True by done.
  destruct ((rel_type r =? 3) || (rel_type r =? 13)) eqn:E; cbn.
  2:{ rewrite status_ok_image_failure by done. unfold relocation_supported.
      split; [done|]. lia. }
  destruct (_ && _) eqn:E13.
  { rewrite status_ok_image_failure by done. unfold relocation_supported.
    split; [done|]. lia. }
  destruct (image_offset plan (rel_target_virtual_address r) 8) as [o|] eqn:Ho.
  2:{ rewrite status_ok_image_failure by done. split; [done|].
      intros ([[?|[_ Hin]] _] & _); [lia|].
      by rewrite image_offset_in in Ho. }
  apply image_offset_spec in Ho as [Hin _]; [|done|done|lia].
  rewrite checked_add_ok by (unfold in_image in Hin; lia).
  assert (relocation_supported plan r) as Hsup by (right; split; [lia|done]).
  assert (forall P : Prop, (status_ok (validate_relocations plan
      (Some (rel_target_virtual_address r + 8)) relocations) = true /\ P) <->
    (relocation_supported plan r /\ Forall (relocation_supported plan) relocations) /\
    Sorted target_before (r :: patching relocations) /\ P) as Hcons.
  { intros P. rewrite IH. split.
    - intros ((Hf & Hs & Hn) & HP). split_and!; try done. constructor; [done|].
      destruct (patching relocations); constructor. unfold before. lia.
    - intros ([_ Hf] & Hs & HP). inversion Hs as [|? ? ? Hd]; subst.
      split_and!; [done..| |done]. destruct (patching relocations); [done|]. by inversion Hd. }
  destruct previous as [p|]; [destruct (Z.ltb_spec (rel_target_virtual_address r) p)|].
  - rewrite status_ok_image_failure by done. split; [done|]. intros (_ & _ & ?). lia.
  - rewrite <-Hcons. tauto.
  - rewrite <-Hcons. tauto.
Qed.

(** The two-pointer sweep over copies and zero fills finds an overlap
    exactly when some copy meets some zero fill, as comparing all pairs
    would. *)
Theorem two_pointer_overlap_exact plan :
  plan_typed plan ->
  operations_are_ordered lc_virtual_address lc_size (plan_copies plan) = true ->
  operations_are_ordered lz_virtual_address lz_size (plan_zero_fills plan) = true ->
  copy_and_zero_fill_ranges_overlap plan = true <->
  exists c z, c ∈ plan_copies plan /\ z ∈ plan_zero_fills plan /\ copy_meets_zero_fill c z.
Proof.
  intros [_ _ _ Hc Hz _ _] Ho1 Ho2.
  apply operations_are_ordered_spec in Ho1 as [? ?].
  2:{ eapply Forall_impl; [exact Hc|]. unfold copy_typed. intros c. tauto. }
  apply operations_are_ordered_spec in Ho2 as [? ?].
  2:{ eapply Forall_impl; [exact Hz|]. unfold zero_fill_typed. intros z. tauto. }
  by apply ranges_overlap_spec.
Qed.

(** The binary search for the protection of a range finds one exactly when
    some protection of the plan has the flags and contains the range. *)
Theorem protection_search_exact plan a n flags :
  plan_typed plan -> is_u64 a -> 0 < n ->
  operations_are_ordered lp_virtual_address lp_size (plan_protections plan) = true ->
  range_has_protection plan a n flags = true <->
  exists p, p ∈ plan_protections plan /\ Z.land (lp_flags p) flags = flags /\
    lp_virtual_address p <= a /\ a + n <= lp_virtual_address p + lp_size p.
Proof.
  intros Ht Ha Hn Ho. pose proof Ht as [_ _ _ _ _ Hp _].
  apply operations_are_ordered_spec in Ho as [? ?].
  2:{ eapply Forall_impl; [exact Hp|]. unfold protection_typed. intros p. tauto. }
  by apply range_has_protection_spec.
Qed.
