(* ===== verification/ImageValidation.v ===== *)
(** * What the plan validation decides

    [validate_plan] accepts exactly the valid plans: [plan_valid] is the
    declarative description of a plan the runtime can materialize, and the
    allocation it asks for is the page-rounded image. *)

From S2P Require Import Prelude Order Memory CodeObject Segments ElfDynamic KernelSymbols LoadPlan ExecutableImage.

(** A kernel the image can resolve. *)
Record kernel_resolvable (plan : LoadPlan) (k : KernelInfo) : Prop := {
  kr_descriptor : in_image plan (ki_descriptor_virtual_address k) kAmdhsaKernelDescriptorSize;
  kr_aligned :
    ki_descriptor_virtual_address k mod kAmdhsaKernelDescriptorAlignment = 0 /\
    (ki_descriptor_virtual_address k - plan_image_virtual_address plan)
      mod kAmdhsaKernelDescriptorAlignment = 0;
  kr_backed : exists c, c ∈ plan_copies plan /\
    lc_virtual_address c <= ki_descriptor_virtual_address k /\
    ki_descriptor_virtual_address k + kAmdhsaKernelDescriptorSize <=
      lc_virtual_address c + lc_size c;
  kr_entry : ki_code_entry_virtual_address k =
    ki_descriptor_virtual_address k + ki_code_entry_byte_offset k;
  kr_entry_backed : exists c, c ∈ plan_copies plan /\
    lc_virtual_address c <= ki_code_entry_virtual_address k <
      lc_virtual_address c + lc_size c;
  kr_entry_executable : exists p, p ∈ plan_protections plan /\
    Z.land (lp_flags p) kElfExecute = kElfExecute /\
    lp_virtual_address p <= ki_code_entry_virtual_address k <
      lp_virtual_address p + lp_size p
}.

Record plan_valid (hsaco_size : Z) (code_object : CodeObject) (plan : LoadPlan) : Prop := {
  pv_image : 0 < plan_image_size plan;
  pv_image_end : plan_image_virtual_address plan + plan_image_size plan < U64_MOD;
  pv_alignment : is_power_of_two (plan_alignment plan) = true /\
    plan_alignment plan <= kExecutableImagePageSize /\
    plan_image_virtual_address plan mod plan_alignment plan = 0;
  pv_roundable : plan_image_size plan <= UINT64_MAX - (kExecutableImagePageSize - 1);
  pv_copies : Forall (range_proper lc_virtual_address lc_size) (plan_copies plan) /\
    StronglySorted (before lc_virtual_address lc_size) (plan_copies plan);
  pv_copies_in : Forall (fun c => lc_file_offset c + lc_size c <= hsaco_size /\
    in_image plan (lc_virtual_address c) (lc_size c)) (plan_copies plan);
  pv_zero_fills : Forall (range_proper lz_virtual_address lz_size) (plan_zero_fills plan) /\
    StronglySorted (before lz_virtual_address lz_size) (plan_zero_fills plan);
  pv_zero_fills_in : Forall (fun z => in_image plan (lz_virtual_address z) (lz_size z))
    (plan_zero_fills plan);
  pv_relocations : Forall (relocation_supported plan) (plan_relocations plan);
  pv_targets : StronglySorted target_before (patching (plan_relocations plan));
  pv_disjoint : forall c z, c ∈ plan_copies plan -> z ∈ plan_zero_fills plan ->
    ~ copy_meets_zero_fill c z;
  pv_protections : Forall (range_proper lp_virtual_address lp_size) (plan_protections plan) /\
    StronglySorted (before lp_virtual_address lp_size) (plan_protections plan);
  pv_protections_in : Forall (fun p => lp_flags p < 8 /\
    in_image plan (lp_virtual_address p) (lp_size p)) (plan_protections plan);
  pv_copies_protected : Forall (fun c => exists p, p ∈ plan_protections plan /\
    lp_virtual_address p <= lc_virtual_address c /\
    lc_virtual_address c + lc_size c <= lp_virtual_address p + lp_size p) (plan_copies plan);
  pv_zero_fills_protected : Forall (fun z => exists p, p ∈ plan_protections plan /\
    lp_virtual_address p <= lz_virtual_address z /\
    lz_virtual_address z + lz_size z <= lp_virtual_address p + lp_size p)
    (plan_zero_fills plan);
  pv_kernels : Forall (kernel_resolvable plan) (co_kernels code_object)
}.

Lemma page_rounded_size_spec plan :
  0 <= plan_image_size plan <= UINT64_MAX - (kExecutableImagePageSize - 1) ->
  page_rounded_size plan =
    (plan_image_size plan + (kExecutableImagePageSize - 1)) / kExecutableImagePageSize *
    kExecutableImagePageSize.
Proof.
  unfold page_rounded_size, kExecutableImagePageSize. intros H.
  change (UINT64_MAX - (4096 - 1)) with (2 ^ 64 - 2 ^ 12).
  assert (u64_sub (u64_add (plan_image_size plan) 4096) 1 = plan_image_size plan + (4096 - 1)) as ->.
  { unfold u64_sub, u64_add, to_u64. rewrite Zminus_mod_idemp_l, Z.mod_small; lia. }
  rewrite land_high_mask by lia. done.
Qed.

Lemma page_rounded_size_bounds plan :
  0 <= plan_image_size plan <= UINT64_MAX - (kExecutableImagePageSize - 1) ->
  plan_image_size plan <= page_rounded_size plan < plan_image_size plan + 4096 /\
  page_rounded_size plan mod kExecutableImagePageSize = 0 /\ is_u64 (page_rounded_size plan).
Proof.
  intros H. rewrite page_rounded_size_spec by done. unfold kExecutableImagePageSize in *. zlia.
Qed.

Lemma forallb_spec {A} (f : A -> bool) (P : A -> Prop) l :
  Forall (fun x => f x = true <-> P x) l -> forallb f l = true <-> Forall P l.
Proof.
  induction 1 as [|x l Hx _ IH]; simpl; [split; [constructor|done]|].
  by rewrite andb_true_iff, Forall_cons, Hx, IH.
Qed.

Section validation.
Context (hsaco : option bytes) (hsaco_size : Z) (code_object : CodeObject).
Let plan := co_load_plan code_object.
Context (Ht : plan_typed plan) (Hk : Forall kernel_typed (co_kernels code_object)).

Lemma validate_image_spec :
  status_ok (validate_image hsaco hsaco_size plan) = true <->
  (hsaco = None -> hsaco_size = 0) /\ 0 < plan_image_size plan /\
  plan_image_virtual_address plan + plan_image_size plan < U64_MOD /\
  (is_power_of_two (plan_alignment plan) = true /\
   plan_alignment plan <= kExecutableImagePageSize /\
   plan_image_virtual_address plan mod plan_alignment plan = 0) /\
  plan_image_size plan <= UINT64_MAX - (kExecutableImagePageSize - 1).
Proof.
  destruct Ht as [Hb Hs _ _ _ _ _]. unfold validate_image.
  rewrite !status_ok_and_then, !status_ok_when by done.
  rewrite !andb_true_iff, !negb_true_iff, !orb_false_iff, !negb_false_iff, andb_false_iff.
  rewrite bool_decide_eq_false.
  assert (bool_decide (checked_add (plan_image_virtual_address plan) (plan_image_size plan) = None)
    = false <-> plan_image_virtual_address plan + plan_image_size plan < U64_MOD) as ->.
  { rewrite bool_decide_eq_false. unfold checked_add. case_match; split; try done; lia. }
  assert ((hsaco <> None \/ negb (hsaco_size =? 0) = false) <->
    (hsaco = None -> hsaco_size = 0)) as ->.
  { destruct hsaco; [split; [done|by left]|]. split; [intros [?|?]; [done|lia]|].
    intros H. right. specialize (H eq_refl). lia. }
  intuition lia.
Qed.

Lemma protection_ok_spec p :
  protection_typed p ->
  protection_ok plan p = true <->
  lp_flags p < 8 /\ in_image plan (lp_virtual_address p) (lp_size p).
Proof.
  intros (Hv & Hs & Hf). destruct Ht as [Hb _ _ _ _ _ _]. unfold protection_ok.
  rewrite negb_true_iff, orb_false_iff, !negb_false_iff, bool_decide_eq_true.
  change kKnownProtectionFlags with kKnownSegmentFlags.
  assert ((unknown_flags (lp_flags p) kKnownSegmentFlags =? 0) = true <-> lp_flags p < 8) as ->.
  { split; [intros; apply known_segment_flags; [done|lia]|]. intros H8.
    assert (lp_flags p = 0 \/ lp_flags p = 1 \/ lp_flags p = 2 \/ lp_flags p = 3 \/
      lp_flags p = 4 \/ lp_flags p = 5 \/ lp_flags p = 6 \/ lp_flags p = 7) as Hc by lia.
    by destruct_or! Hc; rewrite Hc. }
  split; intros [? H]; (split; [done|]).
  - destruct H as [o Ho]. apply image_offset_spec in Ho as [? _]; [done|done|done|lia].
  - rewrite image_offset_in by done. done.
Qed.

Lemma kernel_valid_spec k :
  kernel_typed k ->
  Forall (range_proper lc_virtual_address lc_size) (plan_copies plan) ->
  StronglySorted (before lc_virtual_address lc_size) (plan_copies plan) ->
  Forall (range_proper lp_virtual_address lp_size) (plan_protections plan) ->
  StronglySorted (before lp_virtual_address lp_size) (plan_protections plan) ->
  kernel_valid plan k = true <-> kernel_resolvable plan k.
Proof.
  intros (Hd & He & Ho) Hrc Hsc Hrp Hsp. pose proof Ht as [Hb _ _ _ _ _ _].
  unfold kernel_valid. split.
  - destruct (image_offset _ _ _) as [o|] eqn:Hoff; [|done].
    apply image_offset_spec in Hoff as [Hin ->];
      [|done|done|unfold kAmdhsaKernelDescriptorSize; lia].
    destruct (_ || _) eqn:G; [done|]. apply orb_false_iff in G as [G Hback].
    apply negb_false_iff in Hback. apply range_is_file_backed_spec in Hback; [|done..].
    rewrite image_add_signed_offset_spec, add_signed_offset_spec by done.
    destruct (_ && _) eqn:Hr; [|done]. rewrite !andb_true_iff. intros [[Heq Hb1] Hp1].
    apply range_is_file_backed_spec in Hb1 as (c & ? & ?); [|done|done|lia|done..].
    apply range_has_protection_spec in Hp1 as (p & ? & ? & ?); [|done|done|lia|done..].
    split; [done|lia|done|lia|exists c; split; [done|lia]|exists p; split_and!; [done..|lia|lia]].
  - intros [Hin Hal Hback Hentry (c & Hc & ?) (p & Hp & ? & ?)].
    rewrite image_offset_in by done. rewrite image_add_signed_offset_spec by done.
    rewrite add_signed_offset_spec by done. destruct (_ || _) eqn:G.
    { apply (range_is_file_backed_spec plan _ kAmdhsaKernelDescriptorSize) in Hback; [|done..].
      rewrite Hback in G. lia. }
    destruct (_ && _) eqn:Hr; [|lia]. rewrite !andb_true_iff. split_and!; [lia|..].
    + apply range_is_file_backed_spec; [done|done|lia|done|done|]. exists c. split; [done|lia].
    + apply range_has_protection_spec; [done|done|lia|done|done|].
      exists p. split_and!; [done..|lia|lia].
Qed.

(** The range is protected, without a requirement on the flags. *)
Lemma range_protected_spec a n :
  is_u64 a -> 0 < n ->
  Forall (range_proper lp_virtual_address lp_size) (plan_protections plan) ->
  StronglySorted (before lp_virtual_address lp_size) (plan_protections plan) ->
  range_has_protection plan a n 0 = true <->
  exists p, p ∈ plan_protections plan /\ lp_virtual_address p <= a /\
    a + n <= lp_virtual_address p + lp_size p.
Proof.
  intros. rewrite range_has_protection_spec by done. setoid_rewrite Z.land_0_r. naive_solver.
Qed.

(** The loops over the whole lists, once the lists are in order. *)
Section checks.
Context (Hrc : Forall (range_proper lc_virtual_address lc_size) (plan_copies plan)).
Context (Hsc : StronglySorted (before lc_virtual_address lc_size) (plan_copies plan)).
Context (Hrz : Forall (range_proper lz_virtual_address lz_size) (plan_zero_fills plan)).
Context (Hsz : StronglySorted (before lz_virtual_address lz_size) (plan_zero_fills plan)).
Context (Hrp : Forall (range_proper lp_virtual_address lp_size) (plan_protections plan)).
Context (Hsp : StronglySorted (before lp_virtual_address lp_size) (plan_protections plan)).

Lemma overlap_check :
  copy_and_zero_fill_ranges_overlap plan = false <->
  forall c z, c ∈ plan_copies plan -> z ∈ plan_zero_fills plan -> ~ copy_meets_zero_fill c z.
Proof.
  destruct Ht as [_ _ _ Htc Htz _ _].
  rewrite <-not_true_iff_false. unfold copy_and_zero_fill_ranges_overlap.
  rewrite ranges_overlap_spec by done. split; [|naive_solver].
  intros H c z Hc Hz Hm. apply H. by exists c, z.
Qed.

Lemma protections_check :
  forallb (protection_ok plan) (plan_protections plan) = true <->
  Forall (fun p => lp_flags p < 8 /\ in_image plan (lp_virtual_address p) (lp_size p))
    (plan_protections plan).
Proof.
  apply forallb_spec. eapply Forall_impl; [apply Ht|]. intros p. apply protection_ok_spec.
Qed.

Lemma copies_check :
  forallb (fun c => range_has_protection plan (lc_virtual_address c) (lc_size c) 0)
    (plan_copies plan) = true <->
  Forall (fun c => exists p, p ∈ plan_protections plan /\
    lp_virtual_address p <= lc_virtual_address c /\
    lc_virtual_address c + lc_size c <= lp_virtual_address p + lp_size p) (plan_copies plan).
Proof.
  apply forallb_spec, Forall_forall. intros c Hc.
  destruct Ht as [_ _ _ Htc _ _ _]. rewrite Forall_forall in Htc.
  destruct (Htc c Hc) as (_ & ? & _). rewrite Forall_forall in Hrc. destruct (Hrc c Hc).
  by apply range_protected_spec.
Qed.

Lemma zero_fills_check :
  forallb (fun z => range_has_protection plan (lz_virtual_address z) (lz_size z) 0)
    (plan_zero_fills plan) = true <->
  Forall (fun z => exists p, p ∈ plan_protections plan /\
    lp_virtual_address p <= lz_virtual_address z /\
    lz_virtual_address z + lz_size z <= lp_virtual_address p + lp_size p)
    (plan_zero_fills plan).
Proof.
  apply forallb_spec, Forall_forall. intros z Hz.
  destruct Ht as [_ _ _ _ Htz _ _]. rewrite Forall_forall in Htz.
  destruct (Htz z Hz) as (? & _). rewrite Forall_forall in Hrz. destruct (Hrz z Hz).
  by apply range_protected_spec.
Qed.

Lemma kernels_check :
  forallb (kernel_valid plan) (co_kernels code_object) = true <->
  Forall (kernel_resolvable plan) (co_kernels code_object).
Proof.
  apply forallb_spec. eapply Forall_impl; [exact Hk|].
  intros k Htk. by apply kernel_valid_spec.
Qed.
End checks.

Lemma validate_operations_spec allocation_size :
  is_u64 allocation_size -> status_ok (validate_image hsaco hsaco_size plan) = true ->
  status_ok (validate_operations hsaco_size code_object allocation_size) = true <->
  plan_valid hsaco_size code_object plan.
Proof.
  intros Ha Hi. apply validate_image_spec in Hi as (_ & H1 & H2 & H3 & H4).
  pose proof Ht as [Hb Hs Hal Htc Htz Htp Htr]. unfold validate_operations. fold plan.
  rewrite !status_ok_and_then, !status_ok_when by done.
  rewrite !andb_true_iff, !negb_true_iff, !negb_false_iff.
  rewrite validate_copies_spec, validate_zero_fills_spec, validate_relocations_spec by done.
  rewrite !operations_are_ordered_spec by
    (eapply Forall_impl; [eassumption|];
     unfold copy_typed, zero_fill_typed, protection_typed; naive_solver).
  assert (Sorted target_before (patching (plan_relocations plan)) <->
    StronglySorted target_before (patching (plan_relocations plan))) as ->.
  { split; [|apply StronglySorted_Sorted]. apply ordered_of_adjacent.
    by apply Forall_forall. }
  split.
  - intros (_ & [? ?] & ? & [? ?] & ? & (? & ? & _) & Hov & [? ?] & Hpr & Hpc & Hpz & Hkv).
    split; try done; by first [apply overlap_check|apply protections_check|apply copies_check|
      apply zero_fills_check|apply kernels_check].
  - intros [_ _ _ _ [? ?] ? [? ?] ? ? ? Hov [? ?] Hpr Hpc Hpz Hkv].
    split_and!; try done; try lia; first [by apply overlap_check|by apply protections_check|
      by apply copies_check|by apply zero_fills_check|by apply kernels_check].
Qed.

(** [validate_plan] accepts exactly the valid plans, and asks for the
    page-rounded image. *)
Lemma validate_plan_accepts :
  status_ok (rq_status (executable_image_requirements hsaco hsaco_size code_object)) = true <->
  (hsaco = None -> hsaco_size = 0) /\ plan_valid hsaco_size code_object plan.
Proof.
  unfold executable_image_requirements, validate_plan. fold plan.
  destruct (status_ok (validate_image hsaco hsaco_size plan)) eqn:Hi; cbn [negb].
  - pose proof Hi as (Hnull & ? & ? & ? & ?)%validate_image_spec.
    cbn [rq_status]. rewrite validate_operations_spec; [tauto| |done].
    apply page_rounded_size_bounds. lia.
  - cbn [rq_status]. rewrite Hi. split; [done|]. intros [Hnull []].
    assert (status_ok (validate_image hsaco hsaco_size plan) = true) as Hc
      by (by apply validate_image_spec). by rewrite Hi in Hc.
Qed.

Lemma validate_plan_size :
  status_ok (rq_status (executable_image_requirements hsaco hsaco_size code_object)) = true ->
  rq_allocation_size (executable_image_requirements hsaco hsaco_size code_object) =
    page_rounded_size plan.
Proof.
  unfold executable_image_requirements, validate_plan. fold plan.
  destruct (status_ok (validate_image hsaco hsaco_size plan)) eqn:Hi; [done|].
  simpl. by rewrite Hi.
Qed.
End validation.

(** C28: [validate_plan] accepts exactly the plans that can be materialized:
    ranges in the image and the file, ordered, disjoint and protected,
    supported relocations with distinct targets, kernels that resolve; and the
    allocation it then asks for is the image size rounded up to pages. *)
Theorem validate_plan_exact hsaco hsaco_size code_object :
  let plan := co_load_plan code_object in
  plan_typed plan -> Forall kernel_typed (co_kernels code_object) ->
  let requirements := executable_image_requirements hsaco hsaco_size code_object in
  (status_ok (rq_status requirements) = true <->
   (hsaco = None -> hsaco_size = 0) /\ plan_valid hsaco_size code_object plan) /\
  (status_ok (rq_status requirements) = true ->
   plan_image_size plan <= rq_allocation_size requirements < plan_image_size plan + 4096 /\
   rq_allocation_size requirements mod kExecutableImagePageSize = 0).
Proof.
  intros plan Ht Hk requirements. split; [by apply validate_plan_accepts|]. intros Hok.
  unfold requirements in *. rewrite validate_plan_size by done.
  apply validate_plan_accepts in Hok as [_ [? _ _ ? _ _ _ _ _ _ _ _ _ _ _ _]]; [|done..].
  pose proof (page_rounded_size_bounds (co_load_plan code_object)). unfold plan. lia.
Qed.
