(* ===== verification/ImageContents.v ===== *)
(** * What materialization writes

    The byte-level contract of [materialize_executable_image]: after a valid
    plan was accepted the writes stay in the destination, and every byte of
    the image is the file's, zero, or part of a relocated word. *)

From S2P Require Import Prelude Order Memory CodeObject Segments ElfDynamic KernelSymbols LoadPlan ExecutableImage ImageValidation.

Section contents.
Context (hsaco : bytes) (base : Z).

Definition copy_offset (c : LoadCopy) : Z := lc_virtual_address c - base.
Definition zero_fill_offset (z : LoadZeroFill) : Z := lz_virtual_address z - base.
Definition target_offset (r : Relocation) : Z := rel_target_virtual_address r - base.

Abbreviation copy_covers c := (covers (copy_offset c) (lc_size c)).
Abbreviation zero_fill_covers z := (covers (zero_fill_offset z) (lz_size z)).
Abbreviation target_covers r := (covers (target_offset r) 8).

(** An operation at [virtual_address] of [n] bytes that fits [size] bytes of
    memory. *)
Definition fits (size virtual_address n : Z) : Prop :=
  is_u64 virtual_address /\ base <= virtual_address /\ 0 <= n /\
  virtual_address - base + n <= size.

(** ** Copies *)

Record copied (copies : list LoadCopy) (old new : bytes) : Prop := {
  cp_length : length new = length old;
  cp_inside : forall c i, c ∈ copies -> copy_covers c i ->
    new !! i = hsaco !! Z.to_nat (lc_file_offset c + (Z.of_nat i - copy_offset c));
  cp_outside : forall i, (forall c, c ∈ copies -> ~ copy_covers c i) -> new !! i = old !! i
}.

Lemma apply_copies_safe copies image :
  0 <= base ->
  Forall (fun c => fits (size_of image) (lc_virtual_address c) (lc_size c) /\
    0 <= lc_file_offset c /\ lc_file_offset c + lc_size c <= size_of hsaco) copies ->
  StronglySorted (before lc_virtual_address lc_size) copies ->
  safe (apply_copies hsaco base copies image) (copied copies image).
Proof.
  intros Hb. revert image. induction copies as [|c copies IH]; intros image Hf Hs.
  { split; [done| |done]. by intros c i ?%elem_of_nil. }
  apply Forall_cons in Hf as [((Hv & Hge & Hn & Hfit) & Hfo & Hfe) Hf].
  apply StronglySorted_cons in Hs as [Hbefore Hs]. rewrite Forall_forall in Hbefore.
  cbn [apply_copies]. eapply safe_bind; [apply read_bytes_safe; lia|].
  intros source [-> Hsz]. rewrite u64_sub_small by lia.
  set (source := take _ _) in *.
  eapply safe_bind; [apply write_bytes_safe; lia|]. intros image1 [Hl1 Hw].
  assert (size_of image1 = size_of image) as Esz by (unfold size_of; lia).
  eapply safe_mono; [apply IH; [by rewrite Esz|done]|].
  intros image2 [Hl2 Hin Hout]. split; [lia| |].
  - intros c' i [->|Hc']%elem_of_cons Hi; [|by apply Hin].
    rewrite Hout.
    2:{ intros c' Hc' Hi'. specialize (Hbefore c' Hc'). unfold before, covers, copy_offset in *. lia. }
    rewrite Hw, Hsz. unfold covers, copy_offset in Hi.
    destruct (_ && _) eqn:G; [|lia]. unfold source.
    rewrite lookup_take_lt by lia. rewrite lookup_drop. f_equal. unfold copy_offset. lia.
  - intros i Hi. rewrite Hout by (intros c' Hc'; apply Hi; by right).
    rewrite Hw, Hsz. destruct (_ && _) eqn:G; [|done].
    exfalso. apply (Hi c); [left|]. unfold covers, copy_offset. lia.
Qed.

(** ** Zero fills *)

Record zero_filled (zero_fills : list LoadZeroFill) (old new : bytes) : Prop := {
  zf_length : length new = length old;
  zf_inside : forall z i, z ∈ zero_fills -> zero_fill_covers z i -> new !! i = Some x00;
  zf_outside : forall i, (forall z, z ∈ zero_fills -> ~ zero_fill_covers z i) ->
    new !! i = old !! i
}.

Lemma write_zeros_lookup {E} `{!Failure E} (memory : bytes) offset count :
  0 <= offset -> 0 <= count -> offset + count <= size_of memory ->
  safe (write_zeros (E:=E) memory offset count) (fun new =>
    length new = length memory /\
    forall i, new !! i = if decide (covers offset count i) then Some x00 else memory !! i).
Proof.
  intros H1 H2 H3. eapply safe_mono; [by apply write_zeros_safe|]. intros new [Hl Hw].
  split; [done|]. intros i. rewrite Hw. unfold size_of. rewrite length_replicate.
  destruct (_ && _) eqn:G; case_decide as Hc; unfold covers in Hc; try lia; [|done].
  apply lookup_replicate. split; [done|lia].
Qed.

Lemma apply_zero_fills_safe zero_fills image :
  0 <= base ->
  Forall (fun z => fits (size_of image) (lz_virtual_address z) (lz_size z)) zero_fills ->
  safe (apply_zero_fills base zero_fills image) (zero_filled zero_fills image).
Proof.
  intros Hb. revert image. induction zero_fills as [|z zero_fills IH]; intros image Hf.
  { split; [done| |done]. by intros z i ?%elem_of_nil. }
  apply Forall_cons in Hf as [(Hv & Hge & Hn & Hfit) Hf].
  cbn [apply_zero_fills]. rewrite u64_sub_small by lia.
  eapply safe_bind; [apply write_zeros_lookup; lia|]. intros image1 [Hl1 Hw].
  assert (size_of image1 = size_of image) as Esz by (unfold size_of; lia).
  eapply safe_mono; [apply IH; by rewrite Esz|].
  intros image2 [Hl2 Hin Hout]. split; [lia| |].
  - intros z' i [->|Hz']%elem_of_cons Hi; [|by eapply Hin].
    destruct (decide (Exists (fun z' => zero_fill_covers z' i) zero_fills)) as [He|He].
    + apply Exists_exists in He as (z' & ? & ?). by eapply Hin.
    + rewrite Hout by (intros z' ? ?; apply He, Exists_exists; eauto).
      rewrite Hw. by rewrite decide_True.
  - intros i Hi. rewrite Hout by (intros z' Hz'; apply Hi; by right).
    rewrite Hw, decide_False; [done|]. apply Hi. left.
Qed.

(** ** Relocations *)

Section relocations.
Context (load_bias : Z).

(** The addend the relocation uses, given the image before relocation. *)
Definition relocation_addend (image : bytes) (r : Relocation) : Z :=
  match rel_encoding r with
  | RelocationEncoding.Rel => le_value (slice image (target_offset r) 8)
  | RelocationEncoding.Rela => to_u64 (rel_addend r)
  end.

(** [R_AMDGPU_RELATIVE64]; the other type a plan may have is [R_AMDGPU_ABS64]. *)
Definition R_AMDGPU_RELATIVE64 : Z := 13.

(** The word the ABI asks for: [B + A], or [S + A] with the symbol moved along
    with the image unless it is absolute. *)
Definition relocated_word (r : Relocation) (addend : Z) : Z :=
  let symbol := if rel_type r =? R_AMDGPU_RELATIVE64 then 0 else rel_symbol_value r in
  let moved := (rel_type r =? R_AMDGPU_RELATIVE64) || negb (rel_symbol_is_absolute r) in
  (symbol + (if moved then load_bias else 0) + addend) mod 2 ^ 64.

Lemma relocation_value_word addend r : relocation_value load_bias addend r = relocated_word r addend.
Proof.
  unfold relocation_value, relocated_word, R_AMDGPU_RELATIVE64, u64_add, to_u64. change U64_MOD with (2 ^ 64).
  destruct (rel_type r =? 13); cbn [orb]; [f_equal; lia|].
  destruct (rel_symbol_is_absolute r); cbn [negb]; [f_equal; lia|].
  rewrite Z.add_mod_idemp_l by lia. f_equal. lia.
Qed.

Record relocated (relocations : list Relocation) (old new : bytes) : Prop := {
  rl_length : length new = length old;
  rl_inside : forall r, r ∈ relocations -> rel_type r <> 0 ->
    slice new (target_offset r) 8 = le_bytes 8 (relocated_word r (relocation_addend old r));
  rl_outside : forall i,
    (forall r, r ∈ relocations -> rel_type r <> 0 -> ~ target_covers r i) -> new !! i = old !! i
}.

Lemma relocation_addend_safe (image : bytes) r :
  fits (size_of image) (rel_target_virtual_address r) 8 ->
  0 <= base ->
  safe (E:=Empty_set) (match rel_encoding r with
        | RelocationEncoding.Rel => read_u64 image (target_offset r)
        | RelocationEncoding.Rela => Ok (to_u64 (rel_addend r))
        end) (fun addend => addend = relocation_addend image r).
Proof.
  intros (? & ? & _ & ?) Hb. unfold relocation_addend, target_offset.
  destruct (rel_encoding r); [|done]. by rewrite read_u64_value by lia.
Qed.

Lemma relocation_addend_ext (m1 m2 : bytes) r :
  0 <= target_offset r -> (forall i, target_covers r i -> m1 !! i = m2 !! i) ->
  relocation_addend m1 r = relocation_addend m2 r.
Proof.
  intros Ho H. unfold relocation_addend. destruct (rel_encoding r); [|done].
  f_equal. by apply slice_ext.
Qed.

Lemma apply_relocations_safe relocations image :
  0 <= base ->
  Forall (fun r => rel_type r <> 0 -> fits (size_of image) (rel_target_virtual_address r) 8)
    relocations ->
  StronglySorted target_before (patching relocations) ->
  safe (apply_relocations base load_bias relocations image) (relocated relocations image).
Proof.
  intros Hb. revert image. induction relocations as [|r relocations IH]; intros image Hf Hs.
  { split; [done| |done]. by intros r ?%elem_of_nil. }
  apply Forall_cons in Hf as [Hr Hf]. unfold patching in Hs. rewrite filter_cons in Hs.
  fold (patching relocations) in Hs. cbn [apply_relocations].
  destruct (Z.eqb_spec (rel_type r) 0) as [E0|E0].
  { rewrite decide_False in Hs by lia. eapply safe_mono; [by apply IH|].
    intros new [Hl Hin Hout]. split; [done| |].
    - intros r' [->|?]%elem_of_cons ?; [done|by apply Hin].
    - intros i Hi. apply Hout. intros r' ?. apply Hi. by right. }
  rewrite decide_True in Hs by done. apply StronglySorted_cons in Hs as [Hbefore Hs].
  rewrite Forall_forall in Hbefore.
  assert (forall r' i, r' ∈ relocations -> rel_type r' <> 0 -> target_covers r i ->
    ~ target_covers r' i) as Hapart.
  { intros r' i Hr' E' H1 H2. assert (r' ∈ patching relocations) as Hp
      by (by apply list_elem_of_filter).
    specialize (Hbefore r' Hp). unfold before, covers, target_offset in *. lia. }
  specialize (Hr E0). pose proof Hr as (Hv & Hge & _ & Hfit).
  cbv zeta. rewrite u64_sub_small by lia. fold (target_offset r).
  eapply safe_bind; [by apply relocation_addend_safe|]. intros addend ->.
  rewrite relocation_value_word. set (value := relocated_word _ _).
  assert (size_of (le_bytes 8 value) = 8) as Hsz by (unfold size_of; by rewrite length_le_bytes).
  eapply safe_bind; [apply write_bytes_safe; unfold target_offset; lia|].
  intros image1 Hw. pose proof Hw as [Hl1 Hw1]. rewrite Hsz in Hw1.
  assert (size_of image1 = size_of image) as Esz by (unfold size_of; lia).
  eapply safe_mono; [apply IH; [by rewrite Esz|done]|].
  intros image2 [Hl2 Hin Hout]. split; [lia| |].
  - intros r' [->|Hr']%elem_of_cons E'.
    + rewrite (slice_ext image2 image1).
      * rewrite <-(length_le_bytes 8 value) at 1. apply (written_slice image); [|done].
        unfold target_offset. lia.
      * unfold target_offset. lia.
      * intros i Hi. apply Hout. intros r' ? ? ?. by eapply Hapart.
    + rewrite Hin by done. f_equal. f_equal.
      rewrite Forall_forall in Hf. destruct (Hf r' Hr' E') as (? & ? & _).
      apply relocation_addend_ext; [unfold target_offset; lia|].
      intros i Hi. rewrite Hw1. destruct (_ && _) eqn:G; [|done].
      exfalso. eapply (Hapart r' i); [done|done| |done]. unfold covers. lia.
  - intros i Hi. rewrite Hout by (intros r' ?; apply Hi; by right).
    rewrite Hw1. destruct (_ && _) eqn:G; [|done].
    exfalso. apply (Hi r); [left|done|]. unfold covers. lia.
Qed.
End relocations.
End contents.

Lemma materialize_failure_safe {A} error message (Q : A -> Prop) :
  error <> ExecutableImageError.None -> safe (materialize_failure error message) Q.
Proof. done. Qed.

Ltac image_fails := apply materialize_failure_safe; discriminate.

(** ** Address translation *)

(** The conditions under which a range has a GPU address. *)
Definition translatable (plan : LoadPlan) (gpu_address virtual_address size alignment : Z)
  : Prop :=
  is_power_of_two alignment = true /\ in_image plan virtual_address size /\
  gpu_address + (virtual_address - plan_image_virtual_address plan) < U64_MOD /\
  (gpu_address + (virtual_address - plan_image_virtual_address plan)) mod alignment = 0.

Lemma translate_executable_address_cases plan gpu_address virtual_address size alignment :
  is_u64 (plan_image_virtual_address plan) -> is_u64 gpu_address -> is_u64 virtual_address ->
  0 <= size ->
  let r := translate_executable_address plan gpu_address virtual_address size alignment in
  translatable plan gpu_address virtual_address size alignment /\
    r = mkAddressResult image_ok
          (gpu_address + (virtual_address - plan_image_virtual_address plan)) \/
  ~ translatable plan gpu_address virtual_address size alignment /\
    status_ok (ar_status r) = false /\ ar_gpu_address r = 0.
Proof.
  intros Hb Hg Hv Hs. unfold translate_executable_address, translatable. cbv zeta.
  destruct (is_power_of_two alignment); cbn [negb]; [|right; split; [naive_solver|done]].
  destruct (image_offset plan virtual_address size) as [o|] eqn:Ho.
  - apply image_offset_spec in Ho as [Hin ->]; [|done..].
    pose proof Hin as (? & ? & ?).
    destruct (checked_add _ _) as [a|] eqn:Ha.
    + assert (a = gpu_address + (virtual_address - plan_image_virtual_address plan) /\ is_u64 a)
        as [-> Hu] by (apply checked_add_Some in Ha; [|lia..]; lia).
      destruct (Z.eqb_spec ((gpu_address + (virtual_address - plan_image_virtual_address plan))
        mod alignment) 0); cbn [negb]; [left; split; [|done]|right; split; [naive_solver|done]].
      split_and!; done || lia.
    + apply checked_add_None in Ha. right. split; [|done]. lia.
  - right. split; [|done]. intros (_ & Hin & _). by rewrite image_offset_in in Ho.
Qed.

(** ** The image before and after relocation *)

Record image_loaded (hsaco : bytes) (plan : LoadPlan) (allocation_size : Z) (old new : bytes)
  : Prop := {
  il_length : length new = length old;
  il_copied : forall c i, c ∈ plan_copies plan ->
    covers (lc_virtual_address c - plan_image_virtual_address plan) (lc_size c) i ->
    new !! i = hsaco !! Z.to_nat (lc_file_offset c +
      (Z.of_nat i - (lc_virtual_address c - plan_image_virtual_address plan)));
  il_zero : forall i, Z.of_nat i < allocation_size ->
    (forall c, c ∈ plan_copies plan ->
       ~ covers (lc_virtual_address c - plan_image_virtual_address plan) (lc_size c) i) ->
    new !! i = Some x00;
  il_rest : forall i, allocation_size <= Z.of_nat i -> new !! i = old !! i
}.

(** The destination after materialization: the file's segments over zeros,
    then every relocated word, and nothing past the allocation. *)
Definition image_contents (hsaco : bytes) (plan : LoadPlan) (allocation_size load_bias : Z)
    (old new : bytes) : Prop :=
  exists loaded, image_loaded hsaco plan allocation_size old loaded /\
    relocated (plan_image_virtual_address plan) load_bias (plan_relocations plan) loaded new.

Section materialize.
Context (hsaco : bytes) (code_object : CodeObject).
Let plan := co_load_plan code_object.
Let base := plan_image_virtual_address plan.
Context (Ht : plan_typed plan) (Hk : Forall kernel_typed (co_kernels code_object)).

Section valid.
Context (Hv : plan_valid (size_of hsaco) code_object plan).

Lemma valid_allocation :
  plan_image_size plan <= page_rounded_size plan /\ is_u64 (page_rounded_size plan).
Proof.
  destruct Hv as [H1 _ _ H2 _ _ _ _ _ _ _ _ _ _ _ _].
  pose proof (page_rounded_size_bounds plan). lia.
Qed.

Lemma in_image_fits (image : bytes) virtual_address n :
  is_u64 virtual_address -> in_image plan virtual_address n ->
  page_rounded_size plan <= size_of image -> fits base (size_of image) virtual_address n.
Proof.
  intros Ha (? & ? & ?) Hi. destruct valid_allocation. unfold fits, base. lia.
Qed.

Lemma write_image_safe load_bias destination :
  page_rounded_size plan <= size_of destination ->
  safe (write_image hsaco plan (page_rounded_size plan) load_bias destination)
    (image_contents hsaco plan (page_rounded_size plan) load_bias destination).
Proof.
  intros Hd. destruct valid_allocation as [Hsz Hu].
  pose proof Ht as [Hb _ _ Htc Htz _ Htr].
  pose proof Hv as [_ _ _ _ [_ Hsc] Hic _ Hiz Hir Hsr Hdis _ _ _ _ _].
  rewrite !Forall_forall in Htc. rewrite Forall_forall in Htz. rewrite Forall_forall in Htr.
  rewrite Forall_forall in Hic. rewrite Forall_forall in Hiz. rewrite Forall_forall in Hir.
  unfold write_image. cbv zeta. fold base.
  eapply safe_bind; [apply write_zeros_lookup; lia|]. intros m0 [Hl0 Hw0].
  assert (size_of m0 = size_of destination) as E0 by (unfold size_of; lia).
  eapply safe_bind.
  { apply apply_copies_safe; [unfold base; lia| |done]. apply Forall_forall. intros c Hc.
    destruct (Htc c Hc) as (? & ? & ?), (Hic c Hc) as [? ?].
    split; [by apply in_image_fits; [|done|rewrite E0]|]. lia. }
  intros m1 [Hl1 Hcin Hcout]. assert (size_of m1 = size_of m0) as E1 by (unfold size_of; lia).
  eapply safe_bind.
  { apply apply_zero_fills_safe; [unfold base; lia|]. apply Forall_forall. intros z Hz.
    destruct (Htz z Hz) as (? & ?). apply in_image_fits; [done|by apply Hiz|lia]. }
  intros m2 [Hl2 Hzin Hzout]. assert (size_of m2 = size_of m1) as E2 by (unfold size_of; lia).
  eapply safe_mono.
  { apply apply_relocations_safe; [unfold base; lia| |done]. apply Forall_forall. intros r Hr ?.
    destruct (Htr r Hr) as (? & ?). destruct (Hir r Hr) as [?|[_ Hin]]; [done|].
    apply in_image_fits; [done|done|lia]. }
  intros m3 Hm3. exists m2. split; [|done]. split; [lia|..].
  - intros c i Hc Hi. rewrite Hzout; [by apply (Hcin c i)|].
    intros z Hz Hzi. apply (Hdis c z Hc Hz).
    unfold covers, zero_fill_offset, copy_meets_zero_fill, base in *. lia.
  - intros i Hi Hno.
    destruct (decide (Exists (fun z => covers (zero_fill_offset base z) (lz_size z) i)
      (plan_zero_fills plan))) as [He|He].
    + apply Exists_exists in He as (z & ? & ?). by eapply Hzin.
    + rewrite Hzout by (intros z ? ?; apply He, Exists_exists; eauto).
      rewrite Hcout by done. rewrite Hw0, decide_True; [done|]. unfold covers. lia.
  - intros i Hi. rewrite Hzout, Hcout, Hw0.
    + rewrite decide_False; [done|]. unfold covers. lia.
    + intros c Hc Hci. destruct (Hic c Hc) as [_ (? & ? & ?)].
      unfold covers, copy_offset, base in *. lia.
    + intros z Hz Hzi. destruct (Hiz z Hz) as (? & ? & ?).
      unfold covers, zero_fill_offset, base in *. lia.
Qed.

(** The GPU addresses of a kernel in an image mapped at [gpu_address]. *)
Definition resolved_kernel (gpu_address : Z) (k : KernelInfo) : ResolvedKernel :=
  mkResolvedKernel (gpu_address + (ki_descriptor_virtual_address k - base))
    (gpu_address + (ki_code_entry_virtual_address k - base)).

(** After the validation, resolving the kernels cannot fail any more. *)
Lemma resolve_kernels_ok gpu_address :
  0 <= gpu_address -> gpu_address mod kExecutableImagePageSize = 0 ->
  gpu_address + page_rounded_size plan < U64_MOD ->
  resolve_kernels plan gpu_address (co_kernels code_object) =
    Ok (resolved_kernel gpu_address <$> co_kernels code_object).
Proof.
  intros Hg Hmod Hend. destruct valid_allocation as [Hsz Hu].
  pose proof Ht as [Hb _ _ Htc _ _ _].
  destruct Hv as [_ _ _ _ _ Hic _ _ _ _ _ _ _ _ _ Hkv].
  induction Hkv as [|k kernels [Hd [Hal1 Hal2] _ Hentry (c & Hc & ?) _] Hkv IH]; [done|].
  apply Forall_cons in Hk as [(? & ? & ?) Hk']. cbn [resolve_kernels fmap list_fmap].
  pose proof Hd as (? & ? & ?). rewrite Forall_forall in Hic.
  destruct (Hic c Hc) as [_ (? & ? & ?)].
  unfold kExecutableImagePageSize, kAmdhsaKernelDescriptorAlignment in Hmod, Hal1, Hal2.
  destruct (translate_executable_address_cases plan gpu_address
    (ki_descriptor_virtual_address k) kAmdhsaKernelDescriptorSize
    kAmdhsaKernelDescriptorAlignment) as [[_ ->]|[[] _]]; [done|lia|done|lia| |].
  2:{ split_and!; try done; [lia|]. unfold kAmdhsaKernelDescriptorAlignment.
      rewrite Z.add_mod, Hal2, Z.add_0_r by lia. zlia. }
  destruct (translate_executable_address_cases plan gpu_address
    (ki_code_entry_virtual_address k) 1 1) as [[_ ->]|[[] _]]; [done|lia|done|lia| |].
  2:{ split; [done|split; [unfold in_image; lia|split; [lia|by rewrite Z.mod_1_r]]]. }
  cbn [ar_status]. change (status_ok image_ok) with true. cbn [negb].
  rewrite IH by done. done.
Qed.
End valid.

(** What the checks before the first write establish. *)
Lemma prepare_image_safe destination gpu_address :
  is_u64 gpu_address ->
  safe (prepare_image (Some hsaco) (size_of hsaco) code_object (Some destination)
          (size_of destination) gpu_address)
    (fun '(allocation_size, load_bias, kernels) =>
       plan_valid (size_of hsaco) code_object plan /\
       allocation_size = page_rounded_size plan /\
       allocation_size <= size_of destination /\
       gpu_address mod kExecutableImagePageSize = 0 /\
       gpu_address + allocation_size < U64_MOD /\
       base <= gpu_address /\ load_bias = gpu_address - base /\
       (forall r, r ∈ plan_relocations plan -> rel_type r = 3 ->
          rel_symbol_is_absolute r = false -> load_bias + rel_symbol_value r < U64_MOD) /\
       kernels = resolved_kernel gpu_address <$> co_kernels code_object).
Proof.
  intros Hg. pose proof Ht as [Hb _ _ _ _ _ Htr]. unfold prepare_image. fold plan.
  destruct (status_ok (rq_status _)) eqn:Hreq; cbn [negb].
  2:{ simpl. unfold is_failure, image_status_failure, status_ok in *.
      by apply bool_decide_eq_false in Hreq. }
  pose proof (validate_plan_size (Some hsaco) (size_of hsaco) code_object Hreq) as Esize.
  apply validate_plan_accepts in Hreq as [_ Hv]; [|done..].
  rewrite Esize. fold plan. destruct (valid_allocation Hv) as [_ Hu].
  rewrite bool_decide_false by done. cbn [orb].
  destruct (Z.ltb_spec (size_of destination) (page_rounded_size plan)); [image_fails|].
  destruct (_ || _) eqn:Gal; [image_fails|]. apply orb_false_iff in Gal as [Gal _].
  destruct (bool_decide _) eqn:Gend; [image_fails|]. apply bool_decide_eq_false in Gend.
  destruct (Z.ltb_spec gpu_address (plan_image_virtual_address plan)); [image_fails|].
  rewrite u64_sub_small by lia. destruct (existsb _ _) eqn:Gr; [image_fails|].
  assert (gpu_address + page_rounded_size plan < U64_MOD) as Hend.
  { unfold checked_add in Gend. case_match; [done|lia]. }
  rewrite resolve_kernels_ok by (done || lia). simpl. split_and!; try done; try lia.
  intros r Hr E3 Eabs. rewrite Forall_forall in Htr. destruct (Htr r Hr) as [_ ?].
  apply not_true_iff_false in Gr. rewrite existsb_exists in Gr.
  destruct (Z.lt_ge_cases (gpu_address - plan_image_virtual_address plan + rel_symbol_value r)
    U64_MOD) as [|Hge]; [done|exfalso]. apply Gr. exists r. split; [by apply list_elem_of_In|].
  unfold relocation_symbol_overflows. rewrite E3, Eabs. apply bool_decide_eq_true.
  unfold checked_add. case_match; [done|lia].
Qed.
End materialize.

Lemma materialize_spec hsaco code_object destination gpu_address :
  plan_typed (co_load_plan code_object) -> Forall kernel_typed (co_kernels code_object) ->
  is_u64 gpu_address ->
  exists outcome memory,
    materialize_executable_image (Some hsaco) (size_of hsaco) code_object (Some destination)
      (size_of destination) gpu_address = Ok (outcome, Some memory) /\
    if status_ok (mr_status outcome) then
      let plan := co_load_plan code_object in
      plan_valid (size_of hsaco) code_object plan /\
      image_contents hsaco plan (page_rounded_size plan)
        (gpu_address - plan_image_virtual_address plan) destination memory /\
      mr_image outcome = mkImageInfo code_object (page_rounded_size plan) gpu_address
        (resolved_kernel code_object gpu_address <$> co_kernels code_object) true
    else memory = destination /\ ii_valid (mr_image outcome) = false.
Proof.
  intros Ht Hk Hg. unfold materialize_executable_image.
  pose proof (prepare_image_safe hsaco code_object Ht Hk destination gpu_address Hg) as Hp.
  destruct (prepare_image _ _ _ _ _ _) as [[[allocation_size load_bias] kernels]|status|];
    simpl in Hp; [| |done].
  - destruct Hp as (Hv & -> & Hd & _ & _ & _ & -> & _ & ->). cbn [default from_option id].
    pose proof (write_image_safe hsaco code_object Ht Hv
      (gpu_address - plan_image_virtual_address (co_load_plan code_object)) destination Hd) as Hw.
    destruct (write_image _ _ _ _ _) as [memory|[]|]; [|done].
    eexists _, memory. split; [done|]. by split_and!.
  - eexists _, destination. split; [done|]. cbn [mr_status].
    destruct (status_ok status) eqn:E; [|done]. by apply bool_decide_eq_true in E.
Qed.

(** C3: materialization never touches memory outside the destination or the
    file and always returns; on success the destination holds the file's
    segments over zeros with every relocated word in place and nothing changed
    past the page-rounded allocation, and the image object resolves every
    kernel; on failure the destination is untouched and the image unusable. *)
Theorem materialize_executable_image_correct hsaco code_object destination gpu_address :
  plan_typed (co_load_plan code_object) -> Forall kernel_typed (co_kernels code_object) ->
  is_u64 gpu_address ->
  exists outcome memory,
    materialize_executable_image (Some hsaco) (size_of hsaco) code_object (Some destination)
      (size_of destination) gpu_address = Ok (outcome, Some memory) /\
    if status_ok (mr_status outcome) then
      let plan := co_load_plan code_object in
      plan_valid (size_of hsaco) code_object plan /\
      image_contents hsaco plan (page_rounded_size plan)
        (gpu_address - plan_image_virtual_address plan) destination memory /\
      mr_image outcome = mkImageInfo code_object (page_rounded_size plan) gpu_address
        (resolved_kernel code_object gpu_address <$> co_kernels code_object) true
    else memory = destination /\ ii_valid (mr_image outcome) = false.
Proof. apply materialize_spec. Qed.

(** A virtual range has a GPU address exactly when the alignment is a power
    of two, the range is in the image, and the address fits in 64 bits and is
    aligned; then it is the mapped base plus the offset, and otherwise the
    result is an error with address 0. *)
Theorem translate_address_exact plan gpu_address virtual_address size alignment :
  is_u64 (plan_image_virtual_address plan) -> is_u64 gpu_address -> is_u64 virtual_address ->
  0 <= size ->
  let r := translate_executable_address plan gpu_address virtual_address size alignment in
  translatable plan gpu_address virtual_address size alignment /\
    r = mkAddressResult image_ok
          (gpu_address + (virtual_address - plan_image_virtual_address plan)) \/
  ~ translatable plan gpu_address virtual_address size alignment /\
    status_ok (ar_status r) = false /\ ar_gpu_address r = 0.
Proof. apply translate_executable_address_cases. Qed.
