(* ===== verification/LoaderImage.v ===== *)
(** * The loader refines the runtime's expectations

    A code object that [parse_code_object] accepts meets every structural
    requirement the runtime's plan validation checks again: what remains to be
    decided by the runtime is what it supports (page alignment, relocation
    types, the rounding of the image size). *)

From S2P Require Import Prelude Order Memory CodeObject Segments Metadata ElfDynamic KernelSymbols LoadPlan ElfReader ExecutableImage ImageValidation ImageContents.

(** What the runtime supports, beyond what the loader guarantees. *)
Record image_supported (code_object : CodeObject) (plan : LoadPlan) : Prop := {
  su_nonempty : 0 < plan_image_size plan;
  su_alignment : plan_alignment plan <= kExecutableImagePageSize /\
    plan_image_virtual_address plan mod plan_alignment plan = 0;
  su_roundable : plan_image_size plan <= UINT64_MAX - (kExecutableImagePageSize - 1);
  su_relocations : Forall (fun r => rel_type r = 0 \/ rel_type r = 3 \/
    rel_type r = 13 /\ rel_symbol_index r = 0) (plan_relocations plan);
  su_targets : StronglySorted target_before (patching (plan_relocations plan));
  su_descriptors : Forall (fun k =>
    (ki_descriptor_virtual_address k - plan_image_virtual_address plan)
      mod kAmdhsaKernelDescriptorAlignment = 0) (co_kernels code_object)
}.

Section loader.
Context (file_size : Z) (code_object : CodeObject).
Context (Hfile : is_u64 file_size) (Hwf : code_object_wf file_size code_object).
Let plan := co_load_plan code_object.
Let segments := co_load_segments code_object.

Lemma segment_of s : s ∈ segments -> segment_wf file_size s.
Proof.
  destruct Hwf as [_ _ [_ Hs _ _] _ _]. rewrite Forall_forall in Hs. apply Hs.
Qed.

(** The elements of the plan come from the segments. *)
Lemma copy_of c :
  c ∈ plan_copies plan -> exists s, s ∈ segments /\ live s /\
    c = mkLoadCopy (seg_file_offset s) (seg_virtual_address s) (seg_file_size s) /\
    0 < seg_file_size s.
Proof.
  destruct Hwf as [_ _ _ _ []]. unfold plan. rewrite pw_copies. intros (s & Hc & Hs)%list_elem_of_bind.
  exists s. pose proof (segment_of s Hs) as [[] ? ? ? ? _].
  unfold segment_copies in Hc. case_match; [by apply elem_of_nil in Hc|].
  apply list_elem_of_singleton in Hc as ->. split_and!; [done|unfold live; lia|done|lia].
Qed.

Lemma zero_fill_of z :
  z ∈ plan_zero_fills plan -> exists s, s ∈ segments /\ live s /\
    z = mkLoadZeroFill (seg_virtual_address s + seg_file_size s)
          (seg_memory_size s - seg_file_size s) /\ seg_file_size s < seg_memory_size s.
Proof.
  destruct Hwf as [_ _ _ _ []]. unfold plan. rewrite pw_zero_fills. intros (s & Hz & Hs)%list_elem_of_bind.
  exists s. pose proof (segment_of s Hs) as [[] ? ? ? ? _].
  unfold segment_zero_fills in Hz. case_match; [|by apply elem_of_nil in Hz].
  apply list_elem_of_singleton in Hz as ->. split_and!; [done|unfold live; lia|done|lia].
Qed.

Lemma protection_of p :
  p ∈ plan_protections plan -> exists s, s ∈ segments /\ live s /\
    p = mkLoadProtection (seg_virtual_address s) (seg_memory_size s) (seg_flags s).
Proof.
  destruct Hwf as [_ _ _ _ []]. unfold plan. rewrite pw_protections. intros (s & Hp & Hs)%list_elem_of_bind.
  exists s. unfold segment_protections in Hp. case_match; [by apply elem_of_nil in Hp|].
  apply list_elem_of_singleton in Hp as ->. split_and!; [done|unfold live; lia|done].
Qed.

Lemma protection_for s :
  s ∈ segments -> live s ->
  mkLoadProtection (seg_virtual_address s) (seg_memory_size s) (seg_flags s)
    ∈ plan_protections plan.
Proof.
  intros Hs Hl. destruct Hwf as [_ _ _ _ []]. unfold plan. rewrite pw_protections.
  apply list_elem_of_bind. exists s. split; [|done]. unfold segment_protections.
  case_match; [unfold live in Hl; lia|]. left.
Qed.

Lemma copy_for s :
  s ∈ segments -> 0 < seg_file_size s ->
  mkLoadCopy (seg_file_offset s) (seg_virtual_address s) (seg_file_size s) ∈ plan_copies plan.
Proof.
  intros Hs Hf. destruct Hwf as [_ _ _ _ []]. unfold plan. rewrite pw_copies.
  pose proof (segment_of s Hs) as [[] ? ? ? ? _].
  apply list_elem_of_bind. exists s. split; [|done]. unfold segment_copies.
  case_match; [lia|]. left.
Qed.

(** The segment's memory is in the image. *)
Lemma segment_in_image s a n :
  s ∈ segments -> live s -> seg_virtual_address s <= a -> 0 < n -> a + n <= seg_end s ->
  in_image plan a n.
Proof.
  intros Hs Hl Ha Hn He. destruct Hwf as [_ _ _ _ []].
  destruct (pw_cover s Hs Hl). unfold in_image, plan. lia.
Qed.

Lemma loader_plan_typed : plan_typed plan.
Proof.
  pose proof Hwf as [_ _ _ _ []]. destruct pw_image as (? & ? & ?).
  destruct pw_relocations as [Hr _].
  split; [unfold plan; lia|unfold plan; lia|done|..].
  - apply Forall_forall. intros c (s & Hs & _ & -> & _)%copy_of.
    pose proof (segment_of s Hs) as [[] ? ? ? ? _]. done.
  - apply Forall_forall. intros z (s & Hs & _ & -> & ?)%zero_fill_of.
    pose proof (segment_of s Hs) as [[] ? ? ? ? _]. unfold zero_fill_typed. simpl. lia.
  - apply Forall_forall. intros p (s & Hs & _ & ->)%protection_of.
    pose proof (segment_of s Hs) as [[] ? ? ? ? _]. done.
  - eapply Forall_impl; [exact Hr|]. by intros r [].
Qed.

Lemma loader_kernels :
  Forall (kernel_ok segments) (co_kernels code_object).
Proof.
  destruct Hwf as [_ _ _ Hm _]. destruct (co_has_metadata code_object).
  - apply Hm.
  - rewrite Hm. constructor.
Qed.

Lemma loader_kernels_typed : Forall kernel_typed (co_kernels code_object).
Proof.
  eapply Forall_impl; [apply loader_kernels|].
  intros k [_ _ (s & Hs & ? & ?) _ ? (s' & Hs' & _ & ?) _ _ _].
  unfold kKernelDescriptorSize in *.
  pose proof (segment_of s Hs) as [[] ? ? ? ? _]. pose proof (segment_of s' Hs') as [[] ? ? ? ? _].
  unfold kernel_typed. lia.
Qed.

Lemma loader_kernel_resolvable k :
  kernel_ok segments k ->
  (ki_descriptor_virtual_address k - plan_image_virtual_address plan)
    mod kAmdhsaKernelDescriptorAlignment = 0 ->
  kernel_resolvable plan k.
Proof.
  intros [_ Hal (s & Hs & ? & ?) He _ (s' & Hs' & Hx & ?) _ _ _] Hd.
  unfold kKernelDescriptorSize in *. unfold kAmdhsaKernelDescriptorSize.
  pose proof (segment_of s Hs) as [[] ? ? ? ? _]. pose proof (segment_of s' Hs') as [[] ? ? ? ? _].
  split.
  - apply (segment_in_image s); unfold live, seg_end, kAmdhsaKernelDescriptorSize;
      try done; lia.
  - done.
  - exists (mkLoadCopy (seg_file_offset s) (seg_virtual_address s) (seg_file_size s)).
    split; [apply copy_for; [done|lia]|done].
  - done.
  - exists (mkLoadCopy (seg_file_offset s') (seg_virtual_address s') (seg_file_size s')).
    split; [apply copy_for; [done|lia]|done].
  - exists (mkLoadProtection (seg_virtual_address s') (seg_memory_size s') (seg_flags s')).
    split; [apply protection_for; [done|unfold live; lia]|]. simpl. split; [|lia].
    unfold kElfExecute. change 1 with (Z.ones 1) in Hx |- *.
    rewrite Z.land_ones in Hx |- * by lia. change (2 ^ 1) with 2 in *. change (Z.ones 1) with 1.
    zlia.
Qed.

(** Two elements of a pairwise related list are the same or related. *)
Lemma pairwise_elem {A} (R : A -> A -> Prop) l x y :
  pairwise R l -> x ∈ l -> y ∈ l -> x = y \/ R x y \/ R y x.
Proof.
  intros Hs [i Hi]%list_elem_of_lookup [j Hj]%list_elem_of_lookup.
  destruct (Nat.lt_trichotomy i j) as [Hlt|[->|Hlt]].
  - right. left. by eapply StronglySorted_lookup.
  - left. congruence.
  - right. right. by eapply StronglySorted_lookup.
Qed.

Lemma copy_zero_fill_apart c z :
  c ∈ plan_copies plan -> z ∈ plan_zero_fills plan -> ~ copy_meets_zero_fill c z.
Proof.
  intros (s1 & Hs1 & Hl1 & -> & ?)%copy_of (s2 & Hs2 & Hl2 & -> & ?)%zero_fill_of [Hm1 Hm2].
  simpl in *. pose proof (segment_of s1 Hs1) as [[] ? ? ? ? _].
  pose proof (segment_of s2 Hs2) as [[] ? ? ? ? _].
  destruct Hwf as [_ _ [_ _ _ Hapart] _ _].
  destruct (pairwise_elem _ _ _ _ Hapart Hs1 Hs2) as [->|[Ha|Ha]]; [lia|..];
    specialize (Ha ltac:(done) ltac:(done)); unfold apart, before in Ha; lia.
Qed.

Lemma loader_plan_valid :
  plan_valid file_size code_object plan <-> image_supported code_object plan.
Proof.
  split.
  { intros [? ? ? ? ? ? ? ? Hr ? ? ? ? ? ? Hk]. split; try done; try lia.
    - eapply Forall_impl; [exact Hr|]. unfold relocation_supported. intros r. lia.
    - eapply Forall_impl; [exact Hk|]. intros k []. lia. }
  intros [? ? ? Hrel ? Hdesc]. pose proof Hwf as [_ _ _ _ []].
  destruct pw_image as (? & ? & ?). destruct pw_alignment as (e & He & Ee).
  assert (forall s, s ∈ segments -> segment_wf file_size s) as Hseg by apply segment_of.
  split; try done.
  - split; [|done]. unfold plan. rewrite Ee. by apply is_power_of_two_pow.
  - split; [|done]. apply Forall_forall. intros c (s & Hs & Hl & -> & ?)%copy_of.
    destruct (Hseg s Hs) as [[] ? ? ? ? _]. unfold range_proper. simpl. lia.
  - apply Forall_forall. intros c (s & Hs & Hl & -> & ?)%copy_of.
    destruct (Hseg s Hs) as [[] ? ? ? ? _]. simpl. split; [done|].
    apply (segment_in_image s); unfold seg_end; done || lia.
  - split; [|done]. apply Forall_forall. intros z (s & Hs & Hl & -> & ?)%zero_fill_of.
    destruct (Hseg s Hs) as [[] ? ? ? ? _]. unfold range_proper. simpl. lia.
  - apply Forall_forall. intros z (s & Hs & Hl & -> & ?)%zero_fill_of.
    destruct (Hseg s Hs) as [[] ? ? ? ? _]. simpl.
    apply (segment_in_image s); unfold seg_end; done || lia.
  - apply Forall_forall. intros r Hr. rewrite Forall_forall in Hrel. specialize (Hrel r Hr).
    destruct pw_relocations as [Hok _]. rewrite Forall_forall in Hok.
    destruct (Hok r Hr) as [_ _ _ _ _ _ Htarget _ _].
    destruct Hrel as [?|Hrel]; [by left|right].
    assert (relocation_width (rel_type r) = 8) as Ew by (destruct Hrel as [->|[-> _]]; done).
    rewrite Ew in Htarget. destruct Htarget as (s & Hs & ? & ?); [done|].
    split; [lia|]. destruct (Hseg s Hs) as [[] ? ? ? ? _].
    apply (segment_in_image s); unfold live, seg_end in *; done || lia.
  - apply copy_zero_fill_apart.
  - split; [|done]. apply Forall_forall. intros p (s & Hs & Hl & ->)%protection_of.
    destruct (Hseg s Hs) as [[] ? ? ? ? _]. unfold range_proper, live in *. simpl. lia.
  - apply Forall_forall. intros p (s & Hs & Hl & ->)%protection_of.
    destruct (Hseg s Hs) as [[] ? ? ? ? _]. simpl. split; [lia|].
    apply (segment_in_image s); unfold live, seg_end in *; done || lia.
  - apply Forall_forall. intros c (s & Hs & Hl & -> & ?)%copy_of.
    destruct (Hseg s Hs) as [[] ? ? ? ? _]. simpl.
    eexists. split; [by apply (protection_for s)|]. simpl. lia.
  - apply Forall_forall. intros z (s & Hs & Hl & -> & ?)%zero_fill_of.
    destruct (Hseg s Hs) as [[] ? ? ? ? _]. simpl.
    eexists. split; [by apply (protection_for s)|]. simpl. lia.
  - pose proof loader_kernels as Hk. rewrite Forall_forall in Hk, Hdesc |- *. intros k Hin.
    apply loader_kernel_resolvable; auto.
Qed.
End loader.

(** The runtime's validation of the plan of an accepted code object fails
    only for what the runtime does not support: of the copies, zero fills,
    protections and kernel descriptors, nothing the loader let through is
    rejected. *)
Theorem loader_plan_validates data result :
  is_u64 (size_of data) -> parse_code_object (Some data) (size_of data) = Ok result ->
  parse_ok result = true ->
  let code_object := pr_code_object result in
  status_ok (rq_status
    (executable_image_requirements (Some data) (size_of data) code_object)) = true <->
  image_supported code_object (co_load_plan code_object).
Proof.
  intros Hsize Hparse Hok code_object.
  destruct (parse_code_object_cases data Hsize) as (result' & Hp & Hwf).
  rewrite Hparse in Hp. simplify_eq. destruct (Hwf Hok) as [Hwf' _]; clear Hwf; rename Hwf' into Hwf.
  rewrite validate_plan_accepts.
  - rewrite <-(loader_plan_valid (size_of data)) by done. naive_solver.
  - by apply (loader_plan_typed (size_of data)).
  - by apply (loader_kernels_typed (size_of data)).
Qed.

(** ** From file to memory

    The loader and the runtime composed: what [parse_code_object] accepts and
    the runtime supports is materialized without error by
    [materialize_executable_image] at every suitable address. *)

(** A place for the image: page-aligned, not below the linked address, inside
    the address space, with enough memory behind it. *)
Record image_place (plan : LoadPlan) (destination_size gpu_address : Z) : Prop := {
  ip_address : is_u64 gpu_address;
  ip_aligned : gpu_address mod kExecutableImagePageSize = 0;
  ip_above : plan_image_virtual_address plan <= gpu_address;
  ip_end : gpu_address + page_rounded_size plan < U64_MOD;
  ip_room : page_rounded_size plan <= destination_size
}.

(** The place has the plan's alignment: alignments divide the page size. *)
Lemma place_alignment plan gpu_address :
  is_power_of_two (plan_alignment plan) = true -> 0 <= plan_alignment plan ->
  plan_alignment plan <= kExecutableImagePageSize ->
  plan_image_virtual_address plan mod plan_alignment plan = 0 ->
  gpu_address mod kExecutableImagePageSize = 0 ->
  gpu_address mod plan_alignment plan = plan_image_virtual_address plan mod plan_alignment plan.
Proof.
  intros Hpow Hpos Hle -> Hg. destruct (is_power_of_two_spec _ Hpos Hpow) as (k & Hk & Ea).
  unfold kExecutableImagePageSize in *. rewrite Ea in *. change 4096 with (2 ^ 12) in *.
  apply Z.pow_le_mono_r_iff in Hle; [|lia..].
  apply Z.mod_divide in Hg as [m ->]; [|lia]. replace 12 with (12 - k + k) by lia.
  rewrite Z.pow_add_r, Z.mul_assoc by lia. apply Z.mod_mul. lia.
Qed.

Section pipeline.
Context (data : bytes) (code_object : CodeObject) (destination : bytes) (gpu_address : Z).
Context (Hsize : is_u64 (size_of data)) (Hwf : code_object_wf (size_of data) code_object).
Let plan := co_load_plan code_object.
Context (Hsup : image_supported code_object plan).
Context (Hplace : image_place plan (size_of destination) gpu_address).

Lemma supported_valid : plan_valid (size_of data) code_object plan.
Proof. by apply (loader_plan_valid (size_of data)). Qed.

(** Symbols lie in the image, so their run-time addresses fit. *)
Lemma no_symbol_overflows :
  existsb (relocation_symbol_overflows (gpu_address - plan_image_virtual_address plan))
    (plan_relocations plan) = false.
Proof.
  pose proof (cw_plan _ _ Hwf) as Hpw. fold plan in Hpw.
  pose proof (pw_image _ _ Hpw) as (? & ? & ?). destruct Hplace as [? _ ? ? _].
  pose proof (page_rounded_size_bounds plan) as Hround.
  pose proof (su_roundable _ _ Hsup) as Hroundable.
  destruct (existsb _ _) eqn:E; [exfalso|done]. apply existsb_exists in E as (r & Hin & Ho).
  unfold relocation_symbol_overflows in Ho. rewrite !andb_true_iff, bool_decide_eq_true in Ho.
  destruct Ho as [[H3 Habs] Hadd]. apply negb_true_iff in Habs.
  apply list_elem_of_In in Hin. destruct (pw_relocations _ _ Hpw) as [Hr _].
  rewrite Forall_forall in Hr. pose proof (Hr r Hin) as Hok.
  destruct (ro_symbol _ _ Hok) as (s & Hs & Hsym); [|done|].
  { unfold relocation_uses_symbol. lia. }
  destruct (pw_cover _ _ Hpw s Hs) as [_ Hend]; [unfold live, seg_end in *; lia|].
  pose proof (ro_symbol_value _ _ Hok). apply checked_add_None in Hadd. lia.
Qed.

(** Nothing before the first write fails. *)
Lemma prepare_image_succeeds :
  prepare_image (Some data) (size_of data) code_object (Some destination)
    (size_of destination) gpu_address =
  Ok (page_rounded_size plan, gpu_address - plan_image_virtual_address plan,
      resolved_kernel code_object gpu_address <$> co_kernels code_object).
Proof.
  pose proof (cw_plan _ _ Hwf) as Hpw. fold plan in Hpw.
  pose proof (pw_image _ _ Hpw) as (? & ? & ?). pose proof Hplace as [? Hal ? ? ?].
  pose proof supported_valid as Hv. pose proof (pv_alignment _ _ _ Hv) as (Hpow & Hle & Hbase).
  pose proof (loader_plan_typed _ _ Hwf) as Htyped.
  pose proof (loader_kernels_typed _ _ Hwf) as Hkernels.
  assert (status_ok (rq_status (executable_image_requirements (Some data) (size_of data)
    code_object)) = true) as Hreq by (by apply validate_plan_accepts).
  unfold prepare_image. fold plan. rewrite Hreq, (validate_plan_size _ _ _ Hreq). fold plan.
  rewrite bool_decide_false by done. cbn [negb orb].
  rewrite (proj2 (Z.ltb_ge _ _)) by lia.
  rewrite Hal, (place_alignment plan gpu_address Hpow), !Z.eqb_refl
    by (done || apply (pw_alignment_u64 _ _ Hpw)). cbn [negb orb].
  pose proof (page_rounded_size_bounds plan) as Hround.
  pose proof (su_roundable _ _ Hsup) as Hroundable.
  rewrite checked_add_ok, bool_decide_false, (proj2 (Z.ltb_ge _ _)) by (done || lia).
  rewrite u64_sub_small, no_symbol_overflows by lia.
  unfold plan. rewrite (resolve_kernels_ok data) by (done || lia). done.
Qed.

Lemma pipeline_loads :
  exists memory,
    materialize_executable_image (Some data) (size_of data) code_object (Some destination)
      (size_of destination) gpu_address =
    Ok (mkMaterialization image_ok
          (mkImageInfo code_object (page_rounded_size plan) gpu_address
             (resolved_kernel code_object gpu_address <$> co_kernels code_object) true),
        Some memory) /\
    image_contents data plan (page_rounded_size plan)
      (gpu_address - plan_image_virtual_address plan) destination memory.
Proof.
  unfold materialize_executable_image. rewrite prepare_image_succeeds. cbn [default from_option id].
  pose proof (write_image_safe data code_object (loader_plan_typed _ _ Hwf) supported_valid
    (gpu_address - plan_image_virtual_address plan) destination (ip_room _ _ _ Hplace)) as Hw.
  fold plan in Hw. fold plan. destruct (write_image _ _ _ _ _) as [memory|[]|]; [|done].
  by exists memory.
Qed.
End pipeline.

(** C2: every code object the loader accepts and the runtime supports is
    loaded without error at every page-aligned address with enough room: the
    destination then holds its segments, zeros and relocated words, and every
    kernel's descriptor and entry point are resolved to addresses inside the
    mapped image. *)
Theorem accepted_object_loads data result destination gpu_address :
  is_u64 (size_of data) -> parse_code_object (Some data) (size_of data) = Ok result ->
  parse_ok result = true ->
  let code_object := pr_code_object result in
  let plan := co_load_plan code_object in
  image_supported code_object plan -> image_place plan (size_of destination) gpu_address ->
  exists kernels memory,
    materialize_executable_image (Some data) (size_of data) code_object (Some destination)
      (size_of destination) gpu_address =
    Ok (mkMaterialization image_ok
          (mkImageInfo code_object (page_rounded_size plan) gpu_address kernels true),
        Some memory) /\
    image_contents data plan (page_rounded_size plan)
      (gpu_address - plan_image_virtual_address plan) destination memory /\
    kernels = resolved_kernel code_object gpu_address <$> co_kernels code_object /\
    Forall (fun k =>
      gpu_address <= rk_descriptor_gpu_address k /\
      rk_descriptor_gpu_address k + kAmdhsaKernelDescriptorSize <=
        gpu_address + page_rounded_size plan /\
      gpu_address <= rk_code_entry_gpu_address k < gpu_address + page_rounded_size plan) kernels.
Proof.
  intros Hsize Hparse Hok code_object plan Hsup Hplace.
  destruct (parse_code_object_cases data Hsize) as (result' & Hp & Hwf).
  rewrite Hparse in Hp. simplify_eq. destruct (Hwf Hok) as [Hwf' _]; clear Hwf; rename Hwf' into Hwf. fold code_object in Hwf.
  destruct (pipeline_loads data code_object destination gpu_address Hsize Hwf Hsup Hplace)
    as (memory & Hm & Hc).
  exists (resolved_kernel code_object gpu_address <$> co_kernels code_object), memory.
  split_and!; [done..|]. apply Forall_fmap.
  pose proof (supported_valid data code_object Hsize Hwf Hsup) as Hv.
  destruct (valid_allocation data code_object Hv) as [Hround _].
  eapply Forall_impl; [exact (pv_kernels _ _ _ Hv)|]. intros k [Hd _ _ _ (c & Hc' & Hentry) _].
  pose proof (pv_copies_in _ _ _ Hv) as Hin. rewrite Forall_forall in Hin.
  destruct (Hin c Hc') as [_ (? & ? & ?)]. destruct Hd as (? & ? & ?).
  simpl. unfold plan, code_object in *. lia.
Qed.
