(* ===== verification/Launch.v ===== *)
(** * Kernarg buffers

    [runtime/launch.cpp]: the request validation and the materialization of a
    kernel-argument segment in a mapped buffer. *)

From S2P Require Import Prelude Memory CodeObject Metadata.

Definition kAmdKernargMinimumAlignment : Z := 16.

Module KernargBufferError.
Inductive t :=
| None
| InvalidKernelMetadata
| InvalidArguments
| ArgumentSizeExceeded
| InvalidDestination
| DestinationTooSmall
| UnsupportedAlignment
| MisalignedGpuAddress
| GpuAddressOverflow
| AllocationFailed.

#[global] Instance eq_dec : EqDecision t.
Proof. solve_decision. Defined.
End KernargBufferError.

Definition kernarg_buffer_error_name (error : KernargBufferError.t) : string :=
  match error with
  | KernargBufferError.None => "none"
  | KernargBufferError.InvalidKernelMetadata => "invalid_kernel_metadata"
  | KernargBufferError.InvalidArguments => "invalid_arguments"
  | KernargBufferError.ArgumentSizeExceeded => "argument_size_exceeded"
  | KernargBufferError.InvalidDestination => "invalid_destination"
  | KernargBufferError.DestinationTooSmall => "destination_too_small"
  | KernargBufferError.UnsupportedAlignment => "unsupported_alignment"
  | KernargBufferError.MisalignedGpuAddress => "misaligned_gpu_address"
  | KernargBufferError.GpuAddressOverflow => "gpu_address_overflow"
  | KernargBufferError.AllocationFailed => "allocation_failed"
  end.

Record KernargBufferStatus := mkKernargStatus {
  ks_error : KernargBufferError.t;
  ks_message : string
}.

Definition kernarg_ok : KernargBufferStatus := mkKernargStatus KernargBufferError.None "".

Definition kernarg_status_ok (status : KernargBufferStatus) : bool :=
  bool_decide (ks_error status = KernargBufferError.None).

Record KernargBufferRequirementsResult := mkKernargRequirements {
  kq_status : KernargBufferStatus;
  kq_storage_size : Z;
  kq_alignment : Z
}.

Record KernargBufferInfo := mkKernargInfo {
  kb_gpu_address : Z;
  kb_kernarg_size : Z;
  kb_alignment : Z;
  kb_valid : bool
}.

Definition default_kernarg_info : KernargBufferInfo := mkKernargInfo 0 0 0 false.

(** [void reset()] *)
Definition kernarg_reset (buffer : KernargBufferInfo) : KernargBufferInfo :=
  mkKernargInfo 0 0 0 false.

(** The move constructor: the new object and what is left of [other]. *)
Definition kernarg_move (other : KernargBufferInfo) : KernargBufferInfo * KernargBufferInfo :=
  (mkKernargInfo (kb_gpu_address other) (kb_kernarg_size other) (kb_alignment other)
     (kb_valid other), kernarg_reset other).

Definition requirements_failure (error : KernargBufferError.t) (message : string)
  : KernargBufferRequirementsResult :=
  mkKernargRequirements (mkKernargStatus error message) 0 0.

(** [arguments] is the pointer, [None] for null. *)
Definition validate_kernarg_request (kernel : KernelInfo) (arguments : option bytes)
    (arguments_size : Z) : KernargBufferRequirementsResult :=
  if negb (is_power_of_two (ki_kernarg_alignment kernel)) ||
     (ki_kernarg_alignment kernel <? kAmdKernargMinimumAlignment) then
    requirements_failure KernargBufferError.InvalidKernelMetadata
      "kernel kernarg alignment is invalid"
  else if negb (arguments_size =? 0) && bool_decide (arguments = None) then
    requirements_failure KernargBufferError.InvalidArguments
      "kernarg bytes are null but their size is non-zero"
  else if arguments_size >? ki_kernarg_size kernel then
    requirements_failure KernargBufferError.ArgumentSizeExceeded
      "caller-provided kernarg bytes exceed the metadata-declared kernarg segment"
  else mkKernargRequirements kernarg_ok (ki_kernarg_size kernel) (ki_kernarg_alignment kernel).

Definition kernarg_buffer_requirements (kernel : KernelInfo) (arguments : option bytes)
    (arguments_size : Z) : KernargBufferRequirementsResult :=
  validate_kernarg_request kernel arguments arguments_size.

(** The checks of the materialization: [None] stands for success with the
    canonical null storage of an empty segment, [Some] for a buffer to fill. *)
Definition kernarg_failure {A} (error : KernargBufferError.t) (message : string)
  : result KernargBufferStatus A := Err (mkKernargStatus error message).

Definition prepare_kernarg (requirements : KernargBufferRequirementsResult)
    (arguments : option bytes) (arguments_size : Z) (destination : option bytes)
    (destination_size gpu_address : Z) : result KernargBufferStatus (option bytes) :=
  if negb (kernarg_status_ok (kq_status requirements)) then Err (kq_status requirements)
  else if negb (arguments_size =? 0) && bool_decide (arguments = None) then
    kernarg_failure KernargBufferError.InvalidArguments
      "kernarg bytes are null but their size is non-zero"
  else if arguments_size >? kq_storage_size requirements then
    kernarg_failure KernargBufferError.ArgumentSizeExceeded
      "caller-provided kernarg bytes exceed the validated kernarg segment"
  else if kq_storage_size requirements =? 0 then
    if negb (bool_decide (destination = None)) || negb (destination_size =? 0) ||
       negb (gpu_address =? 0) then
      kernarg_failure KernargBufferError.InvalidDestination
        "a zero-sized kernarg segment requires canonical null storage"
    else Ok None
  else match destination with
  | None =>
      kernarg_failure KernargBufferError.InvalidDestination "kernarg destination is null"
  | Some memory =>
      if destination_size <? kq_storage_size requirements then
        kernarg_failure KernargBufferError.DestinationTooSmall
          "kernarg destination is smaller than the metadata-declared segment"
      else if (gpu_address =? 0) ||
              negb (gpu_address mod kq_alignment requirements =? 0) then
        kernarg_failure KernargBufferError.MisalignedGpuAddress
          "kernarg GPU address does not satisfy the kernel alignment"
      else if gpu_address >? UINT64_MAX - kq_storage_size requirements then
        kernarg_failure KernargBufferError.GpuAddressOverflow
          "kernarg GPU segment range overflows uint64"
      else Ok (Some memory)
  end.

(** [memmove] of the prefix (none when it is empty), [memset] of the rest. *)
Definition write_kernarg (arguments : option bytes) (arguments_size storage_size : Z)
    (memory : bytes) : result Empty_set bytes :=
  memory ←
    (if negb (arguments_size =? 0) then
       source ← read_bytes (default [] arguments) 0 arguments_size;
       write_bytes memory 0 source
     else Ok memory);
  write_zeros memory arguments_size (storage_size - arguments_size).

Record KernargBufferMaterializationResult := mkKernargMaterialization {
  km_status : KernargBufferStatus;
  km_buffer : KernargBufferInfo
}.

(** The overload on validated requirements: the result and the destination
    when the function returns. *)
Definition materialize_kernarg_requirements (requirements : KernargBufferRequirementsResult)
    (arguments : option bytes) (arguments_size : Z) (destination : option bytes)
    (destination_size gpu_address : Z)
  : result Empty_set (KernargBufferMaterializationResult * option bytes) :=
  match prepare_kernarg requirements arguments arguments_size destination destination_size
          gpu_address with
  | Fault f => Fault f
  | Err status => Ok (mkKernargMaterialization status default_kernarg_info, destination)
  | Ok None =>
      Ok (mkKernargMaterialization kernarg_ok
            (mkKernargInfo 0 0 (kq_alignment requirements) true), destination)
  | Ok (Some memory) =>
      memory ← write_kernarg arguments arguments_size (kq_storage_size requirements) memory;
      Ok (mkKernargMaterialization kernarg_ok
            (mkKernargInfo gpu_address (to_u32 (kq_storage_size requirements))
               (kq_alignment requirements) true), Some memory)
  end.

Definition materialize_kernarg_buffer (kernel : KernelInfo) (arguments : option bytes)
    (arguments_size : Z) (destination : option bytes) (destination_size gpu_address : Z)
  : result Empty_set (KernargBufferMaterializationResult * option bytes) :=
  materialize_kernarg_requirements
    (validate_kernarg_request kernel arguments arguments_size)
    arguments arguments_size destination destination_size gpu_address.

(** ** Facts *)

#[export] Instance kernarg_status_failure : Failure KernargBufferStatus :=
  fun s => ks_error s <> KernargBufferError.None.

Lemma kernarg_failure_safe {A} error message (Q : A -> Prop) :
  error <> KernargBufferError.None -> safe (kernarg_failure error message) Q.
Proof. done. Qed.

Lemma write_kernarg_safe (arguments memory : bytes) storage_size :
  size_of arguments <= storage_size -> storage_size <= size_of memory ->
  safe (write_kernarg (Some arguments) (size_of arguments) storage_size memory)
    (fun new => new = arguments ++ replicate (Z.to_nat storage_size - length arguments) x00 ++
                      drop (Z.to_nat storage_size) memory).
Proof.
  intros H1 H2. unfold write_kernarg, size_of in *.
  eapply (safe_bind _ _ (fun m => m = arguments ++ drop (length arguments) memory)).
  { destruct (Z.eqb_spec (Z.of_nat (length arguments)) 0) as [E|E]; cbn [negb].
    - destruct arguments; [|simpl in E; lia]. done.
    - eapply safe_bind; [apply read_bytes_safe; unfold size_of; simpl; lia|].
      intros source [-> _]. simpl default. rewrite drop_0, take_ge by lia.
      unfold write_bytes, size_of. destruct (_ && _) eqn:G; [|lia]. simpl. done. }
  intros m ->. unfold write_zeros, write_bytes, size_of.
  rewrite length_app, length_drop, length_replicate.
  destruct (_ && _) eqn:G; [|lia]. simpl.
  rewrite Nat2Z.id, take_app_length. f_equal.
  replace (Z.to_nat (storage_size - Z.of_nat (length arguments)))
    with (Z.to_nat storage_size - length arguments)%nat by lia. f_equal.
  rewrite drop_app_ge by lia. rewrite drop_drop. f_equal. lia.
Qed.

(** What is checked before the buffer is written. *)
Definition kernarg_accepted (kernel : KernelInfo) (arguments destination : bytes)
    (gpu_address : Z) : Prop :=
  is_power_of_two (ki_kernarg_alignment kernel) = true /\
  kAmdKernargMinimumAlignment <= ki_kernarg_alignment kernel /\
  size_of arguments <= ki_kernarg_size kernel /\
  0 < ki_kernarg_size kernel <= size_of destination /\
  gpu_address <> 0 /\ gpu_address mod ki_kernarg_alignment kernel = 0 /\
  gpu_address + ki_kernarg_size kernel < U64_MOD.

Lemma prepare_kernarg_spec kernel (arguments destination : bytes) gpu_address :
  0 <= ki_kernarg_size kernel -> size_of destination <> 0 ->
  match prepare_kernarg (validate_kernarg_request kernel (Some arguments) (size_of arguments))
          (Some arguments) (size_of arguments) (Some destination) (size_of destination)
          gpu_address with
  | Ok (Some memory) => memory = destination /\
      kernarg_accepted kernel arguments destination gpu_address /\
      validate_kernarg_request kernel (Some arguments) (size_of arguments) =
        mkKernargRequirements kernarg_ok (ki_kernarg_size kernel) (ki_kernarg_alignment kernel)
  | Ok None | Fault _ => False
  | Err status => ks_error status <> KernargBufferError.None /\
      ~ kernarg_accepted kernel arguments destination gpu_address
  end.
Proof.
  intros Hk Hd. unfold validate_kernarg_request, kernarg_accepted.
  destruct (_ || _) eqn:G1.
  { cbn. split; [done|]. lia. }
  rewrite bool_decide_false by done. rewrite andb_false_r.
  destruct (Z.gtb_spec (size_of arguments) (ki_kernarg_size kernel)).
  { cbn. split; [done|]. lia. }
  unfold prepare_kernarg. cbn [kq_status kq_storage_size kq_alignment].
  change (kernarg_status_ok kernarg_ok) with true. cbn [negb].
  rewrite (bool_decide_false (Some arguments = None)) by done. rewrite andb_false_r.
  destruct (Z.gtb_spec (size_of arguments) (ki_kernarg_size kernel)); [lia|].
  destruct (Z.eqb_spec (ki_kernarg_size kernel) 0) as [E0|E0].
  { rewrite bool_decide_false by done. cbn. split; [done|]. lia. }
  destruct (Z.ltb_spec (size_of destination) (ki_kernarg_size kernel)).
  { cbn. split; [done|]. lia. }
  destruct ((gpu_address =? 0) || _) eqn:G2.
  { cbn. split; [done|]. lia. }
  destruct (Z.gtb_spec gpu_address (UINT64_MAX - ki_kernarg_size kernel)).
  { cbn. split; [done|]. lia. }
  split; [done|]. split; [|done]. lia.
Qed.

(** C35: a kernarg segment is filled with exactly the caller's bytes followed
    by zeros up to its declared size, and the rest of the buffer is kept; a
    rejected request leaves the buffer untouched, and it is rejected only when
    the alignment, the size or the GPU range is wrong. *)
Theorem materialize_kernarg_buffer_correct kernel (arguments destination : bytes) gpu_address :
  is_u32 (ki_kernarg_size kernel) -> destination <> [] ->
  exists outcome memory,
    materialize_kernarg_buffer kernel (Some arguments) (size_of arguments) (Some destination)
      (size_of destination) gpu_address = Ok (outcome, Some memory) /\
    if kernarg_status_ok (km_status outcome) then
      kernarg_accepted kernel arguments destination gpu_address /\
      memory = arguments ++
        replicate (Z.to_nat (ki_kernarg_size kernel) - length arguments) x00 ++
        drop (Z.to_nat (ki_kernarg_size kernel)) destination /\
      km_buffer outcome = mkKernargInfo gpu_address (ki_kernarg_size kernel)
        (ki_kernarg_alignment kernel) true
    else
      ~ kernarg_accepted kernel arguments destination gpu_address /\
      memory = destination /\ kb_valid (km_buffer outcome) = false.
Proof.
  intros Hk Hd. unfold materialize_kernarg_buffer, materialize_kernarg_requirements.
  assert (size_of destination <> 0) as Hsz.
  { destruct destination; [done|]. unfold size_of. simpl. lia. }
  pose proof (prepare_kernarg_spec kernel arguments destination gpu_address ltac:(lia) Hsz) as Hp.
  destruct (prepare_kernarg _ _ _ _ _ _) as [[memory|]|status|]; [|done| |done].
  - destruct Hp as (-> & Hacc & ->). cbn [kq_storage_size kq_alignment].
    pose proof Hacc as (_ & _ & ? & ? & _).
    pose proof (write_kernarg_safe arguments destination (ki_kernarg_size kernel)
      ltac:(lia) ltac:(lia)) as Hw.
    destruct (write_kernarg _ _ _ _) as [memory|[]|]; simpl in Hw; [|done].
    eexists _, memory. split; [done|]. cbn [km_status km_buffer].
    change (kernarg_status_ok kernarg_ok) with true. rewrite to_u32_small by lia. done.
  - eexists _, destination. split; [done|]. cbn [km_status].
    unfold kernarg_status_ok. rewrite bool_decide_false by apply Hp. by destruct Hp.
Qed.
