(* ===== verification/HiddenKernargs.v ===== *)
(** * Hidden kernel arguments

    [src/light_rocr_kernargs.cpp]: the values of the hidden arguments a kernel
    expects behind its explicit ones, written into the kernarg buffer from the
    launch configuration. *)

From S2P Require Import Prelude Order Memory CodeObject Metadata.

Record lr_dim3_t := mkDim3 { dim_x : Z; dim_y : Z; dim_z : Z }.

Record lr_launch_config_t := mkLaunchConfig {
  cfg_grid : lr_dim3_t;
  cfg_block : lr_dim3_t;
  cfg_shared_memory_bytes : Z
}.

Definition dispatch_dimensions (config : lr_launch_config_t) : Z :=
  if (dim_z (cfg_grid config) >? 1) || (dim_z (cfg_block config) >? 1) then 3
  else if (dim_y (cfg_grid config) >? 1) || (dim_y (cfg_block config) >? 1) then 2
  else 1.

(** [value_size] is [sizeof(value)]; [None] is the result [false]. *)
Definition write_argument (memory : bytes) (buffer_size : Z) (argument : KernelArgumentInfo)
    (value_size : nat) (value : Z) : result Empty_set (option bytes) :=
  if negb (ka_size argument =? Z.of_nat value_size) || (ka_offset argument >? buffer_size) ||
     (ka_size argument >? buffer_size - ka_offset argument) then Ok None
  else
    memory ← write_bytes memory (ka_offset argument) (le_bytes value_size value);
    Ok (Some memory).

(** The [switch] on the kind: the size and the value to write. *)
Definition hidden_value (config : lr_launch_config_t) (kind : KernelArgumentKind.t)
  : option (nat * Z) :=
  let grid := cfg_grid config in
  let block := cfg_block config in
  match kind with
  | KernelArgumentKind.HiddenBlockCountX => Some (4%nat, dim_x grid / dim_x block)
  | KernelArgumentKind.HiddenBlockCountY => Some (4%nat, dim_y grid / dim_y block)
  | KernelArgumentKind.HiddenBlockCountZ => Some (4%nat, dim_z grid / dim_z block)
  | KernelArgumentKind.HiddenGroupSizeX => Some (2%nat, to_u16 (dim_x block))
  | KernelArgumentKind.HiddenGroupSizeY => Some (2%nat, to_u16 (dim_y block))
  | KernelArgumentKind.HiddenGroupSizeZ => Some (2%nat, to_u16 (dim_z block))
  | KernelArgumentKind.HiddenRemainderX => Some (2%nat, to_u16 (dim_x grid mod dim_x block))
  | KernelArgumentKind.HiddenRemainderY => Some (2%nat, to_u16 (dim_y grid mod dim_y block))
  | KernelArgumentKind.HiddenRemainderZ => Some (2%nat, to_u16 (dim_z grid mod dim_z block))
  | KernelArgumentKind.HiddenGridDims => Some (2%nat, dispatch_dimensions config)
  | KernelArgumentKind.HiddenDynamicLdsSize => Some (4%nat, cfg_shared_memory_bytes config)
  | _ => None
  end.

(** The loop from [first_hidden]: the result and the memory it leaves. *)
Fixpoint populate_arguments (config : lr_launch_config_t) (kernarg_size : Z)
    (arguments : list KernelArgumentInfo) (memory : bytes) : result Empty_set (bool * bytes) :=
  match arguments with
  | [] => Ok (true, memory)
  | argument :: arguments =>
      match hidden_value config (ka_kind argument) with
      | None => populate_arguments config kernarg_size arguments memory
      | Some (value_size, value) =>
          written ← write_argument memory kernarg_size argument value_size value;
          match written with
          | None => Ok (false, memory)
          | Some memory => populate_arguments config kernarg_size arguments memory
          end
      end
  end.

Definition launch_rejected (kernel : KernelInfo) (config : lr_launch_config_t)
    (kernarg : option bytes) (kernarg_size : Z) : bool :=
  let grid := cfg_grid config in
  let block := cfg_block config in
  (kernarg_size <? ki_kernarg_size kernel) ||
  (negb (ki_kernarg_size kernel =? 0) && bool_decide (kernarg = None)) ||
  (dim_x grid =? 0) || (dim_y grid =? 0) || (dim_z grid =? 0) ||
  (dim_x block =? 0) || (dim_y block =? 0) || (dim_z block =? 0) ||
  (dim_x block >? UINT16_MAX) || (dim_y block >? UINT16_MAX) || (dim_z block >? UINT16_MAX) ||
  (dim_x grid <? dim_x block) || (dim_y grid <? dim_y block) || (dim_z grid <? dim_z block).

(** The result and the buffer when the function returns. *)
Definition populate_light_rocr_hidden_kernargs (kernel : KernelInfo)
    (config : lr_launch_config_t) (kernarg : option bytes) (kernarg_size : Z)
  : result Empty_set (bool * option bytes) :=
  if launch_rejected kernel config kernarg kernarg_size then Ok (false, kernarg)
  else
    let first_hidden :=
      std_lower_bound (fun argument offset => ka_offset argument <? offset)
        (ki_arguments kernel) (ki_explicit_argument_size kernel) in
    '(result, memory) ← populate_arguments config kernarg_size
      (drop first_hidden (ki_arguments kernel)) (default [] kernarg);
    Ok (result, match kernarg with None => None | Some _ => Some memory end).

(** ** Facts *)

Definition dim3_typed (d : lr_dim3_t) : Prop :=
  is_u32 (dim_x d) /\ is_u32 (dim_y d) /\ is_u32 (dim_z d).

Definition config_typed (config : lr_launch_config_t) : Prop :=
  dim3_typed (cfg_grid config) /\ dim3_typed (cfg_block config) /\
  is_u32 (cfg_shared_memory_bytes config).

(** The table agrees with the sizes the metadata reader has enforced. *)
Lemma hidden_value_size config kind value_size value :
  hidden_value config kind = Some (value_size, value) ->
  required_hidden_argument_size kind = Z.of_nat value_size /\ (0 < value_size)%nat /\
  is_hidden_argument kind = true.
Proof. destruct kind; simpl; intros; simplify_eq; split_and!; done || lia. Qed.

(** The values fit their fields, and the count and remainder of a dimension
    describe the grid exactly. *)
Lemma hidden_value_range kernel config kernarg kernarg_size kind value_size value :
  config_typed config -> launch_rejected kernel config kernarg kernarg_size = false ->
  hidden_value config kind = Some (value_size, value) ->
  0 <= value < 2 ^ (8 * Z.of_nat value_size).
Proof.
  intros ((? & ? & ?) & (? & ? & ?) & ?) Hr. unfold launch_rejected in Hr.
  destruct config as [[gx gy gz] [bx by_ bz] shared]. simpl in *.
  rewrite !orb_false_iff in Hr.
  assert (forall g b : Z, is_u32 g -> is_u32 b -> 0 <= g / b < U32_MOD) as Hdiv.
  { intros g b ? ?. destruct (Z.eq_dec b 0) as [->|]; [rewrite Z.div_0_r; lia|].
    split; [apply Z.div_pos; lia|]. apply Z.le_lt_trans with g; [|lia].
    apply Z.div_le_upper_bound; nia. }
  assert (forall x, 0 <= to_u16 x < U16_MOD) as Hmod by (intros; apply Z.mod_pos_bound; lia).
  destruct kind; simpl; intros; simplify_eq; change (8 * Z.of_nat 4) with 32;
    change (8 * Z.of_nat 2) with 16; change (2 ^ 32) with U32_MOD; change (2 ^ 16) with U16_MOD;
    auto; unfold dispatch_dimensions; simpl; repeat case_match; lia.
Qed.

(** Argument [a] takes a value from the configuration. *)
Definition takes_value (config : lr_launch_config_t) (a : KernelArgumentInfo) : Prop :=
  is_Some (hidden_value config (ka_kind a)).

(** The buffer after the hidden [arguments] were written, in terms of the
    [switch]. *)
Record table_written (config : lr_launch_config_t) (arguments : list KernelArgumentInfo)
    (old new : bytes) : Prop := {
  tw_length : length new = length old;
  tw_values : forall a value_size value, a ∈ arguments ->
    hidden_value config (ka_kind a) = Some (value_size, value) ->
    slice new (ka_offset a) value_size = le_bytes value_size value;
  tw_frame : forall i, (forall a, a ∈ arguments -> takes_value config a ->
    ~ covers (ka_offset a) (ka_size a) i) -> new !! i = old !! i
}.

Lemma populate_arguments_safe config kernarg_size segment_size arguments memory :
  kernarg_size = size_of memory -> segment_size <= kernarg_size ->
  Forall (argument_ok segment_size) arguments ->
  StronglySorted (before ka_offset ka_size) arguments ->
  safe (populate_arguments config kernarg_size arguments memory)
    (fun '(ok, new) => ok = true /\ table_written config arguments memory new).
Proof.
  intros Hk Hseg Hok Hs. revert memory Hk.
  induction arguments as [|a arguments IH]; intros memory Hk; cbn [populate_arguments].
  { simpl. split; [done|]. split; [done| |done]. by intros ? ? ? ?%elem_of_nil. }
  apply Forall_cons in Hok as [[Ho Hsz Hin Hhs] Hok].
  apply StronglySorted_cons in Hs as [Hbefore Hs]. rewrite Forall_forall in Hbefore.
  destruct (hidden_value config (ka_kind a)) as [[n v]|] eqn:Hv.
  2:{ eapply safe_mono; [by apply IH|]. intros [ok new] (-> & [Hl Hval Hfr]). split; [done|].
      split; [done| |].
      - intros a' n v [->|?]%elem_of_cons ?; [congruence|by eapply Hval].
      - intros i Hi. apply Hfr. intros a' ?. apply Hi. by right. }
  destruct (hidden_value_size _ _ _ _ Hv) as (Hreq & Hpos & _).
  assert (ka_size a = Z.of_nat n) as En by (rewrite Hhs; [done|]; lia).
  unfold write_argument. destruct (_ || _) eqn:G; [lia|]. cbn [mbind].
  assert (size_of (le_bytes n v) = Z.of_nat n) as Hlen
    by (unfold size_of; by rewrite length_le_bytes).
  destruct (write_bytes_spec (E:=Empty_set) memory (le_bytes n v) (ka_offset a))
    as (m & -> & Hw); [lia..|]. cbn [mbind result_bind].
  pose proof Hw as [Hl1 Hw1]. rewrite Hlen in Hw1.
  eapply safe_mono; [apply IH; [done|done|unfold size_of in *; lia]|].
  intros [ok new] (-> & [Hl Hval Hfr]). split; [done|]. split; [lia| |].
  - intros a' n' v' [->|Ha']%elem_of_cons Hv'; [|by eapply Hval].
    rewrite Hv in Hv'. simplify_eq. rewrite (slice_ext new m) by first [done|
      intros i Hi; apply Hfr; intros a' Ha' _ Hc; specialize (Hbefore a' Ha');
      unfold before, covers in *; lia].
    rewrite <-(length_le_bytes n' v') at 1. by eapply written_slice.
  - intros i Hi. rewrite Hfr by (intros a' ?; apply Hi; by right).
    rewrite Hw1. destruct (_ && _) eqn:G'; [|done].
    exfalso. apply (Hi a); [left|by eexists|]. unfold covers. lia.
Qed.

(** The arguments that the binary search skips take no value. *)
Lemma skipped_arguments config kernarg_size arguments explicit_size a :
  arguments_wf kernarg_size arguments explicit_size -> a ∈ arguments ->
  takes_value config a ->
  a ∈ drop (std_lower_bound (fun argument offset => ka_offset argument <? offset)
              arguments explicit_size) arguments.
Proof.
  intros [Hok Hs _ Hsplit] [i Hi]%list_elem_of_lookup Hv.
  rewrite Forall_forall in Hok. rewrite Forall_forall in Hsplit.
  assert (partitioned (fun a => ka_offset a <? explicit_size) arguments) as Hp.
  { eapply StronglySorted_impl; [|exact Hs]. intros x y Hx Hy Hb.
    destruct (Hok x Hx). unfold before in Hb. lia. }
  destruct (bisect_partition _ _ Hp) as (Hr & Hlow & _). unfold std_lower_bound.
  set (r := bisect _ _ _ _ _) in *. clearbody r.
  destruct (Nat.lt_ge_cases i r) as [Hir|Hir].
  - exfalso. specialize (Hlow i a Hir Hi). pose proof (list_elem_of_lookup_2 _ _ _ Hi) as Ha.
    specialize (Hsplit a Ha). destruct Hv as [[n v] Hv].
    destruct (hidden_value_size _ _ _ _ Hv) as (_ & _ & Hh). rewrite Hh in Hsplit. lia.
  - apply list_elem_of_lookup. exists (i - r)%nat. rewrite lookup_drop.
    by replace (r + (i - r))%nat with i by lia.
Qed.

(** ** What a kernel finds *)

Inductive axis := AxisX | AxisY | AxisZ.

Definition extent (d : lr_dim3_t) (i : axis) : Z :=
  match i with AxisX => dim_x d | AxisY => dim_y d | AxisZ => dim_z d end.

Definition axis_number (i : axis) : Z := match i with AxisX => 1 | AxisY => 2 | AxisZ => 3 end.

Definition block_count_kind (i : axis) : KernelArgumentKind.t :=
  match i with
  | AxisX => KernelArgumentKind.HiddenBlockCountX
  | AxisY => KernelArgumentKind.HiddenBlockCountY
  | AxisZ => KernelArgumentKind.HiddenBlockCountZ
  end.

Definition group_size_kind (i : axis) : KernelArgumentKind.t :=
  match i with
  | AxisX => KernelArgumentKind.HiddenGroupSizeX
  | AxisY => KernelArgumentKind.HiddenGroupSizeY
  | AxisZ => KernelArgumentKind.HiddenGroupSizeZ
  end.

Definition remainder_kind (i : axis) : KernelArgumentKind.t :=
  match i with
  | AxisX => KernelArgumentKind.HiddenRemainderX
  | AxisY => KernelArgumentKind.HiddenRemainderY
  | AxisZ => KernelArgumentKind.HiddenRemainderZ
  end.

(** The kinds whose value depends on the launch. *)
Definition of_launch (kind : KernelArgumentKind.t) : Prop :=
  (exists i, kind = block_count_kind i \/ kind = group_size_kind i \/ kind = remainder_kind i) \/
  kind = KernelArgumentKind.HiddenGridDims \/ kind = KernelArgumentKind.HiddenDynamicLdsSize.

(** The number a kernel reads at an argument. *)
Definition argument_value (memory : bytes) (a : KernelArgumentInfo) : Z :=
  le_value (slice memory (ka_offset a) (Z.to_nat (ka_size a))).

(** The last axis along which the launch has more than one work item. *)
Definition dimensions_are (config : lr_launch_config_t) (n : Z) : Prop :=
  1 <= n <= 3 /\
  (forall i, n < axis_number i -> extent (cfg_grid config) i = 1 /\ extent (cfg_block config) i = 1) /\
  (forall i, axis_number i = n -> n = 1 \/ 1 < extent (cfg_grid config) i \/ 1 < extent (cfg_block config) i).

(** The buffer a kernel with these [arguments] is started with: complete
    blocks and the rest of every axis, block sizes, dimensions and dynamic LDS;
    other bytes are as they were. *)
Record populated (config : lr_launch_config_t) (arguments : list KernelArgumentInfo)
    (old new : bytes) : Prop := {
  pp_length : length new = length old;
  pp_block_count : forall a i, a ∈ arguments -> ka_kind a = block_count_kind i ->
    argument_value new a * extent (cfg_block config) i <= extent (cfg_grid config) i <
      (argument_value new a + 1) * extent (cfg_block config) i;
  pp_group_size : forall a i, a ∈ arguments -> ka_kind a = group_size_kind i ->
    argument_value new a = extent (cfg_block config) i;
  pp_remainder : forall a i, a ∈ arguments -> ka_kind a = remainder_kind i ->
    0 <= argument_value new a < extent (cfg_block config) i /\
    exists blocks, extent (cfg_grid config) i = blocks * extent (cfg_block config) i + argument_value new a;
  pp_dimensions : forall a, a ∈ arguments -> ka_kind a = KernelArgumentKind.HiddenGridDims ->
    dimensions_are config (argument_value new a);
  pp_dynamic_lds : forall a, a ∈ arguments -> ka_kind a = KernelArgumentKind.HiddenDynamicLdsSize ->
    argument_value new a = cfg_shared_memory_bytes config;
  pp_frame : forall i, (forall a, a ∈ arguments -> of_launch (ka_kind a) ->
    ~ covers (ka_offset a) (ka_size a) i) -> new !! i = old !! i
}.

(** A launch the arguments can be computed for. *)
Record launch_fits (kernel : KernelInfo) (config : lr_launch_config_t) (memory : bytes) : Prop := {
  lf_buffer : ki_kernarg_size kernel <= size_of memory;
  lf_axis i : 0 < extent (cfg_block config) i <= UINT16_MAX /\
    extent (cfg_block config) i <= extent (cfg_grid config) i
}.

Lemma launch_rejected_spec kernel config (memory : bytes) :
  config_typed config ->
  launch_rejected kernel config (Some memory) (size_of memory) = false <-> launch_fits kernel config memory.
Proof.
  intros ((? & ? & ?) & (? & ? & ?) & _). unfold launch_rejected. cbv zeta.
  rewrite bool_decide_eq_false_2, andb_false_r, !orb_false_iff by done. split.
  - intros Hr. split; [lia|]. intros []; cbn [extent]; lia.
  - intros [Hb Hi]. pose proof (Hi AxisX). pose proof (Hi AxisY). pose proof (Hi AxisZ). cbn [extent] in *. lia.
Qed.

Lemma takes_value_kind config a : takes_value config a -> of_launch (ka_kind a).
Proof.
  unfold takes_value, of_launch. destruct (ka_kind a); cbn [hidden_value]; intros [x Hx]; try done;
    first [by (right; first [by left|by right])|left];
    first [exists AxisX; cbn; by auto|exists AxisY; cbn; by auto|exists AxisZ; cbn; by auto].
Qed.

Lemma table_populated kernel config (old new : bytes) :
  config_typed config -> launch_fits kernel config old ->
  Forall (argument_ok (ki_kernarg_size kernel)) (ki_arguments kernel) ->
  table_written config (ki_arguments kernel) old new -> populated config (ki_arguments kernel) old new.
Proof.
  intros Htyped Hfits Hargs [Hl Hval Hfr]. rewrite Forall_forall in Hargs.
  assert (forall a n v, a ∈ ki_arguments kernel -> hidden_value config (ka_kind a) = Some (n, v) ->
    argument_value new a = v) as Hread.
  { intros a n v Ha Hv. destruct (hidden_value_size _ _ _ _ Hv) as (Hreq & Hpos & Hh).
    destruct (Hargs a Ha) as [_ _ _ Hhs]. unfold argument_value. rewrite Hhs by lia. rewrite Hreq, Nat2Z.id.
    rewrite (Hval a n v Ha Hv), le_value_bytes. apply Z.mod_small.
    eapply (hidden_value_range kernel config (Some old) (size_of old)); [done|by apply launch_rejected_spec|done]. }
  destruct Hfits as [_ Hi].
  split; [done|intros a i Ha Hk..|intros a Ha Hk|intros a Ha Hk|intros i H; apply Hfr; intros a Ha Hv; by eapply H, takes_value_kind].
  - destruct (Hi i) as [Hb Hg].
    rewrite (Hread a 4%nat (extent (cfg_grid config) i / extent (cfg_block config) i) Ha) by (rewrite Hk; by destruct i).
    split; [rewrite Z.mul_comm; apply Z.mul_div_le; lia|].
    pose proof (Z.mul_succ_div_gt (extent (cfg_grid config) i) (extent (cfg_block config) i)). lia.
  - destruct (Hi i) as [Hb _].
    rewrite (Hread a 2%nat (to_u16 (extent (cfg_block config) i)) Ha) by (rewrite Hk; by destruct i).
    apply to_u16_small. lia.
  - destruct (Hi i) as [Hb _].
    pose proof (Z.mod_pos_bound (extent (cfg_grid config) i) (extent (cfg_block config) i) ltac:(lia)).
    rewrite (Hread a 2%nat (to_u16 (extent (cfg_grid config) i mod extent (cfg_block config) i)) Ha)
      by (rewrite Hk; by destruct i).
    rewrite to_u16_small by lia. split; [done|].
    exists (extent (cfg_grid config) i / extent (cfg_block config) i). rewrite Z.mul_comm. apply Z.div_mod. lia.
  - rewrite (Hread a 2%nat (dispatch_dimensions config) Ha) by by rewrite Hk.
    pose proof (Hi AxisX) as HX. pose proof (Hi AxisY) as HY. pose proof (Hi AxisZ) as HZ. cbn [extent] in *.
    unfold dispatch_dimensions, dimensions_are.
    destruct (_ || _) eqn:E3; [|destruct ((dim_y _ >? 1) || _) eqn:E2];
      (split; [lia|split; intros []; cbn [axis_number extent]; lia]).
  - by rewrite (Hread a 4%nat (cfg_shared_memory_bytes config) Ha) by by rewrite Hk.
Qed.

Lemma populate_writes_table kernel config (memory : bytes) :
  kernel_metadata_ok kernel ->
  launch_rejected kernel config (Some memory) (size_of memory) = false ->
  exists new,
    populate_light_rocr_hidden_kernargs kernel config (Some memory) (size_of memory) =
      Ok (true, Some new) /\
    table_written config (ki_arguments kernel) memory new /\
    take (Z.to_nat (ki_explicit_argument_size kernel)) new =
      take (Z.to_nat (ki_explicit_argument_size kernel)) memory.
Proof.
  intros [_ _ Hks _ _ _ _ _ Hargs] Hrej.
  unfold populate_light_rocr_hidden_kernargs. rewrite Hrej. cbv zeta.
  set (first := std_lower_bound _ _ _).
  pose proof Hargs as [Hok Hs _ Hsplit].
  assert (ki_kernarg_size kernel <= size_of memory).
  { unfold launch_rejected in Hrej. rewrite !orb_false_iff in Hrej. lia. }
  pose proof (populate_arguments_safe config (size_of memory) (ki_kernarg_size kernel)
    (drop first (ki_arguments kernel)) memory eq_refl ltac:(done)
    (Forall_drop _ _ _ Hok) (StronglySorted_drop _ _ _ Hs)) as Hp.
  cbn [default from_option id].
  destruct (populate_arguments _ _ _ _) as [[ok new]|[]|]; simpl in Hp; [|done].
  destruct Hp as (-> & [Hl Hval Hfr]). exists new. split; [done|].
  assert (forall a, a ∈ drop first (ki_arguments kernel) -> a ∈ ki_arguments kernel) as Hsub.
  { intros a [i Hi]%list_elem_of_lookup. rewrite lookup_drop in Hi.
    by eapply list_elem_of_lookup_2. }
  assert (forall a, a ∈ ki_arguments kernel -> takes_value config a ->
    ki_explicit_argument_size kernel <= ka_offset a) as Hexp.
  { intros a Ha [[n v] Hv]. rewrite Forall_forall in Hsplit. specialize (Hsplit a Ha).
    destruct (hidden_value_size _ _ _ _ Hv) as (_ & _ & Hh). by rewrite Hh in Hsplit. }
  split.
  - split; [done| |].
    + intros a n v Ha Hv. apply Hval; [|done].
      eapply skipped_arguments; [exact Hargs|done|by eexists].
    + intros i Hi. apply Hfr. auto.
  - apply list_eq. intros i.
    destruct (decide (i < Z.to_nat (ki_explicit_argument_size kernel))%nat).
    + rewrite !lookup_take_lt by done. apply Hfr. intros a Ha Hv Hc.
      specialize (Hexp a (Hsub a Ha) Hv). unfold covers in Hc. lia.
    + by rewrite !lookup_take_ge by lia.
Qed.

(** C30: for a kernel the loader accepted, the hidden arguments are written
    exactly for launches whose blocks are not empty, fit 16 bits and the grid,
    in a buffer that is large enough.  The kernel then finds the complete blocks
    and the rest of every axis, the block sizes, the number of dimensions and
    the dynamic LDS size; the explicit arguments, although the code skips them
    by binary search, and every other byte keep their values.  Any other launch
    is refused and the buffer is untouched. *)
Theorem populate_hidden_kernargs_correct kernel config (memory : bytes) :
  kernel_metadata_ok kernel -> config_typed config ->
  (launch_fits kernel config memory -> exists new,
     populate_light_rocr_hidden_kernargs kernel config (Some memory) (size_of memory) =
       Ok (true, Some new) /\
     populated config (ki_arguments kernel) memory new /\
     take (Z.to_nat (ki_explicit_argument_size kernel)) new =
       take (Z.to_nat (ki_explicit_argument_size kernel)) memory) /\
  (~ launch_fits kernel config memory ->
     populate_light_rocr_hidden_kernargs kernel config (Some memory) (size_of memory) =
       Ok (false, Some memory)).
Proof.
  intros Hk Ht. rewrite <-launch_rejected_spec by done. split.
  - intros Hr. destruct (populate_writes_table kernel config memory Hk Hr) as (new & Hp & Hw & Htake).
    exists new. split_and!; [done| |done]. apply (table_populated kernel); [done|by apply launch_rejected_spec| |done].
    by destruct Hk as [_ _ _ _ _ _ _ _ []].
  - intros Hr. unfold populate_light_rocr_hidden_kernargs. by rewrite (not_false_is_true _ Hr).
Qed.

(** The dispatch geometry of the hidden arguments: blocks and remainder give
    back the grid. *)
Lemma hidden_geometry_x kernel config kernarg kernarg_size :
  config_typed config -> launch_rejected kernel config kernarg kernarg_size = false ->
  exists count size remainder,
    hidden_value config KernelArgumentKind.HiddenBlockCountX = Some (4%nat, count) /\
    hidden_value config KernelArgumentKind.HiddenGroupSizeX = Some (2%nat, size) /\
    hidden_value config KernelArgumentKind.HiddenRemainderX = Some (2%nat, remainder) /\
    count * size + remainder = dim_x (cfg_grid config) /\ 0 <= remainder < size.
Proof.
  intros ((? & _) & (? & _) & _) Hr. unfold launch_rejected in Hr. cbv zeta in Hr.
  rewrite !orb_false_iff in Hr. eexists _, _, _. split_and!; [done..| | |];
    rewrite ?(to_u16_small (dim_x (cfg_block config))) by lia;
    pose proof (Z.mod_pos_bound (dim_x (cfg_grid config)) (dim_x (cfg_block config)) ltac:(lia));
    rewrite ?to_u16_small by lia; try lia.
  rewrite (Z.div_mod (dim_x (cfg_grid config)) (dim_x (cfg_block config))) at 3 by lia. lia.
Qed.
