(* ===== verification/BundleText.v ===== *)
(** * The scanner of bundle manifests

    The character-level half of [ManifestParser] in [src/bundle.cpp]: brace
    matching, field search, strings, integers, booleans and arrays over the
    text of the manifest. *)

From S2P Require Import Prelude Memory.

(** ** Exceptions *)

Inductive exception_kind :=
| InvalidArgument
| RuntimeError
| OutOfRange
| LengthError.

Record exception := mkException {
  ex_kind : exception_kind;
  ex_what : string
}.

(** Every exception is a failure. *)
#[export] Instance exception_failure : Failure exception := fun _ => True.

Abbreviation manifest A := (result exception A).

Definition throw {A} (kind : exception_kind) (what : string) : manifest A :=
  Err (mkException kind what).

Definition runtime_error {A} (what : string) : manifest A := throw RuntimeError what.

(** ** Characters *)

Definition chr (s : string) : byte :=
  match String.list_byte_of_string s with [b] => b | _ => x00 end.

Definition is_char (s : string) (b : byte) : bool := bool_decide (b = chr s).

(** The quotation mark and the backslash. *)
Definition quotation : string := String.string_of_list_byte [x22].
Definition is_quote (b : byte) : bool := bool_decide (b = x22).
Definition is_backslash (b : byte) : bool := bool_decide (b = x5c).

(** [' '], ['\n'], ['\r'], ['\t'] *)
Definition is_space (b : byte) : bool :=
  bool_decide (b = x20) || bool_decide (b = x0a) || bool_decide (b = x0d) || bool_decide (b = x09).

Definition is_digit (b : byte) : bool := (48 <=? byte_val b) && (byte_val b <=? 57).

(** ** The text

    Positions are [nat]; a position never exceeds the size of the text, so
    [size_t] arithmetic on them does not wrap.  [std::string::npos] is [None]. *)

Section text.
Context (text : bytes).

(** [text_[i]]: the terminator may be read at [i = size()]. *)
Definition char_at (i : nat) : manifest byte :=
  match text !! i with
  | Some b => Ok b
  | None => if (i =? length text)%nat then Ok x00 else Fault OutOfBounds
  end.

(** [text_.substr(position, count)], for a range of the text. *)
Definition substr (position count : nat) : manifest bytes :=
  if (position + count <=? length text)%nat then Ok (take count (drop position text))
  else Fault OutOfBounds.

(** [while (position < limit && test(text_[position])) ++position], with [n]
    characters before the limit. *)
Fixpoint scan (test : byte -> bool) (n position : nat) : manifest nat :=
  match n with
  | O => Ok position
  | S n =>
      value ← char_at position;
      if test value then scan test n (S position) else Ok position
  end.

Definition skip_space (position limit : nat) : manifest nat :=
  scan is_space (limit - position) position.

Definition skip_digits (position limit : nat) : manifest nat :=
  scan is_digit (limit - position) position.

(** [position < limit && test(text_[position])] *)
Definition at_char (test : byte -> bool) (position limit : nat) : manifest bool :=
  if (position <? limit)%nat then value ← char_at position; Ok (test value) else Ok false.

(** The loop of [matching_brace], with [n] characters before the end. *)
Fixpoint brace_loop (n i : nat) (depth : Z) (in_string escaped : bool) : manifest nat :=
  match n with
  | O => runtime_error "unterminated kernel manifest object"
  | S n =>
      value ← char_at i;
      if in_string then
        if escaped then brace_loop n (S i) depth true false
        else if is_backslash value then brace_loop n (S i) depth true true
        else if is_quote value then brace_loop n (S i) depth false false
        else brace_loop n (S i) depth true false
      else if is_quote value then brace_loop n (S i) depth true escaped
      else if is_char "{" value then brace_loop n (S i) (u64_add depth 1) false escaped
      else if is_char "}" value then
        if u64_sub depth 1 =? 0 then Ok (S i)
        else brace_loop n (S i) (u64_sub depth 1) false escaped
      else brace_loop n (S i) depth false escaped
  end.

Definition matching_brace (begin : nat) : manifest nat :=
  brace_loop (length text - begin) begin 0 false false.

(** The inner loop of [find_field_value]: the position of the closing quote, or
    the limit. *)
Fixpoint string_end_loop (n string_end : nat) (escaped : bool) : manifest nat :=
  match n with
  | O => Ok string_end
  | S n =>
      character ← char_at string_end;
      if escaped then string_end_loop n (S string_end) false
      else if is_backslash character then string_end_loop n (S string_end) true
      else if is_quote character then Ok string_end
      else string_end_loop n (S string_end) false
  end.

(** The outer loop; each round moves on by at least one character. *)
Fixpoint field_loop (field : string) (fuel position nested_depth object_end : nat)
  : manifest (option nat) :=
  if negb (position <? object_end)%nat then Ok None
  else
  match fuel with
  | O => Fault OutOfFuel
  | S fuel =>
      value ← char_at position;
      if is_quote value then
        let string_begin := S position in
        string_end ← string_end_loop (object_end - string_begin) string_begin false;
        if (object_end <=? string_end)%nat then runtime_error "unterminated manifest string"
        else
          name ← substr string_begin (string_end - string_begin);
          if (nested_depth =? 0)%nat && bool_decide (name = String.list_byte_of_string field) then
            colon ← skip_space (S string_end) object_end;
            is_colon ← at_char (is_char ":") colon object_end;
            if (is_colon : bool) then
              position ← skip_space (S colon) object_end; Ok (Some position)
            else field_loop field fuel (S string_end) nested_depth object_end
          else field_loop field fuel (S string_end) nested_depth object_end
      else if is_char "{" value || is_char "[" value then
        field_loop field fuel (S position) (S nested_depth) object_end
      else if is_char "}" value || is_char "]" value then
        if (nested_depth =? 0)%nat then Ok None
        else field_loop field fuel (S position) (nested_depth - 1) object_end
      else field_loop field fuel (S position) nested_depth object_end
  end.

Definition find_field_value (field : string) (object_begin object_end : nat)
  : manifest (option nat) :=
  is_object ← at_char (is_char "{") object_begin object_end;
  if negb is_object then runtime_error "manifest field container is not object"
  else field_loop field (object_end - object_begin) (S object_begin) 0 object_end.

Definition field_value (field : string) (object_begin object_end : nat) : manifest nat :=
  position ← find_field_value field object_begin object_end;
  match position with
  | None => runtime_error ("missing manifest token " +:+ quotation +:+ field +:+ quotation)
  | Some position => Ok position
  end.

(** The loop of [read_string]: no escapes, the position of the closing quote or
    the limit. *)
Fixpoint plain_string_loop (n end_ : nat) : manifest nat :=
  match n with
  | O => Ok end_
  | S n =>
      value ← char_at end_;
      if is_quote value then Ok end_
      else if is_backslash value then runtime_error "escaped manifest strings are unsupported"
      else plain_string_loop n (S end_)
  end.

Definition read_string (field : string) (from limit : nat) : manifest bytes :=
  position ← field_value field from limit;
  is_string ← at_char is_quote position limit;
  if negb is_string then runtime_error ("manifest field is not string: " +:+ field)
  else
    let position := S position in
    end_ ← plain_string_loop (limit - position) position;
    if (limit <=? end_)%nat then runtime_error ("unterminated manifest string: " +:+ field)
    else substr position (end_ - position).

(** ** Integers *)

Definition digits_value (digits : bytes) : Z :=
  foldl (fun value b => value * 10 + (byte_val b - 48)) 0 digits.

(** [std::stoull] of a non-empty string of digits. *)
Definition stoull (digits : bytes) : manifest Z :=
  let value := digits_value digits in
  if value >? UINT64_MAX then throw OutOfRange "stoull" else Ok value.

Definition ends_integer (b : byte) : bool :=
  is_space b || is_char "," b || is_char "]" b || is_char "}" b.

Definition read_size_at (position limit : nat) (field : string) : manifest Z :=
  end_ ← skip_digits position limit;
  if (end_ =? position)%nat then runtime_error ("manifest field is not integer: " +:+ field)
  else
    junk ← at_char (fun b => negb (ends_integer b)) end_ limit;
    if (junk : bool) then runtime_error ("invalid manifest integer: " +:+ field)
    else digits ← substr position (end_ - position); stoull digits.

Definition read_size (field : string) (from limit : nat) : manifest Z :=
  position ← field_value field from limit;
  read_size_at position limit field.

Definition read_optional_size (field : string) (from limit : nat) (default_value : Z) : manifest Z :=
  position ← find_field_value field from limit;
  match position with
  | None => Ok default_value
  | Some position => read_size_at position limit field
  end.

(** [text_.compare(position, count, literal) == 0]: the range is cut at the end
    of the text, and a position behind it throws. *)
Definition text_starts (position : nat) (literal : string) : manifest bool :=
  if (length text <? position)%nat then throw OutOfRange "basic_string::compare"
  else Ok (bool_decide (take (String.length literal) (drop position text) =
                        String.list_byte_of_string literal)).

Definition read_optional_bool (field : string) (from limit : nat) (default_value : bool)
  : manifest bool :=
  position ← find_field_value field from limit;
  match position with
  | None => Ok default_value
  | Some position =>
      is_true ← text_starts position "true";
      if (is_true : bool) then Ok true
      else
        is_false ← text_starts position "false";
        if (is_false : bool) then Ok false
        else runtime_error ("manifest field is not boolean: " +:+ field)
  end.

Definition read_u32_at (position limit : nat) (field : string) : manifest Z :=
  value ← read_size_at position limit field;
  if value >? UINT32_MAX then runtime_error ("manifest field is too large: " +:+ field)
  else Ok (to_u32 value).

(** The loop of [read_u32_array]: [i] elements have been read. *)
Fixpoint u32_array_loop (field : string) (remaining i position limit : nat)
  : manifest (list Z * nat) :=
  match remaining with
  | O => Ok ([], position)
  | S remaining =>
      position ← skip_space position limit;
      value ← read_u32_at position limit field;
      position ← skip_digits position limit;
      position ← skip_space position limit;
      if (i <? 2)%nat then
        comma ← at_char (is_char ",") position limit;
        if negb comma then runtime_error ("invalid manifest array: " +:+ field)
        else
          '(rest, position) ← u32_array_loop field remaining (S i) (S position) limit;
          Ok (value :: rest, position)
      else
        '(rest, position) ← u32_array_loop field remaining (S i) position limit;
        Ok (value :: rest, position)
  end.

Definition read_u32_array (field : string) (from limit : nat) : manifest (list Z) :=
  position ← field_value field from limit;
  is_array ← at_char (is_char "[") position limit;
  if negb is_array then runtime_error ("manifest field is not array: " +:+ field)
  else
    '(out, position) ← u32_array_loop field 3 0 (S position) limit;
    position ← skip_space position limit;
    closed ← at_char (is_char "]") position limit;
    if negb closed then runtime_error ("invalid manifest array: " +:+ field) else Ok out.
End text.

(** ** Facts: every access is inside the text, and positions advance *)

Section text_facts.
Context (text : bytes).
Abbreviation size := (length text).

Lemma char_at_safe i : (i <= size)%nat -> safe (char_at text i) (fun _ => True).
Proof.
  intros Hi. unfold char_at. destruct (text !! i) eqn:E; [done|].
  apply lookup_ge_None in E. replace (i =? size)%nat with true; [done|]. lia.
Qed.

Lemma substr_safe position count :
  (position + count <= size)%nat ->
  safe (substr text position count) (fun s => s = take count (drop position text)).
Proof. intros H. unfold substr. destruct (Nat.leb_spec (position + count) size); [done|lia]. Qed.

Lemma scan_safe test n position :
  (position + n <= size)%nat ->
  safe (scan text test n position) (fun r => (position <= r <= position + n)%nat /\
    Forall (fun b => test b = true) (take (r - position) (drop position text))).
Proof.
  revert position. induction n as [|n IH]; intros position Hn; simpl.
  { split; [lia|]. rewrite Nat.sub_diag. constructor. }
  destruct (lookup_lt_is_Some_2 text position ltac:(lia)) as [b Hb].
  unfold char_at. rewrite Hb. cbn [mbind result_bind].
  destruct (test b) eqn:Ht; simpl.
  - eapply safe_mono; [apply IH; lia|]. intros r [Hr Hf]. split; [lia|].
    rewrite (drop_S _ _ _ Hb). replace (r - position)%nat with (S (r - S position)) by lia.
    simpl. by constructor.
  - split; [lia|]. rewrite Nat.sub_diag. constructor.
Qed.

(** What a scan up to a limit in the text gives. *)
Definition advanced (position limit r : nat) : Prop :=
  (position <= r)%nat /\ (r <= Nat.max position limit)%nat.

Lemma skip_space_safe position limit :
  (limit <= size)%nat -> safe (skip_space text position limit) (advanced position limit).
Proof.
  intros Hl. unfold skip_space, advanced. destruct (Nat.le_gt_cases limit position) as [H|H].
  - replace (limit - position)%nat with 0%nat by lia. simpl. lia.
  - eapply safe_mono; [apply scan_safe; lia|]. intros r [Hr _]. lia.
Qed.

Lemma skip_digits_safe position limit :
  (limit <= size)%nat ->
  safe (skip_digits text position limit) (fun r => advanced position limit r /\
    Forall (fun b => is_digit b = true) (take (r - position) (drop position text))).
Proof.
  intros Hl. unfold skip_digits, advanced. destruct (Nat.le_gt_cases limit position) as [H|H].
  - replace (limit - position)%nat with 0%nat by lia. simpl. rewrite Nat.sub_diag.
    split; [lia|constructor].
  - eapply safe_mono; [apply scan_safe; lia|]. intros r [Hr Hf]. split; [lia|done].
Qed.

Lemma at_char_safe test position limit :
  (limit <= size)%nat ->
  safe (at_char text test position limit) (fun r => r = true -> (position < limit)%nat).
Proof.
  intros Hl. unfold at_char. destruct (Nat.ltb_spec position limit); [|done].
  eapply safe_bind; [apply char_at_safe; lia|]. by intros b _ _.
Qed.

Lemma brace_loop_safe n i depth in_string escaped :
  (i + n <= size)%nat ->
  safe (brace_loop text n i depth in_string escaped) (fun r => (i < r <= i + n)%nat).
Proof.
  revert i depth in_string escaped. induction n as [|n IH]; intros i depth in_string escaped Hn;
    [done|]. cbn [brace_loop].
  eapply safe_bind; [apply char_at_safe; lia|]. intros b _.
  repeat case_match; try (simpl; lia);
    (eapply safe_mono; [apply IH; lia|]; cbn beta; intros; lia).
Qed.

Lemma matching_brace_safe begin :
  (begin <= size)%nat -> safe (matching_brace text begin) (fun r => (begin < r <= size)%nat).
Proof.
  intros Hb. unfold matching_brace. eapply safe_mono; [apply brace_loop_safe; lia|].
  cbn beta. intros r Hr. lia.
Qed.

Lemma string_end_loop_safe n i escaped :
  (i + n <= size)%nat ->
  safe (string_end_loop text n i escaped) (fun r => (i <= r <= i + n)%nat).
Proof.
  revert i escaped. induction n as [|n IH]; intros i escaped Hn; simpl; [lia|].
  eapply safe_bind; [apply char_at_safe; lia|]. intros b _.
  repeat case_match; try (simpl; lia);
    (eapply safe_mono; [apply IH; lia|]; cbn beta; intros; lia).
Qed.

Lemma field_loop_safe field fuel position depth limit :
  (limit <= size)%nat -> (limit - position <= fuel)%nat ->
  safe (field_loop text field fuel position depth limit)
    (fun r => forall p, r = Some p -> (position < p <= limit)%nat).
Proof.
  intros Hl. revert position depth.
  induction fuel as [|fuel IH]; intros position depth Hf; cbn [field_loop].
  { destruct (Nat.ltb_spec position limit); [lia|done]. }
  destruct (Nat.ltb_spec position limit) as [Hp|Hp]; cbn [negb]; [|done].
  assert (forall q d, (position < q)%nat ->
    safe (field_loop text field fuel q d limit)
      (fun r => forall p, r = Some p -> (position < p <= limit)%nat)) as Hrec.
  { intros q d Hq. eapply safe_mono; [apply IH; lia|]. cbn beta. intros r Hr p Hp'.
    specialize (Hr p Hp'). lia. }
  eapply safe_bind; [apply char_at_safe; lia|]. intros b _.
  destruct (is_quote b).
  - cbv zeta. eapply safe_bind; [apply string_end_loop_safe; lia|]. cbn beta. intros e He.
    destruct (Nat.leb_spec limit e); [done|].
    eapply safe_bind; [apply substr_safe; lia|]. intros name _.
    destruct (_ && _); [|apply Hrec; lia].
    eapply safe_bind; [by apply skip_space_safe|]. intros colon [Hc1 Hc2].
    eapply safe_bind; [by apply at_char_safe|]. cbn beta. intros [|] Hcolon; [|apply Hrec; lia].
    specialize (Hcolon eq_refl). eapply safe_bind; [by apply skip_space_safe|].
    intros q [Hq1 Hq2] p [= <-]. lia.
  - repeat case_match; try done; apply Hrec; lia.
Qed.

Lemma find_field_value_safe field from limit :
  (limit <= size)%nat ->
  safe (find_field_value text field from limit)
    (fun r => forall p, r = Some p -> (from < p <= limit)%nat).
Proof.
  intros Hl. unfold find_field_value. eapply safe_bind; [by apply at_char_safe|].
  intros [|] Hat; [|done]. specialize (Hat eq_refl). cbn [negb].
  eapply safe_mono; [apply field_loop_safe; [done|lia]|]. cbn beta. intros r Hr p Hp.
  specialize (Hr p Hp). lia.
Qed.

Lemma field_value_safe field from limit :
  (limit <= size)%nat ->
  safe (field_value text field from limit) (fun p => (from < p <= limit)%nat).
Proof.
  intros Hl. unfold field_value. eapply safe_bind; [by apply find_field_value_safe|].
  intros [p|] Hp; [|done]. by apply Hp.
Qed.

Lemma plain_string_loop_safe n i :
  (i + n <= size)%nat -> safe (plain_string_loop text n i) (fun r => (i <= r <= i + n)%nat).
Proof.
  revert i. induction n as [|n IH]; intros i Hn; simpl; [lia|].
  eapply safe_bind; [apply char_at_safe; lia|]. intros b _.
  repeat case_match; try done; try (simpl; lia).
  eapply safe_mono; [apply IH; lia|]. cbn beta. intros; lia.
Qed.

Lemma read_text_string_safe field from limit :
  (limit <= size)%nat -> safe (read_string text field from limit) (fun _ => True).
Proof.
  intros Hl. unfold read_string. eapply safe_bind; [by apply field_value_safe|].
  cbn beta. intros p Hp. eapply safe_bind; [by apply at_char_safe|]. intros [|] Hat; [|done].
  specialize (Hat eq_refl). cbn [negb]. cbv zeta.
  eapply safe_bind; [apply plain_string_loop_safe; lia|]. cbn beta. intros e He.
  destruct (Nat.leb_spec limit e); [done|].
  eapply safe_mono; [apply substr_safe; lia|]. done.
Qed.

Lemma digits_value_nonneg digits :
  Forall (fun b => is_digit b = true) digits -> 0 <= digits_value digits.
Proof.
  unfold digits_value. intros Hd. assert (0 <= 0) as H0 by lia. revert H0.
  generalize 0 at 2 4. induction Hd as [|b digits Hb Hd IH]; intros v Hv; simpl; [done|].
  apply IH. unfold is_digit in Hb. lia.
Qed.

Lemma read_size_at_safe position limit field :
  (position <= limit <= size)%nat ->
  safe (read_size_at text position limit field) (fun v => is_u64 v).
Proof.
  intros Hl. unfold read_size_at. eapply safe_bind; [apply skip_digits_safe; lia|].
  intros e [[He1 He2] Hd]. destruct (Nat.eqb_spec e position); [done|].
  eapply safe_bind; [apply at_char_safe; lia|]. intros [|] _; [done|].
  eapply safe_bind; [apply substr_safe; lia|]. intros digits ->.
  unfold stoull. cbv zeta. pose proof (digits_value_nonneg _ Hd).
  destruct (_ >? _) eqn:G; [done|]. simpl. lia.
Qed.

Lemma read_size_safe field from limit :
  (limit <= size)%nat -> safe (read_size text field from limit) (fun v => is_u64 v).
Proof.
  intros Hl. unfold read_size. eapply safe_bind; [by apply field_value_safe|].
  cbn beta. intros p Hp. apply read_size_at_safe. lia.
Qed.

Lemma read_optional_size_safe field from limit default_value :
  (limit <= size)%nat -> is_u64 default_value ->
  safe (read_optional_size text field from limit default_value) (fun v => is_u64 v).
Proof.
  intros Hl Hd. unfold read_optional_size. eapply safe_bind; [by apply find_field_value_safe|].
  intros [p|] Hp; [|done]. specialize (Hp p eq_refl). apply read_size_at_safe. lia.
Qed.

Lemma text_starts_safe position literal :
  (position <= size)%nat -> safe (text_starts text position literal) (fun _ => True).
Proof. intros Hp. unfold text_starts. destruct (Nat.ltb_spec size position); [lia|done]. Qed.

Lemma read_optional_bool_safe field from limit default_value :
  (limit <= size)%nat ->
  safe (read_optional_bool text field from limit default_value) (fun _ => True).
Proof.
  intros Hl. unfold read_optional_bool. eapply safe_bind; [by apply find_field_value_safe|].
  intros [p|] Hp; [|done]. specialize (Hp p eq_refl).
  eapply safe_bind; [apply text_starts_safe; lia|]. intros [|] _; [done|].
  eapply safe_bind; [apply text_starts_safe; lia|]. by intros [|] _.
Qed.

Lemma read_u32_at_safe position limit field :
  (position <= limit <= size)%nat ->
  safe (read_u32_at text position limit field) (fun v => is_u32 v).
Proof.
  intros Hl. unfold read_u32_at. eapply safe_bind; [by apply read_size_at_safe|].
  cbn beta. intros v Hv. destruct (_ >? _) eqn:G; [done|]. simpl. rewrite to_u32_small by lia. lia.
Qed.

Lemma u32_array_loop_safe field n i position limit :
  (position <= limit <= size)%nat ->
  safe (u32_array_loop text field n i position limit)
    (fun '(l, p) => length l = n /\ Forall (fun v => is_u32 v) l /\ (p <= limit)%nat).
Proof.
  revert i position. induction n as [|n IH]; intros i position Hl; simpl.
  { split_and!; [done|constructor|lia]. }
  eapply safe_bind; [apply skip_space_safe; lia|]. intros p1 [H1 H2].
  eapply safe_bind; [apply read_u32_at_safe; lia|]. cbn beta. intros v Hv.
  eapply safe_bind; [apply skip_digits_safe; lia|]. intros p2 [[H3 H4] _].
  eapply safe_bind; [apply skip_space_safe; lia|]. intros p3 [H5 H6].
  assert (forall p, (p <= limit)%nat -> safe
    ('(rest, position) ← u32_array_loop text field n (S i) p limit; Ok (v :: rest, position))
    (fun '(l, p) => length l = S n /\ Forall (fun v => is_u32 v) l /\ (p <= limit)%nat)) as Hrec.
  { intros p Hp. eapply safe_bind; [apply IH; lia|]. intros [l q] (Hl1 & Hl2 & Hl3).
    simpl. split_and!; [by rewrite Hl1|by constructor|done]. }
  destruct (i <? 2)%nat; [|apply Hrec; lia].
  eapply safe_bind; [apply at_char_safe; lia|]. intros [|] Hat; [|done]. cbn [negb].
  specialize (Hat eq_refl). apply Hrec. lia.
Qed.

Lemma read_u32_array_safe field from limit :
  (limit <= size)%nat ->
  safe (read_u32_array text field from limit)
    (fun l => length l = 3%nat /\ Forall (fun v => is_u32 v) l).
Proof.
  intros Hl. unfold read_u32_array. eapply safe_bind; [by apply field_value_safe|].
  cbn beta. intros p Hp. eapply safe_bind; [by apply at_char_safe|]. intros [|] Hat; [|done].
  specialize (Hat eq_refl). cbn [negb].
  eapply safe_bind; [apply u32_array_loop_safe; lia|]. intros [out q] (H1 & H2 & H3).
  eapply safe_bind; [by apply skip_space_safe|]. intros q2 _.
  eapply safe_bind; [by apply at_char_safe|]. by intros [|] _.
Qed.
End text_facts.
