(* ===== verification/BundleManifest.v ===== *)
(** * Bundle manifests

    The structural half of [src/bundle.cpp]: paths, grid expressions,
    arguments, kernels, the manifest, and the launch configuration computed
    from it. *)

From stdpp Require Import pretty.
From S2P Require Import Prelude Order Memory CodeObject HiddenKernargs BundleText.

Definition kSupportedBundleManifestVersion : Z := 1.

Record KernelArgument := mkKernelArgument {
  arg_name : bytes;
  arg_type : bytes;
  arg_offset : Z;
  arg_size : Z;
  arg_optional : bool
}.

Record KernelManifest := mkKernelManifest {
  mf_manifest_version : Z;
  mf_target : bytes;
  mf_name : bytes;
  mf_symbol : bytes;
  mf_code_object : bytes;
  mf_block : Z * Z * Z;
  mf_grid_multiplier : Z;
  mf_grid_divisor : Z;
  mf_kernarg_size : Z;
  mf_shared_memory_bytes : Z;
  mf_workspace_bytes : Z;
  mf_arg_offsets : list Z;
  mf_args : list KernelArgument
}.

Definition text_of (l : bytes) : string := String.string_of_list_byte l.

(** ** Paths *)

(** [find(c, begin)] on the characters from [begin]. *)
Fixpoint find_from (test : byte -> bool) (l : bytes) (begin : nat) : option nat :=
  match l with
  | [] => None
  | b :: l => if test b then Some begin else find_from test l (S begin)
  end.

Definition find (test : byte -> bool) (l : bytes) (begin : nat) : option nat :=
  find_from test (drop begin l) begin.

Definition is_slash (b : byte) : bool := bool_decide (b = x2f).
Definition dot_dot : bytes := [x2e; x2e].

(** [while (begin <= path.size())]; every round moves [begin] on. *)
Fixpoint parent_loop (path : bytes) (fuel begin : nat) : bool :=
  match fuel with
  | O => false
  | S fuel =>
      if (begin <=? length path)%nat then
        match find is_slash path begin with
        | Some end_ =>
            if bool_decide (take (end_ - begin) (drop begin path) = dot_dot) then true
            else parent_loop path fuel (S end_)
        | None => bool_decide (drop begin path = dot_dot)
        end
      else false
  end.

Definition has_parent_component (path : bytes) : bool :=
  parent_loop path (S (length path)) 0.

(** [file_name.empty() || file_name[0] == '/' || has_parent_component(file_name)] *)
Definition leaves_bundle (path : bytes) : bool :=
  match path with
  | [] => true
  | b :: _ => is_slash b || has_parent_component path
  end.

(** [find_last_of('/')] *)
Fixpoint find_last_slash (l : bytes) (i : nat) : option nat :=
  match l with
  | [] => None
  | b :: l =>
      match find_last_slash l (S i) with
      | Some j => Some j
      | None => if is_slash b then Some i else None
      end
  end.

Definition bundle_file_path (manifest_path file_name : bytes) : manifest bytes :=
  if leaves_bundle file_name then runtime_error "bundle code object path must stay in bundle"
  else
    match find_last_slash manifest_path 0 with
    | None => Ok file_name
    | Some slash => Ok (take (S slash) manifest_path ++ file_name)
    end.

(** ** Grid expressions *)

Definition is_blank (b : byte) : bool := bool_decide (b = x20).

(** [while (end > begin && expr[end - 1] == ' ') --end], with [n] characters
    behind [begin]. *)
Fixpoint trim_end (expr : bytes) (n begin : nat) : manifest nat :=
  match n with
  | O => Ok begin
  | S n =>
      b ← char_at expr (begin + n);
      if is_blank b then trim_end expr n begin else Ok (begin + S n)%nat
  end.

(** The loop over the digits. *)
Fixpoint grid_digits (digits : bytes) (value : Z) : manifest Z :=
  match digits with
  | [] => Ok value
  | b :: digits =>
      if negb (is_digit b) then runtime_error "unsupported bundle grid expression"
      else
        let value := u64_add (u64_mul value 10) (byte_val b - 48) in
        if value >? UINT32_MAX then runtime_error "bundle grid expression is too large"
        else grid_digits digits value
  end.

Definition parse_grid_integer (expr : bytes) (begin end_ : nat) : manifest Z :=
  begin ← scan expr is_blank (end_ - begin) begin;
  end_ ← trim_end expr (end_ - begin) begin;
  if (begin =? end_)%nat then runtime_error "unsupported bundle grid expression"
  else
    digits ← substr expr begin (end_ - begin);
    value ← grid_digits digits 0;
    Ok (to_u32 value).

Definition grid_prefix : bytes := String.list_byte_of_string "ceil_div(n, ".

(** The divisor and the multiplier of ["ceil_div(n, D) * M"]. *)
Definition parse_grid_expr (expr : bytes) : manifest (Z * Z) :=
  if negb (bool_decide (take (length grid_prefix) expr = grid_prefix)) then
    runtime_error "unsupported bundle grid expression"
  else
    let divisor_begin := length grid_prefix in
    match find (is_char ")") expr divisor_begin with
    | None => runtime_error "unsupported bundle grid expression"
    | Some divisor_end =>
        multiply ← scan expr is_blank (length expr - S divisor_end) (S divisor_end);
        star ← at_char expr (is_char "*") multiply (length expr);
        if negb star then runtime_error "unsupported bundle grid expression"
        else
          multiplier_begin ← scan expr is_blank (length expr - S multiply) (S multiply);
          divisor ← parse_grid_integer expr divisor_begin divisor_end;
          multiplier ← parse_grid_integer expr multiplier_begin (length expr);
          Ok (divisor, multiplier)
    end.

Section parser.
Context (text : bytes).

(** One of the two trailing [, 1] of the grid: the position behind it. *)
Definition read_grid_one (position limit : nat) (what : string) : manifest nat :=
  comma ← at_char text (is_char ",") position limit;
  if negb comma then runtime_error "invalid manifest grid array"
  else
    position ← skip_space text (S position) limit;
    value ← read_u32_at text position limit "grid";
    if negb (value =? 1) then runtime_error what
    else
      position ← skip_digits text position limit;
      skip_space text position limit.

Definition read_grid_string (from limit : nat) : manifest bytes :=
  position ← field_value text "grid" from limit;
  is_array ← at_char text (is_char "[") position limit;
  if negb is_array then runtime_error "manifest grid is not array"
  else
    position ← skip_space text (S position) limit;
    is_string ← at_char text is_quote position limit;
    if negb is_string then runtime_error "manifest grid[0] is not expression string"
    else
      let position := S position in
      match find is_quote text position with
      | None => runtime_error "unterminated manifest grid expression"
      | Some end_ =>
          if (limit <=? end_)%nat then runtime_error "unterminated manifest grid expression"
          else
            expr ← substr text position (end_ - position);
            position ← skip_space text (S end_) limit;
            position ← read_grid_one position limit "bundle grid y dimension must be 1";
            position ← read_grid_one position limit "bundle grid z dimension must be 1";
            closed ← at_char text (is_char "]") position limit;
            if negb closed then runtime_error "invalid manifest grid array" else Ok expr
      end.

Definition read_grid_expr (from limit : nat) : manifest (Z * Z) :=
  expr ← read_grid_string from limit;
  parse_grid_expr expr.

(** ** Arguments *)

Definition read_arg (position arg_end : nat) : manifest KernelArgument :=
  name ← read_string text "name" position arg_end;
  type ← read_string text "type" position arg_end;
  offset ← read_size text "offset" position arg_end;
  size ← read_size text "size" position arg_end;
  optional ← read_optional_bool text "optional" position arg_end false;
  Ok (mkKernelArgument name type offset size optional).

(** [try { ... } catch (const std::exception &error) { throw runtime_error(context +
    error.what()) }] *)
Definition rethrow {A} (body : manifest A) (context : manifest string) : manifest A :=
  match body with
  | Err error => prefix ← context; runtime_error (prefix +:+ ex_what error)
  | _ => body
  end.

(** The separator behind an element of an array: the next position. *)
Definition next_element (position limit : nat) (what : string) : manifest nat :=
  comma ← at_char text (is_char ",") position limit;
  if (comma : bool) then
    position ← skip_space text (S position) limit;
    more ← at_char text (fun b => negb (is_char "]" b)) position limit;
    if (more : bool) then Ok position else runtime_error what
  else
    closed ← at_char text (is_char "]") position limit;
    if (closed : bool) then Ok position else runtime_error what.

Fixpoint args_loop (fuel position limit arg_index : nat) : manifest (list KernelArgument) :=
  more ← at_char text (fun b => negb (is_char "]" b)) position limit;
  if negb more then Ok []
  else
  match fuel with
  | O => Fault OutOfFuel
  | S fuel =>
      is_object ← at_char text (is_char "{") position limit;
      if negb is_object then runtime_error "invalid manifest args array"
      else
        arg_end ← matching_brace text position;
        arg ← rethrow (read_arg position arg_end)
                (Ok ("args[" +:+ pretty arg_index +:+ "]: "));
        position ← skip_space text arg_end limit;
        position ← next_element position limit "invalid manifest args array";
        rest ← args_loop fuel position limit (S arg_index);
        Ok (arg :: rest)
  end.

Definition read_args (from limit : nat) : manifest (list KernelArgument) :=
  args ← field_value text "args" from limit;
  is_array ← at_char text (is_char "[") args limit;
  if negb is_array then runtime_error "manifest args is not array"
  else
    position ← skip_space text (S args) limit;
    args_out ← args_loop (limit - args) position limit 0;
    if bool_decide (args_out = []) then runtime_error "bundle manifest has no arguments"
    else Ok args_out.

Definition arg_context (index : nat) (arg : KernelArgument) : string :=
  "args[" +:+ pretty index +:+ "]" +:+
  (if bool_decide (arg_name arg = []) then "" else " '" +:+ text_of (arg_name arg) +:+ "'").

(** The loop of [validate_args]; [earlier] are the arguments before [i]. *)
Fixpoint validate_args_loop (earlier args : list KernelArgument) (kernarg_size previous : Z)
  : manifest () :=
  match args with
  | [] => Ok ()
  | arg :: args =>
      let i := length earlier in
      if bool_decide (arg_name arg = []) || bool_decide (arg_type arg = []) || (arg_size arg =? 0)
      then runtime_error (arg_context i arg +:+ ": invalid bundle argument manifest")
      else if (arg_offset arg >=? kernarg_size) || (arg_size arg >? kernarg_size) ||
              (u64_add (arg_offset arg) (arg_size arg) >? kernarg_size)
      then runtime_error (arg_context i arg +:+ ": argument range exceeds kernarg_size")
      else if (0 <? i)%nat && (arg_offset arg <=? previous)
      then runtime_error (arg_context i arg +:+
             ": argument offsets must be strictly increasing")
      else if existsb (fun other => bool_decide (arg_name other = arg_name arg)) earlier
      then runtime_error (arg_context i arg +:+ ": duplicate argument name")
      else validate_args_loop (earlier ++ [arg]) args kernarg_size (arg_offset arg)
  end.

Definition validate_args (args : list KernelArgument) (kernarg_size : Z) : manifest () :=
  validate_args_loop [] args kernarg_size 0.

(** ** Kernels *)

Definition parse_kernel (kernel_begin kernel_end : nat) : manifest KernelManifest :=
  name ← read_string text "name" kernel_begin kernel_end;
  symbol ← read_string text "symbol" kernel_begin kernel_end;
  code_object ← read_string text "code_object" kernel_begin kernel_end;
  if leaves_bundle code_object then runtime_error "bundle code object path must stay in bundle"
  else
  kernarg_size ← read_size text "kernarg_size" kernel_begin kernel_end;
  shared_memory_bytes ← read_optional_size text "shared_memory_bytes" kernel_begin kernel_end 0;
  if shared_memory_bytes >? UINT32_MAX then
    runtime_error "bundle shared memory requirement is too large"
  else
  workspace_bytes ← read_optional_size text "workspace_bytes" kernel_begin kernel_end 0;
  block ← read_u32_array text "block" kernel_begin kernel_end;
  '(grid_divisor, grid_multiplier) ← read_grid_expr kernel_begin kernel_end;
  args ← read_args kernel_begin kernel_end;
  _ ← validate_args args kernarg_size;
  match block with
  | [b0; b1; b2] =>
      if bool_decide (name = []) || bool_decide (symbol = []) || (kernarg_size =? 0) ||
         (b0 =? 0) || (b1 =? 0) || (b2 =? 0) || (grid_divisor =? 0) || (grid_multiplier =? 0)
      then runtime_error "invalid bundle manifest"
      else
        Ok (mkKernelManifest 0 [] name symbol code_object (b0, b1, b2) grid_multiplier grid_divisor
              kernarg_size (to_u32 shared_memory_bytes) workspace_bytes (arg_offset <$> args) args)
  | _ => Fault OutOfBounds
  end.

Definition kernel_context (index begin end_ : nat) : manifest string :=
  let context := ("bundle manifest kernels[" +:+ pretty index +:+ "]")%string in
  match read_string text "name" begin end_ with
  | Ok name =>
      Ok (if bool_decide (name = []) then context
          else context +:+ " '" +:+ text_of name +:+ "'")
  | Err _ => Ok context
  | Fault f => Fault f
  end.

Definition with_root (version : Z) (target : bytes) (m : KernelManifest) : KernelManifest :=
  mkKernelManifest version target (mf_name m) (mf_symbol m) (mf_code_object m) (mf_block m)
    (mf_grid_multiplier m) (mf_grid_divisor m) (mf_kernarg_size m) (mf_shared_memory_bytes m)
    (mf_workspace_bytes m) (mf_arg_offsets m) (mf_args m).

(** The loop over the kernels: the manifests, and the position where it stops. *)
Fixpoint kernels_loop (version : Z) (target : bytes) (fuel position : nat)
    (manifests : list KernelManifest) : manifest (list KernelManifest * nat) :=
  more ← at_char text (fun b => negb (is_char "]" b)) position (length text);
  if negb more then Ok (manifests, position)
  else
  match fuel with
  | O => Fault OutOfFuel
  | S fuel =>
      is_object ← at_char text (is_char "{") position (length text);
      if negb is_object then runtime_error "invalid kernel manifest array"
      else
        kernel_end ← matching_brace text position;
        parsed ← rethrow (parse_kernel position kernel_end)
          (context ← kernel_context (length manifests) position kernel_end; Ok (context +:+ ": "));
        let kernel := with_root version target parsed in
        if existsb (fun existing => bool_decide (mf_name existing = mf_name kernel)) manifests then
          runtime_error ("duplicate kernel name in bundle manifest: " +:+ text_of (mf_name kernel))
        else
          position ← skip_space text kernel_end (length text);
          position ← next_element position (length text) "invalid kernel manifest array";
          kernels_loop version target fuel position (manifests ++ [kernel])
  end.

Definition parse_kernels : manifest (list KernelManifest) :=
  root_begin ← skip_space text 0 (length text);
  is_object ← at_char text (is_char "{") root_begin (length text);
  if negb is_object then runtime_error "bundle manifest root is not object"
  else
  root_end ← matching_brace text root_begin;
  version_at ← field_value text "manifest_version" root_begin root_end;
  manifest_version ← read_u32_at text version_at root_end "manifest_version";
  if negb (manifest_version =? kSupportedBundleManifestVersion) then
    runtime_error ("unsupported bundle manifest_version: " +:+ pretty manifest_version)
  else
  target ← read_string text "target" root_begin root_end;
  if bool_decide (target = []) then runtime_error "bundle manifest target is empty"
  else
  position ← field_value text "kernels" root_begin root_end;
  is_array ← at_char text (is_char "[") position root_end;
  if negb is_array then runtime_error "manifest kernels is not array"
  else
  position ← skip_space text (S position) root_end;
  '(manifests, position) ← kernels_loop manifest_version target (length text) position [];
  if (length text <=? position)%nat || bool_decide (manifests = []) then
    runtime_error "bundle manifest has no kernels"
  else Ok manifests.
End parser.

(** The constructor's check, and the entry points. *)
Definition parse_bundle_manifests (data : option bytes) : manifest (list KernelManifest) :=
  match data with
  | None | Some [] => throw InvalidArgument "bundle manifest is empty"
  | Some text => parse_kernels text
  end.

(** [.front()] *)
Definition parse_bundle_manifest (data : option bytes) : manifest KernelManifest :=
  manifests ← parse_bundle_manifests data;
  match manifests with
  | m :: _ => Ok m
  | [] => Fault OutOfBounds
  end.

Fixpoint find_manifest (name : bytes) (manifests : list KernelManifest) : option KernelManifest :=
  match manifests with
  | [] => None
  | m :: manifests =>
      if bool_decide (mf_name m = name) then Some m else find_manifest name manifests
  end.

Definition parse_bundle_manifest_named (data : option bytes) (kernel_name : bytes)
  : manifest KernelManifest :=
  if bool_decide (kernel_name = []) then throw InvalidArgument "bundle kernel name is empty"
  else
    manifests ← parse_bundle_manifests data;
    match find_manifest kernel_name manifests with
    | Some m => Ok m
    | None => runtime_error ("bundle kernel not found: " +:+ text_of kernel_name)
    end.

(** ** Launch configuration *)

Definition launch_config_from_manifest (m : KernelManifest) (n : Z) : manifest lr_launch_config_t :=
  let '(b0, b1, b2) := mf_block m in
  if (b0 =? 0) || (b1 =? 0) || (b2 =? 0) then
    runtime_error "bundle launch block dimensions must be non-zero"
  else if (b0 >? UINT16_MAX) || (b1 >? UINT16_MAX) || (b2 >? UINT16_MAX) then
    runtime_error "bundle launch block dimensions exceed HSA packet limits"
  else if (mf_grid_divisor m =? 0) || (mf_grid_multiplier m =? 0) then
    runtime_error "invalid bundle launch configuration"
  else
    let programs := u64_sub (u64_add n (mf_grid_divisor m)) 1 / mf_grid_divisor m in
    let grid_x := u64_mul programs (mf_grid_multiplier m) in
    if grid_x >? UINT32_MAX then runtime_error "bundle grid size is too large"
    else if grid_x =? 0 then runtime_error "bundle launch grid dimensions must be non-zero"
    else if grid_x <? b0 then
      runtime_error "bundle launch grid dimensions must cover the workgroup"
    else
      Ok (mkLaunchConfig (mkDim3 (to_u32 grid_x) 1 1) (mkDim3 b0 b1 b2) (mf_shared_memory_bytes m)).

Definition require_kernarg_layout (m : KernelManifest) (kernarg_size : Z) (arg_offsets : list Z)
  : manifest () :=
  if negb (mf_kernarg_size m =? kernarg_size) || negb (bool_decide (mf_arg_offsets m = arg_offsets))
  then runtime_error "bundle manifest does not match kernarg layout"
  else Ok ().

(** ** Facts: paths *)

(** The components of a path, between its slashes. *)
Fixpoint components (path : bytes) : list bytes :=
  match path with
  | [] => [[]]
  | b :: path =>
      if is_slash b then [] :: components path
      else match components path with
      | c :: cs => (b :: c) :: cs
      | [] => [[b]]
      end
  end.

Lemma find_from_shift test l begin :
  find_from test l begin = (fun i => begin + i)%nat <$> find_from test l 0.
Proof.
  revert begin. induction l as [|b l IH]; intros begin; simpl; [done|].
  destruct (test b); simpl; [by rewrite Nat.add_0_r|].
  rewrite (IH (S begin)), (IH 1%nat). destruct (find_from test l 0); simpl; [|done].
  f_equal. lia.
Qed.

Lemma components_find l :
  components l =
    match find_from is_slash l 0 with
    | None => [l]
    | Some e => take e l :: components (drop (S e) l)
    end.
Proof.
  induction l as [|b l IH]; simpl; [done|]. destruct (is_slash b); [done|].
  rewrite find_from_shift, IH. by destruct (find_from is_slash l 0).
Qed.

Lemma parent_loop_spec path fuel begin :
  (length path - begin < fuel)%nat -> (begin <= length path)%nat ->
  parent_loop path fuel begin = true <-> dot_dot ∈ components (drop begin path).
Proof.
  revert begin. induction fuel as [|fuel IH]; intros begin Hf Hb; [lia|].
  cbn [parent_loop]. destruct (Nat.leb_spec begin (length path)); [|lia].
  unfold find. rewrite find_from_shift, (components_find (drop begin path)).
  destruct (find_from is_slash (drop begin path) 0) as [e|] eqn:Ee; simpl.
  - assert (e < length (drop begin path))%nat as He.
    { clear -Ee. revert e Ee. induction (drop begin path) as [|b l IH]; intros e; simpl; [done|].
      destruct (is_slash b); [intros [= <-]; lia|]. rewrite find_from_shift.
      destruct (find_from is_slash l 0) as [e'|]; [|done]. intros [= <-].
      specialize (IH e' eq_refl). simpl. lia. }
    rewrite length_drop in He. replace (begin + e - begin)%nat with e by lia.
    rewrite elem_of_cons, drop_drop.
    case_bool_decide as Hd; [split; [auto|done]|].
    rewrite IH by lia. replace (begin + S e)%nat with (S (begin + e)) by lia.
    split; [auto|intros [?|?]; [by subst|done]].
  - rewrite bool_decide_eq_true, list_elem_of_singleton. done.
Qed.

Lemma has_parent_component_spec path :
  has_parent_component path = true <-> dot_dot ∈ components path.
Proof. unfold has_parent_component. rewrite parent_loop_spec by lia. by rewrite drop_0. Qed.

(** A path below the bundle's directory. *)
Definition stays_in_bundle (path : bytes) : Prop :=
  (exists b rest, path = b :: rest /\ is_slash b = false) /\ dot_dot ∉ components path.

Lemma leaves_bundle_spec path : leaves_bundle path = false <-> stays_in_bundle path.
Proof.
  unfold leaves_bundle, stays_in_bundle. destruct path as [|b rest].
  { split; [done|]. by intros [(? & ? & ? & _) _]. }
  rewrite orb_false_iff, <-has_parent_component_spec, not_true_iff_false.
  split; [intros [? ?]; split; [eauto|done]|]. intros [(? & ? & [= <- <-] & ?) ?]. done.
Qed.

Lemma find_last_slash_spec l i :
  match find_last_slash l i with
  | None => Forall (fun b => is_slash b = false) l
  | Some j => (i <= j < i + length l)%nat /\ is_slash (default x00 (l !! (j - i)%nat)) = true /\
      Forall (fun b => is_slash b = false) (drop (S (j - i)) l)
  end.
Proof.
  revert i. induction l as [|b l IH]; intros i; simpl; [constructor|].
  specialize (IH (S i)). destruct (find_last_slash l (S i)) as [j|].
  - destruct IH as (Hj & Hs & Hf). split; [lia|].
    replace (j - i)%nat with (S (j - S i)) by lia. done.
  - destruct (is_slash b) eqn:E; [|by constructor].
    split; [lia|]. by rewrite Nat.sub_diag.
Qed.

(** A bundle's code object is looked for in the directory of its manifest:
    the file name is rejected exactly when it is empty, absolute or has a [..]
    component, and the path is otherwise the name behind the last slash of the
    manifest's path. *)
Theorem bundle_file_path_stays manifest_path file_name :
  match bundle_file_path manifest_path file_name with
  | Ok path =>
      stays_in_bundle file_name /\
      exists directory, path = directory ++ file_name /\
        exists base, manifest_path = directory ++ base /\
          Forall (fun b => is_slash b = false) base /\
          (directory = [] \/ exists b, last directory = Some b /\ is_slash b = true)
  | Err _ => ~ stays_in_bundle file_name
  | Fault _ => False
  end.
Proof.
  unfold bundle_file_path. destruct (leaves_bundle file_name) eqn:El; simpl.
  { rewrite <-leaves_bundle_spec. by rewrite El. }
  apply leaves_bundle_spec in El.
  pose proof (find_last_slash_spec manifest_path 0) as Hs.
  destruct (find_last_slash manifest_path 0) as [j|]; split; try done.
  - destruct Hs as (Hj & Hb & Hf). rewrite Nat.sub_0_r in Hb, Hf.
    exists (take (S j) manifest_path). split; [done|].
    exists (drop (S j) manifest_path). rewrite take_drop. split_and!; [done|done|]. right.
    destruct (lookup_lt_is_Some_2 manifest_path j ltac:(lia)) as [b Eb].
    rewrite Eb in Hb. exists b. split; [|done]. by rewrite (take_S_r _ _ _ Eb), last_snoc.
  - exists []. split; [done|]. exists manifest_path. split_and!; [done|done|by left].
Qed.

(** ** Facts: grid expressions *)

Lemma trim_end_safe expr n begin :
  (begin + n <= length expr)%nat ->
  safe (trim_end expr n begin) (fun r => (begin <= r <= begin + n)%nat).
Proof.
  induction n as [|n IH]; intros Hn; simpl; [lia|].
  eapply safe_bind; [apply char_at_safe; lia|]. intros b _.
  destruct (is_blank b); [|simpl; lia].
  eapply safe_mono; [apply IH; lia|]. cbn beta. intros; lia.
Qed.

Lemma grid_digits_safe digits value :
  is_u32 value -> safe (grid_digits digits value) (fun v => is_u32 v).
Proof.
  revert value. induction digits as [|b digits IH]; intros value Hv; simpl; [done|].
  destruct (is_digit b) eqn:Hd; cbn [negb]; [|done]. cbv zeta. unfold is_digit in Hd.
  rewrite u64_mul_small, u64_add_small by lia. destruct (_ >? _) eqn:G; [done|].
  apply IH. lia.
Qed.

Lemma parse_grid_integer_safe expr begin end_ :
  (begin <= end_ <= length expr)%nat ->
  safe (parse_grid_integer expr begin end_) (fun v => is_u32 v).
Proof.
  intros Hl. unfold parse_grid_integer. eapply safe_bind; [apply scan_safe; lia|].
  intros b [Hb _]. eapply safe_bind; [apply trim_end_safe; lia|]. cbn beta. intros e He.
  destruct (Nat.eqb_spec b e); [done|].
  eapply safe_bind; [apply substr_safe; lia|]. intros digits _.
  eapply safe_bind; [apply grid_digits_safe; lia|]. cbn beta. intros v Hv. simpl.
  by rewrite to_u32_small.
Qed.

Lemma find_bounds test l begin i :
  find test l begin = Some i -> (begin <= i < length l)%nat.
Proof.
  unfold find. rewrite find_from_shift.
  destruct (find_from test (drop begin l) 0) as [e|] eqn:E; [|done]. intros [= <-].
  assert (e < length (drop begin l))%nat as He.
  { clear -E. revert e E. induction (drop begin l) as [|b r IH]; intros e; simpl; [done|].
    destruct (test b); [intros [= <-]; lia|]. rewrite find_from_shift.
    destruct (find_from test r 0) as [e'|]; [|done]. intros [= <-]. specialize (IH e' eq_refl).
    simpl. lia. }
  rewrite length_drop in He. lia.
Qed.

Lemma parse_grid_expr_safe expr :
  safe (parse_grid_expr expr) (fun '(d, m) => is_u32 d /\ is_u32 m).
Proof.
  unfold parse_grid_expr. case_bool_decide as Hp; cbn [negb]; [|done]. cbv zeta.
  destruct (find _ expr _) as [e|] eqn:Ee; [|done]. apply find_bounds in Ee.
  eapply safe_bind; [apply scan_safe; lia|]. intros m [Hm _].
  eapply safe_bind; [by apply at_char_safe|]. intros [|] Hat; [|done]. cbn [negb].
  specialize (Hat eq_refl). eapply safe_bind; [apply scan_safe; lia|]. intros mb [Hmb _].
  eapply safe_bind; [apply parse_grid_integer_safe; lia|]. cbn beta. intros d Hd.
  eapply safe_bind; [apply parse_grid_integer_safe; lia|]. cbn beta. intros mu Hmu. done.
Qed.

Section parser_facts.
Context (text : bytes).
Abbreviation size := (length text).

Lemma read_grid_one_safe position limit what :
  (limit <= size)%nat ->
  safe (read_grid_one text position limit what) (fun r => (r <= limit)%nat).
Proof.
  intros Hl. unfold read_grid_one. eapply safe_bind; [by apply at_char_safe|].
  intros [|] Hat; [|done]. cbn [negb]. specialize (Hat eq_refl).
  eapply safe_bind; [by apply skip_space_safe|]. intros p [Hp1 Hp2].
  eapply safe_bind; [apply read_u32_at_safe; lia|]. intros v _.
  destruct (v =? 1); cbn [negb]; [|done].
  eapply safe_bind; [by apply skip_digits_safe|]. intros q [[Hq1 Hq2] _].
  eapply safe_mono; [by apply skip_space_safe|]. unfold advanced. lia.
Qed.

Lemma read_grid_expr_safe from limit :
  (limit <= size)%nat ->
  safe (read_grid_expr text from limit) (fun '(d, m) => is_u32 d /\ is_u32 m).
Proof.
  intros Hl. unfold read_grid_expr.
  eapply (safe_bind _ _ (fun _ => True)); [|intros; apply parse_grid_expr_safe].
  unfold read_grid_string. eapply safe_bind; [by apply field_value_safe|]. intros p Hp.
  eapply safe_bind; [by apply at_char_safe|]. intros [|] Hat; [|done]. cbn [negb].
  eapply safe_bind; [by apply skip_space_safe|]. intros q [Hq1 Hq2].
  eapply safe_bind; [by apply at_char_safe|]. intros [|] Hat2; [|done]. cbn [negb]. cbv zeta.
  destruct (find _ text _) as [e|] eqn:Ee; [|done]. apply find_bounds in Ee.
  destruct (Nat.leb_spec limit e); [done|].
  eapply safe_bind; [apply substr_safe; lia|]. intros expr _.
  eapply safe_bind; [by apply skip_space_safe|]. intros r1 _.
  eapply safe_bind; [by apply read_grid_one_safe|]. intros r2 _.
  eapply safe_bind; [by apply read_grid_one_safe|]. intros r3 _.
  eapply safe_bind; [by apply at_char_safe|]. by intros [|] _.
Qed.

(** ** Facts: arguments *)

Definition arg_typed (a : KernelArgument) : Prop := is_u64 (arg_offset a) /\ is_u64 (arg_size a).

Lemma read_arg_safe position arg_end :
  (arg_end <= size)%nat -> safe (read_arg text position arg_end) arg_typed.
Proof.
  intros Hl. unfold read_arg.
  eapply safe_bind; [by apply read_text_string_safe|]. intros name _.
  eapply safe_bind; [by apply read_text_string_safe|]. intros type _.
  eapply safe_bind; [by apply read_size_safe|]. intros offset Ho.
  eapply safe_bind; [by apply read_size_safe|]. intros sz Hs.
  eapply safe_bind; [by apply read_optional_bool_safe|]. done.
Qed.

Lemma rethrow_safe {A} (body : manifest A) context (Q : A -> Prop) :
  safe body Q -> safe context (fun _ => True) -> safe (rethrow body context) Q.
Proof.
  unfold rethrow. destruct body; try done. intros _ Hc.
  eapply safe_bind; [exact Hc|]. done.
Qed.

Lemma next_element_safe position limit what :
  (limit <= size)%nat ->
  safe (next_element text position limit what)
    (fun r => (position <= r < limit)%nat).
Proof.
  intros Hl. unfold next_element. eapply safe_bind; [by apply at_char_safe|].
  intros [|] Hat.
  - specialize (Hat eq_refl). eapply safe_bind; [by apply skip_space_safe|]. intros p [Hp1 Hp2].
    eapply safe_bind; [by apply at_char_safe|]. intros [|] Hm; [|done].
    specialize (Hm eq_refl). simpl. lia.
  - eapply safe_bind; [by apply at_char_safe|]. intros [|] Hm; [|done].
    specialize (Hm eq_refl). simpl. lia.
Qed.

Lemma args_loop_safe fuel position limit index :
  (limit <= size)%nat -> (limit - position <= fuel)%nat ->
  safe (args_loop text fuel position limit index) (Forall arg_typed).
Proof.
  intros Hl. revert position index.
  induction fuel as [|fuel IH]; intros position index Hf; cbn [args_loop];
    (eapply safe_bind; [by apply at_char_safe|]; intros [|] Hat; cbn [negb]; [|by constructor]);
    specialize (Hat eq_refl); [lia|].
  eapply safe_bind; [by apply at_char_safe|]. intros [|] _; [|done]. cbn [negb].
  eapply safe_bind; [apply matching_brace_safe; lia|]. cbn beta. intros e He.
  eapply safe_bind; [apply rethrow_safe; [apply read_arg_safe; lia|done]|]. intros arg Harg.
  eapply safe_bind; [by apply skip_space_safe|]. intros p [Hp1 Hp2].
  eapply safe_bind; [by apply next_element_safe|]. cbn beta. intros q Hq.
  eapply safe_bind; [apply IH; lia|]. intros rest Hrest. simpl. by constructor.
Qed.

Lemma read_args_safe from limit :
  (limit <= size)%nat ->
  safe (read_args text from limit) (fun l => Forall arg_typed l /\ l <> []).
Proof.
  intros Hl. unfold read_args. eapply safe_bind; [by apply field_value_safe|]. intros p Hp.
  eapply safe_bind; [by apply at_char_safe|]. intros [|] _; [|done]. cbn [negb].
  eapply safe_bind; [by apply skip_space_safe|]. intros q [Hq1 Hq2].
  eapply safe_bind; [apply args_loop_safe; [done|lia]|]. intros args Hargs.
  case_bool_decide; [done|]. done.
Qed.
End parser_facts.

(** What [validate_args] establishes. *)
Record args_ok (kernarg_size : Z) (args : list KernelArgument) : Prop := {
  ak_each : Forall (fun a => arg_name a <> [] /\ arg_type a <> [] /\ arg_size a <> 0 /\
    arg_offset a < kernarg_size /\ arg_size a <= kernarg_size /\
    u64_add (arg_offset a) (arg_size a) <= kernarg_size) args;
  ak_offsets : StronglySorted (fun a b => arg_offset a < arg_offset b) args;
  ak_names : NoDup (arg_name <$> args)
}.

Lemma StronglySorted_snoc {A} (R : A -> A -> Prop) l x :
  StronglySorted R l -> Forall (fun y => R y x) l -> StronglySorted R (l ++ [x]).
Proof.
  induction 1 as [|y l Hl IH Hy]; intros Hx; simpl; [by repeat constructor|].
  apply Forall_cons in Hx as [Hyx Hx]. constructor; [by apply IH|].
  apply Forall_app. split; [done|]. by constructor.
Qed.

Lemma validate_args_loop_safe earlier args kernarg_size previous :
  args_ok kernarg_size earlier -> Forall (fun a => arg_offset a <= previous) earlier ->
  safe (validate_args_loop earlier args kernarg_size previous)
    (fun _ => args_ok kernarg_size (earlier ++ args)).
Proof.
  revert earlier previous. induction args as [|a args IH]; intros earlier previous Hok Hprev.
  { simpl. by rewrite app_nil_r. }
  cbn [validate_args_loop]. cbv zeta.
  do 4 (safe_step; [done|]). rename Hg into G1, Hg0 into G2, Hg1 into G3, Hg2 into G4.
  rewrite (cons_middle a earlier args), app_assoc. apply IH.
  - rewrite !orb_false_iff, !bool_decide_eq_false in G1. destruct G1 as [[Hn Ht] Hs].
    rewrite !orb_false_iff in G2. destruct G2 as [[Ho Hsz] Hsum].
    destruct Hok as [He Hsort Hnames]. split.
    + apply Forall_app. split; [done|]. constructor; [|constructor].
      split_and!; [done|done|lia|lia|lia|lia].
    + apply StronglySorted_snoc; [done|]. destruct earlier as [|e earlier]; [constructor|].
      apply andb_false_iff in G3 as [G3|G3]; [simpl in G3; lia|].
      eapply Forall_impl; [exact Hprev|]. cbn beta. intros x Hx. lia.
    + rewrite fmap_app. apply NoDup_app. split_and!; [done| |apply NoDup_singleton].
      intros n Hin Hn2. apply list_elem_of_singleton in Hn2 as ->.
      apply list_elem_of_fmap in Hin as (x & Hx & Hin).
      apply not_true_iff_false in G4. apply G4, existsb_exists. exists x.
      split; [by apply list_elem_of_In|]. by apply bool_decide_eq_true.
  - apply Forall_app. split; [|constructor; [lia|constructor]].
    destruct earlier as [|e earlier]; [constructor|].
    apply andb_false_iff in G3 as [G3|G3]; [simpl in G3; lia|].
    eapply Forall_impl; [exact Hprev|]. cbn beta. intros x Hx. lia.
Qed.

Lemma validate_args_safe args kernarg_size :
  safe (validate_args args kernarg_size) (fun _ => args_ok kernarg_size args).
Proof. apply (validate_args_loop_safe []); [split; constructor|constructor]. Qed.

(** ** Facts: kernels *)

(** What a manifest entry promises, before the root's version and target are
    filled in. *)
Record kernel_wf (m : KernelManifest) : Prop := {
  kw_name : mf_name m <> [];
  kw_symbol : mf_symbol m <> [];
  kw_code_object : stays_in_bundle (mf_code_object m);
  kw_block : forall b, b ∈ [(mf_block m).1.1; (mf_block m).1.2; (mf_block m).2] -> 0 < b < U32_MOD;
  kw_grid : 0 < mf_grid_divisor m < U32_MOD /\ 0 < mf_grid_multiplier m < U32_MOD;
  kw_kernarg : 0 < mf_kernarg_size m < U64_MOD;
  kw_shared : is_u32 (mf_shared_memory_bytes m);
  kw_workspace : is_u64 (mf_workspace_bytes m);
  kw_args : mf_args m <> [] /\ Forall arg_typed (mf_args m) /\ args_ok (mf_kernarg_size m) (mf_args m);
  kw_offsets : mf_arg_offsets m = arg_offset <$> mf_args m
}.

Section kernel_facts.
Context (text : bytes).
Abbreviation size := (length text).

Lemma parse_kernel_safe from limit :
  (limit <= size)%nat -> safe (parse_kernel text from limit) kernel_wf.
Proof.
  intros Hl. unfold parse_kernel.
  eapply safe_bind; [by apply read_text_string_safe|]. intros name _.
  eapply safe_bind; [by apply read_text_string_safe|]. intros symbol _.
  eapply safe_bind; [by apply read_text_string_safe|]. intros code_object _.
  destruct (leaves_bundle code_object) eqn:Hcode; [done|]. apply leaves_bundle_spec in Hcode.
  eapply safe_bind; [by apply read_size_safe|]. cbn beta. intros kernarg_size Hk.
  eapply safe_bind; [apply read_optional_size_safe; [done|lia]|]. cbn beta. intros shared Hsh.
  destruct (_ >? _) eqn:Gsh; [done|].
  eapply safe_bind; [apply read_optional_size_safe; [done|lia]|]. cbn beta. intros workspace Hw.
  eapply safe_bind; [by apply read_u32_array_safe|]. intros block [Hb3 Hb].
  eapply safe_bind; [by apply read_grid_expr_safe|]. intros [d m] [Hd Hm].
  eapply safe_bind; [by apply read_args_safe|]. intros args [Hat Hne].
  eapply safe_bind; [apply validate_args_safe|]. cbn beta. intros _ Hok.
  destruct block as [|b0 [|b1 [|b2 [|]]]]; try done.
  rewrite !Forall_cons in Hb. destruct Hb as (Hb0 & Hb1 & Hb2 & _).
  safe_step; [done|]. rename Hg into G. rewrite !orb_false_iff, !bool_decide_eq_false in G.
  destruct G as [[[[[[[Gn Gs] Gk] G0] G1] G2] Gd] Gm].
  split; cbn; try done; try lia.
  - intros b Hin. rewrite !elem_of_cons, elem_of_nil in Hin. lia.
  - rewrite to_u32_small; lia.
Qed.

Lemma kernel_context_safe index from limit :
  (limit <= size)%nat -> safe (kernel_context text index from limit) (fun _ => True).
Proof.
  intros Hl. unfold kernel_context. pose proof (read_text_string_safe text "name" from limit Hl) as H.
  by destruct (read_string _ _ _ _).
Qed.
End kernel_facts.

(** What an accepted manifest promises. *)
Record manifests_wf (manifests : list KernelManifest) : Prop := {
  mw_nonempty : manifests <> [];
  mw_kernels : Forall kernel_wf manifests;
  mw_names : NoDup (mf_name <$> manifests);
  mw_version : Forall (fun m => mf_manifest_version m = kSupportedBundleManifestVersion) manifests;
  mw_target : exists target, target <> [] /\ Forall (fun m => mf_target m = target) manifests
}.

Section manifest_facts.
Context (text : bytes).
Abbreviation size := (length text).

Lemma with_root_wf version target m : kernel_wf m -> kernel_wf (with_root version target m).
Proof. by intros []. Qed.

Lemma kernels_loop_safe version target fuel position manifests :
  (size - position <= fuel)%nat ->
  Forall kernel_wf manifests -> NoDup (mf_name <$> manifests) ->
  Forall (fun m => mf_manifest_version m = version /\ mf_target m = target) manifests ->
  safe (kernels_loop text version target fuel position manifests)
    (fun '(l, _) => Forall kernel_wf l /\ NoDup (mf_name <$> l) /\
       Forall (fun m => mf_manifest_version m = version /\ mf_target m = target) l).
Proof.
  revert position manifests. induction fuel as [|fuel IH]; intros position manifests Hf Hw Hn Hr;
    cbn [kernels_loop]; (eapply safe_bind; [by apply at_char_safe|]; intros [|] Hat; cbn [negb];
      [specialize (Hat eq_refl)|done]); [lia|].
  eapply safe_bind; [by apply at_char_safe|]. intros [|] _; [|done]. cbn [negb].
  eapply safe_bind; [apply matching_brace_safe; lia|]. cbn beta. intros e He.
  eapply safe_bind.
  { apply rethrow_safe; [apply parse_kernel_safe; lia|].
    eapply safe_bind; [apply kernel_context_safe; lia|]. done. }
  intros parsed Hp. cbv zeta. safe_step; [done|].
  eapply safe_bind; [by apply skip_space_safe|]. intros p [Hp1 Hp2].
  eapply safe_bind; [by apply next_element_safe|]. cbn beta. intros q Hq.
  apply IH; [lia|..].
  - apply Forall_app. split; [done|]. constructor; [by apply with_root_wf|constructor].
  - rewrite fmap_app. apply NoDup_app. split_and!; [done| |apply NoDup_singleton].
    intros n Hin Hn2. apply list_elem_of_singleton in Hn2 as ->.
    apply list_elem_of_fmap in Hin as (x & Hx & Hin). apply not_true_iff_false in Hg. apply Hg.
    apply existsb_exists. exists x. split; [by apply list_elem_of_In|].
    by apply bool_decide_eq_true.
  - apply Forall_app. split; [done|]. by repeat constructor.
Qed.

Lemma parse_kernels_safe : safe (parse_kernels text) manifests_wf.
Proof.
  unfold parse_kernels. eapply safe_bind; [by apply skip_space_safe|]. intros r [Hr1 Hr2].
  eapply safe_bind; [by apply at_char_safe|]. intros [|] Hat; [|done]. cbn [negb].
  specialize (Hat eq_refl). eapply safe_bind; [apply matching_brace_safe; lia|].
  cbn beta. intros e He. eapply safe_bind; [apply field_value_safe; lia|]. cbn beta. intros v Hv.
  eapply safe_bind; [apply read_u32_at_safe; lia|]. cbn beta. intros version _.
  destruct (version =? _) eqn:Hver; cbn [negb]; [|done]. apply Z.eqb_eq in Hver.
  eapply safe_bind; [apply read_text_string_safe; lia|]. intros target _.
  case_bool_decide as Ht; [done|]. eapply safe_bind; [apply field_value_safe; lia|]. intros p Hp.
  eapply safe_bind; [apply at_char_safe; lia|]. intros [|] _; [|done]. cbn [negb].
  eapply safe_bind; [apply skip_space_safe; lia|]. intros q _.
  eapply safe_bind; [apply kernels_loop_safe; [lia|constructor..]|].
  intros [l position] (Hw & Hn & Hr). safe_step; [done|].
  apply orb_false_iff in Hg as [_ Hne]. apply bool_decide_eq_false in Hne.
  split; [done..| |].
  - eapply Forall_impl; [exact Hr|]. intros m [-> _]. done.
  - exists target. split; [done|]. eapply Forall_impl; [exact Hr|]. by intros m [_ ?].
Qed.
End manifest_facts.

(** C32: every text is either refused with an exception or gives a usable list
    of kernels, without reading outside the text and without running a loop
    past its bound: version 1, one non-empty target, distinct non-empty kernel
    names, code objects inside the bundle, non-zero block and grid
    parameters, and arguments with increasing offsets and distinct names. *)
Theorem parse_bundle_manifests_wf data : safe (parse_bundle_manifests data) manifests_wf.
Proof.
  unfold parse_bundle_manifests. destruct data as [[|b text]|]; [done| |done].
  apply parse_kernels_safe.
Qed.

(** ** Facts: selection *)

Lemma find_manifest_spec name manifests :
  match find_manifest name manifests with
  | Some m => m ∈ manifests /\ mf_name m = name
  | None => Forall (fun m => mf_name m <> name) manifests
  end.
Proof.
  induction manifests as [|m manifests IH]; simpl; [constructor|].
  case_bool_decide as H; [split; [left|done]|].
  destruct (find_manifest name manifests) as [r|].
  - destruct IH. split; [by right|done].
  - by constructor.
Qed.

(** ** Facts: launch configuration *)

(** [ceil_div(n, D) * M] *)
Definition grid_size (m : KernelManifest) (n : Z) : Z :=
  (n + mf_grid_divisor m - 1) / mf_grid_divisor m * mf_grid_multiplier m.

Lemma ceil_div_bounds n d :
  0 <= n -> 0 < d -> 0 <= (n + d - 1) / d <= n /\ n <= (n + d - 1) / d * d < n + d.
Proof.
  intros Hn Hd. set (q := (n + d - 1) / d).
  pose proof (Z.div_mod (n + d - 1) d ltac:(lia)) as Hdiv.
  pose proof (Z.mod_pos_bound (n + d - 1) d Hd). fold q in Hdiv. split; [|nia]. split; [nia|].
  destruct (decide (n = 0)) as [->|]; nia.
Qed.

Definition block_fits (m : KernelManifest) : Prop :=
  (mf_block m).1.1 <= UINT16_MAX /\ (mf_block m).1.2 <= UINT16_MAX /\ (mf_block m).2 <= UINT16_MAX.

(** The configuration is refused exactly for these reasons. *)
Definition launchable (m : KernelManifest) (n : Z) : Prop :=
  block_fits m /\ 0 < n /\ (mf_block m).1.1 <= grid_size m n <= UINT32_MAX.

Lemma launch_config_computed m n :
  kernel_wf m -> is_u32 n ->
  launch_config_from_manifest m n = Ok
    (mkLaunchConfig (mkDim3 (grid_size m n) 1 1)
       (mkDim3 (mf_block m).1.1 (mf_block m).1.2 (mf_block m).2) (mf_shared_memory_bytes m)) /\
    launchable m n \/
  (exists e, launch_config_from_manifest m n = Err e) /\ ~ launchable m n.
Proof.
  intros [_ _ _ Hb [Hd Hm] _ _ _ _ _] Hn. unfold launch_config_from_manifest, launchable, block_fits.
  destruct (mf_block m) as [[b0 b1] b2]. cbn [fst snd] in *.
  pose proof (Hb b0 ltac:(by left)). pose proof (Hb b1 ltac:(by right; left)).
  pose proof (Hb b2 ltac:(by right; right; left)). clear Hb.
  destruct (ceil_div_bounds n (mf_grid_divisor m) ltac:(lia) ltac:(lia)) as [Hq Hc].
  assert (Hg : u64_mul (u64_sub (u64_add n (mf_grid_divisor m)) 1 / mf_grid_divisor m)
                 (mf_grid_multiplier m) = grid_size m n).
  { rewrite u64_add_small, u64_sub_small by lia. unfold grid_size. rewrite u64_mul_small; [done|nia]. }
  rewrite Hg. cbv zeta. repeat case_match; try (right; split; [by eexists|lia]).
  assert (n <> 0).
  { intros ->. unfold grid_size in *. assert ((0 + mf_grid_divisor m - 1) / mf_grid_divisor m = 0) by lia.
    lia. }
  left. rewrite to_u32_small by lia. split; [done|lia].
Qed.

(** The launch of a kernel over [n] elements: for an accepted manifest the
    grid is [ceil_div(n, D) * M] computed without wrap-around, enough programs
    of [D] elements to cover [n]; the configuration is refused exactly when a
    block dimension exceeds 16 bits, [n] is zero, the grid exceeds 32 bits or
    is narrower than the block; and the checks made at dispatch can then fail
    only on the kernarg buffer or on a block that is not one-dimensional. *)
Theorem launch_config_from_manifest_exact m n :
  kernel_wf m -> is_u32 n ->
  match launch_config_from_manifest m n with
  | Ok config =>
      launchable m n /\ dim_x (cfg_grid config) = grid_size m n /\
      dim_y (cfg_grid config) = 1 /\ dim_z (cfg_grid config) = 1 /\
      n <= grid_size m n / mf_grid_multiplier m * mf_grid_divisor m < n + mf_grid_divisor m /\
      forall kernel kernarg kernarg_size,
        launch_rejected kernel config kernarg kernarg_size =
        (kernarg_size <? ki_kernarg_size kernel) ||
        (negb (ki_kernarg_size kernel =? 0) && bool_decide (kernarg = None)) ||
        (1 <? (mf_block m).1.2) || (1 <? (mf_block m).2)
  | Err _ => ~ launchable m n
  | Fault _ => False
  end.
Proof.
  intros Hw Hn. destruct (launch_config_computed m n Hw Hn) as [[-> Hl]|[[e ->] Hl]]; [|done].
  destruct Hw as [_ _ _ Hb [Hd Hm] _ _ _ _ _]. split_and!; [done..| | |].
  1-2: destruct (ceil_div_bounds n (mf_grid_divisor m) ltac:(lia) ltac:(lia)) as [_ Hc];
    unfold grid_size; rewrite Z.div_mul by lia; lia.
  intros kernel kernarg kernarg_size. unfold launch_rejected. cbv zeta. cbn.
  destruct Hl as ((H0 & H1 & H2) & Hn0 & Hg). destruct (mf_block m) as [[b0 b1] b2]. cbn in *.
  pose proof (Hb b0 ltac:(by left)). pose proof (Hb b1 ltac:(by right; left)).
  pose proof (Hb b2 ltac:(by right; right; left)).
  destruct (kernarg_size <? _), (negb _ && _); cbn [orb]; [done..|]. lia.
Qed.

(** A manifest whose argument ends behind the buffer: the sum wraps to zero. *)
Definition wrapped_argument : KernelArgument :=
  mkKernelArgument [x61] [x70] 9223372036854775808 9223372036854775808 false.

(** [validate_args] adds [offset] and [size] at 64 bits, so an argument that
    ends behind [kernarg_size] is accepted when the sum wraps. *)
Lemma validate_args_wraps :
  validate_args [wrapped_argument] UINT64_MAX = Ok () /\
  arg_offset wrapped_argument + arg_size wrapped_argument > UINT64_MAX.
Proof. split; [vm_compute; reflexivity|cbn; lia]. Qed.

(** Below half of the address space the sum cannot wrap. *)
Lemma args_in_range kernarg_size args :
  kernarg_size < 9223372036854775808 -> Forall arg_typed args -> args_ok kernarg_size args ->
  Forall (fun a => arg_offset a + arg_size a <= kernarg_size) args.
Proof.
  intros Hk Ht [He _ _]. apply Forall_forall. intros a Ha. rewrite !Forall_forall in Ht, He.
  destruct (Ht a Ha) as [Ho Hs], (He a Ha) as (_ & _ & _ & Hlt & Hle & Hsum).
  rewrite u64_add_small in Hsum by lia. done.
Qed.
