(* ===== verification/BundleArgs.v ===== *)
(** * Kernarg buffers of bundles

    [KernargBuffer] and [Bundle::launch] of [src/bundle.cpp]: the bytes of a
    kernel's arguments, packed by index or by name, and the checks before a
    launch. *)

From S2P Require Import Prelude Order Memory CodeObject HiddenKernargs BundleText BundleManifest.

#[export] Instance KernelArgument_eq_dec : EqDecision KernelArgument.
Proof. solve_decision. Defined.

(** ** State and operations *)

Record KernargBuffer := mkKernargBuffer {
  kb_data : bytes;
  kb_args : list KernelArgument;
  kb_bound : list bool
}.

(** The largest [std::vector<unsigned char>]. *)
Definition PTRDIFF_MAX : Z := 9223372036854775807.

Definition make_kernarg_buffer (m : KernelManifest) : manifest KernargBuffer :=
  if mf_kernarg_size m >? PTRDIFF_MAX then
    throw LengthError "cannot create std::vector larger than max_size()"
  else
    let kb := mkKernargBuffer (replicate (Z.to_nat (mf_kernarg_size m)) x00) (mf_args m)
                (replicate (length (mf_args m)) false) in
    if bool_decide (kb_data kb = []) || bool_decide (kb_args kb = []) then
      runtime_error "invalid bundle kernarg layout"
    else Ok kb.

(** A value and its size: [None] is a null pointer, [Some] the caller's object. *)
Definition read_value (value : option bytes) (value_size : Z) : manifest bytes :=
  read_bytes (default [] value) 0 value_size.

(** A call on the buffer returns or throws, and leaves the buffer it leaves. *)
Abbreviation action := (manifest () * KernargBuffer)%type.

(** [set_raw(size_t index, ...)] *)
Definition set_raw (kb : KernargBuffer) (index : nat) (value : option bytes) (value_size : Z)
  : action :=
  if bool_decide (value = None) && negb (value_size =? 0) then
    (throw InvalidArgument "bundle kernarg value is null", kb)
  else
  match kb_args kb !! index with
  | None => (throw OutOfRange "bundle kernarg index is out of range", kb)
  | Some arg =>
      if (arg_offset arg >? size_of (kb_data kb)) || (arg_size arg >? size_of (kb_data kb)) ||
         (u64_add (arg_offset arg) (arg_size arg) >? size_of (kb_data kb))
      then (runtime_error "invalid bundle kernarg offset", kb)
      else if value_size >? arg_size arg then
        (runtime_error "bundle kernarg value exceeds argument slot", kb)
      else
        match
          source ← read_value value value_size;
          write_bytes (kb_data kb) (arg_offset arg) source
        with
        | Ok data => (Ok (), mkKernargBuffer data (kb_args kb) (<[index := true]> (kb_bound kb)))
        | Err e => (Err e, kb)
        | Fault f => (Fault f, kb)
        end
  end.

(** The index of the first argument of that name. *)
Fixpoint arg_index (name : bytes) (args : list KernelArgument) (i : nat) : option nat :=
  match args with
  | [] => None
  | arg :: args => if bool_decide (arg_name arg = name) then Some i else arg_index name args (S i)
  end.

(** [set_raw(const char *name, ...)] *)
Definition set_raw_named (kb : KernargBuffer) (name : bytes) (value : option bytes) (value_size : Z)
  : action :=
  if bool_decide (name = []) then (throw InvalidArgument "bundle kernarg name is empty", kb)
  else
    match arg_index name (kb_args kb) 0 with
    | Some i => set_raw kb i value value_size
    | None => (throw OutOfRange ("bundle kernarg not found: " +:+ text_of name), kb)
    end.

(** [set(int index, const T &value)] *)
Definition set_int (kb : KernargBuffer) (index : Z) (value : bytes) : action :=
  if index <? 0 then (throw OutOfRange "bundle kernarg index is out of range", kb)
  else set_raw kb (Z.to_nat index) (Some value) (size_of value).

(** The loop of [validate]; [i] is the index of the first of [args]. *)
Fixpoint validate_loop (args : list KernelArgument) (bound : list bool) (i : nat) : manifest () :=
  match args with
  | [] => Ok ()
  | arg :: args =>
      if arg_optional arg then validate_loop args bound (S i)
      else
        match bound !! i with
        | None => Fault OutOfBounds
        | Some false =>
            runtime_error ("missing required bundle kernarg: " +:+ text_of (arg_name arg))
        | Some true => validate_loop args bound (S i)
        end
  end.

Definition validate (kb : KernargBuffer) : manifest () :=
  validate_loop (kb_args kb) (kb_bound kb) 0.

(** The loop over two vectors of the same size. *)
Fixpoint layout_loop (ls rs : list KernelArgument) : bool :=
  match ls, rs with
  | l :: ls, r :: rs =>
      if negb (bool_decide (arg_name l = arg_name r)) || negb (bool_decide (arg_type l = arg_type r)) ||
         negb (arg_offset l =? arg_offset r) || negb (arg_size l =? arg_size r) ||
         negb (bool_decide (arg_optional l = arg_optional r))
      then false
      else layout_loop ls rs
  | _, _ => true
  end.

Definition same_argument_layout (ls rs : list KernelArgument) : bool :=
  if negb (length ls =? length rs)%nat then false else layout_loop ls rs.

(** [validate(const KernelManifest &)] *)
Definition validate_manifest (kb : KernargBuffer) (m : KernelManifest) : manifest () :=
  if negb (size_of (kb_data kb) =? mf_kernarg_size m) ||
     negb (same_argument_layout (kb_args kb) (mf_args m))
  then runtime_error "bundle kernarg buffer does not match kernel manifest"
  else validate kb.

(** The bytes of a null pointer. *)
Definition null_pointer : bytes := replicate 8 x00.
Definition ptr_type : bytes := String.list_byte_of_string "ptr".

(** The loop of [bind_optional_nulls], with [remaining] arguments from [i]; the
    arguments bound before an exception stay bound. *)
Fixpoint bind_nulls_loop (kb : KernargBuffer) (remaining i : nat) : action :=
  match remaining with
  | O => (Ok (), kb)
  | S remaining =>
      match kb_args kb !! i, kb_bound kb !! i with
      | Some arg, Some bound =>
          if negb (arg_optional arg) || bound then bind_nulls_loop kb remaining (S i)
          else if negb (bool_decide (arg_type arg = ptr_type)) then
            (runtime_error ("optional null binding requires ptr argument: " +:+
               text_of (arg_name arg)), kb)
          else
            match set_raw kb i (Some null_pointer) (size_of null_pointer) with
            | (Ok _, kb) => bind_nulls_loop kb remaining (S i)
            | (r, kb) => (r, kb)
            end
      | _, _ => (Fault OutOfBounds, kb)
      end
  end.

Definition bind_optional_nulls (kb : KernargBuffer) : action :=
  bind_nulls_loop kb (length (kb_args kb)) 0.

(** [Bundle::launch], the launch itself given: the arguments are checked, then
    the configuration is computed. *)
Definition bundle_launch {A} (launch : lr_launch_config_t -> bytes -> manifest A)
    (m : KernelManifest) (n : Z) (kb : KernargBuffer) : manifest A :=
  _ ← validate_manifest kb m;
  config ← launch_config_from_manifest m n;
  launch config (kb_data kb).

(** ** Specification: the values that were accepted, latest first

    A value overwrites the first bytes of its argument.  The manifest only
    asks for increasing offsets, so arguments may overlap: a byte of the buffer
    is that of the latest value that covers it. *)

Abbreviation journal := (list (nat * bytes)).

Fixpoint last_written (args : list KernelArgument) (log : journal) (p : Z) : byte :=
  match log with
  | [] => x00
  | (index, value) :: log =>
      match args !! index with
      | Some a =>
          if arg_offset a <=? p then default (last_written args log p) (value !! Z.to_nat (p - arg_offset a))
          else last_written args log p
      | None => last_written args log p
      end
  end.

Definition journal_set (args : list KernelArgument) (log : journal) (index : nat)
    (value : option bytes) (value_size : Z) : manifest () * journal :=
  if bool_decide (value = None) && negb (value_size =? 0) then
    (throw InvalidArgument "bundle kernarg value is null", log)
  else
  match args !! index with
  | None => (throw OutOfRange "bundle kernarg index is out of range", log)
  | Some a =>
      if value_size >? arg_size a then
        (runtime_error "bundle kernarg value exceeds argument slot", log)
      else (Ok (), (index, take (Z.to_nat value_size) (default [] value)) :: log)
  end.

Definition journal_set_named (args : list KernelArgument) (log : journal) (name : bytes)
    (value : option bytes) (value_size : Z) : manifest () * journal :=
  if bool_decide (name = []) then (throw InvalidArgument "bundle kernarg name is empty", log)
  else
    match arg_index name args 0 with
    | Some i => journal_set args log i value value_size
    | None => (throw OutOfRange ("bundle kernarg not found: " +:+ text_of name), log)
    end.

(** The arguments in turn, from [i]. *)
Fixpoint journal_bind_nulls (rest : list KernelArgument) (i : nat) (log : journal) : manifest () * journal :=
  match rest with
  | [] => (Ok (), log)
  | a :: rest =>
      if negb (arg_optional a) || bool_decide (i ∈ log.*1) then journal_bind_nulls rest (S i) log
      else if negb (bool_decide (arg_type a = ptr_type)) then
        (runtime_error ("optional null binding requires ptr argument: " +:+ text_of (arg_name a)), log)
      else if 8 >? arg_size a then
        (runtime_error "bundle kernarg value exceeds argument slot", log)
      else journal_bind_nulls rest (S i) ((i, null_pointer) :: log)
  end.

(** ** Specification: one independent slot per argument

    What is left of it when the arguments do not overlap. *)

Record slot := mkSlot {
  slot_arg : KernelArgument;
  slot_bytes : bytes;
  slot_bound : bool
}.

Definition fresh_slots (args : list KernelArgument) : list slot :=
  (fun a => mkSlot a (replicate (Z.to_nat (arg_size a)) x00) false) <$> args.

(** A value overwrites the first bytes of its slot. *)
Definition overlay (source old : bytes) : bytes := source ++ drop (length source) old.

Definition slots_set (slots : list slot) (index : nat) (value : option bytes) (value_size : Z)
  : manifest () * list slot :=
  if bool_decide (value = None) && negb (value_size =? 0) then
    (throw InvalidArgument "bundle kernarg value is null", slots)
  else
  match slots !! index with
  | None => (throw OutOfRange "bundle kernarg index is out of range", slots)
  | Some s =>
      if value_size >? arg_size (slot_arg s) then
        (runtime_error "bundle kernarg value exceeds argument slot", slots)
      else
        let source := take (Z.to_nat value_size) (default [] value) in
        (Ok (), <[index := mkSlot (slot_arg s) (overlay source (slot_bytes s)) true]> slots)
  end.

Definition slots_set_named (slots : list slot) (name : bytes) (value : option bytes) (value_size : Z)
  : manifest () * list slot :=
  if bool_decide (name = []) then (throw InvalidArgument "bundle kernarg name is empty", slots)
  else
    match arg_index name (slot_arg <$> slots) 0 with
    | Some i => slots_set slots i value value_size
    | None => (throw OutOfRange ("bundle kernarg not found: " +:+ text_of name), slots)
    end.

(** The slots in turn: the first one that cannot be bound to null ends it. *)
Fixpoint slots_bind_nulls (done rest : list slot) : manifest () * list slot :=
  match rest with
  | [] => (Ok (), done)
  | s :: rest =>
      if negb (arg_optional (slot_arg s)) || slot_bound s then slots_bind_nulls (done ++ [s]) rest
      else if negb (bool_decide (arg_type (slot_arg s) = ptr_type)) then
        (runtime_error ("optional null binding requires ptr argument: " +:+
           text_of (arg_name (slot_arg s))), done ++ s :: rest)
      else if 8 >? arg_size (slot_arg s) then
        (runtime_error "bundle kernarg value exceeds argument slot", done ++ s :: rest)
      else
        slots_bind_nulls
          (done ++ [mkSlot (slot_arg s) (overlay null_pointer (slot_bytes s)) true]) rest
  end.

(** ** Sequences of calls *)

Inductive call :=
| SetRaw (index : nat) (value : option bytes) (value_size : Z)
| SetRawNamed (name : bytes) (value : option bytes) (value_size : Z)
| BindOptionalNulls.

Definition step (kb : KernargBuffer) (c : call) : action :=
  match c with
  | SetRaw index value value_size => set_raw kb index value value_size
  | SetRawNamed name value value_size => set_raw_named kb name value value_size
  | BindOptionalNulls => bind_optional_nulls kb
  end.

Definition slots_step (slots : list slot) (c : call) : manifest () * list slot :=
  match c with
  | SetRaw index value value_size => slots_set slots index value value_size
  | SetRawNamed name value value_size => slots_set_named slots name value value_size
  | BindOptionalNulls => slots_bind_nulls [] slots
  end.

Definition journal_step (args : list KernelArgument) (log : journal) (c : call) : manifest () * journal :=
  match c with
  | SetRaw index value value_size => journal_set args log index value value_size
  | SetRawNamed name value value_size => journal_set_named args log name value value_size
  | BindOptionalNulls => journal_bind_nulls args 0 log
  end.

(** The caller handles every exception and goes on: the results, and the state. *)
Fixpoint run {S} (step : S -> call -> manifest () * S) (s : S) (calls : list call)
  : list (manifest ()) * S :=
  match calls with
  | [] => ([], s)
  | c :: calls =>
      let '(r, s) := step s c in
      let '(rs, s) := run step s calls in (r :: rs, s)
  end.

(** ** Facts *)

(** The size the caller passes is the size of an object of its own. *)
Definition value_ok (value : option bytes) (value_size : Z) : Prop :=
  0 <= value_size /\ (forall v, value = Some v -> value_size <= size_of v).

Definition call_ok (c : call) : Prop :=
  match c with
  | SetRaw _ value value_size | SetRawNamed _ value value_size => value_ok value value_size
  | BindOptionalNulls => True
  end.

(** The slots do not overlap. *)
Definition slots_disjoint (args : list KernelArgument) : Prop :=
  StronglySorted (before arg_offset arg_size) args.

Record buffer_wf (kb : KernargBuffer) : Prop := {
  bw_bound : length (kb_bound kb) = length (kb_args kb);
  bw_size : size_of (kb_data kb) <= PTRDIFF_MAX;
  bw_typed : Forall arg_typed (kb_args kb);
  bw_range : Forall (fun a => arg_offset a + arg_size a <= size_of (kb_data kb)) (kb_args kb)
}.

Definition slots_of (kb : KernargBuffer) : list slot :=
  zip_with (fun a bound => mkSlot a (slice (kb_data kb) (arg_offset a) (Z.to_nat (arg_size a))) bound)
    (kb_args kb) (kb_bound kb).

Lemma slots_of_lookup kb index :
  slots_of kb !! index =
    a ← kb_args kb !! index; bound ← kb_bound kb !! index;
    Some (mkSlot a (slice (kb_data kb) (arg_offset a) (Z.to_nat (arg_size a))) bound).
Proof. unfold slots_of. by rewrite lookup_zip_with. Qed.

Lemma slots_of_args kb : buffer_wf kb -> slot_arg <$> slots_of kb = kb_args kb.
Proof.
  intros [Hb _ _ _]. unfold slots_of. clear -Hb. revert Hb. generalize (kb_bound kb).
  induction (kb_args kb) as [|a args IH]; intros [|b bound] Hb; simplify_eq/=; [done|].
  f_equal. by apply IH.
Qed.

Lemma read_value_ok value value_size :
  value_ok value value_size -> (value = None -> value_size = 0) ->
  read_value value value_size = Ok (take (Z.to_nat value_size) (default [] value)) /\
  size_of (take (Z.to_nat value_size) (default [] value)) = value_size.
Proof.
  intros [H0 Hv] Hn. unfold read_value, read_bytes. rewrite drop_0. unfold size_of in *.
  assert (value_size <= Z.of_nat (length (default [] value))) as Hs.
  { destruct value as [v|]; [by apply Hv|]. simpl. rewrite Hn by done. lia. }
  destruct (_ && _) eqn:G; [|lia]. split; [done|]. rewrite length_take. lia.
Qed.

(** What a write does to the slot it is for. *)
Lemma written_overlay (memory new source : bytes) offset n :
  0 <= offset -> (length source <= n)%nat -> offset + Z.of_nat n <= size_of memory ->
  written memory offset source new ->
  slice new offset n = overlay source (slice memory offset n).
Proof.
  intros Ho Hs Hn [Hl Hw]. unfold slice, overlay, size_of in *. apply list_eq. intros i.
  destruct (decide (i < length source)%nat).
  - rewrite lookup_app_l, lookup_take_lt, lookup_drop, Hw by lia.
    destruct (_ && _) eqn:G; [|lia]. f_equal. lia.
  - rewrite lookup_app_r, lookup_drop by lia.
    replace (length source + (i - length source))%nat with i by lia.
    destruct (decide (i < n)%nat); [|by rewrite !lookup_take_ge by lia].
    rewrite !lookup_take_lt, !lookup_drop, Hw by lia. destruct (_ && _) eqn:G; [lia|done].
Qed.

(** A buffer whose slots do not overlap. *)
Definition buffer_ok (kb : KernargBuffer) : Prop := buffer_wf kb /\ slots_disjoint (kb_args kb).

(** A write to one slot leaves the others. *)
Lemma written_other (memory new source : bytes) a b :
  arg_typed a -> arg_typed b ->
  before arg_offset arg_size a b \/ before arg_offset arg_size b a ->
  size_of source <= arg_size a -> written memory (arg_offset a) source new ->
  slice new (arg_offset b) (Z.to_nat (arg_size b)) = slice memory (arg_offset b) (Z.to_nat (arg_size b)).
Proof.
  unfold before. intros Ha Hb Hab Hs [_ Hw]. destruct Hb as [Hb Hb2]. apply slice_ext; [lia|].
  intros i Hi. unfold covers in Hi. rewrite Hw. unfold size_of in *.
  destruct (_ && _) eqn:G; [lia|done].
Qed.

Lemma disjoint_lookup args i j a b :
  slots_disjoint args -> i <> j -> args !! i = Some a -> args !! j = Some b ->
  before arg_offset arg_size a b \/ before arg_offset arg_size b a.
Proof.
  intros Hd Hij Ha Hb. destruct (Nat.lt_trichotomy i j) as [H|[H|H]]; [left|done|right].
  - by eapply StronglySorted_lookup.
  - by eapply StronglySorted_lookup.
Qed.

(** The buffer after an accepted write. *)
Lemma set_slot_ok kb index a source new :
  buffer_ok kb -> kb_args kb !! index = Some a -> size_of source <= arg_size a ->
  written (kb_data kb) (arg_offset a) source new ->
  let kb' := mkKernargBuffer new (kb_args kb) (<[index := true]> (kb_bound kb)) in
  buffer_ok kb' /\
  slots_of kb' = <[index := mkSlot a (overlay source
    (slice (kb_data kb) (arg_offset a) (Z.to_nat (arg_size a)))) true]> (slots_of kb).
Proof.
  intros [[Hbound Hsize Htyped Hrange] Hdis] Ha Hs Hw. cbv zeta.
  assert (length new = length (kb_data kb)) as Hl by apply Hw. split.
  { split; [|done]. unfold size_of in *. split; cbn; unfold size_of; rewrite ?length_insert, ?Hl; done. }
  assert (index < length (kb_args kb))%nat as Hi by by eapply lookup_lt_Some.
  assert (arg_typed a) as Hta by by eapply Forall_lookup_1.
  assert (arg_offset a + arg_size a <= size_of (kb_data kb)) as Hra
    by exact (Forall_lookup_1 _ _ _ _ Hrange Ha).
  apply list_eq. intros j. rewrite slots_of_lookup. cbn [kb_args kb_bound kb_data].
  destruct (decide (j = index)) as [->|Hj].
  - rewrite !list_lookup_insert_eq; [|unfold slots_of; rewrite length_zip_with; lia|lia].
    rewrite Ha. cbn. do 2 f_equal. destruct Hta. apply written_overlay; unfold size_of in *; lia || done.
  - rewrite !list_lookup_insert_ne by done. rewrite slots_of_lookup.
    destruct (kb_args kb !! j) as [b|] eqn:Eb; [|done]. cbn.
    destruct (kb_bound kb !! j); [|done]. cbn. do 2 f_equal.
    eapply written_other; [exact Hta|by eapply Forall_lookup_1| |exact Hs|exact Hw].
    by eapply (disjoint_lookup (kb_args kb) index j).
Qed.

(** What [slots_step] and [step] agree on. *)
Definition agree (concrete : action) (abstract : manifest () * list slot) : Prop :=
  concrete.1 = abstract.1 /\ slots_of concrete.2 = abstract.2 /\ buffer_ok concrete.2 /\
  safe concrete.1 (fun _ => True).

Definition same_shape (kb kb' : KernargBuffer) : Prop :=
  kb_args kb' = kb_args kb /\ length (kb_data kb') = length (kb_data kb).

Lemma set_raw_refines kb index value value_size :
  buffer_ok kb -> value_ok value value_size ->
  agree (set_raw kb index value value_size) (slots_set (slots_of kb) index value value_size) /\
  same_shape kb (set_raw kb index value value_size).2.
Proof.
  intros Hok Hv. pose proof Hok as [[Hbound Hsize Htyped Hrange] _].
  unfold set_raw, slots_set, agree. destruct (bool_decide _ && _) eqn:Gn; [done|].
  rewrite slots_of_lookup. destruct (kb_args kb !! index) as [a|] eqn:Ea; [|done].
  assert (index < length (kb_bound kb))%nat as Hi by (rewrite Hbound; by eapply lookup_lt_Some).
  destruct (lookup_lt_is_Some_2 _ _ Hi) as [b Eb]. rewrite Eb. cbn [mbind option_bind slot_arg slot_bytes].
  destruct (Forall_lookup_1 _ _ _ _ Htyped Ea) as [Ho Hz].
  pose proof (Forall_lookup_1 _ _ _ _ Hrange Ea) as Hr. cbn beta in Hr. unfold PTRDIFF_MAX in *.
  rewrite u64_add_small by lia.
  destruct ((arg_offset a >? _) || _ || _) eqn:Gr; [lia|]. clear Gr.
  destruct (value_size >? _) eqn:Gs; [done|].
  destruct (read_value_ok value value_size Hv) as [-> Hs].
  { intros ->. simpl in Gn. lia. }
  cbn [mbind result_bind].
  destruct (write_bytes_spec (E:=exception) (kb_data kb) (take (Z.to_nat value_size) (default [] value))
    (arg_offset a)) as (new & -> & Hw); [lia|lia|].
  assert (Hle : size_of (take (Z.to_nat value_size) (default [] value)) <= arg_size a) by lia.
  destruct (set_slot_ok kb index a _ new Hok Ea Hle Hw) as [Hok' Hslots].
  cbn [fst snd]. split; [by split_and!|]. split; [done|apply Hw].
Qed.

Lemma set_raw_named_refines kb name value value_size :
  buffer_ok kb -> value_ok value value_size ->
  agree (set_raw_named kb name value value_size)
    (slots_set_named (slots_of kb) name value value_size) /\
  same_shape kb (set_raw_named kb name value value_size).2.
Proof.
  intros Hok Hv. unfold set_raw_named, slots_set_named. case_bool_decide; [done|].
  rewrite slots_of_args by apply Hok. destruct (arg_index _ _ _); [|done].
  by apply set_raw_refines.
Qed.

Lemma same_shape_trans kb1 kb2 kb3 : same_shape kb1 kb2 -> same_shape kb2 kb3 -> same_shape kb1 kb3.
Proof. intros [H1 H2] [H3 H4]. split; congruence. Qed.

Lemma set_raw_null kb i s :
  buffer_ok kb -> slots_of kb !! i = Some s ->
  agree (set_raw kb i (Some null_pointer) (size_of null_pointer))
    (if 8 >? arg_size (slot_arg s)
     then (runtime_error "bundle kernarg value exceeds argument slot", slots_of kb)
     else (Ok (), <[i := mkSlot (slot_arg s) (overlay null_pointer (slot_bytes s)) true]> (slots_of kb))) /\
  same_shape kb (set_raw kb i (Some null_pointer) (size_of null_pointer)).2.
Proof.
  intros Hok Hs. destruct (set_raw_refines kb i (Some null_pointer) (size_of null_pointer) Hok)
    as [Ha Hsh].
  { split; [done|]. by intros v [= <-]. }
  split; [|done]. unfold slots_set in Ha. rewrite Hs in Ha. exact Ha.
Qed.

Lemma bind_nulls_refines kb remaining i :
  buffer_ok kb -> (i + remaining = length (kb_args kb))%nat ->
  agree (bind_nulls_loop kb remaining i)
    (slots_bind_nulls (take i (slots_of kb)) (drop i (slots_of kb))) /\
  same_shape kb (bind_nulls_loop kb remaining i).2.
Proof.
  revert kb i. induction remaining as [|remaining IH]; intros kb i Hok Hi.
  { assert (length (slots_of kb) <= i)%nat as Hlen.
    { rewrite <-(length_fmap slot_arg), slots_of_args by apply Hok. lia. }
    rewrite drop_ge, take_ge by done. done. }
  assert (i < length (slots_of kb))%nat as Hlen.
  { rewrite <-(length_fmap slot_arg), slots_of_args by apply Hok. lia. }
  destruct (lookup_lt_is_Some_2 _ _ Hlen) as [s Hs].
  pose proof Hs as Hs'. rewrite slots_of_lookup in Hs'. cbn [bind_nulls_loop].
  destruct (kb_args kb !! i) as [a|] eqn:Ea; [|done].
  destruct (kb_bound kb !! i) as [b|] eqn:Eb; [|done]. cbn in Hs'.
  rewrite (drop_S _ _ _ Hs). cbn [slots_bind_nulls].
  assert (slot_arg s = a /\ slot_bound s = b) as [Hsa Hsb] by by simplify_eq. rewrite Hsa, Hsb.
  destruct (negb (arg_optional a) || b).
  { rewrite <-(take_S_r _ _ _ Hs). apply IH; [done|lia]. }
  destruct (negb (bool_decide _)).
  { rewrite <-(drop_S _ _ _ Hs), take_drop. done. }
  destruct (set_raw_null kb i s Hok Hs) as [(Hr & Hst & Hok' & Hsafe) Hshape]. rewrite Hsa in *.
  destruct (set_raw kb i _ _) as [r kb']. cbn [fst snd] in *.
  destruct (8 >? arg_size a) eqn:G8; cbn [fst snd] in *; subst r.
  { rewrite <-(drop_S _ _ _ Hs), take_drop. done. }
  destruct Hshape as [Hargs Hdata].
  destruct (IH kb' (S i) Hok' ltac:(rewrite Hargs; lia)) as [IHa IHs]. rewrite Hst in IHa.
  rewrite drop_insert_lt, (take_S_r _ _ (mkSlot a (overlay null_pointer (slot_bytes s)) true)) in IHa
    by (lia || by apply list_lookup_insert_eq).
  rewrite take_insert_ge in IHa by lia. split; [exact IHa|].
  eapply same_shape_trans; [|exact IHs]. done.
Qed.

Lemma step_refines kb c :
  buffer_ok kb -> call_ok c ->
  agree (step kb c) (slots_step (slots_of kb) c) /\ same_shape kb (step kb c).2.
Proof.
  intros Hok Hc. destruct c; cbn [step slots_step].
  - by apply set_raw_refines.
  - by apply set_raw_named_refines.
  - destruct (bind_nulls_refines kb (length (kb_args kb)) 0 Hok eq_refl) as [Ha Hs].
    rewrite take_0, drop_0 in Ha. done.
Qed.

Lemma run_refines kb calls :
  buffer_ok kb -> Forall call_ok calls ->
  (run step kb calls).1 = (run slots_step (slots_of kb) calls).1 /\
  slots_of (run step kb calls).2 = (run slots_step (slots_of kb) calls).2 /\
  buffer_ok (run step kb calls).2 /\ same_shape kb (run step kb calls).2 /\
  Forall (fun r => safe r (fun _ => True)) (run step kb calls).1.
Proof.
  intros Hok Hc. revert kb Hok. induction Hc as [|c calls Hc Hcs IH]; intros kb Hok; cbn [run].
  { by split_and!. }
  destruct (step_refines kb c Hok Hc) as [(H1 & H2 & H3 & H4) H5].
  destruct (step kb c) as [r kb'], (slots_step (slots_of kb) c) as [r' slots']. cbn [fst snd] in *.
  subst r' slots'. destruct (IH kb' H3) as (I1 & I2 & I3 & I4 & I5).
  destruct (run step kb' calls), (run slots_step (slots_of kb') calls). cbn [fst snd] in *.
  split_and!; [by f_equal|done|done|by eapply same_shape_trans|by constructor].
Qed.

(** ** Facts: any layout *)

(** No call changes the size. *)
Lemma write_bytes_length (memory source new : bytes) offset :
  write_bytes (E := exception) memory offset source = Ok new -> length new = length memory.
Proof.
  unfold write_bytes. destruct (_ && _) eqn:G; [|done]. intros [= <-]. unfold size_of in G.
  rewrite !length_app, length_take, length_drop. lia.
Qed.

Lemma set_raw_size kb index value value_size :
  length (kb_data (set_raw kb index value value_size).2) = length (kb_data kb).
Proof.
  unfold set_raw. repeat case_match; try done. cbn.
  match goal with H : _ ≫= _ = Ok _ |- _ => rename H into Hw end.
  destruct (read_value _ _) as [source| |]; cbn in Hw; [|done|done].
  by eapply write_bytes_length.
Qed.

Lemma run_size kb calls : length (kb_data (run step kb calls).2) = length (kb_data kb).
Proof.
  assert (forall remaining kb i, length (kb_data (bind_nulls_loop kb remaining i).2) = length (kb_data kb)) as Hb.
  { intros remaining. induction remaining as [|n IH]; intros kb0 i; cbn [bind_nulls_loop]; [done|].
    destruct (kb_args kb0 !! i), (kb_bound kb0 !! i); try done. destruct (_ || _); [apply IH|].
    destruct (negb _); [done|]. pose proof (set_raw_size kb0 i (Some null_pointer) (size_of null_pointer)) as Hs.
    destruct (set_raw kb0 i _ _) as [[| |] kb']; cbn in *; [by rewrite IH|done|done]. }
  revert kb. induction calls as [|c calls IH]; intros kb; cbn [run]; [done|].
  assert (length (kb_data (step kb c).2) = length (kb_data kb)) as Hc.
  { destruct c; cbn [step]; [apply set_raw_size| |apply Hb].
    unfold set_raw_named. case_bool_decide; [done|]. destruct (arg_index _ _ _); [apply set_raw_size|done]. }
  destruct (step kb c) as [r kb']. specialize (IH kb'). destruct (run step kb' calls). cbn in *. congruence.
Qed.

(** The buffer holds what the journal says. *)
Record records (args : list KernelArgument) (log : journal) (kb : KernargBuffer) : Prop := {
  rc_wf : buffer_wf kb;
  rc_args : kb_args kb = args;
  rc_bytes p : 0 <= p < size_of (kb_data kb) -> kb_data kb !! Z.to_nat p = Some (last_written args log p);
  rc_bound i b : kb_bound kb !! i = Some b -> b = bool_decide (i ∈ log.*1)
}.

(** One accepted value. *)
Lemma records_write args log kb index a source new :
  records args log kb -> args !! index = Some a -> size_of source <= arg_size a ->
  written (kb_data kb) (arg_offset a) source new ->
  records args ((index, source) :: log) (mkKernargBuffer new (kb_args kb) (<[index := true]> (kb_bound kb))).
Proof.
  intros [[Hb Hs Ht Hr] <- Hbytes Hbound] Ha Hsize [Hl Hw]. destruct (Forall_lookup_1 _ _ _ _ Ht Ha) as [Ho _].
  pose proof (Forall_lookup_1 _ _ _ _ Hr Ha) as Hra. cbn beta in Hra. unfold size_of in *.
  split; cbn [kb_args kb_data kb_bound]; [|done| |].
  - split; cbn [kb_args kb_data kb_bound]; unfold size_of; rewrite ?length_insert, ?Hl; done.
  - intros p Hp. unfold size_of in Hp. rewrite Hl in Hp. cbn [last_written]. rewrite Ha, Hw.
    destruct (_ && _) eqn:G.
    + rewrite (proj2 (Z.leb_le _ _)) by lia. destruct (lookup_lt_is_Some_2 source (Z.to_nat (p - arg_offset a))) as [x Hx]; [lia|].
      replace (Z.to_nat p - Z.to_nat (arg_offset a))%nat with (Z.to_nat (p - arg_offset a)) by lia. by rewrite Hx.
    + rewrite Hbytes by (unfold size_of; lia). destruct (arg_offset a <=? p) eqn:El; [|done].
      by rewrite lookup_ge_None_2 by lia.
  - intros i b Hi. apply list_lookup_insert_Some in Hi as [(<- & <- & _)|[Hne Hi]].
    + symmetry. apply bool_decide_eq_true. left.
    + rewrite (Hbound i b Hi). apply bool_decide_ext. cbn. rewrite elem_of_cons. naive_solver.
Qed.

Definition recorded args (concrete : action) (abstract : manifest () * journal) : Prop :=
  concrete.1 = abstract.1 /\ records args abstract.2 concrete.2 /\ safe concrete.1 (fun _ => True).

Lemma set_raw_recorded args log kb index value value_size :
  records args log kb -> value_ok value value_size ->
  recorded args (set_raw kb index value value_size) (journal_set args log index value value_size).
Proof.
  intros Hrec Hv. pose proof Hrec as [[Hbound Hsize Htyped Hrange] Hargs _ _].
  unfold set_raw, journal_set, recorded. destruct (bool_decide _ && _) eqn:Gn; [done|].
  rewrite Hargs in *. destruct (args !! index) as [a|] eqn:Ea; [|done].
  destruct (Forall_lookup_1 _ _ _ _ Htyped Ea) as [Ho Hz].
  pose proof (Forall_lookup_1 _ _ _ _ Hrange Ea) as Hr. cbn beta in Hr. unfold PTRDIFF_MAX in *.
  rewrite u64_add_small by lia.
  destruct ((arg_offset a >? _) || _ || _) eqn:Gr; [lia|]. clear Gr.
  destruct (value_size >? _) eqn:Gs; [done|].
  destruct (read_value_ok value value_size Hv) as [-> Hs].
  { intros ->. simpl in Gn. lia. }
  cbn [mbind result_bind].
  destruct (write_bytes_spec (E:=exception) (kb_data kb) (take (Z.to_nat value_size) (default [] value))
    (arg_offset a)) as (new & -> & Hw); [lia|lia|].
  cbn [fst snd]. split_and!; [done| |done]. rewrite <-Hargs.
  apply (records_write (kb_args kb) log kb index a); [by rewrite Hargs|by rewrite Hargs|lia|done].
Qed.

Lemma bind_nulls_recorded args log kb remaining i :
  records args log kb -> (i + remaining = length args)%nat ->
  recorded args (bind_nulls_loop kb remaining i) (journal_bind_nulls (drop i args) i log).
Proof.
  revert log kb i. induction remaining as [|remaining IH]; intros log kb i Hrec Hi.
  { rewrite drop_ge by lia. done. }
  destruct (lookup_lt_is_Some_2 args i ltac:(lia)) as [a Ha]. pose proof Hrec as [[Hb _ _ _] Hargs _ Hbound].
  destruct (lookup_lt_is_Some_2 (kb_bound kb) i) as [b Eb]; [rewrite Hb, Hargs; lia|].
  cbn [bind_nulls_loop]. rewrite Hargs, Ha, Eb, (drop_S _ _ _ Ha). cbn [journal_bind_nulls].
  rewrite <-(Hbound i b Eb). destruct (negb (arg_optional a) || b); [apply IH; [done|lia]|].
  destruct (negb (bool_decide _)); [done|].
  destruct (set_raw_recorded args log kb i (Some null_pointer) (size_of null_pointer) Hrec) as (Hr & Hst & Hsafe).
  { split; [done|]. by intros v [= <-]. }
  unfold journal_set in Hr, Hst. rewrite Ha in Hr, Hst. cbn [bool_decide andb] in Hr, Hst.
  rewrite bool_decide_eq_false_2 in Hr, Hst by done. cbn [andb] in Hr, Hst.
  change (size_of null_pointer) with 8 in *. destruct (set_raw kb i _ _) as [r kb']. cbn [fst snd] in *.
  destruct (8 >? arg_size a); cbn [fst snd] in *; subst r; [done|]. apply IH; [done|lia].
Qed.

Lemma step_recorded args log kb c :
  records args log kb -> call_ok c -> recorded args (step kb c) (journal_step args log c).
Proof.
  intros Hrec Hc. destruct c; cbn [step journal_step].
  - by apply set_raw_recorded.
  - unfold set_raw_named, journal_set_named. case_bool_decide; [done|]. rewrite (rc_args _ _ _ Hrec).
    destruct (arg_index _ _ _); [|done]. by apply set_raw_recorded.
  - unfold bind_optional_nulls. rewrite (rc_args _ _ _ Hrec).
    by apply (bind_nulls_recorded args log kb (length args) 0).
Qed.

Lemma run_recorded args log kb calls :
  records args log kb -> Forall call_ok calls ->
  (run step kb calls).1 = (run (journal_step args) log calls).1 /\
  records args (run (journal_step args) log calls).2 (run step kb calls).2 /\
  Forall (fun r => safe r (fun _ => True)) (run step kb calls).1.
Proof.
  intros Hrec Hc. revert log kb Hrec. induction Hc as [|c calls Hc Hcs IH]; intros log kb Hrec; cbn [run]; [done|].
  destruct (step_recorded args log kb c Hrec Hc) as (H1 & H2 & H3).
  destruct (step kb c) as [r kb'], (journal_step args log c) as [r' log']. cbn [fst snd] in *. subst r'.
  destruct (IH log' kb' H2) as (I1 & I2 & I3).
  destruct (run step kb' calls), (run (journal_step args) log' calls). cbn [fst snd] in *.
  split_and!; [by f_equal|done|by constructor].
Qed.

Lemma slice_replicate (n k : nat) offset :
  0 <= offset -> offset + Z.of_nat k <= Z.of_nat n ->
  slice (replicate n x00) offset k = replicate k x00.
Proof.
  intros Ho Hk. unfold slice. rewrite drop_replicate, take_replicate. f_equal. lia.
Qed.

Lemma make_kernarg_buffer_ok m kb :
  kernel_wf m -> make_kernarg_buffer m = Ok kb ->
  records (mf_args m) [] kb /\ slots_of kb = fresh_slots (mf_args m) /\
  size_of (kb_data kb) = mf_kernarg_size m.
Proof.
  intros [_ _ _ _ _ Hk _ _ (Hne & Htyped & Hargs) _]. unfold make_kernarg_buffer.
  destruct (_ >? _) eqn:Gk; [done|]. cbv zeta. destruct (_ || _) eqn:G; [done|]. intros [= <-].
  unfold PTRDIFF_MAX in *. pose proof (args_in_range (mf_kernarg_size m) (mf_args m) ltac:(lia) Htyped Hargs) as Hrange.
  assert (size_of (replicate (Z.to_nat (mf_kernarg_size m)) x00) = mf_kernarg_size m) as Hsize.
  { unfold size_of. rewrite length_replicate. lia. }
  split_and!; [| |done]; cbn [kb_args kb_data].
  - split; [|done| |]; cbn [kb_args kb_data kb_bound].
    + split; cbn [kb_args kb_data kb_bound]; rewrite ?Hsize; unfold PTRDIFF_MAX;
        [by rewrite length_replicate|lia|done|done].
    + intros p Hp. rewrite Hsize in Hp. apply lookup_replicate_2. lia.
    + intros i b [-> _]%lookup_replicate_1. done.
  - unfold slots_of, fresh_slots. cbn [kb_args kb_data kb_bound]. clear Hargs Hne G.
    revert Hrange Htyped. generalize (mf_kernarg_size m) as k. intros k.
    induction 1 as [|a args Ha _ IH]; intros Ht; [done|]. apply Forall_cons in Ht as [[Ho Hz] Ht].
    cbn. f_equal; [|by apply IH]. f_equal. apply slice_replicate; lia.
Qed.

(** C31: a kernarg buffer holds the values it was given.  For every manifest the
    parser accepts and every sequence of [set_raw] calls by index or name and of
    [bind_optional_nulls] calls: the results are those of the specification,
    every byte is that of the latest accepted value that covers it and zero if
    there is none (the parser lets arguments overlap), the arguments counted as
    bound are exactly those that were given a value, the size and the layout
    never change, and no call reads or writes outside a buffer.  If moreover
    the arguments do not overlap, the buffer is one independent slot per
    argument. *)
Theorem kernarg_buffer_refines m kb calls :
  kernel_wf m -> make_kernarg_buffer m = Ok kb -> Forall call_ok calls ->
  let '(results, final) := run step kb calls in
  (exists log, run (journal_step (mf_args m)) [] calls = (results, log) /\
     (forall p, 0 <= p < mf_kernarg_size m ->
        kb_data final !! Z.to_nat p = Some (last_written (mf_args m) log p)) /\
     (forall i b, kb_bound final !! i = Some b -> b = true <-> i ∈ log.*1)) /\
  kb_args final = mf_args m /\ size_of (kb_data final) = mf_kernarg_size m /\
  length (kb_bound final) = length (mf_args m) /\
  Forall (fun r => safe r (fun _ => True)) results /\
  (slots_disjoint (mf_args m) -> (results, slots_of final) = run slots_step (fresh_slots (mf_args m)) calls).
Proof.
  intros Hm Hmake Hcalls. destruct (make_kernarg_buffer_ok m kb Hm Hmake) as (Hrec & Hslots & Hsize).
  pose proof (run_recorded _ _ _ calls Hrec Hcalls) as (H1 & [Hwf Hargs Hbytes Hbound] & H3).
  assert (size_of (kb_data (run step kb calls).2) = mf_kernarg_size m) as Hfinal.
  { rewrite <-Hsize. unfold size_of. by rewrite (run_size kb calls). }
  pose proof (fun Hd => run_refines kb calls (conj (rc_wf _ _ _ Hrec) Hd) Hcalls) as Hdis.
  destruct (run step kb calls) as [results final]. cbn [fst snd] in *.
  split_and!; [|done|done|by rewrite (bw_bound _ Hwf), Hargs|done|].
  - exists (run (journal_step (mf_args m)) [] calls).2. rewrite H1, <-surjective_pairing, <-Hfinal.
    split_and!; [done|done|]. intros i b Hi. rewrite (Hbound i b Hi). apply bool_decide_eq_true.
  - rewrite <-(rc_args _ _ _ Hrec). intros Hd. destruct (Hdis Hd) as (D1 & D2 & _).
    rewrite (rc_args _ _ _ Hrec), <-Hslots, (surjective_pairing (run slots_step _ _)). congruence.
Qed.

(** ** Facts: launching *)

Lemma layout_loop_eq ls rs :
  length ls = length rs -> layout_loop ls rs = true <-> ls = rs.
Proof.
  revert rs. induction ls as [|[n t o z p] ls IH]; intros [|[n' t' o' z' p'] rs] Hl; simplify_eq/=;
    [done|].
  destruct (_ || _ || _) eqn:G.
  - split; [done|]. intros [= -> -> -> -> -> ->]. rewrite !bool_decide_eq_true_2 in G by done. lia.
  - rewrite IH by done. rewrite !orb_false_iff, !negb_false_iff, !bool_decide_eq_true, !Z.eqb_eq in G.
    split; [|by intros [=]]. naive_solver.
Qed.

Lemma same_argument_layout_eq ls rs : same_argument_layout ls rs = true <-> ls = rs.
Proof.
  unfold same_argument_layout. destruct (Nat.eqb_spec (length ls) (length rs)) as [H|H]; cbn [negb].
  - by apply layout_loop_eq.
  - split; [done|]. by intros ->.
Qed.

(** The arguments a launch needs are there. *)
Definition all_bound (kb : KernargBuffer) : Prop :=
  Forall (fun s => arg_optional (slot_arg s) = true \/ slot_bound s = true) (slots_of kb).

Lemma validate_loop_spec data args bound i :
  (i + length args = length bound)%nat ->
  match validate_loop args bound i with
  | Ok _ => Forall (fun s => arg_optional (slot_arg s) = true \/ slot_bound s = true)
      (zip_with (fun a b => mkSlot a (slice data (arg_offset a) (Z.to_nat (arg_size a))) b)
        args (drop i bound))
  | Err _ => ~ Forall (fun s => arg_optional (slot_arg s) = true \/ slot_bound s = true)
      (zip_with (fun a b => mkSlot a (slice data (arg_offset a) (Z.to_nat (arg_size a))) b)
        args (drop i bound))
  | Fault _ => False
  end.
Proof.
  revert i. induction args as [|a args IH]; intros i Hi; cbn in *; [constructor|].
  destruct (lookup_lt_is_Some_2 bound i ltac:(lia)) as [b Hb].
  specialize (IH (S i) ltac:(lia)). rewrite (drop_S _ _ _ Hb). cbn. rewrite Hb.
  destruct (arg_optional a) eqn:Ea; [|destruct b].
  3: { intros H. apply Forall_cons in H as [[H|H] _]; cbn in H; congruence. }
  all: destruct (validate_loop args bound (S i)); try done;
    [constructor; [by (left + right)|done]|by intros [_ H]%Forall_cons].
Qed.

Lemma validate_spec kb :
  buffer_wf kb ->
  match validate kb with
  | Ok _ => all_bound kb
  | Err _ => ~ all_bound kb
  | Fault _ => False
  end.
Proof.
  intros [Hb _ _ _]. unfold validate, all_bound, slots_of.
  pose proof (validate_loop_spec (kb_data kb) (kb_args kb) (kb_bound kb) 0 ltac:(lia)) as H.
  by rewrite drop_0 in H.
Qed.

Definition launch_ready (m : KernelManifest) (n : Z) (kb : KernargBuffer) : Prop :=
  size_of (kb_data kb) = mf_kernarg_size m /\ kb_args kb = mf_args m /\ all_bound kb /\
  launchable m n.

(** A bundle launches a kernel exactly when the buffer has the size and the
    argument layout of the manifest, every required argument is bound and the
    grid for [n] is valid; the launch then gets the computed grid, the
    manifest's block and shared memory, and the bytes of the buffer. *)
Theorem bundle_launch_exact {A} (launch : lr_launch_config_t -> bytes -> manifest A) m n kb :
  kernel_wf m -> is_u32 n -> buffer_wf kb ->
  launch_ready m n kb /\
    bundle_launch launch m n kb =
      launch (mkLaunchConfig (mkDim3 (grid_size m n) 1 1)
        (mkDim3 (mf_block m).1.1 (mf_block m).1.2 (mf_block m).2) (mf_shared_memory_bytes m))
        (kb_data kb) \/
  ~ launch_ready m n kb /\ exists e, bundle_launch launch m n kb = Err e.
Proof.
  intros Hm Hn Hkb. unfold bundle_launch, validate_manifest, launch_ready.
  destruct (size_of (kb_data kb) =? mf_kernarg_size m) eqn:Hs; cbn [negb orb];
    [apply Z.eqb_eq in Hs|apply Z.eqb_neq in Hs; right; split; [naive_solver|by eexists]].
  destruct (same_argument_layout _ _) eqn:Hl; cbn [negb].
  2: { right. split; [|by eexists]. intros (_ & He & _). apply same_argument_layout_eq in He. congruence. }
  apply same_argument_layout_eq in Hl. pose proof (validate_spec kb Hkb) as Hv.
  destruct (validate kb); cbn [mbind result_bind]; [|right; split; [naive_solver|by eexists]|done].
  destruct (launch_config_computed m n Hm Hn) as [[-> Hok]|[[e ->] Hno]]; [by left|].
  right. split; [naive_solver|by eexists].
Qed.
