(* ===== verification/Topology.v ===== *)
(** * GPU topology and selection

    [runtime/topology.cpp]: the topology snapshot, the names of gfx targets
    and the selection of the one GPU a code object runs on. *)

From Stdlib Require Import Ascii.
From stdpp Require Import pretty.
From S2P Require Import Prelude.

Record KfdVersion := mkKfdVersion { kv_major : Z; kv_minor : Z }.

Record GpuArchitecture := mkGpuArchitecture {
  arch_major : Z;
  arch_minor : Z;
  arch_stepping : Z
}.

Module MemoryHeapType.
Inductive t :=
| System
| FrameBufferPublic
| FrameBufferPrivate
| Gds
| Lds
| Scratch
| DeviceSvm
| MmioRemap
| Unknown.

#[global] Instance eq_dec : EqDecision t.
Proof. solve_decision. Defined.
End MemoryHeapType.

Record MemoryBank := mkMemoryBank {
  bank_heap_type : MemoryHeapType.t;
  bank_size : Z;
  bank_virtual_base_address : Z;
  bank_width : Z;
  bank_maximum_clock_mhz : Z;
  bank_hot_pluggable : bool;
  bank_non_volatile : bool
}.

Record Node := mkNode {
  node_node_id : Z;
  node_gpu_id : Z;
  node_cpu_core_count : Z;
  node_simd_count : Z;
  node_simd_per_compute_unit : Z;
  node_wavefront_size : Z;
  node_maximum_waves_per_simd : Z;
  node_lds_size_kb : Z;
  node_shader_engine_count : Z;
  node_maximum_scratch_waves_per_compute_unit : Z;
  node_xcc_count : Z;
  node_cwsr_size : Z;
  node_control_stack_size : Z;
  node_vendor_id : Z;
  node_device_id : Z;
  node_domain : Z;
  node_location_id : Z;
  node_drm_render_minor : Z;
  node_local_memory_size : Z;
  node_integrated : bool;
  node_name : string;
  node_architecture : GpuArchitecture;
  node_memory_banks : list MemoryBank
}.

Record Topology := mkTopology {
  topo_kfd_version : KfdVersion;
  topo_nodes : list Node
}.

Module GpuSelectionError.
Inductive t :=
| None
| InvalidTarget
| NoMatchingGpu
| MultipleMatchingGpus.
End GpuSelectionError.

Record GpuSelectionResult := mkSelection {
  gs_error : GpuSelectionError.t;
  gs_node_index : nat;
  gs_message : string
}.

Definition is_gpu (node : Node) : bool := negb (node_simd_count node =? 0).

Definition compute_unit_count (node : Node) : Z :=
  if (node_simd_per_compute_unit node =? 0) ||
     negb (node_simd_count node mod node_simd_per_compute_unit node =? 0) then 0
  else node_simd_count node / node_simd_per_compute_unit node.

(** ** Target names *)

Definition hex_digit (digit : Z) : ascii :=
  match digit with
  | 0 => "0" | 1 => "1" | 2 => "2" | 3 => "3" | 4 => "4" | 5 => "5" | 6 => "6" | 7 => "7"
  | 8 => "8" | 9 => "9" | 10 => "a" | 11 => "b" | 12 => "c" | 13 => "d" | 14 => "e" | _ => "f"
  end%char.

(** [stream << value] in base 10 and, after [std::hex << std::nouppercase], in
    base 16: the digits of a [uint32_t], most significant first; ten digits
    are enough. *)
Fixpoint digits_acc (base : Z) (fuel : nat) (value : Z) (acc : list ascii) : list ascii :=
  match fuel with
  | O => acc
  | S fuel =>
      let acc := hex_digit (value mod base) :: acc in
      if value / base =? 0 then acc else digits_acc base fuel (value / base) acc
  end.

Definition stream_digits (base value : Z) : list ascii := digits_acc base 10 value [].

(** Strings are their character lists here. *)
Definition chars (s : string) : list ascii := String.list_ascii_of_string s.

Definition gfx_target_chars (architecture : GpuArchitecture) : list ascii :=
  if arch_major architecture =? 0 then []
  else chars "gfx" ++ stream_digits 10 (arch_major architecture) ++
       stream_digits 10 (arch_minor architecture) ++
       stream_digits 16 (arch_stepping architecture).

Definition gfx_target_name (architecture : GpuArchitecture) : string :=
  String.string_of_list_ascii (gfx_target_chars architecture).

(** [target_isa.rfind("--")] *)
Fixpoint rfind_dashes (l : list ascii) : option nat :=
  match l with
  | [] => None
  | a :: rest =>
      match rfind_dashes rest with
      | Some index => Some (S index)
      | None =>
          match rest with
          | b :: _ =>
              if bool_decide (a = "-"%char) && bool_decide (b = "-"%char) then Some O else None
          | [] => None
          end
      end
  end.

(** The characters before the first [':']: [substr] up to [find(':')]. *)
Fixpoint until_colon (l : list ascii) : list ascii :=
  match l with
  | [] => []
  | a :: l => if bool_decide (a = ":"%char) then [] else a :: until_colon l
  end.

Definition between (low high : nat) (a : ascii) : bool :=
  (low <=? nat_of_ascii a)%nat && (nat_of_ascii a <=? high)%nat.

(** [isxdigit(c) != 0 && isupper(c) == 0] in the C locale. *)
Definition lower_xdigit (a : ascii) : bool :=
  (between 48 57 a || between 65 70 a || between 97 102 a) && negb (between 65 90 a).

Definition canonical_gfx_chars (target_isa : list ascii) : list ascii :=
  let target_begin :=
    match rfind_dashes target_isa with
    | None => O
    | Some architecture_separator => (architecture_separator + 2)%nat
    end in
  let target := until_colon (drop target_begin target_isa) in
  if (length target <? 5)%nat || negb (bool_decide (take 3 target = chars "gfx")) then []
  else if forallb lower_xdigit (drop 3 target) then target else [].

Definition canonical_gfx_target (target_isa : string) : string :=
  String.string_of_list_ascii (canonical_gfx_chars (chars target_isa)).

Definition memory_heap_type_name (heap_type : MemoryHeapType.t) : string :=
  match heap_type with
  | MemoryHeapType.System => "system"
  | MemoryHeapType.FrameBufferPublic => "frame_buffer_public"
  | MemoryHeapType.FrameBufferPrivate => "frame_buffer_private"
  | MemoryHeapType.Gds => "gds"
  | MemoryHeapType.Lds => "lds"
  | MemoryHeapType.Scratch => "scratch"
  | MemoryHeapType.DeviceSvm => "device_svm"
  | MemoryHeapType.MmioRemap => "mmio_remap"
  | MemoryHeapType.Unknown => "unknown"
  end.

Definition gpu_selection_error_name (error : GpuSelectionError.t) : string :=
  match error with
  | GpuSelectionError.None => "none"
  | GpuSelectionError.InvalidTarget => "invalid_target"
  | GpuSelectionError.NoMatchingGpu => "no_matching_gpu"
  | GpuSelectionError.MultipleMatchingGpus => "multiple_matching_gpus"
  end.

(** ** Selection *)

Definition node_matches (target : string) (node : Node) : bool :=
  is_gpu node && String.eqb (gfx_target_name (node_architecture node)) target.

(** The loop: [matching_node_index] and [match_count]. *)
Fixpoint match_nodes (target : string) (nodes : list Node) (index : nat)
    (matching_node_index match_count : nat) : nat * nat :=
  match nodes with
  | [] => (matching_node_index, match_count)
  | node :: nodes =>
      if node_matches target node
      then match_nodes target nodes (S index) index (S match_count)
      else match_nodes target nodes (S index) matching_node_index match_count
  end.

Definition select_unique_gpu (topology : Topology) (target_isa : string) : GpuSelectionResult :=
  let target := canonical_gfx_target target_isa in
  if String.eqb target "" then
    mkSelection GpuSelectionError.InvalidTarget 0 ("invalid AMDGPU target ISA: " +:+ target_isa)
  else
    let '(matching_node_index, match_count) := match_nodes target (topo_nodes topology) 0 0 0 in
    if (match_count =? 0)%nat then
      mkSelection GpuSelectionError.NoMatchingGpu 0 ("no GPU node matches target " +:+ target)
    else if negb (match_count =? 1)%nat then
      mkSelection GpuSelectionError.MultipleMatchingGpus 0
        ("target " +:+ target +:+ " matches " +:+ pretty match_count +:+
         " GPU nodes; the initial runtime requires exactly one")
    else mkSelection GpuSelectionError.None matching_node_index "".

(** ** Facts *)

(** The nodes that match. *)
Definition matching (target : string) (nodes : list Node) : list Node :=
  filter (fun node => node_matches target node = true) nodes.

Lemma matching_cons target node nodes :
  matching target (node :: nodes) =
  if node_matches target node then node :: matching target nodes else matching target nodes.
Proof.
  unfold matching. destruct (node_matches target node) eqn:E;
    [by rewrite filter_cons_True|rewrite filter_cons_False; [done|by rewrite E]].
Qed.

(** The loop counts the matching nodes and remembers the index of the last. *)
Lemma match_nodes_spec target nodes index last count i c :
  match_nodes target nodes index last count = (i, c) ->
  c = (count + length (matching target nodes))%nat /\
  (matching target nodes = [] /\ i = last \/
   exists j node, nodes !! j = Some node /\ node_matches target node = true /\
     i = (index + j)%nat).
Proof.
  revert index last count. induction nodes as [|node nodes IH]; intros index last count; simpl.
  { intros [= <- <-]. rewrite Nat.add_0_r. auto. }
  rewrite matching_cons. destruct (node_matches target node) eqn:E; intros H.
  - destruct (IH _ _ _ H) as [-> Hi]. simpl. split; [lia|]. right.
    destruct Hi as [[_ ->]|(j & node' & ? & ? & ->)].
    + exists 0%nat, node. by rewrite Nat.add_0_r.
    + exists (S j), node'. split_and!; [done..|lia].
  - destruct (IH _ _ _ H) as [-> Hi]. split; [done|].
    destruct Hi as [?|(j & node' & ? & ? & ->)]; [by left|].
    right. exists (S j), node'. split_and!; [done..|lia].
Qed.

Lemma matching_lookup target nodes j node :
  nodes !! j = Some node -> node_matches target node = true ->
  matching target nodes =
    matching target (take j nodes) ++ node :: matching target (drop (S j) nodes).
Proof.
  intros Hj Hm. rewrite <-(take_drop_middle nodes j node Hj) at 1. unfold matching.
  rewrite filter_app. by rewrite filter_cons_True.
Qed.

Lemma matching_nil target nodes j node :
  matching target nodes = [] -> nodes !! j = Some node -> node_matches target node = false.
Proof.
  intros Hn Hj. destruct (node_matches target node) eqn:E; [|done].
  rewrite (matching_lookup _ _ _ _ Hj E) in Hn. by destruct (matching target (take j nodes)).
Qed.

(** Two matching nodes at different places are two elements of [matching]. *)
Lemma matching_two target nodes i j ni nj :
  nodes !! i = Some ni -> node_matches target ni = true ->
  nodes !! j = Some nj -> node_matches target nj = true -> (i < j)%nat ->
  (2 <= length (matching target nodes))%nat.
Proof.
  intros Hi Mi Hj Mj Hij. rewrite (matching_lookup _ _ _ _ Hi Mi), length_app. cbn [length].
  assert (drop (S i) nodes !! (j - S i)%nat = Some nj) as Hd
    by (rewrite lookup_drop; by replace (S i + (j - S i))%nat with j by lia).
  rewrite (matching_lookup _ _ _ _ Hd Mj), length_app. cbn [length]. lia.
Qed.

Lemma matching_two_inv target nodes :
  (2 <= length (matching target nodes))%nat ->
  exists i j ni nj, i <> j /\ nodes !! i = Some ni /\ nodes !! j = Some nj /\
    node_matches target ni = true /\ node_matches target nj = true.
Proof.
  induction nodes as [|node nodes IH]; [simpl; lia|].
  rewrite matching_cons. destruct (node_matches target node) eqn:E.
  - intros Hl. cbn [length] in Hl. destruct (matching target nodes) as [|n l] eqn:En; [simpl in Hl; lia|].
    assert (n ∈ matching target nodes) as Hn by (rewrite En; left).
    apply list_elem_of_filter in Hn as [Mn [j Hj]%list_elem_of_lookup].
    exists 0%nat, (S j), node, n. split_and!; done.
  - intros Hl. destruct (IH Hl) as (i & j & ni & nj & ? & ? & ? & ? & ?).
    exists (S i), (S j), ni, nj. split_and!; [lia|done..].
Qed.

(** A GPU is selected exactly when one node of the topology matches the
    canonical target, and it is that node; every other outcome is reported by
    its own error. *)
Theorem select_unique_gpu_correct topology target_isa :
  let target := canonical_gfx_target target_isa in
  let selection := select_unique_gpu topology target_isa in
  match gs_error selection with
  | GpuSelectionError.None =>
      target <> ""%string /\
      exists node, topo_nodes topology !! gs_node_index selection = Some node /\
        is_gpu node = true /\ gfx_target_name (node_architecture node) = target /\
        forall j node', topo_nodes topology !! j = Some node' ->
          node_matches target node' = true -> j = gs_node_index selection
  | GpuSelectionError.InvalidTarget => target = ""%string
  | GpuSelectionError.NoMatchingGpu =>
      target <> ""%string /\
      forall j node, topo_nodes topology !! j = Some node -> node_matches target node = false
  | GpuSelectionError.MultipleMatchingGpus =>
      target <> ""%string /\
      exists i j ni nj, i <> j /\ topo_nodes topology !! i = Some ni /\
        topo_nodes topology !! j = Some nj /\
        node_matches target ni = true /\ node_matches target nj = true
  end.
Proof.
  intros target selection. unfold selection, select_unique_gpu. fold target.
  destruct (String.eqb_spec target "") as [->|Hne]; [done|].
  destruct (match_nodes target (topo_nodes topology) 0 0 0) as [i c] eqn:Hm.
  apply match_nodes_spec in Hm as [-> Hi]. cbn [Nat.add] in *.
  destruct (Nat.eqb_spec (length (matching target (topo_nodes topology))) 0) as [H0|H0];
    [|destruct (Nat.eqb_spec (length (matching target (topo_nodes topology))) 1) as [H1|H1]];
    cbn [negb gs_error gs_node_index].
  - split; [done|]. intros j node. apply matching_nil. by apply nil_length_inv.
  - split; [done|]. destruct Hi as [[Hn _]|(j & node & Hj & Mj & ->)]; [by rewrite Hn in H0|].
    exists node. pose proof Mj as [? ?%String.eqb_eq]%andb_true_iff. split_and!; [done..|].
    intros j' node' Hj' Mj'. destruct (Nat.lt_trichotomy j j') as [Hlt|[->|Hlt]]; [|done|].
    + pose proof (matching_two _ _ _ _ _ _ Hj Mj Hj' Mj' Hlt). lia.
    + pose proof (matching_two _ _ _ _ _ _ Hj' Mj' Hj Mj Hlt). lia.
  - split; [done|]. apply matching_two_inv. lia.
Qed.

(** ** Facts: target names *)

Lemma hex_digit_lower d : lower_xdigit (hex_digit d) = true.
Proof.
  unfold hex_digit. destruct d as [|p|]; [done| |done].
  do 4 (destruct p as [p|p|]; try done).
Qed.

Lemma digits_acc_lower base fuel value acc :
  Forall (fun a => lower_xdigit a = true) acc ->
  Forall (fun a => lower_xdigit a = true) (digits_acc base fuel value acc).
Proof.
  revert value acc. induction fuel as [|fuel IH]; intros value acc Ha; simpl; [done|].
  assert (Forall (fun a => lower_xdigit a = true) (hex_digit (value mod base) :: acc))
    by (constructor; [apply hex_digit_lower|done]).
  case_match; auto.
Qed.

Lemma digits_acc_length base fuel value acc :
  (length acc <= length (digits_acc base fuel value acc))%nat.
Proof.
  revert value acc. induction fuel as [|fuel IH]; intros value acc; simpl; [done|].
  case_match; simpl; [lia|]. etransitivity; [|apply IH]. simpl. lia.
Qed.

Lemma stream_digits_nonempty base value : (1 <= length (stream_digits base value))%nat.
Proof.
  change (stream_digits base value) with (digits_acc base (S 9) value []).
  generalize 9%nat as fuel. intros fuel. cbn [digits_acc]. case_match; [simpl; lia|].
  etransitivity; [|apply digits_acc_length]. simpl. lia.
Qed.

(** The characters of a target name: [gfx] and lower-case digits. *)
Lemma gfx_target_chars_shape architecture :
  arch_major architecture <> 0 ->
  exists digits, gfx_target_chars architecture = chars "gfx" ++ digits /\
    (3 <= length digits)%nat /\ Forall (fun a => lower_xdigit a = true) digits.
Proof.
  intros Hm. unfold gfx_target_chars. destruct (Z.eqb_spec (arch_major architecture) 0); [done|].
  eexists. split; [done|]. split.
  - rewrite !length_app.
    pose proof (stream_digits_nonempty 10 (arch_major architecture)).
    pose proof (stream_digits_nonempty 10 (arch_minor architecture)).
    pose proof (stream_digits_nonempty 16 (arch_stepping architecture)). lia.
  - rewrite !Forall_app. split_and!; apply digits_acc_lower; constructor.
Qed.

Lemma rfind_dashes_app l1 l2 :
  Forall (fun a => a <> "-"%char) l1 -> rfind_dashes l2 = None -> rfind_dashes (l1 ++ l2) = None.
Proof.
  induction 1 as [|a l1 Ha _ IH]; intros H2; simpl; [done|]. rewrite IH by done.
  destruct (l1 ++ l2); [done|]. by rewrite bool_decide_false.
Qed.

Lemma rfind_dashes_last prefix l :
  rfind_dashes ("-"%char :: l) = None ->
  rfind_dashes (prefix ++ "-"%char :: "-"%char :: l) = Some (length prefix).
Proof.
  intros H. induction prefix as [|a prefix IH].
  - change (match rfind_dashes ("-"%char :: l) with
            | Some index => Some (S index) | None => Some O end = Some O). by rewrite H.
  - cbn [app rfind_dashes length]. by rewrite IH.
Qed.

(** A feature suffix: nothing, or [':'] and characters without ["--"]. *)
Definition features_ok (features : list ascii) : Prop :=
  rfind_dashes features = None /\ (features = [] \/ exists rest, features = ":"%char :: rest).

Lemma until_colon_features l features :
  Forall (fun a => a <> ":"%char) l -> features_ok features -> until_colon (l ++ features) = l.
Proof.
  intros Hl [_ Hf]. induction Hl as [|a l Ha _ IH]; simpl.
  - by destruct Hf as [->|[rest ->]].
  - by rewrite bool_decide_false, IH.
Qed.

Lemma canonical_gfx_chars_name architecture target_isa features :
  arch_major architecture <> 0 -> features_ok features ->
  target_isa = gfx_target_chars architecture ++ features \/
  (exists prefix, target_isa = prefix ++ chars "--" ++ gfx_target_chars architecture ++ features) ->
  canonical_gfx_chars target_isa = gfx_target_chars architecture.
Proof.
  intros Hm Hf Hisa. destruct (gfx_target_chars_shape _ Hm) as (digits & Eg & Hlen & Hd).
  assert (Forall (fun a => a <> "-"%char /\ a <> ":"%char) (gfx_target_chars architecture)) as Hc.
  { rewrite Eg. apply Forall_app. split; [by repeat constructor|].
    eapply Forall_impl; [exact Hd|]. intros a Ha. by split; intros ->. }
  assert (Forall (fun a => a <> "-"%char) (gfx_target_chars architecture)) as Hdash
    by (eapply Forall_impl; [exact Hc|]; naive_solver).
  assert (rfind_dashes (gfx_target_chars architecture ++ features) = None) as Hnone
    by (apply rfind_dashes_app; [done|apply Hf]).
  unfold canonical_gfx_chars.
  assert (drop (match rfind_dashes target_isa with None => O | Some i => (i + 2)%nat end)
    target_isa = gfx_target_chars architecture ++ features) as ->.
  { destruct Hisa as [->|[prefix ->]]; [by rewrite Hnone|].
    change (chars "--" ++ ?l) with ("-"%char :: "-"%char :: l).
    rewrite rfind_dashes_last, drop_app_ge by
      first [lia|rewrite Eg in *; simpl in *; rewrite Hnone; by destruct digits].
    replace (length prefix + 2 - length prefix)%nat with 2%nat by lia. done. }
  rewrite until_colon_features; [|by eapply Forall_impl; [exact Hc|naive_solver]|done].
  rewrite Eg. rewrite length_app. change (length (chars "gfx")) with 3%nat.
  destruct (Nat.ltb_spec (3 + length digits) 5); [lia|].
  change (take 3 (chars "gfx" ++ digits)) with (chars "gfx").
  rewrite bool_decide_true by done. cbn [negb orb].
  change (drop 3 (chars "gfx" ++ digits)) with digits.
  assert (forallb lower_xdigit digits = true) as ->; [|done].
  apply forallb_forall. intros a Ha%list_elem_of_In. rewrite Forall_forall in Hd. by apply Hd.
Qed.

(** The canonical target of a node's own target name is that name, alone,
    behind any triple prefix and in front of any feature suffix, so that the
    comparison in the selection is between names of one form. *)
Theorem canonical_gfx_target_name architecture prefix features :
  arch_major architecture <> 0 -> features_ok (chars features) ->
  canonical_gfx_target (gfx_target_name architecture +:+ features) =
    gfx_target_name architecture /\
  canonical_gfx_target (prefix +:+ "--" +:+ gfx_target_name architecture +:+ features) =
    gfx_target_name architecture.
Proof.
  intros Hm Hf.
  assert (forall s1 s2, chars (s1 +:+ s2) = chars s1 ++ chars s2) as Happ.
  { unfold chars. induction s1 as [|a s1 IH]; intros s2; simpl; [done|]. by rewrite IH. }
  assert (chars (gfx_target_name architecture) = gfx_target_chars architecture) as En
    by apply String.list_ascii_of_string_of_list_ascii.
  unfold canonical_gfx_target at 1 2. rewrite !Happ, En.
  split; unfold gfx_target_name; f_equal; eapply canonical_gfx_chars_name; eauto.
Qed.
