(* ===== verification/Scratch.v ===== *)
(** * Queue scratch memory (gfx11)

    [arch/gfx11/scratch.cpp]: the size of the scratch backing store a queue
    needs for a private segment, and the register values that describe it to
    the hardware. *)

From S2P Require Import Prelude Topology.

Definition kPageSize : Z := 4096.
Definition kMaximumPrivateSegmentSize : Z := 262128.
Definition kMaximumWaveSizeUnits : Z := Z.shiftl 1 15 - 1.
Definition kMaximumWavesPerShaderEngine : Z := Z.shiftl 1 12 - 1.
Definition kMaximumDescriptorAddress : Z := Z.shiftl 1 48 - 1.
Definition kScratchSrdWord3 : Z := 0x20814fac.
Definition kScratchDescriptorAlignment : Z := 256.
Definition kScratchBackingAlignment : Z := 64 * 1024.
Definition kScratchLanesPerWave : Z := 64.

Module QueueScratchError.
Inductive t :=
| None
| UnsupportedArchitecture
| InvalidTopology
| MissingScratchAperture
| InvalidScratchAperture
| PrivateSegmentTooLarge
| SizeOverflow
| ScratchApertureTooSmall
| RegisterOverflow
| InvalidBackingAddress.
End QueueScratchError.

Definition queue_scratch_error_name (error : QueueScratchError.t) : string :=
  match error with
  | QueueScratchError.None => "none"
  | QueueScratchError.UnsupportedArchitecture => "unsupported_architecture"
  | QueueScratchError.InvalidTopology => "invalid_topology"
  | QueueScratchError.MissingScratchAperture => "missing_scratch_aperture"
  | QueueScratchError.InvalidScratchAperture => "invalid_scratch_aperture"
  | QueueScratchError.PrivateSegmentTooLarge => "private_segment_too_large"
  | QueueScratchError.SizeOverflow => "size_overflow"
  | QueueScratchError.ScratchApertureTooSmall => "scratch_aperture_too_small"
  | QueueScratchError.RegisterOverflow => "register_overflow"
  | QueueScratchError.InvalidBackingAddress => "invalid_backing_address"
  end.

Record QueueScratchStatus := mkScratchStatus {
  ss_error : QueueScratchError.t;
  ss_message : string
}.

Record QueueScratchRequirements := mkScratchRequirements {
  sr_private_segment_size : Z;
  sr_allocation_size : Z;
  sr_backing_size_per_xcc : Z;
  sr_wave_size_units : Z;
  sr_waves_per_shader_engine : Z
}.

Record ScratchAperture := mkScratchAperture { ap_base : Z; ap_size : Z }.

Record QueueScratchControl := mkScratchControl {
  sc_resource_descriptor : Z * Z * Z * Z;
  sc_compute_tmpring_size : Z;
  sc_backing_memory_location : Z;
  sc_backing_memory_byte_size : Z;
  sc_wave64_lane_byte_size : Z
}.

(** A failing function returns the status with default-constructed values. *)
Abbreviation scratch := (result QueueScratchStatus).

Definition scratch_failure {A} (error : QueueScratchError.t) (message : string) : scratch A :=
  Err (mkScratchStatus error message).

Definition multiply_overflows (left right : Z) : bool :=
  negb (right =? 0) && (left >? UINT64_MAX / right).

Definition round_up_overflows (value alignment : Z) : bool :=
  value >? UINT64_MAX - (alignment - 1).

(** The last scratch bank and the number of them. *)
Definition scratch_aperture (node : Node) : option MemoryBank * nat :=
  fold_left (fun '(result, match_count) bank =>
      if bool_decide (bank_heap_type bank = MemoryHeapType.Scratch)
      then (Some bank, S match_count) else (result, match_count))
    (node_memory_banks node) (None, O).

(** The one aperture both entry points look up. *)
Definition unique_aperture (node : Node) : scratch ScratchAperture :=
  let '(aperture, count) := scratch_aperture node in
  if (count =? 0)%nat then
    scratch_failure QueueScratchError.MissingScratchAperture
      "GPU topology has no scratch aperture"
  else match aperture with
  | Some bank =>
      if negb (count =? 1)%nat then
        scratch_failure QueueScratchError.InvalidScratchAperture
          "GPU topology has an invalid scratch aperture"
      else Ok (mkScratchAperture (bank_virtual_base_address bank) (bank_size bank))
  | None =>
      scratch_failure QueueScratchError.InvalidScratchAperture
        "GPU topology has an invalid scratch aperture"
  end.

(** [for (factor : factors) { if overflows ...; raw_size *= factor; }] *)
Fixpoint multiply_factors (raw_size : Z) (factors : list Z) : scratch Z :=
  match factors with
  | [] => Ok raw_size
  | factor :: factors =>
      if multiply_overflows raw_size factor then
        scratch_failure QueueScratchError.SizeOverflow "scratch backing size overflows uint64"
      else multiply_factors (u64_mul raw_size factor) factors
  end.

Definition queue_scratch_requirements_at (node : Node) (private_segment_size : Z)
    (aperture : ScratchAperture) : scratch QueueScratchRequirements :=
  if negb (arch_major (node_architecture node) =? 11) ||
     negb (arch_minor (node_architecture node) =? 0) ||
     negb (arch_stepping (node_architecture node) =? 1) then
    scratch_failure QueueScratchError.UnsupportedArchitecture
      "queue scratch currently supports only gfx1101"
  else
  let cu_count := compute_unit_count node in
  if negb (is_gpu node) || (cu_count =? 0) ||
     negb (node_wavefront_size node =? 32) || (node_maximum_waves_per_simd node =? 0) ||
     (node_shader_engine_count node =? 0) ||
     (node_maximum_scratch_waves_per_compute_unit node =? 0) ||
     negb (node_xcc_count node =? 1) then
    scratch_failure QueueScratchError.InvalidTopology
      "gfx1101 scratch requires complete single-XCC topology"
  else if (ap_size aperture =? 0) || (ap_base aperture =? 0) ||
          negb (ap_base aperture mod kScratchBackingAlignment =? 0) then
    scratch_failure QueueScratchError.InvalidScratchAperture
      "GPU topology has an invalid scratch aperture"
  else if private_segment_size =? 0 then
    Ok (mkScratchRequirements private_segment_size 0 0 0 0)
  else if private_segment_size >? kMaximumPrivateSegmentSize then
    scratch_failure QueueScratchError.PrivateSegmentTooLarge
      "private segment exceeds the gfx1101 queue limit"
  else
  raw_size ← multiply_factors private_segment_size
    [kScratchLanesPerWave; node_maximum_scratch_waves_per_compute_unit node; cu_count];
  if round_up_overflows raw_size kPageSize then
    scratch_failure QueueScratchError.SizeOverflow
      "page-aligned scratch backing size overflows uint64"
  else
  let allocation_size :=
    Z.land (u64_sub (u64_add raw_size kPageSize) 1) (UINT64_MAX - (kPageSize - 1)) in
  if allocation_size >? ap_size aperture then
    scratch_failure QueueScratchError.ScratchApertureTooSmall
      "scratch backing exceeds the topology aperture"
  else if allocation_size >? UINT32_MAX then
    scratch_failure QueueScratchError.RegisterOverflow
      "scratch SRD record count exceeds 32 bits"
  else
  let wave_bytes := u64_mul private_segment_size kScratchLanesPerWave in
  let wave_size_units :=
    u64_sub (u64_add wave_bytes kScratchDescriptorAlignment) 1 / kScratchDescriptorAlignment in
  if (wave_size_units =? 0) || (wave_size_units >? kMaximumWaveSizeUnits) then
    scratch_failure QueueScratchError.RegisterOverflow
      "scratch wave size exceeds COMPUTE_TMPRING_SIZE"
  else
  let total_waves := allocation_size / u64_mul wave_size_units kScratchDescriptorAlignment in
  let configured_waves :=
    Z.min (total_waves / node_shader_engine_count node)
      (u64_mul cu_count (node_maximum_scratch_waves_per_compute_unit node)) in
  if (configured_waves =? 0) || (configured_waves >? kMaximumWavesPerShaderEngine) then
    scratch_failure QueueScratchError.RegisterOverflow
      "scratch wave count exceeds COMPUTE_TMPRING_SIZE"
  else
  Ok (mkScratchRequirements private_segment_size allocation_size allocation_size
        (to_u32 wave_size_units) (to_u32 configured_waves)).

Definition queue_scratch_requirements (node : Node) (private_segment_size : Z)
  : scratch QueueScratchRequirements :=
  aperture ← unique_aperture node;
  queue_scratch_requirements_at node private_segment_size aperture.

Definition make_queue_scratch_control_at (node : Node)
    (private_segment_size backing_gpu_address : Z) (aperture : ScratchAperture)
  : scratch (QueueScratchRequirements * QueueScratchControl) :=
  requirements ← queue_scratch_requirements_at node private_segment_size aperture;
  if sr_allocation_size requirements =? 0 then
    if negb (backing_gpu_address =? 0) then
      scratch_failure QueueScratchError.InvalidBackingAddress
        "scratch-free queue must not have a backing address"
    else Ok (requirements, mkScratchControl (0, Z.shiftl 1 30, 0, kScratchSrdWord3) 0 0 0 0)
  else if (backing_gpu_address =? 0) ||
          negb (backing_gpu_address mod kScratchBackingAlignment =? 0) ||
          (backing_gpu_address >? kMaximumDescriptorAddress) ||
          (u64_sub (sr_allocation_size requirements) 1 >?
           u64_sub kMaximumDescriptorAddress backing_gpu_address) then
    scratch_failure QueueScratchError.InvalidBackingAddress
      "scratch backing must be a 64 KiB-aligned 48-bit range"
  else
    Ok (requirements, mkScratchControl
          (to_u32 backing_gpu_address,
           Z.lor (to_u32 (Z.land (Z.shiftr backing_gpu_address 32) 0xffff)) (Z.shiftl 1 30),
           to_u32 (sr_backing_size_per_xcc requirements),
           kScratchSrdWord3)
          (Z.lor (to_u32 (Z.shiftl (sr_wave_size_units requirements) 12))
             (sr_waves_per_shader_engine requirements))
          backing_gpu_address
          (sr_backing_size_per_xcc requirements)
          private_segment_size).

Definition make_queue_scratch_control (node : Node)
    (private_segment_size backing_gpu_address : Z)
  : scratch (QueueScratchRequirements * QueueScratchControl) :=
  aperture ← unique_aperture node;
  make_queue_scratch_control_at node private_segment_size backing_gpu_address aperture.

(** ** Facts *)

#[export] Instance scratch_status_failure : Failure QueueScratchStatus :=
  fun s => ss_error s <> QueueScratchError.None.

Lemma scratch_failure_safe {A} error message (Q : A -> Prop) :
  error <> QueueScratchError.None -> safe (scratch_failure error message) Q.
Proof. done. Qed.

Ltac scratch_fails := apply scratch_failure_safe; discriminate.

Record node_typed (node : Node) : Prop := {
  nt_simd_count : is_u32 (node_simd_count node);
  nt_simd_per_cu : is_u32 (node_simd_per_compute_unit node);
  nt_scratch_waves : is_u32 (node_maximum_scratch_waves_per_compute_unit node);
  nt_shader_engines : is_u32 (node_shader_engine_count node)
}.

Lemma compute_unit_count_range node : node_typed node -> is_u32 (compute_unit_count node).
Proof.
  intros [? ? _ _]. unfold compute_unit_count. case_match; [lia|].
  split; [apply Z.div_pos; lia|]. apply Z.le_lt_trans with (node_simd_count node); [|lia].
  apply Z.div_le_upper_bound; nia.
Qed.

Lemma multiply_overflows_spec left right :
  0 <= left -> 0 <= right -> multiply_overflows left right = false -> left * right < U64_MOD.
Proof.
  intros Hl Hr. unfold multiply_overflows. destruct (Z.eqb_spec right 0) as [->|]; [lia|].
  cbn [negb andb]. intros H. assert (left <= UINT64_MAX / right) as Hle by lia.
  assert (right * (UINT64_MAX / right) <= UINT64_MAX) by (apply Z.mul_div_le; lia). nia.
Qed.

Lemma multiply_factors_safe raw_size factors :
  is_u64 raw_size -> Forall (fun f => 0 <= f) factors ->
  safe (multiply_factors raw_size factors)
    (fun r => r = foldl Z.mul raw_size factors /\ is_u64 r).
Proof.
  intros Hr Hf. revert raw_size Hr. induction Hf as [|f factors Hf0 _ IH]; intros raw Hr; simpl.
  { done. }
  case_match; [scratch_fails|].
  match goal with H : multiply_overflows _ _ = false |- _ =>
    apply multiply_overflows_spec in H; [|lia..] end.
  rewrite u64_mul_small by nia. apply IH. nia.
Qed.

(** What the requirements promise: the backing is the page-rounded memory of
    all waves the GPU can run, it is addressable by the registers, and the
    waves the registers admit, over all shader engines, fit into it. *)
Record requirements_ok (node : Node) (private_segment_size : Z) (aperture : ScratchAperture)
    (r : QueueScratchRequirements) : Prop := {
  rok_private : sr_private_segment_size r = private_segment_size;
  rok_backing : sr_backing_size_per_xcc r = sr_allocation_size r;
  rok_zero : private_segment_size = 0 ->
    sr_allocation_size r = 0 /\ sr_wave_size_units r = 0 /\ sr_waves_per_shader_engine r = 0;
  rok_allocation : private_segment_size <> 0 ->
    let raw := private_segment_size * kScratchLanesPerWave *
      node_maximum_scratch_waves_per_compute_unit node * compute_unit_count node in
    raw <= sr_allocation_size r < raw + kPageSize /\
    sr_allocation_size r mod kPageSize = 0 /\
    sr_allocation_size r <= ap_size aperture /\ 0 < sr_allocation_size r < U32_MOD;
  rok_wave : private_segment_size <> 0 ->
    private_segment_size * kScratchLanesPerWave <=
      sr_wave_size_units r * kScratchDescriptorAlignment <
      private_segment_size * kScratchLanesPerWave + kScratchDescriptorAlignment /\
    0 < sr_wave_size_units r <= kMaximumWaveSizeUnits;
  rok_waves : private_segment_size <> 0 ->
    0 < sr_waves_per_shader_engine r <= kMaximumWavesPerShaderEngine /\
    sr_waves_per_shader_engine r * node_shader_engine_count node *
      (sr_wave_size_units r * kScratchDescriptorAlignment) <= sr_allocation_size r
}.

Lemma page_round raw :
  0 <= raw -> round_up_overflows raw kPageSize = false ->
  let a := Z.land (u64_sub (u64_add raw kPageSize) 1) (UINT64_MAX - (kPageSize - 1)) in
  raw <= a < raw + kPageSize /\ a mod kPageSize = 0.
Proof.
  unfold round_up_overflows, kPageSize. intros Hr Ho. cbv zeta.
  change (UINT64_MAX - (4096 - 1)) with (2 ^ 64 - 2 ^ 12).
  assert (u64_sub (u64_add raw 4096) 1 = raw + 4095) as ->.
  { unfold u64_sub, u64_add, to_u64. rewrite Zminus_mod_idemp_l, Z.mod_small; lia. }
  rewrite land_high_mask by lia. change (2 ^ 12) with 4096. zlia.
Qed.

(** The configured waves of all shader engines fit the backing. *)
Lemma waves_fit allocation wave_bytes engines other :
  0 <= allocation -> 0 < wave_bytes -> 0 < engines ->
  Z.min (allocation / wave_bytes / engines) other * engines * wave_bytes <= allocation.
Proof.
  intros Ha Hw He. set (total := allocation / wave_bytes).
  assert (wave_bytes * total <= allocation) by (apply Z.mul_div_le; lia).
  assert (engines * (total / engines) <= total) by (apply Z.mul_div_le; lia).
  assert (Z.min (total / engines) other * engines <= total / engines * engines)
    by (apply Z.mul_le_mono_nonneg_r; lia).
  etransitivity; [apply (Z.mul_le_mono_nonneg_r _ total); lia|lia].
Qed.

Lemma queue_scratch_requirements_at_safe node private_segment_size aperture :
  node_typed node -> is_u32 private_segment_size ->
  safe (queue_scratch_requirements_at node private_segment_size aperture)
    (requirements_ok node private_segment_size aperture).
Proof.
  intros Ht Hp. pose proof Ht as [? ? ? ?]. pose proof (compute_unit_count_range node Ht).
  unfold queue_scratch_requirements_at.
  case_match; [scratch_fails|]. cbv zeta. case_match; [scratch_fails|].
  case_match; [scratch_fails|].
  destruct (Z.eqb_spec private_segment_size 0) as [->|Hp0]; [by split|].
  destruct (Z.gtb_spec private_segment_size kMaximumPrivateSegmentSize) as [|Hmax];
    [scratch_fails|]. unfold kMaximumPrivateSegmentSize in Hmax.
  eapply safe_bind.
  { apply multiply_factors_safe; [lia|]. unfold kScratchLanesPerWave.
    repeat constructor; lia. }
  intros raw [-> Hraw]. cbn [foldl] in *. set (raw := _ * _ * _ * _) in *.
  destruct (round_up_overflows raw kPageSize) eqn:Hover; [scratch_fails|].
  destruct (page_round raw ltac:(lia) Hover) as [Hal Hmod].
  set (allocation := Z.land _ _) in *. clearbody allocation.
  case_match; [scratch_fails|]. case_match; [scratch_fails|].
  assert (0 < raw).
  { unfold raw, kScratchLanesPerWave. repeat apply Z.mul_pos_pos; lia. }
  unfold kScratchLanesPerWave, kScratchDescriptorAlignment in *.
  rewrite (u64_mul_small private_segment_size) by lia. rewrite u64_add_small by lia.
  rewrite u64_sub_small by lia.
  set (units := (private_segment_size * 64 + 256 - 1) / 256).
  assert (private_segment_size * 64 <= units * 256 < private_segment_size * 64 + 256) as Hunits
    by (unfold units; zlia).
  clearbody units.
  case_match; [scratch_fails|]. unfold kMaximumWaveSizeUnits in *.
  change (Z.shiftl 1 15) with 32768 in *.
  rewrite (u64_mul_small units) by lia.
  set (waves := Z.min _ _). case_match; [scratch_fails|].
  unfold kMaximumWavesPerShaderEngine in *. change (Z.shiftl 1 12) with 4096 in *.
  assert (waves * node_shader_engine_count node * (units * 256) <= allocation)
    by (apply waves_fit; lia).
  assert (0 <= waves).
  { apply Z.min_glb; [|apply to_u64_range]. repeat apply Z.div_pos; lia. }
  simpl. split; simpl; try done; intros _; unfold kScratchLanesPerWave,
    kScratchDescriptorAlignment, kMaximumWaveSizeUnits, kMaximumWavesPerShaderEngine;
    rewrite ?to_u32_small by lia; fold raw; change (Z.shiftl 1 15) with 32768;
    change (Z.shiftl 1 12) with 4096; lia.
Qed.

(** For every topology and private segment size the requirements are
    computed without overflow; when they are granted, the allocation is the
    page-rounded size of all the GPU's waves inside the aperture, and the waves
    programmed into the registers, over all shader engines, fit into it. *)
Theorem queue_scratch_requirements_correct node private_segment_size aperture r :
  node_typed node -> is_u32 private_segment_size ->
  queue_scratch_requirements_at node private_segment_size aperture = Ok r ->
  requirements_ok node private_segment_size aperture r.
Proof.
  intros Ht Hp Hr. by eapply safe_inv; [apply queue_scratch_requirements_at_safe|].
Qed.

(** What the hardware reads from the control words. *)
Definition tmpring_waves (tmpring : Z) : Z := Z.land tmpring 0xfff.
Definition tmpring_wave_size (tmpring : Z) : Z := Z.shiftr tmpring 12.
Definition srd_base (srd : Z * Z * Z * Z) : Z :=
  let '(word0, word1, _, _) := srd in word0 + Z.land word1 0xffff * U32_MOD.
Definition srd_swizzle (srd : Z * Z * Z * Z) : bool :=
  let '(_, word1, _, _) := srd in Z.testbit word1 30.
Definition srd_records (srd : Z * Z * Z * Z) : Z := let '(_, _, word2, _) := srd in word2.

Lemma land_low x k : 0 <= k -> Z.land x (2 ^ k - 1) = x mod 2 ^ k.
Proof. intros Hk. rewrite <-Z.land_ones by done. by rewrite Z.ones_equiv. Qed.

(** Two fields packed into a word and taken apart again. *)
Lemma pack_fields high low k :
  0 <= k -> 0 <= high -> 0 <= low < 2 ^ k ->
  let word := Z.lor (Z.shiftl high k) low in
  Z.land word (2 ^ k - 1) = low /\ Z.shiftr word k = high.
Proof.
  intros Hk Hh Hl word. assert (word = low + high * 2 ^ k) as ->.
  { unfold word. rewrite Z.lor_comm, <-Z.shiftl_mul_pow2 by done.
    rewrite Z.add_nocarry_lxor; [symmetry; apply Z.lxor_lor|]; apply Z.bits_inj'; intros i Hi;
      rewrite Z.land_spec, Z.bits_0, Z.shiftl_spec by done.
    all: destruct (Z.lt_ge_cases i k); [by rewrite (Z.testbit_neg_r high), andb_false_r by lia|].
    all: destruct (Z.eq_dec low 0) as [->|]; [by rewrite Z.bits_0|].
    all: rewrite (Z.bits_above_log2 low); [done|lia|].
    all: apply Z.log2_lt_pow2; [lia|]; eapply Z.lt_le_trans; [apply Hl|]; apply Z.pow_le_mono_r; lia. }
  pose proof (Z.pow_pos_nonneg 2 k ltac:(lia) Hk).
  rewrite land_low, Z.shiftr_div_pow2 by done. split.
  - rewrite Z.mod_add by lia. apply Z.mod_small. lia.
  - rewrite Z.div_add, Z.div_small by lia. lia.
Qed.

(** The control words decode to what was required: the ring register holds
    the wave count and the wave size, the resource descriptor holds the backing
    address, its swizzle bit and its size, and the whole backing lies in the
    48-bit range the descriptor can address. *)
Theorem make_queue_scratch_control_correct node private_segment_size backing aperture r control :
  node_typed node -> is_u32 private_segment_size -> is_u64 backing ->
  make_queue_scratch_control_at node private_segment_size backing aperture = Ok (r, control) ->
  requirements_ok node private_segment_size aperture r /\
  srd_base (sc_resource_descriptor control) = backing /\
  srd_swizzle (sc_resource_descriptor control) = true /\
  srd_records (sc_resource_descriptor control) = sr_allocation_size r /\
  tmpring_waves (sc_compute_tmpring_size control) = sr_waves_per_shader_engine r /\
  tmpring_wave_size (sc_compute_tmpring_size control) = sr_wave_size_units r /\
  sc_backing_memory_location control = backing /\
  sc_backing_memory_byte_size control = sr_allocation_size r /\
  (sr_allocation_size r <> 0 ->
   backing <> 0 /\ backing mod kScratchBackingAlignment = 0 /\
   backing + sr_allocation_size r <= 2 ^ 48).
Proof.
  intros Ht Hp Hb. unfold make_queue_scratch_control_at. intros (r' & Hr & H)%bind_ok.
  assert (requirements_ok node private_segment_size aperture r') as Hok
    by (by eapply safe_inv; [apply queue_scratch_requirements_at_safe|]).
  pose proof Hok as [Epriv Eback Hzero Halloc Hwave Hwaves].
  unfold kMaximumDescriptorAddress in H.
  change (Z.shiftl 1 48) with 281474976710656 in H.
  destruct (Z.eqb_spec (sr_allocation_size r') 0) as [E0|E0].
  { destruct (Z.eqb_spec backing 0) as [->|]; cbn [negb] in H; [|done]. simplify_eq. split; [done|].
    destruct (Z.eq_dec (sr_private_segment_size r) 0) as [Ep|Ep];
      [|destruct (Halloc Ep) as (_ & _ & _ & ?); lia].
    destruct (Hzero Ep) as (_ & -> & ->). simpl. rewrite E0. done. }
  destruct (_ || _) eqn:G in H; [done|].
  injection H as <- <-. split; [done|]. rewrite !Eback.
  assert (private_segment_size <> 0) as Ep by (intros Ez; destruct (Hzero Ez); lia).
  destruct (Halloc Ep) as (_ & _ & _ & Hrange), (Hwave Ep) as [_ Hunits], (Hwaves Ep) as [Hw _].
  unfold kMaximumWaveSizeUnits, kMaximumWavesPerShaderEngine in *.
  change (Z.shiftl 1 15) with 32768 in *. change (Z.shiftl 1 12) with 4096 in *.
  rewrite !orb_false_iff in G. destruct G as [[[G1 G2] G3] G4].
  rewrite !u64_sub_small in G4 by lia.
  unfold srd_base, srd_swizzle, srd_records, tmpring_waves, tmpring_wave_size.
  cbn [sc_resource_descriptor sc_compute_tmpring_size sc_backing_memory_location
    sc_backing_memory_byte_size].
  rewrite (to_u32_small (Z.shiftl (sr_wave_size_units r') 12))
    by (rewrite Z.shiftl_mul_pow2 by lia; change (2 ^ 12) with 4096; lia).
  destruct (pack_fields (sr_wave_size_units r') (sr_waves_per_shader_engine r') 12) as [Ew Es];
    [lia..|simpl; lia|]. change (2 ^ 12 - 1) with 0xfff in Ew.
  change 0xffff with (2 ^ 16 - 1). rewrite (land_low (Z.shiftr backing 32)) by lia.
  rewrite Z.shiftr_div_pow2 by lia.
  assert (backing / 2 ^ 32 mod 2 ^ 16 = backing / 2 ^ 32) as ->
    by (apply Z.mod_small; change (2 ^ 32) with 4294967296; change (2 ^ 16) with 65536; zlia).
  change (2 ^ 32) with 4294967296.
  rewrite (to_u32_small (backing / 4294967296)) by zlia.
  rewrite (Z.lor_comm (backing / 4294967296)). change (Z.shiftl 1 30) with (Z.shiftl 16384 16).
  destruct (pack_fields 16384 (backing / 4294967296) 16) as [Ea Eb];
    [lia..|change (2 ^ 16) with 65536; zlia|].
  rewrite Ea, Ew, Es. split_and!; try done.
  - unfold to_u32. zlia.
  - change 30 with (14 + 16). by rewrite <-Z.shiftr_spec, Eb by lia.
  - apply to_u32_small. lia.
  - intros _. change (2 ^ 48) with 281474976710656. lia.
Qed.
