(* ===== verification/CodeCache.v ===== *)
(** * Code-cache invalidation packets (gfx11)

    [arch/gfx11/code_cache.cpp]: the PM4 command that invalidates the
    instruction caches over a code range, and the AQL packet that makes the
    command processor execute it. *)

From S2P Require Import Prelude Scratch.

Definition kPm4Type3 : Z := Z.shiftl 3 30.
Definition kPm4AcquireMemoryOpcode : Z := 0x58.
Definition kPm4IndirectBufferOpcode : Z := 0x3f.
Definition kPm4GlobalInvalidate : Z :=
  Z.lor (Z.lor (Z.lor (Z.lor 1 (Z.shiftl 1 7)) (Z.shiftl 1 8)) (Z.shiftl 1 9)) (Z.shiftl 1 14).
Definition kPm4IndirectBufferValid : Z := Z.shiftl 1 23.
Definition kCodeCacheGranule : Z := 256.
Definition kMaximumCodeRangeGranules : Z := Z.shiftl 1 40 - 1.
Definition kMaximumIndirectBufferAddress : Z := Z.shiftl 1 48 - 1.
Definition kAqlPacketTypeInvalid : Z := 1.
Definition kAqlPacketTypeVendorSpecific : Z := 0.
Definition kAmdAqlFormatPm4IndirectBuffer : Z := 1.

Module CodeCacheCommandError.
Inductive t :=
| None
| InvalidCodeRange
| InvalidCommandAddress
| InvalidCompletionSignal.
End CodeCacheCommandError.

Definition code_cache_command_error_name (error : CodeCacheCommandError.t) : string :=
  match error with
  | CodeCacheCommandError.None => "none"
  | CodeCacheCommandError.InvalidCodeRange => "invalid_code_range"
  | CodeCacheCommandError.InvalidCommandAddress => "invalid_command_address"
  | CodeCacheCommandError.InvalidCompletionSignal => "invalid_completion_signal"
  end.

(** The fields of the 64-byte packet that are not reserved. *)
Record AqlPm4IndirectBufferPacket := mkPm4Packet {
  pm_header : Z;
  pm_vendor_header : Z;
  pm_indirect_buffer : list Z;
  pm_dword_count_remaining : Z;
  pm_completion_signal : Z
}.

Definition default_pm4_packet : AqlPm4IndirectBufferPacket :=
  mkPm4Packet kAqlPacketTypeInvalid 0 [0; 0; 0; 0] 0 0.

Record CodeCacheCommandResult := mkCodeCacheCommand {
  cc_error : CodeCacheCommandError.t;
  cc_command : list Z;
  cc_packet : AqlPm4IndirectBufferPacket
}.

Definition code_cache_failure (error : CodeCacheCommandError.t) : CodeCacheCommandResult :=
  mkCodeCacheCommand error [0; 0; 0; 0; 0; 0; 0; 0] default_pm4_packet.

Definition pm4_header (opcode dword_count : Z) : Z :=
  Z.lor (Z.lor kPm4Type3 (to_u32 (Z.shiftl opcode 8)))
    (to_u32 (Z.shiftl (to_u32 (dword_count - 2)) 16)).

Definition add_overflows (left right : Z) : bool := left >? UINT64_MAX - right.

Definition build_code_cache_invalidate
    (code_gpu_address code_size command_gpu_address completion_signal : Z)
  : CodeCacheCommandResult :=
  if (code_size =? 0) || negb (code_gpu_address mod kCodeCacheGranule =? 0) ||
     negb (code_size mod kCodeCacheGranule =? 0) ||
     (code_size / kCodeCacheGranule >? kMaximumCodeRangeGranules) ||
     add_overflows code_gpu_address code_size then
    code_cache_failure CodeCacheCommandError.InvalidCodeRange
  else if negb (command_gpu_address mod 4 =? 0) ||
          (command_gpu_address >? kMaximumIndirectBufferAddress) ||
          add_overflows command_gpu_address (8 * 4) ||
          (u64_sub (u64_add command_gpu_address (8 * 4)) 1 >? kMaximumIndirectBufferAddress) then
    code_cache_failure CodeCacheCommandError.InvalidCommandAddress
  else if (completion_signal =? 0) || negb (completion_signal mod 64 =? 0) then
    code_cache_failure CodeCacheCommandError.InvalidCompletionSignal
  else
    let range_granules := code_size / kCodeCacheGranule in
    let command :=
      [pm4_header kPm4AcquireMemoryOpcode 8;
       0;
       to_u32 range_granules;
       to_u32 (Z.shiftr range_granules 32);
       to_u32 (Z.shiftr code_gpu_address 8);
       to_u32 (Z.shiftr code_gpu_address 40);
       0;
       kPm4GlobalInvalidate] in
    let packet :=
      mkPm4Packet kAqlPacketTypeVendorSpecific kAmdAqlFormatPm4IndirectBuffer
        [pm4_header kPm4IndirectBufferOpcode 4;
         Z.land (to_u32 command_gpu_address) 0xfffffffc;
         Z.land (to_u32 (Z.shiftr command_gpu_address 32)) 0xffff;
         Z.lor (to_u32 (Z.of_nat (length command))) kPm4IndirectBufferValid]
        0xa completion_signal in
    mkCodeCacheCommand CodeCacheCommandError.None command packet.

(** ** Facts *)

(** A value split over two 32-bit words. *)
Definition join_words (low high : Z) : Z := low + high * U32_MOD.

Lemma join_words_split x :
  is_u64 x -> join_words (to_u32 x) (to_u32 (Z.shiftr x 32)) = x.
Proof.
  intros Hx. unfold join_words, to_u32. rewrite Z.shiftr_div_pow2 by lia.
  change (2 ^ 32) with U32_MOD. zlia.
Qed.

(** What the command processor reads. *)
Record invalidates (code_gpu_address code_size command_gpu_address completion_signal : Z)
    (r : CodeCacheCommandResult) : Prop := {
  iv_command : exists w0 w2 w3 w4 w5 w7,
    cc_command r = [w0; 0; w2; w3; w4; w5; 0; w7] /\
    w0 = 0xc0065800 /\ w7 = 0x4381 /\
    join_words w2 w3 * kCodeCacheGranule = code_size /\
    join_words w4 w5 * kCodeCacheGranule = code_gpu_address;
  iv_packet : exists b0 b1 b2 b3,
    pm_indirect_buffer (cc_packet r) = [b0; b1; b2; b3] /\
    b0 = 0xc0023f00 /\
    join_words b1 b2 = command_gpu_address /\
    Z.land b3 0xfffff = Z.of_nat (length (cc_command r)) /\ Z.testbit b3 23 = true;
  iv_header : pm_header (cc_packet r) = kAqlPacketTypeVendorSpecific /\
    pm_vendor_header (cc_packet r) = kAmdAqlFormatPm4IndirectBuffer /\
    pm_completion_signal (cc_packet r) = completion_signal
}.

(** The requests the builder accepts. *)
Definition invalidate_accepted
    (code_gpu_address code_size command_gpu_address completion_signal : Z) : Prop :=
  0 < code_size /\ code_gpu_address mod kCodeCacheGranule = 0 /\
  code_size mod kCodeCacheGranule = 0 /\
  code_size / kCodeCacheGranule <= kMaximumCodeRangeGranules /\
  code_gpu_address + code_size < U64_MOD /\
  command_gpu_address mod 4 = 0 /\ command_gpu_address + 32 <= 2 ^ 48 /\
  completion_signal <> 0 /\ completion_signal mod 64 = 0.

(** The builder succeeds exactly on the granule-aligned ranges, 48-bit
    command addresses and aligned signals, and the words it emits decode back to
    the code range, the command address and length, and the signal. *)
Theorem build_code_cache_invalidate_correct code_address code_size command_address signal :
  is_u64 code_address -> is_u64 code_size -> is_u64 command_address -> is_u64 signal ->
  let r := build_code_cache_invalidate code_address code_size command_address signal in
  (cc_error r = CodeCacheCommandError.None <->
   invalidate_accepted code_address code_size command_address signal) /\
  (cc_error r = CodeCacheCommandError.None ->
   invalidates code_address code_size command_address signal r).
Proof.
  intros Hc Hs Hm Hsig r. unfold r, build_code_cache_invalidate, invalidate_accepted, add_overflows.
  unfold kCodeCacheGranule, kMaximumCodeRangeGranules, kMaximumIndirectBufferAddress.
  change (Z.shiftl 1 40) with 1099511627776. change (Z.shiftl 1 48) with 281474976710656.
  change (2 ^ 48) with 281474976710656.
  destruct (_ || _) eqn:G1; [split; [split; [done|lia]|done]|].
  destruct (negb (command_address mod 4 =? 0) || _ || _) eqn:G2; cbn [orb].
  { split; [split; [done|lia]|done]. }
  rewrite u64_add_small, u64_sub_small by lia.
  destruct (command_address + 8 * 4 - 1 >? _) eqn:G3; [split; [split; [done|lia]|done]|].
  destruct ((signal =? 0) || _) eqn:G4; [split; [split; [done|lia]|done]|].
  split; [split; [lia|done]|]. intros _. split; cbn [cc_command cc_packet pm_indirect_buffer].
  - eexists _, _, _, _, _, _. split; [done|]. split_and!; try done.
    + rewrite join_words_split by zlia. unfold kCodeCacheGranule. zlia.
    + replace 40 with (8 + 32) by lia. rewrite <-Z.shiftr_shiftr by lia.
      rewrite join_words_split; rewrite Z.shiftr_div_pow2 by lia; change (2 ^ 8) with 256;
        unfold kCodeCacheGranule; zlia.
  - eexists _, _, _, _. split; [done|]. split_and!; try done.
    change 0xfffffffc with (2 ^ 32 - 2 ^ 2). rewrite land_high_mask by
      (try apply to_u32_range; lia).
    change 0xffff with (2 ^ 16 - 1). rewrite land_low by lia.
    rewrite Z.shiftr_div_pow2 by lia. unfold join_words, to_u32.
    change (2 ^ 2) with 4. change (2 ^ 16) with 65536. change (2 ^ 32) with U32_MOD. zlia.
  - done.
Qed.
