(* ===== verification/AqlPacket.v ===== *)
(** * AQL packets

    The packet half of [src/aql_producer.cpp]: the kernel-dispatch and
    barrier-AND packets, their construction and validation, their 64-byte
    layout, and the publication of a packet in a ring slot. *)

From stdpp Require Import relations.
From S2P Require Import Prelude Memory.

Definition kAqlPacketTypeInvalid : Z := 1.
Definition kAqlPacketTypeKernelDispatch : Z := 2.
Definition kAqlPacketTypeBarrierAnd : Z := 3.
Definition kAqlFenceScopeSystem : Z := 2.
Definition kAqlPacketHeaderTypeShift : Z := 0.
Definition kAqlPacketHeaderBarrierShift : Z := 8.
Definition kAqlPacketHeaderAcquireFenceScopeShift : Z := 9.
Definition kAqlPacketHeaderReleaseFenceScopeShift : Z := 11.
Definition kAqlKernelDispatchDimensionsShift : Z := 0.
Definition kAqlKernelDispatchHeader : Z := to_u16
  (Z.lor (Z.lor (Z.shiftl kAqlPacketTypeKernelDispatch kAqlPacketHeaderTypeShift)
     (Z.shiftl kAqlFenceScopeSystem kAqlPacketHeaderAcquireFenceScopeShift))
     (Z.shiftl kAqlFenceScopeSystem kAqlPacketHeaderReleaseFenceScopeShift)).
Definition kAqlBarrierAndHeader : Z := to_u16
  (Z.lor (Z.lor (Z.lor (Z.shiftl kAqlPacketTypeBarrierAnd kAqlPacketHeaderTypeShift)
     (Z.shiftl 1 kAqlPacketHeaderBarrierShift))
     (Z.shiftl kAqlFenceScopeSystem kAqlPacketHeaderAcquireFenceScopeShift))
     (Z.shiftl kAqlFenceScopeSystem kAqlPacketHeaderReleaseFenceScopeShift)).

Record AqlKernelDispatchPacket := mkDispatchPacket {
  dp_header : Z;
  dp_setup : Z;
  dp_workgroup_size_x : Z;
  dp_workgroup_size_y : Z;
  dp_workgroup_size_z : Z;
  dp_reserved0 : Z;
  dp_grid_size_x : Z;
  dp_grid_size_y : Z;
  dp_grid_size_z : Z;
  dp_private_segment_size : Z;
  dp_group_segment_size : Z;
  dp_kernel_object : Z;
  dp_kernarg_address : Z;
  dp_reserved2 : Z;
  dp_completion_signal : Z
}.

Record AqlBarrierAndPacket := mkBarrierPacket {
  bp_header : Z;
  bp_reserved0 : Z;
  bp_reserved1 : Z;
  bp_dep_signal : Z * Z * Z * Z * Z;
  bp_reserved2 : Z;
  bp_completion_signal : Z
}.

Record AqlKernelDispatchParameters := mkDispatchParameters {
  dq_grid_size_x : Z;
  dq_grid_size_y : Z;
  dq_grid_size_z : Z;
  dq_workgroup_size_x : Z;
  dq_workgroup_size_y : Z;
  dq_workgroup_size_z : Z;
  dq_private_segment_size : Z;
  dq_group_segment_size : Z;
  dq_kernel_object : Z;
  dq_kernarg_address : Z;
  dq_completion_signal : Z
}.

Record AqlDispatchOrdering := mkDispatchOrdering {
  do_pending_dispatch_count : Z;
  do_has_pending_dependencies : bool
}.

Record AqlBarrierAndParameters := mkBarrierParameters {
  bq_dependency_signals : Z * Z * Z * Z * Z;
  bq_completion_signal : Z
}.

Definition dispatch_dimensions (parameters : AqlKernelDispatchParameters) : Z :=
  if (dq_grid_size_z parameters >? 1) || (dq_workgroup_size_z parameters >? 1) then 3
  else if (dq_grid_size_y parameters >? 1) || (dq_workgroup_size_y parameters >? 1) then 2
  else 1.

Definition build_aql_kernel_dispatch_packet (parameters : AqlKernelDispatchParameters)
    (ordering : AqlDispatchOrdering) : AqlKernelDispatchPacket :=
  let wait_for_dependencies :=
    negb (do_pending_dispatch_count ordering =? 0) || do_has_pending_dependencies ordering in
  mkDispatchPacket
    (to_u16 (Z.lor kAqlKernelDispatchHeader
       (if wait_for_dependencies then Z.shiftl 1 kAqlPacketHeaderBarrierShift else 0)))
    (to_u16 (Z.shiftl (dispatch_dimensions parameters) kAqlKernelDispatchDimensionsShift))
    (dq_workgroup_size_x parameters)
    (dq_workgroup_size_y parameters)
    (dq_workgroup_size_z parameters)
    0
    (dq_grid_size_x parameters)
    (dq_grid_size_y parameters)
    (dq_grid_size_z parameters)
    (dq_private_segment_size parameters)
    (dq_group_segment_size parameters)
    (dq_kernel_object parameters)
    (dq_kernarg_address parameters)
    0
    (dq_completion_signal parameters).

Definition valid_aql_kernel_dispatch_packet (packet : AqlKernelDispatchPacket) : bool :=
  let barrier_bit := Z.shiftl 1 kAqlPacketHeaderBarrierShift in
  if negb (Z.land (dp_header packet) (UINT16_MAX - barrier_bit) =? kAqlKernelDispatchHeader) ||
     negb (Z.land (dp_setup packet) (UINT16_MAX - 0x3) =? 0) then false
  else
    let dimensions := to_u16 (Z.shiftr (dp_setup packet) kAqlKernelDispatchDimensionsShift) in
    negb ((dimensions <? 1) || (dimensions >? 3) || (dp_workgroup_size_x packet =? 0) ||
          (dp_workgroup_size_y packet =? 0) || (dp_workgroup_size_z packet =? 0) ||
          ((dimensions <? 2) && negb (dp_workgroup_size_y packet =? 1)) ||
          ((dimensions <? 3) && negb (dp_workgroup_size_z packet =? 1)) ||
          (dp_grid_size_x packet <? dp_workgroup_size_x packet) ||
          (dp_grid_size_y packet <? dp_workgroup_size_y packet) ||
          (dp_grid_size_z packet <? dp_workgroup_size_z packet) ||
          ((dimensions <? 2) && negb (dp_grid_size_y packet =? 1)) ||
          ((dimensions <? 3) && negb (dp_grid_size_z packet =? 1)) ||
          (dp_kernel_object packet =? 0) || negb (dp_reserved0 packet =? 0) ||
          negb (dp_reserved2 packet =? 0)).

Definition build_aql_barrier_and_packet (parameters : AqlBarrierAndParameters)
  : AqlBarrierAndPacket :=
  mkBarrierPacket kAqlBarrierAndHeader 0 0 (bq_dependency_signals parameters) 0
    (bq_completion_signal parameters).

Definition valid_aql_barrier_and_packet (packet : AqlBarrierAndPacket) : bool :=
  (bp_header packet =? kAqlBarrierAndHeader) && (bp_reserved0 packet =? 0) &&
  (bp_reserved1 packet =? 0) && (bp_reserved2 packet =? 0).

(** ** Layout

    The object representation of the packets, by the [offsetof] assertions of
    [aql_producer.hpp]. *)

Definition dispatch_bytes (p : AqlKernelDispatchPacket) : bytes :=
  le_bytes 2 (dp_header p) ++ le_bytes 2 (dp_setup p) ++
  le_bytes 2 (dp_workgroup_size_x p) ++ le_bytes 2 (dp_workgroup_size_y p) ++
  le_bytes 2 (dp_workgroup_size_z p) ++ le_bytes 2 (dp_reserved0 p) ++
  le_bytes 4 (dp_grid_size_x p) ++ le_bytes 4 (dp_grid_size_y p) ++
  le_bytes 4 (dp_grid_size_z p) ++ le_bytes 4 (dp_private_segment_size p) ++
  le_bytes 4 (dp_group_segment_size p) ++ le_bytes 8 (dp_kernel_object p) ++
  le_bytes 8 (dp_kernarg_address p) ++ le_bytes 8 (dp_reserved2 p) ++
  le_bytes 8 (dp_completion_signal p).

Definition barrier_bytes (p : AqlBarrierAndPacket) : bytes :=
  let '(s0, s1, s2, s3, s4) := bp_dep_signal p in
  le_bytes 2 (bp_header p) ++ le_bytes 2 (bp_reserved0 p) ++ le_bytes 4 (bp_reserved1 p) ++
  le_bytes 8 s0 ++ le_bytes 8 s1 ++ le_bytes 8 s2 ++ le_bytes 8 s3 ++ le_bytes 8 s4 ++
  le_bytes 8 (bp_reserved2 p) ++ le_bytes 8 (bp_completion_signal p).

(** ** Publication *)

Definition kAqlPacketSize : Z := 64.

(** The three stores of [publish_packet]: the INVALID header, the bytes behind
    the header, the packet's header with release order. *)
Definition publish_packet (memory : bytes) (slot : Z) (packet : bytes) : result Empty_set bytes :=
  memory ← write_bytes memory slot (le_bytes 2 kAqlPacketTypeInvalid);
  memory ← write_bytes memory (slot + 2) (drop 2 packet);
  write_bytes memory slot (take 2 packet).

(** ** Facts: validity *)

Record dispatch_typed (p : AqlKernelDispatchParameters) : Prop := {
  dt_grid : is_u32 (dq_grid_size_x p) /\ is_u32 (dq_grid_size_y p) /\ is_u32 (dq_grid_size_z p);
  dt_workgroup : is_u16 (dq_workgroup_size_x p) /\ is_u16 (dq_workgroup_size_y p) /\
    is_u16 (dq_workgroup_size_z p);
  dt_segments : is_u32 (dq_private_segment_size p) /\ is_u32 (dq_group_segment_size p);
  dt_addresses : is_u64 (dq_kernel_object p) /\ is_u64 (dq_kernarg_address p) /\
    is_u64 (dq_completion_signal p)
}.

(** The packet built from launch parameters is valid exactly when every
    workgroup dimension is non-zero and fits the grid and there is a kernel: the
    dimension checks hold by construction.  Its header has the dispatch type and
    system fences, and the barrier bit exactly when the launch must wait. *)
Theorem build_dispatch_packet_valid p ordering :
  dispatch_typed p ->
  let packet := build_aql_kernel_dispatch_packet p ordering in
  (valid_aql_kernel_dispatch_packet packet = true <->
   0 < dq_workgroup_size_x p <= dq_grid_size_x p /\
   0 < dq_workgroup_size_y p <= dq_grid_size_y p /\
   0 < dq_workgroup_size_z p <= dq_grid_size_z p /\ dq_kernel_object p <> 0) /\
  Z.land (dp_header packet) 0xff = kAqlPacketTypeKernelDispatch /\
  Z.testbit (dp_header packet) 8 =
    negb (do_pending_dispatch_count ordering =? 0) || do_has_pending_dependencies ordering /\
  Z.land (Z.shiftr (dp_header packet) 9) 3 = kAqlFenceScopeSystem /\
  Z.land (Z.shiftr (dp_header packet) 11) 3 = kAqlFenceScopeSystem.
Proof.
  intros [(? & ? & ?) (? & ? & ?) _ (? & _)]. cbv zeta.
  unfold build_aql_kernel_dispatch_packet. cbv zeta. cbn [dp_header].
  set (wait := _ || _). split; [|by destruct wait].
  unfold valid_aql_kernel_dispatch_packet. cbn -[to_u16 Z.lor Z.land Z.shiftl Z.shiftr].
  assert (negb (Z.land (to_u16 (Z.lor kAqlKernelDispatchHeader
    (if wait then Z.shiftl 1 kAqlPacketHeaderBarrierShift else 0)))
    (UINT16_MAX - Z.shiftl 1 kAqlPacketHeaderBarrierShift) =? kAqlKernelDispatchHeader) = false)
    as -> by (by destruct wait). cbn [orb].
  assert (dispatch_dimensions p = 1 \/ dispatch_dimensions p = 2 \/ dispatch_dimensions p = 3)
    as Hd by (unfold dispatch_dimensions; repeat case_match; lia).
  assert (Z.land (to_u16 (Z.shiftl (dispatch_dimensions p) kAqlKernelDispatchDimensionsShift))
    (UINT16_MAX - 3) = 0) as -> by (by destruct Hd as [->|[->| ->]]).
  assert (to_u16 (Z.shiftr (to_u16 (Z.shiftl (dispatch_dimensions p)
    kAqlKernelDispatchDimensionsShift)) kAqlKernelDispatchDimensionsShift) =
    dispatch_dimensions p) as -> by (by destruct Hd as [->|[->| ->]]).
  cbn [Z.eqb negb]. clear wait. unfold dispatch_dimensions. rewrite negb_true_iff.
  repeat case_match; lia.
Qed.

(** Every barrier packet the builder makes is valid: the producer's check of
    its own packets cannot fail. *)
Lemma build_barrier_packet_valid parameters :
  valid_aql_barrier_and_packet (build_aql_barrier_and_packet parameters) = true.
Proof. done. Qed.

(** ** Facts: layout *)

Lemma length_dispatch_bytes p : length (dispatch_bytes p) = 64%nat.
Proof. unfold dispatch_bytes. rewrite !length_app, !length_le_bytes. done. Qed.

Lemma length_barrier_bytes p : length (barrier_bytes p) = 64%nat.
Proof.
  unfold barrier_bytes. destruct (bp_dep_signal p) as [[[[s0 s1] s2] s3] s4].
  rewrite !length_app, !length_le_bytes. done.
Qed.

(** The header is the first two bytes of either packet. *)
Lemma dispatch_bytes_header p : take 2 (dispatch_bytes p) = le_bytes 2 (dp_header p).
Proof. done. Qed.

Lemma barrier_bytes_header p : take 2 (barrier_bytes p) = le_bytes 2 (bp_header p).
Proof. unfold barrier_bytes. by destruct (bp_dep_signal p) as [[[[s0 s1] s2] s3] s4]. Qed.

(** The fields the command processor uses, at the offsets of the packet
    format. *)
Lemma dispatch_bytes_fields p :
  slice (dispatch_bytes p) 2 2 = le_bytes 2 (dp_setup p) /\
  slice (dispatch_bytes p) 4 2 = le_bytes 2 (dp_workgroup_size_x p) /\
  slice (dispatch_bytes p) 12 4 = le_bytes 4 (dp_grid_size_x p) /\
  slice (dispatch_bytes p) 24 4 = le_bytes 4 (dp_private_segment_size p) /\
  slice (dispatch_bytes p) 28 4 = le_bytes 4 (dp_group_segment_size p) /\
  slice (dispatch_bytes p) 32 8 = le_bytes 8 (dp_kernel_object p) /\
  slice (dispatch_bytes p) 40 8 = le_bytes 8 (dp_kernarg_address p) /\
  slice (dispatch_bytes p) 56 8 = le_bytes 8 (dp_completion_signal p).
Proof. split_and!; reflexivity. Qed.

(** ** Facts: publication

    The publication as another agent may see it: the INVALID header, the bytes
    of the [memcpy] one by one in any order, then the header stored with release
    order.  Stores of the host become visible in program order (total store
    order), so the relaxed INVALID store is seen before the copy. *)

Inductive publish_pc :=
| Start
| Copying (remaining : list nat)
| Published.

Section publication.
Context (slot : nat) (packet : bytes).

Definition store_byte (memory : bytes) (i : nat) (b : byte) : bytes := <[i:=b]> memory.

Definition store_header (memory : bytes) (header : bytes) : bytes :=
  match header with
  | [b0; b1] => <[slot:=b0]> (<[S slot:=b1]> memory)
  | _ => memory
  end.

Inductive publish_step : publish_pc * bytes -> publish_pc * bytes -> Prop :=
| step_invalidate memory :
    publish_step (Start, memory)
      (Copying (seq 2 62), store_header memory (le_bytes 2 kAqlPacketTypeInvalid))
| step_copy memory before i after b :
    packet !! i = Some b ->
    publish_step (Copying (before ++ i :: after), memory)
      (Copying (before ++ after), store_byte memory (slot + i) b)
| step_publish memory :
    publish_step (Copying [], memory) (Published, store_header memory (take 2 packet)).

(** What holds of every state the memory goes through. *)
Definition publish_inv (old : bytes) (st : publish_pc * bytes) : Prop :=
  let '(pc, memory) := st in
  length memory = length old /\
  (forall i, (i < slot \/ slot + 64 <= i)%nat -> memory !! i = old !! i) /\
  match pc with
  | Start => memory = old
  | Copying remaining =>
      slice memory (Z.of_nat slot) 2 = le_bytes 2 kAqlPacketTypeInvalid /\
      (forall i, i ∈ remaining -> (2 <= i < 64)%nat) /\
      forall i, (2 <= i < 64)%nat -> i ∉ remaining -> memory !! (slot + i)%nat = packet !! i
  | Published => slice memory (Z.of_nat slot) 64 = packet
  end.

Lemma store_header_lookup memory b0 b1 i :
  (slot + 2 <= length memory)%nat ->
  store_header memory [b0; b1] !! i =
    if decide (i = slot) then Some b0 else if decide (i = S slot) then Some b1 else memory !! i.
Proof.
  intros Hl. simpl. repeat case_decide; subst.
  - rewrite list_lookup_insert_eq; [done|]. rewrite length_insert. lia.
  - rewrite list_lookup_insert_ne by lia. rewrite list_lookup_insert_eq; [done|lia].
  - by rewrite !list_lookup_insert_ne by lia.
Qed.

Lemma length_store_header memory header : length (store_header memory header) = length memory.
Proof. destruct header as [|? [|? [|]]]; simpl; by rewrite ?length_insert. Qed.

Lemma slice_header memory b0 b1 :
  (slot + 2 <= length memory)%nat ->
  memory !! slot = Some b0 -> memory !! S slot = Some b1 ->
  slice memory (Z.of_nat slot) 2 = [b0; b1].
Proof.
  intros Hl H0 H1. apply list_eq. intros i. unfold slice. rewrite Nat2Z.id.
  destruct i as [|[|i]].
  - rewrite lookup_take_lt, lookup_drop by lia. by rewrite Nat.add_0_r.
  - rewrite lookup_take_lt, lookup_drop by lia. by rewrite Nat.add_1_r.
  - by rewrite lookup_take_ge by lia.
Qed.

Context (old : bytes) (Hpacket : length packet = 64%nat).
Context (Hslot : (slot + 64 <= length old)%nat).

Lemma publish_inv_step st st' :
  publish_step st st' -> publish_inv old st -> publish_inv old st'.
Proof.
  intros Hstep Hinv. destruct Hstep as [memory|memory before i after b Hb|memory].
  - destruct Hinv as (Hl & Hout & ->). unfold publish_inv.
    rewrite length_store_header. split_and!; [done|..].
    + intros i Hi. change (le_bytes 2 kAqlPacketTypeInvalid) with [x01; x00].
      rewrite store_header_lookup by lia. by rewrite !decide_False by lia.
    + change (le_bytes 2 kAqlPacketTypeInvalid) with [x01; x00].
      apply slice_header; rewrite ?length_store_header; [lia|..];
        rewrite store_header_lookup by lia; [by rewrite decide_True|].
      by rewrite decide_False, decide_True by lia.
    + intros i Hi%elem_of_seq. lia.
    + intros i Hi Hn. exfalso. apply Hn, elem_of_seq. lia.
  - destruct Hinv as (Hl & Hout & Hhead & Hrem & Hdone). unfold publish_inv, store_byte.
    assert (2 <= i < 64)%nat as Hi by (apply Hrem, elem_of_app; right; left).
    rewrite length_insert. split_and!; [done|..].
    + intros j Hj. rewrite list_lookup_insert_ne by lia. by apply Hout.
    + rewrite <-Hhead. apply slice_ext; [lia|]. intros j Hj. unfold covers in Hj.
      by rewrite list_lookup_insert_ne by lia.
    + intros j [Hj|Hj]%elem_of_app; apply Hrem, elem_of_app; [by left|by right; right].
    + intros j Hj Hn. destruct (decide (j = i)) as [->|Hne].
      * rewrite list_lookup_insert_eq by lia. done.
      * rewrite list_lookup_insert_ne by lia. apply Hdone; [done|].
        rewrite elem_of_app, elem_of_cons in *. tauto.
  - destruct Hinv as (Hl & Hout & Hhead & Hrem & Hdone). unfold publish_inv.
    assert (exists p0 p1, take 2 packet = [p0; p1] /\ packet !! 0%nat = Some p0 /\
      packet !! 1%nat = Some p1) as (p0 & p1 & -> & Hp0 & Hp1).
    { clear -Hpacket. destruct packet as [|p0 [|p1 rest]]; simpl in *; eauto; lia. }
    rewrite length_store_header. split_and!; [done|..].
    + intros i Hi. rewrite store_header_lookup by lia. rewrite !decide_False by lia. by apply Hout.
    + apply list_eq. intros i. unfold slice. rewrite Nat2Z.id.
      destruct (decide (i < 64)%nat) as [Hi|Hi].
      * rewrite lookup_take_lt, lookup_drop, store_header_lookup by lia.
        destruct i as [|[|i]].
        -- by rewrite decide_True by lia.
        -- by rewrite decide_False, decide_True by lia.
        -- rewrite !decide_False by lia. apply Hdone; [lia|]. apply not_elem_of_nil.
      * rewrite lookup_take_ge by lia. symmetry. apply lookup_ge_None. lia.
Qed.

(** The sequential execution ends with the packet in the slot. *)
Lemma publish_packet_safe :
  safe (publish_packet old (Z.of_nat slot) packet) (written old (Z.of_nat slot) packet).
Proof.
  unfold publish_packet, size_of in *.
  eapply safe_bind; [apply write_bytes_safe; unfold size_of; simpl; lia|]. intros m1 [Hl1 Hw1].
  eapply safe_bind; [apply write_bytes_safe; unfold size_of; rewrite ?length_drop; lia|].
  intros m2 [Hl2 Hw2].
  eapply safe_mono; [apply write_bytes_safe; unfold size_of; rewrite ?length_take; lia|].
  intros m3 [Hl3 Hw3]. split; [lia|]. intros i.
  rewrite Hw3, Hw2, Hw1. unfold size_of.
  rewrite length_take, length_drop, Hpacket, length_le_bytes.
  change (Nat.min 2 64) with 2%nat. change (64 - 2)%nat with 62%nat. clear Hw1 Hw2 Hw3.
  destruct ((Z.of_nat slot <=? Z.of_nat i) && (Z.of_nat i <? Z.of_nat slot + Z.of_nat 64)) eqn:G.
  - destruct ((_ <=? _) && (Z.of_nat i <? Z.of_nat slot + Z.of_nat 2)) eqn:G2.
    + rewrite lookup_take_lt by lia. done.
    + rewrite (proj2 (andb_true_iff _ _)) by lia. rewrite lookup_drop. f_equal. lia.
  - rewrite !(proj2 (andb_false_iff _ _)) by lia. done.
Qed.
(** The sequential result is determined by the slot and what surrounds it. *)
Lemma published_result memory :
  length memory = length old /\
  (forall i, (i < slot \/ slot + 64 <= i)%nat -> memory !! i = old !! i) /\
  slice memory (Z.of_nat slot) 64 = packet ->
  publish_packet old (Z.of_nat slot) packet = Ok memory.
Proof.
  intros (Hl & Hout & Hin). pose proof publish_packet_safe as Hsafe.
  destruct (publish_packet _ _ _) as [m|[]|f]; [|done]. destruct Hsafe as [Hlm Hm].
  f_equal. apply list_eq. intros i. rewrite Hm. unfold size_of. rewrite Hpacket.
  destruct (_ && _) eqn:G; [|symmetry; apply Hout; lia].
  rewrite <-Hin. unfold slice. rewrite lookup_take_lt by lia. rewrite lookup_drop.
  f_equal. lia.
Qed.

(** C29: whatever the order in which the bytes of a packet become visible, the
    slot's header reads INVALID from the first store until all 62 bytes behind
    it are the packet's, so that a reader that sees a valid header sees the
    whole packet; bytes outside the slot never change, and the memory at the end
    is the one [publish_packet] computes, which never writes out of bounds. *)
Theorem publish_packet_atomic st :
  rtc publish_step (Start, old) st ->
  publish_inv old st /\
  (st.1 = Published -> publish_packet old (Z.of_nat slot) packet = Ok st.2).
Proof.
  intros Hsteps. assert (publish_inv old st) as Hinv.
  { assert (publish_inv old (Start, old)) as H0 by done. revert H0.
    induction Hsteps as [|st1 st2 st3 Hstep _ IH]; [done|]. intros H.
    apply IH. by eapply publish_inv_step. }
  split; [done|]. destruct st as [pc memory]. simpl. intros ->. apply published_result.
  by destruct Hinv as (? & ? & ?).
Qed.
End publication.
