(* ===== verification/AqlQueue.v ===== *)
(** * The KFD queue handle

    The index and doorbell primitives of [transport/kfd/queue.cpp]: the
    acquire and relaxed index loads, the compare-and-swap loop that reserves
    packet ids, the doorbell store, the profiling property.  The control block
    is shared with the device and with other host threads, so the reservation
    is also given as a step relation of any number of threads. *)

From stdpp Require Import relations.
From S2P Require Import Prelude.

(** ** The shared control block and the handle *)

Record AmdQueueV1 := mkAmdQueue {
  aq_write_dispatch_id : Z;
  aq_read_dispatch_id : Z;
  aq_queue_properties : Z
}.

(** [None] is an empty [std::optional], [Some 0] a null host address. *)
Record AqlQueueState := mkQueueState {
  qs_active : bool;
  qs_doorbell_address : Z;
  qs_control : option Z;
  qs_ring : option Z;
  qs_ring_size : Z
}.

(** The [unique_ptr] of the handle. *)
Definition AqlQueue := option AqlQueueState.

Inductive AqlQueuePrimitiveError :=
| PrimitiveNone
| PrimitiveInvalidQueue
| PrimitiveInvalidIncrement
| PrimitiveIndexOverflow
| PrimitiveInvalidDoorbell.

Record AqlQueueIndexResult := mkIndexResult {
  ir_error : AqlQueuePrimitiveError;
  ir_previous_index : Z
}.

(** The guard shared by the accessors: the handle has mapped control memory. *)
Definition has_control (queue : AqlQueue) : bool :=
  match queue with
  | Some state =>
      match qs_control state with
      | Some host_address => negb (host_address =? 0)
      | None => false
      end
  | None => false
  end.

Definition queue_active (queue : AqlQueue) : bool :=
  match queue with Some state => qs_active state | None => false end.

Definition doorbell_address (queue : AqlQueue) : Z :=
  match queue with Some state => qs_doorbell_address state | None => 0 end.

Definition ring_host_address (queue : AqlQueue) : Z :=
  match queue with
  | Some state => match qs_ring state with Some host_address => host_address | None => 0 end
  | None => 0
  end.

Definition packet_count (queue : AqlQueue) : Z :=
  match queue with Some state => qs_ring_size state / 64 | None => 0 end.

(** [AqlQueue::operator bool]. *)
Definition queue_ready (queue : AqlQueue) : bool :=
  queue_active queue && negb (doorbell_address queue =? 0).

(** ** Loads *)

Definition read_index_acquire (queue : AqlQueue) (control : AmdQueueV1) : Z :=
  if has_control queue then aq_read_dispatch_id control else 0.

Definition write_index_relaxed (queue : AqlQueue) (control : AmdQueueV1) : Z :=
  if has_control queue then aq_write_dispatch_id control else 0.

Definition kAmdQueuePropertyEnableProfiling : Z := 8.

Definition set_profiling_enabled (queue : AqlQueue) (control : AmdQueueV1) (enabled : bool)
  : AmdQueueV1 :=
  if has_control queue then
    mkAmdQueue (aq_write_dispatch_id control) (aq_read_dispatch_id control)
      (if enabled
       then Z.lor (aq_queue_properties control) kAmdQueuePropertyEnableProfiling
       else Z.land (aq_queue_properties control) (UINT32_MAX - kAmdQueuePropertyEnableProfiling))
  else control.

Definition profiling_enabled (queue : AqlQueue) (control : AmdQueueV1) : bool :=
  has_control queue &&
  negb (Z.land (aq_queue_properties control) kAmdQueuePropertyEnableProfiling =? 0).

(** ** Reservation

    [add_write_index_scacq_screl] has three points at which it touches shared
    memory or returns: the initial load, the compare-exchange, the return. *)

Inductive reserve_pc :=
| ReserveLoad
| ReserveLoop (previous : Z)
| ReserveDone (outcome : AqlQueueIndexResult).

Definition set_write_dispatch_id (control : AmdQueueV1) (value : Z) : AmdQueueV1 :=
  mkAmdQueue value (aq_read_dispatch_id control) (aq_queue_properties control).

(** One atomic access of the loop. *)
Definition reserve_step (increment : Z) (pc : reserve_pc) (control : AmdQueueV1)
  : reserve_pc * AmdQueueV1 :=
  match pc with
  | ReserveLoad => (ReserveLoop (aq_write_dispatch_id control), control)
  | ReserveLoop previous =>
      if previous >? u64_sub UINT64_MAX increment then
        (ReserveDone (mkIndexResult PrimitiveIndexOverflow previous), control)
      else
        let desired := u64_add previous increment in
        if aq_write_dispatch_id control =? previous then
          (ReserveDone (mkIndexResult PrimitiveNone previous),
           set_write_dispatch_id control desired)
        else (ReserveLoop (aq_write_dispatch_id control), control)
  | ReserveDone outcome => (ReserveDone outcome, control)
  end.

(** The guards before the loop. *)
Definition reserve_start (queue : AqlQueue) (increment : Z) : reserve_pc :=
  if negb (queue_active queue) || negb (has_control queue) then
    ReserveDone (mkIndexResult PrimitiveInvalidQueue 0)
  else if increment =? 0 then ReserveDone (mkIndexResult PrimitiveInvalidIncrement 0)
  else ReserveLoad.

(** The loop run by a thread that no other thread disturbs. *)
Fixpoint reserve_run (fuel : nat) (increment : Z) (pc : reserve_pc) (control : AmdQueueV1)
  : result Empty_set (AqlQueueIndexResult * AmdQueueV1) :=
  match pc, fuel with
  | ReserveDone outcome, _ => Ok (outcome, control)
  | _, O => Fault OutOfFuel
  | _, S fuel =>
      let '(pc', control') := reserve_step increment pc control in
      reserve_run fuel increment pc' control'
  end.

Definition add_write_index_scacq_screl (queue : AqlQueue) (increment : Z) (control : AmdQueueV1)
  : result Empty_set (AqlQueueIndexResult * AmdQueueV1) :=
  reserve_run 2 increment (reserve_start queue increment) control.

(** The doorbell store; [Some value] is the value written to the device. *)
Definition store_doorbell_screlease (queue : AqlQueue) (value : Z)
  : AqlQueuePrimitiveError * option Z :=
  if negb (queue_active queue) then (PrimitiveInvalidQueue, None)
  else if doorbell_address queue =? 0 then (PrimitiveInvalidDoorbell, None)
  else (PrimitiveNone, Some value).

(** ** Facts: one thread *)

(** Without interference the loop needs no second attempt. *)
Lemma add_write_index_solo queue increment control :
  is_u64 (aq_write_dispatch_id control) -> is_u64 increment ->
  queue_active queue = true -> has_control queue = true -> increment <> 0 ->
  let write := aq_write_dispatch_id control in
  add_write_index_scacq_screl queue increment control =
    Ok (if write + increment <? U64_MOD
        then (mkIndexResult PrimitiveNone write, set_write_dispatch_id control (write + increment))
        else (mkIndexResult PrimitiveIndexOverflow write, control)).
Proof.
  intros Hw Hi Ha Hc Hz. cbv zeta. unfold add_write_index_scacq_screl, reserve_start.
  rewrite Ha, Hc. cbn [negb orb]. rewrite (proj2 (Z.eqb_neq increment 0) Hz).
  simpl. rewrite u64_sub_small by lia.
  destruct (_ >? _) eqn:G, (_ <? _) eqn:G2; [lia|done| |lia].
  rewrite Z.eqb_refl, u64_add_small by lia. done.
Qed.

Lemma profiling_roundtrip queue control enabled :
  has_control queue = true ->
  profiling_enabled queue (set_profiling_enabled queue control enabled) = enabled.
Proof.
  intros Hc. unfold profiling_enabled, set_profiling_enabled. rewrite Hc. cbn [andb].
  destruct enabled; cbn [aq_queue_properties].
  - rewrite Z.land_lor_distr_l, Z.land_diag, Z.lor_comm.
    apply negb_true_iff, Z.eqb_neq. intros H%Z.lor_eq_0_iff. by destruct H.
  - rewrite <-Z.land_assoc. change (Z.land (UINT32_MAX - _) _) with 0. by rewrite Z.land_0_r.
Qed.

(** ** Facts: any number of threads

    Threads of the host run the loop on the same control block while the
    device moves the read index. *)

Definition reserver : Type := Z * reserve_pc.

Inductive system_step : list reserver * AmdQueueV1 -> list reserver * AmdQueueV1 -> Prop :=
| step_thread threads control i increment pc pc' control' :
    threads !! i = Some (increment, pc) ->
    reserve_step increment pc control = (pc', control') ->
    system_step (threads, control) (<[i:=(increment, pc')]> threads, control')
| step_device threads control read :
    system_step (threads, control)
      (threads, mkAmdQueue (aq_write_dispatch_id control) read (aq_queue_properties control)).

(** The packet ids a thread has been given. *)
Definition reservation (t : reserver) : option (Z * Z) :=
  match t.2 with
  | ReserveDone (mkIndexResult PrimitiveNone previous) => Some (previous, t.1)
  | _ => None
  end.

Definition reserved_count (t : reserver) : Z :=
  match reservation t with Some (_, n) => n | None => 0 end.

Definition total (threads : list reserver) : Z := foldr (fun t n => reserved_count t + n) 0 threads.

Lemma total_insert threads i t t' :
  threads !! i = Some t ->
  total (<[i:=t']> threads) = total threads - reserved_count t + reserved_count t'.
Proof.
  unfold total. revert i. induction threads as [|s threads IH]; intros [|i] H; simplify_eq/=; [lia|].
  rewrite (IH i) by done. lia.
Qed.

Lemma reserved_count_none t : reservation t = None -> reserved_count t = 0.
Proof. unfold reserved_count. by intros ->. Qed.

(** A thread's local state fits the shared index. *)
Definition thread_ok (first write : Z) (t : reserver) : Prop :=
  is_u64 t.1 /\
  match t.2 with
  | ReserveLoad => t.1 <> 0
  | ReserveLoop previous => t.1 <> 0 /\ first <= previous <= write
  | ReserveDone (mkIndexResult PrimitiveNone previous) =>
      t.1 <> 0 /\ first <= previous /\ previous + t.1 <= write
  | ReserveDone (mkIndexResult PrimitiveIndexOverflow previous) =>
      previous <= write /\ U64_MOD <= previous + t.1
  | ReserveDone _ => True
  end.

Lemma thread_ok_mono first write write' t :
  write <= write' -> thread_ok first write t -> thread_ok first write' t.
Proof. intros Hw [Hu Ht]. split; [done|]. repeat case_match; try done; lia. Qed.

Record reservations_inv (first : Z) (threads : list reserver) (control : AmdQueueV1) : Prop := {
  rv_write : first <= aq_write_dispatch_id control < U64_MOD;
  rv_thread : forall i t, threads !! i = Some t -> thread_ok first (aq_write_dispatch_id control) t;
  rv_disjoint : forall i j s t p n q m, threads !! i = Some s -> threads !! j = Some t -> i <> j ->
    reservation s = Some (p, n) -> reservation t = Some (q, m) -> p + n <= q \/ q + m <= p;
  rv_total : aq_write_dispatch_id control = first + total threads
}.

(** A step that hands out no ids and leaves the index alone. *)
Lemma reservations_inv_local first threads control i t t' :
  reservations_inv first threads control -> threads !! i = Some t ->
  reservation t' = reservation t -> thread_ok first (aq_write_dispatch_id control) t' ->
  reservations_inv first (<[i:=t']> threads) control.
Proof.
  intros [H1 H2 H3 H4] Hi Hr Hok. split; [done|..].
  - intros j s Hj. apply list_lookup_insert_Some in Hj as [(<- & <- & _)|[_ Hj]]; eauto.
  - intros j k s u p n q m Hj Hk Hne Hs Hu.
    apply list_lookup_insert_Some in Hj as [(<- & <- & _)|[_ Hj]];
      apply list_lookup_insert_Some in Hk as [(<- & <- & _)|[_ Hk]]; try done.
    + rewrite Hr in Hs. eauto.
    + rewrite Hr in Hu. eauto.
    + eauto.
  - rewrite (total_insert _ _ _ _ Hi). unfold reserved_count. rewrite Hr. lia.
Qed.

(** The successful compare-exchange takes the ids behind all others. *)
Lemma reservations_inv_take first threads control i increment :
  reservations_inv first threads control ->
  threads !! i = Some (increment, ReserveLoop (aq_write_dispatch_id control)) ->
  aq_write_dispatch_id control + increment < U64_MOD ->
  reservations_inv first
    (<[i:=(increment, ReserveDone (mkIndexResult PrimitiveNone (aq_write_dispatch_id control)))]>
       threads)
    (set_write_dispatch_id control (aq_write_dispatch_id control + increment)).
Proof.
  intros [H1 H2 H3 H4] Hi Hlt. destruct (H2 _ _ Hi) as [Hu (Hz & Hw)]. simpl in *.
  assert (forall j t p n, threads !! j = Some t -> reservation t = Some (p, n) ->
    p + n <= aq_write_dispatch_id control) as Hbelow.
  { intros j [inc pc] p n Hj Hr. destruct (H2 _ _ Hj) as [_ Ht].
    unfold reservation in Hr. simpl in *. repeat case_match; simplify_eq. lia. }
  split; simpl.
  - lia.
  - intros j t Hj. apply list_lookup_insert_Some in Hj as [(<- & <- & _)|[_ Hj]].
    + split; simpl; lia.
    + eapply thread_ok_mono; [|by eauto]. lia.
  - intros j k s u p n q m Hj Hk Hne Hs Hu'.
    apply list_lookup_insert_Some in Hj as [(<- & <- & _)|[_ Hj]];
      apply list_lookup_insert_Some in Hk as [(<- & <- & _)|[_ Hk]]; try done.
    + injection Hs as <- <-. right. eauto.
    + injection Hu' as <- <-. left. eauto.
    + eauto.
  - rewrite (total_insert _ _ _ _ Hi). unfold reserved_count. simpl. lia.
Qed.

Lemma reservations_inv_step first st st' :
  system_step st st' -> 0 <= first -> reservations_inv first st.1 st.2 ->
  reservations_inv first st'.1 st'.2.
Proof.
  intros Hstep Hf Hinv. destruct Hstep as [threads control i increment pc pc' control' Hi Hs|
    threads control read]; simpl in *; [|by destruct Hinv].
  pose proof Hinv as [H1 H2 _ _]. destruct (H2 _ _ Hi) as [Hu Ht]. simpl in Hu, Ht.
  destruct pc as [|previous|outcome]; simpl in Hs.
  - simplify_eq. eapply reservations_inv_local; [done..|]. split; simpl; lia.
  - rewrite u64_sub_small in Hs by lia. destruct (_ >? _) eqn:G.
    + simplify_eq. eapply reservations_inv_local; [done..|]. split; simpl; lia.
    + destruct (_ =? _) eqn:G2; simplify_eq.
      * assert (previous = aq_write_dispatch_id control) as -> by lia.
        rewrite u64_add_small by lia. apply reservations_inv_take; [done..|lia].
      * eapply reservations_inv_local; [done..|]. split; simpl; lia.
  - simplify_eq. by rewrite list_insert_id.
Qed.

Lemma reservations_inv_init queue increments control :
  is_u64 (aq_write_dispatch_id control) -> Forall (fun n => is_u64 n) increments ->
  reservations_inv (aq_write_dispatch_id control)
    ((fun n => (n, reserve_start queue n)) <$> increments) control.
Proof.
  intros Hw Hn.
  assert (forall n, reservation (n, reserve_start queue n) = None) as Hr.
  { intros n. unfold reservation, reserve_start. simpl. by repeat case_match. }
  split.
  - lia.
  - intros i t Hi. apply list_lookup_fmap_Some in Hi as (n & -> & Hi).
    rewrite Forall_lookup in Hn. specialize (Hn _ _ Hi). split; [done|]. unfold reserve_start. simpl.
    destruct (_ || _); [done|]. destruct (n =? 0) eqn:?; [done|]. simpl. lia.
  - intros i j s t p n q m Hi Hj _ Hs _. apply list_lookup_fmap_Some in Hi as (k & -> & Hi).
    by rewrite Hr in Hs.
  - unfold total. clear Hn. induction increments as [|n increments IH]; [simpl; lia|].
    rewrite fmap_cons. cbn [foldr]. rewrite reserved_count_none by apply Hr. lia.
Qed.

(** C24: whatever the interleaving of host threads and device, the packet ids
    handed out by [add_write_index_scacq_screl] never overlap, start at the
    initial write index, end at the current one and leave no gap (their sizes
    add up to the advance of the index); the index never wraps, and a thread is
    refused only when its ids would not fit in 64 bits. *)
Theorem reservations_exclusive queue increments control threads control' :
  is_u64 (aq_write_dispatch_id control) -> Forall (fun n => is_u64 n) increments ->
  rtc system_step ((fun n => (n, reserve_start queue n)) <$> increments, control)
    (threads, control') ->
  reservations_inv (aq_write_dispatch_id control) threads control'.
Proof.
  intros Hw Hn Hsteps. pose proof (reservations_inv_init queue increments control Hw Hn) as Hinv.
  change (reservations_inv (aq_write_dispatch_id control)
    (threads, control').1 (threads, control').2).
  change (reservations_inv (aq_write_dispatch_id control)
    ((fun n => (n, reserve_start queue n)) <$> increments, control).1
    ((fun n => (n, reserve_start queue n)) <$> increments, control).2) in Hinv.
  revert Hinv. generalize (aq_write_dispatch_id control) Hw. intros first Hfirst.
  induction Hsteps as [st|st1 st2 st3 Hstep _ IH]; [done|]. intros Hinv.
  apply IH. eapply reservations_inv_step; [done|lia|done].
Qed.
