(* ===== verification/AqlProducer.v ===== *)
(** * The AQL producer

    [src/aql_producer.cpp]: submission of packets to a ring shared with the
    device.  The producer reaches the queue through a table of operations; the
    class [ProducerQueue] states what the comments of [aql_producer.hpp] ask of
    them, and the submissions are proved against it: they implement a FIFO of
    packets. *)

From S2P Require Import Prelude Memory CodeObject AqlPacket.

(** ** The operation table

    [C] is the state behind the [void *context]: the index words, the
    doorbell and whatever the device does meanwhile.  A pointer of the table is
    an [option]; [po_context] and [po_ring_base] say whether the two data
    pointers are set. *)

Record AqlQueueProducerOps (C : Type) := mkProducerOps {
  po_context : bool;
  po_ring_base : bool;
  po_packet_count : Z;
  po_load_read_index : option (C -> Z * C);
  po_load_write_index : option (C -> Z * C);
  po_reserve_packet : option (Z -> C -> option Z * C);
  po_ring_doorbell : option (Z -> C -> C);
  po_validate_packet : option (C -> AqlKernelDispatchPacket -> bool)
}.
Arguments mkProducerOps {C}.
Arguments po_context {C}.
Arguments po_ring_base {C}.
Arguments po_packet_count {C}.
Arguments po_load_read_index {C}.
Arguments po_load_write_index {C}.
Arguments po_reserve_packet {C}.
Arguments po_ring_doorbell {C}.
Arguments po_validate_packet {C}.

Inductive AqlSubmitError :=
| SubmitNone
| SubmitInvalidPacket
| SubmitInvalidQueue
| SubmitQueueFull
| SubmitReserveFailed.

Record AqlSubmitResult := mkSubmitResult {
  sr_error : AqlSubmitError;
  sr_packet_id : Z
}.

(** ** Operations *)

Section producer.
Context {C : Type} (queue : AqlQueueProducerOps C).

(** A submission gives its result, the context and the ring after it. *)
Definition submission : Type := AqlSubmitResult * C * bytes.

Definition valid_queue : bool :=
  po_context queue && po_ring_base queue && is_power_of_two (po_packet_count queue) &&
  bool_decide (is_Some (po_load_read_index queue)) &&
  bool_decide (is_Some (po_load_write_index queue)) &&
  bool_decide (is_Some (po_reserve_packet queue)) &&
  bool_decide (is_Some (po_ring_doorbell queue)).

(** A call through a function pointer, and an element of an array. *)
Definition called {A} (f : option A) : result Empty_set A :=
  match f with Some f => Ok f | None => Fault OutOfBounds end.

Definition element {A} (array : list A) (index : nat) : result Empty_set A :=
  match array !! index with Some a => Ok a | None => Fault OutOfBounds end.

(** [packet_id & (packet_count - 1)], the address of the slot, and the stores. *)
Definition publish_in_slot (ring : bytes) (packet_id : Z) (packet : bytes)
  : result Empty_set bytes :=
  let slot_index := Z.land packet_id (u64_sub (po_packet_count queue) 1) in
  publish_packet ring (u64_mul slot_index kAqlPacketSize) packet.

Definition submit_packet (packet : bytes) (capacity_prevalidated : bool) (context : C) (ring : bytes)
  : result Empty_set submission :=
  checked ←
    (if capacity_prevalidated then Ok (false, context)
     else
       load_read_index ← called (po_load_read_index queue);
       load_write_index ← called (po_load_write_index queue);
       let '(read_index, context) := load_read_index context in
       let '(write_index, context) := load_write_index context in
       Ok ((write_index <? read_index) ||
           (u64_sub write_index read_index >=? po_packet_count queue), context));
  let '(full, context) := checked : bool * C in
  if full then Ok (mkSubmitResult SubmitQueueFull 0, context, ring)
  else
    reserve_packet ← called (po_reserve_packet queue);
    match reserve_packet 1 context with
    | (None, context) => Ok (mkSubmitResult SubmitReserveFailed 0, context, ring)
    | (Some packet_id, context) =>
        ring ← publish_in_slot ring packet_id packet;
        ring_doorbell ← called (po_ring_doorbell queue);
        Ok (mkSubmitResult SubmitNone packet_id, ring_doorbell packet_id context, ring)
    end.

Definition dispatch_accepted (packet : AqlKernelDispatchPacket) (context : C) : bool :=
  valid_aql_kernel_dispatch_packet packet &&
  match po_validate_packet queue with
  | Some validate_packet => validate_packet context packet
  | None => true
  end.

Definition submit_aql_kernel_dispatch (parameters : AqlKernelDispatchParameters)
    (ordering : AqlDispatchOrdering) (capacity_prevalidated : bool) (context : C) (ring : bytes)
  : result Empty_set submission :=
  let packet := build_aql_kernel_dispatch_packet parameters ordering in
  if negb valid_queue then Ok (mkSubmitResult SubmitInvalidQueue 0, context, ring)
  else if negb (dispatch_accepted packet context) then
    Ok (mkSubmitResult SubmitInvalidPacket 0, context, ring)
  else submit_packet (dispatch_bytes packet) capacity_prevalidated context ring.

(** The loop that validates every barrier before anything is reserved. *)
Fixpoint barriers_valid (barrier_parameters : list AqlBarrierAndParameters) (index remaining : nat)
  : result Empty_set bool :=
  match remaining with
  | O => Ok true
  | S remaining =>
      parameters ← element barrier_parameters index;
      if negb (valid_aql_barrier_and_packet (build_aql_barrier_and_packet parameters)) then Ok false
      else barriers_valid barrier_parameters (S index) remaining
  end.

(** The loop that publishes them. *)
Fixpoint publish_barriers (barrier_parameters : list AqlBarrierAndParameters)
    (first_packet_id : Z) (index remaining : nat) (ring : bytes) : result Empty_set bytes :=
  match remaining with
  | O => Ok ring
  | S remaining =>
      parameters ← element barrier_parameters index;
      let barrier := build_aql_barrier_and_packet parameters in
      let packet_id := u64_add first_packet_id (Z.of_nat index) in
      ring ← publish_in_slot ring packet_id (barrier_bytes barrier);
      publish_barriers barrier_parameters first_packet_id (S index) remaining ring
  end.

(** The capacity check of a batch and its reservation. *)
Definition reserve_batch (count : Z) (context : C) : result Empty_set (AqlSubmitError * Z * C) :=
  if count >? po_packet_count queue then Ok (SubmitQueueFull, 0, context)
  else
    load_read_index ← called (po_load_read_index queue);
    load_write_index ← called (po_load_write_index queue);
    let '(read_index, context) := load_read_index context in
    let '(write_index, context) := load_write_index context in
    if (write_index <? read_index) ||
       (u64_sub write_index read_index >? u64_sub (po_packet_count queue) count) then
      Ok (SubmitQueueFull, 0, context)
    else
      reserve_packet ← called (po_reserve_packet queue);
      match reserve_packet count context with
      | (None, context) => Ok (SubmitReserveFailed, 0, context)
      | (Some first_packet_id, context) => Ok (SubmitNone, first_packet_id, context)
      end.

Definition submit_aql_barriers_and (barrier_parameters : option (list AqlBarrierAndParameters))
    (barrier_count : Z) (context : C) (ring : bytes) : result Empty_set submission :=
  if negb valid_queue then Ok (mkSubmitResult SubmitInvalidQueue 0, context, ring)
  else
    match barrier_parameters with
    | Some barrier_parameters =>
        if barrier_count =? 0 then Ok (mkSubmitResult SubmitInvalidPacket 0, context, ring)
        else
          valid ← barriers_valid barrier_parameters 0 (Z.to_nat barrier_count);
          if negb valid then Ok (mkSubmitResult SubmitInvalidPacket 0, context, ring)
          else
            reserved ← reserve_batch barrier_count context;
            match reserved with
            | (SubmitNone, first_packet_id, context) =>
                ring ← publish_barriers barrier_parameters first_packet_id 0
                         (Z.to_nat barrier_count) ring;
                let last_packet_id := u64_sub (u64_add first_packet_id barrier_count) 1 in
                ring_doorbell ← called (po_ring_doorbell queue);
                Ok (mkSubmitResult SubmitNone last_packet_id,
                    ring_doorbell last_packet_id context, ring)
            | (error, _, context) => Ok (mkSubmitResult error 0, context, ring)
            end
    | None => Ok (mkSubmitResult SubmitInvalidPacket 0, context, ring)
    end.

Definition submit_aql_barrier_and (parameters : AqlBarrierAndParameters) (context : C)
    (ring : bytes) : result Empty_set submission :=
  submit_aql_barriers_and (Some [parameters]) 1 context ring.

Definition submit_aql_barriers_and_kernel_dispatch
    (barrier_parameters : option (list AqlBarrierAndParameters)) (barrier_count : Z)
    (dispatch_parameters : AqlKernelDispatchParameters) (ordering : AqlDispatchOrdering)
    (context : C) (ring : bytes) : result Empty_set submission :=
  if negb valid_queue then Ok (mkSubmitResult SubmitInvalidQueue 0, context, ring)
  else
    match barrier_parameters with
    | Some barrier_parameters =>
        if (barrier_count =? 0) || (barrier_count =? UINT64_MAX) then
          Ok (mkSubmitResult SubmitInvalidPacket 0, context, ring)
        else
          valid ← barriers_valid barrier_parameters 0 (Z.to_nat barrier_count);
          if negb valid then Ok (mkSubmitResult SubmitInvalidPacket 0, context, ring)
          else
            let dispatch := build_aql_kernel_dispatch_packet dispatch_parameters ordering in
            if negb (dispatch_accepted dispatch context) then
              Ok (mkSubmitResult SubmitInvalidPacket 0, context, ring)
            else
              let packet_count := u64_add barrier_count 1 in
              reserved ← reserve_batch packet_count context;
              match reserved with
              | (SubmitNone, first_packet_id, context) =>
                  ring ← publish_barriers barrier_parameters first_packet_id 0
                           (Z.to_nat barrier_count) ring;
                  let dispatch_packet_id := u64_add first_packet_id barrier_count in
                  ring ← publish_in_slot ring dispatch_packet_id (dispatch_bytes dispatch);
                  ring_doorbell ← called (po_ring_doorbell queue);
                  Ok (mkSubmitResult SubmitNone dispatch_packet_id,
                      ring_doorbell dispatch_packet_id context, ring)
              | (error, _, context) => Ok (mkSubmitResult error 0, context, ring)
              end
    | None => Ok (mkSubmitResult SubmitInvalidPacket 0, context, ring)
    end.
End producer.

(** ** The interface

    What the producer may rely on: the index words mean the ids the device has
    taken and the ids handed out, other agents only move the read index, a
    reservation owns one contiguous range that does not wrap, and a refused one
    changes nothing. *)

Class ProducerQueue {C} (queue : AqlQueueProducerOps C) := {
  pq_inv : C -> Prop;
  pq_read : C -> Z;
  pq_write : C -> Z;
  pq_doorbells : C -> list Z;
  pq_bounds c : pq_inv c -> 0 <= pq_read c <= pq_write c /\ pq_write c < U64_MOD;
  pq_load_read f c v c' : po_load_read_index queue = Some f -> pq_inv c -> f c = (v, c') ->
    pq_inv c' /\ pq_read c <= v <= pq_read c' /\ pq_write c' = pq_write c /\
    pq_doorbells c' = pq_doorbells c;
  pq_load_write f c v c' : po_load_write_index queue = Some f -> pq_inv c -> f c = (v, c') ->
    pq_inv c' /\ v = pq_write c /\ pq_read c <= pq_read c' /\ pq_write c' = pq_write c /\
    pq_doorbells c' = pq_doorbells c;
  pq_reserve f n c v c' : po_reserve_packet queue = Some f -> pq_inv c -> is_u64 n ->
    f n c = (v, c') ->
    pq_inv c' /\ pq_read c <= pq_read c' /\ pq_doorbells c' = pq_doorbells c /\
    match v with
    | Some first => first = pq_write c /\ pq_write c' = pq_write c + n
    | None => pq_write c' = pq_write c
    end;
  pq_ring f id c : po_ring_doorbell queue = Some f -> pq_inv c ->
    pq_inv (f id c) /\ pq_read c <= pq_read (f id c) /\ pq_write (f id c) = pq_write c /\
    pq_doorbells (f id c) = pq_doorbells c ++ [id]
}.

(** ** Slots *)

Section ring.
Context (count : Z).

Definition slot_offset (id : Z) : Z := id mod count * kAqlPacketSize.

Definition slot (ring : bytes) (id : Z) : bytes := slice ring (slot_offset id) 64.

(** The packets [ps] are in the slots of the ids from [first], and no other
    slot of the ring has changed. *)
Record published (ring : bytes) (first : Z) (ps : list bytes) (ring' : bytes) : Prop := {
  pb_length : length ring' = length ring;
  pb_slots : forall i p, ps !! i = Some p -> slot ring' (first + Z.of_nat i) = p;
  pb_others : forall id,
    (forall i : nat, (i < length ps)%nat -> (first + Z.of_nat i) mod count <> id mod count) ->
    slot ring' id = slot ring id
}.

Context (Hcount : 0 < count).

Lemma slots_distinct a b : a <> b -> - count < a - b < count -> a mod count <> b mod count.
Proof.
  intros Hne Hd Heq. apply Hne.
  pose proof (Z.div_mod a count ltac:(lia)). pose proof (Z.div_mod b count ltac:(lia)).
  assert (a / count = b / count) by nia. congruence.
Qed.

Lemma published_nil ring first : published ring first [] ring.
Proof. by split. Qed.

Lemma published_one ring id p ring' :
  length p = 64%nat -> written ring (slot_offset id) p ring' -> published ring id [p] ring'.
Proof.
  intros Hp Hw. assert (0 <= slot_offset id) as Ho.
  { unfold slot_offset, kAqlPacketSize. pose proof (Z.mod_pos_bound id count). lia. }
  split; [apply Hw|..].
  - intros [|i] q Hq; simplify_eq/=. rewrite Z.add_0_r. unfold slot. rewrite <-Hp.
    by eapply written_slice.
  - intros other Hother. specialize (Hother 0%nat ltac:(simpl; lia)). rewrite Z.add_0_r in Hother.
    unfold slot. apply slice_ext.
    { unfold slot_offset, kAqlPacketSize. pose proof (Z.mod_pos_bound other count). lia. }
    intros i Hi. destruct Hw as [_ ->]. unfold covers, size_of, slot_offset, kAqlPacketSize in *.
    destruct (_ && _) eqn:G; [|done]. lia.
Qed.

Lemma published_app ring first ps ring1 qs ring2 :
  Z.of_nat (length ps + length qs) <= count ->
  published ring first ps ring1 ->
  published ring1 (first + Z.of_nat (length ps)) qs ring2 ->
  published ring first (ps ++ qs) ring2.
Proof.
  intros Hlen [L1 S1 O1] [L2 S2 O2]. split; [congruence|..].
  - intros i p [Hi|[Hge Hi]]%lookup_app_Some.
    + pose proof (lookup_lt_Some _ _ _ Hi). rewrite O2; [by apply S1|].
      intros j Hj. apply slots_distinct; lia.
    + rewrite <-(S2 _ _ Hi). f_equal. lia.
  - intros id Hid. rewrite O2, O1; [done|..].
    + intros i Hi. apply Hid. rewrite length_app. lia.
    + intros i Hi. rewrite <-Z.add_assoc, <-Nat2Z.inj_add. apply Hid. rewrite length_app. lia.
Qed.
End ring.

(** ** The abstract queue

    A FIFO of packets: the packets of the ids the device has not taken. *)

Section refinement.
Context {C : Type} (queue : AqlQueueProducerOps C) `{!ProducerQueue queue}.
Abbreviation count := (po_packet_count queue).

Record queue_refines (context : C) (ring : bytes) (packets : list bytes) : Prop := {
  qr_inv : pq_inv context;
  qr_ring : size_of ring = kAqlPacketSize * count /\ size_of ring < U64_MOD;
  qr_capacity : pq_write context - pq_read context <= count;
  qr_length : Z.of_nat (length packets) = pq_write context - pq_read context;
  qr_packets : forall i p, packets !! i = Some p ->
    slot count ring (pq_read context + Z.of_nat i) = p
}.

(** The packets left after the device has moved the read index. *)
Definition remaining (context context' : C) (packets : list bytes) : list bytes :=
  drop (Z.to_nat (pq_read context' - pq_read context)) packets.

(** What a submission of [packets] to the queue [pending] promises; [accepted]
    says whether the packets pass validation. *)
Definition submitted (accepted : bool) (context : C) (ring : bytes)
    (pending packets : list bytes) (outcome : AqlSubmitResult * C * bytes) : Prop :=
  let '(r, context', ring') := outcome in
  pq_read context <= pq_read context' /\
  match sr_error r with
  | SubmitNone =>
      valid_queue queue = true /\ accepted = true /\
      sr_packet_id r = pq_write context + Z.of_nat (length packets) - 1 /\
      pq_write context' = pq_write context + Z.of_nat (length packets) /\
      pq_doorbells context' = pq_doorbells context ++ [sr_packet_id r] /\
      queue_refines context' ring' (remaining context context' (pending ++ packets))
  | error =>
      sr_packet_id r = 0 /\ ring' = ring /\ pq_write context' = pq_write context /\
      pq_doorbells context' = pq_doorbells context /\
      queue_refines context' ring (remaining context context' pending) /\
      (error = SubmitInvalidQueue <-> valid_queue queue = false) /\
      (error = SubmitInvalidPacket <-> valid_queue queue = true /\ accepted = false) /\
      (error = SubmitQueueFull ->
         count < pq_write context - pq_read context + Z.of_nat (length packets))
  end.

Lemma valid_queue_spec :
  valid_queue queue = true ->
  po_context queue = true /\ po_ring_base queue = true /\ is_power_of_two count = true /\
  is_Some (po_load_read_index queue) /\ is_Some (po_load_write_index queue) /\
  is_Some (po_reserve_packet queue) /\ is_Some (po_ring_doorbell queue).
Proof. unfold valid_queue. rewrite !andb_true_iff, !bool_decide_eq_true. tauto. Qed.

(** The device moves on, nothing else happens. *)
Lemma refines_advance context context' ring packets :
  queue_refines context ring packets -> pq_inv context' ->
  pq_read context <= pq_read context' -> pq_write context' = pq_write context ->
  queue_refines context' ring (remaining context context' packets).
Proof.
  intros [Hi Hr Hc Hl Hp] Hi' Hread Hwrite. pose proof (pq_bounds _ Hi').
  unfold remaining. split; [done|done|lia|rewrite length_drop; lia|].
  intros i p H1. rewrite lookup_drop in H1. rewrite <-(Hp _ _ H1). f_equal. lia.
Qed.

(** Packets published behind the pending ones, in a ring with room for them. *)
Lemma refines_push context context' ring ring' pending packets :
  0 < count -> queue_refines context ring pending -> pq_inv context' ->
  published count ring (pq_write context) packets ring' ->
  pq_read context <= pq_read context' ->
  pq_write context' = pq_write context + Z.of_nat (length packets) ->
  pq_write context - pq_read context' + Z.of_nat (length packets) <= count ->
  queue_refines context' ring' (remaining context context' (pending ++ packets)).
Proof.
  intros Hpos [Hi Hr Hc Hl Hp] Hi' [L S O] Hread Hwrite Hroom. pose proof (pq_bounds _ Hi').
  unfold remaining. split; [done|unfold size_of in *; lia|lia|rewrite length_drop, length_app; lia|].
  intros i p H1. rewrite lookup_drop in H1.
  replace (pq_read context' + Z.of_nat i) with
    (pq_read context + Z.of_nat (Z.to_nat (pq_read context' - pq_read context) + i)) by lia.
  apply lookup_app_Some in H1 as [H1|[Hge H1]].
  - pose proof (lookup_lt_Some _ _ _ H1). rewrite O; [by apply Hp|].
    intros j Hj. apply slots_distinct; lia.
  - rewrite <-(S _ _ H1). f_equal. lia.
Qed.

(** ** The stores *)

Lemma publish_in_slot_safe ring id p :
  is_power_of_two count = true -> 0 <= count -> size_of ring = kAqlPacketSize * count ->
  size_of ring < U64_MOD -> is_u64 id -> length p = 64%nat ->
  safe (publish_in_slot queue ring id p) (published count ring id [p]).
Proof.
  intros Hpow Hnn Hsize Hfit Hid Hp. unfold kAqlPacketSize in Hsize.
  destruct (is_power_of_two_spec _ Hnn Hpow) as (k & Hk & Hc).
  assert (0 < count) as Hpos by (rewrite Hc; apply Z.pow_pos_nonneg; lia).
  pose proof (Z.mod_pos_bound id count Hpos) as Hm.
  unfold publish_in_slot. rewrite u64_sub_small by lia. cbv zeta.
  assert (Z.land id (count - 1) = id mod count) as ->.
  { rewrite Hc at 1. change (2 ^ k - 1) with (Z.pred (2 ^ k)).
    rewrite <-Z.ones_equiv, Z.land_ones by done. by rewrite <-Hc. }
  unfold kAqlPacketSize. rewrite u64_mul_small by nia.
  assert (0 <= id mod count * 64) as Ho by lia. rewrite <-(Z2Nat.id _ Ho).
  eapply safe_mono; [apply publish_packet_safe; [done|unfold size_of in *; lia]|].
  intros ring' Hw. apply published_one; [done..|]. rewrite Z2Nat.id in Hw by done. exact Hw.
Qed.

Definition barrier_packets (parameters : list AqlBarrierAndParameters) : list bytes :=
  (fun p => barrier_bytes (build_aql_barrier_and_packet p)) <$> parameters.

Lemma barriers_valid_safe parameters index n :
  (index + n <= length parameters)%nat ->
  safe (barriers_valid parameters index n) (fun valid => valid = true).
Proof.
  revert index. induction n as [|n IH]; intros index Hl; [done|]. simpl. unfold element.
  destruct (lookup_lt_is_Some_2 parameters index ltac:(lia)) as [p ->]. simpl.
  apply IH. lia.
Qed.

Lemma publish_barriers_safe parameters first index n ring :
  is_power_of_two count = true -> 0 <= count -> size_of ring = kAqlPacketSize * count ->
  size_of ring < U64_MOD -> 0 <= first -> (index + n <= length parameters)%nat ->
  first + Z.of_nat (index + n) < U64_MOD -> Z.of_nat n <= count ->
  safe (publish_barriers queue parameters first index n ring)
    (published count ring (first + Z.of_nat index)
       (barrier_packets (take n (drop index parameters)))).
Proof.
  intros Hpow Hnn. revert index ring.
  induction n as [|n IH]; intros index ring Hsize Hfit Hf Hl Hw Hn.
  { simpl. apply published_nil. }
  destruct (lookup_lt_is_Some_2 parameters index ltac:(lia)) as [p Hp].
  cbn [publish_barriers]. unfold element. rewrite Hp. simpl. rewrite u64_add_small by lia.
  eapply safe_bind; [apply publish_in_slot_safe; try done; [lia|apply length_barrier_bytes]|].
  intros ring1 H1. pose proof (pb_length _ _ _ _ _ H1) as Hlen. unfold size_of in *.
  eapply safe_mono; [apply IH; unfold size_of; lia|]. intros ring2 H2.
  rewrite (drop_S _ p index Hp). cbn [take].
  change (barrier_packets (p :: ?l)) with
    ([barrier_bytes (build_aql_barrier_and_packet p)] ++ barrier_packets l).
  eapply published_app; [lia| |exact H1|].
  - unfold barrier_packets. rewrite length_fmap, length_take. simpl. lia.
  - cbn [length]. replace (first + Z.of_nat index + Z.of_nat 1) with (first + Z.of_nat (S index))
      by lia. exact H2.
Qed.

(** ** Reservations *)

(** What is known once the capacity check and the reservation are over. *)
Definition reserved_outcome (context : C) (n : Z) (outcome : AqlSubmitError * Z * C) : Prop :=
  let '(error, first, context') := outcome in
  pq_inv context' /\ pq_read context <= pq_read context' /\
  pq_doorbells context' = pq_doorbells context /\
  match error with
  | SubmitNone => first = pq_write context /\ pq_write context' = pq_write context + n /\
      pq_write context - pq_read context' + n <= count /\ n <= count
  | SubmitQueueFull => pq_write context' = pq_write context /\
      count < pq_write context - pq_read context + n
  | SubmitReserveFailed => pq_write context' = pq_write context
  | _ => False
  end.

Context (Hvalid : valid_queue queue = true).

Lemma valid_count : 0 <= count -> is_power_of_two count = true /\ 0 < count.
Proof.
  intros Hnn. destruct (valid_queue_spec Hvalid) as (_ & _ & Hpow & _). split; [done|].
  destruct (is_power_of_two_spec _ Hnn Hpow) as (k & Hk & ->). by apply Z.pow_pos_nonneg.
Qed.

(** The reservation itself, when [n] more packets are known to fit. *)
Lemma reserve_fits context context1 n f v context' :
  po_reserve_packet queue = Some f -> f n context1 = (v, context') -> is_u64 n ->
  pq_inv context1 -> pq_read context <= pq_read context1 ->
  pq_doorbells context1 = pq_doorbells context -> pq_write context1 = pq_write context ->
  pq_write context - pq_read context1 + n <= count -> n <= count ->
  reserved_outcome context n
    match v with
    | Some first => (SubmitNone, first, context')
    | None => (SubmitReserveFailed, 0, context')
    end.
Proof.
  intros Hf Hv Hn Hi Hr Hd Hw Hfit Hle.
  destruct (pq_reserve _ _ _ _ _ Hf Hi Hn Hv) as (Hi' & Hr' & Hd' & Hm).
  destruct v as [first|]; unfold reserved_outcome; split_and!; try done; try lia; congruence.
Qed.

Lemma reserve_batch_safe context ring pending n :
  queue_refines context ring pending -> 0 <= count -> 0 < n < U64_MOD -> count < U64_MOD ->
  safe (reserve_batch queue n context) (reserved_outcome context n).
Proof.
  intros [Hi Hr Hc Hl Hp] Hnn Hn Hcu. unfold reserve_batch.
  destruct (valid_queue_spec Hvalid) as (_ & _ & _ & [fr Hfr] & [fw Hfw] & [fs Hfs] & _).
  pose proof (pq_bounds _ Hi). destruct (n >? count) eqn:G.
  { simpl. split_and!; [done|lia|done|done|lia]. }
  rewrite Hfr, Hfw, Hfs. unfold called. cbn [mbind result_bind].
  destruct (fr context) as [v c1] eqn:E1.
  destruct (pq_load_read _ _ _ _ Hfr Hi E1) as (Hi1 & Hv & Hw1 & Hd1).
  destruct (fw c1) as [w c2] eqn:E2.
  destruct (pq_load_write _ _ _ _ Hfw Hi1 E2) as (Hi2 & Hw & Hr2 & Hw2 & Hd2).
  pose proof (pq_bounds _ Hi1). pose proof (pq_bounds _ Hi2).
  rewrite !u64_sub_small by lia. destruct (_ || _) eqn:G2.
  { simpl. split_and!; [done|lia|congruence|lia|lia]. }
  destruct (fs n c2) as [first c3] eqn:E3.
  assert (reserved_outcome context n match first with
    | Some first => (SubmitNone, first, c3) | None => (SubmitReserveFailed, 0, c3) end) as Hres.
  { eapply reserve_fits; try done; try lia; congruence. }
  by destruct first.
Qed.

(** The same for one packet, whose check the caller may have made. *)
Lemma submit_packet_safe context ring pending packet prevalidated :
  queue_refines context ring pending -> 0 <= count -> count < U64_MOD -> length packet = 64%nat ->
  (prevalidated = true -> pq_write context - pq_read context < count) ->
  safe (submit_packet queue packet prevalidated context ring)
    (submitted true context ring pending [packet]).
Proof.
  intros Href Hnn Hcu Hlp Hpre. pose proof Href as [Hi Hr Hc Hl Hp]. unfold submit_packet.
  destruct (valid_queue_spec Hvalid) as (_ & _ & _ & [fr Hfr] & [fw Hfw] & [fs Hfs] & [fd Hfd]).
  destruct (valid_count Hnn) as [Hpow Hpos]. pose proof (pq_bounds _ Hi).
  eapply (safe_bind _ _ (fun '(full, c) => pq_inv c /\ pq_read context <= pq_read c /\
    pq_write c = pq_write context /\ pq_doorbells c = pq_doorbells context /\
    if (full : bool) then count < pq_write context - pq_read context + 1
    else pq_write context - pq_read c + 1 <= count)).
  { destruct prevalidated.
    { simpl. specialize (Hpre eq_refl). split_and!; [done|lia|done|done|lia]. }
    rewrite Hfr, Hfw. unfold called. cbn [mbind result_bind].
    destruct (fr context) as [v c1] eqn:E1.
    destruct (pq_load_read _ _ _ _ Hfr Hi E1) as (Hi1 & Hv & Hw1 & Hd1).
    destruct (fw c1) as [w c2] eqn:E2.
    destruct (pq_load_write _ _ _ _ Hfw Hi1 E2) as (Hi2 & Hw & Hr2 & Hw2 & Hd2).
    pose proof (pq_bounds _ Hi1). pose proof (pq_bounds _ Hi2). rewrite u64_sub_small by lia.
    simpl. split_and!; [done|lia|congruence|congruence|]. destruct (_ || _) eqn:G; lia. }
  intros [full c] (Hic & Hrc & Hwc & Hdc & Hfull). destruct full.
  { simpl. split_and!; try done; try lia. by apply refines_advance. by rewrite Hvalid. naive_solver. }
  rewrite Hfs, Hfd. unfold called. cbn [mbind result_bind].
  destruct (fs 1 c) as [first c'] eqn:E3.
  assert (reserved_outcome context 1 match first with
    | Some first => (SubmitNone, first, c') | None => (SubmitReserveFailed, 0, c') end) as Hres.
  { eapply reserve_fits; try done; lia. }
  destruct first as [first|]; destruct Hres as (Hi' & Hr' & Hd' & Hm).
  - destruct Hm as (-> & Hw' & Hroom & _).
    eapply safe_bind; [apply publish_in_slot_safe; try done; try lia; apply Hr|].
    intros ring' Hpub. simpl. destruct (pq_ring _ (pq_write context) _ Hfd Hi') as (Hi2 & Hr2 & Hw2 & Hd2).
    split_and!; try done; try lia; [congruence|].
    apply refines_push with (ring := ring); try done; simpl; lia.
  - simpl. split_and!; try done. by apply refines_advance. by rewrite Hvalid. naive_solver.
Qed.
End refinement.

(** ** The submissions implement the FIFO *)

Section submissions.
Context {C : Type} (queue : AqlQueueProducerOps C) `{!ProducerQueue queue}.
Abbreviation count := (po_packet_count queue).
Context (Hcount : is_u64 count).

(** An early return changes nothing. *)
Lemma submit_rejected accepted context ring pending packets error :
  queue_refines queue context ring pending ->
  error = SubmitInvalidPacket /\ valid_queue queue = true /\ accepted = false \/
  error = SubmitInvalidQueue /\ valid_queue queue = false ->
  submitted queue accepted context ring pending packets (mkSubmitResult error 0, context, ring).
Proof.
  intros Href Herr.
  assert (queue_refines queue context ring (remaining queue context context pending)) as H.
  { unfold remaining. by rewrite Z.sub_diag. }
  split; [lia|]. destruct Herr as [(-> & Hv & Ha)|[-> Hv]]; simpl; split_and!; try done;
    intuition congruence.
Qed.

(** A batch that was not given its ids. *)
Lemma submit_not_reserved context context' ring pending packets error first :
  queue_refines queue context ring pending -> valid_queue queue = true ->
  reserved_outcome queue context (Z.of_nat (length packets)) (error, first, context') ->
  error <> SubmitNone ->
  submitted queue true context ring pending packets (mkSubmitResult error 0, context', ring).
Proof.
  intros Href Hv (Hi & Hr & Hd & Hm) Hne. split; [done|]. simpl.
  destruct error; try done; split_and!; try done; try lia; try (intuition congruence);
    apply refines_advance; try done; lia.
Qed.

(** A batch in its slots, its doorbell rung. *)
Lemma submit_published context context' ring ring' pending packets id f :
  queue_refines queue context ring pending -> valid_queue queue = true ->
  reserved_outcome queue context (Z.of_nat (length packets))
    (SubmitNone, pq_write context, context') ->
  published count ring (pq_write context) packets ring' ->
  po_ring_doorbell queue = Some f ->
  id = pq_write context + Z.of_nat (length packets) - 1 ->
  submitted queue true context ring pending packets
    (mkSubmitResult SubmitNone id, f id context', ring').
Proof.
  intros Href Hv (Hi & Hr & Hd & _ & Hw & Hroom & _) Hpub Hf ->.
  destruct (valid_count queue Hv) as [_ Hpos]; [lia|].
  destruct (pq_ring _ (pq_write context + Z.of_nat (length packets) - 1) _ Hf Hi)
    as (Hi2 & Hr2 & Hw2 & Hd2).
  simpl. split_and!; try done; try lia; [congruence|].
  eapply refines_push; try done; lia.
Qed.

Lemma submit_dispatch_safe parameters ordering prevalidated context ring pending :
  queue_refines queue context ring pending ->
  (prevalidated = true -> pq_write context - pq_read context < count) ->
  let packet := build_aql_kernel_dispatch_packet parameters ordering in
  safe (submit_aql_kernel_dispatch queue parameters ordering prevalidated context ring)
    (submitted queue (dispatch_accepted queue packet context) context ring pending
       [dispatch_bytes packet]).
Proof.
  intros Href Hpre. cbv zeta. unfold submit_aql_kernel_dispatch.
  destruct (valid_queue queue) eqn:Hv; cbn [negb]; [|apply submit_rejected; auto].
  destruct (dispatch_accepted _ _ _) eqn:Ha; cbn [negb]; [|apply submit_rejected; auto].
  apply submit_packet_safe; try done; try lia; apply length_dispatch_bytes.
Qed.

(** Submitting a kernel dispatch to a queue that holds [pending] packets
    returns, never writes outside the ring, and either appends exactly the
    built packet under the next packet id (ringing the doorbell once with that
    id), or leaves ring, write index and doorbell untouched; a packet is
    rejected exactly when it is invalid, and the queue is reported full only
    when it is.  A caller that skips the capacity check must know that a slot
    is free. *)
Theorem submit_dispatch_fifo parameters ordering prevalidated context ring pending :
  queue_refines queue context ring pending ->
  (prevalidated = true -> pq_write context - pq_read context < count) ->
  let packet := build_aql_kernel_dispatch_packet parameters ordering in
  safe (submit_aql_kernel_dispatch queue parameters ordering prevalidated context ring)
    (submitted queue (dispatch_accepted queue packet context) context ring pending
       [dispatch_bytes packet]).
Proof. apply submit_dispatch_safe. Qed.

Lemma submit_barriers_safe parameters context ring pending :
  queue_refines queue context ring pending -> 0 < Z.of_nat (length parameters) < U64_MOD ->
  safe (submit_aql_barriers_and queue (Some parameters) (Z.of_nat (length parameters)) context ring)
    (submitted queue true context ring pending (barrier_packets parameters)).
Proof.
  intros Href Hn. unfold submit_aql_barriers_and. pose proof Href as [Hi [Hring Hfit] _ _ _].
  destruct (valid_queue queue) eqn:Hv; cbn [negb]; [|apply submit_rejected; auto].
  destruct (_ =? _) eqn:G; [lia|]. rewrite Nat2Z.id.
  eapply safe_bind; [apply barriers_valid_safe; lia|]. intros valid ->. cbn [negb].
  eapply safe_bind; [apply (reserve_batch_safe queue Hv context ring pending); try done; lia|].
  assert (length (barrier_packets parameters) = length parameters) as Hlen by apply length_fmap.
  rewrite <-Hlen. intros [[error first] context'] Hres.
  destruct (valid_count queue Hv) as [Hpow Hpos]; [lia|].
  destruct error; try (by eapply submit_not_reserved).
  pose proof Hres as (Hi' & _ & _ & -> & Hw' & Hroom & Hle).
  pose proof (pq_bounds _ Hi). pose proof (pq_bounds _ Hi'). rewrite Hlen in *.
  eapply safe_bind; [apply publish_barriers_safe; try done; lia|].
  rewrite drop_0, firstn_all, Z.add_0_r. intros ring' Hpub.
  destruct (valid_queue_spec queue Hv) as (_ & _ & _ & _ & _ & _ & [fd Hfd]). rewrite Hfd. simpl.
  rewrite u64_add_small, u64_sub_small by lia.
  eapply submit_published; rewrite ?Hlen; done.
Qed.

(** Submitting a batch of barrier packets appends exactly the batch, in
    order and under consecutive packet ids, and rings the doorbell once, with
    the last id, or changes nothing: there is no partial submission. *)
Theorem submit_barriers_fifo parameters context ring pending :
  queue_refines queue context ring pending -> 0 < Z.of_nat (length parameters) < U64_MOD ->
  safe (submit_aql_barriers_and queue (Some parameters) (Z.of_nat (length parameters)) context ring)
    (submitted queue true context ring pending (barrier_packets parameters)).
Proof. apply submit_barriers_safe. Qed.

Lemma submit_barriers_dispatch_safe parameters dispatch ordering context ring pending :
  queue_refines queue context ring pending -> 0 < Z.of_nat (length parameters) < UINT64_MAX ->
  let packet := build_aql_kernel_dispatch_packet dispatch ordering in
  safe (submit_aql_barriers_and_kernel_dispatch queue (Some parameters)
          (Z.of_nat (length parameters)) dispatch ordering context ring)
    (submitted queue (dispatch_accepted queue packet context) context ring pending
       (barrier_packets parameters ++ [dispatch_bytes packet])).
Proof.
  intros Href Hn. cbv zeta. unfold submit_aql_barriers_and_kernel_dispatch.
  pose proof Href as [Hi [Hring Hfit] _ _ _].
  destruct (valid_queue queue) eqn:Hv; cbn [negb]; [|apply submit_rejected; auto].
  destruct (_ || _) eqn:G; [lia|]. rewrite Nat2Z.id.
  eapply safe_bind; [apply barriers_valid_safe; lia|]. intros valid ->. cbn [negb].
  destruct (dispatch_accepted _ _ _) eqn:Ha; cbn [negb]; [|apply submit_rejected; auto].
  rewrite u64_add_small by lia.
  eapply safe_bind; [apply (reserve_batch_safe queue Hv context ring pending); try done; lia|].
  set (packet := dispatch_bytes _).
  assert (length (barrier_packets parameters ++ [packet]) = S (length parameters)) as Hlen.
  { unfold barrier_packets. rewrite length_app, length_fmap. simpl. lia. }
  replace (Z.of_nat (length parameters) + 1) with (Z.of_nat (S (length parameters))) by lia.
  rewrite <-Hlen. intros [[error first] context'] Hres.
  destruct (valid_count queue Hv) as [Hpow Hpos]; [lia|].
  destruct error; try (by eapply submit_not_reserved).
  pose proof Hres as (Hi' & _ & _ & -> & Hw' & Hroom & Hle).
  pose proof (pq_bounds _ Hi). pose proof (pq_bounds _ Hi'). rewrite Hlen in Hw', Hroom, Hle.
  eapply safe_bind; [apply publish_barriers_safe; try done; lia|].
  rewrite drop_0, firstn_all, Z.add_0_r. intros ring1 Hpub1.
  rewrite u64_add_small by lia. pose proof (pb_length _ _ _ _ _ Hpub1) as Hl1. unfold size_of in *.
  eapply safe_bind.
  { apply publish_in_slot_safe; try done; unfold size_of; lia. }
  intros ring2 Hpub2.
  destruct (valid_queue_spec queue Hv) as (_ & _ & _ & _ & _ & _ & [fd Hfd]). rewrite Hfd. simpl.
  eapply submit_published; try done; [|rewrite Hlen; lia].
  assert (length (barrier_packets parameters) = length parameters) as Hlb by apply length_fmap.
  eapply published_app; [done|rewrite Hlb; simpl; lia|done|by rewrite Hlb].
Qed.

(** The same for a batch of barriers followed by a dispatch: all of it or
    nothing, the dispatch last. *)
Theorem submit_barriers_dispatch_fifo parameters dispatch ordering context ring pending :
  queue_refines queue context ring pending -> 0 < Z.of_nat (length parameters) < UINT64_MAX ->
  let packet := build_aql_kernel_dispatch_packet dispatch ordering in
  safe (submit_aql_barriers_and_kernel_dispatch queue (Some parameters)
          (Z.of_nat (length parameters)) dispatch ordering context ring)
    (submitted queue (dispatch_accepted queue packet context) context ring pending
       (barrier_packets parameters ++ [dispatch_bytes packet])).
Proof. apply submit_barriers_dispatch_safe. Qed.
End submissions.

(** ** Sessions

    A serialized producer submits while the device takes packets; the device
    may rewrite the slots of packets it has taken. *)

Section sessions.
Context {C : Type} (queue : AqlQueueProducerOps C) `{!ProducerQueue queue}.
Abbreviation count := (po_packet_count queue).

(** The packets a call adds to the log: all of them, if it succeeds. *)
Definition accepted_packets (r : AqlSubmitResult) (packets : list bytes) : list bytes :=
  match sr_error r with SubmitNone => packets | _ => [] end.

(** [session log context ring]: the state after some calls and device steps;
    [log] lists every packet accepted since the start. *)
Inductive session (start : C) (ring0 : bytes) : list bytes -> C -> bytes -> Prop :=
| session_start : session start ring0 [] start ring0
| session_dispatch log context ring parameters ordering r context' ring' :
    session start ring0 log context ring ->
    submit_aql_kernel_dispatch queue parameters ordering false context ring =
      Ok (r, context', ring') ->
    session start ring0
      (log ++ accepted_packets r
         [dispatch_bytes (build_aql_kernel_dispatch_packet parameters ordering)]) context' ring'
| session_barriers log context ring parameters r context' ring' :
    session start ring0 log context ring ->
    0 < Z.of_nat (length parameters) < UINT64_MAX ->
    submit_aql_barriers_and queue (Some parameters) (Z.of_nat (length parameters)) context ring =
      Ok (r, context', ring') ->
    session start ring0 (log ++ accepted_packets r (barrier_packets parameters)) context' ring'
| session_barriers_dispatch log context ring parameters dispatch ordering r context' ring' :
    session start ring0 log context ring ->
    0 < Z.of_nat (length parameters) < UINT64_MAX ->
    submit_aql_barriers_and_kernel_dispatch queue (Some parameters)
      (Z.of_nat (length parameters)) dispatch ordering context ring = Ok (r, context', ring') ->
    session start ring0
      (log ++ accepted_packets r (barrier_packets parameters ++
         [dispatch_bytes (build_aql_kernel_dispatch_packet dispatch ordering)])) context' ring'
| session_device log context ring context' ring' :
    session start ring0 log context ring ->
    pq_inv context' -> pq_read context <= pq_read context' ->
    pq_write context' = pq_write context -> length ring' = length ring ->
    (forall id, pq_read context' <= id < pq_write context' -> slot count ring' id = slot count ring id) ->
    session start ring0 log context' ring'.

(** The pending packets are the accepted ones the device has not taken. *)
Definition session_inv (start : C) (log : list bytes) (context : C) (ring : bytes) : Prop :=
  pq_read start <= pq_read context /\
  pq_write context = pq_write start + Z.of_nat (length log) /\
  exists old, Z.of_nat (length old) = pq_write start - pq_read start /\
    queue_refines queue context ring (remaining queue start context (old ++ log)).

Lemma session_submitted start log context ring packets accepted r context' ring' :
  session_inv start log context ring ->
  (forall pending, queue_refines queue context ring pending ->
     submitted queue accepted context ring pending packets (r, context', ring')) ->
  session_inv start (log ++ accepted_packets r packets) context' ring'.
Proof.
  intros (Hread & Hwrite & old & Hold & Href) Hsub. specialize (Hsub _ Href).
  pose proof (pq_bounds _ (qr_inv _ _ _ _ Href)) as Hb.
  destruct Hsub as [Hread' Hsub]. split; [lia|]. unfold accepted_packets.
  assert (forall rest, (Z.to_nat (pq_read context - pq_read start) <= length (old ++ log))%nat ->
    remaining queue context context' (remaining queue start context (old ++ log) ++ rest) =
    remaining queue start context' (old ++ log ++ rest)) as Hrem.
  { intros rest Hlen. unfold remaining. rewrite <-drop_app_le, drop_drop, app_assoc by done.
    f_equal. lia. }
  assert (Z.to_nat (pq_read context - pq_read start) <= length (old ++ log))%nat as Hlen.
  { rewrite length_app. lia. }
  destruct (sr_error r) eqn:He.
  1: destruct Hsub as (_ & _ & _ & Hw & _ & Hr); split; [rewrite length_app; lia|];
     exists old; split; [done|]; by rewrite <-(Hrem packets Hlen).
  all: destruct Hsub as (_ & -> & Hw & _ & Hr & _); split; [rewrite app_nil_r; lia|];
       exists old; split; [done|]; rewrite <-(Hrem [] Hlen), app_nil_r; exact Hr.
Qed.

Lemma session_device_inv start log context ring context' ring' :
  session_inv start log context ring -> pq_inv context' ->
  pq_read context <= pq_read context' -> pq_write context' = pq_write context ->
  length ring' = length ring ->
  (forall id, pq_read context' <= id < pq_write context' -> slot count ring' id = slot count ring id) ->
  session_inv start log context' ring'.
Proof.
  intros (Hread & Hwrite & old & Hold & Href) Hi Hread' Hw' Hl Hslots.
  split; [lia|]. split; [lia|]. exists old. split; [done|].
  pose proof (refines_advance queue _ _ _ _ Href Hi Hread' Hw') as [H1 H2 H3 H4 H5].
  assert (remaining queue context context' (remaining queue start context (old ++ log)) =
    remaining queue start context' (old ++ log)) as Heq.
  { unfold remaining. rewrite drop_drop. f_equal. lia. }
  rewrite Heq in H4, H5. split; try done.
  - unfold size_of in *. by rewrite Hl.
  - intros i p Hp. rewrite <-(H5 _ _ Hp). apply Hslots.
    pose proof (lookup_lt_Some _ _ _ Hp). lia.
Qed.

Context (Hcount : is_u64 count).

Lemma session_keeps_order start ring0 pending log context ring :
  queue_refines queue start ring0 pending ->
  session start ring0 log context ring ->
  pq_write context = pq_write start + Z.of_nat (length log) /\
  pq_write context - pq_read context <= count /\
  forall i packet, log !! i = Some packet -> pq_read context <= pq_write start + Z.of_nat i ->
    slot count ring (pq_write start + Z.of_nat i) = packet.
Proof.
  intros Hstart Hsession. assert (session_inv start log context ring) as Hinv.
  { induction Hsession as [|log context ring parameters ordering r context' ring' _ IH Hs|
      log context ring parameters r context' ring' _ IH Hn Hs|
      log context ring parameters dispatch ordering r context' ring' _ IH Hn Hs|
      log context ring context' ring' _ IH Hi Hr Hw Hl Hslots].
    - split; [lia|]. split; [simpl; lia|]. exists pending.
      split; [apply Hstart|]. unfold remaining. by rewrite Z.sub_diag, app_nil_r.
    - eapply session_submitted; [done|]. intros q Hq. eapply (safe_inv (E:=Empty_set)); [|exact Hs].
      by apply submit_dispatch_safe.
    - eapply session_submitted; [done|]. intros q Hq. eapply (safe_inv (E:=Empty_set)); [|exact Hs].
      apply submit_barriers_safe; [done..|lia].
    - eapply session_submitted; [done|]. intros q Hq. eapply (safe_inv (E:=Empty_set)); [|exact Hs].
      by apply submit_barriers_dispatch_safe.
    - by eapply session_device_inv. }
  destruct Hinv as (Hread & Hwrite & old & Hold & [H1 H2 H3 H4 H5]). split_and!; [done..|].
  intros i packet Hp Hi. pose proof (pq_bounds _ (qr_inv _ _ _ _ Hstart)) as Hb.
  assert (remaining queue start context (old ++ log)
    !! Z.to_nat (pq_write start + Z.of_nat i - pq_read context) = Some packet) as Hlook.
  { unfold remaining. rewrite lookup_drop, lookup_app_r by lia. rewrite <-Hp. f_equal. lia. }
  rewrite <-(H5 _ _ Hlook). f_equal. lia.
Qed.
(** C26: over any session, the [i]-th accepted packet has id [write0 + i] and is
    in its slot, intact, from its submission until the device has taken it: the
    ring implements an unbounded FIFO through which every accepted packet
    passes exactly once and in order, and it never holds more than its
    capacity. *)
Theorem session_fifo start ring0 pending log context ring :
  queue_refines queue start ring0 pending ->
  session start ring0 log context ring ->
  pq_write context = pq_write start + Z.of_nat (length log) /\
  pq_write context - pq_read context <= count /\
  forall i packet, log !! i = Some packet -> pq_read context <= pq_write start + Z.of_nat i ->
    slot count ring (pq_write start + Z.of_nat i) = packet.
Proof. apply session_keeps_order. Qed.
End sessions.
