(* ===== verification/KfdProducer.v ===== *)
(** * The producer operations of a KFD queue

    [src/light_rocr_kfd_aql_queue.hpp]: the operation table over the handle of
    [AqlQueue], and the proof that it keeps the promises of [ProducerQueue]. *)

From S2P Require Import Prelude Memory CodeObject AqlPacket AqlQueue AqlProducer.

(** The memory behind a handle: the control block, the values stored to the
    doorbell, and what the device will do: each number is how many packets it
    takes before the next access of the host. *)
Record kfd_context := mkKfdContext {
  kc_control : AmdQueueV1;
  kc_doorbells : list Z;
  kc_device : list nat
}.

Section adapter.
Context (queue : AqlQueue).

(** The device never takes more than was handed out. *)
Definition device_turn (context : kfd_context) : kfd_context :=
  match kc_device context with
  | [] => context
  | taken :: later =>
      let control := kc_control context in
      mkKfdContext
        (mkAmdQueue (aq_write_dispatch_id control)
           (Z.min (aq_write_dispatch_id control) (aq_read_dispatch_id control + Z.of_nat taken))
           (aq_queue_properties control))
        (kc_doorbells context) later
  end.

Definition light_rocr_kfd_load_read_index (context : kfd_context) : Z * kfd_context :=
  let context := device_turn context in
  (read_index_acquire queue (kc_control context), context).

Definition light_rocr_kfd_load_write_index (context : kfd_context) : Z * kfd_context :=
  let context := device_turn context in
  (write_index_relaxed queue (kc_control context), context).

Definition light_rocr_kfd_reserve_packet (packet_count : Z) (context : kfd_context)
  : option Z * kfd_context :=
  let context := device_turn context in
  match add_write_index_scacq_screl queue packet_count (kc_control context) with
  | Ok (reserved, control) =>
      let context := mkKfdContext control (kc_doorbells context) (kc_device context) in
      match ir_error reserved with
      | PrimitiveNone => (Some (ir_previous_index reserved), context)
      | _ => (None, context)
      end
  | _ => (None, context)
  end.

Definition light_rocr_kfd_ring_doorbell (packet_id : Z) (context : kfd_context) : kfd_context :=
  let context := device_turn context in
  match store_doorbell_screlease queue packet_id with
  | (_, Some value) =>
      mkKfdContext (kc_control context) (kc_doorbells context ++ [value]) (kc_device context)
  | (_, None) => context
  end.

Definition light_rocr_kfd_producer_ops
    (validate_packet : option (kfd_context -> AqlKernelDispatchPacket -> bool))
  : AqlQueueProducerOps kfd_context :=
  let valid := queue_ready queue && negb (ring_host_address queue =? 0) &&
               negb (doorbell_address queue =? 0) in
  mkProducerOps valid valid (if valid then packet_count queue else 0)
    (Some light_rocr_kfd_load_read_index)
    (Some light_rocr_kfd_load_write_index)
    (Some light_rocr_kfd_reserve_packet)
    (Some light_rocr_kfd_ring_doorbell)
    validate_packet.

(** ** Facts *)

Definition kfd_inv (context : kfd_context) : Prop :=
  queue_ready queue = true /\ has_control queue = true /\
  0 <= aq_read_dispatch_id (kc_control context) <= aq_write_dispatch_id (kc_control context) /\
  aq_write_dispatch_id (kc_control context) < U64_MOD.

Lemma device_turn_inv context :
  kfd_inv context ->
  kfd_inv (device_turn context) /\
  aq_read_dispatch_id (kc_control context) <=
    aq_read_dispatch_id (kc_control (device_turn context)) /\
  aq_write_dispatch_id (kc_control (device_turn context)) =
    aq_write_dispatch_id (kc_control context) /\
  kc_doorbells (device_turn context) = kc_doorbells context.
Proof.
  intros (Hr & Hc & Hb & Hw). unfold kfd_inv, device_turn.
  destruct (kc_device context) as [|n later]; simpl; split_and!; try done; lia.
Qed.

Lemma kfd_reserve n context v context' :
  kfd_inv context -> is_u64 n -> light_rocr_kfd_reserve_packet n context = (v, context') ->
  kfd_inv context' /\
  aq_read_dispatch_id (kc_control context) <= aq_read_dispatch_id (kc_control context') /\
  kc_doorbells context' = kc_doorbells context /\
  match v with
  | Some first => first = aq_write_dispatch_id (kc_control context) /\
      aq_write_dispatch_id (kc_control context') = aq_write_dispatch_id (kc_control context) + n
  | None => aq_write_dispatch_id (kc_control context') = aq_write_dispatch_id (kc_control context)
  end.
Proof.
  intros Hi Hn. destruct (device_turn_inv _ Hi) as (Hi' & Hread & Hwrite & Hd).
  unfold light_rocr_kfd_reserve_packet. destruct Hi' as (Hready & Hc & Hb & Hw).
  apply andb_true_iff in Hready as Hactive. destruct Hactive as [Hactive _].
  destruct (Z.eq_dec n 0) as [->|Hz].
  { unfold add_write_index_scacq_screl, reserve_start. rewrite Hactive, Hc. simpl.
    intros [= <- <-]. unfold kfd_inv. simpl. split_and!; try done; lia. }
  rewrite add_write_index_solo by (try done; lia). cbv zeta. destruct (_ <? _) eqn:G; simpl;
    intros [= <- <-]; unfold kfd_inv; simpl; split_and!; try done; lia.
Qed.

#[export] Program Instance kfd_producer_queue validate_packet :
    ProducerQueue (light_rocr_kfd_producer_ops validate_packet) := {|
  pq_inv := kfd_inv;
  pq_read c := aq_read_dispatch_id (kc_control c);
  pq_write c := aq_write_dispatch_id (kc_control c);
  pq_doorbells := kc_doorbells
|}.
Next Obligation. by intros validate c (_ & _ & ? & ?). Qed.
Next Obligation.
  intros validate f c v c' [= <-] Hi [= <- <-].
  destruct (device_turn_inv _ Hi) as (Hi' & Hr & Hw & Hd). pose proof Hi' as (_ & Hc & _).
  unfold read_index_acquire. rewrite Hc. split_and!; try done; lia.
Qed.
Next Obligation.
  intros validate f c v c' [= <-] Hi [= <- <-].
  destruct (device_turn_inv _ Hi) as (Hi' & Hr & Hw & Hd). pose proof Hi' as (_ & Hc & _).
  unfold write_index_relaxed. rewrite Hc. done.
Qed.
Next Obligation.
  intros validate f n c v c' [= <-] Hi Hn Hv. by apply kfd_reserve.
Qed.
Next Obligation.
  intros validate f id c [= <-] Hi.
  destruct (device_turn_inv _ Hi) as (Hi' & Hr & Hw & Hd). pose proof Hi' as (Hready & _).
  unfold light_rocr_kfd_ring_doorbell, store_doorbell_screlease.
  apply andb_true_iff in Hready as [-> Hdoor]. apply negb_true_iff in Hdoor. rewrite Hdoor.
  simpl. split_and!; try done; by rewrite Hd.
Qed.

(** A queue as [create_aql_queue] leaves it: mapped, active, its ring a power
    of two of packets, nothing pending. *)
Record kfd_fresh (control : AmdQueueV1) (ring : bytes) : Prop := {
  kf_ready : queue_ready queue = true;
  kf_control : has_control queue = true;
  kf_ring_mapped : ring_host_address queue <> 0;
  kf_packet_count : is_power_of_two (packet_count queue) = true;
  kf_ring : size_of ring = kAqlPacketSize * packet_count queue /\ size_of ring < U64_MOD;
  kf_indices : is_u64 (aq_write_dispatch_id control) /\
    aq_read_dispatch_id control = aq_write_dispatch_id control
}.

Lemma kfd_ops_valid validate_packet control ring :
  kfd_fresh control ring ->
  po_packet_count (light_rocr_kfd_producer_ops validate_packet) = packet_count queue /\
  valid_queue (light_rocr_kfd_producer_ops validate_packet) = true.
Proof.
  intros [Hr _ Hring Hpow _ _]. pose proof Hr as Hd. unfold queue_ready in Hd.
  apply andb_true_iff in Hd as [_ Hd]. apply Z.eqb_neq in Hring.
  unfold light_rocr_kfd_producer_ops, valid_queue. cbv zeta. rewrite Hr, Hring, Hd. simpl.
  by rewrite Hpow.
Qed.

Lemma kfd_fresh_refines validate_packet control ring device :
  kfd_fresh control ring ->
  queue_refines (light_rocr_kfd_producer_ops validate_packet)
    (mkKfdContext control [] device) ring [] /\ is_u64 (packet_count queue).
Proof.
  intros Hf. destruct (kfd_ops_valid validate_packet _ _ Hf) as [Hc _].
  destruct Hf as [Hr Hctl Hring Hpow [Hsize Hfit] [Hw Hread]].
  unfold kAqlPacketSize, size_of in *.
  split; [|lia]. split; rewrite ?Hc; unfold kAqlPacketSize, size_of; simpl; try lia.
  - unfold kfd_inv. simpl. split_and!; try done; lia.
  - done.
Qed.

(** C23: a KFD queue driven through its operation table is a FIFO, whatever the
    packets submitted, the batches, and the progress of the device between the
    accesses of the host: every accepted packet stays in its slot until the
    device has passed its id, and ids are consecutive from the initial index. *)
Theorem kfd_queue_fifo validate_packet control ring device log context ring' :
  kfd_fresh control ring ->
  session (light_rocr_kfd_producer_ops validate_packet) (mkKfdContext control [] device) ring
    log context ring' ->
  let write := aq_write_dispatch_id (kc_control context) in
  let read := aq_read_dispatch_id (kc_control context) in
  write = aq_write_dispatch_id control + Z.of_nat (length log) /\
  write - read <= packet_count queue /\
  forall i packet, log !! i = Some packet ->
    read <= aq_write_dispatch_id control + Z.of_nat i ->
    slot (packet_count queue) ring' (aq_write_dispatch_id control + Z.of_nat i) = packet.
Proof.
  intros Hf Hs. destruct (kfd_fresh_refines validate_packet _ _ device Hf) as [Href Hu].
  destruct (kfd_ops_valid validate_packet _ _ Hf) as [Hc _]. cbv zeta. rewrite <-Hc in *.
  exact (session_keeps_order (light_rocr_kfd_producer_ops validate_packet) Hu _ _ _ _ _ _ Href Hs).
Qed.
End adapter.
