(* ===== verification/Signal.v ===== *)
(** * Completion signals

    [runtime/signal.cpp]: the hardware-visible signal object, its
    initialisation and reset, and the wait loop with a deadline. *)

From S2P Require Import Prelude.

Definition kAmdSignalKindUser : Z := 1.

Record AmdSignal := mkAmdSignal {
  sg_kind : Z;
  sg_value : Z;
  sg_event_mailbox_ptr : Z;
  sg_event_id : Z;
  sg_reserved1 : Z;
  sg_start_ts : Z;
  sg_end_ts : Z;
  sg_queue_ptr : Z;
  sg_reserved3 : Z * Z
}.

Inductive SignalWaitState :=
| Satisfied
| TimedOut.

Record SignalWaitResult := mkWaitResult {
  wr_state : SignalWaitState;
  wr_observed_value : Z
}.

Definition signal_load_relaxed (signal : AmdSignal) : Z := sg_value signal.

Definition signal_load_acquire (signal : AmdSignal) : Z := sg_value signal.

Definition signal_store_relaxed (signal : AmdSignal) (value : Z) : AmdSignal :=
  mkAmdSignal (sg_kind signal) value (sg_event_mailbox_ptr signal) (sg_event_id signal)
    (sg_reserved1 signal) (sg_start_ts signal) (sg_end_ts signal) (sg_queue_ptr signal)
    (sg_reserved3 signal).

Definition signal_store_release (signal : AmdSignal) (value : Z) : AmdSignal :=
  signal_store_relaxed signal value.

Definition initialize_user_signal (signal : AmdSignal) (initial_value : Z) : AmdSignal :=
  let signal := mkAmdSignal 0 0 0 0 0 0 0 0 (0, 0) in
  let signal := mkAmdSignal kAmdSignalKindUser (sg_value signal) (sg_event_mailbox_ptr signal)
    (sg_event_id signal) (sg_reserved1 signal) (sg_start_ts signal) (sg_end_ts signal)
    (sg_queue_ptr signal) (sg_reserved3 signal) in
  signal_store_relaxed signal initial_value.

(** The three stores, in order: the value is released last. *)
Definition store_start_ts (signal : AmdSignal) (value : Z) : AmdSignal :=
  mkAmdSignal (sg_kind signal) (sg_value signal) (sg_event_mailbox_ptr signal) (sg_event_id signal)
    (sg_reserved1 signal) value (sg_end_ts signal) (sg_queue_ptr signal) (sg_reserved3 signal).

Definition store_end_ts (signal : AmdSignal) (value : Z) : AmdSignal :=
  mkAmdSignal (sg_kind signal) (sg_value signal) (sg_event_mailbox_ptr signal) (sg_event_id signal)
    (sg_reserved1 signal) (sg_start_ts signal) value (sg_queue_ptr signal) (sg_reserved3 signal).

Definition reset_user_signal (signal : AmdSignal) (initial_value : Z) : AmdSignal :=
  let signal := store_start_ts signal 0 in
  let signal := store_end_ts signal 0 in
  signal_store_release signal initial_value.

Definition signal_start_timestamp_acquire (signal : AmdSignal) : Z := sg_start_ts signal.

Definition signal_end_timestamp_acquire (signal : AmdSignal) : Z := sg_end_ts signal.

(** ** The wait loop

    The signal is written by the device while the host waits: [signal n] is
    the object at the [n]-th load and [clock n] the time read after it. *)

Section wait.
Context (signal : nat -> AmdSignal) (clock : nat -> Z) (expected_value deadline : Z).

Fixpoint signal_wait_loop (fuel n : nat) : result Empty_set SignalWaitResult :=
  match fuel with
  | O => Fault OutOfFuel
  | S fuel =>
      let observed_value := signal_load_acquire (signal n) in
      if observed_value =? expected_value then Ok (mkWaitResult Satisfied observed_value)
      else if clock n >=? deadline then Ok (mkWaitResult TimedOut observed_value)
      else signal_wait_loop fuel (S n)
  end.

Definition signal_wait_until_equal (fuel : nat) : result Empty_set SignalWaitResult :=
  signal_wait_loop fuel 0.

Abbreviation matches n := (sg_value (signal n) = expected_value).
Abbreviation expired n := (deadline <= clock n).

(** The loop stops in the first round whose value matches or whose clock has
    passed the deadline. *)
Lemma signal_wait_loop_stops fuel n last :
  (n <= last)%nat -> (last - n < fuel)%nat ->
  (forall i, (n <= i < last)%nat -> ~ matches i /\ ~ expired i) -> matches last \/ expired last ->
  signal_wait_loop fuel n =
    Ok (mkWaitResult (if sg_value (signal last) =? expected_value then Satisfied else TimedOut)
          (sg_value (signal last))).
Proof.
  revert n. induction fuel as [|fuel IH]; intros n Hn Hf Hbefore Hstop; [lia|]. simpl.
  unfold signal_load_acquire. destruct (decide (n = last)) as [->|Hne].
  - destruct (_ =? _) eqn:E; [done|]. destruct (_ >=? _) eqn:G; [done|]. lia.
  - destruct (Hbefore n ltac:(lia)) as [Hm He]. destruct (sg_value (signal n) =? expected_value) eqn:E; [lia|].
    destruct (_ >=? _) eqn:G; [lia|]. apply IH; try done; [lia|lia|].
    intros i Hi. apply Hbefore. lia.
Qed.

Lemma first_stop n :
  matches n \/ expired n ->
  exists last, (last <= n)%nat /\ (matches last \/ expired last) /\
    forall i, (i < last)%nat -> ~ matches i /\ ~ expired i.
Proof.
  induction n as [n IH] using lt_wf_ind. intros Hn.
  destruct (decide (Exists (fun i => matches i \/ expired i) (seq 0 n))) as [He|He].
  - apply Exists_exists in He as (i & Hi%elem_of_seq & Hs).
    destruct (IH i ltac:(lia) Hs) as (last & Hl & Hstop & Hb). exists last. split; [lia|done].
  - exists n. split_and!; [done|done|]. intros i Hi. rewrite <-Forall_Exists_neg, Forall_forall in He.
    specialize (He i ltac:(apply elem_of_seq; lia)). tauto.
Qed.
End wait.

(** A wait returns as soon as the clock reaches the deadline (or before):
    enough iterations to see an expired clock are enough fuel.  It reports
    success exactly when the value matched in a round up to the first one whose
    clock had expired, so a value that arrives in the last round is not missed;
    a timeout reports the last value that was seen. *)
Theorem signal_wait_returns signal clock expected deadline n fuel :
  deadline <= clock n -> (n < fuel)%nat ->
  exists last, (last <= n)%nat /\
    signal_wait_until_equal signal clock expected deadline fuel =
      Ok (mkWaitResult (if sg_value (signal last) =? expected then Satisfied else TimedOut)
            (sg_value (signal last))) /\
    (forall i, (i < last)%nat -> sg_value (signal i) <> expected /\ clock i < deadline) /\
    (sg_value (signal last) <> expected -> deadline <= clock last).
Proof.
  intros Hn Hf. destruct (first_stop signal clock expected deadline n (or_intror Hn))
    as (last & Hl & Hstop & Hb).
  exists last. split_and!; [done|..].
  - apply signal_wait_loop_stops; [lia|lia| |done]. intros i Hi. apply Hb. lia.
  - intros i Hi. specialize (Hb i Hi). lia.
  - tauto.
Qed.

(** A reset signal can be waited on again: its value is the initial one, its
    timestamps are clear, and nothing else of it has changed. *)
Lemma reset_user_signal_spec signal initial :
  let signal' := reset_user_signal signal initial in
  signal_load_acquire signal' = initial /\ signal_start_timestamp_acquire signal' = 0 /\
  signal_end_timestamp_acquire signal' = 0 /\ sg_kind signal' = sg_kind signal /\
  sg_event_mailbox_ptr signal' = sg_event_mailbox_ptr signal /\ sg_event_id signal' = sg_event_id signal /\
  sg_queue_ptr signal' = sg_queue_ptr signal.
Proof. by split_and!. Qed.
