(* ===== verification/KfdKernel.v ===== *)
(** * The kernel driver as the KFD transport sees it

    [transport/kfd/] reaches the kernel through four function pointers
    ([ioctl], [mmap], [munmap], [madvise]).  They are parameters of the model:
    a class of operations on an unknown world, and a class of laws that state
    the documented behaviour the transport relies on.  The laws keep a ledger
    of what the process holds: address ranges obtained from [mmap] and buffer
    objects obtained from the driver.  A law applies only to a call that keeps
    the driver's protocol (a fixed mapping stays inside an own range, a buffer
    is freed after its GPU mappings are gone, user pages outlive their buffer),
    so using it proves that the call does. *)

From stdpp Require Import gmap fin_maps.
From S2P Require Import Prelude Memory.

(** ** Requests and replies *)

Record alloc_arguments := mkAllocArguments {
  al_va_addr : Z;
  al_size : Z;
  al_mmap_offset : Z;
  al_gpu_id : Z;
  al_flags : Z
}.

Record ProcessAperture := mkProcessAperture {
  ap_gpu_id : Z;
  ap_lds_base : Z;
  ap_lds_limit : Z;
  ap_scratch_base : Z;
  ap_scratch_limit : Z;
  ap_gpuvm_base : Z;
  ap_gpuvm_limit : Z
}.

(** [ProcessAperture{}] *)
Definition no_aperture : ProcessAperture := mkProcessAperture 0 0 0 0 0 0 0.

Record policy_arguments := mkPolicyArguments {
  po_alternate_aperture_base : Z;
  po_alternate_aperture_size : Z;
  po_gpu_id : Z;
  po_default_policy : Z;
  po_alternate_policy : Z
}.

Record queue_arguments := mkQueueArguments {
  qa_ring_base_address : Z;
  qa_write_pointer_address : Z;
  qa_read_pointer_address : Z;
  qa_ring_size : Z;
  qa_gpu_id : Z;
  qa_queue_type : Z;
  qa_queue_percentage : Z;
  qa_queue_priority : Z;
  qa_eop_buffer_address : Z;
  qa_eop_buffer_size : Z;
  qa_ctx_save_restore_address : Z;
  qa_ctx_save_restore_size : Z;
  qa_ctl_stack_size : Z
}.

(** The ioctls the transport issues, with their argument blocks; an aperture
    query is given the capacity of the array it fills, 0 for none. *)
Inductive kfd_request :=
| ALLOC_MEMORY_OF_GPU (arguments : alloc_arguments)
| FREE_MEMORY_OF_GPU (handle : Z)
| MAP_MEMORY_TO_GPU (handle : Z) (device_ids : list Z) (n_devices n_success : Z)
| UNMAP_MEMORY_FROM_GPU (handle : Z) (device_ids : list Z) (n_devices n_success : Z)
| SET_SCRATCH_BACKING_VA (va_addr gpu_id : Z)
| ACQUIRE_VM (drm_fd gpu_id : Z)
| SET_MEMORY_POLICY (arguments : policy_arguments)
| GET_PROCESS_APERTURES_NEW (num_of_nodes : Z)
| CREATE_QUEUE (arguments : queue_arguments)
| DESTROY_QUEUE (queue_id : Z)
| CREATE_EVENT (event_page_offset event_type auto_reset : Z)
| DESTROY_EVENT (event_id : Z)
| SET_TRAP_HANDLER (tba_addr gpu_id : Z).

(** [errno], 0 for success, and the fields of the argument block the driver
    writes (whether or not it fails). *)
Record kfd_reply := mkReply {
  rp_errno : Z;
  rp_handle : Z;
  rp_mmap_offset : Z;
  rp_n_success : Z;
  rp_num_of_nodes : Z;
  rp_apertures : list ProcessAperture;
  rp_queue_id : Z;
  rp_doorbell_offset : Z;
  rp_event_page_offset : Z;
  rp_event_id : Z
}.

(** The argument block as an interrupted call leaves it for the next attempt. *)
Definition retried (request : kfd_request) (reply : kfd_reply) : kfd_request :=
  match request with
  | ALLOC_MEMORY_OF_GPU a =>
      ALLOC_MEMORY_OF_GPU (mkAllocArguments (al_va_addr a) (al_size a) (rp_mmap_offset reply)
        (al_gpu_id a) (al_flags a))
  | MAP_MEMORY_TO_GPU handle device_ids n_devices _ =>
      MAP_MEMORY_TO_GPU handle device_ids n_devices (rp_n_success reply)
  | UNMAP_MEMORY_FROM_GPU handle device_ids n_devices _ =>
      UNMAP_MEMORY_FROM_GPU handle device_ids n_devices (rp_n_success reply)
  | GET_PROCESS_APERTURES_NEW _ => GET_PROCESS_APERTURES_NEW (rp_num_of_nodes reply)
  | CREATE_EVENT _ event_type auto_reset =>
      CREATE_EVENT (rp_event_page_offset reply) event_type auto_reset
  | _ => request
  end.

Record mmap_arguments := mkMmapArguments {
  mm_address : Z;
  mm_length : Z;
  mm_protection : Z;
  mm_flags : Z;
  mm_fd : Z;
  mm_offset : Z
}.

Definition EINTR : Z := 4.

Definition PROT_NONE : Z := 0.
Definition PROT_READ : Z := 1.
Definition PROT_WRITE : Z := 2.
Definition MAP_SHARED : Z := 1.
Definition MAP_PRIVATE : Z := 2.
Definition MAP_FIXED : Z := 16.
Definition MAP_ANONYMOUS : Z := 32.
Definition MAP_NORESERVE : Z := 16384.
Definition MADV_DONTFORK : Z := 10.

Definition KFD_IOC_ALLOC_MEM_FLAGS_VRAM : Z := Z.shiftl 1 0.
Definition KFD_IOC_ALLOC_MEM_FLAGS_GTT : Z := Z.shiftl 1 1.
Definition KFD_IOC_ALLOC_MEM_FLAGS_USERPTR : Z := Z.shiftl 1 2.
Definition KFD_IOC_ALLOC_MEM_FLAGS_DOORBELL : Z := Z.shiftl 1 3.
Definition KFD_IOC_ALLOC_MEM_FLAGS_WRITABLE : Z := Z.shiftl 1 31.
Definition KFD_IOC_ALLOC_MEM_FLAGS_EXECUTABLE : Z := Z.shiftl 1 30.
Definition KFD_IOC_ALLOC_MEM_FLAGS_NO_SUBSTITUTE : Z := Z.shiftl 1 28.
Definition KFD_IOC_ALLOC_MEM_FLAGS_AQL_QUEUE_MEM : Z := Z.shiftl 1 27.
Definition KFD_IOC_ALLOC_MEM_FLAGS_COHERENT : Z := Z.shiftl 1 26.
Definition KFD_IOC_ALLOC_MEM_FLAGS_UNCACHED : Z := Z.shiftl 1 25.

(** ** Operations on the world *)

Class Kernel (W : Type) := {
  (** [ioctl(fd, request, arguments)] *)
  k_ioctl : Z -> kfd_request -> W -> kfd_reply * W;
  (** [inl errno] is [MAP_FAILED]. *)
  k_mmap : mmap_arguments -> W -> (Z + Z) * W;
  (** [errno], 0 for success. *)
  k_munmap : Z -> Z -> W -> Z * W;
  k_madvise : Z -> Z -> Z -> W -> Z * W;
  (** [open(path, O_RDWR | O_CLOEXEC)]; [inl errno] is a failure. *)
  k_open : string -> W -> (Z + Z) * W;
  (** [close]; its result is ignored everywhere. *)
  k_close : Z -> W -> W;
  (** Whether an allocation of host bookkeeping succeeds ([std::bad_alloc]). *)
  k_new : W -> bool * W;
  (** [std::generic_category().message] *)
  k_strerror : Z -> string;
  (** The byte the process finds at an address of memory it has not written. *)
  k_byte : Z -> W -> byte;
  (** Whether all function pointers are set. *)
  valid_syscalls : bool;
  (** How often in a row the driver may report an interruption. *)
  k_patience : nat
}.

(** A computation on the world; only the retry loop can fault. *)
Definition kfd (W A : Type) : Type := W -> result Empty_set (A * W).

#[global] Instance kfd_ret {W} : MRet (kfd W) := fun A a w => Ok (a, w).
#[global] Instance kfd_bind {W} : MBind (kfd W) := fun A B k m w =>
  match m w with
  | Ok (a, w) => k a w
  | Err e => Err e
  | Fault f => Fault f
  end.

(** A call that returns a value and the next world. *)
Definition call {W A} (f : W -> A * W) : kfd W A := fun w => Ok (f w).

(** [if (...) return ...;] *)
Definition give {W A} (a : A) : kfd W A := mret a.

Section operations.
Context {W : Type} `{!Kernel W}.

(** [do { ... } while (result < 0 && errno == EINTR)] *)
Fixpoint ioctl_loop (fuel : nat) (fd : Z) (request : kfd_request) : kfd W kfd_reply :=
  match fuel with
  | O => fun _ => Fault OutOfFuel
  | S fuel =>
      reply ← call (k_ioctl fd request);
      if rp_errno reply =? EINTR then ioctl_loop fuel fd (retried request reply) else give reply
  end.

Definition invoke_ioctl (fd : Z) (request : kfd_request) : kfd W kfd_reply :=
  ioctl_loop k_patience fd request.

(** [do { ... } while (fd < 0 && errno == EINTR)] *)
Fixpoint open_loop (fuel : nat) (path : string) : kfd W (Z + Z) :=
  match fuel with
  | O => fun _ => Fault OutOfFuel
  | S fuel =>
      opened ← call (k_open path);
      match opened with
      | inl errno => if errno =? EINTR then open_loop fuel path else give opened
      | inr _ => give opened
      end
  end.

Definition sys_open (path : string) : kfd W (Z + Z) := open_loop k_patience path.
Definition sys_close (fd : Z) : kfd W unit := call (fun w => (tt, k_close fd w)).
Definition sys_mmap (arguments : mmap_arguments) : kfd W (Z + Z) := call (k_mmap arguments).
Definition sys_munmap (address length : Z) : kfd W Z := call (k_munmap address length).
Definition sys_madvise (address length advice : Z) : kfd W Z := call (k_madvise address length advice).
Definition sys_new : kfd W bool := call k_new.
End operations.

(** ** The ledger *)

(** A buffer object: the GPU mappings that are live, and the pages of the
    process it is made of ([USERPTR]). *)
Record buffer := mkBuffer {
  bf_live : Z;
  bf_pages : option (Z * Z)
}.

(** Ranges by their first address; a torn range is one of which the process
    has unmapped inner pages, where the kernel may place another mapping.
    Queues are kept with the memory the device uses for them. *)
Record ledger := mkLedger {
  lg_ranges : gmap Z Z;
  lg_torn : gset Z;
  lg_buffers : gmap Z buffer;
  lg_files : gset Z;
  lg_queues : gmap Z (list (Z * Z));
  lg_events : gset Z
}.

Definition set_ranges (l : ledger) (ranges : gmap Z Z) (torn : gset Z) : ledger :=
  mkLedger ranges torn (lg_buffers l) (lg_files l) (lg_queues l) (lg_events l).
Definition set_buffers (l : ledger) (buffers : gmap Z buffer) : ledger :=
  mkLedger (lg_ranges l) (lg_torn l) buffers (lg_files l) (lg_queues l) (lg_events l).
Definition set_files (l : ledger) (files : gset Z) : ledger :=
  mkLedger (lg_ranges l) (lg_torn l) (lg_buffers l) files (lg_queues l) (lg_events l).
Definition set_queues (l : ledger) (queues : gmap Z (list (Z * Z))) : ledger :=
  mkLedger (lg_ranges l) (lg_torn l) (lg_buffers l) (lg_files l) queues (lg_events l).
Definition set_events (l : ledger) (events : gset Z) : ledger :=
  mkLedger (lg_ranges l) (lg_torn l) (lg_buffers l) (lg_files l) (lg_queues l) events.

Definition add_range (address size : Z) (l : ledger) : ledger :=
  set_ranges l (<[address := size]> (lg_ranges l)) (lg_torn l).
Definition remove_range (address : Z) (l : ledger) : ledger :=
  set_ranges l (delete address (lg_ranges l)) (lg_torn l ∖ {[address]}).
Definition tear_range (address : Z) (l : ledger) : ledger :=
  set_ranges l (lg_ranges l) ({[address]} ∪ lg_torn l).

Definition add_buffer (handle : Z) (b : buffer) (l : ledger) : ledger :=
  set_buffers l (<[handle := b]> (lg_buffers l)).
Definition remove_buffer (handle : Z) (l : ledger) : ledger :=
  set_buffers l (delete handle (lg_buffers l)).

Definition add_file (fd : Z) (l : ledger) : ledger := set_files l ({[fd]} ∪ lg_files l).
Definition remove_file (fd : Z) (l : ledger) : ledger := set_files l (lg_files l ∖ {[fd]}).

Definition add_queue (queue_id : Z) (used : list (Z * Z)) (l : ledger) : ledger :=
  set_queues l (<[queue_id := used]> (lg_queues l)).
Definition remove_queue (queue_id : Z) (l : ledger) : ledger :=
  set_queues l (delete queue_id (lg_queues l)).

Definition add_event (event_id : Z) (l : ledger) : ledger := set_events l ({[event_id]} ∪ lg_events l).
Definition remove_event (event_id : Z) (l : ledger) : ledger := set_events l (lg_events l ∖ {[event_id]}).

(** [address, address + length) lies in a range the process holds. *)
Definition inside (l : ledger) (address length : Z) : Prop :=
  exists start size, lg_ranges l !! start = Some size /\
    start <= address /\ address + length <= start + size.

(** No buffer is made of pages of this range, and no queue uses any. *)
Definition unused (l : ledger) (address length : Z) : Prop :=
  (forall handle b start size, lg_buffers l !! handle = Some b -> bf_pages b = Some (start, size) ->
     start + size <= address \/ address + length <= start) /\
  (forall queue_id used, lg_queues l !! queue_id = Some used ->
     Forall (fun '(start, size) => start + size <= address \/ address + length <= start) used).

(** No other range begins behind [address] in this one. *)
Definition alone (l : ledger) (address length : Z) : Prop :=
  forall start size, lg_ranges l !! start = Some size -> start <= address \/ address + length <= start.

(** A place for a new range: it overlaps no range that has no hole, and a
    range with a hole begins elsewhere. *)
Record fresh_range (l : ledger) (address length : Z) : Prop := {
  fr_new : lg_ranges l !! address = None;
  fr_whole : address ∉ lg_torn l;
  fr_unused : unused l address length;
  fr_alone : alone l address length;
  fr_apart start size : lg_ranges l !! start = Some size -> start ∉ lg_torn l ->
    start + size <= address \/ address < start
}.

(** A part of the range at [start] behind which, up to its end, no other
    range begins. *)
Record inner (l : ledger) (start address length : Z) : Prop := {
  in_range : exists size, lg_ranges l !! start = Some size /\ address + length <= start + size;
  in_after : start < address;
  in_size : 0 < length;
  in_alone : alone l start (address + length - start);
  in_unused : unused l address length
}.

(** The memory the device uses for a queue. *)
Definition queue_memory (a : queue_arguments) : list (Z * Z) :=
  [(qa_ring_base_address a, qa_ring_size a); (qa_read_pointer_address a, 8);
   (qa_write_pointer_address a, 8); (qa_eop_buffer_address a, qa_eop_buffer_size a);
   (qa_ctx_save_restore_address a, qa_ctx_save_restore_size a)].

Definition user_pages (a : alloc_arguments) : option (Z * Z) :=
  if Z.testbit (al_flags a) 2 then Some (al_va_addr a, al_size a) else None.

(** The requests that create and free nothing. *)
Definition quiet (request : kfd_request) : bool :=
  match request with
  | SET_SCRATCH_BACKING_VA _ _ | ACQUIRE_VM _ _ | SET_MEMORY_POLICY _
  | GET_PROCESS_APERTURES_NEW _ | SET_TRAP_HANDLER _ _ => true
  | _ => false
  end.

(** The documented behaviour of the driver. *)
Class KernelLaws (W : Type) `{!Kernel W} := {
  ledger_of : W -> ledger;
  (** Interruptions end. *)
  law_patient fd request w : exists reply w', invoke_ioctl fd request w = Ok (reply, w');
  (** A new mapping is a fresh, page-aligned range that overlaps no page in use. *)
  law_mmap_new arguments w :
    mm_address arguments = 0 ->
    match k_mmap arguments w with
    | (inl _, w') => ledger_of w' = ledger_of w
    | (inr address, w') =>
        0 < address < U64_MOD /\ address mod 4096 = 0 /\
        fresh_range (ledger_of w) address (mm_length arguments) /\
        ledger_of w' = add_range address (mm_length arguments) (ledger_of w)
    end;
  (** A fixed mapping inside an own range replaces pages of that range. *)
  law_mmap_fixed arguments start w :
    Z.land (mm_flags arguments) MAP_FIXED = MAP_FIXED ->
    inner (ledger_of w) start (mm_address arguments) (mm_length arguments) ->
    match k_mmap arguments w with
    | (inl _, w') => ledger_of w' = ledger_of w
    | (inr address, w') => address = mm_address arguments /\ ledger_of w' = ledger_of w
    end;
  (** A whole range can be unmapped when no other mapping has been placed in
      a hole of it, and inner pages when no other range begins there. *)
  law_munmap address length w :
    lg_ranges (ledger_of w) !! address = Some length ->
    alone (ledger_of w) address length -> unused (ledger_of w) address length ->
    ledger_of (k_munmap address length w).2 =
      if (k_munmap address length w).1 =? 0 then remove_range address (ledger_of w)
      else ledger_of w;
  law_munmap_inner start address length w :
    inner (ledger_of w) start address length ->
    ledger_of (k_munmap address length w).2 =
      if (k_munmap address length w).1 =? 0 then tear_range start (ledger_of w) else ledger_of w;
  law_madvise address length advice w :
    inside (ledger_of w) address length ->
    ledger_of (k_madvise address length advice w).2 = ledger_of w;
  law_new w : ledger_of (k_new w).2 = ledger_of w;
  (** A buffer is created without GPU mappings; handle 0 means none. *)
  law_alloc fd a w :
    inside (ledger_of w) (al_va_addr a) (al_size a) ->
    let '(reply, w') := k_ioctl fd (ALLOC_MEMORY_OF_GPU a) w in
    is_u64 (rp_handle reply) /\ is_u64 (rp_mmap_offset reply) /\
    if (rp_errno reply =? 0) && negb (rp_handle reply =? 0) then
      lg_buffers (ledger_of w) !! rp_handle reply = None /\
      ledger_of w' = add_buffer (rp_handle reply) (mkBuffer 0 (user_pages a)) (ledger_of w)
    else ledger_of w' = ledger_of w;
  (** Mapping goes on from [n_success] and reports how far it came. *)
  law_map fd handle device_ids n_devices n_success w b :
    lg_buffers (ledger_of w) !! handle = Some b ->
    n_success <= n_devices ->
    let '(reply, w') := k_ioctl fd (MAP_MEMORY_TO_GPU handle device_ids n_devices n_success) w in
    n_success <= rp_n_success reply <= n_devices /\
    ledger_of w' = add_buffer handle
      (mkBuffer (bf_live b + (rp_n_success reply - n_success)) (bf_pages b)) (ledger_of w);
  law_unmap fd handle device_ids n_devices n_success w b :
    lg_buffers (ledger_of w) !! handle = Some b ->
    n_success <= n_devices ->
    let '(reply, w') := k_ioctl fd (UNMAP_MEMORY_FROM_GPU handle device_ids n_devices n_success) w in
    n_success <= rp_n_success reply <= n_devices /\
    ledger_of w' = add_buffer handle
      (mkBuffer (bf_live b - (rp_n_success reply - n_success)) (bf_pages b)) (ledger_of w);
  (** A buffer without GPU mappings can be freed. *)
  law_free fd handle w b :
    lg_buffers (ledger_of w) !! handle = Some b -> bf_live b = 0 ->
    let '(reply, w') := k_ioctl fd (FREE_MEMORY_OF_GPU handle) w in
    ledger_of w' = if rp_errno reply =? 0 then remove_buffer handle (ledger_of w)
                   else ledger_of w;
  (** A queue is created on memory the process holds. *)
  law_create_queue fd a w :
    Forall (fun '(start, size) => inside (ledger_of w) start size) (queue_memory a) ->
    let '(reply, w') := k_ioctl fd (CREATE_QUEUE a) w in
    is_u32 (rp_queue_id reply) /\ is_u64 (rp_doorbell_offset reply) /\
    if rp_errno reply =? 0 then
      lg_queues (ledger_of w) !! rp_queue_id reply = None /\
      ledger_of w' = add_queue (rp_queue_id reply) (queue_memory a) (ledger_of w)
    else ledger_of w' = ledger_of w;
  law_destroy_queue fd queue_id used w :
    lg_queues (ledger_of w) !! queue_id = Some used ->
    let '(reply, w') := k_ioctl fd (DESTROY_QUEUE queue_id) w in
    ledger_of w' = if rp_errno reply =? 0 then remove_queue queue_id (ledger_of w) else ledger_of w;
  law_create_event fd offset event_type auto_reset w :
    let '(reply, w') := k_ioctl fd (CREATE_EVENT offset event_type auto_reset) w in
    is_u32 (rp_event_id reply) /\
    if rp_errno reply =? 0 then
      rp_event_id reply ∉ lg_events (ledger_of w) /\
      ledger_of w' = add_event (rp_event_id reply) (ledger_of w)
    else ledger_of w' = ledger_of w;
  law_destroy_event fd event_id w :
    event_id ∈ lg_events (ledger_of w) ->
    let '(reply, w') := k_ioctl fd (DESTROY_EVENT event_id) w in
    ledger_of w' = if rp_errno reply =? 0 then remove_event event_id (ledger_of w) else ledger_of w;
  law_quiet fd request w :
    quiet request = true -> ledger_of (k_ioctl fd request w).2 = ledger_of w;
  (** The fields of an aperture are 64-bit words. *)
  law_aperture_width fd n w :
    Forall (fun a => is_u64 (ap_gpuvm_limit a))
      (rp_apertures (k_ioctl fd (GET_PROCESS_APERTURES_NEW n) w).1);
  (** A file descriptor is new and not negative. *)
  law_open_patient path w : exists opened w', sys_open path w = Ok (opened, w');
  law_open path w :
    match k_open path w with
    | (inl _, w') => ledger_of w' = ledger_of w
    | (inr fd, w') => 0 <= fd /\ fd ∉ lg_files (ledger_of w) /\
        ledger_of w' = add_file fd (ledger_of w)
    end;
  law_close fd w : fd ∈ lg_files (ledger_of w) ->
    ledger_of (k_close fd w) = remove_file fd (ledger_of w)
}.

(** ** Reasoning *)

(** [m], run in [w], returns, with [Q] of its result and the next world. *)
Definition wp {W A} (m : kfd W A) (Q : A -> W -> Prop) (w : W) : Prop :=
  match m w with
  | Ok (a, w) => Q a w
  | _ => False
  end.

Lemma wp_give {W A} (a : A) (Q : A -> W -> Prop) w : Q a w -> wp (give a) Q w.
Proof. done. Qed.

Lemma wp_bind {W A B} (m : kfd W A) (k : A -> kfd W B) Q w :
  wp m (fun a => wp (k a) Q) w -> wp (m ≫= k) Q w.
Proof. unfold wp, mbind, kfd_bind. by destruct (m w) as [[a w']|[]|f]. Qed.

Lemma wp_mono {W A} (m : kfd W A) (P Q : A -> W -> Prop) w :
  wp m P w -> (forall a w, P a w -> Q a w) -> wp m Q w.
Proof. unfold wp. destruct (m w) as [[a w']|[]|f]; auto. Qed.

Lemma wp_call {W A} (f : W -> A * W) (Q : A -> W -> Prop) w :
  Q (f w).1 (f w).2 -> wp (call f) Q w.
Proof. unfold wp, call. by destruct (f w). Qed.

(** Split on the condition at the head of a computation. *)
Tactic Notation "wp_if" "as" ident(H) :=
  lazymatch goal with
  | |- wp (if ?b then _ else _) _ _ => destruct b eqn:H; cbn [negb]
  end.

(** The run behind a [wp]. *)
Lemma wp_run {W A} (m : kfd W A) (Q : A -> W -> Prop) w :
  wp m Q w -> exists a w', m w = Ok (a, w') /\ Q a w'.
Proof. unfold wp. destruct (m w) as [[a w']|[]|f]; [eauto|done]. Qed.

(** What a computation yields if it returns, whatever the kernel does. *)
Definition yields {W A} (m : kfd W A) (Q : A -> Prop) : Prop :=
  forall w, match m w with Ok (a, _) => Q a | _ => True end.

Lemma wp_yields {W A} (m : kfd W A) (P : A -> W -> Prop) (Q : A -> Prop) w :
  wp m P w -> yields m Q -> wp m (fun a w' => P a w' /\ Q a) w.
Proof. unfold wp. intros H Hy. specialize (Hy w). by destruct (m w) as [[a w']|[]|f]. Qed.

Lemma yields_give {W A} (a : A) (Q : A -> Prop) : Q a -> yields (W := W) (give a) Q.
Proof. by intros H w. Qed.

Lemma yields_bind {W A B} (m : kfd W A) (k : A -> kfd W B) P Q :
  yields m P -> (forall a, P a -> yields (k a) Q) -> yields (m ≫= k) Q.
Proof.
  intros Hm Hk w. unfold mbind, kfd_bind. specialize (Hm w). destruct (m w) as [[a w']|[]|f]; [|done].
  by apply Hk.
Qed.

Lemma yields_any {W A} (m : kfd W A) : yields m (fun _ => True).
Proof. intros w. by destruct (m w) as [[a w']|[]|f]. Qed.

(** Putting back what is there. *)
Lemma set_ranges_id l : set_ranges l (lg_ranges l) (lg_torn l) = l.
Proof. by destruct l. Qed.
Lemma set_buffers_id l : set_buffers l (lg_buffers l) = l.
Proof. by destruct l. Qed.
Lemma set_files_id l : set_files l (lg_files l) = l.
Proof. by destruct l. Qed.
Lemma set_queues_id l : set_queues l (lg_queues l) = l.
Proof. by destruct l. Qed.
Lemma set_events_id l : set_events l (lg_events l) = l.
Proof. by destruct l. Qed.

(** Taking away what was new. *)
Lemma difference_new (x : Z) (X : gset Z) : x ∉ X -> ({[x]} ∪ X) ∖ {[x]} = X.
Proof. set_solver. Qed.
Lemma remove_add_buffer h b l : lg_buffers l !! h = None -> remove_buffer h (add_buffer h b l) = l.
Proof. intros H. unfold remove_buffer, add_buffer. cbn. rewrite delete_insert_id by done. by destruct l. Qed.
Lemma remove_add_file fd l : fd ∉ lg_files l -> remove_file fd (add_file fd l) = l.
Proof. intros H. unfold remove_file, add_file. cbn. rewrite difference_new by done. by destruct l. Qed.
Lemma remove_add_queue q used l : lg_queues l !! q = None -> remove_queue q (add_queue q used l) = l.
Proof. intros H. unfold remove_queue, add_queue. cbn. rewrite delete_insert_id by done. by destruct l. Qed.
Lemma remove_add_event e l : e ∉ lg_events l -> remove_event e (add_event e l) = l.
Proof. intros H. unfold remove_event, add_event. cbn. rewrite difference_new by done. by destruct l. Qed.

Lemma alone_inner l start size address length :
  lg_ranges l !! start = Some size -> alone l start size -> unused l start size ->
  start < address -> 0 < length -> address + length <= start + size -> inner l start address length.
Proof.
  intros Hs Ha [Hu1 Hu2] Hlt Hlen Hle. split; [by exists size|done|done| |].
  - intros start' size' Hs'. specialize (Ha _ _ Hs'). lia.
  - split.
    + intros handle b s n Hb Hp. specialize (Hu1 handle b s n Hb Hp). lia.
    + intros q used Hq. eapply Forall_impl; [by eapply Hu2|]. intros [s n]. cbn. lia.
Qed.

Section laws.
Context {W : Type} `{!Kernel W, !KernelLaws W}.

Lemma wp_new (Q : bool -> W -> Prop) w :
  (forall b w', ledger_of w' = ledger_of w -> Q b w') -> wp sys_new Q w.
Proof. intros H. apply wp_call, H, law_new. Qed.

Lemma wp_mmap_new arguments (Q : Z + Z -> W -> Prop) w :
  mm_address arguments = 0 ->
  (forall errno w', ledger_of w' = ledger_of w -> Q (inl errno) w') ->
  (forall address w', 0 < address < U64_MOD -> address mod 4096 = 0 ->
     fresh_range (ledger_of w) address (mm_length arguments) ->
     ledger_of w' = add_range address (mm_length arguments) (ledger_of w) -> Q (inr address) w') ->
  wp (sys_mmap arguments) Q w.
Proof.
  intros H0 Hl Hr. apply wp_call. pose proof (law_mmap_new arguments w H0) as H.
  destruct (k_mmap arguments w) as [[errno|address] w']; [by apply Hl|].
  destruct H as (H1 & H2 & H3 & H4). by apply Hr.
Qed.

Lemma wp_mmap_fixed start arguments (Q : Z + Z -> W -> Prop) w :
  Z.land (mm_flags arguments) MAP_FIXED = MAP_FIXED ->
  inner (ledger_of w) start (mm_address arguments) (mm_length arguments) ->
  (forall r w', ledger_of w' = ledger_of w ->
     (forall address, r = inr address -> address = mm_address arguments) -> Q r w') ->
  wp (sys_mmap arguments) Q w.
Proof.
  intros Hf Hi HQ. apply wp_call. pose proof (law_mmap_fixed arguments start w Hf Hi) as H.
  destruct (k_mmap arguments w) as [[errno|address] w']; simpl in *.
  - by apply HQ.
  - apply HQ; [apply H|]. intros ? [= <-]. apply H.
Qed.

Lemma wp_munmap address length (Q : Z -> W -> Prop) w :
  lg_ranges (ledger_of w) !! address = Some length ->
  alone (ledger_of w) address length -> unused (ledger_of w) address length ->
  (forall errno w',
     ledger_of w' = (if errno =? 0 then remove_range address (ledger_of w) else ledger_of w) ->
     Q errno w') ->
  wp (sys_munmap address length) Q w.
Proof. intros H1 H2 H3 HQ. by apply wp_call, HQ, law_munmap. Qed.

Lemma wp_munmap_inner start address length (Q : Z -> W -> Prop) w :
  inner (ledger_of w) start address length ->
  (forall errno w',
     ledger_of w' = (if errno =? 0 then tear_range start (ledger_of w) else ledger_of w) ->
     Q errno w') ->
  wp (sys_munmap address length) Q w.
Proof. intros H HQ. by apply wp_call, HQ, law_munmap_inner. Qed.

Lemma wp_madvise address length advice (Q : Z -> W -> Prop) w :
  inside (ledger_of w) address length ->
  (forall errno w', ledger_of w' = ledger_of w -> Q errno w') ->
  wp (sys_madvise address length advice) Q w.
Proof. intros H HQ. by apply wp_call, HQ, law_madvise. Qed.

(** The retry loop, for a request whose attempts keep an invariant. *)
Lemma wp_ioctl (inv : kfd_request -> W -> Prop) (Q : kfd_reply -> W -> Prop) fd request w :
  inv request w ->
  (forall request w, inv request w ->
     let '(reply, w') := k_ioctl fd request w in
     if rp_errno reply =? EINTR then inv (retried request reply) w' else Q reply w') ->
  wp (invoke_ioctl fd request) Q w.
Proof.
  intros Hinv Hstep. destruct (law_patient fd request w) as (reply & w' & Hrun).
  unfold wp. rewrite Hrun. unfold invoke_ioctl in Hrun. revert request w Hinv Hrun.
  induction k_patience as [|fuel IH]; intros request w Hinv Hrun; [done|].
  cbn [ioctl_loop] in Hrun. unfold mbind, kfd_bind, call in Hrun.
  pose proof (Hstep request w Hinv) as H. revert H Hrun. destruct (k_ioctl fd request w) as [r w1].
  destruct (rp_errno r =? EINTR); intros H Hrun; [by eapply IH|]. injection Hrun as <- <-. done.
Qed.

Lemma wp_alloc fd a (Q : kfd_reply -> W -> Prop) w :
  inside (ledger_of w) (al_va_addr a) (al_size a) ->
  (forall reply w',
     is_u64 (rp_handle reply) -> is_u64 (rp_mmap_offset reply) ->
     (if (rp_errno reply =? 0) && negb (rp_handle reply =? 0) then
        lg_buffers (ledger_of w) !! rp_handle reply = None /\
        ledger_of w' = add_buffer (rp_handle reply) (mkBuffer 0 (user_pages a)) (ledger_of w)
      else ledger_of w' = ledger_of w) -> Q reply w') ->
  wp (invoke_ioctl fd (ALLOC_MEMORY_OF_GPU a)) Q w.
Proof.
  intros Hin HQ.
  apply (wp_ioctl (fun r w1 => exists offset, r = ALLOC_MEMORY_OF_GPU (mkAllocArguments (al_va_addr a)
    (al_size a) offset (al_gpu_id a) (al_flags a)) /\ ledger_of w1 = ledger_of w)).
  { exists (al_mmap_offset a). by destruct a. }
  intros r w1 (offset & -> & Hw1).
  pose proof (law_alloc fd (mkAllocArguments (al_va_addr a) (al_size a) offset (al_gpu_id a) (al_flags a))
    w1 ltac:(by rewrite Hw1)) as H.
  destruct (k_ioctl fd _ w1) as [reply w']. destruct H as (H1 & H2 & H3). rewrite Hw1 in H3.
  destruct (rp_errno reply =? EINTR) eqn:He; [|by apply HQ].
  apply Z.eqb_eq in He. rewrite He in H3. cbn in H3. eauto.
Qed.

Lemma add_buffer_twice h b1 b2 l : add_buffer h b2 (add_buffer h b1 l) = add_buffer h b2 l.
Proof. unfold add_buffer. simpl. by rewrite insert_insert_eq. Qed.

Lemma wp_map fd h ids n p (Q : kfd_reply -> W -> Prop) w b :
  lg_buffers (ledger_of w) !! h = Some b -> p <= n ->
  (forall reply w', p <= rp_n_success reply <= n ->
     ledger_of w' = add_buffer h (mkBuffer (bf_live b + (rp_n_success reply - p)) (bf_pages b))
       (ledger_of w) -> Q reply w') ->
  wp (invoke_ioctl fd (MAP_MEMORY_TO_GPU h ids n p)) Q w.
Proof.
  intros Hb Hp HQ. apply (wp_ioctl (fun r w1 => exists k, r = MAP_MEMORY_TO_GPU h ids n k /\
    p <= k <= n /\
    ledger_of w1 = add_buffer h (mkBuffer (bf_live b + (k - p)) (bf_pages b)) (ledger_of w))).
  { exists p. split; [done|]. split; [lia|]. rewrite Z.sub_diag, Z.add_0_r. unfold add_buffer.
    rewrite insert_id; [by rewrite set_buffers_id|]. rewrite Hb. by destruct b. }
  intros r w1 (k & -> & Hk & Hw1).
  pose proof (law_map fd h ids n k w1 (mkBuffer (bf_live b + (k - p)) (bf_pages b))
    ltac:(rewrite Hw1; apply lookup_insert_eq) ltac:(lia)) as H.
  destruct (k_ioctl fd _ w1) as [reply w']. destruct H as (H1 & H2). rewrite Hw1, add_buffer_twice in H2.
  cbn in H2. replace (bf_live b + (k - p) + (rp_n_success reply - k))
    with (bf_live b + (rp_n_success reply - p)) in H2 by lia.
  destruct (rp_errno reply =? EINTR); [|apply HQ; [lia|done]].
  exists (rp_n_success reply). split_and!; [done|lia..|done].
Qed.

Lemma wp_unmap fd h ids n p (Q : kfd_reply -> W -> Prop) w b :
  lg_buffers (ledger_of w) !! h = Some b -> p <= n ->
  (forall reply w', p <= rp_n_success reply <= n ->
     ledger_of w' = add_buffer h (mkBuffer (bf_live b - (rp_n_success reply - p)) (bf_pages b))
       (ledger_of w) -> Q reply w') ->
  wp (invoke_ioctl fd (UNMAP_MEMORY_FROM_GPU h ids n p)) Q w.
Proof.
  intros Hb Hp HQ. apply (wp_ioctl (fun r w1 => exists k, r = UNMAP_MEMORY_FROM_GPU h ids n k /\
    p <= k <= n /\
    ledger_of w1 = add_buffer h (mkBuffer (bf_live b - (k - p)) (bf_pages b)) (ledger_of w))).
  { exists p. split; [done|]. split; [lia|]. rewrite Z.sub_diag, Z.sub_0_r. unfold add_buffer.
    rewrite insert_id; [by rewrite set_buffers_id|]. rewrite Hb. by destruct b. }
  intros r w1 (k & -> & Hk & Hw1).
  pose proof (law_unmap fd h ids n k w1 (mkBuffer (bf_live b - (k - p)) (bf_pages b))
    ltac:(rewrite Hw1; apply lookup_insert_eq) ltac:(lia)) as H.
  destruct (k_ioctl fd _ w1) as [reply w']. destruct H as (H1 & H2). rewrite Hw1, add_buffer_twice in H2.
  cbn in H2. replace (bf_live b - (k - p) - (rp_n_success reply - k))
    with (bf_live b - (rp_n_success reply - p)) in H2 by lia.
  destruct (rp_errno reply =? EINTR); [|apply HQ; [lia|done]].
  exists (rp_n_success reply). split_and!; [done|lia..|done].
Qed.

(** A request that fails leaves the ledger, so that its attempts start from
    the same one. *)
Lemma wp_retry fd request (Q : kfd_reply -> W -> Prop) w (P : kfd_request -> Prop) :
  P request -> (forall r reply, P r -> P (retried r reply)) ->
  (forall r w1, P r -> ledger_of w1 = ledger_of w ->
     let '(reply, w') := k_ioctl fd r w1 in
     (rp_errno reply <> 0 -> ledger_of w' = ledger_of w) /\ Q reply w') ->
  wp (invoke_ioctl fd request) Q w.
Proof.
  intros HP Hre Hstep. apply (wp_ioctl (fun r w1 => P r /\ ledger_of w1 = ledger_of w)); [done|].
  intros r w1 [Hr Hw1]. specialize (Hstep r w1 Hr Hw1). destruct (k_ioctl fd r w1) as [reply w'].
  destruct Hstep as [Hf HQ]. destruct (Z.eqb_spec (rp_errno reply) EINTR) as [He|]; [|done].
  split; [by apply Hre|]. apply Hf. by rewrite He.
Qed.

Lemma wp_free fd h (Q : kfd_reply -> W -> Prop) w b :
  lg_buffers (ledger_of w) !! h = Some b -> bf_live b = 0 ->
  (forall reply w',
     ledger_of w' = (if rp_errno reply =? 0 then remove_buffer h (ledger_of w) else ledger_of w) ->
     Q reply w') ->
  wp (invoke_ioctl fd (FREE_MEMORY_OF_GPU h)) Q w.
Proof.
  intros Hb Hl HQ. apply (wp_retry _ _ _ _ (eq (FREE_MEMORY_OF_GPU h))); [done|by intros ? ? <-|].
  intros r w1 <- Hw1. pose proof (law_free fd h w1 b) as H. rewrite Hw1 in H. specialize (H Hb Hl).
  destruct (k_ioctl fd _ w1) as [reply w']. split; [|by apply HQ].
  intros He. apply Z.eqb_neq in He. by rewrite He in H.
Qed.

Lemma wp_create_queue fd a (Q : kfd_reply -> W -> Prop) w :
  Forall (fun '(start, size) => inside (ledger_of w) start size) (queue_memory a) ->
  (forall reply w', is_u32 (rp_queue_id reply) -> is_u64 (rp_doorbell_offset reply) ->
     (if rp_errno reply =? 0 then
        lg_queues (ledger_of w) !! rp_queue_id reply = None /\
        ledger_of w' = add_queue (rp_queue_id reply) (queue_memory a) (ledger_of w)
      else ledger_of w' = ledger_of w) -> Q reply w') ->
  wp (invoke_ioctl fd (CREATE_QUEUE a)) Q w.
Proof.
  intros Hin HQ. apply (wp_retry _ _ _ _ (eq (CREATE_QUEUE a))); [done|by intros ? ? <-|].
  intros r w1 <- Hw1. pose proof (law_create_queue fd a w1) as H. rewrite Hw1 in H. specialize (H Hin).
  destruct (k_ioctl fd _ w1) as [reply w']. destruct H as (H1 & H2 & H3). split; [|by apply HQ].
  intros He. apply Z.eqb_neq in He. by rewrite He in H3.
Qed.

Lemma wp_destroy_queue fd queue_id used (Q : kfd_reply -> W -> Prop) w :
  lg_queues (ledger_of w) !! queue_id = Some used ->
  (forall reply w', ledger_of w' =
     (if rp_errno reply =? 0 then remove_queue queue_id (ledger_of w) else ledger_of w) -> Q reply w') ->
  wp (invoke_ioctl fd (DESTROY_QUEUE queue_id)) Q w.
Proof.
  intros Hu HQ. apply (wp_retry _ _ _ _ (eq (DESTROY_QUEUE queue_id))); [done|by intros ? ? <-|].
  intros r w1 <- Hw1. pose proof (law_destroy_queue fd queue_id used w1) as H. rewrite Hw1 in H.
  specialize (H Hu). destruct (k_ioctl fd _ w1) as [reply w']. split; [|by apply HQ].
  intros He. apply Z.eqb_neq in He. by rewrite He in H.
Qed.

Lemma wp_create_event fd offset event_type auto_reset (Q : kfd_reply -> W -> Prop) w :
  (forall reply w', is_u32 (rp_event_id reply) ->
     (if rp_errno reply =? 0 then
        rp_event_id reply ∉ lg_events (ledger_of w) /\
        ledger_of w' = add_event (rp_event_id reply) (ledger_of w)
      else ledger_of w' = ledger_of w) -> Q reply w') ->
  wp (invoke_ioctl fd (CREATE_EVENT offset event_type auto_reset)) Q w.
Proof.
  intros HQ. apply (wp_retry _ _ _ _ (fun r => exists offset, r = CREATE_EVENT offset event_type auto_reset)).
  { eauto. }
  { intros r reply [o ->]. cbn. eauto. }
  intros r w1 [o ->] Hw1. pose proof (law_create_event fd o event_type auto_reset w1) as H. rewrite Hw1 in H.
  destruct (k_ioctl fd _ w1) as [reply w']. destruct H as (H1 & H2). split; [|by apply HQ].
  intros He. apply Z.eqb_neq in He. by rewrite He in H2.
Qed.

Lemma wp_destroy_event fd event_id (Q : kfd_reply -> W -> Prop) w :
  event_id ∈ lg_events (ledger_of w) ->
  (forall reply w', ledger_of w' =
     (if rp_errno reply =? 0 then remove_event event_id (ledger_of w) else ledger_of w) -> Q reply w') ->
  wp (invoke_ioctl fd (DESTROY_EVENT event_id)) Q w.
Proof.
  intros Hu HQ. apply (wp_retry _ _ _ _ (eq (DESTROY_EVENT event_id))); [done|by intros ? ? <-|].
  intros r w1 <- Hw1. pose proof (law_destroy_event fd event_id w1) as H. rewrite Hw1 in H.
  specialize (H Hu). destruct (k_ioctl fd _ w1) as [reply w']. split; [|by apply HQ].
  intros He. apply Z.eqb_neq in He. by rewrite He in H.
Qed.

Lemma wp_quiet fd request (Q : kfd_reply -> W -> Prop) w :
  quiet request = true ->
  (forall reply w', ledger_of w' = ledger_of w -> Q reply w') ->
  wp (invoke_ioctl fd request) Q w.
Proof.
  intros Hq HQ. apply (wp_ioctl (fun r w1 => quiet r = true /\ ledger_of w1 = ledger_of w)); [done|].
  intros r w1 [Hr Hw1]. pose proof (law_quiet fd r w1 Hr) as H.
  destruct (k_ioctl fd r w1) as [reply w']. cbn in H. rewrite Hw1 in H.
  destruct (rp_errno reply =? EINTR); [|by apply HQ]. by destruct r.
Qed.

Lemma wp_apertures fd n (Q : kfd_reply -> W -> Prop) w :
  (forall reply w', ledger_of w' = ledger_of w ->
     Forall (fun a => is_u64 (ap_gpuvm_limit a)) (rp_apertures reply) -> Q reply w') ->
  wp (invoke_ioctl fd (GET_PROCESS_APERTURES_NEW n)) Q w.
Proof.
  intros HQ. apply (wp_ioctl (fun r w1 => (exists n, r = GET_PROCESS_APERTURES_NEW n) /\
    ledger_of w1 = ledger_of w)); [eauto|].
  intros r w1 [[n' ->] Hw1]. pose proof (law_quiet fd (GET_PROCESS_APERTURES_NEW n') w1 eq_refl) as H.
  pose proof (law_aperture_width fd n' w1) as Hf.
  destruct (k_ioctl fd _ w1) as [reply w']. cbn in H, Hf. rewrite Hw1 in H.
  destruct (rp_errno reply =? EINTR); [|by apply HQ]. split; [|done]. cbn. eauto.
Qed.

Lemma wp_open path (Q : Z + Z -> W -> Prop) w :
  (forall errno w', ledger_of w' = ledger_of w -> Q (inl errno) w') ->
  (forall fd w', 0 <= fd -> fd ∉ lg_files (ledger_of w) ->
     ledger_of w' = add_file fd (ledger_of w) -> Q (inr fd) w') ->
  wp (sys_open path) Q w.
Proof.
  intros Hl Hr. destruct (law_open_patient path w) as (opened & w' & Hrun). unfold wp. rewrite Hrun.
  unfold sys_open in Hrun. remember (ledger_of w) as l eqn:Hw. symmetry in Hw. revert w Hw Hrun.
  induction k_patience as [|fuel IH]; intros w Hw Hrun; [done|].
  cbn [open_loop] in Hrun. unfold mbind, kfd_bind, call in Hrun.
  pose proof (law_open path w) as H. revert H Hrun. rewrite Hw.
  destruct (k_open path w) as [[errno|fd] w1]; [|by intros (? & ? & ?) [= <- <-]; auto].
  destruct (errno =? EINTR); intros H Hrun; [by eapply IH|]. injection Hrun as <- <-. auto.
Qed.

Lemma wp_close fd (Q : unit -> W -> Prop) w :
  fd ∈ lg_files (ledger_of w) ->
  (forall w', ledger_of w' = remove_file fd (ledger_of w) -> Q tt w') -> wp (sys_close fd) Q w.
Proof. intros Hf HQ. by apply wp_call, HQ, law_close. Qed.
End laws.
