(* ===== verification/KfdMemory.v ===== *)
(** * KFD memory

    The allocation core of [transport/kfd/memory.cpp]: buffers mapped at the
    same address on the host and on the GPU, host memory made visible to the
    GPU, and the rollback of an allocation that fails half-way.  A function
    that changes an allocation through a pointer returns the new one next to
    its status; the pointers themselves are the callers' objects and never
    null. *)

From stdpp Require Import gmap fin_maps pretty.
From S2P Require Import Prelude KfdKernel.

Definition kMemoryPageSize : Z := 4096.
Definition kVramAllocationGranule : Z := 2 * 1024 * 1024.
Definition kGuardPageCount : Z := 2.

Module MemoryError.
Inductive t :=
| None
| InvalidSession
| InvalidNode
| InvalidSize
| AllocateState
| AcquireVm
| ReserveVa
| SetScratchBacking
| AllocateMemory
| AllocateScratch
| ScratchPoolExhausted
| MapHost
| AdviseDontFork
| MapToGpu
| UnmapFromGpu
| UnmapHost
| FreeMemory.

#[global] Instance eq_dec : EqDecision t.
Proof. solve_decision. Defined.
End MemoryError.

Definition memory_error_name (error : MemoryError.t) : string :=
  match error with
  | MemoryError.None => "none"
  | MemoryError.InvalidSession => "invalid_session"
  | MemoryError.InvalidNode => "invalid_node"
  | MemoryError.InvalidSize => "invalid_size"
  | MemoryError.AllocateState => "allocate_state"
  | MemoryError.AcquireVm => "acquire_vm"
  | MemoryError.ReserveVa => "reserve_va"
  | MemoryError.SetScratchBacking => "set_scratch_backing"
  | MemoryError.AllocateMemory => "allocate_memory"
  | MemoryError.AllocateScratch => "allocate_scratch"
  | MemoryError.ScratchPoolExhausted => "scratch_pool_exhausted"
  | MemoryError.MapHost => "map_host"
  | MemoryError.AdviseDontFork => "advise_dontfork"
  | MemoryError.MapToGpu => "map_to_gpu"
  | MemoryError.UnmapFromGpu => "unmap_from_gpu"
  | MemoryError.UnmapHost => "unmap_host"
  | MemoryError.FreeMemory => "free_memory"
  end.

Record MemoryStatus := mkMemoryStatus {
  ms_error : MemoryError.t;
  ms_system_error : Z;
  ms_message : string
}.

(** [explicit operator bool] *)
Definition status_ok (status : MemoryStatus) : bool :=
  bool_decide (ms_error status = MemoryError.None).

Definition no_error : MemoryStatus := mkMemoryStatus MemoryError.None 0 "".

Record RawMemoryAllocation := mkRawAllocation {
  ra_reservation_address : Z;
  ra_reservation_size : Z;
  ra_host_address : Z;
  ra_gpu_address : Z;
  ra_size : Z;
  ra_handle : Z;
  ra_gpu_ids : list Z;
  ra_mapped_device_count : Z;
  ra_unmapped_device_count : Z;
  ra_map_complete : bool
}.

(** [RawMemoryAllocation{}] *)
Definition no_allocation : RawMemoryAllocation := mkRawAllocation 0 0 0 0 0 0 [] 0 0 false.

Definition set_mapping (a : RawMemoryAllocation) (gpu_ids : list Z) (mapped unmapped : Z)
    (complete : bool) : RawMemoryAllocation :=
  mkRawAllocation (ra_reservation_address a) (ra_reservation_size a) (ra_host_address a)
    (ra_gpu_address a) (ra_size a) (ra_handle a) gpu_ids mapped unmapped complete.

Definition set_handle (a : RawMemoryAllocation) (handle : Z) : RawMemoryAllocation :=
  mkRawAllocation (ra_reservation_address a) (ra_reservation_size a) (ra_host_address a)
    (ra_gpu_address a) (ra_size a) handle (ra_gpu_ids a) (ra_mapped_device_count a)
    (ra_unmapped_device_count a) (ra_map_complete a).

Definition set_host_address (a : RawMemoryAllocation) (host : Z) : RawMemoryAllocation :=
  mkRawAllocation (ra_reservation_address a) (ra_reservation_size a) host (ra_gpu_address a)
    (ra_size a) (ra_handle a) (ra_gpu_ids a) (ra_mapped_device_count a)
    (ra_unmapped_device_count a) (ra_map_complete a).

(** The reservation is gone. *)
Definition drop_reservation (a : RawMemoryAllocation) : RawMemoryAllocation :=
  mkRawAllocation 0 0 0 (ra_gpu_address a) (ra_size a) (ra_handle a) (ra_gpu_ids a)
    (ra_mapped_device_count a) (ra_unmapped_device_count a) (ra_map_complete a).

Module MemoryAllocationUsage.
Inductive t :=
| General
| Vram
| DeviceVram
| Executable
| TrapHandler
| AqlRing
| Doorbell
| Eop.

#[global] Instance eq_dec : EqDecision t.
Proof. solve_decision. Defined.
End MemoryAllocationUsage.
Import MemoryAllocationUsage.

Definition uses_vram_backing (usage : MemoryAllocationUsage.t) : bool :=
  bool_decide (usage = Vram) || bool_decide (usage = DeviceVram) || bool_decide (usage = Executable).

(** The flags of the buffer object for each use. *)
Definition allocation_flags (usage : MemoryAllocationUsage.t) : Z :=
  let flags :=
    if bool_decide (usage = Doorbell) then
      Z.lor (Z.lor (Z.lor KFD_IOC_ALLOC_MEM_FLAGS_DOORBELL KFD_IOC_ALLOC_MEM_FLAGS_WRITABLE)
        KFD_IOC_ALLOC_MEM_FLAGS_COHERENT) KFD_IOC_ALLOC_MEM_FLAGS_NO_SUBSTITUTE
    else if bool_decide (usage = Eop) then
      Z.lor (Z.lor (Z.lor KFD_IOC_ALLOC_MEM_FLAGS_VRAM KFD_IOC_ALLOC_MEM_FLAGS_WRITABLE)
        KFD_IOC_ALLOC_MEM_FLAGS_EXECUTABLE) KFD_IOC_ALLOC_MEM_FLAGS_NO_SUBSTITUTE
    else if uses_vram_backing usage then
      Z.lor (Z.lor KFD_IOC_ALLOC_MEM_FLAGS_VRAM KFD_IOC_ALLOC_MEM_FLAGS_WRITABLE)
        KFD_IOC_ALLOC_MEM_FLAGS_NO_SUBSTITUTE
    else
      Z.lor (Z.lor (Z.lor KFD_IOC_ALLOC_MEM_FLAGS_GTT KFD_IOC_ALLOC_MEM_FLAGS_WRITABLE)
        KFD_IOC_ALLOC_MEM_FLAGS_COHERENT) KFD_IOC_ALLOC_MEM_FLAGS_NO_SUBSTITUTE in
  if bool_decide (usage = Executable) || bool_decide (usage = TrapHandler) then
    Z.lor flags KFD_IOC_ALLOC_MEM_FLAGS_EXECUTABLE
  else if bool_decide (usage = AqlRing) then
    Z.lor flags (Z.lor (Z.lor KFD_IOC_ALLOC_MEM_FLAGS_EXECUTABLE
      KFD_IOC_ALLOC_MEM_FLAGS_AQL_QUEUE_MEM) KFD_IOC_ALLOC_MEM_FLAGS_UNCACHED)
  else flags.

(** [(value + alignment - 1) & ~(alignment - 1)] *)
Definition round_up (value alignment : Z) : Z :=
  Z.land (u64_sub (u64_add value alignment) 1) (UINT64_MAX - (alignment - 1)).

(** The largest [off_t]. *)
Definition OFF_MAX : Z := 9223372036854775807.

Section memory.
Context {W : Type} `{!Kernel W}.

Definition system_failure (error : MemoryError.t) (system_error : Z) (operation : string)
  : MemoryStatus :=
  mkMemoryStatus error system_error
    (operation +:+ " failed: " +:+ k_strerror system_error +:+ " (" +:+ pretty system_error +:+ ")").

Definition failure (error : MemoryError.t) (message : string) : MemoryStatus :=
  mkMemoryStatus error 0 message.

(** [status.message += "; cleanup failed: " + cleanup.message] unless the
    cleanup succeeded. *)
Definition append_cleanup (status cleanup : MemoryStatus) : MemoryStatus :=
  if status_ok cleanup then status
  else mkMemoryStatus (ms_error status) (ms_system_error status)
         (ms_message status +:+ "; cleanup failed: " +:+ ms_message cleanup).

(** ** Mapping to the GPU *)

(** The loop over the GPU ids of [map_memory]. *)
Fixpoint check_gpu_ids (earlier gpu_ids : list Z) : option MemoryStatus :=
  match gpu_ids with
  | [] => None
  | id :: gpu_ids =>
      if id =? 0 then
        Some (failure MemoryError.InvalidNode "KFD memory GPU mapping received an invalid zero GPU ID")
      else if existsb (Z.eqb id) earlier then
        Some (failure MemoryError.InvalidNode "KFD memory GPU mapping received a duplicate GPU ID")
      else check_gpu_ids (earlier ++ [id]) gpu_ids
  end.

(** What [map_memory] does with the driver's answer. *)
Definition map_outcome (a : RawMemoryAllocation) (device_count previous_success : Z)
    (reply : kfd_reply) : MemoryStatus * RawMemoryAllocation :=
  let succeeded := rp_errno reply =? 0 in
  let progress mapped complete :=
    set_mapping a (ra_gpu_ids a) mapped (ra_unmapped_device_count a) complete in
  if rp_n_success reply >? device_count then
    (mkMemoryStatus MemoryError.MapToGpu (if succeeded then 0 else rp_errno reply)
       "AMDKFD_IOC_MAP_MEMORY_TO_GPU returned invalid progress", progress device_count false)
  else if rp_n_success reply <? previous_success then
    (mkMemoryStatus MemoryError.MapToGpu (if succeeded then 0 else rp_errno reply)
       "AMDKFD_IOC_MAP_MEMORY_TO_GPU returned non-monotonic progress",
     progress (ra_mapped_device_count a) false)
  else if negb succeeded then
    (system_failure MemoryError.MapToGpu (rp_errno reply) "AMDKFD_IOC_MAP_MEMORY_TO_GPU(memory)",
     progress (rp_n_success reply) false)
  else if negb (rp_n_success reply =? device_count) then
    (failure MemoryError.MapToGpu
       "AMDKFD_IOC_MAP_MEMORY_TO_GPU completed without mapping every GPU",
     progress (rp_n_success reply) false)
  else (no_error, progress (rp_n_success reply) true).

(** The call, from the allocation whose [gpu_ids] are set. *)
Definition map_devices (kfd_fd : Z) (a : RawMemoryAllocation)
  : kfd W (MemoryStatus * RawMemoryAllocation) :=
  let device_count := to_u32 (Z.of_nat (length (ra_gpu_ids a))) in
  if ra_mapped_device_count a >? device_count then
    give (failure MemoryError.MapToGpu "KFD memory GPU mapping retained invalid progress", a)
  else if (ra_mapped_device_count a =? device_count) && ra_map_complete a then give (no_error, a)
  else
    reply ← invoke_ioctl kfd_fd (MAP_MEMORY_TO_GPU (ra_handle a) (ra_gpu_ids a) device_count
      (ra_mapped_device_count a));
    give (map_outcome a device_count (ra_mapped_device_count a) reply).

Definition map_memory (kfd_fd : Z) (a : RawMemoryAllocation) (gpu_ids : list Z)
  : kfd W (MemoryStatus * RawMemoryAllocation) :=
  if (kfd_fd <? 0) || (ra_handle a =? 0) || negb valid_syscalls then
    give (failure MemoryError.InvalidSession
      "KFD memory GPU mapping requires an allocated KFD buffer", a)
  else if bool_decide (gpu_ids = []) || (Z.of_nat (length gpu_ids) >? UINT32_MAX) then
    give (failure MemoryError.InvalidNode "KFD memory GPU mapping requires at least one GPU ID", a)
  else
  match check_gpu_ids [] gpu_ids with
  | Some status => give (status, a)
  | None =>
      if bool_decide (ra_gpu_ids a = []) then
        allocated ← sys_new;
        if (allocated : bool) then
          map_devices kfd_fd (set_mapping a gpu_ids (ra_mapped_device_count a)
            (ra_unmapped_device_count a) (ra_map_complete a))
        else give (failure MemoryError.AllocateState
          "failed to allocate KFD memory GPU mapping state", a)
      else if negb (bool_decide (ra_gpu_ids a = gpu_ids)) || negb (ra_unmapped_device_count a =? 0)
      then give (failure MemoryError.MapToGpu
        "KFD memory GPU mapping retry does not match the pending mapping", a)
      else map_devices kfd_fd a
  end.

Definition unmap_outcome (a : RawMemoryAllocation) (previous_success : Z) (reply : kfd_reply)
  : MemoryStatus * RawMemoryAllocation :=
  let succeeded := rp_errno reply =? 0 in
  let progress unmapped :=
    set_mapping a (ra_gpu_ids a) (ra_mapped_device_count a) unmapped (ra_map_complete a) in
  if rp_n_success reply >? ra_mapped_device_count a then
    (mkMemoryStatus MemoryError.UnmapFromGpu (if succeeded then 0 else rp_errno reply)
       "AMDKFD_IOC_UNMAP_MEMORY_FROM_GPU returned invalid progress", a)
  else if rp_n_success reply <? previous_success then
    (mkMemoryStatus MemoryError.UnmapFromGpu (if succeeded then 0 else rp_errno reply)
       "AMDKFD_IOC_UNMAP_MEMORY_FROM_GPU returned non-monotonic progress", a)
  else if negb succeeded then
    (system_failure MemoryError.UnmapFromGpu (rp_errno reply)
       "AMDKFD_IOC_UNMAP_MEMORY_FROM_GPU(memory)", progress (rp_n_success reply))
  else if negb (rp_n_success reply =? ra_mapped_device_count a) then
    (failure MemoryError.UnmapFromGpu
       "AMDKFD_IOC_UNMAP_MEMORY_FROM_GPU completed without unmapping every GPU",
     progress (rp_n_success reply))
  else (no_error, set_mapping a [] 0 0 false).

Definition unmap_memory (kfd_fd : Z) (a : RawMemoryAllocation)
  : kfd W (MemoryStatus * RawMemoryAllocation) :=
  if ra_mapped_device_count a =? 0 then give (no_error, set_mapping a [] 0 0 false)
  else if (kfd_fd <? 0) || (ra_handle a =? 0) || negb valid_syscalls then
    give (failure MemoryError.InvalidSession
      "KFD memory GPU unmapping requires an allocated KFD buffer", a)
  else if (ra_mapped_device_count a >? Z.of_nat (length (ra_gpu_ids a))) ||
          (ra_unmapped_device_count a >? ra_mapped_device_count a) then
    give (failure MemoryError.UnmapFromGpu
      "KFD memory GPU unmapping retained invalid progress", a)
  else
    reply ← invoke_ioctl kfd_fd (UNMAP_MEMORY_FROM_GPU (ra_handle a) (ra_gpu_ids a)
      (ra_mapped_device_count a) (ra_unmapped_device_count a));
    give (unmap_outcome a (ra_unmapped_device_count a) reply).

(** ** Release *)

(** Whether the allocation holds anything. *)
Definition holds_nothing (a : RawMemoryAllocation) : bool :=
  (ra_reservation_address a =? 0) && (ra_handle a =? 0).

(** [AMDKFD_IOC_FREE_MEMORY_OF_GPU], if there is a handle. *)
Definition free_handle (kfd_fd handle : Z) (operation : string) : kfd W (option MemoryStatus) :=
  if handle =? 0 then give None
  else
    reply ← invoke_ioctl kfd_fd (FREE_MEMORY_OF_GPU handle);
    give (if rp_errno reply =? 0 then None
          else Some (system_failure MemoryError.FreeMemory (rp_errno reply) operation)).

(** [munmap] of the reservation, if there is one. *)
Definition unmap_reservation (a : RawMemoryAllocation) (operation : string)
  : kfd W (option MemoryStatus) :=
  if ra_reservation_address a =? 0 then give None
  else
    errno ← sys_munmap (ra_reservation_address a) (ra_reservation_size a);
    give (if errno =? 0 then None
          else Some (system_failure MemoryError.UnmapHost errno operation)).

Definition release_memory (kfd_fd : Z) (a : RawMemoryAllocation)
  : kfd W (MemoryStatus * RawMemoryAllocation) :=
  if holds_nothing a then give (no_error, a)
  else if (kfd_fd <? 0) || negb valid_syscalls then
    give (failure MemoryError.InvalidSession "KFD memory release requires an open KFD session", a)
  else
    '(unmapped, a) ← unmap_memory kfd_fd a;
    if negb (status_ok unmapped) then give (unmapped, a)
    else
      released ← unmap_reservation a "munmap(KFD memory host mapping)";
      match released with
      | Some status => give (status, a)
      | None =>
          let a := if ra_reservation_address a =? 0 then a else drop_reservation a in
          freed ← free_handle kfd_fd (ra_handle a) "AMDKFD_IOC_FREE_MEMORY_OF_GPU(memory)";
          match freed with
          | Some status => give (status, a)
          | None => give (no_error, no_allocation)
          end
      end.

(** The driver releases the buffer before its pages are unmapped. *)
Definition release_host_memory (kfd_fd : Z) (a : RawMemoryAllocation)
  : kfd W (MemoryStatus * RawMemoryAllocation) :=
  if holds_nothing a then give (no_error, a)
  else if (kfd_fd <? 0) || negb valid_syscalls then
    give (failure MemoryError.InvalidSession
      "KFD host-memory release requires an open KFD session", a)
  else
    '(unmapped, a) ← unmap_memory kfd_fd a;
    if negb (status_ok unmapped) then give (unmapped, a)
    else
      freed ← free_handle kfd_fd (ra_handle a) "AMDKFD_IOC_FREE_MEMORY_OF_GPU(USERPTR)";
      match freed with
      | Some status => give (status, a)
      | None =>
          let a := set_handle a 0 in
          released ← unmap_reservation a "munmap(KFD USERPTR backing)";
          match released with
          | Some status => give (status, a)
          | None => give (no_error, no_allocation)
          end
      end.

Definition rollback_memory (status : MemoryStatus) (kfd_fd : Z) (a : RawMemoryAllocation)
  : kfd W (MemoryStatus * RawMemoryAllocation) :=
  '(cleanup, a) ← release_memory kfd_fd a;
  give (append_cleanup status cleanup, a).

Definition rollback_host_memory (status : MemoryStatus) (kfd_fd : Z) (a : RawMemoryAllocation)
  : kfd W (MemoryStatus * RawMemoryAllocation) :=
  '(cleanup, a) ← release_host_memory kfd_fd a;
  give (append_cleanup status cleanup, a).

(** ** Allocation *)

Definition map_shared (host size protection fd offset : Z) : mmap_arguments :=
  mkMmapArguments host size protection (Z.lor MAP_SHARED MAP_FIXED) fd offset.

(** [mmap] of fresh address space, without access or backing. *)
Definition reserve_address_space (size : Z) : mmap_arguments :=
  mkMmapArguments 0 size PROT_NONE (Z.lor (Z.lor MAP_PRIVATE MAP_ANONYMOUS) MAP_NORESERVE) (-1) 0.

(** The host mapping of the buffer: [None] when it is made or not needed. *)
Definition map_host (usage : MemoryAllocationUsage.t) (render_fd host size mmap_offset : Z)
  : kfd W (option MemoryStatus) :=
  if bool_decide (usage = Doorbell) || bool_decide (usage = DeviceVram) then give None
  else if mmap_offset >? OFF_MAX then
    give (Some (failure MemoryError.MapHost
      "KFD returned a KFD memory mmap offset outside the host off_t range"))
  else
    let protection := if bool_decide (usage = Eop) then PROT_NONE else Z.lor PROT_READ PROT_WRITE in
    mapped ← sys_mmap (map_shared host size protection render_fd mmap_offset);
    give (match mapped with
          | inl errno => Some (system_failure MemoryError.MapHost errno
                           "mmap(KFD memory render-node mapping)")
          | inr _ => None
          end).

(** The second half of [allocate_memory]: the reservation and the buffer
    exist, now they are mapped. *)
Definition map_allocation (kfd_fd render_fd : Z) (usage : MemoryAllocationUsage.t)
    (mmap_offset host : Z) (a : RawMemoryAllocation) : kfd W (MemoryStatus * RawMemoryAllocation) :=
  mapped ← map_host usage render_fd host (ra_size a) mmap_offset;
  match mapped with
  | Some status => rollback_memory status kfd_fd a
  | None =>
      let a := if bool_decide (usage = DeviceVram) then a else set_host_address a host in
      errno ← sys_madvise host (ra_size a) MADV_DONTFORK;
      if negb (errno =? 0) then
        rollback_memory (system_failure MemoryError.AdviseDontFork errno "madvise(MADV_DONTFORK)")
          kfd_fd a
      else if bool_decide (usage = Doorbell) then give (no_error, a)
      else
        '(gpu_mapped, a) ← map_memory kfd_fd a (ra_gpu_ids a);
        if negb (status_ok gpu_mapped) then rollback_memory gpu_mapped kfd_fd a
        else give (no_error, a)
  end.

(** The first half: the buffer object at an address of the reservation. *)
Definition allocate_at (kfd_fd render_fd : Z) (aperture : ProcessAperture) (size : Z)
    (usage : MemoryAllocationUsage.t) (backing_size reservation_size reservation : Z)
  : kfd W (MemoryStatus * RawMemoryAllocation) :=
  let reserved host_address :=
    mkRawAllocation reservation reservation_size 0 host_address size 0 [ap_gpu_id aperture] 0 0 false in
  let address_alignment_slack :=
    if uses_vram_backing usage then kVramAllocationGranule - 1 else 0 in
  if reservation >? u64_sub (u64_sub UINT64_MAX kMemoryPageSize) address_alignment_slack then
    rollback_memory (failure MemoryError.ReserveVa "reserved CPU VA overflows the host address range")
      kfd_fd (reserved 0)
  else
  let first_usable := u64_add reservation kMemoryPageSize in
  let host_address :=
    if uses_vram_backing usage then round_up first_usable kVramAllocationGranule else first_usable in
  if (host_address >? u64_sub UINT64_MAX (u64_sub backing_size 1)) ||
     (host_address <? ap_gpuvm_base aperture) ||
     (u64_sub (u64_add host_address backing_size) 1 >? ap_gpuvm_limit aperture) then
    rollback_memory (failure MemoryError.ReserveVa "reserved CPU VA is outside the KFD GPUVM aperture")
      kfd_fd (reserved host_address)
  else
  reply ← invoke_ioctl kfd_fd (ALLOC_MEMORY_OF_GPU
    (mkAllocArguments host_address backing_size 0 (ap_gpu_id aperture) (allocation_flags usage)));
  if negb (rp_errno reply =? 0) then
    rollback_memory (system_failure MemoryError.AllocateMemory (rp_errno reply)
      "AMDKFD_IOC_ALLOC_MEMORY_OF_GPU(memory)") kfd_fd (reserved host_address)
  else if rp_handle reply =? 0 then
    rollback_memory (failure MemoryError.AllocateMemory
      "KFD returned an invalid zero KFD memory handle") kfd_fd (reserved host_address)
  else
  map_allocation kfd_fd render_fd usage (rp_mmap_offset reply) host_address
    (set_handle (reserved host_address) (rp_handle reply)).

Definition allocate_memory (kfd_fd render_fd : Z) (aperture : ProcessAperture) (size : Z)
    (usage : MemoryAllocationUsage.t) : kfd W (MemoryStatus * RawMemoryAllocation) :=
  if (kfd_fd <? 0) || (negb (bool_decide (usage = Doorbell)) && (render_fd <? 0)) ||
     (ap_gpu_id aperture =? 0) || negb valid_syscalls then
    give (failure MemoryError.InvalidSession "KFD memory allocation requires an acquired KFD VM",
      no_allocation)
  else if (size =? 0) || negb (size mod kMemoryPageSize =? 0) || (size >? UINT64_MAX) ||
          (bool_decide (usage = AqlRing) && (size >? UINT64_MAX / 2)) then
    give (failure MemoryError.InvalidSize
      "KFD memory allocation size must be a non-zero multiple of 4096 bytes", no_allocation)
  else
  let backing_size := if bool_decide (usage = AqlRing) then u64_mul size 2 else size in
  let alignment_slack := if uses_vram_backing usage then kVramAllocationGranule else 0 in
  if backing_size >?
     u64_sub (u64_sub UINT64_MAX (u64_mul kGuardPageCount kMemoryPageSize)) alignment_slack then
    give (failure MemoryError.InvalidSize
      "KFD memory allocation plus guard pages exceeds the address range", no_allocation)
  else
  let reservation_size :=
    u64_add (u64_add backing_size (u64_mul kGuardPageCount kMemoryPageSize)) alignment_slack in
  if reservation_size >? UINT64_MAX then
    give (failure MemoryError.InvalidSize
      "KFD memory allocation plus guard pages exceeds the host size range", no_allocation)
  else
  allocated ← sys_new;
  if negb allocated then
    give (failure MemoryError.AllocateState "failed to allocate KFD memory GPU mapping state",
      no_allocation)
  else
  reserved ← sys_mmap (reserve_address_space reservation_size);
  match reserved with
  | inl errno =>
      give (system_failure MemoryError.ReserveVa errno "mmap(KFD memory address reservation)",
        no_allocation)
  | inr reservation =>
      allocate_at kfd_fd render_fd aperture size usage backing_size reservation_size reservation
  end.

(** The flags of host memory. *)
Definition userptr_flags : Z :=
  Z.lor (Z.lor (Z.lor (Z.lor KFD_IOC_ALLOC_MEM_FLAGS_USERPTR KFD_IOC_ALLOC_MEM_FLAGS_WRITABLE)
    KFD_IOC_ALLOC_MEM_FLAGS_EXECUTABLE) KFD_IOC_ALLOC_MEM_FLAGS_COHERENT)
    KFD_IOC_ALLOC_MEM_FLAGS_NO_SUBSTITUTE.

(** [allocate_host_memory] behind the host mapping. *)
Definition register_host (kfd_fd : Z) (aperture : ProcessAperture) (address : Z)
    (a : RawMemoryAllocation) : kfd W (MemoryStatus * RawMemoryAllocation) :=
  if (address <? ap_gpuvm_base aperture) || (address >? ap_gpuvm_limit aperture) ||
     (u64_sub (ra_size a) 1 >? u64_sub (ap_gpuvm_limit aperture) address) then
    rollback_host_memory (failure MemoryError.ReserveVa
      "host allocation is outside the KFD GPUVM aperture") kfd_fd a
  else
  errno ← sys_madvise address (ra_size a) MADV_DONTFORK;
  if negb (errno =? 0) then
    rollback_host_memory (system_failure MemoryError.AdviseDontFork errno
      "madvise(KFD USERPTR MADV_DONTFORK)") kfd_fd a
  else
  reply ← invoke_ioctl kfd_fd (ALLOC_MEMORY_OF_GPU
    (mkAllocArguments address (ra_size a) address (ap_gpu_id aperture) userptr_flags));
  if negb (rp_errno reply =? 0) then
    rollback_host_memory (system_failure MemoryError.AllocateMemory (rp_errno reply)
      "AMDKFD_IOC_ALLOC_MEMORY_OF_GPU(USERPTR)") kfd_fd a
  else if rp_handle reply =? 0 then
    rollback_host_memory (failure MemoryError.AllocateMemory
      "KFD returned an invalid zero USERPTR handle") kfd_fd a
  else
  let a := set_handle a (rp_handle reply) in
  '(mapped, a) ← map_memory kfd_fd a (ra_gpu_ids a);
  if negb (status_ok mapped) then rollback_host_memory mapped kfd_fd a else give (no_error, a).

Definition allocate_host_memory (kfd_fd : Z) (aperture : ProcessAperture) (size : Z)
  : kfd W (MemoryStatus * RawMemoryAllocation) :=
  if (kfd_fd <? 0) || (ap_gpu_id aperture =? 0) || negb valid_syscalls then
    give (failure MemoryError.InvalidSession "host allocation requires an acquired KFD VM",
      no_allocation)
  else if (size =? 0) || negb (size mod kMemoryPageSize =? 0) || (size >? UINT64_MAX) then
    give (failure MemoryError.InvalidSize
      "host allocation size must be a non-zero multiple of 4096 bytes", no_allocation)
  else
  allocated ← sys_new;
  if negb allocated then
    give (failure MemoryError.AllocateState "failed to allocate host-memory GPU mapping state",
      no_allocation)
  else
  host ← sys_mmap (mkMmapArguments 0 size (Z.lor PROT_READ PROT_WRITE)
    (Z.lor MAP_SHARED MAP_ANONYMOUS) (-1) 0);
  match host with
  | inl errno =>
      give (system_failure MemoryError.MapHost errno "mmap(KFD USERPTR backing)", no_allocation)
  | inr address =>
      register_host kfd_fd aperture address
        (mkRawAllocation address size address address size 0 [ap_gpu_id aperture] 0 0 false)
  end.
End memory.
