(* ===== verification/KfdMemoryFacts.v ===== *)
(** * KFD memory: every resource is accounted for

    What [KfdMemory] leaves behind, against the ledger of the kernel's laws. *)

From stdpp Require Import gmap fin_maps.
From S2P Require Import Prelude KfdKernel KfdMemory.

Import MemoryAllocationUsage.

(** ** What an allocation holds *)

(** What the pages of the reservation are: the driver's, the process's own, of
    which the buffer is made, or the driver's with a hole in the reservation. *)
Inductive backing := DriverPages | UserPages | TornPages.

Definition pages_of (k : backing) (a : RawMemoryAllocation) : option (Z * Z) :=
  match k with
  | DriverPages | TornPages => None
  | UserPages => Some (ra_reservation_address a, ra_reservation_size a)
  end.

Definition with_range (k : backing) (a : RawMemoryAllocation) (l : ledger) : ledger :=
  if ra_reservation_address a =? 0 then l
  else
    let l := add_range (ra_reservation_address a) (ra_reservation_size a) l in
    match k with
    | TornPages => tear_range (ra_reservation_address a) l
    | _ => l
    end.

Definition with_buffer (k : backing) (a : RawMemoryAllocation) (l : ledger) : ledger :=
  if ra_handle a =? 0 then l
  else add_buffer (ra_handle a)
         (mkBuffer (ra_mapped_device_count a - ra_unmapped_device_count a) (pages_of k a)) l.

(** [l] is the rest [L] and what the allocation [a] says it holds. *)
Record accounted (k : backing) (L : ledger) (a : RawMemoryAllocation) (l : ledger) : Prop := {
  ac_ledger : l = with_buffer k a (with_range k a L);
  ac_fresh : ra_reservation_address a <> 0 ->
    fresh_range L (ra_reservation_address a) (ra_reservation_size a);
  ac_buffer : ra_handle a <> 0 -> lg_buffers L !! ra_handle a = None;
  ac_counts : 0 <= ra_unmapped_device_count a <= ra_mapped_device_count a /\
    ra_mapped_device_count a <= Z.of_nat (length (ra_gpu_ids a));
  ac_mapped : ra_handle a = 0 -> ra_mapped_device_count a = 0;
  ac_user : k = UserPages -> ra_host_address a = ra_reservation_address a /\
    ra_size a = ra_reservation_size a
}.

(** The fields a mapping does not touch. *)
Definition same_place (a b : RawMemoryAllocation) : Prop :=
  ra_reservation_address b = ra_reservation_address a /\
  ra_reservation_size b = ra_reservation_size a /\ ra_host_address b = ra_host_address a /\
  ra_gpu_address b = ra_gpu_address a /\ ra_size b = ra_size a /\ ra_handle b = ra_handle a.

Lemma status_ok_no_error : status_ok no_error = true.
Proof. done. Qed.

Lemma status_ok_false error system_error message :
  error <> MemoryError.None -> status_ok (mkMemoryStatus error system_error message) = false.
Proof. intros H. by apply bool_decide_eq_false. Qed.

(** An allocation that holds nothing leaves the rest. *)
Lemma accounted_nothing k L l : accounted k L no_allocation l <-> l = L.
Proof.
  split; [by intros []|]. intros ->. split; try done.
Qed.

Lemma accounted_handle k L a l :
  accounted k L a l -> ra_handle a <> 0 ->
  lg_buffers l !! ra_handle a =
    Some (mkBuffer (ra_mapped_device_count a - ra_unmapped_device_count a) (pages_of k a)).
Proof.
  intros [-> _ _ _ _ _] Hh. unfold with_buffer. apply Z.eqb_neq in Hh. rewrite Hh.
  apply lookup_insert_eq.
Qed.

Lemma accounted_range k L a l :
  accounted k L a l -> ra_reservation_address a <> 0 ->
  lg_ranges l !! ra_reservation_address a = Some (ra_reservation_size a).
Proof.
  intros [-> _ _ _ _ _] Hr. unfold with_buffer, with_range. apply Z.eqb_neq in Hr. rewrite Hr.
  destruct k, (ra_handle a =? 0); simpl; apply lookup_insert_eq.
Qed.

(** A change of the mapping's progress, with the live mappings in step. *)
Lemma accounted_progress k L a l gpu_ids mapped unmapped complete :
  accounted k L a l -> ra_handle a <> 0 ->
  0 <= unmapped <= mapped -> mapped <= Z.of_nat (length gpu_ids) ->
  accounted k L (set_mapping a gpu_ids mapped unmapped complete)
    (add_buffer (ra_handle a) (mkBuffer (mapped - unmapped) (pages_of k a)) l).
Proof.
  intros [-> Hr Hb Hc Hm Hus] Hh H1 H2. split; cbn; try done.
  unfold with_buffer, with_range. cbn. apply Z.eqb_neq in Hh as He. rewrite He.
  rewrite add_buffer_twice. by destruct k.
Qed.

Lemma with_memory_queues k a L : lg_queues (with_buffer k a (with_range k a L)) = lg_queues L.
Proof. unfold with_buffer, with_range. by repeat case_match. Qed.

Lemma with_range_buffers k a L : lg_buffers (with_range k a L) = lg_buffers L.
Proof. unfold with_range. by repeat case_match. Qed.

Lemma accounted_unused k L a l :
  k <> UserPages -> accounted k L a l -> ra_reservation_address a <> 0 ->
  unused l (ra_reservation_address a) (ra_reservation_size a).
Proof.
  intros Hk [-> Hu _ _ _ _] Hr. specialize (Hu Hr) as [_ _ [Hb Hq] _ _]. split.
  - intros handle b start size. unfold with_buffer. case_match; cbn; rewrite with_range_buffers; [eauto|].
    intros [[_ <-]|[_ Ho]]%lookup_insert_Some; [by destruct k|eauto].
  - intros q used. rewrite with_memory_queues. apply Hq.
Qed.

(** No other allocation stands in the way of unmapping the reservation. *)
Lemma accounted_alone k L a l :
  accounted k L a l -> ra_reservation_address a <> 0 ->
  alone l (ra_reservation_address a) (ra_reservation_size a).
Proof.
  intros [-> Hf _ _ _ _] Hr start size. specialize (Hf Hr) as [_ _ _ Ha _]. apply Z.eqb_neq in Hr as He.
  unfold with_buffer, with_range. rewrite He.
  destruct k; case_match; cbn; intros [[<- _]|[_ Hs]]%lookup_insert_Some; try lia; by eapply Ha.
Qed.

(** A window behind the first page of a reservation. *)
Lemma accounted_inner k L a address length l :
  k <> UserPages -> accounted k L a l -> ra_reservation_address a <> 0 ->
  ra_reservation_address a < address -> 0 < length ->
  address + length <= ra_reservation_address a + ra_reservation_size a ->
  inner l (ra_reservation_address a) address length.
Proof.
  intros Hk Ha Hr H1 H2 H3. eapply alone_inner; [by eapply accounted_range| | |done..].
  - by eapply accounted_alone.
  - by eapply accounted_unused.
Qed.

Section facts.
Context {W : Type} `{!Kernel W, !KernelLaws W}.

(** ** Unmapping and mapping *)

Lemma unmap_memory_accounts k L fd a w :
  accounted k L a (ledger_of w) ->
  wp (unmap_memory fd a) (fun '(status, b) w' =>
    accounted k L b (ledger_of w') /\ same_place a b /\
    (status_ok status = true -> ra_mapped_device_count b = 0 /\ ra_unmapped_device_count b = 0)) w.
Proof.
  intros Ha. pose proof (ac_counts _ _ _ _ Ha) as Hc. unfold unmap_memory.
  destruct (Z.eqb_spec (ra_mapped_device_count a) 0) as [Hm|Hm].
  { apply wp_give. split; [|done]. destruct (decide (ra_handle a = 0)) as [Hh|Hh].
    - destruct Ha as [-> Hr Hb _ _ Hus]. split; cbn; try done.
      unfold with_buffer. cbn. by rewrite Hh.
    - replace (ledger_of w) with (add_buffer (ra_handle a) (mkBuffer (0 - 0) (pages_of k a)) (ledger_of w)).
      + apply accounted_progress; [done|done|lia|simpl; lia].
      + unfold add_buffer. rewrite insert_id; [apply set_buffers_id|].
        rewrite (accounted_handle _ _ _ _ Ha Hh). do 2 f_equal. lia. }
  wp_if as G1; [by apply wp_give|].
  wp_if as G2; [by apply wp_give|].
  assert (ra_handle a <> 0) as Hh by lia.
  apply wp_bind. eapply wp_unmap; [exact (accounted_handle _ _ _ _ Ha Hh)|lia|].
  intros reply w' Hk Hw. apply wp_give. cbn [bf_live bf_pages] in Hw. unfold unmap_outcome. cbv zeta.
  destruct (rp_n_success reply >? _) eqn:G3; [lia|]. destruct (rp_n_success reply <? _) eqn:G4; [lia|].
  replace (ra_mapped_device_count a - ra_unmapped_device_count a -
    (rp_n_success reply - ra_unmapped_device_count a))
    with (ra_mapped_device_count a - rp_n_success reply) in Hw by lia.
  repeat case_match; cbn [negb] in *; simplify_eq; try done; rewrite Hw.
  - split; [apply accounted_progress; [done|done|lia|lia]|done].
  - split; [apply accounted_progress; [done|done|lia|lia]|done].
  - split; [|done]. replace (ra_mapped_device_count a - rp_n_success reply) with (0 - 0) by lia.
    apply accounted_progress; [done|done|lia|simpl; lia].
Qed.

Lemma map_devices_accounts k L fd a w :
  accounted k L a (ledger_of w) -> ra_handle a <> 0 -> ra_unmapped_device_count a = 0 ->
  Z.of_nat (length (ra_gpu_ids a)) <= UINT32_MAX ->
  wp (map_devices fd a) (fun '(status, b) w' =>
    accounted k L b (ledger_of w') /\ same_place a b /\ ra_gpu_ids b = ra_gpu_ids a /\
    (status_ok status = true -> ra_map_complete b = true /\ ra_unmapped_device_count b = 0 /\
       ra_mapped_device_count b = Z.of_nat (length (ra_gpu_ids b)))) w.
Proof.
  intros Ha Hh Hu Hlen. pose proof (ac_counts _ _ _ _ Ha) as Hc. unfold map_devices. cbv zeta.
  rewrite to_u32_small by lia. wp_if as G1; [by apply wp_give|].
  wp_if as G2; [apply wp_give|].
  { apply andb_true_iff in G2 as [G2 G3]. split_and!; [done..|]. intros _. split_and!; [done|done|lia]. }
  apply wp_bind. eapply wp_map; [exact (accounted_handle _ _ _ _ Ha Hh)|lia|].
  intros reply w' Hk Hw. apply wp_give. cbn [bf_live bf_pages] in Hw. unfold map_outcome. cbv zeta.
  destruct (rp_n_success reply >? _) eqn:G3; [lia|]. destruct (rp_n_success reply <? _) eqn:G4; [lia|].
  replace (ra_mapped_device_count a - ra_unmapped_device_count a +
    (rp_n_success reply - ra_mapped_device_count a))
    with (rp_n_success reply - ra_unmapped_device_count a) in Hw by lia.
  assert (forall complete, accounted k L (set_mapping a (ra_gpu_ids a) (rp_n_success reply)
    (ra_unmapped_device_count a) complete) (ledger_of w')) as Hacc.
  { intros complete. rewrite Hw. apply accounted_progress; [done|done|lia|lia]. }
  repeat case_match; cbn [negb] in *; simplify_eq; try done; split_and!; try done; try apply Hacc.
  intros _. cbn. split_and!; [done|done|lia].
Qed.

Lemma check_gpu_ids_fails earlier ids status :
  check_gpu_ids earlier ids = Some status -> status_ok status = false.
Proof.
  revert earlier. induction ids as [|id ids IH]; intros earlier; cbn; [done|].
  destruct (id =? 0); [by intros [= <-]|]. destruct (existsb _ _); [by intros [= <-]|apply IH].
Qed.

Lemma map_memory_accounts k L fd a w :
  accounted k L a (ledger_of w) -> ra_gpu_ids a <> [] ->
  wp (map_memory fd a (ra_gpu_ids a)) (fun '(status, b) w' =>
    accounted k L b (ledger_of w') /\ same_place a b /\ ra_gpu_ids b = ra_gpu_ids a /\
    (status_ok status = true -> ra_map_complete b = true /\ ra_unmapped_device_count b = 0 /\
       ra_mapped_device_count b = Z.of_nat (length (ra_gpu_ids b)))) w.
Proof.
  intros Ha Hids. unfold map_memory.
  wp_if as G1; [by apply wp_give|].
  wp_if as G2; [by apply wp_give|].
  destruct (check_gpu_ids [] (ra_gpu_ids a)) as [status|] eqn:Gc.
  { apply wp_give. split_and!; [done..|]. by rewrite (check_gpu_ids_fails _ _ _ Gc). }
  rewrite bool_decide_eq_false_2 by done.
  wp_if as G3; [by apply wp_give|].
  apply map_devices_accounts; [done|lia|lia|lia].
Qed.

(** ** Release *)

(** Dropping the reservation, or the buffer, from the account. *)
Lemma remove_fresh_range k a L :
  ra_reservation_address a <> 0 -> fresh_range L (ra_reservation_address a) (ra_reservation_size a) ->
  remove_range (ra_reservation_address a) (with_range k a L) = L.
Proof.
  intros H [Hn Hw _ _ _]. unfold with_range. apply Z.eqb_neq in H. rewrite H. unfold remove_range.
  replace (delete _ _) with (lg_ranges L).
  - replace (_ ∖ _) with (lg_torn L); [by destruct k, L|]. destruct k; cbn; set_solver.
  - destruct k; cbn; by rewrite delete_insert_id.
Qed.

Lemma accounted_drop_range k L a l :
  k <> UserPages -> accounted k L a l -> ra_reservation_address a <> 0 ->
  accounted k L (drop_reservation a) (remove_range (ra_reservation_address a) l).
Proof.
  intros Hk [-> Hr Hb Hc Hm Hus] H. split; cbn; try done.
  transitivity (with_buffer k a (remove_range (ra_reservation_address a) (with_range k a L))).
  { unfold with_buffer. by destruct (ra_handle a =? 0). }
  rewrite remove_fresh_range by auto. unfold with_buffer. by destruct k.
Qed.

Lemma accounted_drop_buffer k L a l :
  accounted k L a l -> ra_handle a <> 0 -> ra_mapped_device_count a = 0 ->
  accounted k L (set_handle a 0) (remove_buffer (ra_handle a) l).
Proof.
  intros [-> Hr Hb Hc Hm Hus] H H0. split; cbn; try done.
  unfold with_buffer. cbn. apply Z.eqb_neq in H as He. rewrite He.
  by rewrite remove_add_buffer by (rewrite with_range_buffers; auto).
Qed.

Lemma free_handle_accounts k L fd a operation w :
  accounted k L a (ledger_of w) -> ra_mapped_device_count a = 0 ->
  wp (free_handle fd (ra_handle a) operation) (fun r w' =>
    match r with
    | Some status => status_ok status = false /\ accounted k L a (ledger_of w')
    | None => accounted k L (set_handle a 0) (ledger_of w')
    end) w.
Proof.
  intros Ha Hm. pose proof (ac_counts _ _ _ _ Ha) as Hc. unfold free_handle.
  destruct (Z.eqb_spec (ra_handle a) 0) as [Hh|Hh].
  { apply wp_give. rewrite <-Hh. by destruct a. }
  apply wp_bind. eapply wp_free; [exact (accounted_handle _ _ _ _ Ha Hh)|cbn; lia|].
  intros reply w' Hw. apply wp_give. destruct (rp_errno reply =? 0); rewrite Hw.
  - by apply accounted_drop_buffer.
  - done.
Qed.

Lemma unmap_reservation_accounts k L a operation w :
  k <> UserPages -> accounted k L a (ledger_of w) ->
  wp (unmap_reservation a operation) (fun r w' =>
    match r with
    | Some status => status_ok status = false /\ accounted k L a (ledger_of w')
    | None => accounted k L (if ra_reservation_address a =? 0 then a else drop_reservation a)
        (ledger_of w')
    end) w.
Proof.
  intros Hk Ha. unfold unmap_reservation.
  destruct (Z.eqb_spec (ra_reservation_address a) 0) as [Hr|Hr]; [by apply wp_give|].
  apply wp_bind, wp_munmap;
    [exact (accounted_range _ _ _ _ Ha Hr)|by apply (accounted_alone k L)|by eapply accounted_unused|].
  intros errno w' Hw. apply wp_give. destruct (errno =? 0); rewrite Hw; [|done].
  by apply accounted_drop_range.
Qed.

(** What is left when neither part is. *)
Lemma accounted_empty k L a l :
  accounted k L a l -> ra_reservation_address a = 0 -> ra_handle a = 0 ->
  accounted k L no_allocation l.
Proof.
  intros [-> _ _ _ _ _] Hr Hh. apply accounted_nothing. unfold with_buffer, with_range.
  by rewrite Hr, Hh.
Qed.

(** The contract of a release: the account stays right, and success leaves
    nothing. *)
Definition releases (k : backing) (L : ledger) (r : MemoryStatus * RawMemoryAllocation) (w : W) : Prop :=
  accounted k L r.2 (ledger_of w) /\
  (status_ok r.1 = true -> ra_reservation_address r.2 = 0 /\ ra_handle r.2 = 0 /\ ledger_of w = L).

Lemma releases_failed k L status b w :
  status_ok status = false -> accounted k L b (ledger_of w) -> releases k L (status, b) w.
Proof. intros Hst Hb. split; [done|]. cbn. by rewrite Hst. Qed.

Lemma releases_done k L b w :
  accounted k L b (ledger_of w) -> ra_reservation_address b = 0 -> ra_handle b = 0 ->
  releases k L (no_error, no_allocation) w.
Proof.
  intros Hb Hr Hh. apply accounted_empty in Hb; [|done..]. split; [done|]. intros _.
  split_and!; [done..|]. by apply accounted_nothing in Hb.
Qed.

Lemma releases_nothing k L a w :
  accounted k L a (ledger_of w) -> holds_nothing a = true -> releases k L (no_error, a) w.
Proof.
  intros Ha G. unfold holds_nothing in G. split; [done|]. intros _.
  assert (ra_reservation_address a = 0) as Hr by lia. assert (ra_handle a = 0) as Hh by lia.
  split_and!; [done..|]. by apply (accounted_nothing k), (accounted_empty _ _ _ _ Ha).
Qed.

Lemma release_memory_accounts k L fd a w :
  k <> UserPages -> accounted k L a (ledger_of w) -> wp (release_memory fd a) (releases k L) w.
Proof.
  intros Hk Ha. unfold release_memory.
  wp_if as G1; [by apply wp_give, releases_nothing|].
  wp_if as G2; [by apply wp_give, releases_failed|].
  apply wp_bind. eapply wp_mono; [by apply unmap_memory_accounts|].
  intros [unmapped b] w1 (Hb & Hplace & Hun).
  destruct (status_ok unmapped) eqn:Hst; cbn [negb]; [|by apply wp_give, releases_failed].
  destruct (Hun eq_refl) as [Hm _].
  apply wp_bind. eapply wp_mono; [by apply unmap_reservation_accounts|].
  intros [status|] w2; [intros [Hf Hb2]; by apply wp_give, releases_failed|].
  intros Hb2. set (c := if ra_reservation_address b =? 0 then b else drop_reservation b) in *.
  assert (ra_mapped_device_count c = 0 /\ ra_reservation_address c = 0) as [Hmc Hrc].
  { unfold c. destruct (Z.eqb_spec (ra_reservation_address b) 0); done. }
  cbv zeta. apply wp_bind. eapply wp_mono; [by apply free_handle_accounts|].
  intros [status|] w3; [intros [Hf Hb3]; by apply wp_give, releases_failed|].
  intros Hb3. by eapply wp_give, releases_done.
Qed.

(** Once the buffer is gone its pages are free. *)
Lemma accounted_user_range L a l :
  accounted UserPages L a l -> ra_handle a = 0 -> accounted DriverPages L a l.
Proof.
  intros [-> Hr Hb Hc Hm Hus] Hh. split; try done. unfold with_buffer. by rewrite Hh.
Qed.

Lemma release_host_memory_accounts L fd a w :
  accounted UserPages L a (ledger_of w) -> wp (release_host_memory fd a) (releases UserPages L) w.
Proof.
  intros Ha. unfold release_host_memory.
  wp_if as G1; [by apply wp_give, releases_nothing|].
  wp_if as G2; [by apply wp_give, releases_failed|].
  apply wp_bind. eapply wp_mono; [by apply unmap_memory_accounts|].
  intros [unmapped b] w1 (Hb & Hplace & Hun).
  destruct (status_ok unmapped) eqn:Hst; cbn [negb]; [|by apply wp_give, releases_failed].
  destruct (Hun eq_refl) as [Hm _].
  apply wp_bind. eapply wp_mono; [by apply free_handle_accounts|].
  intros [status|] w2; [intros [Hf Hb2]; by apply wp_give, releases_failed|].
  intros Hb2. cbv zeta. set (c := set_handle b 0) in *.
  apply wp_bind. eapply wp_mono; [by apply unmap_reservation_accounts, accounted_user_range|].
  intros [status|] w3; cbn beta.
  - intros [Hf Hb3]. apply wp_give, releases_failed; [done|]. destruct Hb3 as [Hl Hr Hbu Hc Hmm _].
    pose proof (ac_user _ _ _ _ Hb2). by split.
  - intros Hb3. apply wp_give, (releases_done UserPages L no_allocation); [|done..].
    apply accounted_nothing. apply accounted_empty in Hb3; [by apply accounted_nothing in Hb3|..];
      destruct (Z.eqb_spec (ra_reservation_address c) 0); done.
Qed.

(** ** Allocation *)

(** The contract of an allocation: the account is right whatever happens, and
    success gives what was asked for. *)
Definition allocates (k : backing) (L : ledger) (P : RawMemoryAllocation -> Prop)
    (r : MemoryStatus * RawMemoryAllocation) (w : W) : Prop :=
  accounted k L r.2 (ledger_of w) /\ (status_ok r.1 = true -> P r.2).

Lemma allocates_failed k L P status b w :
  status_ok status = false -> accounted k L b (ledger_of w) -> allocates k L P (status, b) w.
Proof. intros Hst Hb. split; [done|]. cbn. by rewrite Hst. Qed.

Lemma status_ok_append_cleanup status cleanup :
  status_ok (append_cleanup status cleanup) = status_ok status.
Proof. unfold append_cleanup. by destruct (status_ok cleanup). Qed.

Lemma rollback_memory_accounts L P status fd a w :
  status_ok status = false -> accounted DriverPages L a (ledger_of w) ->
  wp (rollback_memory status fd a) (allocates DriverPages L P) w.
Proof.
  intros Hst Ha. apply wp_bind. eapply wp_mono; [by apply (release_memory_accounts DriverPages)|].
  intros [cleanup b] w' [Hb _]. apply wp_give, allocates_failed; [|done].
  by rewrite status_ok_append_cleanup.
Qed.

Lemma rollback_host_memory_accounts L P status fd a w :
  status_ok status = false -> accounted UserPages L a (ledger_of w) ->
  wp (rollback_host_memory status fd a) (allocates UserPages L P) w.
Proof.
  intros Hst Ha. apply wp_bind. eapply wp_mono; [by apply release_host_memory_accounts|].
  intros [cleanup b] w' [Hb _]. apply wp_give, allocates_failed; [|done].
  by rewrite status_ok_append_cleanup.
Qed.

(** The bytes of address space behind an allocation: a ring is backed twice. *)
Definition backing_bytes (usage : MemoryAllocationUsage.t) (size : Z) : Z :=
  if bool_decide (usage = AqlRing) then size * 2 else size.

Definition alignment_of (usage : MemoryAllocationUsage.t) : Z :=
  if uses_vram_backing usage then kVramAllocationGranule else kMemoryPageSize.

(** Where the GPU sees the allocation: inside the aperture, aligned, and a guard
    page away from both ends of the reservation. *)
Definition well_placed (aperture : ProcessAperture) (usage : MemoryAllocationUsage.t) (size : Z)
    (a : RawMemoryAllocation) : Prop :=
  ra_reservation_address a + kMemoryPageSize <= ra_gpu_address a /\
  ra_gpu_address a + backing_bytes usage size + kMemoryPageSize <=
    ra_reservation_address a + ra_reservation_size a /\
  ap_gpuvm_base aperture <= ra_gpu_address a /\
  ra_gpu_address a + backing_bytes usage size - 1 <= ap_gpuvm_limit aperture /\
  ra_gpu_address a mod alignment_of usage = 0 /\ ra_size a = size.

Record allocated (aperture : ProcessAperture) (usage : MemoryAllocationUsage.t) (size : Z)
    (a : RawMemoryAllocation) : Prop := {
  ad_placed : well_placed aperture usage size a;
  ad_reserved : 0 < ra_reservation_address a;
  ad_handle : ra_handle a <> 0;
  ad_gpu : ra_gpu_ids a = [ap_gpu_id aperture];
  ad_host : ra_host_address a =
    if bool_decide (usage = DeviceVram) then 0 else ra_gpu_address a;
  ad_mapped : usage <> Doorbell -> ra_map_complete a = true /\ ra_mapped_device_count a = 1 /\
    ra_unmapped_device_count a = 0
}.

Lemma round_up_spec value alignment_bits :
  0 <= alignment_bits <= 32 -> 0 <= value -> value + 2 ^ alignment_bits - 1 < U64_MOD ->
  value <= round_up value (2 ^ alignment_bits) < value + 2 ^ alignment_bits /\
  round_up value (2 ^ alignment_bits) mod 2 ^ alignment_bits = 0.
Proof.
  intros Hk Hv Hr. assert (0 < 2 ^ alignment_bits <= 2 ^ 32) as Hp.
  { split; [apply Z.pow_pos_nonneg; lia|apply Z.pow_le_mono_r; lia]. }
  unfold round_up. assert (u64_sub (u64_add value (2 ^ alignment_bits)) 1 =
    value + 2 ^ alignment_bits - 1) as ->.
  { unfold u64_sub, u64_add, to_u64. rewrite Zminus_mod_idemp_l. apply Z.mod_small. lia. }
  replace (UINT64_MAX - (2 ^ alignment_bits - 1)) with (2 ^ 64 - 2 ^ alignment_bits) by lia.
  rewrite land_high_mask by lia. set (p := 2 ^ alignment_bits) in *.
  rewrite Z.mod_mul by lia. pose proof (Z.div_mod (value + p - 1) p ltac:(lia)).
  pose proof (Z.mod_pos_bound (value + p - 1) p ltac:(lia)). nia.
Qed.

(** The address arithmetic of [allocate_memory] behind its guards. *)
Lemma host_address_placed usage reservation :
  let slack := if uses_vram_backing usage then kVramAllocationGranule else 0 in
  let first_usable := u64_add reservation kMemoryPageSize in
  let host := if uses_vram_backing usage then round_up first_usable kVramAllocationGranule
              else first_usable in
  0 < reservation < U64_MOD -> reservation mod 4096 = 0 ->
  (reservation >? u64_sub (u64_sub UINT64_MAX kMemoryPageSize)
     (if uses_vram_backing usage then kVramAllocationGranule - 1 else 0)) = false ->
  reservation + kMemoryPageSize <= host <= reservation + kMemoryPageSize + slack /\
  host mod alignment_of usage = 0 /\ is_u64 host.
Proof.
  unfold alignment_of, kMemoryPageSize, kVramAllocationGranule. cbv zeta. intros Hr Hmod Hg.
  destruct (uses_vram_backing usage).
  - change (u64_sub (u64_sub UINT64_MAX 4096) (2 * 1024 * 1024 - 1)) with 18446744073707450368 in Hg.
    rewrite u64_add_small by lia. change (2 * 1024 * 1024) with (2 ^ 21).
    destruct (round_up_spec (reservation + 4096) 21) as [H1 H2]; [lia..|].
    change (2 ^ 21) with 2097152 in *. split_and!; [lia|lia|done|lia|lia].
  - change (u64_sub (u64_sub UINT64_MAX 4096) 0) with 18446744073709547519 in Hg.
    rewrite u64_add_small by lia. split_and!; [lia|lia| |lia|lia]. zlia.
Qed.

Lemma accounted_inside k L a l address length :
  accounted k L a l -> ra_reservation_address a <> 0 -> ra_reservation_address a <= address ->
  address + length <= ra_reservation_address a + ra_reservation_size a -> inside l address length.
Proof.
  intros Ha Hr H1 H2. exists (ra_reservation_address a), (ra_reservation_size a).
  split; [by eapply accounted_range|lia].
Qed.

Lemma accounted_host_address L a host l :
  accounted DriverPages L a l -> accounted DriverPages L (set_host_address a host) l.
Proof. intros [-> Hr Hb Hc Hm Hus]. by split. Qed.

Lemma map_host_accounts fd usage host size offset start w :
  inner (ledger_of w) start host size ->
  wp (map_host usage fd host size offset) (fun r w' =>
    ledger_of w' = ledger_of w /\
    match r with Some status => status_ok status = false | None => True end) w.
Proof.
  intros Hin. unfold map_host. wp_if as G1; [by apply wp_give|].
  wp_if as G2; [by apply wp_give|]. cbv zeta. eapply wp_bind, wp_mmap_fixed; [done|done|].
  intros r w' Hw _. apply wp_give. by destruct r.
Qed.

(** The allocation between its two halves: reserved and backed, not mapped. *)
Record backed (aperture : ProcessAperture) (usage : MemoryAllocationUsage.t) (size : Z)
    (a : RawMemoryAllocation) : Prop := {
  bk_placed : well_placed aperture usage size a;
  bk_size : 0 < size <= backing_bytes usage size;
  bk_reserved : 0 < ra_reservation_address a;
  bk_handle : ra_handle a <> 0;
  bk_host : ra_host_address a = 0;
  bk_gpu : ra_gpu_ids a = [ap_gpu_id aperture]
}.

Lemma map_allocation_accounts L aperture fd render_fd usage size offset a w :
  accounted DriverPages L a (ledger_of w) -> backed aperture usage size a ->
  wp (map_allocation fd render_fd usage offset (ra_gpu_address a) a)
    (allocates DriverPages L (allocated aperture usage size)) w.
Proof.
  intros Ha [Hpl Hsz Hr Hh Hho Hg]. pose proof Hpl as (P1 & P2 & _ & _ & _ & Psize).
  unfold kMemoryPageSize in *.
  assert (inside (ledger_of w) (ra_gpu_address a) (ra_size a)) as Hin.
  { eapply accounted_inside; [exact Ha|lia|lia|lia]. }
  assert (inner (ledger_of w) (ra_reservation_address a) (ra_gpu_address a) (ra_size a)) as Hinner.
  { eapply accounted_inner; [|exact Ha|lia|lia|lia|lia]. done. }
  unfold map_allocation. apply wp_bind. eapply wp_mono; [by eapply map_host_accounts|].
  intros [status|] w1 [Hw1 Hst]; rewrite <-Hw1 in Ha, Hin; [by apply rollback_memory_accounts|].
  cbv zeta. set (b := if bool_decide _ then a else _).
  assert (accounted DriverPages L b (ledger_of w1)) as Hb.
  { unfold b. destruct (bool_decide _); [done|]. by apply accounted_host_address. }
  assert (ra_size b = ra_size a) as Hbs by (unfold b; by destruct (bool_decide _)).
  rewrite Hbs. apply wp_bind, wp_madvise; [done|]. intros errno w2 Hw2. rewrite <-Hw2 in Hb.
  destruct (errno =? 0); cbn [negb]; [|by apply rollback_memory_accounts].
  assert (ra_gpu_ids b = [ap_gpu_id aperture]) as Hbg.
  { unfold b. by destruct (bool_decide _). }
  assert (forall c, same_place b c -> ra_gpu_ids c = ra_gpu_ids b ->
    (usage <> Doorbell -> ra_map_complete c = true /\ ra_mapped_device_count c = 1 /\
       ra_unmapped_device_count c = 0) -> allocated aperture usage size c) as Hdone.
  { intros c (E1 & E2 & E3 & E4 & E5 & E6) Ec Hmap. split; [| | |congruence| |done].
    - unfold well_placed. rewrite E1, E2, E4, E5. unfold b. by destruct (bool_decide _).
    - rewrite E1. unfold b. destruct (bool_decide _); cbn; lia.
    - rewrite E6. unfold b. by destruct (bool_decide _).
    - rewrite E3, E4. unfold b. by destruct (bool_decide (usage = DeviceVram)). }
  case_bool_decide as Hdoor.
  { apply wp_give. split; [done|]. intros _. by apply Hdone. }
  apply wp_bind. eapply wp_mono; [apply map_memory_accounts; [done|by rewrite Hbg]|].
  intros [gpu_mapped c] w3 (Hc & Hplace & Hids & Hmap).
  destruct (status_ok gpu_mapped) eqn:Hgm; cbn [negb]; [|by apply rollback_memory_accounts].
  apply wp_give. split; [done|]. intros _. destruct (Hmap eq_refl) as (M1 & M2 & M3).
  rewrite Hids, Hbg in M3. by apply Hdone.
Qed.

Lemma allocation_flags_pages usage : Z.testbit (allocation_flags usage) 2 = false.
Proof. by destruct usage. Qed.

Lemma allocate_at_accounts L aperture fd render_fd usage size reservation_size reservation w :
  0 < reservation < U64_MOD -> reservation mod 4096 = 0 ->
  is_u64 (ap_gpuvm_limit aperture) -> 0 < size ->
  backing_bytes usage size + 2 * kMemoryPageSize +
    (if uses_vram_backing usage then kVramAllocationGranule else 0) <= reservation_size < U64_MOD ->
  fresh_range L reservation reservation_size ->
  ledger_of w = add_range reservation reservation_size L ->
  wp (allocate_at fd render_fd aperture size usage (backing_bytes usage size) reservation_size
    reservation) (allocates DriverPages L (allocated aperture usage size)) w.
Proof.
  intros Hres Hmod Hlim Hsize Hrs Hfresh Hw. unfold allocate_at. cbv zeta.
  assert (forall host, accounted DriverPages L (mkRawAllocation reservation reservation_size 0 host
    size 0 [ap_gpu_id aperture] 0 0 false) (ledger_of w)) as Hacc.
  { intros host. split; cbn; try done. rewrite Hw. unfold with_buffer, with_range. cbn.
    by replace (reservation =? 0) with false by lia. }
  assert (0 < size <= backing_bytes usage size) as Hb.
  { unfold backing_bytes. destruct (bool_decide _); lia. }
  wp_if as G1; [by apply rollback_memory_accounts|].
  destruct (host_address_placed usage reservation Hres Hmod G1) as (Hhost & Halign & Hu).
  set (host := if uses_vram_backing usage then round_up _ _ else _) in *.
  wp_if as G2; [by apply rollback_memory_accounts|].
  unfold kMemoryPageSize, kVramAllocationGranule in *.
  assert (backing_bytes usage size < U64_MOD) as Hbu by (destruct (uses_vram_backing usage); lia).
  rewrite (u64_sub_small (backing_bytes usage size) 1) in G2 by lia.
  rewrite (u64_sub_small UINT64_MAX) in G2 by lia.
  assert (host + (backing_bytes usage size - 1) <= UINT64_MAX) as Hend by lia.
  assert (u64_sub (u64_add host (backing_bytes usage size)) 1 = host + backing_bytes usage size - 1)
    as Hlast.
  { unfold u64_sub, u64_add, to_u64. rewrite Zminus_mod_idemp_l. apply Z.mod_small. lia. }
  rewrite Hlast in G2. clear Hlast.
  assert (host + backing_bytes usage size + 4096 <= reservation + reservation_size) as Hguard.
  { destruct (uses_vram_backing usage); lia. }
  apply wp_bind, wp_alloc.
  { rewrite Hw. exists reservation, reservation_size. cbn. split; [apply lookup_insert_eq|lia]. }
  intros reply w1 Hhd Hoff Hl. cbn [al_va_addr al_size] in Hl.
  destruct (rp_errno reply =? 0); cbn [negb andb] in *;
    [|rewrite <-Hl in Hacc; by apply rollback_memory_accounts].
  destruct (Z.eqb_spec (rp_handle reply) 0) as [Hz|Hz]; cbn [negb] in *;
    [rewrite <-Hl in Hacc; by apply rollback_memory_accounts|].
  destruct Hl as [Hnew Hl]. apply map_allocation_accounts.
  - specialize (Hacc host) as [Hl0 A1 _ _ _ _]. cbn in A1. split; cbn; try done.
    + unfold user_pages in Hl. cbn [al_flags] in Hl. rewrite allocation_flags_pages in Hl.
      rewrite Hl, Hl0. unfold with_buffer, with_range. cbn. apply Z.eqb_neq in Hz. by rewrite Hz.
    + intros _. by rewrite Hw in Hnew.
  - split; cbn; try done; [|lia]. unfold well_placed, kMemoryPageSize. cbn. split_and!; try lia; done.
Qed.

Lemma allocate_memory_accounts L aperture fd render_fd usage size w :
  is_u64 (ap_gpuvm_limit aperture) -> is_u64 size -> ledger_of w = L ->
  wp (allocate_memory fd render_fd aperture size usage)
    (allocates DriverPages L (allocated aperture usage size)) w.
Proof.
  intros Hlim Hsz Hw. assert (forall status w', status_ok status = false -> ledger_of w' = L ->
    allocates DriverPages L (allocated aperture usage size) (status, no_allocation) w') as Hfail.
  { intros status w' Hst Hl. apply allocates_failed; [done|]. by apply accounted_nothing. }
  unfold allocate_memory. wp_if as G1; [by apply wp_give, Hfail|].
  wp_if as G2; [by apply wp_give, Hfail|]. cbv zeta.
  assert ((if bool_decide (usage = AqlRing) then u64_mul size 2 else size) = backing_bytes usage size)
    as Hback.
  { unfold backing_bytes. case_bool_decide; [|done]. apply u64_mul_small. cbn in G2. zlia. }
  rewrite Hback. wp_if as G3; [by apply wp_give, Hfail|].
  wp_if as G4; [by apply wp_give, Hfail|]. apply wp_bind, wp_new. intros b w1 Hw1.
  rewrite Hw in Hw1. destruct b; cbn [negb]; [|by apply wp_give, Hfail].
  apply wp_bind, wp_mmap_new; [done| |].
  { intros errno w2 Hw2. apply wp_give, Hfail; [done|congruence]. }
  intros reservation w2 Hr Hmod Hfresh Hw2. rewrite Hw1 in *. cbn [mm_length reserve_address_space] in *.
  change (u64_mul kGuardPageCount kMemoryPageSize) with 8192 in *.
  unfold kVramAllocationGranule in *.
  assert (0 < backing_bytes usage size) as Hpos.
  { unfold backing_bytes. destruct (bool_decide (usage = AqlRing)); lia. }
  apply allocate_at_accounts; try done; [lia|]. unfold kMemoryPageSize, kVramAllocationGranule.
  revert G3. destruct (uses_vram_backing usage); intros G3.
  - change (u64_sub (u64_sub UINT64_MAX 8192) (2 * 1024 * 1024)) with 18446744073707446271 in G3.
    rewrite (u64_add_small (backing_bytes usage size)), u64_add_small by lia. lia.
  - change (u64_sub (u64_sub UINT64_MAX 8192) 0) with 18446744073709543423 in G3.
    rewrite (u64_add_small (backing_bytes usage size)), u64_add_small by lia. lia.
Qed.

(** ** Host memory *)

(** Host memory is its own reservation. *)
Record host_allocated (aperture : ProcessAperture) (size : Z) (a : RawMemoryAllocation) : Prop := {
  ha_place : ra_host_address a = ra_reservation_address a /\ ra_gpu_address a = ra_reservation_address a /\
    ra_reservation_size a = size /\ ra_size a = size;
  ha_aperture : ap_gpuvm_base aperture <= ra_gpu_address a /\
    ra_gpu_address a + size - 1 <= ap_gpuvm_limit aperture;
  ha_aligned : ra_gpu_address a mod kMemoryPageSize = 0;
  ha_reserved : ra_reservation_address a <> 0;
  ha_handle : ra_handle a <> 0;
  ha_mapped : ra_gpu_ids a = [ap_gpu_id aperture] /\ ra_map_complete a = true /\
    ra_mapped_device_count a = 1 /\ ra_unmapped_device_count a = 0
}.

Lemma register_host_accounts L aperture fd address size w :
  0 < address < U64_MOD -> address mod 4096 = 0 -> is_u64 (ap_gpuvm_limit aperture) ->
  0 < size < U64_MOD -> fresh_range L address size ->
  ledger_of w = add_range address size L ->
  wp (register_host fd aperture address
        (mkRawAllocation address size address address size 0 [ap_gpu_id aperture] 0 0 false))
    (allocates UserPages L (host_allocated aperture size)) w.
Proof.
  intros Haddr Hmod Hlim Hsize Hfresh Hw. set (a := mkRawAllocation _ _ _ _ _ _ _ _ _ _).
  assert (accounted UserPages L a (ledger_of w)) as Ha.
  { split; cbn; try done. rewrite Hw. unfold with_buffer, with_range. cbn.
    by replace (address =? 0) with false by lia. }
  assert (inside (ledger_of w) address size) as Hin.
  { rewrite Hw. exists address, size. cbn. split; [apply lookup_insert_eq|lia]. }
  unfold register_host. cbn [ra_size a]. wp_if as G1; [by apply rollback_host_memory_accounts|].
  rewrite !u64_sub_small in G1 by lia.
  apply wp_bind, wp_madvise; [done|]. intros errno w1 Hw1. rewrite <-Hw1 in Ha, Hin.
  destruct (errno =? 0); cbn [negb]; [|by apply rollback_host_memory_accounts].
  apply wp_bind, wp_alloc; [done|]. intros reply w2 Hhd _ Hl. cbn [al_va_addr al_size] in Hl.
  destruct (rp_errno reply =? 0); cbn [negb andb] in *;
    [|rewrite <-Hl in Ha; by apply rollback_host_memory_accounts].
  destruct (Z.eqb_spec (rp_handle reply) 0) as [Hz|Hz]; cbn [negb] in *;
    [rewrite <-Hl in Ha; by apply rollback_host_memory_accounts|].
  destruct Hl as [Hnew Hl]. cbv zeta. set (b := set_handle a (rp_handle reply)).
  assert (accounted UserPages L b (ledger_of w2)) as Hb.
  { split; cbn; try done; [|intros _; by rewrite Hw1, Hw in Hnew].
    rewrite Hl, Hw1, Hw. unfold with_buffer, with_range. cbn. apply Z.eqb_neq in Hz. rewrite Hz.
    by replace (address =? 0) with false by lia. }
  apply wp_bind. eapply wp_mono; [by apply map_memory_accounts|].
  intros [mapped c] w3 (Hc & (E1 & E2 & E3 & E4 & E5 & E6) & Hids & Hmap).
  destruct (status_ok mapped) eqn:Hm; cbn [negb]; [|by apply rollback_host_memory_accounts].
  apply wp_give. split; [done|]. intros _. destruct (Hmap eq_refl) as (M1 & M2 & M3).
  cbn [fst snd]. rewrite Hids in M3. cbn in *. split; rewrite ?E1, ?E2, ?E3, ?E4, ?E5, ?E6; try done; lia.
Qed.

Lemma allocate_host_memory_accounts L aperture fd size w :
  is_u64 (ap_gpuvm_limit aperture) -> is_u64 size -> ledger_of w = L ->
  wp (allocate_host_memory fd aperture size) (allocates UserPages L (host_allocated aperture size)) w.
Proof.
  intros Hlim Hsz Hw. assert (forall status w', status_ok status = false -> ledger_of w' = L ->
    allocates UserPages L (host_allocated aperture size) (status, no_allocation) w') as Hfail.
  { intros status w' Hst Hl. apply allocates_failed; [done|]. by apply accounted_nothing. }
  unfold allocate_host_memory. wp_if as G1; [by apply wp_give, Hfail|].
  wp_if as G2; [by apply wp_give, Hfail|]. apply wp_bind, wp_new. intros b w1 Hw1.
  rewrite Hw in Hw1. destruct b; cbn [negb]; [|by apply wp_give, Hfail].
  apply wp_bind, wp_mmap_new; [done| |].
  { intros errno w2 Hw2. apply wp_give, Hfail; [done|congruence]. }
  intros address w2 Hr Hmod Hfresh Hw2. rewrite Hw1 in *. cbn [mm_length] in *.
  apply register_host_accounts; try done. lia.
Qed.

(** ** Lifecycles *)

(** Repeated attempts to release: the last status, and what is left. *)
Fixpoint attempts {A} (release : A -> kfd W (MemoryStatus * A)) (n : nat) (a : A)
  : kfd W (MemoryStatus * A) :=
  match n with
  | O => release a
  | S n => '(_, a) ← release a; attempts release n a
  end.

Lemma attempts_inv {A} (I : A -> W -> Prop) (P : MemoryStatus * A -> W -> Prop) release n a w :
  (forall a w, I a w -> wp (release a) (fun r w' => I r.2 w' /\ P r w') w) ->
  I a w -> wp (attempts release n a) (fun r w' => I r.2 w' /\ P r w') w.
Proof.
  intros Hrel. revert a w. induction n as [|n IH]; intros a w Ha; cbn [attempts]; [by apply Hrel|].
  apply wp_bind. eapply wp_mono; [by apply Hrel|]. intros [status b] w' [Hb _]. by apply IH.
Qed.

Lemma attempts_release k L release n a w :
  (forall a w, accounted k L a (ledger_of w) -> wp (release a) (releases k L) w) ->
  accounted k L a (ledger_of w) -> wp (attempts release n a) (releases k L) w.
Proof. intros Hrel Ha. apply (attempts_inv (fun a w => accounted k L a (ledger_of w))); auto. Qed.

(** An allocation never loses a resource.  Whatever the driver answers at
    each of the calls, [allocate_memory] returns, and what the process then
    holds is what it held before and exactly what the returned allocation
    names; on success that is a reservation and a mapped buffer, inside the
    aperture, aligned, between guard pages.  After a failure or a success any
    number of [release_memory] calls keeps this account, and one that
    succeeds leaves what was held before. *)
Theorem kfd_memory_lifecycle aperture fd render_fd usage size w :
  is_u64 (ap_gpuvm_limit aperture) -> is_u64 size ->
  wp (allocate_memory fd render_fd aperture size usage) (fun '(status, a) w1 =>
    accounted DriverPages (ledger_of w) a (ledger_of w1) /\
    (status_ok status = true -> allocated aperture usage size a) /\
    forall n, wp (attempts (release_memory fd) n a) (fun '(released, b) w2 =>
      accounted DriverPages (ledger_of w) b (ledger_of w2) /\
      (status_ok released = true -> ledger_of w2 = ledger_of w)) w1) w.
Proof.
  intros Hlim Hsz. eapply wp_mono; [by apply allocate_memory_accounts|].
  intros [status a] w1 [Ha Hok]. split_and!; [done|done|]. intros n.
  eapply wp_mono; [apply (attempts_release DriverPages (ledger_of w));
    [intros; by apply release_memory_accounts|exact Ha]|].
  intros [released b] w2 [Hb Hr]. split; [done|]. intros H. by apply Hr.
Qed.

(** The same for host memory made visible to the GPU, where the buffer is
    made of the process's own pages: it is always freed before its pages are
    unmapped. *)
Theorem kfd_host_memory_lifecycle aperture fd size w :
  is_u64 (ap_gpuvm_limit aperture) -> is_u64 size ->
  wp (allocate_host_memory fd aperture size) (fun '(status, a) w1 =>
    accounted UserPages (ledger_of w) a (ledger_of w1) /\
    (status_ok status = true -> host_allocated aperture size a) /\
    forall n, wp (attempts (release_host_memory fd) n a) (fun '(released, b) w2 =>
      accounted UserPages (ledger_of w) b (ledger_of w2) /\
      (status_ok released = true -> ledger_of w2 = ledger_of w)) w1) w.
Proof.
  intros Hlim Hsz. eapply wp_mono; [by apply allocate_host_memory_accounts|].
  intros [status a] w1 [Ha Hok]. split_and!; [done|done|]. intros n.
  eapply wp_mono; [apply attempts_release; [apply release_host_memory_accounts|exact Ha]|].
  intros [released b] w2 [Hb Hr]. split; [done|]. intros H. by apply Hr.
Qed.
End facts.

(** ** Several allocations at once

    The account of a list of allocations, in any order. *)

(** [l] is the rest [L] and what the allocations hold. *)
Inductive held (L : ledger) : list RawMemoryAllocation -> ledger -> Prop :=
| held_nil : held L [] L
| held_cons a rest l0 l :
    held L rest l0 -> accounted DriverPages l0 a l -> held L (a :: rest) l.

Lemma with_range_other k a l s :
  ra_reservation_address a <> s \/ ra_reservation_address a = 0 ->
  lg_ranges (with_range k a l) !! s = lg_ranges l !! s.
Proof.
  intros H. unfold with_range. destruct (Z.eqb_spec (ra_reservation_address a) 0); [done|].
  destruct k; cbn; apply lookup_insert_ne; lia.
Qed.

Lemma with_buffer_other k a l h :
  ra_handle a <> h \/ ra_handle a = 0 -> lg_buffers (with_buffer k a l) !! h = lg_buffers l !! h.
Proof.
  intros H. unfold with_buffer. destruct (Z.eqb_spec (ra_handle a) 0); [done|].
  cbn. apply lookup_insert_ne. lia.
Qed.

Lemma with_buffer_ranges k a l : lg_ranges (with_buffer k a l) = lg_ranges l.
Proof. unfold with_buffer. by case_match. Qed.

Lemma with_buffer_torn k a l : lg_torn (with_buffer k a l) = lg_torn l.
Proof. unfold with_buffer. by case_match. Qed.

Lemma with_range_torn a l : lg_torn (with_range DriverPages a l) = lg_torn l.
Proof. unfold with_range. by case_match. Qed.

(** Memory of the driver stands in nobody's way. *)
Lemma accounted_unused_rest L a l address length :
  accounted DriverPages L a l -> unused l address length <-> unused L address length.
Proof.
  intros [-> _ Hb _ _ _]. unfold unused. rewrite with_memory_queues. unfold with_buffer.
  destruct (Z.eqb_spec (ra_handle a) 0) as [Hz|Hz]; [by rewrite with_range_buffers|].
  cbn. rewrite with_range_buffers. split; (intros [H1 H2]; split; [|done]); intros h b s n Hl.
  - apply (H1 h b s n). rewrite lookup_insert_ne; [done|]. intros <-. by rewrite Hb in Hl.
  - apply lookup_insert_Some in Hl as [[_ <-]|[_ Hl]]; [done|]. by eapply H1.
Qed.

Lemma with_range_comm a b l :
  (ra_reservation_address a <> 0 -> ra_reservation_address b <> 0 ->
     ra_reservation_address a <> ra_reservation_address b) ->
  with_range DriverPages a (with_range DriverPages b l) =
  with_range DriverPages b (with_range DriverPages a l).
Proof.
  intros H. unfold with_range.
  destruct (Z.eqb_spec (ra_reservation_address a) 0), (Z.eqb_spec (ra_reservation_address b) 0); try done.
  unfold add_range, set_ranges. cbn. f_equal. apply insert_insert_ne. auto.
Qed.

Lemma with_buffer_comm a b l :
  (ra_handle a <> 0 -> ra_handle b <> 0 -> ra_handle a <> ra_handle b) ->
  with_buffer DriverPages a (with_buffer DriverPages b l) =
  with_buffer DriverPages b (with_buffer DriverPages a l).
Proof.
  intros H. unfold with_buffer.
  destruct (Z.eqb_spec (ra_handle a) 0), (Z.eqb_spec (ra_handle b) 0); try done.
  unfold add_buffer, set_buffers. cbn. f_equal. apply insert_insert_ne. auto.
Qed.

Lemma with_range_buffer a b l :
  with_range DriverPages a (with_buffer DriverPages b l) = with_buffer DriverPages b (with_range DriverPages a l).
Proof. unfold with_range, with_buffer. by repeat case_match. Qed.

Lemma accounted_keeps_range k L a l start size :
  accounted k L a l -> lg_ranges L !! start = Some size -> lg_ranges l !! start = Some size.
Proof.
  intros [-> Hf _ _ _ _] Hs. rewrite with_buffer_ranges.
  destruct (decide (ra_reservation_address a = 0)) as [Hz|Hz]; [rewrite with_range_other; auto|].
  rewrite with_range_other; [done|]. left. intros He. specialize (Hf Hz) as [Hn _ _ _ _]. congruence.
Qed.

Lemma other_range L a l (Ha : accounted DriverPages L a l) s n :
  lg_ranges l !! s = Some n -> lg_ranges L !! s = Some n \/
    (s = ra_reservation_address a /\ n = ra_reservation_size a /\ ra_reservation_address a <> 0).
Proof.
  destruct Ha as [-> _ _ _ _ _]. rewrite with_buffer_ranges. unfold with_range.
  destruct (Z.eqb_spec (ra_reservation_address a) 0); [by left|]. cbn.
  intros [[<- <-]|[_ H]]%lookup_insert_Some; [by right|by left].
Qed.

Lemma other_range_apart L a l (Ha : accounted DriverPages L a l) address length :
  alone L address length ->
  (ra_reservation_address a <> 0 -> ra_reservation_address a <= address \/
     address + length <= ra_reservation_address a) -> alone l address length.
Proof. intros H1 H2 s n [Hs|(-> & -> & Hz)]%(other_range _ _ _ Ha); [by eapply H1|auto]. Qed.

(** What is fresh beside an allocation is fresh without it. *)
Lemma accounted_fresh L a l address length :
  accounted DriverPages L a l -> fresh_range l address length -> fresh_range L address length.
Proof.
  intros Ha [F1 F2 F3 F4 F5].
  rewrite (accounted_unused_rest _ _ _ _ _ Ha) in F3.
  assert (lg_torn l = lg_torn L) as Ht.
  { destruct Ha as [-> _ _ _ _ _]. by rewrite with_buffer_torn, with_range_torn. }
  rewrite Ht in F2, F5. split; [|done|done| |].
  - destruct (lg_ranges L !! address) as [n|] eqn:H; [|done].
    by rewrite (accounted_keeps_range _ _ _ _ _ _ Ha H) in F1.
  - intros s n Hs. eapply F4, accounted_keeps_range; eauto.
  - intros s n Hs. eapply F5, accounted_keeps_range; eauto.
Qed.

(** Two allocations can be taken in either order. *)
Lemma accounted_swap L a b l0 l :
  accounted DriverPages L a l0 -> accounted DriverPages l0 b l ->
  exists l1, accounted DriverPages L b l1 /\ accounted DriverPages l1 a l.
Proof.
  intros Ha Hb. set (l1 := with_buffer DriverPages b (with_range DriverPages b L)).
  assert (ra_handle a <> 0 -> ra_handle b <> 0 -> ra_handle a <> ra_handle b) as Hh.
  { intros Na Nb He. pose proof (ac_buffer _ _ _ _ Hb Nb) as H.
    by rewrite <-He, (accounted_handle _ _ _ _ Ha Na) in H. }
  assert (ra_reservation_address a <> 0 -> ra_reservation_address b <> 0 ->
    ra_reservation_address a <> ra_reservation_address b) as Hr.
  { intros Na Nb He. pose proof (fr_new _ _ _ (ac_fresh _ _ _ _ Hb Nb)) as H.
    by rewrite <-He, (accounted_range _ _ _ _ Ha Na) in H. }
  assert (accounted DriverPages L b l1) as Hb1.
  { destruct Hb as [_ Hf Hbuf Hc Hm _]. split; try done.
    - intros Nb. eapply accounted_fresh; eauto.
    - intros Nb. specialize (Hbuf Nb). destruct Ha as [-> _ _ _ _ _].
      by rewrite with_buffer_other, with_range_buffers in Hbuf by lia. }
  exists l1. split; [done|]. pose proof Ha as [Hl0 Hf Hbuf Hc Hm _]. pose proof Hb as [Hl Hfb _ _ _ _].
  split; try done.
  - rewrite Hl, Hl0. unfold l1. by rewrite !with_range_buffer, (with_buffer_comm a b), (with_range_comm a b) by auto.
  - intros Na. destruct (Hf Na) as [F1 F2 F3 F4 F5]. split.
    + unfold l1. rewrite with_buffer_ranges, with_range_other; [done|]. lia.
    + unfold l1. by rewrite with_buffer_torn, with_range_torn.
    + by rewrite (accounted_unused_rest _ _ _ _ _ Hb1).
    + apply (other_range_apart L b l1 Hb1); [done|]. intros Nb. destruct (Hfb Nb) as [_ _ _ _ G].
      specialize (G _ _ (accounted_range _ _ _ _ Ha Na)).
      rewrite Hl0, with_buffer_torn, with_range_torn in G. specialize (G F2). lia.
    + intros s n Hs Ht. apply (other_range L b l1 Hb1) in Hs as [Hs|(-> & -> & Nb)];
        [apply (F5 _ _ Hs); revert Ht; unfold l1; by rewrite with_buffer_torn, with_range_torn|].
      destruct (Hfb Nb) as [_ _ _ G _]. specialize (G _ _ (accounted_range _ _ _ _ Ha Na)).
      specialize (Hr Na Nb). lia.
  - intros Na. unfold l1. rewrite with_buffer_other, with_range_buffers; [auto|]. lia.
Qed.

#[global] Instance held_perm L : Proper ((≡ₚ) ==> eq ==> iff) (held L).
Proof.
  assert (forall o1 o2, o1 ≡ₚ o2 -> forall l, held L o1 l -> held L o2 l) as H.
  { induction 1 as [|a o1 o2 Hp IH|a b o|o1 o2 o3 _ IH1 _ IH2]; intros l Hl; auto.
    - inversion Hl; subst. econstructor; eauto.
    - inversion Hl as [|? ? l1 ? H1 Hb]; subst. inversion H1 as [|? ? l0 ? H0 Ha]; subst.
      destruct (accounted_swap _ _ _ _ _ Ha Hb) as (l2 & ? & ?).
      econstructor; [econstructor|]; eauto. }
  intros o1 o2 Hp l ? <-. split; apply H; [done|by symmetry].
Qed.

Lemma held_cons_inv L a o l : held L (a :: o) l <-> exists l0, held L o l0 /\ accounted DriverPages l0 a l.
Proof. split; [inversion 1; eauto|]. intros (l0 & ? & ?). by econstructor. Qed.

Lemma held_nil_inv L l : held L [] l <-> l = L.
Proof. split; [by inversion 1|]. intros ->. constructor. Qed.

Lemma held_app L o1 o2 l : held L (o1 ++ o2) l <-> exists l0, held L o2 l0 /\ held l0 o1 l.
Proof.
  revert l. induction o1 as [|a o1 IH]; intros l; cbn.
  { setoid_rewrite held_nil_inv. split; [eauto|]. by intros (? & ? & ->). }
  setoid_rewrite held_cons_inv. setoid_rewrite IH. naive_solver.
Qed.

Lemma held_unused L o l address length : held L o l -> unused l address length <-> unused L address length.
Proof. induction 1 as [|a rest l0 l H IH Ha]; [done|]. by rewrite (accounted_unused_rest _ _ _ _ _ Ha). Qed.

Lemma held_torn L o l : held L o l -> lg_torn l = lg_torn L.
Proof.
  induction 1 as [|a rest l0 l H IH Ha]; [done|]. destruct Ha as [-> _ _ _ _ _].
  by rewrite with_buffer_torn, with_range_torn.
Qed.

Lemma held_keeps_range L o l start size :
  held L o l -> lg_ranges L !! start = Some size -> lg_ranges l !! start = Some size.
Proof. induction 1 as [|a rest l0 l H IH Ha]; [done|]. intros. eapply accounted_keeps_range; eauto. Qed.

(** ** Files do not touch memory *)

Lemma accounted_files L a l F :
  accounted DriverPages L a l -> accounted DriverPages (set_files L F) a (set_files l F).
Proof.
  intros [-> Hf Hb Hc Hm Hu]. split; try done.
  - unfold with_buffer, with_range. by repeat case_match.
  - intros Hr. by destruct (Hf Hr).
Qed.

Lemma held_files L o l F : held L o l -> held (set_files L F) o (set_files l F).
Proof. induction 1; [constructor|]. econstructor; [done|]. by apply accounted_files. Qed.

Lemma accounted_same_files k L a l : accounted k L a l -> lg_files l = lg_files L.
Proof. intros [-> _ _ _ _ _]. unfold with_buffer, with_range. destruct k; by repeat case_match. Qed.

Lemma held_same_files L o l : held L o l -> lg_files l = lg_files L.
Proof. induction 1 as [|a rest l0 l H IH Ha]; [done|]. by rewrite (accounted_same_files _ _ _ _ Ha). Qed.

Lemma set_files_back l F : set_files (set_files l F) (lg_files l) = l.
Proof. by destruct l. Qed.
