(* ===== verification/ScratchPool.v ===== *)
(** * The scratch pool of a GPU

    [transport/kfd/memory.cpp]: one span of address space per GPU, reserved
    once, from which queues take 64 KiB-aligned ranges.  The free ranges are a
    [std::map] from offset to size, modelled as the list of its entries in key
    order. *)

From stdpp Require Import gmap fin_maps.
From S2P Require Import Prelude Order KfdKernel KfdMemory.

Definition kGfx11ScratchPoolSize : Z := 4 * 1024 * 1024 * 1024.
Definition kScratchBackingAlignment : Z := 64 * 1024.

(** ** Free ranges *)

Abbreviation ranges := (list (Z * Z)).

(** The entries before a key, the entry at it, the entries behind it. *)
Fixpoint split_at (offset : Z) (l : ranges) : ranges * option Z * ranges :=
  match l with
  | [] => ([], None, [])
  | (key, size) :: l =>
      if key <? offset then
        let '(before, found, after) := split_at offset l in ((key, size) :: before, found, after)
      else if key =? offset then ([], Some size, l)
      else ([], None, (key, size) :: l)
  end.

(** [free_ranges.emplace(offset, size)]: [None] when the key is taken. *)
Definition emplace (offset size : Z) (l : ranges) : option (ranges * ranges) :=
  let '(before, found, after) := split_at offset l in
  match found with
  | Some _ => None
  | None => Some (before, after)
  end.

(** The merge with the entry before the inserted one. *)
Definition merge_previous (before : ranges) (offset size : Z) : ranges * (Z * Z) :=
  match last before with
  | Some (key, previous) =>
      if u64_add key previous =? offset then (removelast before, (key, u64_add size previous))
      else (before, (offset, size))
  | None => (before, (offset, size))
  end.

(** The merge with the entry behind it. *)
Definition merge_next (entry : Z * Z) (after : ranges) : ranges :=
  match after with
  | (key, next) :: rest =>
      if u64_add entry.1 entry.2 =? key then (entry.1, u64_add entry.2 next) :: rest
      else entry :: after
  | [] => [entry]
  end.

Definition insert_range (offset size : Z) (l : ranges) : option ranges :=
  match emplace offset size l with
  | None => None
  | Some (before, after) =>
      let '(before, entry) := merge_previous before offset size in
      Some (before ++ merge_next entry after)
  end.

(** The first entry that is large enough, cut at its front: its offset and
    what is left. *)
Fixpoint take_range (size : Z) (l : ranges) : option (Z * ranges) :=
  match l with
  | [] => None
  | (offset, available) :: l =>
      if available <? size then
        match take_range size l with
        | Some (found, rest) => Some (found, (offset, available) :: rest)
        | None => None
        end
      else
        let remaining := u64_sub available size in
        Some (offset,
          if remaining =? 0 then l else (u64_add offset size, remaining) :: l)
  end.

(** ** The pool *)

Record ScratchPoolState := mkScratchPool {
  sp_reservation_address : Z;
  sp_reservation_size : Z;
  sp_gpu_address : Z;
  sp_size : Z;
  sp_integrated : bool;
  sp_configured : bool;
  sp_free_ranges : ranges
}.

(** [std::make_unique<ScratchPoolState>()] *)
Definition new_pool : ScratchPoolState := mkScratchPool 0 0 0 0 false false [].

Definition set_free (pool : ScratchPoolState) (l : ranges) : ScratchPoolState :=
  mkScratchPool (sp_reservation_address pool) (sp_reservation_size pool) (sp_gpu_address pool)
    (sp_size pool) (sp_integrated pool) (sp_configured pool) l.

Definition set_span (pool : ScratchPoolState) (gpu_address size : Z) : ScratchPoolState :=
  mkScratchPool (sp_reservation_address pool) (sp_reservation_size pool) gpu_address size
    (sp_integrated pool) (sp_configured pool) (sp_free_ranges pool).

Section pool.
Context {W : Type} `{!Kernel W}.

Definition add_free_scratch_range (pool : ScratchPoolState) (offset size : Z)
  : kfd W (MemoryStatus * ScratchPoolState) :=
  allocated ← sys_new;
  if negb allocated then
    give (failure MemoryError.AllocateState "failed to return a range to the scratch pool", pool)
  else
  give (match insert_range offset size (sp_free_ranges pool) with
        | None => (failure MemoryError.InvalidSize "scratch pool received a duplicate free range", pool)
        | Some l => (no_error, set_free pool l)
        end).

Definition release_pool_reservation (pool : ScratchPoolState)
  : kfd W (MemoryStatus * ScratchPoolState) :=
  if sp_reservation_address pool =? 0 then give (no_error, pool)
  else
    errno ← sys_munmap (sp_reservation_address pool) (sp_reservation_size pool);
    give (if errno =? 0
          then (no_error, mkScratchPool 0 0 0 0 (sp_integrated pool) false [])
          else (system_failure MemoryError.UnmapHost errno "munmap(scratch pool reservation)", pool)).

(** The failure of a step of the initialization: the reservation goes back. *)
Definition abandon_pool (status : MemoryStatus) (pool : ScratchPoolState)
  : kfd W (MemoryStatus * ScratchPoolState) :=
  '(cleanup, pool) ← release_pool_reservation pool;
  give (append_cleanup status cleanup, pool).

(** [pool->reservation_address = ...; pool->reservation_size = ...;
    pool->integrated = ...] *)
Definition reserve_pool (pool : ScratchPoolState) (address size : Z) (integrated : bool)
  : ScratchPoolState :=
  mkScratchPool address size (sp_gpu_address pool) (sp_size pool) integrated (sp_configured pool)
    (sp_free_ranges pool).

Definition pool_reservation_size : Z :=
  u64_add (u64_add kGfx11ScratchPoolSize kScratchBackingAlignment)
    (u64_mul kGuardPageCount kMemoryPageSize).

(** The last steps: the driver learns the backing address, the whole span is
    free. *)
Definition configure_pool (kfd_fd gpu_id : Z) (pool : ScratchPoolState)
  : kfd W (MemoryStatus * ScratchPoolState) :=
  reply ← invoke_ioctl kfd_fd (SET_SCRATCH_BACKING_VA (Z.shiftr (sp_gpu_address pool) 16) gpu_id);
  if negb (rp_errno reply =? 0) then
    abandon_pool (system_failure MemoryError.SetScratchBacking (rp_errno reply)
      "AMDKFD_IOC_SET_SCRATCH_BACKING_VA") pool
  else
  allocated ← sys_new;
  if negb allocated then
    abandon_pool (failure MemoryError.AllocateState "failed to allocate scratch pool range state")
      pool
  else
  give (no_error, mkScratchPool (sp_reservation_address pool) (sp_reservation_size pool)
    (sp_gpu_address pool) (sp_size pool) (sp_integrated pool) true [(0, sp_size pool)]).

(** An integrated GPU uses host pages: the span is mapped at once. *)
Definition map_integrated (pool : ScratchPoolState) : kfd W (option MemoryStatus) :=
  if sp_integrated pool then
    mapped ← sys_mmap (mkMmapArguments (sp_gpu_address pool) (sp_size pool)
      (Z.lor PROT_READ PROT_WRITE) (Z.lor (Z.lor MAP_PRIVATE MAP_ANONYMOUS) MAP_FIXED) (-1) 0);
    give (match mapped with
          | inl errno => Some (system_failure MemoryError.MapHost errno "mmap(integrated scratch pool)")
          | inr _ => None
          end)
  else give None.

Definition place_pool (kfd_fd : Z) (aperture : ProcessAperture) (pool : ScratchPoolState)
  : kfd W (MemoryStatus * ScratchPoolState) :=
  let reservation_address := sp_reservation_address pool in
  if reservation_address >? u64_sub UINT64_MAX pool_reservation_size then
    abandon_pool (failure MemoryError.ReserveVa
      "scratch pool reservation overflows the host address range") pool
  else
  let first_usable := u64_add reservation_address kMemoryPageSize in
  let gpu_address := round_up first_usable kScratchBackingAlignment in
  let reservation_end := u64_add reservation_address pool_reservation_size in
  if (gpu_address <? ap_gpuvm_base aperture) || (gpu_address >? ap_gpuvm_limit aperture) ||
     (kGfx11ScratchPoolSize - 1 >? u64_sub (ap_gpuvm_limit aperture) gpu_address) ||
     (gpu_address >? reservation_end) ||
     (u64_sub reservation_end gpu_address <? kMemoryPageSize) ||
     (kGfx11ScratchPoolSize >? u64_sub (u64_sub reservation_end gpu_address) kMemoryPageSize) then
    abandon_pool (failure MemoryError.ReserveVa
      "64 KiB-aligned scratch pool is outside the KFD GPUVM aperture") pool
  else
  let pool := set_span pool gpu_address kGfx11ScratchPoolSize in
  mapped ← map_integrated pool;
  match mapped with
  | Some status => abandon_pool status pool
  | None =>
      errno ← sys_madvise gpu_address (sp_size pool) MADV_DONTFORK;
      if negb (errno =? 0) then
        abandon_pool (system_failure MemoryError.AdviseDontFork errno
          "madvise(scratch pool MADV_DONTFORK)") pool
      else configure_pool kfd_fd (ap_gpu_id aperture) pool
  end.

Definition initialize_scratch_pool (kfd_fd : Z) (aperture : ProcessAperture) (integrated : bool)
    (pool : ScratchPoolState) : kfd W (MemoryStatus * ScratchPoolState) :=
  if (kGfx11ScratchPoolSize >? UINT64_MAX) ||
     (kGfx11ScratchPoolSize >? u64_sub (u64_sub UINT64_MAX kScratchBackingAlignment)
        (u64_mul kGuardPageCount kMemoryPageSize)) then
    give (failure MemoryError.InvalidSize "scratch pool exceeds the host address range", pool)
  else if pool_reservation_size >? UINT64_MAX then
    give (failure MemoryError.InvalidSize "scratch pool reservation exceeds the host size range", pool)
  else
  reserved ← sys_mmap (reserve_address_space pool_reservation_size);
  match reserved with
  | inl errno =>
      give (system_failure MemoryError.ReserveVa errno "mmap(scratch pool reservation)", pool)
  | inr reservation =>
      place_pool kfd_fd aperture (reserve_pool pool reservation pool_reservation_size integrated)
  end.
End pool.

(** ** The session's GPUs *)

Record DeviceVmState := mkDeviceVm {
  dv_render_fd : Z;
  dv_drm_render_minor : Z;
  dv_acquired : bool;
  dv_memory_policy_configured : bool;
  dv_aperture_valid : bool;
  dv_aperture : ProcessAperture;
  dv_scratch_pool : option ScratchPoolState;
  dv_trap_handler : option RawMemoryAllocation;
  dv_trap_handler_configured : bool
}.

(** The page of event slots the queues of a session share. *)
Record QueueEventPageState := mkEventPage {
  ep_allocation : RawMemoryAllocation;
  ep_handle : Z;
  ep_registered : bool
}.

(** The part of [KfdState] the memory, VM and queue code uses. *)
Record KfdState := mkKfdState {
  ks_fd : Z;
  ks_device_vms : gmap Z DeviceVmState;
  ks_exception_debugging_enabled : bool;
  ks_queue_event_page : option QueueEventPageState
}.

Definition set_device_vms (state : KfdState) (device_vms : gmap Z DeviceVmState) : KfdState :=
  mkKfdState (ks_fd state) device_vms (ks_exception_debugging_enabled state) (ks_queue_event_page state).

Definition set_event_page (state : KfdState) (page : option QueueEventPageState) : KfdState :=
  mkKfdState (ks_fd state) (ks_device_vms state) (ks_exception_debugging_enabled state) page.

Definition set_pool (device : DeviceVmState) (pool : option ScratchPoolState) : DeviceVmState :=
  mkDeviceVm (dv_render_fd device) (dv_drm_render_minor device) (dv_acquired device)
    (dv_memory_policy_configured device) (dv_aperture_valid device) (dv_aperture device) pool
    (dv_trap_handler device) (dv_trap_handler_configured device).

Definition set_device (state : KfdState) (gpu_id : Z) (device : DeviceVmState) : KfdState :=
  set_device_vms state (<[gpu_id := device]> (ks_device_vms state)).

(** ** Allocation from the pool *)

Record RawScratchAllocationResult := mkRawScratch {
  rs_status : MemoryStatus;
  rs_allocation : RawMemoryAllocation;
  rs_gpu_address : Z;
  rs_size : Z;
  rs_gpu_id : Z;
  rs_integrated : bool;
  rs_gpu_mapped : bool;
  rs_pool_range_owned : bool
}.

(** [{status, {}}] *)
Definition no_scratch (status : MemoryStatus) : RawScratchAllocationResult :=
  mkRawScratch status no_allocation 0 0 0 false false false.

Section scratch.
Context {W : Type} `{!Kernel W}.

(** The range goes back to the pool after a failure; when that fails too the
    caller keeps it. *)
Definition restore_range (status : MemoryStatus) (pool : ScratchPoolState) (offset : Z)
    (a : RawMemoryAllocation) (gpu_address aligned_size gpu_id : Z) (integrated : bool)
  : kfd W (RawScratchAllocationResult * ScratchPoolState) :=
  '(restored, pool) ← add_free_scratch_range pool offset aligned_size;
  give (if status_ok restored then (no_scratch status, pool)
        else (mkRawScratch (append_cleanup status restored) a gpu_address aligned_size gpu_id
                integrated false true, pool)).

(** Physical backing for a range of the pool. *)
Definition back_range (kfd_fd gpu_id : Z) (pool : ScratchPoolState) (offset aligned_size : Z)
  : kfd W (RawScratchAllocationResult * ScratchPoolState) :=
  let gpu_address := u64_add (sp_gpu_address pool) offset in
  let a ids := mkRawAllocation 0 0 0 gpu_address aligned_size 0 ids 0 0 false in
  allocated ← sys_new;
  if negb allocated then
    restore_range (failure MemoryError.AllocateState "failed to allocate scratch GPU mapping state")
      pool offset (a []) gpu_address aligned_size gpu_id false
  else
  reply ← invoke_ioctl kfd_fd (ALLOC_MEMORY_OF_GPU (mkAllocArguments gpu_address aligned_size 0 gpu_id
    (Z.lor KFD_IOC_ALLOC_MEM_FLAGS_VRAM KFD_IOC_ALLOC_MEM_FLAGS_WRITABLE)));
  if negb (rp_errno reply =? 0) then
    restore_range (system_failure MemoryError.AllocateScratch (rp_errno reply)
      "AMDKFD_IOC_ALLOC_MEMORY_OF_GPU(scratch)") pool offset (a [gpu_id]) gpu_address aligned_size
      gpu_id false
  else if rp_handle reply =? 0 then
    restore_range (failure MemoryError.AllocateScratch "KFD returned an invalid zero scratch handle")
      pool offset (a [gpu_id]) gpu_address aligned_size gpu_id false
  else
  '(mapped, b) ← map_memory kfd_fd (set_handle (a [gpu_id]) (rp_handle reply)) [gpu_id];
  if status_ok mapped then
    give (mkRawScratch no_error b gpu_address aligned_size gpu_id false true true, pool)
  else
  '(cleanup, b) ← release_memory kfd_fd b;
  if negb (status_ok cleanup) then
    give (mkRawScratch (append_cleanup mapped cleanup) b gpu_address aligned_size gpu_id false false
            true, pool)
  else restore_range mapped pool offset b gpu_address aligned_size gpu_id false.

(** The pool of the GPU, made on first use: the status, and the device. *)
Definition ensure_pool (kfd_fd : Z) (aperture : ProcessAperture) (integrated : bool)
    (device : DeviceVmState) : kfd W (MemoryStatus * DeviceVmState) :=
  '(cleanup, device) ←
    match dv_scratch_pool device with
    | Some pool =>
        if sp_configured pool then give (no_error, device)
        else
          '(cleanup, pool) ← release_pool_reservation pool;
          give (cleanup, set_pool device (if status_ok cleanup then None else Some pool))
    | None => give (no_error, device)
    end;
  if negb (status_ok cleanup) then give (cleanup, device)
  else
  match dv_scratch_pool device with
  | Some _ => give (no_error, device)
  | None =>
      allocated ← sys_new;
      if negb allocated then
        give (failure MemoryError.AllocateState "failed to allocate scratch pool state", device)
      else
      '(initialized, pool) ← initialize_scratch_pool kfd_fd aperture integrated new_pool;
      give (initialized, set_pool device
        (if negb (status_ok initialized) && (sp_reservation_address pool =? 0) then None
         else Some pool))
  end.

(** A range of a configured pool. *)
Definition take_scratch (kfd_fd : Z) (aperture : ProcessAperture) (aligned_size : Z) (integrated : bool)
    (pool : ScratchPoolState) : kfd W (RawScratchAllocationResult * ScratchPoolState) :=
  if negb (bool_decide (sp_integrated pool = integrated)) then
    give (no_scratch (failure MemoryError.InvalidNode
      "scratch pool memory type does not match the GPU topology"), pool)
  else
  match take_range aligned_size (sp_free_ranges pool) with
  | None =>
      give (no_scratch (failure MemoryError.ScratchPoolExhausted
        "scratch pool has no contiguous range large enough for the queue"), pool)
  | Some (offset, rest) =>
      let pool := set_free pool rest in
      if integrated then
        let gpu_address := u64_add (sp_gpu_address pool) offset in
        give (mkRawScratch no_error
                (mkRawAllocation 0 0 0 gpu_address aligned_size 0 [] 0 0 false)
                gpu_address aligned_size (ap_gpu_id aperture) true true true, pool)
      else back_range kfd_fd (ap_gpu_id aperture) pool offset aligned_size
  end.

Definition allocate_scratch (state : KfdState) (kfd_fd : Z) (aperture : ProcessAperture) (size : Z)
    (integrated : bool) : kfd W (RawScratchAllocationResult * KfdState) :=
  if (kfd_fd <? 0) || (ap_gpu_id aperture =? 0) || negb valid_syscalls then
    give (no_scratch (failure MemoryError.InvalidSession
      "scratch allocation requires an acquired KFD VM"), state)
  else if (size =? 0) || negb (size mod kMemoryPageSize =? 0) ||
          (size >? UINT64_MAX - (kScratchBackingAlignment - 1)) then
    give (no_scratch (failure MemoryError.InvalidSize
      "scratch size must be a non-zero multiple of 4096 bytes"), state)
  else
  let aligned_size := round_up size kScratchBackingAlignment in
  match ks_device_vms state !! ap_gpu_id aperture with
  | None =>
      give (no_scratch (failure MemoryError.InvalidSession
        "scratch allocation requires acquired GPU VM state"), state)
  | Some device =>
      if negb (dv_acquired device) || negb (dv_aperture_valid device) then
        give (no_scratch (failure MemoryError.InvalidSession
          "scratch allocation requires acquired GPU VM state"), state)
      else
      '(status, device) ← ensure_pool kfd_fd aperture integrated device;
      if negb (status_ok status) then
        give (no_scratch status, set_device state (ap_gpu_id aperture) device)
      else
      match dv_scratch_pool device with
      | None => fun _ => Fault OutOfBounds
      | Some pool =>
          '(result, pool) ← take_scratch kfd_fd aperture aligned_size integrated pool;
          give (result, set_device state (ap_gpu_id aperture) (set_pool device (Some pool)))
      end
  end.

(** A range of the pool, with its backing given back first. *)
Definition return_scratch (kfd_fd : Z) (r : RawScratchAllocationResult) (pool : ScratchPoolState)
  : kfd W (MemoryStatus * RawScratchAllocationResult * ScratchPoolState) :=
  if (rs_gpu_address r <? sp_gpu_address pool) ||
     (u64_sub (rs_gpu_address r) (sp_gpu_address pool) >? sp_size pool) ||
     (rs_size r >? u64_sub (sp_size pool) (u64_sub (rs_gpu_address r) (sp_gpu_address pool))) then
    give (failure MemoryError.InvalidSize "scratch allocation is outside its GPU pool", r, pool)
  else
  '(released, a) ←
    (if rs_integrated r then give (no_error, rs_allocation r)
     else release_memory kfd_fd (rs_allocation r));
  if negb (status_ok released) then
    give (released, mkRawScratch (rs_status r) a (rs_gpu_address r) (rs_size r) (rs_gpu_id r)
            (rs_integrated r) (rs_gpu_mapped r) (rs_pool_range_owned r), pool)
  else
  '(restored, pool) ← add_free_scratch_range pool
    (u64_sub (rs_gpu_address r) (sp_gpu_address pool)) (rs_size r);
  if negb (status_ok restored) then
    give (restored, mkRawScratch (rs_status r) a (rs_gpu_address r) (rs_size r) (rs_gpu_id r)
            (rs_integrated r) false (rs_pool_range_owned r), pool)
  else give (no_error, mkRawScratch (rs_status r) a 0 0 0 (rs_integrated r) false false, pool).

Definition release_scratch (state : KfdState) (kfd_fd : Z) (r : RawScratchAllocationResult)
  : kfd W (MemoryStatus * RawScratchAllocationResult * KfdState) :=
  if (kfd_fd <? 0) || negb (rs_pool_range_owned r) || (rs_gpu_id r =? 0) || (rs_size r =? 0) ||
     negb valid_syscalls then
    give (failure MemoryError.InvalidSession "scratch release requires a live pool allocation",
      r, state)
  else
  let no_pool := give (failure MemoryError.InvalidSession
    "scratch release requires a live GPU scratch pool", r, state) in
  match ks_device_vms state !! rs_gpu_id r with
  | None => no_pool
  | Some device =>
      match dv_scratch_pool device with
      | None => no_pool
      | Some pool =>
          if negb (sp_configured pool) then no_pool
          else
            '(status, r', pool) ← return_scratch kfd_fd r pool;
            give (status, r', set_device state (rs_gpu_id r) (set_pool device (Some pool)))
      end
  end.
End scratch.
