(* ===== verification/ScratchPoolFacts.v ===== *)
(** * The scratch pool is partitioned

    The free ranges and the ranges of live allocations cover the pool, each
    byte once, under any sequence of allocations and releases. *)

From stdpp Require Import gmap fin_maps.
From S2P Require Import Prelude Order KfdKernel KfdMemory KfdMemoryFacts ScratchPool.

(** ** Ranges and the bytes they cover *)

Definition cov (x : Z) (r : Z * Z) : Z := if (r.1 <=? x) && (x <? r.1 + r.2) then 1 else 0.

Fixpoint total (x : Z) (l : ranges) : Z :=
  match l with
  | [] => 0
  | r :: l => cov x r + total x l
  end.

Lemma cov_nonneg x r : 0 <= cov x r <= 1.
Proof. unfold cov. case_match; lia. Qed.

Lemma total_nonneg x l : 0 <= total x l.
Proof. induction l as [|r l IH]; cbn; [lia|]. pose proof (cov_nonneg x r). lia. Qed.

Lemma total_app x l1 l2 : total x (l1 ++ l2) = total x l1 + total x l2.
Proof. induction l1 as [|r l1 IH]; cbn; lia. Qed.

Lemma total_elem x l r : r ∈ l -> cov x r <= total x l.
Proof.
  induction 1 as [r l|r s l Hr IH]; cbn; pose proof (total_nonneg x l); [lia|].
  pose proof (cov_nonneg x s). lia.
Qed.

Definition aligned (x : Z) : Prop := x mod 65536 = 0.

(** An entry of the free list of a pool of [size] bytes. *)
Record entry_ok (size : Z) (r : Z * Z) : Prop := {
  eo_low : 0 <= r.1;
  eo_size : 0 < r.2;
  eo_high : r.1 + r.2 <= size;
  eo_offset_aligned : aligned r.1;
  eo_size_aligned : aligned r.2
}.

(** The free list: in order, with a gap between entries (they are merged). *)
Definition gap (a b : Z * Z) : Prop := a.1 + a.2 < b.1.

Record free_ok (size : Z) (l : ranges) : Prop := {
  fo_entries : Forall (entry_ok size) l;
  fo_sorted : StronglySorted gap l
}.

Definition apart_from (offset size : Z) (r : Z * Z) : Prop :=
  r.1 + r.2 <= offset \/ offset + size <= r.1.

Lemma apart_of_total offset size l r :
  (forall x, total x l + cov x (offset, size) <= 1) -> 0 < size -> r ∈ l -> 0 < r.2 ->
  apart_from offset size r.
Proof.
  intros Ht Hs Hr Hp. unfold apart_from.
  destruct (Z.le_gt_cases (r.1 + r.2) offset) as [|H1]; [by left|].
  destruct (Z.le_gt_cases (offset + size) r.1) as [|H2]; [by right|]. exfalso.
  specialize (Ht (Z.max offset r.1)). pose proof (total_elem (Z.max offset r.1) l r Hr) as Hc.
  unfold cov in *. cbn in Ht. destruct (_ && _) eqn:G1 in Ht; destruct (_ && _) eqn:G2 in Hc; lia.
Qed.

(** ** Returning a range *)

Lemma split_at_spec offset l :
  Forall (fun r => 0 < r.2) l -> StronglySorted gap l -> Forall (fun r => r.1 <> offset) l ->
  exists before after, split_at offset l = (before, None, after) /\ l = before ++ after /\
    Forall (fun r => r.1 < offset) before /\ Forall (fun r => offset < r.1) after.
Proof.
  intros Hp Hs Hn. induction l as [|[key s] l IH]; cbn; [by exists [], []|].
  apply Forall_cons in Hp as [Hp1 Hp]. apply Forall_cons in Hn as [Hn1 Hn].
  apply StronglySorted_inv in Hs as [Hs Hg]. cbn in *.
  destruct (Z.ltb_spec key offset).
  - destruct (IH Hp Hs Hn) as (before & after & -> & -> & Hb & Ha).
    exists ((key, s) :: before), after. split_and!; [done|done|by constructor|done].
  - destruct (Z.eqb_spec key offset); [done|]. exists [], ((key, s) :: l).
    split_and!; [done|done|constructor|]. constructor; [cbn; lia|].
    eapply Forall_impl; [exact Hg|]. unfold gap. cbn. intros r Hr. lia.
Qed.

Lemma gap_snoc l r : StronglySorted gap (l ++ [r]) -> Forall (fun a => gap a r) l.
Proof.
  induction l as [|a l IH]; cbn; [constructor|]. intros Hs. apply StronglySorted_inv in Hs as [Hs Hg].
  constructor; [|by apply IH]. rewrite Forall_forall in Hg. apply Hg. set_solver.
Qed.

Lemma sorted_app {A} (R : A -> A -> Prop) l1 l2 :
  StronglySorted R (l1 ++ l2) <->
  StronglySorted R l1 /\ StronglySorted R l2 /\ forall a b, a ∈ l1 -> b ∈ l2 -> R a b.
Proof.
  induction l1 as [|x l1 IH]; cbn.
  - split; [|tauto]. intros H. split_and!; [constructor|done|]. intros a b Ha. by apply elem_of_nil in Ha.
  - split.
    + intros H. apply StronglySorted_inv in H as [H Hf]. apply IH in H as (H1 & H2 & H3).
      apply Forall_app in Hf as [Hf1 Hf2]. split_and!; [by constructor|done|].
      intros a b [->|Ha]%elem_of_cons Hb; [|by apply H3]. rewrite Forall_forall in Hf2. by apply Hf2.
    + intros (H1 & H2 & H3). apply StronglySorted_inv in H1 as [H1 Hf]. constructor.
      * apply IH. split_and!; [done..|]. intros a b Ha. apply H3. by right.
      * apply Forall_app. split; [done|]. apply Forall_forall. intros b Hb. apply H3; [by left|done].
Qed.


Lemma cov_merge x a n m : 0 <= n -> 0 <= m -> cov x (a, n + m) = cov x (a, n) + cov x (a + n, m).
Proof. intros. unfold cov. cbn [fst snd]. repeat case_match; lia. Qed.

Lemma aligned_add a b : aligned a -> aligned b -> aligned (a + b).
Proof. unfold aligned. intros Ha Hb. rewrite Zplus_mod, Ha, Hb. done. Qed.

Lemma aligned_sub a b : aligned a -> aligned b -> aligned (a - b).
Proof. unfold aligned. intros Ha Hb. rewrite Zminus_mod, Ha, Hb. done. Qed.

Lemma last_Some_snoc {A} (l : list A) x : last l = Some x -> l = removelast l ++ [x].
Proof.
  induction l as [|a l IH]; [done|]. destruct l as [|b l]; [by intros [= ->]|].
  intros H. change (removelast (a :: b :: l)) with (a :: removelast (b :: l)). rewrite <-app_comm_cons. f_equal. by apply IH.
Qed.

Section pool_size.
Context (size : Z) (size_u64 : size < U64_MOD).

Lemma merge_previous_spec before offset n :
  free_ok size before -> entry_ok size (offset, n) -> Forall (fun r => r.1 + r.2 <= offset) before ->
  let '(rest, e) := merge_previous before offset n in
  free_ok size rest /\ entry_ok size e /\ Forall (fun r => gap r e) rest /\ e.1 + e.2 = offset + n /\
  forall x, total x rest + cov x e = total x before + cov x (offset, n).
Proof.
  intros [He Hs] [E1 E2 E3 E4 E5] Hb. cbn in *. unfold merge_previous.
  destruct (last before) as [[key previous]|] eqn:Hl.
  2:{ apply last_None in Hl as ->. split_and!; try done; constructor. }
  apply last_Some_snoc in Hl. rewrite Hl in He, Hs, Hb |- *.
  rewrite !Forall_app, !Forall_singleton in He, Hb. destruct He as [He [P1 P2 P3 P4 P5]].
  destruct Hb as [Hb Hk]. cbn in *. pose proof (gap_snoc _ _ Hs) as Hg.
  rewrite u64_add_small by lia. destruct (Z.eqb_spec (key + previous) offset) as [Heq|Hne].
  - rewrite u64_add_small by lia. rewrite removelast_last. apply sorted_app in Hs as (Hs & _ & _).
    split_and!; [done| | |cbn; lia|].
    + split; cbn; try lia; [done|by apply aligned_add].
    + eapply Forall_impl; [exact Hg|]. done.
    + intros x. rewrite total_app. cbn. rewrite (Z.add_comm n), cov_merge, Heq by lia. lia.
  - split_and!; [| | |done|done].
    + split; [|done]. apply Forall_app. split; [done|]. apply Forall_singleton. by split.
    + by split.
    + apply Forall_app. unfold gap in *. cbn in *. split; [|constructor; [cbn; lia|constructor]].
      eapply Forall_impl; [exact Hg|]. cbn. lia.
Qed.

Lemma merge_next_spec e after :
  free_ok size after -> entry_ok size e -> Forall (fun r => e.1 + e.2 <= r.1) after ->
  free_ok size (merge_next e after) /\ Forall (fun r => e.1 <= r.1) (merge_next e after) /\
  forall x, total x (merge_next e after) = cov x e + total x after.
Proof.
  destruct e as [a n]. intros [He Hs] [E1 E2 E3 E4 E5] Ha. cbn in *. unfold merge_next. cbn [fst snd].
  destruct after as [|[key next] rest].
  { split_and!; [split|..]; repeat constructor; cbn; try lia; done. }
  apply Forall_cons in He as [[P1 P2 P3 P4 P5] He]. apply Forall_cons in Ha as [Hk Ha].
  apply StronglySorted_inv in Hs as [Hs Hg]. cbn in *.
  rewrite u64_add_small by lia. destruct (Z.eqb_spec (a + n) key) as [Heq|Hne].
  - rewrite u64_add_small by lia. split_and!.
    + split; constructor; try done; [split; cbn; try lia; [done|by apply aligned_add]|].
      eapply Forall_impl; [exact Hg|]. unfold gap. cbn. lia.
    + constructor; [cbn; lia|]. eapply Forall_impl; [exact Ha|]. cbn. lia.
    + intros x. cbn. rewrite cov_merge, Heq by lia. lia.
  - split_and!.
    + split; repeat (constructor; try done); unfold gap; cbn; [lia|].
      eapply Forall_impl; [exact Hg|]. unfold gap. cbn. lia.
    + constructor; [cbn; lia|]. constructor; [cbn; lia|]. eapply Forall_impl; [exact Ha|]. cbn. lia.
    + done.
Qed.

(** A returned range joins the free list, merged with its neighbours. *)
Lemma insert_range_spec l offset n :
  free_ok size l -> entry_ok size (offset, n) -> Forall (apart_from offset n) l ->
  exists l', insert_range offset n l = Some l' /\ free_ok size l' /\
    forall x, total x l' = total x l + cov x (offset, n).
Proof.
  intros [He Hs] Hn Hap. unfold insert_range, emplace.
  destruct (split_at_spec offset l) as (before & after & -> & -> & Hlow & Hhigh).
  { eapply Forall_impl; [exact He|]. by intros r []. }
  { done. }
  { apply Forall_forall. intros r Hr Heq. rewrite Forall_forall in Hap, He.
    destruct (He r Hr), (Hap r Hr), Hn; cbn in *; lia. }
  apply Forall_app in He as [He1 He2]. apply sorted_app in Hs as (Hs1 & Hs2 & _).
  apply Forall_app in Hap as [Hap1 Hap2].
  pose proof (merge_previous_spec before offset n) as Hp.
  destruct (merge_previous before offset n) as [rest e].
  destruct Hp as ([Hr1 Hr2] & Hee & Hg & Hend & Ht1); [by split|done| |].
  { apply Forall_forall. intros r Hr. rewrite Forall_forall in Hap1, Hlow.
    destruct (Hap1 r Hr) as [|H]; [done|]. pose proof (Hlow r Hr). destruct Hn; cbn in *; lia. }
  destruct (merge_next_spec e after) as ([Hm1 Hm2] & Hge & Ht2); [by split|done| |].
  { apply Forall_forall. intros r Hr. rewrite Forall_forall in Hap2, Hhigh. pose proof (Hhigh r Hr).
    destruct (Hap2 r Hr) as [H1|H1]; [|lia]. rewrite Forall_forall in He2. destruct (He2 r Hr). lia. }
  eexists. split_and!; [done| |].
  - split; [by apply Forall_app|]. apply sorted_app. split_and!; [done..|].
    intros a b Ha Hb. rewrite Forall_forall in Hg, Hge. specialize (Hg a Ha). specialize (Hge b Hb).
    unfold gap in *. lia.
  - intros x. rewrite !total_app, Ht2. specialize (Ht1 x). lia.
Qed.

(** First fit. *)
Lemma take_range_spec n l :
  free_ok size l -> 0 < n -> aligned n ->
  match take_range n l with
  | Some (offset, rest) =>
      free_ok size rest /\ entry_ok size (offset, n) /\
      (forall a, Forall (gap a) l -> Forall (gap a) rest) /\
      forall x, total x l = total x rest + cov x (offset, n)
  | None => Forall (fun r => r.2 < n) l
  end.
Proof.
  intros [He Hs] Hn Hal. induction l as [|[offset available] l IH]; cbn; [done|].
  apply Forall_cons in He as [[P1 P2 P3 P4 P5] He]. apply StronglySorted_inv in Hs as [Hs Hg]. cbn in *.
  specialize (IH He Hs). destruct (Z.ltb_spec available n).
  - destruct (take_range n l) as [[found rest]|]; [|by constructor].
    destruct IH as ([Hf1 Hf2] & Hf & Hgap & Ht). split_and!; [|done| |].
    + split; constructor; try done. by apply Hgap.
    + intros a [Ha1 Ha2]%Forall_cons. constructor; [done|by apply Hgap].
    + intros x. cbn. rewrite Ht. lia.
  - rewrite u64_sub_small by lia. destruct (Z.eqb_spec (available - n) 0) as [Heq|Hne].
    + assert (available = n) as -> by lia. split_and!; [by split|by split| |intros x; lia].
      by intros a [_ Ha]%Forall_cons.
    + rewrite u64_add_small by lia. split_and!.
      * split; constructor; try done.
        -- split; cbn; try lia; [by apply aligned_add|by apply aligned_sub].
        -- eapply Forall_impl; [exact Hg|]. unfold gap. cbn. lia.
      * split; cbn; try done; lia.
      * intros a [Ha1 Ha2]%Forall_cons. constructor; [|done]. unfold gap in *. cbn in *. lia.
      * intros x. cbn. replace available with (n + (available - n)) at 1 by lia.
        rewrite cov_merge by lia. lia.
Qed.
End pool_size.

(** ** The scratch pool over any run

    Allocations and releases in any order, with the kernel failing anywhere:
    the pool stays partitioned between the free list and the live allocations,
    and the ledger stays accounted for. *)

Lemma accounted_plain L a l :
  ra_reservation_address a = 0 -> accounted DriverPages L a l <->
  (l = with_buffer DriverPages a L /\ (ra_handle a <> 0 -> lg_buffers L !! ra_handle a = None) /\
   (0 <= ra_unmapped_device_count a <= ra_mapped_device_count a /\
    ra_mapped_device_count a <= Z.of_nat (length (ra_gpu_ids a))) /\
   (ra_handle a = 0 -> ra_mapped_device_count a = 0)).
Proof.
  intros Hr. split.
  - intros [Hl _ Hb Hc Hm _]. split_and!; try done; [|lia..].
    rewrite Hl. unfold with_range. by rewrite Hr.
  - intros (Hl & Hb & Hc & Hm). split; try done. rewrite Hl. unfold with_range. by rewrite Hr.
Qed.

(** ** What the pool holds *)

(** The range of the pool an allocation owns. *)
Definition live (base : Z) (r : RawScratchAllocationResult) : Z * Z :=
  (rs_gpu_address r - base, rs_size r).

Record owner_ok (gpu_id base size : Z) (r : RawScratchAllocationResult) : Prop := {
  oo_entry : entry_ok size (live base r);
  oo_owned : rs_pool_range_owned r = true;
  oo_gpu_id : rs_gpu_id r = gpu_id;
  oo_plain : ra_reservation_address (rs_allocation r) = 0;
  oo_integrated : rs_integrated r = true -> ra_handle (rs_allocation r) = 0
}.

(** A reservation of the pool that the rest does not know. *)
Record range_reserved (L : ledger) (address size : Z) : Prop := {
  rr_address : address <> 0;
  rr_fresh : fresh_range L address size
}.

Abbreviation pool_reserved L pool :=
  (range_reserved L (sp_reservation_address pool) (sp_reservation_size pool)).

Definition with_pool (pool : ScratchPoolState) (L : ledger) : ledger :=
  add_range (sp_reservation_address pool) (sp_reservation_size pool) L.

Lemma pool_alone L pool :
  pool_reserved L pool -> alone (with_pool pool L) (sp_reservation_address pool) (sp_reservation_size pool).
Proof.
  intros [_ [_ _ _ Ha _]] start size. cbn. intros [[<- _]|[_ Hs]]%lookup_insert_Some; [lia|].
  by eapply Ha.
Qed.

(** A pool in use: a 64 KiB-aligned span of 4 GiB inside its reservation, with
    guard pages around it, every byte of it either free, live or taken (off the
    free list, with no owner yet), once. *)
Record pool_inv (L : ledger) (gpu_id : Z) (pool : ScratchPoolState) (taken : ranges)
    (owners : list RawScratchAllocationResult) (l : ledger) : Prop := {
  pi_reserved : pool_reserved L pool;
  pi_configured : sp_configured pool = true;
  pi_size : sp_size pool = kGfx11ScratchPoolSize;
  pi_aligned : aligned (sp_gpu_address pool);
  pi_span : 0 < sp_reservation_address pool /\
    sp_reservation_address pool + kMemoryPageSize <= sp_gpu_address pool /\
    sp_gpu_address pool + sp_size pool + kMemoryPageSize <=
      sp_reservation_address pool + sp_reservation_size pool < U64_MOD;
  pi_free : free_ok (sp_size pool) (sp_free_ranges pool);
  pi_taken : Forall (entry_ok (sp_size pool)) taken;
  pi_owners : Forall (owner_ok gpu_id (sp_gpu_address pool) (sp_size pool)) owners;
  pi_partition : forall x,
    total x (sp_free_ranges pool) + total x (live (sp_gpu_address pool) <$> owners) + total x taken =
      cov x (0, sp_size pool);
  pi_ledger : held (with_pool pool L) (rs_allocation <$> owners) l
}.

(** The pool of a GPU: not made yet, in use, or left over from a failed
    initialization whose reservation could not be unmapped. *)
Definition device_inv (L : ledger) (gpu_id : Z) (device : DeviceVmState)
    (owners : list RawScratchAllocationResult) (l : ledger) : Prop :=
  match dv_scratch_pool device with
  | None => owners = [] /\ l = L
  | Some pool =>
      if sp_configured pool then pool_inv L gpu_id pool [] owners l
      else pool_reserved L pool /\ owners = [] /\ l = with_pool pool L
  end.

Definition session_inv (L : ledger) (gpu_id : Z) (state : KfdState)
    (owners : list RawScratchAllocationResult) (l : ledger) : Prop :=
  match ks_device_vms state !! gpu_id with
  | None => owners = [] /\ l = L
  | Some device => device_inv L gpu_id device owners l
  end.

Lemma session_inv_set_device L gpu_id state device owners l :
  session_inv L gpu_id (set_device state gpu_id device) owners l <->
  device_inv L gpu_id device owners l.
Proof. unfold session_inv, set_device. cbn. by rewrite lookup_insert_eq. Qed.

(** All free again: the list is one range. *)
Lemma free_all size l :
  0 < size -> free_ok size l -> (forall x, total x l = cov x (0, size)) -> l = [(0, size)].
Proof.
  intros Hs [He Hso] Ht. destruct l as [|[o n] l].
  { specialize (Ht 0). unfold cov in Ht. cbn in Ht. case_match; lia. }
  apply Forall_cons in He as [[E1 E2 E3 _ _] He]. apply StronglySorted_inv in Hso as [Hso Hg].
  cbn in *. assert (forall x, x < o + n + 1 -> total x l = 0) as Hz.
  { intros x Hx. clear -Hg Hx He. induction l as [|[o' n'] l IH]; cbn; [done|].
    apply Forall_cons in Hg as [Hg1 Hg]. apply Forall_cons in He as [[? ? ? _ _] He].
    rewrite (IH He Hg). unfold gap, cov in *. cbn in *. case_match; lia. }
  assert (o = 0) as ->.
  { pose proof (Ht 0) as H0. rewrite Hz in H0 by lia. unfold cov in H0. cbn in H0.
    repeat case_match; lia. }
  assert (n = size) as ->.
  { pose proof (Ht n) as Hn. rewrite Hz in Hn by lia. unfold cov in Hn. cbn in Hn.
    repeat case_match; lia. }
  destruct l as [|[o' n'] l]; [done|]. apply Forall_cons in He as [[? ? ? _ _] _].
  apply Forall_cons in Hg as [Hg _]. unfold gap in Hg. cbn in *. lia.
Qed.

Section steps.
Context (L : ledger) (gpu_id : Z).

Lemma pool_inv_take pool owners l n offset rest :
  pool_inv L gpu_id pool [] owners l -> 0 < n -> aligned n ->
  take_range n (sp_free_ranges pool) = Some (offset, rest) ->
  pool_inv L gpu_id (set_free pool rest) [(offset, n)] owners l.
Proof.
  intros [] Hn Ha Ht. pose proof (take_range_spec (sp_size pool) ltac:(rewrite pi_size0; done) n
    (sp_free_ranges pool) pi_free0 Hn Ha) as H. rewrite Ht in H. destruct H as (Hf & He & _ & Htot).
  split; try done; [by constructor|]. intros x. cbn. specialize (pi_partition0 x). rewrite Htot in *.
  cbn in pi_partition0. lia.
Qed.

Lemma pool_inv_own pool owners l0 l r offset n :
  pool_inv L gpu_id pool [(offset, n)] owners l0 ->
  live (sp_gpu_address pool) r = (offset, n) -> rs_pool_range_owned r = true -> rs_gpu_id r = gpu_id ->
  ra_reservation_address (rs_allocation r) = 0 ->
  (rs_integrated r = true -> ra_handle (rs_allocation r) = 0) ->
  accounted DriverPages l0 (rs_allocation r) l ->
  pool_inv L gpu_id pool [] (r :: owners) l.
Proof.
  intros [] Hlive Hown Hid Hr Hi Hacc. rewrite Forall_singleton in pi_taken0.
  split; try done.
  - constructor; [|done]. split; try done. by rewrite Hlive.
  - intros x. specialize (pi_partition0 x). cbn in *. rewrite Hlive. lia.
  - by econstructor.
Qed.

Lemma pool_inv_disown pool owners l (i : nat) r :
  pool_inv L gpu_id pool [] owners l -> owners !! i = Some r ->
  exists l0, pool_inv L gpu_id pool [live (sp_gpu_address pool) r] (delete i owners) l0 /\
    owner_ok gpu_id (sp_gpu_address pool) (sp_size pool) r /\ accounted DriverPages l0 (rs_allocation r) l.
Proof.
  intros [] Hi. pose proof (delete_Permutation _ _ _ Hi) as Hp.
  rewrite Hp in pi_owners0, pi_ledger0. cbn in pi_ledger0.
  apply Forall_cons in pi_owners0 as [Hr Ho]. inversion pi_ledger0 as [|? ? l0 ? Hl0 Hacc]; subst.
  exists l0. split_and!; [|done..]. split; try done.
  - constructor; [apply Hr|done].
  - intros x. specialize (pi_partition0 x).
    assert (total x (live (sp_gpu_address pool) <$> owners) = total x (live (sp_gpu_address pool) <$> r :: delete i owners)) as Heq.
    { clear -Hp. assert (forall l1 l2 : ranges, l1 ≡ₚ l2 -> total x l1 = total x l2) as H.
      { induction 1; cbn; lia. }
      apply H. by rewrite <-Hp. }
    cbn in *. lia.
Qed.

Lemma pool_inv_apart pool owners l offset n :
  pool_inv L gpu_id pool [(offset, n)] owners l -> Forall (apart_from offset n) (sp_free_ranges pool).
Proof.
  intros [_ _ _ _ _ [Hf _] Ht _ Hp _]. rewrite Forall_singleton in Ht; destruct Ht as [_ Hn _ _ _].
  apply Forall_forall. intros r Hr. eapply apart_of_total; [|done|exact Hr|].
  - intros x. specialize (Hp x). pose proof (total_nonneg x (live (sp_gpu_address pool) <$> owners)).
    pose proof (cov_nonneg x (0, sp_size pool)). cbn in Hp. lia.
  - rewrite Forall_forall in Hf. by apply Hf.
Qed.

Context {W : Type} `{!Kernel W, !KernelLaws W}.

Lemma add_free_scratch_range_inv pool owners l offset n (w : W) :
  pool_inv L gpu_id pool [(offset, n)] owners l ->
  wp (add_free_scratch_range pool offset n) (fun '(status, pool') w' =>
    ledger_of w' = ledger_of w /\
    (if status_ok status then pool_inv L gpu_id pool' [] owners l else pool' = pool)) w.
Proof.
  intros Hinv. unfold add_free_scratch_range. apply wp_bind, wp_new. intros b w' Hw.
  destruct b; cbn [negb]; [|by apply wp_give].
  pose proof (pool_inv_apart _ _ _ _ _ Hinv) as Hap. destruct Hinv. rewrite Forall_singleton in pi_taken0.
  destruct (insert_range_spec (sp_size pool) ltac:(rewrite pi_size0; done) (sp_free_ranges pool) offset n)
    as (l' & -> & Hf & Ht); [done..|].
  apply wp_give. split; [done|]. cbn [status_ok]. rewrite status_ok_no_error.
  split; try done. intros x. specialize (pi_partition0 x). cbn in *. rewrite Ht. lia.
Qed.
End steps.

(** ** Allocation *)

Section allocation.
Context {W : Type} `{!Kernel W, !KernelLaws W} (L : ledger) (gpu_id : Z).

(** A range whose size the result no longer tells: its mapping failed, its
    backing was released, and the pool had no memory to take it back. *)
Record range_forgotten (r : RawScratchAllocationResult) : Prop := {
  fg_size : ra_size (rs_allocation r) = 0;
  fg_backing : holds_nothing (rs_allocation r) = true;
  fg_failed : status_ok (rs_status r) = false;
  fg_refused : exists pool offset status (w w' : W),
    add_free_scratch_range pool offset (rs_size r) w = Ok ((status, pool), w') /\ status_ok status = false
}.

(** The allocation of a result has the size of its range, or the range is
    forgotten. *)
Definition sized (r : RawScratchAllocationResult) : Prop :=
  ra_size (rs_allocation r) = rs_size r \/ range_forgotten r.

(** The contract of taking a range: whatever fails, the range is owned by the
    result or free again; success gives a mapped range of the size asked for. *)
Definition grants (owners : list RawScratchAllocationResult) (size : Z)
    (result : RawScratchAllocationResult * ScratchPoolState) (w : W) : Prop :=
  pool_inv L gpu_id result.2 [] (if rs_pool_range_owned result.1 then result.1 :: owners else owners)
    (ledger_of w) /\ sized result.1 /\
  (status_ok (rs_status result.1) = true ->
     rs_pool_range_owned result.1 = true /\ rs_gpu_mapped result.1 = true /\ rs_size result.1 = size /\
     (rs_integrated result.1 = false -> ra_handle (rs_allocation result.1) <> 0 /\
        ra_mapped_device_count (rs_allocation result.1) = 1 /\
        ra_unmapped_device_count (rs_allocation result.1) = 0)).

Lemma grants_failed owners size r pool w :
  status_ok (rs_status r) = false ->
  pool_inv L gpu_id pool [] (if rs_pool_range_owned r then r :: owners else owners) (ledger_of w) ->
  sized r -> grants owners size (r, pool) w.
Proof. intros Hs Hi Hz. split_and!; [done|done|]. cbn. by rewrite Hs. Qed.

Lemma live_offset base offset n size r :
  0 <= base -> entry_ok size (offset, n) -> base + size < U64_MOD ->
  rs_gpu_address r = u64_add base offset -> rs_size r = n -> live base r = (offset, n).
Proof.
  intros Hb [] Hlim Ha Hn. cbn in *. unfold live. rewrite Ha, Hn, u64_add_small by lia.
  f_equal. lia.
Qed.

Lemma pool_inv_live pool owners l offset n r :
  pool_inv L gpu_id pool [(offset, n)] owners l ->
  rs_gpu_address r = u64_add (sp_gpu_address pool) offset -> rs_size r = n ->
  live (sp_gpu_address pool) r = (offset, n).
Proof.
  intros [] Ha Hn. rewrite Forall_singleton in pi_taken0. unfold kMemoryPageSize in *.
  eapply live_offset; [|done| |done|done]; lia.
Qed.

Lemma restore_range_inv status pool offset a n owners size w :
  pool_inv L gpu_id pool [(offset, n)] owners (ledger_of w) -> status_ok status = false ->
  accounted DriverPages (ledger_of w) a (ledger_of w) ->
  ra_reservation_address a = 0 -> ra_handle a = 0 -> ra_size a = n \/ ra_size a = 0 ->
  wp (restore_range status pool offset a (u64_add (sp_gpu_address pool) offset) n gpu_id false)
    (grants owners size) w.
Proof.
  intros Hinv Hst Ha Hr Hh Hsz. unfold restore_range. apply wp_bind.
  destruct (wp_run _ _ _ (add_free_scratch_range_inv L gpu_id pool owners _ offset n w Hinv))
    as ([restored pool'] & w' & Erun & Hw & Hp).
  unfold wp at 1. rewrite Erun. apply wp_give. destruct (status_ok restored) eqn:Hrs.
  - apply grants_failed; [done|by rewrite Hw|by left].
  - subst pool'. apply grants_failed; cbn; [by rewrite status_ok_append_cleanup| |].
    + rewrite Hw. eapply pool_inv_own; try done. by eapply pool_inv_live.
    + destruct Hsz as [Hsz|Hsz]; [by left|right]. split; cbn; [done| |by rewrite status_ok_append_cleanup|].
      * unfold holds_nothing. by rewrite Hr, Hh.
      * by exists pool, offset, restored, w, w'.
Qed.

Lemma pool_inside pool taken owners l offset n :
  pool_inv L gpu_id pool taken owners l -> entry_ok (sp_size pool) (offset, n) ->
  inside l (u64_add (sp_gpu_address pool) offset) n.
Proof.
  intros [] [E1 E2 E3 _ _]. cbn in *. unfold kMemoryPageSize in *.
  rewrite u64_add_small by lia. exists (sp_reservation_address pool), (sp_reservation_size pool).
  split; [eapply held_keeps_range; [done|apply lookup_insert_eq]|lia].
Qed.

Lemma release_memory_plain fd l a w :
  accounted DriverPages l a (ledger_of w) -> ra_reservation_address a = 0 ->
  wp (release_memory fd a) (fun '(status, b) w' =>
    accounted DriverPages l b (ledger_of w') /\
    (ra_reservation_address b = 0 /\ (ra_size b = ra_size a \/ ra_size b = 0 /\ status_ok status = true)) /\
    (status_ok status = true -> ra_handle b = 0 /\ ledger_of w' = l)) w.
Proof.
  intros Ha Hr. pose proof (release_memory_accounts DriverPages l fd a w ltac:(done) Ha) as H. unfold wp in *.
  destruct (release_memory fd a w) as [[[status b] w']|[]|f] eqn:Hrun; [|done].
  destruct H as [Hb Hok]. cbn in *. split; [done|]. split; [|intros Hs; by destruct (Hok Hs) as (_ & ? & ?)].
  clear Hb Hok. assert (wp (release_memory fd a) (fun '(status, b) _ => ra_reservation_address b = 0 /\
    (ra_size b = ra_size a \/ ra_size b = 0 /\ status_ok status = true)) w) as H.
  { unfold release_memory. wp_if as G1; [apply wp_give; auto|]. wp_if as G2; [apply wp_give; auto|].
    apply wp_bind. eapply wp_mono; [by apply unmap_memory_accounts|].
    intros [unmapped c] w1 (Hc & Hplace & _). destruct Hplace as (Hcr & _ & _ & _ & Hcs & _).
    rewrite Hr in Hcr. destruct (status_ok unmapped); cbn [negb]; [|apply wp_give; auto].
    unfold unmap_reservation. rewrite Hcr. cbn. apply wp_bind, wp_give. cbv zeta.
    apply wp_bind. unfold free_handle. wp_if as G3; [apply wp_give, wp_give; auto|].
    unfold wp, invoke_ioctl, mbind, kfd_bind.
    destruct (law_patient fd (FREE_MEMORY_OF_GPU (ra_handle c)) w1) as (reply & w2 & Hio).
    unfold invoke_ioctl in Hio. rewrite Hio. cbn. destruct (rp_errno reply =? 0); cbn; auto. }
  unfold wp in H. by rewrite Hrun in H.
Qed.

Lemma back_range_inv fd pool offset n owners w :
  pool_inv L gpu_id pool [(offset, n)] owners (ledger_of w) ->
  wp (back_range fd gpu_id pool offset n) (grants owners n) w.
Proof.
  intros Hinv. unfold back_range. cbv zeta. apply wp_bind, wp_new. intros b w1 Hw1.
  rewrite <-Hw1 in Hinv. destruct b; cbn [negb].
  2:{ apply restore_range_inv; try done; by left. }
  assert (entry_ok (sp_size pool) (offset, n)) as He.
  { destruct Hinv. by rewrite Forall_singleton in pi_taken0. }
  apply wp_bind, wp_alloc; [cbn; by eapply pool_inside|]. intros reply w2 Hhd _ Hl.
  destruct (rp_errno reply =? 0); cbn [negb andb] in *.
  2:{ rewrite <-Hl in Hinv. apply restore_range_inv; try done; by left. }
  destruct (Z.eqb_spec (rp_handle reply) 0) as [Hz|Hz]; cbn [negb] in *.
  { rewrite <-Hl in Hinv. apply restore_range_inv; try done; by left. }
  destruct Hl as [Hnew Hl]. set (a := set_handle _ _).
  assert (accounted DriverPages (ledger_of w1) a (ledger_of w2)) as Ha.
  { apply accounted_plain; [done|]. cbn. split_and!; try done; try lia. rewrite Hl.
    unfold with_buffer, user_pages. cbn. apply Z.eqb_neq in Hz. by rewrite Hz. }
  apply wp_bind. change [gpu_id] with (ra_gpu_ids a). eapply wp_mono; [by apply map_memory_accounts|].
  intros [mapped c] w3 (Hc & (E1 & E2 & E3 & E4 & E5 & E6) & Hids & Hmap). cbn in E1, E6.
  destruct (status_ok mapped) eqn:Hm.
  - apply wp_give. destruct (Hmap eq_refl) as (M1 & M2 & M3). rewrite Hids in M3. split; [|split].
    + eapply pool_inv_own; try done. by eapply pool_inv_live.
    + left. cbn. by rewrite E5.
    + intros _. cbn. split_and!; [done..|]. intros _. by rewrite E6.
  - apply wp_bind. eapply wp_mono; [by apply release_memory_plain|].
    intros [cleanup d] w4 (Hd & [Hdr Hds] & Hdok). rewrite E5 in Hds. cbn in Hds. destruct (status_ok cleanup) eqn:Hcl; cbn [negb].
    + destruct (Hdok eq_refl) as [Hdh Hw4]. rewrite <-Hw4 in Hinv, Hd.
      apply restore_range_inv; try done. by destruct Hds as [?|[? _]]; [left|right].
    + apply wp_give, grants_failed; cbn; [by rewrite status_ok_append_cleanup| |by destruct Hds as [?|[_ ?]]; [left|]].
      eapply pool_inv_own; try done. by eapply pool_inv_live.
Qed.

(** ** Initialization *)

(** A pool that is not in use: reserved, or nothing. *)
Definition pool_left (pool : ScratchPoolState) (l : ledger) : Prop :=
  sp_configured pool = false /\
  (if sp_reservation_address pool =? 0 then l = L else pool_reserved L pool /\ l = with_pool pool L).

Lemma release_pool_reservation_inv pool w :
  pool_left pool (ledger_of w) ->
  wp (release_pool_reservation pool) (fun '(status, pool') w' =>
    pool_left pool' (ledger_of w') /\
    (if status_ok status then sp_reservation_address pool' = 0 else pool' = pool)) w.
Proof.
  intros Hl. pose proof Hl as [Hc Hp]. unfold release_pool_reservation.
  destruct (Z.eqb_spec (sp_reservation_address pool) 0) as [Hz|Hz]; [by apply wp_give|].
  destruct Hp as [Hr Hw]. pose proof Hr as [R1 [R2 R3 R4 _ _]]. apply wp_bind, wp_munmap.
  { rewrite Hw. apply lookup_insert_eq. }
  { rewrite Hw. by apply pool_alone. }
  { by rewrite Hw. }
  intros errno w' Hw'. apply wp_give. destruct (errno =? 0).
  - split; [|done]. split; [done|]. cbn. rewrite Hw', Hw. unfold remove_range, with_pool, add_range. cbn.
    rewrite delete_insert_id by done. rewrite difference_disjoint_L by set_solver. by destruct L.
  - by rewrite Hw'.
Qed.

(** The outcome of an initialization. *)
Definition initialized (result : MemoryStatus * ScratchPoolState) (w : W) : Prop :=
  if status_ok result.1 then pool_inv L gpu_id result.2 [] [] (ledger_of w)
  else pool_left result.2 (ledger_of w).

Lemma abandon_pool_inv status pool w :
  status_ok status = false -> pool_left pool (ledger_of w) ->
  wp (abandon_pool status pool) initialized w.
Proof.
  intros Hs Hl. unfold abandon_pool. apply wp_bind.
  eapply wp_mono; [by apply release_pool_reservation_inv|]. intros [cleanup pool'] w' [Hp _].
  apply wp_give. unfold initialized. cbn. by rewrite status_ok_append_cleanup, Hs.
Qed.

(** The span of a pool that is about to be configured. *)
Record placed (pool : ScratchPoolState) : Prop := {
  pd_size : sp_size pool = kGfx11ScratchPoolSize;
  pd_aligned : aligned (sp_gpu_address pool);
  pd_span : 0 < sp_reservation_address pool /\
    sp_reservation_address pool + kMemoryPageSize <= sp_gpu_address pool /\
    sp_gpu_address pool + sp_size pool + kMemoryPageSize <=
      sp_reservation_address pool + sp_reservation_size pool < U64_MOD
}.

Lemma pool_left_reserved pool l :
  pool_left pool l -> sp_reservation_address pool <> 0 -> pool_reserved L pool /\ l = with_pool pool L.
Proof. intros [_ H] Hz. apply Z.eqb_neq in Hz. by rewrite Hz in H. Qed.

Lemma configure_pool_inv fd pool w :
  pool_left pool (ledger_of w) -> placed pool -> wp (configure_pool fd gpu_id pool) initialized w.
Proof.
  intros Hl [Hsz Hal Hsp]. unfold configure_pool. apply wp_bind, wp_quiet; [done|].
  intros reply w1 Hw1. rewrite <-Hw1 in Hl.
  destruct (rp_errno reply =? 0); cbn [negb]; [|by apply abandon_pool_inv].
  apply wp_bind, wp_new. intros b w2 Hw2. rewrite <-Hw2 in Hl.
  destruct b; cbn [negb]; [|by apply abandon_pool_inv]. apply wp_give.
  destruct (pool_left_reserved _ _ Hl) as [Hr Hw]; [lia|].
  unfold initialized. cbn [fst snd]. rewrite status_ok_no_error. split; cbn; try done.
  - rewrite Hsz. split; [|repeat constructor]. apply Forall_singleton. by split.
  - intros x. lia.
  - rewrite Hw. constructor.
Qed.

Lemma pool_left_set_span pool gpu_address size l :
  pool_left pool l -> pool_left (set_span pool gpu_address size) l.
Proof. done. Qed.

Lemma place_pool_inv fd aperture pool w :
  ap_gpu_id aperture = gpu_id -> pool_left pool (ledger_of w) ->
  0 < sp_reservation_address pool < U64_MOD -> sp_reservation_size pool = pool_reservation_size ->
  wp (place_pool fd aperture pool) initialized w.
Proof.
  intros Hid Hl Hr Hsz. unfold place_pool. cbv zeta.
  change pool_reservation_size with 4295041024 in *. change kGfx11ScratchPoolSize with 4294967296.
  change kMemoryPageSize with 4096. change kScratchBackingAlignment with (2 ^ 16).
  wp_if as G1; [by apply abandon_pool_inv|]. rewrite u64_sub_small in G1 by lia.
  rewrite !(u64_add_small (sp_reservation_address pool)) by lia.
  destruct (round_up_spec (sp_reservation_address pool + 4096) 16) as [[B1 B2] B3]; [lia..|].
  set (gpu_address := round_up _ _) in *.
  wp_if as G2; [by apply abandon_pool_inv|].
  assert (gpu_address + 4294967296 + 4096 <= sp_reservation_address pool + 4295041024) as Hend.
  { rewrite (u64_sub_small (sp_reservation_address pool + 4295041024)) in G2 by lia. lia. }
  destruct (pool_left_reserved _ _ Hl) as [Hrr Hw]; [lia|].
  pose proof (pool_left_set_span pool gpu_address 4294967296 _ Hl) as Hl2.
  set (pool2 := set_span pool gpu_address 4294967296) in *.
  assert (inside (ledger_of w) gpu_address 4294967296) as Hin.
  { rewrite Hw. exists (sp_reservation_address pool), (sp_reservation_size pool). cbn.
    split; [apply lookup_insert_eq|lia]. }
  assert (inner (ledger_of w) (sp_reservation_address pool) gpu_address 4294967296) as Hinner.
  { rewrite Hw. eapply alone_inner; [apply lookup_insert_eq|by apply pool_alone|apply Hrr|lia..]. }
  assert (placed pool2) as Hp by (split; cbn; [done|done|unfold kMemoryPageSize; lia]).
  apply wp_bind. assert (wp (map_integrated pool2) (fun r w' => ledger_of w' = ledger_of w /\
    match r with Some status => status_ok status = false | None => True end) w) as Hmap.
  { unfold map_integrated. destruct (sp_integrated pool2); [|by apply wp_give].
    eapply wp_bind, wp_mmap_fixed; [done|exact Hinner|]. intros r w1 Hw1 _. apply wp_give. by destruct r. }
  eapply wp_mono; [exact Hmap|]. intros [status|] w1 [Hw1 Hst]; rewrite <-Hw1 in Hl2, Hin;
    [by apply abandon_pool_inv|].
  apply wp_bind, wp_madvise; [done|]. intros errno w2 Hw2. rewrite <-Hw2 in Hl2.
  destruct (errno =? 0); cbn [negb]; [|by apply abandon_pool_inv].
  rewrite Hid. by apply configure_pool_inv.
Qed.

Lemma initialize_scratch_pool_inv fd aperture integrated w :
  ap_gpu_id aperture = gpu_id -> ledger_of w = L ->
  wp (initialize_scratch_pool fd aperture integrated new_pool) initialized w.
Proof.
  intros Hid Hw. unfold initialize_scratch_pool. wp_if as G1; [by apply wp_give|].
  wp_if as G2; [by apply wp_give|]. apply wp_bind, wp_mmap_new; [done| |].
  { intros errno w' Hw'. apply wp_give. unfold initialized. cbn. rewrite Hw'. by rewrite Hw. }
  intros address w' Ha _ Hfresh Hw'. apply place_pool_inv; [done| |done|done].
  split; [done|]. cbn. destruct (Z.eqb_spec address 0); [lia|]. rewrite Hw in *. split; [|done].
  by split.
Qed.

Lemma ensure_pool_inv fd aperture integrated device owners w :
  ap_gpu_id aperture = gpu_id -> device_inv L gpu_id device owners (ledger_of w) ->
  wp (ensure_pool fd aperture integrated device) (fun '(status, device') w' =>
    device_inv L gpu_id device' owners (ledger_of w') /\
    (status_ok status = true -> exists pool, dv_scratch_pool device' = Some pool /\
       pool_inv L gpu_id pool [] owners (ledger_of w'))) w.
Proof.
  intros Hid Hd. unfold ensure_pool.
  apply wp_bind. apply (wp_mono _ (fun '(cleanup, device') w' =>
    device_inv L gpu_id device' owners (ledger_of w') /\
    (status_ok cleanup = true -> match dv_scratch_pool device' with
       | Some pool => pool_inv L gpu_id pool [] owners (ledger_of w')
       | None => True end))).
  { destruct (dv_scratch_pool device) as [pool|] eqn:Hpool; [|by apply wp_give; rewrite Hpool].
    pose proof Hd as Hd'. unfold device_inv in Hd'. rewrite Hpool in Hd'.
    wp_if as G; [apply wp_give; by rewrite Hpool|]. destruct Hd' as (Hr & -> & Hw).
    assert (pool_left pool (ledger_of w)) as Hl.
    { split; [done|]. destruct Hr as [Hz ? ?]. apply Z.eqb_neq in Hz as Hz'. by rewrite Hz'. }
    apply wp_bind. eapply wp_mono; [by apply release_pool_reservation_inv|].
    intros [cleanup pool'] w' [[Hc Hl'] Hs]. apply wp_give. destruct (status_ok cleanup) eqn:Hcl.
    - rewrite Hs in Hl'. by split.
    - subst pool'. destruct Hr as [Hz ? ?]. apply Z.eqb_neq in Hz as Hz'. rewrite Hz' in Hl'.
      split; [|done]. unfold device_inv. cbn. rewrite Hc. by split_and!; [apply Hl'| |apply Hl']. }
  intros [cleanup device'] w1 [Hd1 Hok]. destruct (status_ok cleanup) eqn:Hcl; cbn [negb].
  2:{ apply wp_give. split; [done|]. by rewrite Hcl. }
  specialize (Hok eq_refl). destruct (dv_scratch_pool device') as [pool|] eqn:Hpool.
  { apply wp_give. split; [done|]. intros _. by exists pool. }
  unfold device_inv in Hd1. rewrite Hpool in Hd1. destruct Hd1 as [-> Hw1].
  apply wp_bind, wp_new. intros b w2 Hw2. destruct b; cbn [negb].
  2:{ apply wp_give. split; [|done]. unfold device_inv. rewrite Hpool. by rewrite Hw2. }
  apply wp_bind. eapply wp_mono; [by apply initialize_scratch_pool_inv; [|rewrite Hw2]|].
  intros [status pool] w3 Hi. apply wp_give. unfold initialized in Hi. cbn in Hi.
  destruct (status_ok status) eqn:Hs; cbn [negb andb].
  - split; [|intros _; by exists pool]. unfold device_inv. cbn. by rewrite (pi_configured _ _ _ _ _ _ Hi).
  - split; [|done]. destruct Hi as [Hc Hl]. unfold device_inv.
    destruct (sp_reservation_address pool =? 0); [done|]. cbn. rewrite Hc. by split_and!; [apply Hl| |apply Hl].
Qed.

Lemma take_scratch_inv fd aperture n integrated pool owners w :
  ap_gpu_id aperture = gpu_id -> 0 < n -> aligned n ->
  pool_inv L gpu_id pool [] owners (ledger_of w) ->
  wp (take_scratch fd aperture n integrated pool) (grants owners n) w.
Proof.
  intros Hid Hn Ha Hinv. unfold take_scratch. wp_if as G1; [apply wp_give, grants_failed; try done; by left|].
  destruct (take_range n (sp_free_ranges pool)) as [[offset rest]|] eqn:Ht;
    [|apply wp_give, grants_failed; try done; by left].
  pose proof (pool_inv_take L gpu_id _ _ _ _ _ _ Hinv Hn Ha Ht) as Hinv'. cbv zeta. rewrite Hid.
  destruct integrated; [|by apply back_range_inv].
  apply wp_give. split; [|split; [by left|done]]. eapply pool_inv_own; try done. by eapply pool_inv_live.
Qed.

Lemma allocate_scratch_inv state fd aperture size integrated owners w :
  ap_gpu_id aperture = gpu_id -> 0 <= size -> session_inv L gpu_id state owners (ledger_of w) ->
  wp (allocate_scratch state fd aperture size integrated) (fun '(r, state') w' =>
    session_inv L gpu_id state' (if rs_pool_range_owned r then r :: owners else owners)
      (ledger_of w') /\ sized r /\
    (status_ok (rs_status r) = true -> rs_pool_range_owned r = true)) w.
Proof.
  intros Hid Hsize Hinv. unfold allocate_scratch.
  assert (forall status, sized (no_scratch status)) as Hnone by by left.
  wp_if as G1; [by apply wp_give|]. wp_if as G2; [by apply wp_give|]. cbv zeta. rewrite Hid.
  pose proof Hinv as Hdev. unfold session_inv in Hdev.
  destruct (ks_device_vms state !! gpu_id) as [device|] eqn:Hd; [|by apply wp_give].
  wp_if as G3; [by apply wp_give|]. apply wp_bind. eapply wp_mono; [by apply ensure_pool_inv|].
  intros [status device'] w1 [Hd1 Hok].
  destruct (status_ok status) eqn:Hst; cbn [negb].
  2:{ apply wp_give. split; [|split; [done|cbn; by rewrite Hst]]. by apply session_inv_set_device. }
  destruct (Hok eq_refl) as (pool & -> & Hpool).
  change kScratchBackingAlignment with (2 ^ 16) in *.
  destruct (round_up_spec size 16) as [[B1 B2] B3]; [lia..|].
  apply wp_bind. eapply wp_mono; [apply take_scratch_inv; [done|lia|done|exact Hpool]|].
  intros [r pool'] w2 (Hp & Hz & Hr). apply wp_give. split; [|split; [done|intros Hs; by apply Hr]].
  apply session_inv_set_device. unfold device_inv. cbn in *.
  by rewrite (pi_configured _ _ _ _ _ _ Hp).
Qed.

(** ** Release *)

Lemma return_scratch_inv fd r pool owners l0 w :
  pool_inv L gpu_id pool [live (sp_gpu_address pool) r] owners l0 ->
  owner_ok gpu_id (sp_gpu_address pool) (sp_size pool) r ->
  accounted DriverPages l0 (rs_allocation r) (ledger_of w) ->
  wp (return_scratch fd r pool) (fun '(status, r', pool') w' =>
    pool_inv L gpu_id pool' [] (if rs_pool_range_owned r' then r' :: owners else owners)
      (ledger_of w') /\
    (rs_pool_range_owned r' = negb (status_ok status) /\ rs_integrated r' = rs_integrated r)) w.
Proof.
  intros Hinv [[E1 E2 E3 E4 E5] Hown Hid Hplain Hint] Hacc. cbn in E1, E2, E3.
  assert (0 <= sp_gpu_address pool /\ sp_gpu_address pool + sp_size pool < U64_MOD) as Hspan.
  { destruct Hinv. unfold kMemoryPageSize in *. lia. }
  assert (forall a g, pool_inv L gpu_id pool [live (sp_gpu_address pool) r] owners l0 ->
    forall w', ra_reservation_address a = 0 -> (rs_integrated r = true -> ra_handle a = 0) ->
    accounted DriverPages l0 a (ledger_of w') ->
    pool_inv L gpu_id pool [] (mkRawScratch (rs_status r) a (rs_gpu_address r) (rs_size r) (rs_gpu_id r)
            (rs_integrated r) g (rs_pool_range_owned r) :: owners) (ledger_of w')) as Hkeep.
  { intros a g Hi w' Ha Hh Hw'. by eapply pool_inv_own. }
  unfold return_scratch. rewrite !u64_sub_small by lia.
  wp_if as G1; [lia|]. apply wp_bind.
  apply (wp_mono _ (fun '(released, a) w' => accounted DriverPages l0 a (ledger_of w') /\
    ra_reservation_address a = 0 /\ (rs_integrated r = true -> ra_handle a = 0) /\
    (status_ok released = true -> ra_handle a = 0 /\ ledger_of w' = l0))).
  { destruct (rs_integrated r).
    - apply wp_give. split_and!; [done..|]. intros _. split; [by apply Hint|].
      apply accounted_plain in Hacc as (-> & _); [|done]. unfold with_buffer. by rewrite Hint.
    - eapply wp_mono; [by apply release_memory_plain|]. by intros [status b] w' (? & [? _] & ?). }
  intros [released a] w1 (Ha & Hra & Hia & Hok).
  destruct (status_ok released) eqn:Hrel; cbn [negb].
  2:{ apply wp_give. cbn. rewrite Hown, Hrel. cbn. split; [|done]. rewrite <-Hown. by apply Hkeep. }
  destruct (Hok eq_refl) as [Hha Hw1]. apply wp_bind.
  eapply wp_mono; [by apply add_free_scratch_range_inv|]. intros [restored pool'] w2 [Hw2 Hp].
  destruct (status_ok restored) eqn:Hres; cbn [negb]; apply wp_give; cbn.
  - split; [|done]. by rewrite Hw2, Hw1.
  - subst pool'. rewrite Hown, Hres. cbn. split; [|done]. rewrite <-Hown. apply Hkeep; try done.
    by rewrite Hw2.
Qed.

Lemma release_scratch_inv state fd i r owners w :
  gpu_id <> 0 -> owners !! i = Some r -> session_inv L gpu_id state owners (ledger_of w) ->
  wp (release_scratch state fd r) (fun '(status, r', state') w' =>
    session_inv L gpu_id state'
      (if rs_pool_range_owned r' then r' :: delete i owners else delete i owners) (ledger_of w') /\
    (rs_pool_range_owned r' = negb (status_ok status) /\ rs_integrated r' = rs_integrated r)) w.
Proof.
  intros Hnz Hi Hinv. unfold session_inv in Hinv.
  destruct (ks_device_vms state !! gpu_id) as [device|] eqn:Hd; [|destruct Hinv as [-> _]; by destruct i].
  unfold device_inv in Hinv. destruct (dv_scratch_pool device) as [pool|] eqn:Hpool;
    [|destruct Hinv as [-> _]; by destruct i].
  destruct (sp_configured pool) eqn:Hc; [|destruct Hinv as (_ & -> & _); by destruct i].
  destruct (pool_inv_disown _ _ _ _ _ _ _ Hinv Hi) as (l0 & Hinv0 & Hr & Hacc).
  pose proof Hr as [He Hown Hid Hplain Hint]. unfold release_scratch.
  wp_if as G1.
  { apply wp_give. rewrite Hown. split; [|done]. unfold session_inv, device_inv.
    rewrite Hd, Hpool, Hc. by eapply pool_inv_own. }
  cbv zeta. rewrite Hid, Hd, Hpool, Hc. cbn [negb]. apply wp_bind.
  eapply wp_mono; [by eapply return_scratch_inv|]. intros [[status r'] pool'] w' [Hp Hown'].
  apply wp_give. split; [|done]. apply session_inv_set_device. unfold device_inv. cbn.
  by rewrite (pi_configured _ _ _ _ _ _ Hp).
Qed.
End allocation.

(** ** Runs *)

(** What the owners of scratch ranges do: ask for one, or release the one at
    an index of the list of those they hold. *)
Inductive scratch_op :=
| AllocateScratch (size : Z) (integrated : bool)
| ReleaseScratch (index : nat).

Definition scratch_op_ok (op : scratch_op) : Prop :=
  match op with
  | AllocateScratch size _ => is_u64 size
  | ReleaseScratch _ => True
  end.

Section runs.
Context {W : Type} `{!Kernel W}.

Abbreviation session := (KfdState * list RawScratchAllocationResult)%type.

(** A release that fails leaves its owner with what it still holds. *)
Definition scratch_step (kfd_fd : Z) (aperture : ProcessAperture) (op : scratch_op) (s : session)
  : kfd W session :=
  match op with
  | AllocateScratch size integrated =>
      '(r, state) ← allocate_scratch s.1 kfd_fd aperture size integrated;
      give (state, if rs_pool_range_owned r then r :: s.2 else s.2)
  | ReleaseScratch index =>
      match s.2 !! index with
      | None => give s
      | Some r =>
          '(_, r', state) ← release_scratch s.1 kfd_fd r;
          give (state, if rs_pool_range_owned r' then r' :: delete index s.2 else delete index s.2)
      end
  end.

Fixpoint scratch_run (kfd_fd : Z) (aperture : ProcessAperture) (ops : list scratch_op) (s : session)
  : kfd W session :=
  match ops with
  | [] => give s
  | op :: ops => s ← scratch_step kfd_fd aperture op s; scratch_run kfd_fd aperture ops s
  end.

Context `{!KernelLaws W}.

Lemma scratch_run_inv L fd aperture ops s w :
  ap_gpu_id aperture <> 0 -> Forall scratch_op_ok ops ->
  session_inv L (ap_gpu_id aperture) s.1 s.2 (ledger_of w) ->
  wp (scratch_run fd aperture ops s) (fun s' w' =>
    session_inv L (ap_gpu_id aperture) s'.1 s'.2 (ledger_of w')) w.
Proof.
  intros Hnz Hops. revert s w. induction Hops as [|op ops Hop _ IH]; intros [state owners] w Hinv;
    cbn [scratch_run]; [by apply wp_give|]. apply wp_bind.
  apply (wp_mono _ (fun s' w' => session_inv L (ap_gpu_id aperture) s'.1 s'.2 (ledger_of w'))); [|auto].
  destruct op as [size integrated|index]; cbn [scratch_step].
  - apply wp_bind. eapply wp_mono; [apply allocate_scratch_inv; [done|apply Hop|exact Hinv]|].
    intros [r state'] w' (Hs & _). by apply wp_give.
  - cbn [snd]. destruct (owners !! index) as [r|] eqn:Hi; [|by apply wp_give].
    apply wp_bind. eapply wp_mono; [by eapply release_scratch_inv|].
    intros [[status r'] state'] w' [Hs _]. by apply wp_give.
Qed.
End runs.

Lemma total_perm x l1 l2 : l1 ≡ₚ l2 -> total x l1 = total x l2.
Proof. induction 1; cbn; lia. Qed.

Lemma elem_of_delete_other {A} (l : list A) i j x :
  l !! j = Some x -> i <> j -> x ∈ delete i l.
Proof.
  intros Hj Hne. destruct (decide (j < i)%nat).
  - apply (list_elem_of_lookup_2 _ j). by rewrite list_lookup_delete_lt.
  - apply (list_elem_of_lookup_2 _ (pred j)). rewrite list_lookup_delete_ge by lia.
    by replace (S (pred j)) with j by lia.
Qed.

(** Live ranges do not overlap. *)
Lemma pool_inv_disjoint L gpu_id pool owners l (i j : nat) a b :
  pool_inv L gpu_id pool [] owners l -> owners !! i = Some a -> owners !! j = Some b -> i <> j ->
  rs_gpu_address a + rs_size a <= rs_gpu_address b \/ rs_gpu_address b + rs_size b <= rs_gpu_address a.
Proof.
  intros [] Hi Hj Hne. set (base := sp_gpu_address pool) in *.
  assert (apart_from (live base a).1 (live base a).2 (live base b)) as H.
  { apply (apart_of_total _ _ (live base <$> delete i owners)).
    - intros x. specialize (pi_partition0 x). pose proof (total_nonneg x (sp_free_ranges pool)).
      pose proof (cov_nonneg x (0, sp_size pool)).
      rewrite (total_perm x (live base <$> owners) (live base <$> a :: delete i owners)) in pi_partition0
        by by rewrite <-(delete_Permutation _ _ _ Hi).
      cbn in pi_partition0. change ((live base a).1, (live base a).2) with (live base a). lia.
    - eapply Forall_lookup_1 in Hi; [|exact pi_owners0]. apply Hi.
    - apply list_elem_of_fmap_2. by eapply elem_of_delete_other.
    - eapply Forall_lookup_1 in Hj; [|exact pi_owners0]. apply Hj. }
  unfold apart_from in H. cbn in H. lia.
Qed.

(** C19: the scratch pool is never handed out twice and never loses a range.
    From a session whose GPU has no pool, over any sequence of allocations and
    releases, and with the kernel failing any of its calls, every byte of the
    4 GiB span is either free or in exactly one live allocation; live
    allocations are 64 KiB-aligned and do not overlap; the ledger holds the
    pool's reservation and the live allocations' buffers beside what it held
    before; and when all are released the free list is one range again. *)
Theorem scratch_pool_partition {W} `{!Kernel W, !KernelLaws W} fd aperture state ops (w : W) :
  ap_gpu_id aperture <> 0 -> Forall scratch_op_ok ops ->
  (forall device, ks_device_vms state !! ap_gpu_id aperture = Some device ->
     dv_scratch_pool device = None) ->
  wp (scratch_run fd aperture ops (state, [])) (fun '(state', owners) w' =>
    session_inv (ledger_of w) (ap_gpu_id aperture) state' owners (ledger_of w') /\
    forall device pool, ks_device_vms state' !! ap_gpu_id aperture = Some device ->
      dv_scratch_pool device = Some pool -> sp_configured pool = true ->
      (forall (i j : nat) a b, owners !! i = Some a -> owners !! j = Some b -> i <> j ->
         rs_gpu_address a + rs_size a <= rs_gpu_address b \/
         rs_gpu_address b + rs_size b <= rs_gpu_address a) /\
      (forall (i : nat) a, owners !! i = Some a -> rs_gpu_address a mod 65536 = 0 /\
         sp_gpu_address pool <= rs_gpu_address a /\
         rs_gpu_address a + rs_size a <= sp_gpu_address pool + sp_size pool) /\
      (owners = [] -> sp_free_ranges pool = [(0, kGfx11ScratchPoolSize)] /\
         ledger_of w' = with_pool pool (ledger_of w))) w.
Proof.
  intros Hnz Hops Hnone. eapply wp_mono; [apply (scratch_run_inv (ledger_of w)); [done|done|]|].
  { cbn. unfold session_inv, device_inv.
    destruct (ks_device_vms state !! ap_gpu_id aperture) as [device|]; [|done]. by rewrite (Hnone device). }
  intros [state' owners] w' Hinv. cbn in Hinv. split; [done|]. intros device pool Hd Hp Hc.
  unfold session_inv, device_inv in Hinv. rewrite Hd, Hp, Hc in Hinv. split_and!.
  - intros i j a b. by apply (pool_inv_disjoint _ _ _ _ _ _ _ _ _ Hinv).
  - intros i a Hi. destruct Hinv. eapply Forall_lookup_1 in Hi; [|done]. destruct Hi as [[E1 E2 E3 E4 E5] _ _ _ _].
    unfold live in *. cbn in *. pose proof (aligned_add _ _ E4 pi_aligned0) as Ha.
    rewrite Z.sub_add in Ha. split_and!; [done|lia..].
  - intros ->. destruct Hinv. rewrite <-pi_size0. split; [apply free_all; [by rewrite pi_size0|done|]|].
    + intros x. specialize (pi_partition0 x). cbn in pi_partition0. lia.
    + by inversion pi_ledger0.
Qed.
