(* ===== verification/KfdVm.v ===== *)
(** * Process address spaces of the KFD

    [transport/kfd/vm.cpp]: the render node of a GPU is opened once per
    session, its address space acquired, the cache policy set, and the
    apertures of the process read. *)

From stdpp Require Import gmap fin_maps pretty.
From S2P Require Import Prelude Topology KfdKernel KfdMemory ScratchPool.

Definition kMaximumApertureQueryAttempts : nat := 3.
Definition kMaximumProcessApertures : Z := 4096.

Module VmError.
Inductive t :=
| None
| InvalidSession
| InvalidNode
| OpenRenderNode
| AllocateState
| AcquireVm
| ConfigureMemoryPolicy
| QueryApertureCount
| InvalidApertureCount
| AllocateApertures
| QueryApertures
| TopologyChanged
| MissingAperture
| DuplicateAperture
| InvalidAperture.

#[global] Instance eq_dec : EqDecision t.
Proof. solve_decision. Defined.
End VmError.

Definition vm_error_name (error : VmError.t) : string :=
  match error with
  | VmError.None => "none"
  | VmError.InvalidSession => "invalid_session"
  | VmError.InvalidNode => "invalid_node"
  | VmError.OpenRenderNode => "open_render_node"
  | VmError.AllocateState => "allocate_state"
  | VmError.AcquireVm => "acquire_vm"
  | VmError.ConfigureMemoryPolicy => "configure_memory_policy"
  | VmError.QueryApertureCount => "query_aperture_count"
  | VmError.InvalidApertureCount => "invalid_aperture_count"
  | VmError.AllocateApertures => "allocate_apertures"
  | VmError.QueryApertures => "query_apertures"
  | VmError.TopologyChanged => "topology_changed"
  | VmError.MissingAperture => "missing_aperture"
  | VmError.DuplicateAperture => "duplicate_aperture"
  | VmError.InvalidAperture => "invalid_aperture"
  end.

Record VmStatus := mkVmStatus {
  vs_error : VmError.t;
  vs_system_error : Z;
  vs_message : string
}.

Definition vm_ok (status : VmStatus) : bool := bool_decide (vs_error status = VmError.None).

Definition vm_done : VmStatus := mkVmStatus VmError.None 0 "".

Definition vm_failure (error : VmError.t) (message : string) : VmStatus := mkVmStatus error 0 message.

Record VmResult := mkVmResult {
  vr_status : VmStatus;
  vr_aperture : ProcessAperture
}.

(** [{status, {}}] *)
Definition no_vm (status : VmStatus) : VmResult := mkVmResult status no_aperture.

Definition valid_range (base limit : Z) : bool := base <=? limit.

Definition validate_aperture (aperture : ProcessAperture) : VmStatus :=
  if (ap_gpu_id aperture =? 0) ||
     negb (valid_range (ap_lds_base aperture) (ap_lds_limit aperture)) ||
     negb (valid_range (ap_scratch_base aperture) (ap_scratch_limit aperture)) ||
     negb (valid_range (ap_gpuvm_base aperture) (ap_gpuvm_limit aperture)) then
    vm_failure VmError.InvalidAperture
      ("KFD returned an invalid process aperture for GPU " +:+ pretty (ap_gpu_id aperture))
  else vm_done.

(** The loop over the apertures: the one of the GPU, which has to be alone. *)
Fixpoint select_aperture (gpu_id : Z) (found : option ProcessAperture) (apertures : list ProcessAperture)
  : VmResult :=
  match apertures with
  | [] =>
      match found with
      | Some aperture => mkVmResult vm_done aperture
      | None => no_vm (vm_failure VmError.MissingAperture
          ("KFD returned no process aperture for GPU " +:+ pretty gpu_id))
      end
  | aperture :: apertures =>
      let status := validate_aperture aperture in
      if negb (vm_ok status) then no_vm status
      else if negb (ap_gpu_id aperture =? gpu_id) then select_aperture gpu_id found apertures
      else match found with
           | Some _ => no_vm (vm_failure VmError.DuplicateAperture
               ("KFD returned duplicate process apertures for GPU " +:+ pretty gpu_id))
           | None => select_aperture gpu_id (Some aperture) apertures
           end
  end.

(** [path / name] for a relative name. *)
Definition path_append (path name : string) : string :=
  match last (String.list_ascii_of_string path) with
  | None => name
  | Some c => if bool_decide (String c "" = "/") then path +:+ name else path +:+ "/" +:+ name
  end.

(** [fs::path(dri_root) / ("renderD" + std::to_string(minor))] *)
Definition render_path (dri_root : string) (minor : Z) : string :=
  path_append dri_root ("renderD" +:+ pretty minor).

Section vm.
Context {W : Type} `{!Kernel W}.

Definition vm_system_failure (error : VmError.t) (system_error : Z) (operation : string) : VmStatus :=
  mkVmStatus error system_error
    (operation +:+ " failed: " +:+ k_strerror system_error +:+ " (" +:+ pretty system_error +:+ ")").

Definition query_aperture_count (kfd_fd : Z) : kfd W (VmStatus * Z) :=
  reply ← invoke_ioctl kfd_fd (GET_PROCESS_APERTURES_NEW 0);
  if negb (rp_errno reply =? 0) then
    give (vm_system_failure VmError.QueryApertureCount (rp_errno reply)
      "AMDKFD_IOC_GET_PROCESS_APERTURES_NEW(count)", 0)
  else if (rp_num_of_nodes reply =? 0) || (rp_num_of_nodes reply >? kMaximumProcessApertures) then
    give (vm_failure VmError.InvalidApertureCount
      ("KFD returned invalid process aperture count " +:+ pretty (rp_num_of_nodes reply)), 0)
  else give (vm_done, rp_num_of_nodes reply).

Definition configure_memory_policy (kfd_fd gpu_id : Z) : kfd W VmStatus :=
  if (kfd_fd <? 0) || (gpu_id =? 0) || negb valid_syscalls then
    give (vm_failure VmError.InvalidSession
      "memory policy configuration requires an open KFD session and GPU")
  else
  let kAlternateApertureBase := 2 * 1024 * 1024 in
  let kUserAddressLimit := Z.shiftl 1 47 in
  let KFD_IOC_CACHE_POLICY_COHERENT := 0 in
  let KFD_IOC_CACHE_POLICY_NONCOHERENT := 1 in
  reply ← invoke_ioctl kfd_fd (SET_MEMORY_POLICY (mkPolicyArguments kAlternateApertureBase
    (kUserAddressLimit - kAlternateApertureBase) gpu_id KFD_IOC_CACHE_POLICY_NONCOHERENT
    KFD_IOC_CACHE_POLICY_COHERENT));
  give (if rp_errno reply =? 0 then vm_done
        else vm_system_failure VmError.ConfigureMemoryPolicy (rp_errno reply)
               "AMDKFD_IOC_SET_MEMORY_POLICY").

(** The array the driver filled: what it wrote, within the capacity, and zeros. *)
Definition raw_apertures (capacity : Z) (reply : kfd_reply) : list ProcessAperture :=
  take (Z.to_nat capacity) (rp_apertures reply ++ replicate (Z.to_nat capacity) no_aperture).

Fixpoint query_attempts (attempts : nat) (kfd_fd gpu_id : Z) : kfd W VmResult :=
  match attempts with
  | O => give (no_vm (vm_failure VmError.TopologyChanged
      "KFD process aperture count changed during all query attempts"))
  | S attempts =>
      '(status, count_before) ← query_aperture_count kfd_fd;
      if negb (vm_ok status) then give (no_vm status)
      else
      allocated ← sys_new;
      if negb allocated then
        give (no_vm (vm_failure VmError.AllocateApertures
          "failed to allocate process aperture query storage"))
      else
      reply ← invoke_ioctl kfd_fd (GET_PROCESS_APERTURES_NEW count_before);
      if negb (rp_errno reply =? 0) then
        give (no_vm (vm_system_failure VmError.QueryApertures (rp_errno reply)
          "AMDKFD_IOC_GET_PROCESS_APERTURES_NEW(data)"))
      else if rp_num_of_nodes reply >? count_before then
        give (no_vm (vm_failure VmError.InvalidApertureCount
          "KFD returned more process apertures than requested"))
      else
      '(status, count_after) ← query_aperture_count kfd_fd;
      if negb (vm_ok status) then give (no_vm status)
      else if negb (count_before =? rp_num_of_nodes reply) ||
              negb (rp_num_of_nodes reply =? count_after) then
        query_attempts attempts kfd_fd gpu_id
      else give (select_aperture gpu_id None (raw_apertures count_before reply))
  end.

Definition query_process_aperture (kfd_fd gpu_id : Z) : kfd W VmResult :=
  if (kfd_fd <? 0) || (gpu_id =? 0) || negb valid_syscalls then
    give (no_vm (vm_failure VmError.InvalidSession
      "process aperture query requires an open KFD session and GPU"))
  else query_attempts kMaximumApertureQueryAttempts kfd_fd gpu_id.

(** [DeviceVmState{render_fd, minor, false, false, false, {}, nullptr, {}, false}] *)
Definition new_device (render_fd minor : Z) : DeviceVmState :=
  mkDeviceVm render_fd minor false false false no_aperture None None false.

(** [device.acquired = ...; device.memory_policy_configured = ...;
    device.aperture_valid = ...; device.aperture = ...] *)
Definition set_progress (device : DeviceVmState) (acquired policy valid : bool)
    (aperture : ProcessAperture) : DeviceVmState :=
  mkDeviceVm (dv_render_fd device) (dv_drm_render_minor device) acquired policy valid aperture
    (dv_scratch_pool device) (dv_trap_handler device) (dv_trap_handler_configured device).

Definition erase_device (state : KfdState) (gpu_id : Z) : KfdState :=
  set_device_vms state (delete gpu_id (ks_device_vms state)).

(** The entry of the GPU, made on first use. *)
Definition open_device (state : KfdState) (node : Node) (dri_root : string)
  : kfd W (VmStatus + DeviceVmState) :=
  let path := render_path dri_root (node_drm_render_minor node) in
  opened ← sys_open path;
  match opened with
  | inl errno =>
      give (inl (vm_system_failure VmError.OpenRenderNode errno ("open(" +:+ path +:+ ")")))
  | inr render_fd =>
      allocated ← sys_new;
      if negb allocated then
        _ ← sys_close render_fd;
        give (inl (vm_failure VmError.AllocateState "failed to allocate VM acquisition bookkeeping"))
      else give (inr (new_device render_fd (node_drm_render_minor node)))
  end.

(** The steps on an entry: each is taken once, and the entry remembers how far
    it came. *)
Definition finish_device (state : KfdState) (gpu_id : Z) (device : DeviceVmState)
  : kfd W (VmResult * KfdState) :=
  policy ← (if dv_memory_policy_configured device then give vm_done
            else configure_memory_policy (ks_fd state) gpu_id);
  if negb (vm_ok policy) then give (no_vm policy, set_device state gpu_id device)
  else
  let device := set_progress device (dv_acquired device) true (dv_aperture_valid device)
                  (dv_aperture device) in
  queried ← query_process_aperture (ks_fd state) gpu_id;
  if negb (vm_ok (vr_status queried)) then give (queried, set_device state gpu_id device)
  else give (queried, set_device state gpu_id
    (set_progress device (dv_acquired device) true true (vr_aperture queried))).

Definition acquire_device (state : KfdState) (gpu_id : Z) (device : DeviceVmState)
  : kfd W (VmResult * KfdState) :=
  if dv_acquired device then finish_device state gpu_id device
  else
  reply ← invoke_ioctl (ks_fd state) (ACQUIRE_VM (to_u32 (dv_render_fd device)) gpu_id);
  if negb (rp_errno reply =? 0) then
    _ ← sys_close (dv_render_fd device);
    give (no_vm (vm_system_failure VmError.AcquireVm (rp_errno reply) "AMDKFD_IOC_ACQUIRE_VM"),
      erase_device state gpu_id)
  else
  finish_device state gpu_id (set_progress device true (dv_memory_policy_configured device)
    (dv_aperture_valid device) (dv_aperture device)).

(** [acquire_vm] with the session's state. *)
Definition acquire_open_vm (state : KfdState) (node : Node) (dri_root : string)
  : kfd W (VmResult * KfdState) :=
  if negb (is_gpu node) || (node_gpu_id node =? 0) || (node_drm_render_minor node <? 0) then
    give (no_vm (vm_failure VmError.InvalidNode
      "VM acquisition requires a GPU node with a render minor"), state)
  else
  match ks_device_vms state !! node_gpu_id node with
  | Some device =>
      if negb (dv_drm_render_minor device =? node_drm_render_minor node) then
        give (no_vm (vm_failure VmError.InvalidNode
          "GPU ID is associated with a different DRM render node"), state)
      else if dv_aperture_valid device then give (mkVmResult vm_done (dv_aperture device), state)
      else acquire_device state (node_gpu_id node) device
  | None =>
      opened ← open_device state node dri_root;
      match opened with
      | inl status => give (no_vm status, state)
      | inr device => acquire_device state (node_gpu_id node) device
      end
  end.

(** A session is [None] when [state_ == nullptr]. *)
Definition acquire_vm (session : option KfdState) (node : Node) (dri_root : string)
  : kfd W (VmResult * option KfdState) :=
  match session with
  | None =>
      give (no_vm (vm_failure VmError.InvalidSession "VM acquisition requires an open KFD session"),
        None)
  | Some state =>
      '(result, state) ← acquire_open_vm state node dri_root;
      give (result, Some state)
  end.
End vm.

(** ** Acquired address spaces

    Over any sequence of [acquire_vm] calls a GPU's render node is open at
    most once, its file is closed on every failed path, and a GPU's aperture,
    once known, is validated and never changes. *)

Lemma vm_ok_failure error system_error message :
  vm_ok (mkVmStatus error system_error message) = bool_decide (error = VmError.None).
Proof. done. Qed.

(** ** The aperture of a GPU *)

Record aperture_ok (gpu_id : Z) (aperture : ProcessAperture) : Prop := {
  ak_gpu_id : ap_gpu_id aperture = gpu_id;
  ak_lds : ap_lds_base aperture <= ap_lds_limit aperture;
  ak_scratch : ap_scratch_base aperture <= ap_scratch_limit aperture;
  ak_gpuvm : ap_gpuvm_base aperture <= ap_gpuvm_limit aperture
}.

Lemma validate_aperture_spec aperture :
  vm_ok (validate_aperture aperture) = true <->
  ap_gpu_id aperture <> 0 /\ aperture_ok (ap_gpu_id aperture) aperture.
Proof.
  unfold validate_aperture, valid_range. destruct (_ || _) eqn:G.
  - split; [done|]. intros [H []]. lia.
  - split; [|done]. intros _. split; [lia|]. split; [done|lia..].
Qed.

(** The selection succeeds exactly when all apertures are valid and one of
    them is the GPU's. *)
Lemma select_aperture_spec gpu_id found l aperture :
  select_aperture gpu_id found l = mkVmResult vm_done aperture <->
  Forall (fun a => vm_ok (validate_aperture a) = true) l /\
  option_list found ++ filter (fun a => ap_gpu_id a = gpu_id) l = [aperture].
Proof.
  revert found. induction l as [|a l IH]; intros found; cbn [select_aperture].
  { rewrite app_nil_r. destruct found as [f|]; cbn; split; try done.
    - intros [= ->]. by split.
    - by intros [_ [= ->]].
    - by intros [_ ?]. }
  cbv zeta. rewrite Forall_cons, filter_cons.
  destruct (vm_ok (validate_aperture a)) eqn:Hv; cbn [negb].
  2:{ split; [|by intros [[? _] _]]. unfold no_vm. intros [= Hs _]. by rewrite Hs in Hv. }
  destruct (Z.eqb_spec (ap_gpu_id a) gpu_id) as [He|He]; cbn [negb];
    [rewrite decide_True by done|rewrite decide_False, IH by done; tauto].
  destruct found as [f|]; cbn.
  - split; [done|]. by intros [_ ?].
  - rewrite IH. cbn. tauto.
Qed.

Lemma select_aperture_ok gpu_id l :
  vm_ok (vr_status (select_aperture gpu_id None l)) = true ->
  aperture_ok gpu_id (vr_aperture (select_aperture gpu_id None l)) /\
  vr_aperture (select_aperture gpu_id None l) ∈ l.
Proof.
  intros Hok. assert (select_aperture gpu_id None l =
    mkVmResult vm_done (vr_aperture (select_aperture gpu_id None l))) as Hs.
  { revert Hok. generalize (@None ProcessAperture) as found.
    induction l as [|a l IH]; intros found; cbn [select_aperture]; cbv zeta.
    - by destruct found.
    - destruct (vm_ok (validate_aperture a)) eqn:Hv; cbn [negb]; [|cbn; by rewrite Hv].
      destruct (negb _); [apply IH|]. destruct found; [done|apply IH]. }
  apply select_aperture_spec in Hs as [Hall Hf]. cbn in Hf.
  set (aperture := vr_aperture _) in *. assert (aperture ∈ [aperture]) as Hin by by left.
  rewrite <-Hf in Hin. apply list_elem_of_filter in Hin as [He Hin]. split; [|done].
  rewrite Forall_forall in Hall. apply Hall, validate_aperture_spec in Hin as [_ H]. by rewrite He in H.
Qed.

(** ** The session's devices *)

(** An entry of the table: its address space is acquired, and a valid aperture
    is the GPU's. *)
Record device_ok (gpu_id : Z) (device : DeviceVmState) : Prop := {
  dk_acquired : dv_acquired device = true;
  dk_aperture : dv_aperture_valid device = true ->
    dv_memory_policy_configured device = true /\ aperture_ok gpu_id (dv_aperture device) /\
    is_u64 (ap_gpuvm_limit (dv_aperture device))
}.

(** The ledger is the rest [L] and the render node of each entry, open once. *)
Record vm_inv (L : ledger) (state : KfdState) (l : ledger) : Prop := {
  vi_devices : map_Forall device_ok (ks_device_vms state);
  vi_rest : l = set_files L (lg_files l);
  vi_files fd : fd ∈ lg_files l <-> fd ∈ lg_files L \/
    exists gpu_id device, ks_device_vms state !! gpu_id = Some device /\ dv_render_fd device = fd;
  vi_own gpu_id device : ks_device_vms state !! gpu_id = Some device ->
    dv_render_fd device ∉ lg_files L;
  vi_once g1 g2 d1 d2 : ks_device_vms state !! g1 = Some d1 -> ks_device_vms state !! g2 = Some d2 ->
    dv_render_fd d1 = dv_render_fd d2 -> g1 = g2
}.

(** The devices other than one, as a session without it. *)
Lemma vm_inv_update L state gpu_id device device' l :
  vm_inv L state l -> ks_device_vms state !! gpu_id = Some device ->
  dv_render_fd device' = dv_render_fd device -> device_ok gpu_id device' ->
  vm_inv L (set_device state gpu_id device') l.
Proof.
  intros [] Hd Hfd Hok.
  assert (forall g d, <[gpu_id := device']> (ks_device_vms state) !! g = Some d -> exists d0,
    ks_device_vms state !! g = Some d0 /\ dv_render_fd d0 = dv_render_fd d) as Hold.
  { intros g d [[<- <-]|[_ H]]%lookup_insert_Some; eauto. }
  split; cbn; try done.
  - by apply map_Forall_insert_2.
  - intros fd. rewrite vi_files0. split; (intros [|(g & d & Hg & <-)]; [by left|right]).
    + destruct (decide (g = gpu_id)) as [->|].
      * exists gpu_id, device'. rewrite lookup_insert_eq. split; [done|]. congruence.
      * exists g, d. by rewrite lookup_insert_ne.
    + destruct (Hold _ _ Hg) as (d0 & Hd0 & <-). eauto.
  - intros g d Hg. destruct (Hold _ _ Hg) as (d0 & Hd0 & <-). eauto.
  - intros g1 g2 d1 d2 H1 H2 He. destruct (Hold _ _ H1) as (e1 & He1 & Hf1).
    destruct (Hold _ _ H2) as (e2 & He2 & Hf2). eapply vi_once0; eauto. congruence.
Qed.

Lemma vm_inv_insert L state gpu_id device l fd :
  vm_inv L state l -> ks_device_vms state !! gpu_id = None ->
  fd ∉ lg_files l -> dv_render_fd device = fd -> device_ok gpu_id device ->
  vm_inv L (set_device state gpu_id device) (add_file fd l).
Proof.
  intros [] Hd Hnew <- Hok. rewrite vi_files0 in Hnew. split; cbn; try done.
  - by apply map_Forall_insert_2.
  - unfold add_file. by rewrite vi_rest0 at 1.
  - intros fd. rewrite elem_of_union, elem_of_singleton, vi_files0. split.
    + intros [->|[|(g & d & Hg & Hf)]]; [right|by left|right].
      * exists gpu_id, device. by rewrite lookup_insert_eq.
      * exists g, d. rewrite lookup_insert_ne; [done|]. congruence.
    + intros [|(g & d & [[<- <-]|[Hne Hg]]%lookup_insert_Some & Hf)]; [by right; left|by left|].
      right; right. eauto.
  - intros g d [[<- <-]|[Hne Hg]]%lookup_insert_Some; [|eauto]. intros ?. apply Hnew. by left.
  - intros g1 g2 d1 d2 [[<- <-]|[H1 ?]]%lookup_insert_Some [[<- <-]|[H2 ?]]%lookup_insert_Some He.
    + done.
    + destruct Hnew. right. eauto.
    + destruct Hnew. right. eauto.
    + eauto.
Qed.

Lemma vm_inv_ledger L state l l' : vm_inv L state l -> l' = l -> vm_inv L state l'.
Proof. by intros ? ->. Qed.

(** What other components keep in an entry: its scratch pool and its trap
    handler. *)
Definition pool_of (state : KfdState) (gpu_id : Z) : option ScratchPoolState :=
  ks_device_vms state !! gpu_id ≫= dv_scratch_pool.

Definition trap_of (state : KfdState) (gpu_id : Z) : option RawMemoryAllocation * bool :=
  match ks_device_vms state !! gpu_id with
  | Some device => (dv_trap_handler device, dv_trap_handler_configured device)
  | None => (None, false)
  end.

(** An acquisition touches nothing else, and entries with a valid aperture are
    settled. *)
Record keeps (state state' : KfdState) : Prop := {
  kp_valid gpu_id device : ks_device_vms state !! gpu_id = Some device ->
    dv_aperture_valid device = true -> ks_device_vms state' !! gpu_id = Some device;
  kp_pool gpu_id : pool_of state' gpu_id = pool_of state gpu_id;
  kp_trap gpu_id : trap_of state' gpu_id = trap_of state gpu_id;
  kp_fd : ks_fd state' = ks_fd state;
  kp_debugging : ks_exception_debugging_enabled state' = ks_exception_debugging_enabled state;
  kp_page : ks_queue_event_page state' = ks_queue_event_page state
}.

Lemma keeps_refl state : keeps state state.
Proof. by split. Qed.

Lemma keeps_trans s1 s2 s3 : keeps s1 s2 -> keeps s2 s3 -> keeps s1 s3.
Proof. intros [] []. split; intros; first [by eauto|congruence]. Qed.

(** The entry stands in for the GPU's. *)
Definition stands_for (state : KfdState) (gpu_id : Z) (device : DeviceVmState) : Prop :=
  dv_scratch_pool device = pool_of state gpu_id /\
  (dv_trap_handler device, dv_trap_handler_configured device) = trap_of state gpu_id.

Lemma keeps_set state gpu_id device' :
  (forall device, ks_device_vms state !! gpu_id = Some device -> dv_aperture_valid device = false) ->
  stands_for state gpu_id device' -> keeps state (set_device state gpu_id device').
Proof.
  intros H [Hp Ht]. split; try done; cbn.
  - intros g d Hg Hv. rewrite lookup_insert_ne; [done|]. intros <-. rewrite (H d Hg) in Hv. done.
  - intros g. unfold pool_of in *. cbn. destruct (decide (g = gpu_id)) as [->|];
      [by rewrite lookup_insert_eq|by rewrite lookup_insert_ne].
  - intros g. unfold trap_of in *. cbn. destruct (decide (g = gpu_id)) as [->|];
      [by rewrite lookup_insert_eq|by rewrite lookup_insert_ne].
Qed.

Section facts.
Context {W : Type} `{!Kernel W, !KernelLaws W} (L : ledger).

(** ** The query *)

Lemma query_aperture_count_quiet fd (w : W) :
  wp (query_aperture_count fd) (fun _ w' => ledger_of w' = ledger_of w) w.
Proof.
  unfold query_aperture_count. apply wp_bind, wp_quiet; [done|]. intros reply w' Hw.
  wp_if as G1; [by apply wp_give|]. by wp_if as G2; apply wp_give.
Qed.

Lemma query_process_aperture_spec fd gpu_id (w : W) :
  wp (query_process_aperture fd gpu_id) (fun r w' => ledger_of w' = ledger_of w /\
    (vm_ok (vr_status r) = true -> aperture_ok gpu_id (vr_aperture r) /\
       is_u64 (ap_gpuvm_limit (vr_aperture r)))) w.
Proof.
  unfold query_process_aperture. wp_if as G; [by apply wp_give|]. clear G. revert w.
  induction kMaximumApertureQueryAttempts as [|n IH]; intros w; cbn [query_attempts]; [by apply wp_give|].
  apply wp_bind. eapply wp_mono; [apply query_aperture_count_quiet|].
  intros [status count_before] w1 Hw1. destruct (vm_ok status) eqn:Hs; cbn [negb];
    [|apply wp_give; cbn; by rewrite Hs].
  apply wp_bind, wp_new. intros b w2 Hw2. rewrite Hw1 in Hw2.
  destruct b; cbn [negb]; [|by apply wp_give].
  apply wp_bind, wp_apertures. intros reply w3 Hw3 Hwidth. rewrite Hw2 in Hw3.
  wp_if as G1; [by apply wp_give|]. wp_if as G2; [by apply wp_give|].
  apply wp_bind. eapply wp_mono; [apply query_aperture_count_quiet|].
  intros [status2 count_after] w4 Hw4. rewrite Hw3 in Hw4. destruct (vm_ok status2) eqn:Hs2; cbn [negb];
    [|apply wp_give; cbn; by rewrite Hs2].
  wp_if as G3.
  - eapply wp_mono; [apply IH|]. intros r w5 [Hw5 Hr]. split; [congruence|done].
  - apply wp_give. split; [done|]. intros Hok. apply select_aperture_ok in Hok as [Ha Hin].
    split; [done|]. set (aperture := vr_aperture _) in *. unfold raw_apertures in Hin.
    apply elem_of_take in Hin as (i & Hi & _). apply list_elem_of_lookup_2, elem_of_app in Hi as [Hi|Hi].
    + rewrite Forall_forall in Hwidth. by apply Hwidth.
    + apply elem_of_replicate in Hi as [-> _]. by vm_compute.
Qed.

(** ** Acquisition *)

(** What a call leaves: the account, the settled entries, and on success a
    settled entry with the aperture that was returned. *)
Definition acquires (gpu_id : Z) (state : KfdState) (r : VmResult * KfdState) (w : W) : Prop :=
  vm_inv L r.2 (ledger_of w) /\ keeps state r.2 /\
  (vm_ok (vr_status r.1) = true -> exists device, ks_device_vms r.2 !! gpu_id = Some device /\
     dv_aperture_valid device = true /\ dv_aperture device = vr_aperture r.1).

(** The table can take an entry with this file. *)
Definition hosts (state : KfdState) (gpu_id fd : Z) (l : ledger) : Prop :=
  forall device, dv_render_fd device = fd -> device_ok gpu_id device ->
    vm_inv L (set_device state gpu_id device) l.

Definition unsettled (state : KfdState) (gpu_id : Z) : Prop :=
  forall device, ks_device_vms state !! gpu_id = Some device -> dv_aperture_valid device = false.

Lemma finish_device_spec state gpu_id device w :
  hosts state gpu_id (dv_render_fd device) (ledger_of w) -> unsettled state gpu_id ->
  dv_acquired device = true -> dv_aperture_valid device = false -> stands_for state gpu_id device ->
  wp (finish_device state gpu_id device) (acquires gpu_id state) w.
Proof.
  intros Hh Hu Ha Hv Hst. unfold finish_device. apply wp_bind.
  apply (wp_mono _ (fun _ w' => ledger_of w' = ledger_of w)).
  { destruct (dv_memory_policy_configured device); [by apply wp_give|].
    unfold configure_memory_policy. wp_if as G; [by apply wp_give|]. cbv zeta.
    apply wp_bind, wp_quiet; [done|]. intros reply w' Hw. by apply wp_give. }
  intros policy w1 Hw1. rewrite <-Hw1 in Hh. destruct (vm_ok policy) eqn:Hp; cbn [negb].
  2:{ apply wp_give. split_and!; [|by apply keeps_set|cbn; by rewrite Hp].
      apply Hh; [done|]. split; [done|]. by rewrite Hv. }
  cbv zeta. apply wp_bind. eapply wp_mono; [apply query_process_aperture_spec|].
  intros queried w2 [Hw2 Hq]. rewrite <-Hw2 in Hh.
  destruct (vm_ok (vr_status queried)) eqn:Hok; cbn [negb]; apply wp_give.
  - destruct (Hq eq_refl) as [Hap Hwidth]. split_and!; [|by apply keeps_set|].
    + apply Hh; [done|]. split; [done|]. intros _. split; [done|]. by split.
    + intros _. eexists. cbn. by rewrite lookup_insert_eq.
  - split_and!; [|by apply keeps_set|cbn; by rewrite Hok].
    apply Hh; [done|]. split; [done|]. cbn. by rewrite Hv.
Qed.

Lemma acquire_new_device_spec state gpu_id device l w :
  vm_inv L state l -> ks_device_vms state !! gpu_id = None ->
  dv_render_fd device ∉ lg_files l -> dv_acquired device = false -> dv_aperture_valid device = false ->
  dv_scratch_pool device = None -> dv_trap_handler device = None ->
  dv_trap_handler_configured device = false -> ledger_of w = add_file (dv_render_fd device) l ->
  wp (acquire_device state gpu_id device) (acquires gpu_id state) w.
Proof.
  intros Hinv Hd Hnew Ha Hv Hp Ht Hc Hw. unfold acquire_device. rewrite Ha.
  apply wp_bind, wp_quiet; [done|]. intros reply w1 Hw1. rewrite Hw in Hw1.
  destruct (rp_errno reply =? 0); cbn [negb].
  - apply finish_device_spec; try done.
    + intros d Hfd Hok. rewrite Hw1. by apply vm_inv_insert.
    + intros d Hd'. by rewrite Hd in Hd'.
    + unfold stands_for, pool_of, trap_of. rewrite Hd. cbn. by rewrite Hp, Ht, Hc.
  - apply wp_bind, wp_close.
    { rewrite Hw1. cbn. set_solver. }
    intros w2 Hw2. apply wp_give. rewrite Hw1, remove_add_file in Hw2 by done. cbn.
    assert (erase_device state gpu_id = state) as Herase.
    { unfold erase_device. rewrite delete_id by done. by destruct state. }
    rewrite Herase. split_and!; cbn; [by rewrite Hw2|apply keeps_refl|done].
Qed.

Lemma acquire_open_vm_spec state node dri_root w :
  vm_inv L state (ledger_of w) ->
  wp (acquire_open_vm state node dri_root) (acquires (node_gpu_id node) state) w.
Proof.
  intros Hinv. assert (forall r, vm_ok (vr_status r) = false ->
    forall w', ledger_of w' = ledger_of w -> acquires (node_gpu_id node) state (r, state) w') as Hfail.
  { intros r Hr w' Hw'. split_and!; [cbn; by rewrite Hw'|apply keeps_refl|cbn; by rewrite Hr]. }
  unfold acquire_open_vm. wp_if as G1; [by apply wp_give, Hfail|].
  destruct (ks_device_vms state !! node_gpu_id node) as [device|] eqn:Hd.
  - wp_if as G2; [by apply wp_give, Hfail|]. wp_if as G3.
    + apply wp_give. split_and!; [done|apply keeps_refl|]. intros _. by exists device.
    + pose proof (vi_devices _ _ _ Hinv _ _ Hd) as [Ha _]. unfold acquire_device. rewrite Ha.
      apply finish_device_spec; try done.
      * intros d Hfd Hok. by eapply vm_inv_update.
      * intros d Hd'. congruence.
      * unfold stands_for, pool_of, trap_of. by rewrite Hd.
  - apply wp_bind. unfold open_device. cbv zeta. apply wp_bind, wp_open.
    + intros errno w1 Hw1. by apply wp_give, wp_give, Hfail.
    + intros fd w1 Hfd Hnew Hw1. apply wp_bind, wp_new. intros b w2 Hw2. rewrite Hw1 in Hw2.
      destruct b; cbn [negb].
      * apply wp_give. by eapply acquire_new_device_spec.
      * apply wp_bind, wp_close; [rewrite Hw2; cbn; set_solver|]. intros w3 Hw3.
        rewrite Hw2, remove_add_file in Hw3 by done. by apply wp_give, wp_give, Hfail.
Qed.

(** A GPU whose aperture is known costs nothing. *)
Lemma acquire_vm_settled state node dri_root device w :
  is_gpu node = true -> node_gpu_id node <> 0 -> 0 <= node_drm_render_minor node ->
  ks_device_vms state !! node_gpu_id node = Some device -> dv_aperture_valid device = true ->
  dv_drm_render_minor device = node_drm_render_minor node ->
  acquire_vm (Some state) node dri_root w =
    Ok ((mkVmResult vm_done (dv_aperture device), Some state), w).
Proof.
  intros Hg Hid Hm Hd Hv Hminor. unfold acquire_vm, acquire_open_vm. rewrite Hg, Hd, Hv, Hminor.
  cbn [negb orb]. replace (node_gpu_id node =? 0) with false by lia.
  replace (node_drm_render_minor node <? 0) with false by lia. by rewrite Z.eqb_refl.
Qed.

(** ** Runs *)

Fixpoint vm_run (session : option KfdState) (dri_root : string) (nodes : list Node)
  : kfd W (list VmResult * option KfdState) :=
  match nodes with
  | [] => give ([], session)
  | node :: nodes =>
      '(result, session) ← acquire_vm session node dri_root;
      '(results, session) ← vm_run session dri_root nodes;
      give (result :: results, session)
  end.

Lemma vm_run_spec state dri_root nodes w :
  vm_inv L state (ledger_of w) ->
  wp (vm_run (Some state) dri_root nodes) (fun '(results, session') w' => exists state',
    session' = Some state' /\ vm_inv L state' (ledger_of w') /\ keeps state state' /\
    Forall2 (fun node r => vm_ok (vr_status r) = true -> exists device,
      ks_device_vms state' !! node_gpu_id node = Some device /\ dv_aperture_valid device = true /\
      dv_aperture device = vr_aperture r) nodes results) w.
Proof.
  revert state w. induction nodes as [|node nodes IH]; intros state w Hinv; cbn [vm_run].
  { apply wp_give. exists state. split_and!; [done|done|apply keeps_refl|constructor]. }
  apply wp_bind. unfold acquire_vm. apply wp_bind.
  eapply wp_mono; [by apply acquire_open_vm_spec|]. intros [r state1] w1 (Hinv1 & Hk1 & Hr).
  apply wp_give, wp_bind. eapply wp_mono; [by apply IH|].
  intros [results session'] w2 (state2 & -> & Hinv2 & Hk2 & Hall). apply wp_give.
  exists state2. split_and!; [done|done|by eapply keeps_trans|].
  constructor; [|done]. intros Hok. destruct (Hr Hok) as (d & Hd & Hv & Ha). exists d. split; [by apply (kp_valid _ _ Hk2)|done].
Qed.
End facts.

