(* ===== verification/KfdSession.v ===== *)
(** * The session's memory interface

    The [KfdSession] methods of [transport/kfd/memory.cpp] and the classes that
    own what they return.  A session is [None] when its state pointer is null;
    the owners only need the session's descriptor and table, so they keep a
    flag for theirs. *)

From stdpp Require Import gmap fin_maps pretty.
From S2P Require Import Prelude Topology KfdKernel KfdMemory KfdMemoryFacts ScratchPool KfdVm.

Import MemoryAllocationUsage.

(** ** [MemoryAllocation] *)

(** The members behind [state_] are those of the raw allocation. *)
Record MemoryAllocation := mkMemoryAllocation {
  ma_state : bool;
  ma_raw : RawMemoryAllocation
}.

(** [MemoryAllocation{}], and the object after [reset()]. *)
Definition no_memory : MemoryAllocation := mkMemoryAllocation false no_allocation.

Definition gpu_mapped (a : RawMemoryAllocation) : bool :=
  ra_map_complete a && negb (bool_decide (ra_gpu_ids a = [])) &&
  (ra_mapped_device_count a =? Z.of_nat (length (ra_gpu_ids a))) &&
  (ra_unmapped_device_count a =? 0).

Definition gpu_address (owner : MemoryAllocation) : Z :=
  if gpu_mapped (ma_raw owner) then ra_gpu_address (ma_raw owner) else 0.

(** [explicit operator bool] *)
Definition owns_memory (owner : MemoryAllocation) : bool := negb (holds_nothing (ma_raw owner)).

(** The move constructor: the new object, and what is left of the other. *)
Definition memory_move (other : MemoryAllocation) : MemoryAllocation * MemoryAllocation :=
  (other, no_memory).

(** ** [HostMemoryAllocation] *)

Record HostMemoryAllocation := mkHostAllocation {
  ho_state : bool;
  ho_host_address : Z;
  ho_gpu_address : Z;
  ho_size : Z;
  ho_handle : Z;
  ho_gpu_ids : list Z;
  ho_mapped_device_count : Z;
  ho_unmapped_device_count : Z;
  ho_map_complete : bool
}.

Definition no_host : HostMemoryAllocation := mkHostAllocation false 0 0 0 0 [] 0 0 false.

(** The members from a raw allocation. *)
Definition host_owner (raw : RawMemoryAllocation) : HostMemoryAllocation :=
  mkHostAllocation true (ra_host_address raw) (ra_gpu_address raw) (ra_size raw) (ra_handle raw)
    (ra_gpu_ids raw) (ra_mapped_device_count raw) (ra_unmapped_device_count raw) (ra_map_complete raw).

(** [RawMemoryAllocation raw{host_address_, size_, host_address_, ...}] *)
Definition host_raw (owner : HostMemoryAllocation) : RawMemoryAllocation :=
  mkRawAllocation (ho_host_address owner) (ho_size owner) (ho_host_address owner)
    (ho_gpu_address owner) (ho_size owner) (ho_handle owner) (ho_gpu_ids owner)
    (ho_mapped_device_count owner) (ho_unmapped_device_count owner) (ho_map_complete owner).

(** ** [ScratchAllocation] *)

Record ScratchAllocation := mkScratchAllocation {
  sa_state : bool;
  sa_reservation_address : Z;
  sa_reservation_size : Z;
  sa_gpu_address : Z;
  sa_size : Z;
  sa_handle : Z;
  sa_gpu_ids : list Z;
  sa_mapped_device_count : Z;
  sa_unmapped_device_count : Z;
  sa_map_complete : bool;
  sa_gpu_id : Z;
  sa_integrated : bool;
  sa_gpu_mapped : bool;
  sa_pool_range_owned : bool
}.

Definition no_scratch_owner : ScratchAllocation :=
  mkScratchAllocation false 0 0 0 0 0 [] 0 0 false 0 false false false.

(** The raw result the owner releases. *)
Definition scratch_raw (owner : ScratchAllocation) : RawScratchAllocationResult :=
  mkRawScratch no_error
    (mkRawAllocation (sa_reservation_address owner) (sa_reservation_size owner) 0
       (sa_gpu_address owner) (sa_size owner) (sa_handle owner) (sa_gpu_ids owner)
       (sa_mapped_device_count owner) (sa_unmapped_device_count owner) (sa_map_complete owner))
    (sa_gpu_address owner) (sa_size owner) (sa_gpu_id owner) (sa_integrated owner)
    (sa_gpu_mapped owner) (sa_pool_range_owned owner).

(** The members after a release, from the raw result it worked on. *)
Definition scratch_after (owner : ScratchAllocation) (r : RawScratchAllocationResult)
  : ScratchAllocation :=
  let memory := rs_allocation r in
  mkScratchAllocation (sa_state owner) (ra_reservation_address memory) (ra_reservation_size memory)
    (rs_gpu_address r) (rs_size r) (ra_handle memory) (ra_gpu_ids memory)
    (ra_mapped_device_count memory) (ra_unmapped_device_count memory) (ra_map_complete memory)
    (sa_gpu_id owner) (sa_integrated owner) (rs_gpu_mapped r) (rs_pool_range_owned r).

(** The owner [KfdSession::allocate_scratch] makes. *)
Definition scratch_owner (r : RawScratchAllocationResult) (node_gpu_id : Z) : ScratchAllocation :=
  let raw := rs_allocation r in
  mkScratchAllocation true (ra_reservation_address raw) (ra_reservation_size raw) (rs_gpu_address r)
    (ra_size raw) (ra_handle raw) (ra_gpu_ids raw) (ra_mapped_device_count raw)
    (ra_unmapped_device_count raw) (ra_map_complete raw) node_gpu_id (rs_integrated r)
    (rs_gpu_mapped r) (rs_pool_range_owned r).

Section session.
Context {W : Type} `{!Kernel W}.

(** ** Release *)

(** [MemoryAllocation::release], with the descriptor of the owner's session. *)
Definition memory_release (kfd_fd : Z) (owner : MemoryAllocation)
  : kfd W (MemoryStatus * MemoryAllocation) :=
  if holds_nothing (ma_raw owner) then give (no_error, owner)
  else if negb (ma_state owner) then
    give (failure MemoryError.InvalidSession "KFD memory release requires an open KFD session", owner)
  else
  '(status, raw) ← release_memory kfd_fd (ma_raw owner);
  give (status, if status_ok status then no_memory else mkMemoryAllocation (ma_state owner) raw).

Definition host_release (kfd_fd : Z) (owner : HostMemoryAllocation)
  : kfd W (MemoryStatus * HostMemoryAllocation) :=
  if (ho_host_address owner =? 0) && (ho_handle owner =? 0) then give (no_error, owner)
  else if negb (ho_state owner) then
    give (failure MemoryError.InvalidSession "KFD host-memory release requires an open KFD session",
      owner)
  else
  '(status, raw) ← release_host_memory kfd_fd (host_raw owner);
  give (status, if status_ok status then no_host else host_owner raw).

Definition scratch_release (state : KfdState) (owner : ScratchAllocation)
  : kfd W (MemoryStatus * ScratchAllocation * KfdState) :=
  if negb (sa_pool_range_owned owner) then give (no_error, owner, state)
  else if negb (sa_state owner) then
    give (failure MemoryError.InvalidSession "scratch release requires an open KFD session", owner,
      state)
  else
  '(status, r, state) ← release_scratch state (ks_fd state) (scratch_raw owner);
  if negb (status_ok status) then give (status, scratch_after owner r, state)
  else give (no_error, no_scratch_owner, state).

(** ** Allocation *)

Definition gpu_node (node : Node) : bool :=
  is_gpu node && negb (node_gpu_id node =? 0) && negb (node_drm_render_minor node <? 0).

(** The VM of the node, with the failure as a memory status. *)
Definition acquire_for (state : KfdState) (node : Node) (dri_root purpose : string)
  : kfd W ((MemoryStatus + ProcessAperture) * KfdState) :=
  '(acquired, state) ← acquire_open_vm state node dri_root;
  give (if vm_ok (vr_status acquired) then inr (vr_aperture acquired)
        else inl (mkMemoryStatus MemoryError.AcquireVm (vs_system_error (vr_status acquired))
               ("failed to acquire VM for " +:+ purpose +:+ ": " +:+ vs_message (vr_status acquired))),
        state).

(** The descriptor of an acquired device, read under the session's lock. *)
Definition device_render_fd (state : KfdState) (gpu_id : Z) : option Z :=
  match ks_device_vms state !! gpu_id with
  | Some device =>
      if negb (dv_acquired device) || negb (dv_aperture_valid device) then None
      else Some (dv_render_fd device)
  | None => None
  end.

Definition allocate_memory_impl (session : option KfdState) (node : Node) (size : Z)
    (dri_root : string) (usage : MemoryAllocationUsage.t)
  : kfd W (MemoryStatus * MemoryAllocation * option KfdState) :=
  match session with
  | None =>
      give (failure MemoryError.InvalidSession "KFD memory allocation requires an open KFD session",
        no_memory, None)
  | Some state =>
      if negb (gpu_node node) then
        give (failure MemoryError.InvalidNode
          "KFD memory allocation requires a GPU node with a render minor", no_memory, Some state)
      else if (size =? 0) || negb (size mod kMemoryPageSize =? 0) then
        give (failure MemoryError.InvalidSize
          "KFD memory allocation size must be a non-zero multiple of 4096 bytes", no_memory, Some state)
      else
      '(acquired, state) ← acquire_for state node dri_root "KFD memory allocation";
      match acquired with
      | inl status => give (status, no_memory, Some state)
      | inr aperture =>
          match device_render_fd state (node_gpu_id node) with
          | None =>
              give (failure MemoryError.AcquireVm "acquired KFD VM state is unavailable", no_memory,
                Some state)
          | Some render_fd =>
              '(status, raw) ← allocate_memory (ks_fd state) render_fd aperture size usage;
              if negb (status_ok status) && holds_nothing raw then give (status, no_memory, Some state)
              else give (status, mkMemoryAllocation true raw, Some state)
          end
      end
  end.

Definition allocate_gtt session node size dri_root :=
  allocate_memory_impl session node size dri_root General.
Definition allocate_vram session node size dri_root :=
  allocate_memory_impl session node size dri_root Vram.
Definition allocate_device_vram session node size dri_root :=
  allocate_memory_impl session node size dri_root DeviceVram.
Definition allocate_executable_vram session node size dri_root :=
  allocate_memory_impl session node size dri_root Executable.

Definition allocate_host (session : option KfdState) (node : Node) (size : Z) (dri_root : string)
  : kfd W (MemoryStatus * HostMemoryAllocation * option KfdState) :=
  match session with
  | None =>
      give (failure MemoryError.InvalidSession "host allocation requires an open KFD session",
        no_host, None)
  | Some state =>
      if negb (gpu_node node) then
        give (failure MemoryError.InvalidNode
          "host allocation requires a GPU node with a render minor", no_host, Some state)
      else if (size =? 0) || (size >? UINT64_MAX - (kMemoryPageSize - 1)) then
        give (failure MemoryError.InvalidSize
          "host allocation size must fit in the host address space", no_host, Some state)
      else
      let allocation_size := round_up size kMemoryPageSize in
      if allocation_size >? UINT64_MAX then
        give (failure MemoryError.InvalidSize
          "host allocation size must fit in the host address space", no_host, Some state)
      else
      '(acquired, state) ← acquire_for state node dri_root "host allocation";
      match acquired with
      | inl status => give (status, no_host, Some state)
      | inr aperture =>
          '(status, raw) ← allocate_host_memory (ks_fd state) aperture allocation_size;
          if negb (status_ok status) && holds_nothing raw then give (status, no_host, Some state)
          else give (status, host_owner raw, Some state)
      end
  end.

Definition session_allocate_scratch (session : option KfdState) (node : Node) (size : Z)
    (dri_root : string) : kfd W (MemoryStatus * ScratchAllocation * option KfdState) :=
  match session with
  | None =>
      give (failure MemoryError.InvalidSession "scratch allocation requires an open KFD session",
        no_scratch_owner, None)
  | Some state =>
      if negb (gpu_node node) then
        give (failure MemoryError.InvalidNode
          "scratch allocation requires a GPU node with a render minor", no_scratch_owner, Some state)
      else if (size =? 0) || negb (size mod kMemoryPageSize =? 0) then
        give (failure MemoryError.InvalidSize "scratch size must be a non-zero multiple of 4096 bytes",
          no_scratch_owner, Some state)
      else
      '(acquired, state) ← acquire_for state node dri_root "scratch allocation";
      match acquired with
      | inl status => give (status, no_scratch_owner, Some state)
      | inr aperture =>
          '(r, state) ← allocate_scratch state (ks_fd state) aperture size (node_integrated node);
          if negb (status_ok (rs_status r)) && negb (rs_pool_range_owned r) then
            give (rs_status r, no_scratch_owner, Some state)
          else give (rs_status r, scratch_owner r (node_gpu_id node), Some state)
      end
  end.

(** Another attempt to map what an allocation left unmapped.  [ma_state] also
    says that the owner is this session's. *)
Definition map_pending_allocation (session : option KfdState) (owner : MemoryAllocation)
  : kfd W (MemoryStatus * MemoryAllocation) :=
  match session with
  | None =>
      give (failure MemoryError.InvalidSession
        "GPU mapping requires an allocation owned by this KFD session", owner)
  | Some state =>
      if negb (ma_state owner) || (ra_handle (ma_raw owner) =? 0) then
        give (failure MemoryError.InvalidSession
          "GPU mapping requires an allocation owned by this KFD session", owner)
      else
      copied ← sys_new;
      if negb copied then
        give (failure MemoryError.AllocateState "failed to copy pending GPU mapping state", owner)
      else
      '(status, raw) ← map_memory (ks_fd state) (ma_raw owner) (ra_gpu_ids (ma_raw owner));
      give (status, mkMemoryAllocation (ma_state owner)
        (set_mapping (ma_raw owner) (ra_gpu_ids raw) (ra_mapped_device_count raw)
           (ra_unmapped_device_count raw) (ra_map_complete raw)))
  end.
End session.

(** What an owner still holds when a release of it was refused. *)
Definition release_refused (W : Type) `{!Kernel W} (a : RawMemoryAllocation) : Prop :=
  exists fd owner status owner' (w w' : W),
    memory_release fd owner w = Ok ((status, owner'), w') /\ status_ok status = false /\ ma_raw owner' = a.


(** ** Sessions: allocation from the node to the release

    The session's methods composed with the address-space table: what a
    session allocates is accounted for beside its render nodes, until the
    owner gives it back. *)

Import MemoryAllocationUsage.

Section facts.
Context {W : Type} `{!Kernel W, !KernelLaws W}.

(** ** Owners *)

Lemma memory_release_spec k l fd owner (w : W) :
  k <> UserPages -> accounted k l (ma_raw owner) (ledger_of w) ->
  wp (memory_release fd owner) (fun r w' =>
    accounted k l (ma_raw r.2) (ledger_of w') /\
    (status_ok r.1 = true -> owns_memory r.2 = false /\ ledger_of w' = l)) w.
Proof.
  intros Hk Ha. unfold memory_release. wp_if as G1.
  { apply wp_give. split; [done|]. intros _. cbn. unfold owns_memory. rewrite G1. split; [done|].
    by apply (releases_nothing k l _ _ Ha). }
  wp_if as G2; [by apply wp_give|]. apply wp_bind.
  eapply wp_mono; [by apply (release_memory_accounts k)|].
  intros [status raw] w' [Hraw Hok]. apply wp_give. cbn in *. destruct (status_ok status) eqn:Hs; [|done].
  destruct (Hok eq_refl) as (Hr & Hh & Hl). split; [by apply accounted_nothing|done].
Qed.

(** The raw allocation of a host owner is the one it was made of. *)
Lemma host_raw_owner l a lw : accounted UserPages l a lw -> host_raw (host_owner a) = a.
Proof.
  intros Ha. destruct (ac_user _ _ _ _ Ha eq_refl) as [H1 H2]. destruct a. cbn in *. by subst.
Qed.

Lemma host_release_spec l fd owner (w : W) :
  accounted UserPages l (host_raw owner) (ledger_of w) ->
  wp (host_release fd owner) (fun r w' =>
    accounted UserPages l (host_raw r.2) (ledger_of w') /\
    (status_ok r.1 = true -> holds_nothing (host_raw r.2) = true /\ ledger_of w' = l)) w.
Proof.
  intros Ha. unfold host_release. wp_if as G1.
  { apply wp_give. split; [done|]. intros _. split; [done|].
    by apply (releases_nothing UserPages l _ _ Ha). }
  wp_if as G2; [by apply wp_give|]. apply wp_bind. eapply wp_mono; [by apply release_host_memory_accounts|].
  intros [status raw] w' [Hraw Hok]. apply wp_give. cbn in *.
  destruct (status_ok status) eqn:Hs; [|by rewrite (host_raw_owner _ _ _ Hraw)].
  destruct (Hok eq_refl) as (Hr & Hh & Hl). split; [by apply accounted_nothing|done].
Qed.

(** ** The address space behind an allocation *)

(** The table after the acquisition, with the aperture it settled on. *)
Definition settled (L : ledger) (gpu_id : Z) (state : KfdState) (aperture : ProcessAperture) (l : ledger)
  : Prop :=
  vm_inv L state l /\ exists device, ks_device_vms state !! gpu_id = Some device /\
    dv_acquired device = true /\ dv_aperture_valid device = true /\ dv_aperture device = aperture /\
    is_u64 (ap_gpuvm_limit aperture).

Lemma acquire_for_spec L state node dri_root purpose (w : W) :
  vm_inv L state (ledger_of w) ->
  wp (acquire_for state node dri_root purpose) (fun '(acquired, state') w' =>
    match acquired with
    | inl status => status_ok status = false /\ vm_inv L state' (ledger_of w')
    | inr aperture => settled L (node_gpu_id node) state' aperture (ledger_of w')
    end) w.
Proof.
  intros Hinv. unfold acquire_for. apply wp_bind. eapply wp_mono; [by apply (acquire_open_vm_spec L)|].
  intros [acquired state'] w' (Hinv' & _ & Hok). apply wp_give. cbn in *.
  destruct (vm_ok (vr_status acquired)); [|done].
  destruct (Hok eq_refl) as (device & Hd & Hv & Ha). split; [done|]. exists device.
  destruct (vi_devices _ _ _ Hinv' _ _ Hd) as [Hacq Hap]. destruct (Hap Hv) as (_ & _ & Hw).
  rewrite <-Ha. by split_and!; [..|apply Hw|apply Hw].
Qed.

Lemma device_render_fd_settled L gpu_id state aperture l :
  settled L gpu_id state aperture l -> exists fd, device_render_fd state gpu_id = Some fd.
Proof.
  intros [_ (device & Hd & Ha & Hv & _)]. unfold device_render_fd. rewrite Hd, Ha, Hv. by eexists.
Qed.

(** However often the owner is released: what it holds stays accounted for
    beside [l], and after a success only [l] is left. *)
Definition releasable (fd : Z) (l : ledger) (owner : MemoryAllocation) (w : W) : Prop :=
  forall n, wp (attempts (memory_release fd) n owner) (fun '(released, owner') w' =>
    accounted DriverPages l (ma_raw owner') (ledger_of w') /\
    (status_ok released = true -> owns_memory owner' = false /\ ledger_of w' = l)) w.

Lemma memory_releasable fd l owner w :
  accounted DriverPages l (ma_raw owner) (ledger_of w) -> releasable fd l owner w.
Proof.
  intros Ha n. eapply wp_mono;
    [apply (attempts_inv (fun o w => accounted DriverPages l (ma_raw o) (ledger_of w))
       (fun r w => status_ok r.1 = true -> owns_memory r.2 = false /\ ledger_of w = l));
     [intros; by apply memory_release_spec|done]|].
  by intros [released owner'] w2 [? ?].
Qed.

Definition host_releasable (fd : Z) (l : ledger) (owner : HostMemoryAllocation) (w : W) : Prop :=
  forall n, wp (attempts (host_release fd) n owner) (fun '(released, owner') w' =>
    accounted UserPages l (host_raw owner') (ledger_of w') /\
    (status_ok released = true -> holds_nothing (host_raw owner') = true /\ ledger_of w' = l)) w.

Lemma host_memory_releasable fd l owner w :
  accounted UserPages l (host_raw owner) (ledger_of w) -> host_releasable fd l owner w.
Proof.
  intros Ha n. eapply wp_mono;
    [apply (attempts_inv (fun o w => accounted UserPages l (host_raw o) (ledger_of w))
       (fun r w => status_ok r.1 = true -> holds_nothing (host_raw r.2) = true /\ ledger_of w = l));
     [intros; by apply host_release_spec|done]|].
  by intros [released owner'] w2 [? ?].
Qed.

(** What a session's allocation leaves. *)
Definition session_allocates (L : ledger) (gpu_id size : Z) (usage : MemoryAllocationUsage.t)
    (r : MemoryStatus * MemoryAllocation * option KfdState) (w : W) : Prop :=
  let '(status, owner, session) := r in
  exists state l, session = Some state /\ vm_inv L state l /\
    accounted DriverPages l (ma_raw owner) (ledger_of w) /\
    (status_ok status = true -> exists device, ks_device_vms state !! gpu_id = Some device /\
       allocated (dv_aperture device) usage size (ma_raw owner) /\
       is_u64 (ap_gpuvm_limit (dv_aperture device)) /\
       (usage <> Doorbell -> gpu_address owner = ra_gpu_address (ma_raw owner))) /\
    releasable (ks_fd state) l owner w.

Lemma session_allocates_failed L gpu_id size usage status state w :
  status_ok status = false -> vm_inv L state (ledger_of w) ->
  session_allocates L gpu_id size usage (status, no_memory, Some state) w.
Proof.
  intros Hs Hv. exists state, (ledger_of w).
  assert (accounted DriverPages (ledger_of w) (ma_raw no_memory) (ledger_of w)) as Hn
    by by apply accounted_nothing.
  split_and!; [done|done|done|by rewrite Hs|by apply memory_releasable].
Qed.

Definition session_allocates_host (L : ledger) (gpu_id size : Z)
    (r : MemoryStatus * HostMemoryAllocation * option KfdState) (w : W) : Prop :=
  let '(status, owner, session) := r in
  exists state l, session = Some state /\ vm_inv L state l /\
    accounted UserPages l (host_raw owner) (ledger_of w) /\
    (status_ok status = true -> exists device allocation_size,
       ks_device_vms state !! gpu_id = Some device /\
       size <= allocation_size < size + kMemoryPageSize /\ allocation_size mod kMemoryPageSize = 0 /\
       host_allocated (dv_aperture device) allocation_size (host_raw owner)) /\
    host_releasable (ks_fd state) l owner w.

Lemma session_allocates_host_failed L gpu_id size status state w :
  status_ok status = false -> vm_inv L state (ledger_of w) ->
  session_allocates_host L gpu_id size (status, no_host, Some state) w.
Proof.
  intros Hs Hv. exists state, (ledger_of w).
  assert (accounted UserPages (ledger_of w) (host_raw no_host) (ledger_of w)) as Hn
    by by apply accounted_nothing.
  split_and!; [done|done|done|by rewrite Hs|by apply host_memory_releasable].
Qed.

(** A failed allocation that holds nothing leaves the ledger. *)
Lemma nothing_held k l raw (w : W) :
  accounted k l raw (ledger_of w) -> holds_nothing raw = true -> ledger_of w = l.
Proof. intros Ha Hn. by apply (releases_nothing k l raw w Ha Hn). Qed.

Lemma allocate_memory_impl_spec L state node size dri_root usage (w : W) :
  vm_inv L state (ledger_of w) -> is_u64 size ->
  wp (allocate_memory_impl (Some state) node size dri_root usage)
    (session_allocates L (node_gpu_id node) size usage) w.
Proof.
  intros Hinv Hsize. unfold allocate_memory_impl.
  wp_if as G1; [by apply wp_give, session_allocates_failed|].
  wp_if as G2; [by apply wp_give, session_allocates_failed|]. apply wp_bind.
  eapply wp_mono; [by apply (acquire_for_spec L)|]. intros [[status|aperture] state1] w1 H.
  { destruct H. by apply wp_give, session_allocates_failed. }
  destruct (device_render_fd_settled _ _ _ _ _ H) as (fd & ->).
  destruct H as [Hinv1 (device & Hd & _ & _ & <- & Hlim)]. apply wp_bind.
  eapply wp_mono; [by apply allocate_memory_accounts|]. intros [status raw] w2 [Hacc Hok]. cbn in Hacc, Hok.
  wp_if as G3; apply andb_true_iff in G3 || apply andb_false_iff in G3; apply wp_give.
  - destruct G3 as [Hs Hn]. apply negb_true_iff in Hs. apply session_allocates_failed; [done|].
    by rewrite (nothing_held _ _ _ _ Hacc Hn).
  - exists state1, (ledger_of w1). split_and!; [done|done|done| |by apply memory_releasable].
    intros Hs. exists device. specialize (Hok Hs). split; [done|]. split; [done|]. split; [done|].
    intros Hu. destruct (ad_mapped _ _ _ _ Hok Hu) as (M1 & M2 & M3).
    unfold gpu_address, gpu_mapped. cbn. by rewrite (ad_gpu _ _ _ _ Hok), M1, M2, M3.
Qed.
End facts.

(** C18: an allocation through a session is accounted for from the node to the
    release.  On a session whose table is consistent, for any node, size and
    use, and whatever the kernel answers, [allocate_memory_impl] returns and
    leaves a consistent table, and beside it exactly what the returned owner
    holds; on success that is a complete allocation in the aperture the table
    settled on, which a GPU that maps it sees at the owner's address; any
    number of [release] calls keeps this account, and one that succeeds leaves
    only the table. *)
Theorem session_memory_lifecycle {W} `{!Kernel W, !KernelLaws W} L state node size dri_root usage (w : W) :
  vm_inv L state (ledger_of w) -> is_u64 size ->
  wp (allocate_memory_impl (Some state) node size dri_root usage)
    (session_allocates L (node_gpu_id node) size usage) w.
Proof. apply allocate_memory_impl_spec. Qed.

(** The same for [allocate_host], whose sizes are rounded up to whole
    pages. *)
Theorem session_host_lifecycle {W} `{!Kernel W, !KernelLaws W} L state node size dri_root (w : W) :
  vm_inv L state (ledger_of w) -> is_u64 size ->
  wp (allocate_host (Some state) node size dri_root)
    (session_allocates_host L (node_gpu_id node) size) w.
Proof.
  intros Hinv Hsize. unfold allocate_host.
  wp_if as G1; [by apply wp_give, session_allocates_host_failed|].
  wp_if as G2; [by apply wp_give, session_allocates_host_failed|]. cbv zeta.
  wp_if as G3; [by apply wp_give, session_allocates_host_failed|].
  change kMemoryPageSize with (2 ^ 12) in *.
  destruct (round_up_spec size 12) as [[B1 B2] B3]; [lia..|]. apply wp_bind.
  eapply wp_mono; [by apply (acquire_for_spec L)|]. intros [[status|aperture] state1] w1 H.
  { destruct H. by apply wp_give, session_allocates_host_failed. }
  destruct H as [Hinv1 (device & Hd & _ & _ & <- & Hlim)]. apply wp_bind.
  eapply wp_mono; [apply allocate_host_memory_accounts; [done|split; lia|done]|].
  intros [status raw] w2 [Hacc Hok]. cbn in Hacc, Hok.
  pose proof (host_raw_owner _ _ _ Hacc) as Hraw.
  wp_if as G4; apply andb_true_iff in G4 || apply andb_false_iff in G4; apply wp_give.
  - destruct G4 as [Hs Hn]. apply negb_true_iff in Hs. apply session_allocates_host_failed; [done|].
    by rewrite (nothing_held _ _ _ _ Hacc Hn).
  - exists state1, (ledger_of w1). rewrite Hraw.
    split_and!; [done|done|done| |apply host_memory_releasable; by rewrite Hraw].
    intros Hs. exists device, (round_up size (2 ^ 12)). by split_and!; [..|apply Hok].
Qed.
