(* ===== verification/KfdSignal.v ===== *)
(** * Signals of the KFD transport

    [transport/kfd/signal.cpp]: user signals are slots of shared pages.  The
    pages live in a heap; a [UserSignal] holds a reference to its page, the
    session remembers the pages by [weak_ptr], which can be followed as long as
    a signal keeps the page alive. *)

From stdpp Require Import gmap fin_maps.
From S2P Require Import Prelude Topology Signal KfdKernel KfdMemory ScratchPool KfdVm KfdSession.

Module UserSignalError.
Inductive t :=
| None_
| InvalidSession
| AllocateStorage
| MisalignedStorage
| ReleaseStorage.

#[global] Instance eq_dec : EqDecision t.
Proof. solve_decision. Defined.
End UserSignalError.

Record UserSignalStatus := mkSignalStatus {
  us_error : UserSignalError.t;
  us_system_error : Z;
  us_message : string
}.

Definition signal_ok : UserSignalStatus := mkSignalStatus UserSignalError.None_ 0 "".

Definition signal_status_ok (status : UserSignalStatus) : bool :=
  bool_decide (us_error status = UserSignalError.None_).

Definition user_signal_error_name (error : UserSignalError.t) : string :=
  match error with
  | UserSignalError.None_ => "none"
  | UserSignalError.InvalidSession => "invalid_session"
  | UserSignalError.AllocateStorage => "allocate_storage"
  | UserSignalError.MisalignedStorage => "misaligned_storage"
  | UserSignalError.ReleaseStorage => "release_storage"
  end.

Definition signal_failure (error : UserSignalError.t) (message : string) : UserSignalStatus :=
  mkSignalStatus error 0 message.

Definition signal_allocation_failure (status : MemoryStatus) : UserSignalStatus :=
  mkSignalStatus UserSignalError.AllocateStorage (ms_system_error status)
    ("user-signal storage allocation failed: " +:+ ms_message status).

(** ** Pages *)

(** [sizeof] and [alignof] of [AmdSignal]. *)
Definition kAmdSignalSize : Z := 64.

Definition kSlotCount : nat := Z.to_nat (kMemoryPageSize / kAmdSignalSize).

Definition page_ptr := positive.

(** [pg_signals] are the signal objects constructed in the page so far,
    [pg_use_count] is the count of the [shared_ptr]. *)
Record SignalPage := mkPage {
  pg_gpu_id : Z;
  pg_allocation : MemoryAllocation;
  pg_slots : list bool;
  pg_active_slots : Z;
  pg_signals : gmap nat AmdSignal;
  pg_use_count : nat
}.

Definition new_page (gpu_id : Z) (allocation : MemoryAllocation) : SignalPage :=
  mkPage gpu_id allocation (replicate kSlotCount false) 0 ∅ 1.

Definition set_page_allocation (page : SignalPage) (allocation : MemoryAllocation) : SignalPage :=
  mkPage (pg_gpu_id page) allocation (pg_slots page) (pg_active_slots page) (pg_signals page)
    (pg_use_count page).

Definition set_slot (page : SignalPage) (slot : nat) (used : bool) (active_slots : Z) : SignalPage :=
  mkPage (pg_gpu_id page) (pg_allocation page) (<[slot := used]> (pg_slots page)) active_slots
    (pg_signals page) (pg_use_count page).

Definition set_use_count (page : SignalPage) (count : nat) : SignalPage :=
  mkPage (pg_gpu_id page) (pg_allocation page) (pg_slots page) (pg_active_slots page)
    (pg_signals page) count.

Definition construct_signal (page : SignalPage) (slot : nat) (initial_value : Z) : SignalPage :=
  mkPage (pg_gpu_id page) (pg_allocation page) (pg_slots page) (pg_active_slots page)
    (<[slot := initialize_user_signal (mkAmdSignal 0 0 0 0 0 0 0 0 (0, 0)) initial_value]>
       (pg_signals page)) (pg_use_count page).

(** The first free slot from [index] on. *)
Fixpoint free_slot (slots : list bool) (index : nat) : option nat :=
  match slots with
  | [] => None
  | true :: slots => free_slot slots (S index)
  | false :: _ => Some index
  end.

(** [SignalPage::acquire] *)
Definition page_acquire (page : SignalPage) (initial_value : Z) : option (nat * SignalPage) :=
  if negb (owns_memory (pg_allocation page)) || (ra_host_address (ma_raw (pg_allocation page)) =? 0) ||
     (gpu_address (pg_allocation page) =? 0) then None
  else
    slot ← free_slot (pg_slots page) 0;
    Some (slot, construct_signal (set_slot page slot true (u64_add (pg_active_slots page) 1)) slot
                  initial_value).

Definition page_host_address (page : SignalPage) (slot : nat) : Z :=
  ra_host_address (ma_raw (pg_allocation page)) + Z.of_nat slot * kAmdSignalSize.

Definition page_gpu_address (page : SignalPage) (slot : nat) : Z :=
  u64_add (gpu_address (pg_allocation page)) (Z.of_nat slot * kAmdSignalSize).

(** ** Signals *)

(** [page_] and [slot_]. *)
Definition UserSignal := option (page_ptr * nat).

(** The heap of pages, and [signal_pages] of the session. *)
Record signal_state := mkSignalState {
  st_pages : gmap page_ptr SignalPage;
  st_signal_pages : list page_ptr
}.

(** The address of a page that is made now: not that of a page that lives, nor
    of one that a weak pointer remembers. *)
Definition new_page_ptr (signals : signal_state) : page_ptr :=
  fresh (dom (st_pages signals) ∪ list_to_set (st_signal_pages signals)).

Definition set_pages (signals : signal_state) (pages : gmap page_ptr SignalPage) : signal_state :=
  mkSignalState pages (st_signal_pages signals).

Definition user_signal_gpu_handle (signals : signal_state) (signal : UserSignal) : Z :=
  match signal with
  | Some (page, slot) =>
      match st_pages signals !! page with Some object => page_gpu_address object slot | None => 0 end
  | None => 0
  end.

(** The loop over the weak pointers: dead ones are erased on the way. *)
Fixpoint scan_pages (weak : list page_ptr) (pages : gmap page_ptr SignalPage) (gpu_id initial_value : Z)
  : option (page_ptr * nat * SignalPage) * list page_ptr :=
  match weak with
  | [] => (None, [])
  | page :: weak =>
      match pages !! page with
      | None => scan_pages weak pages gpu_id initial_value
      | Some retained =>
          let acquired :=
            if pg_gpu_id retained =? gpu_id then page_acquire retained initial_value else None in
          match acquired with
          | Some (slot, retained) => (Some (page, slot, retained), page :: weak)
          | None =>
              let '(found, weak) := scan_pages weak pages gpu_id initial_value in
              (found, page :: weak)
          end
      end
  end.

Section signals.
Context {W : Type} `{!Kernel W}.

(** [~MemoryAllocation]: one attempt; what it could not release is lost. *)
Definition destroy_memory (kfd_fd : Z) (owner : MemoryAllocation) : kfd W MemoryAllocation :=
  '(_, lost) ← memory_release kfd_fd owner;
  give lost.

(** [page_.reset()]: the last reference takes the page along. *)
Definition drop_page (kfd_fd : Z) (page : page_ptr) (signals : signal_state) : kfd W signal_state :=
  match st_pages signals !! page with
  | None => give signals
  | Some object =>
      match pg_use_count object with
      | S (S count) =>
          give (set_pages signals (<[page := set_use_count object (S count)]> (st_pages signals)))
      | _ =>
          _ ← destroy_memory kfd_fd (pg_allocation object);
          give (set_pages signals (delete page (st_pages signals)))
      end
  end.

(** [SignalPage::release] *)
Definition page_release (kfd_fd : Z) (page : SignalPage) (slot : nat)
  : kfd W (MemoryStatus * SignalPage) :=
  match pg_slots page !! slot with
  | Some true =>
      '(status, allocation) ←
        (if pg_active_slots page =? 1 then memory_release kfd_fd (pg_allocation page)
         else give (no_error, pg_allocation page));
      let page := set_page_allocation page allocation in
      if negb (status_ok status) then give (status, page)
      else give (no_error, set_slot page slot false (u64_sub (pg_active_slots page) 1))
  | _ => give (no_error, page)
  end.

Definition user_signal_release (kfd_fd : Z) (signal : UserSignal) (signals : signal_state)
  : kfd W (UserSignalStatus * UserSignal * signal_state) :=
  match signal with
  | None => give (signal_ok, None, signals)
  | Some (page, slot) =>
      match st_pages signals !! page with
      | None => fun _ => Fault OutOfBounds
      | Some object =>
          '(status, object) ← page_release kfd_fd object slot;
          let signals := set_pages signals (<[page := object]> (st_pages signals)) in
          if negb (status_ok status) then
            give (mkSignalStatus UserSignalError.ReleaseStorage (ms_system_error status)
                    ("user-signal storage cleanup failed: " +:+ ms_message status), signal, signals)
          else
            signals ← drop_page kfd_fd page signals;
            give (signal_ok, None, signals)
      end
  end.

(** [~UserSignal]: a release, then the member [page_]. *)
Definition destroy_signal (kfd_fd : Z) (signal : UserSignal) (signals : signal_state)
  : kfd W signal_state :=
  '(_, signal, signals) ← user_signal_release kfd_fd signal signals;
  match signal with
  | Some (page, _) => drop_page kfd_fd page signals
  | None => give signals
  end.

(** A page kept for a failure: its first slot owns the storage. *)
Definition retain_storage (kfd_fd : Z) (gpu_id : Z) (allocation : MemoryAllocation)
    (status without : UserSignalStatus) (signals : signal_state)
  : kfd W (UserSignalStatus * UserSignal * signal_state) :=
  made ← sys_new;
  if negb made then
    _ ← destroy_memory kfd_fd allocation;
    give (without, None, signals)
  else
    let page := new_page_ptr signals in
    let object := set_slot (new_page gpu_id allocation) 0 true 1 in
    give (status, Some (page, O), set_pages signals (<[page := object]> (st_pages signals))).

(** The new page of a signal that found no free slot. *)
Definition make_page (kfd_fd : Z) (gpu_id initial_value : Z) (allocation : MemoryAllocation)
    (signals : signal_state) : kfd W (UserSignalStatus * UserSignal * signal_state) :=
  let no_state :=
    signal_failure UserSignalError.AllocateStorage "failed to allocate user-signal page state" in
  made ← sys_new;
  if negb made then
    _ ← destroy_memory kfd_fd allocation;
    give (no_state, None, signals)
  else
    match page_acquire (new_page gpu_id allocation) initial_value with
    | None =>
        _ ← destroy_memory kfd_fd allocation;
        give (signal_failure UserSignalError.AllocateStorage
                "new user-signal page has no available slot", None, signals)
    | Some (slot, object) =>
        appended ← sys_new;
        if negb appended then
          _ ← destroy_memory kfd_fd (pg_allocation object);
          give (no_state, None, signals)
        else
          let page := new_page_ptr signals in
          give (signal_ok, Some (page, slot),
            mkSignalState (<[page := object]> (st_pages signals))
              (st_signal_pages signals ++ [page]))
    end.

(** [KfdSession::create_user_signal] *)
Definition create_user_signal (session : option KfdState) (node : Node) (initial_value : Z)
    (dri_root : string) (signals : signal_state)
  : kfd W (UserSignalStatus * UserSignal * signal_state * option KfdState) :=
  match session with
  | None =>
      give (signal_failure UserSignalError.InvalidSession "KFD session is not open", None, signals, None)
  | Some state =>
      let '(found, weak) :=
        scan_pages (st_signal_pages signals) (st_pages signals) (node_gpu_id node) initial_value in
      match found with
      | Some (page, slot, retained) =>
          let object := set_use_count retained (S (pg_use_count retained)) in
          give (signal_ok, Some (page, slot),
            mkSignalState (<[page := object]> (st_pages signals)) weak, Some state)
      | None =>
          let signals := mkSignalState (st_pages signals) weak in
          '(status, allocation, session) ← allocate_gtt (Some state) node kMemoryPageSize dri_root;
          '(status, signal, signals) ←
            (if negb (status_ok status) then
               if negb (owns_memory allocation) then
                 give (signal_allocation_failure status, None, signals)
               else
                 retain_storage (ks_fd state) (node_gpu_id node) allocation
                   (signal_allocation_failure status) (signal_allocation_failure status) signals
             else if negb (ra_host_address (ma_raw allocation) mod kAmdSignalSize =? 0) ||
                     negb (gpu_address allocation mod kAmdSignalSize =? 0) then
               retain_storage (ks_fd state) (node_gpu_id node) allocation
                 (signal_failure UserSignalError.MisalignedStorage
                    "user-signal CPU and GPU addresses must be 64-byte aligned")
                 (signal_failure UserSignalError.AllocateStorage
                    "failed to retain misaligned user-signal storage") signals
             else make_page (ks_fd state) (node_gpu_id node) initial_value allocation signals);
          give (status, signal, signals, session)
      end
  end.
End signals.
