(* ===== verification/KfdSignalFacts.v ===== *)
(** * Signal pages are shared without loss

    Over any sequence of creations, releases and destructions of signals: a
    slot belongs to one signal, a page lives exactly as long as a signal of it,
    signals do not overlap in memory, and the memory held is that of the pages
    and of what a destructor could not release because the release was refused. *)

From stdpp Require Import gmap fin_maps.
From S2P Require Import Prelude Topology Signal KfdKernel KfdMemory KfdMemoryFacts ScratchPool KfdVm KfdSession KfdSignal.

(** ** Slots *)

Definition used_slots (slots : list bool) : nat := length (filter (eq true) slots).
#[local] Arguments used_slots : simpl never.

Lemma used_slots_insert slots slot (old new : bool) :
  slots !! slot = Some old ->
  (used_slots (<[slot := new]> slots) + (if old then 1 else 0) =
   used_slots slots + (if new then 1 else 0))%nat.
Proof.
  intros Hs. unfold used_slots. pose proof (lookup_lt_Some _ _ _ Hs).
  rewrite insert_take_drop by done. rewrite <-(take_drop_middle _ _ _ Hs) at 3.
  rewrite !filter_app, !length_app, !filter_cons. destruct old, new; repeat case_decide; simpl; try done; lia.
Qed.

Lemma used_slots_pos slots slot : slots !! slot = Some true -> (0 < used_slots slots)%nat.
Proof.
  intros Hs. pose proof (used_slots_insert _ _ _ false Hs) as H. cbn iota in H. lia.
Qed.

Lemma used_slots_le slots : (used_slots slots <= length slots)%nat.
Proof. apply length_filter. Qed.

Lemma used_slots_new n : used_slots (replicate n false) = O.
Proof. unfold used_slots. induction n as [|n IH]; [done|]. simpl. rewrite filter_cons. by case_decide. Qed.

Lemma free_slot_spec slots index slot :
  free_slot slots index = Some slot -> (index <= slot)%nat /\ slots !! (slot - index)%nat = Some false.
Proof.
  revert index. induction slots as [|[|] slots IH]; intros index; simpl; [done| |].
  - intros [H1 H2]%IH. split; [lia|]. by replace (slot - index)%nat with (S (slot - S index)) by lia.
  - intros [= ->]. split; [done|]. by rewrite Nat.sub_diag.
Qed.

(** ** Pages *)

Record page_wf (page : SignalPage) : Prop := {
  pw_slots : length (pg_slots page) = kSlotCount;
  pw_active : pg_active_slots page = Z.of_nat (used_slots (pg_slots page));
  pw_count : pg_use_count page = used_slots (pg_slots page);
  pw_alive : (0 < used_slots (pg_slots page))%nat
}.

Lemma page_active_small page : page_wf page -> 0 < pg_active_slots page <= 64.
Proof.
  intros [H1 H2 _ H4]. pose proof (used_slots_le (pg_slots page)) as H. rewrite H1 in H.
  change kSlotCount with 64%nat in H. lia.
Qed.

(** A page that the host can reach lies inside its reservation, at the same
    address for the GPU. *)
Record placed (a : RawMemoryAllocation) : Prop := {
  pl_host : ra_host_address a = ra_gpu_address a;
  pl_reserved : 0 < ra_reservation_address a <= ra_gpu_address a;
  pl_inside : ra_gpu_address a + kMemoryPageSize <= ra_reservation_address a + ra_reservation_size a;
  pl_aligned : ra_gpu_address a mod kMemoryPageSize = 0;
  pl_fits : ra_gpu_address a + kMemoryPageSize <= U64_MOD
}.

Definition placed_if_reached (a : RawMemoryAllocation) : Prop := ra_host_address a <> 0 -> placed a.

(** A slot is taken: the page has one more, and the signal its value. *)
Lemma page_acquire_spec page initial_value slot page' :
  length (pg_slots page) = kSlotCount ->
  pg_active_slots page = Z.of_nat (used_slots (pg_slots page)) ->
  page_acquire page initial_value = Some (slot, page') ->
  pg_slots page !! slot = Some false /\ pg_slots page' = <[slot := true]> (pg_slots page) /\
  pg_active_slots page' = Z.of_nat (used_slots (pg_slots page')) /\
  pg_allocation page' = pg_allocation page /\
  ra_host_address (ma_raw (pg_allocation page)) <> 0 /\ gpu_address (pg_allocation page) <> 0 /\
  pg_gpu_id page' = pg_gpu_id page /\ pg_use_count page' = pg_use_count page /\
  sg_value <$> (pg_signals page' !! slot) = Some initial_value.
Proof.
  intros Hlen Hact. unfold page_acquire. destruct (_ || _) eqn:G; [done|].
  rewrite !orb_false_iff in G. destruct (free_slot _ _) as [i|] eqn:F; [|done]. intros [= <- <-].
  apply free_slot_spec in F as [_ F]. rewrite Nat.sub_0_r in F.
  pose proof (used_slots_insert _ _ _ true F) as Hu. cbn iota in Hu. pose proof (used_slots_le (<[i := true]> (pg_slots page))) as Hle.
  rewrite length_insert, Hlen in Hle. change kSlotCount with 64%nat in Hle.
  split_and!; try done; simpl.
  - rewrite Hact, u64_add_small; lia.
  - lia.
  - lia.
  - by rewrite lookup_insert_eq.
Qed.

(** ** Releases of an allocation *)

(** An allocation that can still be reached after a release is where it was. *)
Lemma memory_release_placed {W} `{!Kernel W} fd owner :
  placed_if_reached (ma_raw owner) ->
  yields (memory_release fd owner : kfd W _) (fun r => placed_if_reached (ma_raw r.2)).
Proof.
  intros Hp. unfold memory_release. destruct (holds_nothing _); [by apply yields_give|].
  destruct (ma_state owner); cbn [negb]; [|by apply yields_give].
  eapply (yields_bind _ _ (fun r => placed_if_reached r.2)).
  2: { intros [status raw] Hr. apply yields_give. by destruct (status_ok status). }
  unfold release_memory. destruct (holds_nothing _); [by apply yields_give|].
  destruct (_ || _); [by apply yields_give|].
  assert (Hkeep : forall gpu_ids mapped unmapped complete,
    placed_if_reached (set_mapping (ma_raw owner) gpu_ids mapped unmapped complete)).
  { intros g m u c Hz. destruct (Hp Hz). by split. }
  eapply (yields_bind _ _ (fun r => placed_if_reached r.2)).
  - unfold unmap_memory. destruct (_ =? 0); [apply yields_give, Hkeep|].
    destruct (_ || _); [by apply yields_give|]. destruct (_ || _); [by apply yields_give|].
    eapply yields_bind; [apply yields_any|]. intros reply _. apply yields_give.
    unfold unmap_outcome. repeat case_match; first [exact Hp|apply Hkeep].
  - intros [unmapped a] Ha. destruct (negb _); [by apply yields_give|].
    eapply yields_bind; [apply yields_any|]. intros [status|] _; [by apply yields_give|].
    eapply yields_bind; [apply yields_any|]. intros [status|] _; apply yields_give; [|done].
    by destruct (_ =? 0).
Qed.

(** ** What is held *)

Section ledger.
Context {W : Type} `{!Kernel W, !KernelLaws W} (L : ledger).

(** [l] is [L], the files of the session and the allocations [raws]. *)
Definition session_holds (state : KfdState) (raws : list RawMemoryAllocation) (l : ledger) : Prop :=
  exists Lp, held L raws Lp /\ vm_inv Lp state l.

#[export] Instance session_holds_perm state : Proper ((≡ₚ) ==> eq ==> iff) (session_holds state).
Proof. intros o1 o2 Hp l ? <-. unfold session_holds. by setoid_rewrite Hp. Qed.

Lemma vm_inv_rebase Lp state l l' a' l0 :
  vm_inv Lp state l -> lg_files l0 = lg_files Lp ->
  accounted DriverPages (set_files l0 (lg_files l)) a' l' ->
  exists Lp', accounted DriverPages l0 a' Lp' /\ vm_inv Lp' state l'.
Proof.
  intros [H1 H2 H3 H4 H5] Hf Ha. exists (set_files l' (lg_files l0)).
  pose proof (accounted_same_files _ _ _ _ Ha) as Hl. cbn in Hl. split.
  - apply (accounted_files _ _ _ (lg_files l0)) in Ha. by rewrite set_files_back in Ha.
  - split; cbn; try done.
    + by destruct l'.
    + intros fd. rewrite Hl, Hf. apply H3.
    + rewrite Hf. apply H4.
Qed.

Lemma release_holds fd state owner raws (w : W) :
  session_holds state (ma_raw owner :: raws) (ledger_of w) ->
  wp (memory_release fd owner) (fun r w' =>
    session_holds state (ma_raw r.2 :: raws) (ledger_of w') /\
    (status_ok r.1 = true -> owns_memory r.2 = false)) w.
Proof.
  intros (Lp & Hh & Hv). apply held_cons_inv in Hh as (l0 & Hh & Ha).
  pose proof (accounted_same_files _ _ _ _ Ha) as Hf.
  assert (accounted DriverPages (set_files l0 (lg_files (ledger_of w))) (ma_raw owner) (ledger_of w)) as Ha'.
  { rewrite (vi_rest _ _ _ Hv) at 2. by apply accounted_files. }
  eapply wp_mono; [by apply (memory_release_spec DriverPages)|]. intros [status owner'] w' [Hr Hok].
  cbn in *. split; [|intros; by apply Hok].
  destruct (vm_inv_rebase Lp state (ledger_of w) (ledger_of w') (ma_raw owner') l0) as (Lp' & HA & HV); try done.
  exists Lp'. split; [by econstructor|done].
Qed.

(** An allocation that holds nothing need not be counted. *)
Lemma holds_nothing_dropped state a raws l :
  session_holds state (a :: raws) l -> holds_nothing a = true -> session_holds state raws l.
Proof.
  intros (Lp & Hh & Hv) Hn. apply held_cons_inv in Hh as (l0 & Hh & Ha).
  unfold holds_nothing in Hn. assert (Lp = l0) as ->; [|by exists l0].
  apply (accounted_nothing DriverPages), (accounted_empty _ _ _ _ Ha); lia.
Qed.

Lemma allocate_holds state node raws dri_root (w : W) :
  session_holds state raws (ledger_of w) ->
  wp (allocate_gtt (Some state) node kMemoryPageSize dri_root) (fun '(status, owner, session) w' =>
    exists state', session = Some state' /\ session_holds state' (ma_raw owner :: raws) (ledger_of w') /\
      (status_ok status = true -> placed (ma_raw owner) /\ gpu_address owner = ra_gpu_address (ma_raw owner))) w.
Proof.
  intros (Lp & Hh & Hv). eapply wp_mono; [by apply (allocate_memory_impl_spec Lp)|].
  intros [[status owner] session] w' (state' & l & -> & Hv' & Ha & Hok & _). exists state'. split; [done|]. split.
  - assert (accounted DriverPages (set_files Lp (lg_files l)) (ma_raw owner) (ledger_of w')) as Ha'.
    { by rewrite <-(vi_rest _ _ _ Hv'). }
    destruct (vm_inv_rebase Lp state' l (ledger_of w') (ma_raw owner) Lp) as (Lp' & HA & HV); try done.
    exists Lp'. split; [by econstructor|done].
  - intros Hs. destruct (Hok Hs) as (device & Hd & Had & Hlim & Hg). split; [|by apply Hg].
    destruct Had as [(P1 & P2 & P3 & P4 & P5 & P6) A1 A2 A3 A4 A5]. cbn in *.
    change (backing_bytes MemoryAllocationUsage.General kMemoryPageSize) with kMemoryPageSize in *.
    unfold kMemoryPageSize in *. split; unfold kMemoryPageSize; try done; lia.
Qed.
End ledger.

(** ** The invariant *)

Definition page_raw (page : SignalPage) : RawMemoryAllocation := ma_raw (pg_allocation page).

Definition raws (pages : gmap page_ptr SignalPage) : list RawMemoryAllocation :=
  (fun entry => page_raw entry.2) <$> map_to_list pages.

Lemma raws_new pages p page :
  pages !! p = None -> raws (<[p := page]> pages) ≡ₚ page_raw page :: raws pages.
Proof. intros Hp. unfold raws. by rewrite map_to_list_insert. Qed.

Lemma raws_take pages p page :
  pages !! p = Some page -> raws pages ≡ₚ page_raw page :: raws (delete p pages).
Proof. intros Hp. rewrite <-(raws_new (delete p pages) p page) by apply lookup_delete_eq. by rewrite insert_delete_id. Qed.

Lemma raws_put pages p page :
  raws (<[p := page]> pages) ≡ₚ page_raw page :: raws (delete p pages).
Proof. rewrite <-insert_delete_eq. apply raws_new, lookup_delete_eq. Qed.

(** [live] are the signals that clients hold. *)
Record signals_wf (signals : signal_state) (live : list (page_ptr * nat)) : Prop := {
  si_pages p page : st_pages signals !! p = Some page -> page_wf page;
  si_live p slot : (p, slot) ∈ live <->
    exists page, st_pages signals !! p = Some page /\ pg_slots page !! slot = Some true;
  si_once : NoDup live;
  si_placed p page : p ∈ st_signal_pages signals -> st_pages signals !! p = Some page ->
    placed_if_reached (page_raw page)
}.

(** [lost] is what destructors could not release. *)
Record signals_inv (W : Type) `{!Kernel W} (L : ledger) (state : KfdState) (signals : signal_state)
    (live : list (page_ptr * nat)) (lost : list RawMemoryAllocation) (l : ledger) : Prop := {
  si_wf : signals_wf signals live;
  si_refused : Forall (release_refused W) lost;
  si_held : session_holds L state (lost ++ raws (st_pages signals)) l
}.

(** A slot of a page is taken: the page may be new. *)
Lemma signals_wf_take signals live weak p slot page old :
  signals_wf signals live -> page_wf page ->
  (match st_pages signals !! p with Some page0 => pg_slots page0 | None => replicate kSlotCount false end) = old ->
  old !! slot = Some false -> pg_slots page = <[slot := true]> old ->
  (forall x page', x ∈ weak -> <[p := page]> (st_pages signals) !! x = Some page' ->
     placed_if_reached (page_raw page')) ->
  signals_wf (mkSignalState (<[p := page]> (st_pages signals)) weak) (live ++ [(p, slot)]).
Proof.
  intros [Hw Hlive Hnd _] Hpw Hold Hfree Hslots Hplaced.
  assert (Hnew : (p, slot) ∉ live).
  { rewrite Hlive. intros (page0 & Hp & Hs). rewrite Hp in Hold. congruence. }
  split; cbn; try done.
  - intros x page'. rewrite lookup_insert_Some. intros [[_ <-]|[_ H]]; [done|by eapply Hw].
  - intros x i. rewrite elem_of_app, list_elem_of_singleton, Hlive. split.
    + intros [(page0 & Hx & Hi)|[= -> ->]].
      * destruct (decide (x = p)) as [->|Hne]; [|exists page0; by rewrite lookup_insert_ne].
        exists page. rewrite lookup_insert_eq, Hslots. split; [done|].
        rewrite Hx in Hold. rewrite list_lookup_insert_ne; [congruence|]. intros ->. congruence.
      * exists page. rewrite lookup_insert_eq, Hslots. split; [done|].
        apply list_lookup_insert_eq. by eapply lookup_lt_Some.
    + intros (page' & Hx & Hi). apply lookup_insert_Some in Hx as [[<- <-]|[Hne Hx]]; [|left; eauto].
      rewrite Hslots in Hi. destruct (decide (i = slot)) as [->|Hne]; [by right|]. left.
      rewrite list_lookup_insert_ne in Hi by done.
      destruct (st_pages signals !! p) as [page0|]; subst old; [eauto|].
      apply lookup_replicate in Hi as [? _]. done.
  - apply NoDup_app. split_and!; [done| |apply NoDup_singleton].
    intros y Hy Hin. apply list_elem_of_singleton in Hin. by subst.
Qed.

Lemma scan_pages_spec weak pages gpu_id initial_value found weak' :
  scan_pages weak pages gpu_id initial_value = (found, weak') ->
  (forall p, p ∈ weak' -> p ∈ weak) /\
  match found with
  | Some (p, slot, page') => p ∈ weak' /\ exists page, pages !! p = Some page /\
      pg_gpu_id page = gpu_id /\ page_acquire page initial_value = Some (slot, page')
  | None => True
  end.
Proof.
  revert found weak'. induction weak as [|p weak IH]; intros found weak'; simpl; [by intros [= <- <-]|].
  destruct (pages !! p) as [page|] eqn:Hp.
  2: { intros H. apply IH in H as [H1 H2]. split; [|done]. intros x Hx. right. by apply H1. }
  destruct (if pg_gpu_id page =? gpu_id then _ else _) as [[slot page']|] eqn:Ha.
  - intros [= <- <-]. split; [done|]. split; [by left|]. exists page. split; [done|].
    destruct (Z.eqb_spec (pg_gpu_id page) gpu_id); [done|done].
  - destruct (scan_pages weak pages gpu_id initial_value) as [found0 weak0] eqn:Hs. intros [= <- <-].
    destruct (IH _ _ eq_refl) as [H1 H2]. split.
    + intros x [->|Hx]%elem_of_cons; [by left|right; by apply H1].
    + destruct found0 as [[[q slot] page']|]; [|done]. destruct H2 as [Hq H2]. split; [by right|done].
Qed.

(** ** Creation *)

Section creation.
Context {W : Type} `{!Kernel W, !KernelLaws W} (L : ledger).

(** A destructor leaves nothing of its owner, unless the release was refused. *)
Lemma destroy_memory_holds fd state owner rest (w : W) :
  session_holds L state (ma_raw owner :: rest) (ledger_of w) ->
  wp (destroy_memory fd owner) (fun _ w' => exists gone,
    Forall (release_refused W) gone /\ session_holds L state (gone ++ rest) (ledger_of w') /\
    (owns_memory owner = false -> gone = [])) w.
Proof.
  intros Hh. destruct (wp_run _ _ _ (release_holds L fd state owner rest w Hh)) as ([status lost] & w' & E & H1 & H2).
  cbn in H1, H2. unfold destroy_memory. apply wp_bind. unfold wp at 1. rewrite E. apply wp_give.
  destruct (status_ok status) eqn:Hs.
  - exists []. split_and!; [done| |done]. eapply holds_nothing_dropped; [done|].
    apply negb_false_iff. by apply H2.
  - exists [ma_raw lost]. split_and!; [|done|].
    + constructor; [|done]. by exists fd, owner, status, lost, w, w'.
    + intros Ho. unfold owns_memory in Ho. apply negb_false_iff in Ho. unfold memory_release in E.
      rewrite Ho in E. injection E as <- _ _. by rewrite status_ok_no_error in Hs.
Qed.

(** A signal that was created: on a page the session remembers, with its
    initial value, at an address of its own. *)
Record signal_made (signals : signal_state) (gpu_id initial_value : Z) (p : page_ptr) (slot : nat)
    (page : SignalPage) : Prop := {
  sm_page : st_pages signals !! p = Some page;
  sm_known : p ∈ st_signal_pages signals;
  sm_gpu : pg_gpu_id page = gpu_id;
  sm_placed : placed (page_raw page);
  sm_mapped : gpu_address (pg_allocation page) <> 0;
  sm_value : sg_value <$> (pg_signals page !! slot) = Some initial_value
}.

Definition signal_created (state : KfdState) (live : list (page_ptr * nat)) (gpu_id initial_value : Z)
    (r : UserSignalStatus * UserSignal * signal_state) (w : W) : Prop :=
  let '(status, signal, signals) := r in
  exists lost, signals_inv W L state signals (live ++ option_list signal) lost (ledger_of w) /\
    (signal_status_ok status = true -> exists p slot page, signal = Some (p, slot) /\
       signal_made signals gpu_id initial_value p slot page).

(** No signal, and an allocation given to its destructor. *)
Lemma wp_abandoned fd state signals live lost allocation gpu_id initial_value status (w : W) :
  signals_wf signals live -> Forall (release_refused W) lost ->
  session_holds L state (ma_raw allocation :: lost ++ raws (st_pages signals)) (ledger_of w) ->
  signal_status_ok status = false ->
  wp (_ ← destroy_memory fd allocation; give (status, None, signals))
    (signal_created state live gpu_id initial_value) w.
Proof.
  intros Hwf Hl Hh Hs. apply wp_bind. eapply wp_mono; [by apply destroy_memory_holds|].
  intros _ w' (gone & Hg & Hh' & _). apply wp_give. exists (gone ++ lost). rewrite Hs. split; [|done].
  cbn. rewrite app_nil_r. split; [done|by apply Forall_app|by rewrite <-app_assoc].
Qed.

Lemma new_page_ptr_spec signals :
  st_pages signals !! new_page_ptr signals = None /\ new_page_ptr signals ∉ st_signal_pages signals.
Proof.
  pose proof (is_fresh (dom (st_pages signals) ∪ list_to_set (st_signal_pages signals))) as H.
  rewrite elem_of_union, elem_of_list_to_set in H. unfold new_page_ptr.
  split; [apply not_elem_of_dom|]; tauto.
Qed.

Lemma retained_page_wf gpu_id allocation : page_wf (set_slot (new_page gpu_id allocation) 0 true 1).
Proof. split; vm_compute; [reflexivity..|lia]. Qed.

Lemma wp_retain_storage fd state signals live lost allocation gpu_id initial_value status without (w : W) :
  signals_wf signals live -> Forall (release_refused W) lost ->
  session_holds L state (ma_raw allocation :: lost ++ raws (st_pages signals)) (ledger_of w) ->
  signal_status_ok status = false -> signal_status_ok without = false ->
  wp (retain_storage fd gpu_id allocation status without signals)
    (signal_created state live gpu_id initial_value) w.
Proof.
  intros Hwf Hl Hh Hs Hs'. unfold retain_storage. apply wp_bind, wp_new. intros made w1 Hw1.
  rewrite <-Hw1 in Hh. destruct made; cbn [negb]; [|by eapply wp_abandoned].
  destruct (new_page_ptr_spec signals) as [Hnew Hweak]. apply wp_give. exists lost. rewrite Hs. split; [|done].
  split; [|done|].
  - eapply signals_wf_take; [done|apply retained_page_wf|by rewrite Hnew|done|done|].
    intros x page' Hx Hp. apply lookup_insert_Some in Hp as [[<- _]|[_ Hp]]; [done|].
    by eapply (si_placed _ _ Hwf).
  - cbn. rewrite (raws_new _ _ _ Hnew). by rewrite <-Permutation_middle.
Qed.

Lemma wp_make_page fd state signals live lost allocation gpu_id initial_value (w : W) :
  signals_wf signals live -> Forall (release_refused W) lost -> placed (ma_raw allocation) ->
  session_holds L state (ma_raw allocation :: lost ++ raws (st_pages signals)) (ledger_of w) ->
  wp (make_page fd gpu_id initial_value allocation signals)
    (signal_created state live gpu_id initial_value) w.
Proof.
  intros Hwf Hl Hpl Hh. unfold make_page. apply wp_bind, wp_new. intros made w1 Hw1.
  rewrite <-Hw1 in Hh. destruct made; cbn [negb]; [|by eapply wp_abandoned].
  destruct (page_acquire _ _) as [[slot page]|] eqn:Ha; [|by eapply wp_abandoned].
  apply wp_bind, wp_new. intros appended w2 Hw2. rewrite <-Hw2 in Hh.
  apply page_acquire_spec in Ha as (F & S1 & S2 & S3 & S4 & S5 & S6 & S7 & S8);
    [|apply length_replicate|cbn [pg_active_slots pg_slots new_page]; by rewrite used_slots_new].
  cbn [pg_slots pg_allocation pg_gpu_id pg_use_count new_page] in F, S1, S3, S4, S5, S6, S7. rewrite <-S3 in Hh.
  destruct appended; cbn [negb]; [|by eapply wp_abandoned].
  destruct (new_page_ptr_spec signals) as [Hnew Hweak]. apply wp_give. exists lost.
  pose proof (used_slots_insert _ _ _ true F) as Hu. rewrite used_slots_new, <-S1 in Hu. cbn iota in Hu. split.
  - split; [|done|].
    + eapply signals_wf_take; [done| |by rewrite Hnew|done|done|].
      * split; [rewrite S1, length_insert; apply length_replicate|done|lia|lia].
      * intros x page' Hx Hp. apply lookup_insert_Some in Hp as [[<- <-]|[_ Hp]].
        -- intros _. unfold page_raw. by rewrite S3.
        -- apply elem_of_app in Hx as [Hx|Hx%list_elem_of_singleton].
           ++ by eapply (si_placed _ _ Hwf).
           ++ subst. by rewrite Hnew in Hp.
    + cbn. rewrite (raws_new _ _ _ Hnew). unfold page_raw. by rewrite <-Permutation_middle.
  - intros _. exists (new_page_ptr signals), slot, page. split; [done|]. split; cbn.
    + apply lookup_insert_eq.
    + apply elem_of_app. right. by left.
    + done.
    + unfold page_raw. by rewrite S3.
    + by rewrite S3.
    + done.
Qed.

(** A free slot of a page that the session remembers. *)
Lemma found_slot state signals live lost weak p slot page retained initial_value (w : W) :
  signals_inv W L state signals live lost (ledger_of w) ->
  (forall x, x ∈ weak -> x ∈ st_signal_pages signals) -> p ∈ weak ->
  st_pages signals !! p = Some page -> page_acquire page initial_value = Some (slot, retained) ->
  let object := set_use_count retained (S (pg_use_count retained)) in
  signal_created state live (pg_gpu_id page) initial_value (signal_ok, Some (p, slot),
    mkSignalState (<[p := object]> (st_pages signals)) weak) w.
Proof.
  intros [Hwf Hl Hh] Hweak Hp Hpage Ha object. pose proof (si_pages _ _ Hwf _ _ Hpage) as Hpw.
  apply page_acquire_spec in Ha as (F & S1 & S2 & S3 & S4 & S5 & S6 & S7 & S8); [|apply Hpw|apply Hpw].
  pose proof (si_placed _ _ Hwf _ _ (Hweak _ Hp) Hpage) as Hpl.
  pose proof (used_slots_insert _ _ _ true F) as Hu. rewrite <-S1 in Hu. cbn iota in Hu.
  exists lost. split.
  - split; [|done|].
    + eapply signals_wf_take; [done| |by rewrite Hpage|done|done|].
      * destruct Hpw as [P1 P2 P3 P4]. split; cbn; [by rewrite S1, length_insert|done|rewrite S7; lia|lia].
      * intros x page' Hx Hx'. apply lookup_insert_Some in Hx' as [[<- <-]|[_ Hx']].
        -- unfold page_raw. cbn. by rewrite S3.
        -- eapply (si_placed _ _ Hwf); [by apply Hweak|done].
    + cbn. rewrite raws_put. rewrite (raws_take _ _ _ Hpage) in Hh.
      unfold page_raw in *. cbn. by rewrite S3.
  - intros _. exists p, slot, object. split; [done|]. split; cbn; try done.
    + apply lookup_insert_eq.
    + unfold page_raw. cbn. rewrite S3. by apply Hpl.
    + by rewrite S3.
Qed.

Lemma create_user_signal_spec state signals live lost node initial_value dri_root (w : W) :
  signals_inv W L state signals live lost (ledger_of w) ->
  wp (create_user_signal (Some state) node initial_value dri_root signals) (fun '(status, signal, signals', session) w' =>
    exists state', session = Some state' /\
      signal_created state' live (node_gpu_id node) initial_value (status, signal, signals') w') w.
Proof.
  intros Hinv. unfold create_user_signal.
  destruct (scan_pages _ _ _ _) as [found weak] eqn:Hscan. apply scan_pages_spec in Hscan as [Hweak Hfound].
  destruct found as [[[p slot] retained]|].
  { destruct Hfound as (Hp & page & Hpage & <- & Ha). apply wp_give. exists state. split; [done|].
    by eapply found_slot. }
  destruct Hinv as [Hwf Hl Hh]. set (signals1 := mkSignalState (st_pages signals) weak).
  assert (Hwf1 : signals_wf signals1 live).
  { destruct Hwf as [H1 H2 H3 H4]. split; try done. intros x page Hx. apply H4. by apply Hweak. }
  apply wp_bind. eapply wp_mono; [apply (allocate_holds L), Hh|].
  intros [[status allocation] session] w1 (state' & -> & Hh' & Hok). apply wp_bind.
  apply (wp_mono _ (signal_created state' live (node_gpu_id node) initial_value)).
  2: { intros [[status' signal] signals'] w2 H. apply wp_give. by exists state'. }
  destruct (status_ok status) eqn:Hs; cbn [negb].
  - destruct (Hok eq_refl) as [Hpl Hg]. destruct (_ || _); [by eapply wp_retain_storage|by eapply wp_make_page].
  - destruct (owns_memory allocation) eqn:Ho; cbn [negb]; [by eapply wp_retain_storage|].
    apply wp_give. exists lost. split; [|done]. cbn. rewrite app_nil_r. split; [done|done|].
    unfold owns_memory in Ho. apply negb_false_iff in Ho. by eapply holds_nothing_dropped.
Qed.
End creation.

(** ** Release *)

(** A slot is given back: the page has others, or it goes. *)
Lemma signals_wf_drop signals live p slot page pages :
  signals_wf signals live -> st_pages signals !! p = Some page -> pg_slots page !! slot = Some true ->
  (forall x, x <> p -> pages !! x = st_pages signals !! x) ->
  match pages !! p with
  | Some page' => page_wf page' /\ pg_slots page' = <[slot := false]> (pg_slots page) /\
      (placed_if_reached (page_raw page) -> placed_if_reached (page_raw page'))
  | None => used_slots (pg_slots page) = 1%nat
  end ->
  signals_wf (set_pages signals pages) (filter (.≠ (p, slot)) live).
Proof.
  intros [Hw Hlive Hnd Hpl] Hp Hslot Hothers Hpage. split; cbn.
  - intros x page' Hx. destruct (decide (x = p)) as [->|Hne]; [|rewrite Hothers in Hx by done; by eapply Hw].
    rewrite Hx in Hpage. apply Hpage.
  - intros x i. rewrite list_elem_of_filter, Hlive. destruct (decide (x = p)) as [->|Hne].
    2: { rewrite Hothers by done. naive_solver. }
    rewrite Hp. destruct (pages !! p) as [page'|].
    + destruct Hpage as (_ & Hs & _). split.
      * intros [Hne (? & [= <-] & Hi)]. exists page'. rewrite Hs, list_lookup_insert_ne; [done|]. congruence.
      * intros (? & [= <-] & Hi). rewrite Hs in Hi.
        destruct (decide (i = slot)) as [->|Hi'].
        { rewrite list_lookup_insert_eq in Hi by (by eapply lookup_lt_Some). done. }
        rewrite list_lookup_insert_ne in Hi by done. split; [congruence|eauto].
    + split; [|naive_solver]. intros [Hne (? & [= <-] & Hi)]. exfalso.
      pose proof (used_slots_insert _ _ _ false Hslot) as Hu. cbn iota in Hu.
      assert (<[slot := false]> (pg_slots page) !! i = Some true) as Hi'.
      { rewrite list_lookup_insert_ne; [done|]. congruence. }
      apply used_slots_pos in Hi'. lia.
  - by apply NoDup_filter.
  - intros x page' Hx Hl. destruct (decide (x = p)) as [->|Hne]; [|rewrite Hothers in Hl by done; by eapply Hpl].
    rewrite Hl in Hpage. apply Hpage. by eapply Hpl.
Qed.

Section release.
Context {W : Type} `{!Kernel W, !KernelLaws W} (L : ledger).

(** What a release of a slot leaves of its page. *)
Definition page_released (page : SignalPage) (slot : nat) (status : MemoryStatus) (page' : SignalPage) : Prop :=
  (placed_if_reached (page_raw page) -> placed_if_reached (page_raw page')) /\
  pg_use_count page' = pg_use_count page /\
  if status_ok status then
    pg_slots page' = <[slot := false]> (pg_slots page) /\
    pg_active_slots page' = Z.of_nat (used_slots (pg_slots page')) /\
    (used_slots (pg_slots page) = 1%nat -> owns_memory (pg_allocation page') = false)
  else used_slots (pg_slots page) = 1%nat /\ pg_slots page' = pg_slots page /\
    pg_active_slots page' = pg_active_slots page.

Lemma page_release_spec fd state page slot rest (w : W) :
  page_wf page -> pg_slots page !! slot = Some true ->
  session_holds L state (page_raw page :: rest) (ledger_of w) ->
  wp (page_release fd page slot) (fun '(status, page') w' =>
    session_holds L state (page_raw page' :: rest) (ledger_of w') /\ page_released page slot status page') w.
Proof.
  intros Hw Hslot Hh. pose proof (page_active_small _ Hw) as Hsmall. destruct Hw as [P1 P2 P3 P4].
  pose proof (used_slots_insert _ _ _ false Hslot) as Hu. cbn iota in Hu.
  unfold page_release. rewrite Hslot. apply wp_bind.
  apply (wp_mono _ (fun r w' => session_holds L state (ma_raw r.2 :: rest) (ledger_of w') /\
    (placed_if_reached (page_raw page) -> placed_if_reached (ma_raw r.2)) /\
    if status_ok r.1 then used_slots (pg_slots page) = 1%nat -> owns_memory r.2 = false
    else used_slots (pg_slots page) = 1%nat)).
  - destruct (Z.eqb_spec (pg_active_slots page) 1) as [H1|H1].
    + assert (used_slots (pg_slots page) = 1%nat) as Hone by lia.
      pose proof (release_holds L fd state (pg_allocation page) rest w Hh) as Hr.
      assert (Hyield : yields (memory_release fd (pg_allocation page) : kfd W _) (fun r =>
        placed_if_reached (page_raw page) -> placed_if_reached (ma_raw r.2))).
      { intros w0. destruct (memory_release fd (pg_allocation page) w0) as [[r w1]|[]|f] eqn:E; [|done].
        intros Hp. pose proof (memory_release_placed (W := W) fd (pg_allocation page) Hp w0) as Hy.
        by rewrite E in Hy. }
      eapply wp_mono; [exact (wp_yields _ _ _ _ Hr Hyield)|]. intros [status owner] w' [[Ha Hok] Hp]. cbn in *.
      split_and!; [done|done|]. by destruct (status_ok status); [auto|].
    + apply wp_give. split_and!; [done|done|]. cbn. rewrite status_ok_no_error. lia.
  - intros [status allocation] w' (Ha & Hp & Hst). cbn in *.
    destruct (status_ok status) eqn:Hs; cbn [negb]; apply wp_give; (split; [done|]).
    + unfold page_released. rewrite status_ok_no_error. cbn. split_and!; try done.
      rewrite P2, u64_sub_small; lia.
    + unfold page_released. rewrite Hs. by split_and!.
Qed.

(** The reference to a page goes, and the page with the last one. *)
Lemma drop_page_spec fd state signals p page rest (w : W) :
  st_pages signals !! p = Some page ->
  session_holds L state (rest ++ raws (st_pages signals)) (ledger_of w) ->
  wp (drop_page fd p signals) (fun signals' w' => st_signal_pages signals' = st_signal_pages signals /\
    match pg_use_count page with
    | S (S count) => signals' = set_pages signals (<[p := set_use_count page (S count)]> (st_pages signals)) /\
        session_holds L state (rest ++ raws (st_pages signals')) (ledger_of w')
    | _ => signals' = set_pages signals (delete p (st_pages signals)) /\
        exists gone, Forall (release_refused W) gone /\
          session_holds L state (gone ++ rest ++ raws (st_pages signals')) (ledger_of w') /\
          (owns_memory (pg_allocation page) = false -> gone = [])
    end) w.
Proof.
  intros Hp Hh. unfold drop_page. rewrite Hp. rewrite (raws_take _ _ _ Hp), <-Permutation_middle in Hh.
  assert (Hlast : wp (_ ← destroy_memory fd (pg_allocation page);
      give (set_pages signals (delete p (st_pages signals)))) (fun signals' w' =>
      st_signal_pages signals' = st_signal_pages signals /\
      signals' = set_pages signals (delete p (st_pages signals)) /\
        exists gone, Forall (release_refused W) gone /\
          session_holds L state (gone ++ rest ++ raws (st_pages signals')) (ledger_of w') /\
          (owns_memory (pg_allocation page) = false -> gone = [])) w).
  { apply wp_bind. eapply wp_mono; [by apply (destroy_memory_holds L)|]. intros _ w' (gone & H1 & H2 & H3).
    apply wp_give. split_and!; [done..|]. by exists gone. }
  destruct (pg_use_count page) as [|[|count]]; [done|done|].
  apply wp_give. split_and!; [done|done|]. cbn. by rewrite raws_put, <-Permutation_middle.
Qed.

Lemma filter_gone (live : list (page_ptr * nat)) x : x ∉ filter (.≠ x) live.
Proof. rewrite list_elem_of_filter. naive_solver. Qed.

(** A release: the signal is gone, or it still owns its slot; nothing is lost. *)
Lemma user_signal_release_spec fd state signals live lost p slot (w : W) :
  signals_inv W L state signals live lost (ledger_of w) -> (p, slot) ∈ live ->
  wp (user_signal_release fd (Some (p, slot)) signals) (fun '(status, signal, signals') w' =>
    if signal_status_ok status then
      signal = None /\ signals_inv W L state signals' (filter (.≠ (p, slot)) live) lost (ledger_of w')
    else signal = Some (p, slot) /\ signals_inv W L state signals' live lost (ledger_of w') /\
      exists page, st_pages signals' !! p = Some page /\ pg_use_count page = 1%nat /\
        used_slots (pg_slots page) = 1%nat) w.
Proof.
  intros [Hwf Hl Hh] Hlive. apply (si_live _ _ Hwf) in Hlive as (page & Hp & Hslot).
  pose proof (si_pages _ _ Hwf _ _ Hp) as Hpw. unfold user_signal_release. rewrite Hp.
  rewrite (raws_take _ _ _ Hp), <-Permutation_middle in Hh. apply wp_bind.
  eapply wp_mono; [by apply page_release_spec|]. intros [status page'] w1 (Hh1 & Hpl & Hcount & Hrel).
  set (signals1 := set_pages signals _).
  assert (Hh1' : session_holds L state (lost ++ raws (st_pages signals1)) (ledger_of w1)).
  { cbn. by rewrite raws_put, <-Permutation_middle. }
  destruct (status_ok status) eqn:Hs; cbn [negb].
  - destruct Hrel as (Hslots & Hact & Hgone). pose proof (used_slots_insert _ _ _ false Hslot) as Hu.
    rewrite <-Hslots in Hu. cbn iota in Hu. pose proof Hpw as [P1 P2 P3 P4]. apply wp_bind.
    eapply wp_mono; [eapply (drop_page_spec fd state signals1 p page' lost); [apply lookup_insert_eq|done]|].
    intros signals2 w2 (Hweak & H2). apply wp_give. cbn. split; [done|].
    rewrite Hcount, P3 in H2. destruct (used_slots (pg_slots page)) as [|[|n]] eqn:Hn; [lia| |].
    + destruct H2 as (-> & gone & _ & Hh2 & Hnone). rewrite (Hnone (Hgone eq_refl)) in Hh2. split; [|done|done].
      eapply (signals_wf_drop signals live p slot page); try done; cbn.
      * intros x Hne. by rewrite lookup_delete_ne, lookup_insert_ne by done.
      * by rewrite lookup_delete_eq.
    + destruct H2 as (-> & Hh2). split; [|done|done].
      eapply (signals_wf_drop signals live p slot page); try done; cbn.
      * intros x Hne. by rewrite !lookup_insert_ne by done.
      * rewrite lookup_insert_eq. split_and!; [|done|done].
        split; cbn; [by rewrite Hslots, length_insert|done|lia|lia].
  - destruct Hrel as (Hone & Hslots & Hact). apply wp_give. cbn. split; [done|].
    split; [split; [|done|done]|].
    + pose proof Hpw as [P1 P2 P3 P4]. destruct Hwf as [Hw Hlive Hnd Hplaced]. split; cbn; try done.
      * intros x page0 [[<- <-]|[_ Hx]]%lookup_insert_Some; [|by eapply Hw].
        split; rewrite ?Hslots, ?Hact, ?Hcount; done.
      * intros x i. rewrite Hlive. destruct (decide (x = p)) as [->|Hne]; [|by rewrite lookup_insert_ne].
        rewrite lookup_insert_eq, Hp. split; intros (? & [= <-] & Hi); eexists; (split; [done|]); congruence.
      * intros x page0 Hx [[<- <-]|[_ Hlx]]%lookup_insert_Some; [|by eapply Hplaced].
        by apply Hpl, (Hplaced p).
    + exists page'. cbn. rewrite lookup_insert_eq. destruct Hpw as [P1 P2 P3 P4].
      split_and!; [done|congruence|congruence].
Qed.

(** A destruction: the signal is gone, with its page when the release failed. *)
Lemma destroy_signal_spec fd state signals live lost p slot (w : W) :
  signals_inv W L state signals live lost (ledger_of w) -> (p, slot) ∈ live ->
  wp (destroy_signal fd (Some (p, slot)) signals) (fun signals' w' => exists lost',
    signals_inv W L state signals' (filter (.≠ (p, slot)) live) lost' (ledger_of w')) w.
Proof.
  intros Hinv Hlive. unfold destroy_signal. apply wp_bind.
  eapply wp_mono; [by apply (user_signal_release_spec fd state signals live lost)|].
  intros [[status signal] signals1] w1 H1. destruct (signal_status_ok status).
  - destruct H1 as [-> Hinv1]. apply wp_give. by exists lost.
  - destruct H1 as (-> & [Hwf1 Hl1 Hh1] & page & Hp & Hcount & Hone).
    pose proof Hlive as Hlive'. apply (si_live _ _ Hwf1) in Hlive' as (? & Hp' & Hslot).
    rewrite Hp in Hp'. injection Hp' as <-.
    eapply wp_mono; [by eapply drop_page_spec|]. intros signals2 w2 (_ & H2). rewrite Hcount in H2.
    destruct H2 as (-> & gone & Hg & Hh2 & _). exists (gone ++ lost).
    split; [|by apply Forall_app|by rewrite <-app_assoc].
    eapply (signals_wf_drop signals1 live p slot page); try done.
    + intros x Hne. by rewrite lookup_delete_ne.
    + by rewrite lookup_delete_eq.
Qed.
End release.

(** ** Signals over any run

    Clients create, release and destroy signals in any order, with the kernel
    failing anywhere. *)

(** ** Allocations do not overlap *)

Lemma held_apart L a b rest l :
  held L (a :: b :: rest) l -> ra_reservation_address a <> 0 -> ra_reservation_address b <> 0 ->
  ra_reservation_address a + ra_reservation_size a <= ra_reservation_address b \/
  ra_reservation_address b + ra_reservation_size b <= ra_reservation_address a.
Proof.
  intros (l0 & (l1 & _ & Hb)%held_cons_inv & Ha)%held_cons_inv Na Nb.
  pose proof (accounted_range _ _ _ _ Hb Nb) as Hrange.
  destruct (ac_fresh _ _ _ _ Ha Na) as [F1 _ _ F4 F5]. destruct (ac_fresh _ _ _ _ Hb Nb) as [_ G2 _ _ _].
  assert (ra_reservation_address b ∉ lg_torn l0) as Ht.
  { destruct Hb as [-> _ _ _ _ _]. by rewrite with_buffer_torn, with_range_torn. }
  specialize (F4 _ _ Hrange). specialize (F5 _ _ Hrange Ht). lia.
Qed.

(** The bytes of a signal on a page that the host reaches. *)
Definition signal_at (signals : signal_state) (signal : page_ptr * nat) (address : Z) : Prop :=
  exists page, st_pages signals !! signal.1 = Some page /\ signal.1 ∈ st_signal_pages signals /\
    ra_host_address (page_raw page) <> 0 /\ address = page_host_address page signal.2.

Lemma signals_apart W `{!Kernel W} L state signals live lost l s1 s2 a1 a2 :
  signals_inv W L state signals live lost l -> s1 ∈ live -> s2 ∈ live -> s1 <> s2 ->
  signal_at signals s1 a1 -> signal_at signals s2 a2 ->
  a1 + kAmdSignalSize <= a2 \/ a2 + kAmdSignalSize <= a1.
Proof.
  intros [Hwf _ Hh] L1 L2 Hne (p1 & H1 & W1 & R1 & ->) (p2 & H2 & W2 & R2 & ->).
  destruct s1 as [q1 i1], s2 as [q2 i2]. cbn in *.
  apply (si_live _ _ Hwf) in L1 as (? & E1 & S1). rewrite H1 in E1. injection E1 as <-.
  apply (si_live _ _ Hwf) in L2 as (? & E2 & S2). rewrite H2 in E2. injection E2 as <-.
  pose proof (pw_slots _ (si_pages _ _ Hwf _ _ H1)) as N1. pose proof (pw_slots _ (si_pages _ _ Hwf _ _ H2)) as N2.
  apply lookup_lt_Some in S1, S2. rewrite N1 in S1. rewrite N2 in S2. change kSlotCount with 64%nat in S1, S2.
  destruct (si_placed _ _ Hwf _ _ W1 H1 R1) as [P1 P2 P3 _ _].
  destruct (si_placed _ _ Hwf _ _ W2 H2 R2) as [Q1 Q2 Q3 _ _].
  unfold page_host_address, page_raw, kAmdSignalSize, kMemoryPageSize in *.
  destruct (decide (q1 = q2)) as [->|Hq].
  - rewrite H1 in H2. injection H2 as <-. assert (i1 <> i2) by congruence. lia.
  - destruct Hh as (Lp & Hh & _).
    rewrite (raws_take _ _ _ H1) in Hh.
    assert (delete q1 (st_pages signals) !! q2 = Some p2) as H2' by by rewrite lookup_delete_ne.
    rewrite (raws_take _ _ _ H2') in Hh. rewrite <-!Permutation_middle in Hh.
    apply held_apart in Hh; [|unfold page_raw; lia..]. unfold page_raw in *. lia.
Qed.

(** ** Clients *)

Inductive signal_call :=
| CreateSignal (node : Node) (initial_value : Z)
| ReleaseSignal (index : nat)
| DestroySignal (index : nat).

Record signal_clients := mkClients {
  cl_state : KfdState;
  cl_signals : signal_state;
  cl_live : list (page_ptr * nat)
}.

Definition no_signals : signal_state := mkSignalState ∅ [].

Section runs.
Context {W : Type} `{!Kernel W} (dri_root : string).

Definition run_call (call : signal_call) (clients : signal_clients) : kfd W signal_clients :=
  let '(mkClients state signals live) := clients in
  match call with
  | CreateSignal node initial_value =>
      '(_, signal, signals, session) ← create_user_signal (Some state) node initial_value dri_root signals;
      give (mkClients (default state session) signals (live ++ option_list signal))
  | ReleaseSignal index =>
      match live !! index with
      | None => give clients
      | Some signal =>
          '(_, kept, signals) ← user_signal_release (ks_fd state) (Some signal) signals;
          give (mkClients state signals (match kept with Some _ => live | None => filter (.≠ signal) live end))
      end
  | DestroySignal index =>
      match live !! index with
      | None => give clients
      | Some signal =>
          signals ← destroy_signal (ks_fd state) (Some signal) signals;
          give (mkClients state signals (filter (.≠ signal) live))
      end
  end.

Fixpoint run_calls (calls : list signal_call) (clients : signal_clients) : kfd W signal_clients :=
  match calls with
  | [] => give clients
  | call :: calls => clients ← run_call call clients; run_calls calls clients
  end.

Context `{!KernelLaws W} (L : ledger).

Definition clients_inv (clients : signal_clients) (l : ledger) : Prop :=
  exists lost, signals_inv W L (cl_state clients) (cl_signals clients) (cl_live clients) lost l.

Lemma run_call_inv call clients (w : W) :
  clients_inv clients (ledger_of w) ->
  wp (run_call call clients) (fun clients' w' => clients_inv clients' (ledger_of w')) w.
Proof.
  destruct clients as [state signals live]. intros [lost Hinv]. cbn in Hinv.
  destruct call as [node initial_value|index|index]; cbn [run_call].
  - apply wp_bind. eapply wp_mono; [by eapply (create_user_signal_spec L)|].
    intros [[[status signal] signals'] session] w' (state' & -> & lost' & Hinv' & _).
    apply wp_give. by exists lost'.
  - destruct (live !! index) as [[p slot]|] eqn:Hi; [|apply wp_give; by exists lost].
    apply wp_bind. eapply wp_mono; [eapply (user_signal_release_spec L); [done|by eapply list_elem_of_lookup_2]|].
    intros [[status kept] signals'] w' H. apply wp_give. exists lost. destruct (signal_status_ok status).
    + by destruct H as [-> ?].
    + by destruct H as (-> & ? & _).
  - destruct (live !! index) as [[p slot]|] eqn:Hi; [|apply wp_give; by exists lost].
    apply wp_bind. eapply wp_mono; [eapply (destroy_signal_spec L); [done|by eapply list_elem_of_lookup_2]|].
    intros signals' w' [lost' H]. apply wp_give. by exists lost'.
Qed.

Lemma run_calls_inv calls clients (w : W) :
  clients_inv clients (ledger_of w) ->
  wp (run_calls calls clients) (fun clients' w' => clients_inv clients' (ledger_of w')) w.
Proof.
  revert clients w. induction calls as [|call calls IH]; intros clients w Hinv; cbn [run_calls]; [by apply wp_give|].
  apply wp_bind. eapply wp_mono; [by apply run_call_inv|]. intros clients' w' Hinv'. by apply IH.
Qed.
End runs.

Lemma no_signals_inv W `{!Kernel W} L state l : vm_inv L state l -> clients_inv (W := W) L (mkClients state no_signals []) l.
Proof.
  intros Hv. exists []. split; [|done|].
  - split; cbn; try done; [|constructor]. intros p slot. rewrite elem_of_nil.
    split; [done|]. by intros (page & Hp & _).
  - exists L. split; [apply held_nil_inv|]; done.
Qed.


(** A signal that is created successfully is usable and new: its page is
    mapped for the GPU and reached by the host at the same address, its handle
    is the 64-byte aligned address of its object, the object has the initial
    value, and no other client has it. *)
Theorem created_signal_ready {W} `{!Kernel W, !KernelLaws W} L state signals live lost node initial_value dri_root (w : W) :
  signals_inv W L state signals live lost (ledger_of w) ->
  wp (create_user_signal (Some state) node initial_value dri_root signals) (fun '(status, signal, signals', session) w' =>
    signal_status_ok status = true -> exists p slot page, signal = Some (p, slot) /\ (p, slot) ∉ live /\
      st_pages signals' !! p = Some page /\ pg_gpu_id page = node_gpu_id node /\
      let handle := user_signal_gpu_handle signals' signal in
      handle = page_host_address page slot /\ handle <> 0 /\ handle mod kAmdSignalSize = 0 /\
      sg_value <$> (pg_signals page !! slot) = Some initial_value) w.
Proof.
  intros Hinv. eapply wp_mono; [by eapply (create_user_signal_spec L)|].
  intros [[[status signal] signals'] session] w' (state' & _ & lost' & Hinv' & Hok) Hs.
  destruct (Hok Hs) as (p & slot & page & -> & [M1 M2 M3 M4 M5 M6]). exists p, slot, page.
  pose proof (si_once _ _ (si_wf _ _ _ _ _ _ _ Hinv')) as Hnd. cbn in Hnd.
  apply NoDup_app in Hnd as (_ & Hnew & _).
  assert ((p, slot) ∈ live ++ option_list (Some (p, slot))) as Hin by (apply elem_of_app; right; by left).
  apply (si_live _ _ (si_wf _ _ _ _ _ _ _ Hinv')) in Hin as (? & Hp & Hslot). rewrite M1 in Hp. injection Hp as <-.
  pose proof (si_pages _ _ (si_wf _ _ _ _ _ _ _ Hinv') _ _ M1) as Hpw.
  apply lookup_lt_Some in Hslot. rewrite (pw_slots _ Hpw) in Hslot. change kSlotCount with 64%nat in Hslot.
  assert (gpu_address (pg_allocation page) = ra_gpu_address (page_raw page)) as Hg.
  { revert M5. unfold gpu_address, page_raw. by destruct (gpu_mapped _). }
  destruct M4 as [P1 P2 P3 P4 P5]. cbn [user_signal_gpu_handle]. rewrite M1. unfold page_gpu_address. rewrite Hg.
  unfold page_host_address. fold (page_raw page). rewrite P1.
  unfold kAmdSignalSize, kMemoryPageSize in *.
  rewrite u64_add_small by lia. split_and!; try done; [|lia|].
  - intros Hl. eapply Hnew; [done|by left].
  - rewrite Z.mod_add by lia. rewrite (Z.div_mod (ra_gpu_address (page_raw page)) 4096), P4 by lia.
    replace (4096 * (ra_gpu_address (page_raw page) / 4096) + 0) with
      (64 * (ra_gpu_address (page_raw page) / 4096) * 64) by lia. apply Z.mod_mul. lia.
Qed.
