(* ===== verification/KfdTopology.v ===== *)
(** * The topology the kernel exports

    [transport/kfd/topology.cpp]: the property files of sysfs are parsed into
    nodes, and a snapshot counts only when the generation number is the same
    before and after it.  The file system is a class of two operations on an
    unknown world: whatever it answers is an input of the model. *)

From Stdlib Require Import Ascii.
From stdpp Require Import gmap strings pretty.
From S2P Require Import Prelude Order Topology KfdVm.

Definition kMemoryHotPluggable : Z := Z.shiftl 1 0.
Definition kMemoryNonVolatile : Z := Z.shiftl 1 1.
Definition kMaximumSnapshotAttempts : nat := 3.

Definition UINT16_MAX : Z := 65535.
Definition INT32_MAX : Z := 2147483647.

(** [static_cast<int32_t>] *)
Definition to_i32 (x : Z) : Z := if to_u32 x <=? INT32_MAX then to_u32 x else to_u32 x - U32_MOD.

Module DiscoveryError.
Inductive t :=
| None
| InvalidSession
| ReadGeneration
| EnumerateNodes
| ReadNode
| InvalidNode
| ReadMemoryBank
| InvalidMemoryBank
| TopologyChanged.

#[global] Instance eq_dec : EqDecision t.
Proof. solve_decision. Defined.
End DiscoveryError.

Definition discovery_error_name (error : DiscoveryError.t) : string :=
  match error with
  | DiscoveryError.None => "none"
  | DiscoveryError.InvalidSession => "invalid_session"
  | DiscoveryError.ReadGeneration => "read_generation"
  | DiscoveryError.EnumerateNodes => "enumerate_nodes"
  | DiscoveryError.ReadNode => "read_node"
  | DiscoveryError.InvalidNode => "invalid_node"
  | DiscoveryError.ReadMemoryBank => "read_memory_bank"
  | DiscoveryError.InvalidMemoryBank => "invalid_memory_bank"
  | DiscoveryError.TopologyChanged => "topology_changed"
  end.

Record DiscoveryFailure := mkFailure {
  fl_error : DiscoveryError.t;
  fl_system_error : Z;
  fl_message : string
}.

Record DiscoveryResult := mkDiscovery {
  dr_error : DiscoveryError.t;
  dr_system_error : Z;
  dr_topology : Topology;
  dr_message : string
}.

(** [runtime::Topology{}] *)
Definition no_topology : Topology := mkTopology (mkKfdVersion 0 0) [].

Definition failure_result (failure : DiscoveryFailure) : DiscoveryResult :=
  mkDiscovery (fl_error failure) (fl_system_error failure) no_topology (fl_message failure).

(** ** Text *)

Abbreviation text := (list ascii).

Definition is_digit_char (c : ascii) : bool := between 48 57 c.

(** The value of decimal digits. *)
Definition decimal_value (l : text) : Z :=
  fold_left (fun value c => value * 10 + (Z.of_nat (nat_of_ascii c) - 48)) l 0.

(** [std::from_chars] has to take the whole text and stay in 64 bits. *)
Definition parse_unsigned (l : text) : option Z :=
  if bool_decide (l = []) then None
  else if forallb is_digit_char l then
    if decimal_value l >? UINT64_MAX then None else Some (decimal_value l)
  else None.

(** [" \t\r\n"] *)
Definition is_blank (c : ascii) : bool :=
  let n := nat_of_ascii c in
  ((n =? 32) || (n =? 9) || (n =? 13) || (n =? 10))%nat.

(** What a formatted extraction skips: [isspace] of the C locale. *)
Definition is_space_char (c : ascii) : bool := is_blank c || between 11 12 c.

Fixpoint drop_while (test : ascii -> bool) (l : text) : text :=
  match l with
  | [] => []
  | c :: l' => if test c then drop_while test l' else l
  end.

Definition trim (l : text) : text := rev (drop_while is_blank (rev (drop_while is_blank l))).

(** [std::getline] until it fails. *)
Fixpoint lines_from (line l : text) : list text :=
  match l with
  | [] => if bool_decide (line = []) then [] else [line]
  | c :: l => if (nat_of_ascii c =? 10)%nat then line :: lines_from [] l else lines_from (line ++ [c]) l
  end.

Definition lines (l : text) : list text := lines_from [] l.

(** [fields >> word] until it fails. *)
Fixpoint words_from (word l : text) : list text :=
  match l with
  | [] => if bool_decide (word = []) then [] else [word]
  | c :: l =>
      if is_space_char c then
        if bool_decide (word = []) then words_from [] l else word :: words_from [] l
      else words_from (word ++ [c]) l
  end.

Definition words (l : text) : list text := words_from [] l.

Abbreviation Properties := (gmap string Z).

(** One line of a property file that is not blank. *)
Definition parse_property (properties : Properties) (line : text) : option Properties :=
  match words line with
  | [name; value_text] =>
      match parse_unsigned value_text with
      | Some value =>
          let key := String.string_of_list_ascii name in
          match properties !! key with
          | Some _ => None
          | None => Some (<[key := value]> properties)
          end
      | None => None
      end
  | _ => None
  end.

(** The loop over the lines: the properties, or the number of the bad line. *)
Fixpoint parse_properties (properties : Properties) (line_number : Z) (l : list text) : Z + Properties :=
  match l with
  | [] => inr properties
  | line :: l =>
      let line_number := line_number + 1 in
      if bool_decide (trim line = []) then parse_properties properties line_number l
      else match parse_property properties line with
           | Some properties => parse_properties properties line_number l
           | None => inl line_number
           end
  end.

(** ** Properties *)

Definition require_property (properties : Properties) (name : string) (maximum : Z)
    (error : DiscoveryError.t) (path : string) : DiscoveryFailure + Z :=
  match properties !! name with
  | None => inl (mkFailure error 0 ("missing property " +:+ name +:+ " in " +:+ path))
  | Some value =>
      if value >? maximum then
        inl (mkFailure error 0 ("property " +:+ name +:+ " is out of range in " +:+ path))
      else inr value
  end.

(** A list of required fields, in order. *)
Fixpoint require_fields (properties : Properties) (fields : list (string * Z))
    (error : DiscoveryError.t) (path : string) : DiscoveryFailure + list Z :=
  match fields with
  | [] => inr []
  | (name, maximum) :: fields =>
      match require_property properties name maximum error path with
      | inl failure => inl failure
      | inr value =>
          match require_fields properties fields error path with
          | inl failure => inl failure
          | inr values => inr (value :: values)
          end
      end
  end.

Definition optional_property (properties : Properties) (name : string) : Z :=
  default 0 (properties !! name).

Definition convert_heap_type (heap_type : Z) : MemoryHeapType.t :=
  match heap_type with
  | 0 => MemoryHeapType.System
  | 1 => MemoryHeapType.FrameBufferPublic
  | 2 => MemoryHeapType.FrameBufferPrivate
  | 3 => MemoryHeapType.Gds
  | 4 => MemoryHeapType.Lds
  | 5 => MemoryHeapType.Scratch
  | _ => MemoryHeapType.Unknown
  end.

Definition bank_fields : list (string * Z) :=
  [("heap_type", UINT32_MAX); ("size_in_bytes", UINT64_MAX); ("flags", UINT32_MAX);
   ("width", UINT32_MAX); ("mem_clk_max", UINT32_MAX)].

Definition make_bank (heap_type size flags width clock : Z) : MemoryBank :=
  mkMemoryBank (convert_heap_type heap_type) size 0 (to_u32 width) (to_u32 clock)
    (negb (Z.land flags kMemoryHotPluggable =? 0)) (negb (Z.land flags kMemoryNonVolatile =? 0)).

(** ["GFX"] and six hexadecimal digits *)
Definition architecture_name (architecture : GpuArchitecture) : string :=
  let packed := Z.lor (Z.lor (to_u32 (Z.shiftl (arch_major architecture) 16))
    (to_u32 (Z.shiftl (arch_minor architecture) 8))) (arch_stepping architecture) in
  let digits := stream_digits 16 packed in
  String.string_of_list_ascii (chars "GFX" ++ replicate (6 - length digits) "0"%char ++ digits).

Definition node_fields : list (string * Z) :=
  [("cpu_cores_count", UINT32_MAX); ("simd_count", UINT32_MAX); ("simd_per_cu", UINT32_MAX);
   ("wave_front_size", UINT32_MAX); ("max_waves_per_simd", UINT32_MAX); ("array_count", UINT32_MAX);
   ("simd_arrays_per_engine", UINT32_MAX); ("max_slots_scratch_cu", UINT32_MAX);
   ("gfx_target_version", UINT32_MAX); ("vendor_id", UINT16_MAX); ("device_id", UINT16_MAX);
   ("domain", UINT32_MAX); ("location_id", UINT32_MAX); ("drm_render_minor", INT32_MAX);
   ("mem_banks_count", UINT32_MAX)].

Definition make_architecture (gfx_version : Z) : GpuArchitecture :=
  mkGpuArchitecture (gfx_version / 10000 mod 100) (gfx_version / 100 mod 100) (gfx_version mod 100).

(** The node of the required fields, without its name and its banks, and the
    number of banks. *)
Definition make_node (node_id gpu_id : Z) (properties : Properties) (fields : list Z) (path : string)
  : DiscoveryFailure + Node * Z :=
  let field i := nth i fields 0 in
  let invalid message := inl (mkFailure DiscoveryError.InvalidNode 0 (message +:+ path)) in
  let simd_count := to_u32 (field 1%nat) in
  let arrays_per_engine := to_u32 (field 6%nat) in
  let array_count := to_u32 (field 5%nat) in
  if negb (simd_count =? 0) &&
     ((arrays_per_engine =? 0) || negb (array_count mod arrays_per_engine =? 0)) then
    invalid "invalid shader-engine topology in "
  else
  let gfx_version := to_u32 (field 8%nat) in
  let architecture := make_architecture gfx_version in
  if negb (simd_count =? 0) && (arch_major architecture =? 0) then
    invalid "GPU node has no gfx target version in "
  else
  let lds_size_kb := optional_property properties "lds_size_in_kb" in
  let cwsr_size := optional_property properties "cwsr_size" in
  let control_stack_size := optional_property properties "ctl_stack_size" in
  if (lds_size_kb >? UINT32_MAX) || (cwsr_size >? UINT32_MAX) || (control_stack_size >? UINT32_MAX) then
    invalid "CWSR topology property is out of range in "
  else
  let xcc_count := optional_property properties "num_xcc" in
  if xcc_count >? UINT32_MAX then invalid "property num_xcc is out of range in "
  else
  let cpu_core_count := to_u32 (field 0%nat) in
  inr (mkNode node_id (to_u32 gpu_id) cpu_core_count simd_count (to_u32 (field 2%nat))
         (to_u32 (field 3%nat)) (to_u32 (field 4%nat)) (to_u32 lds_size_kb)
         (if arrays_per_engine =? 0 then 0 else array_count / arrays_per_engine)
         (to_u32 (field 7%nat)) (to_u32 xcc_count) (to_u32 cwsr_size) (to_u32 control_stack_size)
         (to_u16 (field 9%nat)) (to_u16 (field 10%nat)) (to_u32 (field 11%nat))
         (to_u32 (field 12%nat)) (to_i32 (field 13%nat)) (optional_property properties "local_mem_size")
         (negb (cpu_core_count =? 0) && negb (simd_count =? 0)) "" architecture [],
       to_u32 (field 14%nat)).

Definition set_contents (node : Node) (name : string) (banks : list MemoryBank) : Node :=
  mkNode (node_node_id node) (node_gpu_id node) (node_cpu_core_count node) (node_simd_count node)
    (node_simd_per_compute_unit node) (node_wavefront_size node) (node_maximum_waves_per_simd node)
    (node_lds_size_kb node) (node_shader_engine_count node)
    (node_maximum_scratch_waves_per_compute_unit node) (node_xcc_count node) (node_cwsr_size node)
    (node_control_stack_size node) (node_vendor_id node) (node_device_id node) (node_domain node)
    (node_location_id node) (node_drm_render_minor node) (node_local_memory_size node)
    (node_integrated node) name (node_architecture node) banks.

Definition parse_node_id (name : text) : option Z :=
  match parse_unsigned name with
  | Some value => if value >? UINT32_MAX then None else Some (to_u32 value)
  | None => None
  end.

(** ** The file system *)

(** [std::ifstream] and [rdbuf]: the text, or [errno] of the failure. *)
Inductive file_contents :=
| OpenFailed (errno : Z)
| ReadFailed (errno : Z)
| Contents (contents : text).

(** An entry of a directory, whether it is a directory itself ([inl] is an
    error), and the error of the step to the next entry, 0 for none. *)
Record dir_entry := mkEntry {
  de_name : text;
  de_is_directory : Z + bool;
  de_increment_error : Z
}.

Class SysFs (W : Type) := {
  fs_read : string -> W -> file_contents * W;
  (** [inl errno]: the iterator cannot be made. *)
  fs_list : string -> W -> (Z + list dir_entry) * W;
  (** [std::error_code::message] *)
  fs_message : Z -> string
}.

(** A computation that stops at the first failure. *)
Definition sysfs (W A : Type) : Type := W -> (DiscoveryFailure + A) * W.

#[global] Instance sysfs_ret {W} : MRet (sysfs W) := fun A a w => (inr a, w).
#[global] Instance sysfs_bind {W} : MBind (sysfs W) := fun A B k m w =>
  match m w with
  | (inl failure, w) => (inl failure, w)
  | (inr a, w) => k a w
  end.

Definition fail_with {W A} (failure : DiscoveryFailure) : sysfs W A := fun w => (inl failure, w).
Definition of_sum {W A} (r : DiscoveryFailure + A) : sysfs W A := fun w => (r, w).

Section discovery.
Context {W : Type} `{!SysFs W}.

Definition read_text (path : string) (read_error : DiscoveryError.t) : sysfs W text := fun w =>
  let '(contents, w) := fs_read path w in
  (match contents with
   | OpenFailed errno => inl (mkFailure read_error errno ("failed to open " +:+ path))
   | ReadFailed errno => inl (mkFailure read_error errno ("failed to read " +:+ path))
   | Contents contents => inr contents
   end, w).

Definition read_scalar (path : string) (read_error parse_error : DiscoveryError.t) : sysfs W Z :=
  contents ← read_text path read_error;
  match parse_unsigned (trim contents) with
  | Some value => mret value
  | None => fail_with (mkFailure parse_error 0 ("invalid unsigned integer in " +:+ path))
  end.

Definition read_properties (path : string) (read_error parse_error : DiscoveryError.t)
  : sysfs W Properties :=
  contents ← read_text path read_error;
  match parse_properties ∅ 0 (lines contents) with
  | inr properties => mret properties
  | inl line_number =>
      fail_with (mkFailure parse_error 0
        ("invalid property at " +:+ path +:+ ":" +:+ pretty line_number))
  end.

Definition read_memory_bank (bank_path : string) : sysfs W MemoryBank :=
  let properties_path := path_append bank_path "properties" in
  properties ← read_properties properties_path DiscoveryError.ReadMemoryBank
    DiscoveryError.InvalidMemoryBank;
  values ← of_sum (require_fields properties bank_fields DiscoveryError.InvalidMemoryBank
    properties_path);
  let value i := nth i values 0 in
  mret (make_bank (value 0%nat) (value 1%nat) (value 2%nat) (value 3%nat) (value 4%nat)).

(** The loop over the banks, from [bank_id]. *)
Fixpoint read_banks (banks_path : string) (count : nat) (bank_id : Z) : sysfs W (list MemoryBank) :=
  match count with
  | O => mret []
  | S count =>
      bank ← read_memory_bank (path_append banks_path (pretty bank_id));
      banks ← read_banks banks_path count (bank_id + 1);
      mret (bank :: banks)
  end.

Definition read_node (node_id : Z) (node_path : string) : sysfs W Node :=
  let properties_path := path_append node_path "properties" in
  properties ← read_properties properties_path DiscoveryError.ReadNode DiscoveryError.InvalidNode;
  gpu_id ← read_scalar (path_append node_path "gpu_id") DiscoveryError.ReadNode
    DiscoveryError.InvalidNode;
  if gpu_id >? UINT32_MAX then
    fail_with (mkFailure DiscoveryError.InvalidNode 0
      ("GPU ID is out of range in " +:+ node_path))
  else
  fields ← of_sum (require_fields properties node_fields DiscoveryError.InvalidNode properties_path);
  '(node, memory_bank_count) ← of_sum (make_node node_id gpu_id properties fields properties_path);
  sysfs_name ← read_text (path_append node_path "name") DiscoveryError.ReadNode;
  let name := if is_gpu node then architecture_name (node_architecture node)
              else String.string_of_list_ascii (trim sysfs_name) in
  banks ← read_banks (path_append node_path "mem_banks") (Z.to_nat memory_bank_count) 0;
  mret (set_contents node name banks).

(** The directory loop: the ids and paths of the nodes. *)
Fixpoint enumerate_nodes (nodes_path : string) (entries : list dir_entry)
  : DiscoveryFailure + list (Z * string) :=
  match entries with
  | [] => inr []
  | entry :: entries =>
      let path := path_append nodes_path (String.string_of_list_ascii (de_name entry)) in
      match de_is_directory entry with
      | inl errno =>
          inl (mkFailure DiscoveryError.EnumerateNodes errno
            ("failed to inspect " +:+ path +:+ ": " +:+ fs_message errno))
      | inr is_directory =>
          if negb (de_increment_error entry =? 0) then
            inl (mkFailure DiscoveryError.EnumerateNodes (de_increment_error entry)
              ("failed while enumerating " +:+ nodes_path +:+ ": " +:+
               fs_message (de_increment_error entry)))
          else
          match enumerate_nodes nodes_path entries with
          | inl failure => inl failure
          | inr rest =>
              inr (match (if is_directory then parse_node_id (de_name entry) else None) with
                   | Some node_id => (node_id, path) :: rest
                   | None => rest
                   end)
          end
      end
  end.

Fixpoint read_nodes (node_paths : list (Z * string)) : sysfs W (list Node) :=
  match node_paths with
  | [] => mret []
  | (node_id, node_path) :: node_paths =>
      node ← read_node node_id node_path;
      nodes ← read_nodes node_paths;
      mret (node :: nodes)
  end.

Definition node_path_less (left right : Z * string) : bool := left.1 <? right.1.

(** The nodes of one snapshot. *)
Definition read_snapshot (topology_path : string) : sysfs W (list Node) :=
  let nodes_path := path_append topology_path "nodes" in
  entries ← (fun w =>
    let '(listed, w) := fs_list nodes_path w in
    (match listed with
     | inl errno => inl (mkFailure DiscoveryError.EnumerateNodes errno
         ("failed to enumerate " +:+ nodes_path +:+ ": " +:+ fs_message errno))
     | inr entries => inr entries
     end, w));
  node_paths ← of_sum (enumerate_nodes nodes_path entries);
  let node_paths := std_sort node_path_less node_paths in
  if bool_decide (node_paths = []) then
    fail_with (mkFailure DiscoveryError.EnumerateNodes 0
      ("no KFD topology nodes found in " +:+ nodes_path))
  else read_nodes node_paths.

Definition read_generation (topology_path : string) : sysfs W Z :=
  read_scalar (path_append topology_path "generation_id") DiscoveryError.ReadGeneration
    DiscoveryError.ReadGeneration.

Fixpoint snapshot_attempts (attempts : nat) (topology_path : string) (version : KfdVersion) (w : W)
  : DiscoveryResult * W :=
  match attempts with
  | O =>
      (mkDiscovery DiscoveryError.TopologyChanged 0 no_topology
         "KFD topology changed during all snapshot attempts", w)
  | S attempts =>
      let '(generation_before, w) := read_generation topology_path w in
      match generation_before with
      | inl failure => (failure_result failure, w)
      | inr generation_before =>
          let '(snapshot, w) := read_snapshot topology_path w in
          let '(generation_after, w) := read_generation topology_path w in
          match generation_after with
          | inl failure => (failure_result failure, w)
          | inr generation_after =>
              if negb (generation_before =? generation_after) then
                snapshot_attempts attempts topology_path version w
              else
                (match snapshot with
                 | inl failure => failure_result failure
                 | inr nodes => mkDiscovery DiscoveryError.None 0 (mkTopology version nodes) ""
                 end, w)
          end
      end
  end.

Definition read_topology_sysfs (topology_path : string) (version : KfdVersion) (w : W)
  : DiscoveryResult * W :=
  snapshot_attempts kMaximumSnapshotAttempts topology_path version w.

(** The version of the session, [None] when it is not open. *)
Definition discover_topology (session : option KfdVersion) (topology_path : string) (w : W)
  : DiscoveryResult * W :=
  match session with
  | None =>
      (mkDiscovery DiscoveryError.InvalidSession 0 no_topology
         "direct KFD topology discovery requires an open session", w)
  | Some version => read_topology_sysfs topology_path version w
  end.
End discovery.
