(* ===== verification/KfdTopologyFacts.v ===== *)
(** * What a discovered topology is

    Whatever the file system answers, a topology that is returned is typed,
    ordered and from one generation; and the files of a node read back as the
    node. *)

From Stdlib Require Import Ascii.
From stdpp Require Import gmap strings pretty.
From S2P Require Import Prelude Order Topology Scratch KfdVm KfdTopology.

(** ** Numbers *)

Lemma digit_char_value c :
  is_digit_char c = true -> 0 <= Z.of_nat (nat_of_ascii c) - 48 <= 9.
Proof. unfold is_digit_char, between. intros H. apply andb_true_iff in H as [H1 H2]. lia. Qed.

Lemma decimal_value_app l1 l2 :
  decimal_value (l1 ++ l2) =
  fold_left (fun value c => value * 10 + (Z.of_nat (nat_of_ascii c) - 48)) l2 (decimal_value l1).
Proof. unfold decimal_value. by rewrite fold_left_app. Qed.

Lemma decimal_value_nonneg l : forallb is_digit_char l = true -> 0 <= decimal_value l.
Proof.
  induction l as [|c l IH] using rev_ind; [done|]. rewrite forallb_app, decimal_value_app. cbn.
  intros [H1 H2]%andb_true_iff. apply andb_true_iff in H2 as [H2 _].
  pose proof (digit_char_value c H2). specialize (IH H1). lia.
Qed.

Lemma parse_unsigned_u64 l v : parse_unsigned l = Some v -> is_u64 v.
Proof.
  unfold parse_unsigned. case_bool_decide; [done|]. destruct (forallb is_digit_char l) eqn:Hd; [|done].
  destruct (_ >? _) eqn:G; [done|]. intros [= <-]. pose proof (decimal_value_nonneg l Hd). lia.
Qed.

Lemma parse_properties_u64 properties n l m :
  map_Forall (fun _ v => is_u64 v) properties -> parse_properties properties n l = inr m ->
  map_Forall (fun _ v => is_u64 v) m.
Proof.
  revert properties n. induction l as [|line l IH]; intros properties n Hp; cbn [parse_properties];
    [by intros [= <-]|]. cbv zeta. case_bool_decide; [by apply IH|].
  destruct (parse_property properties line) as [p|] eqn:Hline; [|done]. apply IH.
  unfold parse_property in Hline. destruct (words line) as [|name [|value [|? ?]]]; try done.
  destruct (parse_unsigned value) as [v|] eqn:Hv; [|done].
  destruct (properties !! _); [done|]. injection Hline as <-.
  apply map_Forall_insert_2; [by eapply parse_unsigned_u64|done].
Qed.

(** ** Computations on the file system *)

(** Every failure has an error, and every result has [Q]. *)
Definition post {W A} (m : sysfs W A) (Q : A -> Prop) : Prop :=
  forall w, match (m w).1 with
            | inl failure => fl_error failure <> DiscoveryError.None
            | inr a => Q a
            end.

Lemma post_ret {W A} (a : A) (Q : A -> Prop) : Q a -> post (mret a : sysfs W A) Q.
Proof. by intros H w. Qed.

Lemma post_fail {W A} failure (Q : A -> Prop) :
  fl_error failure <> DiscoveryError.None -> post (fail_with failure : sysfs W A) Q.
Proof. by intros H w. Qed.

Lemma post_sum {W A} (r : DiscoveryFailure + A) (Q : A -> Prop) :
  match r with inl failure => fl_error failure <> DiscoveryError.None | inr a => Q a end ->
  post (of_sum r : sysfs W A) Q.
Proof. by intros H w. Qed.

Lemma post_bind {W A B} (m : sysfs W A) (k : A -> sysfs W B) (P : A -> Prop) Q :
  post m P -> (forall a, P a -> post (k a) Q) -> post (m ≫= k) Q.
Proof.
  intros Hm Hk w. specialize (Hm w). unfold mbind, sysfs_bind.
  destruct (m w) as [[failure|a] w']; [done|]. by apply Hk.
Qed.

Section facts.
Context {W : Type} `{!SysFs W}.

Lemma read_text_post path error :
  error <> DiscoveryError.None -> post (W := W) (read_text path error) (fun _ => True).
Proof. intros He w. unfold read_text. by destruct (fs_read path w) as [[] w']. Qed.

Lemma read_scalar_post path e1 e2 :
  e1 <> DiscoveryError.None -> e2 <> DiscoveryError.None ->
  post (W := W) (read_scalar path e1 e2) (fun v => is_u64 v).
Proof.
  intros H1 H2. eapply post_bind; [by apply read_text_post|]. intros contents _.
  destruct (parse_unsigned (trim contents)) as [v|] eqn:Hv; [|by apply post_fail].
  apply post_ret. by eapply parse_unsigned_u64.
Qed.

Lemma read_properties_post path e1 e2 :
  e1 <> DiscoveryError.None -> e2 <> DiscoveryError.None ->
  post (W := W) (read_properties path e1 e2) (map_Forall (fun _ v => is_u64 v)).
Proof.
  intros H1 H2. eapply post_bind; [by apply read_text_post|]. intros contents _.
  destruct (parse_properties ∅ 0 (lines contents)) as [n|m] eqn:Hp; [by apply post_fail|].
  apply post_ret. eapply parse_properties_u64; [|done]. apply map_Forall_empty.
Qed.

(** Required fields are in range. *)
Lemma require_fields_post properties fields error path :
  error <> DiscoveryError.None -> map_Forall (fun _ v => is_u64 v) properties ->
  match require_fields properties fields error path with
  | inl failure => fl_error failure <> DiscoveryError.None
  | inr values => Forall2 (fun field v => 0 <= v <= field.2) fields values
  end.
Proof.
  intros He Hp. induction fields as [|[name maximum] fields IH]; cbn [require_fields]; [constructor|].
  unfold require_property. destruct (properties !! name) as [v|] eqn:Hv; [|done].
  destruct (v >? maximum) eqn:G; [done|]. destruct (require_fields _ _ _ _) as [f|values]; [done|].
  constructor; [|done]. cbn. pose proof (Hp _ _ Hv) as Hu. cbn in Hu. lia.
Qed.

Lemma optional_property_u64 properties name :
  map_Forall (fun _ v => is_u64 v) properties -> is_u64 (optional_property properties name).
Proof.
  intros Hp. unfold optional_property. destruct (properties !! name) as [v|] eqn:Hv; [|done].
  apply (Hp _ _ Hv).
Qed.

(** ** Nodes *)

#[local] Arguments architecture_name : simpl never.

Record bank_wf (bank : MemoryBank) : Prop := {
  bw_size : is_u64 (bank_size bank);
  bw_width : is_u32 (bank_width bank);
  bw_clock : is_u32 (bank_maximum_clock_mhz bank)
}.

(** The fields have their widths, and a GPU has a target and whole shader
    engines. *)
Record node_wf (node : Node) : Prop := {
  nw_typed : node_typed node;
  nw_ids : is_u32 (node_node_id node) /\ is_u32 (node_gpu_id node);
  nw_counts : is_u32 (node_cpu_core_count node) /\ is_u32 (node_wavefront_size node) /\
    is_u32 (node_maximum_waves_per_simd node) /\ is_u32 (node_xcc_count node);
  nw_cwsr : is_u32 (node_lds_size_kb node) /\ is_u32 (node_cwsr_size node) /\
    is_u32 (node_control_stack_size node);
  nw_pci : is_u16 (node_vendor_id node) /\ is_u16 (node_device_id node) /\
    is_u32 (node_domain node) /\ is_u32 (node_location_id node);
  nw_minor : 0 <= node_drm_render_minor node <= INT32_MAX;
  nw_memory : is_u64 (node_local_memory_size node);
  nw_integrated : node_integrated node = negb (node_cpu_core_count node =? 0) && is_gpu node;
  nw_architecture : 0 <= arch_major (node_architecture node) < 100 /\
    0 <= arch_minor (node_architecture node) < 100 /\ 0 <= arch_stepping (node_architecture node) < 100;
  nw_gpu : is_gpu node = true -> arch_major (node_architecture node) <> 0 /\
    node_name node = architecture_name (node_architecture node);
  nw_banks : Forall bank_wf (node_memory_banks node)
}.

Lemma read_memory_bank_post path : post (W := W) (read_memory_bank path) bank_wf.
Proof.
  unfold read_memory_bank. cbv zeta. eapply post_bind; [by apply read_properties_post|].
  intros properties Hp. eapply post_bind; [by apply post_sum, require_fields_post|].
  intros values Hv. do 5 (apply Forall2_cons_inv_l in Hv as (? & ? & ? & Hv & ->)).
  apply Forall2_nil_inv_l in Hv as ->. apply post_ret. cbn in *.
  split; cbn; rewrite ?to_u32_small; lia.
Qed.

Lemma read_banks_post path count id :
  post (W := W) (read_banks path count id) (Forall bank_wf).
Proof.
  revert id. induction count as [|count IH]; intros id; cbn [read_banks]; [by apply post_ret|].
  eapply post_bind; [apply read_memory_bank_post|]. intros bank Hb.
  eapply post_bind; [apply IH|]. intros banks Hbs. apply post_ret. by constructor.
Qed.

(** The node without its name and banks. *)
Definition node_shape (node_id : Z) (node : Node) : Prop :=
  node_node_id node = node_id /\
  forall name banks, (is_gpu node = true -> name = architecture_name (node_architecture node)) ->
    Forall bank_wf banks -> node_wf (set_contents node name banks).

Lemma make_node_post node_id gpu_id properties fields path :
  is_u32 node_id -> is_u32 gpu_id -> map_Forall (fun _ v => is_u64 v) properties ->
  Forall2 (fun field v => 0 <= v <= field.2) node_fields fields ->
  match make_node node_id gpu_id properties fields path with
  | inl failure => fl_error failure <> DiscoveryError.None
  | inr (node, count) => node_shape node_id node
  end.
Proof.
  intros Hid Hg Hp Hf. unfold node_fields in Hf.
  do 15 (apply Forall2_cons_inv_l in Hf as (? & ? & ? & Hf & ->)). apply Forall2_nil_inv_l in Hf as ->.
  cbn in *. unfold make_node. cbn [nth]. cbv zeta. unfold UINT16_MAX, INT32_MAX in *.
  repeat match goal with |- context [to_u32 ?x] =>
    lazymatch x with
    | optional_property _ _ => fail
    | _ => rewrite (to_u32_small x) by lia
    end end.
  rewrite !to_u16_small by lia.
  pose proof (optional_property_u64 properties "lds_size_in_kb" Hp).
  pose proof (optional_property_u64 properties "cwsr_size" Hp).
  pose proof (optional_property_u64 properties "ctl_stack_size" Hp).
  pose proof (optional_property_u64 properties "num_xcc" Hp).
  pose proof (optional_property_u64 properties "local_mem_size" Hp).
  destruct (_ && _) eqn:G1; [done|]. destruct (_ && _) eqn:G2 in |- *; [done|].
  destruct (_ || _) eqn:G3 in |- *; [done|]. destruct (_ >? _) eqn:G4 in |- *; [done|].
  split; [done|]. intros name banks Hname Hbanks.
  assert (is_u32 (if x5 =? 0 then 0 else x4 / x5)) as Hse.
  { destruct (Z.eqb_spec x5 0); [lia|]. pose proof (Z.div_pos x4 x5).
    pose proof (Z.div_le_upper_bound x4 x5 x4). nia. }
  assert (to_i32 x12 = x12) as Hi.
  { unfold to_i32, INT32_MAX. rewrite to_u32_small by lia. by replace (x12 <=? 2147483647) with true by lia. }
  pose proof (Z.mod_pos_bound (x7 / 10000) 100). pose proof (Z.mod_pos_bound (x7 / 100) 100).
  pose proof (Z.mod_pos_bound x7 100).
  split; cbn; rewrite ?to_u32_small, ?Hi; unfold INT32_MAX; try lia; try done.
  - split; cbn; [lia|lia|lia|exact Hse].
  - intros Hgpu. split; [|by apply Hname]. unfold is_gpu in Hgpu. cbn in Hgpu, G2. lia.
Qed.

Lemma read_node_post node_id path :
  is_u32 node_id ->
  post (W := W) (read_node node_id path) (fun node => node_wf node /\ node_node_id node = node_id).
Proof.
  intros Hid. unfold read_node. cbv zeta. eapply post_bind; [by apply read_properties_post|].
  intros properties Hp. eapply post_bind; [by apply read_scalar_post|]. intros gpu_id Hg.
  destruct (gpu_id >? UINT32_MAX) eqn:G; [by apply post_fail|].
  assert (is_u32 gpu_id) as Hg32 by (cbn in Hg; lia).
  eapply post_bind; [by apply post_sum, require_fields_post|]. intros fields Hf.
  eapply (post_bind _ _ (fun r => node_shape node_id r.1)).
  { apply post_sum. pose proof (make_node_post node_id gpu_id properties fields
      (path_append path "properties") Hid Hg32 Hp Hf) as H.
    by destruct (make_node _ _ _ _ _) as [f|[node count]]. }
  intros [node count] [Hn Hshape]. cbn in Hn, Hshape.
  eapply post_bind; [by apply read_text_post|]. intros name _.
  eapply post_bind; [apply read_banks_post|]. intros banks Hb. apply post_ret.
  split; [|done]. apply Hshape; [|done]. by intros ->.
Qed.

(** ** Snapshots *)

Lemma enumerate_nodes_post path entries :
  match enumerate_nodes path entries with
  | inl failure => fl_error failure <> DiscoveryError.None
  | inr nodes => Forall (fun n => is_u32 n.1) nodes
  end.
Proof.
  induction entries as [|entry entries IH]; cbn [enumerate_nodes]; [constructor|]. cbv zeta.
  destruct (de_is_directory entry) as [errno|is_directory]; [done|]. destruct (negb _); [done|].
  destruct (enumerate_nodes path entries) as [f|rest]; [done|].
  destruct (if is_directory then _ else _) as [id|] eqn:Hid; [|done]. constructor; [|done].
  destruct is_directory; [|done]. unfold parse_node_id in Hid.
  destruct (parse_unsigned _) as [v|] eqn:Hv; [|done]. apply parse_unsigned_u64 in Hv.
  destruct (v >? UINT32_MAX) eqn:G; [done|]. injection Hid as <-. cbn. rewrite to_u32_small; lia.
Qed.

Lemma read_nodes_post paths :
  Forall (fun n => is_u32 n.1) paths ->
  post (W := W) (read_nodes paths)
    (Forall2 (fun (n : Z * string) node => node_wf node /\ node_node_id node = n.1) paths).
Proof.
  induction 1 as [|[id path] paths Hid _ IH]; cbn [read_nodes]; [apply post_ret; constructor|].
  eapply post_bind; [by apply read_node_post|]. intros node Hn.
  eapply post_bind; [exact IH|]. intros nodes Hns. apply post_ret. by constructor.
Qed.

(** The nodes of a snapshot: at least one, in the order of their ids. *)
Record nodes_wf (nodes : list Node) : Prop := {
  nsw_some : nodes <> [];
  nsw_sorted : StronglySorted (fun a b => node_node_id a <= node_node_id b) nodes;
  nsw_nodes : Forall node_wf nodes
}.

#[global] Instance node_path_less_order : StrictWeak node_path_less.
Proof. exact (strict_weak_key fst). Qed.

Lemma read_snapshot_post path : post (W := W) (read_snapshot path) nodes_wf.
Proof.
  unfold read_snapshot. cbv zeta. apply (post_bind _ _ (fun _ => True)).
  { intros w. destruct (fs_list _ w) as [[errno|entries] w']; done. }
  intros entries _. eapply post_bind; [apply post_sum, enumerate_nodes_post|].
  intros nodes Hn. case_bool_decide as He; [by apply post_fail|].
  set (sorted := std_sort node_path_less nodes) in *.
  assert (StronglySorted (fun a b => a.1 <= b.1) sorted) as Hs.
  { apply (StronglySorted_impl (not_after node_path_less)); [|apply std_sort_sorted; apply _].
    intros a b _ _. unfold not_after, node_path_less. lia. }
  intros w. pose proof (read_nodes_post sorted (proj2 (Forall_std_sort node_path_less _ nodes) Hn) w) as H.
  destruct (read_nodes sorted w) as [[f|r] w']; [done|]. cbn in *. clear -H He Hs.
  split; [by intros ->; inversion H as [He'|]; rewrite <-He' in He| |].
  - induction H as [|n node ns r [_ Hid] H IH]; [constructor|].
    apply StronglySorted_inv in Hs as [Hs Hall]. constructor.
    + destruct ns; [inversion H; constructor|by apply IH].
    + clear -H Hall Hid. induction H as [|m node' ns r [_ Hid'] H IH]; [constructor|].
      apply Forall_cons in Hall as [Hle Hall]. constructor; [lia|auto].
  - clear -H. induction H as [|n node ns r [Hw _] H IH]; by constructor.
Qed.
End facts.

(** C33: whatever the file system answers, topology discovery returns; a
    topology it returns holds at least one node, in the order of the node ids,
    every node with its fields in their widths, with whole shader engines and a
    target if it is a GPU, as the scratch computation requires; it was read
    between two equal generation numbers; and every failure has an error code
    and no topology. *)
Theorem topology_snapshot_typed {W} `{!SysFs W} path version (w : W) :
  let '(r, w') := read_topology_sysfs path version w in
  if bool_decide (dr_error r = DiscoveryError.None) then
    topo_kfd_version (dr_topology r) = version /\ nodes_wf (topo_nodes (dr_topology r)) /\
    exists generation w1 w2 w3, read_generation path w1 = (inr generation, w2) /\
      read_snapshot path w2 = (inr (topo_nodes (dr_topology r)), w3) /\
      read_generation path w3 = (inr generation, w')
  else dr_topology r = no_topology.
Proof.
  unfold read_topology_sysfs. revert w. induction kMaximumSnapshotAttempts as [|n IH]; intros w;
    cbn [snapshot_attempts]; [done|].
  assert (post (W := W) (read_generation path) (fun _ => True)) as Hgen.
  { intros w0. pose proof (read_scalar_post (path_append path "generation_id") DiscoveryError.ReadGeneration
      DiscoveryError.ReadGeneration ltac:(done) ltac:(done) w0) as H. unfold read_generation.
    by destruct (read_scalar _ _ _ w0) as [[f|v] w1]. }
  pose proof (Hgen w) as H1. destruct (read_generation path w) as [[f|g1] w1] eqn:E1.
  { cbn in H1. by rewrite bool_decide_eq_false_2. }
  pose proof (read_snapshot_post path w1) as H2. destruct (read_snapshot path w1) as [snapshot w2] eqn:E2.
  pose proof (Hgen w2) as H3. destruct (read_generation path w2) as [[f|g2] w3] eqn:E3.
  { cbn in H3. by rewrite bool_decide_eq_false_2. }
  destruct (Z.eqb_spec g1 g2) as [->|]; cbn [negb]; [|apply IH].
  destruct snapshot as [f|nodes]; cbn in H2 |- *.
  - by rewrite bool_decide_eq_false_2.
  - split_and!; [done|done|]. by exists g2, w, w1, w2.
Qed.

(** ** The files of a node

    A printer for the property files, and that reading them back gives the
    node. *)

(** ** Decimal digits *)

Definition decimal (value : Z) : text := digits_acc 10 20 value [].

Lemma fold_decimal l z :
  fold_left (fun value c => value * 10 + (Z.of_nat (nat_of_ascii c) - 48)) l z =
  z * 10 ^ Z.of_nat (length l) + decimal_value l.
Proof.
  revert z. induction l as [|c l IH]; intros z; cbn [fold_left length]; [cbn; lia|].
  unfold decimal_value. cbn [fold_left]. rewrite !IH.
  rewrite Nat2Z.inj_succ, Z.pow_succ_r by lia. lia.
Qed.

Lemma hex_digit_decimal d :
  0 <= d < 10 -> Z.of_nat (nat_of_ascii (hex_digit d)) - 48 = d /\ is_digit_char (hex_digit d) = true.
Proof.
  intros H. assert (d = 0 \/ d = 1 \/ d = 2 \/ d = 3 \/ d = 4 \/ d = 5 \/ d = 6 \/ d = 7 \/ d = 8 \/ d = 9)
    as Hd by lia. by repeat destruct Hd as [->|Hd]; subst.
Qed.

Lemma digits_acc_decimal fuel value acc :
  0 <= value < 10 ^ Z.of_nat fuel -> (0 < fuel)%nat -> forallb is_digit_char acc = true ->
  decimal_value (digits_acc 10 fuel value acc) =
    value * 10 ^ Z.of_nat (length acc) + decimal_value acc /\
  forallb is_digit_char (digits_acc 10 fuel value acc) = true.
Proof.
  revert value acc. induction fuel as [|fuel IH]; intros value acc Hv Hf Hacc; [lia|].
  cbn [digits_acc]. cbv zeta. pose proof (Z.mod_pos_bound value 10). pose proof (Z.div_mod value 10).
  destruct (hex_digit_decimal (value mod 10)) as [Hd Hc]; [lia|].
  set (acc' := hex_digit (value mod 10) :: acc).
  assert (decimal_value acc' = value mod 10 * 10 ^ Z.of_nat (length acc) + decimal_value acc) as Hacc'.
  { unfold acc', decimal_value. cbn [fold_left]. rewrite fold_decimal. cbn. rewrite Hd.
    destruct (value mod 10); done. }
  assert (forallb is_digit_char acc' = true) as Hall by (cbn; by rewrite Hc).
  destruct (Z.eqb_spec (value / 10) 0) as [He|He].
  { split; [|done]. rewrite Hacc'. replace value with (value mod 10) at 2 by lia. done. }
  rewrite Nat2Z.inj_succ, Z.pow_succ_r in Hv by lia.
  destruct (IH (value / 10) acc') as [IH1 IH2].
  - split; [apply Z.div_pos; lia|]. apply Z.div_lt_upper_bound; lia.
  - destruct fuel; [|lia]. cbn in Hv. assert (value / 10 = 0); [|done]. apply Z.div_small. lia.
  - done.
  - split; [|done]. rewrite IH1, Hacc'. replace (length acc') with (S (length acc)) by done.
    rewrite Nat2Z.inj_succ, Z.pow_succ_r by lia. nia.
Qed.

Lemma digits_acc_nonempty base fuel value acc : digits_acc base (S fuel) value acc <> [].
Proof.
  cbn [digits_acc]. case_match; [done|]. intros He.
  pose proof (digits_acc_length base fuel (value / base) (hex_digit (value mod base) :: acc)) as Hl.
  rewrite He in Hl. cbn in Hl. lia.
Qed.

Lemma decimal_spec value :
  is_u64 value -> decimal_value (decimal value) = value /\
    forallb is_digit_char (decimal value) = true /\ decimal value <> [].
Proof.
  intros Hv. destruct (digits_acc_decimal 20 value []) as [H1 H2]; [cbn; lia|lia|done|].
  unfold decimal. split_and!; [rewrite H1; cbn; lia|done|]. apply digits_acc_nonempty.
Qed.

Lemma parse_decimal value : is_u64 value -> parse_unsigned (decimal value) = Some value.
Proof.
  intros Hv. destruct (decimal_spec value Hv) as (H1 & H2 & H3). unfold parse_unsigned.
  rewrite bool_decide_eq_false_2, H2, H1 by done. by replace (value >? UINT64_MAX) with false by lia.
Qed.

(** ** Lines and words *)

Definition newline : ascii := ascii_of_nat 10.
Definition blank : ascii := ascii_of_nat 32.

Lemma lines_from_line line l rest :
  Forall (fun c => nat_of_ascii c <> 10%nat) l ->
  lines_from line (l ++ newline :: rest) = (line ++ l) :: lines_from [] rest.
Proof.
  intros Hl. revert line. induction Hl as [|c l Hc _ IH]; intros line; cbn [lines_from app].
  - by rewrite app_nil_r.
  - destruct (Nat.eqb_spec (nat_of_ascii c) 10); [done|]. rewrite IH. by rewrite <-app_assoc.
Qed.

Definition printable (l : text) : Prop := l <> [] /\ Forall (fun c => is_space_char c = false) l.

Lemma words_from_word word l rest :
  Forall (fun c => is_space_char c = false) l ->
  words_from word (l ++ rest) = words_from (word ++ l) rest.
Proof.
  intros Hl. revert word. induction Hl as [|c l Hc _ IH]; intros word; cbn [words_from app].
  - by rewrite app_nil_r.
  - rewrite Hc, IH. by rewrite <-app_assoc.
Qed.

Lemma words_two name value :
  printable name -> printable value -> words (name ++ blank :: value) = [name; value].
Proof.
  intros [N1 N2] [V1 V2]. unfold words. rewrite words_from_word by done. cbn [app words_from].
  replace (is_space_char blank) with true by done. rewrite bool_decide_eq_false_2 by done. f_equal.
  rewrite <-(app_nil_r value) at 1. rewrite words_from_word by done. cbn [app words_from].
  by rewrite bool_decide_eq_false_2.
Qed.

Lemma drop_while_app test l1 l2 :
  drop_while test (l1 ++ l2) =
  if bool_decide (drop_while test l1 = []) then drop_while test l2 else drop_while test l1 ++ l2.
Proof.
  induction l1 as [|c l1 IH]; cbn; [done|]. destruct (test c); [done|].
  by rewrite bool_decide_eq_false_2.
Qed.

Lemma trim_nonempty c l : is_blank c = false -> trim (c :: l) <> [].
Proof.
  intros Hc. unfold trim. cbn. rewrite Hc. cbn. rewrite drop_while_app. intros H.
  apply (f_equal (@rev ascii)) in H. rewrite rev_involutive in H. revert H.
  case_bool_decide as Hd; cbn; [by rewrite Hc|]. intros H. by destruct (drop_while is_blank (rev l)).
Qed.

(** A trailing newline does not matter. *)
Lemma trim_newline l : trim (l ++ [newline]) = trim l.
Proof.
  unfold trim. rewrite drop_while_app. case_bool_decide as Hd; [by rewrite Hd|].
  rewrite rev_app_distr. done.
Qed.

Lemma digit_not_space c : is_digit_char c = true -> is_space_char c = false.
Proof.
  unfold is_digit_char, is_space_char, is_blank, between. intros H. apply andb_true_iff in H as [H1 H2].
  cbv zeta. repeat match goal with |- context [(?a =? ?b)%nat] => destruct (Nat.eqb_spec a b) end; cbn; lia.
Qed.

Lemma space_not_newline c : is_space_char c = false -> nat_of_ascii c <> 10%nat.
Proof. intros H Hc. unfold is_space_char, is_blank in H. by rewrite Hc in H. Qed.

Lemma decimal_printable value : is_u64 value -> printable (decimal value).
Proof.
  intros Hv. destruct (decimal_spec value Hv) as (_ & H2 & H3). split; [done|].
  apply Forall_forall. intros c Hc. apply digit_not_space.
  by eapply forallb_forall in H2; [|apply list_elem_of_In].
Qed.

(** ** Property files *)

Definition print_property (p : string * Z) : text := chars p.1 ++ blank :: decimal p.2 ++ [newline].

Definition print_properties (l : list (string * Z)) : text := concat (print_property <$> l).

Definition property_ok (p : string * Z) : Prop := printable (chars p.1) /\ is_u64 p.2.

Lemma chars_string s : String.string_of_list_ascii (chars s) = s.
Proof. apply String.string_of_list_ascii_of_string. Qed.

Lemma parse_properties_print properties n l :
  Forall property_ok l -> NoDup l.*1 -> (forall p, p ∈ l -> properties !! p.1 = None) ->
  parse_properties properties n (lines (print_properties l)) = inr (list_to_map l ∪ properties).
Proof.
  intros Hl. revert properties n. induction Hl as [|[name value] l [Hn Hv] _ IH];
    intros properties n Hnd Hfresh.
  { cbn. by rewrite (left_id_L ∅ (∪)). }
  cbn [fst] in Hn, Hv. apply NoDup_cons in Hnd as [Hnew Hnd].
  assert (lines (print_properties ((name, value) :: l)) =
    (chars name ++ blank :: decimal value) :: lines (print_properties l)) as ->.
  { unfold print_properties, lines. cbn [fmap list_fmap concat]. unfold print_property. cbn [fst snd].
    replace ((chars name ++ blank :: decimal value ++ [newline]) ++ concat (print_property <$> l))
      with ((chars name ++ blank :: decimal value) ++ newline :: concat (print_property <$> l))
      by by rewrite <-!app_assoc, <-!app_comm_cons, <-app_assoc.
    rewrite lines_from_line; [done|]. apply Forall_app. split.
    - eapply Forall_impl; [apply Hn|]. apply space_not_newline.
    - constructor; [done|]. eapply Forall_impl; [apply (decimal_printable value Hv)|]. apply space_not_newline. }
  cbn [parse_properties]. cbv zeta. rewrite bool_decide_eq_false_2.
  2:{ destruct Hn as [N1 N2]. destruct (chars name) as [|c cs]; [done|].
      apply Forall_cons in N2 as [N2 _]. apply trim_nonempty. by apply orb_false_iff in N2 as [? _]. }
  unfold parse_property. rewrite words_two by (done || by apply decimal_printable).
  rewrite parse_decimal, chars_string by done. 
  pose proof (Hfresh (name, value) ltac:(by left)) as Hname. cbn [fst] in Hname. rewrite Hname.
  rewrite IH; [|done|].
  - f_equal. cbn. rewrite <-insert_union_r, insert_union_l; [done|].
    by apply not_elem_of_list_to_map.
  - intros p Hp. rewrite lookup_insert_ne; [apply Hfresh; by right|].
    intros ->. apply Hnew. exact (list_elem_of_fmap_2 fst _ _ Hp).
Qed.

(** ** Banks and nodes *)

Definition print_heap_type (heap_type : MemoryHeapType.t) : Z :=
  match heap_type with
  | MemoryHeapType.System => 0
  | MemoryHeapType.FrameBufferPublic => 1
  | MemoryHeapType.FrameBufferPrivate => 2
  | MemoryHeapType.Gds => 3
  | MemoryHeapType.Lds => 4
  | MemoryHeapType.Scratch => 5
  | _ => 6
  end.

Definition bank_properties (bank : MemoryBank) : list (string * Z) :=
  [("heap_type", print_heap_type (bank_heap_type bank)); ("size_in_bytes", bank_size bank);
   ("flags", (if bank_hot_pluggable bank then 1 else 0) + (if bank_non_volatile bank then 2 else 0));
   ("width", bank_width bank); ("mem_clk_max", bank_maximum_clock_mhz bank)].

(** The banks this transport can report: two heap types belong to the other. *)
Record bank_printable (bank : MemoryBank) : Prop := {
  bp_wf : bank_wf bank;
  bp_base : bank_virtual_base_address bank = 0;
  bp_heap : convert_heap_type (print_heap_type (bank_heap_type bank)) = bank_heap_type bank
}.

Definition node_properties (node : Node) : list (string * Z) :=
  [("cpu_cores_count", node_cpu_core_count node); ("simd_count", node_simd_count node);
   ("mem_banks_count", Z.of_nat (length (node_memory_banks node)));
   ("max_waves_per_simd", node_maximum_waves_per_simd node); ("lds_size_in_kb", node_lds_size_kb node);
   ("wave_front_size", node_wavefront_size node); ("array_count", node_shader_engine_count node);
   ("simd_arrays_per_engine", 1); ("simd_per_cu", node_simd_per_compute_unit node);
   ("max_slots_scratch_cu", node_maximum_scratch_waves_per_compute_unit node);
   ("gfx_target_version", arch_major (node_architecture node) * 10000 +
      arch_minor (node_architecture node) * 100 + arch_stepping (node_architecture node));
   ("vendor_id", node_vendor_id node); ("device_id", node_device_id node);
   ("location_id", node_location_id node); ("domain", node_domain node);
   ("drm_render_minor", node_drm_render_minor node); ("num_xcc", node_xcc_count node);
   ("cwsr_size", node_cwsr_size node); ("ctl_stack_size", node_control_stack_size node);
   ("local_mem_size", node_local_memory_size node)].

Record node_printable (node : Node) : Prop := {
  np_wf : node_wf node;
  np_name : trim (chars (node_name node)) = chars (node_name node);
  np_bank_count : Z.of_nat (length (node_memory_banks node)) <= UINT32_MAX;
  np_banks : Forall bank_printable (node_memory_banks node)
}.

(** A property of a printed list is found. *)
Ltac find_property :=
  apply elem_of_list_to_map_1; [by apply (bool_decide_eq_true_1 (NoDup _))|];
  repeat first [apply elem_of_cons; left; reflexivity | apply elem_of_cons; right].

Section files.
Context {W : Type} `{!SysFs W}.

(** The file at a path has these contents, whenever it is read. *)
Definition serves (path : string) (contents : text) : Prop :=
  forall w, fs_read path w = (Contents contents, w).

Definition serves_bank (path : string) (bank : MemoryBank) : Prop :=
  serves (path_append path "properties") (print_properties (bank_properties bank)).

Record serves_node (path : string) (node : Node) : Prop := {
  sn_properties : serves (path_append path "properties") (print_properties (node_properties node));
  sn_gpu_id : serves (path_append path "gpu_id") (decimal (node_gpu_id node) ++ [newline]);
  sn_name : serves (path_append path "name") (chars (node_name node) ++ [newline]);
  sn_banks (i : nat) bank : node_memory_banks node !! i = Some bank ->
    serves_bank (path_append (path_append path "mem_banks") (pretty (Z.of_nat i))) bank
}.

Lemma read_properties_serves path e1 e2 l w :
  serves path (print_properties l) -> Forall property_ok l -> NoDup l.*1 ->
  read_properties path e1 e2 w = (inr (list_to_map l), w).
Proof.
  intros Hs Hl Hnd. unfold read_properties, mbind, sysfs_bind, read_text. rewrite Hs.
  rewrite parse_properties_print by (done || by intros; rewrite lookup_empty).
  by rewrite (right_id_L ∅ (∪)).
Qed.

Lemma sysfs_bind_ok {A B} (m : sysfs W A) (k : A -> sysfs W B) w a w' :
  m w = (inr a, w') -> (m ≫= k) w = k a w'.
Proof. intros H. unfold mbind, sysfs_bind. by rewrite H. Qed.

Lemma trim_printable l : Forall (fun c => is_space_char c = false) l -> trim l = l.
Proof.
  assert (forall l, Forall (fun c => is_space_char c = false) l -> drop_while is_blank l = l) as Hd.
  { intros [|c l0] H; [done|]. apply Forall_cons in H as [H _]. cbn.
    apply orb_false_iff in H as [-> _]. done. }
  intros H. unfold trim. rewrite (Hd l H), Hd, rev_involutive; [done|]. by apply Forall_rev.
Qed.

Lemma read_scalar_serves path e1 e2 v w :
  serves path (decimal v ++ [newline]) -> is_u64 v -> read_scalar path e1 e2 w = (inr v, w).
Proof.
  intros Hs Hv. unfold read_scalar. rewrite (sysfs_bind_ok _ _ _ (decimal v ++ [newline]) w).
  - destruct (decimal_printable v Hv) as [_ Hd].
    by rewrite trim_newline, trim_printable, parse_decimal.
  - unfold read_text. by rewrite Hs.
Qed.

Lemma names_printable l :
  forallb (fun p => forallb (fun c => negb (is_space_char c)) (chars p.1) &&
    negb (bool_decide (chars p.1 = []))) l = true -> Forall (fun p : string * Z => is_u64 p.2) l ->
  Forall property_ok l.
Proof.
  intros Hn Hv. rewrite Forall_forall in Hv. apply Forall_forall. intros p Hp. split; [|by apply Hv].
  eapply forallb_forall in Hn; [|by apply list_elem_of_In]. apply andb_true_iff in Hn as [Hn1 Hn2].
  apply negb_true_iff, bool_decide_eq_false in Hn2. split; [done|].
  apply Forall_forall. intros c Hc. eapply forallb_forall in Hn1; [|by apply list_elem_of_In].
  by apply negb_true_iff in Hn1.
Qed.

Lemma bank_flags (hot non_volatile : bool) :
  let flags := (if hot then 1 else 0) + (if non_volatile then 2 else 0) in
  negb (Z.land flags kMemoryHotPluggable =? 0) = hot /\
  negb (Z.land flags kMemoryNonVolatile =? 0) = non_volatile.
Proof. by destruct hot, non_volatile. Qed.

Lemma print_heap_type_range heap_type : 0 <= print_heap_type heap_type <= 6.
Proof. by destruct heap_type. Qed.

Lemma require_fields_exact (m : Properties) fields values error path :
  Forall2 (fun (field : string * Z) v => m !! field.1 = Some v /\ v <= field.2) fields values ->
  require_fields m fields error path = inr values.
Proof.
  induction 1 as [|[name maximum] v fields values [Hv Hle] _ IH]; cbn [require_fields]; [done|].
  unfold require_property. cbn in Hv, Hle. rewrite Hv, IH. by replace (v >? maximum) with false by lia.
Qed.

Lemma read_memory_bank_serves path bank w :
  serves_bank path bank -> bank_printable bank -> read_memory_bank path w = (inr bank, w).
Proof.
  intros Hs [[H1 H2 H3] Hb Hh]. pose proof (print_heap_type_range (bank_heap_type bank)) as Hr.
  unfold read_memory_bank. cbv zeta. unfold mbind at 1, sysfs_bind at 1.
  rewrite (read_properties_serves _ _ _ (bank_properties bank)).
  2: exact Hs.
  2:{ apply names_printable; [done|]. repeat constructor; cbn; try lia; repeat (case_match; try lia). }
  2:{ by apply (bool_decide_eq_true_1 (NoDup _)). }
  rewrite (require_fields_exact _ _ [print_heap_type (bank_heap_type bank); bank_size bank;
    (if bank_hot_pluggable bank then 1 else 0) + (if bank_non_volatile bank then 2 else 0);
    bank_width bank; bank_maximum_clock_mhz bank]).
  2:{ unfold bank_fields, bank_properties.
      repeat (constructor; [split; [find_property|cbn; repeat (case_match; try lia); lia]|]). constructor. }
  cbn [of_sum]. unfold mbind, sysfs_bind, of_sum, mret, sysfs_ret, make_bank. cbn [nth].
  destruct (bank_flags (bank_hot_pluggable bank) (bank_non_volatile bank)) as [-> ->].
  rewrite !to_u32_small, Hh by lia. by destruct bank; cbn in *; subst.
Qed.

Lemma read_banks_serves path banks (i : nat) w :
  Forall bank_printable banks ->
  (forall (j : nat) bank, banks !! j = Some bank ->
     serves_bank (path_append path (pretty (Z.of_nat (i + j)))) bank) ->
  read_banks path (length banks) (Z.of_nat i) w = (inr banks, w).
Proof.
  intros Hb. revert i. induction Hb as [|bank banks Hbank _ IH]; intros i Hs; cbn [read_banks length]; [done|].
  unfold mbind at 1, sysfs_bind at 1. pose proof (Hs 0%nat bank eq_refl) as H0.
  rewrite Nat.add_0_r in H0. rewrite (read_memory_bank_serves _ bank) by done.
  unfold mbind at 1, sysfs_bind at 1. replace (Z.of_nat i + 1) with (Z.of_nat (S i)) by lia.
  rewrite IH; [done|]. intros j b Hj. replace (S i + j)%nat with (i + S j)%nat by lia. by apply Hs.
Qed.

(** ** Nodes *)

Lemma architecture_fields (major minor stepping : Z) :
  0 <= major < 100 -> 0 <= minor < 100 -> 0 <= stepping < 100 ->
  make_architecture (major * 10000 + minor * 100 + stepping) = mkGpuArchitecture major minor stepping.
Proof.
  intros H1 H2 H3. unfold make_architecture. f_equal.
  - replace (major * 10000 + minor * 100 + stepping) with (minor * 100 + stepping + major * 10000) by lia.
    rewrite Z.div_add, (Z.div_small (minor * 100 + stepping)) by lia. apply Z.mod_small. lia.
  - replace (major * 10000 + minor * 100 + stepping) with (stepping + (major * 100 + minor) * 100) by lia.
    rewrite Z.div_add, (Z.div_small stepping) by lia. rewrite Z.add_0_l, Z.add_comm, Z.mod_add by lia.
    apply Z.mod_small. lia.
  - replace (major * 10000 + minor * 100 + stepping) with (stepping + (major * 100 + minor) * 100) by lia.
    rewrite Z.mod_add by lia. apply Z.mod_small. lia.
Qed.

Definition node_values (node : Node) : list Z :=
  [node_cpu_core_count node; node_simd_count node; node_simd_per_compute_unit node;
   node_wavefront_size node; node_maximum_waves_per_simd node; node_shader_engine_count node; 1;
   node_maximum_scratch_waves_per_compute_unit node;
   arch_major (node_architecture node) * 10000 + arch_minor (node_architecture node) * 100 +
     arch_stepping (node_architecture node);
   node_vendor_id node; node_device_id node; node_domain node; node_location_id node;
   node_drm_render_minor node; Z.of_nat (length (node_memory_banks node))].

Lemma optional_listed (m : Properties) name v : m !! name = Some v -> optional_property m name = v.
Proof. intros H. unfold optional_property. by rewrite H. Qed.

Lemma to_i32_small x : 0 <= x <= INT32_MAX -> to_i32 x = x.
Proof.
  unfold to_i32, INT32_MAX. intros H. rewrite to_u32_small by lia. by replace (x <=? 2147483647) with true by lia.
Qed.

Lemma node_properties_listed node :
  let m := list_to_map (node_properties node) : Properties in
  optional_property m "lds_size_in_kb" = node_lds_size_kb node /\
  optional_property m "cwsr_size" = node_cwsr_size node /\
  optional_property m "ctl_stack_size" = node_control_stack_size node /\
  optional_property m "num_xcc" = node_xcc_count node /\
  optional_property m "local_mem_size" = node_local_memory_size node.
Proof. cbv zeta. unfold node_properties. split_and!; apply optional_listed; find_property. Qed.

Lemma make_node_printed node path :
  node_printable node ->
  make_node (node_node_id node) (node_gpu_id node) (list_to_map (node_properties node))
    (node_values node) path =
  inr (set_contents node "" [], Z.of_nat (length (node_memory_banks node))).
Proof.
  intros [[[T1 T2 T3 T4] [I1 I2] (C1 & C2 & C3 & C4) (Q1 & Q2 & Q3) (P1 & P2 & P3 & P4) M L Hint
    (A1 & A2 & A3) Hgpu _] _ Hcount _].
  destruct (node_properties_listed node) as (O1 & O2 & O3 & O4 & O5).
  unfold make_node. cbv zeta. rewrite O1, O2, O3, O4, O5. unfold node_values. cbn [nth].
  rewrite !to_i32_small, !to_u16_small, !to_u32_small by lia. rewrite architecture_fields by done.
  change (1 =? 0) with false. rewrite Z.mod_1_r, Z.div_1_r. cbn [Z.eqb negb orb arch_major].
  rewrite andb_false_r.
  assert (negb (node_simd_count node =? 0) && (arch_major (node_architecture node) =? 0) = false) as ->.
  { destruct (negb (node_simd_count node =? 0)) eqn:G1; [|done]. destruct (Hgpu G1) as [Hm _]. cbn. lia. }
  replace (node_lds_size_kb node >? UINT32_MAX) with false by lia.
  replace (node_cwsr_size node >? UINT32_MAX) with false by lia.
  replace (node_control_stack_size node >? UINT32_MAX) with false by lia.
  replace (node_xcc_count node >? UINT32_MAX) with false by lia. cbn [orb].
  do 2 f_equal. unfold set_contents. rewrite Hint. unfold is_gpu.
  by destruct node as [? ? ? ? ? ? ? ? ? ? ? ? ? ? ? ? ? ? ? ? ? [? ? ?] ?].
Qed.
End files.

(** The files of a node read back as the node: for every node this
    transport can describe, [read_node] on the property, name, id and bank
    files that print it returns that node. *)
Theorem node_files_roundtrip {W} `{!SysFs W} path node (w : W) :
  serves_node path node -> node_printable node ->
  read_node (node_node_id node) path w = (inr node, w).
Proof.
  intros [Hp Hg Hn Hb] Hok. pose proof Hok as [Hwf Hname Hcount Hbanks].
  pose proof Hwf as [[T1 T2 T3 T4] [I1 I2] (C1 & C2 & C3 & C4) (Q1 & Q2 & Q3) (P1 & P2 & P3 & P4) M L Hint
    (A1 & A2 & A3) Hgpu _]. unfold INT32_MAX in M.
  unfold read_node. cbv zeta.
  rewrite (sysfs_bind_ok _ _ _ (list_to_map (node_properties node)) w).
  2:{ apply read_properties_serves; [exact Hp| |by apply (bool_decide_eq_true_1 (NoDup _))].
      apply names_printable; [done|]. repeat constructor; cbn; lia. }
  rewrite (sysfs_bind_ok _ _ _ (node_gpu_id node) w) by (apply read_scalar_serves; [exact Hg|lia]).
  replace (node_gpu_id node >? UINT32_MAX) with false by lia.
  rewrite (sysfs_bind_ok _ _ _ (node_values node) w).
  2:{ unfold of_sum. f_equal. apply require_fields_exact. unfold node_fields, node_values, node_properties.
      repeat (constructor; [split; [find_property|cbn; unfold UINT16_MAX, INT32_MAX; lia]|]). constructor. }
  rewrite (sysfs_bind_ok _ _ _ (set_contents node "" [], Z.of_nat (length (node_memory_banks node))) w).
  2:{ unfold of_sum. f_equal. by apply make_node_printed. }
  rewrite (sysfs_bind_ok _ _ _ (chars (node_name node) ++ [newline]) w).
  2:{ unfold read_text. by rewrite Hn. }
  rewrite trim_newline, Hname, chars_string. change (is_gpu (set_contents node "" [])) with (is_gpu node).
  cbn [node_architecture set_contents]. rewrite Nat2Z.id.
  rewrite (sysfs_bind_ok _ _ _ (node_memory_banks node) w) by (apply (read_banks_serves _ _ 0); done).
  unfold mret, sysfs_ret. do 2 f_equal. assert ((if is_gpu node then architecture_name
    (node_architecture node) else node_name node) = node_name node) as ->.
  { destruct (is_gpu node); [|done]. by destruct Hgpu as [_ <-]. }
  by destruct node.
Qed.
