(* ===== verification/CwsrLayout.v ===== *)
(** * The context save area of a queue

    [compute_cwsr_layout] and [initialize_cwsr] of [transport/kfd/queue.cpp]:
    the size of the memory in which the hardware saves the waves of a queue
    that is preempted, computed from the topology in checked 64-bit
    arithmetic, and the headers that tell the driver where the debugger's part
    of it lies. *)

From stdpp Require Import list.
From S2P Require Import Prelude Memory CodeObject Topology Scratch KfdMemory KfdMemoryFacts KfdTopologyFacts.

Module AqlQueueError.
Inductive t :=
| None
| InvalidSession
| InvalidNode
| InvalidRingSize
| AcquireVm
| AllocateState
| AllocateRing
| AllocateControl
| AllocateEop
| InvalidCwsrLayout
| AllocateCwsr
| AllocateDoorbell
| AllocateErrorEventPage
| CreateErrorEvent
| AllocateTrapHandler
| ConfigureTrapHandler
| ConfigureScratch
| AllocateScratch
| CreateQueue
| InvalidDoorbell
| MapDoorbell
| DestroyQueue
| DestroyErrorEvent
| UnmapDoorbell
| ReleaseEop
| ReleaseCwsr
| ReleaseDoorbell
| ReleaseScratch
| ReleaseControl
| ReleaseRing.

#[global] Instance eq_dec : EqDecision t.
Proof. solve_decision. Defined.
End AqlQueueError.

Record AqlQueueStatus := mkQueueStatus {
  qst_error : AqlQueueError.t;
  qst_system_error : Z;
  qst_message : string
}.

(** [explicit operator bool] *)
Definition queue_status_ok (status : AqlQueueStatus) : bool :=
  bool_decide (qst_error status = AqlQueueError.None).

Definition queue_ok : AqlQueueStatus := mkQueueStatus AqlQueueError.None 0 "".

Definition queue_failure (error : AqlQueueError.t) (message : string) : AqlQueueStatus :=
  mkQueueStatus error 0 message.

Record CwsrLayout := mkCwsrLayout {
  cw_context_save_restore_size : Z;
  cw_control_stack_size : Z;
  cw_debug_memory_size : Z;
  cw_xcc_count : Z;
  cw_allocation_size : Z
}.

Definition kCwsrDebugBytesPerWave : Z := 32.
Definition kCwsrDebugAlignment : Z := 64.
Definition kGfx10ControlStackLimit : Z := 0x7000.
Definition kSgprSizePerComputeUnit : Z := 0x4000.
Definition kHardwareRegisterSizePerComputeUnit : Z := 0x1000.

(** ** Checked arithmetic *)

Definition align_up (value alignment : Z) : option Z :=
  if negb (is_power_of_two alignment) || (value >? UINT64_MAX - (alignment - 1)) then None
  else Some (round_up value alignment).

Definition checked_add (left right : Z) : option Z :=
  if left >? UINT64_MAX - right then None else Some (u64_add left right).

Definition checked_multiply (left right : Z) : option Z :=
  if negb (left =? 0) && (right >? UINT64_MAX / left) then None else Some (u64_mul left right).

(** ** The layout *)

Definition packed_gfx_version (architecture : GpuArchitecture) : Z :=
  Z.lor (Z.lor (to_u32 (Z.shiftl (arch_major architecture) 16))
    (to_u32 (Z.shiftl (arch_minor architecture) 8))) (arch_stepping architecture).

Definition vgpr_size_per_compute_unit (gfx_version : Z) : Z :=
  if gfx_version <? 0x090008 then 0x40000
  else if gfx_version <=? 0x09000a then 0x80000
  else if gfx_version <=? 0x09000c then 0x40000
  else if gfx_version <=? 0x090500 then 0x80000
  else if gfx_version <? 0x0b0000 then 0x40000
  else if gfx_version <=? 0x0c0001 then 0x60000
  else 0.

(** What the computation of the sizes needs of the topology. *)
Definition cwsr_supported (node : Node) (gfx_version xcc_count vgpr_size : Z) : bool :=
  negb ((gfx_version <? 0x090000) || (vgpr_size =? 0) || (compute_unit_count node =? 0) ||
    negb (compute_unit_count node mod xcc_count =? 0) || (node_simd_per_compute_unit node =? 0) ||
    (node_maximum_waves_per_simd node =? 0) || (node_lds_size_kb node =? 0)).

Abbreviation invalid_layout message := (inl (queue_failure AqlQueueError.InvalidCwsrLayout message)).

(** The part behind the sizes of the control stack and of the wave state. *)
Definition cwsr_allocation (node : Node) (xcc_count wave_count derived_control_stack_size
    aligned_workgroup_data_size : Z) : AqlQueueStatus + CwsrLayout :=
  let control_stack_size :=
    if negb (node_control_stack_size node =? 0) then node_control_stack_size node
    else derived_control_stack_size in
  match checked_add derived_control_stack_size aligned_workgroup_data_size with
  | None => invalid_layout "CWSR context size overflowed"
  | Some derived_context_save_restore_size =>
  let context_save_restore_size :=
    if negb (node_cwsr_size node =? 0) then node_cwsr_size node
    else derived_context_save_restore_size in
  match (size ← checked_multiply wave_count kCwsrDebugBytesPerWave; align_up size kCwsrDebugAlignment) with
  | None => invalid_layout "CWSR per-XCC size exceeds the KFD ABI"
  | Some debug_memory_size =>
  if (control_stack_size >? UINT32_MAX) || (context_save_restore_size >? UINT32_MAX) ||
     (debug_memory_size >? UINT32_MAX) || (context_save_restore_size >? UINT32_MAX / xcc_count) ||
     (debug_memory_size >? UINT32_MAX / xcc_count)
  then invalid_layout "CWSR per-XCC size exceeds the KFD ABI"
  else
  match (per_xcc_size ← checked_add context_save_restore_size debug_memory_size;
         checked_multiply per_xcc_size xcc_count) with
  | None => invalid_layout "CWSR allocation size overflowed"
  | Some total_size =>
  match align_up total_size kMemoryPageSize with
  | None => invalid_layout "CWSR allocation exceeds the host size range"
  | Some allocation_size =>
  if allocation_size >? UINT64_MAX then invalid_layout "CWSR allocation exceeds the host size range"
  else inr (mkCwsrLayout (to_u32 context_save_restore_size) (to_u32 control_stack_size)
              (to_u32 debug_memory_size) xcc_count allocation_size)
  end end end end.

Definition compute_cwsr_layout (node : Node) : AqlQueueStatus + CwsrLayout :=
  let gfx_version := packed_gfx_version (node_architecture node) in
  let xcc_count := if node_xcc_count node =? 0 then 1 else node_xcc_count node in
  let vgpr_size := vgpr_size_per_compute_unit gfx_version in
  if negb (cwsr_supported node gfx_version xcc_count vgpr_size) then
    invalid_layout "CWSR requires complete supported GPU topology"
  else
  let compute_units_per_xcc := compute_unit_count node / xcc_count in
  match (simd_count_per_xcc ← checked_multiply compute_units_per_xcc (node_simd_per_compute_unit node);
         checked_multiply simd_count_per_xcc (node_maximum_waves_per_simd node)) with
  | None => invalid_layout "CWSR wave count overflowed"
  | Some wave_count =>
  let bytes_per_wave := if gfx_version >=? 0x0a0100 then 12 else 8 in
  match (payload ← checked_multiply wave_count bytes_per_wave; unaligned ← checked_add payload (40 + 8);
         align_up unaligned kMemoryPageSize) with
  | None => invalid_layout "CWSR control stack size overflowed"
  | Some aligned_control_stack_size =>
  let derived_control_stack_size :=
    if Z.land gfx_version 0x3f0000 =? 0x0a0000
    then Z.min aligned_control_stack_size kGfx10ControlStackLimit else aligned_control_stack_size in
  let lds_size := Z.shiftl (node_lds_size_kb node) 10 in
  let bytes_per_compute_unit :=
    u64_add (u64_add (u64_add vgpr_size kSgprSizePerComputeUnit) lds_size)
      kHardwareRegisterSizePerComputeUnit in
  match (size ← checked_multiply compute_units_per_xcc bytes_per_compute_unit;
         align_up size kMemoryPageSize) with
  | None => invalid_layout "CWSR wave state size overflowed"
  | Some aligned_workgroup_data_size =>
      cwsr_allocation node xcc_count wave_count derived_control_stack_size aligned_workgroup_data_size
  end end end.

(** ** The headers *)

(** The fields of [CwsrHeader] the transport writes; the first four words are
    the driver's. *)
Record CwsrHeader := mkCwsrHeader {
  ch_debug_offset : Z;
  ch_debug_size : Z;
  ch_error_reason : Z;
  ch_error_event_id : Z
}.

Definition cwsr_header (layout : CwsrLayout) (error_reason_address error_event_id xcc : Z) : CwsrHeader :=
  mkCwsrHeader
    (to_u32 (to_u32 (cw_xcc_count layout - xcc) * cw_context_save_restore_size layout))
    (to_u32 (cw_debug_memory_size layout * cw_xcc_count layout))
    error_reason_address error_event_id.

(** Bytes 16 to 35 of the header. *)
Definition header_bytes (header : CwsrHeader) : bytes :=
  le_bytes 4 (ch_debug_offset header) ++ le_bytes 4 (ch_debug_size header) ++
  le_bytes 8 (ch_error_reason header) ++ le_bytes 4 (ch_error_event_id header).

(** [for (xcc = 0; xcc < xcc_count; ++xcc)], from [xcc] on. *)
Fixpoint write_headers (layout : CwsrLayout) (error_reason_address error_event_id : Z) (remaining : nat)
    (xcc : Z) (memory : bytes) : result Empty_set bytes :=
  match remaining with
  | O => Ok memory
  | S remaining =>
      memory ← write_bytes memory (xcc * cw_context_save_restore_size layout + 16)
        (header_bytes (cwsr_header layout error_reason_address error_event_id xcc));
      write_headers layout error_reason_address error_event_id remaining (xcc + 1) memory
  end.

Definition initialize_cwsr (memory : bytes) (layout : CwsrLayout)
    (error_reason_address error_event_id : Z) : result Empty_set bytes :=
  memory ← write_zeros memory 0 (cw_allocation_size layout);
  write_headers layout error_reason_address error_event_id (Z.to_nat (cw_xcc_count layout)) 0 memory.

(** ** The layout in exact arithmetic *)

(** Rounded up to a multiple of [n]. *)
Definition roundup (x n : Z) : Z := (x + n - 1) / n * n.

Definition spec_xcc_count (node : Node) : Z := Z.max 1 (node_xcc_count node).
Definition spec_compute_units (node : Node) : Z := compute_unit_count node / spec_xcc_count node.

Definition spec_wave_count (node : Node) : Z :=
  spec_compute_units node * node_simd_per_compute_unit node * node_maximum_waves_per_simd node.

Definition spec_control_stack (node : Node) : Z :=
  let version := packed_gfx_version (node_architecture node) in
  let size := roundup (spec_wave_count node * (if 0x0a0100 <=? version then 12 else 8) + 48) 4096 in
  if Z.land version 0x3f0000 =? 0x0a0000 then Z.min size 0x7000 else size.

Definition spec_wave_state (node : Node) : Z :=
  let version := packed_gfx_version (node_architecture node) in
  roundup (spec_compute_units node *
    (vgpr_size_per_compute_unit version + 0x5000 + node_lds_size_kb node * 1024)) 4096.

Definition or_else (x y : Z) : Z := if x =? 0 then y else x.

(** The layout a node asks for, whatever its size. *)
Definition spec_layout (node : Node) : CwsrLayout :=
  let context := or_else (node_cwsr_size node) (spec_control_stack node + spec_wave_state node) in
  let debug := roundup (spec_wave_count node * 32) 64 in
  mkCwsrLayout context (or_else (node_control_stack_size node) (spec_control_stack node)) debug
    (spec_xcc_count node) (roundup (spec_xcc_count node * (context + debug)) 4096).

(** What is too large for the 32-bit fields of the driver's interface. *)
Definition layout_fits (layout : CwsrLayout) : Prop :=
  cw_control_stack_size layout <= UINT32_MAX /\
  cw_xcc_count layout * cw_context_save_restore_size layout <= UINT32_MAX /\
  cw_xcc_count layout * cw_debug_memory_size layout <= UINT32_MAX.

(** ** The context save area is large enough

    The checked 64-bit computation is the exact one wherever the result fits
    the driver's interface, and the headers and the debugger's window lie
    inside the allocation. *)

(** ** Checked operations are exact operations with a test *)

Lemma checked_add_exact a b :
  0 <= a -> 0 <= b < U64_MOD -> checked_add a b = if a + b <=? UINT64_MAX then Some (a + b) else None.
Proof.
  intros Ha Hb. unfold checked_add. destruct (a >? _) eqn:G1, (_ <=? _) eqn:G2; try lia; [done|].
  by rewrite u64_add_small by lia.
Qed.

Lemma checked_multiply_exact a b :
  0 <= a -> 0 <= b -> checked_multiply a b = if a * b <=? UINT64_MAX then Some (a * b) else None.
Proof.
  intros Ha Hb. unfold checked_multiply. destruct (Z.eqb_spec a 0) as [->|Hz]; cbn [negb andb]; [done|].
  destruct (b >? UINT64_MAX / a) eqn:G; rewrite Z.gtb_ltb in G.
  - apply Z.ltb_lt in G. pose proof (Z.mul_succ_div_gt UINT64_MAX a ltac:(lia)).
    case_match; [nia|done].
  - apply Z.ltb_ge in G. pose proof (Z.mul_div_le UINT64_MAX a ltac:(lia)).
    rewrite u64_mul_small by nia. case_match; [done|nia].
Qed.

Lemma roundup_spec x n : 0 < n -> x <= roundup x n < x + n /\ roundup x n mod n = 0.
Proof. intros Hn. unfold roundup. split; [zlia|apply Z_mod_mult]. Qed.

Lemma roundup_unique x n y : 0 < n -> x <= y < x + n -> y mod n = 0 -> y = roundup x n.
Proof.
  intros Hn Hy Hm. destruct (roundup_spec x n Hn) as [H1 H2].
  apply Z.mod_divide in Hm as [p ->]; [|lia]. apply Z.mod_divide in H2 as [q H2]; [|lia]. rewrite H2 in *.
  assert (p = q) as -> by nia. done.
Qed.

Lemma align_up_exact x k :
  0 <= x -> 0 <= k <= 32 ->
  align_up x (2 ^ k) = if roundup x (2 ^ k) <=? UINT64_MAX then Some (roundup x (2 ^ k)) else None.
Proof.
  intros Hx Hk. assert (0 < 2 ^ k <= 2 ^ 32) as Hp.
  { split; [apply Z.pow_pos_nonneg; lia|apply Z.pow_le_mono_r; lia]. }
  unfold align_up. rewrite CodeObject.is_power_of_two_pow by lia. cbn [negb orb].
  destruct (roundup_spec x (2 ^ k)) as [H1 H2]; [lia|].
  assert (U64_MOD mod 2 ^ k = 0) as Hd.
  { apply Z.mod_divide; [lia|]. exists (2 ^ (64 - k)). rewrite <-Z.pow_add_r by lia. 
    replace (64 - k + k) with 64 by lia. done. }
  destruct (x >? _) eqn:G.
  - case_match; [|done]. exfalso. assert (U64_MOD <= roundup x (2 ^ k)); [|lia].
    apply Z.mod_divide in Hd as [p Hp']; [|lia]. apply Z.mod_divide in H2 as [q Hq]; [|lia].
    assert ((p - 1) * 2 ^ k < q * 2 ^ k) as Hlt by lia. apply Z.mul_lt_mono_pos_r in Hlt; [|lia].
    rewrite Hp', Hq. apply Z.mul_le_mono_nonneg_r; lia.
  - destruct (round_up_spec x k) as [H3 H4]; [lia..|].
    rewrite (roundup_unique x (2 ^ k) (round_up x (2 ^ k))) by lia.
    case_match; [done|]. rewrite <-(roundup_unique x (2 ^ k) (round_up x (2 ^ k))) in * by lia. lia.
Qed.

(** ** The computation is exact *)

(** The topology is complete and of a supported generation. *)
Record cwsr_ready (node : Node) : Prop := {
  cr_version : 0x090000 <= packed_gfx_version (node_architecture node) <= 0x0c0001;
  cr_units : 0 < compute_unit_count node;
  cr_xcc : compute_unit_count node mod spec_xcc_count node = 0;
  cr_simd : 0 < node_simd_per_compute_unit node;
  cr_waves : 0 < node_maximum_waves_per_simd node;
  cr_lds : 0 < node_lds_size_kb node
}.

Lemma vgpr_size_range version :
  0 <= vgpr_size_per_compute_unit version <= 0x80000 /\
  (vgpr_size_per_compute_unit version = 0 <-> 0x0c0001 < version).
Proof. unfold vgpr_size_per_compute_unit. repeat case_match; lia. Qed.

Lemma packed_gfx_version_nonneg node :
  node_wf node -> 0 <= packed_gfx_version (node_architecture node).
Proof.
  intros Hw. destruct (nw_architecture _ Hw) as (? & ? & ?). unfold packed_gfx_version.
  rewrite !Z.lor_nonneg. pose proof (to_u32_range (Z.shiftl (arch_major (node_architecture node)) 16)).
  pose proof (to_u32_range (Z.shiftl (arch_minor (node_architecture node)) 8)). lia.
Qed.

Lemma cwsr_supported_spec node :
  node_wf node ->
  cwsr_supported node (packed_gfx_version (node_architecture node)) (spec_xcc_count node)
    (vgpr_size_per_compute_unit (packed_gfx_version (node_architecture node))) = true <-> cwsr_ready node.
Proof.
  intros Hw. pose proof (compute_unit_count_range node (nw_typed _ Hw)).
  destruct (nw_typed _ Hw), (nw_counts _ Hw) as (_ & _ & ? & _), (nw_cwsr _ Hw) as (? & _ & _).
  pose proof (vgpr_size_range (packed_gfx_version (node_architecture node))) as [Hr Hz].
  unfold cwsr_supported. rewrite negb_true_iff. split.
  - intros G. split; lia.
  - intros []. lia.
Qed.

(** The exact sizes are natural numbers, and a wave takes up debugger memory. *)
Lemma spec_sizes node :
  node_wf node -> cwsr_ready node ->
  1 <= spec_xcc_count node < U32_MOD /\ 1 <= spec_compute_units node < U32_MOD /\
  spec_compute_units node * node_simd_per_compute_unit node < U32_MOD /\ 1 <= spec_wave_count node.
Proof.
  intros Hw [_ Hu Hx Hs Hwv _]. destruct (nw_counts _ Hw) as (_ & _ & ? & ?).
  destruct (nw_typed _ Hw) as [? ? _ _]. unfold spec_wave_count, spec_compute_units.
  assert (1 <= spec_xcc_count node < U32_MOD) as Hxr by (unfold spec_xcc_count; lia).
  pose proof (compute_unit_count_range node (nw_typed _ Hw)) as Hc.
  apply Z.mod_divide in Hx as [q Hq]; [|lia]. rewrite Hq at 2 3 4. rewrite Hq in Hu, Hc.
  assert (1 <= q <= q * spec_xcc_count node) as Hq1 by nia.
  assert (compute_unit_count node * node_simd_per_compute_unit node <= node_simd_count node) as Hsimd.
  { unfold compute_unit_count in *. case_match; [nia|]. rewrite Z.mul_comm. apply Z.mul_div_le. lia. }
  rewrite Hq in Hsimd. rewrite Hq, Z.div_mul by lia. split_and!; nia.
Qed.

Lemma checked_chain a b c k :
  0 <= a -> 0 <= b -> 0 <= c < U64_MOD -> 0 <= k <= 32 ->
  (payload ← checked_multiply a b; unaligned ← checked_add payload c; align_up unaligned (2 ^ k)) =
  if roundup (a * b + c) (2 ^ k) <=? UINT64_MAX then Some (roundup (a * b + c) (2 ^ k)) else None.
Proof.
  intros Ha Hb Hc Hk. assert (0 < 2 ^ k) as Hp by (apply Z.pow_pos_nonneg; lia).
  destruct (roundup_spec (a * b + c) (2 ^ k) Hp) as [Hr _].
  rewrite checked_multiply_exact by lia. destruct (a * b <=? _) eqn:G1; cbn; [|case_match; [nia|done]].
  rewrite checked_add_exact by nia. destruct (a * b + c <=? _) eqn:G2; cbn; [|case_match; [nia|done]].
  apply align_up_exact; nia.
Qed.

(** The last part: sizes that fit are returned, and nothing else. *)
Lemma cwsr_allocation_exact node control state :
  node_wf node -> cwsr_ready node -> 0 <= control -> 0 <= state < U64_MOD ->
  let context := or_else (node_cwsr_size node) (control + state) in
  let debug := roundup (spec_wave_count node * 32) 64 in
  let layout := mkCwsrLayout context (or_else (node_control_stack_size node) control) debug
    (spec_xcc_count node) (roundup (spec_xcc_count node * (context + debug)) 4096) in
  match cwsr_allocation node (spec_xcc_count node) (spec_wave_count node) control state with
  | inr result => result = layout /\ control + state <= UINT64_MAX /\ layout_fits layout
  | inl status => qst_error status = AqlQueueError.InvalidCwsrLayout /\
      ~ (control + state <= UINT64_MAX /\ layout_fits layout)
  end.
Proof.
  intros Hw Hr Hc Hs context debug layout. destruct (spec_sizes node Hw Hr) as (Hx & _ & _ & Hwave).
  destruct (nw_cwsr _ Hw) as (_ & ? & ?). unfold cwsr_allocation. rewrite checked_add_exact by lia.
  destruct (control + state <=? UINT64_MAX) eqn:G1; [|split; [done|lia]]. cbv zeta.
  replace (if negb (node_cwsr_size node =? 0) then _ else _) with context
    by (unfold context, or_else; by destruct (node_cwsr_size node =? 0)).
  replace (if negb (node_control_stack_size node =? 0) then _ else _)
    with (or_else (node_control_stack_size node) control)
    by (unfold or_else; by destruct (node_control_stack_size node =? 0)).
  set (stack := or_else (node_control_stack_size node) control) in *.
  assert (0 <= context) as Hctx by (unfold context, or_else; case_match; lia).
  assert (0 <= stack) as Hst by (unfold stack, or_else; case_match; lia).
  destruct (roundup_spec (spec_wave_count node * 32) 64) as [Hd _]; [lia|]. fold debug in Hd.
  unfold kCwsrDebugBytesPerWave, kCwsrDebugAlignment. change 64 with (2 ^ 6) at 1.
  rewrite checked_multiply_exact by lia.
  assert (layout_fits layout <-> stack <= UINT32_MAX /\ spec_xcc_count node * context <= UINT32_MAX /\
    spec_xcc_count node * debug <= UINT32_MAX) as Hfits by done.
  destruct (spec_wave_count node * 32 <=? _) eqn:G2; cbn [mbind option_bind];
    [|split; [done|rewrite Hfits; nia]].
  rewrite align_up_exact by lia. change (roundup (spec_wave_count node * 32) (2 ^ 6)) with debug.
  destruct (debug <=? _) eqn:G3; [|split; [done|rewrite Hfits; nia]].
  assert (forall y, y >? UINT32_MAX / spec_xcc_count node = (spec_xcc_count node * y >? UINT32_MAX)) as Hdiv.
  { intros y. pose proof (Z.mul_div_le UINT32_MAX (spec_xcc_count node) ltac:(lia)).
    pose proof (Z.mul_succ_div_gt UINT32_MAX (spec_xcc_count node) ltac:(lia)).
    destruct (y >? _) eqn:E1, (_ * y >? _) eqn:E2; try done; nia. }
  rewrite !Hdiv. destruct (_ || _) eqn:G4; [split; [done|rewrite Hfits; nia]|].
  assert (stack <= UINT32_MAX /\ spec_xcc_count node * context <= UINT32_MAX /\
    spec_xcc_count node * debug <= UINT32_MAX /\ context <= UINT32_MAX /\ debug <= UINT32_MAX) as Hok by lia.
  clear G4. rewrite checked_add_exact by lia.
  destruct (context + debug <=? _) eqn:G5; [|lia]. cbn [mbind option_bind].
  rewrite checked_multiply_exact by lia. rewrite (Z.mul_comm _ (spec_xcc_count node)).
  rewrite Z.mul_add_distr_l in *.
  destruct (spec_xcc_count node * context + _ <=? _) eqn:G6; [|lia].
  change kMemoryPageSize with (2 ^ 12). rewrite align_up_exact by nia.
  destruct (roundup_spec (spec_xcc_count node * context + spec_xcc_count node * debug) (2 ^ 12))
    as [Ha _]; [lia|].
  destruct (roundup _ (2 ^ 12) <=? _) eqn:G7; [|lia]. destruct (roundup _ (2 ^ 12) >? _) eqn:G8; [lia|].
  rewrite !to_u32_small by lia. split; [unfold layout; by rewrite Z.mul_add_distr_l|]. split; [lia|]. rewrite Hfits. lia.
Qed.

(** The checked computation and the exact one. *)
Lemma cwsr_layout_spec node :
  node_wf node ->
  match compute_cwsr_layout node with
  | inr layout => layout = spec_layout node /\ cwsr_ready node /\
      spec_control_stack node + spec_wave_state node <= UINT64_MAX /\ layout_fits layout
  | inl status => qst_error status = AqlQueueError.InvalidCwsrLayout /\
      ~ (cwsr_ready node /\ spec_control_stack node + spec_wave_state node <= UINT64_MAX /\
         layout_fits (spec_layout node))
  end.
Proof.
  intros Hw. pose proof (cwsr_supported_spec node Hw) as Hsup. unfold compute_cwsr_layout. cbv zeta.
  replace (if node_xcc_count node =? 0 then 1 else node_xcc_count node) with (spec_xcc_count node)
    by (unfold spec_xcc_count; destruct (nw_counts _ Hw) as (_ & _ & _ & ?); case_match; lia).
  set (version := packed_gfx_version (node_architecture node)) in *.
  destruct (cwsr_supported _ _ _ _); cbn [negb]; [|split; [done|]; intros [? _]; by apply diff_false_true, Hsup].
  apply proj1 in Hsup. specialize (Hsup eq_refl). rename Hsup into Hr.
  destruct (spec_sizes node Hw Hr) as (Hx & Hu & Hsimd & Hwave).
  pose proof Hr as [_ _ _ Hs Hwv Hl]. destruct (nw_counts _ Hw) as (_ & _ & Hmw & _).
  destruct (nw_cwsr _ Hw) as (Hlds & _ & _). fold (spec_compute_units node).
  rewrite checked_multiply_exact by lia.
  destruct (spec_compute_units node * _ <=? _) eqn:G1; [|lia]. cbn [mbind option_bind].
  rewrite checked_multiply_exact by lia. fold (spec_wave_count node).
  destruct (spec_wave_count node <=? _) eqn:G2; [|unfold spec_wave_count in *; nia].
  rewrite Z.geb_leb. set (per_wave := if 0x0a0100 <=? version then 12 else 8).
  assert (8 <= per_wave <= 12) as Hper by (unfold per_wave; case_match; lia).
  change kMemoryPageSize with (2 ^ 12) in *. rewrite checked_chain by lia.
  set (aligned := roundup (spec_wave_count node * per_wave + (40 + 8)) (2 ^ 12)).
  destruct (roundup_spec (spec_wave_count node * per_wave + (40 + 8)) (2 ^ 12)) as [Hal _]; [lia|].
  destruct (roundup_spec (spec_wave_count node * 32) 64) as [Hdb _]; [lia|].
  fold aligned in Hal. destruct (aligned <=? _) eqn:G3.
  2:{ split; [done|]. intros (_ & _ & _ & _ & Hf). cbn in Hf. nia. }
  assert (spec_control_stack node = if Z.land version 0x3f0000 =? 0x0a0000
    then Z.min aligned kGfx10ControlStackLimit else aligned) as Hstack by done.
  rewrite <-Hstack. assert (0 <= spec_control_stack node <= aligned) as Hc.
  { rewrite Hstack. case_match; unfold kGfx10ControlStackLimit; lia. }
  pose proof (vgpr_size_range version) as [Hvg _]. rewrite Z.shiftl_mul_pow2 by lia.
  unfold kSgprSizePerComputeUnit, kHardwareRegisterSizePerComputeUnit.
  rewrite (u64_add_small _ 0x4000), (u64_add_small _ (_ * 2 ^ 10)), (u64_add_small _ 0x1000) by lia.
  replace (vgpr_size_per_compute_unit version + 0x4000 + node_lds_size_kb node * 2 ^ 10 + 0x1000)
    with (vgpr_size_per_compute_unit version + 0x5000 + node_lds_size_kb node * 1024) by lia.
  rewrite checked_multiply_exact by lia. set (data := spec_compute_units node * _).
  assert (spec_wave_state node = roundup data 4096) as Hst by done.
  destruct (roundup_spec data 4096) as [Hdr _]; [lia|]. rewrite <-Hst in Hdr.
  assert (0 <= data) as Hd0 by (unfold data; nia).
  destruct (data <=? _) eqn:G4; cbn [mbind option_bind]; [|split; [done|lia]].
  rewrite align_up_exact by lia. change (roundup data (2 ^ 12)) with (spec_wave_state node).
  destruct (spec_wave_state node <=? _) eqn:G5; [|split; [done|lia]].
  pose proof (cwsr_allocation_exact node (spec_control_stack node) (spec_wave_state node) Hw Hr
    ltac:(lia) ltac:(lia)) as H. cbv zeta in H.
  fold (spec_layout node) in H. destruct (cwsr_allocation _ _ _ _ _) as [status|layout].
  - destruct H as [H1 H2]. split; [done|]. tauto.
  - destruct H as (-> & H1 & H2). done.
Qed.

(** ** The headers *)

Lemma length_header_bytes header : length (header_bytes header) = 20%nat.
Proof. unfold header_bytes. by rewrite !length_app, !length_le_bytes. Qed.

Section headers.
Context (layout : CwsrLayout) (reason event : Z).

Abbreviation context := (cw_context_save_restore_size layout).
Abbreviation header xcc := (header_bytes (cwsr_header layout reason event xcc)).

(** From [xcc] on, each header is written where its save area begins, and no
    other byte below the first one changes. *)
Lemma write_headers_spec remaining xcc (memory : bytes) :
  20 <= context -> 0 <= xcc -> (xcc + Z.of_nat remaining) * context + 40 <= size_of memory + context ->
  exists memory', write_headers layout reason event remaining xcc memory = Ok memory' /\
    length memory' = length memory /\
    (forall i : nat, Z.of_nat i < xcc * context + 16 -> memory' !! i = memory !! i) /\
    forall j, xcc <= j < xcc + Z.of_nat remaining -> slice memory' (j * context + 16) 20 = header j.
Proof.
  intros Hc. revert xcc memory. induction remaining as [|remaining IH]; intros xcc memory Hx Hs.
  { exists memory. split_and!; [done..|lia]. }
  cbn [write_headers].
  destruct (write_bytes_spec (E := Empty_set) memory (header xcc) (xcc * context + 16)) as (m1 & -> & Hm1);
    [nia|unfold size_of in *; rewrite length_header_bytes; nia|]. cbn [mbind result_bind].
  pose proof Hm1 as [Hlen Hget].
  destruct (IH (xcc + 1) m1) as (m2 & -> & Hlen2 & Hlow & Hhead); [lia|unfold size_of in *; nia|].
  exists m2. split_and!; [done|congruence| |].
  - intros i Hi. rewrite Hlow by nia. rewrite Hget. destruct (_ && _) eqn:G; [lia|done].
  - intros j Hj. destruct (decide (j = xcc)) as [->|Hne]; [|apply Hhead; lia].
    rewrite (slice_ext m2 m1) by (try nia; intros i; unfold covers; intros Hi; apply Hlow; nia).
    pose proof (written_slice _ _ _ (xcc * context + 16) ltac:(nia) Hm1) as H.
    by rewrite length_header_bytes in H.
Qed.
End headers.

Lemma spec_control_stack_nonneg node : 1 <= spec_wave_count node -> 0 <= spec_control_stack node.
Proof.
  intros H. unfold spec_control_stack. cbv zeta. set (per := if _ <=? _ then 12 else 8).
  assert (8 <= per) by (unfold per; case_match; lia).
  destruct (roundup_spec (spec_wave_count node * per + 48) 4096) as [? _]; [lia|]. case_match; nia.
Qed.

Lemma spec_wave_state_large node : node_wf node -> cwsr_ready node -> 40 <= spec_wave_state node.
Proof.
  intros Hw Hr. destruct (spec_sizes node Hw Hr) as (_ & Hu & _ & _).
  pose proof (vgpr_size_range (packed_gfx_version (node_architecture node))) as [Hv _].
  destruct (roundup_spec (spec_compute_units node * (vgpr_size_per_compute_unit
    (packed_gfx_version (node_architecture node)) + 0x5000 + node_lds_size_kb node * 1024)) 4096)
    as [Hws _]; [lia|]. fold (spec_wave_state node) in Hws. pose proof (cr_lds _ Hr). nia.
Qed.

(** For a buffer of the layout's size, [initialize_cwsr] writes inside the
    buffer only. *)
Lemma initialize_cwsr_spec node layout (memory : bytes) reason event :
  node_wf node -> compute_cwsr_layout node = inr layout ->
  node_cwsr_size node = 0 \/ 40 <= node_cwsr_size node ->
  size_of memory = cw_allocation_size layout ->
  exists memory', initialize_cwsr memory layout reason event = Ok memory' /\
    length memory' = length memory /\
    forall xcc, 0 <= xcc < cw_xcc_count layout ->
      let header := cwsr_header layout reason event xcc in
      let start := xcc * cw_context_save_restore_size layout in
      slice memory' (start + 16) 20 = header_bytes header /\
      start + ch_debug_offset header = cw_xcc_count layout * cw_context_save_restore_size layout /\
      ch_debug_size header = cw_xcc_count layout * cw_debug_memory_size layout /\
      start + ch_debug_offset header + ch_debug_size header <= size_of memory.
Proof.
  intros Hw Hcomp Hcwsr Hsize. pose proof (cwsr_layout_spec node Hw) as H. rewrite Hcomp in H.
  destruct H as (Hl & Hr & _ & Hf). destruct (spec_sizes node Hw Hr) as (Hx & Hu & _ & Hwave).
  destruct Hf as (_ & Hf1 & Hf2).
  destruct (roundup_spec (spec_wave_count node * 32) 64) as [Hd _]; [lia|].
  assert (cw_xcc_count layout = spec_xcc_count node) as Hxc by by rewrite Hl.
  assert (64 <= spec_wave_count node * 32 + 63) by lia.
  assert (32 <= cw_debug_memory_size layout) as Hdebug by (rewrite Hl; cbn [cw_debug_memory_size spec_layout]; lia).
  assert (40 <= cw_context_save_restore_size layout) as Hctx.
  { rewrite Hl. cbn [spec_layout cw_context_save_restore_size]. unfold or_else.
    pose proof (spec_control_stack_nonneg node Hwave). pose proof (spec_wave_state_large node Hw Hr).
    destruct (Z.eqb_spec (node_cwsr_size node) 0); lia. }
  assert (cw_xcc_count layout * (cw_context_save_restore_size layout + cw_debug_memory_size layout) <=
    size_of memory) as Hfit.
  { rewrite Hsize, Hl. cbn [spec_layout cw_allocation_size cw_xcc_count cw_context_save_restore_size
      cw_debug_memory_size]. apply roundup_spec. lia. }
  rewrite <-Hxc in *. unfold initialize_cwsr.
  destruct (write_bytes_spec (E := Empty_set) memory (replicate (Z.to_nat (cw_allocation_size layout)) x00) 0)
    as (m0 & Hm0 & [Hlen0 _]); [lia|unfold size_of in *; rewrite length_replicate; lia|].
  unfold write_zeros. rewrite Hm0. cbn [mbind result_bind].
  destruct (write_headers_spec layout reason event (Z.to_nat (cw_xcc_count layout)) 0 m0)
    as (m1 & -> & Hlen1 & _ & Hh); [lia|lia|unfold size_of in *; rewrite Hlen0; nia|].
  exists m1. split_and!; [done|congruence|]. intros xcc Hxcc.
  set (header := cwsr_header layout reason event xcc).
  set (start := xcc * cw_context_save_restore_size layout).
  assert (ch_debug_offset header = (cw_xcc_count layout - xcc) * cw_context_save_restore_size layout) as Ho.
  { unfold header, cwsr_header. cbn. rewrite (to_u32_small (_ - _)) by lia. apply to_u32_small. nia. }
  assert (ch_debug_size header = cw_xcc_count layout * cw_debug_memory_size layout) as Hds.
  { unfold header, cwsr_header. cbn. rewrite to_u32_small; nia. }
  rewrite Ho, Hds. split_and!; [apply Hh; lia|unfold start; nia|done|unfold start; nia].
Qed.

(** The save area is part of the allocation, which has a 64-bit size. *)
Lemma cwsr_layout_covers node layout :
  node_wf node -> compute_cwsr_layout node = inr layout ->
  0 <= cw_context_save_restore_size layout <= cw_allocation_size layout /\ is_u64 (cw_allocation_size layout).
Proof.
  intros Hw Hcomp. pose proof (cwsr_layout_spec node Hw) as H. rewrite Hcomp in H.
  destruct H as (Hl & Hr & _ & Hf). destruct (spec_sizes node Hw Hr) as (Hx & _ & _ & Hwave).
  destruct Hf as (_ & Hf1 & Hf2). destruct (nw_cwsr _ Hw) as (_ & Hn & _).
  destruct (roundup_spec (spec_wave_count node * 32) 64) as [Hd _]; [lia|].
  assert (0 <= cw_context_save_restore_size layout) as Hc.
  { rewrite Hl. cbn [spec_layout cw_context_save_restore_size]. unfold or_else.
    pose proof (spec_control_stack_nonneg node Hwave). pose proof (spec_wave_state_large node Hw Hr).
    case_match; lia. }
  rewrite Hl in Hc, Hf1, Hf2 |- *. cbn [spec_layout cw_allocation_size cw_xcc_count cw_context_save_restore_size
    cw_debug_memory_size] in *.
  set (context := or_else _ _) in *. set (debug := roundup (_ * 32) 64) in *.
  destruct (roundup_spec (spec_xcc_count node * (context + debug)) 4096) as [Ha _]; [lia|]. nia.
Qed.

(** The context save area is computed exactly and set up inside its
    memory.  For a node as the topology reader makes it,
    [compute_cwsr_layout] succeeds exactly when the topology is complete and
    of a supported generation, the derived size fits 64 bits, and the sizes,
    over all compute dies, fit the 32-bit fields of the driver's interface;
    the result is then the layout of exact arithmetic, and in every other case
    the error is [InvalidCwsrLayout].  For a buffer of the layout's size (the
    save area of a die being derived, or at least 40 bytes when the driver
    states it) [initialize_cwsr] writes inside the buffer only; each die's
    header is where its save area begins, and the debugger's window it names
    (an offset from the header, computed in 32 bits) is the same for all
    dies: behind the last save area, inside the buffer. *)
Theorem cwsr_area_exact node :
  node_wf node ->
  match compute_cwsr_layout node with
  | inl status => qst_error status = AqlQueueError.InvalidCwsrLayout /\
      ~ (cwsr_ready node /\ spec_control_stack node + spec_wave_state node <= UINT64_MAX /\
         layout_fits (spec_layout node))
  | inr layout => layout = spec_layout node /\ cwsr_ready node /\ layout_fits layout /\
      (node_cwsr_size node = 0 \/ 40 <= node_cwsr_size node -> forall (memory : bytes) reason event,
       size_of memory = cw_allocation_size layout ->
       exists memory', initialize_cwsr memory layout reason event = Ok memory' /\
         length memory' = length memory /\
         forall xcc, 0 <= xcc < cw_xcc_count layout ->
           let header := cwsr_header layout reason event xcc in
           let start := xcc * cw_context_save_restore_size layout in
           slice memory' (start + 16) 20 = header_bytes header /\
           start + ch_debug_offset header = cw_xcc_count layout * cw_context_save_restore_size layout /\
           ch_debug_size header = cw_xcc_count layout * cw_debug_memory_size layout /\
           start + ch_debug_offset header + ch_debug_size header <= size_of memory)
  end.
Proof.
  intros Hw. pose proof (cwsr_layout_spec node Hw) as H. destruct (compute_cwsr_layout node) as [status|layout] eqn:Hc.
  - done.
  - destruct H as (Hl & Hr & _ & Hf). split_and!; [done..|]. intros Hs memory reason event Hm.
    by eapply initialize_cwsr_spec.
Qed.
