(* ===== verification/KfdQueue.v ===== *)
(** * KFD queues

    [transport/kfd/queue.cpp]: the queue object and its doorbell, the error
    event, and the session's method that puts a queue together from memory,
    scratch, an event and the driver's queue, and the owner that takes it
    apart. *)

From stdpp Require Import gmap fin_maps pretty.
From S2P Require Import Prelude Memory CodeObject Topology Scratch KfdKernel KfdMemory ScratchPool KfdVm KfdSession CwsrLayout.

Import MemoryAllocationUsage.

Definition kAqlPacketSize : Z := 64.
Definition kAqlRingMinimumSize : Z := 4096.
Definition kAqlRingMaximumSize : Z := 131072 * kAqlPacketSize.
Definition kAqlInvalidPacketHeader : Z := 1.
Definition kEopBufferSize : Z := kMemoryPageSize.
(** [KFD_SIGNAL_EVENT_LIMIT * sizeof(uint64_t)] *)
Definition kEventPageSize : Z := 4096 * 8.
(** [sizeof(runtime::AmdQueueV1)] *)
Definition kQueueErrorReasonOffset : Z := 256.
Definition kDoorbellCount : Z := 1024.
Definition kNormalQueuePriority : Z := 7.
Definition KFD_IOC_QUEUE_TYPE_COMPUTE_AQL : Z := 2.
Definition KFD_MAX_QUEUE_PERCENTAGE : Z := 100.
Definition KFD_IOC_EVENT_SIGNAL : Z := 0.

Definition aql_queue_error_name (error : AqlQueueError.t) : string :=
  match error with
  | AqlQueueError.None => "none"
  | AqlQueueError.InvalidSession => "invalid_session"
  | AqlQueueError.InvalidNode => "invalid_node"
  | AqlQueueError.InvalidRingSize => "invalid_ring_size"
  | AqlQueueError.AcquireVm => "acquire_vm"
  | AqlQueueError.AllocateState => "allocate_state"
  | AqlQueueError.AllocateRing => "allocate_ring"
  | AqlQueueError.AllocateControl => "allocate_control"
  | AqlQueueError.AllocateEop => "allocate_eop"
  | AqlQueueError.InvalidCwsrLayout => "invalid_cwsr_layout"
  | AqlQueueError.AllocateCwsr => "allocate_cwsr"
  | AqlQueueError.AllocateDoorbell => "allocate_doorbell"
  | AqlQueueError.AllocateErrorEventPage => "allocate_error_event_page"
  | AqlQueueError.CreateErrorEvent => "create_error_event"
  | AqlQueueError.AllocateTrapHandler => "allocate_trap_handler"
  | AqlQueueError.ConfigureTrapHandler => "configure_trap_handler"
  | AqlQueueError.ConfigureScratch => "configure_scratch"
  | AqlQueueError.AllocateScratch => "allocate_scratch"
  | AqlQueueError.CreateQueue => "create_queue"
  | AqlQueueError.InvalidDoorbell => "invalid_doorbell"
  | AqlQueueError.MapDoorbell => "map_doorbell"
  | AqlQueueError.DestroyQueue => "destroy_queue"
  | AqlQueueError.DestroyErrorEvent => "destroy_error_event"
  | AqlQueueError.UnmapDoorbell => "unmap_doorbell"
  | AqlQueueError.ReleaseEop => "release_eop"
  | AqlQueueError.ReleaseCwsr => "release_cwsr"
  | AqlQueueError.ReleaseDoorbell => "release_doorbell"
  | AqlQueueError.ReleaseScratch => "release_scratch"
  | AqlQueueError.ReleaseControl => "release_control"
  | AqlQueueError.ReleaseRing => "release_ring"
  end.

(** ** The contents of the queue's memory *)

Definition write_header (memory : bytes) (offset : Z) : result Empty_set bytes :=
  write_bytes memory offset (le_bytes 2 kAqlInvalidPacketHeader).

(** [for (offset = ...; offset < size; offset += kAqlPacketSize)], with as many
    rounds as there are packets. *)
Fixpoint write_packet_headers (rounds : nat) (memory : bytes) (offset size : Z) : result Empty_set bytes :=
  match rounds with
  | O => Ok memory
  | S rounds =>
      if offset <? size then
        memory ← write_header memory offset;
        write_packet_headers rounds memory (offset + kAqlPacketSize) size
      else Ok memory
  end.

Definition initialize_ring (memory : bytes) (size : Z) : result Empty_set bytes :=
  memory ← write_zeros memory 0 size;
  write_packet_headers (S (Z.to_nat (size / kAqlPacketSize))) memory 0 size.

(** The fields of [AmdQueueV1] that are not zero in a new queue. *)
Record AmdQueueFields := mkAmdQueueFields {
  af_type : Z;
  af_features : Z;
  af_base_address : Z;
  af_size : Z;
  af_id : Z;
  af_group_segment_aperture_base_hi : Z;
  af_private_segment_aperture_base_hi : Z;
  af_max_cu_id : Z;
  af_max_wave_id : Z;
  af_read_dispatch_id_field_base_byte_offset : Z;
  af_scratch : QueueScratchControl;
  af_queue_properties : Z
}.

Definition kHsaQueueTypeMulti : Z := 0.
Definition kHsaQueueFeatureKernelDispatch : Z := 1.
Definition kAmdQueuePropertyIsPointer64 : Z := Z.shiftl 1 1.
Definition kReadDispatchIdOffset : Z := 128.
Definition kWriteDispatchIdOffset : Z := 56.

(** The 256 bytes of the control block. *)
Definition amd_queue_bytes (f : AmdQueueFields) : bytes :=
  let '(word0, word1, word2, word3) := sc_resource_descriptor (af_scratch f) in
  le_bytes 4 (af_type f) ++ le_bytes 4 (af_features f) ++ le_bytes 8 (af_base_address f) ++
  le_bytes 8 0 ++ le_bytes 4 (af_size f) ++ le_bytes 4 0 ++ le_bytes 8 (af_id f) ++
  le_bytes 16 0 ++ le_bytes 8 0 ++
  le_bytes 4 (af_group_segment_aperture_base_hi f) ++ le_bytes 4 (af_private_segment_aperture_base_hi f) ++
  le_bytes 4 (af_max_cu_id f) ++ le_bytes 4 (af_max_wave_id f) ++ le_bytes 48 0 ++
  le_bytes 8 0 ++ le_bytes 4 (af_read_dispatch_id_field_base_byte_offset f) ++
  le_bytes 4 (sc_compute_tmpring_size (af_scratch f)) ++
  le_bytes 4 word0 ++ le_bytes 4 word1 ++ le_bytes 4 word2 ++ le_bytes 4 word3 ++
  le_bytes 8 (sc_backing_memory_location (af_scratch f)) ++
  le_bytes 8 (sc_backing_memory_byte_size (af_scratch f)) ++
  le_bytes 4 (sc_wave64_lane_byte_size (af_scratch f)) ++ le_bytes 4 (af_queue_properties f) ++
  le_bytes 72 0.

(** [memset], then the control block at the beginning. *)
Definition initialize_control (memory : bytes) (size : Z) (fields : AmdQueueFields)
  : result Empty_set bytes :=
  memory ← write_zeros memory 0 size; write_bytes memory 0 (amd_queue_bytes fields).

(** ** The driver's queue and its doorbell *)

Record RawAqlQueue := mkRawQueue {
  rq_queue_id : Z;
  rq_doorbell_mapping : Z;
  rq_doorbell_mapping_size : Z;
  rq_doorbell_address : Z;
  rq_active : bool
}.

(** [RawAqlQueue{}] *)
Definition no_queue : RawAqlQueue := mkRawQueue 0 0 0 0 false.

Record RawQueueErrorEvent := mkErrorEvent {
  ev_event_id : Z;
  ev_active : bool
}.

Definition no_event : RawQueueErrorEvent := mkErrorEvent 0 false.

Record AqlQueueCreateInfo := mkCreateInfo {
  ci_gpu_id : Z;
  ci_ring_address : Z;
  ci_ring_size : Z;
  ci_read_pointer_address : Z;
  ci_write_pointer_address : Z;
  ci_eop_buffer_address : Z;
  ci_eop_buffer_size : Z;
  ci_context_save_restore_address : Z;
  ci_context_save_restore_size : Z;
  ci_control_stack_size : Z;
  ci_doorbell_size : Z;
  ci_doorbell_mapping_address : Z
}.

Definition queue_arguments_of (info : AqlQueueCreateInfo) : queue_arguments :=
  mkQueueArguments (ci_ring_address info) (ci_write_pointer_address info) (ci_read_pointer_address info)
    (to_u32 (ci_ring_size info)) (ci_gpu_id info) KFD_IOC_QUEUE_TYPE_COMPUTE_AQL KFD_MAX_QUEUE_PERCENTAGE
    kNormalQueuePriority (ci_eop_buffer_address info) (ci_eop_buffer_size info)
    (ci_context_save_restore_address info) (ci_context_save_restore_size info) (ci_control_stack_size info).

Definition valid_ring_size (ring_size : Z) : bool :=
  negb ((ring_size <? kAqlRingMinimumSize) || (ring_size >? kAqlRingMaximumSize) ||
    negb (is_power_of_two ring_size)).

(** [memcpy] between [uint64_t] and [off_t] keeps the bits. *)
Definition off_t_of (offset : Z) : Z := to_i64 offset.

Section raw.
Context {W : Type} `{!Kernel W}.

Definition queue_system_failure (error : AqlQueueError.t) (system_error : Z) (operation : string)
  : AqlQueueStatus :=
  mkQueueStatus error system_error
    (operation +:+ " failed: " +:+ k_strerror system_error +:+ " (" +:+ pretty system_error +:+ ")").

Definition allocation_failure (error : AqlQueueError.t) (status : MemoryStatus) (allocation_name : string)
  : AqlQueueStatus :=
  mkQueueStatus error (ms_system_error status)
    (allocation_name +:+ " allocation failed: " +:+ ms_message status).

Definition append_queue_cleanup (status cleanup : AqlQueueStatus) : AqlQueueStatus :=
  if queue_status_ok cleanup then status
  else mkQueueStatus (qst_error status) (qst_system_error status)
         (qst_message status +:+ "; cleanup failed: " +:+ qst_message cleanup).

(** [munmap] of the doorbell page, after which the queue is forgotten. *)
Definition unmap_doorbell (queue : RawAqlQueue) : kfd W (AqlQueueStatus * RawAqlQueue) :=
  if rq_doorbell_mapping queue =? 0 then
    give (queue_ok, mkRawQueue 0 0 (rq_doorbell_mapping_size queue) (rq_doorbell_address queue)
      (rq_active queue))
  else
    errno ← sys_munmap (rq_doorbell_mapping queue) (rq_doorbell_mapping_size queue);
    if negb (errno =? 0) then
      give (queue_system_failure AqlQueueError.UnmapDoorbell errno "munmap(KFD AQL doorbell)", queue)
    else give (queue_ok, mkRawQueue 0 0 0 0 (rq_active queue)).

Definition release_aql_queue (kfd_fd : Z) (queue : RawAqlQueue) : kfd W (AqlQueueStatus * RawAqlQueue) :=
  if negb (rq_active queue) && (rq_doorbell_mapping queue =? 0) then give (queue_ok, queue)
  else if negb valid_syscalls || (rq_active queue && (kfd_fd <? 0)) then
    give (queue_failure AqlQueueError.InvalidSession "AQL queue release requires an open KFD session",
      queue)
  else if rq_active queue then
    reply ← invoke_ioctl kfd_fd (DESTROY_QUEUE (rq_queue_id queue));
    if negb (rp_errno reply =? 0) then
      give (queue_system_failure AqlQueueError.DestroyQueue (rp_errno reply) "AMDKFD_IOC_DESTROY_QUEUE",
        queue)
    else
      unmap_doorbell (mkRawQueue (rq_queue_id queue) (rq_doorbell_mapping queue)
        (rq_doorbell_mapping_size queue) (rq_doorbell_address queue) false)
  else unmap_doorbell queue.

(** A failure after the driver made the queue. *)
Definition abandon_queue (status : AqlQueueStatus) (kfd_fd : Z) (queue : RawAqlQueue)
  : kfd W (AqlQueueStatus * RawAqlQueue) :=
  '(cleanup, queue) ← release_aql_queue kfd_fd queue;
  give (append_queue_cleanup status cleanup, queue).

(** The doorbell of the queue the driver made. *)
Definition map_doorbell (kfd_fd : Z) (info : AqlQueueCreateInfo) (queue_id doorbell_word : Z)
  : kfd W (AqlQueueStatus * RawAqlQueue) :=
  let mapping_size := Z.max kMemoryPageSize (u64_mul kDoorbellCount (ci_doorbell_size info)) in
  let mask := mapping_size - 1 in
  let mapping_offset := Z.land doorbell_word (UINT64_MAX - mask) in
  let doorbell_offset := Z.land doorbell_word mask in
  let created := mkRawQueue queue_id 0 mapping_size 0 true in
  if (doorbell_offset >? u64_sub mapping_size (ci_doorbell_size info)) || (mapping_size >? UINT64_MAX) then
    abandon_queue (queue_failure AqlQueueError.InvalidDoorbell
      ("KFD returned invalid AQL doorbell offset " +:+ pretty doorbell_word +:+ " for mapping size " +:+
       pretty mapping_size)) kfd_fd created
  else
  mapped ← sys_mmap (mkMmapArguments (ci_doorbell_mapping_address info) mapping_size
    (Z.lor PROT_READ PROT_WRITE) (Z.lor MAP_SHARED MAP_FIXED) kfd_fd (off_t_of mapping_offset));
  match mapped with
  | inl errno =>
      abandon_queue (queue_system_failure AqlQueueError.MapDoorbell errno "mmap(KFD AQL doorbell)")
        kfd_fd created
  | inr mapping =>
      let queue := mkRawQueue queue_id mapping mapping_size (u64_add mapping doorbell_offset) true in
      errno ← sys_madvise mapping mapping_size MADV_DONTFORK;
      if negb (errno =? 0) then
        abandon_queue (queue_system_failure AqlQueueError.MapDoorbell errno "madvise(KFD AQL doorbell)")
          kfd_fd queue
      else give (queue_ok, queue)
  end.

Definition create_aql_queue (kfd_fd : Z) (info : AqlQueueCreateInfo)
  : kfd W (AqlQueueStatus * RawAqlQueue) :=
  if (kfd_fd <? 0) || negb valid_syscalls then
    give (queue_failure AqlQueueError.InvalidSession "AQL queue creation requires an open KFD session",
      no_queue)
  else if (ci_gpu_id info =? 0) || (ci_ring_address info =? 0) || (ci_read_pointer_address info =? 0) ||
    (ci_write_pointer_address info =? 0) || (ci_eop_buffer_address info =? 0) ||
    (ci_eop_buffer_size info =? 0) || (ci_context_save_restore_address info =? 0) ||
    (ci_context_save_restore_size info =? 0) || (ci_control_stack_size info =? 0) then
    give (queue_failure AqlQueueError.InvalidNode
      "AQL queue creation requires valid GPU resource addresses", no_queue)
  else if negb (valid_ring_size (ci_ring_size info)) || (ci_ring_size info >? UINT32_MAX) then
    give (queue_failure AqlQueueError.InvalidRingSize
      "AQL ring size must be a power of two from 4096 through 8388608", no_queue)
  else if negb (ci_doorbell_size info =? 4) && negb (ci_doorbell_size info =? 8) then
    give (queue_failure AqlQueueError.InvalidDoorbell "AQL queue requires a 4-byte or 8-byte doorbell",
      no_queue)
  else if ci_doorbell_mapping_address info =? 0 then
    give (queue_failure AqlQueueError.InvalidDoorbell
      "AQL queue requires reserved GPUVM doorbell storage", no_queue)
  else
  reply ← invoke_ioctl kfd_fd (CREATE_QUEUE (queue_arguments_of info));
  if negb (rp_errno reply =? 0) then
    give (queue_system_failure AqlQueueError.CreateQueue (rp_errno reply) "AMDKFD_IOC_CREATE_QUEUE",
      no_queue)
  else map_doorbell kfd_fd info (rp_queue_id reply) (rp_doorbell_offset reply).

(** ** The error event *)

Definition create_queue_error_event (kfd_fd event_page_handle : Z)
  : kfd W (AqlQueueStatus * RawQueueErrorEvent) :=
  if (kfd_fd <? 0) || negb valid_syscalls then
    give (queue_failure AqlQueueError.InvalidSession
      "queue error event creation requires an open KFD session", no_event)
  else
  reply ← invoke_ioctl kfd_fd (CREATE_EVENT event_page_handle KFD_IOC_EVENT_SIGNAL 0);
  if negb (rp_errno reply =? 0) then
    give (queue_system_failure AqlQueueError.CreateErrorEvent (rp_errno reply) "AMDKFD_IOC_CREATE_EVENT",
      no_event)
  else give (queue_ok, mkErrorEvent (rp_event_id reply) true).

Definition release_queue_error_event (kfd_fd : Z) (event : RawQueueErrorEvent)
  : kfd W (AqlQueueStatus * RawQueueErrorEvent) :=
  if negb (ev_active event) then give (queue_ok, event)
  else if (kfd_fd <? 0) || negb valid_syscalls then
    give (queue_failure AqlQueueError.InvalidSession
      "queue error event release requires an open KFD session", event)
  else
  reply ← invoke_ioctl kfd_fd (DESTROY_EVENT (ev_event_id event));
  if negb (rp_errno reply =? 0) then
    give (queue_system_failure AqlQueueError.DestroyErrorEvent (rp_errno reply)
      "AMDKFD_IOC_DESTROY_EVENT", event)
  else give (queue_ok, no_event).
End raw.

(** ** The queue of a session *)

(** [AqlQueueState], with the bytes its memory was set up with (ring, control
    page, context save area).  [kq_session] is whether [session] is set. *)
Record KfdQueueState := mkKfdQueue {
  kq_gpu_id : Z;
  kq_ring : option MemoryAllocation;
  kq_control : option MemoryAllocation;
  kq_eop : option MemoryAllocation;
  kq_cwsr : option MemoryAllocation;
  kq_doorbell : option MemoryAllocation;
  kq_scratch : option ScratchAllocation;
  kq_ring_size : Z;
  kq_private_segment_size : Z;
  kq_queue : RawAqlQueue;
  kq_error_event : RawQueueErrorEvent;
  kq_contents : bytes * bytes * bytes
}.

Definition new_queue (gpu_id ring_size private_segment_size : Z) : KfdQueueState :=
  mkKfdQueue gpu_id None None None None None None ring_size private_segment_size no_queue no_event
    ([], [], []).

Definition has_memory (a : option MemoryAllocation) : bool :=
  match a with Some a => owns_memory a | None => false end.

Definition has_scratch (a : option ScratchAllocation) : bool :=
  match a with Some a => sa_pool_range_owned a | None => false end.

Definition owns_resources (q : KfdQueueState) : bool :=
  rq_active (kq_queue q) || negb (rq_doorbell_mapping (kq_queue q) =? 0) || ev_active (kq_error_event q) ||
  has_memory (kq_ring q) || has_memory (kq_control q) || has_memory (kq_eop q) || has_memory (kq_cwsr q) ||
  has_memory (kq_doorbell q) || has_scratch (kq_scratch q).

(** The parts of the state, in the order of creation. *)
Definition set_error_event q v := mkKfdQueue (kq_gpu_id q) (kq_ring q) (kq_control q) (kq_eop q) (kq_cwsr q)
  (kq_doorbell q) (kq_scratch q) (kq_ring_size q) (kq_private_segment_size q) (kq_queue q) v (kq_contents q).
Definition set_scratch q v := mkKfdQueue (kq_gpu_id q) (kq_ring q) (kq_control q) (kq_eop q) (kq_cwsr q)
  (kq_doorbell q) v (kq_ring_size q) (kq_private_segment_size q) (kq_queue q) (kq_error_event q) (kq_contents q).
Definition set_ring q v := mkKfdQueue (kq_gpu_id q) v (kq_control q) (kq_eop q) (kq_cwsr q)
  (kq_doorbell q) (kq_scratch q) (kq_ring_size q) (kq_private_segment_size q) (kq_queue q) (kq_error_event q)
  (kq_contents q).
Definition set_control q v := mkKfdQueue (kq_gpu_id q) (kq_ring q) v (kq_eop q) (kq_cwsr q)
  (kq_doorbell q) (kq_scratch q) (kq_ring_size q) (kq_private_segment_size q) (kq_queue q) (kq_error_event q)
  (kq_contents q).
Definition set_eop q v := mkKfdQueue (kq_gpu_id q) (kq_ring q) (kq_control q) v (kq_cwsr q)
  (kq_doorbell q) (kq_scratch q) (kq_ring_size q) (kq_private_segment_size q) (kq_queue q) (kq_error_event q)
  (kq_contents q).
Definition set_cwsr q v := mkKfdQueue (kq_gpu_id q) (kq_ring q) (kq_control q) (kq_eop q) v
  (kq_doorbell q) (kq_scratch q) (kq_ring_size q) (kq_private_segment_size q) (kq_queue q) (kq_error_event q)
  (kq_contents q).
Definition set_doorbell q v := mkKfdQueue (kq_gpu_id q) (kq_ring q) (kq_control q) (kq_eop q) (kq_cwsr q)
  v (kq_scratch q) (kq_ring_size q) (kq_private_segment_size q) (kq_queue q) (kq_error_event q) (kq_contents q).
Definition set_queue q v := mkKfdQueue (kq_gpu_id q) (kq_ring q) (kq_control q) (kq_eop q) (kq_cwsr q)
  (kq_doorbell q) (kq_scratch q) (kq_ring_size q) (kq_private_segment_size q) v (kq_error_event q) (kq_contents q).
Definition set_contents q v := mkKfdQueue (kq_gpu_id q) (kq_ring q) (kq_control q) (kq_eop q) (kq_cwsr q)
  (kq_doorbell q) (kq_scratch q) (kq_ring_size q) (kq_private_segment_size q) (kq_queue q) (kq_error_event q) v.

(** [queue_state->owns_resources() ? AqlQueue(std::move(queue_state)) : AqlQueue{}] *)
Definition owner_or_none (q : KfdQueueState) : option KfdQueueState :=
  if owns_resources q then Some q else None.

(** The result: the status, the queue, and the session afterwards. *)
Abbreviation queue_result := (AqlQueueStatus * option KfdQueueState * KfdState)%type.

Definition scratch_gpu_address (owner : option ScratchAllocation) : Z :=
  match owner with
  | Some owner => if sa_gpu_mapped owner then sa_gpu_address owner else 0
  | None => 0
  end.

Definition memory_gpu_address (owner : option MemoryAllocation) : Z :=
  match owner with Some owner => gpu_address owner | None => 0 end.

Definition memory_host_address (owner : option MemoryAllocation) : Z :=
  match owner with Some owner => ra_host_address (ma_raw owner) | None => 0 end.

Definition memory_size (owner : option MemoryAllocation) : Z :=
  match owner with Some owner => ra_size (ma_raw owner) | None => 0 end.

Section session.
Context {W : Type} `{!Kernel W}.

(** A method of the session, on its open state. *)
Definition allocate_part (state : KfdState) (node : Node) (size : Z) (dri_root : string)
    (usage : MemoryAllocationUsage.t) : kfd W (MemoryStatus * MemoryAllocation * KfdState) :=
  '(status, owner, session) ← allocate_memory_impl (Some state) node size dri_root usage;
  give (status, owner, default state session).

(** Writing the memory of the process; a write outside of it is a fault. *)
Definition write_memory (r : result Empty_set bytes) : kfd W bytes :=
  fun w => match r with Ok b => Ok (b, w) | Err e => Err e | Fault f => Fault f end.

(** The memory of an allocation before anything is written to it: whatever is
    found there. *)
Definition buffer_of (owner : MemoryAllocation) : kfd W bytes := fun w =>
  Ok ((fun i => k_byte (ra_host_address (ma_raw owner) + i) w) <$> seqZ 0 (ra_size (ma_raw owner)), w).

(** The code of the trap handler is generated; its size is what matters. *)
Context (trap_handler_code : bytes).

(** The first part: the trap handler of the GPU, once per session. *)
Definition configure_trap_handler (state : KfdState) (node : Node) (dri_root : string)
  : kfd W (AqlQueueStatus * bool * KfdState) :=
  let configured state :=
    negb (ks_exception_debugging_enabled state) ||
    match ks_device_vms state !! node_gpu_id node with
    | Some device => dv_trap_handler_configured device
    | None => false
    end in
  if configured state then give (queue_ok, true, state)
  else
  '(status, owner, state) ← allocate_part state node kMemoryPageSize dri_root TrapHandler;
  if negb (status_ok status) then
    (* the destructor of the result *)
    _ ← memory_release (ks_fd state) owner;
    give (mkQueueStatus AqlQueueError.AllocateTrapHandler (ms_system_error status)
      ("gfx11 trap handler allocation failed: " +:+ ms_message status), true, state)
  else
  buffer ← buffer_of owner;
  _ ← write_memory (write_bytes buffer 0 trap_handler_code);
  match ks_device_vms state !! node_gpu_id node with
  | None =>
      _ ← memory_release (ks_fd state) owner;
      give (queue_failure AqlQueueError.ConfigureTrapHandler
        "acquired KFD VM state is unavailable for trap handler", false, state)
  | Some device =>
      if dv_trap_handler_configured device then
        _ ← memory_release (ks_fd state) owner; give (queue_ok, true, state)
      else
      reply ← invoke_ioctl (ks_fd state) (SET_TRAP_HANDLER (gpu_address owner) (node_gpu_id node));
      if negb (rp_errno reply =? 0) then
        _ ← memory_release (ks_fd state) owner;
        give (queue_system_failure AqlQueueError.ConfigureTrapHandler (rp_errno reply)
          "AMDKFD_IOC_SET_TRAP_HANDLER", false, state)
      else
        give (queue_ok, true, set_device state (node_gpu_id node)
          (mkDeviceVm (dv_render_fd device) (dv_drm_render_minor device) (dv_acquired device)
             (dv_memory_policy_configured device) (dv_aperture_valid device) (dv_aperture device)
             (dv_scratch_pool device) (Some (ma_raw owner)) true))
  end.

(** The second part: the page of event slots, once per session. *)
Definition ensure_event_page (state : KfdState) (node : Node) (dri_root : string)
  : kfd W (AqlQueueStatus * bool * KfdState) :=
  if negb (ks_exception_debugging_enabled state && bool_decide (ks_queue_event_page state = None)) then
    give (queue_ok, true, state)
  else
  '(status, owner, state) ← allocate_part state node kEventPageSize dri_root General;
  if negb (status_ok status) then
    _ ← memory_release (ks_fd state) owner;
    give (mkQueueStatus AqlQueueError.AllocateErrorEventPage (ms_system_error status)
      ("queue error event page allocation failed: " +:+ ms_message status), true, state)
  else
  allocated ← sys_new;
  if negb allocated then
    _ ← memory_release (ks_fd state) owner;
    give (queue_failure AqlQueueError.AllocateErrorEventPage
      "failed to allocate queue error event page state", false, state)
  else
  let handle := ra_handle (ma_raw owner) in
  if bool_decide (ks_queue_event_page state = None) then
    give (queue_ok, true, set_event_page state (Some (mkEventPage (ma_raw owner) handle false)))
  else _ ← memory_release (ks_fd state) owner; give (queue_ok, true, state).

(** The third part: an event of the queue's own. *)
Definition create_error_event (state : KfdState)
  : kfd W (AqlQueueStatus * RawQueueErrorEvent * KfdState) :=
  if negb (ks_exception_debugging_enabled state) then give (queue_ok, no_event, state)
  else
  match ks_queue_event_page state with
  | None => fun _ => Fault OutOfBounds
  | Some page =>
      let handle := if ep_registered page then 0 else ep_handle page in
      '(status, event) ← create_queue_error_event (ks_fd state) handle;
      give (status, event,
        if queue_status_ok status
        then set_event_page state (Some (mkEventPage (ep_allocation page) (ep_handle page) true))
        else state)
  end.

(** The memory of the queue, one allocation after the other. *)
Definition next_part (state : KfdState) (node : Node) (size : Z) (dri_root : string)
    (usage : MemoryAllocationUsage.t) (q : KfdQueueState)
    (set : KfdQueueState -> option MemoryAllocation -> KfdQueueState) (error : AqlQueueError.t) (name : string)
    (only_if_owning : bool) (k : MemoryAllocation -> KfdQueueState -> KfdState -> kfd W queue_result)
  : kfd W queue_result :=
  '(status, owner, state') ← allocate_part state node size dri_root usage;
  let q' := set q (Some owner) in
  if negb (status_ok status) then
    give (allocation_failure error status name, if only_if_owning then owner_or_none q' else Some q', state')
  else k owner q' state'.

(** Everything the control block says. *)
Definition control_fields (node : Node) (ring_address ring_size hsa_queue_id maximum_wave_id : Z)
    (aperture : ProcessAperture) (scratch : QueueScratchControl) : AmdQueueFields :=
  mkAmdQueueFields kHsaQueueTypeMulti kHsaQueueFeatureKernelDispatch ring_address
    (to_u32 (ring_size / kAqlPacketSize)) hsa_queue_id
    (to_u32 (Z.shiftr (ap_lds_base aperture) 32)) (to_u32 (Z.shiftr (ap_scratch_base aperture) 32))
    (to_u32 (compute_unit_count node - 1)) (to_u32 (maximum_wave_id - 1)) kReadDispatchIdOffset scratch
    kAmdQueuePropertyIsPointer64.

Definition create_info (node : Node) (ring_size : Z) (layout : CwsrLayout) (q : KfdQueueState)
  : AqlQueueCreateInfo :=
  let control := memory_gpu_address (kq_control q) in
  mkCreateInfo (node_gpu_id node) (memory_gpu_address (kq_ring q)) ring_size
    (u64_add control kReadDispatchIdOffset) (u64_add control kWriteDispatchIdOffset)
    (memory_gpu_address (kq_eop q)) (memory_size (kq_eop q)) (memory_gpu_address (kq_cwsr q))
    (cw_context_save_restore_size layout) (cw_control_stack_size layout)
    (if arch_major (node_architecture node) >=? 9 then 8 else 4) (memory_host_address (kq_doorbell q)).

(** The last part: the driver's queue, on memory that is set up. *)
Definition start_queue (state : KfdState) (node : Node) (ring_size : Z) (layout : CwsrLayout)
    (q : KfdQueueState) : kfd W queue_result :=
  '(created, queue) ← create_aql_queue (ks_fd state) (create_info node ring_size layout q);
  let q := set_queue q queue in
  if negb (queue_status_ok created) then give (created, Some q, state)
  else
  match kq_doorbell q with
  | None => fun _ => Fault OutOfBounds
  | Some doorbell =>
      '(mapped, doorbell) ← map_pending_allocation (Some state) doorbell;
      let q := set_doorbell q (Some doorbell) in
      if negb (status_ok mapped) then
        give (mkQueueStatus AqlQueueError.MapDoorbell (ms_system_error mapped)
          ("AQL doorbell GPU mapping failed: " +:+ ms_message mapped), Some q, state)
      else give (queue_ok, Some q, state)
  end.

(** The memory, and what is written to it. *)
Definition build_queue (state : KfdState) (node : Node) (ring_size private_segment_size : Z)
    (dri_root : string) (hsa_queue_id maximum_wave_id : Z) (layout : CwsrLayout)
    (aperture : ProcessAperture) (scratch : QueueScratchControl) (q : KfdQueueState)
  : kfd W queue_result :=
  next_part state node ring_size dri_root AqlRing q set_ring AqlQueueError.AllocateRing "AQL ring" true
  (fun ring q state =>
  ring_buffer ← buffer_of ring;
  ring_bytes ← write_memory (initialize_ring ring_buffer (ra_size (ma_raw ring)));
  next_part state node kMemoryPageSize dri_root General q set_control AqlQueueError.AllocateControl
    "AQL queue control" false
  (fun control q state =>
  next_part state node kEopBufferSize dri_root Eop q set_eop AqlQueueError.AllocateEop "AQL EOP buffer" false
  (fun eop q state =>
  next_part state node (cw_allocation_size layout) dri_root General q set_cwsr AqlQueueError.AllocateCwsr
    "AQL CWSR" false
  (fun cwsr q state =>
  next_part state node (Z.max kMemoryPageSize (u64_mul kDoorbellCount 8)) dri_root Doorbell q set_doorbell
    AqlQueueError.AllocateDoorbell "AQL doorbell" false
  (fun doorbell q state =>
  let error_reason_address :=
    if ks_exception_debugging_enabled state then u64_add (gpu_address control) kQueueErrorReasonOffset
    else 0 in
  cwsr_buffer ← buffer_of cwsr;
  cwsr_bytes ← write_memory (initialize_cwsr cwsr_buffer layout error_reason_address
    (ev_event_id (kq_error_event q)));
  control_buffer ← buffer_of control;
  control_bytes ← write_memory (initialize_control control_buffer (ra_size (ma_raw control))
    (control_fields node (gpu_address ring) ring_size hsa_queue_id maximum_wave_id aperture scratch));
  start_queue state node ring_size layout (set_contents q (ring_bytes, control_bytes, cwsr_bytes))))))).

(** The scratch of the queue, and its description in the control block. *)
Definition prepare_scratch (state : KfdState) (node : Node) (allocation_size : Z) (dri_root : string)
    (q : KfdQueueState) : kfd W (MemoryStatus * KfdQueueState * KfdState) :=
  if allocation_size =? 0 then give (no_error, q, state)
  else
  '(status, owner, session) ← session_allocate_scratch (Some state) node allocation_size dri_root;
  give (status, set_scratch q (Some owner), default state session).

(** The queue's own memory, scratch first. *)
Definition equip_queue (state : KfdState) (node : Node) (ring_size private_segment_size : Z)
    (dri_root : string) (hsa_queue_id maximum_wave_id : Z) (layout : CwsrLayout)
    (aperture : ProcessAperture) (window : ScratchAperture) (scratch_size : Z) (q : KfdQueueState)
  : kfd W queue_result :=
  '(status, q, state) ← prepare_scratch state node scratch_size dri_root q;
  if negb (status_ok status) then
    give (allocation_failure AqlQueueError.AllocateScratch status "AQL queue scratch", owner_or_none q, state)
  else
  match make_queue_scratch_control_at node private_segment_size (scratch_gpu_address (kq_scratch q)) window with
  | Ok (_, scratch) =>
      build_queue state node ring_size private_segment_size dri_root hsa_queue_id maximum_wave_id layout
        aperture scratch q
  | Err status =>
      give (queue_failure AqlQueueError.ConfigureScratch
        ("gfx1101 scratch control failed: " +:+ ss_message status), owner_or_none q, state)
  | Fault f => fun _ => Fault f
  end.

(** Behind the checks: the parts in order. *)
Definition assemble_queue (state : KfdState) (node : Node) (ring_size private_segment_size : Z)
    (dri_root : string) (hsa_queue_id maximum_wave_id : Z) (layout : CwsrLayout)
    (aperture : ProcessAperture) (window : ScratchAperture) (scratch_size : Z) : kfd W queue_result :=
  let q := new_queue (node_gpu_id node) ring_size private_segment_size in
  let handed_out (only_if_owning : bool) q := if only_if_owning then owner_or_none q else Some q in
  '(status, only_if_owning, state) ← configure_trap_handler state node dri_root;
  if negb (queue_status_ok status) then give (status, handed_out only_if_owning q, state)
  else
  '(status, only_if_owning, state) ← ensure_event_page state node dri_root;
  if negb (queue_status_ok status) then give (status, handed_out only_if_owning q, state)
  else
  '(status, event, state) ← create_error_event state;
  let q := set_error_event q event in
  if negb (queue_status_ok status) then give (status, owner_or_none q, state)
  else
  equip_queue state node ring_size private_segment_size dri_root hsa_queue_id maximum_wave_id layout aperture
    window scratch_size q.

Definition session_create_aql_queue (session : option KfdState) (node : Node)
    (ring_size private_segment_size : Z) (dri_root : string) (hsa_queue_id : Z)
  : kfd W (AqlQueueStatus * option KfdQueueState * option KfdState) :=
  match session with
  | None => give (queue_failure AqlQueueError.InvalidSession "KFD session is not open", None, None)
  | Some state =>
      if negb (valid_ring_size ring_size) || negb (ring_size mod kMemoryPageSize =? 0) then
        give (queue_failure AqlQueueError.InvalidRingSize
          "AQL ring size must be a page-aligned power of two from 4096 through 8388608", None, session)
      else
      let maximum_wave_id := u64_mul (node_maximum_waves_per_simd node) (node_simd_per_compute_unit node) in
      if negb (is_gpu node) || (node_gpu_id node =? 0) || (node_drm_render_minor node <? 0) ||
         (arch_major (node_architecture node) <? 9) || (compute_unit_count node =? 0) ||
         (maximum_wave_id =? 0) || (maximum_wave_id - 1 >? UINT32_MAX) then
        give (queue_failure AqlQueueError.InvalidNode
          "AQL queue requires complete GFX9+ GPU and render-node topology", None, session)
      else
      match compute_cwsr_layout node with
      | inl status => give (status, None, session)
      | inr layout =>
      '(acquired, state) ← acquire_open_vm state node dri_root;
      if negb (vm_ok (vr_status acquired)) then
        give (mkQueueStatus AqlQueueError.AcquireVm (vs_system_error (vr_status acquired))
          ("failed to acquire VM for AQL queue: " +:+ vs_message (vr_status acquired)), None, Some state)
      else
      let aperture := vr_aperture acquired in
      if (Z.shiftr (ap_lds_base aperture) 32 =? 0) || (Z.shiftr (ap_scratch_base aperture) 32 =? 0) ||
         (ap_scratch_limit aperture <? ap_scratch_base aperture) then
        give (queue_failure AqlQueueError.InvalidNode
          "AQL queue requires non-zero KFD LDS and scratch apertures", None, Some state)
      else
      let window := mkScratchAperture (ap_scratch_base aperture)
        (u64_add (u64_sub (ap_scratch_limit aperture) (ap_scratch_base aperture)) 1) in
      match queue_scratch_requirements_at node private_segment_size window with
      | Err status =>
          give (queue_failure AqlQueueError.ConfigureScratch
            ("gfx1101 scratch configuration failed: " +:+ ss_message status), None, Some state)
      | Fault f => fun _ => Fault f
      | Ok requirements =>
          allocated ← sys_new;
          if negb allocated then
            give (queue_failure AqlQueueError.AllocateState
              "failed to allocate direct KFD AQL queue state", None, Some state)
          else
          '(status, queue, state) ← assemble_queue state node ring_size private_segment_size dri_root
            hsa_queue_id maximum_wave_id layout aperture window (sr_allocation_size requirements);
          give (status, queue, Some state)
      end
      end
  end.

(** ** Release *)

(** [if (part.has_value()) { part->release(); ...; part.reset(); }] *)
Definition release_part (state : KfdState) (part : option MemoryAllocation) (error : AqlQueueError.t)
    (name : string) : kfd W (option AqlQueueStatus * option MemoryAllocation) :=
  match part with
  | None => give (None, None)
  | Some owner =>
      '(status, owner) ← memory_release (ks_fd state) owner;
      if negb (status_ok status) then
        give (Some (mkQueueStatus error (ms_system_error status)
          (name +:+ " cleanup failed: " +:+ ms_message status)), Some owner)
      else give (None, None)
  end.

Definition release_scratch_part (state : KfdState) (part : option ScratchAllocation)
  : kfd W (option AqlQueueStatus * option ScratchAllocation * KfdState) :=
  match part with
  | None => give (None, None, state)
  | Some owner =>
      '(status, owner, state) ← scratch_release state owner;
      if negb (status_ok status) then
        give (Some (mkQueueStatus AqlQueueError.ReleaseScratch (ms_system_error status)
          ("AQL queue scratch cleanup failed: " +:+ ms_message status)), Some owner, state)
      else give (None, None, state)
  end.

(** One member, and then the rest. *)
Definition then_release (part : KfdQueueState -> option MemoryAllocation)
    (set : KfdQueueState -> option MemoryAllocation -> KfdQueueState) (error : AqlQueueError.t) (name : string)
    (state : KfdState) (q : KfdQueueState) (k : KfdQueueState -> kfd W queue_result) : kfd W queue_result :=
  '(failed, part') ← release_part state (part q) error name;
  let q' := set q part' in
  match failed with
  | Some status => give (status, Some q', state)
  | None => k q'
  end.

(** [AqlQueue::release]; the session's state is where the scratch goes. *)
Definition queue_release (state : KfdState) (queue : option KfdQueueState) : kfd W queue_result :=
  match queue with
  | None => give (queue_ok, None, state)
  | Some q =>
  '(status, raw) ← release_aql_queue (ks_fd state) (kq_queue q);
  let q := set_queue q raw in
  if negb (queue_status_ok status) then give (status, Some q, state)
  else
  '(status, event) ← release_queue_error_event (ks_fd state) (kq_error_event q);
  let q := set_error_event q event in
  if negb (queue_status_ok status) then give (status, Some q, state)
  else
  then_release kq_doorbell set_doorbell AqlQueueError.ReleaseDoorbell "AQL doorbell" state q (fun q =>
  then_release kq_cwsr set_cwsr AqlQueueError.ReleaseCwsr "AQL CWSR" state q (fun q =>
  then_release kq_eop set_eop AqlQueueError.ReleaseEop "AQL EOP" state q (fun q =>
  '(failed, rest, state) ← release_scratch_part state (kq_scratch q);
  let q := set_scratch q rest in
  match failed with
  | Some status => give (status, Some q, state)
  | None =>
  then_release kq_control set_control AqlQueueError.ReleaseControl "AQL queue control" state q (fun q =>
  then_release kq_ring set_ring AqlQueueError.ReleaseRing "AQL ring" state q (fun q =>
  give (queue_ok, None, state)))
  end)))
  end.

(** The destructor tries twice; a state that still owns something then is
    given up without being freed. *)
Definition release_for_destruction (state : KfdState) (queue : option KfdQueueState)
  : kfd W (option KfdQueueState * KfdState) :=
  '(status, queue, state) ← queue_release state queue;
  '(status, queue, state) ←
    (if queue_status_ok status then give (status, queue, state) else queue_release state queue);
  give (if queue_status_ok status then None else queue ≫= owner_or_none, state).

(** [KfdSession::owns_aql_queue] on queues of this session. *)
Definition owns_aql_queue (session : option KfdState) (queue : option KfdQueueState) (node : Node) : bool :=
  match session, queue with
  | Some _, Some q => is_gpu node && negb (node_gpu_id node =? 0) && (kq_gpu_id q =? node_gpu_id node)
  | _, _ => false
  end.
End session.

(** ** What the handle of a queue shows *)

Definition queue_id (queue : option KfdQueueState) : Z :=
  match queue with Some q => rq_queue_id (kq_queue q) | None => 0 end.
Definition ring_gpu_address (queue : option KfdQueueState) : Z :=
  match queue with Some q => memory_gpu_address (kq_ring q) | None => 0 end.
Definition ring_size (queue : option KfdQueueState) : Z :=
  match queue with Some q => kq_ring_size q | None => 0 end.
Definition scratch_private_segment_size (queue : option KfdQueueState) : Z :=
  match queue with Some q => kq_private_segment_size q | None => 0 end.
Definition scratch_address (queue : option KfdQueueState) : Z :=
  match queue with Some q => scratch_gpu_address (kq_scratch q) | None => 0 end.
Definition scratch_size (queue : option KfdQueueState) : Z :=
  match queue with
  | Some q => match kq_scratch q with Some owner => sa_size owner | None => 0 end
  | None => 0
  end.

(** ** What the buffers hold *)

Lemma wp_buffer_of {W} `{!Kernel W} owner (Q : bytes -> W -> Prop) w :
  (forall b, size_of b = Z.max 0 (ra_size (ma_raw owner)) -> Q b w) -> wp (buffer_of owner) Q w.
Proof. intros HQ. apply HQ. unfold size_of. rewrite length_fmap, length_seqZ. lia. Qed.
