(* ===== verification/KfdQueueFacts.v ===== *)
(** * KFD queues: what a queue holds

    The account of a queue's parts, the driver's queue and its doorbell. *)

From stdpp Require Import gmap fin_maps list.
From S2P Require Import Prelude Memory Topology Scratch KfdKernel KfdMemory KfdMemoryFacts ScratchPool ScratchPoolFacts KfdVm KfdSession CwsrLayout KfdQueue.

Import MemoryAllocationUsage.

(** ** The pool of a session as one of many allocations *)

(** The reservation of the pool. *)
Definition pool_raw (pool : ScratchPoolState) : RawMemoryAllocation :=
  mkRawAllocation (sp_reservation_address pool) (sp_reservation_size pool) 0 0 0 0 [] 0 0 false.

Lemma pool_reserved_accounted L pool l :
  sp_reservation_address pool <> 0 ->
  accounted DriverPages L (pool_raw pool) l <-> pool_reserved L pool /\ l = with_pool pool L.
Proof.
  intros Hz. assert (with_buffer DriverPages (pool_raw pool) (with_range DriverPages (pool_raw pool) L) =
    with_pool pool L) as He.
  { unfold with_buffer, with_range. cbn. apply Z.eqb_neq in Hz as ->. done. }
  split.
  - intros [-> Hf _ _ _ _]. rewrite He. split; [|done]. split; [done|]. by apply Hf.
  - intros [[_ Hf] ->]. by split.
Qed.

(** The ranges of a pool, whatever holds its memory. *)
Record pool_shape (gpu_id : Z) (pool : ScratchPoolState) (owners : list RawScratchAllocationResult) : Prop := {
  ps_size : sp_size pool = kGfx11ScratchPoolSize;
  ps_aligned : aligned (sp_gpu_address pool);
  ps_span : 0 < sp_reservation_address pool /\
    sp_reservation_address pool + kMemoryPageSize <= sp_gpu_address pool /\
    sp_gpu_address pool + sp_size pool + kMemoryPageSize <=
      sp_reservation_address pool + sp_reservation_size pool < U64_MOD;
  ps_free : free_ok (sp_size pool) (sp_free_ranges pool);
  ps_owners : Forall (owner_ok gpu_id (sp_gpu_address pool) (sp_size pool)) owners;
  ps_partition : forall x,
    total x (sp_free_ranges pool) + total x (live (sp_gpu_address pool) <$> owners) = cov x (0, sp_size pool)
}.

Definition session_shape (gpu_id : Z) (pool : option ScratchPoolState)
    (owners : list RawScratchAllocationResult) : Prop :=
  match pool with
  | None => owners = []
  | Some pool => sp_reservation_address pool <> 0 /\
      if sp_configured pool then pool_shape gpu_id pool owners else owners = []
  end.

Definition session_raws (pool : option ScratchPoolState) (owners : list RawScratchAllocationResult)
  : list RawMemoryAllocation :=
  (rs_allocation <$> owners) ++ match pool with Some pool => [pool_raw pool] | None => [] end.

Lemma session_inv_split L gpu_id state owners l :
  session_inv L gpu_id state owners l <->
  session_shape gpu_id (pool_of state gpu_id) owners /\
  held L (session_raws (pool_of state gpu_id) owners) l.
Proof.
  unfold session_inv, device_inv, pool_of, session_raws.
  destruct (ks_device_vms state !! gpu_id) as [device|]; cbn.
  2:{ split; [intros [-> ->]; by split; [|constructor]|]. intros [-> H]. by apply held_nil_inv in H. }
  destruct (dv_scratch_pool device) as [pool|]; cbn.
  2:{ split; [intros [-> ->]; by split; [|constructor]|]. intros [-> H]. by apply held_nil_inv in H. }
  destruct (sp_configured pool) eqn:Hc.
  - split.
    + intros [Hr _ P1 P2 P3 P4 _ P5 P6 P7]. split; [split; [apply Hr|]|].
      * split; try done. intros x. specialize (P6 x). cbn in P6. lia.
      * apply held_app. exists (with_pool pool L). split; [|done]. apply held_cons_inv.
        exists L. split; [constructor|]. apply pool_reserved_accounted; [apply Hr|done].
    + intros [[Hz [P1 P2 P3 P4 P5 P6]] H]. apply held_app in H as (l0 & H0 & H). apply held_cons_inv in H0 as (? & ->%held_nil_inv & H0).
      apply pool_reserved_accounted in H0 as [Hr ->]; [|done].
      split; try done. intros x. specialize (P6 x). cbn. lia.
  - split.
    + intros (Hr & -> & ->). split; [split; [apply Hr|done]|]. apply held_cons_inv. exists L.
      split; [constructor|]. apply pool_reserved_accounted; [apply Hr|done].
    + intros [[Hz ->] H]. apply held_cons_inv in H as (? & ->%held_nil_inv & H).
      by apply pool_reserved_accounted in H as [Hr ->].
Qed.

(** ** Events do not touch memory *)

Lemma accounted_events k L a l E :
  accounted k L a l -> accounted k (set_events L E) a (set_events l E).
Proof.
  intros [-> Hf Hb Hc Hm Hu]. split; try done.
  - unfold with_buffer, with_range. destruct k; by repeat case_match.
  - intros Hr. by destruct (Hf Hr).
Qed.

Lemma held_events L o l E : held L o l -> held (set_events L E) o (set_events l E).
Proof. induction 1; [constructor|]. econstructor; [done|]. by apply accounted_events. Qed.

Lemma accounted_same_events k L a l : accounted k L a l -> lg_events l = lg_events L.
Proof. intros [-> _ _ _ _ _]. unfold with_buffer, with_range. destruct k; by repeat case_match. Qed.

Lemma held_same_events L o l : held L o l -> lg_events l = lg_events L.
Proof. induction 1 as [|a rest l0 l H IH Ha]; [done|]. by rewrite (accounted_same_events _ _ _ _ Ha). Qed.

(** ** The driver's queue and its doorbell *)

Definition with_queue (used : list (Z * Z)) (q : RawAqlQueue) (l : ledger) : ledger :=
  if rq_active q then add_queue (rq_queue_id q) used l else l.

Definition with_event (e : RawQueueErrorEvent) (l : ledger) : ledger :=
  if ev_active e then add_event (ev_event_id e) l else l.

(** A queue beside [l]: new to it, its doorbell mapped in the range at [start]. *)
Record queue_beside (start place : Z) (l : ledger) (q : RawAqlQueue) : Prop := {
  qb_fresh : rq_active q = true -> lg_queues l !! rq_queue_id q = None;
  qb_place : rq_doorbell_mapping q <> 0 ->
    rq_doorbell_mapping q = place /\ start <> 0 /\ inner l start place (rq_doorbell_mapping_size q)
}.

Lemma inner_shrink l start address length length' :
  inner l start address length -> 0 < length' <= length -> inner l start address length'.
Proof.
  intros [(size & Hs & Hle) Hlt Hpos Ha [Hu1 Hu2]] Hlen. split; [exists size; split; [done|lia]|done|lia| |].
  - intros s n H. specialize (Ha s n H). lia.
  - split.
    + intros h b s n Hb Hp. specialize (Hu1 h b s n Hb Hp). lia.
    + intros q used Hq. eapply Forall_impl; [by eapply Hu2|]. intros [s n]. cbn. lia.
Qed.

Lemma inner_inside l start address length : inner l start address length -> inside l address length.
Proof. intros [(size & Hs & Hle) Hlt _ _ _]. exists start, size. split; [done|lia]. Qed.

Section raw.
Context {W : Type} `{!Kernel W, !KernelLaws W} (start place : Z) (used : list (Z * Z)).

(** What a release, or the rollback of a creation, leaves: the queue still
    beside [l], or nothing of it and a hole where its doorbell was. *)
Definition queue_left (l : ledger) (q : RawAqlQueue) (w : W) : Prop :=
  (ledger_of w = with_queue used q l /\ queue_beside start place l q) \/
  (ledger_of w = tear_range start l /\ start <> 0 /\ rq_active q = false /\ rq_doorbell_mapping q = 0).

Definition queue_gone (q : RawAqlQueue) : Prop := rq_active q = false /\ rq_doorbell_mapping q = 0.

Lemma unmap_doorbell_spec l q w :
  ledger_of w = l -> queue_beside start place l q -> rq_active q = false ->
  wp (unmap_doorbell q) (fun r w' =>
    queue_left l r.2 w' /\ (queue_status_ok r.1 = true -> queue_gone r.2)) w.
Proof.
  intros Hw Hq Ha. unfold unmap_doorbell. wp_if as G.
  { apply wp_give. split; [left|done]. unfold with_queue. cbn. rewrite Ha. split; [done|].
    destruct Hq. by split. }
  destruct (qb_place _ _ _ _ Hq ltac:(lia)) as (Hp & Hz & Hi). subst l. apply wp_bind. rewrite Hp.
  eapply wp_munmap_inner; [exact Hi|]. intros errno w' Hw'. destruct (errno =? 0); cbn [negb]; apply wp_give.
  - split; [right|]; done.
  - split; [left|done]. unfold with_queue. cbn. by rewrite Ha.
Qed.

Lemma release_aql_queue_spec fd l q w :
  ledger_of w = with_queue used q l -> queue_beside start place l q ->
  wp (release_aql_queue fd q) (fun r w' =>
    queue_left l r.2 w' /\ (queue_status_ok r.1 = true -> queue_gone r.2)) w.
Proof.
  intros Hw Hq. unfold release_aql_queue. wp_if as G1.
  { apply wp_give. split; [by left|]. intros _. apply andb_true_iff in G1 as [G1 G1'].
    apply negb_true_iff in G1. split; cbn; [done|lia]. }
  wp_if as G2; [apply wp_give; split; [by left|done]|].
  destruct (rq_active q) eqn:Ha; [|apply unmap_doorbell_spec; [|done..]; rewrite Hw; unfold with_queue; by rewrite Ha].
  unfold with_queue in Hw. rewrite Ha in Hw. pose proof (qb_fresh _ _ _ _ Hq Ha) as Hnew.
  eapply wp_bind, wp_destroy_queue; [rewrite Hw; apply lookup_insert_eq|].
  intros reply w' Hw'. destruct (rp_errno reply =? 0); cbn [negb].
  - apply unmap_doorbell_spec; [|by destruct Hq; split|done]. by rewrite Hw', Hw, remove_add_queue.
  - apply wp_give. split; [left|done]. unfold with_queue. cbn. rewrite Ha. by rewrite Hw', Hw.
Qed.

Lemma abandon_queue_spec status fd l q w :
  queue_status_ok status = false -> ledger_of w = with_queue used q l -> queue_beside start place l q ->
  wp (abandon_queue status fd q) (fun r w' => queue_left l r.2 w' /\ queue_status_ok r.1 = false) w.
Proof.
  intros Hs Hw Hq. unfold abandon_queue. apply wp_bind. eapply wp_mono; [by apply release_aql_queue_spec|].
  intros [cleanup q'] w' [Hl _]. apply wp_give. split; [done|]. cbn. unfold append_queue_cleanup.
  by destruct (queue_status_ok cleanup).
Qed.

Definition doorbell_bytes (info : AqlQueueCreateInfo) : Z :=
  Z.max kMemoryPageSize (kDoorbellCount * ci_doorbell_size info).

Lemma doorbell_bytes_cases info :
  ci_doorbell_size info = 4 \/ ci_doorbell_size info = 8 ->
  Z.max kMemoryPageSize (u64_mul kDoorbellCount (ci_doorbell_size info)) = doorbell_bytes info /\
  exists k, doorbell_bytes info = 2 ^ k /\ 12 <= k <= 13 /\ 4096 <= doorbell_bytes info <= 8192.
Proof. intros [H|H]; unfold doorbell_bytes; rewrite H; (split; [done|]); [exists 12|exists 13]; done. Qed.

(** A queue that was created: live, with its doorbell in the window. *)
Record queue_live (info : AqlQueueCreateInfo) (q : RawAqlQueue) : Prop := {
  ql_active : rq_active q = true;
  ql_mapping : rq_doorbell_mapping q = ci_doorbell_mapping_address info;
  ql_doorbell : ci_doorbell_mapping_address info <= rq_doorbell_address q /\
    rq_doorbell_address q + ci_doorbell_size info <= ci_doorbell_mapping_address info + doorbell_bytes info
}.

Definition creates (info : AqlQueueCreateInfo) (l : ledger) (r : AqlQueueStatus * RawAqlQueue) (w : W) : Prop :=
  queue_left l r.2 w /\ (queue_status_ok r.1 = true -> queue_live info r.2).

(** The memory of the queue is elsewhere than its doorbell. *)
Definition used_apart (n : Z) : Prop :=
  Forall (fun '(s, m) => s + m <= place \/ place + n <= s) used.

Lemma inner_add_queue l queue_id n :
  inner l start place n -> used_apart n -> lg_queues l !! queue_id = None ->
  inner (add_queue queue_id used l) start place n.
Proof.
  intros [H1 H2 H3 H4 [Hu1 Hu2]] Hap Hnew. split; try done. split; [done|].
  cbn. intros q u [[<- <-]|[_ Hq]]%lookup_insert_Some; [done|]. by eapply Hu2.
Qed.

Lemma map_doorbell_spec fd info queue_id doorbell_word l w :
  ci_doorbell_size info = 4 \/ ci_doorbell_size info = 8 ->
  start <> 0 -> place = ci_doorbell_mapping_address info -> 0 < place -> place + doorbell_bytes info <= U64_MOD ->
  inner l start place (doorbell_bytes info) -> used_apart (doorbell_bytes info) -> is_u64 doorbell_word ->
  lg_queues l !! queue_id = None -> ledger_of w = add_queue queue_id used l ->
  wp (map_doorbell fd info queue_id doorbell_word) (creates info l) w.
Proof.
  intros Hds Hstart Hplace Hpos Hend Hin Hap Hdw Hnew Hw.
  pose proof (inner_add_queue l queue_id _ Hin Hap Hnew) as Hin'. rewrite <-Hw in Hin'.
  destruct (doorbell_bytes_cases info Hds) as (Hmax & k & Hk & Hk1 & Hn). unfold map_doorbell. cbv zeta.
  rewrite Hmax. set (n := doorbell_bytes info) in *.
  assert (forall status w' q, queue_status_ok status = false -> ledger_of w' = with_queue used q l ->
    queue_beside start place l q -> wp (abandon_queue status fd q) (creates info l) w') as Hab.
  { intros status w' q Hs Hw' Hq. eapply wp_mono; [by apply (abandon_queue_spec status fd l)|].
    intros [s q'] w2 [H1 H2]. split; [done|]. cbn in *. by rewrite H2. }
  wp_if as G1; [by apply Hab|].
  assert (0 <= Z.land doorbell_word (n - 1) < n) as Hoff.
  { rewrite Hk. replace (2 ^ k - 1) with (Z.ones k) by (rewrite Z.ones_equiv; lia).
    rewrite Z.land_ones by lia. apply Z.mod_pos_bound, Z.pow_pos_nonneg; lia. }
  apply wp_bind. rewrite <-Hplace. eapply wp_mmap_fixed; [done|exact Hin'|].
  intros [errno|mapping] w1 Hw1 Hm; [apply Hab; [done|by rewrite Hw1, Hw|done]|].
  rewrite (Hm mapping eq_refl). cbn [mm_address]. rewrite <-Hw1 in Hin'.
  apply wp_bind, wp_madvise; [by eapply inner_inside|]. intros errno w2 Hw2.
  assert (queue_beside start place l (mkRawQueue queue_id place n (u64_add place (Z.land doorbell_word (n - 1))) true))
    as Hq by by split.
  destruct (errno =? 0); cbn [negb]; [|apply Hab; [done|by rewrite Hw2, Hw1, Hw|done]].
  apply wp_give. split; [left; cbn; by rewrite Hw2, Hw1, Hw|]. intros _.
  split; [done|done|]. cbn. fold n. rewrite u64_sub_small in G1 by lia. rewrite u64_add_small by lia. lia.
Qed.

Lemma create_aql_queue_spec fd info l w :
  start <> 0 -> place = ci_doorbell_mapping_address info -> 0 <= place -> place + 8192 <= U64_MOD ->
  (ci_doorbell_size info = 4 \/ ci_doorbell_size info = 8) ->
  inner l start place 8192 -> used_apart 8192 -> used = queue_memory (queue_arguments_of info) ->
  Forall (fun '(s, n) => inside l s n) used -> ledger_of w = l ->
  wp (create_aql_queue fd info) (creates info l) w.
Proof.
  intros Hstart Hplace Hpos Hend Hds Hin Hap Hused Hmem Hw.
  assert (forall status, queue_status_ok status = false -> creates info l (status, no_queue) w) as Hfail.
  { intros status Hs. split; [left; by split|]. cbn. by rewrite Hs. }
  unfold create_aql_queue. do 3 (wp_if as G1; [by apply wp_give, Hfail|clear G1]).
  wp_if as G4; [by apply wp_give, Hfail|]. wp_if as G5; [by apply wp_give, Hfail|].
  assert (doorbell_bytes info <= 8192 /\ 0 < doorbell_bytes info) as Hn.
  { unfold doorbell_bytes. destruct Hds as [-> | ->]; by vm_compute. }
  apply wp_bind, wp_create_queue; [by rewrite <-Hused, Hw|]. intros reply w' Hid Hword Hl.
  rewrite <-Hused, Hw in Hl. destruct (rp_errno reply =? 0); cbn [negb].
  - destruct Hl as [Hnew Hl]. apply map_doorbell_spec; try done; try lia.
    + eapply inner_shrink; [done|lia].
    + eapply Forall_impl; [exact Hap|]. intros [s m]. cbn. lia.
  - apply wp_give. split; [left; by split|done].
Qed.
End raw.

(** ** The error event *)

Section events.
Context {W : Type} `{!Kernel W, !KernelLaws W}.

Lemma create_queue_error_event_spec fd handle (w : W) :
  wp (create_queue_error_event fd handle) (fun r w' =>
    ledger_of w' = with_event r.2 (ledger_of w) /\
    (ev_active r.2 = true -> ev_event_id r.2 ∉ lg_events (ledger_of w)) /\
    ev_active r.2 = queue_status_ok r.1) w.
Proof.
  unfold create_queue_error_event. wp_if as G; [by apply wp_give|].
  apply wp_bind, wp_create_event. intros reply w' Hid Hl.
  destruct (rp_errno reply =? 0); cbn [negb]; apply wp_give; [|done].
  destruct Hl as [Hnew Hl]. by split_and!.
Qed.

Lemma release_queue_error_event_spec fd e l (w : W) :
  ledger_of w = with_event e l -> (ev_active e = true -> ev_event_id e ∉ lg_events l) ->
  wp (release_queue_error_event fd e) (fun r w' =>
    ledger_of w' = with_event r.2 l /\ (r.2 = e \/ ev_active r.2 = false) /\
    (queue_status_ok r.1 = true -> ev_active r.2 = false)) w.
Proof.
  intros Hw Hnew. unfold release_queue_error_event. destruct (ev_active e) eqn:Ha; cbn [negb].
  2:{ apply wp_give. cbn. split_and!; [done|by left|done]. }
  wp_if as G; [apply wp_give; cbn; split_and!; [done|by left|done]|].
  unfold with_event in Hw. rewrite Ha in Hw. apply wp_bind, wp_destroy_event; [rewrite Hw; cbn; set_solver|].
  intros reply w' Hw'. destruct (rp_errno reply =? 0); cbn [negb]; apply wp_give; cbn.
  - rewrite Hw', Hw, remove_add_event by auto. split_and!; [done|by right|done].
  - split_and!; [|by left|done]. unfold with_event. by rewrite Ha, Hw', Hw.
Qed.
End events.

(** ** The contents of a new queue's memory

    The ring and the control block, byte for byte. *)

Lemma length_write_header : length (le_bytes 2 kAqlInvalidPacketHeader) = 2%nat.
Proof. done. Qed.

(** From [offset] on every packet gets an invalid header, and nothing else
    changes. *)
Lemma write_packet_headers_spec rounds (memory : bytes) index packets :
  0 <= index <= packets -> Z.of_nat rounds > packets - index -> size_of memory = packets * kAqlPacketSize ->
  exists memory', write_packet_headers rounds memory (index * kAqlPacketSize) (packets * kAqlPacketSize) = Ok memory' /\
    length memory' = length memory /\
    forall i : nat, memory' !! i =
      if (index * kAqlPacketSize <=? Z.of_nat i) && (Z.of_nat i <? packets * kAqlPacketSize) &&
         (Z.of_nat i mod kAqlPacketSize <? 2)
      then le_bytes 2 kAqlInvalidPacketHeader !! (i mod 64)%nat else memory !! i.
Proof.
  unfold kAqlPacketSize. revert memory index. induction rounds as [|rounds IH]; intros memory index Hi Hr Hs; [lia|].
  cbn [write_packet_headers]. destruct (Z.ltb_spec (index * 64) (packets * 64)) as [Hlt|Hge].
  2:{ exists memory. split_and!; [done..|]. intros i. destruct (_ && _) eqn:G; [lia|done]. }
  unfold write_header. destruct (write_bytes_spec (E := Empty_set) memory (le_bytes 2 kAqlInvalidPacketHeader) (index * 64))
    as (m1 & -> & [Hlen Hget]); [lia|unfold size_of in *; rewrite length_write_header; lia|].
  cbn [mbind result_bind]. unfold kAqlPacketSize.
  replace (index * 64 + 64) with ((index + 1) * 64) by lia.
  destruct (IH m1 (index + 1)) as (m2 & -> & Hlen2 & Hget2); [lia|lia|unfold size_of in *; lia|].
  exists m2. split_and!; [done|congruence|]. intros i. rewrite Hget2, Hget.
  change (size_of (le_bytes 2 kAqlInvalidPacketHeader)) with 2.
  destruct (decide (Z.of_nat i < (index + 1) * 64)) as [Hin|Hout].
  - replace ((index + 1) * 64 <=? Z.of_nat i) with false by lia. cbn [andb].
    destruct (decide (index * 64 <= Z.of_nat i)) as [Hb|Hb].
    + assert (Z.of_nat i mod 64 = Z.of_nat i - index * 64) as Hm.
      { symmetry. apply (Z.mod_unique_pos _ 64 index); lia. }
      assert ((i mod 64)%nat = (i - Z.to_nat (index * 64))%nat) as Hmn.
      { apply Nat2Z.inj. rewrite Nat2Z.inj_mod. change (Z.of_nat 64) with 64. lia. }
      rewrite Hm, Hmn.
      destruct (_ && _) eqn:G1, (_ && _ && _) eqn:G2; try lia; done.
    + destruct (_ && _) eqn:G1, (_ && _ && _) eqn:G2; try lia; done.
  - replace ((index * 64 <=? Z.of_nat i) && (Z.of_nat i <? index * 64 + 2)) with false by lia.
    replace (index * 64 <=? Z.of_nat i) with true by lia. replace ((index + 1) * 64 <=? Z.of_nat i) with true by lia.
    done.
Qed.

(** A packet slot no producer has written. *)
Definition invalid_packet : bytes := le_bytes 2 kAqlInvalidPacketHeader ++ replicate 62 x00.

Lemma concat_replicate_lookup {A} (l : list A) (n i : nat) :
  l <> [] -> (i < n * length l)%nat -> concat (replicate n l) !! i = l !! (i mod length l)%nat.
Proof.
  intros Hl. revert i. induction n as [|n IH]; intros i Hi; [lia|]. cbn [replicate concat].
  assert (length l <> 0%nat) by (destruct l; done).
  destruct (decide (i < length l)%nat).
  - by rewrite lookup_app_l, Nat.mod_small by done.
  - rewrite lookup_app_r by lia. rewrite IH by lia. f_equal.
    replace i with ((i - length l) + 1 * length l)%nat at 2 by lia. by rewrite Nat.Div0.mod_add.
Qed.

Lemma length_concat_replicate {A} (l : list A) (n : nat) : length (concat (replicate n l)) = (n * length l)%nat.
Proof. induction n; cbn; [done|]. rewrite length_app. lia. Qed.

Lemma initialize_ring_spec (memory : bytes) packets :
  0 <= packets -> size_of memory = packets * kAqlPacketSize ->
  initialize_ring memory (packets * kAqlPacketSize) = Ok (concat (replicate (Z.to_nat packets) invalid_packet)).
Proof.
  intros Hp Hs. unfold initialize_ring, write_zeros. unfold kAqlPacketSize in *.
  destruct (write_bytes_spec (E := Empty_set) memory (replicate (Z.to_nat (packets * 64)) x00) 0)
    as (m0 & -> & [Hlen Hget]); [lia|unfold size_of in *; rewrite length_replicate; lia|].
  cbn [mbind result_bind]. rewrite Z.div_mul by lia.
  pose proof (write_packet_headers_spec (S (Z.to_nat packets)) m0 0 packets) as H. unfold kAqlPacketSize in H.
  destruct H as (m1 & H & Hlen1 & Hget1); [lia|lia|unfold size_of in *; lia|].
  rewrite Z.mul_0_l in H. rewrite H. f_equal. apply list_eq. intros i. unfold size_of in *.
  destruct (decide (i < Z.to_nat packets * 64)%nat) as [Hi|Hi].
  2:{ rewrite !lookup_ge_None_2; [done| |lia]. rewrite length_concat_replicate. cbn. lia. }
  rewrite concat_replicate_lookup by done. change (length invalid_packet) with 64%nat.
  rewrite Hget1, Hget, length_replicate.
  assert (Z.of_nat i mod 64 = Z.of_nat (i mod 64)) as Hm by by rewrite Nat2Z.inj_mod.
  rewrite Hm. replace (Z.of_nat i <? packets * 64) with true by lia. replace (0 * 64 <=? Z.of_nat i) with true by lia.
  replace (0 <=? Z.of_nat i) with true by lia. replace (Z.of_nat i <? 0 + Z.of_nat (Z.to_nat (packets * 64))) with true by lia.
  cbn [andb]. unfold invalid_packet. pose proof (Nat.mod_upper_bound i 64 ltac:(lia)).
  destruct (Z.ltb_spec (Z.of_nat (i mod 64)) 2).
  - rewrite lookup_app_l; [done|]. rewrite length_write_header. lia.
  - rewrite lookup_app_r by (rewrite length_write_header; lia). rewrite length_write_header.
    rewrite !lookup_replicate_2 by lia. done.
Qed.

Lemma length_amd_queue_bytes fields : length (amd_queue_bytes fields) = 256%nat.
Proof.
  unfold amd_queue_bytes. destruct (sc_resource_descriptor (af_scratch fields)) as [[[? ?] ?] ?].
  by rewrite !length_app, !length_le_bytes.
Qed.

Lemma initialize_control_spec (memory : bytes) size fields :
  256 <= size -> size_of memory = size ->
  initialize_control memory size fields = Ok (amd_queue_bytes fields ++ replicate (Z.to_nat (size - 256)) x00).
Proof.
  intros Hs Hm. unfold initialize_control, write_zeros, write_bytes. unfold size_of in *.
  rewrite length_replicate. destruct (_ && _) eqn:G1; [|lia]. clear G1. cbn [mbind result_bind].
  change (Z.to_nat 0) with 0%nat. rewrite take_0. cbn [app]. rewrite (drop_ge memory) by lia. rewrite app_nil_r.
  rewrite length_amd_queue_bytes, length_replicate. destruct (_ && _) eqn:G2; [|lia].
  rewrite drop_replicate. by replace (Z.to_nat size - (0 + 256))%nat with (Z.to_nat (size - 256)) by lia.
Qed.
