(* ===== verification/KfdQueueParts.v ===== *)
(** * The parts of a queue

    The memory a queue is made of, its scratch range, its event and the
    driver's queue, accounted for together, while the queue is put together
    and while it is taken apart. *)

From stdpp Require Import gmap fin_maps.
From S2P Require Import Prelude Memory Topology Scratch KfdKernel KfdMemory KfdMemoryFacts ScratchPool ScratchPoolFacts KfdVm KfdSession KfdTopologyFacts CwsrLayout KfdQueue KfdQueueFacts.

Import MemoryAllocationUsage.

(** ** Scratch owners *)

(** Two results that stand for the same range and the same buffer. *)
Record similar (r1 r2 : RawScratchAllocationResult) : Prop := {
  sm_range : rs_gpu_address r2 = rs_gpu_address r1 /\ rs_size r2 = rs_size r1;
  sm_owner : rs_gpu_id r2 = rs_gpu_id r1 /\ rs_integrated r2 = rs_integrated r1 /\
    rs_pool_range_owned r2 = rs_pool_range_owned r1;
  sm_reservation : ra_reservation_address (rs_allocation r2) = ra_reservation_address (rs_allocation r1);
  sm_buffer : ra_handle (rs_allocation r2) = ra_handle (rs_allocation r1) /\
    ra_gpu_ids (rs_allocation r2) = ra_gpu_ids (rs_allocation r1) /\
    ra_mapped_device_count (rs_allocation r2) = ra_mapped_device_count (rs_allocation r1) /\
    ra_unmapped_device_count (rs_allocation r2) = ra_unmapped_device_count (rs_allocation r1)
}.

Lemma accounted_similar L r1 r2 l :
  similar r1 r2 -> ra_reservation_address (rs_allocation r1) = 0 ->
  accounted DriverPages L (rs_allocation r1) l -> accounted DriverPages L (rs_allocation r2) l.
Proof.
  intros [_ _ S1 (S2 & S3 & S4 & S5)] Hz Ha. apply accounted_plain in Ha as (-> & Hb & Hc & Hm); [|done].
  apply accounted_plain; [congruence|]. rewrite S2, S3, S4, S5. split_and!; try done; try lia.
  unfold with_buffer. by rewrite S2, S4, S5.
Qed.

Lemma session_inv_similar L gpu_id state r1 r2 os l :
  similar r1 r2 -> session_inv L gpu_id state (r1 :: os) l -> session_inv L gpu_id state (r2 :: os) l.
Proof.
  intros Hs. rewrite !session_inv_split. unfold session_shape, session_raws.
  destruct (pool_of state gpu_id) as [pool|]; [|by intros [? _]].
  intros [[Hz Hshape] Hh]. destruct (sp_configured pool); [|done].
  destruct Hshape as [P1 P2 P3 P4 P5 P6]. apply Forall_cons in P5 as [[O1 O2 O3 O4 O5] P5].
  pose proof Hs as [[S1 S2] (S3 & S4 & S5) S6 (S7 & _)].
  assert (live (sp_gpu_address pool) r2 = live (sp_gpu_address pool) r1) as Hlive.
  { unfold live. by rewrite S1, S2. }
  split.
  - split; [done|]. split; try done.
    + constructor; [|done]. split; [by rewrite Hlive|congruence|congruence|congruence|].
      rewrite S4, S7. done.
    + intros x. specialize (P6 x). rewrite !fmap_cons in *. by rewrite Hlive.
  - cbn in *. apply held_cons_inv in Hh as (l0 & Hh & Ha). apply held_cons_inv. exists l0.
    split; [done|]. by eapply accounted_similar.
Qed.

(** The range of the pool that the owner names, with its backing: one of size 0
    names none. *)
Inductive tracks : option ScratchAllocation -> list RawScratchAllocationResult -> Prop :=
| tracks_none : tracks None []
| tracks_empty owner : sa_pool_range_owned owner = false \/ sa_size owner = 0 -> tracks (Some owner) []
| tracks_range owner r : sa_pool_range_owned owner = true -> similar r (scratch_raw owner) ->
    tracks (Some owner) [r].

(** ** Slots *)

Definition opt_raw (a : option MemoryAllocation) : list RawMemoryAllocation :=
  match a with Some a => [ma_raw a] | None => [] end.

Definition parts (q : KfdQueueState) : list RawMemoryAllocation :=
  opt_raw (kq_ring q) ++ opt_raw (kq_control q) ++ opt_raw (kq_eop q) ++ opt_raw (kq_cwsr q).

(** A member that holds memory, with its assignment. *)
Class Slot (get : KfdQueueState -> option MemoryAllocation)
    (set : KfdQueueState -> option MemoryAllocation -> KfdQueueState) := {
  slot_get q v : get (set q v) = v;
  slot_parts q v : parts (set q v) ≡ₚ opt_raw v ++ parts (set q None);
  slot_self q : parts q ≡ₚ opt_raw (get q) ++ parts (set q None);
  slot_scratch q v : kq_scratch (set q v) = kq_scratch q
}.

Lemma swap_app3 {A} (a b c d : list A) : a ++ b ++ c ++ d ≡ₚ c ++ a ++ b ++ d.
Proof. by rewrite (Permutation_app_swap_app b c d), (Permutation_app_swap_app a c). Qed.

Lemma swap_app4 {A} (a b c d : list A) : a ++ b ++ c ++ d ≡ₚ d ++ a ++ b ++ c.
Proof. rewrite (Permutation_app_comm d). by rewrite <-!app_assoc. Qed.

#[global] Instance ring_slot : Slot kq_ring set_ring.
Proof. by split. Qed.

#[global] Instance control_slot : Slot kq_control set_control.
Proof. split; intros; try done; unfold parts; cbn; apply Permutation_app_swap_app. Qed.

#[global] Instance eop_slot : Slot kq_eop set_eop.
Proof. split; intros; try done; unfold parts; cbn; apply swap_app3. Qed.

#[global] Instance cwsr_slot : Slot kq_cwsr set_cwsr.
Proof. split; intros; try done; unfold parts; cbn; rewrite app_nil_r; apply swap_app4. Qed.

(** ** Parts *)

(** The memory of the queue but its doorbell, with the pool of its GPU and the
    scratch of others. *)
Definition parts_held (L : ledger) (gpu_id : Z) (state : KfdState) (os : list RawScratchAllocationResult)
    (q : KfdQueueState) (l : ledger) : Prop :=
  exists sl, tracks (kq_scratch q) sl /\ session_shape gpu_id (pool_of state gpu_id) (sl ++ os) /\
    held L (parts q ++ session_raws (pool_of state gpu_id) (sl ++ os)) l.

Section slots.
Context {W : Type} `{!Kernel W, !KernelLaws W} (L : ledger) (gpu_id : Z).
Context (os : list RawScratchAllocationResult).
Context get set `{!Slot get set}.

(** A part can be taken out and another one put in. *)
Lemma parts_held_slot state q l :
  parts_held L gpu_id state os q l <-> exists l0, parts_held L gpu_id state os (set q None) l0 /\
    held l0 (opt_raw (get q)) l.
Proof.
  unfold parts_held. rewrite slot_scratch. split.
  - intros (sl & Ht & Hs & Hh). rewrite (slot_self q), <-app_assoc, held_app in Hh. naive_solver.
  - intros (l0 & (sl & Ht & Hs & Hh) & Hg). exists sl. split_and!; [done..|].
    rewrite (slot_self q), <-app_assoc, held_app. eauto.
Qed.

Lemma parts_held_set state q v l0 l :
  parts_held L gpu_id state os (set q None) l0 -> held l0 (opt_raw v) l ->
  parts_held L gpu_id state os (set q v) l.
Proof.
  unfold parts_held. rewrite !slot_scratch. intros (sl & Ht & Hs & Hh) Hg. exists sl.
  split_and!; [done..|]. rewrite slot_parts, <-app_assoc, held_app. eauto.
Qed.

Lemma release_part_spec state q error name w :
  error <> AqlQueueError.None -> parts_held L gpu_id state os q (ledger_of w) ->
  wp (release_part state (get q) error name) (fun '(failed, part) w' =>
    parts_held L gpu_id state os (set q part) (ledger_of w') /\
    match failed with Some status => queue_status_ok status = false | None => part = None end) w.
Proof.
  intros He Hp. apply parts_held_slot in Hp as (l0 & Hp & Hg). unfold release_part.
  destruct (get q) as [owner|] eqn:Hq.
  2:{ apply held_nil_inv in Hg. apply wp_give. split; [|done]. by rewrite Hg. }
  apply held_cons_inv in Hg as (l1 & ->%held_nil_inv & Ha). apply wp_bind.
  eapply wp_mono; [by apply (memory_release_spec DriverPages l0)|]. intros [status owner'] w' [Ha' Hok].
  cbn in *. destruct (status_ok status); cbn [negb]; apply wp_give.
  - destruct (Hok eq_refl) as [_ Hl]. split; [|done]. by rewrite Hl.
  - split; [|by apply bool_decide_eq_false]. eapply parts_held_set; [done|]. apply held_cons_inv.
    exists l0. by split; [constructor|].
Qed.
End slots.

(** ** What scratch does to the session *)

(** The sessions differ in the pools of their GPUs at most. *)
Record same_but_pools (state state' : KfdState) : Prop := {
  sb_fd : ks_fd state' = ks_fd state;
  sb_debugging : ks_exception_debugging_enabled state' = ks_exception_debugging_enabled state;
  sb_page : ks_queue_event_page state' = ks_queue_event_page state;
  sb_devices gpu_id : (fun d => set_pool d None) <$> ks_device_vms state' !! gpu_id =
    (fun d => set_pool d None) <$> ks_device_vms state !! gpu_id
}.

#[global] Instance same_but_pools_equiv : Equivalence same_but_pools.
Proof.
  split.
  - intros s. by split.
  - intros s1 s2 []. by split.
  - intros s1 s2 s3 [] []. split; intros; congruence.
Qed.

Lemma same_but_pools_set state gpu_id device pool :
  ks_device_vms state !! gpu_id = Some device ->
  same_but_pools state (set_device state gpu_id (set_pool device pool)).
Proof.
  intros Hd. split; try done. intros g. cbn. destruct (decide (g = gpu_id)) as [->|].
  - by rewrite lookup_insert_eq, Hd.
  - by rewrite lookup_insert_ne.
Qed.

Section scratch.
Context {W : Type} `{!Kernel W}.

Lemma ensure_pool_yields fd aperture integrated device :
  yields (W := W) (ensure_pool fd aperture integrated device)
    (fun r => exists pool, r.2 = set_pool device pool).
Proof.
  unfold ensure_pool. assert (device = set_pool device (dv_scratch_pool device)) as Hself by by destruct device.
  apply (yields_bind _ _ (fun r => exists pool, r.2 = set_pool device pool)).
  { destruct (dv_scratch_pool device) as [pool|] eqn:Hp; [|apply yields_give; eauto].
    destruct (sp_configured pool); [apply yields_give; eauto|].
    eapply yields_bind; [apply yields_any|]. intros [cleanup pool'] _. apply yields_give. eauto. }
  intros [cleanup device'] [pool Hd]. cbn in Hd. subst device'. destruct (negb _); [apply yields_give; eauto|].
  cbn [dv_scratch_pool set_pool]. destruct pool as [pool|]; [apply yields_give; eauto|].
  eapply yields_bind; [apply yields_any|]. intros b _. destruct (negb b); [apply yields_give; eauto|].
  eapply yields_bind; [apply yields_any|]. intros [initialized pool'] _. apply yields_give. cbn. eauto.
Qed.

Lemma allocate_scratch_yields state fd aperture size integrated :
  yields (W := W) (allocate_scratch state fd aperture size integrated) (fun r => same_but_pools state r.2).
Proof.
  unfold allocate_scratch. do 2 (destruct (_ || _); [by apply yields_give|]). cbv zeta.
  destruct (ks_device_vms state !! ap_gpu_id aperture) as [device|] eqn:Hd; [|by apply yields_give].
  destruct (_ || _); [by apply yields_give|]. eapply yields_bind; [apply ensure_pool_yields|].
  intros [status device'] [pool Hp]. cbn in Hp. subst device'. destruct (negb _); [by apply yields_give, same_but_pools_set|].
  cbn [dv_scratch_pool set_pool]. destruct pool as [pool|]; [|by intros w].
  eapply yields_bind; [apply yields_any|]. intros [r pool'] _. apply yields_give. cbn.
  change (set_pool (set_pool device (Some pool)) (Some pool')) with (set_pool device (Some pool')).
  by apply same_but_pools_set.
Qed.

Lemma release_scratch_yields state fd r :
  yields (W := W) (release_scratch state fd r) (fun r => same_but_pools state r.2).
Proof.
  unfold release_scratch. destruct (_ || _); [by apply yields_give|]. cbv zeta.
  destruct (ks_device_vms state !! rs_gpu_id r) as [device|] eqn:Hd; [|by apply yields_give].
  destruct (dv_scratch_pool device); [|by apply yields_give].
  destruct (negb _); [by apply yields_give|]. eapply yields_bind; [apply yields_any|].
  intros [[status r'] pool'] _. by apply yields_give, same_but_pools_set.
Qed.
End scratch.

Lemma session_inv_owner L gpu_id state r rs l :
  session_inv L gpu_id state (r :: rs) l -> rs_gpu_id r = gpu_id.
Proof.
  intros [Hs _]%session_inv_split. unfold session_shape in Hs. destruct (pool_of state gpu_id) as [pool|]; [|done].
  destruct Hs as [_ Hs]. destruct (sp_configured pool); [|done]. destruct Hs as [_ _ _ _ Ho _].
  apply Forall_cons in Ho as [[_ _ Hid _ _] _]. done.
Qed.

Section scratch_parts.
Context {W : Type} `{!Kernel W, !KernelLaws W} (L : ledger) (gpu_id : Z) (gpu_nonzero : gpu_id <> 0).
Context (os : list RawScratchAllocationResult).

(** The session beside the parts of the queue. *)
Lemma parts_held_session state q l :
  parts_held L gpu_id state os q l <-> exists L1 sl, held L (parts q) L1 /\ tracks (kq_scratch q) sl /\
    session_inv L1 gpu_id state (sl ++ os) l.
Proof.
  unfold parts_held. split.
  - intros (sl & Ht & Hs & Hh). rewrite Permutation_app_comm, held_app in Hh. destruct Hh as (L1 & H1 & H2).
    exists L1, sl. split_and!; [done..|]. by apply session_inv_split.
  - intros (L1 & sl & H1 & Ht & [Hs H2]%session_inv_split). exists sl. split_and!; [done..|].
    rewrite Permutation_app_comm, held_app. eauto.
Qed.

Lemma release_scratch_part_spec state q w :
  parts_held L gpu_id state os q (ledger_of w) ->
  wp (release_scratch_part state (kq_scratch q)) (fun '(failed, rest, state') w' =>
    parts_held L gpu_id state' os (set_scratch q rest) (ledger_of w') /\ same_but_pools state state' /\
    match failed with Some status => queue_status_ok status = false | None => rest = None end) w.
Proof.
  intros Hp. apply parts_held_session in Hp as (L1 & sl & H1 & Ht & Hs). unfold release_scratch_part.
  assert (forall rest rs state' w', tracks rest rs -> session_inv L1 gpu_id state' (rs ++ os) (ledger_of w') ->
    parts_held L gpu_id state' os (set_scratch q rest) (ledger_of w')) as Hmk.
  { intros rest rs state' w' Ht' Hs'. apply parts_held_session. exists L1, rs. by split_and!. }
  destruct Ht as [|owner Ho|owner r Ho Hr].
  { apply wp_give. split_and!; [by eapply Hmk; [constructor|]|done|done]. }
  { unfold scratch_release. destruct (sa_pool_range_owned owner) eqn:Hown; cbn [negb].
    2: { apply wp_bind, wp_give, wp_give. split_and!; [by eapply Hmk; [constructor|]|done|done]. }
    destruct Ho as [|Hz]; [done|]. assert (tracks (Some owner) []) as Ht by (constructor; by right).
    apply wp_bind. wp_if as G1; [apply wp_give, wp_give; split_and!; [by eapply Hmk|done|done]|].
    unfold release_scratch. cbn [rs_pool_range_owned rs_size scratch_raw]. rewrite Hown, Hz. cbn.
    rewrite !orb_true_r. apply wp_bind, wp_give, wp_give, wp_give. cbn.
    assert (scratch_after owner (scratch_raw owner) = owner) as -> by by destruct owner.
    split_and!; [by eapply Hmk|done|done]. }
  apply wp_bind. apply (wp_mono _ (fun '(status, owner', state') w' => same_but_pools state state' /\
    if status_ok status then session_inv L1 gpu_id state' os (ledger_of w')
    else exists r', tracks (Some owner') [r'] /\ session_inv L1 gpu_id state' ([r'] ++ os) (ledger_of w'))).
  2:{ intros [[status owner'] state'] w' [Hsb H]. destruct (status_ok status); cbn [negb]; apply wp_give.
      - split_and!; [|done|done]. by eapply Hmk; [constructor|].
      - destruct H as (r' & Ht' & Hs'). split_and!; [by eapply Hmk|done|by apply bool_decide_eq_false]. }
  unfold scratch_release. rewrite Ho. cbn [negb].
  wp_if as G1; [apply wp_give; split; [done|]; exists r; by split; [constructor|]|].
  apply wp_bind. apply (session_inv_similar _ _ _ _ _ _ _ Hr) in Hs.
  pose proof (session_inv_owner _ _ _ _ _ _ Hs) as Hid.
  pose proof (release_scratch_inv L1 gpu_id state (ks_fd state) 0 (scratch_raw owner)
    (scratch_raw owner :: os) w gpu_nonzero eq_refl Hs) as Hrel.
  eapply wp_mono; [exact (wp_yields _ _ _ _ Hrel (release_scratch_yields _ _ _))|].
  intros [[status r'] state'] w' [(Hs' & Hown & Hint) Hsb]. cbn in Hsb, Hs'. rewrite Hown in Hs'.
  destruct (status_ok status) eqn:Hok; cbn [negb] in *; apply wp_give; (split; [done|]).
  - by rewrite status_ok_no_error.
  - rewrite Hok. exists r'. split; [|done]. pose proof (session_inv_owner _ _ _ _ _ _ Hs') as Hid'.
    constructor; [done|]. cbn in *. split; cbn; try done. split_and!; congruence.
Qed.
End scratch_parts.

(** ** Allocation on a settled GPU *)

(** The VM of the GPU is acquired and its aperture known. *)
Record settled_gpu (state : KfdState) (node : Node) (aperture : ProcessAperture) : Prop := {
  sg_node : is_gpu node = true /\ node_gpu_id node <> 0 /\ 0 <= node_drm_render_minor node;
  sg_device : exists device, ks_device_vms state !! node_gpu_id node = Some device /\
    dv_acquired device = true /\ dv_aperture_valid device = true /\ dv_aperture device = aperture /\
    dv_drm_render_minor device = node_drm_render_minor node;
  sg_aperture : ap_gpu_id aperture = node_gpu_id node /\ is_u64 (ap_gpuvm_limit aperture)
}.

Lemma settled_gpu_same state state' node aperture :
  same_but_pools state state' -> settled_gpu state node aperture -> settled_gpu state' node aperture.
Proof.
  intros Hsb [Hn (device & Hd & H) Ha]. split; [done| |done].
  pose proof (sb_devices _ _ Hsb (node_gpu_id node)) as He. rewrite Hd in He.
  destruct (ks_device_vms state' !! node_gpu_id node) as [device'|] eqn:Hd'; [|done].
  injection He as E1 E2 E3 E4 E5 E6 E7 E8. exists device'. split; [done|]. by rewrite E2, E3, E5, E6.
Qed.

Section allocation.
Context {W : Type} `{!Kernel W, !KernelLaws W} (node : Node) (aperture : ProcessAperture).

Lemma acquire_open_vm_settled state dri_root (w : W) :
  settled_gpu state node aperture ->
  acquire_open_vm state node dri_root w = Ok ((mkVmResult vm_done aperture, state), w).
Proof.
  intros [(Hg & Hid & Hm) (device & Hd & _ & Hv & <- & Hminor) _].
  pose proof (acquire_vm_settled state node dri_root device w Hg Hid Hm Hd Hv Hminor) as H.
  unfold acquire_vm, mbind, kfd_bind in H. destruct (acquire_open_vm state node dri_root w) as [[[r s] w']|[]|f];
    [|done]. injection H as -> -> ->. done.
Qed.

Lemma wp_acquire_for state dri_root purpose (Q : (MemoryStatus + ProcessAperture) * KfdState -> W -> Prop) w :
  settled_gpu state node aperture -> Q (inr aperture, state) w ->
  wp (acquire_for state node dri_root purpose) Q w.
Proof.
  intros Hs HQ. unfold acquire_for, wp, mbind, kfd_bind. by rewrite acquire_open_vm_settled.
Qed.

Lemma gpu_node_settled state : settled_gpu state node aperture -> gpu_node node = true.
Proof.
  intros [(Hg & Hid & Hm) _ _]. unfold gpu_node. rewrite Hg. replace (node_gpu_id node =? 0) with false by lia.
  by replace (node_drm_render_minor node <? 0) with false by lia.
Qed.

Lemma allocate_part_spec state size dri_root usage (w : W) :
  settled_gpu state node aperture -> is_u64 size ->
  wp (allocate_part state node size dri_root usage) (fun '(status, owner, state') w' =>
    state' = state /\ accounted DriverPages (ledger_of w) (ma_raw owner) (ledger_of w') /\
    (status_ok status = true -> ma_state owner = true /\ allocated aperture usage size (ma_raw owner))) w.
Proof.
  intros Hs Hsize. assert (forall status, status_ok status = false -> (fun '(status, owner, state') w' =>
    state' = state /\ accounted DriverPages (ledger_of w) (ma_raw owner) (ledger_of w') /\
    (status_ok status = true -> ma_state owner = true /\ allocated aperture usage size (ma_raw owner)))
    (status, no_memory, state) w) as Hfail.
  { intros status Hst. split_and!; [done|by apply accounted_nothing|by rewrite Hst]. }
  unfold allocate_part. apply wp_bind. unfold allocate_memory_impl. rewrite (gpu_node_settled state) by done.
  cbn [negb]. wp_if as G1; [apply wp_give, wp_give; cbn; by apply Hfail|].
  apply wp_bind, wp_acquire_for; [done|].
  pose proof Hs as [_ (device & Hd & Ha & Hv & Hap & _) [_ Hlim]].
  unfold device_render_fd. rewrite Hd, Ha, Hv. cbn [negb orb]. apply wp_bind.
  eapply wp_mono; [by apply (allocate_memory_accounts (ledger_of w))|].
  intros [status raw] w1 [Hacc Hok]. cbn in Hacc, Hok.
  wp_if as G2; apply andb_true_iff in G2 || apply andb_false_iff in G2; apply wp_give, wp_give; cbn.
  - destruct G2 as [Hst Hn]. apply negb_true_iff in Hst. split_and!; [done| |by rewrite Hst].
    apply accounted_nothing. by rewrite (nothing_held _ _ _ _ Hacc Hn).
  - split_and!; [done|done|]. intros Hst. split; [done|]. by apply Hok.
Qed.
End allocation.

Section parts_allocation.
Context {W : Type} `{!Kernel W, !KernelLaws W} (L : ledger) (node : Node) (aperture : ProcessAperture).
Context (os : list RawScratchAllocationResult).

Abbreviation held_parts := (parts_held L (node_gpu_id node)).

(** A part, into its slot. *)
Lemma allocate_slot_spec get set `{!Slot get set} state q size dri_root usage (w : W) :
  settled_gpu state node aperture -> is_u64 size -> get q = None ->
  held_parts state os q (ledger_of w) ->
  wp (allocate_part state node size dri_root usage) (fun '(status, owner, state') w' =>
    state' = state /\ held_parts state os (set q (Some owner)) (ledger_of w') /\
    (status_ok status = true -> ma_state owner = true /\ allocated aperture usage size (ma_raw owner))) w.
Proof.
  intros Hs Hsize Hget Hp. eapply wp_mono; [by apply allocate_part_spec|].
  intros [[status owner] state'] w' (-> & Ha & Hok). split_and!; [done| |done].
  apply (parts_held_slot L _ os get set) in Hp as (l0 & Hp & Hn). rewrite Hget in Hn.
  apply held_nil_inv in Hn. rewrite Hn in Ha. eapply parts_held_set; [done|done|].
  apply held_cons_inv. exists l0. by split; [constructor|].
Qed.

(** The range asked for is the queue's, free again, or, after a failure,
    forgotten. *)
Lemma prepare_scratch_spec state q size dri_root (w : W) :
  settled_gpu state node aperture -> 0 <= size -> kq_scratch q = None ->
  held_parts state os q (ledger_of w) ->
  wp (prepare_scratch state node size dri_root q) (fun '(status, q', state') w' =>
    same_but_pools state state' /\ (exists scratch, q' = set_scratch q scratch) /\
    exists forgotten, held_parts state' (forgotten ++ os) q' (ledger_of w') /\
      Forall (range_forgotten (W := W)) forgotten /\ (length forgotten <= 1)%nat /\
      (status_ok status = true -> forgotten = [])) w.
Proof.
  intros Hs Hsize Hq Hp. unfold prepare_scratch. wp_if as G1.
  { apply wp_give. split_and!; [done| |exists []; split_and!; [done|constructor|cbn; lia|done]].
    exists None. destruct q. cbn in *. by subst. }
  apply parts_held_session in Hp as (L1 & sl & H1 & Ht & Hsi). rewrite Hq in Ht. inversion Ht; subst. cbn in Hsi.
  assert (forall (status : MemoryStatus) scratch rs forgotten state' w', tracks scratch rs -> same_but_pools state state' ->
    session_inv L1 (node_gpu_id node) state' (rs ++ forgotten ++ os) (ledger_of w') ->
    Forall (range_forgotten (W := W)) forgotten -> (length forgotten <= 1)%nat ->
    (status_ok status = true -> forgotten = []) ->
    same_but_pools state state' /\ (exists scratch', set_scratch q scratch = set_scratch q scratch') /\
    exists forgotten, held_parts state' (forgotten ++ os) (set_scratch q scratch) (ledger_of w') /\
      Forall (range_forgotten (W := W)) forgotten /\ (length forgotten <= 1)%nat /\
      (status_ok status = true -> forgotten = [])) as Hmk.
  { intros status scratch rs forgotten state' w' Ht' Hsb Hs' Hf Hn Hok. split_and!; [done|eauto|]. exists forgotten.
    split_and!; [|done..]. apply parts_held_session. exists L1, rs. by split_and!. }
  assert (tracks (Some no_scratch_owner) []) as Hnone by (constructor; by left).
  apply wp_bind. unfold session_allocate_scratch. rewrite (gpu_node_settled node aperture state) by done.
  cbn [negb]. wp_if as G2; [apply wp_give, wp_give; eapply (Hmk _ _ [] []); try done; cbn; lia|].
  apply wp_bind, (wp_acquire_for node aperture); [done|].
  pose proof Hs as [_ _ [Hid _]]. apply wp_bind.
  pose proof (allocate_scratch_inv L1 (node_gpu_id node) state (ks_fd state) aperture size
    (node_integrated node) os w Hid Hsize Hsi) as Hal.
  eapply wp_mono; [exact (wp_yields _ _ _ _ Hal (allocate_scratch_yields _ _ _ _ _))|].
  intros [r state'] w' [(Hs' & Hsz & Hok) Hsb]. cbn in Hsb.
  wp_if as G3; apply wp_give, wp_give; cbn [default].
  - apply andb_true_iff in G3 as [_ G3]. apply negb_true_iff in G3. rewrite G3 in Hs'.
    eapply (Hmk _ _ [] []); try done; cbn; lia.
  - assert (rs_pool_range_owned r = true) as Hown.
    { apply andb_false_iff in G3 as [G3|G3]; apply negb_false_iff in G3; auto. }
    rewrite Hown in Hs'. pose proof (session_inv_owner _ _ _ _ _ _ Hs') as Hrid. destruct Hsz as [Hsz|Hf].
    + apply (Hmk _ _ [r] [] state' w'); [|done|exact Hs'|constructor|cbn; lia|done].
      apply (tracks_range _ r); [done|]. by split; cbn.
    + apply (Hmk _ _ [] [r] state' w'); [|done|exact Hs'|by apply Forall_singleton|cbn; lia|].
      * constructor. right. apply Hf.
      * intros Hst. by rewrite (fg_failed _ Hf) in Hst.
Qed.
End parts_allocation.

(** ** Release of a queue

    Everything a queue holds, through any number of attempts to release it. *)

Import MemoryAllocationUsage.

(** The doorbell's reservation. *)
Definition door (q : KfdQueueState) : RawMemoryAllocation :=
  match kq_doorbell q with Some owner => ma_raw owner | None => no_allocation end.

(** [l] is the rest [L] and everything the queue holds: its event, its memory
    and scratch beside the pool of the GPU, its doorbell, and the driver's
    queue. *)
Record queue_over (k : backing) (lp lm : ledger) (used : list (Z * Z))
    (L : ledger) (gpu_id : Z) (state : KfdState) (os : list RawScratchAllocationResult)
    (q : KfdQueueState) (l : ledger) : Prop := {
  qh_parts : parts_held (with_event (kq_error_event q) L) gpu_id state os q lp;
  qh_event : ev_active (kq_error_event q) = true -> ev_event_id (kq_error_event q) ∉ lg_events L;
  qh_door : accounted k lp (door q) lm;
  qh_pages : k <> UserPages;
  qh_queue : l = with_queue used (kq_queue q) lm;
  qh_beside : queue_beside (ra_reservation_address (door q)) (ra_host_address (door q)) lm (kq_queue q);
  qh_torn : k = TornPages -> queue_gone (kq_queue q)
}.

Definition queue_held (L : ledger) (gpu_id : Z) (state : KfdState) (os : list RawScratchAllocationResult)
    (q : KfdQueueState) (l : ledger) : Prop :=
  exists k lp lm used, queue_over k lp lm used L gpu_id state os q l.

(** What the handle of a queue holds. *)
Definition handle_held (L : ledger) (gpu_id : Z) (state : KfdState) (os : list RawScratchAllocationResult)
    (queue : option KfdQueueState) (l : ledger) : Prop :=
  match queue with
  | Some q => queue_held L gpu_id state os q l
  | None => session_inv L gpu_id state os l
  end.

Lemma accounted_tear L a l :
  accounted DriverPages L a l -> ra_reservation_address a <> 0 ->
  accounted TornPages L a (tear_range (ra_reservation_address a) l).
Proof.
  intros [-> Hf Hb Hc Hm _] Hr. split; try done. unfold with_buffer, with_range.
  apply Z.eqb_neq in Hr as ->. by case_match.
Qed.

Lemma parts_held_events L gpu_id state os q l E :
  parts_held L gpu_id state os q l -> parts_held (set_events L E) gpu_id state os q (set_events l E).
Proof. intros (sl & Ht & Hs & Hh). exists sl. split_and!; [done..|]. by apply held_events. Qed.

Lemma parts_held_same_events L gpu_id state os q l :
  parts_held L gpu_id state os q l -> lg_events l = lg_events L.
Proof. intros (sl & _ & _ & Hh). by eapply held_same_events. Qed.

(** A queue without memory of its own is not there. *)
Lemma parts_held_none L gpu_id state os q l :
  kq_ring q = None -> kq_control q = None -> kq_eop q = None -> kq_cwsr q = None -> kq_scratch q = None ->
  parts_held L gpu_id state os q l <-> session_inv L gpu_id state os l.
Proof.
  intros H1 H2 H3 H4 H5. unfold parts_held, parts. rewrite H1, H2, H3, H4, H5. cbn.
  setoid_rewrite session_inv_split. split.
  - intros (sl & Ht & H). by inversion Ht; subst.
  - intros H. exists []. by split; [constructor|].
Qed.

Section release.
Context {W : Type} `{!Kernel W, !KernelLaws W} (L : ledger) (gpu_id : Z) (gpu_nonzero : gpu_id <> 0).
Context (os : list RawScratchAllocationResult).

(** The contract of every step: the queue stays accounted for. *)
Definition queue_releases (r : AqlQueueStatus * option KfdQueueState * KfdState) (w : W) : Prop :=
  let '(status, queue, state') := r in
  handle_held L gpu_id state' os queue (ledger_of w) /\
  (queue_status_ok status = true -> queue = None).

(** With the driver's queue, the event and the doorbell gone. *)
Definition only_parts (state : KfdState) (q : KfdQueueState) (l : ledger) : Prop :=
  parts_held L gpu_id state os q l /\ kq_doorbell q = None /\ ev_active (kq_error_event q) = false /\
  queue_gone (kq_queue q).

Lemma only_parts_held state q l : only_parts state q l -> queue_held L gpu_id state os q l.
Proof.
  intros (Hp & Hd & He & [Ha Hm]). assert (door q = no_allocation) as Hdoor by (unfold door; by rewrite Hd).
  exists DriverPages, l, l, [].
  split; rewrite ?Hdoor; unfold with_event, with_queue; rewrite ?He, ?Ha; try done.
  split; [by rewrite Ha|by rewrite Hm].
Qed.

(** One more part gone, or a failure with everything still held. *)
Lemma then_release_spec get set `{!Slot get set} state q error name
    (k : KfdQueueState -> kfd W (AqlQueueStatus * option KfdQueueState * KfdState)) w :
  (forall q v, kq_doorbell (set q v) = kq_doorbell q /\ kq_error_event (set q v) = kq_error_event q /\
     kq_queue (set q v) = kq_queue q) ->
  error <> AqlQueueError.None -> only_parts state q (ledger_of w) ->
  (forall w', only_parts state (set q None) (ledger_of w') -> wp (k (set q None)) queue_releases w') ->
  wp (then_release get set error name state q k) queue_releases w.
Proof.
  intros Hset He (Hp & Hrest) Hk. unfold then_release. apply wp_bind. eapply wp_mono; [by apply (release_part_spec L gpu_id os get set)|].
  intros [failed part] w' [Hp' Hf].
  assert (only_parts state (set q part) (ledger_of w')) as Ho.
  { split; [done|]. by destruct (Hset q part) as (-> & -> & ->). }
  destruct failed as [status|].
  - apply wp_give. split; [by apply only_parts_held|]. by rewrite Hf.
  - subst part. by apply Hk.
Qed.

Lemma release_parts_spec state q w :
  only_parts state q (ledger_of w) ->
  wp (then_release kq_cwsr set_cwsr AqlQueueError.ReleaseCwsr "AQL CWSR" state q (fun q =>
      then_release kq_eop set_eop AqlQueueError.ReleaseEop "AQL EOP" state q (fun q =>
      '(failed, rest, state) ← release_scratch_part state (kq_scratch q);
      let q := set_scratch q rest in
      match failed with
      | Some status => give (status, Some q, state)
      | None =>
      then_release kq_control set_control AqlQueueError.ReleaseControl "AQL queue control" state q (fun q =>
      then_release kq_ring set_ring AqlQueueError.ReleaseRing "AQL ring" state q (fun q =>
      give (queue_ok, None, state)))
      end))) queue_releases w.
Proof.
  intros Ho. apply then_release_spec; [apply _|by intros; split_and!|done|done|]. clear Ho. intros w1 Ho.
  apply then_release_spec; [apply _|by intros; split_and!|done|done|]. clear Ho. intros w2 (Hp & Hrest).
  apply wp_bind. eapply wp_mono; [by apply (release_scratch_part_spec L gpu_id gpu_nonzero os)|].
  intros [[failed rest] state'] w3 (Hp' & _ & Hf). cbv zeta. destruct failed as [status|].
  { apply wp_give. split; [by apply only_parts_held|]. by rewrite Hf. }
  subst rest. apply then_release_spec; [apply _|by intros; split_and!|done|done|]. intros w4 Ho4.
  apply then_release_spec; [apply _|by intros; split_and!|done|done|]. intros w5 (Hp5 & _).
  apply wp_give. split; [|done]. by apply parts_held_none in Hp5.
Qed.

(** The doorbell's reservation, after the driver's queue and the event. *)
Lemma release_door_spec k lp state q w
    (rest : KfdQueueState -> kfd W (AqlQueueStatus * option KfdQueueState * KfdState)) :
  k <> UserPages -> parts_held L gpu_id state os q lp -> accounted k lp (door q) (ledger_of w) ->
  ev_active (kq_error_event q) = false -> queue_gone (kq_queue q) ->
  (forall w', only_parts state (set_doorbell q None) (ledger_of w') ->
     wp (rest (set_doorbell q None)) queue_releases w') ->
  wp (then_release kq_doorbell set_doorbell AqlQueueError.ReleaseDoorbell "AQL doorbell" state q rest)
    queue_releases w.
Proof.
  intros Hk Hp Ha He Hg Hrest. unfold then_release. apply wp_bind. unfold release_part, door in *.
  destruct (kq_doorbell q) as [owner|].
  2:{ apply accounted_nothing in Ha. apply wp_give. apply Hrest. rewrite Ha. by split_and!. }
  apply wp_bind. eapply wp_mono; [by apply (memory_release_spec k lp)|].
  intros [status owner'] w' [Ha' Hok]. cbn in *. destruct (status_ok status); cbn [negb]; apply wp_give.
  - destruct (Hok eq_refl) as [_ Hl]. apply Hrest. rewrite Hl. by split_and!.
  - apply wp_give. split; [|done]. destruct Hg as [Hga Hgm].
    exists k, lp, (ledger_of w'), []. split; try done; unfold door; cbn.
    + unfold with_event. by rewrite He.
    + by rewrite He.
    + unfold with_queue. by rewrite Hga.
    + split; [by rewrite Hga|by rewrite Hgm].
Qed.
End release.

Section whole_release.
Context {W : Type} `{!Kernel W, !KernelLaws W} (L : ledger) (gpu_id : Z) (gpu_nonzero : gpu_id <> 0).
Context (os : list RawScratchAllocationResult).

(** The driver's queue goes first. *)
Lemma release_driver_queue state q w :
  queue_held L gpu_id state os q (ledger_of w) ->
  wp (release_aql_queue (ks_fd state) (kq_queue q)) (fun '(status, raw) w' =>
    queue_held L gpu_id state os (set_queue q raw) (ledger_of w') /\
    (queue_status_ok status = true -> queue_gone raw)) w.
Proof.
  intros (k & lp & lm & used & [Hp He Ha Hk Hq Hb Ht]).
  pose proof (release_aql_queue_spec _ _ used (ks_fd state) lm (kq_queue q) w Hq Hb) as Hrel.
  destruct k; [|done|].
  - eapply wp_mono; [exact Hrel|]. intros [status raw] w' [[[Hw Hb']|(Hw & Hz & Hg)] Hok]; (split; [|done]); cbn in *.
    + by exists DriverPages, lp, lm, used.
    + exists TornPages, lp, (ledger_of w'), used. destruct Hg as [Hga Hgm]. split; try done.
      * rewrite Hw. by apply accounted_tear.
      * unfold with_queue. cbn. by rewrite Hga.
      * split; cbn; [by rewrite Hga|by rewrite Hgm].
  - destruct (Ht eq_refl) as [Hga Hgm]. unfold release_aql_queue. rewrite Hga, Hgm. cbn. apply wp_give.
    split; [|done]. exists TornPages, lp, lm, used. by split.
Qed.

(** Then the event. *)
Lemma release_event_spec state q w :
  queue_held L gpu_id state os q (ledger_of w) -> queue_gone (kq_queue q) ->
  wp (release_queue_error_event (ks_fd state) (kq_error_event q)) (fun '(status, event) w' =>
    queue_held L gpu_id state os (set_error_event q event) (ledger_of w') /\
    (queue_status_ok status = true -> ev_active event = false)) w.
Proof.
  intros (k & lp & lm & used & [Hp He Ha Hk Hq Hb Ht]) [Hga Hgm].
  pose proof (parts_held_same_events _ _ _ _ _ _ Hp) as E1.
  pose proof (accounted_same_events _ _ _ _ Ha) as E2.
  unfold with_queue in Hq. rewrite Hga in Hq.
  assert (ledger_of w = with_event (kq_error_event q) (set_events lm (lg_events L))) as Hw.
  { rewrite Hq. rewrite E1 in E2. unfold with_event in *.
    destruct (ev_active (kq_error_event q)), lm; cbn in *; by rewrite E2. }
  eapply wp_mono; [by eapply release_queue_error_event_spec|].
  intros [status event] w' (Hw' & Hev & Hok). cbn in *. split; [|done].
  assert (with_event event (set_events lm (lg_events L)) = set_events lm (lg_events (with_event event L))) as Hl.
  { unfold with_event. by destruct (ev_active event). }
  exists k, (set_events lp (lg_events (with_event event L))), (ledger_of w'), []. rewrite Hw', Hl.
  split; cbn; try done.
  - apply (parts_held_events _ _ _ _ _ _ (lg_events (with_event event L))) in Hp.
    replace (with_event event L) with (set_events (with_event (kq_error_event q) L) (lg_events (with_event event L))) at 1;
      [done|]. unfold with_event. by destruct L, (ev_active event), (ev_active (kq_error_event q)).
  - destruct Hev as [->|Hev]; [done|by rewrite Hev].
  - by apply accounted_events.
  - unfold with_queue. by rewrite Hga.
  - split; [by rewrite Hga|by rewrite Hgm].
Qed.

Lemma queue_release_spec state queue w :
  handle_held L gpu_id state os queue (ledger_of w) ->
  wp (queue_release state queue) (queue_releases L gpu_id os) w.
Proof.
  intros Hh. unfold queue_release. destruct queue as [q|]; [|by apply wp_give].
  apply wp_bind. eapply wp_mono; [by apply release_driver_queue|]. intros [status raw] w1 [H1 Hok1].
  destruct (queue_status_ok status) eqn:Hs1; cbn [negb]; [|apply wp_give; split; [done|by rewrite Hs1]].
  apply wp_bind. eapply wp_mono; [by apply release_event_spec; [|apply Hok1]|].
  intros [status2 event] w2 [H2 Hok2].
  destruct (queue_status_ok status2) eqn:Hs2; cbn [negb]; [|apply wp_give; split; [done|by rewrite Hs2]].
  specialize (Hok1 eq_refl). specialize (Hok2 eq_refl).
  destruct H2 as (k & lp & lm & used & [Hp _ Ha Hk Hq _ _]).
  unfold with_queue in Hq. cbn in Hq, Hp. rewrite (proj1 Hok1) in Hq. unfold with_event in Hp. rewrite Hok2 in Hp.
  eapply release_door_spec; [done|done|by rewrite Hq|done|done|].
  intros w3 H3. by apply release_parts_spec.
Qed.
End whole_release.

(** ** Creation of a queue

    Every way out of [KfdSession::create_aql_queue] with what is then held. *)

Import MemoryAllocationUsage.

(** ** What the session keeps *)

(** A trap handler or an event page that the session did not have before. *)
Definition kept_trap (gpu_id : Z) (state state' : KfdState) : list RawMemoryAllocation :=
  match trap_of state gpu_id, trap_of state' gpu_id with
  | (_, false), (Some raw, true) => [raw]
  | _, _ => []
  end.

Definition kept_page (state state' : KfdState) : list RawMemoryAllocation :=
  match ks_queue_event_page state, ks_queue_event_page state' with
  | None, Some page => [ep_allocation page]
  | _, _ => []
  end.

Lemma kept_trap_same gpu_id state state' : trap_of state' gpu_id = trap_of state gpu_id -> kept_trap gpu_id state state' = [].
Proof. intros H. unfold kept_trap. rewrite H. by destruct (trap_of state gpu_id) as [[] []]. Qed.

Lemma kept_page_same state state' : ks_queue_event_page state' = ks_queue_event_page state -> kept_page state state' = [].
Proof. intros H. unfold kept_page. rewrite H. by destruct (ks_queue_event_page state). Qed.

(** Another allocation beside a session is one of the rest. *)
Lemma session_inv_frame L gpu_id state os a l l' :
  session_inv L gpu_id state os l -> accounted DriverPages l a l' ->
  exists L', held L [a] L' /\ session_inv L' gpu_id state os l'.
Proof.
  intros [Hs Hh]%session_inv_split Ha. assert (held L (a :: session_raws (pool_of state gpu_id) os) l') as H.
  { apply held_cons_inv. eauto. }
  rewrite Permutation_cons_append, held_app in H. destruct H as (L' & H1 & H2). exists L'.
  split; [done|]. by apply session_inv_split.
Qed.

Lemma session_inv_pool L gpu_id state state' os l :
  pool_of state' gpu_id = pool_of state gpu_id ->
  session_inv L gpu_id state os l -> session_inv L gpu_id state' os l.
Proof. intros H. by rewrite !session_inv_split, H. Qed.

(** The session is the same but for its pools, trap handlers and event page. *)
Record stays (node : Node) (aperture : ProcessAperture) (state state' : KfdState) : Prop := {
  st_settled : settled_gpu state' node aperture;
  st_fd : ks_fd state' = ks_fd state;
  st_debugging : ks_exception_debugging_enabled state' = ks_exception_debugging_enabled state
}.

Section kept.
Context {W : Type} `{!Kernel W, !KernelLaws W} (node : Node) (aperture : ProcessAperture).
Context (os : list RawScratchAllocationResult) (dri_root : string).
Abbreviation gpu := (node_gpu_id node).

(** The destructor of an owner that is not kept: it may have to give up. *)
Lemma drop_owner_spec L state owner (w : W) l :
  session_inv L gpu state os l -> accounted DriverPages l (ma_raw owner) (ledger_of w) ->
  wp (memory_release (ks_fd state) owner) (fun _ w' => exists L' leaked,
    held L leaked L' /\ session_inv L' gpu state os (ledger_of w') /\
    Forall (release_refused W) leaked /\ (length leaked <= 1)%nat) w.
Proof.
  intros Hs Ha. destruct (wp_run _ _ _ (memory_release_spec DriverPages l (ks_fd state) owner w ltac:(done) Ha))
    as ([status owner'] & w' & E & Ha' & Hok). unfold wp. rewrite E. cbn in Ha', Hok.
  destruct (status_ok status) eqn:Hst.
  - destruct (Hok eq_refl) as [_ Hl]. exists L, []. rewrite Hl. split_and!; [constructor|done|constructor|cbn; lia].
  - destruct (session_inv_frame _ _ _ _ _ _ _ Hs Ha') as (L' & H1 & H2).
    exists L', [ma_raw owner']. split_and!; [done..| |cbn; lia]. constructor; [|constructor].
    by exists (ks_fd state), owner, status, owner', w, w'.
Qed.

(** What a step before the queue's own parts leaves. *)
Definition prepares (kept : KfdState -> KfdState -> list RawMemoryAllocation)
    (frame : KfdState -> KfdState -> Prop) (L : ledger) (state : KfdState) (r : AqlQueueStatus * bool * KfdState) (w : W) : Prop :=
  let '(status, _, state') := r in
  stays node aperture state state' /\ frame state state' /\
  exists L' leaked, held L (kept state state' ++ leaked) L' /\
    session_inv L' gpu state' os (ledger_of w) /\ Forall (release_refused W) leaked /\
    (length leaked <= 1)%nat /\ (queue_status_ok status = true -> leaked = []).

Lemma stays_refl state : settled_gpu state node aperture -> stays node aperture state state.
Proof. by split. Qed.

Lemma prepares_same kept frame L state status flag w :
  frame state state -> settled_gpu state node aperture -> kept state state = [] -> session_inv L gpu state os (ledger_of w) ->
  prepares kept frame L state (status, flag, state) w.
Proof.
  intros Hf Hs Hk Hi. split; [by apply stays_refl|]. split; [done|]. exists L, []. rewrite Hk. split_and!; [constructor|done|constructor|cbn; lia|done].
Qed.

(** A failure after which the owner is dropped. *)
Lemma prepares_dropped kept frame L state owner l status flag (w : W) :
  frame state state -> settled_gpu state node aperture -> kept state state = [] ->
  session_inv L gpu state os l -> accounted DriverPages l (ma_raw owner) (ledger_of w) ->
  queue_status_ok status = false ->
  wp (memory_release (ks_fd state) owner ≫= fun _ => give (status, flag, state)) (prepares kept frame L state) w.
Proof.
  intros Hf Hs Hk Hi Ha Hst. apply wp_bind. eapply wp_mono; [by eapply drop_owner_spec|].
  intros _ w' (L' & leaked & H1 & H2 & H3 & H4). apply wp_give. split; [by apply stays_refl|].
  split; [done|]. exists L', leaked. rewrite Hk, Hst. by split_and!.
Qed.
End kept.

Section preparations.
Context {W : Type} `{!Kernel W, !KernelLaws W} (node : Node) (aperture : ProcessAperture).
Context (os : list RawScratchAllocationResult) (dri_root : string) (trap_handler_code : bytes).
Hypothesis code_fits : size_of trap_handler_code <= kMemoryPageSize.
Abbreviation gpu := (node_gpu_id node).

Lemma wp_write_memory (r : result Empty_set bytes) b (Q : bytes -> W -> Prop) w :
  r = Ok b -> Q b w -> wp (write_memory r) Q w.
Proof. by intros ->. Qed.

(** Whatever the memory holds, it has the size of the allocation. *)
Lemma wp_sized_buffer owner (Q : bytes -> W -> Prop) w :
  0 <= ra_size (ma_raw owner) -> (forall b, size_of b = ra_size (ma_raw owner) -> Q b w) -> wp (buffer_of owner) Q w.
Proof. intros H HQ. apply wp_buffer_of. rewrite Z.max_r; done. Qed.

Definition same_page (state state' : KfdState) : Prop := ks_queue_event_page state' = ks_queue_event_page state.
Definition same_trap (state state' : KfdState) : Prop := trap_of state' gpu = trap_of state gpu.

Lemma configure_trap_handler_spec L state (w : W) :
  settled_gpu state node aperture -> session_inv L gpu state os (ledger_of w) ->
  wp (configure_trap_handler trap_handler_code state node dri_root)
    (prepares node aperture os (kept_trap gpu) same_page L state) w.
Proof.
  intros Hs Hi. assert (kept_trap gpu state state = []) as Hk by by apply kept_trap_same.
  unfold configure_trap_handler. cbv zeta. wp_if as G1; [by apply wp_give, prepares_same|].
  apply orb_false_iff in G1 as [_ G1]. apply wp_bind.
  eapply wp_mono; [by apply (allocate_part_spec node aperture)|].
  intros [[status owner] state'] w1 (-> & Ha & Hok).
  destruct (status_ok status); cbn [negb]; [|by eapply prepares_dropped].
  destruct (Hok eq_refl) as [_ [(_ & _ & _ & _ & _ & Hsize) _ _ _ _ _]].
  apply wp_bind, wp_sized_buffer; [rewrite Hsize; done|]. intros buffer Hb. rewrite Hsize in Hb.
  destruct (write_bytes_spec (E := Empty_set) buffer trap_handler_code 0) as (b & Hwr & _); [lia..|].
  eapply wp_bind, wp_write_memory; [exact Hwr|].
  destruct (ks_device_vms state !! gpu) as [device|] eqn:Hd; [|by eapply prepares_dropped].
  rewrite G1. apply wp_bind, wp_quiet; [done|]. intros reply w2 Hw2. rewrite <-Hw2 in Ha.
  destruct (rp_errno reply =? 0); cbn [negb]; [|by eapply prepares_dropped].
  apply wp_give. destruct (session_inv_frame _ _ _ _ _ _ _ Hi Ha) as (L' & H1 & H2). split; [|split; [done|]].
  - destruct Hs as [Hn (device' & Hd' & Hrest) Hap]. split; [|done|done]. split; [done| |done].
    cbn. rewrite lookup_insert_eq. simplify_eq. eauto.
  - exists L', []. split_and!; [| |constructor|cbn; lia|done].
    + unfold kept_trap, trap_of. cbn. rewrite Hd, lookup_insert_eq, G1. done.
    + eapply session_inv_pool; [|done]. unfold pool_of. cbn. by rewrite Hd, lookup_insert_eq.
Qed.

(** With exceptions there is a page for the event. *)
Definition page_ready (state : KfdState) : Prop :=
  ks_exception_debugging_enabled state = true -> ks_queue_event_page state <> None.

Lemma allocate_part_yields state size usage :
  settled_gpu state node aperture ->
  yields (W := W) (allocate_part state node size dri_root usage) (fun r => r.2 = state).
Proof.
  intros Hs. unfold allocate_part. apply (yields_bind _ _ (fun r => r.2 = Some state));
    [|intros [[status owner] session] H; cbn in H; subst; by apply yields_give].
  unfold allocate_memory_impl. rewrite (gpu_node_settled node aperture state Hs). cbn [negb].
  destruct (_ || _); [by apply yields_give|].
  apply (yields_bind _ _ (fun r => r = (inr aperture, state))).
  { intros w. pose proof (wp_acquire_for node aperture state dri_root "KFD memory allocation"
      (fun r _ => r = (inr aperture, state)) w Hs eq_refl) as H. unfold wp in H. by case_match. }
  intros ? ->. destruct (device_render_fd _ _); [|by apply yields_give].
  eapply yields_bind; [apply yields_any|]. intros [status raw] _. case_match; by apply yields_give.
Qed.

Lemma ensure_event_page_yields state :
  settled_gpu state node aperture ->
  yields (W := W) (ensure_event_page state node dri_root)
    (fun r => queue_status_ok r.1.1 = true -> page_ready r.2).
Proof.
  intros Hs. unfold ensure_event_page. destruct (negb _) eqn:G1.
  { apply yields_give. intros _ Hd He. cbn in *. rewrite Hd, bool_decide_eq_true_2 in G1; done. }
  eapply yields_bind; [by apply allocate_part_yields|]. intros [[status owner] state'] H. cbn in H. subst state'.
  assert (forall (st : AqlQueueStatus) (flag : bool) s, queue_status_ok st = false ->
    yields (W := W) (memory_release (ks_fd state) owner ≫= fun _ => give (st, flag, s))
      (fun r => queue_status_ok r.1.1 = true -> page_ready r.2)) as Hfail.
  { intros st flag s Hst. eapply yields_bind; [apply yields_any|]. intros _ _. apply yields_give. cbn. by rewrite Hst. }
  destruct (negb (status_ok status)); [by apply Hfail|].
  eapply yields_bind; [apply yields_any|]. intros b _. destruct b; cbn [negb]; [|by apply Hfail].
  destruct (bool_decide _) eqn:G2; [by apply yields_give|].
  eapply yields_bind; [apply yields_any|]. intros _ _. apply yields_give. intros _ _. by apply bool_decide_eq_false in G2.
Qed.

Lemma ensure_event_page_spec L state (w : W) :
  settled_gpu state node aperture -> session_inv L gpu state os (ledger_of w) ->
  wp (ensure_event_page state node dri_root) (prepares node aperture os kept_page same_trap L state) w.
Proof.
  intros Hs Hi. assert (kept_page state state = []) as Hk by by apply kept_page_same.
  unfold ensure_event_page. wp_if as G1; [by apply wp_give, prepares_same|].
  apply negb_false_iff, andb_true_iff in G1 as [_ G1]. apply wp_bind.
  eapply wp_mono; [by apply (allocate_part_spec node aperture)|].
  intros [[status owner] state'] w1 (-> & Ha & Hok).
  destruct (status_ok status); cbn [negb]; [|by eapply prepares_dropped].
  apply wp_bind, wp_new. intros b w2 Hw2. rewrite <-Hw2 in Ha. destruct b; cbn [negb]; [|by eapply prepares_dropped].
  cbv zeta. rewrite G1. apply bool_decide_eq_true in G1. apply wp_give.
  destruct (session_inv_frame _ _ _ _ _ _ _ Hi Ha) as (L' & H1 & H2). split; [|split; [done|]].
  - split; [|done|done]. destruct Hs. by split.
  - exists L', []. split_and!; [|done|constructor|cbn; lia|done]. unfold kept_page. rewrite G1. done.
Qed.

Lemma create_error_event_spec L state (w : W) :
  settled_gpu state node aperture -> page_ready state -> session_inv L gpu state os (ledger_of w) ->
  wp (create_error_event state) (fun '(status, event, state') w' =>
    stays node aperture state state' /\ same_trap state state' /\ kept_page state state' = [] /\
    option_map ep_allocation (ks_queue_event_page state') = option_map ep_allocation (ks_queue_event_page state) /\
    session_inv (with_event event L) gpu state' os (ledger_of w') /\
    (ev_active event = true -> ev_event_id event ∉ lg_events L) /\
    (queue_status_ok status = true -> ev_active event = ks_exception_debugging_enabled state)) w.
Proof.
  intros Hs Hr Hi. unfold create_error_event. destruct (ks_exception_debugging_enabled state) eqn:Hd; cbn [negb].
  2:{ apply wp_give. split_and!; [by apply stays_refl|done|by apply kept_page_same|done|done|done|done]. }
  destruct (ks_queue_event_page state) as [page|] eqn:Hp; [|by destruct (Hr Hd)].
  cbv zeta. apply wp_bind. eapply wp_mono; [apply create_queue_error_event_spec|].
  intros [status event] w' (Hl & Hnew & Hact). cbn in *. apply wp_give.
  assert (session_inv (with_event event L) gpu state os (ledger_of w')) as Hs'.
  { rewrite Hl. apply session_inv_split in Hi as [Hsh Hh]. apply session_inv_split. split; [done|].
    pose proof (held_same_events _ _ _ Hh) as E. unfold with_event. case_match; [|done]. unfold add_event.
    rewrite E. by apply held_events. }
  assert (ev_active event = true -> ev_event_id event ∉ lg_events L) as Hnew'.
  { apply session_inv_split in Hi as [_ Hh]. by rewrite <-(held_same_events _ _ _ Hh). }
  destruct (queue_status_ok status); (split_and!; [|done| | |done|done|by rewrite Hact, ?Hd]).
  - split; [|done|done]. destruct Hs. by split.
  - unfold kept_page. by rewrite Hp.
  - cbn. done.
  - by apply stays_refl.
  - by apply kept_page_same.
  - by rewrite Hp.
Qed.
End preparations.
