(* ===== verification/KfdQueueLife.v ===== *)
(** * The life of a queue in its session

    Creation from the first check to the last call, on every way out, and any
    number of attempts to release what came of it. *)

From stdpp Require Import gmap fin_maps.
From S2P Require Import Prelude Memory Topology Scratch KfdKernel KfdMemory KfdMemoryFacts ScratchPool ScratchPoolFacts KfdVm KfdSession KfdTopologyFacts CwsrLayout KfdQueue KfdQueueFacts KfdQueueParts.

(** ** Putting a queue together

    The memory of a queue, what is written to it, and the driver's queue on
    top of it. *)

Import MemoryAllocationUsage.

(** ** Where the parts lie *)

Lemma held_member L raws l a :
  held L raws l -> a ∈ raws -> ra_reservation_address a <> 0 ->
  lg_ranges l !! ra_reservation_address a = Some (ra_reservation_size a) /\
  ra_reservation_address a ∉ lg_torn l.
Proof.
  intros Hh [i Hi]%list_elem_of_lookup Hz. apply delete_Permutation in Hi. rewrite Hi in Hh.
  apply held_cons_inv in Hh as (l0 & _ & Ha). split; [by eapply accounted_range|].
  pose proof (fr_whole _ _ _ (ac_fresh _ _ _ _ Ha Hz)) as Hf. destruct Ha as [-> _ _ _ _ _].
  by rewrite with_buffer_torn, with_range_torn.
Qed.

Lemma fresh_range_apart l address length start size :
  fresh_range l address length -> lg_ranges l !! start = Some size -> start ∉ lg_torn l ->
  start + size <= address \/ address + length <= start.
Proof.
  intros [Hn _ _ Ha Hf] Hs Ht. specialize (Ha _ _ Hs). specialize (Hf _ _ Hs Ht).
  assert (start <> address) by (intros ->; by rewrite Hn in Hs). lia.
Qed.

(** The part of [a]'s reservation from [s] on, [n] bytes. *)
Definition within (a : RawMemoryAllocation) (sn : Z * Z) : Prop :=
  ra_reservation_address a <= sn.1 /\ sn.1 + sn.2 <= ra_reservation_address a + ra_reservation_size a.

Definition in_parts (q : KfdQueueState) (sn : Z * Z) : Prop :=
  exists a, a ∈ parts q /\ ra_reservation_address a <> 0 /\ within a sn.

(** A queue in the ledger beside an allocation whose pages it does not use. *)
Lemma accounted_add_queue k L a l queue_id used :
  accounted k L a l ->
  (ra_reservation_address a <> 0 -> Forall (fun '(s, n) =>
     s + n <= ra_reservation_address a \/ ra_reservation_address a + ra_reservation_size a <= s) used) ->
  accounted k (add_queue queue_id used L) a (add_queue queue_id used l).
Proof.
  intros [-> Hf Hb Hc Hm Hu] Hap. split; try done.
  - unfold with_buffer, with_range. destruct k; by repeat case_match.
  - intros Hz. destruct (Hf Hz) as [F1 F2 [F3 F4] F5 F6]. split; try done. split; [done|].
    cbn. intros q u [[<- <-]|[_ Hq]]%lookup_insert_Some; [by apply Hap|by eapply F4].
Qed.

Lemma accounted_drop_queue k L a l queue_id used :
  accounted k (add_queue queue_id used L) a l -> lg_queues L !! queue_id = None ->
  exists l', accounted k L a l' /\ l = add_queue queue_id used l'.
Proof.
  intros [-> Hf Hb Hc Hm Hu] Hn. exists (with_buffer k a (with_range k a L)). split.
  - split; try done. intros Hz. destruct (Hf Hz) as [F1 F2 [F3 F4] F5 F6]. split; try done. split; [done|].
    intros q u Hq. apply (F4 q u). cbn. rewrite lookup_insert_ne; [done|]. intros <-. by rewrite Hn in Hq.
  - unfold with_buffer, with_range. destruct k; by repeat case_match.
Qed.

(** ** Owners of nothing *)

Lemma held_nothing L0 raws l :
  held L0 raws l -> Forall (fun a => holds_nothing a = true) raws -> l = L0.
Proof.
  induction 1 as [|a rest l0 l H IH Ha]; [done|]. intros [Hn Hr]%Forall_cons.
  unfold holds_nothing in Hn. apply (accounted_empty _ _ _ _) in Ha; [|lia..]. apply accounted_nothing in Ha as ->. auto.
Qed.

Lemma parts_nothing q :
  has_memory (kq_ring q) = false -> has_memory (kq_control q) = false -> has_memory (kq_eop q) = false ->
  has_memory (kq_cwsr q) = false -> Forall (fun a => holds_nothing a = true) (parts q).
Proof.
  assert (forall o, has_memory o = false -> Forall (fun a => holds_nothing a = true) (opt_raw o)) as Ho.
  { intros [o|] H; [|constructor]. apply negb_false_iff in H. by repeat constructor. }
  intros. unfold parts. rewrite !Forall_app. auto.
Qed.

(** A queue that says it owns nothing is not there. *)
Lemma queue_held_none L gpu_id os state q l :
  queue_held L gpu_id state os q l -> owns_resources q = false -> session_inv L gpu_id state os l.
Proof.
  intros (k & lp & lm & used & [Hp _ Ha _ Hq _ _]) Ho. unfold owns_resources in Ho. rewrite !orb_false_iff in Ho.
  destruct Ho as [[[[[[[[Hact Hmap] Hev] Hr] Hc] He'] Hcw] Hd] Hsc].
  unfold with_queue in Hq. rewrite Hact in Hq. subst l.
  assert (lm = lp) as ->.
  { unfold door in Ha. unfold has_memory, owns_memory in Hd. destruct (kq_doorbell q) as [owner|].
    - apply negb_false_iff in Hd. unfold holds_nothing in Hd. apply (accounted_nothing k), (accounted_empty k lp _ lm Ha); lia.
    - by apply accounted_nothing in Ha. }
  apply parts_held_session in Hp as (L1 & sl & Hh & Ht & Hs).
  unfold with_event in Hh. rewrite Hev in Hh. apply held_nothing in Hh as ->.
  - destruct Ht as [|owner Hw|owner r Hw _]; [done|done|]. cbn in Hsc. congruence.
  - by apply parts_nothing.
Qed.

Lemma owner_or_none_held L gpu_id os state q l :
  queue_held L gpu_id state os q l -> handle_held L gpu_id state os (owner_or_none q) l.
Proof.
  intros H. unfold owner_or_none. destruct (owns_resources q) eqn:Ho; [done|]. by eapply queue_held_none.
Qed.

(** ** The parts in order *)

Section build.
Context {W : Type} `{!Kernel W, !KernelLaws W} (L : ledger) (node : Node) (aperture : ProcessAperture).
Context (os : list RawScratchAllocationResult) (dri_root : string) (state : KfdState).
Context (settled : settled_gpu state node aperture).
Abbreviation gpu := (node_gpu_id node).

(** Before there is a doorbell. *)
Record building (q : KfdQueueState) (l : ledger) : Prop := {
  bd_parts : parts_held (with_event (kq_error_event q) L) gpu state os q l;
  bd_event : ev_active (kq_error_event q) = true -> ev_event_id (kq_error_event q) ∉ lg_events L;
  bd_doorbell : kq_doorbell q = None;
  bd_queue : kq_queue q = no_queue
}.

Lemma building_held q l : building q l -> queue_held L gpu state os q l.
Proof.
  intros [Hp He Hd Hq]. exists DriverPages, l, l, []. assert (door q = no_allocation) as Hdoor.
  { unfold door. by rewrite Hd. }
  split; rewrite ?Hdoor, ?Hq; try done.
Qed.

Lemma building_or_none q l : building q l -> handle_held L gpu state os (owner_or_none q) l.
Proof. intros Hb. by apply owner_or_none_held, building_held. Qed.

(** The contract of what is left to do. *)
Definition builds (P : KfdQueueState -> Prop) (r : AqlQueueStatus * option KfdQueueState * KfdState) (w : W) : Prop :=
  let '(status, queue, state') := r in
  state' = state /\ handle_held L gpu state os queue (ledger_of w) /\
  (queue_status_ok status = true -> exists q, queue = Some q /\ P q).

Lemma next_part_spec get set `{!Slot get set} P q size usage error name only_if_owning k w :
  (forall q v, kq_doorbell (set q v) = kq_doorbell q /\ kq_error_event (set q v) = kq_error_event q /\
     kq_queue (set q v) = kq_queue q) ->
  is_u64 size -> get q = None -> error <> AqlQueueError.None -> building q (ledger_of w) ->
  (forall owner w', ma_state owner = true -> allocated aperture usage size (ma_raw owner) ->
     building (set q (Some owner)) (ledger_of w') -> wp (k owner (set q (Some owner)) state) (builds P) w') ->
  wp (next_part state node size dri_root usage q set error name only_if_owning k) (builds P) w.
Proof.
  intros Hset Hsize Hget He [Hp Hev Hd Hq] Hk. unfold next_part. apply wp_bind.
  eapply wp_mono; [by apply (allocate_slot_spec (with_event (kq_error_event q) L) node aperture os get set)|].
  intros [[status owner] state'] w' (-> & Hp' & Hok).
  assert (building (set q (Some owner)) (ledger_of w')) as Hb.
  { destruct (Hset q (Some owner)) as (E1 & E2 & E3). split; rewrite ?E1, ?E2, ?E3; done. }
  destruct (status_ok status); cbn [negb].
  - destruct (Hok eq_refl) as [Hma Hal]. by apply Hk.
  - apply wp_give. split; [done|]. split; [|intros Hc; by apply bool_decide_eq_true in Hc].
    destruct only_if_owning; [by apply building_or_none|by apply building_held].
Qed.
End build.

(** ** The driver's queue on the parts *)

(** All five allocations are there, each of its size. *)
Record parts_ready (aperture : ProcessAperture) (ring_size : Z) (layout : CwsrLayout) (q : KfdQueueState)
    (ring control eop cwsr doorbell : MemoryAllocation) : Prop := {
  pr_ring : kq_ring q = Some ring /\ allocated aperture AqlRing ring_size (ma_raw ring);
  pr_control : kq_control q = Some control /\ allocated aperture General kMemoryPageSize (ma_raw control);
  pr_eop : kq_eop q = Some eop /\ allocated aperture Eop kEopBufferSize (ma_raw eop);
  pr_cwsr : kq_cwsr q = Some cwsr /\ allocated aperture General (cw_allocation_size layout) (ma_raw cwsr);
  pr_doorbell : kq_doorbell q = Some doorbell /\ ma_state doorbell = true /\
    allocated aperture Doorbell 8192 (ma_raw doorbell)
}.

Lemma allocated_address aperture usage size owner :
  usage <> Doorbell -> allocated aperture usage size (ma_raw owner) ->
  gpu_address owner = ra_gpu_address (ma_raw owner).
Proof.
  intros Hu [_ _ _ Hg _ Hm]. destruct (Hm Hu) as (H1 & H2 & H3). unfold gpu_address, gpu_mapped.
  by rewrite H1, H2, H3, Hg.
Qed.

(** Bytes of the GPU's view are bytes of the reservation. *)
Lemma allocated_within aperture usage size a s n :
  allocated aperture usage size a -> 0 <= size -> ra_gpu_address a <= s -> s + n <= ra_gpu_address a + size ->
  within a (s, n).
Proof.
  intros [(H1 & H2 & _) _ _ _ _ _] Hz Hs Hn. unfold within, backing_bytes, kMemoryPageSize in *. cbn.
  case_match; lia.
Qed.

Section start.
Context {W : Type} `{!Kernel W, !KernelLaws W} (L : ledger) (node : Node) (aperture : ProcessAperture).
Context (os : list RawScratchAllocationResult) (state : KfdState) (ring_size : Z) (layout : CwsrLayout).
Context (limit_fits : is_u64 (ap_gpuvm_limit aperture)).
Context (ring_fits : 0 <= ring_size <= UINT32_MAX).
Context (layout_covers : 0 <= cw_context_save_restore_size layout <= cw_allocation_size layout).
Abbreviation gpu := (node_gpu_id node).

(** The memory the driver is told of belongs to the parts. *)
Lemma used_in_parts q ring control eop cwsr doorbell :
  parts_ready aperture ring_size layout q ring control eop cwsr doorbell ->
  Forall (in_parts q) (queue_memory (queue_arguments_of (create_info node ring_size layout q))).
Proof.
  intros [[Hr Ar] [Hc Ac] [He Ae] [Hw Aw] _].
  assert (forall usage size owner s n, opt_raw (Some owner) ⊆ parts q -> allocated aperture usage size (ma_raw owner) ->
    0 <= size -> ra_gpu_address (ma_raw owner) <= s -> s + n <= ra_gpu_address (ma_raw owner) + size ->
    in_parts q (s, n)) as Hin.
  { intros usage size owner s n Hsub Ha Hz Hs Hn. exists (ma_raw owner). split_and!; [|pose proof (ad_reserved _ _ _ _ Ha); lia|].
    - apply Hsub. constructor.
    - by eapply allocated_within. }
  assert (opt_raw (Some ring) ⊆ parts q /\ opt_raw (Some control) ⊆ parts q /\ opt_raw (Some eop) ⊆ parts q /\
    opt_raw (Some cwsr) ⊆ parts q) as (S1 & S2 & S3 & S4).
  { unfold parts. rewrite Hr, Hc, He, Hw. set_solver. }
  pose proof Ac as [(Hb & _ & _ & Hl & _) Hpos _ _ _ _]. unfold backing_bytes in Hl. rewrite bool_decide_eq_false_2 in Hl by done.
  unfold queue_memory, queue_arguments_of, create_info, memory_gpu_address, memory_size. cbn.
  rewrite Hr, Hc, He, Hw.
  rewrite (allocated_address aperture AqlRing ring_size ring), (allocated_address aperture General kMemoryPageSize control),
    (allocated_address aperture Eop kEopBufferSize eop),
    (allocated_address aperture General (cw_allocation_size layout) cwsr) by done.
  pose proof Ae as [(_ & _ & _ & _ & _ & Hes) _ _ _ _ _]. rewrite Hes.
  rewrite to_u32_small by lia. unfold kReadDispatchIdOffset, kWriteDispatchIdOffset, kMemoryPageSize in *.
  rewrite !u64_add_small by lia.
  repeat constructor.
  - apply (Hin AqlRing ring_size ring); [done|done|lia..].
  - apply (Hin General 4096 control); [done|done|lia..].
  - apply (Hin General 4096 control); [done|done|lia..].
  - apply (Hin Eop kEopBufferSize eop); [done|done|unfold kEopBufferSize, kMemoryPageSize; lia..].
  - apply (Hin General (cw_allocation_size layout) cwsr); [done|done|lia..].
Qed.
(** What the driver uses lies inside ranges of the process, and not in the
    doorbell's. *)
Lemma used_apart_from_door lp q a l used :
  Forall (in_parts q) used -> parts_held (with_event (kq_error_event q) L) gpu state os q lp ->
  accounted DriverPages lp a l ->
  Forall (fun '(s, n) => inside l s n) used /\
  (ra_reservation_address a <> 0 -> Forall (fun '(s, n) =>
     s + n <= ra_reservation_address a \/ ra_reservation_address a + ra_reservation_size a <= s) used).
Proof.
  intros Hu (sl & _ & _ & Hh) Ha. split; [|intros Hz]; eapply Forall_impl; try exact Hu;
    intros [s n] (b & Hb & Hbz & H1 & H2); cbn in *;
    destruct (held_member _ _ _ b Hh) as [Hr Ht]; [set_solver|done| |set_solver|done|].
  - exists (ra_reservation_address b), (ra_reservation_size b). split; [by eapply accounted_keeps_range|done].
  - pose proof (fresh_range_apart _ _ _ _ _ (ac_fresh _ _ _ _ Ha Hz) Hr Ht). lia.
Qed.

(** A queue whose driver part and doorbell are up. *)
Definition queue_started (q q' : KfdQueueState) : Prop :=
  exists queue doorbell, q' = set_doorbell (set_queue q queue) (Some doorbell) /\
    queue_live (create_info node ring_size layout q) queue /\ gpu_mapped (ma_raw doorbell) = true /\
    ma_state doorbell = true /\ allocated aperture Doorbell 8192 (ma_raw doorbell) /\
    ra_host_address (ma_raw doorbell) = memory_host_address (kq_doorbell q).

Definition with_door (lp : ledger) (q : KfdQueueState) (l : ledger) : Prop :=
  parts_held (with_event (kq_error_event q) L) gpu state os q lp /\
  (ev_active (kq_error_event q) = true -> ev_event_id (kq_error_event q) ∉ lg_events L) /\
  accounted DriverPages lp (door q) l.

Lemma with_door_held lp q queue lm l used :
  with_door lp q lm -> l = with_queue used queue lm ->
  queue_beside (ra_reservation_address (door q)) (ra_host_address (door q)) lm queue ->
  queue_held L gpu state os (set_queue q queue) l.
Proof. intros (Hp & He & Ha) Hl Hb. exists DriverPages, lp, lm, used. by split. Qed.

Lemma map_door_spec lp q queue used doorbell lm w :
  kq_doorbell q = Some doorbell -> ma_state doorbell = true -> kq_queue q = queue -> rq_active queue = true ->
  allocated aperture Doorbell 8192 (ma_raw doorbell) ->
  with_door lp q lm -> Forall (in_parts q) used ->
  queue_beside (ra_reservation_address (door q)) (ra_host_address (door q)) lm queue ->
  ledger_of w = with_queue used queue lm ->
  wp (map_pending_allocation (Some state) doorbell) (fun '(status, doorbell') w' =>
    queue_held L gpu state os (set_doorbell q (Some doorbell')) (ledger_of w') /\
    ra_host_address (ma_raw doorbell') = ra_host_address (ma_raw doorbell) /\
    (status_ok status = true -> gpu_mapped (ma_raw doorbell') = true /\ ma_state doorbell' = true /\
       allocated aperture Doorbell 8192 (ma_raw doorbell'))) w.
Proof.
  intros Hd Hst Hq Hact Hal (Hp & He & Ha) Hu Hb Hw.
  assert (door q = ma_raw doorbell) as Hdoor by (unfold door; by rewrite Hd). rewrite Hdoor in *.
  destruct (used_apart_from_door _ _ _ _ _ Hu Hp Ha) as [_ Hap].
  assert (forall doorbell' lm' w', accounted DriverPages lp (ma_raw doorbell') lm' ->
    same_place (ma_raw doorbell) (ma_raw doorbell') -> ledger_of w' = with_queue used queue lm' ->
    queue_held L gpu state os (set_doorbell q (Some doorbell')) (ledger_of w')) as Hmk.
  { intros doorbell' lm' w' Ha' (S1 & S2 & S3 & S4 & S5 & S6) Hw'. exists DriverPages, lp, lm', used.
    split; try done; cbn; rewrite Hq; [done|]. unfold door. cbn. rewrite S1, S3. split.
    - intros _. pose proof (qb_fresh _ _ _ _ Hb Hact) as Hn. destruct Ha as [-> _ _ _ _ _].
      destruct Ha' as [-> _ _ _ _ _]. by rewrite with_memory_queues in *.
    - intros Hz. destruct (qb_place _ _ _ _ Hb Hz) as (H1 & H2 & [(size & Hs & Hle) Hlt Hpos _ _]).
      split_and!; [done|done|]. rewrite <-S1. eapply (accounted_inner DriverPages); [done|exact Ha'|lia|lia|lia|].
      pose proof (accounted_range _ _ _ _ Ha H2) as Hr. rewrite Hr in Hs. simplify_eq. lia. }
  unfold with_queue in Hw, Hmk. rewrite Hact in *.
  apply (accounted_add_queue _ _ _ _ (rq_queue_id queue) used) in Ha as Haq; [|done]. rewrite <-Hw in Haq.
  assert (lg_queues lp !! rq_queue_id queue = None) as Hfree.
  { pose proof (qb_fresh _ _ _ _ Hb Hact) as Hn. destruct Ha as [-> _ _ _ _ _]. by rewrite with_memory_queues in Hn. }
  unfold map_pending_allocation. rewrite Hst. cbn [negb orb].
  assert (forall status w', status_ok status = false -> ledger_of w' = ledger_of w ->
    queue_held L gpu state os (set_doorbell q (Some doorbell)) (ledger_of w') /\
    ra_host_address (ma_raw doorbell) = ra_host_address (ma_raw doorbell) /\
    (status_ok status = true -> gpu_mapped (ma_raw doorbell) = true /\ ma_state doorbell = true /\
       allocated aperture Doorbell 8192 (ma_raw doorbell))) as Hfail.
  { intros status w' Hs Hw'. split_and!; [|done|by rewrite Hs]. eapply Hmk; [done|done|by rewrite Hw']. }
  wp_if as G1; [by apply wp_give, Hfail|]. apply wp_bind, wp_new. intros b w1 Hw1.
  destruct b; cbn [negb]; [|by apply wp_give, Hfail].
  pose proof (ad_gpu _ _ _ _ Hal) as Hids. rewrite <-Hw1 in Haq.
  apply wp_bind. eapply wp_mono; [eapply map_memory_accounts; [exact Haq|by rewrite Hids]|].
  intros [status b] w2 (Hb2 & Hpl & Hgi & Hok). apply wp_give. cbn.
  assert (set_mapping (ma_raw doorbell) (ra_gpu_ids b) (ra_mapped_device_count b) (ra_unmapped_device_count b)
    (ra_map_complete b) = b) as ->.
  { destruct Hpl as (S1 & S2 & S3 & S4 & S5 & S6), b; cbn in *. unfold set_mapping. by rewrite S1, S2, S3, S4, S5, S6. }
  destruct (accounted_drop_queue _ _ _ _ _ _ Hb2 Hfree) as (lm' & Ha' & Hl'). split_and!; [|done|].
  - by eapply Hmk.
  - intros Hs. destruct (Hok Hs) as (M1 & M2 & M3). split_and!; [|done|].
    + unfold gpu_mapped. rewrite M1, M2, M3, Z.eqb_refl, Hgi, Hids. done.
    + destruct Hal as [Hpd Hrs Hh Hg Hho _], Hpl as (S1 & S2 & S3 & S4 & S5 & S6). unfold well_placed in Hpd.
      split; unfold well_placed; rewrite ?S1, ?S2, ?S3, ?S4, ?S5, ?S6, ?Hgi; done.
Qed.
Lemma start_queue_spec lp q ring control eop cwsr doorbell w :
  parts_ready aperture ring_size layout q ring control eop cwsr doorbell ->
  with_door lp q (ledger_of w) -> kq_queue q = no_queue ->
  wp (start_queue state node ring_size layout q) (builds L node os state (queue_started q)) w.
Proof.
  intros Hpr Hwd Hnq. pose proof (used_in_parts _ _ _ _ _ _ Hpr) as Hu.
  destruct (pr_doorbell _ _ _ _ _ _ _ _ _ Hpr) as (Hd & Hst & Hal).
  assert (door q = ma_raw doorbell) as Hdoor by (unfold door; by rewrite Hd).
  pose proof Hal as [(P1 & P2 & P3 & P4 & _ & _) Hpos _ _ Hhost _].
  assert (ra_reservation_address (ma_raw doorbell) <> 0) as Hres by lia.
  rewrite bool_decide_eq_false_2 in Hhost by done. unfold backing_bytes in P2, P4.
  rewrite bool_decide_eq_false_2 in P2, P4 by done. unfold kMemoryPageSize in *.
  pose proof Hwd as (Hp & He & Ha). destruct (used_apart_from_door _ _ _ _ _ Hu Hp Ha) as [Hin Hap].
  rewrite Hdoor in Ha, Hap. specialize (Hap Hres).
  set (info := create_info node ring_size layout q) in *.
  assert (ci_doorbell_mapping_address info = ra_host_address (ma_raw doorbell)) as Hinfo.
  { cbn. unfold memory_host_address. by rewrite Hd. }
  unfold start_queue. fold info. apply wp_bind.
  eapply wp_mono; [apply (create_aql_queue_spec (ra_reservation_address (ma_raw doorbell))
    (ra_host_address (ma_raw doorbell)) (queue_memory (queue_arguments_of info)) _ info (ledger_of w))|].
  all: rewrite ?Hinfo; try done; try lia.
  - unfold info, create_info. cbn. case_match; auto.
  - eapply (accounted_inner DriverPages); [done|exact Ha|done|lia..].
  - eapply Forall_impl; [exact Hap|]. intros [s m]. lia.
  - intros [created queue] w1 [Hleft Hlive]. cbn in Hleft, Hlive.
    assert (queue_held L gpu state os (set_queue q queue) (ledger_of w1)) as Hheld.
    { destruct Hleft as [[Hw1 Hb]|(Hw1 & _ & Hg & Hm)].
      - eapply with_door_held; [exact Hwd|exact Hw1|by rewrite Hdoor].
      - exists TornPages, lp, (ledger_of w1), []. split; try done.
        + rewrite Hw1. unfold door. cbn. rewrite Hd. by apply accounted_tear.
        + unfold with_queue. cbn. by rewrite Hg.
        + cbn. split; [by rewrite Hg|by rewrite Hm]. }
    destruct (queue_status_ok created) eqn:Hc; cbn [negb].
    2:{ apply wp_give. split_and!; [done|done|by rewrite Hc]. }
    cbn [kq_doorbell set_queue]. rewrite Hd. specialize (Hlive eq_refl). pose proof (ql_active _ _ Hlive) as Hact.
    destruct Hleft as [[Hw1 Hb]|(_ & _ & Hg & _)]; [|congruence].
    apply wp_bind. eapply wp_mono; [eapply (map_door_spec lp (set_queue q queue) queue
      (queue_memory (queue_arguments_of info)) doorbell (ledger_of w)); try done|].
    { change (door (set_queue q queue)) with (door q). by rewrite Hdoor. }
    intros [mapped doorbell'] w2 (Hh & Hpl & Hok). destruct (status_ok mapped); cbn [negb]; apply wp_give.
    + split_and!; [done|done|]. intros _. eexists. split; [done|]. exists queue, doorbell'. destruct (Hok eq_refl) as (O1 & O2 & O3). split_and!; [done..|].
      unfold memory_host_address. by rewrite Hd.
    + split_and!; done.
Qed.
End start.

(** ** A complete queue *)

(** The handles of the control block's exception word, when there is one. *)
Definition reason_address (state : KfdState) (control : MemoryAllocation) : Z :=
  if ks_exception_debugging_enabled state then u64_add (gpu_address control) kQueueErrorReasonOffset else 0.

(** A queue that can be used: its five allocations, the ring full of packets
    nobody has written, the control block that describes the queue, the
    headers of the save areas, the driver's queue on that memory, and its
    doorbell inside a window the GPU sees. *)
Record queue_complete (node : Node) (aperture : ProcessAperture) (state : KfdState) (ring_size : Z)
    (layout : CwsrLayout) (fields : Z -> AmdQueueFields) (q : KfdQueueState)
    (ring control eop cwsr doorbell : MemoryAllocation) : Prop := {
  qc_parts : parts_ready aperture ring_size layout q ring control eop cwsr doorbell;
  qc_live : queue_live (create_info node ring_size layout q) (kq_queue q);
  qc_mapped : gpu_mapped (ma_raw doorbell) = true;
  qc_ring : (kq_contents q).1.1 = concat (replicate (Z.to_nat (ring_size / kAqlPacketSize)) invalid_packet);
  qc_control : (kq_contents q).1.2 =
    amd_queue_bytes (fields (gpu_address ring)) ++ replicate (Z.to_nat (kMemoryPageSize - 256)) x00;
  qc_cwsr xcc : 0 <= xcc < cw_xcc_count layout ->
    slice (kq_contents q).2 (xcc * cw_context_save_restore_size layout + 16) 20 =
      header_bytes (cwsr_header layout (reason_address state control) (ev_event_id (kq_error_event q)) xcc)
}.

Section whole.
Context {W : Type} `{!Kernel W, !KernelLaws W} (L : ledger) (node : Node) (aperture : ProcessAperture).
Context (os : list RawScratchAllocationResult) (dri_root : string) (state : KfdState).
Context (settled : settled_gpu state node aperture).
Context (ring_size : Z) (ring_valid : valid_ring_size ring_size = true).
Context (layout : CwsrLayout) (known : node_wf node) (computed : compute_cwsr_layout node = inr layout).
Context (save_area : node_cwsr_size node = 0 \/ 40 <= node_cwsr_size node).
Abbreviation gpu := (node_gpu_id node).
Abbreviation building := (building L node os state).
Abbreviation builds := (builds L node os state).

Lemma next_door_spec P q error name k w :
  error <> AqlQueueError.None -> building q (ledger_of w) ->
  (forall owner lp w', ma_state owner = true -> allocated aperture Doorbell 8192 (ma_raw owner) ->
     with_door L node os state lp (set_doorbell q (Some owner)) (ledger_of w') ->
     wp (k owner (set_doorbell q (Some owner)) state) (builds P) w') ->
  wp (next_part state node (Z.max kMemoryPageSize (u64_mul kDoorbellCount 8)) dri_root Doorbell q set_doorbell
    error name false k) (builds P) w.
Proof.
  intros He [Hp Hev Hd Hq] Hk. unfold next_part. apply wp_bind.
  eapply wp_mono; [by apply (allocate_part_spec node aperture)|].
  intros [[status owner] state'] w' (-> & Ha & Hok).
  assert (with_door L node os state (ledger_of w) (set_doorbell q (Some owner)) (ledger_of w')) as Hwd by by split_and!.
  destruct (status_ok status); cbn [negb].
  - destruct (Hok eq_refl) as [Hma Hal]. by eapply Hk.
  - apply wp_give. split; [done|]. split; [|intros Hc; by apply bool_decide_eq_true in Hc].
    eapply (with_door_held L node os state _ _ no_queue _ _ []) in Hwd; [|done|done].
    destruct q. cbn in *. by subst.
Qed.

Lemma valid_ring_size_bounds :
  4096 <= ring_size <= 8388608 /\ ring_size = ring_size / kAqlPacketSize * kAqlPacketSize.
Proof.
  unfold valid_ring_size, kAqlRingMinimumSize, kAqlRingMaximumSize, kAqlPacketSize in *.
  apply negb_true_iff in ring_valid. rewrite !orb_false_iff in ring_valid. destruct ring_valid as [[H1 H2] H3].
  apply negb_false_iff in H3. assert (4096 <= ring_size <= 8388608) as Hr by (unfold kMemoryPageSize in *; lia).
  split; [done|].
  apply CodeObject.is_power_of_two_spec in H3 as (k & Hk & Hp); [|lia..].
  assert (6 <= k) as Hk6.
  { destruct (decide (6 <= k)) as [|Hn]; [done|]. assert (2 ^ k <= 2 ^ 6) by (apply Z.pow_le_mono_r; lia). lia. }
  rewrite Hp. replace k with (k - 6 + 6) by lia. rewrite Z.pow_add_r by lia. change (2 ^ 6) with 64.
  by rewrite Z.div_mul.
Qed.

Lemma build_queue_spec private_segment_size hsa_queue_id maximum_wave_id scratch q w :
  kq_ring q = None -> kq_control q = None -> kq_eop q = None -> kq_cwsr q = None ->
  building q (ledger_of w) ->
  wp (build_queue state node ring_size private_segment_size dri_root hsa_queue_id maximum_wave_id layout
        aperture scratch q)
    (builds (fun q' => kq_error_event q' = kq_error_event q /\ kq_scratch q' = kq_scratch q /\
       exists ring control eop cwsr doorbell,
       queue_complete node aperture state ring_size layout (fun ring_address =>
         control_fields node ring_address ring_size hsa_queue_id maximum_wave_id aperture scratch) q'
         ring control eop cwsr doorbell)) w.
Proof.
  intros N1 N2 N3 N4 Hb. destruct valid_ring_size_bounds as [Hrs Hpk].
  destruct (cwsr_layout_covers node layout known computed) as [Hcov Hu64].
  pose proof (sg_aperture _ _ _ settled) as [_ Hlim].
  unfold build_queue.
  apply (next_part_spec L node aperture os dri_root state settled kq_ring set_ring); [by intros; split_and!|lia|done|done|done|].
  intros ring w1 _ Ar B1.
  assert (forall usage size owner, allocated aperture usage size (ma_raw owner) -> ra_size (ma_raw owner) = size) as Hbuf.
  { by intros usage size owner [(_ & _ & _ & _ & _ & Hsz) _ _ _ _ _]. }
  pose proof (Hbuf _ _ _ Ar) as Zr. apply wp_bind, wp_sized_buffer; [lia|]. intros ring_buffer Sr. rewrite Zr in Sr |- *.
  pose proof (initialize_ring_spec ring_buffer (ring_size / kAqlPacketSize)) as Hring. rewrite <-Hpk in Hring.
  eapply wp_bind, wp_write_memory; [apply Hring; [apply Z.div_pos; unfold kAqlPacketSize; lia|done]|].
  apply (next_part_spec L node aperture os dri_root state settled kq_control set_control); [by intros; split_and!|done..|].
  intros control w2 _ Ac B2.
  apply (next_part_spec L node aperture os dri_root state settled kq_eop set_eop); [by intros; split_and!|done..|].
  intros eop w3 _ Ae B3.
  apply (next_part_spec L node aperture os dri_root state settled kq_cwsr set_cwsr); [by intros; split_and!|done..|].
  intros cwsr w4 _ Aw B4. apply next_door_spec; [done|done|]. intros doorbell lp w5 Hst Ad Hwd. cbv zeta.
  pose proof (Hbuf _ _ _ Aw) as Zw. pose proof (Hbuf _ _ _ Ac) as Zc.
  fold (reason_address state control). apply wp_bind, wp_sized_buffer; [lia|]. intros cwsr_buffer Sw. rewrite Zw in Sw.
  destruct (initialize_cwsr_spec node layout cwsr_buffer (reason_address state control)
    (ev_event_id (kq_error_event q)) known computed save_area Sw) as (cwsr_bytes & Hcw & _ & Hheaders).
  eapply wp_bind, wp_write_memory; [exact Hcw|].
  apply wp_bind, wp_sized_buffer; [rewrite Zc; done|]. intros control_buffer Sc. rewrite Zc in Sc.
  eapply wp_bind, wp_write_memory; [rewrite Zc; apply initialize_control_spec; done|].
  set (q6 := set_contents _ _).
  eapply wp_mono; [apply (start_queue_spec L node aperture os state ring_size layout) with
    (lp := lp) (q := q6) (ring := ring) (control := control) (eop := eop) (cwsr := cwsr) (doorbell := doorbell)|].
  all: try done.
  - lia.
  - unfold q6. cbn. apply (bd_queue _ _ _ _ _ _ B4).
  - intros [[status queue] state'] w6 (-> & Hh & Hok). split_and!; [done|done|]. intros Hs.
    destruct (Hok Hs) as (q' & -> & raw & door' & -> & Hlive & Hmap & Hst' & Had & Hhost). eexists. split; [done|].
    split; [done|]. split; [done|]. exists ring, control, eop, cwsr, door'. split; try done.
    + cbn. unfold create_info in *. cbn in *. by rewrite Hhost.
    + intros xcc Hx. apply (Hheaders xcc Hx).
Qed.
End whole.

(** ** The life of a queue in its session

    Creation from the first check to the last call, on every way out, and any
    number of attempts to release what came of it. *)

Import MemoryAllocationUsage.

(** ** What the session has kept *)

Definition kept (gpu_id : Z) (state state' : KfdState) : list RawMemoryAllocation :=
  kept_trap gpu_id state state' ++ kept_page state state'.

Lemma kept_trap_to gpu_id state s1 s2 :
  trap_of s2 gpu_id = trap_of s1 gpu_id -> kept_trap gpu_id state s2 = kept_trap gpu_id state s1.
Proof. intros H. unfold kept_trap. by rewrite H. Qed.

Lemma kept_page_to state s1 s2 :
  option_map ep_allocation (ks_queue_event_page s2) = option_map ep_allocation (ks_queue_event_page s1) ->
  kept_page state s2 = kept_page state s1.
Proof.
  intros H. unfold kept_page.
  destruct (ks_queue_event_page state), (ks_queue_event_page s1), (ks_queue_event_page s2); cbn in H; congruence.
Qed.

Lemma kept_page_from s1 s2 state :
  ks_queue_event_page s2 = ks_queue_event_page s1 -> kept_page s2 state = kept_page s1 state.
Proof. intros H. unfold kept_page. by rewrite H. Qed.

Lemma same_but_pools_trap state state' gpu_id : same_but_pools state state' -> trap_of state' gpu_id = trap_of state gpu_id.
Proof.
  intros H. pose proof (sb_devices _ _ H gpu_id) as He. unfold trap_of.
  destruct (ks_device_vms state !! gpu_id) as [d|], (ks_device_vms state' !! gpu_id) as [d'|]; try done.
  injection He. congruence.
Qed.

Lemma make_queue_scratch_control_at_safe node private_segment_size backing aperture :
  node_typed node -> is_u32 private_segment_size ->
  safe (make_queue_scratch_control_at node private_segment_size backing aperture) (fun _ => True).
Proof.
  intros Ht Hp. unfold make_queue_scratch_control_at.
  eapply safe_bind; [by apply queue_scratch_requirements_at_safe|]. intros r _. by repeat case_match.
Qed.

Section assemble.
Context {W : Type} `{!Kernel W, !KernelLaws W} (L : ledger) (node : Node) (aperture : ProcessAperture).
Context (os : list RawScratchAllocationResult) (dri_root : string) (trap_handler_code : bytes).
Context (code_fits : size_of trap_handler_code <= kMemoryPageSize).
Context (ring_size : Z) (ring_valid : valid_ring_size ring_size = true).
Context (layout : CwsrLayout) (known : node_wf node) (computed : compute_cwsr_layout node = inr layout).
Context (save_area : node_cwsr_size node = 0 \/ 40 <= node_cwsr_size node).
Abbreviation gpu := (node_gpu_id node).

(** What the caller gets, from the session [state]: what is held is the rest,
    what the session keeps, what the queue holds and, after a failure, at most
    one allocation whose release was refused, and at most one range of the pool
    that is forgotten. *)
Definition creates_queue (state : KfdState) (complete : KfdState -> KfdQueueState -> Prop)
    (r : AqlQueueStatus * option KfdQueueState * KfdState) (w : W) : Prop :=
  let '(status, queue, state') := r in
  stays node aperture state state' /\
  exists L' leaked forgotten, held L (kept gpu state state' ++ leaked) L' /\
    handle_held L' gpu state' (forgotten ++ os) queue (ledger_of w) /\
    Forall (release_refused W) leaked /\ Forall (range_forgotten (W := W)) forgotten /\
    (length leaked + length forgotten <= 1)%nat /\
    (queue_status_ok status = true -> leaked = [] /\ forgotten = [] /\ exists q, queue = Some q /\ complete state' q).

(** A queue that has nothing yet. *)
Lemma new_queue_building L0 state rs private_segment_size l :
  session_inv L0 gpu state os l ->
  building L0 node os state (new_queue gpu rs private_segment_size) l.
Proof.
  intros H. split; try done. cbn. unfold with_event. cbn. by apply parts_held_none.
Qed.

Lemma handed_out_held L0 state rs private_segment_size (only_if_owning : bool) l :
  session_inv L0 gpu state os l ->
  let q := new_queue gpu rs private_segment_size in
  handle_held L0 gpu state os (if only_if_owning then owner_or_none q else Some q) l.
Proof.
  intros H q. apply (new_queue_building L0 state rs private_segment_size) in H.
  destruct only_if_owning; [by apply building_or_none|by apply building_held].
Qed.

Lemma stays_trans s1 s2 s3 : stays node aperture s1 s2 -> stays node aperture s2 s3 -> stays node aperture s1 s3.
Proof. intros [] []. split; congruence. Qed.

(** The scratch description in the control block, for the backing the queue got. *)
Definition describes (private_segment_size : Z) (window : ScratchAperture) (q : KfdQueueState)
    (scratch : QueueScratchControl) : Prop :=
  exists r, make_queue_scratch_control_at node private_segment_size (scratch_gpu_address (kq_scratch q)) window =
    Ok (r, scratch).

Definition finished (private_segment_size hsa_queue_id maximum_wave_id : Z) (window : ScratchAperture)
    (state : KfdState) (q : KfdQueueState) : Prop :=
  exists scratch ring control eop cwsr doorbell, describes private_segment_size window q scratch /\
    ev_active (kq_error_event q) = ks_exception_debugging_enabled state /\
    queue_complete node aperture state ring_size layout (fun ring_address =>
      control_fields node ring_address ring_size hsa_queue_id maximum_wave_id aperture scratch) q
      ring control eop cwsr doorbell.
Lemma equip_queue_spec L0 state private_segment_size hsa_queue_id maximum_wave_id window scratch_size q w :
  settled_gpu state node aperture -> is_u32 private_segment_size -> 0 <= scratch_size ->
  kq_ring q = None -> kq_control q = None -> kq_eop q = None -> kq_cwsr q = None -> kq_scratch q = None ->
  ev_active (kq_error_event q) = ks_exception_debugging_enabled state ->
  building L0 node os state q (ledger_of w) ->
  wp (equip_queue state node ring_size private_segment_size dri_root hsa_queue_id maximum_wave_id layout aperture
        window scratch_size q) (fun '(status, queue, state') w' =>
    same_but_pools state state' /\ exists forgotten,
    handle_held L0 gpu state' (forgotten ++ os) queue (ledger_of w') /\
    Forall (range_forgotten (W := W)) forgotten /\ (length forgotten <= 1)%nat /\
    (queue_status_ok status = true -> forgotten = [] /\ exists q', queue = Some q' /\
       finished private_segment_size hsa_queue_id maximum_wave_id window state' q')) w.
Proof.
  intros Hs Hps Hsz N1 N2 N3 N4 N5 Hev Hb. unfold equip_queue.
  apply wp_bind. eapply wp_mono; [apply (prepare_scratch_spec (with_event (kq_error_event q) L0) node aperture os state q);
    [done|done|done|apply Hb]|].
  intros [[status q4] s4] w4 (Hsb & (scratch_owner & ->) & forgotten & Hp4 & Hf & Hn & Hgone).
  assert (building L0 node (forgotten ++ os) s4 (set_scratch q scratch_owner) (ledger_of w4)) as B4 by by destruct Hb; split.
  assert (forall status, queue_status_ok status = false -> same_but_pools state s4 /\ exists forgotten,
    handle_held L0 gpu s4 (forgotten ++ os) (owner_or_none (set_scratch q scratch_owner)) (ledger_of w4) /\
    Forall (range_forgotten (W := W)) forgotten /\ (length forgotten <= 1)%nat /\
    (queue_status_ok status = true -> forgotten = [] /\ exists q', owner_or_none (set_scratch q scratch_owner) = Some q' /\
       finished private_segment_size hsa_queue_id maximum_wave_id window s4 q')) as Hfail.
  { intros st Hst. split; [done|]. exists forgotten. split_and!; [by apply building_or_none|done|done|by rewrite Hst]. }
  destruct (status_ok status); cbn [negb]; [|by apply wp_give, Hfail, bool_decide_eq_false].
  rewrite (Hgone eq_refl) in B4.
  pose proof (make_queue_scratch_control_at_safe node private_segment_size
    (scratch_gpu_address (kq_scratch (set_scratch q scratch_owner))) window (nw_typed _ known) Hps) as Hsafe.
  destruct (make_queue_scratch_control_at _ _ _ _) as [[r scratch]|bad|f] eqn:Hctl; [|by apply wp_give, Hfail|done].
  eapply wp_mono; [eapply (build_queue_spec L0 node aperture os dri_root s4); try done|].
  { by eapply settled_gpu_same. }
  intros [[status5 queue] s5] w5 (-> & Hh & Hok). split; [done|]. exists []. split_and!; [done|constructor|cbn; lia|].
  intros Q5. split; [done|].
  destruct (Hok Q5) as (q' & -> & Ee & Es & ring & control & eop & cwsr & doorbell & Hcomplete).
  exists q'. split; [done|]. exists scratch, ring, control, eop, cwsr, doorbell. split_and!; [| |done].
  - exists r. by rewrite Es.
  - rewrite Ee. cbn. by rewrite Hev, (sb_debugging _ _ Hsb).
Qed.

Lemma stays_pools s1 s2 : same_but_pools s1 s2 -> settled_gpu s1 node aperture -> stays node aperture s1 s2.
Proof. intros Hsb Hs. split; [by eapply settled_gpu_same|apply Hsb|apply Hsb]. Qed.

Lemma assemble_queue_spec state private_segment_size hsa_queue_id maximum_wave_id window scratch_size w :
  settled_gpu state node aperture -> is_u32 private_segment_size -> 0 <= scratch_size ->
  session_inv L gpu state os (ledger_of w) ->
  wp (assemble_queue trap_handler_code state node ring_size private_segment_size dri_root hsa_queue_id
        maximum_wave_id layout aperture window scratch_size)
    (creates_queue state (finished private_segment_size hsa_queue_id maximum_wave_id window)) w.
Proof.
  intros Hs Hps Hsz Hi. unfold assemble_queue. cbv zeta.
  apply wp_bind. eapply wp_mono; [by apply (configure_trap_handler_spec node aperture)|].
  intros [[status flag] s1] w1 (St1 & F1 & L1 & k1 & H1 & I1 & R1 & N1 & Hok1).
  unfold same_page in F1. destruct (queue_status_ok status) eqn:Q1; cbn [negb].
  2:{ apply wp_give. split; [done|]. exists L1, k1, []. unfold kept. rewrite (kept_page_same state s1 F1), app_nil_r.
      split_and!; [done|by apply handed_out_held|done|constructor|cbn; lia|by rewrite Q1]. }
  rewrite (Hok1 eq_refl), app_nil_r in H1. pose proof (st_settled _ _ _ _ St1) as Hs1.
  pose proof (ensure_event_page_spec node aperture os dri_root L1 s1 w1 Hs1 I1) as Hpage.
  apply wp_bind. eapply wp_mono; [exact (wp_yields _ _ _ _ Hpage (ensure_event_page_yields node aperture dri_root s1 Hs1))|].
  intros [[status2 flag2] s2] w2 [(St2 & F2 & L2 & k2 & H2 & I2 & R2 & N2 & Hok2) Hready]. cbn in Hready.
  assert (held L (kept gpu state s2 ++ k2) L2) as H2'.
  { unfold kept. rewrite (kept_trap_to gpu state s1 s2 F2), <-(kept_page_from state s1 s2 F1).
    rewrite <-app_assoc, Permutation_app_comm, held_app. eauto. }
  pose proof (stays_trans _ _ _ St1 St2) as St12. destruct (queue_status_ok status2) eqn:Q2; cbn [negb].
  2:{ apply wp_give. split; [done|]. exists L2, k2, [].
      split_and!; [done|by apply handed_out_held|done|constructor|cbn; lia|by rewrite Q2]. }
  rewrite (Hok2 eq_refl) in H2'. apply wp_bind.
  eapply wp_mono; [by apply (create_error_event_spec node aperture os L2 s2); [apply St2|auto|]|].
  intros [[status3 event] s3] w3 (St3 & F3 & _ & F3' & I3 & Hnew & Hact). pose proof (stays_trans _ _ _ St12 St3) as St.
  assert (forall s4, same_but_pools s3 s4 -> stays node aperture state s4 /\ held L (kept gpu state s4 ++ []) L2) as Hkept.
  { intros s4 Hsb. split; [by eapply stays_trans, stays_pools; [|apply Hsb|apply St]|].
    unfold kept. rewrite (kept_trap_to gpu state s2 s4), (kept_page_to state s2 s4); [done| |].
    - by rewrite (sb_page _ _ Hsb).
    - by rewrite (same_but_pools_trap _ _ _ Hsb). }
  set (q3 := set_error_event _ event).
  assert (building L2 node os s3 q3 (ledger_of w3)) as B3 by (split; try done; by apply parts_held_none).
  destruct (queue_status_ok status3) eqn:Q3; cbn [negb].
  2:{ apply wp_give. destruct (Hkept s3) as [K1 K2]; [done|]. split; [done|]. exists L2, [], [].
      split_and!; [done|by apply building_or_none|constructor|constructor|cbn; lia|by rewrite Q3]. }
  eapply wp_mono; [apply (equip_queue_spec L2 s3); try done|]; [apply St3|by rewrite (st_debugging _ _ _ _ St3); apply Hact|].
  intros [[status4 queue] s4] w4 (Hsb & forgotten & Hh & Hf & Hn & Hok). destruct (Hkept s4 Hsb) as [K1 K2].
  split; [done|]. exists L2, [], forgotten. split_and!; [done|done|constructor|done|done|].
  intros Q4. split; [done|]. by apply Hok.
Qed.
End assemble.

(** ** Files do not touch memory *)

Lemma handle_held_files L gpu_id state os queue l : handle_held L gpu_id state os queue l -> lg_files l = lg_files L.
Proof.
  destruct queue as [q|]; cbn.
  - intros (k & lp & lm & used & [(sl & _ & _ & Hh) _ Ha _ Hq _ _]).
    transitivity (lg_files lm); [rewrite Hq; unfold with_queue; by case_match|].
    rewrite (accounted_same_files _ _ _ _ Ha), (held_same_files _ _ _ Hh). unfold with_event. by case_match.
  - intros [_ Hh]%session_inv_split. by apply held_same_files in Hh.
Qed.

Lemma session_inv_files L gpu_id state os l F :
  session_inv L gpu_id state os l -> session_inv (set_files L F) gpu_id state os (set_files l F).
Proof. intros [Hs Hh]%session_inv_split. apply session_inv_split. split; [done|]. by apply held_files. Qed.

Lemma session_inv_same_files L gpu_id state os l : session_inv L gpu_id state os l -> set_files L (lg_files l) = L.
Proof. intros [_ Hh]%session_inv_split. rewrite (held_same_files _ _ _ Hh). apply set_files_id. Qed.

(** ** Acquisition leaves a settled GPU *)

Section acquired.
Context {W : Type} `{!Kernel W}.

Definition has_minor (node : Node) (r : VmResult * KfdState) : Prop :=
  vm_ok (vr_status r.1) = true ->
  is_gpu node = true /\ node_gpu_id node <> 0 /\ 0 <= node_drm_render_minor node /\
  exists device, ks_device_vms r.2 !! node_gpu_id node = Some device /\
    dv_drm_render_minor device = node_drm_render_minor node.

Lemma acquire_open_vm_minor state node dri_root :
  yields (W := W) (acquire_open_vm state node dri_root) (has_minor node).
Proof.
  unfold acquire_open_vm. destruct (_ || _) eqn:G1; [by apply yields_give|].
  rewrite !orb_false_iff in G1. destruct G1 as [[G1 G2] G3]. apply negb_false_iff in G1.
  assert (forall device, dv_drm_render_minor device = node_drm_render_minor node ->
    yields (W := W) (acquire_device state (node_gpu_id node) device) (has_minor node)) as Hdev.
  { intros device Hm. assert (forall d, dv_drm_render_minor d = node_drm_render_minor node ->
      yields (W := W) (finish_device state (node_gpu_id node) d) (has_minor node)) as Hfin.
    - intros d Hd. unfold finish_device. eapply yields_bind; [apply yields_any|]. intros policy _.
      destruct (vm_ok policy) eqn:Hp; cbn [negb]; [|apply yields_give; intros Hok; cbn in Hok; congruence].
      cbv zeta. eapply yields_bind; [apply yields_any|]. intros queried _.
      destruct (vm_ok (vr_status queried)) eqn:Hq; cbn [negb]; apply yields_give; [|intros Hok; cbn in Hok; congruence].
      intros _. split_and!; [done|lia|lia|]. cbn. rewrite lookup_insert_eq. eauto.
    - unfold acquire_device. destruct (dv_acquired device); [by apply Hfin|].
      eapply yields_bind; [apply yields_any|]. intros reply _. destruct (negb _); [|by apply Hfin].
      eapply yields_bind; [apply yields_any|]. intros _ _. by apply yields_give. }
  destruct (ks_device_vms state !! node_gpu_id node) as [device|] eqn:Hd.
  - destruct (Z.eqb_spec (dv_drm_render_minor device) (node_drm_render_minor node)) as [Hm|]; cbn [negb];
      [|by apply yields_give].
    destruct (dv_aperture_valid device); [|by apply Hdev].
    apply yields_give. intros _. split_and!; [done|lia|lia|]. cbn. eauto.
  - apply (yields_bind _ _ (fun r => match r with inr d => dv_drm_render_minor d = node_drm_render_minor node
      | inl status => vm_ok status = false end)).
    + unfold open_device. cbv zeta. eapply yields_bind; [apply yields_any|]. intros [errno|render_fd] _; [by apply yields_give|].
      eapply yields_bind; [apply yields_any|]. intros b _. destruct b; cbn [negb]; [by apply yields_give|].
      eapply yields_bind; [apply yields_any|]. intros _ _. by apply yields_give.
    + intros [status|device] Hm; [|by apply Hdev]. apply yields_give. intros Hok. cbn in *. congruence.
Qed.
End acquired.

Section create.
Context {W : Type} `{!Kernel W, !KernelLaws W} (dri_root : string) (trap_handler_code : bytes).
Context (code_fits : size_of trap_handler_code <= kMemoryPageSize).
Context (node : Node) (known : node_wf node).
Context (save_area : node_cwsr_size node = 0 \/ 40 <= node_cwsr_size node).
Abbreviation gpu := (node_gpu_id node).

(** [L] is what is held beside the GPU's pool and the scratch [os] of other
    queues; the files are the session's, in [Lf]. *)
Record session_ready (Lf L : ledger) (state : KfdState) (os : list RawScratchAllocationResult) (l : ledger) : Prop := {
  sr_vms : vm_inv Lf state l;
  sr_pool : session_inv L gpu state os l
}.

(** After an acquisition: the same, with the files as they are now. *)
Lemma acquire_for_queue Lf L state os w :
  session_ready Lf L state os (ledger_of w) ->
  wp (acquire_open_vm state node dri_root) (fun '(acquired, state') w' =>
    session_ready Lf (set_files L (lg_files (ledger_of w'))) state' os (ledger_of w') /\ keeps state state' /\
    (vm_ok (vr_status acquired) = true -> settled_gpu state' node (vr_aperture acquired))) w.
Proof.
  intros [Hv Hp]. pose proof (acquire_open_vm_spec Lf state node dri_root w Hv) as Hacq.
  eapply wp_mono; [exact (wp_yields _ _ _ _ Hacq (acquire_open_vm_minor state node dri_root))|].
  intros [acquired state'] w' [(Hv' & Hk & Hok) Hminor]. cbn in *. split_and!; [|done|].
  - split; [done|]. pose proof (vi_rest _ _ _ Hv) as E1. pose proof (vi_rest _ _ _ Hv') as E2.
    assert (ledger_of w' = set_files (ledger_of w) (lg_files (ledger_of w'))) as E3.
    { rewrite E1. rewrite E2 at 1. done. }
    rewrite E3 at 2. apply session_inv_files. by eapply session_inv_pool; [apply Hk|].
  - intros Hvm. destruct (Hminor Hvm) as (Hg & Hid & Hm & d & Hd & Hdm). destruct (Hok Hvm) as (d' & Hd' & Hva & Hap).
    cbn in Hd. rewrite Hd' in Hd. injection Hd as <-.
    destruct (vi_devices _ _ _ Hv' _ _ Hd') as [Hacqd Hdap]. destruct (Hdap Hva) as (_ & Hapok & Hlim).
    rewrite <-Hap. split; [done| |split; [apply Hapok|done]]. exists d'. by split_and!.
Qed.
(** What a creation leaves to the caller. *)
Definition queue_created (L : ledger) (state : KfdState) (os : list RawScratchAllocationResult)
    (P : KfdState -> KfdQueueState -> Prop)
    (r : AqlQueueStatus * option KfdQueueState * option KfdState) (w : W) : Prop :=
  let '(status, queue, session) := r in
  exists state' L' leaked forgotten, session = Some state' /\
    held (set_files L (lg_files (ledger_of w))) (kept gpu state state' ++ leaked) L' /\
    handle_held L' gpu state' (forgotten ++ os) queue (ledger_of w) /\
    Forall (release_refused W) leaked /\ Forall (range_forgotten (W := W)) forgotten /\
    (length leaked + length forgotten <= 1)%nat /\
    (queue_status_ok status = true -> leaked = [] /\ forgotten = [] /\ exists q, queue = Some q /\ P state' q).

Lemma queue_refused L state state' os P status w :
  keeps state state' -> session_inv (set_files L (lg_files (ledger_of w))) gpu state' os (ledger_of w) ->
  queue_status_ok status = false -> queue_created L state os P (status, None, Some state') w.
Proof.
  intros Hk Hi Hs. exists state', (set_files L (lg_files (ledger_of w))), [], [].
  unfold kept. rewrite kept_trap_same, kept_page_same by apply Hk. rewrite Hs.
  split_and!; [done|constructor|done|constructor|constructor|cbn; lia|done].
Qed.

(** What a queue that was created is like. *)
Definition usable (ring_size private_segment_size hsa_queue_id : Z) (state : KfdState) (q : KfdQueueState) : Prop :=
  exists aperture layout window, compute_cwsr_layout node = inr layout /\ settled_gpu state node aperture /\
    finished node aperture ring_size layout private_segment_size hsa_queue_id
      (u64_mul (node_maximum_waves_per_simd node) (node_simd_per_compute_unit node)) window state q.

Lemma session_create_spec Lf L state os ring_size private_segment_size hsa_queue_id w :
  session_ready Lf L state os (ledger_of w) -> is_u32 private_segment_size ->
  wp (session_create_aql_queue trap_handler_code (Some state) node ring_size private_segment_size dri_root hsa_queue_id)
    (queue_created L state os (usable ring_size private_segment_size hsa_queue_id)) w.
Proof.
  intros Hr Hps. set (P := usable ring_size private_segment_size hsa_queue_id).
  assert (forall status, queue_status_ok status = false -> queue_created L state os P (status, None, Some state) w) as Hrefuse.
  { intros status Hs. apply queue_refused; [apply keeps_refl| |done]. destruct Hr as [_ Hp].
    by rewrite (session_inv_same_files _ _ _ _ _ Hp). }
  unfold session_create_aql_queue. wp_if as G1; [by apply wp_give, Hrefuse|].
  apply orb_false_iff in G1 as [G1 _]. apply negb_false_iff in G1. cbv zeta.
  wp_if as G2; [by apply wp_give, Hrefuse|].
  pose proof (cwsr_layout_spec node known) as Hlayout.
  destruct (compute_cwsr_layout node) as [status|layout] eqn:Hcw.
  { apply wp_give, Hrefuse. destruct Hlayout as [He _]. unfold queue_status_ok. by rewrite He. }
  clear Hlayout. apply wp_bind. eapply wp_mono; [by apply (acquire_for_queue Lf L)|].
  intros [acquired s1] w1 ([_ Hp1] & Hk & Hset).
  destruct (vm_ok (vr_status acquired)); cbn [negb]; [|by apply wp_give, queue_refused].
  specialize (Hset eq_refl). set (aperture := vr_aperture acquired) in *.
  wp_if as G3; [by apply wp_give, queue_refused|]. set (window := mkScratchAperture _ _).
  pose proof (queue_scratch_requirements_at_safe node private_segment_size window (nw_typed _ known) Hps) as Hreq.
  destruct (queue_scratch_requirements_at _ _ _) as [requirements|bad|f]; [|by apply wp_give, queue_refused|done].
  apply wp_bind, wp_new. intros b w2 Hw2. rewrite <-Hw2 in Hp1.
  destruct b; cbn [negb]; [|by apply wp_give, queue_refused].
  apply wp_bind. eapply wp_mono.
  { eapply (assemble_queue_spec (set_files L (lg_files (ledger_of w2))) node aperture os dri_root trap_handler_code
      code_fits ring_size G1 layout known Hcw save_area s1); try done.
    destruct Hreq as [_ _ Hz Hnz _ _]. destruct (decide (private_segment_size = 0)) as [E|E].
    - destruct (Hz E) as (-> & _). done.
    - destruct (Hnz E) as (_ & _ & _ & ?). lia. }
  intros [[status queue] s2] w3 (St & L' & leaked & forgotten & H1 & H2 & H3 & H3' & Hn & H4). apply wp_give.
  exists s2, L', leaked, forgotten.
  assert (lg_files (ledger_of w3) = lg_files (ledger_of w2)) as Hfiles.
  { rewrite (handle_held_files _ _ _ _ _ _ H2), (held_same_files _ _ _ H1). done. }
  rewrite Hfiles. split_and!; [done| |done|done|done|done|].
  - replace (kept gpu state s2) with (kept gpu s1 s2); [done|]. unfold kept, kept_trap.
    by rewrite (kp_trap _ _ Hk), (kept_page_from state s1 s2) by apply Hk.
  - intros Hs. destruct (H4 Hs) as (E & E' & q & Hq & Hfin). split; [done|]. split; [done|]. exists q. split; [done|].
    exists aperture, layout, window. split_and!; [done|apply St|done].
Qed.
End create.

(** ** Release *)

Section release.
Context {W : Type} `{!Kernel W, !KernelLaws W} (L : ledger) (gpu_id : Z) (os : list RawScratchAllocationResult).

(** [n] releases more than one: the last status, and what is left. *)
Fixpoint queue_attempts (n : nat) (state : KfdState) (queue : option KfdQueueState)
  : kfd W (AqlQueueStatus * option KfdQueueState * KfdState) :=
  match n with
  | O => queue_release state queue
  | S n => '(_, queue, state) ← queue_release state queue; queue_attempts n state queue
  end.

Lemma queue_attempts_spec n state queue w :
  gpu_id <> 0 -> handle_held L gpu_id state os queue (ledger_of w) ->
  wp (queue_attempts n state queue) (queue_releases L gpu_id os) w.
Proof.
  intros Hg. revert state queue w. induction n as [|n IH]; intros state queue w Hh; cbn [queue_attempts];
    [by apply queue_release_spec|].
  apply wp_bind. eapply wp_mono; [by apply (queue_release_spec L gpu_id Hg os)|].
  intros [[status queue'] state'] w' [Hh' _]. by apply IH.
Qed.

(** The destructor's two attempts: what is given up is still accounted for. *)
Lemma release_for_destruction_spec state queue w :
  gpu_id <> 0 -> handle_held L gpu_id state os queue (ledger_of w) ->
  wp (release_for_destruction state queue) (fun '(lost, state') w' =>
    handle_held L gpu_id state' os lost (ledger_of w')) w.
Proof.
  intros Hg Hh. unfold release_for_destruction. apply wp_bind.
  eapply wp_mono; [by apply (queue_release_spec L gpu_id Hg os)|]. intros [[status queue1] state1] w1 [H1 O1].
  apply wp_bind. apply (wp_mono _ (queue_releases L gpu_id os)).
  2:{ intros [[status2 queue2] state2] w2 [H2 O2]. apply wp_give. destruct (queue_status_ok status2).
      - by rewrite (O2 eq_refl) in H2.
      - destruct queue2 as [q|]; [by apply owner_or_none_held|done]. }
  destruct (queue_status_ok status) eqn:Hs; [|by apply queue_release_spec].
  apply wp_give. split; [done|]. by rewrite Hs.
Qed.
End release.

(** ** The two halves of a queue's life *)


(** C17: releasing a queue never loses anything.  Any number of
    [AqlQueue::release] calls on a queue, whatever they are answered, keeps
    the account of what the queue holds: its event, memory, doorbell and driver
    queue, and the range of the scratch pool that its owner names by address,
    size and backing; one that succeeds leaves no queue and only what was held
    beside it; and what the destructor gives up after its two attempts is still
    exactly what the queue names. *)
Theorem aql_queue_release {W} `{!Kernel W, !KernelLaws W} L gpu_id state os queue (w : W) :
  gpu_id <> 0 -> handle_held L gpu_id state os queue (ledger_of w) ->
  (forall n, wp (queue_attempts n state queue) (fun '(status, queue', state') w' =>
     handle_held L gpu_id state' os queue' (ledger_of w') /\
     (queue_status_ok status = true -> queue' = None /\ session_inv L gpu_id state' os (ledger_of w'))) w) /\
  wp (release_for_destruction state queue) (fun '(lost, state') w' =>
     handle_held L gpu_id state' os lost (ledger_of w')) w.
Proof.
  intros Hg Hh. split; [|by apply release_for_destruction_spec]. intros n.
  eapply wp_mono; [by apply (queue_attempts_spec L gpu_id os)|].
  intros [[status queue'] state'] w' [H1 H2]. split; [done|]. intros Hs. specialize (H2 Hs). by subst.
Qed.
