(* ===== verification/KfdImage.v ===== *)
(** * Executable images of the KFD transport

    [transport/kfd/executable_image.cpp]: an image of the runtime in executable
    memory of a session, from its requirements to its release. *)

From stdpp Require Import gmap fin_maps.
From S2P Require Import Prelude Memory CodeObject ExecutableImage ImageValidation ImageContents Topology KfdKernel KfdMemory KfdMemoryFacts ScratchPool KfdVm KfdSession KfdQueue.

(** [ExecutableImageStatus] of the transport *)
Record KfdImageStatus := mkKfdImageStatus {
  xs_error : ExecutableImageError.t;
  xs_memory_status : MemoryStatus;
  xs_message : string
}.

Definition kfd_image_ok (status : KfdImageStatus) : bool :=
  bool_decide (xs_error status = ExecutableImageError.None).

Definition from_runtime_status (status : ExecutableImageStatus) : KfdImageStatus :=
  mkKfdImageStatus (is_error status) no_error (is_message status).

(** [ExecutableImage] of the transport *)
Record KfdExecutableImage := mkKfdImage {
  xi_allocation : MemoryAllocation;
  xi_image : ExecutableImageInfo
}.

Definition no_kfd_image : KfdExecutableImage := mkKfdImage no_memory default_image_info.

Definition invalidate (image : KfdExecutableImage) : KfdExecutableImage :=
  mkKfdImage (xi_allocation image) default_image_info.

(** The move constructor: the new object, and what is left of the other. *)
Definition kfd_image_move (other : KfdExecutableImage) : KfdExecutableImage * KfdExecutableImage :=
  let '(allocation, allocation_left) := memory_move (xi_allocation other) in
  let '(image, image_left) := image_move (xi_image other) in
  (mkKfdImage allocation image, invalidate (mkKfdImage allocation_left image_left)).

(** The accessors. *)
Definition image_host_address (image : KfdExecutableImage) : Z :=
  if ii_valid (xi_image image) then ra_host_address (ma_raw (xi_allocation image)) else 0.
Definition owns_allocation (image : KfdExecutableImage) : bool := owns_memory (xi_allocation image).
Definition kfd_image_translate (image : KfdExecutableImage) := image_translate (xi_image image).

Definition owns_executable_image (session : option KfdState) (image : KfdExecutableImage) (node : Node)
  : bool :=
  match session with
  | Some _ =>
      is_gpu node && negb (node_gpu_id node =? 0) && ii_valid (xi_image image) &&
      ma_state (xi_allocation image) &&
      bool_decide (ra_gpu_ids (ma_raw (xi_allocation image)) = [node_gpu_id node])
  | None => false
  end.

Section image.
Context {W : Type} `{!Kernel W}.

(** [ExecutableImage::release] *)
Definition kfd_image_release (kfd_fd : Z) (image : KfdExecutableImage)
  : kfd W (MemoryStatus * KfdExecutableImage) :=
  '(status, allocation) ← memory_release kfd_fd (xi_allocation image);
  let image := mkKfdImage allocation (xi_image image) in
  give (status,
    if negb (bool_decide (ms_error status = MemoryError.UnmapFromGpu)) then invalidate image else image).

(** A function that only touches memory of the process. *)
Definition returned {A} (r : result Empty_set A) : kfd W A :=
  fun w => match r with Ok a => Ok (a, w) | Err e => Err e | Fault f => Fault f end.

(** The descriptor of the session that owns the allocation. *)
Definition session_fd (session : option KfdState) : Z :=
  match session with Some state => ks_fd state | None => -1 end.

(** The image that could not be materialized: its memory goes, or stays with
    the result. *)
Definition discard_image (kfd_fd : Z) (status : KfdImageStatus) (allocation : MemoryAllocation)
  : kfd W (KfdImageStatus * KfdExecutableImage) :=
  '(cleanup_status, allocation) ← memory_release kfd_fd allocation;
  if negb (KfdMemory.status_ok cleanup_status) then
    give (mkKfdImageStatus (xs_error status) cleanup_status
            (xs_message status +:+ "; executable allocation cleanup failed: " +:+ ms_message cleanup_status),
          mkKfdImage allocation default_image_info)
  else give (status, no_kfd_image).

(** The third component is what the allocation holds when the function
    returns. *)
Definition kfd_materialize_executable_image (session : option KfdState) (node : Node) (hsaco : bytes)
    (code_object : CodeObject) (dri_root : string)
  : kfd W (KfdImageStatus * KfdExecutableImage * bytes * option KfdState) :=
  let requirements := executable_image_requirements (Some hsaco) (size_of hsaco) code_object in
  if negb (ExecutableImage.status_ok (rq_status requirements)) then
    give (from_runtime_status (rq_status requirements), no_kfd_image, [], session)
  else
    '(allocated, allocation, session) ←
      allocate_executable_vram session node (rq_allocation_size requirements) dri_root;
    contents ← buffer_of allocation;
    if negb (KfdMemory.status_ok allocated) then
      give (mkKfdImageStatus ExecutableImageError.AllocationFailed allocated
              ("executable VRAM allocation failed: " +:+ ms_message allocated),
            mkKfdImage allocation default_image_info, contents, session)
    else
      '(materialized, memory) ← returned
        (materialize_executable_image (Some hsaco) (size_of hsaco) code_object
           (if ra_host_address (ma_raw allocation) =? 0 then None else Some contents)
           (ra_size (ma_raw allocation)) (gpu_address allocation));
      if negb (ExecutableImage.status_ok (mr_status materialized)) then
        '(status, image) ←
          discard_image (session_fd session) (from_runtime_status (mr_status materialized)) allocation;
        give (status, image, contents, session)
      else
        give (mkKfdImageStatus ExecutableImageError.None no_error "",
              mkKfdImage allocation (mr_image materialized), default contents memory, session).
End image.

(** ** Ownership *)

Section facts.
Context {W : Type} `{!Kernel W, !KernelLaws W}.

Abbreviation raw image := (ma_raw (xi_allocation image)).

(** However often the image is released: its memory stays accounted for beside
    [l], a success leaves only [l], and the image stays usable only while the
    GPU may still have it mapped. *)
Definition image_releasable (fd : Z) (l : ledger) (image : KfdExecutableImage) (w : W) : Prop :=
  forall n, wp (attempts (kfd_image_release fd) n image) (fun '(status, image') w' =>
    accounted DriverPages l (raw image') (ledger_of w') /\
    (KfdMemory.status_ok status = true ->
       owns_allocation image' = false /\ ii_valid (xi_image image') = false /\ ledger_of w' = l) /\
    (ii_valid (xi_image image') = true -> ms_error status = MemoryError.UnmapFromGpu)) w.

Lemma kfd_image_release_spec fd l image (w : W) :
  accounted DriverPages l (raw image) (ledger_of w) ->
  wp (kfd_image_release fd image) (fun r w' =>
    accounted DriverPages l (raw r.2) (ledger_of w') /\
    ((KfdMemory.status_ok r.1 = true ->
       owns_allocation r.2 = false /\ ii_valid (xi_image r.2) = false /\ ledger_of w' = l) /\
    (ii_valid (xi_image r.2) = true -> ms_error r.1 = MemoryError.UnmapFromGpu))) w.
Proof.
  intros Ha. unfold kfd_image_release. apply wp_bind.
  eapply wp_mono; [by eapply (memory_release_spec DriverPages l)|]. intros [status allocation] w' [H1 H2].
  apply wp_give. cbn [fst snd] in *. destruct (bool_decide (ms_error status = _)) eqn:E; cbn [negb].
  - apply bool_decide_eq_true in E. split_and!; [done| |done]. unfold KfdMemory.status_ok. rewrite E. done.
  - split_and!; [done| |done]. intros Hok. destruct (H2 Hok) as [Ho Hl]. by split_and!.
Qed.

Lemma accounted_image_releasable fd l image (w : W) :
  accounted DriverPages l (raw image) (ledger_of w) -> image_releasable fd l image w.
Proof.
  intros Ha n. eapply wp_mono.
  { apply (attempts_inv (fun i w => accounted DriverPages l (raw i) (ledger_of w)) (fun r w =>
      (KfdMemory.status_ok r.1 = true ->
         owns_allocation r.2 = false /\ ii_valid (xi_image r.2) = false /\ ledger_of w = l) /\
      (ii_valid (xi_image r.2) = true -> ms_error r.1 = MemoryError.UnmapFromGpu))); [|exact Ha].
    intros i w0 Hi. by apply kfd_image_release_spec. }
  intros [status image'] w' [H1 [H2 H3]]. by split_and!.
Qed.

(** What a materialization leaves. *)
Definition image_materialized (L : ledger) (hsaco : bytes) (code_object : CodeObject)
    (r : KfdImageStatus * KfdExecutableImage * bytes * option KfdState) (w : W) : Prop :=
  let '(status, image, contents, session) := r in
  let plan := co_load_plan code_object in
  let base := gpu_address (xi_allocation image) in
  exists state l, session = Some state /\ vm_inv L state l /\
    accounted DriverPages l (raw image) (ledger_of w) /\
    (if kfd_image_ok status then
       plan_valid (size_of hsaco) code_object plan /\
       (exists initial, size_of initial = ra_size (raw image) /\
          image_contents hsaco plan (page_rounded_size plan) (base - plan_image_virtual_address plan)
            initial contents) /\
       xi_image image = mkImageInfo code_object (page_rounded_size plan) base
         (resolved_kernel code_object base <$> co_kernels code_object) true
     else ii_valid (xi_image image) = false) /\
    image_releasable (ks_fd state) l image w.

Lemma image_materialized_failed L hsaco code_object status image contents state l (w : W) :
  kfd_image_ok status = false -> ii_valid (xi_image image) = false -> vm_inv L state l ->
  accounted DriverPages l (raw image) (ledger_of w) ->
  image_materialized L hsaco code_object (status, image, contents, Some state) w.
Proof.
  intros Hs Hi Hv Ha. exists state, l. rewrite Hs. split_and!; try done. by apply accounted_image_releasable.
Qed.

Lemma discard_image_spec L hsaco code_object status allocation contents state l (w : W) :
  kfd_image_ok status = false -> vm_inv L state l ->
  accounted DriverPages l (ma_raw allocation) (ledger_of w) ->
  wp (discard_image (ks_fd state) status allocation) (fun '(status, image) w' =>
    image_materialized L hsaco code_object (status, image, contents, Some state) w') w.
Proof.
  intros Hs Hv Ha. unfold discard_image. apply wp_bind.
  eapply wp_mono; [by eapply (memory_release_spec DriverPages l)|]. intros [cleanup allocation'] w' [H1 H2].
  cbn [fst snd] in *. destruct (KfdMemory.status_ok cleanup) eqn:Ec; cbn [negb]; apply wp_give.
  - eapply image_materialized_failed; [done|done|exact Hv|]. apply accounted_nothing. by apply H2.
  - eapply image_materialized_failed; [|done|exact Hv|exact H1]. exact Hs.
Qed.
End facts.

(** The memory an executable allocation gives to the runtime. *)
Lemma allocated_destination aperture size owner :
  allocated aperture MemoryAllocationUsage.Executable size (ma_raw owner) -> 0 < size ->
  is_u64 (ap_gpuvm_limit aperture) ->
  (ra_host_address (ma_raw owner) =? 0) = false /\ 0 <= ra_size (ma_raw owner) /\
  is_u64 (ra_gpu_address (ma_raw owner)).
Proof.
  intros [(P1 & P2 & P3 & P4 & P5 & P6) H1 _ _ H2 _] Hs Hl. rewrite bool_decide_eq_false_2 in H2 by done.
  unfold kMemoryPageSize, backing_bytes in *. rewrite bool_decide_eq_false_2 in P2, P4 by done.
  split_and!; lia.
Qed.

(** C21: an image is materialized completely or not at all, and its memory is
    never lost.  On a session whose table is consistent, for any node and any
    typed code object, and whatever the kernel answers, the function returns
    with a consistent table and beside it exactly the memory the returned image
    owns.  On success the plan was valid, and whatever the new memory contained,
    it holds the segments of the
    file over zeros with every relocated word in place for the address at which
    the GPU sees it, and the image resolves every kernel there; after a failure
    it is unusable.  Any number of [release] calls keeps the account, one that
    succeeds leaves only the table, and the image stays usable only when the
    unmapping from the GPU failed. *)
Theorem kfd_image_lifecycle {W} `{!Kernel W, !KernelLaws W} L state node hsaco code_object dri_root (w : W) :
  vm_inv L state (ledger_of w) ->
  plan_typed (co_load_plan code_object) -> Forall kernel_typed (co_kernels code_object) ->
  wp (kfd_materialize_executable_image (Some state) node hsaco code_object dri_root)
    (image_materialized L hsaco code_object) w.
Proof.
  intros Hinv Hplan Hkernels. unfold kfd_materialize_executable_image.
  set (requirements := executable_image_requirements (Some hsaco) (size_of hsaco) code_object).
  destruct (ExecutableImage.status_ok (rq_status requirements)) eqn:Hreq; cbn [negb].
  2: { apply wp_give. eapply image_materialized_failed; [exact Hreq|done|exact Hinv|].
    by apply accounted_nothing. }
  assert (rq_allocation_size requirements = page_rounded_size (co_load_plan code_object)) as Hsize
    by by apply validate_plan_size.
  pose proof Hreq as [_ Hvalid]%validate_plan_accepts; [|done..].
  pose proof (pv_image _ _ _ Hvalid). pose proof (pv_roundable _ _ _ Hvalid).
  destruct (page_rounded_size_bounds (co_load_plan code_object)) as (Hb1 & _ & Hb); [lia|].
  apply wp_bind. eapply wp_mono; [apply (allocate_memory_impl_spec L); [done|by rewrite Hsize]|].
  intros [[allocated allocation] session] w1 (state1 & l & -> & Hinv1 & Hacc & Hok & _).
  apply wp_bind, wp_buffer_of. intros initial Hinitial.
  destruct (KfdMemory.status_ok allocated) eqn:Ha; cbn [negb].
  2: { apply wp_give. by eapply image_materialized_failed. }
  destruct (Hok eq_refl) as (device & _ & Hcomplete & Hlimit & Haddress). rewrite (Haddress ltac:(done)).
  destruct (allocated_destination _ _ _ Hcomplete) as (Hhost & Hlen & Hgpu); [lia|done|].
  rewrite Z.max_r in Hinitial by done. rewrite Hhost. apply wp_bind.
  destruct (materialize_spec hsaco code_object initial (ra_gpu_address (ma_raw allocation)))
    as (outcome & memory & Hrun & Hspec); [done|done|done|]. rewrite <-Hinitial, Hrun. unfold returned, wp at 1.
  destruct (ExecutableImage.status_ok (mr_status outcome)) eqn:Hm; cbn [negb].
  - destruct Hspec as (_ & Hcontents & Himage). apply wp_give. exists state1, l.
    cbn [xi_allocation xi_image]. rewrite (Haddress ltac:(done)). split_and!; try done.
    + split_and!; [done | by exists initial | done].
    + by apply accounted_image_releasable.
  - apply wp_bind. eapply wp_mono; [by eapply (discard_image_spec L hsaco code_object)|].
    intros [status image] w2 Hr. apply wp_give. exact Hr.
Qed.
