(* ===== verification/KfdCodeCache.v ===== *)
(** * Code-cache invalidation on a KFD queue

    [transport/kfd/code_cache.cpp]: the command and the signal of an
    invalidation, the packet that makes the GPU use them, and the ways out.
    The functions call the session, the queue and the device and have no loops
    of their own, so they are finite trees of calls, each with every answer it
    may get; what they do is the trace of calls and answers. *)

From stdpp Require Import gmap.
From S2P Require Import Prelude Memory CodeObject ExecutableImage Topology CodeCache CwsrLayout AqlQueue KfdKernel KfdMemory ScratchPool KfdVm KfdSession KfdSignal KfdImage.

(** ** Calls *)

(** The address of an [AqlQueue] object. *)
Definition queue_address := positive.

Inductive cacheE : Type -> Type :=
| NewState : cacheE bool
| OwnsQueue (queue : AqlQueue) (node : Node) : cacheE bool
| AllocateExecutable (node : Node) (size : Z) (dri_root : string)
    : cacheE (MemoryStatus * MemoryAllocation)
| CreateSignal (node : Node) (initial_value : Z) (dri_root : string)
    : cacheE (UserSignalStatus * UserSignal)
| SignalHandle (signal : UserSignal) : cacheE Z
| LoadSignal (signal : UserSignal) : cacheE Z
| WaitSignal (signal : UserSignal) (value deadline : Z) : cacheE bool
| ReleaseSignal (signal : UserSignal) : cacheE (UserSignalStatus * UserSignal)
| ReleaseMemory (memory : MemoryAllocation) : cacheE (MemoryStatus * MemoryAllocation)
| ReleaseQueue (address : queue_address) (queue : AqlQueue) : cacheE (AqlQueueStatus * AqlQueue)
| WriteBytes (address : Z) (contents : bytes) : cacheE unit
| FlushHostWrites (address size : Z) : cacheE unit
| LoadReadIndex (queue : AqlQueue) : cacheE Z
| LoadWriteIndex (queue : AqlQueue) : cacheE Z
| AddWriteIndex (queue : AqlQueue) (increment : Z) : cacheE AqlQueueIndexResult
| StoreHeader (queue : queue_address) (address header : Z) : cacheE unit
| StoreDoorbell (queue : AqlQueue) (value : Z) : cacheE unit.

(** A tree of calls; [Crash] is an access to an empty [optional]. *)
Inductive prog (A : Type) :=
| Ret (a : A)
| Crash
| Call {X : Type} (e : cacheE X) (k : X -> prog A).
Arguments Ret {A} a.
Arguments Crash {A}.
Arguments Call {A X} e k.

Fixpoint prog_bind {A B} (p : prog A) (k : A -> prog B) : prog B :=
  match p with
  | Ret a => k a
  | Crash => Crash
  | Call e h => Call e (fun x => prog_bind (h x) k)
  end.

#[global] Instance prog_ret : MRet prog := fun A => Ret.
#[global] Instance prog_mbind : MBind prog := fun A B k p => prog_bind p k.

Definition ask {X} (e : cacheE X) : prog X := Call e Ret.

(** [*optional] *)
Definition value_of {A} (o : option A) : prog A :=
  match o with Some a => mret a | None => Crash end.

(** ** Status *)

Module CodeCacheError.
Inductive t :=
| None
| InvalidArgument
| AllocateState
| AllocateCommand
| AllocateSignal
| QueueFull
| ReservePacket
| RingDoorbell
| WaitForCompletion
| DestroyQueue
| ReleaseSignal
| ReleaseCommand.
End CodeCacheError.

#[global] Instance code_cache_error_eq : EqDecision CodeCacheError.t.
Proof. solve_decision. Defined.

Record CodeCacheStatus := mkCacheStatus {
  ccs_error : CodeCacheError.t;
  ccs_system_error : Z;
  ccs_message : string
}.

Definition cache_ok : CodeCacheStatus := mkCacheStatus CodeCacheError.None 0 "".

Definition cache_status_ok (status : CodeCacheStatus) : bool :=
  bool_decide (ccs_error status = CodeCacheError.None).

(** [failure(error, message, system_error = 0)] *)
Definition cache_failure (error : CodeCacheError.t) (message : string) (system_error : Z)
  : CodeCacheStatus := mkCacheStatus error system_error message.

(** A second failure is added to the message of the first. *)
Definition add_failure (separator : string) (primary additional : CodeCacheStatus) : CodeCacheStatus :=
  if cache_status_ok additional then primary
  else if cache_status_ok primary then additional
  else mkCacheStatus (ccs_error primary)
         (if ccs_system_error primary =? 0 then ccs_system_error additional else ccs_system_error primary)
         (ccs_message primary +:+ separator +:+ ccs_message additional).

Definition merge_cleanup_failure := add_failure "; cleanup failed: ".
Definition append_cleanup_failure := add_failure "; additional cleanup failure: ".

Definition code_cache_error_name (error : CodeCacheError.t) : string :=
  match error with
  | CodeCacheError.None => "none"
  | CodeCacheError.InvalidArgument => "invalid_argument"
  | CodeCacheError.AllocateState => "allocate_state"
  | CodeCacheError.AllocateCommand => "allocate_command"
  | CodeCacheError.AllocateSignal => "allocate_signal"
  | CodeCacheError.QueueFull => "queue_full"
  | CodeCacheError.ReservePacket => "reserve_packet"
  | CodeCacheError.RingDoorbell => "ring_doorbell"
  | CodeCacheError.WaitForCompletion => "wait_for_completion"
  | CodeCacheError.DestroyQueue => "destroy_queue"
  | CodeCacheError.ReleaseSignal => "release_signal"
  | CodeCacheError.ReleaseCommand => "release_command"
  end.

(** The messages of the queue's primitives. *)
Definition primitive_message (error : AqlQueuePrimitiveError) : string :=
  match error with
  | PrimitiveNone => ""
  | PrimitiveInvalidQueue => "AQL queue is not active"
  | PrimitiveInvalidIncrement => "queue write-index increment must be non-zero"
  | PrimitiveIndexOverflow => "queue write-index increment would overflow"
  | PrimitiveInvalidDoorbell => "AQL queue has no doorbell mapping"
  end.

(** ** The operation *)

Record CodeCacheOperationState := mkOperation {
  os_command : option MemoryAllocation;
  os_signal : option UserSignal;
  os_submitted_queue : option queue_address;
  os_submitted : bool
}.

(** The [unique_ptr] of the operation object. *)
Definition CodeCacheOperation := option CodeCacheOperationState.

Definition owned_command (state : CodeCacheOperationState) : bool :=
  match os_command state with Some command => owns_memory command | None => false end.

(** The signal, if there is one that owns a slot. *)
Definition owned_signal (state : CodeCacheOperationState) : bool :=
  match os_signal state with Some signal => bool_decide (is_Some signal) | None => false end.

Definition operation_owns (operation : CodeCacheOperation) : bool :=
  match operation with Some state => owned_command state || owned_signal state | None => false end.

Definition set_command (x : option MemoryAllocation) (s : CodeCacheOperationState) :=
  mkOperation x (os_signal s) (os_submitted_queue s) (os_submitted s).
Definition set_signal (x : option UserSignal) (s : CodeCacheOperationState) :=
  mkOperation (os_command s) x (os_submitted_queue s) (os_submitted s).
Definition set_submitted (x : option queue_address) (y : bool) (s : CodeCacheOperationState) :=
  mkOperation (os_command s) (os_signal s) x y.

(** ** Release *)

Definition release_signal_part (state : CodeCacheOperationState)
  : prog (CodeCacheStatus * CodeCacheOperationState) :=
  match os_signal state with
  | None => mret (cache_ok, state)
  | Some signal =>
      '(released, signal) ← ask (ReleaseSignal signal);
      mret (if signal_status_ok released then (cache_ok, set_signal None state)
            else (cache_failure CodeCacheError.ReleaseSignal (us_message released)
                    (us_system_error released), set_signal (Some signal) state))
  end.

Definition release_command_part (state : CodeCacheOperationState)
  : prog (CodeCacheStatus * CodeCacheOperationState) :=
  match os_command state with
  | None => mret (cache_ok, state)
  | Some command =>
      '(released, command) ← ask (ReleaseMemory command);
      mret (if KfdMemory.status_ok released then (cache_ok, set_command None state)
            else (cache_failure CodeCacheError.ReleaseCommand (ms_message released)
                    (ms_system_error released), set_command (Some command) state))
  end.

Definition release_resources (state : CodeCacheOperationState)
  : prog (CodeCacheStatus * CodeCacheOperationState) :=
  '(signal_status, state) ← release_signal_part state;
  '(command_status, state) ← release_command_part state;
  mret (append_cleanup_failure (append_cleanup_failure cache_ok signal_status) command_status, state).

(** What is still owned stays with the operation. *)
Definition drop_if_empty (state : CodeCacheOperationState) : CodeCacheOperation :=
  if operation_owns (Some state) then Some state else None.

(** The part after the packet is out of the way. *)
Definition release_unsubmitted (state : CodeCacheOperationState) (queue : AqlQueue)
  : prog (CodeCacheStatus * CodeCacheOperation * AqlQueue) :=
  '(status, state) ← release_resources (set_submitted None false state);
  mret (status, drop_if_empty state, queue).

(** [CodeCacheOperation::release] *)
Definition operation_release (operation : CodeCacheOperation) (address : queue_address) (queue : AqlQueue)
  : prog (CodeCacheStatus * CodeCacheOperation * AqlQueue) :=
  match operation with
  | None => mret (cache_ok, None, queue)
  | Some state =>
      if os_submitted state then
        if negb (bool_decide (os_submitted_queue state = Some address)) then
          mret (cache_failure CodeCacheError.InvalidArgument
                  "cache operation must be released with its submitted AQL queue" 0, operation, queue)
        else if negb (owned_signal state) then
          mret (cache_failure CodeCacheError.InvalidArgument
                  "submitted cache operation has no completion signal" 0, operation, queue)
        else
          signal ← value_of (os_signal state);
          value ← ask (LoadSignal signal);
          if negb (value =? 0) then
            '(queue_status, queue) ← ask (ReleaseQueue address queue);
            if negb (queue_status_ok queue_status) then
              mret (cache_failure CodeCacheError.DestroyQueue (qst_message queue_status)
                      (qst_system_error queue_status), operation, queue)
            else release_unsubmitted state queue
          else release_unsubmitted state queue
      else
        '(status, state) ← release_resources state;
        mret (status, drop_if_empty state, queue)
  end.

(** The second attempt of the destructor; what is left is given up. *)
Definition release_for_good (state : CodeCacheOperationState) : prog CodeCacheOperation :=
  '(status, state) ← release_resources (set_submitted None false state);
  '(_, state) ← (if cache_status_ok status then mret (status, state) else release_resources state);
  mret (drop_if_empty state).

(** [release_for_destruction]; the result is what is kept until the end of the
    process. *)
Definition operation_destroy (operation : CodeCacheOperation) : prog CodeCacheOperation :=
  match operation with
  | None => mret None
  | Some state =>
      if os_submitted state && owned_signal state then
        signal ← value_of (os_signal state);
        value ← ask (LoadSignal signal);
        if negb (value =? 0) then mret (Some state) else release_for_good state
      else release_for_good state
  end.

(** ** Freezing an image *)

(** The 64 bytes of the packet. *)
Definition pm4_packet_bytes (packet : AqlPm4IndirectBufferPacket) : bytes :=
  le_bytes 2 (pm_header packet) ++ le_bytes 2 (pm_vendor_header packet) ++
  (pm_indirect_buffer packet ≫= le_bytes 4) ++ le_bytes 4 (pm_dword_count_remaining packet) ++
  replicate 32 x00 ++ le_bytes 8 (pm_completion_signal packet).

(** The header goes last. *)
Definition publish_packet (address : queue_address) (slot : Z) (packet : AqlPm4IndirectBufferPacket)
  : prog unit :=
  let packet_bytes := pm4_packet_bytes packet in
  _ ← ask (StoreHeader address slot kAqlPacketTypeInvalid);
  _ ← ask (WriteBytes (slot + 4) (drop 4 packet_bytes));
  ask (StoreHeader address slot (le_value (take 4 packet_bytes))).

(** Release, and the failure that led to it. *)
Definition finish_before_submission (status : CodeCacheStatus) (state : CodeCacheOperationState)
    (address : queue_address) (queue : AqlQueue) : prog (CodeCacheStatus * CodeCacheOperation * AqlQueue) :=
  '(cleanup, operation, queue) ← operation_release (Some state) address queue;
  mret (merge_cleanup_failure status cleanup, operation, queue).

(** From the doorbell on. *)
Definition await_invalidation (deadline : Z) (index : Z) (state : CodeCacheOperationState)
    (address : queue_address) (queue : AqlQueue) : prog (CodeCacheStatus * CodeCacheOperation * AqlQueue) :=
  match store_doorbell_screlease queue index with
  | (PrimitiveNone, Some value) =>
      _ ← ask (StoreDoorbell queue value);
      signal ← value_of (os_signal state);
      waited ← ask (WaitSignal signal 0 deadline);
      finish_before_submission
        (if (waited : bool) then cache_ok
         else cache_failure CodeCacheError.WaitForCompletion
                "cache-invalidation packet did not complete before the deadline" 0)
        state address queue
  | (error, _) =>
      finish_before_submission (cache_failure CodeCacheError.RingDoorbell (primitive_message error) 0)
        state address queue
  end.

(** From the check for room on: the slot, the packet and the doorbell. *)
Definition submit_invalidation (deadline : Z) (packet : AqlPm4IndirectBufferPacket)
    (state : CodeCacheOperationState) (address : queue_address) (queue : AqlQueue)
  : prog (CodeCacheStatus * CodeCacheOperation * AqlQueue) :=
  read_index ← ask (LoadReadIndex queue);
  write_index ← ask (LoadWriteIndex queue);
  if (write_index <? read_index) || (u64_sub write_index read_index >=? packet_count queue) then
    finish_before_submission (cache_failure CodeCacheError.QueueFull
      "AQL queue has no free cache-invalidation slot" 0) state address queue
  else
    reserved ← ask (AddWriteIndex queue 1);
    match ir_error reserved with
    | PrimitiveNone =>
        let slot_index := Z.land (ir_previous_index reserved) (u64_sub (packet_count queue) 1) in
        _ ← publish_packet address (ring_host_address queue + slot_index * 64) packet;
        await_invalidation deadline (ir_previous_index reserved)
          (set_submitted (Some address) true state) address queue
    | error =>
        finish_before_submission (cache_failure CodeCacheError.ReservePacket (primitive_message error) 0)
          state address queue
    end.

(** From the complete operation on: the command and its memory. *)
Definition issue_invalidation (deadline : Z) (image : KfdExecutableImage)
    (state : CodeCacheOperationState) (address : queue_address) (queue : AqlQueue)
  : prog (CodeCacheStatus * CodeCacheOperation * AqlQueue) :=
  command ← value_of (os_command state);
  signal ← value_of (os_signal state);
  handle ← ask (SignalHandle signal);
  let built := build_code_cache_invalidate (ii_gpu_address (xi_image image))
    (ii_allocation_size (xi_image image)) (gpu_address command) handle in
  match cc_error built with
  | CodeCacheCommandError.None =>
      let host := ra_host_address (ma_raw command) in
      let words := cc_command built ≫= le_bytes 4 in
      _ ← ask (WriteBytes host words);
      _ ← ask (FlushHostWrites (image_host_address image) (ii_allocation_size (xi_image image)));
      _ ← ask (FlushHostWrites host (size_of words));
      submit_invalidation deadline (cc_packet built) state address queue
  | error =>
      finish_before_submission (cache_failure CodeCacheError.InvalidArgument
        ("invalid gfx11 cache command: " +:+ code_cache_command_error_name error) 0) state address queue
  end.

Definition freeze_executable_image (session : option KfdState) (node : Node) (address : queue_address)
    (queue : AqlQueue) (image : KfdExecutableImage) (deadline : Z) (dri_root : string)
  : prog (CodeCacheStatus * CodeCacheOperation * AqlQueue) :=
  owns_queue ← ask (OwnsQueue queue node);
  if bool_decide (session = None) || negb (is_gpu node) || (node_gpu_id node =? 0) ||
     negb (queue_ready queue) || negb (ii_valid (xi_image image)) || negb owns_queue ||
     negb (owns_executable_image session image node) || (image_host_address image =? 0) ||
     (ii_allocation_size (xi_image image) =? 0) ||
     (ii_allocation_size (xi_image image) >? UINT64_MAX) ||
     (ring_host_address queue =? 0) || (packet_count queue =? 0) || (doorbell_address queue =? 0) then
    mret (cache_failure CodeCacheError.InvalidArgument
      "code-cache resources must be valid and belong to the same KFD session and GPU node" 0, None, queue)
  else
    allocated ← ask NewState;
    if negb allocated then
      mret (cache_failure CodeCacheError.AllocateState
        "failed to allocate code-cache operation state" 0, None, queue)
    else
      '(command_status, command) ← ask (AllocateExecutable node kMemoryPageSize dri_root);
      let state := mkOperation (if owns_memory command then Some command else None) None None false in
      if negb (KfdMemory.status_ok command_status) then
        finish_before_submission (cache_failure CodeCacheError.AllocateCommand (ms_message command_status)
          (ms_system_error command_status)) state address queue
      else
        '(signal_status, signal) ← ask (CreateSignal node 1 dri_root);
        let state := set_signal (if bool_decide (is_Some signal) then Some signal else None) state in
        if negb (signal_status_ok signal_status) then
          finish_before_submission (cache_failure CodeCacheError.AllocateSignal (us_message signal_status)
            (us_system_error signal_status)) state address queue
        else issue_invalidation deadline image state address queue.

(** ** Traces *)

Inductive event :=
| Event {X : Type} (e : cacheE X) (x : X).

(** What a program does: its calls with the answers, and how it ends; [None]
    is a crash. *)
Fixpoint runs {A} (p : prog A) (trace : list event) (o : option A) : Prop :=
  match p, trace with
  | Ret a, [] => o = Some a
  | Crash, [] => o = None
  | Call e k, v :: trace => exists x, v = Event e x /\ runs (k x) trace o
  | _, _ => False
  end.

(** A run in which every call has a fixed answer. *)
Fixpoint play {A} (answer : forall X, cacheE X -> X) (p : prog A) : list event * option A :=
  match p with
  | Ret a => ([], Some a)
  | Crash => ([], None)
  | @Call _ X e k =>
      let '(trace, o) := play answer (k (answer X e)) in (Event e (answer X e) :: trace, o)
  end.

Lemma play_runs {A} answer (p : prog A) : runs p (play answer p).1 (play answer p).2.
Proof.
  induction p as [a| |X e k IH]; [done..|]. cbn. specialize (IH (answer X e)).
  destruct (play answer (k (answer X e))) as [trace o]. by exists (answer X e).
Qed.

(** What the callees document: a success comes with an owner, and a released
    owner is empty. *)
Definition sensible (v : event) : Prop :=
  match v with
  | Event e x =>
      match e in cacheE X return X -> Prop with
      | AllocateExecutable _ _ _ => fun r => KfdMemory.status_ok r.1 = true -> owns_memory r.2 = true
      | CreateSignal _ _ _ => fun r => signal_status_ok r.1 = true -> is_Some r.2
      | _ => fun _ => True
      end x
  end.

(** What the GPU may still use: the command and the signal that are allocated,
    and the queue whose packet names them. *)
Record gpu_view := mkView {
  gv_command : option MemoryAllocation;
  gv_signal : option UserSignal;
  gv_pending : option queue_address
}.

Definition idle_view : gpu_view := mkView None None None.

(** One event; [None] is a release of memory that a packet still names. *)
Definition observe (v : event) (g : gpu_view) : option gpu_view :=
  match v with
  | Event e x =>
      match e in cacheE X return X -> option gpu_view with
      | AllocateExecutable _ _ _ => fun r =>
          Some (mkView (if owns_memory r.2 then Some r.2 else None) (gv_signal g) (gv_pending g))
      | CreateSignal _ _ _ => fun r =>
          Some (mkView (gv_command g) (if bool_decide (is_Some r.2) then Some r.2 else None) (gv_pending g))
      | StoreHeader queue _ header => fun _ =>
          Some (if header =? kAqlPacketTypeInvalid then g
                else mkView (gv_command g) (gv_signal g) (Some queue))
      | LoadSignal signal => fun value =>
          Some (if (value =? 0) && bool_decide (gv_signal g = Some signal)
                then mkView (gv_command g) (gv_signal g) None else g)
      | ReleaseQueue queue _ => fun r =>
          Some (if queue_status_ok r.1 && bool_decide (gv_pending g = Some queue)
                then mkView (gv_command g) (gv_signal g) None else g)
      | ReleaseSignal _ => fun r =>
          if bool_decide (is_Some (gv_pending g)) then None
          else Some (mkView (gv_command g) (if signal_status_ok r.1 then None else Some r.2) None)
      | ReleaseMemory _ => fun r =>
          if bool_decide (is_Some (gv_pending g)) then None
          else Some (mkView (if KfdMemory.status_ok r.1 then None else Some r.2) (gv_signal g) None)
      | _ => fun _ => Some g
      end x
  end.

Fixpoint watch (trace : list event) (g : gpu_view) : option gpu_view :=
  match trace with
  | [] => Some g
  | v :: trace => observe v g ≫= watch trace
  end.

(** Every run, with sensible answers, ends in [Q] and releases nothing the GPU
    may use. *)
Definition careful {A} (p : prog A) (Q : A -> gpu_view -> Prop) (g : gpu_view) : Prop :=
  forall trace o, runs p trace o -> Forall sensible trace ->
    exists a g', o = Some a /\ watch trace g = Some g' /\ Q a g'.

Lemma careful_ret {A} (a : A) (Q : A -> gpu_view -> Prop) g : Q a g -> careful (mret a) Q g.
Proof. intros H [|v trace] o Hr _; [|done]. cbn in Hr. subst. by exists a, g. Qed.

Lemma runs_bind {A B} (p : prog A) (k : A -> prog B) trace o :
  runs (p ≫= k) trace o -> (exists t1 t2 a, trace = t1 ++ t2 /\ runs p t1 (Some a) /\ runs (k a) t2 o) \/
    (runs p trace None /\ o = None).
Proof.
  revert trace. induction p as [a| |X e h IH]; intros trace Hr.
  - left. by exists [], trace, a.
  - right. by destruct trace.
  - destruct trace as [|v trace]; [done|]. destruct Hr as (x & -> & Hr).
    destruct (IH x trace Hr) as [(t1 & t2 & a & -> & H1 & H2)|[H1 H2]].
    + left. exists (Event e x :: t1), t2, a. split_and!; [done| |done]. by exists x.
    + right. split; [|done]. by exists x.
Qed.

Lemma watch_app t1 t2 g : watch (t1 ++ t2) g = watch t1 g ≫= watch t2.
Proof. revert g. induction t1 as [|v t1 IH]; intros g; [done|]. cbn. destruct (observe v g); [apply IH|done]. Qed.

Lemma careful_bind {A B} (p : prog A) (k : A -> prog B) (Q : B -> gpu_view -> Prop) g :
  careful p (fun a => careful (k a) Q) g -> careful (p ≫= k) Q g.
Proof.
  intros Hp trace o Hr Hs. apply runs_bind in Hr as [(t1 & t2 & a & -> & H1 & H2)|[H1 ->]].
  - apply Forall_app in Hs as [Hs1 Hs2]. destruct (Hp _ _ H1 Hs1) as (a' & g1 & [= <-] & Hw & Hk).
    destruct (Hk _ _ H2 Hs2) as (b & g2 & -> & Hw2 & HQ). exists b, g2. split_and!; [done| |done].
    rewrite watch_app, Hw. exact Hw2.
  - by destruct (Hp _ _ H1 Hs) as (a & g1 & ? & _).
Qed.

Lemma careful_ask {X} (e : cacheE X) (Q : X -> gpu_view -> Prop) g :
  (forall x, sensible (Event e x) -> exists g', observe (Event e x) g = Some g' /\ Q x g') -> careful (ask e) Q g.
Proof.
  intros H [|v [|v' trace]] o Hr Hs; [done| |by destruct Hr as (x & _ & Hr)].
  destruct Hr as (x & -> & Hr). cbn in Hr. subst o. apply Forall_cons in Hs as [Hs _].
  destruct (H x Hs) as (g' & Hg & HQ). exists x, g'. split_and!; [done| |done]. cbn [watch]. by rewrite Hg.
Qed.

Lemma careful_value_of {A} (o : option A) a (Q : A -> gpu_view -> Prop) g :
  o = Some a -> Q a g -> careful (value_of o) Q g.
Proof. intros ->. apply careful_ret. Qed.

Lemma careful_mono {A} (p : prog A) (P Q : A -> gpu_view -> Prop) g :
  careful p P g -> (forall a g, P a g -> Q a g) -> careful p Q g.
Proof.
  intros Hp HPQ trace o Hr Hs. destruct (Hp _ _ Hr Hs) as (a & g' & -> & Hw & HP). exists a, g'.
  by split_and!; [| |apply HPQ].
Qed.

(** An event that says nothing about the memory. *)
Lemma careful_skip {X} (e : cacheE X) (Q : X -> gpu_view -> Prop) g :
  (forall x, observe (Event e x) g = Some g) -> (forall x, Q x g) -> careful (ask e) Q g.
Proof. intros H1 H2. apply careful_ask. intros x _. exists g. auto. Qed.

(** ** The operation follows the GPU *)

(** The operation owns exactly what is allocated, and knows about a packet that
    may still be processed, whose signal it then has. *)
Definition follows (operation : CodeCacheOperation) (g : gpu_view) : Prop :=
  match operation with
  | Some state =>
      os_command state = gv_command g /\ os_signal state = gv_signal g /\
      forall queue, gv_pending g = Some queue ->
        os_submitted state = true /\ os_submitted_queue state = Some queue /\ owned_signal state = true
  | None => gv_pending g = None /\
      (forall m, gv_command g = Some m -> owns_memory m = false) /\
      (forall s, gv_signal g = Some s -> s = None)
  end.

Lemma follows_drop state g : follows (Some state) g -> gv_pending g = None -> follows (drop_if_empty state) g.
Proof.
  intros (Hc & Hs & Hp) Hn. unfold drop_if_empty. destruct (operation_owns (Some state)) eqn:E; [by split_and!|].
  cbn in E. apply orb_false_iff in E as [E1 E2]. unfold owned_command, owned_signal in *. split_and!; [done| |].
  - intros m Hm. rewrite Hc, Hm in E1. done.
  - intros s Hs'. rewrite Hs, Hs' in E2. apply bool_decide_eq_false in E2. by apply eq_None_not_Some.
Qed.

Lemma not_pending g : gv_pending g = None -> bool_decide (is_Some (gv_pending g)) = false.
Proof. intros H. apply bool_decide_eq_false. rewrite H. by intros [? ?]. Qed.

Lemma release_signal_part_careful state g :
  follows (Some state) g -> gv_pending g = None ->
  careful (release_signal_part state) (fun '(_, state') g' => follows (Some state') g' /\ gv_pending g' = None) g.
Proof.
  intros (Hc & Hs & Hp) Hn. unfold release_signal_part. destruct (os_signal state) as [signal|] eqn:E;
    [|apply careful_ret; split; [split_and!; congruence|done]].
  apply careful_bind, careful_ask. intros [released signal'] _. cbn [observe]. rewrite not_pending by done.
  eexists. split; [reflexivity|]. apply careful_ret. cbn [fst snd]. by destruct (signal_status_ok released).
Qed.

Lemma release_command_part_careful state g :
  follows (Some state) g -> gv_pending g = None ->
  careful (release_command_part state) (fun '(_, state') g' => follows (Some state') g' /\ gv_pending g' = None) g.
Proof.
  intros (Hc & Hs & Hp) Hn. unfold release_command_part. destruct (os_command state) as [command|] eqn:E;
    [|apply careful_ret; split; [split_and!; congruence|done]].
  apply careful_bind, careful_ask. intros [released command'] _. cbn [observe]. rewrite not_pending by done.
  eexists. split; [reflexivity|]. apply careful_ret. cbn [fst snd]. by destruct (KfdMemory.status_ok released).
Qed.

Lemma release_resources_careful state g :
  follows (Some state) g -> gv_pending g = None ->
  careful (release_resources state) (fun '(_, state') g' => follows (Some state') g' /\ gv_pending g' = None) g.
Proof.
  intros Hf Hn. apply careful_bind. eapply careful_mono; [by apply release_signal_part_careful|]. intros [s1 st1] g1 [H1 N1].
  apply careful_bind. eapply careful_mono; [by apply release_command_part_careful|]. intros [s2 st2] g2 [H2 N2].
  by apply careful_ret.
Qed.

(** The packet is out of the way. *)
Lemma follows_unsubmitted state g :
  follows (Some state) g -> gv_pending g = None -> follows (Some (set_submitted None false state)) g.
Proof. intros (Hc & Hs & _) Hn. split_and!; [done|done|]. intros queue Hq. congruence. Qed.

Lemma release_unsubmitted_careful state queue g :
  follows (Some state) g -> gv_pending g = None ->
  careful (release_unsubmitted state queue) (fun '(_, operation, _) g' => follows operation g') g.
Proof.
  intros Hf Hn. apply careful_bind. eapply careful_mono; [apply release_resources_careful; [by apply follows_unsubmitted|done]|].
  intros [status st] g' [H N]. apply careful_ret. by apply follows_drop.
Qed.

Lemma follows_settled state g :
  follows (Some state) g -> follows (Some state) (mkView (gv_command g) (gv_signal g) None).
Proof. intros (Hc & Hs & _). by split_and!. Qed.

(** The signal is zero, or the operation still follows. *)
Lemma load_signal_careful state signal (Q : Z -> gpu_view -> Prop) g :
  follows (Some state) g -> os_signal state = Some signal ->
  (forall g', follows (Some state) g' -> gv_pending g' = None -> Q 0 g') ->
  (forall value, value <> 0 -> Q value g) -> careful (ask (LoadSignal signal)) Q g.
Proof.
  intros Hf Hsig H0 H1. apply careful_ask. intros value _. cbn [observe]. pose proof Hf as (_ & Hs & _).
  rewrite (bool_decide_eq_true_2 (gv_signal g = Some signal)) by congruence.
  destruct (value =? 0) eqn:E; (eexists; split; [reflexivity|]); cbn [andb].
  - replace value with 0 by lia. apply H0; [by apply follows_settled|done].
  - apply H1. lia.
Qed.

Lemma owned_signal_some state : owned_signal state = true -> exists signal, os_signal state = Some signal.
Proof. unfold owned_signal. destruct (os_signal state); [eauto|done]. Qed.

Lemma operation_release_careful operation address queue g :
  follows operation g ->
  careful (operation_release operation address queue) (fun '(_, operation', _) g' => follows operation' g') g.
Proof.
  intros Hf. destruct operation as [state|]; cbn [operation_release]; [|by apply careful_ret].
  pose proof Hf as (Hc & Hs & Hp). destruct (os_submitted state) eqn:Esub.
  2: { apply careful_bind. assert (gv_pending g = None) as Hn by (destruct (gv_pending g) eqn:E; [|done]; by destruct (Hp _ eq_refl)).
    eapply careful_mono; [by apply release_resources_careful|]. intros [status st] g' [H N].
    apply careful_ret. by apply follows_drop. }
  destruct (bool_decide (os_submitted_queue state = Some address)) eqn:Eq; cbn [negb]; [|by apply careful_ret].
  destruct (owned_signal state) eqn:Eo; cbn [negb]; [|by apply careful_ret].
  destruct (owned_signal_some _ Eo) as [signal Esig]. apply careful_bind, (careful_value_of _ signal); [done|].
  apply careful_bind, (load_signal_careful state); [done|done|by intros; apply release_unsubmitted_careful|].
  intros value Hv. replace (value =? 0) with false by lia. cbn [negb]. apply careful_bind, careful_ask.
  intros [queue_status queue'] _. cbn [observe fst snd]. eexists. split; [reflexivity|].
  destruct (queue_status_ok queue_status); cbn [negb andb]; [|by apply careful_ret].
  apply bool_decide_eq_true in Eq. destruct (bool_decide (gv_pending g = Some address)) eqn:Ep.
  - apply release_unsubmitted_careful; [by apply follows_settled|done].
  - apply release_unsubmitted_careful; [done|]. apply bool_decide_eq_false in Ep.
    destruct (gv_pending g) as [q|] eqn:E; [|done]. destruct (Hp q eq_refl) as (_ & Hq & _). congruence.
Qed.

Lemma release_for_good_careful state g :
  follows (Some state) g -> gv_pending g = None -> careful (release_for_good state) follows g.
Proof.
  intros Hf Hn. apply careful_bind. eapply careful_mono; [apply release_resources_careful; [by apply follows_unsubmitted|done]|].
  intros [status st] g' [H N]. apply careful_bind.
  eapply careful_mono with (P := fun '(_, st) g => follows (Some st) g /\ gv_pending g = None).
  - destruct (cache_status_ok status); [by apply careful_ret|by apply release_resources_careful].
  - intros [status2 st2] g2 [H2 N2]. apply careful_ret. by apply follows_drop.
Qed.

Lemma operation_destroy_careful operation g :
  follows operation g -> careful (operation_destroy operation) follows g.
Proof.
  intros Hf. destruct operation as [state|]; cbn [operation_destroy]; [|by apply careful_ret].
  pose proof Hf as (Hc & Hs & Hp). destruct (os_submitted state && owned_signal state) eqn:E.
  - apply andb_true_iff in E as [_ Eo]. destruct (owned_signal_some _ Eo) as [signal Esig].
    apply careful_bind, (careful_value_of _ signal); [done|].
    apply careful_bind, (load_signal_careful state); [done|done|by intros; apply release_for_good_careful|].
    intros value Hv. replace (value =? 0) with false by lia. by apply careful_ret.
  - apply release_for_good_careful; [done|]. destruct (gv_pending g) as [q|] eqn:Eg; [|done].
    destruct (Hp q eq_refl) as (H1 & _ & H2). by rewrite H1, H2 in E.
Qed.

Lemma finish_careful status state address queue g :
  follows (Some state) g ->
  careful (finish_before_submission status state address queue) (fun '(_, operation, _) g' => follows operation g') g.
Proof.
  intros Hf. apply careful_bind. eapply careful_mono; [by apply operation_release_careful|].
  intros [[cleanup operation] queue'] g' H. by apply careful_ret.
Qed.

Lemma await_invalidation_careful deadline index state address queue g :
  follows (Some state) g -> is_Some (os_signal state) ->
  careful (await_invalidation deadline index state address queue) (fun '(_, operation, _) g' => follows operation g') g.
Proof.
  intros Hf [signal Hs]. unfold await_invalidation.
  destruct (store_doorbell_screlease queue index) as [[| | | |] [value|]]; try by apply finish_careful.
  apply careful_bind, careful_skip; [done|]. intros _. apply careful_bind, (careful_value_of _ signal); [done|].
  apply careful_bind, careful_skip; [done|]. intros waited. by apply finish_careful.
Qed.

Lemma publish_packet_careful address slot packet state g :
  follows (Some state) g -> gv_pending g = None -> owned_signal state = true ->
  careful (publish_packet address slot packet)
    (fun _ g' => follows (Some (set_submitted (Some address) true state)) g') g.
Proof.
  intros (Hc & Hs & _) Hn Ho. apply careful_bind, careful_ask. intros [] _. exists g. split; [done|].
  apply careful_bind, careful_skip; [done|]. intros _.
  apply careful_ask. intros [] _. eexists. split; [reflexivity|].
  destruct (_ =? _); (split_and!; [done|done|]); cbn; intros q Hq; [congruence|by injection Hq as <-].
Qed.

Lemma submit_invalidation_careful deadline packet state address queue g :
  follows (Some state) g -> gv_pending g = None -> owned_signal state = true ->
  careful (submit_invalidation deadline packet state address queue)
    (fun '(_, operation, _) g' => follows operation g') g.
Proof.
  intros Hf Hn Ho. apply careful_bind, careful_skip; [done|]. intros read_index.
  apply careful_bind, careful_skip; [done|]. intros write_index.
  destruct (_ || _); [by apply finish_careful|]. apply careful_bind, careful_skip; [done|]. intros reserved.
  destruct (ir_error reserved); try by apply finish_careful. apply careful_bind.
  eapply careful_mono; [by apply publish_packet_careful|]. intros [] g' Hf'. apply await_invalidation_careful; [done|].
  destruct (owned_signal_some _ Ho) as [signal Hs]. by exists signal.
Qed.

Lemma issue_invalidation_careful deadline image state address queue g :
  follows (Some state) g -> gv_pending g = None -> owned_signal state = true -> is_Some (os_command state) ->
  careful (issue_invalidation deadline image state address queue)
    (fun '(_, operation, _) g' => follows operation g') g.
Proof.
  intros Hf Hn Ho [command Hc]. destruct (owned_signal_some _ Ho) as [signal Hs].
  apply careful_bind, (careful_value_of _ command); [done|]. apply careful_bind, (careful_value_of _ signal); [done|].
  apply careful_bind, careful_skip; [done|]. intros handle. cbv zeta.
  destruct (cc_error (build_code_cache_invalidate _ _ _ _)); try by apply finish_careful.
  do 3 (apply careful_bind, careful_skip; [done|]; intros _). by apply submit_invalidation_careful.
Qed.

Lemma freeze_careful session node address queue image deadline dri_root :
  careful (freeze_executable_image session node address queue image deadline dri_root)
    (fun '(_, operation, _) g' => follows operation g') idle_view.
Proof.
  apply careful_bind, careful_skip; [done|]. intros owns_queue. destruct (_ || _); [by apply careful_ret|].
  apply careful_bind, careful_skip; [done|]. intros [|]; cbn [negb]; [|by apply careful_ret].
  apply careful_bind, careful_ask. intros [command_status command] Hcommand. eexists. split; [reflexivity|].
  cbn [sensible fst snd] in *. destruct (KfdMemory.status_ok command_status); cbn [negb]; [|by apply finish_careful].
  rewrite Hcommand by done. apply careful_bind, careful_ask. intros [signal_status signal] Hsignal.
  eexists. split; [reflexivity|]. cbn [sensible fst snd] in *.
  destruct (signal_status_ok signal_status); cbn [negb]; [|by apply finish_careful].
  destruct (Hsignal eq_refl) as [slot ->]. by apply issue_invalidation_careful.
Qed.

(** ** The theorems *)

(** A client: it freezes an image, tries to release what is left with the
    queues it has, in any order, and destroys the operation. *)
Fixpoint release_with (operation : CodeCacheOperation) (queues : list (queue_address * AqlQueue))
  : prog CodeCacheOperation :=
  match queues with
  | [] => mret operation
  | (address, queue) :: queues =>
      '(_, operation, _) ← operation_release operation address queue;
      release_with operation queues
  end.

Definition operation_life session node address queue image deadline dri_root queues
  : prog CodeCacheOperation :=
  '(_, operation, _) ← freeze_executable_image session node address queue image deadline dri_root;
  operation ← release_with operation queues;
  operation_destroy operation.

Lemma release_with_careful operation queues g :
  follows operation g -> careful (release_with operation queues) follows g.
Proof.
  revert operation g. induction queues as [|[address queue] queues IH]; intros operation g Hf; [by apply careful_ret|].
  apply careful_bind. eapply careful_mono; [by apply operation_release_careful|].
  intros [[status operation'] queue'] g' Hf'. by apply IH.
Qed.

(** C20: the GPU never loses memory that it may still use.  Whatever the
    session, the queue and the device answer, from the freeze of an image over
    any attempts to release its operation, with whatever queues, to its
    destructor: the code does not touch an empty object, and once a packet that
    names the command and the signal is in a ring, neither is released before
    the signal was seen at zero or that queue was destroyed.  What the
    destructor gives up, if anything, is exactly the memory that is still
    allocated. *)
Theorem cache_memory_outlives_packet session node address queue image deadline dri_root queues trace o :
  runs (operation_life session node address queue image deadline dri_root queues) trace o ->
  Forall sensible trace ->
  exists kept view, o = Some kept /\ watch trace idle_view = Some view /\ follows kept view.
Proof.
  revert trace o. change (careful (operation_life session node address queue image deadline dri_root queues)
    follows idle_view). apply careful_bind. eapply careful_mono; [apply freeze_careful|].
  intros [[status operation] queue'] g Hf. apply careful_bind.
  eapply careful_mono; [by apply release_with_careful|]. intros operation' g' Hf'. by apply operation_destroy_careful.
Qed.

(** ** A successful freeze *)

(** What the runs that return have in common. *)
Definition leads {A} (p : prog A) (Q : list event -> A -> Prop) : Prop :=
  forall trace a, runs p trace (Some a) -> Q trace a.

Lemma leads_ret {A} (a : A) (Q : list event -> A -> Prop) : Q [] a -> leads (mret a) Q.
Proof. intros H [|v trace] b Hr; [|done]. by injection Hr as <-. Qed.

Lemma leads_ask {X A} (e : cacheE X) (k : X -> prog A) (Q : list event -> A -> Prop) :
  (forall x, leads (k x) (fun trace => Q (Event e x :: trace))) -> leads (ask e ≫= k) Q.
Proof. intros H [|v trace] a Hr; [done|]. destruct Hr as (x & -> & Hr). by apply H. Qed.

Lemma leads_value_of {A B} (o : option A) (k : A -> prog B) (Q : list event -> B -> Prop) :
  (forall a, o = Some a -> leads (k a) Q) -> leads (value_of o ≫= k) Q.
Proof. intros H. destruct o as [a|]; [by apply H|]. by intros [|v trace] b. Qed.

Lemma leads_bind {A B} (p : prog A) (k : A -> prog B) (P : A -> Prop) (Q : B -> Prop) :
  leads p (fun _ => P) -> (forall a, P a -> leads (k a) (fun _ => Q)) -> leads (p ≫= k) (fun _ => Q).
Proof.
  intros Hp Hk trace b Hr. apply runs_bind in Hr as [(t1 & t2 & a & -> & H1 & H2)|[_ ?]]; [|done].
  by apply (Hk a (Hp _ _ H1) t2).
Qed.

Lemma leads_mono {A} (p : prog A) (P Q : list event -> A -> Prop) :
  leads p P -> (forall trace a, P trace a -> Q trace a) -> leads p Q.
Proof. intros Hp HPQ trace a Hr. by apply HPQ, Hp. Qed.

Lemma add_failure_ok separator primary additional :
  cache_status_ok (add_failure separator primary additional) = true ->
  cache_status_ok primary = true /\ cache_status_ok additional = true.
Proof.
  unfold add_failure. destruct (cache_status_ok additional) eqn:E1; [done|].
  destruct (cache_status_ok primary) eqn:E2; [by rewrite E1|]. unfold cache_status_ok in *. cbn. by rewrite E2.
Qed.

(** A release that succeeds leaves nothing. *)
Lemma release_resources_leads state :
  leads (release_resources state) (fun _ '(status, state') =>
    cache_status_ok status = true -> os_signal state' = None /\ os_command state' = None).
Proof.
  apply leads_bind with (P := fun '(status, state') => cache_status_ok status = true -> os_signal state' = None).
  { unfold release_signal_part. destruct (os_signal state) eqn:E; [|by apply leads_ret].
    apply leads_ask. intros [released signal']. apply leads_ret. by destruct (signal_status_ok released). }
  intros [signal_status state1] H1. apply leads_bind with
    (P := fun '(status, state') => cache_status_ok status = true -> os_command state' = None /\ os_signal state' = os_signal state1).
  { unfold release_command_part. destruct (os_command state1) eqn:E; [|by apply leads_ret].
    apply leads_ask. intros [released command']. apply leads_ret. by destruct (KfdMemory.status_ok released). }
  intros [command_status state2] H2. apply leads_ret. intros [[_ Hs]%add_failure_ok Hc]%add_failure_ok.
  destruct (H2 Hc) as [-> ->]. by split; [apply H1|].
Qed.

Lemma drop_empty state : os_signal state = None -> os_command state = None -> drop_if_empty state = None.
Proof. unfold drop_if_empty, operation_owns, owned_command, owned_signal. by intros -> ->. Qed.

Lemma release_unsubmitted_leads state queue :
  leads (release_unsubmitted state queue) (fun _ '(status, operation, _) =>
    cache_status_ok status = true -> operation = None).
Proof.
  eapply leads_bind; [apply release_resources_leads|]. intros [status st] H. apply leads_ret.
  intros Hs. destruct (H Hs). by apply drop_empty.
Qed.

Lemma operation_release_leads operation address queue :
  leads (operation_release operation address queue) (fun _ '(status, operation', _) =>
    cache_status_ok status = true -> operation' = None).
Proof.
  destruct operation as [state|]; cbn [operation_release]; [|by apply leads_ret].
  destruct (os_submitted state); cbn [negb].
  - destruct (negb (bool_decide _)); [by apply leads_ret|]. destruct (negb (owned_signal state)); [by apply leads_ret|].
    apply leads_value_of. intros signal _. apply leads_ask. intros value.
    destruct (negb (value =? 0)); [|apply release_unsubmitted_leads].
    apply leads_ask. intros [queue_status queue']. destruct (negb _); [by apply leads_ret|]. apply release_unsubmitted_leads.
  - eapply leads_bind; [apply release_resources_leads|]. intros [status st] H. apply leads_ret.
    intros Hs. destruct (H Hs). by apply drop_empty.
Qed.

(** The status that comes in goes out, unless it is a success. *)
Lemma finish_leads status state address queue :
  leads (finish_before_submission status state address queue) (fun _ '(status', operation, _) =>
    cache_status_ok status' = true -> cache_status_ok status = true /\ operation = None).
Proof.
  eapply leads_bind; [apply operation_release_leads|]. intros [[cleanup operation] queue'] H. apply leads_ret.
  intros [H1 H2]%add_failure_ok. by split; [|apply H].
Qed.

Lemma finish_fails status state address queue (Q : list event -> CodeCacheOperation -> Prop) :
  cache_status_ok status = false ->
  leads (finish_before_submission status state address queue) (fun trace '(status', operation, _) =>
    cache_status_ok status' = true -> Q trace operation).
Proof.
  intros Hs. eapply leads_mono; [apply finish_leads|]. intros trace [[status' operation] queue'] H Hok.
  destruct (H Hok). congruence.
Qed.

(** The calls of a freeze that succeeds, up to the wait, in their order: the
    submission, and the whole. *)
Definition submitted_calls (deadline : Z) (packet : AqlPm4IndirectBufferPacket) (signal : UserSignal)
    (address : queue_address) (queue : AqlQueue) (read_index write_index index : Z) : list event :=
  let packet_bytes := pm4_packet_bytes packet in
  let slot := ring_host_address queue + Z.land index (u64_sub (packet_count queue) 1) * 64 in
  [Event (LoadReadIndex queue) read_index; Event (LoadWriteIndex queue) write_index;
   Event (AddWriteIndex queue 1) (mkIndexResult PrimitiveNone index);
   Event (StoreHeader address slot kAqlPacketTypeInvalid) tt;
   Event (WriteBytes (slot + 4) (drop 4 packet_bytes)) tt;
   Event (StoreHeader address slot (le_value (take 4 packet_bytes))) tt;
   Event (StoreDoorbell queue index) tt;
   Event (WaitSignal signal 0 deadline) true].

Definition frozen_calls (node : Node) (address : queue_address) (queue : AqlQueue) (image : KfdExecutableImage)
    (deadline : Z) (dri_root : string) (command : MemoryStatus * MemoryAllocation)
    (signal : UserSignalStatus * UserSignal) (handle read_index write_index index : Z) : list event :=
  let info := xi_image image in
  let built := build_code_cache_invalidate (ii_gpu_address info) (ii_allocation_size info)
    (gpu_address command.2) handle in
  let host := ra_host_address (ma_raw command.2) in
  let words := cc_command built ≫= le_bytes 4 in
  [Event (OwnsQueue queue node) true; Event NewState true;
   Event (AllocateExecutable node kMemoryPageSize dri_root) command;
   Event (CreateSignal node 1 dri_root) signal;
   Event (SignalHandle signal.2) handle;
   Event (WriteBytes host words) tt;
   Event (FlushHostWrites (image_host_address image) (ii_allocation_size info)) tt;
   Event (FlushHostWrites host (size_of words)) tt] ++
  submitted_calls deadline (cc_packet built) signal.2 address queue read_index write_index index.

(** The calls that were made; any producer may have taken packets between the
    check for room and the reservation. *)
Definition freeze_calls_made node address queue image deadline dri_root (trace : list event) : Prop :=
  exists command signal handle read_index write_index index rest,
    cc_error (build_code_cache_invalidate (ii_gpu_address (xi_image image))
      (ii_allocation_size (xi_image image)) (gpu_address command.2) handle) = CodeCacheCommandError.None /\
    read_index <= write_index /\ u64_sub write_index read_index < packet_count queue /\
    trace = frozen_calls node address queue image deadline dri_root command signal handle read_index
      write_index index ++ rest.

(** The queue has no other producer meanwhile: the index that is reserved is
    the write index that was loaded; indices have 64 bits. *)
Record sole_producer (queue : AqlQueue) (trace : list event) : Prop := {
  sp_read i : Event (LoadReadIndex queue) i ∈ trace -> is_u64 i;
  sp_write i : Event (LoadWriteIndex queue) i ∈ trace -> is_u64 i;
  sp_reserved i n r : Event (LoadWriteIndex queue) i ∈ trace -> Event (AddWriteIndex queue n) r ∈ trace ->
    ir_error r = PrimitiveNone -> ir_previous_index r = i
}.

(** The whole freeze: the packet is the [index]th, and the device has taken all
    packets before [read_index], so its slot is free. *)
Definition frozen_in_order node address queue image deadline dri_root (trace : list event) : Prop :=
  exists command signal handle read_index index rest,
    cc_error (build_code_cache_invalidate (ii_gpu_address (xi_image image))
      (ii_allocation_size (xi_image image)) (gpu_address command.2) handle) = CodeCacheCommandError.None /\
    read_index <= index < read_index + packet_count queue /\
    trace = frozen_calls node address queue image deadline dri_root command signal handle read_index
      index index ++ rest.

Lemma sole_producer_order node address queue image deadline dri_root trace :
  sole_producer queue trace -> freeze_calls_made node address queue image deadline dri_root trace ->
  frozen_in_order node address queue image deadline dri_root trace.
Proof.
  intros [Hr Hw Hadd] (command & signal & handle & read_index & write_index & index & rest & Hb & H1 & H2 & ->).
  assert (forall e, e ∈ submitted_calls deadline (cc_packet (build_code_cache_invalidate (ii_gpu_address (xi_image image))
    (ii_allocation_size (xi_image image)) (gpu_address command.2) handle)) signal.2 address queue read_index write_index index ->
    e ∈ frozen_calls node address queue image deadline dri_root command signal handle read_index write_index index ++ rest) as Hin.
  { intros e He. unfold frozen_calls. apply elem_of_app. left. apply elem_of_app. by right. }
  specialize (Hr read_index (Hin _ ltac:(by left))). specialize (Hw write_index (Hin _ ltac:(by right; left))).
  specialize (Hadd write_index 1 (mkIndexResult PrimitiveNone index) (Hin _ ltac:(by right; left))
    (Hin _ ltac:(by right; right; left)) eq_refl). cbn in Hadd. subst index.
  rewrite u64_sub_small in H2 by lia.
  exists command, signal, handle, read_index, write_index, rest. split_and!; [done|lia|lia|done].
Qed.

(** The packet, the doorbell and the wait. *)
Lemma await_leads deadline index state signal address queue :
  os_signal state = Some signal ->
  leads (await_invalidation deadline index state address queue) (fun trace '(status, operation, _) =>
    cache_status_ok status = true -> operation = None /\
    exists rest, trace = Event (StoreDoorbell queue index) tt :: Event (WaitSignal signal 0 deadline) true :: rest).
Proof.
  intros Hs. unfold await_invalidation, store_doorbell_screlease. destruct (negb _).
  { by apply (finish_fails _ _ _ _ (fun _ _ => _)). }
  destruct (_ =? _). { by apply (finish_fails _ _ _ _ (fun _ _ => _)). }
  apply leads_ask. intros []. apply leads_value_of. rewrite Hs. intros ? [= <-]. apply leads_ask. intros waited.
  eapply leads_mono; [apply finish_leads|]. intros trace [[status operation] queue'] H Hok.
  destruct (H Hok) as [Hw ->]. destruct waited; [|done]. split; [done|]. by exists trace.
Qed.

Ltac not_ok := by apply (finish_fails _ _ _ _ (fun _ _ => _)).

Lemma submit_leads deadline packet state signal address queue :
  os_signal state = Some signal ->
  leads (submit_invalidation deadline packet state address queue) (fun trace '(status, operation, _) =>
    cache_status_ok status = true -> operation = None /\
    exists read_index write_index index rest,
      read_index <= write_index /\ u64_sub write_index read_index < packet_count queue /\
      trace = submitted_calls deadline packet signal address queue read_index write_index index ++ rest).
Proof.
  intros Hs. apply leads_ask. intros read_index. apply leads_ask. intros write_index.
  destruct (_ || _) eqn:Eroom; [not_ok|]. apply leads_ask. intros [error index]. cbn [ir_error ir_previous_index].
  destruct error; try not_ok. do 3 (apply leads_ask; intros []).
  eapply leads_mono; [by apply (await_leads _ _ _ signal)|]. intros trace [[status operation] queue'] H Hok.
  destruct (H Hok) as [-> [rest ->]]. split; [done|]. exists read_index, write_index, index, rest.
  split_and!; [lia|lia|done].
Qed.

Lemma freeze_leads session node address queue image deadline dri_root :
  leads (freeze_executable_image session node address queue image deadline dri_root)
    (fun trace '(status, operation, _) => cache_status_ok status = true ->
       operation = None /\ freeze_calls_made node address queue image deadline dri_root trace).
Proof.
  apply leads_ask. intros owns_queue. destruct (_ || _) eqn:Eguard; [by apply leads_ret|].
  assert (owns_queue = true) as -> by (destruct owns_queue; [done|]; by rewrite !orb_true_r in Eguard). clear Eguard.
  apply leads_ask. intros [|]; cbn [negb]; [|by apply leads_ret].
  apply leads_ask. intros [command_status command]. destruct (negb (KfdMemory.status_ok _)); [not_ok|].
  apply leads_ask. intros [signal_status signal]. destruct (negb (signal_status_ok _)); [not_ok|].
  apply leads_value_of. intros command' Ec. cbn in Ec. destruct (owns_memory command); [|done]. injection Ec as <-.
  apply leads_value_of. intros signal' Es. cbn in Es. destruct (bool_decide (is_Some signal)) eqn:Esig; [|done].
  injection Es as <-.
  apply leads_ask. intros handle. cbv zeta. destruct (cc_error (build_code_cache_invalidate _ _ _ _)) eqn:Ebuilt; try not_ok.
  do 3 (apply leads_ask; intros []).
  eapply leads_mono; [by apply (submit_leads _ _ _ signal)|]. intros trace [[status operation] queue'] H Hok.
  destruct (H Hok) as [-> (read_index & write_index & index & rest & H1 & H2 & ->)]. split; [done|].
  exists (command_status, command), (signal_status, signal), handle, read_index, write_index, index, rest.
  by split_and!.
Qed.

(** C34: a freeze that succeeds did everything, in the order that makes it
    safe.  The command was written and flushed before its packet; the packet
    went, with the header last, into the slot of the reserved index, which is
    the loaded write index and less than a ring ahead of the loaded read index,
    so that the slot was free; the doorbell was rung for that index after the
    header, and the signal was awaited afterwards; and nothing of the operation
    is left.  The queue must have no other producer during the freeze, which is
    what the runtime's lock is for: the check for room and the reservation are
    two accesses. *)
Theorem freeze_in_order session node address queue image deadline dri_root trace status operation queue' :
  runs (freeze_executable_image session node address queue image deadline dri_root) trace
    (Some (status, operation, queue')) ->
  sole_producer queue trace -> cache_status_ok status = true ->
  operation = None /\ frozen_in_order node address queue image deadline dri_root trace.
Proof.
  intros Hr Hsole Hok. destruct (freeze_leads _ _ _ _ _ _ _ _ _ Hr Hok) as [-> Hcalls].
  split; [done|by apply sole_producer_order].
Qed.
