(* ===== verification/KfdRegistry.v ===== *)
(** * Sessions of the KFD transport

    [transport/kfd/session.cpp]: opening a session, the registry through which
    the sessions of a process share one state per device, the destructor of a
    state, and the clock counters. *)

From stdpp Require Import gmap fin_maps pretty.
From S2P Require Import Prelude Topology KfdKernel KfdMemory KfdMemoryFacts ScratchPool KfdVm KfdSession.

(** ** What only this file asks of the system *)

Record ClockValues := mkClockValues {
  cv_gpu : Z;
  cv_cpu : Z;
  cv_system : Z;
  cv_system_frequency_hz : Z
}.

Definition no_clock_values : ClockValues := mkClockValues 0 0 0 0.

(** [inl errno] is a failure. *)
Class SessionKernel (W : Type) := {
  (** [fstat]; the device number *)
  s_fstat : Z -> W -> (Z + Z) * W;
  (** [AMDKFD_IOC_GET_VERSION] *)
  s_get_version : Z -> W -> (Z + KfdVersion) * W;
  (** [AMDKFD_IOC_RUNTIME_ENABLE] with the mode mask *)
  s_runtime_enable : Z -> Z -> W -> (Z + unit) * W;
  (** [AMDKFD_IOC_GET_CLOCK_COUNTERS] of a GPU *)
  s_clock_counters : Z -> Z -> W -> (Z + ClockValues) * W;
  s_getpid : W -> Z * W;
  (** The constructor of [std::thread]. *)
  s_start_thread : W -> (Z + unit) * W;
  (** [error.what()] *)
  s_what : Z -> string
}.

(** [do { ... } while (result < 0 && errno == EINTR)] *)
Fixpoint retry_loop {W A} (fuel : nat) (attempt : W -> (Z + A) * W) : kfd W (Z + A) :=
  match fuel with
  | O => fun _ => Fault OutOfFuel
  | S fuel =>
      answer ← call attempt;
      match answer with
      | inl errno => if errno =? EINTR then retry_loop fuel attempt else give answer
      | inr _ => give answer
      end
  end.

(** ** Status *)

Module SessionError.
Inductive t :=
| None
| OpenKfd
| InspectKfd
| QueryKfdVersion
| UnsupportedKfdVersion
| CreateMemoryFaultEvent
| StartMemoryFaultMonitor
| AllocateState
| QueryClockCounters.
End SessionError.

#[global] Instance session_error_eq : EqDecision SessionError.t.
Proof. solve_decision. Defined.

Record SessionStatus := mkSessionStatus {
  sst_error : SessionError.t;
  sst_system_error : Z;
  sst_message : string
}.

Definition session_status_ok (status : SessionStatus) : bool :=
  bool_decide (sst_error status = SessionError.None).

Definition session_ok : SessionStatus := mkSessionStatus SessionError.None 0 "".

Definition session_error_name (error : SessionError.t) : string :=
  match error with
  | SessionError.None => "none"
  | SessionError.OpenKfd => "open_kfd"
  | SessionError.InspectKfd => "inspect_kfd"
  | SessionError.QueryKfdVersion => "query_kfd_version"
  | SessionError.UnsupportedKfdVersion => "unsupported_kfd_version"
  | SessionError.CreateMemoryFaultEvent => "create_memory_fault_event"
  | SessionError.StartMemoryFaultMonitor => "start_memory_fault_monitor"
  | SessionError.AllocateState => "allocate_state"
  | SessionError.QueryClockCounters => "query_clock_counters"
  end.

(** ** Versions *)

Definition kMinimumKfdVersion : KfdVersion := mkKfdVersion 1 1.

Definition version_less (left right : KfdVersion) : bool :=
  (kv_major left <? kv_major right) ||
  ((kv_major left =? kv_major right) && (kv_minor left <? kv_minor right)).

Definition supports_runtime_enable (version : KfdVersion) : bool :=
  negb (version_less version (mkKfdVersion 1 13)).

Definition is_supported_kfd_version (version : KfdVersion) : bool :=
  (kv_major version =? kv_major kMinimumKfdVersion) && negb (version_less version kMinimumKfdVersion).

Definition unsupported_version (version : KfdVersion) : SessionStatus :=
  mkSessionStatus SessionError.UnsupportedKfdVersion 0
    ("unsupported KFD UAPI version " +:+ pretty (kv_major version) +:+ "." +:+ pretty (kv_minor version) +:+
     "; expected 1.x with x >= " +:+ pretty (kv_minor kMinimumKfdVersion)).

(** ** State and registry *)

Definition state_ptr := positive.

(** [KfdState] with the members of the session, and the number of
    [shared_ptr]s to it. *)
Record SessionState := mkSessionState {
  ss_kfd : KfdState;
  ss_version : KfdVersion;
  ss_memory_fault_event : option Z;
  ss_memory_fault_monitor : bool;
  ss_use_count : nat
}.

(** [SessionRegistry], with the heap behind its pointers. *)
Record SessionRegistry := mkRegistry {
  sr_process_id : Z;
  sr_sessions : gmap Z state_ptr;
  sr_states : gmap state_ptr SessionState
}.

Definition set_use_count (state : SessionState) (count : nat) : SessionState :=
  mkSessionState (ss_kfd state) (ss_version state) (ss_memory_fault_event state)
    (ss_memory_fault_monitor state) count.
Definition set_process_id (r : SessionRegistry) (x : Z) : SessionRegistry :=
  mkRegistry x (sr_sessions r) (sr_states r).
Definition set_sessions (r : SessionRegistry) (x : gmap Z state_ptr) : SessionRegistry :=
  mkRegistry (sr_process_id r) x (sr_states r).
Definition set_states (r : SessionRegistry) (x : gmap state_ptr SessionState) : SessionRegistry :=
  mkRegistry (sr_process_id r) (sr_sessions r) x.

(** A session object: its [state_] pointer. *)
Definition KfdSession := option state_ptr.

Definition session_version (r : SessionRegistry) (session : KfdSession) : KfdVersion :=
  match session ≫= fun p => sr_states r !! p with
  | Some state => ss_version state
  | None => mkKfdVersion 0 0
  end.

Section session.
Context {W : Type} `{!Kernel W, !SessionKernel W}.

Definition session_failure (error : SessionError.t) (system_error : Z) (operation : string) : SessionStatus :=
  mkSessionStatus error system_error
    (operation +:+ " failed: " +:+ k_strerror system_error +:+ " (" +:+ pretty system_error +:+ ")").

Definition KFD_IOC_EVENT_MEMORY : Z := 8.
Definition KFD_RUNTIME_ENABLE_MODE_ENABLE_MASK : Z := 1.

(** ** The destructor

    Every result is ignored, and the [ioctl]s are not repeated when they are
    interrupted. *)

Fixpoint drop_trap_handlers (fd : Z) (devices : list (Z * DeviceVmState)) : kfd W unit :=
  match devices with
  | [] => give tt
  | (gpu_id, device) :: devices =>
      _ ← (if dv_trap_handler_configured device then
             reply ← call (k_ioctl fd (SET_TRAP_HANDLER 0 gpu_id)); give tt
           else give tt);
      _ ← match dv_trap_handler device with
          | Some raw => '(_, _) ← memory_release fd (mkMemoryAllocation true raw); give tt
          | None => give tt
          end;
      drop_trap_handlers fd devices
  end.

Fixpoint drop_scratch_pools (devices : list (Z * DeviceVmState)) : kfd W unit :=
  match devices with
  | [] => give tt
  | (_, device) :: devices =>
      _ ← match dv_scratch_pool device with
          | Some pool =>
              if sp_reservation_address pool =? 0 then give tt
              else errno ← sys_munmap (sp_reservation_address pool) (sp_reservation_size pool); give tt
          | None => give tt
          end;
      drop_scratch_pools devices
  end.

Fixpoint close_render_nodes (devices : list (Z * DeviceVmState)) : kfd W unit :=
  match devices with
  | [] => give tt
  | (_, device) :: devices =>
      _ ← (if 0 <=? dv_render_fd device then sys_close (dv_render_fd device) else give tt);
      close_render_nodes devices
  end.

(** [KfdState::~KfdState], once the monitor has been joined. *)
Definition destroy_state (state : SessionState) : kfd W unit :=
  let kfd := ss_kfd state in
  let fd := ks_fd kfd in
  let devices := map_to_list (ks_device_vms kfd) in
  _ ← drop_trap_handlers fd devices;
  _ ← match ks_queue_event_page kfd with
      | Some page => '(_, _) ← memory_release fd (mkMemoryAllocation true (ep_allocation page)); give tt
      | None => give tt
      end;
  _ ← match ss_memory_fault_event state with
      | Some event_id =>
          if 0 <=? fd then reply ← call (k_ioctl fd (DESTROY_EVENT event_id)); give tt else give tt
      | None => give tt
      end;
  _ ← drop_scratch_pools devices;
  _ ← close_render_nodes devices;
  _ ← (if ks_exception_debugging_enabled kfd && (0 <=? fd) then
         answer ← call (s_runtime_enable fd 0); give tt
       else give tt);
  if 0 <=? fd then sys_close fd else give tt.

(** The end of a [shared_ptr]. *)
Definition drop_reference (r : SessionRegistry) (p : state_ptr) : kfd W SessionRegistry :=
  match sr_states r !! p with
  | None => give r
  | Some state =>
      match ss_use_count state with
      | S (S count) => give (set_states r (<[p := set_use_count state (S count)]> (sr_states r)))
      | _ =>
          _ ← destroy_state state;
          give (set_states r (delete p (sr_states r)))
      end
  end.

Definition close_session (r : SessionRegistry) (session : KfdSession) : kfd W SessionRegistry :=
  match session with Some p => drop_reference r p | None => give r end.

Fixpoint drop_references (r : SessionRegistry) (states : list state_ptr) : kfd W SessionRegistry :=
  match states with
  | [] => give r
  | p :: states => r ← drop_reference r p; drop_references r states
  end.

(** In a process that was forked the sessions of the parent are forgotten. *)
Definition notice_fork (r : SessionRegistry) : kfd W SessionRegistry :=
  process_id ← call s_getpid;
  if sr_process_id r =? process_id then give r
  else
    let forgotten := (map_to_list (sr_sessions r)).*2 in
    r ← drop_references (set_sessions r ∅) forgotten;
    give (set_process_id r process_id).

(** ** Opening *)

Definition refuse (status : SessionStatus) (r : SessionRegistry)
  : kfd W (SessionStatus * KfdSession * SessionRegistry) := give (status, None, r).

(** The state is given up before it is registered. *)
Definition abandon (status : SessionStatus) (state : SessionState) (r : SessionRegistry)
  : kfd W (SessionStatus * KfdSession * SessionRegistry) :=
  _ ← destroy_state state; refuse status r.

(** [AMDKFD_IOC_RUNTIME_ENABLE], on a driver that has it. *)
Definition enable_exception_debugging (fd : Z) (version : KfdVersion) : kfd W bool :=
  if supports_runtime_enable version then
    answer ← retry_loop k_patience (s_runtime_enable fd KFD_RUNTIME_ENABLE_MODE_ENABLE_MASK);
    give (match answer with inr _ => true | inl _ => false end)
  else give false.

(** A new state for the device, with its fault monitor. *)
Definition create_state (fd : Z) (version : KfdVersion) (device : Z) (r : SessionRegistry)
  : kfd W (SessionStatus * KfdSession * SessionRegistry) :=
  constructed ← sys_new;
  if negb constructed then
    _ ← sys_close fd;
    refuse (mkSessionStatus SessionError.AllocateState 0 "failed to allocate direct KFD session state") r
  else
    debugging ← enable_exception_debugging fd version;
    let kfd := mkKfdState fd ∅ debugging None in
    event ← invoke_ioctl fd (CREATE_EVENT 0 KFD_IOC_EVENT_MEMORY 0);
    if negb (rp_errno event =? 0) then
      abandon (session_failure SessionError.CreateMemoryFaultEvent (rp_errno event)
        "AMDKFD_IOC_CREATE_EVENT(memory fault)") (mkSessionState kfd version None false 1) r
    else
      let event_id := rp_event_id event in
      started ← call s_start_thread;
      match started with
      | inl error =>
          abandon (mkSessionStatus SessionError.StartMemoryFaultMonitor error
            ("failed to start KFD memory fault monitor: " +:+ s_what error))
            (mkSessionState kfd version (Some event_id) false 1) r
      | inr _ =>
          inserted ← sys_new;
          if negb inserted then
            abandon (mkSessionStatus SessionError.AllocateState 0
              "failed to allocate direct KFD session state")
              (mkSessionState kfd version (Some event_id) true 1) r
          else
            let p := fresh (dom (sr_states r)) in
            give (session_ok, Some p,
              set_sessions (set_states r
                (<[p := mkSessionState kfd version (Some event_id) true 2]> (sr_states r)))
                (<[device := p]> (sr_sessions r)))
      end.

(** The state of the device, which the sessions share. *)
Definition find_or_create (fd : Z) (version : KfdVersion) (device : Z) (r : SessionRegistry)
  : kfd W (SessionStatus * KfdSession * SessionRegistry) :=
  match sr_sessions r !! device with
  | Some p =>
      _ ← sys_close fd;
      give (session_ok, Some p, set_states r (alter (fun state =>
        set_use_count state (S (ss_use_count state))) p (sr_states r)))
  | None => create_state fd version device r
  end.

Definition session_open (device_path : string) (r : SessionRegistry)
  : kfd W (SessionStatus * KfdSession * SessionRegistry) :=
  opened ← sys_open device_path;
  match opened with
  | inl errno =>
      refuse (session_failure SessionError.OpenKfd errno ("open(" +:+ device_path +:+ ")")) r
  | inr fd =>
      device_info ← call (s_fstat fd);
      match device_info with
      | inl errno =>
          _ ← sys_close fd;
          refuse (session_failure SessionError.InspectKfd errno ("fstat(" +:+ device_path +:+ ")")) r
      | inr device =>
          queried ← retry_loop k_patience (s_get_version fd);
          match queried with
          | inl errno =>
              _ ← sys_close fd;
              refuse (session_failure SessionError.QueryKfdVersion errno "AMDKFD_IOC_GET_VERSION") r
          | inr version =>
              if negb (is_supported_kfd_version version) then
                _ ← sys_close fd; refuse (unsupported_version version) r
              else
                r ← notice_fork r;
                find_or_create fd version device r
          end
      end
  end.

(** ** Clock counters *)

Definition query_clock_counters (r : SessionRegistry) (session : KfdSession) (node : Node)
  : kfd W (SessionStatus * ClockValues) :=
  match session ≫= fun p => sr_states r !! p with
  | None =>
      give (mkSessionStatus SessionError.QueryClockCounters 0
        "clock counters require an open KFD session", no_clock_values)
  | Some state =>
      if node_gpu_id node =? 0 then
        give (mkSessionStatus SessionError.QueryClockCounters 0 "clock counters require a GPU node",
          no_clock_values)
      else
        answer ← retry_loop k_patience (s_clock_counters (ks_fd (ss_kfd state)) (node_gpu_id node));
        match answer with
        | inl errno =>
            give (session_failure SessionError.QueryClockCounters errno "AMDKFD_IOC_GET_CLOCK_COUNTERS",
              no_clock_values)
        | inr counters =>
            if cv_system_frequency_hz counters =? 0 then
              give (mkSessionStatus SessionError.QueryClockCounters 0
                "KFD returned a zero system clock frequency", no_clock_values)
            else give (session_ok, counters)
        end
  end.
End session.

(** ** Accounting *)

(** None of these calls creates or frees anything, and interruptions end. *)
Class SessionLaws (W : Type) `{!Kernel W, !SessionKernel W, !KernelLaws W} := {
  sl_fstat fd w : ledger_of (s_fstat fd w).2 = ledger_of w;
  sl_get_version fd w : ledger_of (s_get_version fd w).2 = ledger_of w;
  sl_runtime_enable fd mode w : ledger_of (s_runtime_enable fd mode w).2 = ledger_of w;
  sl_clock_counters fd gpu_id w : ledger_of (s_clock_counters fd gpu_id w).2 = ledger_of w;
  sl_getpid w : ledger_of (s_getpid w).2 = ledger_of w;
  sl_start_thread w : ledger_of (s_start_thread w).2 = ledger_of w;
  sl_version_patient fd w : exists r, retry_loop k_patience (s_get_version fd) w = Ok r;
  sl_enable_patient fd mode w : exists r, retry_loop k_patience (s_runtime_enable fd mode) w = Ok r;
  sl_clock_patient fd gpu_id w : exists r, retry_loop k_patience (s_clock_counters fd gpu_id) w = Ok r
}.

Section facts.
Context {W : Type} `{!Kernel W, !SessionKernel W, !KernelLaws W, !SessionLaws W}.
Implicit Type w : W.

Lemma wp_retry_loop {A} (attempt : W -> (Z + A) * W) (Q : Z + A -> W -> Prop) w :
  (exists r, retry_loop k_patience attempt w = Ok r) ->
  (forall w, ledger_of (attempt w).2 = ledger_of w) ->
  (forall answer w', ledger_of w' = ledger_of w -> Q answer w') ->
  wp (retry_loop k_patience attempt) Q w.
Proof.
  intros [[answer w'] Hrun] Hquiet HQ. unfold wp. rewrite Hrun. apply HQ. clear HQ. revert w Hrun.
  induction k_patience as [|fuel IH]; intros w Hrun; [done|]. cbn [retry_loop] in Hrun.
  unfold mbind, kfd_bind, call in Hrun. specialize (Hquiet w) as Hw. revert Hrun Hw.
  destruct (attempt w) as [[errno|a] w1]; cbn; intros Hrun Hw; [|by injection Hrun as <- <-].
  destruct (errno =? EINTR); [|by injection Hrun as <- <-]. by rewrite <-Hw; apply IH.
Qed.

(** The result together with the run that gave it. *)
Lemma wp_answered {A} (m : kfd W A) (Q : A -> W -> Prop) w :
  wp m (fun a w' => m w = Ok (a, w') -> Q a w') w -> wp m Q w.
Proof. unfold wp. destruct (m w) as [[a w']| |]; auto. Qed.

Lemma wp_call_quiet {A} (f : W -> A * W) (Q : A -> W -> Prop) w :
  ledger_of (f w).2 = ledger_of w -> (forall a w', ledger_of w' = ledger_of w -> Q a w') -> wp (call f) Q w.
Proof. intros Hf HQ. apply wp_call. by apply HQ. Qed.

(** What the registry says about the process. *)
Record registry_ok (r : SessionRegistry) (w : W) : Prop := {
  ro_registered device p : sr_sessions r !! device = Some p -> is_Some (sr_states r !! p);
  ro_apart d1 d2 p : sr_sessions r !! d1 = Some p -> sr_sessions r !! d2 = Some p -> d1 = d2;
  ro_state p state : sr_states r !! p = Some state ->
    is_supported_kfd_version (ss_version state) = true /\ ks_fd (ss_kfd state) ∈ lg_files (ledger_of w) /\
    exists event, ss_memory_fault_event state = Some event /\ event ∈ lg_events (ledger_of w);
  ro_files p q s1 s2 : sr_states r !! p = Some s1 -> sr_states r !! q = Some s2 ->
    ks_fd (ss_kfd s1) = ks_fd (ss_kfd s2) -> p = q
}.

Lemma registry_ok_grows r w w' :
  registry_ok r w -> lg_files (ledger_of w) ⊆ lg_files (ledger_of w') ->
  lg_events (ledger_of w) ⊆ lg_events (ledger_of w') -> registry_ok r w'.
Proof.
  intros [H1 H2 H3 H4] Hf He. split; [done|done| |done]. intros p state Hp.
  destruct (H3 p state Hp) as (Hv & Hfd & event & Hev & Hin). split_and!; [done|by apply Hf|].
  exists event. split; [done|by apply He].
Qed.

(** A failed opening leaves nothing, but for an event whose destruction was
    refused while it was held. *)
Definition nothing_left (w w' : W) : Prop :=
  ledger_of w' = ledger_of w \/
  exists fd event w1, ledger_of w1 = add_event event (add_file fd (ledger_of w)) /\
    rp_errno (k_ioctl fd (DESTROY_EVENT event) w1).1 <> 0 /\
    ledger_of w' = add_event event (ledger_of w).

(** What is found behind the path: a descriptor, the device it is open on, and
    the version of the driver. *)
Definition inspected (path : string) (w : W) (fd device : Z) (version : KfdVersion) : Prop :=
  exists w1 w2, sys_open path w = Ok (inr fd, w1) /\ (s_fstat fd w1).1 = inr device /\
    retry_loop k_patience (s_get_version fd) (s_fstat fd w1).2 = Ok (inr version, w2).

(** Why an opening may fail. *)
Inductive open_fails (path : string) (r : SessionRegistry) (w : W) : SessionError.t -> Prop :=
| not_opened errno w1 :
    sys_open path w = Ok (inl errno, w1) -> open_fails path r w SessionError.OpenKfd
| not_inspected fd w1 errno :
    sys_open path w = Ok (inr fd, w1) -> (s_fstat fd w1).1 = inl errno ->
    open_fails path r w SessionError.InspectKfd
| version_unknown fd w1 errno w2 :
    sys_open path w = Ok (inr fd, w1) -> retry_loop k_patience (s_get_version fd) (s_fstat fd w1).2 = Ok (inl errno, w2) ->
    open_fails path r w SessionError.QueryKfdVersion
| version_too_old fd device version :
    inspected path w fd device version -> is_supported_kfd_version version = false ->
    open_fails path r w SessionError.UnsupportedKfdVersion
| state_not_made fd device version error :
    inspected path w fd device version -> sr_sessions r !! device = None ->
    error ∈ [SessionError.AllocateState; SessionError.CreateMemoryFaultEvent; SessionError.StartMemoryFaultMonitor] ->
    open_fails path r w error.

Definition session_opened (path : string) (r : SessionRegistry) (w : W)
    (result : SessionStatus * KfdSession * SessionRegistry) (w' : W) : Prop :=
  let '(status, session, r') := result in
  registry_ok r' w' /\ sr_process_id r' = sr_process_id r /\
  if session_status_ok status then
    exists fd device version p, inspected path w fd device version /\
      is_supported_kfd_version version = true /\
      session = Some p /\ sr_sessions r' !! device = Some p /\
      match sr_sessions r !! device with
      | Some q => q = p /\ ledger_of w' = ledger_of w /\ sr_sessions r' = sr_sessions r /\
          exists state, sr_states r !! p = Some state /\
            sr_states r' = <[p := set_use_count state (S (ss_use_count state))]> (sr_states r)
      | None => sr_states r !! p = None /\ sr_sessions r' = <[device := p]> (sr_sessions r) /\
          exists debugging event,
            fd ∉ lg_files (ledger_of w) /\ event ∉ lg_events (ledger_of w) /\
            ledger_of w' = add_event event (add_file fd (ledger_of w)) /\
            sr_states r' = <[p := mkSessionState (mkKfdState fd ∅ debugging None) version
              (Some event) true 2]> (sr_states r)
      end
  else open_fails path r w (sst_error status) /\ session = None /\ r' = r /\ nothing_left w w'.

Lemma refused path r w status w' :
  registry_ok r w -> session_status_ok status = false -> open_fails path r w (sst_error status) ->
  nothing_left w w' -> session_opened path r w (status, None, r) w'.
Proof.
  intros Hr Hs Hc Hn. unfold session_opened. rewrite Hs. split_and!; [|done..].
  eapply registry_ok_grows; [exact Hr|destruct Hn as [->|(fd & event & w1 & _ & _ & ->)]; cbn; set_solver..].
Qed.

Lemma file_gone fd (l : ledger) : fd ∉ lg_files l -> remove_file fd (add_file fd l) = l.
Proof. intros Hn. unfold remove_file, add_file, set_files. destruct l; cbn in *. f_equal. set_solver. Qed.

(** The descriptor that was just opened is closed again. *)
Lemma close_refuse path r w status fd w1 :
  registry_ok r w -> session_status_ok status = false -> open_fails path r w (sst_error status) -> fd ∉ lg_files (ledger_of w) ->
  ledger_of w1 = add_file fd (ledger_of w) ->
  wp (_ ← sys_close fd; refuse status r) (session_opened path r w) w1.
Proof.
  intros Hr Hs Hc Hfd Hl. apply wp_bind, wp_close; [rewrite Hl; cbn; set_solver|]. intros w2 H2.
  apply wp_give, refused; [done..|]. left. by rewrite H2, Hl, file_gone.
Qed.

Lemma event_gone e fd (l : ledger) :
  e ∉ lg_events l -> remove_event e (add_event e (add_file fd l)) = add_file fd l.
Proof. intros Hn. unfold remove_event, add_event, set_events, add_file, set_files. destruct l; cbn in *. f_equal. set_solver. Qed.

(** A new state beside the others. *)
Lemma registry_ok_new r w fd version device debugging event p w' :
  registry_ok r w -> fd ∉ lg_files (ledger_of w) -> ledger_of w' = add_event event (add_file fd (ledger_of w)) ->
  is_supported_kfd_version version = true -> sr_sessions r !! device = None -> sr_states r !! p = None ->
  registry_ok (set_sessions (set_states r
    (<[p := mkSessionState (mkKfdState fd ∅ debugging None) version (Some event) true 2]> (sr_states r)))
    (<[device := p]> (sr_sessions r))) w'.
Proof.
  intros Hr Hfd Hl Hv Hd Hp. destruct (registry_ok_grows r w w') as [H1 H2 H3 H4];
    [done|rewrite Hl; cbn; set_solver..|]. split; cbn.
  - intros d q [[<- <-]|[_ Hq]]%lookup_insert_Some; [rewrite lookup_insert_eq; eauto|].
    destruct (decide (q = p)) as [->|Hne]; [destruct (H1 _ _ Hq); congruence|].
    rewrite lookup_insert_ne by done. by apply (H1 d).
  - intros d1 d2 q [[<- <-]|[N1 Q1]]%lookup_insert_Some [[<- E]|[N2 Q2]]%lookup_insert_Some; [done| | |by eapply H2].
    + destruct (H1 _ _ Q2). congruence.
    + subst q. destruct (H1 _ _ Q1). congruence.
  - intros q state [[<- <-]|[_ Hq]]%lookup_insert_Some; [|by apply (H3 q)]. cbn. rewrite Hl. cbn.
    split_and!; [done|set_solver|]. exists event. split; [done|set_solver].
  - destruct Hr as [_ _ R3 _].
    intros q1 q2 s1 s2 [[<- <-]|[N1 Q1]]%lookup_insert_Some [[<- <-]|[N2 Q2]]%lookup_insert_Some; cbn; intros E;
      [done| | |by eapply H4].
    + exfalso. apply Hfd. rewrite E. by apply (R3 q2 s2).
    + exfalso. apply Hfd. rewrite <-E. by apply (R3 q1 s1).
Qed.

(** A state that was never used. *)
Lemma abandon_fresh path r w status fd version debugging event monitor w1 :
  registry_ok r w -> session_status_ok status = false -> open_fails path r w (sst_error status) -> 0 <= fd -> fd ∉ lg_files (ledger_of w) ->
  (match event with
   | Some e => ledger_of w1 = add_event e (add_file fd (ledger_of w)) /\ e ∉ lg_events (ledger_of w)
   | None => ledger_of w1 = add_file fd (ledger_of w)
   end) ->
  wp (abandon status (mkSessionState (mkKfdState fd ∅ debugging None) version event monitor 1) r)
    (session_opened path r w) w1.
Proof.
  intros Hr Hs Hc Hpos Hfd Hl. apply wp_bind. unfold destroy_state. cbn [ss_kfd ks_fd ks_device_vms ks_queue_event_page
    ss_memory_fault_event ks_exception_debugging_enabled]. rewrite map_to_list_empty. cbn [drop_trap_handlers drop_scratch_pools close_render_nodes].
  replace (0 <=? fd) with true by lia. rewrite andb_true_r.
  apply wp_bind, wp_give, wp_bind, wp_give, wp_bind.
  eapply (wp_mono _ (fun _ w2 => exists l, ledger_of w2 = add_file fd l /\ fd ∉ lg_files l /\
    (l = ledger_of w \/ exists e w0, ledger_of w0 = add_event e (add_file fd (ledger_of w)) /\
       rp_errno (k_ioctl fd (DESTROY_EVENT e) w0).1 <> 0 /\ l = add_event e (ledger_of w)))).
  { destruct event as [e|]; [|by apply wp_give; eauto]. destruct Hl as [Hl He]. apply wp_bind, wp_call.
    pose proof (law_destroy_event fd e w1) as H. destruct (k_ioctl fd (DESTROY_EVENT e) w1) as [reply w2] eqn:Ed.
    apply wp_give. cbn [fst snd]. rewrite Hl in H. specialize (H ltac:(cbn; set_solver)). rewrite H.
    destruct (rp_errno reply =? 0) eqn:Er.
    - exists (ledger_of w). split_and!; [|done|by left]. by apply event_gone.
    - exists (add_event e (ledger_of w)). split_and!; [done|done|]. right. exists e, w1. rewrite Ed.
      split_and!; [done|cbn; lia|done]. }
  intros _ w2 (l & Hl2 & Hfd2 & Hcase). apply wp_bind, wp_give, wp_bind, wp_give, wp_bind.
  eapply (wp_mono _ (fun _ w3 => ledger_of w3 = ledger_of w2)).
  { destruct debugging; [|by apply wp_give]. apply wp_bind, wp_call_quiet; [apply sl_runtime_enable|].
    intros _ w3 H3. by apply wp_give. }
  intros _ w3 H3. apply wp_close; [rewrite H3, Hl2; cbn; set_solver|]. intros w4 H4. apply wp_give, refused; [done..|].
  unfold nothing_left. rewrite H4, H3, Hl2, file_gone by done. destruct Hcase as [?|(e & w0 & ?)]; [by left|].
  right. by exists fd, e, w0.
Qed.

Lemma create_state_spec path r w fd version device w1 :
  registry_ok r w -> 0 <= fd -> fd ∉ lg_files (ledger_of w) -> ledger_of w1 = add_file fd (ledger_of w) ->
  inspected path w fd device version ->
  is_supported_kfd_version version = true -> sr_sessions r !! device = None ->
  wp (create_state fd version device r) (session_opened path r w) w1.
Proof.
  intros Hr Hpos Hfd Hl Hins Hv Hd. unfold create_state.
  pose proof (fun error => state_not_made path r w fd device version error Hins Hd) as Hcause. apply wp_bind, wp_call_quiet; [apply law_new|].
  intros constructed w2 H2. rewrite Hl in H2. destruct constructed; cbn [negb]; [|by apply close_refuse; [..|apply Hcause; left| |]].
  apply wp_bind. eapply (wp_mono _ (fun _ w3 => ledger_of w3 = ledger_of w2)).
  { unfold enable_exception_debugging. destruct (supports_runtime_enable version); [|by apply wp_give].
    apply wp_bind, wp_retry_loop; [apply sl_enable_patient|intros; apply sl_runtime_enable|].
    intros answer w3 H3. by apply wp_give. }
  intros debugging w3 H3. rewrite H2 in H3. apply wp_bind, wp_create_event. intros event w4 _ H4. rewrite H3 in H4.
  destruct (rp_errno event =? 0); cbn [negb]; [|by apply abandon_fresh; [..|apply Hcause; right; left| | |]]. destruct H4 as [Hev H4]. cbn in Hev.
  apply wp_bind, wp_call_quiet; [apply sl_start_thread|]. intros started w5 H5. rewrite H4 in H5.
  destruct started as [error|[]]; [by apply abandon_fresh; [..|apply Hcause; right; right; left| | |]|].
  apply wp_bind, wp_call_quiet; [apply law_new|]. intros inserted w6 H6. rewrite H5 in H6.
  destruct inserted; cbn [negb]; [|by apply abandon_fresh; [..|apply Hcause; left| | |]]. apply wp_give.
  set (p := fresh (dom (sr_states r))). assert (p ∉ dom (sr_states r)) as Hp%not_elem_of_dom by apply is_fresh.
  split_and!.
  - by apply (registry_ok_new r w).
  - done.
  - cbn [session_status_ok session_ok sst_error]. exists fd, device, version, p. rewrite Hd. cbn. rewrite lookup_insert_eq.
    split_and!; [done..|]. by exists debugging, (rp_event_id event).
Qed.

Lemma notice_fork_same r w (Q : SessionRegistry -> W -> Prop) :
  (s_getpid w).1 = sr_process_id r -> (forall w', ledger_of w' = ledger_of w -> Q r w') -> wp (notice_fork r) Q w.
Proof.
  intros Hpid HQ. apply wp_bind, wp_call. rewrite Hpid, Z.eqb_refl. apply wp_give, HQ, sl_getpid.
Qed.

Lemma alter_known {V} (f : V -> V) (p : state_ptr) (m : gmap state_ptr V) x :
  m !! p = Some x -> alter f p m = <[p := f x]> m.
Proof. intros Hx. by rewrite <-(insert_id m p x Hx) at 1; rewrite alter_insert_eq. Qed.

Lemma find_or_create_spec path r w fd version device w1 :
  registry_ok r w -> 0 <= fd -> fd ∉ lg_files (ledger_of w) -> ledger_of w1 = add_file fd (ledger_of w) ->
  inspected path w fd device version -> is_supported_kfd_version version = true ->
  wp (find_or_create fd version device r) (session_opened path r w) w1.
Proof.
  intros Hr Hpos Hfd Hl Hins Hv. unfold find_or_create. destruct (sr_sessions r !! device) as [p|] eqn:Hd;
    [|by apply create_state_spec]. apply wp_bind, wp_close; [rewrite Hl; cbn; set_solver|]. intros w2 H2.
  rewrite Hl, file_gone in H2 by done. apply wp_give. pose proof Hr as [H1 H3 H4 H5].
  destruct (H1 _ _ Hd) as [state Hs]. rewrite (alter_known _ _ _ _ Hs).
  split_and!; [|done|].
  - split; cbn; [|done| |].
    + intros d q Hq. destruct (decide (q = p)) as [->|Hne]; [rewrite lookup_insert_eq; eauto|].
      rewrite lookup_insert_ne by done. by eapply H1.
    + intros q s [[<- <-]|[_ Hq]]%lookup_insert_Some; rewrite H2; [exact (H4 p state Hs)|exact (H4 q s Hq)].
    + intros q1 q2 s1 s2 [[<- <-]|[N1 Q1]]%lookup_insert_Some [[<- <-]|[N2 Q2]]%lookup_insert_Some; cbn;
        [done|by apply (H5 p q2 state)|by apply (H5 q1 p s1 state)|by apply H5].
  - exists fd, device, version, p. cbn. rewrite Hd. split_and!; try done. by exists state.
Qed.
End facts.

(** C22: the sessions of a process share one state per device, and opening one
    never loses a descriptor.  In a process that was not forked since the last
    opening, whatever the system answers, [KfdSession::open] returns and leaves
    a consistent registry.  A success gives the state of the device that [fstat]
    names for the descriptor opened on the path, if the driver's version is
    supported: the state that was registered under that device, with one more
    reference and nothing new held, or a new one with that descriptor, that
    version and a fault event, registered under the device.  An opening fails
    only where [open], [fstat] or the version query fails, for a version that is
    not supported, or in making a state that was not registered; it leaves the
    registry as it was and every descriptor closed, and at most the fault event,
    when the driver refused to destroy it. *)
Theorem session_open_shares {W} `{!Kernel W, !SessionKernel W, !KernelLaws W, !SessionLaws W}
    path (r : SessionRegistry) (w : W) :
  registry_ok r w -> (forall w, (s_getpid w).1 = sr_process_id r) ->
  wp (session_open path r) (session_opened path r w) w.
Proof.
  intros Hr Hpid. unfold session_open. apply wp_bind, wp_answered, wp_open.
  { intros errno w1 H1 Hopen. apply wp_give, refused; [done|done|by eapply not_opened|]. by left. }
  intros fd w1 Hpos Hfd H1 Hopen. apply wp_bind, wp_call. pose proof (sl_fstat fd w1) as H2. rewrite H1 in H2.
  destruct (s_fstat fd w1) as [info w2] eqn:Efs. cbn [fst snd] in *.
  destruct info as [errno|device].
  { apply close_refuse; try done. eapply not_inspected; [exact Hopen|by rewrite Efs]. }
  apply wp_bind, wp_answered, wp_retry_loop; [apply sl_version_patient|intros; apply sl_get_version|].
  intros queried w3 H3 Hver. replace w2 with (s_fstat fd w1).2 in Hver by by rewrite Efs.
  rewrite H2 in H3. destruct queried as [errno|version].
  { apply close_refuse; try done. by eapply version_unknown. }
  assert (inspected path w fd device version) as Hins by (exists w1, w3; by rewrite Efs in *).
  destruct (is_supported_kfd_version version) eqn:Hv; cbn [negb].
  2: { apply close_refuse; try done. by eapply version_too_old. }
  apply wp_bind, notice_fork_same; [apply Hpid|]. intros w4 H4. rewrite H3 in H4. by apply find_or_create_spec.
Qed.
