(* ===== verification/MemoryState.v ===== *)
(** * Data of the memory API

    [src/memory.cpp], [src/runtime_internal.hpp] and [include/lrrt/lrrt.h]: what
    the runtime keeps of an allocation, the registries of device and pinned
    host memory, the statistics of a device with their updates, and the copy
    kernel with its staging buffer. *)

From stdpp Require Import gmap.
From S2P Require Import Prelude Memory CodeObject ExecutableImage.

(** ** Memory of the transport *)

(** A [MemoryAllocation] and a [HostMemoryAllocation] by what the runtime asks
    of them. *)
Record GpuMemory := mkGpuMemory {
  gm_host_address : Z;
  gm_gpu_address : Z;
  gm_size : Z
}.

Record HostMemory := mkHostMemory {
  hm_host_address : Z;
  hm_gpu_address : Z
}.

(** ** Registries *)

Record LightRocrAllocationInfo := mkAllocationInfo {
  ai_device_index : Z;
  ai_requested_size : Z;
  ai_active_operations : Z;
  ai_destroying : bool;
  ai_allocation : GpuMemory
}.

Record LightRocrHostAllocationInfo := mkHostAllocationInfo {
  hi_device_index : Z;
  hi_requested_size : Z;
  hi_active_operations : Z;
  hi_destroying : bool;
  hi_allocation : HostMemory
}.

(** The keys are the pointers that the API returned. *)
Record memory_globals := mkMemory {
  g_light_rocr_allocations : gmap Z LightRocrAllocationInfo;
  g_light_rocr_pending_cleanup : list GpuMemory;
  g_light_rocr_host_allocations : gmap Z LightRocrHostAllocationInfo
}.

Definition set_ai_active_operations (x : Z) (i : LightRocrAllocationInfo) : LightRocrAllocationInfo :=
  mkAllocationInfo (ai_device_index i) (ai_requested_size i) x (ai_destroying i) (ai_allocation i).
Definition set_ai_destroying (x : bool) (i : LightRocrAllocationInfo) : LightRocrAllocationInfo :=
  mkAllocationInfo (ai_device_index i) (ai_requested_size i) (ai_active_operations i) x (ai_allocation i).
Definition set_hi_active_operations (x : Z) (i : LightRocrHostAllocationInfo) : LightRocrHostAllocationInfo :=
  mkHostAllocationInfo (hi_device_index i) (hi_requested_size i) x (hi_destroying i) (hi_allocation i).
Definition set_hi_destroying (x : bool) (i : LightRocrHostAllocationInfo) : LightRocrHostAllocationInfo :=
  mkHostAllocationInfo (hi_device_index i) (hi_requested_size i) (hi_active_operations i) x (hi_allocation i).
Definition set_allocations (x : gmap Z LightRocrAllocationInfo) (g : memory_globals) : memory_globals :=
  mkMemory x (g_light_rocr_pending_cleanup g) (g_light_rocr_host_allocations g).
Definition set_pending_cleanup (x : list GpuMemory) (g : memory_globals) : memory_globals :=
  mkMemory (g_light_rocr_allocations g) x (g_light_rocr_host_allocations g).
Definition set_host_allocations (x : gmap Z LightRocrHostAllocationInfo) (g : memory_globals) : memory_globals :=
  mkMemory (g_light_rocr_allocations g) (g_light_rocr_pending_cleanup g) x.

(** ** Copies *)

(** The [ExecutableImage] of the transport: its memory and the image in it. *)
Record LoadedImage := mkLoadedImage {
  li_allocation : option GpuMemory;
  li_info : ExecutableImageInfo
}.

Record DirectKfdCopyState := mkCopyState {
  cs_executable_image : LoadedImage;
  cs_image_kernel_index : nat;
  cs_staging : option GpuMemory
}.

Inductive lr_memcpy_kind_t :=
| HostToDevice
| DeviceToHost
| DeviceToDevice.

#[global] Instance lr_memcpy_kind_eq_dec : EqDecision lr_memcpy_kind_t.
Proof. solve_decision. Defined.

(** ** Statistics *)

Record lr_memory_stats_t := mkStats {
  st_live_bytes : Z;
  st_peak_live_bytes : Z;
  st_total_allocated_bytes : Z;
  st_total_freed_bytes : Z;
  st_allocation_count : Z;
  st_free_count : Z;
  st_h2d_copy_bytes : Z;
  st_d2h_copy_bytes : Z;
  st_d2d_copy_bytes : Z;
  st_memcpy_count : Z;
  st_pinned_host_live_bytes : Z;
  st_pinned_host_peak_live_bytes : Z;
  st_pinned_host_total_allocated_bytes : Z;
  st_pinned_host_total_freed_bytes : Z;
  st_pinned_host_allocation_count : Z;
  st_pinned_host_free_count : Z
}.

(** [lr_memory_stats_t{}] *)
Definition no_stats : lr_memory_stats_t := mkStats 0 0 0 0 0 0 0 0 0 0 0 0 0 0 0 0.

Definition record_allocation (size : Z) (stats : lr_memory_stats_t) : lr_memory_stats_t :=
  let live_bytes := u64_add (st_live_bytes stats) size in
  mkStats live_bytes
    (if live_bytes >? st_peak_live_bytes stats then live_bytes else st_peak_live_bytes stats)
    (u64_add (st_total_allocated_bytes stats) size) (st_total_freed_bytes stats)
    (u64_add (st_allocation_count stats) 1) (st_free_count stats) (st_h2d_copy_bytes stats)
    (st_d2h_copy_bytes stats) (st_d2d_copy_bytes stats) (st_memcpy_count stats)
    (st_pinned_host_live_bytes stats) (st_pinned_host_peak_live_bytes stats)
    (st_pinned_host_total_allocated_bytes stats) (st_pinned_host_total_freed_bytes stats)
    (st_pinned_host_allocation_count stats) (st_pinned_host_free_count stats).

(** The subtraction does not go below zero. *)
Definition record_free (size : Z) (stats : lr_memory_stats_t) : lr_memory_stats_t :=
  mkStats (if size >? st_live_bytes stats then 0 else st_live_bytes stats - size)
    (st_peak_live_bytes stats) (st_total_allocated_bytes stats)
    (u64_add (st_total_freed_bytes stats) size) (st_allocation_count stats)
    (u64_add (st_free_count stats) 1) (st_h2d_copy_bytes stats) (st_d2h_copy_bytes stats)
    (st_d2d_copy_bytes stats) (st_memcpy_count stats) (st_pinned_host_live_bytes stats)
    (st_pinned_host_peak_live_bytes stats) (st_pinned_host_total_allocated_bytes stats)
    (st_pinned_host_total_freed_bytes stats) (st_pinned_host_allocation_count stats)
    (st_pinned_host_free_count stats).

Definition record_host_allocation (size : Z) (stats : lr_memory_stats_t) : lr_memory_stats_t :=
  let live_bytes := u64_add (st_pinned_host_live_bytes stats) size in
  mkStats (st_live_bytes stats) (st_peak_live_bytes stats) (st_total_allocated_bytes stats)
    (st_total_freed_bytes stats) (st_allocation_count stats) (st_free_count stats)
    (st_h2d_copy_bytes stats) (st_d2h_copy_bytes stats) (st_d2d_copy_bytes stats)
    (st_memcpy_count stats) live_bytes
    (if live_bytes >? st_pinned_host_peak_live_bytes stats then live_bytes else st_pinned_host_peak_live_bytes stats)
    (u64_add (st_pinned_host_total_allocated_bytes stats) size)
    (st_pinned_host_total_freed_bytes stats) (u64_add (st_pinned_host_allocation_count stats) 1)
    (st_pinned_host_free_count stats).

Definition record_host_free (size : Z) (stats : lr_memory_stats_t) : lr_memory_stats_t :=
  mkStats (st_live_bytes stats) (st_peak_live_bytes stats) (st_total_allocated_bytes stats)
    (st_total_freed_bytes stats) (st_allocation_count stats) (st_free_count stats)
    (st_h2d_copy_bytes stats) (st_d2h_copy_bytes stats) (st_d2d_copy_bytes stats)
    (st_memcpy_count stats)
    (if size >? st_pinned_host_live_bytes stats then 0 else st_pinned_host_live_bytes stats - size)
    (st_pinned_host_peak_live_bytes stats) (st_pinned_host_total_allocated_bytes stats)
    (u64_add (st_pinned_host_total_freed_bytes stats) size) (st_pinned_host_allocation_count stats)
    (u64_add (st_pinned_host_free_count stats) 1).

Definition record_memcpy (kind : lr_memcpy_kind_t) (size : Z) (stats : lr_memory_stats_t)
  : lr_memory_stats_t :=
  let copied this bytes := if bool_decide (kind = this) then u64_add bytes size else bytes in
  mkStats (st_live_bytes stats) (st_peak_live_bytes stats) (st_total_allocated_bytes stats)
    (st_total_freed_bytes stats) (st_allocation_count stats) (st_free_count stats)
    (copied HostToDevice (st_h2d_copy_bytes stats)) (copied DeviceToHost (st_d2h_copy_bytes stats))
    (copied DeviceToDevice (st_d2d_copy_bytes stats)) (u64_add (st_memcpy_count stats) 1)
    (st_pinned_host_live_bytes stats) (st_pinned_host_peak_live_bytes stats)
    (st_pinned_host_total_allocated_bytes stats) (st_pinned_host_total_freed_bytes stats)
    (st_pinned_host_allocation_count stats) (st_pinned_host_free_count stats).

(** [lr_reset_memory_stats]: what is live stays counted. *)
Definition reset_stats (stats : lr_memory_stats_t) : lr_memory_stats_t :=
  mkStats (st_live_bytes stats) (st_live_bytes stats) 0 0 0 0 0 0 0 0
    (st_pinned_host_live_bytes stats) (st_pinned_host_live_bytes stats) 0 0 0 0.
