(* ===== verification/RuntimeState.v ===== *)
(** * The state of the runtime on the direct KFD transport

    [src/runtime_internal.hpp]: events, queues with their dispatches, barriers
    and kernarg arenas, devices, and the registries that the API looks its
    handles up in.  Objects live in heaps and refer to each other by pointers,
    as in the source; following a pointer whose object is gone is a fault, and
    so are a failed [assert] and the use of a moved-from [unique_ptr].

    The transport below (signals, queues, memory and clocks of
    [light-rocr/transport/kfd]), the device and the allocator are the class
    [Transport]: operations on an unknown world [W], with nothing assumed of
    their answers. *)

From stdpp Require Import gmap.
From S2P Require Import Prelude Memory CodeObject Topology AqlPacket AqlQueue AqlProducer KfdProducer Signal KfdKernel MemoryState.

Module LrStatus.
Inductive t :=
| Success
| InvalidArgument
| NotInitialized
| AlreadyInitialized
| NotSupported
| RuntimeError
| DeviceFault.

#[global] Instance eq_dec : EqDecision t.
Proof. solve_decision. Defined.
End LrStatus.
Import LrStatus.

Definition succeeded (status : LrStatus.t) : bool := bool_decide (status = Success).

(** ** Objects of the transport *)

(** A [UserSignal] by the address of its [AmdSignal], which is the same on
    the host and on the device; [None] after a release or a move. *)
Definition UserSignal := option Z.

Definition gpu_handle (signal : UserSignal) : Z := default 0 signal.

Record ClockCounters := mkClock {
  cc_gpu : Z;
  cc_cpu : Z;
  cc_system : Z;
  cc_system_frequency_hz : Z
}.

Definition no_clock : ClockCounters := mkClock 0 0 0 0.

(** ** Objects of the runtime *)

Definition event_ptr := positive.
Definition queue_ptr := positive.
Definition dispatch_ptr := positive.
Definition arena_ptr := positive.
Definition module_ptr := positive.
Definition kernel_ptr := positive.

Record KernargArena := mkArena {
  ar_allocation : GpuMemory;
  ar_used : Z
}.

Record KernargSlice := mkSlice {
  sl_arena : option arena_ptr;
  sl_offset : Z;
  sl_size : Z
}.

(** [KernargSlice{}] *)
Definition no_slice : KernargSlice := mkSlice None 0 0.

Record PendingDispatch := mkDispatch {
  pd_completion_signal : UserSignal;
  pd_kernarg : KernargSlice;
  pd_completion_event : option event_ptr
}.

Record PendingBarrier := mkBarrier {
  bar_retirement_dispatch : dispatch_ptr;
  bar_dependencies : list event_ptr
}.

Record lr_event_t := mkEvent {
  ev_device : Z;
  ev_signal : UserSignal;
  ev_pending : bool;
  ev_completed : bool;
  ev_dependency_count : Z;
  ev_dependency_queues : list (queue_ptr * Z);
  ev_active_synchronizers : Z;
  ev_destroying : bool;
  ev_start_tick : Z;
  ev_completion_tick : Z;
  ev_record_clock : ClockCounters;
  ev_completion_clock : ClockCounters;
  ev_recorded_queue : option queue_ptr;
  ev_pageable_copy_staging : option HostMemory;
  ev_pageable_copy_destination : Z;
  ev_pageable_copy_size : Z
}.

(** A moved-from element of [pending_dispatches] is [None]. *)
Record lr_queue_t := mkQueue {
  lq_device : Z;
  lq_is_default : bool;
  lq_queue : AqlQueue;
  lq_pending_dispatches : list (option dispatch_ptr);
  lq_pending_dispatch_head : nat;
  lq_pending_barriers : list PendingBarrier;
  lq_available_dispatches : list dispatch_ptr;
  lq_kernarg_arenas : list arena_ptr;
  lq_pending_events : list event_ptr;
  lq_active_synchronizers : Z;
  lq_capacity_waiting : bool;
  lq_destroying : bool
}.

Record DeviceState := mkDevice {
  ds_node : Node;
  ds_opened : bool;
  ds_default_queue : option queue_ptr;
  ds_queues : list queue_ptr;
  ds_pending_events : list event_ptr;
  ds_copy_state : option DirectKfdCopyState;
  ds_memory_stats : lr_memory_stats_t
}.

(** A [CodeCacheOperation] of the transport by what it owns; [None] when it
    owns nothing. *)
Definition CodeCacheOperation := option Z.

Record lr_module_t := mkModule {
  md_device : Z;
  md_kernels : list kernel_ptr;
  md_destroying : bool;
  md_executable_image : option LoadedImage;
  md_pending_cache_operation : option CodeCacheOperation;
  md_cache_operation_queue : option queue_ptr
}.

Record lr_kernel_t := mkKernel {
  kn_module : module_ptr;
  kn_image_kernel_index : nat
}.

(** The registries of [src/module.cpp] and the objects behind them. *)
Record module_globals := mkModules {
  g_modules : gset module_ptr;
  g_kernels : gset kernel_ptr;
  g_module_cleanup_owners : list module_ptr;
  rt_modules : gmap module_ptr lr_module_t;
  rt_kernels : gmap kernel_ptr lr_kernel_t
}.

Definition no_modules : module_globals := mkModules ∅ ∅ [] ∅ ∅.

(** The globals, the heaps behind the pointers, and the world below. *)
Record runtime (W : Type) := mkRuntime {
  g_initialized : bool;
  g_kfd_session : bool;
  g_devices : list DeviceState;
  g_queues : gset queue_ptr;
  g_events : gset event_ptr;
  rt_queues : gmap queue_ptr lr_queue_t;
  rt_events : gmap event_ptr lr_event_t;
  rt_dispatches : gmap dispatch_ptr PendingDispatch;
  rt_arenas : gmap arena_ptr KernargArena;
  g_memory : memory_globals;
  g_module_state : module_globals;
  rt_world : W
}.
Arguments g_initialized {W} s : rename.
Arguments g_kfd_session {W} s : rename.
Arguments g_devices {W} s : rename.
Arguments g_queues {W} s : rename.
Arguments g_events {W} s : rename.
Arguments rt_queues {W} s : rename.
Arguments rt_events {W} s : rename.
Arguments rt_dispatches {W} s : rename.
Arguments rt_arenas {W} s : rename.
Arguments g_memory {W} s : rename.
Arguments g_module_state {W} s : rename.
Arguments rt_world {W} s : rename.
Arguments mkRuntime {W}.

(** ** Field updates *)

Definition set_ar_used (x : Z) (a : KernargArena) : KernargArena :=
  mkArena (ar_allocation a) x.
Definition set_pd_completion_signal (x : UserSignal) (d : PendingDispatch) : PendingDispatch :=
  mkDispatch x (pd_kernarg d) (pd_completion_event d).
Definition set_pd_completion_event (x : option event_ptr) (d : PendingDispatch) : PendingDispatch :=
  mkDispatch (pd_completion_signal d) (pd_kernarg d) x.
Definition set_ev_signal (x : UserSignal) (e : lr_event_t) : lr_event_t :=
  mkEvent (ev_device e) x (ev_pending e) (ev_completed e) (ev_dependency_count e)
    (ev_dependency_queues e) (ev_active_synchronizers e) (ev_destroying e) (ev_start_tick e)
    (ev_completion_tick e) (ev_record_clock e) (ev_completion_clock e) (ev_recorded_queue e)
    (ev_pageable_copy_staging e) (ev_pageable_copy_destination e) (ev_pageable_copy_size e).
Definition set_ev_pending (x : bool) (e : lr_event_t) : lr_event_t :=
  mkEvent (ev_device e) (ev_signal e) x (ev_completed e) (ev_dependency_count e)
    (ev_dependency_queues e) (ev_active_synchronizers e) (ev_destroying e) (ev_start_tick e)
    (ev_completion_tick e) (ev_record_clock e) (ev_completion_clock e) (ev_recorded_queue e)
    (ev_pageable_copy_staging e) (ev_pageable_copy_destination e) (ev_pageable_copy_size e).
Definition set_ev_completed (x : bool) (e : lr_event_t) : lr_event_t :=
  mkEvent (ev_device e) (ev_signal e) (ev_pending e) x (ev_dependency_count e)
    (ev_dependency_queues e) (ev_active_synchronizers e) (ev_destroying e) (ev_start_tick e)
    (ev_completion_tick e) (ev_record_clock e) (ev_completion_clock e) (ev_recorded_queue e)
    (ev_pageable_copy_staging e) (ev_pageable_copy_destination e) (ev_pageable_copy_size e).
Definition set_ev_dependency_count (x : Z) (e : lr_event_t) : lr_event_t :=
  mkEvent (ev_device e) (ev_signal e) (ev_pending e) (ev_completed e) x (ev_dependency_queues e)
    (ev_active_synchronizers e) (ev_destroying e) (ev_start_tick e) (ev_completion_tick e)
    (ev_record_clock e) (ev_completion_clock e) (ev_recorded_queue e) (ev_pageable_copy_staging e)
    (ev_pageable_copy_destination e) (ev_pageable_copy_size e).
Definition set_ev_dependency_queues (x : list (queue_ptr * Z)) (e : lr_event_t) : lr_event_t :=
  mkEvent (ev_device e) (ev_signal e) (ev_pending e) (ev_completed e) (ev_dependency_count e) x
    (ev_active_synchronizers e) (ev_destroying e) (ev_start_tick e) (ev_completion_tick e)
    (ev_record_clock e) (ev_completion_clock e) (ev_recorded_queue e) (ev_pageable_copy_staging e)
    (ev_pageable_copy_destination e) (ev_pageable_copy_size e).
Definition set_ev_active_synchronizers (x : Z) (e : lr_event_t) : lr_event_t :=
  mkEvent (ev_device e) (ev_signal e) (ev_pending e) (ev_completed e) (ev_dependency_count e)
    (ev_dependency_queues e) x (ev_destroying e) (ev_start_tick e) (ev_completion_tick e)
    (ev_record_clock e) (ev_completion_clock e) (ev_recorded_queue e) (ev_pageable_copy_staging e)
    (ev_pageable_copy_destination e) (ev_pageable_copy_size e).
Definition set_ev_destroying (x : bool) (e : lr_event_t) : lr_event_t :=
  mkEvent (ev_device e) (ev_signal e) (ev_pending e) (ev_completed e) (ev_dependency_count e)
    (ev_dependency_queues e) (ev_active_synchronizers e) x (ev_start_tick e)
    (ev_completion_tick e) (ev_record_clock e) (ev_completion_clock e) (ev_recorded_queue e)
    (ev_pageable_copy_staging e) (ev_pageable_copy_destination e) (ev_pageable_copy_size e).
Definition set_ev_start_tick (x : Z) (e : lr_event_t) : lr_event_t :=
  mkEvent (ev_device e) (ev_signal e) (ev_pending e) (ev_completed e) (ev_dependency_count e)
    (ev_dependency_queues e) (ev_active_synchronizers e) (ev_destroying e) x
    (ev_completion_tick e) (ev_record_clock e) (ev_completion_clock e) (ev_recorded_queue e)
    (ev_pageable_copy_staging e) (ev_pageable_copy_destination e) (ev_pageable_copy_size e).
Definition set_ev_completion_tick (x : Z) (e : lr_event_t) : lr_event_t :=
  mkEvent (ev_device e) (ev_signal e) (ev_pending e) (ev_completed e) (ev_dependency_count e)
    (ev_dependency_queues e) (ev_active_synchronizers e) (ev_destroying e) (ev_start_tick e) x
    (ev_record_clock e) (ev_completion_clock e) (ev_recorded_queue e) (ev_pageable_copy_staging e)
    (ev_pageable_copy_destination e) (ev_pageable_copy_size e).
Definition set_ev_record_clock (x : ClockCounters) (e : lr_event_t) : lr_event_t :=
  mkEvent (ev_device e) (ev_signal e) (ev_pending e) (ev_completed e) (ev_dependency_count e)
    (ev_dependency_queues e) (ev_active_synchronizers e) (ev_destroying e) (ev_start_tick e)
    (ev_completion_tick e) x (ev_completion_clock e) (ev_recorded_queue e)
    (ev_pageable_copy_staging e) (ev_pageable_copy_destination e) (ev_pageable_copy_size e).
Definition set_ev_completion_clock (x : ClockCounters) (e : lr_event_t) : lr_event_t :=
  mkEvent (ev_device e) (ev_signal e) (ev_pending e) (ev_completed e) (ev_dependency_count e)
    (ev_dependency_queues e) (ev_active_synchronizers e) (ev_destroying e) (ev_start_tick e)
    (ev_completion_tick e) (ev_record_clock e) x (ev_recorded_queue e)
    (ev_pageable_copy_staging e) (ev_pageable_copy_destination e) (ev_pageable_copy_size e).
Definition set_ev_recorded_queue (x : option queue_ptr) (e : lr_event_t) : lr_event_t :=
  mkEvent (ev_device e) (ev_signal e) (ev_pending e) (ev_completed e) (ev_dependency_count e)
    (ev_dependency_queues e) (ev_active_synchronizers e) (ev_destroying e) (ev_start_tick e)
    (ev_completion_tick e) (ev_record_clock e) (ev_completion_clock e) x
    (ev_pageable_copy_staging e) (ev_pageable_copy_destination e) (ev_pageable_copy_size e).
Definition set_ev_pageable_copy_staging (x : option HostMemory) (e : lr_event_t) : lr_event_t :=
  mkEvent (ev_device e) (ev_signal e) (ev_pending e) (ev_completed e) (ev_dependency_count e)
    (ev_dependency_queues e) (ev_active_synchronizers e) (ev_destroying e) (ev_start_tick e)
    (ev_completion_tick e) (ev_record_clock e) (ev_completion_clock e) (ev_recorded_queue e) x
    (ev_pageable_copy_destination e) (ev_pageable_copy_size e).
Definition set_ev_pageable_copy_destination (x : Z) (e : lr_event_t) : lr_event_t :=
  mkEvent (ev_device e) (ev_signal e) (ev_pending e) (ev_completed e) (ev_dependency_count e)
    (ev_dependency_queues e) (ev_active_synchronizers e) (ev_destroying e) (ev_start_tick e)
    (ev_completion_tick e) (ev_record_clock e) (ev_completion_clock e) (ev_recorded_queue e)
    (ev_pageable_copy_staging e) x (ev_pageable_copy_size e).
Definition set_ev_pageable_copy_size (x : Z) (e : lr_event_t) : lr_event_t :=
  mkEvent (ev_device e) (ev_signal e) (ev_pending e) (ev_completed e) (ev_dependency_count e)
    (ev_dependency_queues e) (ev_active_synchronizers e) (ev_destroying e) (ev_start_tick e)
    (ev_completion_tick e) (ev_record_clock e) (ev_completion_clock e) (ev_recorded_queue e)
    (ev_pageable_copy_staging e) (ev_pageable_copy_destination e) x.
Definition set_lq_queue (x : AqlQueue) (q : lr_queue_t) : lr_queue_t :=
  mkQueue (lq_device q) (lq_is_default q) x (lq_pending_dispatches q) (lq_pending_dispatch_head q)
    (lq_pending_barriers q) (lq_available_dispatches q) (lq_kernarg_arenas q)
    (lq_pending_events q) (lq_active_synchronizers q) (lq_capacity_waiting q) (lq_destroying q).
Definition set_lq_pending_dispatches (x : list (option dispatch_ptr)) (q : lr_queue_t) : lr_queue_t :=
  mkQueue (lq_device q) (lq_is_default q) (lq_queue q) x (lq_pending_dispatch_head q)
    (lq_pending_barriers q) (lq_available_dispatches q) (lq_kernarg_arenas q)
    (lq_pending_events q) (lq_active_synchronizers q) (lq_capacity_waiting q) (lq_destroying q).
Definition set_lq_pending_dispatch_head (x : nat) (q : lr_queue_t) : lr_queue_t :=
  mkQueue (lq_device q) (lq_is_default q) (lq_queue q) (lq_pending_dispatches q) x
    (lq_pending_barriers q) (lq_available_dispatches q) (lq_kernarg_arenas q)
    (lq_pending_events q) (lq_active_synchronizers q) (lq_capacity_waiting q) (lq_destroying q).
Definition set_lq_pending_barriers (x : list PendingBarrier) (q : lr_queue_t) : lr_queue_t :=
  mkQueue (lq_device q) (lq_is_default q) (lq_queue q) (lq_pending_dispatches q)
    (lq_pending_dispatch_head q) x (lq_available_dispatches q) (lq_kernarg_arenas q)
    (lq_pending_events q) (lq_active_synchronizers q) (lq_capacity_waiting q) (lq_destroying q).
Definition set_lq_available_dispatches (x : list dispatch_ptr) (q : lr_queue_t) : lr_queue_t :=
  mkQueue (lq_device q) (lq_is_default q) (lq_queue q) (lq_pending_dispatches q)
    (lq_pending_dispatch_head q) (lq_pending_barriers q) x (lq_kernarg_arenas q)
    (lq_pending_events q) (lq_active_synchronizers q) (lq_capacity_waiting q) (lq_destroying q).
Definition set_lq_kernarg_arenas (x : list arena_ptr) (q : lr_queue_t) : lr_queue_t :=
  mkQueue (lq_device q) (lq_is_default q) (lq_queue q) (lq_pending_dispatches q)
    (lq_pending_dispatch_head q) (lq_pending_barriers q) (lq_available_dispatches q) x
    (lq_pending_events q) (lq_active_synchronizers q) (lq_capacity_waiting q) (lq_destroying q).
Definition set_lq_pending_events (x : list event_ptr) (q : lr_queue_t) : lr_queue_t :=
  mkQueue (lq_device q) (lq_is_default q) (lq_queue q) (lq_pending_dispatches q)
    (lq_pending_dispatch_head q) (lq_pending_barriers q) (lq_available_dispatches q)
    (lq_kernarg_arenas q) x (lq_active_synchronizers q) (lq_capacity_waiting q) (lq_destroying q).
Definition set_lq_active_synchronizers (x : Z) (q : lr_queue_t) : lr_queue_t :=
  mkQueue (lq_device q) (lq_is_default q) (lq_queue q) (lq_pending_dispatches q)
    (lq_pending_dispatch_head q) (lq_pending_barriers q) (lq_available_dispatches q)
    (lq_kernarg_arenas q) (lq_pending_events q) x (lq_capacity_waiting q) (lq_destroying q).
Definition set_lq_capacity_waiting (x : bool) (q : lr_queue_t) : lr_queue_t :=
  mkQueue (lq_device q) (lq_is_default q) (lq_queue q) (lq_pending_dispatches q)
    (lq_pending_dispatch_head q) (lq_pending_barriers q) (lq_available_dispatches q)
    (lq_kernarg_arenas q) (lq_pending_events q) (lq_active_synchronizers q) x (lq_destroying q).
Definition set_lq_destroying (x : bool) (q : lr_queue_t) : lr_queue_t :=
  mkQueue (lq_device q) (lq_is_default q) (lq_queue q) (lq_pending_dispatches q)
    (lq_pending_dispatch_head q) (lq_pending_barriers q) (lq_available_dispatches q)
    (lq_kernarg_arenas q) (lq_pending_events q) (lq_active_synchronizers q)
    (lq_capacity_waiting q) x.
Definition set_ds_default_queue (x : option queue_ptr) (d : DeviceState) : DeviceState :=
  mkDevice (ds_node d) (ds_opened d) x (ds_queues d) (ds_pending_events d) (ds_copy_state d)
    (ds_memory_stats d).
Definition set_ds_queues (x : list queue_ptr) (d : DeviceState) : DeviceState :=
  mkDevice (ds_node d) (ds_opened d) (ds_default_queue d) x (ds_pending_events d) (ds_copy_state d)
    (ds_memory_stats d).
Definition set_ds_pending_events (x : list event_ptr) (d : DeviceState) : DeviceState :=
  mkDevice (ds_node d) (ds_opened d) (ds_default_queue d) (ds_queues d) x (ds_copy_state d)
    (ds_memory_stats d).
Definition set_ds_copy_state (x : option DirectKfdCopyState) (d : DeviceState) : DeviceState :=
  mkDevice (ds_node d) (ds_opened d) (ds_default_queue d) (ds_queues d) (ds_pending_events d) x
    (ds_memory_stats d).
Definition set_ds_memory_stats (x : lr_memory_stats_t) (d : DeviceState) : DeviceState :=
  mkDevice (ds_node d) (ds_opened d) (ds_default_queue d) (ds_queues d) (ds_pending_events d)
    (ds_copy_state d) x.
Definition set_g_devices {W} (x : list DeviceState) (s : runtime W) : runtime W :=
  mkRuntime (g_initialized s) (g_kfd_session s) x (g_queues s) (g_events s) (rt_queues s)
    (rt_events s) (rt_dispatches s) (rt_arenas s) (g_memory s)
    (g_module_state s) (rt_world s).
Definition set_g_queues {W} (x : gset queue_ptr) (s : runtime W) : runtime W :=
  mkRuntime (g_initialized s) (g_kfd_session s) (g_devices s) x (g_events s) (rt_queues s)
    (rt_events s) (rt_dispatches s) (rt_arenas s) (g_memory s)
    (g_module_state s) (rt_world s).
Definition set_g_events {W} (x : gset event_ptr) (s : runtime W) : runtime W :=
  mkRuntime (g_initialized s) (g_kfd_session s) (g_devices s) (g_queues s) x (rt_queues s)
    (rt_events s) (rt_dispatches s) (rt_arenas s) (g_memory s)
    (g_module_state s) (rt_world s).
Definition set_rt_queues {W} (x : gmap queue_ptr lr_queue_t) (s : runtime W) : runtime W :=
  mkRuntime (g_initialized s) (g_kfd_session s) (g_devices s) (g_queues s) (g_events s) x
    (rt_events s) (rt_dispatches s) (rt_arenas s) (g_memory s)
    (g_module_state s) (rt_world s).
Definition set_rt_events {W} (x : gmap event_ptr lr_event_t) (s : runtime W) : runtime W :=
  mkRuntime (g_initialized s) (g_kfd_session s) (g_devices s) (g_queues s) (g_events s)
    (rt_queues s) x (rt_dispatches s) (rt_arenas s) (g_memory s)
    (g_module_state s) (rt_world s).
Definition set_rt_dispatches {W} (x : gmap dispatch_ptr PendingDispatch) (s : runtime W) : runtime W :=
  mkRuntime (g_initialized s) (g_kfd_session s) (g_devices s) (g_queues s) (g_events s)
    (rt_queues s) (rt_events s) x (rt_arenas s) (g_memory s)
    (g_module_state s) (rt_world s).
Definition set_rt_arenas {W} (x : gmap arena_ptr KernargArena) (s : runtime W) : runtime W :=
  mkRuntime (g_initialized s) (g_kfd_session s) (g_devices s) (g_queues s) (g_events s)
    (rt_queues s) (rt_events s) (rt_dispatches s) x (g_memory s)
    (g_module_state s) (rt_world s).
Definition set_rt_world {W} (x : W) (s : runtime W) : runtime W :=
  mkRuntime (g_initialized s) (g_kfd_session s) (g_devices s) (g_queues s) (g_events s)
    (rt_queues s) (rt_events s) (rt_dispatches s) (rt_arenas s) (g_memory s)
    (g_module_state s) x.
Definition set_g_memory {W} (x : memory_globals) (s : runtime W) : runtime W :=
  mkRuntime (g_initialized s) (g_kfd_session s) (g_devices s) (g_queues s) (g_events s)
    (rt_queues s) (rt_events s) (rt_dispatches s) (rt_arenas s) x
    (g_module_state s) (rt_world s).
Definition set_g_module_state {W} (x : module_globals) (s : runtime W) : runtime W :=
  mkRuntime (g_initialized s) (g_kfd_session s) (g_devices s) (g_queues s) (g_events s)
    (rt_queues s) (rt_events s) (rt_dispatches s) (rt_arenas s) (g_memory s) x (rt_world s).
Definition set_g_initialized {W} (x : bool) (s : runtime W) : runtime W :=
  mkRuntime x (g_kfd_session s) (g_devices s) (g_queues s) (g_events s) (rt_queues s)
    (rt_events s) (rt_dispatches s) (rt_arenas s) (g_memory s) (g_module_state s) (rt_world s).
Definition set_g_kfd_session {W} (x : bool) (s : runtime W) : runtime W :=
  mkRuntime (g_initialized s) x (g_devices s) (g_queues s) (g_events s) (rt_queues s)
    (rt_events s) (rt_dispatches s) (rt_arenas s) (g_memory s) (g_module_state s) (rt_world s).
Definition set_md_kernels (x : list kernel_ptr) (m : lr_module_t) : lr_module_t :=
  mkModule (md_device m) x (md_destroying m) (md_executable_image m) (md_pending_cache_operation m)
    (md_cache_operation_queue m).
Definition set_md_destroying (x : bool) (m : lr_module_t) : lr_module_t :=
  mkModule (md_device m) (md_kernels m) x (md_executable_image m) (md_pending_cache_operation m)
    (md_cache_operation_queue m).
Definition set_md_executable_image (x : option LoadedImage) (m : lr_module_t) : lr_module_t :=
  mkModule (md_device m) (md_kernels m) (md_destroying m) x (md_pending_cache_operation m)
    (md_cache_operation_queue m).
Definition set_md_cache_operation (x : option CodeCacheOperation) (queue : option queue_ptr)
    (m : lr_module_t) : lr_module_t :=
  mkModule (md_device m) (md_kernels m) (md_destroying m) (md_executable_image m) x queue.
Definition set_g_modules (x : gset module_ptr) (g : module_globals) : module_globals :=
  mkModules x (g_kernels g) (g_module_cleanup_owners g) (rt_modules g) (rt_kernels g).
Definition set_g_kernels (x : gset kernel_ptr) (g : module_globals) : module_globals :=
  mkModules (g_modules g) x (g_module_cleanup_owners g) (rt_modules g) (rt_kernels g).
Definition set_g_module_cleanup_owners (x : list module_ptr) (g : module_globals) : module_globals :=
  mkModules (g_modules g) (g_kernels g) x (rt_modules g) (rt_kernels g).
Definition set_rt_modules (x : gmap module_ptr lr_module_t) (g : module_globals) : module_globals :=
  mkModules (g_modules g) (g_kernels g) (g_module_cleanup_owners g) x (rt_kernels g).
Definition set_rt_kernels (x : gmap kernel_ptr lr_kernel_t) (g : module_globals) : module_globals :=
  mkModules (g_modules g) (g_kernels g) (g_module_cleanup_owners g) (rt_modules g) x.
Definition set_ds_opened (x : bool) (d : DeviceState) : DeviceState :=
  mkDevice (ds_node d) x (ds_default_queue d) (ds_queues d) (ds_pending_events d) (ds_copy_state d)
    (ds_memory_stats d).

(** ** The world below *)

Class Transport (W : Type) := {
  (** Whether an allocation of host bookkeeping succeeds ([std::bad_alloc]),
      and whether a vector is at its capacity (the library's choice). *)
  t_new : W -> bool * W;
  t_at_capacity : W -> bool * W;
  (** [KfdSession::create_user_signal(node, 1)]: success, and the signal,
      which may own storage even on failure; [UserSignal::release]. *)
  t_create_user_signal : Node -> W -> (bool * UserSignal) * W;
  t_release_signal : UserSignal -> W -> (bool * UserSignal) * W;
  (** The signal object at the next load, after what the device has done
      meanwhile, and a store of the host. *)
  t_signal : Z -> W -> AmdSignal * W;
  t_store_signal : Z -> (AmdSignal -> AmdSignal) -> W -> W;
  (** [KfdSession::create_aql_queue(node, kAqlRingDefaultSize, private_size)]:
      success, whether the error is [ConfigureScratch], and the queue;
      [AqlQueue::release], and the accessors that [AqlQueue] does not hold. *)
  t_create_aql_queue : Node -> Z -> W -> (bool * bool * AqlQueue) * W;
  t_release_queue : AqlQueue -> W -> (bool * AqlQueue) * W;
  t_error_reason : AqlQueue -> W -> Z * W;
  t_scratch_private_segment_size : AqlQueue -> W -> Z;
  (** The memory a queue shares with the device: indices, doorbell and ring. *)
  t_queue_memory : AqlQueue -> W -> kfd_context * bytes;
  t_set_queue_memory : AqlQueue -> kfd_context * bytes -> W -> W;
  (** [KfdSession::query_clock_counters] *)
  t_query_clock_counters : Node -> W -> option ClockCounters * W;
  (** [KfdSession::allocate_gtt], [MemoryAllocation::release] and the bytes
      behind a host address. *)
  t_allocate_gtt : Node -> Z -> W -> (bool * GpuMemory) * W;
  t_release_memory : GpuMemory -> W -> bool * W;
  t_bytes : Z -> Z -> W -> bytes;
  t_set_bytes : Z -> bytes -> W -> W;
  (** The copy out of a staging buffer, and its release. *)
  t_copy_staging : Z -> HostMemory -> Z -> W -> W;
  t_release_host_memory : HostMemory -> W -> bool * W;
  (** How often a loop that waits for the device or for another thread polls. *)
  t_patience : nat
}.

(** What other threads do while this one does not hold [g_devices_mutex]. *)
Class Threads (W : Type) := other_threads : runtime W -> runtime W.

(** ** Computations *)

Section runtime.
Context {W : Type} `{!Transport W}.

Abbreviation M := (kfd (runtime W)).

Definition failed_assert {A} : M A := fun _ => Fault OutOfBounds.

Definition out_of_fuel {A} : M A := fun _ => Fault OutOfFuel.

Definition gets {A} (f : runtime W -> A) : M A := fun s => Ok (f s, s).

Definition modify (f : runtime W -> runtime W) : M unit := fun s => Ok (tt, f s).

(** A call of the layer below. *)
Definition below {A} (f : W -> A * W) : M A := fun s =>
  let '(a, w) := f (rt_world s) in Ok (a, set_rt_world w s).

Definition below_ (f : W -> W) : M unit := modify (fun s => set_rt_world (f (rt_world s)) s).

(** [*pointer] *)
Definition dereference {K V} `{Countable K} (heap : runtime W -> gmap K V) (p : K) : M V := fun s =>
  match heap s !! p with Some v => Ok (v, s) | None => Fault OutOfBounds end.

Definition get_queue (q : queue_ptr) : M lr_queue_t := dereference rt_queues q.
Definition get_event (e : event_ptr) : M lr_event_t := dereference rt_events e.
Definition get_dispatch (d : dispatch_ptr) : M PendingDispatch := dereference rt_dispatches d.
Definition get_arena (a : arena_ptr) : M KernargArena := dereference rt_arenas a.
Definition get_module (m : module_ptr) : M lr_module_t :=
  dereference (fun s => rt_modules (g_module_state s)) m.
Definition get_kernel (k : kernel_ptr) : M lr_kernel_t :=
  dereference (fun s => rt_kernels (g_module_state s)) k.

Definition modify_modules (f : module_globals -> module_globals) : M unit :=
  modify (fun s => set_g_module_state (f (g_module_state s)) s).

(** [pointer->field = value], several of them at once. *)
Definition update_queue (q : queue_ptr) (f : lr_queue_t -> lr_queue_t) : M unit :=
  object ← get_queue q;
  modify (fun s => set_rt_queues (<[q := f object]> (rt_queues s)) s).

Definition update_event (e : event_ptr) (f : lr_event_t -> lr_event_t) : M unit :=
  object ← get_event e;
  modify (fun s => set_rt_events (<[e := f object]> (rt_events s)) s).

Definition update_dispatch (d : dispatch_ptr) (f : PendingDispatch -> PendingDispatch) : M unit :=
  object ← get_dispatch d;
  modify (fun s => set_rt_dispatches (<[d := f object]> (rt_dispatches s)) s).

Definition update_arena (a : arena_ptr) (f : KernargArena -> KernargArena) : M unit :=
  object ← get_arena a;
  modify (fun s => set_rt_arenas (<[a := f object]> (rt_arenas s)) s).

Definition update_module (m : module_ptr) (f : lr_module_t -> lr_module_t) : M unit :=
  object ← get_module m;
  modify_modules (fun g => set_rt_modules (<[m := f object]> (rt_modules g)) g).

(** [g_devices[index]] *)
Definition get_device (index : Z) : M DeviceState := fun s =>
  match g_devices s !! Z.to_nat index with
  | Some device => if 0 <=? index then Ok (device, s) else Fault OutOfBounds
  | None => Fault OutOfBounds
  end.

Definition update_device (index : Z) (f : DeviceState -> DeviceState) : M unit :=
  device ← get_device index;
  modify (fun s => set_g_devices (<[Z.to_nat index := f device]> (g_devices s)) s).

(** ** Signals *)

(** [UserSignal::abi], which asserts that the signal owns storage. *)
Definition abi (signal : UserSignal) : M Z :=
  match signal with Some address => mret address | None => failed_assert end.

Definition observe_signal (signal : UserSignal) : M AmdSignal :=
  address ← abi signal;
  below (t_signal address).

Definition load_acquire (signal : UserSignal) : M Z :=
  object ← observe_signal signal;
  mret (signal_load_acquire object).

Definition start_timestamp_acquire (signal : UserSignal) : M Z :=
  object ← observe_signal signal;
  mret (signal_start_timestamp_acquire object).

Definition end_timestamp_acquire (signal : UserSignal) : M Z :=
  object ← observe_signal signal;
  mret (signal_end_timestamp_acquire object).

Definition signal_reset (signal : UserSignal) (initial_value : Z) : M unit :=
  address ← abi signal;
  below_ (t_store_signal address (fun object => reset_user_signal object initial_value)).

Definition store_relaxed (signal : UserSignal) (value : Z) : M unit :=
  address ← abi signal;
  below_ (t_store_signal address (fun object => signal_store_relaxed object value)).

(** [PendingDispatch::active_completion_signal] *)
Definition active_completion_signal (dispatch : PendingDispatch) : M UserSignal :=
  match pd_completion_event dispatch with
  | Some e => event ← get_event e; mret (ev_signal event)
  | None => mret (pd_completion_signal dispatch)
  end.

(** ** The memory of a queue *)

Definition on_queue_memory {A} (queue : AqlQueue)
    (f : kfd_context -> bytes -> result Empty_set (A * kfd_context * bytes)) : M A := fun s =>
  let '(context, ring) := t_queue_memory queue (rt_world s) in
  match f context ring with
  | Ok (a, context, ring) =>
      Ok (a, set_rt_world (t_set_queue_memory queue (context, ring) (rt_world s)) s)
  | Err e => match e with end
  | Fault f => Fault f
  end.

Definition queue_read_index (queue : AqlQueue) : M Z :=
  on_queue_memory queue (fun context ring =>
    let '(index, context) := light_rocr_kfd_load_read_index queue context in
    Ok (index, context, ring)).

Definition queue_write_index (queue : AqlQueue) : M Z :=
  on_queue_memory queue (fun context ring =>
    let '(index, context) := light_rocr_kfd_load_write_index queue context in
    Ok (index, context, ring)).

Definition queue_set_profiling_enabled (queue : AqlQueue) (enabled : bool) : M unit :=
  on_queue_memory queue (fun context ring =>
    let control := set_profiling_enabled queue (kc_control context) enabled in
    Ok (tt, mkKfdContext control (kc_doorbells context) (kc_device context), ring)).

Definition queue_error_reason (queue : AqlQueue) : M Z := below (t_error_reason queue).
End runtime.

(** ** Vectors *)

(** [*position = vector.back(); vector.pop_back();] *)
Definition swap_remove {A} (index : nat) (l : list A) : list A :=
  match last l with
  | Some back => take (length l - 1) (<[index := back]> l)
  | None => l
  end.

(** [vector.erase(position)] *)
Definition erase {A} (index : nat) (l : list A) : list A := delete index l.

(** [std::find_if], as an index. *)
Definition find_index {A} (P : A -> bool) (l : list A) : option nat :=
  fst <$> list_find (fun x => P x = true) l.
