(* ===== verification/DirectQueue.v ===== *)
(** * Retirement of work on direct KFD queues

    The direct KFD part of [src/queue.cpp] that tracks what a queue still
    owes: event dependencies of barriers, dispatches whose signal has reached
    zero, recorded events ([src/event.cpp]), the wait for a signal,
    synchronization, and the room in the ring.  A function that returns a
    status returns it as its value; loops over a vector take the length of the
    vector as fuel. *)

From stdpp Require Import gmap.
From S2P Require Import Prelude Memory Topology AqlQueue AqlProducer KfdProducer Signal KfdKernel MemoryState RuntimeState.

Import LrStatus.

Section queue.
Context {W : Type} `{!Transport W}.

Abbreviation M := (kfd (runtime W)).

Definition valid_direct_kfd_queue_locked (queue : queue_ptr) : M bool :=
  known ← gets (fun s => bool_decide (queue ∈ g_queues s));
  if (known : bool) then
    object ← get_queue queue;
    mret (negb (lq_capacity_waiting object) && negb (lq_destroying object))
  else mret false.

(** ** Event dependencies *)

Definition retain_direct_kfd_event_dependency_locked (event : event_ptr) (queue : queue_ptr)
  : M unit :=
  update_event event (fun object =>
    let dependencies := ev_dependency_queues object in
    set_ev_dependency_queues
      match find_index (fun entry => bool_decide (entry.1 = queue)) dependencies with
      | None => dependencies ++ [(queue, 1)]
      | Some index => alter (fun '(q, count) => (q, u64_add count 1)) index dependencies
      end
      (set_ev_dependency_count (u64_add (ev_dependency_count object) 1) object)).

Definition release_direct_kfd_event_dependency_locked (event : event_ptr) (queue : queue_ptr)
  : M unit :=
  object ← get_event event;
  let dependencies := ev_dependency_queues object in
  let found := find_index (fun entry => bool_decide (entry.1 = queue)) dependencies in
  match found ≫= (fun index => (fun entry => (index, entry)) <$> dependencies !! index) with
  | None => failed_assert
  | Some (index, (_, count)) =>
      if (ev_dependency_count object =? 0) || (count =? 0) then failed_assert
      else
        update_event event (fun object =>
          set_ev_dependency_queues
            (if u64_sub count 1 =? 0 then swap_remove index dependencies
             else <[index := (queue, u64_sub count 1)]> dependencies)
            (set_ev_dependency_count (u64_sub (ev_dependency_count object) 1) object))
  end.

Fixpoint release_dependencies (events : list event_ptr) (queue : queue_ptr) : M unit :=
  match events with
  | [] => mret tt
  | event :: events =>
      release_direct_kfd_event_dependency_locked event queue ;;
      release_dependencies events queue
  end.

(** ** Barriers *)

Fixpoint reap_barriers_loop (fuel : nat) (queue : queue_ptr) (index : nat) : M unit :=
  object ← get_queue queue;
  match lq_pending_barriers object !! index with
  | None => mret tt
  | Some barrier =>
      match fuel with
      | O => out_of_fuel
      | S fuel =>
          dispatch ← get_dispatch (bar_retirement_dispatch barrier);
          signal ← active_completion_signal dispatch;
          value ← load_acquire signal;
          if negb (value =? 0) then reap_barriers_loop fuel queue (S index)
          else
            release_dependencies (bar_dependencies barrier) queue ;;
            update_queue queue (fun object =>
              set_lq_pending_barriers (swap_remove index (lq_pending_barriers object)) object) ;;
            reap_barriers_loop fuel queue index
      end
  end.

Definition reap_completed_direct_kfd_barriers_locked (queue : queue_ptr) : M unit :=
  object ← get_queue queue;
  reap_barriers_loop (length (lq_pending_barriers object)) queue 0.

(** ** Dispatches *)

(** [*pending_dispatches[index]]; the position must hold a dispatch. *)
Definition pending_dispatch (object : lr_queue_t) (index : nat) : M dispatch_ptr :=
  match lq_pending_dispatches object !! index with
  | Some (Some dispatch) => mret dispatch
  | _ => failed_assert
  end.

(** The [while] that counts the completed dispatches at the head and detaches
    them from their events. *)
Fixpoint count_completed (fuel : nat) (queue : queue_ptr) (completed_count : nat) : M nat :=
  object ← get_queue queue;
  let position := (lq_pending_dispatch_head object + completed_count)%nat in
  if bool_decide (position < length (lq_pending_dispatches object))%nat then
    match fuel with
    | O => out_of_fuel
    | S fuel =>
        dispatch ← pending_dispatch object position;
        dispatch_object ← get_dispatch dispatch;
        signal ← active_completion_signal dispatch_object;
        value ← load_acquire signal;
        if negb (value =? 0) then mret completed_count
        else if existsb (fun barrier => bool_decide (bar_retirement_dispatch barrier = dispatch))
                  (lq_pending_barriers object)
        then mret completed_count
        else
          update_dispatch dispatch (set_pd_completion_event None) ;;
          count_completed fuel queue (S completed_count)
    end
  else mret completed_count.

(** Moving [completed_count] dispatches from the head to the pool. *)
Definition recycle_dispatches (completed_count : nat) (object : lr_queue_t) : lr_queue_t :=
  let head := lq_pending_dispatch_head object in
  let pending := lq_pending_dispatches object in
  let moved := omap (fun d => d) (take completed_count (drop head pending)) in
  let emptied :=
    take head pending ++ replicate completed_count None ++ drop (head + completed_count) pending in
  let head := (head + completed_count)%nat in
  let cleared := bool_decide (head = length emptied) in
  set_lq_available_dispatches (lq_available_dispatches object ++ moved)
    (set_lq_pending_dispatches (if cleared then [] else emptied)
       (set_lq_pending_dispatch_head (if cleared then O else head) object)).

Definition reap_direct_kfd_dispatches_locked (queue : queue_ptr) : M LrStatus.t :=
  reap_completed_direct_kfd_barriers_locked queue ;;
  object ← get_queue queue;
  completed_count ← count_completed (length (lq_pending_dispatches object)) queue 0;
  if bool_decide (completed_count = O) then mret Success
  else
    reserved ← below t_new;
    if negb reserved then mret RuntimeError
    else
      update_queue queue (recycle_dispatches completed_count) ;;
      mret Success.

(** ** Pools *)

(** [release_direct_kfd_dispatch], over the pool: what could not be released
    stays. *)
Fixpoint release_dispatches (dispatches : list dispatch_ptr) : M (bool * list dispatch_ptr) :=
  match dispatches with
  | [] => mret (true, [])
  | dispatch :: dispatches =>
      object ← get_dispatch dispatch;
      '(released, signal) ← below (t_release_signal (pd_completion_signal object));
      if (released : bool) then
        modify (fun s => set_rt_dispatches (delete dispatch (rt_dispatches s)) s) ;;
        release_dispatches dispatches
      else
        update_dispatch dispatch (set_pd_completion_signal signal) ;;
        '(_, kept) ← release_dispatches dispatches;
        mret (false, dispatch :: kept)
  end.

Definition release_direct_kfd_dispatch_pool_locked (queue : queue_ptr) : M LrStatus.t :=
  object ← get_queue queue;
  '(all, kept) ← release_dispatches (lq_available_dispatches object);
  update_queue queue (set_lq_available_dispatches kept) ;;
  mret (if (all : bool) then Success else RuntimeError).

Fixpoint release_arenas (arenas : list arena_ptr) : M (bool * list arena_ptr) :=
  match arenas with
  | [] => mret (true, [])
  | arena :: arenas =>
      object ← get_arena arena;
      released ← below (t_release_memory (ar_allocation object));
      if (released : bool) then
        modify (fun s => set_rt_arenas (delete arena (rt_arenas s)) s) ;;
        release_arenas arenas
      else
        '(_, kept) ← release_arenas arenas;
        mret (false, arena :: kept)
  end.

Definition release_direct_kfd_kernarg_arenas_locked (queue : queue_ptr) : M LrStatus.t :=
  object ← get_queue queue;
  '(all, kept) ← release_arenas (lq_kernarg_arenas object);
  update_queue queue (set_lq_kernarg_arenas kept) ;;
  mret (if (all : bool) then Success else RuntimeError).

(** ** Recorded events *)

(** [remove_direct_kfd_pending_event] *)
Definition remove_direct_kfd_pending_event (event : event_ptr) (events : list event_ptr)
  : list event_ptr :=
  match find_index (fun e => bool_decide (e = event)) events with
  | Some index => swap_remove index events
  | None => events
  end.

(** The staging buffer of a pageable copy: copied out, released, forgotten. *)
Definition finish_pageable_copy (event : event_ptr) (object : lr_event_t) : M LrStatus.t :=
  match ev_pageable_copy_staging object with
  | None => mret Success
  | Some staging =>
      (if ev_pageable_copy_destination object =? 0 then mret tt
       else below_ (t_copy_staging (ev_pageable_copy_destination object) staging
                      (ev_pageable_copy_size object))) ;;
      released ← below (t_release_host_memory staging);
      update_event event (fun object =>
        set_ev_pageable_copy_staging None
          (set_ev_pageable_copy_destination 0 (set_ev_pageable_copy_size 0 object))) ;;
      mret (if (released : bool) then Success else RuntimeError)
  end.

Definition finish_direct_kfd_event_wait_locked (event : event_ptr) : M LrStatus.t :=
  object ← get_event event;
  if negb (ev_pending object) then mret (if ev_completed object then Success else InvalidArgument)
  else
    value ← load_acquire (ev_signal object);
    session ← gets g_kfd_session;
    device_count ← gets (fun s => Z.of_nat (length (g_devices s)));
    if negb (value =? 0) || negb session || (ev_device object >=? device_count) then
      mret RuntimeError
    else
      device ← get_device (ev_device object);
      clock ← below (t_query_clock_counters (ds_node device));
      start_tick ← start_timestamp_acquire (ev_signal object);
      end_tick ← end_timestamp_acquire (ev_signal object);
      match ev_recorded_queue object with
      | Some queue =>
          update_queue queue (fun q =>
            set_lq_pending_events (remove_direct_kfd_pending_event event (lq_pending_events q)) q)
      | None => mret tt
      end ;;
      update_device (ev_device object) (fun d =>
        set_ds_pending_events (remove_direct_kfd_pending_event event (ds_pending_events d)) d) ;;
      update_event event (fun e => set_ev_recorded_queue None (set_ev_pending false e)) ;;
      result ← finish_pageable_copy event object;
      update_event event (set_ev_completed (succeeded result)) ;;
      update_event event
        match clock with
        | Some counters =>
            if negb (start_tick =? 0) && (end_tick >=? start_tick) then fun e =>
              set_ev_start_tick start_tick
                (set_ev_completion_tick end_tick (set_ev_completion_clock counters e))
            else fun e =>
              set_ev_start_tick 0 (set_ev_completion_tick 0 (set_ev_completion_clock no_clock e))
        | None => fun e =>
            set_ev_start_tick 0 (set_ev_completion_tick 0 (set_ev_completion_clock no_clock e))
        end ;;
      mret result.

Fixpoint reap_events_loop (fuel : nat) (queue : queue_ptr) : M LrStatus.t :=
  object ← get_queue queue;
  match lq_pending_events object with
  | [] => mret Success
  | event :: _ =>
      match fuel with
      | O => out_of_fuel
      | S fuel =>
          event_object ← get_event event;
          value ← load_acquire (ev_signal event_object);
          if negb (value =? 0) then mret Success
          else
            status ← finish_direct_kfd_event_wait_locked event;
            if negb (succeeded status) then mret status else reap_events_loop fuel queue
      end
  end.

Definition reap_completed_direct_kfd_events_locked (queue : queue_ptr) : M LrStatus.t :=
  object ← get_queue queue;
  reap_events_loop (length (lq_pending_events object)) queue.

(** ** Waiting *)

Fixpoint wait_for_signal_loop (fuel : nat) (queue : AqlQueue) (signal : UserSignal)
  : M LrStatus.t :=
  value ← load_acquire signal;
  if value =? 0 then
    reason ← queue_error_reason queue;
    mret (if reason =? 0 then Success else DeviceFault)
  else
    reason ← queue_error_reason queue;
    if negb (reason =? 0) then mret DeviceFault
    else
      match fuel with
      | O => out_of_fuel
      | S fuel => wait_for_signal_loop fuel queue signal
      end.

Definition wait_for_direct_kfd_signal_locked (queue : queue_ptr) (signal : UserSignal)
  : M LrStatus.t :=
  object ← get_queue queue;
  wait_for_signal_loop t_patience (lq_queue object) signal.

(** The signal a queue waits for next: that of its oldest dispatch, or of the
    event in front. *)
Definition oldest_signal (object : lr_queue_t) : M UserSignal :=
  if negb (bool_decide (lq_pending_dispatch_head object = length (lq_pending_dispatches object))) then
    dispatch ← pending_dispatch object (lq_pending_dispatch_head object);
    dispatch_object ← get_dispatch dispatch;
    active_completion_signal dispatch_object
  else
    match lq_pending_events object with
    | event :: _ => event_object ← get_event event; mret (ev_signal event_object)
    | [] => failed_assert
    end.

Definition drained (object : lr_queue_t) : bool :=
  bool_decide (lq_pending_dispatch_head object = length (lq_pending_dispatches object)) &&
  bool_decide (lq_pending_barriers object = []) && bool_decide (lq_pending_events object = []).

Fixpoint synchronize_loop (fuel : nat) (queue : queue_ptr) : M LrStatus.t :=
  object ← get_queue queue;
  if drained object then mret Success
  else
    match fuel with
    | O => out_of_fuel
    | S fuel =>
        signal ← oldest_signal object;
        wait_status ← wait_for_direct_kfd_signal_locked queue signal;
        if negb (succeeded wait_status) then mret wait_status
        else
          status ← reap_direct_kfd_dispatches_locked queue;
          if negb (succeeded status) then mret status
          else
            status ← reap_completed_direct_kfd_events_locked queue;
            if negb (succeeded status) then mret status else synchronize_loop fuel queue
    end.

(** Each round retires the dispatch or the event it waited for. *)
Definition synchronize_direct_kfd_queue_locked (queue : queue_ptr) : M LrStatus.t :=
  object ← get_queue queue;
  synchronize_loop
    (length (lq_pending_dispatches object) + length (lq_pending_events object)) queue.

Fixpoint synchronize_queues (queues : list queue_ptr) : M LrStatus.t :=
  match queues with
  | [] => mret Success
  | queue :: queues =>
      status ← synchronize_direct_kfd_queue_locked queue;
      if negb (succeeded status) then mret status else synchronize_queues queues
  end.

Definition synchronize_direct_kfd_device_locked (index : Z) : M LrStatus.t :=
  device ← get_device index;
  synchronize_queues (ds_queues device).
End queue.
