(* ===== verification/DirectLaunch.v ===== *)
(** * Launching on direct KFD queues

    Room in the ring ([src/queue.cpp]), scratch, kernarg arenas, and the
    submission of a kernel with its dependency barriers ([src/launch.cpp]).
    [devices_lock] says whether the caller passed its lock, which a wait for
    room gives up: other threads run before and after everything the thread
    does without it. *)

From stdpp Require Import gmap.
From S2P Require Import Prelude Memory CodeObject ExecutableImage Launch HiddenKernargs Topology AqlPacket AqlQueue AqlProducer KfdProducer Signal KfdKernel KfdMemory MemoryState RuntimeState DirectQueue.

Import LrStatus.

Definition kGfx1101WorkgroupMaximumDimension : Z := 1024.
Definition kGfx1101WorkgroupMaximumSize : Z := 1024.
Definition kGfx1101GroupSegmentMaximumSize : Z := 64 * 1024.
Definition kAmdKernelDescriptorAlignment : Z := 64.
Definition kAmdSignalAlignment : Z := 64.
Definition kDirectKfdKernargArenaSize : Z := 8 * 1024 * 1024.

Section launch.
Context {W : Type} `{!Transport W, !Threads W}.

Abbreviation M := (kfd (runtime W)).

(** [lock.unlock(); ...; lock.lock();] *)
Definition unlocked {A} (m : M A) : M A :=
  modify other_threads ;;
  a ← m;
  modify other_threads ;;
  mret a.

(** ** Room in the ring *)

(** [inl] is the status to return, [inr] that there is no room yet. *)
Definition ring_room (queue : queue_ptr) (required_packets : Z) : M (LrStatus.t + unit) :=
  object ← get_queue queue;
  read_index ← queue_read_index (lq_queue object);
  write_index ← queue_write_index (lq_queue object);
  if write_index <? read_index then mret (inl RuntimeError)
  else if u64_sub write_index read_index <=?
          u64_sub (packet_count (lq_queue object)) required_packets
  then mret (inl Success)
  else mret (inr tt).

(** The wait for the oldest work, with the lock given up around it. *)
Definition capacity_wait (queue : queue_ptr) (devices_lock : bool) : M LrStatus.t :=
  if devices_lock then
    update_queue queue (fun object =>
      set_lq_active_synchronizers (u64_add (lq_active_synchronizers object) 1)
        (set_lq_capacity_waiting true object)) ;;
    wait_status ← unlocked
      (object ← get_queue queue;
       signal ← oldest_signal object;
       wait_for_direct_kfd_signal_locked queue signal);
    update_queue queue (fun object =>
      set_lq_capacity_waiting false
        (set_lq_active_synchronizers (u64_sub (lq_active_synchronizers object) 1) object)) ;;
    object ← get_queue queue;
    mret (if lq_destroying object then InvalidArgument else wait_status)
  else
    object ← get_queue queue;
    signal ← oldest_signal object;
    wait_for_direct_kfd_signal_locked queue signal.

(** One round of the [while (true)]; [again] is the next one. *)
Definition capacity_round (queue : queue_ptr) (required_packets : Z) (devices_lock : bool)
    (again : M LrStatus.t) : M LrStatus.t :=
  object ← get_queue queue;
  reap_status ←
    (if bool_decide (lq_available_dispatches object = []) &&
        negb (bool_decide (lq_pending_dispatch_head object = length (lq_pending_dispatches object)))
     then reap_direct_kfd_dispatches_locked queue else mret Success);
  if negb (succeeded reap_status) then mret reap_status
  else
    room ← ring_room queue required_packets;
    match room with
    | inl status => mret status
    | inr _ =>
        reap_status ← reap_direct_kfd_dispatches_locked queue;
        if negb (succeeded reap_status) then mret reap_status
        else
          event_status ← reap_completed_direct_kfd_events_locked queue;
          if negb (succeeded event_status) then mret event_status
          else
            room ← ring_room queue required_packets;
            match room with
            | inl status => mret status
            | inr _ =>
                object ← get_queue queue;
                if bool_decide (lq_pending_dispatch_head object =
                                length (lq_pending_dispatches object)) &&
                   bool_decide (lq_pending_events object = [])
                then mret RuntimeError
                else
                  wait_status ← capacity_wait queue devices_lock;
                  if negb (succeeded wait_status) then mret wait_status else again
            end
    end.

Fixpoint capacity_loop (fuel : nat) (queue : queue_ptr) (required_packets : Z)
    (devices_lock : bool) : M LrStatus.t :=
  capacity_round queue required_packets devices_lock
    match fuel with
    | O => out_of_fuel
    | S fuel => capacity_loop fuel queue required_packets devices_lock
    end.

Definition ensure_direct_kfd_queue_capacity_locked (queue : queue_ptr) (required_packets : Z)
    (devices_lock : bool) : M LrStatus.t :=
  object ← get_queue queue;
  if negb (queue_ready (lq_queue object)) || (required_packets =? 0) ||
     (required_packets >? packet_count (lq_queue object)) then mret InvalidArgument
  else
    reason ← queue_error_reason (lq_queue object);
    if negb (reason =? 0) then mret DeviceFault
    else
      capacity_loop (length (lq_pending_dispatches object) + length (lq_pending_events object) +
                     t_patience) queue required_packets devices_lock.

(** ** Scratch *)

Definition ensure_direct_kfd_queue_scratch_locked (device : Z) (queue : queue_ptr)
    (private_size : Z) : M LrStatus.t :=
  session ← gets g_kfd_session;
  object ← get_queue queue;
  old_private_size ← gets (fun s => t_scratch_private_segment_size (lq_queue object) (rt_world s));
  if negb session || negb (queue_ready (lq_queue object)) then mret RuntimeError
  else if private_size <=? old_private_size then mret Success
  else
    sync_status ← synchronize_direct_kfd_queue_locked queue;
    if negb (succeeded sync_status) then mret sync_status
    else
      object ← get_queue queue;
      old_private_size ←
        gets (fun s => t_scratch_private_segment_size (lq_queue object) (rt_world s));
      '(released, handle) ← below (t_release_queue (lq_queue object));
      update_queue queue (set_lq_queue handle) ;;
      if negb released then mret RuntimeError
      else
        state ← get_device device;
        '(created, scratch_error, handle) ← below (t_create_aql_queue (ds_node state) private_size);
        update_queue queue (set_lq_queue handle) ;;
        if (created : bool) then mret Success
        else
          '(_, _) ← below (t_release_queue handle);
          '(_, _, handle) ← below (t_create_aql_queue (ds_node state) old_private_size);
          update_queue queue (set_lq_queue handle) ;;
          mret (if (scratch_error : bool) then NotSupported else RuntimeError).

(** ** Kernarg arenas *)

Definition slice_host_address (slice : KernargSlice) : M (option Z) :=
  match sl_arena slice with
  | None => mret None
  | Some arena =>
      object ← get_arena arena;
      mret (Some (gm_host_address (ar_allocation object) + sl_offset slice))
  end.

Definition slice_gpu_address (slice : KernargSlice) : M Z :=
  match sl_arena slice with
  | None => mret 0
  | Some arena =>
      object ← get_arena arena;
      mret (u64_add (gm_gpu_address (ar_allocation object)) (sl_offset slice))
  end.

(** The first arena with room. *)
Fixpoint take_from_arenas (arenas : list arena_ptr) (size : Z) : M (option KernargSlice) :=
  match arenas with
  | [] => mret None
  | arena :: arenas =>
      object ← get_arena arena;
      if u64_sub (gm_size (ar_allocation object)) (ar_used object) >=? size then
        update_arena arena (set_ar_used (u64_add (ar_used object) size)) ;;
        mret (Some (mkSlice (Some arena) (ar_used object) size))
      else take_from_arenas arenas size
  end.

(** [None] is [std::nullopt]. *)
Definition allocate_direct_kfd_kernarg_locked (device : Z) (queue : queue_ptr) (size : Z)
  : M (option KernargSlice) :=
  if size =? 0 then mret (Some no_slice)
  else
    object ← get_queue queue;
    found ← take_from_arenas (lq_kernarg_arenas object) size;
    match found with
    | Some slice => mret (Some slice)
    | None =>
        let arena_size := Z.max kDirectKfdKernargArenaSize size in
        state ← get_device device;
        '(allocated, allocation) ← below (t_allocate_gtt (ds_node state) arena_size);
        if negb allocated then
          _ ← below (t_release_memory allocation);
          mret None
        else
          constructed ← below t_new;
          if negb constructed then
            _ ← below (t_release_memory allocation);
            mret None
          else
            arena ← gets (fun s => fresh (dom (rt_arenas s)));
            modify (fun s => set_rt_arenas (<[arena := mkArena allocation size]> (rt_arenas s)) s) ;;
            update_queue queue (fun object =>
              set_lq_kernarg_arenas (lq_kernarg_arenas object ++ [arena]) object) ;;
            mret (Some (mkSlice (Some arena) 0 size))
    end.

Definition rollback_direct_kfd_kernarg_locked (slice : KernargSlice) : M unit :=
  match sl_arena slice with
  | None => mret tt
  | Some arena =>
      object ← get_arena arena;
      if u64_add (sl_offset slice) (sl_size slice) =? ar_used object then
        update_arena arena (set_ar_used (sl_offset slice))
      else mret tt
  end.

(** ** Packets *)

Definition valid_direct_kfd_dispatch_packet (scratch_private_segment_size : Z)
    (context : kfd_context) (packet : AqlKernelDispatchPacket) : bool :=
  let workgroup_size :=
    dp_workgroup_size_x packet * dp_workgroup_size_y packet * dp_workgroup_size_z packet in
  (dp_workgroup_size_x packet <=? kGfx1101WorkgroupMaximumDimension) &&
  (dp_workgroup_size_y packet <=? kGfx1101WorkgroupMaximumDimension) &&
  (dp_workgroup_size_z packet <=? kGfx1101WorkgroupMaximumDimension) &&
  (workgroup_size <=? kGfx1101WorkgroupMaximumSize) &&
  (dp_group_segment_size packet <=? kGfx1101GroupSegmentMaximumSize) &&
  (dp_private_segment_size packet <=? scratch_private_segment_size) &&
  (dp_kernel_object packet mod kAmdKernelDescriptorAlignment =? 0) &&
  ((dp_kernarg_address packet =? 0) ||
   (dp_kernarg_address packet mod kAmdKernargMinimumAlignment =? 0)) &&
  negb (dp_completion_signal packet =? 0) &&
  (dp_completion_signal packet mod kAmdSignalAlignment =? 0).

Definition aql_dispatch_parameters (config : lr_launch_config_t)
    (private_segment_size group_segment_size kernel_object kernarg_address completion_signal : Z)
  : AqlKernelDispatchParameters :=
  mkDispatchParameters (dim_x (cfg_grid config)) (dim_y (cfg_grid config)) (dim_z (cfg_grid config))
    (to_u16 (dim_x (cfg_block config))) (to_u16 (dim_y (cfg_block config)))
    (to_u16 (dim_z (cfg_block config))) private_segment_size group_segment_size kernel_object
    kernarg_address completion_signal.

Definition aql_submit_status (error : AqlSubmitError) : LrStatus.t :=
  match error with
  | SubmitNone => Success
  | SubmitInvalidPacket | SubmitInvalidQueue => InvalidArgument
  | SubmitQueueFull | SubmitReserveFailed => RuntimeError
  end.

(** ** Dependency barriers *)

Definition valid_event_locked (event : event_ptr) : M bool :=
  gets (fun s => bool_decide (event ∈ g_events s)).

(** The events of each barrier packet: five at a time. *)
Fixpoint barrier_groups (fuel : nat) (events : list event_ptr) : list (list event_ptr) :=
  match fuel, events with
  | O, _ | _, [] => []
  | S fuel, _ => take 5 events :: barrier_groups fuel (drop 5 events)
  end.

Definition dependency_groups (events : list event_ptr) : list (list event_ptr) :=
  barrier_groups (length events) events.

(** [AqlBarrierAndParameters] of one group: unused signals are zero. *)
Definition barrier_parameters (events : list event_ptr) : M AqlBarrierAndParameters :=
  handles ← mapM (fun event => object ← get_event event; mret (gpu_handle (ev_signal object))) events;
  let handle i := default 0 (handles !! i) in
  mret (mkBarrierParameters (handle 0%nat, handle 1%nat, handle 2%nat, handle 3%nat, handle 4%nat) 0).

Fixpoint register_dependencies (events : list event_ptr) (queue : queue_ptr) : M unit :=
  match events with
  | [] => mret tt
  | event :: events =>
      retain_direct_kfd_event_dependency_locked event queue ;;
      register_dependencies events queue
  end.

(** [pending_barriers.push_back] for each group, its events registered first. *)
Fixpoint push_barriers (groups : list (list event_ptr)) (queue : queue_ptr)
    (retirement_dispatch : dispatch_ptr) : M unit :=
  match groups with
  | [] => mret tt
  | dependencies :: groups =>
      register_dependencies dependencies queue ;;
      update_queue queue (fun object =>
        set_lq_pending_barriers
          (lq_pending_barriers object ++ [mkBarrier retirement_dispatch dependencies]) object) ;;
      push_barriers groups queue retirement_dispatch
  end.

(** The [barrier_count] barriers at the back are taken down again. *)
Fixpoint pop_barriers (barrier_count : nat) (queue : queue_ptr) : M unit :=
  match barrier_count with
  | O => mret tt
  | S barrier_count =>
      object ← get_queue queue;
      match last (lq_pending_barriers object) with
      | None => failed_assert
      | Some barrier =>
          release_dependencies (bar_dependencies barrier) queue ;;
          update_queue queue (fun object =>
            set_lq_pending_barriers (removelast (lq_pending_barriers object)) object) ;;
          pop_barriers barrier_count queue
      end
  end.

(** ** Resources of a dispatch *)

(** The last dispatch of the pool whose kernarg memory is large enough. *)
Definition find_reusable (queue : queue_ptr) (allocation_size : Z) : M (option nat) :=
  object ← get_queue queue;
  dispatches ← mapM get_dispatch (lq_available_dispatches object);
  let reusable dispatch :=
    (allocation_size =? 0) ||
    (bool_decide (is_Some (sl_arena (pd_kernarg dispatch))) &&
     (sl_size (pd_kernarg dispatch) >=? allocation_size)) in
  mret ((fun position => (length dispatches - 1 - position)%nat) <$>
          find_index reusable (reverse dispatches)).

(** A new dispatch; [None] is a failure, after which nothing is kept. *)
Definition create_dispatch (device : Z) (queue : queue_ptr) (allocation_size : Z)
  : M (option dispatch_ptr) :=
  kernarg ← allocate_direct_kfd_kernarg_locked device queue allocation_size;
  match kernarg with
  | None => mret None
  | Some kernarg =>
      state ← get_device device;
      '(created, signal) ← below (t_create_user_signal (ds_node state));
      constructed ← (if (created : bool) then below t_new else mret false);
      if negb constructed then
        rollback_direct_kfd_kernarg_locked kernarg ;;
        _ ← below (t_release_signal signal);
        mret None
      else
        dispatch ← gets (fun s => fresh (dom (rt_dispatches s)));
        modify (fun s => set_rt_dispatches
          (<[dispatch := mkDispatch signal kernarg None]> (rt_dispatches s)) s) ;;
        mret (Some dispatch)
  end.

(** A dispatch from the pool, reset, or a new one; [inl] is the status of a
    failure. *)
Definition acquire_dispatch (device : Z) (queue : queue_ptr) (allocation_size : Z)
  : M (LrStatus.t + dispatch_ptr) :=
  reusable ← find_reusable queue allocation_size;
  reap_status ←
    match reusable with
    | None => reap_direct_kfd_dispatches_locked queue
    | Some _ => mret Success
    end;
  if negb (succeeded reap_status) then mret (inl reap_status)
  else
    reusable ←
      match reusable with
      | None => find_reusable queue allocation_size
      | Some _ => mret reusable
      end;
    match reusable with
    | Some index =>
        object ← get_queue queue;
        match lq_available_dispatches object !! index with
        | None => failed_assert
        | Some dispatch =>
            update_queue queue (fun object =>
              set_lq_available_dispatches (swap_remove index (lq_available_dispatches object)) object) ;;
            dispatch_object ← get_dispatch dispatch;
            signal_reset (pd_completion_signal dispatch_object) 1 ;;
            mret (inr dispatch)
        end
    | None =>
        created ← create_dispatch device queue allocation_size;
        mret (match created with Some dispatch => inr dispatch | None => inl RuntimeError end)
    end.

(** The dispatch goes back to the pool. *)
Definition return_dispatch (queue : queue_ptr) (dispatch : dispatch_ptr) : M unit :=
  update_queue queue (fun object =>
    set_lq_available_dispatches (lq_available_dispatches object ++ [dispatch]) object).

(** ** Kernel arguments *)

(** A computation on bytes inside the runtime. *)
Definition lift {A} (r : result Empty_set A) : M A := fun s =>
  match r with
  | Ok a => Ok (a, s)
  | Err e => match e with end
  | Fault f => Fault f
  end.

Definition store_bytes (address : option Z) (contents : option bytes) : M unit :=
  match address, contents with
  | Some address, Some contents => below_ (t_set_bytes address contents)
  | _, _ => mret tt
  end.

(** The kernarg bytes of a launch: the GPU address, or [None] when they cannot
    be laid out. *)
Definition write_kernargs (kernel_info : KernelInfo) (config : lr_launch_config_t)
    (requirements : KernargBufferRequirementsResult) (args : option bytes) (args_size : Z)
    (dispatch : dispatch_ptr) : M (option Z) :=
  if kq_storage_size requirements =? 0 then mret (Some 0)
  else
    object ← get_dispatch dispatch;
    let slice := pd_kernarg object in
    host_address ← slice_host_address slice;
    gpu_address ← slice_gpu_address slice;
    destination ← gets (fun s =>
      (fun address => t_bytes address (sl_size slice) (rt_world s)) <$> host_address);
    '(materialized, memory) ← lift (materialize_kernarg_requirements requirements args args_size
      destination (sl_size slice) gpu_address);
    store_bytes host_address memory ;;
    if negb (kernarg_status_ok (km_status materialized)) then mret None
    else
      '(populated, memory) ← lift (populate_light_rocr_hidden_kernargs kernel_info config memory
        (ki_kernarg_size kernel_info));
      store_bytes host_address memory ;;
      mret (if (populated : bool) then Some (kb_gpu_address (km_buffer materialized)) else None).

(** ** Completion events *)

(** What is put back when the submission fails. *)
Record event_backup := mkBackup {
  bk_completed : bool;
  bk_start_tick : Z;
  bk_completion_tick : Z;
  bk_record_clock : ClockCounters;
  bk_completion_clock : ClockCounters
}.

Definition back_up (event : lr_event_t) : event_backup :=
  mkBackup (ev_completed event) (ev_start_tick event) (ev_completion_tick event)
    (ev_record_clock event) (ev_completion_clock event).

(** The event is recorded on the queue: pending, its signal at one. *)
Definition record_event (device : Z) (queue : queue_ptr) (event : event_ptr)
    (record_clock : ClockCounters) : M unit :=
  object ← get_queue queue;
  queue_set_profiling_enabled (lq_queue object) true ;;
  event_object ← get_event event;
  signal_reset (ev_signal event_object) 1 ;;
  update_event event (fun e =>
    set_ev_pending true (set_ev_completed false (set_ev_start_tick 0 (set_ev_completion_tick 0
      (set_ev_record_clock record_clock (set_ev_completion_clock no_clock
        (set_ev_recorded_queue (Some queue) e))))))) ;;
  update_queue queue (fun object =>
    set_lq_pending_events (lq_pending_events object ++ [event]) object) ;;
  update_device device (fun state =>
    set_ds_pending_events (ds_pending_events state ++ [event]) state).

Definition unrecord_event (device : Z) (queue : queue_ptr) (event : event_ptr)
    (backup : event_backup) : M unit :=
  update_device device (fun state =>
    set_ds_pending_events (removelast (ds_pending_events state)) state) ;;
  update_queue queue (fun object =>
    set_lq_pending_events (removelast (lq_pending_events object)) object) ;;
  update_event event (fun e =>
    set_ev_recorded_queue None (set_ev_pending false (set_ev_completed (bk_completed backup)
      (set_ev_start_tick (bk_start_tick backup) (set_ev_completion_tick (bk_completion_tick backup)
        (set_ev_record_clock (bk_record_clock backup)
          (set_ev_completion_clock (bk_completion_clock backup) e))))))) ;;
  object ← get_event event;
  store_relaxed (ev_signal object) 0.

(** ** The submission *)

(** The completion event, if there is one, may be recorded now. *)
Definition completion_event_usable (queue : queue_ptr) (completion_event : option event_ptr) : M bool :=
  match completion_event with
  | None => mret true
  | Some event =>
      known ← valid_event_locked event;
      if negb known then mret false
      else
        object ← get_event event;
        queue_object ← get_queue queue;
        mret (negb (ev_destroying object) && negb (ev_pending object) &&
              (ev_device object =? lq_device queue_object))
  end.

(** The kernarg memory to allocate: the storage size in whole pages; [inl] is
    the status of a failure. *)
Definition kernarg_allocation_size (requirements : KernargBufferRequirementsResult)
  : LrStatus.t + Z :=
  if negb (kernarg_status_ok (kq_status requirements)) then
    inl (if bool_decide (ks_error (kq_status requirements) = KernargBufferError.UnsupportedAlignment)
         then NotSupported else InvalidArgument)
  else if kq_storage_size requirements =? 0 then inr 0
  else if kq_storage_size requirements >? UINT64_MAX - (kMemoryPageSize - 1) then inl InvalidArgument
  else inr (Z.land (kq_storage_size requirements + kMemoryPageSize - 1)
              (UINT64_MAX - (kMemoryPageSize - 1))).

(** Dropping the moved-from positions when the vector is at its capacity, and
    the reservations. *)
Definition make_room_for_dispatch (queue : queue_ptr) : M bool :=
  object ← get_queue queue;
  full ← below t_at_capacity;
  (if negb (bool_decide (lq_pending_dispatch_head object = O)) && full then
     update_queue queue (fun object =>
       set_lq_pending_dispatches
         (drop (lq_pending_dispatch_head object) (lq_pending_dispatches object))
         (set_lq_pending_dispatch_head O object))
   else mret tt) ;;
  below t_new.

(** The end of the function: the dispatch is enqueued with its barriers and
    its packets are published, or everything is taken back. *)
Definition publish_dispatch (device : Z) (queue : queue_ptr) (dispatch : dispatch_ptr)
    (groups : list (list event_ptr)) (barriers : list AqlBarrierAndParameters)
    (dispatch_parameters : Z -> AqlKernelDispatchParameters)
    (recorded : option (event_ptr * event_backup)) : M LrStatus.t :=
  object ← get_queue queue;
  let preceding_dispatch_count :=
    (length (lq_pending_dispatches object) - lq_pending_dispatch_head object)%nat in
  update_queue queue (fun object =>
    set_lq_pending_dispatches (lq_pending_dispatches object ++ [Some dispatch]) object) ;;
  push_barriers groups queue dispatch ;;
  object ← get_queue queue;
  dispatch_object ← get_dispatch dispatch;
  signal ← active_completion_signal dispatch_object;
  scratch ← gets (fun s => t_scratch_private_segment_size (lq_queue object) (rt_world s));
  let parameters := dispatch_parameters (gpu_handle signal) in
  let producer := light_rocr_kfd_producer_ops (lq_queue object)
    (Some (valid_direct_kfd_dispatch_packet scratch)) in
  let barrier_count := length groups in
  let ordering := mkDispatchOrdering (Z.of_nat preceding_dispatch_count)
    (negb (bool_decide (barrier_count = O))) in
  submitted ← on_queue_memory (lq_queue object) (fun context ring =>
    if bool_decide (barrier_count = O)
    then submit_aql_kernel_dispatch producer parameters ordering true context ring
    else submit_aql_barriers_and_kernel_dispatch producer (Some barriers)
           (Z.of_nat barrier_count) parameters ordering context ring);
  match sr_error submitted with
  | SubmitNone => mret Success
  | error =>
      match recorded with
      | Some (event, backup) =>
          update_dispatch dispatch (set_pd_completion_event None) ;;
          unrecord_event device queue event backup
      | None => mret tt
      end ;;
      pop_barriers barrier_count queue ;;
      update_queue queue (fun object =>
        set_lq_pending_dispatches (removelast (lq_pending_dispatches object)) object) ;;
      return_dispatch queue dispatch ;;
      mret (aql_submit_status error)
  end.

(** The dispatch is attached to its completion event; [inl] is the status of a
    failure, after which the dispatch is back in the pool. *)
Definition attach_event (device : Z) (queue : queue_ptr) (dispatch : dispatch_ptr)
    (completion_event : option event_ptr) : M (LrStatus.t + option (event_ptr * event_backup)) :=
  match completion_event with
  | None => mret (inr None)
  | Some event =>
      state ← get_device device;
      clock ← below (t_query_clock_counters (ds_node state));
      match clock with
      | None => return_dispatch queue dispatch ;; mret (inl RuntimeError)
      | Some record_clock =>
          reserved ← below t_new;
          if negb reserved then return_dispatch queue dispatch ;; mret (inl RuntimeError)
          else
            object ← get_event event;
            record_event device queue event record_clock ;;
            update_dispatch dispatch (set_pd_completion_event (Some event)) ;;
            mret (inr (Some (event, back_up object)))
      end
  end.

(** [args] is the pointer to the argument bytes, [None] for null. *)
Definition submit_direct_kfd_kernel_impl_locked (device : Z) (queue : queue_ptr)
    (executable_image : ExecutableImageInfo) (image_kernel_index : nat)
    (config : lr_launch_config_t) (args : option bytes) (args_size : Z)
    (completion_event : option event_ptr) (event_dependencies : list event_ptr)
    (devices_lock : bool) : M LrStatus.t :=
  session ← gets g_kfd_session;
  match co_kernels (ii_code_object executable_image) !! image_kernel_index,
        ii_kernels executable_image !! image_kernel_index with
  | Some kernel_info, Some kernel =>
      if bool_decide (args = None) || negb session || negb (ii_valid executable_image) then
        mret InvalidArgument
      else
        usable ← completion_event_usable queue completion_event;
        if negb usable then mret InvalidArgument
        else if (args_size >? ki_explicit_argument_size kernel_info) ||
                ki_uses_dynamic_stack kernel_info ||
                (cfg_shared_memory_bytes config >? UINT32_MAX - ki_group_segment_size kernel_info)
        then mret (if ki_uses_dynamic_stack kernel_info then NotSupported else InvalidArgument)
        else
          scratch_status ← ensure_direct_kfd_queue_scratch_locked device queue
            (ki_private_segment_size kernel_info);
          if negb (succeeded scratch_status) then mret scratch_status
          else
            let barrier_count := ((length event_dependencies + 4) / 5)%nat in
            capacity_status ← ensure_direct_kfd_queue_capacity_locked queue
              (Z.of_nat barrier_count + 1) devices_lock;
            if negb (succeeded capacity_status) then mret capacity_status
            else
              let groups := dependency_groups event_dependencies in
              barriers ← mapM barrier_parameters groups;
              reserved ← below t_new;
              if negb reserved then mret RuntimeError
              else
                let requirements := kernarg_buffer_requirements kernel_info args args_size in
                match kernarg_allocation_size requirements with
                | inl status => mret status
                | inr allocation_size =>
                    reserved ← make_room_for_dispatch queue;
                    if negb reserved then mret RuntimeError
                    else
                      acquired ← acquire_dispatch device queue allocation_size;
                      match acquired with
                      | inl status => mret status
                      | inr dispatch =>
                          kernarg_address ← write_kernargs kernel_info config requirements args
                            args_size dispatch;
                          match kernarg_address with
                          | None => return_dispatch queue dispatch ;; mret InvalidArgument
                          | Some kernarg_address =>
                              attached ← attach_event device queue dispatch completion_event;
                              match attached with
                              | inl status => mret status
                              | inr recorded =>
                                  publish_dispatch device queue dispatch groups barriers
                                    (aql_dispatch_parameters config
                                       (ki_private_segment_size kernel_info)
                                       (ki_group_segment_size kernel_info +
                                        cfg_shared_memory_bytes config)
                                       (rk_descriptor_gpu_address kernel) kernarg_address)
                                    recorded
                              end
                          end
                      end
                end
  | _, _ => mret InvalidArgument
  end.
End launch.
