(* ===== verification/DirectApi.v ===== *)
(** * Queues and events of the API

    The direct KFD branches of the public functions of [src/queue.cpp] and
    [src/event.cpp].  A function holds [g_devices_mutex] except where it
    unlocks it; a wait on a condition variable gives it up until its predicate
    holds. *)

From stdpp Require Import gmap.
From S2P Require Import Prelude Memory CodeObject ExecutableImage HiddenKernargs Topology AqlPacket AqlQueue AqlProducer KfdProducer Signal KfdKernel MemoryState RuntimeState DirectQueue DirectLaunch.

Import LrStatus.

Section api.
Context {W : Type} `{!Transport W, !Threads W}.

Abbreviation M := (kfd (runtime W)).

(** [condition.wait(lock, ready)]; [ready] may follow pointers. *)
Fixpoint wait_loop (fuel : nat) (ready : M bool) : M unit :=
  now ← ready;
  if (now : bool) then mret tt
  else
    match fuel with
    | O => out_of_fuel
    | S fuel => modify other_threads ;; wait_loop fuel ready
    end.

Definition wait_until (ready : M bool) : M unit := wait_loop t_patience ready.

Definition queue_is (P : lr_queue_t -> bool) (queue : queue_ptr) : M bool :=
  object ← get_queue queue; mret (P object).

Definition event_is (P : lr_event_t -> bool) (event : event_ptr) : M bool :=
  object ← get_event event; mret (P object).

(** [std::all_of] *)
Fixpoint all_of {A} (P : A -> M bool) (l : list A) : M bool :=
  match l with
  | [] => mret true
  | x :: l => holds ← P x; if (holds : bool) then all_of P l else mret false
  end.

Definition device_in_range (index : Z) : M bool :=
  gets (fun s => index <? Z.of_nat (length (g_devices s))).

(** ** Creation of a queue *)

Definition new_queue (device : Z) (is_default : bool) (handle : AqlQueue) : lr_queue_t :=
  mkQueue device is_default handle [] 0 [] [] [] [] 0 false false.

(** A queue whose creation failed is kept on the device only when the
    transport could not release it. *)
Definition abandon_queue (device : Z) (object : lr_queue_t) : M unit :=
  '(released, handle) ← below (t_release_queue (lq_queue object));
  if (released : bool) then mret tt
  else
    queue ← gets (fun s => fresh (dom (rt_queues s)));
    modify (fun s => set_rt_queues (<[queue := set_lq_queue handle object]> (rt_queues s)) s) ;;
    update_device device (fun state => set_ds_queues (ds_queues state ++ [queue]) state).

Definition create_direct_kfd_queue (device : Z) (is_default : bool)
  : M (LrStatus.t * option queue_ptr) :=
  session ← gets g_kfd_session;
  if negb session then mret (RuntimeError, None)
  else
    reserved ← below t_new;
    if negb reserved then mret (RuntimeError, None)
    else
      state ← get_device device;
      '(created, _, handle) ← below (t_create_aql_queue (ds_node state) 0);
      let object := new_queue device is_default handle in
      if negb created then abandon_queue device object ;; mret (RuntimeError, None)
      else
        inserted ← below t_new;
        if negb inserted then abandon_queue device object ;; mret (RuntimeError, None)
        else
          queue ← gets (fun s => fresh (dom (rt_queues s)));
          modify (fun s => set_g_queues ({[queue]} ∪ g_queues s)
            (set_rt_queues (<[queue := object]> (rt_queues s)) s)) ;;
          update_device device (fun state => set_ds_queues (ds_queues state ++ [queue]) state) ;;
          mret (Success, Some queue).

Definition lr_queue_create (device : Z) : M (LrStatus.t * option queue_ptr) :=
  initialized ← gets g_initialized;
  if negb initialized then mret (NotInitialized, None)
  else
    known ← device_in_range device;
    if negb known then mret (InvalidArgument, None)
    else
      state ← get_device device;
      if negb (ds_opened state) || bool_decide (ds_default_queue state = None) then
        mret (InvalidArgument, None)
      else create_direct_kfd_queue device false.

(** ** Two-phase synchronization

    A barrier with a signal of its own is submitted under the lock, waited for
    without it, and the completed work is reaped under the lock again. *)

Definition prepare_direct_kfd_queue_synchronization_locked (device : Z) (queue : queue_ptr)
    (devices_lock : bool) : M (LrStatus.t + UserSignal) :=
  capacity_status ← ensure_direct_kfd_queue_capacity_locked queue 1 devices_lock;
  if negb (succeeded capacity_status) then mret (inl capacity_status)
  else
    state ← get_device device;
    '(created, signal) ← below (t_create_user_signal (ds_node state));
    constructed ← (if (created : bool) then below t_new else mret false);
    if negb constructed then
      _ ← below (t_release_signal signal);
      mret (inl RuntimeError)
    else
      object ← get_queue queue;
      submitted ← on_queue_memory (lq_queue object) (submit_aql_barrier_and
        (light_rocr_kfd_producer_ops (lq_queue object) None)
        (mkBarrierParameters (0, 0, 0, 0, 0) (gpu_handle signal)));
      match sr_error submitted with
      | SubmitNone =>
          update_queue queue (fun object =>
            set_lq_active_synchronizers (u64_add (lq_active_synchronizers object) 1) object) ;;
          mret (inr signal)
      | _ =>
          _ ← below (t_release_signal signal);
          mret (inl RuntimeError)
      end.

(** [wait_for_direct_kfd_queue_synchronization], without the lock. *)
Definition wait_for_direct_kfd_queue_synchronization (queue : queue_ptr) (signal : UserSignal)
  : M LrStatus.t :=
  unlocked (wait_for_direct_kfd_signal_locked queue signal).

Definition finish_direct_kfd_queue_synchronization_locked (queue : queue_ptr) (signal : UserSignal)
    (wait_status : LrStatus.t) : M LrStatus.t :=
  result ← (if succeeded wait_status then reap_direct_kfd_dispatches_locked queue
            else mret wait_status);
  result ← (if succeeded result then reap_completed_direct_kfd_events_locked queue
            else mret result);
  '(released, _) ← below (t_release_signal signal);
  update_queue queue (fun object =>
    set_lq_active_synchronizers (u64_sub (lq_active_synchronizers object) 1) object) ;;
  mret (if negb released && succeeded result then RuntimeError else result).

Definition lr_queue_synchronize (queue : option queue_ptr) : M LrStatus.t :=
  initialized ← gets g_initialized;
  if negb initialized then mret NotInitialized
  else
    match queue with
    | None => mret InvalidArgument
    | Some queue =>
        valid ← valid_direct_kfd_queue_locked queue;
        if negb valid then mret InvalidArgument
        else
          object ← get_queue queue;
          known ← device_in_range (lq_device object);
          if negb known then mret InvalidArgument
          else
            prepared ← prepare_direct_kfd_queue_synchronization_locked (lq_device object) queue true;
            match prepared with
            | inl status => mret status
            | inr signal =>
                wait_status ← wait_for_direct_kfd_queue_synchronization queue signal;
                finish_direct_kfd_queue_synchronization_locked queue signal wait_status
            end
    end.

(** ** Destruction of a queue *)

(** [delete queue]: the members go with it. *)
Definition delete_queue (queue : queue_ptr) : M unit :=
  object ← get_queue queue;
  let dispatches :=
    omap (fun d => d) (lq_pending_dispatches object) ++ lq_available_dispatches object in
  '(_, kept) ← release_dispatches dispatches;
  '(_, kept_arenas) ← release_arenas (lq_kernarg_arenas object);
  modify (fun s =>
    set_rt_queues (delete queue (rt_queues s))
      (set_rt_dispatches (foldr delete (rt_dispatches s) kept)
         (set_rt_arenas (foldr delete (rt_arenas s) kept_arenas)
            (set_g_queues (g_queues s ∖ {[queue]}) s)))).

(** [device.queues.erase(iterator)]: the iterator was obtained when the vector
    was [queues]; a change of the vector since then invalidates it. *)
Definition erase_device_queue (device : Z) (queues : list queue_ptr) (position : nat) : M unit :=
  state ← get_device device;
  if bool_decide (ds_queues state = queues) then
    update_device device (fun state => set_ds_queues (erase position (ds_queues state)) state)
  else failed_assert.

(** The queue can be used again after a failed destruction. *)
Definition keep_queue (queue : queue_ptr) (status : LrStatus.t) : M LrStatus.t :=
  update_queue queue (set_lq_destroying false) ;; mret status.

(** Pools, arenas and transport queue, once nobody uses the queue. *)
Definition release_queue_resources (queue : queue_ptr) : M LrStatus.t :=
  pool_status ← release_direct_kfd_dispatch_pool_locked queue;
  if negb (succeeded pool_status) then mret pool_status
  else
    arena_status ← release_direct_kfd_kernarg_arenas_locked queue;
    if negb (succeeded arena_status) then mret arena_status
    else
      object ← get_queue queue;
      '(released, handle) ← below (t_release_queue (lq_queue object));
      update_queue queue (set_lq_queue handle) ;;
      mret (if (released : bool) then Success else RuntimeError).

Definition lr_queue_destroy (queue : option queue_ptr) : M LrStatus.t :=
  initialized ← gets g_initialized;
  if negb initialized then mret NotInitialized
  else
    match queue with
    | None => mret InvalidArgument
    | Some queue =>
        registered ← gets (fun s => bool_decide (queue ∈ g_queues s));
        if negb registered then mret InvalidArgument
        else
          object ← get_queue queue;
          known ← device_in_range (lq_device object);
          if lq_is_default object || negb known || lq_destroying object then mret InvalidArgument
          else
            state ← get_device (lq_device object);
            match find_index (fun q => bool_decide (q = queue)) (ds_queues state) with
            | None => mret RuntimeError
            | Some position =>
              update_queue queue (set_lq_destroying true) ;;
              wait_until (queue_is (fun object => lq_active_synchronizers object =? 0) queue) ;;
              prepared ← prepare_direct_kfd_queue_synchronization_locked (lq_device object) queue true;
              match prepared with
              | inl status => keep_queue queue status
              | inr signal =>
                  wait_status ← wait_for_direct_kfd_queue_synchronization queue signal;
                  finish_status ←
                    finish_direct_kfd_queue_synchronization_locked queue signal wait_status;
                  if negb (succeeded finish_status) then keep_queue queue finish_status
                  else
                    wait_until (queue_is (fun object => lq_active_synchronizers object =? 0) queue) ;;
                    status ← release_queue_resources queue;
                    if negb (succeeded status) then keep_queue queue status
                    else
                      erase_device_queue (lq_device object) (ds_queues state) position ;;
                      delete_queue queue ;;
                      mret Success
              end
            end
    end.

(** ** Whole devices *)

Definition wait_for_all_direct_kfd_queue_operations_locked : M unit :=
  wait_until (
    queues ← gets (fun s => elements (g_queues s));
    all_of (queue_is (fun object =>
      (lq_active_synchronizers object =? 0) && negb (lq_capacity_waiting object) &&
      negb (lq_destroying object))) queues).

(** The first loop of [synchronize_direct_kfd_device]: a range-[for] over the
    vector, which must not change while it runs. *)
Fixpoint prepare_device_queues (device : Z) (all queues : list queue_ptr)
  : M (LrStatus.t * list (queue_ptr * UserSignal)) :=
  match queues with
  | [] => mret (Success, [])
  | queue :: queues =>
      prepared ← prepare_direct_kfd_queue_synchronization_locked device queue true;
      match prepared with
      | inl status => mret (status, [])
      | inr signal =>
          state ← get_device device;
          if negb (bool_decide (ds_queues state = all)) then failed_assert
          else
            '(result, synchronizations) ← prepare_device_queues device all queues;
            mret (result, (queue, signal) :: synchronizations)
      end
  end.

Fixpoint finish_device_queues (result : LrStatus.t)
    (synchronizations : list (queue_ptr * UserSignal * LrStatus.t)) : M LrStatus.t :=
  match synchronizations with
  | [] => mret result
  | (queue, signal, wait_status) :: synchronizations =>
      status ← finish_direct_kfd_queue_synchronization_locked queue signal wait_status;
      finish_device_queues (if succeeded result then status else result) synchronizations
  end.

Definition synchronize_direct_kfd_device (device : Z) : M LrStatus.t :=
  wait_until (
    state ← get_device device;
    all_of (queue_is (fun object =>
      negb (lq_capacity_waiting object || lq_destroying object))) (ds_queues state)) ;;
  reserved ← below t_new;
  if negb reserved then mret RuntimeError
  else
    state ← get_device device;
    '(result, synchronizations) ← prepare_device_queues device (ds_queues state) (ds_queues state);
    waited ← unlocked (mapM (fun '(queue, signal) =>
      status ← wait_for_direct_kfd_signal_locked queue signal;
      mret (queue, signal, status)) synchronizations);
    finish_device_queues result waited.

Definition restore_direct_kfd_default_queue_locked (device : Z) : M LrStatus.t :=
  state ← get_device device;
  match ds_default_queue state with
  | None => mret Success
  | Some queue =>
      object ← get_queue queue;
      if queue_ready (lq_queue object) then mret Success
      else
        '(released, handle) ← below (t_release_queue (lq_queue object));
        update_queue queue (set_lq_queue handle) ;;
        if negb released then mret RuntimeError
        else
          pool_status ← release_direct_kfd_dispatch_pool_locked queue;
          if negb (succeeded pool_status) then mret RuntimeError
          else
            arena_status ← release_direct_kfd_kernarg_arenas_locked queue;
            if negb (succeeded arena_status) then mret RuntimeError
            else
              match find_index (fun q => bool_decide (q = queue)) (ds_queues state) with
              | None => mret RuntimeError
              | Some position =>
                  update_device device (fun state =>
                    set_ds_default_queue None
                      (set_ds_queues (erase position (ds_queues state)) state)) ;;
                  delete_queue queue ;;
                  '(status, created) ← create_direct_kfd_queue device true;
                  match created with
                  | Some queue => update_device device (set_ds_default_queue (Some queue))
                  | None => mret tt
                  end ;;
                  mret status
              end
  end.

(** The first failure is the one reported. *)
Definition first_failure (result status : LrStatus.t) : LrStatus.t :=
  if succeeded result then status else result.

(** The [while] over the queues of one device: a queue that cannot be released
    is skipped. *)
Fixpoint release_device_queues (fuel : nat) (device : Z) (index : nat) (result : LrStatus.t)
  : M LrStatus.t :=
  state ← get_device device;
  match ds_queues state !! index with
  | None => mret result
  | Some queue =>
      match fuel with
      | O => out_of_fuel
      | S fuel =>
          synchronization_status ← synchronize_direct_kfd_queue_locked queue;
          status ← (if succeeded synchronization_status then release_queue_resources queue
                    else mret synchronization_status);
          if negb (succeeded status) then
            release_device_queues fuel device (S index) (first_failure result status)
          else
            update_device device (fun state =>
              set_ds_queues (erase index (ds_queues state))
                (if bool_decide (ds_default_queue state = Some queue)
                 then set_ds_default_queue None state else state)) ;;
            delete_queue queue ;;
            release_device_queues fuel device index result
      end
  end.

Fixpoint release_queues_of (devices : list Z) (result : LrStatus.t) : M LrStatus.t :=
  match devices with
  | [] => mret result
  | device :: devices =>
      state ← get_device device;
      result ← release_device_queues (length (ds_queues state)) device 0 result;
      release_queues_of devices result
  end.

(** The result is what [*result] holds afterwards. *)
Definition release_direct_kfd_queues_locked (result : LrStatus.t) : M LrStatus.t :=
  count ← gets (fun s => length (g_devices s));
  release_queues_of (Z.of_nat <$> seq 0 count) result.
End api.
