(* ===== verification/DirectEvents.v ===== *)
(** * Events and launches of the API

    The direct KFD branches of the public functions of [src/event.cpp], the
    collection of launch dependencies, and [launch_impl] of [src/launch.cpp]. *)

From stdpp Require Import gmap.
From S2P Require Import Prelude Memory CodeObject ExecutableImage HiddenKernargs Topology AqlPacket AqlQueue AqlProducer KfdProducer Signal KfdKernel MemoryState RuntimeState DirectQueue DirectLaunch DirectApi.

Import LrStatus.

(** ** Clocks *)

Definition direct_kfd_event_submit_status (error : AqlSubmitError) : LrStatus.t :=
  match error with
  | SubmitInvalidPacket | SubmitInvalidQueue => InvalidArgument
  | _ => RuntimeError
  end.

Definition valid_clock_span (begin_clock end_clock : ClockCounters) : bool :=
  negb (cc_system_frequency_hz begin_clock =? 0) &&
  (cc_system_frequency_hz begin_clock =? cc_system_frequency_hz end_clock) &&
  (cc_gpu end_clock >? cc_gpu begin_clock) && (cc_system end_clock >=? cc_system begin_clock).

Definition U128_MOD : Z := 2 ^ 128.

(** The products are in [unsigned __int128], the result in 64 bits. *)
Definition gpu_ticks_to_ns (ticks : Z) (begin_clock end_clock : ClockCounters) : Z :=
  let gpu_span := u64_sub (cc_gpu end_clock) (cc_gpu begin_clock) in
  let system_span := u64_sub (cc_system end_clock) (cc_system begin_clock) in
  let system_ticks := (ticks * system_span) mod U128_MOD / gpu_span in
  to_u64 ((system_ticks * 1000000000) mod U128_MOD / cc_system_frequency_hz begin_clock).

Section events.
Context {W : Type} `{!Transport W, !Threads W}.

Abbreviation M := (kfd (runtime W)).

(** ** Launch dependencies *)

(** The loop; the result of a failure leaves what was collected so far. *)
Fixpoint collect_loop (device : Z) (completion_event : option event_ptr)
    (dependencies : list (option event_ptr)) (unique pending : list event_ptr)
  : M (LrStatus.t * list event_ptr) :=
  match dependencies with
  | [] => mret (Success, pending)
  | None :: _ => mret (InvalidArgument, pending)
  | Some event :: dependencies =>
      known ← valid_event_locked event;
      if bool_decide (completion_event = Some event) || negb known then mret (InvalidArgument, pending)
      else
        object ← get_event event;
        if negb (ev_device object =? device) || ev_destroying object ||
           (negb (ev_pending object) && negb (ev_completed object)) then
          mret (InvalidArgument, pending)
        else
          inserted ← below t_new;
          if negb inserted then mret (RuntimeError, [])
          else if existsb (fun e => bool_decide (e = event)) unique then mret (InvalidArgument, pending)
          else
            value ← (if ev_pending object then load_acquire (ev_signal object) else mret 0);
            collect_loop device completion_event dependencies (event :: unique)
              (if ev_pending object && negb (value =? 0) then pending ++ [event] else pending)
  end.

(** [dependencies] is the array, [None] for null. *)
Definition collect_direct_kfd_event_dependencies_locked (device : Z)
    (dependencies : option (list (option event_ptr))) (dependency_count : Z)
    (completion_event : option event_ptr) : M (LrStatus.t * list event_ptr) :=
  if (negb (dependency_count =? 0) && bool_decide (dependencies = None)) ||
     (dependency_count >? UINT32_MAX) then mret (InvalidArgument, [])
  else
    reserved ← below t_new;
    if negb reserved then mret (RuntimeError, [])
    else
      let array := default [] dependencies in
      if dependency_count >? Z.of_nat (length array) then failed_assert
      else collect_loop device completion_event (take (Z.to_nat dependency_count) array) [] [].

(** ** Waiting for an event *)

Definition wait_for_direct_kfd_event_locked (event : event_ptr) : M LrStatus.t :=
  object ← get_event event;
  if negb (ev_pending object) then mret (if ev_completed object then Success else InvalidArgument)
  else
    match ev_recorded_queue object with
    | None => mret RuntimeError
    | Some queue =>
        wait_status ← wait_for_direct_kfd_signal_locked queue (ev_signal object);
        if negb (succeeded wait_status) then mret wait_status
        else
          reap_status ← reap_direct_kfd_dispatches_locked queue;
          if succeeded reap_status then finish_direct_kfd_event_wait_locked event
          else mret reap_status
    end.

(** The queues whose barriers wait for the event are synchronized until none is
    left; [release_lock] says which of the two variants it is. *)
Fixpoint consumers_loop (fuel : nat) (release_lock : bool) (event : event_ptr) : M LrStatus.t :=
  object ← get_event event;
  if ev_dependency_count object =? 0 then mret Success
  else
    match ev_dependency_queues object with
    | [] => mret RuntimeError
    | (queue, _) :: _ =>
        valid ← valid_direct_kfd_queue_locked queue;
        if negb valid then mret RuntimeError
        else
          match fuel with
          | O => out_of_fuel
          | S fuel =>
              if release_lock then
                update_event event (fun e =>
                  set_ev_active_synchronizers (u64_add (ev_active_synchronizers e) 1) e) ;;
                status ← unlocked (lr_queue_synchronize (Some queue));
                update_event event (fun e =>
                  set_ev_active_synchronizers (u64_sub (ev_active_synchronizers e) 1) e) ;;
                if negb (succeeded status) then mret status
                else
                  known ← valid_event_locked event;
                  if negb known then mret InvalidArgument
                  else consumers_loop fuel release_lock event
              else
                status ← synchronize_direct_kfd_queue_locked queue;
                if negb (succeeded status) then mret status
                else consumers_loop fuel release_lock event
          end
    end.

Definition wait_for_direct_kfd_event_consumers_locked (event : event_ptr) : M LrStatus.t :=
  object ← get_event event;
  consumers_loop (length (ev_dependency_queues object)) false event.

Definition wait_for_direct_kfd_event_consumers (event : event_ptr) : M LrStatus.t :=
  object ← get_event event;
  consumers_loop (length (ev_dependency_queues object) + t_patience) true event.

Definition wait_for_all_direct_kfd_event_operations_locked : M unit :=
  wait_until (
    events ← gets (fun s => elements (g_events s));
    all_of (event_is (fun object =>
      (ev_active_synchronizers object =? 0) && negb (ev_destroying object))) events).

(** ** Creation and destruction *)

Definition new_event (device : Z) (signal : UserSignal) : lr_event_t :=
  mkEvent device signal false false 0 [] 0 false 0 0 no_clock no_clock None None 0 0.

Definition lr_event_create (device : Z) : M (LrStatus.t * option event_ptr) :=
  initialized ← gets g_initialized;
  if negb initialized then mret (NotInitialized, None)
  else
    session ← gets g_kfd_session;
    known ← device_in_range device;
    if negb known then mret (InvalidArgument, None)
    else
      state ← get_device device;
      if bool_decide (ds_default_queue state = None) || negb session then mret (InvalidArgument, None)
      else
        '(created, signal) ← below (t_create_user_signal (ds_node state));
        if negb created then mret (RuntimeError, None)
        else
          constructed ← below t_new;
          if negb constructed then
            _ ← below (t_release_signal signal);
            mret (RuntimeError, None)
          else
            event ← gets (fun s => fresh (dom (rt_events s)));
            modify (fun s => set_g_events ({[event]} ∪ g_events s)
              (set_rt_events (<[event := new_event device signal]> (rt_events s)) s)) ;;
            mret (Success, Some event).

(** [g_events.erase(...); delete event;] *)
Definition delete_event (event : event_ptr) : M unit :=
  modify (fun s => set_g_events (g_events s ∖ {[event]})
    (set_rt_events (delete event (rt_events s)) s)).

Definition keep_event (event : event_ptr) (status : LrStatus.t) : M LrStatus.t :=
  update_event event (set_ev_destroying false) ;; mret status.

Definition lr_event_destroy (event : option event_ptr) : M LrStatus.t :=
  initialized ← gets g_initialized;
  if negb initialized then mret NotInitialized
  else
    match event with
    | None => mret InvalidArgument
    | Some event =>
        known ← valid_event_locked event;
        if negb known then mret InvalidArgument
        else
          object ← get_event event;
          in_range ← device_in_range (ev_device object);
          if ev_destroying object || negb in_range then mret InvalidArgument
          else
            update_event event (set_ev_destroying true) ;;
            wait_until (event_is (fun object => ev_active_synchronizers object =? 0) event) ;;
            object ← get_event event;
            wait_status ← (if ev_pending object then wait_for_direct_kfd_event_locked event
                           else mret Success);
            if negb (succeeded wait_status) then keep_event event wait_status
            else
              consumer_status ← wait_for_direct_kfd_event_consumers event;
              if negb (succeeded consumer_status) then keep_event event consumer_status
              else
                object ← get_event event;
                '(released, signal) ← below (t_release_signal (ev_signal object));
                update_event event (set_ev_signal signal) ;;
                if negb released then keep_event event RuntimeError
                else delete_event event ;; mret Success
    end.

(** The loop over the registry; the order of an [unordered_set] is the
    library's. *)
Fixpoint release_events (events : list event_ptr) (result : LrStatus.t) : M LrStatus.t :=
  match events with
  | [] => mret result
  | event :: events =>
      object ← get_event event;
      '(released, signal) ← below (t_release_signal (ev_signal object));
      if (released : bool) then delete_event event ;; release_events events result
      else
        update_event event (set_ev_signal signal) ;;
        release_events events (first_failure result RuntimeError)
  end.

Definition release_direct_kfd_events_locked (result : LrStatus.t) : M LrStatus.t :=
  events ← gets (fun s => elements (g_events s));
  release_events events result.

(** ** Recording *)

(** The packet of the marker; a failed submission takes the recording back. *)
Definition publish_marker (device : Z) (queue : queue_ptr) (event : event_ptr)
    (record_clock : ClockCounters) : M LrStatus.t :=
  before ← get_event event;
  record_event device queue event record_clock ;;
  object ← get_queue queue;
  event_object ← get_event event;
  submitted ← on_queue_memory (lq_queue object) (submit_aql_barrier_and
    (light_rocr_kfd_producer_ops (lq_queue object) None)
    (mkBarrierParameters (0, 0, 0, 0, 0) (gpu_handle (ev_signal event_object))));
  match sr_error submitted with
  | SubmitNone => mret Success
  | error =>
      unrecord_event device queue event (back_up before) ;;
      mret (direct_kfd_event_submit_status error)
  end.

Definition event_record_impl (event : option event_ptr) (queue : option queue_ptr)
    (use_default_queue : bool) : M LrStatus.t :=
  initialized ← gets g_initialized;
  if negb initialized then mret NotInitialized
  else
    match event with
    | None => mret InvalidArgument
    | Some event =>
        known ← valid_event_locked event;
        if negb known then mret InvalidArgument
        else
          object ← get_event event;
          in_range ← device_in_range (ev_device object);
          session ← gets g_kfd_session;
          if ev_destroying object || negb in_range || negb session then mret InvalidArgument
          else
            wait_until (event_is (fun object => ev_active_synchronizers object =? 0) event) ;;
            known ← valid_event_locked event;
            if negb known then mret InvalidArgument
            else
              object ← get_event event;
              if ev_destroying object then mret InvalidArgument
              else
                wait_status ← (if ev_pending object then wait_for_direct_kfd_event_locked event
                               else mret Success);
                if negb (succeeded wait_status) then mret wait_status
                else
                  consumer_status ← wait_for_direct_kfd_event_consumers event;
                  if negb (succeeded consumer_status) then mret consumer_status
                  else
                    object ← get_event event;
                    state ← get_device (ev_device object);
                    match (if use_default_queue then ds_default_queue state else queue) with
                    | None => mret InvalidArgument
                    | Some queue =>
                        valid ← valid_direct_kfd_queue_locked queue;
                        if negb valid then mret InvalidArgument
                        else
                          queue_object ← get_queue queue;
                          if negb (lq_device queue_object =? ev_device object) then mret InvalidArgument
                          else
                            capacity_status ← ensure_direct_kfd_queue_capacity_locked queue 1 false;
                            if negb (succeeded capacity_status) then mret capacity_status
                            else
                              clock ← below (t_query_clock_counters (ds_node state));
                              match clock with
                              | None => mret RuntimeError
                              | Some counters =>
                                  reserved ← below t_new;
                                  if negb reserved then mret RuntimeError
                                  else publish_marker (ev_device object) queue event counters
                              end
                    end
    end.

Definition lr_event_record (event : option event_ptr) : M LrStatus.t :=
  event_record_impl event None true.

Definition lr_event_record_on_queue (event : option event_ptr) (queue : option queue_ptr)
  : M LrStatus.t :=
  event_record_impl event queue false.

(** ** Synchronization *)

Definition lr_event_synchronize (event : option event_ptr) : M LrStatus.t :=
  initialized ← gets g_initialized;
  if negb initialized then mret NotInitialized
  else
    match event with
    | None => mret InvalidArgument
    | Some event =>
        known ← valid_event_locked event;
        if negb known then mret InvalidArgument
        else
          object ← get_event event;
          in_range ← device_in_range (ev_device object);
          if ev_destroying object || negb in_range then mret InvalidArgument
          else if negb (ev_pending object) then mret Success
          else
            match ev_recorded_queue object with
            | None => mret RuntimeError
            | Some queue =>
                valid ← valid_direct_kfd_queue_locked queue;
                if negb valid then mret RuntimeError
                else
                  update_event event (fun e =>
                    set_ev_active_synchronizers (u64_add (ev_active_synchronizers e) 1) e) ;;
                  update_queue queue (fun q =>
                    set_lq_active_synchronizers (u64_add (lq_active_synchronizers q) 1) q) ;;
                  result ← unlocked (wait_for_direct_kfd_signal_locked queue (ev_signal object));
                  result ← (if succeeded result then reap_direct_kfd_dispatches_locked queue
                            else mret result);
                  result ← (if succeeded result then finish_direct_kfd_event_wait_locked event
                            else mret result);
                  update_queue queue (fun q =>
                    set_lq_active_synchronizers (u64_sub (lq_active_synchronizers q) 1) q) ;;
                  update_event event (fun e =>
                    set_ev_active_synchronizers (u64_sub (ev_active_synchronizers e) 1) e) ;;
                  mret result
            end
    end.

(** ** Times; the second component is what [*elapsed_ns] holds *)

Definition lr_event_elapsed_time_ns (start finish : event_ptr) : M (LrStatus.t * Z) :=
  initialized ← gets g_initialized;
  if negb initialized then mret (NotInitialized, 0)
  else
    known_start ← valid_event_locked start;
    known_finish ← valid_event_locked finish;
    if negb known_start || negb known_finish then mret (InvalidArgument, 0)
    else
      s ← get_event start;
      e ← get_event finish;
      if negb (ev_device s =? ev_device e) || ev_pending s || ev_pending e ||
         negb (ev_completed s) || negb (ev_completed e) ||
         (ev_completion_tick e <? ev_completion_tick s) then mret (InvalidArgument, 0)
      else if negb (valid_clock_span (ev_record_clock s) (ev_completion_clock e)) then
        mret (RuntimeError, 0)
      else mret (Success, gpu_ticks_to_ns (u64_sub (ev_completion_tick e) (ev_completion_tick s))
             (ev_record_clock s) (ev_completion_clock e)).

Definition lr_event_duration_ns (event : event_ptr) : M (LrStatus.t * Z) :=
  initialized ← gets g_initialized;
  if negb initialized then mret (NotInitialized, 0)
  else
    known ← valid_event_locked event;
    if negb known then mret (InvalidArgument, 0)
    else
      e ← get_event event;
      in_range ← device_in_range (ev_device e);
      if negb in_range || ev_pending e || negb (ev_completed e) ||
         (ev_completion_tick e <? ev_start_tick e) then mret (InvalidArgument, 0)
      else if negb (valid_clock_span (ev_record_clock e) (ev_completion_clock e)) then
        mret (RuntimeError, 0)
      else mret (Success, gpu_ticks_to_ns (u64_sub (ev_completion_tick e) (ev_start_tick e))
             (ev_record_clock e) (ev_completion_clock e)).

(** ** Launches *)

Definition valid_launch_config (config : lr_launch_config_t) : bool :=
  let grid := cfg_grid config in
  let block := cfg_block config in
  negb ((dim_x grid =? 0) || (dim_y grid =? 0) || (dim_z grid =? 0) ||
        (dim_x block =? 0) || (dim_y block =? 0) || (dim_z block =? 0)) &&
  negb ((dim_x grid <? dim_x block) || (dim_y grid <? dim_y block) || (dim_z grid <? dim_z block)) &&
  negb ((dim_x block >? UINT16_MAX) || (dim_y block >? UINT16_MAX) || (dim_z block >? UINT16_MAX)).

(** [valid_kernel_locked] of [src/module.cpp]. *)
Definition valid_kernel_locked (kernel : kernel_ptr) : M bool :=
  modules ← gets g_module_state;
  if negb (bool_decide (kernel ∈ g_kernels modules)) then mret false
  else
    object ← get_kernel kernel;
    if negb (bool_decide (kn_module object ∈ g_modules modules)) then mret false
    else
      module ← get_module (kn_module object);
      mret (negb (md_destroying module) &&
        match md_executable_image module with
        | Some image => ii_valid (li_info image)
        | None => false
        end).

(** The image is a reference into the module: what a launch reads of it after
    the lock was given up is what it was before. *)
Definition launch_impl (kernel : option kernel_ptr) (config : lr_launch_config_t)
    (args : option bytes) (args_size : Z) (execution_queue : option queue_ptr)
    (use_default_queue : bool) (explicit_dependencies : option (list (option event_ptr)))
    (dependency_count : Z) (use_implicit_dependencies : bool) : M LrStatus.t :=
  initialized ← gets g_initialized;
  if negb initialized then mret NotInitialized
  else
    match kernel with
    | None => mret InvalidArgument
    | Some kernel =>
        if bool_decide (args = None) || (args_size =? 0) || negb (valid_launch_config config) then
          mret InvalidArgument
        else
        valid ← valid_kernel_locked kernel;
        if negb valid then mret InvalidArgument
        else
          object ← get_kernel kernel;
          module ← get_module (kn_module object);
          let device := md_device module in
          in_range ← device_in_range device;
          session ← gets g_kfd_session;
          match md_executable_image module with
          | None => mret InvalidArgument
          | Some image =>
              if negb in_range || negb session then mret InvalidArgument
              else
                state ← get_device device;
                match (if use_default_queue then ds_default_queue state else execution_queue) with
                | None => mret InvalidArgument
                | Some queue =>
                    valid ← valid_direct_kfd_queue_locked queue;
                    if negb valid then mret InvalidArgument
                    else
                      execution ← get_queue queue;
                      if negb (lq_device execution =? device) then mret InvalidArgument
                      else
                        '(dependency_status, event_dependencies) ←
                          (if use_implicit_dependencies then mret (Success, [])
                           else collect_direct_kfd_event_dependencies_locked device
                                  explicit_dependencies dependency_count None);
                        if negb (succeeded dependency_status) then mret dependency_status
                        else
                          submit_direct_kfd_kernel_impl_locked device queue (li_info image)
                            (kn_image_kernel_index object) config args args_size None
                            event_dependencies true
                end
          end
    end.

Definition lr_launch kernel config args args_size : M LrStatus.t :=
  launch_impl kernel config args args_size None true None 0 true.

Definition lr_launch_with_dependencies kernel config args args_size dependencies dependency_count
  : M LrStatus.t :=
  launch_impl kernel config args args_size None true dependencies dependency_count false.

Definition lr_launch_on_queue queue kernel config args args_size : M LrStatus.t :=
  launch_impl kernel config args args_size queue false None 0 false.

Definition lr_launch_on_queue_with_dependencies queue kernel config args args_size dependencies
    dependency_count : M LrStatus.t :=
  launch_impl kernel config args args_size queue false dependencies dependency_count false.
End events.
