(* ===== verification/RuntimeFacts.v ===== *)
(** * Reasoning about the runtime's state

    Rules for the accesses of [RuntimeState], and the well-formedness of the
    object graph: every pointer that the code follows leads to a live object,
    the dependency counts of an event are exactly the references that pending
    barriers hold, and the lists of recorded events agree with the events. *)

From stdpp Require Import gmap.
From S2P Require Import Prelude Memory Topology AqlQueue AqlProducer KfdProducer Signal KfdKernel MemoryState RuntimeState.

Import LrStatus.

(** ** Vectors *)

Lemma swap_remove_perm {A} index (l : list A) x :
  l !! index = Some x -> l ≡ₚ x :: swap_remove index l.
Proof.
  intros Hx. unfold swap_remove. destruct l as [|back l _] using rev_ind; [done|].
  rewrite last_snoc, length_app. cbn [length]. replace (length l + 1 - 1)%nat with (length l) by lia.
  destruct (decide (index = length l)) as [->|Hne].
  { rewrite lookup_app_r in Hx by lia. rewrite Nat.sub_diag in Hx. injection Hx as ->.
    rewrite insert_app_r_alt by lia. rewrite Nat.sub_diag, take_app_length.
    by rewrite Permutation_app_comm. }
  assert (index < length l)%nat as Hi.
  { apply lookup_lt_Some in Hx. rewrite length_app in Hx. simpl in Hx. lia. }
  rewrite lookup_app_l in Hx by lia. rewrite insert_app_l, take_app_length' by (rewrite ?length_insert; lia).
  rewrite <-Permutation_cons_append. rewrite insert_take_drop by done.
  rewrite <-(take_drop_middle l index x) at 1 by done.
  rewrite <-!Permutation_middle. by rewrite Permutation_swap.
Qed.

Lemma insert_perm {A} index (l k : list A) x y :
  l !! index = Some x -> l ≡ₚ x :: k -> <[index := y]> l ≡ₚ y :: k.
Proof.
  intros Hx Hp. rewrite (delete_Permutation _ _ _ Hx) in Hp. apply Permutation_cons_inv in Hp.
  rewrite <-Hp. pose proof (lookup_lt_Some _ _ _ Hx).
  rewrite (delete_Permutation _ index y) by by apply list_lookup_insert_eq.
  f_equiv. by rewrite !delete_take_drop, take_insert_ge, drop_insert_lt by lia.
Qed.

Lemma length_swap_remove {A} index (l : list A) x :
  l !! index = Some x -> length l = S (length (swap_remove index l)).
Proof. intros Hx. by rewrite (Permutation_length (swap_remove_perm _ _ _ Hx)). Qed.

Lemma find_index_Some {A} (P : A -> bool) l index :
  find_index P l = Some index -> exists x, l !! index = Some x /\ P x = true.
Proof.
  unfold find_index. intros H. apply fmap_Some in H as ([i x] & H & ->).
  apply list_find_Some in H. naive_solver.
Qed.

Lemma find_index_None {A} (P : A -> bool) l x :
  find_index P l = None -> x ∈ l -> P x = false.
Proof.
  unfold find_index. intros H Hx. apply fmap_None in H.
  apply not_true_iff_false. intros Hp. apply (proj1 (list_find_None _ _)) in H.
  rewrite Forall_forall in H. by eapply H.
Qed.

Lemma find_index_pair {K V} `{EqDecision K} (k : K) (v : V) l :
  (k, v) ∈ l -> NoDup l.*1 ->
  exists i, find_index (fun entry => bool_decide (entry.1 = k)) l = Some i /\ l !! i = Some (k, v).
Proof.
  intros Hin Hnd. destruct (find_index _ _) as [i|] eqn:F.
  - exists i. split; [done|]. apply find_index_Some in F as ([k' v'] & Hi & Hk).
    apply bool_decide_eq_true in Hk. simpl in Hk. subst.
    apply list_elem_of_lookup in Hin as [j Hj].
    assert (l.*1 !! i = Some k /\ l.*1 !! j = Some k) as [H1 H2].
    { by rewrite !list_lookup_fmap, Hi, Hj. }
    assert (i = j) as -> by by eapply NoDup_lookup. congruence.
  - eapply find_index_None in F; [|done]. simpl in F. by rewrite bool_decide_eq_false in F.
Qed.

(** ** Rules *)

Section rules.
Context {W : Type} `{!Transport W}.
Abbreviation M := (kfd (runtime W)).
Implicit Type s : runtime W.

Lemma wp_ret {A} (a : A) (Q : A -> runtime W -> Prop) s : Q a s -> wp (mret a) Q s.
Proof. done. Qed.

Lemma wp_bind_assoc {A B C} (m : M A) (k : A -> M B) (h : B -> M C) Q s :
  wp ((m ≫= k) ≫= h) Q s -> wp (m ≫= fun a => k a ≫= h) Q s.
Proof. unfold wp, mbind, kfd_bind. by destruct (m s) as [[a s']|[]|f]. Qed.

Lemma wp_gets {A} (f : runtime W -> A) (Q : A -> runtime W -> Prop) s :
  Q (f s) s -> wp (gets f) Q s.
Proof. done. Qed.

Lemma wp_modify f (Q : unit -> runtime W -> Prop) s : Q tt (f s) -> wp (modify f) Q s.
Proof. done. Qed.

Lemma wp_below {A} (f : W -> A * W) (Q : A -> runtime W -> Prop) s :
  (forall a w, f (rt_world s) = (a, w) -> Q a (set_rt_world w s)) -> wp (below f) Q s.
Proof. intros H. unfold wp, below. destruct (f (rt_world s)) as [a w] eqn:E. auto. Qed.

Lemma wp_below_ (f : W -> W) (Q : unit -> runtime W -> Prop) s :
  Q tt (set_rt_world (f (rt_world s)) s) -> wp (below_ f) Q s.
Proof. done. Qed.

Lemma wp_dereference {K V} `{Countable K} (heap : runtime W -> gmap K V) p v Q s :
  heap s !! p = Some v -> Q v s -> wp (dereference heap p) Q s.
Proof. intros Hv HQ. unfold wp, dereference. by rewrite Hv. Qed.

Lemma wp_update_queue q f object (Q : unit -> runtime W -> Prop) s :
  rt_queues s !! q = Some object ->
  Q tt (set_rt_queues (<[q := f object]> (rt_queues s)) s) -> wp (update_queue q f) Q s.
Proof.
  intros H HQ. unfold update_queue. apply wp_bind. eapply wp_dereference; [done|]. done.
Qed.

Lemma wp_update_event e f object (Q : unit -> runtime W -> Prop) s :
  rt_events s !! e = Some object ->
  Q tt (set_rt_events (<[e := f object]> (rt_events s)) s) -> wp (update_event e f) Q s.
Proof.
  intros H HQ. unfold update_event. apply wp_bind. eapply wp_dereference; [done|]. done.
Qed.

Lemma wp_update_dispatch d f object (Q : unit -> runtime W -> Prop) s :
  rt_dispatches s !! d = Some object ->
  Q tt (set_rt_dispatches (<[d := f object]> (rt_dispatches s)) s) -> wp (update_dispatch d f) Q s.
Proof.
  intros H HQ. unfold update_dispatch. apply wp_bind. eapply wp_dereference; [done|]. done.
Qed.

Lemma wp_get_device index device (Q : DeviceState -> runtime W -> Prop) s :
  g_devices s !! Z.to_nat index = Some device -> 0 <= index -> Q device s ->
  wp (get_device index) Q s.
Proof.
  intros H Hi HQ. unfold wp, get_device. rewrite H. destruct (0 <=? index) eqn:G; [done|lia].
Qed.

Lemma wp_update_device index f device (Q : unit -> runtime W -> Prop) s :
  g_devices s !! Z.to_nat index = Some device -> 0 <= index ->
  Q tt (set_g_devices (<[Z.to_nat index := f device]> (g_devices s)) s) ->
  wp (update_device index f) Q s.
Proof.
  intros H Hi HQ. unfold update_device. apply wp_bind. by eapply wp_get_device.
Qed.

(** The world moves, the rest stays. *)
Lemma wp_observe_signal signal address (Q : AmdSignal -> runtime W -> Prop) s :
  signal = Some address ->
  (forall object w, t_signal address (rt_world s) = (object, w) -> Q object (set_rt_world w s)) ->
  wp (observe_signal signal) Q s.
Proof. intros -> HQ. unfold observe_signal. apply wp_bind, wp_ret, wp_below. done. Qed.

Lemma wp_load_acquire signal address (Q : Z -> runtime W -> Prop) s :
  signal = Some address ->
  (forall object w, t_signal address (rt_world s) = (object, w) ->
     Q (signal_load_acquire object) (set_rt_world w s)) ->
  wp (load_acquire signal) Q s.
Proof.
  intros Hs HQ. unfold load_acquire. apply wp_bind. eapply wp_observe_signal; [done|].
  intros object w Hw. by apply wp_ret, HQ.
Qed.
End rules.

(** ** Counting references *)

Definition occurrences (e : event_ptr) (events : list event_ptr) : nat :=
  length (filter (eq e) events).

Lemma occurrences_app e l k : occurrences e (l ++ k) = (occurrences e l + occurrences e k)%nat.
Proof. unfold occurrences. by rewrite filter_app, length_app. Qed.

Lemma occurrences_cons e x l :
  occurrences e (x :: l) = ((if decide (e = x) then 1 else 0) + occurrences e l)%nat.
Proof. unfold occurrences. rewrite filter_cons. by destruct (decide (e = x)). Qed.

#[export] Instance occurrences_perm e : Proper (Permutation ==> eq) (occurrences e).
Proof. intros l k H. unfold occurrences. by rewrite H. Qed.

Lemma occurrences_pos e l : e ∈ l <-> (0 < occurrences e l)%nat.
Proof.
  unfold occurrences. split.
  - intros H. destruct (filter (eq e) l) eqn:F; simpl; [|lia].
    exfalso. assert (e ∈ filter (eq e) l) as Hf by by apply list_elem_of_filter.
    rewrite F in Hf. by apply not_elem_of_nil in Hf.
  - destruct (filter (eq e) l) as [|x k] eqn:F; simpl; [lia|]. intros _.
    assert (x ∈ filter (eq e) l) as Hf by (rewrite F; by left).
    apply list_elem_of_filter in Hf as [-> ?]. done.
Qed.

(** ** Views of a queue *)

(** The dispatches the device may still be working on, in order. *)
Definition in_flight (q : lr_queue_t) : list dispatch_ptr :=
  omap (fun d => d) (drop (lq_pending_dispatch_head q) (lq_pending_dispatches q)).

Definition owned (q : lr_queue_t) : list dispatch_ptr := in_flight q ++ lq_available_dispatches q.

(** The events its pending barriers wait for, one entry per reference. *)
Definition references (q : lr_queue_t) : list event_ptr :=
  mjoin (bar_dependencies <$> lq_pending_barriers q).

(** ** Well-formedness *)

(** The counts an event keeps, against the references held on each queue. *)
Record dependency_wf (held : queue_ptr -> nat) (event : lr_event_t) : Prop := {
  dw_keys : NoDup (ev_dependency_queues event).*1;
  dw_counts : forall q, (list_to_map (ev_dependency_queues event) : gmap queue_ptr Z) !! q =
    if decide (held q = 0%nat) then None else Some (Z.of_nat (held q));
  dw_total : ev_dependency_count event = foldr Z.add 0 (ev_dependency_queues event).*2;
  dw_bound : ev_dependency_count event < U64_MOD
}.

Section wf.
Context {W : Type}.
Implicit Type s : runtime W.

Record queue_wf s (object : lr_queue_t) : Prop := {
  qw_head : (lq_pending_dispatch_head object <= length (lq_pending_dispatches object))%nat;
  qw_flight : drop (lq_pending_dispatch_head object) (lq_pending_dispatches object) =
    Some <$> in_flight object;
  qw_owned : NoDup (owned object);
  qw_dispatches d : d ∈ owned object ->
    exists dispatch, rt_dispatches s !! d = Some dispatch /\ is_Some (pd_completion_signal dispatch);
  qw_borrowed d dispatch e : d ∈ in_flight object -> rt_dispatches s !! d = Some dispatch ->
    pd_completion_event dispatch = Some e -> is_Some (rt_events s !! e);
  qw_pool d dispatch : d ∈ lq_available_dispatches object -> rt_dispatches s !! d = Some dispatch ->
    pd_completion_event dispatch = None;
  qw_barriers b : b ∈ lq_pending_barriers object -> bar_retirement_dispatch b ∈ in_flight object;
  qw_references e : e ∈ references object -> is_Some (rt_events s !! e);
  qw_recorded : NoDup (lq_pending_events object);
  qw_device : 0 <= lq_device object < Z.of_nat (length (g_devices s))
}.

Record event_wf s (object : lr_event_t) : Prop := {
  ew_signal : is_Some (ev_signal object);
  ew_device : 0 <= ev_device object < Z.of_nat (length (g_devices s));
  ew_pending : ev_pending object = true <-> is_Some (ev_recorded_queue object);
  ew_queue q : ev_recorded_queue object = Some q -> is_Some (rt_queues s !! q)
}.

(** Everything but the counts. *)
Record graph_wf s : Prop := {
  gw_queues q object : rt_queues s !! q = Some object -> queue_wf s object;
  gw_events e object : rt_events s !! e = Some object -> event_wf s object;
  gw_owner q1 q2 object1 object2 d :
    rt_queues s !! q1 = Some object1 -> rt_queues s !! q2 = Some object2 ->
    d ∈ owned object1 -> d ∈ owned object2 -> q1 = q2;
  gw_recorded q object e : rt_queues s !! q = Some object ->
    e ∈ lq_pending_events object <->
    exists event, rt_events s !! e = Some event /\ ev_recorded_queue event = Some q;
  gw_devices i device e : g_devices s !! i = Some device ->
    e ∈ ds_pending_events device <->
    exists event, rt_events s !! e = Some event /\ ev_pending event = true /\
      ev_device event = Z.of_nat i;
  gw_device_events i device : g_devices s !! i = Some device -> NoDup (ds_pending_events device);
  gw_device_queues i device q : g_devices s !! i = Some device ->
    q ∈ ds_queues device -> is_Some (rt_queues s !! q);
  gw_registered_queues q : q ∈ g_queues s -> is_Some (rt_queues s !! q);
  gw_registered_events e : e ∈ g_events s <-> is_Some (rt_events s !! e)
}.

Definition counted (held : queue_ptr -> event_ptr -> nat) s : Prop :=
  forall e event, rt_events s !! e = Some event -> dependency_wf (fun q => held q e) event.

(** The references to [e] on queue [q]. *)
Definition holds s (q : queue_ptr) (e : event_ptr) : nat :=
  match rt_queues s !! q with
  | Some object => occurrences e (references object)
  | None => O
  end.

Record runtime_wf s : Prop := {
  rw_graph : graph_wf s;
  rw_counted : counted (holds s) s
}.

(** Nothing is said of the world below. *)
Lemma graph_wf_world w s : graph_wf s -> graph_wf (set_rt_world w s).
Proof.
  intros [Hq He Ho Hr Hd Hn Hdq Hrq Hre]. split; try done.
  - intros q object Hl. destruct (Hq _ _ Hl). by split.
  - intros e object Hl. destruct (He _ _ Hl). by split.
Qed.

Lemma runtime_wf_world w s : runtime_wf s -> runtime_wf (set_rt_world w s).
Proof. intros [Hg Hc]. split; [by apply graph_wf_world|done]. Qed.

(** ** Events up to their dependency counts *)

Definition strip (event : lr_event_t) : lr_event_t :=
  set_ev_dependency_queues [] (set_ev_dependency_count 0 event).

Definition same_events (events events' : gmap event_ptr lr_event_t) : Prop :=
  strip <$> events = strip <$> events'.

#[export] Instance same_events_equivalence : Equivalence same_events.
Proof. split; unfold same_events; congruence. Qed.

Lemma same_events_lookup events events' e event :
  same_events events events' -> events !! e = Some event ->
  exists event', events' !! e = Some event' /\ strip event = strip event'.
Proof.
  intros H He. apply (f_equal (lookup e)) in H. rewrite !lookup_fmap, He in H. simpl in H.
  destruct (events' !! e) as [event'|]; [|done]. apply (inj Some) in H. eauto.
Qed.

Lemma same_events_update events e event event' :
  events !! e = Some event -> strip event = strip event' ->
  same_events events (<[e := event']> events).
Proof.
  intros He Hs. unfold same_events. rewrite fmap_insert, <-Hs, <-fmap_insert.
  by rewrite insert_id.
Qed.

Lemma strip_fields event event' : strip event = strip event' ->
  ev_device event = ev_device event' /\ ev_signal event = ev_signal event' /\
  ev_pending event = ev_pending event' /\ ev_recorded_queue event = ev_recorded_queue event'.
Proof. destruct event, event'. simpl. by intros [= -> -> -> -> -> -> -> -> -> -> -> -> -> ->]. Qed.

Lemma graph_wf_events events s :
  same_events (rt_events s) events -> graph_wf s -> graph_wf (set_rt_events events s).
Proof.
  intros Hsame [Hq He Ho Hr Hd Hn Hdq Hrq Hre].
  assert (Hsome : forall e, is_Some (rt_events s !! e) <-> is_Some (events !! e)).
  { intros e. apply (f_equal (lookup e)) in Hsame. rewrite !lookup_fmap in Hsame.
    destruct (rt_events s !! e), (events !! e); naive_solver. }
  assert (Hevent : forall e (P : lr_event_t -> Prop),
    (forall x y, strip x = strip y -> P x <-> P y) ->
    (exists x, rt_events s !! e = Some x /\ P x) <-> (exists x, events !! e = Some x /\ P x)).
  { intros e P HP. split; intros (x & Hx & Px).
    - destruct (same_events_lookup _ _ _ _ Hsame Hx) as (y & Hy & E). exists y. split; [done|].
      by apply (HP x y).
    - symmetry in Hsame. destruct (same_events_lookup _ _ _ _ Hsame Hx) as (y & Hy & E). exists y.
      split; [done|]. by apply (HP x y). }
  split; simpl; try done.
  - intros q object Hl. destruct (Hq _ _ Hl). split; try done; simpl; intros; apply Hsome; eauto.
  - intros e object Hl. symmetry in Hsame.
    destruct (same_events_lookup _ _ _ _ Hsame Hl) as (y & Hy & E).
    destruct (strip_fields _ _ E) as (E1 & E2 & E3 & E4). destruct (He _ _ Hy).
    split; simpl; rewrite ?E1, ?E2, ?E3, ?E4; done.
  - intros q object e Hl. rewrite (Hr _ _ e Hl). apply Hevent. intros x y E.
    apply strip_fields in E as (_ & _ & _ & ->). done.
  - intros i device e Hl. rewrite (Hd _ _ e Hl). apply Hevent. intros x y E.
    apply strip_fields in E as (-> & _ & -> & _). done.
  - intros e. rewrite Hre. apply Hsome.
Qed.

(** ** Queues with other barriers *)

Lemma graph_wf_queue q object object' s :
  graph_wf s -> rt_queues s !! q = Some object -> queue_wf s object' ->
  (forall d, d ∈ owned object' -> d ∈ owned object \/
     forall p other, p <> q -> rt_queues s !! p = Some other -> d ∉ owned other) ->
  lq_pending_events object' = lq_pending_events object ->
  graph_wf (set_rt_queues (<[q := object']> (rt_queues s)) s).
Proof.
  intros [Hq He Ho Hr Hd Hn Hdq Hrq Hre] Hl Hwf Hown Hev.
  assert (Hsome : forall p, is_Some (rt_queues s !! p) -> is_Some (<[q := object']> (rt_queues s) !! p)).
  { intros p Hp. destruct (decide (p = q)) as [->|]; [rewrite lookup_insert_eq|rewrite lookup_insert_ne]; eauto. }
  assert (Hthen : forall p x, <[q := object']> (rt_queues s) !! p = Some x ->
    p = q /\ x = object' \/ rt_queues s !! p = Some x).
  { intros p x Hx. apply lookup_insert_Some in Hx. naive_solver. }
  split; simpl; try done; eauto.
  - intros p x Hx. destruct (Hthen _ _ Hx) as [[-> ->]|Hx'].
    + destruct Hwf. by split.
    + destruct (Hq _ _ Hx'). by split.
  - intros e x Hx. destruct (He _ _ Hx) as [H1 H2 H3 H4]. split; try done; simpl; eauto.
  - intros q1 q2 o1 o2 d H1 H2 Hd1 Hd2.
    destruct (Hthen _ _ H1) as [[-> ->]|H1'], (Hthen _ _ H2) as [[-> ->]|H2']; eauto.
    + destruct (decide (q2 = q)); [done|]. destruct (Hown _ Hd1) as [?|Hno]; [eauto|].
      exfalso. by eapply Hno.
    + destruct (decide (q1 = q)); [done|]. destruct (Hown _ Hd2) as [?|Hno]; [eauto|].
      exfalso. by eapply Hno.
  - intros p x e Hx. destruct (Hthen _ _ Hx) as [[-> ->]|Hx'].
    + rewrite Hev. by apply Hr.
    + by apply Hr.
Qed.

Lemma in_flight_barriers bs object : in_flight (set_lq_pending_barriers bs object) = in_flight object.
Proof. done. Qed.

Lemma references_mono bs object e :
  bs ⊆ lq_pending_barriers object ->
  e ∈ references (set_lq_pending_barriers bs object) -> e ∈ references object.
Proof.
  intros Hbs. unfold references. simpl. rewrite !list_elem_of_join.
  intros (l & He & Hl). exists l. split; [done|]. apply list_elem_of_fmap in Hl as (b & -> & Hb).
  apply list_elem_of_fmap. eauto.
Qed.

Lemma graph_wf_barriers q object bs s :
  graph_wf s -> rt_queues s !! q = Some object -> bs ⊆ lq_pending_barriers object ->
  graph_wf (set_rt_queues (<[q := set_lq_pending_barriers bs object]> (rt_queues s)) s).
Proof.
  intros Hg Hl Hbs. eapply graph_wf_queue; try done; [|by left].
  destruct (gw_queues _ Hg _ _ Hl). split; try done; simpl; eauto using references_mono.
Qed.
End wf.
