(* ===== verification/DirectQueueFacts.v ===== *)
(** * Retirement is safe

    The operations of [DirectQueue] keep the object graph well-formed,
    whatever the device does between two loads of the host: no pointer is
    followed after its object is gone, no assertion fails, the counts of every
    event stay exact, and work is retired only when its signal was seen at
    zero. *)

From stdpp Require Import gmap relations.
From S2P Require Import Prelude Memory Topology AqlQueue AqlProducer KfdProducer Signal KfdKernel MemoryState RuntimeState DirectQueue RuntimeFacts.

Import LrStatus.

(** ** Dependency counts *)

Definition zsum (l : list Z) : Z := foldr Z.add 0 l.

#[export] Instance zsum_perm : Proper (Permutation ==> eq) zsum.
Proof. intros l k. induction 1; simpl; lia. Qed.

Definition counts_to (held : queue_ptr -> nat) (l : list (queue_ptr * Z)) : Prop :=
  NoDup l.*1 /\
  forall q, (list_to_map l : gmap queue_ptr Z) !! q =
    if decide (held q = 0%nat) then None else Some (Z.of_nat (held q)).

Lemma counts_to_perm held l k : l ≡ₚ k -> counts_to held l -> counts_to held k.
Proof.
  intros H [Hn Hc]. split; [by rewrite <-H|].
  intros q. rewrite <-Hc. f_equal. symmetry. by apply list_to_map_proper.
Qed.

Lemma counts_to_nonneg held l : counts_to held l -> Forall (fun n => 0 < n) l.*2.
Proof.
  intros [Hn Hc]. apply Forall_forall. intros n Hin.
  apply list_elem_of_fmap in Hin as ([q c] & -> & Hin). simpl.
  assert ((list_to_map l : gmap queue_ptr Z) !! q = Some c) as Hm by by apply elem_of_list_to_map_1.
  rewrite Hc in Hm. destruct (decide _); [done|]. injection Hm as <-. lia.
Qed.

Lemma zsum_nonneg l : Forall (fun n => 0 < n) l -> 0 <= zsum l.
Proof. induction 1; simpl; lia. Qed.

(** One reference less, one reference more, on queue [q]. *)
Lemma counts_to_fewer held held' q c l :
  counts_to held ((q, c) :: l) ->
  held q = S (held' q) -> (forall p, p <> q -> held' p = held p) ->
  counts_to held' (if c - 1 =? 0 then l else (q, c - 1) :: l) /\ c = Z.of_nat (held q).
Proof.
  intros [Hn Hc] Hq Hp. simpl in Hn. apply NoDup_cons in Hn as [Hnq Hn].
  pose proof (Hc q) as Hcq. simpl in Hcq. rewrite lookup_insert_eq in Hcq.
  destruct (decide (held q = 0%nat)) as [|_]; [done|]. injection Hcq as ->. split; [|done].
  assert (Hl : forall p, p <> q -> (list_to_map l : gmap queue_ptr Z) !! p =
    if decide (held' p = 0%nat) then None else Some (Z.of_nat (held' p))).
  { intros p Hne. specialize (Hc p). simpl in Hc. rewrite lookup_insert_ne in Hc by done.
    by rewrite Hp. }
  destruct (_ =? 0) eqn:Z0; split; simpl; try done.
  - intros p. destruct (decide (p = q)) as [->|Hne]; [|auto].
    destruct (decide (held' q = 0%nat)); [|lia]. by apply not_elem_of_list_to_map_1.
  - by constructor.
  - intros p. destruct (decide (p = q)) as [->|Hne].
    + rewrite lookup_insert_eq. destruct (decide (held' q = 0%nat)); [lia|]. f_equal. lia.
    + rewrite lookup_insert_ne by done. auto.
Qed.

Lemma counts_to_first held held' q l :
  counts_to held l -> held q = O -> held' q = 1%nat ->
  (forall p, p <> q -> held' p = held p) -> counts_to held' (l ++ [(q, 1)]).
Proof.
  intros [Hn Hc] H0 H1 Hp. apply (counts_to_perm _ ((q, 1) :: l)); [apply Permutation_cons_append|].
  pose proof (Hc q) as Hcq. rewrite H0 in Hcq. simpl in Hcq. split; simpl.
  - constructor; [|done]. by apply not_elem_of_list_to_map_2 in Hcq.
  - intros p. destruct (decide (p = q)) as [->|Hne].
    + rewrite lookup_insert_eq, H1. done.
    + by rewrite lookup_insert_ne, Hp.
Qed.

Lemma counts_to_more held held' q c l :
  counts_to held ((q, c) :: l) -> held' q = S (held q) -> (forall p, p <> q -> held' p = held p) ->
  counts_to held' ((q, c + 1) :: l).
Proof.
  intros [Hn Hc] Hq Hp. split; [done|].
  pose proof (Hc q) as Hcq. simpl in Hcq. rewrite lookup_insert_eq in Hcq.
  destruct (decide (held q = 0%nat)) as [|Hne0]; [done|]. injection Hcq as ->.
  intros p. simpl. destruct (decide (p = q)) as [->|Hne].
  - rewrite lookup_insert_eq. destruct (decide _); [lia|]. f_equal. lia.
  - specialize (Hc p). simpl in Hc. rewrite lookup_insert_ne in Hc by done.
    by rewrite lookup_insert_ne, Hp.
Qed.

(** The references on [q] minus, and plus, those of a list of events. *)
Definition fewer (held : queue_ptr -> event_ptr -> nat) (q : queue_ptr) (events : list event_ptr)
    (p : queue_ptr) (e : event_ptr) : nat :=
  if decide (p = q) then (held p e - occurrences e events)%nat else held p e.

Definition more (held : queue_ptr -> event_ptr -> nat) (q : queue_ptr) (events : list event_ptr)
    (p : queue_ptr) (e : event_ptr) : nat :=
  if decide (p = q) then (held p e + occurrences e events)%nat else held p e.

Lemma dependency_wf_ext held held' event :
  (forall q, held q = held' q) -> dependency_wf held event -> dependency_wf held' event.
Proof. intros H [H1 H2 H3 H4]. split; try done. intros q. by rewrite H2, H. Qed.

Section facts.
Context {W : Type} `{!Transport W}.
Abbreviation M := (kfd (runtime W)).
Implicit Type s : runtime W.

Lemma counted_ext held held' s :
  (forall q e, held q e = held' q e) -> counted held s -> counted held' s.
Proof. intros H Hc e event He. eapply dependency_wf_ext; [|by apply Hc]. intros q. apply H. Qed.

(** Changing one event. *)
Lemma counted_update held held' s e event' :
  counted held s -> (forall q e', e' <> e -> held' q e' = held q e') ->
  dependency_wf (fun q => held' q e) event' ->
  counted held' (set_rt_events (<[e := event']> (rt_events s)) s).
Proof.
  intros Hc Hne Hwf e' x. simpl. rewrite lookup_insert_Some. intros [[<- <-]|[Hn Hx]]; [done|].
  eapply dependency_wf_ext; [|by apply Hc]. intros q. by rewrite Hne.
Qed.

Lemma wp_release_dependency held q e s :
  counted held s -> is_Some (rt_events s !! e) -> (0 < held q e)%nat ->
  wp (release_direct_kfd_event_dependency_locked e q) (fun _ s' =>
    exists events, s' = set_rt_events events s /\ same_events (rt_events s) events /\
      counted (fewer held q [e]) s') s.
Proof.
  intros Hc [event He] Hpos. destruct (Hc _ _ He) as [Hk Hm Ht Hb].
  unfold release_direct_kfd_event_dependency_locked. apply wp_bind.
  eapply wp_dereference; [done|]. cbv zeta.
  assert ((q, Z.of_nat (held q e)) ∈ ev_dependency_queues event) as Hin.
  { pose proof (Hm q) as Hq. destruct (decide _) in Hq; [lia|].
    by apply elem_of_list_to_map_2 in Hq. }
  destruct (find_index_pair _ _ _ Hin Hk) as (i & -> & Hi). cbn [mbind option_bind]. rewrite Hi.
  cbn [fmap option_fmap option_map]. pose proof (swap_remove_perm _ _ _ Hi) as Hperm.
  assert (counts_to (fun q => held q e) (ev_dependency_queues event)) as Hto by done.
  pose proof (counts_to_perm _ _ _ Hperm Hto) as Hto'.
  pose proof (counts_to_nonneg _ _ Hto') as Hnn. rewrite fmap_cons in Hnn.
  apply Forall_cons in Hnn as [_ Hnn].
  assert (ev_dependency_count event = Z.of_nat (held q e) +
    zsum (swap_remove i (ev_dependency_queues event)).*2) as Hcount.
  { rewrite Ht. fold (zsum (ev_dependency_queues event).*2). by rewrite Hperm at 1. }
  pose proof (zsum_nonneg _ Hnn).
  destruct (_ || _) eqn:G; [lia|]. rewrite (u64_sub_small (Z.of_nat (held q e))) by lia.
  eapply wp_update_event; [done|]. eexists. split; [reflexivity|].
  split. { eapply same_events_update; [done|]. by destruct event. }
  eapply counted_update; [done| |].
  { intros p e' Hne. unfold fewer. destruct (decide _); [|done]. rewrite occurrences_cons.
    destruct (decide _); [done|]. unfold occurrences. simpl. lia. }
  destruct (counts_to_fewer _ (fun p => fewer held q [e] p e) _ _ _ Hto') as [[Hk' Hm'] _].
  { unfold fewer. rewrite decide_True, occurrences_cons, decide_True by done.
    unfold occurrences. simpl. lia. }
  { intros p Hp. unfold fewer. by rewrite decide_False. }
  set (c := Z.of_nat (held q e)) in *.
  assert ((if c - 1 =? 0 then swap_remove i (ev_dependency_queues event)
           else <[i := (q, c - 1)]> (ev_dependency_queues event)) ≡ₚ
          (if c - 1 =? 0 then swap_remove i (ev_dependency_queues event)
           else (q, c - 1) :: swap_remove i (ev_dependency_queues event))) as Hnew.
  { destruct (c - 1 =? 0); [done|]. by eapply insert_perm. }
  assert (counts_to (fun p => fewer held q [e] p e)
    (if c - 1 =? 0 then swap_remove i (ev_dependency_queues event)
     else <[i := (q, c - 1)]> (ev_dependency_queues event))) as [Hk2 Hm2].
  { symmetry in Hnew. by eapply counts_to_perm. }
  split; simpl; try done; rewrite u64_sub_small by lia; [|lia].
  change (foldr Z.add 0 ?l) with (zsum l). rewrite Hnew.
  destruct (c - 1 =? 0) eqn:E; rewrite ?fmap_cons; cbn [zsum foldr snd]; unfold zsum in *; lia.
Qed.

Lemma same_events_some events events' e :
  same_events events events' -> is_Some (events !! e) <-> is_Some (events' !! e).
Proof.
  intros H. apply (f_equal (lookup e)) in H. rewrite !lookup_fmap in H.
  destruct (events !! e), (events' !! e); naive_solver.
Qed.

Lemma wp_release_dependencies events held q s :
  counted held s -> (forall e, e ∈ events -> is_Some (rt_events s !! e)) ->
  (forall e, occurrences e events <= held q e)%nat ->
  wp (release_dependencies events q) (fun _ s' =>
    exists events', s' = set_rt_events events' s /\ same_events (rt_events s) events' /\
      counted (fewer held q events) s') s.
Proof.
  revert held s. induction events as [|e events IH]; intros held s Hc Hlive Hocc.
  { apply wp_ret. exists (rt_events s). split_and!; [by destruct s|done|].
    eapply counted_ext; [|done]. intros p x. unfold fewer, occurrences. simpl.
    destruct (decide _); lia. }
  cbn [release_dependencies]. apply wp_bind.
  assert (0 < held q e)%nat as Hpos.
  { specialize (Hocc e). rewrite occurrences_cons, decide_True in Hocc by done. lia. }
  eapply wp_mono; [apply (wp_release_dependency held q e s Hc); [apply Hlive; by left|done]|].
  intros _ s1 (events1 & -> & Hs1 & Hc1).
  eapply wp_mono; [apply (IH _ _ Hc1)|].
  - intros x Hx. simpl. apply (same_events_some _ _ _ Hs1), Hlive. by right.
  - intros x. specialize (Hocc x). rewrite occurrences_cons in Hocc. unfold fewer.
    rewrite decide_True, occurrences_cons by done. unfold occurrences at 2. simpl. lia.
  - intros _ s2 (events2 & -> & Hs2 & Hc2). exists events2. split_and!; [done|by etrans|].
    eapply counted_ext; [|exact Hc2]. intros p x. unfold fewer.
    rewrite !occurrences_cons. destruct (decide (p = q)); [|done]. unfold occurrences at 1. simpl. lia.
Qed.

(** The count of each event has grown by its references in a list. *)
Definition counts_grow (l : list event_ptr) (events events' : gmap event_ptr lr_event_t) : Prop :=
  forall e event', events' !! e = Some event' -> exists event, events !! e = Some event /\
    ev_dependency_count event' = ev_dependency_count event + Z.of_nat (occurrences e l).

Lemma wp_retain_dependency held q e s :
  counted held s -> is_Some (rt_events s !! e) ->
  (forall event, rt_events s !! e = Some event -> ev_dependency_count event + 1 < U64_MOD) ->
  wp (retain_direct_kfd_event_dependency_locked e q) (fun _ s' =>
    exists events, s' = set_rt_events events s /\ same_events (rt_events s) events /\
      counted (more held q [e]) s' /\ counts_grow [e] (rt_events s) events) s.
Proof.
  intros Hc [event He] Hroom. specialize (Hroom _ He). destruct (Hc _ _ He) as [Hk Hm Ht Hb].
  unfold retain_direct_kfd_event_dependency_locked. eapply wp_update_event; [done|].
  assert (counts_to (fun q => held q e) (ev_dependency_queues event)) as Hto by done.
  pose proof (counts_to_nonneg _ _ Hto) as Hnn. pose proof (zsum_nonneg _ Hnn) as Hsum.
  change (foldr Z.add 0 ?l) with (zsum l) in Ht.
  eexists. split; [reflexivity|]. split. { eapply same_events_update; [done|]. by destruct event. }
  split; [|intros x event'; rewrite lookup_insert_Some; intros [[<- <-]|[Hne Hx]];
    [exists event|exists event']; split; try done; simpl; rewrite ?u64_add_small by lia;
    rewrite occurrences_cons; [rewrite decide_True by done|rewrite decide_False by done];
    unfold occurrences; simpl; lia].
  eapply counted_update; [done| |].
  { intros p e' Hne. unfold more. destruct (decide _); [|done]. rewrite occurrences_cons.
    destruct (decide _); [done|]. unfold occurrences. simpl. lia. }
  assert (Hmore : more held q [e] q e = S (held q e)).
  { unfold more. rewrite decide_True, occurrences_cons, decide_True by done.
    unfold occurrences. simpl. lia. }
  assert (Hother : forall p, p <> q -> more held q [e] p e = held p e).
  { intros p Hp. unfold more. by rewrite decide_False. }
  destruct (find_index _ _) as [i|] eqn:F.
  - apply find_index_Some in F as ([q' c] & Hi & Hq). simpl in Hq.
    apply bool_decide_eq_true in Hq as ->. pose proof (swap_remove_perm _ _ _ Hi) as Hperm.
    assert (alter (fun '(q, count) => (q, u64_add count 1)) i (ev_dependency_queues event) =
      <[i := (q, u64_add c 1)]> (ev_dependency_queues event)) as Halter.
    { apply list_eq. intros j. destruct (decide (j = i)) as [->|Hne].
      - rewrite list_lookup_alter_eq, list_lookup_insert_eq, Hi by by eapply lookup_lt_Some. done.
      - by rewrite list_lookup_alter_ne, list_lookup_insert_ne. }
    pose proof (insert_perm _ _ _ _ (q, u64_add c 1) Hi Hperm) as Hnew. rewrite <-Halter in Hnew.
    pose proof (counts_to_perm _ _ _ Hperm Hto) as Hto'.
    rewrite Hperm in Ht. rewrite Hperm in Hnn. rewrite fmap_cons in Hnn, Ht.
    apply Forall_cons in Hnn as [Hc0 Hnn]. cbn [snd] in Hc0. pose proof (zsum_nonneg _ Hnn).
    cbn [zsum foldr snd] in Ht. fold (zsum (swap_remove i (ev_dependency_queues event)).*2) in Ht.
    rewrite (u64_add_small c) in Hnew by lia.
    pose proof (counts_to_more _ _ _ _ _ Hto' Hmore Hother) as Hto2.
    symmetry in Hnew. destruct (counts_to_perm _ _ _ Hnew Hto2) as [Hk2 Hm2].
    split; simpl; try done; rewrite u64_add_small by lia; [|lia].
    change (foldr Z.add 0 ?l) with (zsum l). rewrite <-Hnew, fmap_cons. cbn [zsum foldr snd].
    unfold zsum in *. lia.
  - assert (held q e = O) as H0.
    { pose proof (Hm q) as Hq. destruct (decide _) in Hq; [done|].
      apply elem_of_list_to_map_2 in Hq. eapply find_index_None in F; [|done].
      simpl in F. by rewrite bool_decide_eq_false in F. }
    rewrite H0 in Hmore.
    destruct (counts_to_first _ _ _ _ Hto H0 Hmore Hother) as [Hk2 Hm2].
    split; simpl; try done; rewrite u64_add_small by lia; [|lia].
    change (foldr Z.add 0 ?l) with (zsum l). rewrite <-Permutation_cons_append, fmap_cons.
    cbn [zsum foldr snd]. unfold zsum in *. lia.
Qed.

Lemma counts_grow_trans l k events1 events2 events3 :
  counts_grow l events1 events2 -> counts_grow k events2 events3 ->
  counts_grow (l ++ k) events1 events3.
Proof.
  intros H1 H2 e event3 H3. destruct (H2 _ _ H3) as (event2 & He2 & E2).
  destruct (H1 _ _ He2) as (event1 & He1 & E1). exists event1. split; [done|].
  rewrite occurrences_app. lia.
Qed.

(** There is room for the references of a list. *)
Definition countable (l : list event_ptr) (events : gmap event_ptr lr_event_t) : Prop :=
  forall e event, events !! e = Some event ->
    ev_dependency_count event + Z.of_nat (occurrences e l) < U64_MOD.

Lemma countable_grow l k events events' :
  countable (l ++ k) events -> counts_grow l events events' -> countable k events'.
Proof.
  intros Hc Hg e event' He'. destruct (Hg _ _ He') as (event & He & ->).
  specialize (Hc _ _ He). rewrite occurrences_app in Hc. lia.
Qed.
End facts.

(** ** Reaping barriers and dispatches

    What the two reap loops of [DirectQueue] do to the object graph: barriers
    and dispatches retire only when their completion signal was seen at zero,
    and a dispatch that a pending barrier still waits on is never recycled. *)

Import LrStatus.

Section reap.
Context {W : Type} `{!Transport W}.
Abbreviation M := (kfd (runtime W)).
Implicit Type s : runtime W.

(** ** Observations *)

(** Calls below that do not submit work and do not store to a signal. *)
Inductive quiet_step : W -> W -> Prop :=
| quiet_signal a w : quiet_step w (t_signal a w).2
| quiet_new w : quiet_step w (t_new w).2
| quiet_error queue w : quiet_step w (t_error_reason queue w).2
| quiet_clock node w : quiet_step w (t_query_clock_counters node w).2
| quiet_copy destination staging size w : quiet_step w (t_copy_staging destination staging size w)
| quiet_staging staging w : quiet_step w (t_release_host_memory staging w).2.

Abbreviation later := (rtc quiet_step).

(** Some load of the signal, now or later, gives zero ([zero]), or not. *)
Definition observed (zero : bool) (signal : UserSignal) (w : W) : Prop :=
  exists a w', signal = Some a /\ later w w' /\ (sg_value (t_signal a w').1 =? 0) = zero.

Lemma observed_later zero signal w w' :
  later w w' -> observed zero signal w' -> observed zero signal w.
Proof. intros H (a & w1 & ? & ? & ?). exists a, w1. split_and!; try done. by etrans. Qed.

Lemma later_signal a w object w' : t_signal a w = (object, w') -> later w w'.
Proof. intros H. apply rtc_once. replace w' with (t_signal a w).2 by by rewrite H. constructor. Qed.

Lemma later_new w b w' : t_new w = (b, w') -> later w w'.
Proof. intros H. apply rtc_once. replace w' with (t_new w).2 by by rewrite H. constructor. Qed.

(** The completion signal of a dispatch. *)
Definition signal_of s (d : dispatch_ptr) : UserSignal :=
  dispatch ← rt_dispatches s !! d;
  match pd_completion_event dispatch with
  | Some e => rt_events s !! e ≫= ev_signal
  | None => pd_completion_signal dispatch
  end.

Lemma signal_of_same s s' d :
  rt_dispatches s' = rt_dispatches s -> same_events (rt_events s) (rt_events s') ->
  signal_of s' d = signal_of s d.
Proof.
  intros Hd He. unfold signal_of. rewrite Hd. destruct (rt_dispatches s !! d) as [x|]; [|done]. simpl.
  destruct (pd_completion_event x) as [e|]; [|done].
  apply (f_equal (lookup e)) in He. rewrite !lookup_fmap in He.
  destruct (rt_events s !! e), (rt_events s' !! e); try done. simpl in *.
  apply (inj Some) in He. by apply strip_fields in He as (_ & <- & _ & _).
Qed.

(** Reading the signal of a dispatch in flight. *)
Lemma wp_dispatch_signal {A} q object d (k : Z -> M A) (Q : A -> runtime W -> Prop) s :
  graph_wf s -> rt_queues s !! q = Some object -> d ∈ in_flight object ->
  (forall value w, later (rt_world s) w -> observed (value =? 0) (signal_of s d) (rt_world s) ->
     wp (k value) Q (set_rt_world w s)) ->
  wp (dispatch ← get_dispatch d; signal ← active_completion_signal dispatch;
      value ← load_acquire signal; k value) Q s.
Proof.
  intros Hg Hq Hd HQ. destruct (gw_queues _ Hg _ _ Hq).
  destruct (qw_dispatches d) as (dispatch & Hdisp & [a Ha]).
  { apply elem_of_app. by left. }
  apply wp_bind. eapply wp_dereference; [done|]. apply wp_bind.
  assert (exists a, signal_of s d = Some a) as [b Hb].
  { unfold signal_of. rewrite Hdisp. simpl. destruct (pd_completion_event dispatch) as [e|] eqn:E; [|eauto].
    destruct (qw_borrowed _ _ _ Hd Hdisp E) as [event He]. rewrite He. simpl.
    apply (ew_signal _ _ (gw_events _ Hg _ _ He)). }
  pose proof Hb as Hb'. unfold active_completion_signal. unfold signal_of in Hb'.
  rewrite Hdisp in Hb'. simpl in Hb'.
  assert (wp (value ← load_acquire (Some b); k value) Q s) as Hload.
  { apply wp_bind. eapply wp_load_acquire; [done|]. intros x w Hw.
    apply HQ; [by eapply later_signal|].
    exists b, (rt_world s). split_and!; [done|done|by rewrite Hw]. }
  destruct (pd_completion_event dispatch) as [e|].
  - destruct (rt_events s !! e) as [event|] eqn:He; [|done]. simpl in Hb'.
    apply wp_bind. eapply wp_dereference; [done|]. apply wp_ret. by rewrite Hb'.
  - apply wp_ret. by rewrite Hb'.
Qed.

(** ** Barriers *)

Definition with_barriers q object bs events w s : runtime W :=
  set_rt_world w (set_rt_events events
    (set_rt_queues (<[q := set_lq_pending_barriers bs object]> (rt_queues s)) s)).

Definition retirement_seen (zero : bool) s (b : PendingBarrier) : Prop :=
  observed zero (signal_of s (bar_retirement_dispatch b)) (rt_world s).

Record barriers_reaped q object s s' retired bs : Prop := {
  br_state : exists events w, s' = with_barriers q object bs events w s /\
    same_events (rt_events s) events /\ later (rt_world s) w;
  br_split : lq_pending_barriers object ≡ₚ retired ++ bs;
  br_retired : Forall (retirement_seen true s) retired
}.

Lemma holds_barriers q object bs s s' q' e :
  rt_queues s' = <[q := set_lq_pending_barriers bs object]> (rt_queues s) ->
  holds s' q' e =
  if decide (q' = q) then occurrences e (mjoin (bar_dependencies <$> bs)) else holds s q' e.
Proof.
  intros Hq. unfold holds. rewrite Hq. destruct (decide (q' = q)) as [->|Hne].
  - by rewrite lookup_insert_eq.
  - by rewrite lookup_insert_ne.
Qed.

(** Removing one barrier, by [f], after releasing what it holds. *)
Lemma wp_retire_barrier q object b bs f s :
  runtime_wf s -> rt_queues s !! q = Some object ->
  lq_pending_barriers object ≡ₚ b :: bs -> f (lq_pending_barriers object) = bs ->
  wp (release_dependencies (bar_dependencies b) q ;;
      update_queue q (fun object => set_lq_pending_barriers (f (lq_pending_barriers object)) object))
    (fun _ s' => runtime_wf s' /\ exists events, same_events (rt_events s) events /\
       s' = with_barriers q object bs events (rt_world s) s) s.
Proof.
  intros [Hg Hc] Hq Hperm Hf.
  assert (Hocc : forall e, occurrences e (references object) =
    (occurrences e (bar_dependencies b) + occurrences e (mjoin (bar_dependencies <$> bs)))%nat).
  { intros e. unfold references. rewrite <-occurrences_app.
    apply occurrences_perm. rewrite Hperm. done. }
  apply wp_bind. eapply wp_mono; [apply (wp_release_dependencies _ _ _ _ Hc)|].
  - intros e He. apply (qw_references _ _ (gw_queues _ Hg _ _ Hq)). apply occurrences_pos.
    rewrite Hocc. apply occurrences_pos in He. lia.
  - intros e. unfold holds. rewrite Hq, Hocc. lia.
  - intros _ s1 (events & -> & Hs & Hc1). eapply wp_update_queue; [done|]. rewrite Hf. split.
    + split.
      * eapply graph_wf_barriers; [by apply graph_wf_events|done|].
        intros x Hx. rewrite Hperm. by right.
      * intros e event He. eapply dependency_wf_ext; [|by apply Hc1].
        intros p. erewrite holds_barriers by reflexivity. unfold fewer.
        destruct (decide (p = q)) as [->|]; [|done]. unfold holds. rewrite Hq, Hocc. lia.
    + exists events. split; [done|]. by destruct s.
Qed.

Lemma with_barriers_id q object s :
  rt_queues s !! q = Some object ->
  with_barriers q object (lq_pending_barriers object) (rt_events s) (rt_world s) s = s.
Proof.
  intros Hq. unfold with_barriers.
  replace (set_lq_pending_barriers (lq_pending_barriers object) object) with object by by destruct object.
  rewrite insert_id by done. by destruct s.
Qed.

Lemma with_barriers_twice q object bs bs' events events' w w' s :
  with_barriers q (set_lq_pending_barriers bs object) bs' events' w'
    (with_barriers q object bs events w s) = with_barriers q object bs' events' w' s.
Proof. unfold with_barriers. cbn. by rewrite insert_insert_eq. Qed.

Lemma take_swap_remove {A} index (l : list A) :
  (index < length l)%nat -> take index (swap_remove index l) = take index l.
Proof.
  intros H. unfold swap_remove. destruct (last l); [|done].
  rewrite take_take, Nat.min_l by lia. by rewrite take_insert_ge.
Qed.

(** What was seen after a step was seen after its start. *)
Lemma retirement_seen_back zero s s' b :
  rt_dispatches s' = rt_dispatches s -> same_events (rt_events s) (rt_events s') ->
  later (rt_world s) (rt_world s') -> retirement_seen zero s' b -> retirement_seen zero s b.
Proof.
  intros Hd He Hw. unfold retirement_seen. rewrite (signal_of_same s s') by done.
  by apply observed_later.
Qed.

Lemma reap_barriers_loop_spec fuel q index s object :
  runtime_wf s -> rt_queues s !! q = Some object ->
  (length (lq_pending_barriers object) - index <= fuel)%nat ->
  wp (reap_barriers_loop fuel q index) (fun _ s' => runtime_wf s' /\
    exists retired kept,
      barriers_reaped q object s s' retired (take index (lq_pending_barriers object) ++ kept) /\
      Forall (retirement_seen false s) kept) s.
Proof.
  revert index s object. induction fuel as [|fuel IH]; intros index s object Hwf Hq Hf;
    cbn [reap_barriers_loop]; (apply wp_bind; eapply wp_dereference; [done|]);
    destruct (lq_pending_barriers object !! index) as [b|] eqn:Hb.
  1: { apply lookup_lt_Some in Hb. lia. }
  1, 3: apply lookup_ge_None in Hb; apply wp_ret; split; [done|]; exists [], [];
    rewrite app_nil_r, take_ge by lia; split; [|done]; split; [|done|done];
    exists (rt_events s), (rt_world s); split_and!; [by rewrite with_barriers_id|done|done].
  eapply wp_dispatch_signal; [apply Hwf|done| |].
  { apply (qw_barriers _ _ (gw_queues _ (rw_graph _ Hwf) _ _ Hq)). by eapply list_elem_of_lookup_2. }
  intros value w Hw Hseen. set (s1 := set_rt_world w s).
  assert (runtime_wf s1) as Hwf1 by by apply runtime_wf_world.
  assert (Hlt := lookup_lt_Some _ _ _ Hb).
  destruct (value =? 0) eqn:Hz; cbn [negb].
  - apply wp_bind_assoc. apply wp_bind. set (bs := swap_remove index (lq_pending_barriers object)).
    pose proof (swap_remove_perm _ _ _ Hb) as Hperm. pose proof (length_swap_remove _ _ _ Hb) as Hlen.
    eapply wp_mono; [by apply (wp_retire_barrier q object b bs (swap_remove index))|].
    intros _ s2 (Hwf2 & events & Hs & ->).
    change (with_barriers q object bs events _ s1) with (with_barriers q object bs events w s) in *.
    eapply wp_mono; [apply (IH index _ (set_lq_pending_barriers bs object)); [done| |]|].
    + unfold with_barriers. simpl. by rewrite lookup_insert_eq.
    + simpl. unfold bs. lia.
    + intros _ s3 (Hwf3 & retired & kept & [(events3 & w3 & -> & Hs3 & Hw3) Hsplit Hret] & Hkept).
      split; [done|]. exists (b :: retired), kept. simpl in Hsplit, Hw3, Hs3.
      assert (Hback : forall zero x, retirement_seen zero (with_barriers q object bs events w s) x ->
        retirement_seen zero s x) by (intros zero x; by apply retirement_seen_back).
      split; [split|].
      * exists events3, w3. rewrite with_barriers_twice. simpl. unfold bs. rewrite take_swap_remove by done.
        split_and!; [done|by etrans|by etrans].
      * etrans; [exact Hperm|]. simpl. constructor. etrans; [exact Hsplit|].
        unfold bs. by rewrite take_swap_remove.
      * constructor; [by unfold retirement_seen|]. eapply Forall_impl; [done|]. apply Hback.
      * eapply Forall_impl; [done|]. apply Hback.
  - eapply wp_mono; [apply (IH (S index) s1 object); [done|done|lia]|].
    intros _ s3 (Hwf3 & retired & kept & [(events3 & w3 & -> & Hs3 & Hw3) Hsplit Hret] & Hkept).
    split; [done|]. exists retired, (b :: kept).
    assert (Hback : forall zero x, retirement_seen zero s1 x -> retirement_seen zero s x)
      by (intros zero x; by apply retirement_seen_back).
    erewrite take_S_r in Hsplit |- * by done. rewrite <-app_assoc in Hsplit |- *.
    split; [split|].
    + exists events3, w3. split_and!; [done|done|by etrans].
    + done.
    + eapply Forall_impl; [done|]. apply Hback.
    + constructor; [done|]. eapply Forall_impl; [done|]. apply Hback.
Qed.

Lemma reap_barriers_spec q s object :
  runtime_wf s -> rt_queues s !! q = Some object ->
  wp (reap_completed_direct_kfd_barriers_locked q) (fun _ s' => runtime_wf s' /\
    exists retired bs, barriers_reaped q object s s' retired bs /\
      Forall (retirement_seen false s) bs) s.
Proof.
  intros Hwf Hq. unfold reap_completed_direct_kfd_barriers_locked.
  apply wp_bind. eapply wp_dereference; [done|].
  eapply wp_mono; [apply (reap_barriers_loop_spec _ q 0 s object Hwf Hq); lia|].
  intros _ s' (Hwf' & retired & kept & Hr & Hk). eauto.
Qed.

(** ** Dispatches *)

(** The dispatches of [l] no longer belong to an event. *)
Definition detached (l : list dispatch_ptr) (ds ds' : gmap dispatch_ptr PendingDispatch) : Prop :=
  forall d, ds' !! d =
    if decide (d ∈ l) then set_pd_completion_event None <$> ds !! d else ds !! d.

Lemma detached_nil ds : detached [] ds ds.
Proof. intros d. by rewrite decide_False by apply not_elem_of_nil. Qed.

Lemma detached_cons d l ds ds' dispatch :
  ds !! d = Some dispatch ->
  detached l (<[d := set_pd_completion_event None dispatch]> ds) ds' -> detached (d :: l) ds ds'.
Proof.
  intros Hd H x. rewrite H. destruct (decide (x = d)) as [->|Hne].
  - rewrite lookup_insert_eq, Hd, (decide_True (P := d ∈ d :: l)) by by left.
    by destruct (decide (d ∈ l)).
  - rewrite lookup_insert_ne by done. destruct (decide (x ∈ l)).
    + by rewrite decide_True by by right.
    + rewrite decide_False; [done|]. by intros [->|?]%elem_of_cons.
Qed.

Lemma graph_wf_detached l ds s :
  graph_wf s -> detached l (rt_dispatches s) ds -> graph_wf (set_rt_dispatches ds s).
Proof.
  intros [Hq He Ho Hr Hd Hn Hdq Hrq Hre] Hdet. split; try done.
  2: { intros e object Hl. destruct (He _ _ Hl). by split. }
  intros q object Hl. destruct (Hq _ _ Hl) as [H1 H2 H3 H4 H5 H6 H7 H8 H9 H10].
  assert (Hback : forall d dispatch, ds !! d = Some dispatch -> exists old,
    rt_dispatches s !! d = Some old /\ pd_completion_signal dispatch = pd_completion_signal old /\
    (pd_completion_event dispatch = None \/ dispatch = old)).
  { intros d dispatch Hl'. rewrite Hdet in Hl'. destruct (decide _); [|eauto].
    destruct (rt_dispatches s !! d) as [old|]; [|done]. injection Hl' as <-. eauto. }
  split; try done; simpl.
  - intros d Hin. destruct (H4 _ Hin) as (dispatch & Hx & Hs). rewrite Hdet, Hx.
    destruct (decide _); simpl; eauto.
  - intros d dispatch e Hin Hx Hev. destruct (Hback _ _ Hx) as (old & Hold & _ & [?| ->]); [congruence|].
    by eapply H5.
  - intros d dispatch Hin Hx. destruct (Hback _ _ Hx) as (old & Hold & _ & [?| ->]); [done|].
    by eapply H6.
Qed.

Lemma signal_of_other d d' dispatch s :
  d <> d' -> signal_of (set_rt_dispatches (<[d := dispatch]> (rt_dispatches s)) s) d' = signal_of s d'.
Proof. intros Hne. unfold signal_of. simpl. by rewrite lookup_insert_ne. Qed.

(** The dispatches from position [n] on that one pass takes, and why it stops. *)
Record completed_run s object (l : list dispatch_ptr) (rest : list dispatch_ptr) : Prop := {
  cr_seen : Forall (fun d => observed true (signal_of s d) (rt_world s)) l;
  cr_free : forall d b, d ∈ l -> b ∈ lq_pending_barriers object -> bar_retirement_dispatch b <> d;
  cr_stop : forall d, head rest = Some d -> observed false (signal_of s d) (rt_world s) \/
    exists b, b ∈ lq_pending_barriers object /\ bar_retirement_dispatch b = d
}.

Lemma in_flight_lookup s object n :
  queue_wf s object ->
  (lq_pending_dispatch_head object + n < length (lq_pending_dispatches object))%nat <->
  (n < length (in_flight object))%nat.
Proof.
  intros Hwf. pose proof (f_equal length (qw_flight _ _ Hwf)) as H.
  rewrite length_drop, length_fmap in H. pose proof (qw_head _ _ Hwf). lia.
Qed.

Lemma pending_dispatch_lookup s object n d :
  queue_wf s object -> in_flight object !! n = Some d ->
  lq_pending_dispatches object !! (lq_pending_dispatch_head object + n)%nat = Some (Some d).
Proof. intros Hwf Hd. by rewrite <-lookup_drop, (qw_flight _ _ Hwf), list_lookup_fmap, Hd. Qed.

Lemma count_completed_spec fuel q n s object :
  runtime_wf s -> rt_queues s !! q = Some object -> (n <= length (in_flight object))%nat ->
  (length (in_flight object) - n <= fuel)%nat ->
  wp (count_completed fuel q n) (fun m s' => (n <= m <= length (in_flight object))%nat /\
    exists l ds w, take m (in_flight object) = take n (in_flight object) ++ l /\
      s' = set_rt_world w (set_rt_dispatches ds s) /\ later (rt_world s) w /\
      detached l (rt_dispatches s) ds /\ completed_run s object l (drop m (in_flight object))) s.
Proof.
  revert n s. induction fuel as [|fuel IH]; intros n s Hwf Hq Hn Hf; cbn [count_completed];
    (apply wp_bind; eapply wp_dereference; [done|]); cbv zeta;
    pose proof (gw_queues _ (rw_graph _ Hwf) _ _ Hq) as Hqw;
    pose proof (in_flight_lookup _ _ n Hqw) as Hlt;
    (destruct (bool_decide _) eqn:Hb; [apply bool_decide_eq_true in Hb; apply Hlt in Hb|
       apply bool_decide_eq_false in Hb; rewrite Hlt in Hb]).
  1: lia.
  1, 3: apply wp_ret; split; [lia|]; exists [], (rt_dispatches s), (rt_world s); rewrite app_nil_r;
    split_and!; [done|by destruct s|done|apply detached_nil|]; split; [done| |];
    [by intros d b ?%not_elem_of_nil|]; intros d; by rewrite drop_ge by lia.
  destruct (lookup_lt_is_Some_2 _ _ Hb) as [d Hd].
  unfold pending_dispatch. rewrite (pending_dispatch_lookup _ _ _ _ Hqw Hd). apply wp_bind, wp_ret.
  assert (d ∈ in_flight object) as Hin by by eapply list_elem_of_lookup_2.
  eapply wp_dispatch_signal; [apply Hwf|done|done|]. intros value w Hw Hseen.
  assert (Hhead : head (drop n (in_flight object)) = Some d).
  { rewrite <-Hd. destruct (drop n (in_flight object)) eqn:E.
    - apply (f_equal length) in E. rewrite length_drop in E. simpl in E. lia.
    - rewrite <-(Nat.add_0_r n), <-lookup_drop, E. done. }
  assert (Hend : observed false (signal_of s d) (rt_world s) \/
    (exists b, b ∈ lq_pending_barriers object /\ bar_retirement_dispatch b = d) ->
    exists l ds w', take n (in_flight object) = take n (in_flight object) ++ l /\
      set_rt_world w s = set_rt_world w' (set_rt_dispatches ds s) /\ later (rt_world s) w' /\
      detached l (rt_dispatches s) ds /\ completed_run s object l (drop n (in_flight object))).
  { intros Hwhy. exists [], (rt_dispatches s), w. rewrite app_nil_r.
    split_and!; [done|by destruct s|done|apply detached_nil|]. split; [done| |].
    - by intros x b ?%not_elem_of_nil.
    - rewrite Hhead. by intros ? [= <-]. }
  destruct (value =? 0) eqn:Hz; cbn [negb]; [|apply wp_ret; split; [lia|]; apply Hend; by left].
  destruct (existsb _ _) eqn:Hex.
  { apply wp_ret. split; [lia|]. apply Hend. right. apply existsb_exists in Hex as (b & Hb1 & Hb2).
    exists b. split; [by apply list_elem_of_In|]. by apply bool_decide_eq_true in Hb2. }
  clear Hend. destruct (qw_dispatches _ _ Hqw d) as (dispatch & Hdisp & _); [apply elem_of_app; by left|].
  apply wp_bind. eapply wp_update_dispatch; [done|].
  set (s1 := set_rt_dispatches _ _).
  assert (detached [d] (rt_dispatches s) (rt_dispatches s1)) as Hdet1.
  { eapply detached_cons; [done|]. apply detached_nil. }
  assert (runtime_wf s1) as Hwf1.
  { split; [|by apply Hwf]. eapply (graph_wf_detached [d]); [by apply graph_wf_world, Hwf|done]. }
  eapply wp_mono; [apply (IH (S n) s1 Hwf1 Hq); lia|].
  intros m s' (Hm & l & ds & w' & Ht & -> & Hw' & Hdet & [Hs1 Hs2 Hs3]). split; [lia|].
  assert (Hnd : NoDup (in_flight object)).
  { by destruct (proj1 (NoDup_app _ _) (qw_owned _ _ Hqw)). }
  erewrite take_S_r in Ht by done. rewrite <-app_assoc in Ht. simpl in Ht.
  assert (Hne : forall x, x ∈ l ++ drop m (in_flight object) -> d <> x).
  { rewrite <-(take_drop m (in_flight object)), Ht, <-app_assoc in Hnd.
    apply NoDup_app in Hnd as (_ & _ & Hnd). apply NoDup_cons in Hnd as [Hnd _].
    intros x Hx ->. by apply Hnd. }
  assert (Hsig : forall zero x, x ∈ l ++ drop m (in_flight object) ->
    observed zero (signal_of s1 x) (rt_world s1) -> observed zero (signal_of s x) (rt_world s)).
  { intros zero x Hx Hobs. eapply observed_later; [done|].
    by rewrite <-(signal_of_other d x (set_pd_completion_event None dispatch) s) by auto. }
  exists (d :: l), ds, w'. split_and!; [done|done|by etrans|by eapply detached_cons|]. split.
  - constructor; [done|]. rewrite Forall_forall in Hs1 |- *. intros x Hx.
    apply Hsig; [apply elem_of_app; by left|auto].
  - intros x b [->|Hx]%elem_of_cons Hb'; [|eauto]. intros <-.
    apply not_true_iff_false in Hex. apply Hex, existsb_exists. exists b.
    split; [by apply list_elem_of_In|by apply bool_decide_eq_true].
  - intros x Hx. destruct (Hs3 x Hx) as [?|?]; [left|by right].
    apply Hsig; [|done]. apply elem_of_app. right. by apply head_Some_elem_of.
Qed.

Lemma omap_fmap_Some {A} (l : list A) : omap (fun x => x) (Some <$> l) = l.
Proof. induction l as [|x l IH]; [done|]. csimpl. by rewrite IH. Qed.

Lemma recycle_flight s object n :
  queue_wf s object -> (n <= length (in_flight object))%nat ->
  let object' := recycle_dispatches n object in
  in_flight object' = drop n (in_flight object) /\
  lq_available_dispatches object' = lq_available_dispatches object ++ take n (in_flight object) /\
  (lq_pending_dispatch_head object' <= length (lq_pending_dispatches object'))%nat /\
  drop (lq_pending_dispatch_head object') (lq_pending_dispatches object') =
    Some <$> drop n (in_flight object).
Proof.
  intros Hwf Hn. pose proof (qw_flight _ _ Hwf) as Hfl. pose proof (qw_head _ _ Hwf) as Hh.
  pose proof (f_equal length Hfl) as Hlen. rewrite length_drop, length_fmap in Hlen.
  set (h := lq_pending_dispatch_head object) in *. set (p := lq_pending_dispatches object) in *.
  set (L := in_flight object) in *.
  assert (Hlen' : length (take h p ++ replicate n None ++ drop (h + n) p) = length p).
  { rewrite !length_app, length_take, length_replicate, length_drop. lia. }
  assert (Hdrop : drop (h + n) (take h p ++ replicate n None ++ drop (h + n) p) = Some <$> drop n L).
  { rewrite <-drop_drop, drop_app_length', drop_app_length' by
      (rewrite ?length_take, ?length_replicate; lia).
    by rewrite <-drop_drop, Hfl, fmap_drop. }
  cbv zeta. unfold recycle_dispatches. fold h p. cbv zeta.
  split_and!.
  - unfold in_flight. simpl. destruct (bool_decide _) eqn:G; simpl.
    + apply bool_decide_eq_true in G. rewrite Hlen' in G. by rewrite drop_ge by lia.
    + by rewrite Hdrop, omap_fmap_Some.
  - simpl. f_equal. by rewrite Hfl, <-fmap_take, omap_fmap_Some.
  - simpl. destruct (bool_decide _); simpl; lia.
  - simpl. destruct (bool_decide _) eqn:G; simpl; [|done].
    apply bool_decide_eq_true in G. rewrite Hlen' in G. by rewrite drop_ge by lia.
Qed.

Lemma graph_wf_recycle q object n s :
  graph_wf s -> rt_queues s !! q = Some object -> (n <= length (in_flight object))%nat ->
  (forall d b, d ∈ take n (in_flight object) -> b ∈ lq_pending_barriers object ->
     bar_retirement_dispatch b <> d) ->
  (forall d dispatch, d ∈ take n (in_flight object) -> rt_dispatches s !! d = Some dispatch ->
     pd_completion_event dispatch = None) ->
  graph_wf (set_rt_queues (<[q := recycle_dispatches n object]> (rt_queues s)) s).
Proof.
  intros Hg Hq Hn Hfree Hdet. pose proof (gw_queues _ Hg _ _ Hq) as Hwf.
  destruct (recycle_flight _ _ _ Hwf Hn) as (Hfl & Hav & Hhd & Hdr).
  set (object' := recycle_dispatches n object) in *.
  assert (Hown : owned object' ≡ₚ owned object).
  { unfold owned. rewrite Hfl, Hav. rewrite <-(take_drop n (in_flight object)) at 3.
    rewrite <-app_assoc. rewrite Permutation_app_comm, <-app_assoc.
    rewrite (Permutation_app_comm (lq_available_dispatches object)), <-!app_assoc.
    f_equiv. }
  eapply graph_wf_queue; [done|done| |by intros d; rewrite Hown; left|done].
  destruct Hwf as [H1 H2 H3 H4 H5 H6 H7 H8 H9 H10]. split; try done.
  - by rewrite Hdr, Hfl.
  - by rewrite Hown.
  - intros d. rewrite Hown. apply H4.
  - intros d dispatch e Hin. apply H5. rewrite Hfl in Hin.
    eapply subseteq_drop; done.
  - intros d dispatch Hin Hl. rewrite Hav in Hin. apply elem_of_app in Hin as [Hin|Hin]; eauto.
  - intros b Hb. rewrite Hfl. specialize (H7 _ Hb).
    rewrite <-(take_drop n (in_flight object)) in H7. apply elem_of_app in H7 as [H7|H7]; [|done].
    exfalso. by eapply Hfree.
Qed.

(** The whole pass: a prefix of the dispatches in flight retires. *)
Record dispatches_reaped q object s s' status retired bs n : Prop := {
  dr_barriers : lq_pending_barriers object ≡ₚ retired ++ bs;
  dr_retired : Forall (retirement_seen true s) retired;
  dr_kept : Forall (retirement_seen false s) bs;
  dr_count : (n <= length (in_flight object))%nat;
  dr_completed : Forall (fun d => observed true (signal_of s d) (rt_world s)) (take n (in_flight object));
  dr_stopped : forall d, in_flight object !! n = Some d ->
    observed false (signal_of s d) (rt_world s);
  dr_state : exists object' events ds w,
    s' = set_rt_world w (set_rt_dispatches ds (set_rt_events events
           (set_rt_queues (<[q := object']> (rt_queues s)) s))) /\
    same_events (rt_events s) events /\ later (rt_world s) w /\
    detached (take n (in_flight object)) (rt_dispatches s) ds /\
    let object1 := set_lq_pending_barriers bs object in
    match status with
    | Success => object' = if decide (n = O) then object1 else recycle_dispatches n object1
    | RuntimeError => (0 < n)%nat /\ object' = object1
    | _ => False
    end
}.

Lemma reap_dispatches_spec q s object :
  runtime_wf s -> rt_queues s !! q = Some object ->
  wp (reap_direct_kfd_dispatches_locked q) (fun status s' => runtime_wf s' /\
    exists retired bs n, dispatches_reaped q object s s' status retired bs n) s.
Proof.
  intros Hwf Hq. unfold reap_direct_kfd_dispatches_locked. apply wp_bind.
  eapply wp_mono; [by apply (reap_barriers_spec q s object)|].
  intros _ s1 (Hwf1 & retired & bs & [(events & w1 & -> & Hev & Hw1) Hsplit Hret] & Hkept).
  set (object1 := set_lq_pending_barriers bs object).
  set (s1 := with_barriers q object bs events w1 s) in *.
  assert (Hq1 : rt_queues s1 !! q = Some object1) by apply lookup_insert_eq.
  apply wp_bind. eapply wp_dereference; [exact Hq1|]. apply wp_bind.
  pose proof (gw_queues _ (rw_graph _ Hwf1) _ _ Hq1) as Hqw1.
  pose proof (f_equal length (qw_flight _ _ Hqw1)) as Hlen. rewrite length_drop, length_fmap in Hlen.
  eapply wp_mono; [apply (count_completed_spec _ q 0 s1 object1 Hwf1 Hq1); lia|].
  intros n s2 (Hn & l & ds & w2 & Ht & -> & Hw2 & Hdet & [Hc1 Hc2 Hc3]). simpl in Ht. subst l.
  change (in_flight object1) with (in_flight object) in *.
  assert (Hback : forall zero d, observed zero (signal_of s1 d) (rt_world s1) ->
    observed zero (signal_of s d) (rt_world s)).
  { intros zero d. rewrite (signal_of_same s s1) by done. by apply observed_later. }
  assert (Hwf2 : runtime_wf (set_rt_world w2 (set_rt_dispatches ds s1))).
  { apply runtime_wf_world. split; [by eapply graph_wf_detached; [apply Hwf1|]|apply Hwf1]. }
  assert (Hcommon : forall s' status object' w,
    later w2 w ->
    s' = set_rt_world w (set_rt_dispatches ds (set_rt_events events
           (set_rt_queues (<[q := object']> (rt_queues s)) s))) ->
    match status with
    | Success => object' = if decide (n = O) then object1 else recycle_dispatches n object1
    | RuntimeError => (0 < n)%nat /\ object' = object1
    | _ => False
    end -> dispatches_reaped q object s s' status retired bs n).
  { intros s' status object' w Hw -> Hst. split; try done; [lia| | |].
    - eapply Forall_impl; [exact Hc1|]. intros d. apply Hback.
    - intros d Hd. assert (head (drop n (in_flight object)) = Some d) as Hh.
      { rewrite <-Hd. rewrite <-(Nat.add_0_r n) at 2. rewrite <-lookup_drop.
        by destruct (drop n (in_flight object)). }
      destruct (Hc3 _ Hh) as [?|(b & Hb & <-)]; [by apply Hback|].
      rewrite Forall_forall in Hkept. by apply Hkept.
    - exists object', events, ds, w. split_and!; try done. etrans; [exact Hw1|]. by etrans. }
  destruct (bool_decide (n = O)) eqn:Hn0.
  { apply bool_decide_eq_true in Hn0 as ->. apply wp_ret. split; [done|].
    exists retired, bs, O. by eapply (Hcommon _ Success object1 w2). }
  apply bool_decide_eq_false in Hn0. apply wp_bind, wp_below. intros reserved w Hnew.
  simpl in Hnew. apply later_new in Hnew as Hlat.
  destruct reserved; cbn [negb].
  2: { apply wp_ret. split; [by apply runtime_wf_world|]. exists retired, bs, n.
       eapply (Hcommon _ RuntimeError object1 w); [done|done|].
       split; [by apply Nat.neq_0_lt_0|done]. }
  apply wp_bind. eapply wp_update_queue; [exact Hq1|]. apply wp_ret.
  set (s3 := set_rt_world w _). split.
  - assert (Hg3 : graph_wf (set_rt_world w (set_rt_world w2 (set_rt_dispatches ds s1))))
      by by apply graph_wf_world, Hwf2.
    split.
    + eapply graph_wf_recycle; [exact Hg3|exact Hq1|apply Hn|done|].
      intros d dispatch Hd. simpl. rewrite Hdet, decide_True by done.
      destruct (rt_dispatches s1 !! d); [|done]. by intros [= <-].
    + intros e event He. eapply dependency_wf_ext; [|by apply (rw_counted _ Hwf1)].
      intros p. unfold holds. simpl. destruct (decide (p = q)) as [->|Hne].
      * by rewrite !lookup_insert_eq.
      * by rewrite !lookup_insert_ne.
  - exists retired, bs, n. eapply (Hcommon _ Success _ w); [done| |].
    + cbn. by rewrite insert_insert_eq.
    + by rewrite decide_False.
Qed.
End reap.
