(* ===== verification/DirectEventFacts.v ===== *)
(** * Finishing recorded events

    An event that is finished leaves the lists of its queue and of its device
    together, keeps its dependency counts, and is finished only after its
    signal was seen at zero. *)

From stdpp Require Import gmap relations.
From S2P Require Import Prelude Memory Topology AqlQueue AqlProducer KfdProducer Signal KfdKernel MemoryState RuntimeState DirectQueue RuntimeFacts DirectQueueFacts.

Import LrStatus.

Lemma remove_pending_event_perm e l :
  e ∈ l -> l ≡ₚ e :: remove_direct_kfd_pending_event e l.
Proof.
  intros Hin. unfold remove_direct_kfd_pending_event. destruct (find_index _ _) as [i|] eqn:F.
  - apply find_index_Some in F as (x & Hx & He). apply bool_decide_eq_true in He as ->.
    by apply swap_remove_perm.
  - eapply find_index_None in F; [|exact Hin]. by rewrite bool_decide_eq_false in F.
Qed.

Lemma remove_pending_event_spec e l :
  e ∈ l -> NoDup l ->
  NoDup (remove_direct_kfd_pending_event e l) /\
  (forall x, x ∈ remove_direct_kfd_pending_event e l <-> x ∈ l /\ x <> e) /\
  length l = S (length (remove_direct_kfd_pending_event e l)).
Proof.
  intros Hin Hnd. pose proof (remove_pending_event_perm _ _ Hin) as Hp.
  rewrite Hp in Hnd. apply NoDup_cons in Hnd as [He Hnd]. split_and!; [done| |by rewrite Hp at 1].
  intros x. rewrite Hp at 2. rewrite elem_of_cons. naive_solver.
Qed.

Section events.
Context {W : Type} `{!Transport W}.
Abbreviation M := (kfd (runtime W)).
Abbreviation later := (rtc quiet_step).
Implicit Type s : runtime W.

Lemma later_clock node w c w' : t_query_clock_counters node w = (c, w') -> later w w'.
Proof.
  intros H. apply rtc_once. replace w' with (t_query_clock_counters node w).2 by by rewrite H. constructor.
Qed.

Lemma later_staging staging w b w' : t_release_host_memory staging w = (b, w') -> later w w'.
Proof.
  intros H. apply rtc_once. replace w' with (t_release_host_memory staging w).2 by by rewrite H. constructor.
Qed.

(** ** The staging buffer *)

Definition without_staging (event : lr_event_t) : lr_event_t :=
  match ev_pageable_copy_staging event with
  | None => event
  | Some _ => set_ev_pageable_copy_staging None
      (set_ev_pageable_copy_destination 0 (set_ev_pageable_copy_size 0 event))
  end.

Lemma wp_finish_pageable_copy e event event1 s :
  rt_events s !! e = Some event1 ->
  ev_pageable_copy_staging event1 = ev_pageable_copy_staging event ->
  wp (finish_pageable_copy e event) (fun status s' => exists w,
    later (rt_world s) w /\
    s' = set_rt_world w (set_rt_events (<[e := without_staging event1]> (rt_events s)) s) /\
    (status = Success \/ status = RuntimeError /\ is_Some (ev_pageable_copy_staging event))) s.
Proof.
  intros He Hst. unfold finish_pageable_copy, without_staging. rewrite Hst.
  destruct (ev_pageable_copy_staging event) as [staging|].
  2: { apply wp_ret. exists (rt_world s). rewrite insert_id by done.
       split_and!; [done|by destruct s|by left]. }
  assert (forall w, later (rt_world s) w ->
    wp (released ← below (t_release_host_memory staging);
        update_event e (fun object => set_ev_pageable_copy_staging None
          (set_ev_pageable_copy_destination 0 (set_ev_pageable_copy_size 0 object))) ;;
        mret (if (released : bool) then Success else RuntimeError))
      (fun status s' => exists w, later (rt_world s) w /\
        s' = set_rt_world w (set_rt_events (<[e := set_ev_pageable_copy_staging None
          (set_ev_pageable_copy_destination 0 (set_ev_pageable_copy_size 0 event1))]>
            (rt_events s)) s) /\
        (status = Success \/ status = RuntimeError /\ is_Some (Some staging)))
      (set_rt_world w s)) as Hrest.
  { intros w Hw. apply wp_bind, wp_below. intros released w' Hr. simpl in Hr.
    apply wp_bind. eapply wp_update_event; [done|]. apply wp_ret. exists w'.
    split_and!; [etrans; [done|by eapply later_staging]|done|]. destruct released; eauto. }
  apply wp_bind. destruct (_ =? 0).
  - apply wp_ret. specialize (Hrest (rt_world s)). replace (set_rt_world (rt_world s) s) with s in Hrest
      by by destruct s. by apply Hrest.
  - apply wp_below_, Hrest, rtc_once. constructor.
Qed.

(** ** Recording and forgetting an event *)

(** [event'] is [event], now recorded on [recorded] or on no queue. *)
Record rerecorded (event event' : lr_event_t) (recorded : option queue_ptr) : Prop := {
  re_signal : ev_signal event' = ev_signal event;
  re_device : ev_device event' = ev_device event;
  re_pending : ev_pending event' = bool_decide (is_Some recorded);
  re_queue : ev_recorded_queue event' = recorded;
  re_count : ev_dependency_count event' = ev_dependency_count event;
  re_queues : ev_dependency_queues event' = ev_dependency_queues event
}.

(** [l'] is [l] with [e] a member or not, as [member] says. *)
Definition relisted (e : event_ptr) (member : bool) (l l' : list event_ptr) : Prop :=
  NoDup l' /\ forall x, x ∈ l' <-> (x = e /\ member = true) \/ (x <> e /\ x ∈ l).

Definition with_event e event' q lq object (i : nat) ld device s : runtime W :=
  set_rt_events (<[e := event']> (rt_events s))
    (set_g_devices (<[i := set_ds_pending_events ld device]> (g_devices s))
       (set_rt_queues (<[q := set_lq_pending_events lq object]> (rt_queues s)) s)).

Section rerecord.
Context (e : event_ptr) (event event' : lr_event_t) (recorded : option queue_ptr).
Context (q : queue_ptr) (object : lr_queue_t) (lq : list event_ptr).
Context (i : nat) (device : DeviceState) (ld : list event_ptr) (s : runtime W).
Context (Hwf : runtime_wf s) (He : rt_events s !! e = Some event).
Context (Hq : rt_queues s !! q = Some object) (Hi : g_devices s !! i = Some device).
Context (Hdev : ev_device event = Z.of_nat i) (Hre : rerecorded event event' recorded).
Context (Hold : ev_recorded_queue event = None \/ ev_recorded_queue event = Some q).
Context (Hnew : recorded = None \/ recorded = Some q).
Context (Hlq : relisted e (bool_decide (is_Some recorded)) (lq_pending_events object) lq).
Context (Hld : relisted e (bool_decide (is_Some recorded)) (ds_pending_events device) ld).
Abbreviation s' := (with_event e event' q lq object i ld device s).

Lemma with_event_queues p :
  is_Some (rt_queues s !! p) -> is_Some (<[q := set_lq_pending_events lq object]> (rt_queues s) !! p).
Proof. intros Hp. rewrite lookup_insert_is_Some'. by right. Qed.

Lemma with_event_events x :
  is_Some (rt_events s !! x) <-> is_Some (<[e := event']> (rt_events s) !! x).
Proof.
  rewrite lookup_insert_is_Some'. split; [by right|]. intros [<-|]; [by rewrite He|done].
Qed.

(** A queue of the new state is one of the old, up to its list of events. *)
Lemma with_event_queue p x :
  <[q := set_lq_pending_events lq object]> (rt_queues s) !! p = Some x ->
  exists y, rt_queues s !! p = Some y /\ owned x = owned y /\ queue_wf s' x.
Proof.
  intros Hx. assert (exists y, rt_queues s !! p = Some y /\
    (x = y \/ x = set_lq_pending_events lq object /\ y = object)) as (y & Hy & Hxy).
  { apply lookup_insert_Some in Hx as [[<- <-]|[Hne Hx]]; eauto 6. }
  exists y. destruct (gw_queues _ (rw_graph _ Hwf) _ _ Hy) as [H1 H2 H3 H4 H5 H6 H7 H8 H9 H10].
  destruct Hlq as [Hnd _].
  destruct Hxy as [->|[-> ->]]; split_and!; try done; split; simpl; rewrite ?length_insert; try done;
    intros; apply with_event_events; eauto.
Qed.

Lemma with_event_event x y :
  <[e := event']> (rt_events s) !! x = Some y -> event_wf s' y.
Proof.
  intros Hx. apply lookup_insert_Some in Hx as [[<- <-]|[Hne Hx]].
  - destruct (gw_events _ (rw_graph _ Hwf) _ _ He) as [H1 H2 H3 H4], Hre as [R1 R2 R3 R4 _ _].
    split; simpl; rewrite ?R1, ?R2, ?R3, ?R4, ?length_insert; try done.
    + apply bool_decide_eq_true.
    + intros p Hp. apply with_event_queues. destruct Hnew as [E|E]; rewrite E in Hp; naive_solver.
  - destruct (gw_events _ (rw_graph _ Hwf) _ _ Hx) as [H1 H2 H3 H4].
    split; simpl; rewrite ?length_insert; try done. eauto using with_event_queues.
Qed.

Lemma with_event_recorded p x y :
  <[q := set_lq_pending_events lq object]> (rt_queues s) !! p = Some x ->
  y ∈ lq_pending_events x <->
  exists ev, <[e := event']> (rt_events s) !! y = Some ev /\ ev_recorded_queue ev = Some p.
Proof.
  intros Hx. pose proof (gw_recorded _ (rw_graph _ Hwf)) as Gr.
  destruct (decide (y = e)) as [->|Hne].
  - rewrite lookup_insert_eq. assert ((exists ev, Some event' = Some ev /\ ev_recorded_queue ev = Some p)
      <-> recorded = Some p) as ->.
    { rewrite <-(re_queue _ _ _ Hre). naive_solver. }
    apply lookup_insert_Some in Hx as [[<- <-]|[Hne Hx]]; simpl.
    + destruct Hlq as [_ Hm]. rewrite Hm, bool_decide_eq_true.
      destruct Hnew as [->| ->]; [|naive_solver]. split; [|done]. intros [[_ [? [=]]]|[? _]]; done.
    + rewrite (Gr _ _ e Hx). split; [|naive_solver]. intros (ev & Hev & Hr).
      rewrite He in Hev. naive_solver.
  - rewrite lookup_insert_ne by done. apply lookup_insert_Some in Hx as [[<- <-]|[Hne' Hx]]; [|by apply Gr].
    simpl. destruct Hlq as [_ Hm]. rewrite Hm, <-(Gr _ _ y Hq). naive_solver.
Qed.

Lemma with_event_devices j x y :
  <[i := set_ds_pending_events ld device]> (g_devices s) !! j = Some x ->
  y ∈ ds_pending_events x <->
  exists ev, <[e := event']> (rt_events s) !! y = Some ev /\ ev_pending ev = true /\
    ev_device ev = Z.of_nat j.
Proof.
  intros Hx. pose proof (gw_devices _ (rw_graph _ Hwf)) as Gd. destruct Hld as [_ Hm].
  destruct (decide (y = e)) as [->|Hne].
  - rewrite lookup_insert_eq. assert ((exists ev, Some event' = Some ev /\ ev_pending ev = true /\
      ev_device ev = Z.of_nat j) <-> is_Some recorded /\ j = i) as ->.
    { split.
      - intros (ev & [= <-] & Hp & Hd). rewrite (re_pending _ _ _ Hre), bool_decide_eq_true in Hp.
        rewrite (re_device _ _ _ Hre) in Hd. split; [done|lia].
      - intros [Hs ->]. exists event'. rewrite (re_pending _ _ _ Hre), (re_device _ _ _ Hre).
        by rewrite bool_decide_eq_true. }
    apply list_lookup_insert_Some in Hx as [(<- & <- & _)|[Hne Hx]]; simpl.
    + rewrite Hm, bool_decide_eq_true. naive_solver.
    + rewrite (Gd _ _ e Hx). split; [|naive_solver]. intros (ev & Hev & _ & Hd).
      rewrite He in Hev. injection Hev as <-. lia.
  - rewrite lookup_insert_ne by done.
    apply list_lookup_insert_Some in Hx as [(<- & <- & _)|[Hne' Hx]]; [|by apply Gd].
    simpl. rewrite Hm, <-(Gd _ _ y Hi). naive_solver.
Qed.

Lemma runtime_wf_with_event : runtime_wf s'.
Proof.
  pose proof (rw_graph _ Hwf) as [Gq Ge Go Gr Gd Gn Gdq Grq Gre]. split; [split|]; simpl.
  - intros p x Hx. by destruct (with_event_queue _ _ Hx) as (? & ? & ? & ?).
  - apply with_event_event.
  - intros q1 q2 o1 o2 d H1 H2. apply with_event_queue in H1 as (y1 & Y1 & -> & _).
    apply with_event_queue in H2 as (y2 & Y2 & -> & _). by eapply Go.
  - apply with_event_recorded.
  - apply with_event_devices.
  - intros j x Hx. apply list_lookup_insert_Some in Hx as [(<- & <- & _)|[Hne' Hx]]; [apply Hld|by eapply Gn].
  - intros j x p Hx Hin. apply with_event_queues.
    apply list_lookup_insert_Some in Hx as [(<- & <- & _)|[Hne' Hx]]; by eapply Gdq.
  - intros p Hp. by apply with_event_queues, Grq.
  - intros x. rewrite Gre. apply with_event_events.
  - intros x y Hx. simpl in Hx. apply (dependency_wf_ext (fun p => holds s p x)).
    { intros p. unfold holds. simpl. destruct (decide (p = q)) as [->|].
      - by rewrite lookup_insert_eq, Hq.
      - by rewrite lookup_insert_ne. }
    apply lookup_insert_Some in Hx as [[<- <-]|[Hne Hx]]; [|by apply Hwf].
    destruct (rw_counted _ Hwf _ _ He) as [D1 D2 D3 D4]. destruct Hre as [_ _ _ _ U5 U6].
    split; rewrite ?U5, ?U6; done.
Qed.
End rerecord.

Lemma relisted_remove e l :
  e ∈ l -> NoDup l -> relisted e false l (remove_direct_kfd_pending_event e l).
Proof.
  intros Hin Hnd. destruct (remove_pending_event_spec e l Hin Hnd) as (H1 & H2 & _).
  split; [done|]. intros x. rewrite H2. naive_solver.
Qed.

Definition without_event e q object (i : nat) device event' s : runtime W :=
  with_event e event' q (remove_direct_kfd_pending_event e (lq_pending_events object)) object
    i (remove_direct_kfd_pending_event e (ds_pending_events device)) device s.

Lemma runtime_wf_without_event e event event' q object i device s :
  runtime_wf s -> rt_events s !! e = Some event -> ev_recorded_queue event = Some q ->
  rt_queues s !! q = Some object -> g_devices s !! i = Some device -> ev_device event = Z.of_nat i ->
  rerecorded event event' None -> runtime_wf (without_event e q object i device event' s).
Proof.
  intros Hwf He Hrec Hq Hi Hdev Hun. pose proof (rw_graph _ Hwf) as Hg.
  eapply runtime_wf_with_event; try done; [by right|by left| |]; apply relisted_remove.
  - apply (gw_recorded _ Hg _ _ _ Hq). eauto.
  - apply (qw_recorded _ _ (gw_queues _ Hg _ _ Hq)).
  - apply (gw_devices _ Hg _ _ _ Hi). exists event. split_and!; try done.
    apply (ew_pending _ _ (gw_events _ Hg _ _ He)). by rewrite Hrec.
  - by eapply (gw_device_events _ Hg).
Qed.

(** ** [finish_direct_kfd_event_wait_locked] *)

(** The event after it was finished with [status]. *)
Record event_finished e event q s s' (status : LrStatus.t) : Prop := {
  ef_seen : observed true (ev_signal event) (rt_world s);
  ef_status : status = Success \/ status = RuntimeError /\ is_Some (ev_pageable_copy_staging event);
  ef_state : exists object device event' w,
    rt_queues s !! q = Some object /\ g_devices s !! Z.to_nat (ev_device event) = Some device /\
    rerecorded event event' None /\ ev_completed event' = succeeded status /\
    ev_pageable_copy_staging event' = None /\ later (rt_world s) w /\
    s' = set_rt_world w (without_event e q object (Z.to_nat (ev_device event)) device event' s)
}.

Lemma observed_now a object w w' :
  t_signal a w = (object, w') -> observed (signal_load_acquire object =? 0) (Some a) w.
Proof. intros H. exists a, w. split_and!; [done|done|by rewrite H]. Qed.

Lemma finish_event_spec e event q s :
  runtime_wf s -> rt_events s !! e = Some event -> ev_recorded_queue event = Some q ->
  wp (finish_direct_kfd_event_wait_locked e) (fun status s' => runtime_wf s' /\
    (event_finished e event q s s' status \/
     status = RuntimeError /\
     (observed false (ev_signal event) (rt_world s) \/ g_kfd_session s = false) /\
     exists w, later (rt_world s) w /\ s' = set_rt_world w s)) s.
Proof.
  intros Hwf He Hrec. pose proof Hwf as [Hg Hc]. destruct (gw_events _ Hg _ _ He) as [[a Ha] Hdev Hp Hq].
  destruct (Hq _ Hrec) as [object Hobj]. assert (Hpend : ev_pending event = true) by (apply Hp; by rewrite Hrec).
  destruct (lookup_lt_is_Some_2 (g_devices s) (Z.to_nat (ev_device event))) as [device Hdevice]; [lia|].
  unfold finish_direct_kfd_event_wait_locked. apply wp_bind. eapply wp_dereference; [done|].
  rewrite Hpend. cbn [negb]. apply wp_bind. eapply wp_load_acquire; [done|]. intros object1 w1 Hw1.
  do 2 apply wp_bind, wp_gets. simpl.
  pose proof (observed_now _ _ _ _ Hw1) as Hseen. apply later_signal in Hw1.
  rewrite Ha. destruct (_ || _) eqn:G.
  { apply wp_ret. split; [by apply runtime_wf_world|]. right. split_and!; [done| |eauto].
    destruct (signal_load_acquire object1 =? 0); [|by left]. right.
    destruct (g_kfd_session s); [|done]. lia. }
  assert (signal_load_acquire object1 =? 0 = true) as Hz by (destruct (_ =? 0); [done|lia]).
  rewrite Hz in Hseen.
  apply wp_bind. eapply wp_get_device; [done|lia|].
  apply wp_bind, wp_below. intros clock w2 Hw2. simpl in Hw2. apply later_clock in Hw2.
  apply wp_bind. unfold start_timestamp_acquire. apply wp_bind. eapply wp_observe_signal; [done|].
  intros object2 w3 Hw3. apply later_signal in Hw3. apply wp_ret.
  apply wp_bind. unfold end_timestamp_acquire. apply wp_bind. eapply wp_observe_signal; [done|].
  intros object3 w4 Hw4. apply later_signal in Hw4. apply wp_ret. simpl in Hw3, Hw4.
  rewrite Hrec. apply wp_bind. eapply wp_update_queue; [done|].
  apply wp_bind. eapply wp_update_device; [done|lia|].
  apply wp_bind. eapply wp_update_event; [done|].
  apply wp_bind. eapply wp_mono.
  { eapply wp_finish_pageable_copy; [simpl; apply lookup_insert_eq|]. by destruct event. }
  intros status s1 (w5 & Hw5 & -> & Hstatus). simpl in Hw5.
  apply wp_bind. eapply wp_update_event; [simpl; apply lookup_insert_eq|].
  apply wp_bind. eapply wp_update_event; [simpl; apply lookup_insert_eq|]. apply wp_ret.
  match goal with |- runtime_wf ?x /\ _ => set (s2 := x) end.
  assert (event_finished e event q s s2 status) as Hfin.
  { split; [by rewrite Ha|done|]. exists object, device. eexists _, w5. split_and!; [done|done| | | | |].
    5: { unfold s2. cbn. rewrite !insert_insert_eq. reflexivity. }
    4: { etrans; [exact Hw1|]. etrans; [exact Hw2|]. etrans; [exact Hw3|]. by etrans. }
    all: unfold without_staging; destruct event as [? ? ? ? ? ? ? ? ? ? ? ? ? [] ? ?], clock; simpl;
      try destruct (_ && _); try split; done. }
  split; [|by left]. destruct Hfin as [_ _ (o & d & event' & w & Ho & Hd & Hun & _ & _ & _ & ->)].
  apply runtime_wf_world. eapply runtime_wf_without_event; try done. lia.
Qed.

(** ** The events in front of a queue *)

(** What reaping events changes: the list of the queue, and events. *)
Record events_reaped q object s s' l : Prop := {
  er_queues : rt_queues s' = <[q := set_lq_pending_events l object]> (rt_queues s);
  er_dispatches : rt_dispatches s' = rt_dispatches s;
  er_session : g_kfd_session s' = g_kfd_session s;
  er_signals : forall e, ev_signal <$> rt_events s' !! e = ev_signal <$> rt_events s !! e;
  er_world : later (rt_world s) (rt_world s');
  er_shorter : l = lq_pending_events object \/
    (length l < length (lq_pending_events object))%nat
}.

Lemma events_reaped_world q object s w :
  rt_queues s !! q = Some object -> later (rt_world s) w ->
  events_reaped q object s (set_rt_world w s) (lq_pending_events object).
Proof.
  intros Hq Hw. split; try done; [|by left]. simpl.
  replace (set_lq_pending_events (lq_pending_events object) object) with object by by destruct object.
  by rewrite insert_id.
Qed.

Lemma events_reaped_trans q object s s1 s2 l1 l2 :
  events_reaped q object s s1 l1 -> events_reaped q (set_lq_pending_events l1 object) s1 s2 l2 ->
  events_reaped q object s s2 l2.
Proof.
  intros [A1 A2 A3 A4 A5 A6] [B1 B2 B3 B4 B5 B6]. split.
  - rewrite B1, A1, insert_insert_eq. done.
  - congruence.
  - congruence.
  - intros e. by rewrite B4.
  - by etrans.
  - simpl in B6. destruct B6 as [->|?], A6 as [->|?]; [by left|by right|by right|right; lia].
Qed.

(** One event, the front one, is finished. *)
Lemma events_reaped_finish q object e event s s' status :
  runtime_wf s -> rt_queues s !! q = Some object -> e ∈ lq_pending_events object ->
  rt_events s !! e = Some event -> event_finished e event q s s' status ->
  events_reaped q object s s' (remove_direct_kfd_pending_event e (lq_pending_events object)) /\
  (length (remove_direct_kfd_pending_event e (lq_pending_events object)) <
   length (lq_pending_events object))%nat.
Proof.
  intros Hwf Hq Hin He [_ _ (o & d & event' & w & Ho & _ & Hun & _ & _ & Hw & ->)].
  rewrite Hq in Ho. injection Ho as <-.
  destruct (remove_pending_event_spec e (lq_pending_events object) Hin) as (_ & _ & Hlen).
  { apply (qw_recorded _ _ (gw_queues _ (rw_graph _ Hwf) _ _ Hq)). }
  split; [|lia]. split; try done; [|right; lia]. intros x. simpl.
  destruct (decide (x = e)) as [->|Hne].
  - rewrite lookup_insert_eq, He. simpl. f_equal. apply Hun.
  - by rewrite lookup_insert_ne.
Qed.

Lemma reap_events_loop_spec fuel q s object :
  runtime_wf s -> rt_queues s !! q = Some object ->
  (length (lq_pending_events object) <= fuel)%nat ->
  wp (reap_events_loop fuel q) (fun status s' => runtime_wf s' /\ exists l,
    events_reaped q object s s' l /\ (status = Success \/ status = RuntimeError) /\
    (status = Success -> forall e, head l = Some e ->
       observed false (rt_events s !! e ≫= ev_signal) (rt_world s))) s.
Proof.
  revert s object. induction fuel as [|fuel IH]; intros s object Hwf Hq Hf;
    cbn [reap_events_loop]; (apply wp_bind; eapply wp_dereference; [done|]);
    destruct (lq_pending_events object) as [|e rest] eqn:Hl; simpl in Hf; try lia.
  1, 2: apply wp_ret; split; [done|]; exists []; split_and!; [|by left|done];
    rewrite <-Hl; replace s with (set_rt_world (rt_world s) s) at 2 by (by destruct s);
    by apply events_reaped_world.
  assert (e ∈ lq_pending_events object) as Hin by (rewrite Hl; by left).
  destruct (proj1 (gw_recorded _ (rw_graph _ Hwf) _ _ e Hq) Hin) as (event & He & Hrec).
  destruct (ew_signal _ _ (gw_events _ (rw_graph _ Hwf) _ _ He)) as [a Ha].
  apply wp_bind. eapply wp_dereference; [done|]. apply wp_bind. eapply wp_load_acquire; [done|].
  intros x w Hw. pose proof (observed_now _ _ _ _ Hw) as Hseen. apply later_signal in Hw.
  set (s1 := set_rt_world w s). assert (Hwf1 : runtime_wf s1) by by apply runtime_wf_world.
  destruct (signal_load_acquire x =? 0) eqn:Hz; cbn [negb].
  2: { apply wp_ret. split; [done|]. exists (lq_pending_events object).
       split_and!; [by apply events_reaped_world|by left|].
       rewrite Hl. intros _ ? [= <-]. rewrite He. simpl. by rewrite Ha. }
  apply wp_bind. eapply wp_mono; [by apply (finish_event_spec e event q s1)|].
  intros status s2 [Hwf2 [Hfin|(-> & _ & w2 & Hw2 & ->)]].
  2: { apply wp_ret. split; [done|]. exists (lq_pending_events object).
       split_and!; [|by right|done]. unfold s1. simpl. apply (events_reaped_world q object s); [done|by etrans]. }
  destruct (events_reaped_finish q object e event s1 s2 status) as [Hr Hlt]; try done.
  set (l1 := remove_direct_kfd_pending_event e _) in *.
  assert (Hr1 : events_reaped q object s s2 l1).
  { eapply events_reaped_trans; [by apply (events_reaped_world q object s w)|].
    by replace (set_lq_pending_events (lq_pending_events object) object) with object by by destruct object. }
  destruct (ef_status _ _ _ _ _ _ Hfin) as [->|[-> _]].
  2: { apply wp_ret. split; [done|]. exists l1. split_and!; [done|by right|done]. }
  cbn [negb succeeded bool_decide]. eapply wp_mono.
  { apply (IH s2 (set_lq_pending_events l1 object) Hwf2).
    - by rewrite (er_queues _ _ _ _ _ Hr1), lookup_insert_eq.
    - simpl. rewrite Hl in Hlt. simpl in Hlt. lia. }
  intros status s3 (Hwf3 & l & Hr3 & Hst & Hfront). split; [done|]. exists l.
  split_and!; [by eapply events_reaped_trans|done|]. intros Hs y Hy. specialize (Hfront Hs y Hy).
  eapply observed_later in Hfront; [|apply (er_world _ _ _ _ _ Hr1)].
  pose proof (er_signals _ _ _ _ _ Hr1 y) as Hsig.
  destruct (rt_events s2 !! y), (rt_events s !! y); simpl in *; try done.
  apply (inj Some) in Hsig. by rewrite <-Hsig.
Qed.

Lemma reap_events_spec q s object :
  runtime_wf s -> rt_queues s !! q = Some object ->
  wp (reap_completed_direct_kfd_events_locked q) (fun status s' => runtime_wf s' /\ exists l,
    events_reaped q object s s' l /\ (status = Success \/ status = RuntimeError) /\
    (status = Success -> forall e, head l = Some e ->
       observed false (rt_events s !! e ≫= ev_signal) (rt_world s))) s.
Proof.
  intros Hwf Hq. unfold reap_completed_direct_kfd_events_locked. apply wp_bind.
  eapply wp_dereference; [done|]. by apply reap_events_loop_spec.
Qed.
End events.
