(* ===== verification/DirectLaunchFacts.v ===== *)
(** * Submissions are all or nothing

    A dispatch enters the queue with its barriers and the references they
    hold, or a failed submission takes every one of these back. *)

From stdpp Require Import gmap relations.
From S2P Require Import Prelude Memory CodeObject Topology AqlPacket AqlQueue AqlProducer KfdProducer Signal KfdKernel MemoryState RuntimeState DirectQueue DirectLaunch RuntimeFacts DirectQueueFacts DirectEventFacts.

Import LrStatus.

(** ** Groups of five *)

Lemma barrier_groups_join fuel events :
  (length events <= fuel)%nat -> mjoin (barrier_groups fuel events) = events.
Proof.
  revert events. induction fuel as [|fuel IH]; intros events Hf.
  { destruct events; [done|simpl in Hf; lia]. }
  destruct events as [|e events]; [done|]. cbn [barrier_groups]. change (mjoin (?x :: ?l)) with (x ++ mjoin l). rewrite IH.
  - apply take_drop.
  - rewrite length_drop. simpl in *. lia.
Qed.

Lemma dependency_groups_join events : mjoin (dependency_groups events) = events.
Proof. by apply barrier_groups_join. Qed.

(** The number of barrier packets that was reserved. *)
Lemma length_barrier_groups fuel events :
  (length events <= fuel)%nat ->
  length (barrier_groups fuel events) = ((length events + 4) / 5)%nat.
Proof.
  revert events. induction fuel as [|fuel IH]; intros events Hf.
  { destruct events; [done|simpl in Hf; lia]. }
  destruct events as [|e events]; [done|]. cbn [barrier_groups].
  set (l := e :: events) in *. cbn [length]. rewrite IH, length_drop by (rewrite length_drop; simpl in *; lia).
  assert (1 <= length l)%nat by (simpl; lia).
  destruct (decide (length l < 5)%nat).
  - replace (length l - 5)%nat with O by lia. simpl (0 + 4)%nat. change (4 / 5)%nat with O.
    apply (Nat.div_unique _ 5 1 (length l - 1)); lia.
  - replace (length l + 4)%nat with (1 * 5 + (length l - 5 + 4))%nat by lia.
    rewrite Nat.div_add_l by lia. done.
Qed.

Lemma length_dependency_groups events :
  length (dependency_groups events) = ((length events + 4) / 5)%nat.
Proof. by apply length_barrier_groups. Qed.

(** The memory of a queue holds what was stored to it, and what the device does
    to it is the script of its context ([KfdProducer]). *)
Class QueueMemory (W : Type) `{!Transport W} := {
  qm_stored queue memory w : t_queue_memory queue (t_set_queue_memory queue memory w) = memory;
  qm_quiet queue w w' : quiet_step w w' -> t_queue_memory queue w' = t_queue_memory queue w
}.

Section facts.
Context {W : Type} `{!Transport W, !Threads W, !QueueMemory W}.
Abbreviation M := (kfd (runtime W)).
Abbreviation later := (rtc quiet_step).
Implicit Type s : runtime W.

(** ** Registration *)

Lemma wp_register_dependencies events held q s :
  counted held s -> (forall e, e ∈ events -> is_Some (rt_events s !! e)) ->
  countable events (rt_events s) ->
  wp (register_dependencies events q) (fun _ s' =>
    exists events', s' = set_rt_events events' s /\ same_events (rt_events s) events' /\
      counted (more held q events) s' /\ counts_grow events (rt_events s) events') s.
Proof.
  revert held s. induction events as [|e events IH]; intros held s Hc Hlive Hroom.
  { apply wp_ret. exists (rt_events s). split_and!; [by destruct s|done| |].
    - eapply counted_ext; [|done]. intros p x. unfold more, occurrences. simpl.
      destruct (decide _); lia.
    - intros x event He. exists event. split; [done|]. unfold occurrences. simpl. lia. }
  cbn [register_dependencies]. apply wp_bind. change (e :: events) with ([e] ++ events) in Hroom.
  eapply wp_mono; [apply (wp_retain_dependency held q e s Hc)|].
  - apply Hlive. by left.
  - intros event He. specialize (Hroom _ _ He). rewrite occurrences_app, occurrences_cons in Hroom.
    rewrite decide_True in Hroom by done. lia.
  - intros _ s1 (events1 & -> & Hs1 & Hc1 & Hg1).
    eapply wp_mono; [apply (IH _ _ Hc1)|].
    + intros x Hx. simpl. apply (same_events_some _ _ _ Hs1), Hlive. by right.
    + by eapply countable_grow.
    + intros _ s2 (events2 & -> & Hs2 & Hc2 & Hg2). exists events2.
      split_and!; [done|by etrans| |by apply (counts_grow_trans [e] events _ events1)].
      eapply counted_ext; [|exact Hc2]. intros p x. unfold more.
      rewrite !occurrences_cons. destruct (decide (p = q)); [|done]. unfold occurrences at 1. simpl. lia.
Qed.

Lemma graph_wf_push_barrier q object b s :
  graph_wf s -> rt_queues s !! q = Some object -> bar_retirement_dispatch b ∈ in_flight object ->
  (forall e, e ∈ bar_dependencies b -> is_Some (rt_events s !! e)) ->
  graph_wf (set_rt_queues
    (<[q := set_lq_pending_barriers (lq_pending_barriers object ++ [b]) object]> (rt_queues s)) s).
Proof.
  intros Hg Hq Hret Hlive. eapply graph_wf_queue; [done|done| |by left|done].
  destruct (gw_queues _ Hg _ _ Hq) as [H1 H2 H3 H4 H5 H6 H7 H8 H9 H10]. split; try done; simpl.
  - intros x [Hx| ->%list_elem_of_singleton]%elem_of_app; [by apply H7|done].
  - intros e. unfold references. simpl. rewrite fmap_app, join_app, elem_of_app.
    intros [He|He]; [by apply H8|]. csimpl in He. rewrite app_nil_r in He. auto.
Qed.

Lemma wp_push_barriers groups q d s object :
  runtime_wf s -> rt_queues s !! q = Some object -> d ∈ in_flight object ->
  (forall e, e ∈ mjoin groups -> is_Some (rt_events s !! e)) ->
  countable (mjoin groups) (rt_events s) ->
  wp (push_barriers groups q d) (fun _ s' => runtime_wf s' /\ exists events,
    same_events (rt_events s) events /\
    s' = with_barriers q object (lq_pending_barriers object ++ (mkBarrier d <$> groups)) events
           (rt_world s) s) s.
Proof.
  revert s object. induction groups as [|deps groups IH]; intros s object Hwf Hq Hd Hlive Hroom.
  { apply wp_ret. split; [done|]. exists (rt_events s). split; [done|]. csimpl.
    by rewrite app_nil_r, with_barriers_id. }
  change (mjoin (deps :: groups)) with (deps ++ mjoin groups) in Hlive, Hroom. destruct Hwf as [Hg Hc]. cbn [push_barriers]. apply wp_bind.
  eapply wp_mono; [apply (wp_register_dependencies deps _ q s Hc)|].
  - intros e He. apply Hlive, elem_of_app. by left.
  - intros e event He. specialize (Hroom _ _ He). rewrite occurrences_app in Hroom. lia.
  - intros _ s1 (events1 & -> & Hs1 & Hc1 & Hg1). apply wp_bind. eapply wp_update_queue; [done|].
    set (object1 := set_lq_pending_barriers (lq_pending_barriers object ++ [mkBarrier d deps]) object).
    change (set_rt_queues _ _) with
      (with_barriers q object (lq_pending_barriers object ++ [mkBarrier d deps]) events1 (rt_world s) s).
    set (s2 := with_barriers _ _ _ _ _ _).
    assert (Hwf2 : runtime_wf s2).
    { split.
      - eapply (graph_wf_push_barrier q object (mkBarrier d deps) (set_rt_events events1 s));
          [by apply graph_wf_events|done|done|].
        intros e He. simpl. apply (same_events_some _ _ _ Hs1), Hlive, elem_of_app. by left.
      - intros e event He. eapply dependency_wf_ext; [|by apply Hc1]. intros p.
        erewrite holds_barriers by reflexivity. unfold more.
        destruct (decide (p = q)) as [->|]; [|done]. unfold holds. rewrite Hq. unfold references.
        rewrite fmap_app, join_app, occurrences_app. csimpl. by rewrite app_nil_r. }
    assert (Hq2 : rt_queues s2 !! q = Some object1) by apply lookup_insert_eq.
    eapply wp_mono; [apply (IH s2 object1 Hwf2 Hq2 Hd)|].
    + intros e He. simpl. apply (same_events_some _ _ _ Hs1), Hlive, elem_of_app. by right.
    + by eapply countable_grow.
    + intros _ s3 (Hwf3 & events3 & Hs3 & ->). split; [done|]. exists events3. split; [by etrans|].
      unfold s2, object1. rewrite with_barriers_twice. simpl. by rewrite <-app_assoc.
Qed.

Lemma removelast_snoc {A} (l : list A) x : removelast (l ++ [x]) = l.
Proof. rewrite removelast_app by done. apply app_nil_r. Qed.

Lemma wp_pop_barriers bs q kept s object :
  runtime_wf s -> rt_queues s !! q = Some object -> lq_pending_barriers object = kept ++ bs ->
  wp (pop_barriers (length bs) q) (fun _ s' => runtime_wf s' /\ exists events,
    same_events (rt_events s) events /\ s' = with_barriers q object kept events (rt_world s) s) s.
Proof.
  revert s object. induction bs as [|b bs IH] using rev_ind; intros s object Hwf Hq Hbs.
  { apply wp_ret. split; [done|]. exists (rt_events s). split; [done|].
    rewrite app_nil_r in Hbs. by rewrite <-Hbs, with_barriers_id. }
  rewrite length_app, Nat.add_comm. cbn [pop_barriers length Nat.add]. apply wp_bind.
  eapply wp_dereference; [done|]. rewrite app_assoc in Hbs. rewrite Hbs, last_snoc.
  apply wp_bind_assoc, wp_bind. eapply wp_mono.
  { apply (wp_retire_barrier q object b (kept ++ bs) (@removelast _)); [done|done| |].
    - by rewrite Hbs, Permutation_app_comm.
    - by rewrite Hbs, removelast_snoc. }
  intros _ s1 (Hwf1 & events1 & Hs1 & ->).
  eapply wp_mono; [apply (IH _ (set_lq_pending_barriers (kept ++ bs) object) Hwf1)|].
  - unfold with_barriers. simpl. apply lookup_insert_eq.
  - done.
  - intros _ s2 (Hwf2 & events2 & Hs2 & ->). split; [done|]. exists events2.
    split; [by etrans|]. by rewrite with_barriers_twice.
Qed.

(** ** A dispatch outside the queues *)

Record loose s (d : dispatch_ptr) (event : option event_ptr) : Prop := {
  lo_dispatch : exists dispatch, rt_dispatches s !! d = Some dispatch /\
    is_Some (pd_completion_signal dispatch) /\ pd_completion_event dispatch = event;
  lo_free q object : rt_queues s !! q = Some object -> d ∉ owned object
}.

(** Changing a queue but not what its barriers refer to. *)
Lemma runtime_wf_queue q object object' s :
  runtime_wf s -> rt_queues s !! q = Some object -> queue_wf s object' ->
  (forall d, d ∈ owned object' -> d ∈ owned object \/
     forall p other, p <> q -> rt_queues s !! p = Some other -> d ∉ owned other) ->
  lq_pending_events object' = lq_pending_events object ->
  references object' = references object ->
  runtime_wf (set_rt_queues (<[q := object']> (rt_queues s)) s).
Proof.
  intros [Hg Hc] Hq Hwf Hown Hev Href. split; [by eapply graph_wf_queue|].
  intros e event He. eapply dependency_wf_ext; [|by apply Hc]. intros p. unfold holds. simpl.
  destruct (decide (p = q)) as [->|].
  - by rewrite lookup_insert_eq, Hq, Href.
  - by rewrite lookup_insert_ne.
Qed.

Definition enqueued (d : dispatch_ptr) (object : lr_queue_t) : lr_queue_t :=
  set_lq_pending_dispatches (lq_pending_dispatches object ++ [Some d]) object.

Lemma enqueued_flight s d object :
  queue_wf s object ->
  in_flight (enqueued d object) = in_flight object ++ [d] /\
  drop (lq_pending_dispatch_head object) (lq_pending_dispatches object ++ [Some d]) =
    Some <$> (in_flight object ++ [d]).
Proof.
  intros Hwf. assert (drop (lq_pending_dispatch_head object) (lq_pending_dispatches object ++ [Some d]) =
    Some <$> (in_flight object ++ [d])) as H.
  { rewrite drop_app_le by apply Hwf. by rewrite (qw_flight _ _ Hwf), fmap_app. }
  split; [|done]. unfold in_flight at 1. simpl. by rewrite H, omap_fmap_Some.
Qed.

Lemma runtime_wf_enqueued q object d event s :
  runtime_wf s -> rt_queues s !! q = Some object -> loose s d event ->
  (forall e, event = Some e -> is_Some (rt_events s !! e)) ->
  runtime_wf (set_rt_queues (<[q := enqueued d object]> (rt_queues s)) s).
Proof.
  intros Hwf Hq [(dispatch & Hd & Hs & Hev) Hfree] Hlive.
  pose proof (gw_queues _ (rw_graph _ Hwf) _ _ Hq) as Hqw.
  destruct (enqueued_flight _ d _ Hqw) as [Hfl Hdr].
  assert (Hown : owned (enqueued d object) ≡ₚ d :: owned object).
  { unfold owned. rewrite Hfl, <-app_assoc. symmetry. apply Permutation_middle. }
  eapply runtime_wf_queue; [done|done| | |done|done].
  - destruct Hqw as [H1 H2 H3 H4 H5 H6 H7 H8 H9 H10]. split; try done.
    + simpl. rewrite length_app. simpl. lia.
    + by rewrite Hfl.
    + rewrite Hown. constructor; [by eapply Hfree|done].
    + intros x. rewrite Hown, elem_of_cons. intros [->|Hx]; [eauto|by apply H4].
    + intros x y e. rewrite Hfl, elem_of_app, list_elem_of_singleton. intros [Hx| ->]; [by apply H5|].
      rewrite Hd. intros [= <-] He. apply Hlive. congruence.
    + intros b Hb. rewrite Hfl. apply elem_of_app. left. by apply H7.
  - intros x. rewrite Hown, elem_of_cons. intros [->|Hx]; [right|by left]. intros p other _. apply Hfree.
Qed.

Definition returned (d : dispatch_ptr) (object : lr_queue_t) : lr_queue_t :=
  set_lq_available_dispatches (lq_available_dispatches object ++ [d]) object.

(** The last dispatch leaves the queue again for the pool. *)
Lemma runtime_wf_returned q object d s :
  runtime_wf s -> rt_queues s !! q = Some (enqueued d object) ->
  (lq_pending_dispatch_head object <= length (lq_pending_dispatches object))%nat ->
  (forall b, b ∈ lq_pending_barriers object -> bar_retirement_dispatch b ∈ in_flight object) ->
  (forall dispatch, rt_dispatches s !! d = Some dispatch -> pd_completion_event dispatch = None) ->
  runtime_wf (set_rt_queues (<[q := returned d object]> (rt_queues s)) s).
Proof.
  intros Hwf Hq Hhead Hb Hev. pose proof (gw_queues _ (rw_graph _ Hwf) _ _ Hq) as Hqw.
  pose proof (qw_flight _ _ Hqw) as Hfl. simpl in Hfl. rewrite drop_app_le in Hfl by done.
  assert (in_flight (enqueued d object) = in_flight object ++ [d]) as Hin.
  { unfold in_flight at 1. simpl. rewrite drop_app_le by done. by rewrite omap_app. }
  rewrite Hin, fmap_app in Hfl. apply app_inj_2 in Hfl as [Hfl _]; [|done].
  assert (Hown : owned (returned d object) ≡ₚ owned (enqueued d object)).
  { unfold owned. rewrite Hin. simpl. change (in_flight (returned d object)) with (in_flight object).
    rewrite <-app_assoc. f_equiv. apply Permutation_app_comm. }
  eapply runtime_wf_queue; [done|done| |by intros x; rewrite Hown; left|done|done].
  destruct Hqw as [H1 H2 H3 H4 H5 H6 H7 H8 H9 H10]. split; try done.
  - by rewrite Hown.
  - intros x. rewrite Hown. apply H4.
  - intros x y e Hx. apply H5. rewrite Hin. apply elem_of_app. by left.
  - intros x y. simpl. rewrite elem_of_app, list_elem_of_singleton. intros [Hx| ->]; [by apply H6|auto].
Qed.

(** ** The ring *)

(** The ring of a queue holds the packets [packets], in order. *)
Definition ring_holds (queue : AqlQueue) (packets : list bytes) (w : W) : Prop :=
  is_u64 (packet_count queue) /\ forall validate,
    po_packet_count (light_rocr_kfd_producer_ops queue validate) = packet_count queue /\
    queue_refines (light_rocr_kfd_producer_ops queue validate)
      (t_queue_memory queue w).1 (t_queue_memory queue w).2 packets.

Definition ring_read (queue : AqlQueue) (w : W) : Z :=
  aq_read_dispatch_id (kc_control (t_queue_memory queue w).1).

(** The ids between the two indices: what the device has not taken. *)
Definition ring_used (queue : AqlQueue) (w : W) : Z :=
  aq_write_dispatch_id (kc_control (t_queue_memory queue w).1) - ring_read queue w.

Lemma refines_validate queue validate validate' context ring packets :
  queue_refines (light_rocr_kfd_producer_ops queue validate) context ring packets ->
  queue_refines (light_rocr_kfd_producer_ops queue validate') context ring packets.
Proof. intros [H1 H2 H3 H4 H5]. by split. Qed.

Lemma wp_on_queue_memory {A} queue
    (f : kfd_context -> bytes -> result Empty_set (A * kfd_context * bytes))
    (P : A * kfd_context * bytes -> Prop) (Q : A -> runtime W -> Prop) s :
  safe (f (t_queue_memory queue (rt_world s)).1 (t_queue_memory queue (rt_world s)).2) P ->
  (forall a context ring, P (a, context, ring) ->
     Q a (set_rt_world (t_set_queue_memory queue (context, ring) (rt_world s)) s)) ->
  wp (on_queue_memory queue f) Q s.
Proof.
  intros Hf HQ. unfold wp, on_queue_memory. destruct (t_queue_memory queue (rt_world s)) as [context ring].
  simpl in Hf. destruct (f context ring) as [[[a context'] ring']|[]|fault]; [|done]. by apply HQ.
Qed.

(** The packets that were accepted follow those the device has left. *)
Definition packets_added (queue : AqlQueue) (before added : list bytes) (w w' : W) : Prop :=
  ring_read queue w <= ring_read queue w' /\
  ring_holds queue (drop (Z.to_nat (ring_read queue w' - ring_read queue w)) (before ++ added)) w'.

Lemma ring_holds_after queue validate context ring packets w :
  is_u64 (packet_count queue) ->
  po_packet_count (light_rocr_kfd_producer_ops queue validate) = packet_count queue ->
  queue_refines (light_rocr_kfd_producer_ops queue validate) context ring packets ->
  ring_holds queue packets (t_set_queue_memory queue (context, ring) w).
Proof.
  intros Hu Hc Hr. split; [done|]. intros validate'. rewrite qm_stored. split; [done|].
  by eapply refines_validate.
Qed.

(** The submission of a dispatch with its barriers, in a ring with room for
    all of them. *)
Lemma submission_safe queue validate barriers parameters ordering packets w :
  ring_holds queue packets w ->
  ring_used queue w + Z.of_nat (length barriers) + 1 <= packet_count queue ->
  let producer := light_rocr_kfd_producer_ops queue validate in
  let packet := build_aql_kernel_dispatch_packet parameters ordering in
  safe (if bool_decide (length barriers = O)
        then submit_aql_kernel_dispatch producer parameters ordering true
               (t_queue_memory queue w).1 (t_queue_memory queue w).2
        else submit_aql_barriers_and_kernel_dispatch producer (Some barriers)
               (Z.of_nat (length barriers)) parameters ordering
               (t_queue_memory queue w).1 (t_queue_memory queue w).2)
    (fun '(r, context, ring) => forall w', sr_error r = SubmitNone ->
       packets_added queue packets (barrier_packets barriers ++ [dispatch_bytes packet]) w
         (t_set_queue_memory queue (context, ring) w')).
Proof.
  intros [Hu Hh] Hroom. cbv zeta. destruct (Hh validate) as [Hc Href].
  unfold ring_used, ring_read in Hroom.
  assert (Hdone : forall accepted added outcome,
    submitted (light_rocr_kfd_producer_ops queue validate) accepted (t_queue_memory queue w).1
      (t_queue_memory queue w).2 packets added outcome ->
    let '(r, context, ring) := outcome in forall w', sr_error r = SubmitNone ->
      packets_added queue packets added w (t_set_queue_memory queue (context, ring) w')).
  { intros accepted added [[r context] ring] [Hle Hs] w' Hr. rewrite Hr in Hs.
    destruct Hs as (_ & _ & _ & _ & _ & Href'). unfold packets_added, ring_read. rewrite qm_stored.
    split; [done|]. by eapply ring_holds_after. }
  rewrite <-Hc in Hu. destruct (bool_decide _) eqn:Hb.
  - apply bool_decide_eq_true, nil_length_inv in Hb as ->.
    eapply safe_mono; [apply (submit_dispatch_safe _ Hu)|]; [done| |].
    + intros _. rewrite Hc. simpl in *. lia.
    + apply Hdone.
  - apply bool_decide_eq_false in Hb. destruct (qr_inv _ _ _ _ Href) as (_ & _ & Hb1 & Hb2).
    eapply safe_mono; [apply (submit_barriers_dispatch_safe _ Hu); [done|lia]|]. apply Hdone.
Qed.

(** ** Taking back a recorded event *)

(** The event [e] is the last one recorded on the queue and on the device. *)
Record recorded_last (device : Z) q object e event state s : Prop := {
  rl_event : rt_events s !! e = Some event;
  rl_queue : ev_recorded_queue event = Some q;
  rl_device : ev_device event = device;
  rl_state : g_devices s !! Z.to_nat device = Some state;
  rl_queue_last : last (lq_pending_events object) = Some e;
  rl_device_last : last (ds_pending_events state) = Some e
}.

Lemma last_removelast {A} (l : list A) x : last l = Some x -> l = removelast l ++ [x].
Proof.
  destruct l as [|y l _] using rev_ind; [done|]. rewrite last_snoc, removelast_snoc. by intros [= ->].
Qed.

Lemma relisted_removelast e l :
  last l = Some e -> NoDup l -> relisted e false l (removelast l).
Proof.
  intros Hl Hnd. apply last_removelast in Hl. rewrite Hl in Hnd.
  apply NoDup_app in Hnd as (Hnd & Hno & _). split; [done|]. intros x. rewrite Hl at 2.
  rewrite elem_of_app, list_elem_of_singleton. split; [|naive_solver].
  intros Hx. right. split; [|by left]. intros ->. eapply Hno; [done|by left].
Qed.

Lemma wp_unrecord_event device q object e event state backup s :
  runtime_wf s -> rt_queues s !! q = Some object -> recorded_last device q object e event state s ->
  wp (unrecord_event device q e backup) (fun _ s' => runtime_wf s' /\ exists event' w,
    rerecorded event event' None /\ back_up event' = backup /\
    s' = set_rt_world w (with_event e event' q (removelast (lq_pending_events object)) object
           (Z.to_nat device) (removelast (ds_pending_events state)) state s)) s.
Proof.
  intros Hwf Hq [He Hrec Hdev Hst Hlq Hld]. pose proof (rw_graph _ Hwf) as Hg.
  destruct (gw_events _ Hg _ _ He) as [[a Ha] Hd _ _]. unfold unrecord_event.
  apply wp_bind. eapply wp_update_device; [done|lia|].
  apply wp_bind. eapply wp_update_queue; [done|]. apply wp_bind. eapply wp_update_event; [done|].
  apply wp_bind. eapply wp_dereference; [simpl; apply lookup_insert_eq|].
  apply wp_bind. simpl. rewrite Ha. apply wp_ret, wp_below_.
  match goal with |- context [<[e := ?x]> _] => set (event' := x) end.
  assert (rerecorded event event' None) as Hre by (by destruct event).
  assert (back_up event' = backup) as Hbk by (by destruct event, backup).
  set (s' := set_rt_world _ _).
  assert (s' = set_rt_world (rt_world s') (with_event e event' q (removelast (lq_pending_events object))
    object (Z.to_nat device) (removelast (ds_pending_events state)) state s)) as Hs' by done.
  split; [|by exists event', (rt_world s')]. rewrite Hs'.
  apply runtime_wf_world. eapply runtime_wf_with_event; try done; [lia|by right|by left| |].
  - apply relisted_removelast; [done|]. apply (qw_recorded _ _ (gw_queues _ Hg _ _ Hq)).
  - apply relisted_removelast; [done|]. by eapply (gw_device_events _ Hg).
Qed.

(** ** [publish_dispatch] *)

Record publishable device q object d groups (recorded : option (event_ptr * event_backup)) s : Prop := {
  pu_wf : runtime_wf s;
  pu_queue : rt_queues s !! q = Some object;
  pu_loose : loose s d (fst <$> recorded);
  pu_live e : e ∈ mjoin groups -> is_Some (rt_events s !! e);
  pu_room : countable (mjoin groups) (rt_events s);
  pu_recorded e backup : recorded = Some (e, backup) ->
    exists event state, recorded_last device q object e event state s
}.

Definition submitted_queue (d : dispatch_ptr) (groups : list (list event_ptr)) (object : lr_queue_t)
  : lr_queue_t :=
  set_lq_pending_barriers (lq_pending_barriers object ++ (mkBarrier d <$> groups)) (enqueued d object).

Definition refused_queue (d : dispatch_ptr) (recorded : option (event_ptr * event_backup))
    (object : lr_queue_t) : lr_queue_t :=
  returned d (match recorded with
    | Some _ => set_lq_pending_events (removelast (lq_pending_events object)) object
    | None => object
    end).

(** The way back: the barriers, then the dispatch. *)
Lemma wp_withdraw {A} q d groups object (k : M A) (Q : A -> runtime W -> Prop) s :
  runtime_wf s -> rt_queues s !! q = Some (submitted_queue d groups object) ->
  (lq_pending_dispatch_head object <= length (lq_pending_dispatches object))%nat ->
  (forall b, b ∈ lq_pending_barriers object -> bar_retirement_dispatch b ∈ in_flight object) ->
  (forall dispatch, rt_dispatches s !! d = Some dispatch -> pd_completion_event dispatch = None) ->
  (forall s', runtime_wf s' -> rt_queues s' = <[q := returned d object]> (rt_queues s) ->
     same_events (rt_events s) (rt_events s') -> rt_dispatches s' = rt_dispatches s -> wp k Q s') ->
  wp (pop_barriers (length groups) q ;;
      update_queue q (fun object =>
        set_lq_pending_dispatches (removelast (lq_pending_dispatches object)) object) ;;
      return_dispatch q d ;; k) Q s.
Proof.
  intros Hwf Hq Hhead Hb Hev Hk. apply wp_bind.
  eapply wp_mono.
  { rewrite <-(length_fmap (mkBarrier d)). by apply (wp_pop_barriers (mkBarrier d <$> groups) q
      (lq_pending_barriers object) s (submitted_queue d groups object)). }
  intros _ s1 (Hwf1 & events & Hs & ->).
  set (s1 := with_barriers _ _ _ _ _ _) in *.
  assert (Hq1 : rt_queues s1 !! q = Some (enqueued d object)).
  { unfold s1, with_barriers. simpl. by rewrite lookup_insert_eq. }
  apply wp_bind. eapply wp_update_queue; [exact Hq1|].
  apply wp_bind. unfold return_dispatch. eapply wp_update_queue; [simpl; apply lookup_insert_eq|].
  match goal with |- wp _ _ ?x => set (s2 := x) end.
  assert (s2 = set_rt_queues (<[q := returned d object]> (rt_queues s1)) s1) as ->.
  { unfold s2. cbn. rewrite !insert_insert_eq, removelast_snoc. by destruct object. }
  apply Hk; [by apply runtime_wf_returned| |done|done].
  unfold s1, with_barriers. simpl. by rewrite insert_insert_eq.
Qed.

(** The signal in the packet: that of the completion event, or its own. *)
Lemma wp_active_signal s dispatch :
  (forall e, pd_completion_event dispatch = Some e -> is_Some (rt_events s !! e)) ->
  wp (active_completion_signal dispatch) (fun signal s' => s' = s /\
    signal = match pd_completion_event dispatch with
             | Some e => rt_events s !! e ≫= ev_signal
             | None => pd_completion_signal dispatch
             end) s.
Proof.
  intros Hlive. unfold active_completion_signal. destruct (pd_completion_event dispatch) as [e|].
  - destruct (Hlive e eq_refl) as [event He]. apply wp_bind. eapply wp_dereference; [done|].
    apply wp_ret. by rewrite He.
  - by apply wp_ret.
Qed.

Lemma recorded_some device q object d groups recorded s e :
  publishable device q object d groups recorded s -> fst <$> recorded = Some e ->
  exists backup, recorded = Some (e, backup) /\ is_Some (rt_events s !! e).
Proof.
  intros Hpu. destruct recorded as [[x backup]|] eqn:E; [|done]. intros [= ->]. exists backup.
  split; [done|]. destruct (pu_recorded _ _ _ _ _ _ _ Hpu e backup eq_refl) as (event & state & Hr).
  rewrite (rl_event _ _ _ _ _ _ _ Hr). eauto.
Qed.

(** The state after a refused submission: the dispatch is in the pool, and its
    event, if it has one, is as [backup] remembers it. *)
Record refused q object d (recorded : option (event_ptr * event_backup)) s s' : Prop := {
  rf_queues : rt_queues s' = <[q := refused_queue d recorded object]> (rt_queues s);
  rf_dispatches : detached (if recorded then [d] else []) (rt_dispatches s) (rt_dispatches s');
  rf_events : recorded = None -> same_events (rt_events s) (rt_events s');
  rf_recorded e backup : recorded = Some (e, backup) -> exists event',
    rt_events s' !! e = Some event' /\ ev_pending event' = false /\
    ev_recorded_queue event' = None /\ back_up event' = backup /\
    same_events (delete e (rt_events s)) (delete e (rt_events s'))
}.

Section publish.
Context (device : Z) (q : queue_ptr) (object : lr_queue_t) (d : dispatch_ptr).
Context (groups : list (list event_ptr)) (recorded : option (event_ptr * event_backup)).
Context (s : runtime W) (Hpu : publishable device q object d groups recorded s).

(** A refused submission is taken back. *)
Lemma wp_refused error s2 events w :
  error <> SubmitNone -> runtime_wf s2 ->
  s2 = with_barriers q (enqueued d object) (lq_pending_barriers object ++ (mkBarrier d <$> groups))
         events w (set_rt_queues (<[q := enqueued d object]> (rt_queues s)) s) ->
  same_events (rt_events s) events ->
  wp (match recorded with
      | Some (event, backup) =>
          update_dispatch d (set_pd_completion_event None) ;; unrecord_event device q event backup
      | None => mret tt
      end ;;
      pop_barriers (length groups) q ;;
      update_queue q (fun object =>
        set_lq_pending_dispatches (removelast (lq_pending_dispatches object)) object) ;;
      return_dispatch q d ;;
      mret (aql_submit_status error))
    (fun status s' => runtime_wf s' /\ status = aql_submit_status error /\ refused q object d recorded s s') s2.
Proof.
  intros Herr Hwf2 -> Hs. destruct Hpu as [Hwf Hq [(dispatch & Hd & _ & Hev) _] _ _ Hrec].
  pose proof (gw_queues _ (rw_graph _ Hwf) _ _ Hq) as Hqw.
  destruct recorded as [[e backup]|].
  - destruct (Hrec e backup eq_refl) as (event & state & Hr). pose proof Hr as [He Hrq Hdev Hst Hlq Hld].
    destruct (same_events_lookup _ _ _ _ Hs He) as (event2 & He2 & Estrip).
    destruct (strip_fields _ _ Estrip) as (E1 & E2 & E3 & E4).
    apply wp_bind, wp_bind. eapply wp_update_dispatch; [done|].
    set (ds := <[d := _]> _). set (s3 := set_rt_dispatches ds _).
    assert (Hdet : detached [d] (rt_dispatches s) ds) by (by eapply detached_cons, detached_nil).
    assert (Hwf3 : runtime_wf s3).
    { split; [|by apply Hwf2]. by eapply (graph_wf_detached [d]); [apply Hwf2|]. }
    assert (Hq3 : rt_queues s3 !! q = Some (submitted_queue d groups object)) by apply lookup_insert_eq.
    eapply wp_mono.
    { eapply (wp_unrecord_event device q _ e event2 state backup s3 Hwf3 Hq3). split; try done; congruence. }
    intros _ s4 (Hwf4 & event' & w' & Hre & Hbk & ->).
    eapply (wp_withdraw q d groups (set_lq_pending_events (removelast (lq_pending_events object)) object));
      [done|by apply lookup_insert_eq|apply Hqw|apply Hqw| |].
    { simpl. intros x. rewrite Hdet, decide_True by by left. destruct (rt_dispatches s !! d); [|done].
      by intros [= <-]. }
    intros s5 Hwf5 Hq5 Hs5 Hd5. apply wp_ret. simpl in Hq5, Hs5, Hd5. split_and!; try done. split; try done.
    + rewrite Hq5. unfold s3. simpl. by rewrite !insert_insert_eq.
    + by rewrite Hd5.
    + intros x y [= <- <-]. destruct (same_events_lookup _ _ e _ Hs5 (lookup_insert_eq _ _ _))
        as (event5 & He5 & Estrip5). destruct (strip_fields _ _ Estrip5) as (F1 & F2 & F3 & F4).
      exists event5. split_and!; try done.
      * by rewrite <-F3, (re_pending _ _ _ Hre).
      * by rewrite <-F4, (re_queue _ _ _ Hre).
      * rewrite <-Hbk. clear -Estrip5. destruct event', event5. cbn in *. by simplify_eq.
      * unfold same_events in *. rewrite !fmap_delete, <-Hs5, fmap_insert, delete_insert_eq.
        by rewrite Hs.
  - apply wp_bind, wp_ret.
    eapply (wp_withdraw q d groups object); [done|by apply lookup_insert_eq|apply Hqw|apply Hqw| |].
    { simpl. intros x. rewrite Hd. by intros [= <-]. }
    intros s5 Hwf5 Hq5 Hs5 Hd5. apply wp_ret. simpl in Hq5, Hs5, Hd5. split_and!; try done. split; try done.
    + rewrite Hq5. simpl. by rewrite !insert_insert_eq.
    + rewrite Hd5. apply detached_nil.
    + intros _. by etrans.
Qed.

(** The packet of the dispatch, with the completion signal it will have. *)
Definition dispatch_packet (dispatch_parameters : Z -> AqlKernelDispatchParameters) : AqlKernelDispatchPacket :=
  build_aql_kernel_dispatch_packet (dispatch_parameters (gpu_handle (signal_of s d)))
    (mkDispatchOrdering (Z.of_nat (length (in_flight object))) (negb (bool_decide (length groups = O)))).

Lemma publish_dispatch_spec barriers dispatch_parameters packets :
  length barriers = length groups -> ring_holds (lq_queue object) packets (rt_world s) ->
  ring_used (lq_queue object) (rt_world s) + Z.of_nat (length groups) + 1 <=
    packet_count (lq_queue object) ->
  wp (publish_dispatch device q d groups barriers dispatch_parameters recorded) (fun status s' =>
    runtime_wf s' /\
    (status = Success /\
     rt_queues s' = <[q := submitted_queue d groups object]> (rt_queues s) /\
     rt_dispatches s' = rt_dispatches s /\ same_events (rt_events s) (rt_events s') /\
     packets_added (lq_queue object) packets
       (barrier_packets barriers ++ [dispatch_bytes (dispatch_packet dispatch_parameters)])
       (rt_world s) (rt_world s') \/
     exists error, error <> SubmitNone /\ status = aql_submit_status error /\ refused q object d recorded s s')) s.
Proof.
  intros Hlen Hring Hroom. pose proof Hpu as [Hwf Hq Hloose Hlive Hcount Hrec].
  pose proof (gw_queues _ (rw_graph _ Hwf) _ _ Hq) as Hqw.
  assert (Hev : forall e, fst <$> recorded = Some e -> is_Some (rt_events s !! e)).
  { intros e He. by destruct (recorded_some _ _ _ _ _ _ _ _ Hpu He) as (_ & _ & ?). }
  pose proof (runtime_wf_enqueued q object d _ s Hwf Hq Hloose Hev) as Hwf1.
  destruct (enqueued_flight _ d _ Hqw) as [Hfl _].
  unfold publish_dispatch. apply wp_bind. eapply wp_dereference; [done|].
  apply wp_bind. eapply wp_update_queue; [done|].
  change (set_lq_pending_dispatches _ object) with (enqueued d object).
  set (s1 := set_rt_queues _ s) in *.
  assert (Hq1 : rt_queues s1 !! q = Some (enqueued d object)) by apply lookup_insert_eq.
  apply wp_bind. eapply wp_mono.
  { apply (wp_push_barriers groups q d s1 (enqueued d object)); try done.
    rewrite Hfl. apply elem_of_app. right. by left. }
  intros _ s2 (Hwf2 & events & Hs2 & E2).
  change (lq_pending_barriers (enqueued d object)) with (lq_pending_barriers object) in E2.
  assert (Hq2 : rt_queues s2 !! q = Some (submitted_queue d groups object)).
  { rewrite E2. apply lookup_insert_eq. }
  destruct (lo_dispatch _ _ _ Hloose) as (dispatch & Hd & _ & Hpe).
  assert (Hd2 : rt_dispatches s2 !! d = Some dispatch) by by rewrite E2.
  apply wp_bind. eapply wp_dereference; [exact Hq2|].
  apply wp_bind. eapply wp_dereference; [exact Hd2|]. apply wp_bind. eapply wp_mono.
  { apply (wp_active_signal s2 dispatch). intros e He. rewrite E2. simpl.
    apply (same_events_some _ _ _ Hs2), Hev. congruence. }
  intros signal s2' (-> & Hsignal).
  assert (signal = signal_of s d) as ->.
  { rewrite Hsignal. transitivity (signal_of s2 d); [unfold signal_of; by rewrite Hd2|].
    rewrite E2. by apply (signal_of_same s). }
  apply wp_bind, wp_gets. apply wp_bind. rewrite <-Hlen. eapply wp_on_queue_memory.
  { change (lq_queue (submitted_queue d groups object)) with (lq_queue object).
    replace (rt_world s2) with (rt_world s) by by rewrite E2.
    eapply (submission_safe (lq_queue object)); [exact Hring|]. by rewrite Hlen. }
  intros r context ring Hr. rewrite Hlen in Hr |- *.
  assert (Hcount_eq : (length (lq_pending_dispatches object) - lq_pending_dispatch_head object)%nat =
    length (in_flight object)).
  { pose proof (f_equal length (qw_flight _ _ Hqw)) as H. by rewrite length_drop, length_fmap in H. }
  rewrite Hcount_eq in Hr.
  set (s3 := set_rt_world _ s2). assert (Hwf3 : runtime_wf s3) by by apply runtime_wf_world.
  destruct (sr_error r) eqn:Herr.
  { apply wp_ret. split; [done|]. left. split_and!; try done.
    - unfold s3. rewrite E2. unfold s1. simpl. by rewrite insert_insert_eq.
    - unfold s3. by rewrite E2.
    - unfold s3. rewrite E2. done.
    - by apply Hr. }
  all: assert (s3 = with_barriers q (enqueued d object)
    (lq_pending_barriers object ++ (mkBarrier d <$> groups)) events (rt_world s3) s1) as E3
    by (unfold s3; by rewrite E2).
  all: eapply wp_mono; [eapply (wp_refused _ s3 events (rt_world s3)); [|exact Hwf3|exact E3|exact Hs2]|].
  all: try done.
  all: intros status s' (Hwf' & -> & Href); split; [done|]; right; eexists; split; [|done]; done.
Qed.
End publish.
End facts.
