(* ===== verification/DirectSync.v ===== *)
(** * Synchronization drains a queue

    [DeviceLaws] is what the host may expect of the device: a signal it has
    completed stays at zero until the host stores to it, and a wait ends, with
    the signal at zero or with an error of the queue.  Under these laws
    [synchronize_direct_kfd_queue_locked] returns, and after a success nothing
    of the queue is pending. *)

From stdpp Require Import gmap relations.
From S2P Require Import Prelude Memory Topology AqlPacket AqlQueue AqlProducer KfdProducer Signal KfdKernel MemoryState RuntimeState DirectQueue DirectLaunch RuntimeFacts DirectQueueFacts DirectEventFacts DirectLaunchFacts.

Import LrStatus.

(** One round of the wait loop: the load of the signal and of the error. *)
Definition poll {W} `{!Transport W} (queue : AqlQueue) (a : Z) (w : W) : W :=
  (t_error_reason queue (t_signal a w).2).2.

Class DeviceLaws (W : Type) `{!Transport W} := {
  finished : Z -> W -> Prop;
  dl_seen a w : sg_value (t_signal a w).1 = 0 -> finished a (t_signal a w).2;
  dl_zero a w : finished a w -> sg_value (t_signal a w).1 = 0;
  dl_stays a w w' : quiet_step w w' -> finished a w -> finished a w';
  dl_ring a queue memory w : finished a w -> finished a (t_set_queue_memory queue memory w);
  dl_progress queue a w : exists n, (n <= t_patience)%nat /\
    let w' := Nat.iter n (poll queue a) w in
    sg_value (t_signal a w').1 = 0 \/ (t_error_reason queue (t_signal a w').2).1 <> 0
}.

Section sync.
Context {W : Type} `{!Transport W, !DeviceLaws W}.
Abbreviation M := (kfd (runtime W)).
Abbreviation later := (rtc quiet_step).
Implicit Type s : runtime W.

Lemma finished_later a w w' : later w w' -> finished a w -> finished a w'.
Proof. induction 1; [done|]. intros. by eapply IHrtc, dl_stays. Qed.

Lemma finished_not_observed a w : finished a w -> ~ observed false (Some a) w.
Proof.
  intros Hf (b & w' & [= <-] & Hw & Hv). eapply finished_later in Hf; [|done].
  apply dl_zero in Hf. rewrite Hf in Hv. done.
Qed.

(** ** The wait for a signal *)

Lemma wait_loop_spec fuel queue a s :
  (exists n, (n <= fuel)%nat /\ let w' := Nat.iter n (poll queue a) (rt_world s) in
     sg_value (t_signal a w').1 = 0 \/ (t_error_reason queue (t_signal a w').2).1 <> 0) ->
  wp (wait_for_signal_loop fuel queue (Some a)) (fun status s' => exists w,
    s' = set_rt_world w s /\ later (rt_world s) w /\
    (status = Success /\ finished a w \/ status = DeviceFault)) s.
Proof.
  revert s. induction fuel as [|fuel IH]; intros s (n & Hn & Hend); cbn [wait_for_signal_loop];
    (apply wp_bind; eapply wp_load_acquire; [done|]); intros x w1 Hw1; unfold signal_load_acquire;
    pose proof (later_signal _ _ _ _ Hw1) as Hl1;
    (destruct (sg_value x =? 0) eqn:Hz;
     [apply wp_bind, wp_below; intros reason w2 Hw2; simpl in Hw2|
      apply wp_bind, wp_below; intros reason w2 Hw2; simpl in Hw2]);
    (assert (later w1 w2) as Hl2; [apply rtc_once; replace w2 with (t_error_reason queue w1).2
       by (by rewrite Hw2); constructor|]).
  1, 3: apply wp_ret; exists w2; split_and!; [by destruct s|by etrans|];
    (destruct (reason =? 0); [left; split; [done|]|by right]);
    eapply finished_later; [done|]; replace w1 with (t_signal a (rt_world s)).2 by (by rewrite Hw1);
    apply dl_seen; rewrite Hw1; simpl; lia.
  all: destruct (reason =? 0) eqn:Hr; cbn [negb];
    [|apply wp_ret; exists w2; split_and!; [by destruct s|by etrans|by right]].
  - destruct n; [|lia]. simpl in Hend. rewrite Hw1 in Hend. simpl in Hend.
    rewrite Hw2 in Hend. simpl in Hend. lia.
  - destruct n as [|n].
    { simpl in Hend. rewrite Hw1 in Hend. simpl in Hend. rewrite Hw2 in Hend. simpl in Hend. lia. }
    eapply wp_mono; [apply IH|].
    + exists n. split; [lia|]. simpl.
      assert (poll queue a (rt_world s) = w2) as Hp by (unfold poll; rewrite Hw1; simpl; by rewrite Hw2).
      cbv zeta in Hend. by rewrite Nat.iter_succ_r, Hp in Hend.
    + intros status s' (w & -> & Hw & Hst). exists w. split_and!; [done| |done].
      etrans; [exact Hl1|]. by etrans.
Qed.

Lemma wait_signal_spec q object signal a s :
  rt_queues s !! q = Some object -> signal = Some a ->
  wp (wait_for_direct_kfd_signal_locked q signal) (fun status s' => exists w,
    s' = set_rt_world w s /\ later (rt_world s) w /\
    (status = Success /\ finished a w \/ status = DeviceFault)) s.
Proof.
  intros Hq ->. unfold wait_for_direct_kfd_signal_locked. apply wp_bind.
  eapply wp_dereference; [done|]. apply wait_loop_spec. apply dl_progress.
Qed.

(** ** The oldest work of a queue *)

Definition oldest s (object : lr_queue_t) : UserSignal :=
  match in_flight object with
  | d :: _ => signal_of s d
  | [] => match lq_pending_events object with
          | e :: _ => rt_events s !! e ≫= ev_signal
          | [] => None
          end
  end.

Lemma in_flight_empty s object :
  queue_wf s object ->
  lq_pending_dispatch_head object = length (lq_pending_dispatches object) <-> in_flight object = [].
Proof.
  intros Hwf. pose proof (in_flight_lookup _ _ 0 Hwf) as H. pose proof (qw_head _ _ Hwf).
  rewrite <-length_zero_iff_nil. lia.
Qed.

(** A queue without dispatches in flight has no barriers. *)
Lemma no_barriers s object :
  queue_wf s object -> in_flight object = [] -> lq_pending_barriers object = [].
Proof.
  intros Hwf Hf. destruct (lq_pending_barriers object) as [|b bs] eqn:E; [done|].
  exfalso. pose proof (qw_barriers _ _ Hwf b) as H. rewrite E, Hf in H.
  apply (not_elem_of_nil (bar_retirement_dispatch b)), H. by left.
Qed.

Lemma drained_spec s object :
  queue_wf s object ->
  drained object = true <-> in_flight object = [] /\ lq_pending_events object = [].
Proof.
  intros Hwf. unfold drained. rewrite !andb_true_iff, !bool_decide_eq_true, (in_flight_empty s) by done.
  split; [tauto|]. intros [H1 H2]. split_and!; try done. by eapply no_barriers.
Qed.

Lemma wp_oldest_signal q object s :
  runtime_wf s -> rt_queues s !! q = Some object -> drained object = false ->
  wp (oldest_signal object) (fun signal s' => s' = s /\ signal = oldest s object /\ is_Some signal) s.
Proof.
  intros Hwf Hq Hd. pose proof (gw_queues _ (rw_graph _ Hwf) _ _ Hq) as Hqw.
  unfold oldest_signal, oldest. destruct (bool_decide _) eqn:Hb; cbn [negb].
  - apply bool_decide_eq_true, (in_flight_empty s) in Hb; [|done]. rewrite Hb.
    destruct (lq_pending_events object) as [|e rest] eqn:Hl.
    { exfalso. apply not_true_iff_false in Hd. by apply Hd, (drained_spec s). }
    destruct (proj1 (gw_recorded _ (rw_graph _ Hwf) _ _ e Hq)) as (event & He & _); [rewrite Hl; by left|].
    apply wp_bind. eapply wp_dereference; [done|]. apply wp_ret. rewrite He.
    split_and!; try done. apply (gw_events _ (rw_graph _ Hwf) _ _ He).
  - apply bool_decide_eq_false in Hb. rewrite (in_flight_empty s) in Hb by done.
    destruct (in_flight object) as [|d rest] eqn:Hf; [done|].
    assert (d ∈ in_flight object) as Hin by (rewrite Hf; by left).
    unfold pending_dispatch. pose proof (pending_dispatch_lookup _ _ 0 d Hqw) as Hl.
    rewrite Nat.add_0_r in Hl. rewrite Hl by by rewrite Hf. apply wp_bind, wp_ret.
    destruct (qw_dispatches _ _ Hqw d) as (dispatch & Hdisp & Hs); [apply elem_of_app; by left|].
    apply wp_bind. eapply wp_dereference; [done|]. unfold active_completion_signal, signal_of.
    rewrite Hdisp. simpl. destruct (pd_completion_event dispatch) as [e|] eqn:E.
    + destruct (qw_borrowed _ _ Hqw _ _ _ Hin Hdisp E) as [event He].
      apply wp_bind. eapply wp_dereference; [done|]. apply wp_ret. rewrite He. split_and!; try done.
      apply (gw_events _ (rw_graph _ Hwf) _ _ He).
    + by apply wp_ret.
Qed.

(** ** One round *)

Definition work (object : lr_queue_t) : nat :=
  (length (in_flight object) + length (lq_pending_events object))%nat.

Definition others_kept q s s' : Prop := forall p, p <> q -> rt_queues s' !! p = rt_queues s !! p.

Lemma reaped_queue q object s s' retired bs n :
  queue_wf s object -> dispatches_reaped q object s s' Success retired bs n ->
  exists object', rt_queues s' = <[q := object']> (rt_queues s) /\
    in_flight object' = drop n (in_flight object) /\
    lq_pending_events object' = lq_pending_events object /\ lq_queue object' = lq_queue object /\
    later (rt_world s) (rt_world s') /\ same_events (rt_events s) (rt_events s').
Proof.
  intros Hwf [_ _ _ Hn _ _ (object' & events & ds & w & -> & Hev & Hw & _ & Hobj)].
  exists object'. split_and!; try done; rewrite Hobj; destruct (decide (n = O)) as [->|]; try done.
  assert (queue_wf s (set_lq_pending_barriers [] object)) as Hwf1.
  { destruct Hwf. split; try done; by intros ? ?%not_elem_of_nil. }
  exact (proj1 (recycle_flight s (set_lq_pending_barriers [] object) n Hwf1 Hn)).
Qed.

Lemma same_events_signal events events' e :
  same_events events events' -> events' !! e ≫= ev_signal = events !! e ≫= ev_signal.
Proof.
  intros H. apply (f_equal (lookup e)) in H. rewrite !lookup_fmap in H.
  destruct (events !! e), (events' !! e); try done. simpl in *.
  apply (inj Some) in H. by apply strip_fields in H as (_ & -> & _).
Qed.

(** When the oldest signal is finished, reaping leaves less work. *)
Lemma less_work q object a s s1 s2 retired bs n object1 l :
  runtime_wf s -> rt_queues s !! q = Some object -> drained object = false ->
  oldest s object = Some a -> finished a (rt_world s) ->
  dispatches_reaped q object s s1 Success retired bs n ->
  rt_queues s1 = <[q := object1]> (rt_queues s) ->
  in_flight object1 = drop n (in_flight object) ->
  lq_pending_events object1 = lq_pending_events object ->
  later (rt_world s) (rt_world s1) -> same_events (rt_events s) (rt_events s1) ->
  events_reaped q object1 s1 s2 l ->
  (forall e, head l = Some e -> observed false (rt_events s1 !! e ≫= ev_signal) (rt_world s1)) ->
  (work (set_lq_pending_events l object1) < work object)%nat.
Proof.
  intros Hwf Hq Hd Hold Hfin Hdr Hq1 Hf1 Hl1 Hw1 Hev1 Her Hfront.
  pose proof (gw_queues _ (rw_graph _ Hwf) _ _ Hq) as Hqw.
  assert (Hle : (length l <= length (lq_pending_events object))%nat).
  { destruct (er_shorter _ _ _ _ _ Her) as [->|?]; rewrite Hl1 in *; lia. }
  unfold work. change (in_flight (set_lq_pending_events l object1)) with (in_flight object1).
  rewrite Hf1, length_drop. simpl. unfold oldest in Hold.
  destruct (in_flight object) as [|d rest] eqn:Hf.
  - destruct (lq_pending_events object) as [|e more] eqn:Hl; [done|]. simpl in *.
    destruct (er_shorter _ _ _ _ _ Her) as [->|Hs]; rewrite Hl1 in *; [|simpl in *; lia].
    exfalso. specialize (Hfront e eq_refl). rewrite (same_events_signal (rt_events s)), Hold in Hfront by done.
    eapply finished_not_observed; [|exact Hfront]. by eapply finished_later.
  - destruct n as [|n]; [|simpl; lia]. exfalso.
    pose proof (dr_stopped _ _ _ _ _ _ _ _ Hdr d) as Hst. rewrite Hf in Hst.
    specialize (Hst eq_refl). rewrite Hold in Hst. by eapply finished_not_observed.
Qed.

Lemma synchronize_loop_spec fuel q s object :
  runtime_wf s -> rt_queues s !! q = Some object -> (work object <= fuel)%nat ->
  wp (synchronize_loop fuel q) (fun status s' => runtime_wf s' /\ others_kept q s s' /\
    exists object', rt_queues s' !! q = Some object' /\
      (status = Success /\ drained object' = true \/ status = DeviceFault \/ status = RuntimeError)) s.
Proof.
  revert s object. induction fuel as [|fuel IH]; intros s object Hwf Hq Hf; cbn [synchronize_loop];
    (apply wp_bind; eapply wp_dereference; [done|]); destruct (drained object) eqn:Hd.
  1, 3: apply wp_ret; split_and!; [done|done|]; exists object; split; [done|]; by left.
  { exfalso. apply not_true_iff_false in Hd. apply Hd, (drained_spec s).
    - by eapply (gw_queues _ (rw_graph _ Hwf) q).
    - unfold work in Hf. split; apply length_zero_iff_nil; lia. }
  apply wp_bind. eapply wp_mono; [by eapply wp_oldest_signal|].
  intros signal s0 (-> & -> & [a Ha]). rewrite Ha.
  apply wp_bind. eapply wp_mono; [by apply (wait_signal_spec q object (Some a) a)|].
  intros status s1 (w1 & -> & Hw1 & [[-> Hfin]| ->]).
  2: { apply wp_ret. split_and!; [by apply runtime_wf_world|done|]. exists object. split; [done|]. by right; left. }
  cbn [negb succeeded bool_decide]. set (s1 := set_rt_world w1 s) in *.
  assert (Hwf1 : runtime_wf s1) by by apply runtime_wf_world.
  apply wp_bind. eapply wp_mono; [by apply (reap_dispatches_spec q s1 object)|].
  intros status s2 (Hwf2 & retired & bs & n & Hr).
  pose proof (dr_state _ _ _ _ _ _ _ _ Hr) as (object2 & events2 & ds2 & w2 & E2 & _ & _ & _ & Hst).
  assert (Hq2 : rt_queues s2 = <[q := object2]> (rt_queues s)) by by rewrite E2.
  assert (others_kept q s s2) as Hk2 by (intros p Hp; by rewrite Hq2, lookup_insert_ne).
  destruct status; try done.
  2: { apply wp_ret. split_and!; [done|done|]. exists object2. rewrite Hq2, lookup_insert_eq.
       split; [done|]. by right; right. }
  cbn [negb succeeded bool_decide]. clear Hst.
  assert (Hqw1 : queue_wf s1 object) by by apply (gw_queues _ (rw_graph _ Hwf1) q).
  destruct (reaped_queue q object s1 s2 retired bs n Hqw1 Hr) as (o2 & Hq2' & Hf2 & Hl2 & _ & Hw2 & Hev2).
  assert (Hl : rt_queues s2 !! q = Some o2) by by rewrite Hq2', lookup_insert_eq.
  apply wp_bind. eapply wp_mono; [by apply (reap_events_spec q s2 o2)|].
  intros status s3 (Hwf3 & l & Her & Hst & Hfront).
  assert (Hl3 : rt_queues s3 !! q = Some (set_lq_pending_events l o2)).
  { by rewrite (er_queues _ _ _ _ _ Her), lookup_insert_eq. }
  assert (others_kept q s s3) as Hk3.
  { intros p Hp. rewrite (er_queues _ _ _ _ _ Her), lookup_insert_ne by done. by apply Hk2. }
  destruct Hst as [->| ->].
  2: { apply wp_ret. split_and!; [done|done|]. eexists. split; [done|]. by right; right. }
  cbn [negb succeeded bool_decide]. eapply wp_mono.
  { apply (IH s3 _ Hwf3 Hl3). pose proof (less_work q object a s1 s2 s3 retired bs n o2 l) as Hless.
    assert (work (set_lq_pending_events l o2) < work object)%nat; [|lia].
    apply Hless; try done. by apply Hfront. }
  intros status s4 (Hwf4 & Hk4 & Hrest). split_and!; [done| |done].
  intros p Hp. rewrite Hk4 by done. by apply Hk3.
Qed.

Lemma synchronize_spec q s object :
  runtime_wf s -> rt_queues s !! q = Some object ->
  wp (synchronize_direct_kfd_queue_locked q) (fun status s' => runtime_wf s' /\ others_kept q s s' /\
    exists object', rt_queues s' !! q = Some object' /\
      (status = Success /\ drained object' = true \/ status = DeviceFault \/ status = RuntimeError)) s.
Proof.
  intros Hwf Hq. unfold synchronize_direct_kfd_queue_locked. apply wp_bind.
  eapply wp_dereference; [done|]. apply (synchronize_loop_spec _ q s object); [done|done|].
  pose proof (f_equal length (qw_flight _ _ (gw_queues _ (rw_graph _ Hwf) _ _ Hq))) as H.
  rewrite length_drop, length_fmap in H. unfold work. lia.
Qed.
End sync.

(** ** Room in the ring

    [ensure_direct_kfd_queue_capacity_locked] returns, and after a success the
    ring has the room it was asked for, which is what the submission that
    skips its own check relies on. *)

Import LrStatus.

Section capacity.
Context {W : Type} `{!Transport W, !Threads W, !QueueMemory W, !DeviceLaws W}.
Abbreviation M := (kfd (runtime W)).
Abbreviation later := (rtc quiet_step).
Implicit Type s : runtime W.

(** ** The indices *)

Lemma ring_memory_later queue w w' : later w w' -> t_queue_memory queue w' = t_queue_memory queue w.
Proof. induction 1; [done|]. by rewrite IHrtc, (qm_quiet queue x y). Qed.

(** The ring is the same, up to packets the device has taken. *)
Record ring_advanced (queue : AqlQueue) (packets : list bytes) (w w' : W) : Prop := {
  ra_read : ring_read queue w <= ring_read queue w';
  ra_holds : ring_holds queue (drop (Z.to_nat (ring_read queue w' - ring_read queue w)) packets) w';
  ra_used : ring_used queue w' <= ring_used queue w
}.

Lemma ring_advanced_later queue packets w w' :
  ring_holds queue packets w -> later w w' -> ring_advanced queue packets w w'.
Proof.
  intros [Hu Hv] Hl. pose proof (ring_memory_later queue _ _ Hl) as E.
  assert (ring_read queue w' = ring_read queue w) as Er by (unfold ring_read; by rewrite E).
  assert (ring_used queue w' = ring_used queue w) as Eu by (unfold ring_used; by rewrite E, Er).
  split; [lia| |lia]. rewrite Er, Z.sub_diag, drop_0. split; [done|]. intros v. by rewrite E.
Qed.

Lemma ring_advanced_trans queue packets w1 w2 w3 :
  ring_advanced queue packets w1 w2 ->
  ring_advanced queue (drop (Z.to_nat (ring_read queue w2 - ring_read queue w1)) packets) w2 w3 ->
  ring_advanced queue packets w1 w3.
Proof.
  intros [A1 A2 A3] [B1 B2 B3]. split; try lia. rewrite drop_drop in B2.
  by replace (Z.to_nat (ring_read queue w3 - ring_read queue w1)) with
    (Z.to_nat (ring_read queue w2 - ring_read queue w1) +
     Z.to_nat (ring_read queue w3 - ring_read queue w2))%nat by lia.
Qed.

(** A turn of the device, with its effect on the ring. *)
Lemma ring_turn queue packets w :
  ring_holds queue packets w ->
  let context := device_turn (t_queue_memory queue w).1 in
  let w' := t_set_queue_memory queue (context, (t_queue_memory queue w).2) w in
  ring_advanced queue packets w w' /\ kfd_inv queue context /\
  aq_write_dispatch_id (kc_control context) =
    aq_write_dispatch_id (kc_control (t_queue_memory queue w).1).
Proof.
  intros [Hu Hh]. cbv zeta. destruct (Hh None) as [Hc Href]. pose proof Href as [Hi Hr Hcap Hl Hp].
  destruct (device_turn_inv queue _ Hi) as (Hi' & Hread & Hwrite & Hd).
  split_and!; [|done|done].
  split; unfold ring_used, ring_read; rewrite ?qm_stored; simpl; try lia.
  eapply ring_holds_after; [done|exact Hc|]. simpl.
  apply (refines_advance (light_rocr_kfd_producer_ops queue None) _ _ _ _ Href); done.
Qed.

Lemma wp_ring_room q object required packets s :
  rt_queues s !! q = Some object -> ring_holds (lq_queue object) packets (rt_world s) ->
  0 < required <= packet_count (lq_queue object) ->
  wp (ring_room q required) (fun room s' => exists w, s' = set_rt_world w s /\
    ring_advanced (lq_queue object) packets (rt_world s) w /\
    (forall a, finished a (rt_world s) -> finished a w) /\
    match room with
    | inl status => status = Success /\
        ring_used (lq_queue object) w + required <= packet_count (lq_queue object)
    | inr _ => True
    end) s.
Proof.
  intros Hq Hh Hreq. unfold ring_room. apply wp_bind. eapply wp_dereference; [done|].
  set (queue := lq_queue object) in *. destruct (ring_turn queue packets (rt_world s) Hh) as (Ha1 & Hi1 & Hw1).
  unfold queue_read_index, light_rocr_kfd_load_read_index.
  apply wp_bind. eapply (wp_on_queue_memory queue _ (fun '(index, context, ring) =>
    index = read_index_acquire queue (kc_control context) /\
    context = device_turn (t_queue_memory queue (rt_world s)).1 /\
    ring = (t_queue_memory queue (rt_world s)).2)); [done|].
  intros index context ring (-> & -> & ->).
  set (w1 := t_set_queue_memory _ _ _) in *. set (c1 := device_turn _) in *.
  assert (ring_holds queue (drop (Z.to_nat (ring_read queue w1 - ring_read queue (rt_world s))) packets) w1)
    as Hh1 by apply Ha1.
  destruct (ring_turn queue _ w1 Hh1) as (Ha2 & Hi2 & Hw2).
  unfold queue_write_index, light_rocr_kfd_load_write_index.
  apply wp_bind. eapply (wp_on_queue_memory queue _ (fun '(index, context, ring) =>
    index = write_index_relaxed queue (kc_control context) /\
    context = device_turn (t_queue_memory queue w1).1 /\
    ring = (t_queue_memory queue w1).2)); [done|].
  intros index context ring (-> & -> & ->). cbn [rt_world set_rt_world].
  set (w2 := t_set_queue_memory _ _ w1) in *. set (c2 := device_turn (t_queue_memory queue w1).1) in *.
  pose proof Hi1 as (_ & Hcontrol & Hb1 & _). pose proof Hi2 as (_ & _ & Hb2 & Hlt2).
  unfold read_index_acquire, write_index_relaxed. rewrite Hcontrol.
  assert (Hm1 : t_queue_memory queue w1 = (c1, (t_queue_memory queue (rt_world s)).2)) by apply qm_stored.
  rewrite Hm1 in Hw2. cbn [fst] in Hw2. rewrite Hw2.
  assert (Hused : ring_used queue w2 <= aq_write_dispatch_id (kc_control c1) - aq_read_dispatch_id (kc_control c1)).
  { destruct Ha2 as [_ _ Hu2]. unfold ring_used at 2, ring_read in Hu2. rewrite Hm1 in Hu2. done. }
  assert (Hcommon : ring_advanced queue packets (rt_world s) w2 /\
    (forall a, finished a (rt_world s) -> finished a w2)).
  { split; [by eapply ring_advanced_trans|]. intros a Ha. by apply dl_ring, dl_ring. }
  destruct Hcommon as [Hadv Hfin]. destruct Hh as [Hu _].
  destruct (_ <? _) eqn:G; [lia|]. rewrite !u64_sub_small by lia.
  destruct (_ <=? _) eqn:G2; apply wp_ret; exists w2; split_and!; try done. lia.
Qed.

(** ** Progress of a round *)

(** With [devices_lock] the wait gives up the lock. *)
Section mode.
Context (devices_lock : bool).

(** From [s] to [s'] the work of queue [q] went on: [object] has become
    [object'], and the ring holds what is left of [packets]; the other queues
    are as before unless the lock was given up. *)
Record went_on q object packets s s' object' : Prop := {
  wo_wf : runtime_wf s';
  wo_queue : rt_queues s' !! q = Some object';
  wo_handle : lq_queue object' = lq_queue object;
  wo_ring : ring_advanced (lq_queue object) packets (rt_world s) (rt_world s');
  wo_others : devices_lock = false -> others_kept q s s'
}.

Lemma went_on_trans q object object' object'' packets s s' s'' :
  went_on q object packets s s' object' ->
  went_on q object' (drop (Z.to_nat (ring_read (lq_queue object) (rt_world s') -
    ring_read (lq_queue object) (rt_world s))) packets) s' s'' object'' ->
  went_on q object packets s s'' object''.
Proof.
  intros [A1 A2 A3 A4 A5] [B1 B2 B3 B4 B5]. rewrite A3 in *. split; try done.
  - by eapply ring_advanced_trans.
  - intros Hl p Hp. rewrite B5 by done. by apply A5.
Qed.

Lemma went_on_world q object packets s w :
  runtime_wf s -> rt_queues s !! q = Some object ->
  ring_advanced (lq_queue object) packets (rt_world s) w ->
  went_on q object packets s (set_rt_world w s) object.
Proof. intros Hwf Hq Hr. split; try done. by apply runtime_wf_world. Qed.

(** The oldest work of the queue is finished. *)
Definition oldest_done s (object : lr_queue_t) : Prop :=
  exists a, oldest s object = Some a /\ finished a (rt_world s).

Lemma wp_reap_work q object packets s :
  runtime_wf s -> rt_queues s !! q = Some object -> ring_holds (lq_queue object) packets (rt_world s) ->
  wp (reap_direct_kfd_dispatches_locked q) (fun status s' => exists object',
    went_on q object packets s s' object' /\ lq_pending_events object' = lq_pending_events object /\
    (status = Success -> (work object' <= work object)%nat /\
       (in_flight object <> [] -> oldest_done s object -> (work object' < work object)%nat) /\
       (in_flight object = [] -> in_flight object' = [] /\ (oldest_done s object -> oldest_done s' object')))) s.
Proof.
  intros Hwf Hq Hh. eapply wp_mono; [by apply (reap_dispatches_spec q s object)|].
  intros status s' (Hwf' & retired & bs & n & Hr).
  pose proof (dr_state _ _ _ _ _ _ _ _ Hr) as (object' & events & ds & w & -> & Hev & Hw & _ & Hst).
  assert (lq_queue object' = lq_queue object /\ lq_pending_events object' = lq_pending_events object)
    as [Hh' He'].
  { destruct status; try done; [|destruct Hst as [_ ->]; done]. rewrite Hst. by destruct (decide (n = O)). }
  exists object'. split_and!; [|done|].
  { split; [done|apply lookup_insert_eq|done|by apply ring_advanced_later|].
    intros _ p Hp. simpl. by rewrite lookup_insert_ne. }
  intros ->. pose proof (gw_queues _ (rw_graph _ Hwf) _ _ Hq) as Hqw.
  destruct (reaped_queue q object s _ retired bs n Hqw Hr) as (o & Ho & Hfl & _ & _).
  assert (o = object') as ->.
  { simpl in Ho. apply (f_equal (lookup q)) in Ho. rewrite !lookup_insert_eq in Ho. by injection Ho. }
  unfold work. rewrite Hfl, He', length_drop. split_and!; [lia| |].
  - intros Hne (a & Ha & Hfin). destruct n as [|n]; [|destruct (in_flight object); [done|simpl; lia]].
    exfalso. destruct (in_flight object) as [|d rest] eqn:Hf; [done|]. unfold oldest in Ha. rewrite Hf in Ha.
    pose proof (dr_stopped _ _ _ _ _ _ _ _ Hr d) as Hstop. rewrite Hf in Hstop. specialize (Hstop eq_refl).
    rewrite Ha in Hstop. by eapply finished_not_observed.
  - intros Hf. rewrite Hf, drop_nil. split; [done|]. intros (a & Ha & Hfin). exists a.
    split; [|by eapply finished_later]. unfold oldest in Ha |- *. rewrite Hf in Ha.
    rewrite Hfl, Hf, drop_nil, He'. destruct (lq_pending_events object) as [|e l]; [done|].
    simpl. by rewrite (same_events_signal (rt_events s)).
Qed.

Lemma wp_reap_events_work q object packets s :
  runtime_wf s -> rt_queues s !! q = Some object -> ring_holds (lq_queue object) packets (rt_world s) ->
  wp (reap_completed_direct_kfd_events_locked q) (fun status s' => exists object',
    went_on q object packets s s' object' /\
    (status = Success -> (work object' <= work object)%nat /\
       (in_flight object = [] -> oldest_done s object -> (work object' < work object)%nat))) s.
Proof.
  intros Hwf Hq Hh. eapply wp_mono; [by apply (reap_events_spec q s object)|].
  intros status s' (Hwf' & l & Her & _ & Hfront). exists (set_lq_pending_events l object).
  pose proof (er_queues _ _ _ _ _ Her) as Hqs. split.
  { split; [done|by rewrite Hqs, lookup_insert_eq|done|apply ring_advanced_later; [done|apply Her]|].
    intros _ p Hp. by rewrite Hqs, lookup_insert_ne. }
  intros ->. specialize (Hfront eq_refl). unfold work. simpl.
  change (in_flight (set_lq_pending_events l object)) with (in_flight object).
  split; [destruct (er_shorter _ _ _ _ _ Her) as [->|?]; lia|].
  intros Hf (a & Ha & Hfin). destruct (er_shorter _ _ _ _ _ Her) as [->|?]; [|lia].
  exfalso. unfold oldest in Ha. rewrite Hf in Ha. destruct (lq_pending_events object) as [|e rest]; [done|].
  specialize (Hfront e eq_refl). rewrite Ha in Hfront. by eapply finished_not_observed.
Qed.

(** ** The loop *)

Definition room_made q object packets required s (status : LrStatus.t) s' : Prop :=
  exists object', went_on q object packets s s' object' /\
    (status = Success ->
     ring_used (lq_queue object) (rt_world s') + required <= packet_count (lq_queue object)).

Lemma room_made_trans q object packets required s s1 object1 status s2 :
  went_on q object packets s s1 object1 ->
  room_made q object1 (drop (Z.to_nat (ring_read (lq_queue object) (rt_world s1) -
    ring_read (lq_queue object) (rt_world s))) packets) required s1 status s2 ->
  room_made q object packets required s status s2.
Proof.
  intros H1 (object2 & H2 & Hroom). rewrite (wo_handle _ _ _ _ _ _ H1) in Hroom.
  exists object2. split; [by eapply went_on_trans|done].
Qed.

(** Stopping, with an error or with room. *)
Lemma room_made_now q object packets required s s1 object1 status :
  went_on q object packets s s1 object1 ->
  (status = Success ->
   ring_used (lq_queue object) (rt_world s1) + required <= packet_count (lq_queue object)) ->
  room_made q object packets required s status s1.
Proof. intros H Hr. by exists object1. Qed.

Lemma went_on_refl q object packets s :
  runtime_wf s -> rt_queues s !! q = Some object -> ring_holds (lq_queue object) packets (rt_world s) ->
  went_on q object packets s s object.
Proof.
  intros Hwf Hq Hh. split; try done. by apply ring_advanced_later.
Qed.

(** *** The wait *)

(** What another thread leaves of a queue that this one waits on. *)
Record left_alone q object packets s s' object' : Prop := {
  lv_wf : runtime_wf s';
  lv_queue : rt_queues s' !! q = Some object';
  lv_handle : lq_queue object' = lq_queue object;
  lv_waiting : lq_capacity_waiting object' = true;
  lv_flight : in_flight object' = in_flight object;
  lv_events : lq_pending_events object' = lq_pending_events object;
  lv_oldest : oldest s' object' = oldest s object;
  lv_finished a : oldest s object = Some a -> finished a (rt_world s) -> finished a (rt_world s');
  lv_ring : ring_advanced (lq_queue object) packets (rt_world s) (rt_world s')
}.

(** The others do not touch the work of a queue while [capacity_waiting] is
    set; they may mark it for destruction and do anything to other queues. *)
Definition leave_waiting_queues : Prop := forall q object packets s,
  runtime_wf s -> rt_queues s !! q = Some object -> lq_capacity_waiting object = true ->
  ring_holds (lq_queue object) packets (rt_world s) ->
  exists object', left_alone q object packets s (other_threads s) object'.

Hypothesis Hothers : devices_lock = true -> leave_waiting_queues.

(** The flags of a queue are its own. *)
Lemma runtime_wf_flags q object count waiting s :
  runtime_wf s -> rt_queues s !! q = Some object ->
  runtime_wf (set_rt_queues (<[q := set_lq_active_synchronizers count
    (set_lq_capacity_waiting waiting object)]> (rt_queues s)) s).
Proof.
  intros Hwf Hq. eapply runtime_wf_queue; [done|done| |by left|done|done].
  destruct (gw_queues _ (rw_graph _ Hwf) _ _ Hq). by split.
Qed.

Lemma drained_same s s' object object' :
  queue_wf s object -> queue_wf s' object' -> in_flight object' = in_flight object ->
  lq_pending_events object' = lq_pending_events object -> drained object = false -> drained object' = false.
Proof.
  intros Hw Hw' Hf He Hd. apply not_true_iff_false. rewrite (drained_spec s') by done.
  rewrite Hf, He, <-(drained_spec s) by done. by rewrite Hd.
Qed.

(** The wait for the oldest work of the queue, under the lock or without it. *)
Lemma wp_wait_oldest q object s :
  runtime_wf s -> rt_queues s !! q = Some object -> drained object = false ->
  wp (object ← get_queue q; signal ← oldest_signal object; wait_for_direct_kfd_signal_locked q signal)
    (fun status s' => exists w, s' = set_rt_world w s /\ later (rt_world s) w /\
       (status = Success -> oldest_done s' object)) s.
Proof.
  intros Hwf Hq Hd. apply wp_bind. eapply wp_dereference; [done|].
  apply wp_bind. eapply wp_mono; [by eapply wp_oldest_signal|].
  intros signal s0 (-> & -> & [a Ha]). rewrite Ha. eapply wp_mono; [by apply (wait_signal_spec q object _ a)|].
  intros status s' (w & -> & Hw & Hst). exists w. split_and!; try done.
  intros ->. destruct Hst as [[_ Hfin]|?]; [|done]. by exists a.
Qed.

(** Without the lock: the queue is found as it was left. *)
Lemma wp_unlocked_wait q object packets s :
  leave_waiting_queues -> runtime_wf s -> rt_queues s !! q = Some object ->
  lq_capacity_waiting object = true -> ring_holds (lq_queue object) packets (rt_world s) ->
  drained object = false ->
  wp (unlocked (object ← get_queue q; signal ← oldest_signal object; wait_for_direct_kfd_signal_locked q signal))
    (fun status s' => exists object', left_alone q object packets s s' object' /\
       (status = Success -> oldest_done s' object')) s.
Proof.
  intros Hleave Hwf Hq Hflag Hh Hd. destruct (Hleave q object packets s Hwf Hq Hflag Hh) as (o1 & H1).
  pose proof H1 as [A1 A2 A3 A4 A5 A6 A7 A8 A9]. unfold unlocked. apply wp_bind, wp_modify, wp_bind.
  eapply wp_mono; [apply (wp_wait_oldest q o1); [done|done|]|].
  { eapply (drained_same s); [by apply (gw_queues _ (rw_graph _ Hwf) q)|by apply (gw_queues _ (rw_graph _ A1) q)|done..]. }
  intros status s2 (w & -> & Hw & Hst). apply wp_bind, wp_modify, wp_ret.
  set (packets1 := drop (Z.to_nat (ring_read (lq_queue object) (rt_world (other_threads s)) -
    ring_read (lq_queue object) (rt_world s))) packets).
  assert (ring_holds (lq_queue o1) packets1 (rt_world (other_threads s))) as Hh1 by (rewrite A3; apply A9).
  pose proof (ring_advanced_later (lq_queue o1) packets1 _ _ Hh1 Hw) as Hadv.
  set (packets2 := drop (Z.to_nat (ring_read (lq_queue o1) w - ring_read (lq_queue o1) (rt_world (other_threads s)))) packets1).
  destruct (Hleave q o1 packets2 (set_rt_world w (other_threads s))) as (o2 & H2);
    [by apply runtime_wf_world|done|done|apply Hadv|].
  pose proof H2 as [B1 B2 B3 B4 B5 B6 B7 B8 B9]. exists o2. unfold packets2 in B9. rewrite A3 in B3, B9, Hadv.
  change (oldest (set_rt_world w (other_threads s)) o1) with (oldest (other_threads s) o1) in B7. split.
  - split; [done|done|done|done|congruence|congruence|congruence| |].
    + intros a Ha Hfin. apply B8; [|eapply finished_later; [exact Hw|by apply A8]].
      change (oldest (set_rt_world w (other_threads s)) o1) with (oldest (other_threads s) o1). congruence.
    + eapply ring_advanced_trans; [exact A9|]. by eapply ring_advanced_trans.
  - intros Hok. destruct (Hst Hok) as (a & Ha & Hfin). exists a. split; [by rewrite B7|]. by apply B8.
Qed.

Lemma wp_capacity_wait q object packets s :
  runtime_wf s -> rt_queues s !! q = Some object -> ring_holds (lq_queue object) packets (rt_world s) ->
  drained object = false ->
  wp (capacity_wait q devices_lock) (fun status s' => exists object', went_on q object packets s s' object' /\
    work object' = work object /\ (status = Success -> oldest_done s' object')) s.
Proof.
  intros Hwf Hq Hh Hd. unfold capacity_wait. destruct devices_lock eqn:Hlock.
  2: { eapply wp_mono; [by apply (wp_wait_oldest q object)|]. intros status s' (w & -> & Hw & Hst).
       exists object. split_and!; [|done|done]. apply went_on_world; [done|done|]. by apply ring_advanced_later. }
  specialize (Hothers eq_refl). apply wp_bind. eapply wp_update_queue; [done|].
  set (s1 := set_rt_queues _ s). set (o1 := set_lq_active_synchronizers _ _) in s1.
  assert (runtime_wf s1) as Hwf1 by by apply runtime_wf_flags.
  assert (rt_queues s1 !! q = Some o1) as Hq1 by apply lookup_insert_eq.
  apply wp_bind. eapply wp_mono; [apply (wp_unlocked_wait q o1 packets s1 Hothers Hwf1 Hq1 eq_refl Hh Hd)|].
  intros status s2 (o2 & [B1 B2 B3 B4 B5 B6 B7 B8 B9] & Hst).
  apply wp_bind. eapply wp_update_queue; [done|]. set (s3 := set_rt_queues _ s2).
  set (o3 := set_lq_capacity_waiting _ _) in s3.
  assert (runtime_wf s3) as Hwf3 by by apply (runtime_wf_flags q o2 _ false s2).
  assert (rt_queues s3 !! q = Some o3) as Hq3 by apply lookup_insert_eq.
  apply wp_bind. eapply wp_dereference; [done|]. apply wp_ret. exists o3. split_and!.
  - split; [exact Hwf3|exact Hq3|exact B3|exact B9|congruence].
  - unfold work. change (in_flight o3) with (in_flight o2). change (lq_pending_events o3) with (lq_pending_events o2).
    by rewrite B5, B6.
  - intros Hok. destruct (lq_destroying o3); [done|]. destruct (Hst Hok) as (a & Ha & Hfin). by exists a.
Qed.

(** The first, conditional reap of a round. *)
Lemma wp_first_reap q object packets s :
  runtime_wf s -> rt_queues s !! q = Some object -> ring_holds (lq_queue object) packets (rt_world s) ->
  wp (if bool_decide (lq_available_dispatches object = []) &&
         negb (bool_decide (lq_pending_dispatch_head object = length (lq_pending_dispatches object)))
      then reap_direct_kfd_dispatches_locked q else mret Success)
    (fun status s' => exists object', went_on q object packets s s' object' /\
       (status = Success -> (work object' <= work object)%nat /\
          (oldest_done s object -> (work object' < work object)%nat \/ oldest_done s' object'))) s.
Proof.
  intros Hwf Hq Hh. destruct (_ && _) eqn:G.
  - eapply wp_mono; [by apply (wp_reap_work q object packets)|].
    intros status s' (object' & Hwo & _ & Hst). exists object'. split; [done|]. intros ->.
    destruct (Hst eq_refl) as (Hle & Hlt & Hkeep). split; [done|]. intros Hd.
    destruct (decide (in_flight object = [])); [right; by apply Hkeep|left; by apply Hlt].
  - apply wp_ret. exists object. split; [by apply went_on_refl|]. intros _. split; [done|]. by right.
Qed.

Section round.
Context (q : queue_ptr) (required : Z) (again : M LrStatus.t) (bound : nat).
Context (Hagain : forall packets s object, runtime_wf s -> rt_queues s !! q = Some object ->
  ring_holds (lq_queue object) packets (rt_world s) ->
  0 < required <= packet_count (lq_queue object) -> oldest_done s object ->
  (0 < work object <= bound)%nat -> wp again (room_made q object packets required s) s).

(** From the wait on. *)
Lemma wp_capacity_tail packets s object :
  runtime_wf s -> rt_queues s !! q = Some object -> ring_holds (lq_queue object) packets (rt_world s) ->
  0 < required <= packet_count (lq_queue object) -> (work object <= bound)%nat ->
  wp (object ← get_queue q;
      if bool_decide (lq_pending_dispatch_head object = length (lq_pending_dispatches object)) &&
         bool_decide (lq_pending_events object = [])
      then mret RuntimeError
      else
        wait_status ← capacity_wait q devices_lock;
        if negb (succeeded wait_status) then mret wait_status else again)
    (room_made q object packets required s) s.
Proof.
  intros Hwf Hq Hh Hreq Hwork. pose proof (gw_queues _ (rw_graph _ Hwf) _ _ Hq) as Hqw.
  pose proof (went_on_refl q object packets s Hwf Hq Hh) as Hwo.
  apply wp_bind. eapply wp_dereference; [done|]. destruct (_ && _) eqn:G.
  { apply wp_ret. by eapply room_made_now. }
  apply andb_false_iff in G. rewrite !bool_decide_eq_false, (in_flight_empty s) in G by done.
  assert (drained object = false) as Hd.
  { apply not_true_iff_false. rewrite (drained_spec s) by done. tauto. }
  apply wp_bind. eapply wp_mono; [by apply (wp_capacity_wait q object packets)|].
  intros status s1 (o1 & Hwo1 & Hsame & Hst). pose proof Hwo1 as [Hwf1 Hq1 Hh1 Hr1 _].
  destruct (succeeded status) eqn:Hok; cbn [negb].
  2: { apply wp_ret. eapply room_made_now; [done|]. by intros ->. }
  apply bool_decide_eq_true in Hok. eapply wp_mono; [|intros st s' Hr; by eapply room_made_trans].
  rewrite <-Hh1 in Hreq, Hr1 |- *. apply Hagain; [done|done|apply Hr1|done|by apply Hst|]. rewrite Hsame. split; [|done].
  unfold work. rewrite <-!length_zero_iff_nil in G. lia.
Qed.

(** From a look at the ring on: room, or the rest of the round. *)
Lemma wp_ring_or packets s object (rest : M LrStatus.t) :
  runtime_wf s -> rt_queues s !! q = Some object -> ring_holds (lq_queue object) packets (rt_world s) ->
  0 < required <= packet_count (lq_queue object) ->
  (forall packets s', runtime_wf s' -> rt_queues s' !! q = Some object ->
     ring_holds (lq_queue object) packets (rt_world s') -> (oldest_done s object -> oldest_done s' object) ->
     wp rest (room_made q object packets required s') s') ->
  wp (room ← ring_room q required; match room with inl status => mret status | inr _ => rest end)
    (room_made q object packets required s) s.
Proof.
  intros Hwf Hq Hh Hreq Hrest. apply wp_bind. eapply wp_mono; [by apply (wp_ring_room q object required packets)|].
  intros room s1 (w & -> & Hadv & Hfin & Hroom).
  pose proof (went_on_world q object packets s w Hwf Hq Hadv) as Hwo.
  destruct room as [status|[]].
  - destruct Hroom as [-> Hroom]. apply wp_ret. by eapply room_made_now.
  - eapply wp_mono; [|intros st s' Hr; by eapply room_made_trans].
    apply Hrest; [apply Hwo|apply Hwo|apply Hadv|]. intros (a & Ha & Hf). exists a. split; [done|]. by apply Hfin.
Qed.

Lemma capacity_round_spec packets s object :
  runtime_wf s -> rt_queues s !! q = Some object -> ring_holds (lq_queue object) packets (rt_world s) ->
  0 < required <= packet_count (lq_queue object) ->
  (work object <= bound)%nat \/ oldest_done s object /\ (work object <= S bound)%nat ->
  wp (capacity_round q required devices_lock again) (room_made q object packets required s) s.
Proof.
  intros Hwf Hq Hh Hreq Hwork. unfold capacity_round.
  apply wp_bind. eapply wp_dereference; [done|].
  apply wp_bind. eapply wp_mono; [by apply (wp_first_reap q object packets)|].
  intros status s1 (o1 & Hwo1 & Hst1). destruct (succeeded status) eqn:Hok; cbn [negb].
  2: { apply wp_ret. eapply room_made_now; [done|]. by intros ->. }
  apply bool_decide_eq_true in Hok as ->. destruct (Hst1 eq_refl) as [Hle1 Hlt1].
  eapply wp_mono; [|intros st s' Hr; by eapply room_made_trans].
  pose proof Hwo1 as [Hwf1 Hq1 Hh1 Hr1 _]. rewrite <-Hh1 in Hreq, Hr1 |- *.
  apply wp_ring_or; [done|done|apply Hr1|done|].
  intros packets2 s2 Hwf2 Hq2 Hh2 Hdone2.
  apply wp_bind. eapply wp_mono; [by apply (wp_reap_work q o1 packets2)|].
  intros status s3 (o3 & Hwo3 & Hev3 & Hst3). destruct (succeeded status) eqn:Hok; cbn [negb].
  2: { apply wp_ret. eapply room_made_now; [done|]. by intros ->. }
  apply bool_decide_eq_true in Hok as ->. destruct (Hst3 eq_refl) as (Hle3 & Hlt3 & Hkeep3).
  eapply wp_mono; [|intros st s' Hr; by eapply room_made_trans].
  pose proof Hwo3 as [Hwf3 Hq3 Hh3 Hr3 _]. rewrite <-Hh3 in Hreq, Hr3 |- *.
  apply wp_bind. eapply wp_mono; [eapply (wp_reap_events_work q o3 _ s3 Hwf3 Hq3); apply Hr3|].
  intros status s4 (o4 & Hwo4 & Hst4). destruct (succeeded status) eqn:Hok; cbn [negb].
  2: { apply wp_ret. eapply room_made_now; [done|]. by intros ->. }
  apply bool_decide_eq_true in Hok as ->. destruct (Hst4 eq_refl) as [Hle4 Hlt4].
  eapply wp_mono; [|intros st s' Hr; by eapply room_made_trans].
  pose proof Hwo4 as [Hwf4 Hq4 Hh4 Hr4 _]. rewrite <-Hh4 in Hreq, Hr4 |- *.
  apply wp_ring_or; [done|done|apply Hr4|done|].
  intros packets5 s5 Hwf5 Hq5 Hh5 _. apply wp_capacity_tail; try done.
  destruct Hwork as [?|[Hd Hw]]; [lia|]. destruct (Hlt1 Hd) as [?|Hd1]; [lia|].
  specialize (Hdone2 Hd1). destruct (decide (in_flight o1 = [])) as [Hf|Hf].
  - destruct (Hkeep3 Hf) as [Hf3 Hd3]. specialize (Hlt4 Hf3 (Hd3 Hdone2)). lia.
  - specialize (Hlt3 Hf Hdone2). lia.
Qed.
End round.

Lemma capacity_loop_spec fuel q required packets s object :
  runtime_wf s -> rt_queues s !! q = Some object -> ring_holds (lq_queue object) packets (rt_world s) ->
  0 < required <= packet_count (lq_queue object) ->
  (work object <= fuel)%nat \/ oldest_done s object /\ (work object <= S fuel)%nat ->
  wp (capacity_loop fuel q required devices_lock) (room_made q object packets required s) s.
Proof.
  revert packets s object. induction fuel as [|fuel IH]; intros packets s object Hwf Hq Hh Hreq Hwork;
    cbn [capacity_loop]; (eapply capacity_round_spec; [|done|done|done|done|exact Hwork]).
  - intros; lia.
  - intros packets' s' object' Hwf' Hq' Hh' Hreq' Hd Hw. apply IH; try done. right. split; [done|lia].
Qed.

Lemma ensure_capacity_spec q required packets s object :
  runtime_wf s -> rt_queues s !! q = Some object -> ring_holds (lq_queue object) packets (rt_world s) ->
  0 <= required ->
  wp (ensure_direct_kfd_queue_capacity_locked q required devices_lock) (room_made q object packets required s) s.
Proof.
  intros Hwf Hq Hh Hreq. unfold ensure_direct_kfd_queue_capacity_locked.
  apply wp_bind. eapply wp_dereference; [done|]. destruct (_ || _) eqn:G.
  { apply wp_ret. by eapply room_made_now; [apply went_on_refl|]. }
  apply wp_bind. unfold queue_error_reason. apply wp_below. intros reason w Hw.
  assert (later (rt_world s) w) as Hl.
  { apply rtc_once. replace w with (t_error_reason (lq_queue object) (rt_world s)).2 by (by rewrite Hw).
    constructor. }
  assert (Hwo : went_on q object packets s (set_rt_world w s) object).
  { apply went_on_world; [done|done|]. by apply ring_advanced_later. }
  destruct (reason =? 0); cbn [negb]; [|apply wp_ret; by eapply room_made_now].
  eapply wp_mono; [|intros st s' Hr; by eapply room_made_trans].
  apply capacity_loop_spec; [apply Hwo|apply Hwo|apply Hwo|lia|]. left.
  pose proof (f_equal length (qw_flight _ _ (gw_queues _ (rw_graph _ Hwf) _ _ Hq))) as H.
  rewrite length_drop, length_fmap in H. unfold work. lia.
Qed.
End mode.
End capacity.
