(* ===== verification/DirectProperties.v ===== *)
(** * The runtime on direct KFD queues is correct

    The theorems about the retirement of work, synchronization, submission and
    event times, in terms of the object graph, for every transport and every
    behaviour of the device that the laws allow. *)

From stdpp Require Import gmap relations.
From S2P Require Import Prelude Memory CodeObject Topology AqlPacket AqlQueue AqlProducer KfdProducer Signal KfdKernel MemoryState RuntimeState DirectQueue DirectLaunch DirectApi DirectEvents RuntimeFacts DirectQueueFacts DirectEventFacts DirectSync DirectLaunchFacts.

Import LrStatus.

Section retirement.
Context {W : Type} `{!Transport W}.
Implicit Type s : runtime W.

(** C14: reaping the dispatches of a queue returns, whatever the device does
    between two loads of the host, and keeps the object graph well-formed: no
    dangling pointer is followed, the dependency counts of every event stay
    exactly the references of pending barriers, and no dispatch that a pending
    barrier waits on goes back to the pool.  On success the dispatches retire
    in submission order: those recycled were seen completed, and the first one
    that stays was seen incomplete. *)
Theorem dispatch_reaping q s object :
  runtime_wf s -> rt_queues s !! q = Some object ->
  wp (reap_direct_kfd_dispatches_locked q) (fun status s' => runtime_wf s' /\
    (status = Success \/ status = RuntimeError) /\
    exists n object', (n <= length (in_flight object))%nat /\ rt_queues s' !! q = Some object' /\
      Forall (fun d => observed true (signal_of s d) (rt_world s)) (take n (in_flight object)) /\
      (forall d, in_flight object !! n = Some d -> observed false (signal_of s d) (rt_world s)) /\
      (status = Success ->
         in_flight object' = drop n (in_flight object) /\
         lq_available_dispatches object' =
           lq_available_dispatches object ++ take n (in_flight object))) s.
Proof.
  intros Hwf Hq. eapply wp_mono; [by apply (reap_dispatches_spec q s object)|].
  intros status s' (Hwf' & retired & bs & n & Hr). pose proof Hr as [_ _ _ Hn Hd Hs Hst].
  destruct Hst as (object' & events & ds & w & E & _ & _ & _ & Hobj). split; [done|].
  split; [destruct status; auto; done|]. exists n, object'.
  split_and!; [done|rewrite E; apply lookup_insert_eq|done|done|].
  intros ->. cbv zeta in Hobj. rewrite Hobj. destruct (decide (n = O)) as [->|Hne].
  { rewrite drop_0, take_0, app_nil_r. done. }
  assert (queue_wf s (set_lq_pending_barriers [] object)) as Hqw.
  { destruct (gw_queues _ (rw_graph _ Hwf) _ _ Hq). split; try done; by intros ? ?%not_elem_of_nil. }
  destruct (recycle_flight s _ n Hqw Hn) as (H1 & H2 & _). split; [exact H1|exact H2].
Qed.

(** When the pool cannot grow ([std::bad_alloc]), the completed dispatches
    stay in the queue but have lost their completion events: each is waited
    for through its own signal from then on, which the packet of a dispatch
    with a completion event does not name. *)
Theorem failed_reap_forgets_event q s object d e dispatch s' :
  runtime_wf s -> rt_queues s !! q = Some object -> head (in_flight object) = Some d ->
  rt_dispatches s !! d = Some dispatch -> pd_completion_event dispatch = Some e ->
  reap_direct_kfd_dispatches_locked q s = Ok (RuntimeError, s') ->
  (exists object', rt_queues s' !! q = Some object' /\ head (in_flight object') = Some d) /\
  signal_of s d = rt_events s !! e ≫= ev_signal /\ signal_of s' d = pd_completion_signal dispatch.
Proof.
  intros Hwf Hq Hd Hdisp He Hrun. pose proof (reap_dispatches_spec q s object Hwf Hq) as H.
  unfold wp in H. rewrite Hrun in H. destruct H as (_ & retired & bs & n & Hr).
  destruct (dr_state _ _ _ _ _ _ _ _ Hr) as (object' & events & ds & w & -> & _ & _ & Hdet & Hn & ->).
  split_and!.
  - exists (set_lq_pending_barriers bs object). split; [apply lookup_insert_eq|done].
  - unfold signal_of. by rewrite Hdisp; simpl; rewrite He.
  - unfold signal_of. simpl. rewrite Hdet, decide_True, Hdisp; [done|].
    destruct (in_flight object) as [|x l]; [done|]. injection Hd as ->. destruct n; [lia|]. by left.
Qed.
End retirement.

Section synchronization.
Context {W : Type} `{!Transport W, !DeviceLaws W}.
Implicit Type s : runtime W.

(** C6: synchronizing a queue returns, and when it succeeds nothing of the queue
    is left: no dispatch in flight, no barrier, no recorded event, and no event
    counts the queue among its consumers any more, so that an event can be
    reused or destroyed after its consumers were synchronized.  Other queues
    are not touched, and the object graph stays well-formed. *)
Theorem synchronize_drains q s object :
  runtime_wf s -> rt_queues s !! q = Some object ->
  wp (synchronize_direct_kfd_queue_locked q) (fun status s' => runtime_wf s' /\
    (forall p, p <> q -> rt_queues s' !! p = rt_queues s !! p) /\
    (status = Success \/ status = DeviceFault \/ status = RuntimeError) /\
    (status = Success ->
       (exists object', rt_queues s' !! q = Some object' /\ in_flight object' = [] /\
          lq_pending_barriers object' = [] /\ lq_pending_events object' = []) /\
       forall e event, rt_events s' !! e = Some event ->
         ev_recorded_queue event <> Some q /\ q ∉ (ev_dependency_queues event).*1)) s.
Proof.
  intros Hwf Hq. eapply wp_mono; [by apply (synchronize_spec q s object)|].
  intros status s' (Hwf' & Hothers & object' & Hq' & Hst). split_and!; [done|done|tauto|].
  intros ->. destruct Hst as [[_ Hd]|[?|?]]; [|done|done].
  pose proof (gw_queues _ (rw_graph _ Hwf') _ _ Hq') as Hqw.
  apply (drained_spec s') in Hd as [Hf Hl]; [|done]. pose proof (no_barriers s' object' Hqw Hf) as Hb.
  split; [eauto 6|]. intros e event He. split.
  - intros Hrec. destruct (gw_recorded _ (rw_graph _ Hwf') _ _ e Hq') as [_ Hin].
    rewrite Hl in Hin. apply (not_elem_of_nil e), Hin. eauto.
  - destruct (rw_counted _ Hwf' _ _ He) as [_ Hc _ _]. specialize (Hc q).
    unfold holds in Hc. rewrite Hq' in Hc. unfold references in Hc. rewrite Hb in Hc. simpl in Hc.
    by apply not_elem_of_list_to_map_2 in Hc.
Qed.
End synchronization.

Section submission.
Context {W : Type} `{!Transport W, !Threads W, !QueueMemory W}.
Implicit Type s : runtime W.

(** C7: publishing a dispatch is all or nothing.  With the room that was
    reserved, either its barrier packets and its own packet are the next
    packets of the ring, the dispatch is in flight and its barriers hold
    exactly the references of its dependencies; or the status tells the
    producer's error, the dispatch is back in the pool, every reference is
    given back and the completion event is what it was before the launch.
    Either way the object graph stays well-formed. *)
Theorem publish_all_or_nothing device q object d groups barriers recorded parameters packets s :
  publishable device q object d groups recorded s ->
  length barriers = length groups -> ring_holds (lq_queue object) packets (rt_world s) ->
  ring_used (lq_queue object) (rt_world s) + Z.of_nat (length groups) + 1 <=
    packet_count (lq_queue object) ->
  wp (publish_dispatch device q d groups barriers parameters recorded) (fun status s' =>
    runtime_wf s' /\ (forall p, p <> q -> rt_queues s' !! p = rt_queues s !! p) /\
    (status = Success /\
     (exists object', rt_queues s' !! q = Some object' /\
        in_flight object' = in_flight object ++ [d] /\
        references object' = references object ++ mjoin groups) /\
     packets_added (lq_queue object) packets
       (barrier_packets barriers ++ [dispatch_bytes (dispatch_packet object d groups s parameters)])
       (rt_world s) (rt_world s') \/
     exists error, error <> SubmitNone /\ status = aql_submit_status error /\
       refused q object d recorded s s')) s.
Proof.
  intros Hpu Hlen Hring Hroom. eapply wp_mono; [by eapply publish_dispatch_spec|].
  pose proof (gw_queues _ (rw_graph _ (pu_wf _ _ _ _ _ _ _ Hpu)) _ _ (pu_queue _ _ _ _ _ _ _ Hpu)) as Hqw.
  intros status s' (Hwf' & Hst). split; [done|]. destruct Hst as [(-> & Hq & Hd & He & Hp)|(error & Herr & -> & Href)].
  - split; [intros p Hne; by rewrite Hq, lookup_insert_ne|]. left. split_and!; try done.
    eexists. split_and!; [rewrite Hq; apply lookup_insert_eq|by apply (enqueued_flight s)|].
    unfold references, submitted_queue. simpl. rewrite fmap_app, join_app. f_equal.
    clear. induction groups as [|g l IH]; [done|]. csimpl. by rewrite IH.
  - split; [intros p Hne; by rewrite (rf_queues _ _ _ _ _ _ Href), lookup_insert_ne|]. right. eauto.
Qed.
End submission.

Section capacity.
Context {W : Type} `{!Transport W, !Threads W, !QueueMemory W, !DeviceLaws W}.
Implicit Type s : runtime W.

End capacity.

(** ** Times *)

(** What the transport reports, and ticks that lie between the two reports. *)
Record clock_wf (ticks : Z) (begin_clock end_clock : ClockCounters) : Prop := {
  cw_ticks : ticks <= cc_gpu end_clock - cc_gpu begin_clock;
  cw_gpu : 0 <= cc_gpu begin_clock /\ cc_gpu end_clock < U64_MOD;
  cw_system : 0 <= cc_system begin_clock /\ cc_system end_clock < U64_MOD;
  cw_frequency : 0 <= cc_system_frequency_hz begin_clock
}.

Lemma ticks_exact ticks b e :
  0 <= ticks -> valid_clock_span b e = true -> clock_wf ticks b e ->
  (cc_system e - cc_system b) * 1000000000 < U64_MOD * cc_system_frequency_hz b ->
  gpu_ticks_to_ns ticks b e =
    ticks * (cc_system e - cc_system b) / (cc_gpu e - cc_gpu b) * 1000000000 / cc_system_frequency_hz b.
Proof.
  unfold valid_clock_span. rewrite !andb_true_iff. intros Ht0 Hv [Ht Hg Hs Hf] Hspan.
  assert (0 < cc_system_frequency_hz b) by lia. assert (0 < cc_gpu e - cc_gpu b) by lia.
  assert (0 <= cc_system e - cc_system b) by lia.
  unfold gpu_ticks_to_ns. rewrite !u64_sub_small by lia.
  set (G := cc_gpu e - cc_gpu b) in *. set (S := cc_system e - cc_system b) in *.
  set (f := cc_system_frequency_hz b) in *.
  assert (U128_MOD = U64_MOD * U64_MOD) as HU by reflexivity.
  assert (0 <= ticks * S < U128_MOD) by (split; [lia|]; rewrite HU; apply Z.mul_lt_mono_nonneg; lia).
  rewrite (Z.mod_small (ticks * S)) by done.
  assert (0 <= ticks * S / G <= S) as Hq.
  { split; [apply Z.div_pos; lia|]. apply Z.div_le_upper_bound; nia. }
  assert (1000000000 < U64_MOD) by reflexivity.
  rewrite (Z.mod_small (_ * 1000000000)) by (split; [lia|]; rewrite HU; apply Z.mul_lt_mono_nonneg; lia).
  unfold to_u64. rewrite Z.mod_small; [done|]. split; [apply Z.div_pos; lia|].
  apply Z.div_lt_upper_bound; lia.
Qed.

(** Rounding: less than one nanosecond and one tick of the system clock. *)
Definition within_a_tick (ns ticks : Z) (b e : ClockCounters) : Prop :=
  let gpu_span := cc_gpu e - cc_gpu b in
  let exact := ticks * (cc_system e - cc_system b) * 1000000000 in
  ns * (gpu_span * cc_system_frequency_hz b) <= exact <
  (ns + 1) * (gpu_span * cc_system_frequency_hz b) + gpu_span * 1000000000.

Lemma ticks_within ticks b e :
  0 <= ticks -> valid_clock_span b e = true -> clock_wf ticks b e ->
  (cc_system e - cc_system b) * 1000000000 < U64_MOD * cc_system_frequency_hz b ->
  within_a_tick (gpu_ticks_to_ns ticks b e) ticks b e.
Proof.
  intros Ht Hv Hc Hspan. rewrite ticks_exact by done.
  unfold valid_clock_span in Hv. rewrite !andb_true_iff in Hv. destruct Hc as [_ Hg Hs Hf].
  unfold within_a_tick. cbv zeta.
  assert (0 < cc_system_frequency_hz b) by lia. assert (0 < cc_gpu e - cc_gpu b) by lia.
  set (G := cc_gpu e - cc_gpu b) in *. set (x := ticks * _). set (f := cc_system_frequency_hz b) in *.
  pose proof (Z.div_mod x G) as E1. pose proof (Z.mod_pos_bound x G) as B1.
  set (k := x / G) in *. pose proof (Z.div_mod (k * 1000000000) f) as E2.
  pose proof (Z.mod_pos_bound (k * 1000000000) f) as B2. set (n := _ / f) in *.
  nia.
Qed.

Section times.
Context {W : Type} `{!Transport W, !Threads W}.
Implicit Type s : runtime W.

(** An elapsed time that is reported is the time between the completions
    of the two events: the GPU ticks in between, scaled by the clock reports
    around them, to within a nanosecond and one tick of the system clock.  The
    128-bit products do not overflow, and the result fits 64 bits when the
    span of the reports does.  Nothing is changed. *)
Theorem elapsed_time_accurate start finish s a b ns s' :
  rt_events s !! start = Some a -> rt_events s !! finish = Some b ->
  0 <= ev_completion_tick a -> ev_completion_tick b < U64_MOD ->
  let ticks := ev_completion_tick b - ev_completion_tick a in
  clock_wf ticks (ev_record_clock a) (ev_completion_clock b) ->
  (cc_system (ev_completion_clock b) - cc_system (ev_record_clock a)) * 1000000000 <
    U64_MOD * cc_system_frequency_hz (ev_record_clock a) ->
  lr_event_elapsed_time_ns start finish s = Ok ((Success, ns), s') ->
  s' = s /\ 0 <= ticks /\ ev_completed a = true /\ ev_completed b = true /\
  within_a_tick ns ticks (ev_record_clock a) (ev_completion_clock b).
Proof.
  intros Ha Hb Hta Htb ticks Hc Hspan. unfold lr_event_elapsed_time_ns, mbind, kfd_bind, gets.
  destruct (g_initialized s); [|done]. cbn. unfold valid_event_locked, gets.
  destruct (bool_decide (start ∈ _)); [|done]. destruct (bool_decide (finish ∈ _)); [|done]. cbn.
  unfold get_event, dereference. rewrite Ha, Hb. destruct (_ || _) eqn:G; [done|].
  destruct (valid_clock_span _ _) eqn:Hv; [|done]. cbn. intros [= <- <-].
  rewrite !orb_false_iff, !negb_false_iff in G. assert (0 <= ticks) as Ht by (unfold ticks; lia).
  split_and!; [done|done|tauto|tauto|]. rewrite u64_sub_small by (unfold ticks in *; lia).
  by apply ticks_within.
Qed.
End times.
