(* ===== verification/MemoryRegistry.v ===== *)
(** * Allocation in the memory API

    The direct KFD part of [src/memory.cpp] that allocates, frees and looks up:
    the searches for a pointer in the registries, the pins that hold an
    allocation during a copy, [lr_malloc], [lr_free] and their pinned-host
    variants, the statistics, and the release of everything at shutdown.

    A pointer is its address, zero for null; an out-parameter is part of the
    result.  An iterator is its key: following it after its entry is gone is a
    fault.  That the registry's own node cannot be allocated, which the source
    does not catch, is left out. *)

From stdpp Require Import gmap.
From S2P Require Import Prelude Memory CodeObject ExecutableImage Topology AqlQueue KfdProducer Signal KfdKernel KfdMemory MemoryState RuntimeState DirectQueue DirectLaunch DirectApi.

Import LrStatus.

(** ** The transport *)

Class MemoryTransport (W : Type) := {
  (** The order in which an [unordered_map] is visited: the library's. *)
  m_order {A : Type} : gmap Z A -> list (Z * A);
  (** [KfdSession::allocate_device_vram] and [allocate_host]: success, and the
      allocation, which may own memory even on failure;
      [MemoryAllocation::operator bool]. *)
  m_allocate_device_vram : Node -> Z -> W -> (bool * GpuMemory) * W;
  m_allocate_host : Node -> Z -> W -> (bool * HostMemory) * W;
  m_owns_memory : GpuMemory -> W -> bool;
  (** [materialize_executable_image] and [ExecutableImage::release] of the
      transport. *)
  m_materialize_executable_image : Node -> bytes -> CodeObject -> W -> (ExecutableImageError.t * LoadedImage) * W;
  m_release_image : LoadedImage -> W -> (bool * LoadedImage) * W;
  (** [freeze_executable_image]: success, the operation, which may own memory
      on failure, and the queue, which may have been released with it;
      [CodeCacheOperation::release] with its queue, and the destructor. *)
  m_freeze_executable_image : Node -> AqlQueue -> LoadedImage -> W ->
    (bool * CodeCacheOperation * AqlQueue) * W;
  m_release_operation : CodeCacheOperation -> AqlQueue -> W -> (bool * CodeCacheOperation * AqlQueue) * W;
  m_drop_operation : CodeCacheOperation -> W -> W;
  (** The code object of the copy kernel, which the build generates. *)
  kLightRocrCopyKernelHsaco : bytes
}.

(** ** Searches *)

(** The body of the loop of [find_light_rocr_allocation]: the offset, when the
    bytes lie in the allocation. *)
Definition allocation_offset (address device size : Z) (entry : Z * LightRocrAllocationInfo) : option Z :=
  let '(base, info) := entry in
  if negb (ai_device_index info =? device) || ai_destroying info then None
  else if address <? base then None
  else
    let offset := address - base in
    if (offset >=? ai_requested_size info) || (size >? ai_requested_size info - offset) then None
    else Some offset.

(** The allocation's base, the offset in it and its entry. *)
Fixpoint find_light_rocr_allocation (entries : list (Z * LightRocrAllocationInfo))
    (address device size : Z) : option (Z * Z * LightRocrAllocationInfo) :=
  match entries with
  | [] => None
  | entry :: entries =>
      match allocation_offset address device size entry with
      | Some offset => Some (entry.1, offset, entry.2)
      | None => find_light_rocr_allocation entries address device size
      end
  end.

Definition translate_found (found : option (Z * Z * LightRocrAllocationInfo)) : Z :=
  match found with
  | None => 0
  | Some (_, offset, info) =>
      let gpu_address := gm_gpu_address (ai_allocation info) in
      if gpu_address >? UINT64_MAX - offset then 0 else gpu_address + offset
  end.

Module HostPointerLookup.
Inductive t :=
| Unregistered
| Valid (gpu_pointer base : Z)
| Invalid.
End HostPointerLookup.

(** [needs_gpu_pointer] says whether the caller passed [gpu_ptr]. *)
Fixpoint translate_light_rocr_host_pointer (entries : list (Z * LightRocrHostAllocationInfo))
    (address device size : Z) (needs_gpu_pointer : bool) : HostPointerLookup.t :=
  match entries with
  | [] => HostPointerLookup.Unregistered
  | (base, info) :: entries =>
      if (address <? base) || (address - base >=? hi_requested_size info) then
        translate_light_rocr_host_pointer entries address device size needs_gpu_pointer
      else
        let offset := address - base in
        let gpu_base := hm_gpu_address (hi_allocation info) in
        if negb (hi_device_index info =? device) || hi_destroying info ||
           (size >? hi_requested_size info - offset) then HostPointerLookup.Invalid
        else if needs_gpu_pointer && (gpu_base >? UINT64_MAX - offset) then HostPointerLookup.Invalid
        else HostPointerLookup.Valid (gpu_base + offset) base
  end.

Section registry.
Context {W : Type} `{!Transport W, !MemoryTransport W, !Threads W}.

Abbreviation M := (kfd (runtime W)).

Definition find_allocation (address device size : Z) : M (option (Z * Z * LightRocrAllocationInfo)) :=
  gets (fun s => find_light_rocr_allocation
    (m_order (g_light_rocr_allocations (g_memory s))) address device size).

Definition translate_direct_kfd_device_pointer (address device size : Z) : M Z :=
  found ← find_allocation address device size;
  mret (translate_found found).

Definition find_host_pointer (address device size : Z) (needs_gpu_pointer : bool)
  : M HostPointerLookup.t :=
  gets (fun s => translate_light_rocr_host_pointer
    (m_order (g_light_rocr_host_allocations (g_memory s))) address device size needs_gpu_pointer).

(** ** The registries *)

Definition allocation_entry (base : Z) : M (option LightRocrAllocationInfo) :=
  gets (fun s => g_light_rocr_allocations (g_memory s) !! base).

Definition host_entry (base : Z) : M (option LightRocrHostAllocationInfo) :=
  gets (fun s => g_light_rocr_host_allocations (g_memory s) !! base).

Definition modify_memory (f : memory_globals -> memory_globals) : M unit :=
  modify (fun s => set_g_memory (f (g_memory s)) s).

Definition put_allocation (base : Z) (info : LightRocrAllocationInfo) : M unit :=
  modify_memory (fun g => set_allocations (<[base := info]> (g_light_rocr_allocations g)) g).

Definition put_host_allocation (base : Z) (info : LightRocrHostAllocationInfo) : M unit :=
  modify_memory (fun g => set_host_allocations (<[base := info]> (g_light_rocr_host_allocations g)) g).

(** [iterator->second] *)
Definition get_allocation (base : Z) : M LightRocrAllocationInfo :=
  found ← allocation_entry base;
  match found with Some info => mret info | None => failed_assert end.

Definition get_host_allocation (base : Z) : M LightRocrHostAllocationInfo :=
  found ← host_entry base;
  match found with Some info => mret info | None => failed_assert end.

Definition update_allocation (base : Z) (f : LightRocrAllocationInfo -> LightRocrAllocationInfo) : M unit :=
  info ← get_allocation base;
  put_allocation base (f info).

Definition update_host_allocation (base : Z) (f : LightRocrHostAllocationInfo -> LightRocrHostAllocationInfo)
  : M unit :=
  info ← get_host_allocation base;
  put_host_allocation base (f info).

Definition erase_allocation (base : Z) : M unit :=
  modify_memory (fun g => set_allocations (delete base (g_light_rocr_allocations g)) g).

Definition erase_host_allocation (base : Z) : M unit :=
  modify_memory (fun g => set_host_allocations (delete base (g_light_rocr_host_allocations g)) g).

Definition update_stats (device : Z) (f : lr_memory_stats_t -> lr_memory_stats_t) : M unit :=
  update_device device (fun state => set_ds_memory_stats (f (ds_memory_stats state)) state).

(** ** Pins

    [LightRocrMemoryOperationPins]: the bases pinned so far are what the
    destructor unpins. *)

Definition pin_device (base : Z) : M bool :=
  found ← allocation_entry base;
  match found with
  | None => mret false
  | Some info =>
      if ai_destroying info then mret false
      else
        pushed ← below t_new;
        if negb pushed then mret false
        else
          put_allocation base (set_ai_active_operations (u64_add (ai_active_operations info) 1) info) ;;
          mret true
  end.

Definition pin_host (base : Z) : M bool :=
  found ← host_entry base;
  match found with
  | None => mret false
  | Some info =>
      if hi_destroying info then mret false
      else
        pushed ← below t_new;
        if negb pushed then mret false
        else
          put_host_allocation base
            (set_hi_active_operations (u64_add (hi_active_operations info) 1) info) ;;
          mret true
  end.

(** The bases in order, up to the first that cannot be pinned. *)
Fixpoint pin_all (pin : Z -> M bool) (bases : list Z) : M (bool * list Z) :=
  match bases with
  | [] => mret (true, [])
  | base :: bases =>
      pinned ← pin base;
      if negb pinned then mret (false, [])
      else
        '(all, pins) ← pin_all pin bases;
        mret (all, base :: pins)
  end.

Definition unpin_device (base : Z) : M unit :=
  found ← allocation_entry base;
  match found with
  | None => mret tt
  | Some info =>
      put_allocation base (set_ai_active_operations (u64_sub (ai_active_operations info) 1) info)
  end.

Definition unpin_host (base : Z) : M unit :=
  found ← host_entry base;
  match found with
  | None => mret tt
  | Some info =>
      put_host_allocation base
        (set_hi_active_operations (u64_sub (hi_active_operations info) 1) info)
  end.

Fixpoint unpin_all (unpin : Z -> M unit) (bases : list Z) : M unit :=
  match bases with
  | [] => mret tt
  | base :: bases => unpin base ;; unpin_all unpin bases
  end.

Definition wait_for_all_light_rocr_memory_operations_locked : M unit :=
  wait_until (gets (fun s =>
    forallb (fun entry => (ai_active_operations entry.2 =? 0) && negb (ai_destroying entry.2))
      (m_order (g_light_rocr_allocations (g_memory s))) &&
    forallb (fun entry => (hi_active_operations entry.2 =? 0) && negb (hi_destroying entry.2))
      (m_order (g_light_rocr_host_allocations (g_memory s))))).

(** ** Device memory *)

Definition release_or_retain_light_rocr_cleanup (allocation : GpuMemory) : M unit :=
  owned ← gets (fun s => m_owns_memory allocation (rt_world s));
  if negb owned then mret tt
  else
    released ← below (t_release_memory allocation);
    if (released : bool) then mret tt
    else
      pushed ← below t_new;
      if (pushed : bool) then
        modify_memory (fun g =>
          set_pending_cleanup (g_light_rocr_pending_cleanup g ++ [allocation]) g)
      else
        _ ← below (t_release_memory allocation);
        mret tt.

(** The entry and the statistics of a successful allocation. *)
Definition register_allocation (device size : Z) (allocation : GpuMemory) : M (LrStatus.t * Z) :=
  let device_ptr := gm_gpu_address allocation in
  if (device_ptr =? 0) || (device_ptr >? UINT64_MAX) then
    release_or_retain_light_rocr_cleanup allocation ;; mret (RuntimeError, 0)
  else
    known ← allocation_entry device_ptr;
    match known with
    | Some _ => release_or_retain_light_rocr_cleanup allocation ;; mret (RuntimeError, 0)
    | None =>
        put_allocation device_ptr (mkAllocationInfo device size 0 false allocation) ;;
        update_stats device (record_allocation size) ;;
        mret (Success, device_ptr)
    end.

(** The device takes allocations: it exists and is opened. *)
Definition device_opened (device : Z) : M bool :=
  known ← device_in_range device;
  if negb known then mret false
  else
    state ← get_device device;
    mret (ds_opened state).

Definition lr_malloc (device size : Z) : M (LrStatus.t * Z) :=
  initialized ← gets g_initialized;
  if negb initialized then mret (NotInitialized, 0)
  else
    opened ← device_opened device;
    session ← gets g_kfd_session;
    if (size =? 0) || negb opened || negb session then mret (InvalidArgument, 0)
    else if (size >? UINT64_MAX - (kMemoryPageSize - 1)) ||
            (size >? UINT64_MAX - (kVramAllocationGranule - 1)) then mret (InvalidArgument, 0)
    else
      let allocation_size := Z.land (size + kVramAllocationGranule - 1)
        (UINT64_MAX - (kVramAllocationGranule - 1)) in
      state ← get_device device;
      '(allocated, allocation) ← below (m_allocate_device_vram (ds_node state) allocation_size);
      if negb allocated then
        release_or_retain_light_rocr_cleanup allocation ;; mret (RuntimeError, 0)
      else register_allocation device size allocation.

(** The entry can be used again after a failed release. *)
Definition keep_allocation (base : Z) (status : LrStatus.t) : M LrStatus.t :=
  update_allocation base (set_ai_destroying false) ;; mret status.

Definition lr_free (device ptr : Z) : M LrStatus.t :=
  initialized ← gets g_initialized;
  if negb initialized then mret NotInitialized
  else
    opened ← device_opened device;
    if (ptr =? 0) || negb opened then mret InvalidArgument
    else
      found ← allocation_entry ptr;
      match found with
      | None => mret InvalidArgument
      | Some info =>
          if negb (ai_device_index info =? device) || ai_destroying info then mret InvalidArgument
          else
            put_allocation ptr (set_ai_destroying true info) ;;
            wait_until (current ← allocation_entry ptr;
              mret (match current with None => true | Some info => ai_active_operations info =? 0 end)) ;;
            synchronization_status ← synchronize_direct_kfd_device device;
            if negb (succeeded synchronization_status) then keep_allocation ptr synchronization_status
            else
              info ← get_allocation ptr;
              released ← below (t_release_memory (ai_allocation info));
              if negb released then keep_allocation ptr RuntimeError
              else
                erase_allocation ptr ;;
                update_stats device (record_free (ai_requested_size info)) ;;
                mret Success
      end.

(** ** Pinned host memory *)

Definition lr_host_malloc (device size : Z) : M (LrStatus.t * Z) :=
  initialized ← gets g_initialized;
  if negb initialized then mret (NotInitialized, 0)
  else
    opened ← device_opened device;
    session ← gets g_kfd_session;
    if (size =? 0) || negb opened || negb session then mret (InvalidArgument, 0)
    else
      state ← get_device device;
      '(allocated, allocation) ← below (m_allocate_host (ds_node state) size);
      let host_ptr := hm_host_address allocation in
      known ← host_entry host_ptr;
      if negb allocated || (host_ptr =? 0) || bool_decide (is_Some known) then
        _ ← below (t_release_host_memory allocation);
        mret (RuntimeError, 0)
      else
        put_host_allocation host_ptr (mkHostAllocationInfo device size 0 false allocation) ;;
        update_stats device (record_host_allocation size) ;;
        mret (Success, host_ptr).

Definition keep_host_allocation (base : Z) (status : LrStatus.t) : M LrStatus.t :=
  update_host_allocation base (set_hi_destroying false) ;; mret status.

Definition lr_host_free (device ptr : Z) : M LrStatus.t :=
  initialized ← gets g_initialized;
  if negb initialized then mret NotInitialized
  else
    opened ← device_opened device;
    if (ptr =? 0) || negb opened then mret InvalidArgument
    else
      found ← host_entry ptr;
      match found with
      | None => mret InvalidArgument
      | Some info =>
          if negb (hi_device_index info =? device) || hi_destroying info then mret InvalidArgument
          else
            put_host_allocation ptr (set_hi_destroying true info) ;;
            wait_until (current ← host_entry ptr;
              mret (match current with None => true | Some info => hi_active_operations info =? 0 end)) ;;
            synchronization_status ← synchronize_direct_kfd_device device;
            if negb (succeeded synchronization_status) then keep_host_allocation ptr synchronization_status
            else
              info ← get_host_allocation ptr;
              released ← below (t_release_host_memory (hi_allocation info));
              if negb released then keep_host_allocation ptr RuntimeError
              else
                erase_host_allocation ptr ;;
                update_stats device (record_host_free (hi_requested_size info)) ;;
                mret Success
      end.

(** ** Statistics *)

Definition lr_get_memory_stats (device : Z) : M (LrStatus.t * lr_memory_stats_t) :=
  initialized ← gets g_initialized;
  if negb initialized then mret (NotInitialized, no_stats)
  else
    known ← device_in_range device;
    if negb known then mret (InvalidArgument, no_stats)
    else
      state ← get_device device;
      mret (Success, ds_memory_stats state).

Definition lr_reset_memory_stats (device : Z) : M LrStatus.t :=
  initialized ← gets g_initialized;
  if negb initialized then mret NotInitialized
  else
    known ← device_in_range device;
    if negb known then mret InvalidArgument
    else
      update_stats device reset_stats ;;
      mret Success.

(** ** Shutdown *)

(** A device that is gone has no statistics to update. *)
Definition record_release (device : Z) (f : lr_memory_stats_t -> lr_memory_stats_t) : M unit :=
  known ← device_in_range device;
  if (known : bool) then update_stats device f else mret tt.

Fixpoint release_allocations (entries : list (Z * LightRocrAllocationInfo)) (result : LrStatus.t)
  : M LrStatus.t :=
  match entries with
  | [] => mret result
  | (base, info) :: entries =>
      released ← below (t_release_memory (ai_allocation info));
      if negb released then release_allocations entries (first_failure result RuntimeError)
      else
        record_release (ai_device_index info) (record_free (ai_requested_size info)) ;;
        erase_allocation base ;;
        release_allocations entries result
  end.

(** What could not be released stays in the list. *)
Fixpoint release_pending_cleanup (allocations : list GpuMemory) (result : LrStatus.t)
  : M (LrStatus.t * list GpuMemory) :=
  match allocations with
  | [] => mret (result, [])
  | allocation :: allocations =>
      released ← below (t_release_memory allocation);
      if (released : bool) then release_pending_cleanup allocations result
      else
        '(result, kept) ← release_pending_cleanup allocations (first_failure result RuntimeError);
        mret (result, allocation :: kept)
  end.

Fixpoint release_host_allocations (entries : list (Z * LightRocrHostAllocationInfo))
    (result : LrStatus.t) : M LrStatus.t :=
  match entries with
  | [] => mret result
  | (base, info) :: entries =>
      released ← below (t_release_host_memory (hi_allocation info));
      if negb released then release_host_allocations entries (first_failure result RuntimeError)
      else
        record_release (hi_device_index info) (record_host_free (hi_requested_size info)) ;;
        erase_host_allocation base ;;
        release_host_allocations entries result
  end.

Definition release_memory_allocations_locked (result : LrStatus.t) : M LrStatus.t :=
  entries ← gets (fun s => m_order (g_light_rocr_allocations (g_memory s)));
  result ← release_allocations entries result;
  pending ← gets (fun s => g_light_rocr_pending_cleanup (g_memory s));
  '(result, kept) ← release_pending_cleanup pending result;
  modify_memory (set_pending_cleanup kept) ;;
  entries ← gets (fun s => m_order (g_light_rocr_host_allocations (g_memory s)));
  release_host_allocations entries result.
End registry.
