(* ===== verification/MemoryCopy.v ===== *)
(** * Copies of the memory API

    The direct KFD part of [src/memory.cpp] that copies: the copy kernel and
    its staging buffer, the launch of one copy, [lr_memcpy], which stages host
    bytes and overlapping ranges chunk by chunk, and the asynchronous copies. *)

From stdpp Require Import gmap.
From S2P Require Import Prelude Memory CodeObject ElfReader ExecutableImage HiddenKernargs Topology AqlQueue KfdProducer Signal KfdKernel KfdMemory MemoryState RuntimeState DirectQueue DirectLaunch DirectApi DirectEvents MemoryRegistry.

Import LrStatus.

Definition kDirectKfdStagingSize : Z := 64 * 1024 * 1024.
Definition kLightRocrCopyKernelName : string := "lrrt_copy_bytes".
Definition kBlockSize : Z := 256.
Definition kMaximumWorkgroups : Z := 4096.

(** ** Parameters of one copy *)

Definition copy_workgroups (size : Z) : Z :=
  Z.min (1 + (size - 1) / kBlockSize) kMaximumWorkgroups.

(** [CopyArguments], as the five words of the kernel's parameters. *)
Record CopyArguments := mkCopyArguments {
  ca_source : Z;
  ca_destination : Z;
  ca_size : Z;
  ca_stride : Z;
  ca_workgroup_size : Z
}.

Definition copy_arguments (destination source size : Z) : CopyArguments :=
  mkCopyArguments source destination size (copy_workgroups size * kBlockSize) kBlockSize.

Definition copy_arguments_bytes (arguments : CopyArguments) : bytes :=
  le_bytes 8 (ca_source arguments) ++ le_bytes 8 (ca_destination arguments) ++
  le_bytes 8 (ca_size arguments) ++ le_bytes 8 (ca_stride arguments) ++
  le_bytes 8 (ca_workgroup_size arguments).

Definition copy_config (size : Z) : lr_launch_config_t :=
  mkLaunchConfig (mkDim3 (to_u32 (copy_workgroups size * kBlockSize)) 1 1) (mkDim3 kBlockSize 1 1) 0.

(** The kernel of the copies among the kernels of its code object. *)
Definition is_copy_kernel (kernel : KernelInfo) : bool :=
  bool_decide (ki_name kernel = kLightRocrCopyKernelName) ||
  bool_decide (ki_symbol_name kernel = kLightRocrCopyKernelName).

Section copy.
Context {W : Type} `{!Transport W, !MemoryTransport W, !Threads W}.

Abbreviation M := (kfd (runtime W)).

(** ** The copy state of a device *)

(** [(void)image.release()] *)
Definition drop_image (image : LoadedImage) : M unit :=
  _ ← below (m_release_image image); mret tt.

(** The staging buffer, and the state that owns it with the image. *)
Definition finish_copy_state (device : Z) (node : Node) (image : LoadedImage) (kernel_index : nat)
  : M LrStatus.t :=
  '(allocated, staging) ← below (t_allocate_gtt node kDirectKfdStagingSize);
  constructed ← (if (allocated : bool) then below t_new else mret false);
  if negb constructed then
    _ ← below (t_release_memory staging);
    drop_image image ;;
    mret RuntimeError
  else
    update_device device (set_ds_copy_state (Some (mkCopyState image kernel_index (Some staging)))) ;;
    mret Success.

Definition ensure_direct_kfd_copy_state_locked (device : Z) : M LrStatus.t :=
  state ← get_device device;
  session ← gets g_kfd_session;
  match ds_default_queue state with
  | None => mret InvalidArgument
  | Some queue =>
      if negb session then mret InvalidArgument
      else if bool_decide (is_Some (ds_copy_state state)) then mret Success
      else
        let hsaco := kLightRocrCopyKernelHsaco in
        parsed ← lift (parse_code_object (Some hsaco) (size_of hsaco));
        if negb (parse_ok parsed) then mret RuntimeError
        else
          '(error, image) ← below (m_materialize_executable_image (ds_node state) hsaco
            (pr_code_object parsed));
          if negb (bool_decide (error = ExecutableImageError.None)) then
            (if bool_decide (is_Some (li_allocation image)) then drop_image image else mret tt) ;;
            mret RuntimeError
          else
            match find_index is_copy_kernel (co_kernels (ii_code_object (li_info image))) with
            | None => drop_image image ;; mret RuntimeError
            | Some kernel_index =>
                object ← get_queue queue;
                '(frozen, operation, frozen_queue) ←
                  below (m_freeze_executable_image (ds_node state) (lq_queue object) image);
                update_queue queue (set_lq_queue frozen_queue) ;;
                status ← (if negb frozen then drop_image image ;; mret RuntimeError
                          else finish_copy_state device (ds_node state) image kernel_index);
                below_ (m_drop_operation operation) ;;
                mret status
            end
  end.

(** The part of a copy state that could not be released stays. *)
Definition release_copy_state (device : Z) (result : LrStatus.t) : M LrStatus.t :=
  state ← get_device device;
  match ds_copy_state state with
  | None => mret result
  | Some copy =>
      staging_released ←
        match cs_staging copy with
        | Some staging => below (t_release_memory staging)
        | None => mret true
        end;
      '(image_released, image) ←
        (if bool_decide (is_Some (li_allocation (cs_executable_image copy)))
         then below (m_release_image (cs_executable_image copy))
         else mret (true, cs_executable_image copy));
      if (staging_released : bool) && image_released then
        update_device device (set_ds_copy_state None) ;;
        mret result
      else
        let staging := if (staging_released : bool) then (fun _ => mkGpuMemory 0 0 0) <$> cs_staging copy
                       else cs_staging copy in
        update_device device
          (set_ds_copy_state (Some (mkCopyState image (cs_image_kernel_index copy) staging))) ;;
        mret (first_failure result RuntimeError)
  end.

Fixpoint release_copy_states (devices : list Z) (result : LrStatus.t) : M LrStatus.t :=
  match devices with
  | [] => mret result
  | device :: devices =>
      result ← release_copy_state device result;
      release_copy_states devices result
  end.

Definition release_direct_kfd_copy_states_locked (result : LrStatus.t) : M LrStatus.t :=
  count ← gets (fun s => length (g_devices s));
  release_copy_states (Z.of_nat <$> seq 0 count) result.

(** ** One copy *)

Definition submit_direct_kfd_copy_locked (device destination source size : Z)
    (completion_event : option event_ptr) (dependencies : list event_ptr) : M LrStatus.t :=
  state ← get_device device;
  match ds_copy_state state, ds_default_queue state with
  | Some copy, Some queue =>
      if size =? 0 then mret InvalidArgument
      else
        let arguments := copy_arguments_bytes (copy_arguments destination source size) in
        submit_status ← submit_direct_kfd_kernel_impl_locked device queue
          (li_info (cs_executable_image copy)) (cs_image_kernel_index copy) (copy_config size)
          (Some arguments) (size_of arguments) completion_event dependencies false;
        if negb (succeeded submit_status) then mret submit_status
        else if bool_decide (is_Some completion_event) then mret Success
        else synchronize_direct_kfd_queue_locked queue
  | _, _ => mret InvalidArgument
  end.

(** [std::memcpy] between host addresses. *)
Definition host_copy (destination source size : Z) : M unit :=
  contents ← gets (fun s => t_bytes source size (rt_world s));
  below_ (t_set_bytes destination contents).

(** ** Loops of [lr_memcpy]; [copy destination source size] is one copy *)

Section chunks.
Context (copy : Z -> Z -> Z -> M LrStatus.t) (staging : GpuMemory).

(** The body of the loop to the device: host bytes are staged, then copied. *)
Definition chunk_to_device (destination source offset chunk : Z) : M LrStatus.t :=
  host_copy (gm_host_address staging) (source + offset) chunk ;;
  copy (u64_add destination offset) (gm_gpu_address staging) chunk.

Definition chunk_to_host (destination source offset chunk : Z) : M LrStatus.t :=
  status ← copy (gm_gpu_address staging) (u64_add source offset) chunk;
  if negb (succeeded status) then mret status
  else
    host_copy (destination + offset) (gm_host_address staging) chunk ;;
    mret status.

(** Between overlapping ranges of the device: in and out of the staging buffer. *)
Definition chunk_on_device (destination source offset chunk : Z) : M LrStatus.t :=
  status ← copy (gm_gpu_address staging) (u64_add source offset) chunk;
  if succeeded status then copy (u64_add destination offset) (gm_gpu_address staging) chunk
  else mret status.

(** [for (offset = 0; offset < size;) { chunk = min(size - offset, staging.size()); ... }],
    where [step offset chunk] is the body. *)
Fixpoint chunks_forward (step : Z -> Z -> M LrStatus.t) (fuel : nat) (size offset : Z) : M LrStatus.t :=
  if offset >=? size then mret Success
  else
    match fuel with
    | O => out_of_fuel
    | S fuel =>
        let chunk := Z.min (size - offset) (gm_size staging) in
        status ← step offset chunk;
        if negb (succeeded status) then mret status
        else chunks_forward step fuel size (offset + chunk)
    end.

(** [while (remaining != 0) ...], from the end. *)
Fixpoint chunks_backward (step : Z -> Z -> M LrStatus.t) (fuel : nat) (remaining : Z) : M LrStatus.t :=
  if remaining =? 0 then mret Success
  else
    match fuel with
    | O => out_of_fuel
    | S fuel =>
        let chunk := Z.min remaining (gm_size staging) in
        let offset := remaining - chunk in
        status ← step offset chunk;
        if negb (succeeded status) then mret status
        else chunks_backward step fuel offset
    end.

(** Each round but the last moves a full staging buffer. *)
Definition chunk_count (size : Z) : nat := S (Z.to_nat (size / gm_size staging)).

Definition copy_device_to_device (destination source size : Z) : M LrStatus.t :=
  if negb ((destination <? u64_add source size) && (source <? u64_add destination size)) then
    copy destination source size
  else if destination >? source then
    chunks_backward (chunk_on_device destination source) (chunk_count size) size
  else if destination <? source then
    chunks_forward (chunk_on_device destination source) (chunk_count size) size 0
  else mret Success.

(** [dst] and [src] are the caller's pointers, the other two their device
    addresses. *)
Definition copy_chunks (kind : lr_memcpy_kind_t) (dst src device_destination device_source size : Z)
  : M LrStatus.t :=
  match kind with
  | HostToDevice => chunks_forward (chunk_to_device device_destination src) (chunk_count size) size 0
  | DeviceToHost => chunks_forward (chunk_to_host dst device_source) (chunk_count size) size 0
  | DeviceToDevice => copy_device_to_device device_destination device_source size
  end.
End chunks.

(** ** [lr_memcpy] *)

(** The device addresses and the allocations they are in; [None] when a
    pointer is not in one allocation of the device. *)
Record copy_operands := mkOperands {
  op_device_destination : Z;
  op_device_source : Z;
  op_device_bases : list Z
}.

Definition device_operand (address device size : Z) : M (option (Z * Z)) :=
  found ← find_allocation address device size;
  translated ← translate_direct_kfd_device_pointer address device size;
  mret (match found with
        | Some (base, _, _) =>
            if (translated =? 0) || (base =? 0) then None else Some (translated, base)
        | None => None
        end).

Definition resolve_operands (kind : lr_memcpy_kind_t) (dst src device size : Z)
  : M (option copy_operands) :=
  match kind with
  | HostToDevice =>
      destination ← device_operand dst device size;
      mret (destination ≫= fun '(address, base) => Some (mkOperands address 0 [base]))
  | DeviceToHost =>
      source ← device_operand src device size;
      mret (source ≫= fun '(address, base) => Some (mkOperands 0 address [base]))
  | DeviceToDevice =>
      destination ← device_operand dst device size;
      source ← device_operand src device size;
      mret (destination ≫= fun '(d, d_base) => source ≫= fun '(s, s_base) =>
        Some (mkOperands d s [d_base; s_base]))
  end.

(** The pinned host allocation of the host operand, if it is in one; [None] is
    an invalid pointer. *)
Definition resolve_host_operand (kind : lr_memcpy_kind_t) (dst src device size : Z)
  : M (option (list Z)) :=
  let lookup address :=
    found ← find_host_pointer address device size false;
    mret (match found with
          | HostPointerLookup.Invalid => None
          | HostPointerLookup.Unregistered => Some []
          | HostPointerLookup.Valid _ base => Some [base]
          end) in
  match kind with
  | HostToDevice => lookup src
  | DeviceToHost => lookup dst
  | DeviceToDevice => mret (Some [])
  end.

(** What happens while the operands are pinned. *)
Definition copy_pinned (kind : lr_memcpy_kind_t) (dst src device size : Z) (operands : copy_operands)
  : M LrStatus.t :=
  initial_sync ← synchronize_direct_kfd_device device;
  if negb (succeeded initial_sync) then mret initial_sync
  else
    copy_state_status ← ensure_direct_kfd_copy_state_locked device;
    if negb (succeeded copy_state_status) then mret copy_state_status
    else
      state ← get_device device;
      match ds_copy_state state with
      | None => failed_assert
      | Some copy =>
          match cs_staging copy with
          | None => mret RuntimeError
          | Some staging =>
              if (gm_host_address staging =? 0) || (gm_gpu_address staging =? 0) then mret RuntimeError
              else
                copy_status ← copy_chunks
                  (fun destination source size =>
                     submit_direct_kfd_copy_locked device destination source size None [])
                  staging kind dst src (op_device_destination operands) (op_device_source operands) size;
                if negb (succeeded copy_status) then mret copy_status
                else
                  update_stats device (record_memcpy kind size) ;;
                  mret Success
          end
      end.

(** [kind] is [None] for a value that is not one of the enumeration. *)
Definition lr_memcpy (device dst src size : Z) (kind : option lr_memcpy_kind_t) : M LrStatus.t :=
  initialized ← gets g_initialized;
  if negb initialized then mret NotInitialized
  else
    opened ← device_opened device;
    session ← gets g_kfd_session;
    match kind with
    | None => mret InvalidArgument
    | Some kind =>
        if (dst =? 0) || (src =? 0) || (size =? 0) || negb opened || negb session then
          mret InvalidArgument
        else
          operands ← resolve_operands kind dst src device size;
          match operands with
          | None => mret InvalidArgument
          | Some operands =>
              host ← resolve_host_operand kind dst src device size;
              match host with
              | None => mret InvalidArgument
              | Some host_bases =>
                  '(devices_pinned, device_pins) ← pin_all pin_device (op_device_bases operands);
                  '(host_pinned, host_pins) ←
                    (if (devices_pinned : bool) then pin_all pin_host host_bases else mret (false, []));
                  status ←
                    (if (host_pinned : bool) then copy_pinned kind dst src device size operands
                     else mret InvalidArgument);
                  unpin_all unpin_device device_pins ;;
                  unpin_all unpin_host host_pins ;;
                  mret status
              end
          end
    end.

(** ** Asynchronous copies *)

(** The addresses of the copy, and whether the host operand is pageable:
    its address is that of a staging buffer to be made. *)
Definition async_operands (kind : lr_memcpy_kind_t) (dst src device size : Z)
  : M (LrStatus.t + Z * Z * bool) :=
  match kind with
  | HostToDevice =>
      destination ← translate_direct_kfd_device_pointer dst device size;
      lookup ← find_host_pointer src device size true;
      mret (if destination =? 0 then inl InvalidArgument
            else match lookup with
                 | HostPointerLookup.Invalid => inl InvalidArgument
                 | HostPointerLookup.Unregistered => inr (destination, 0, true)
                 | HostPointerLookup.Valid source _ => inr (destination, source, false)
                 end)
  | DeviceToHost =>
      source ← translate_direct_kfd_device_pointer src device size;
      lookup ← find_host_pointer dst device size true;
      mret (if source =? 0 then inl InvalidArgument
            else match lookup with
                 | HostPointerLookup.Invalid => inl InvalidArgument
                 | HostPointerLookup.Unregistered => inr (0, source, true)
                 | HostPointerLookup.Valid destination _ => inr (destination, source, false)
                 end)
  | DeviceToDevice =>
      destination ← translate_direct_kfd_device_pointer dst device size;
      source ← translate_direct_kfd_device_pointer src device size;
      let distance := if destination <? source then source - destination else destination - source in
      mret (if (destination =? 0) || (source =? 0) then inl InvalidArgument
            else if negb (destination =? source) && (distance <? size) then inl NotSupported
            else inr (destination, source, false))
  end.

(** The staging buffer of a pageable copy, owned by the event; the result is
    its address. *)
Definition stage_pageable (kind : lr_memcpy_kind_t) (dst src device size : Z) (event : event_ptr)
  : M (option Z) :=
  state ← get_device device;
  '(allocated, staging) ← below (m_allocate_host (ds_node state) size);
  if negb allocated || (hm_gpu_address staging =? 0) || (hm_host_address staging =? 0) then
    _ ← below (t_release_host_memory staging);
    mret None
  else
    (if bool_decide (kind = HostToDevice) then host_copy (hm_host_address staging) src size
     else mret tt) ;;
    update_event event (fun e =>
      set_ev_pageable_copy_staging (Some staging)
        (set_ev_pageable_copy_destination (if bool_decide (kind = DeviceToHost) then dst else 0)
           (set_ev_pageable_copy_size size e))) ;;
    mret (Some (hm_gpu_address staging)).

(** A copy that was not submitted: its staging buffer goes. *)
Definition drop_pageable (event : event_ptr) (status : LrStatus.t) : M LrStatus.t :=
  object ← get_event event;
  match ev_pageable_copy_staging object with
  | None => mret status
  | Some staging =>
      _ ← below (t_release_host_memory staging);
      update_event event (fun e =>
        set_ev_pageable_copy_staging None
          (set_ev_pageable_copy_destination 0 (set_ev_pageable_copy_size 0 e))) ;;
      mret status
  end.

(** The copy proper, once the event is free and the operands are known. *)
Definition submit_async (kind : lr_memcpy_kind_t) (dst src device size destination source : Z)
    (pageable : bool) (event : event_ptr) (dependencies : list event_ptr) : M LrStatus.t :=
  staged ← (if pageable then stage_pageable kind dst src device size event else mret (Some 0));
  match staged with
  | None => mret RuntimeError
  | Some staging =>
      let destination := if pageable && bool_decide (kind = DeviceToHost) then staging else destination in
      let source := if pageable && bool_decide (kind = HostToDevice) then staging else source in
      copy_state_status ← ensure_direct_kfd_copy_state_locked device;
      if negb (succeeded copy_state_status) then drop_pageable event copy_state_status
      else
        submit_status ← submit_direct_kfd_copy_locked device destination source size (Some event)
          dependencies;
        if negb (succeeded submit_status) then drop_pageable event submit_status
        else
          update_stats device (record_memcpy kind size) ;;
          mret Success
  end.

(** The event is valid, of the device and not going away. *)
Definition async_event_usable (event : event_ptr) (device : Z) : M bool :=
  known ← valid_event_locked event;
  if negb known then mret false
  else
    object ← get_event event;
    mret ((ev_device object =? device) && negb (ev_destroying object)).

Definition memcpy_async_impl (device dst src size : Z) (kind : option lr_memcpy_kind_t)
    (event : option event_ptr) (explicit_dependencies : option (list (option event_ptr)))
    (dependency_count : Z) (use_implicit_dependencies : bool) : M LrStatus.t :=
  initialized ← gets g_initialized;
  if negb initialized then mret NotInitialized
  else
    match kind, event with
    | Some kind, Some event =>
        opened ← device_opened device;
        session ← gets g_kfd_session;
        usable ← async_event_usable event device;
        if (dst =? 0) || (src =? 0) || (size =? 0) || negb opened || negb session || negb usable then
          mret InvalidArgument
        else
          object ← get_event event;
          wait_status ← (if ev_pending object then wait_for_direct_kfd_event_locked event
                         else mret Success);
          if negb (succeeded wait_status) then mret wait_status
          else
            consumer_status ← wait_for_direct_kfd_event_consumers event;
            if negb (succeeded consumer_status) then mret consumer_status
            else
              '(dependency_status, dependencies) ←
                (if use_implicit_dependencies then mret (Success, [])
                 else collect_direct_kfd_event_dependencies_locked device explicit_dependencies
                        dependency_count (Some event));
              if negb (succeeded dependency_status) then mret dependency_status
              else
                operands ← async_operands kind dst src device size;
                match operands with
                | inl status => mret status
                | inr (destination, source, pageable) =>
                    submit_async kind dst src device size destination source pageable event dependencies
                end
    | _, _ => mret InvalidArgument
    end.

Definition lr_memcpy_async device dst src size kind event : M LrStatus.t :=
  memcpy_async_impl device dst src size kind event None 0 true.

Definition lr_memcpy_async_with_dependencies device dst src size kind event dependencies
    dependency_count : M LrStatus.t :=
  memcpy_async_impl device dst src size kind event dependencies dependency_count false.
End copy.
