(* ===== verification/CopyKernel.v ===== *)
(** * The copy kernel

    [src/light_rocr_copy_kernel.cpp], run over the grid of [copy_config] with
    the arguments of [copy_arguments].  A work item copies the bytes at its
    offsets one by one; the device interleaves the work items as it likes, so
    an execution is any order of all their offsets. *)

From stdpp Require Import gmap.
From S2P Require Import Prelude Memory HiddenKernargs Topology AqlQueue Signal KfdKernel MemoryState RuntimeState DirectQueue DirectLaunch DirectApi RuntimeFacts MemoryRegistry MemoryCopy.

Definition contents := Z -> byte.

Definition store (address : Z) (value : byte) (m : contents) : contents :=
  fun a => if a =? address then value else m a.

(** The offsets of the [for] loop from [offset] on; [None] when they do not
    end. *)
Fixpoint loop_offsets (fuel : nat) (size stride offset : Z) : option (list Z) :=
  if offset <? size then
    match fuel with
    | O => None
    | S fuel => cons offset <$> loop_offsets fuel size stride (u64_add offset stride)
    end
  else Some [].

(** The work item [threadIdx.x] of the workgroup [blockIdx.x]. *)
Definition item_offsets (arguments : CopyArguments) (item : Z * Z) : option (list Z) :=
  let '(block, thread) := item in
  loop_offsets (S (Z.to_nat (ca_size arguments / ca_stride arguments))) (ca_size arguments)
    (ca_stride arguments) (u64_add (u64_mul block (ca_workgroup_size arguments)) thread).

(** The work items of a one-dimensional grid of whole workgroups. *)
Definition grid_items (config : lr_launch_config_t) : list (Z * Z) :=
  let threads := dim_x (cfg_block config) in
  block ← seqZ 0 (dim_x (cfg_grid config) / threads);
  thread ← seqZ 0 threads;
  [(block, thread)].

Definition grid_offsets (config : lr_launch_config_t) (arguments : CopyArguments) : option (list Z) :=
  mjoin <$> mapM (item_offsets arguments) (grid_items config).

(** [destination[offset] = source[offset];] *)
Definition copy_byte (arguments : CopyArguments) (m : contents) (offset : Z) : contents :=
  store (u64_add (ca_destination arguments) offset) (m (u64_add (ca_source arguments) offset)) m.

Definition run_order (arguments : CopyArguments) (order : list Z) (m : contents) : contents :=
  foldl (copy_byte arguments) m order.

(** ** Every offset once *)

(** Sizes for which the loop variable does not wrap around. *)
Definition kMaximumCopySize : Z := U64_MOD - kMaximumWorkgroups * kBlockSize.

Section offsets.
Context (size stride : Z).
Hypothesis Hstride : 0 < stride <= kMaximumWorkgroups * kBlockSize.
Hypothesis Hsize : 0 < size <= kMaximumCopySize.

Lemma loop_offsets_spec fuel offset :
  0 <= offset -> size - offset <= Z.of_nat fuel * stride ->
  exists l, loop_offsets fuel size stride offset = Some l /\ NoDup l /\
    forall x, x ∈ l <-> offset <= x < size /\ (x - offset) mod stride = 0.
Proof.
  unfold kMaximumCopySize, kMaximumWorkgroups, kBlockSize in *.
  revert offset. induction fuel as [|fuel IH]; intros offset H0 Hfuel; cbn [loop_offsets].
  - destruct (offset <? size) eqn:G; [lia|]. exists []. split_and!; [done|constructor|].
    intros x. rewrite elem_of_nil. lia.
  - destruct (offset <? size) eqn:G.
    + assert (u64_add offset stride = offset + stride) as -> by (apply u64_add_small; lia).
      destruct (IH (offset + stride)) as (l & -> & Hnd & Hl); [lia|lia|].
      exists (offset :: l). split_and!; [done| |].
      * apply NoDup_cons. split; [|done]. rewrite Hl. lia.
      * intros x. rewrite elem_of_cons, Hl.
        replace (x - (offset + stride)) with (x - offset + (-1) * stride) by lia.
        rewrite Z_mod_plus_full. split.
        -- intros [->|H]; [|lia]. rewrite Z.sub_diag, Zmod_0_l. lia.
        -- intros [Hx Hm]. destruct (decide (x = offset)); [by left|right].
           apply Z.mod_divide in Hm as [k Hk]; [|lia]. assert (0 < k) by nia. split; [nia|].
           rewrite Hk. apply Z.mod_mul. lia.
    + exists []. split_and!; [done|constructor|]. intros x. rewrite elem_of_nil. lia.
Qed.
End offsets.

Lemma mapM_all {A B} (g : A -> option B) (f : A -> B) l :
  (forall x, x ∈ l -> g x = Some (f x)) -> mapM g l = Some (f <$> l).
Proof.
  induction l as [|x l IH]; intros H; [done|]. cbn. rewrite (H x) by by left.
  cbn. rewrite IH; [done|]. intros y Hy. apply H. by right.
Qed.

Lemma join_map_bind {A B} (f : A -> list B) l : mjoin (f <$> l) = l ≫= f.
Proof. induction l as [|x l IH]; [done|]. cbn. f_equal. exact IH. Qed.

Section grid.
Context (size : Z).
Hypothesis Hsize : 0 < size <= kMaximumCopySize.

Let workgroups := copy_workgroups size.
Let stride := workgroups * kBlockSize.

Lemma workgroups_range : 1 <= workgroups <= kMaximumWorkgroups.
Proof.
  unfold workgroups, copy_workgroups, kMaximumWorkgroups, kBlockSize.
  pose proof (Z.div_pos (size - 1) 256). lia.
Qed.

Lemma grid_items_elem block thread :
  (block, thread) ∈ grid_items (copy_config size) <-> 0 <= block < workgroups /\ 0 <= thread < kBlockSize.
Proof.
  unfold grid_items, copy_config. cbn -[seqZ Z.div to_u32].
  pose proof workgroups_range as Hw. fold workgroups. unfold kMaximumWorkgroups, kBlockSize in Hw |- *.
  assert (to_u32 (workgroups * 256) = workgroups * 256) as -> by (apply Z.mod_small; lia).
  rewrite Z.div_mul by lia. rewrite list_elem_of_bind. setoid_rewrite list_elem_of_bind.
  setoid_rewrite elem_of_seqZ. setoid_rewrite list_elem_of_singleton. split.
  - intros (b & (t & [= -> ->] & Ht) & Hb). lia.
  - intros [Hb Ht]. exists block. split; [|lia]. exists thread. split; [done|lia].
Qed.

Lemma grid_items_nodup : NoDup (grid_items (copy_config size)).
Proof.
  unfold grid_items. apply NoDup_bind.
  - intros b1 b2 [b t] _ _ H1 H2. apply list_elem_of_bind in H1 as (t1 & H1 & _), H2 as (t2 & H2 & _).
    apply list_elem_of_singleton in H1, H2. congruence.
  - intros b _. apply NoDup_bind; [|intros; apply NoDup_singleton|apply NoDup_seqZ].
    intros t1 t2 [b' t] _ _ H1 H2. apply list_elem_of_singleton in H1, H2. congruence.
  - apply NoDup_seqZ.
Qed.

(** What a work item copies. *)
Lemma item_offsets_spec destination source block thread :
  (block, thread) ∈ grid_items (copy_config size) ->
  exists l, item_offsets (copy_arguments destination source size) (block, thread) = Some l /\ NoDup l /\
    forall x, x ∈ l <-> 0 <= x < size /\ x mod stride = block * kBlockSize + thread.
Proof.
  rewrite grid_items_elem. intros [Hb Ht]. pose proof workgroups_range as Hw.
  unfold item_offsets, copy_arguments. cbn [ca_size ca_stride ca_workgroup_size].
  fold workgroups stride. unfold kMaximumCopySize, kMaximumWorkgroups in *.
  assert (0 < stride <= kMaximumWorkgroups * kBlockSize) as Hs by (unfold stride, kMaximumWorkgroups, kBlockSize in *; lia).
  assert (0 <= block * kBlockSize + thread < stride) as Hi by (unfold stride, kBlockSize in *; nia).
  assert (u64_add (u64_mul block kBlockSize) thread = block * kBlockSize + thread) as ->.
  { unfold u64_mul, to_u64, kMaximumWorkgroups, kBlockSize in *. rewrite Z.mod_small by lia.
    apply u64_add_small. lia. }
  set (index := block * kBlockSize + thread) in *.
  destruct (loop_offsets_spec size stride Hs Hsize (S (Z.to_nat (size / stride))) index)
    as (l & Hl & Hnd & Hin); [lia| |].
  { pose proof (Z.div_pos size stride). pose proof (Z.mul_succ_div_gt size stride). nia. }
  exists l. split_and!; [done..|]. intros x. rewrite Hin. split.
  - intros [Hx Hm]. split; [lia|]. apply Z.mod_divide in Hm as [k Hk]; [|lia].
    replace x with (index + k * stride) by lia. rewrite Z_mod_plus_full. apply Z.mod_small. lia.
  - intros [Hx Hm]. pose proof (Z.mod_le x stride). split; [lia|].
    rewrite (Z.div_mod x stride), Hm by lia. rewrite Z.mul_comm.
    replace (x / stride * stride + index - index) with (x / stride * stride) by lia. apply Z.mod_mul. lia.
Qed.

(** The work items of a copy cover every offset exactly once. *)
Lemma grid_offsets_exact destination source :
  exists l, grid_offsets (copy_config size) (copy_arguments destination source size) = Some l /\
    l ≡ₚ seqZ 0 size.
Proof.
  set (f := fun item => default [] (item_offsets (copy_arguments destination source size) item)).
  assert (forall item, item ∈ grid_items (copy_config size) ->
    item_offsets (copy_arguments destination source size) item = Some (f item) /\ NoDup (f item) /\
    forall x, x ∈ f item <-> 0 <= x < size /\ x mod stride = item.1 * kBlockSize + item.2) as Hf.
  { intros [b t] H. destruct (item_offsets_spec destination source b t H) as (l & Hl & ? & ?).
    unfold f. by rewrite Hl. }
  exists (grid_items (copy_config size) ≫= f). split.
  { unfold grid_offsets. rewrite (mapM_all _ f); [by rewrite <-join_map_bind|]. intros x Hx. by apply Hf. }
  apply NoDup_Permutation; [|apply NoDup_seqZ|].
  - apply NoDup_bind; [|intros x Hx; by apply Hf|apply grid_items_nodup].
    intros [b1 t1] [b2 t2] x H1 H2 Hx1 Hx2. apply Hf in Hx1 as [_ Hx1], Hx2 as [_ Hx2]; [|done..].
    apply grid_items_elem in H1, H2. cbn in *. unfold kBlockSize in *. f_equal; lia.
  - intros x. rewrite list_elem_of_bind, elem_of_seqZ. split.
    + intros (item & Hx & Hi). apply Hf in Hx; [lia|done].
    + intros Hx. pose proof workgroups_range as Hw. unfold kMaximumWorkgroups in Hw.
      set (index := x mod stride). assert (0 <= index < stride) as Hi by (apply Z.mod_pos_bound; unfold stride, kBlockSize; lia).
      exists (index / kBlockSize, index mod kBlockSize).
      assert ((index / kBlockSize, index mod kBlockSize) ∈ grid_items (copy_config size)) as Hg.
      { apply grid_items_elem. unfold stride, kBlockSize in *.
        split; [|apply Z.mod_pos_bound; lia]. split; [apply Z.div_pos; lia|apply Z.div_lt_upper_bound; lia]. }
      split; [|done]. apply Hf; [done|]. split; [lia|]. cbn. unfold index, kBlockSize.
      rewrite (Z.div_mod (x mod stride) 256) at 1 by lia. lia.
Qed.
End grid.

(** ** What a copy does *)

(** [size] bytes from [source] to [destination], all read before any is
    written. *)
Definition moved (destination source size : Z) (m : contents) : contents := fun a =>
  if (destination <=? a) && (a <? destination + size) then m (source + (a - destination)) else m a.

Lemma moved_in d s n m a : d <= a < d + n -> moved d s n m a = m (s + (a - d)).
Proof. intros H. unfold moved. by destruct ((d <=? a) && (a <? d + n)) eqn:E; [|lia]. Qed.

Lemma moved_out d s n m a : ~ (d <= a < d + n) -> moved d s n m a = m a.
Proof. intros H. unfold moved. by destruct ((d <=? a) && (a <? d + n)) eqn:E; [lia|]. Qed.

Definition apart (a b size : Z) : Prop := a + size <= b \/ b + size <= a.

(** Addresses of one copy do not wrap around. *)
Definition range_ok (address size : Z) : Prop := 0 <= address /\ address + size < U64_MOD.

Lemma run_order_some destination source size order m a :
  range_ok destination size -> range_ok source size -> apart destination source size ->
  NoDup order -> (forall x, x ∈ order -> 0 <= x < size) ->
  run_order (copy_arguments destination source size) order m a =
  if decide (a - destination ∈ order) then m (source + (a - destination)) else m a.
Proof.
  intros [D1 D2] [S1 S2] Hap. revert m. induction order as [|x order IH]; intros m Hnd Hin; [done|].
  apply NoDup_cons in Hnd as [Hx Hnd]. assert (0 <= x < size) as Hr by (apply Hin; by left).
  change (run_order ?A (x :: order) m) with (run_order A order (copy_byte A m x)).
  rewrite IH; [|done|intros y Hy; apply Hin; by right]. unfold copy_byte, store. cbn [ca_destination ca_source copy_arguments].
  rewrite !u64_add_small by lia. unfold apart in Hap.
  destruct (decide (a - destination ∈ order)) as [Ho|Ho].
  - rewrite decide_True by by right. assert (0 <= a - destination < size) by (apply Hin; by right).
    destruct (source + (a - destination) =? destination + x) eqn:E; [lia|done].
  - destruct (a =? destination + x) eqn:E.
    + rewrite decide_True by (apply elem_of_cons; left; lia). f_equal. lia.
    + rewrite decide_False; [done|]. rewrite elem_of_cons. intros [?|?]; [lia|done].
Qed.

Lemma copy_kernel_moves destination source size m :
  0 < size <= kMaximumCopySize ->
  range_ok destination size -> range_ok source size -> apart destination source size ->
  exists offsets, grid_offsets (copy_config size) (copy_arguments destination source size) = Some offsets /\
    offsets ≡ₚ seqZ 0 size /\
    forall order, order ≡ₚ offsets -> forall a,
      run_order (copy_arguments destination source size) order m a = moved destination source size m a.
Proof.
  intros Hsize Hd Hs Hap. destruct (grid_offsets_exact size Hsize destination source) as (l & Hl & Hp).
  exists l. split_and!; [done..|]. intros order Ho a. rewrite Hp in Ho.
  rewrite run_order_some; try done.
  - destruct (decide _) as [H|H]; rewrite Ho, elem_of_seqZ in H.
    + by rewrite moved_in by lia.
    + by rewrite moved_out by lia.
  - rewrite Ho. apply NoDup_seqZ.
  - intros x. rewrite Ho, elem_of_seqZ. lia.
Qed.


(** ** Copies move bytes

    The loops of [lr_memcpy] against a reference: [moved], which reads all the
    source bytes before it writes any. *)

Import LrStatus.

(** The memory of the process as the host accesses of the transport see it,
    except for the runtime's own: a launch writes kernel arguments, too. *)
Class AddressSpace (W : Type) `{!Transport W} := {
  as_visible : Z -> Prop;
  as_contents : W -> contents;
  as_read a n w : (forall x, a <= x < a + n -> as_visible x) ->
    t_bytes a n w = as_contents w <$> seqZ a n;
  as_write a l w x : (forall y, a <= y < a + Z.of_nat (length l) -> as_visible y) -> as_visible x ->
    as_contents (t_set_bytes a l w) x =
    if (a <=? x) && (x <? a + Z.of_nat (length l)) then default (as_contents w x) (l !! Z.to_nat (x - a))
    else as_contents w x
}.

(** A range inside one of the regions of a copy. *)
Definition within (regions : list (Z * Z)) (address size : Z) : Prop :=
  exists base length, (base, length) ∈ regions /\ base <= address /\ address + size <= base + length.

(** One copy between two of the regions, without overlap. *)
Definition legal (regions : list (Z * Z)) (destination source size : Z) : Prop :=
  0 < size /\ apart destination source size /\ within regions destination size /\
  within regions source size.

Section moves.
Context {W : Type} `{!Transport W, !AddressSpace W}.
Abbreviation M := (kfd (runtime W)).
Implicit Type st : runtime W.

Definition contents_of st : contents := as_contents (rt_world st).

(** A range of visible memory. *)
Definition visible_range (address size : Z) : Prop :=
  forall a, address <= a < address + size -> as_visible a.

Lemma host_copy_moves destination source size st :
  0 <= size -> visible_range destination size -> visible_range source size ->
  exists w, host_copy destination source size st = Ok (tt, set_rt_world w st) /\
    forall a, as_visible a -> as_contents w a = moved destination source size (contents_of st) a.
Proof.
  intros Hn Hd Hs. exists (t_set_bytes destination (t_bytes source size (rt_world st)) (rt_world st)).
  split; [reflexivity|]. intros a Ha. rewrite as_read by done.
  assert (Z.of_nat (length (as_contents (rt_world st) <$> seqZ source size)) = size) as Hl.
  { rewrite length_fmap, length_seqZ. lia. }
  rewrite as_write, Hl by (rewrite ?Hl; done).
  destruct (decide (destination <= a < destination + size)) as [Hin|Hout].
  - rewrite moved_in by done. destruct ((_ <=? _) && _) eqn:E; [|lia].
    rewrite list_lookup_fmap, lookup_seqZ_lt by lia. cbn. apply (f_equal (as_contents (rt_world st))). lia.
  - rewrite moved_out by done. destruct ((_ <=? _) && _) eqn:E; [lia|done].
Qed.

(** What is relied on: in the states [I], a copy between the regions returns
    and has copied when it succeeds; a host copy leads to such a state again. *)
Record copy_engine (I : runtime W -> Prop) (regions : list (Z * Z))
    (copy : Z -> Z -> Z -> M LrStatus.t) : Prop := {
  ce_copy destination source size st : legal regions destination source size -> I st ->
    wp (copy destination source size) (fun status st' => I st' /\
      (status = Success -> forall a, as_visible a ->
         contents_of st' a = moved destination source size (contents_of st) a)) st;
  ce_host destination source size st w : legal regions destination source size -> I st ->
    host_copy destination source size st = Ok (tt, set_rt_world w st) -> I (set_rt_world w st)
}.

Section loops.
Context (I : runtime W -> Prop) (copy : Z -> Z -> Z -> M LrStatus.t) (staging : GpuMemory).
Context (dst src size : Z).

Let staging_at := gm_gpu_address staging.
Let staging_size := gm_size staging.

Definition copy_regions : list (Z * Z) := [(staging_at, staging_size); (dst, size); (src, size)].

Hypothesis Hengine : copy_engine I copy_regions copy.
Hypothesis Hsame : gm_host_address staging = gm_gpu_address staging.
Hypothesis Hstaging : 0 < staging_size.
Hypothesis Hsize : 0 < size.
Hypothesis Hdst : range_ok dst size.
Hypothesis Hsrc : range_ok src size.

(** Neither operand is in the staging buffer. *)
Definition clear_of_staging (a : Z) : Prop := a + size <= staging_at \/ staging_at + staging_size <= a.
Hypothesis Hclear_dst : clear_of_staging dst.
Hypothesis Hclear_src : clear_of_staging src.

Hypothesis Hvisible : forall base length a, (base, length) ∈ copy_regions -> base <= a < base + length -> as_visible a.

Definition outside (a : Z) : Prop := as_visible a /\ ~ (staging_at <= a < staging_at + staging_size).

Lemma outside_src a : src <= a < src + size -> outside a.
Proof.
  intros H. split; [apply (Hvisible src size); [by right; right; left|done]|]. unfold clear_of_staging in *. lia.
Qed.

(** A chunk has been moved, except for what the staging buffer holds. *)
Definition chunk_moved (offset chunk : Z) (m m' : contents) : Prop :=
  forall a, outside a -> m' a = moved (dst + offset) (src + offset) chunk m a.

Definition step_moves (step : Z -> Z -> M LrStatus.t) : Prop := forall offset chunk st,
  0 <= offset -> 0 < chunk <= staging_size -> offset + chunk <= size -> I st ->
  wp (step offset chunk) (fun status st' => I st' /\
    (status = Success -> chunk_moved offset chunk (contents_of st) (contents_of st'))) st.

Lemma within_staging n : n <= staging_size -> within copy_regions staging_at n.
Proof. intros H. exists staging_at, staging_size. split; [by left|lia]. Qed.

Lemma within_dst offset n : 0 <= offset -> offset + n <= size -> within copy_regions (dst + offset) n.
Proof. intros. exists dst, size. split; [by right; left|lia]. Qed.

Lemma within_src offset n : 0 <= offset -> offset + n <= size -> within copy_regions (src + offset) n.
Proof. intros. exists src, size. split; [by right; right; left|lia]. Qed.

(** In and out of the staging buffer. *)
Lemma through_staging offset chunk m m1 m2 :
  0 <= offset -> 0 < chunk <= staging_size -> offset + chunk <= size ->
  (forall a, as_visible a -> m1 a = moved staging_at (src + offset) chunk m a) ->
  (forall a, as_visible a -> m2 a = moved (dst + offset) staging_at chunk m1 a) -> chunk_moved offset chunk m m2.
Proof.
  intros Ho Hc Hs H1 H2 a [Hva Ha]. rewrite H2 by done. unfold clear_of_staging in *.
  destruct (decide (dst + offset <= a < dst + offset + chunk)).
  - rewrite !moved_in by lia. rewrite H1, moved_in; [apply (f_equal m); lia|lia|].
    apply (Hvisible staging_at staging_size); [by left|lia].
  - rewrite !moved_out by lia. rewrite H1, moved_out by (try done; lia). done.
Qed.

Lemma legal_in offset chunk :
  0 <= offset -> 0 < chunk <= staging_size -> offset + chunk <= size ->
  legal copy_regions staging_at (src + offset) chunk.
Proof.
  intros. unfold legal, apart. split_and!; [lia| |apply within_staging; lia|by apply within_src].
  unfold clear_of_staging in *. lia.
Qed.

Lemma legal_out offset chunk :
  0 <= offset -> 0 < chunk <= staging_size -> offset + chunk <= size ->
  legal copy_regions (dst + offset) staging_at chunk.
Proof.
  intros. unfold legal, apart. split_and!; [lia| |by apply within_dst|apply within_staging; lia].
  unfold clear_of_staging in *. lia.
Qed.

Lemma u64_add_offset a offset : range_ok a size -> 0 <= offset < size -> u64_add a offset = a + offset.
Proof. intros [H1 H2] H. apply u64_add_small. lia. Qed.
Lemma within_visible a n : within copy_regions a n -> visible_range a n.
Proof. intros (base & len & Hin & H1 & H2) x Hx. apply (Hvisible base len); [done|lia]. Qed.

Lemma legal_visible d s n : legal copy_regions d s n -> visible_range d n /\ visible_range s n.
Proof. intros (_ & _ & Hd & Hs). by split; apply within_visible. Qed.

(** The bodies of the three loops. *)
Lemma chunk_to_device_moves : step_moves (chunk_to_device copy staging dst src).
Proof.
  intros offset chunk st Ho Hc Hs HI. unfold chunk_to_device.
  pose proof (legal_in _ _ Ho Hc Hs) as Lin. pose proof (legal_out _ _ Ho Hc Hs) as Lout.
  destruct (host_copy_moves (gm_host_address staging) (src + offset) chunk st) as (w & Hw & Hm);
    [lia|rewrite Hsame; by apply (legal_visible _ _ _ Lin)|by apply (legal_visible _ _ _ Lin)|].
  apply wp_bind. unfold wp at 1. rewrite Hw. rewrite u64_add_offset by (try done; lia).
  rewrite Hsame in Hw, Hm. eapply wp_mono; [apply (ce_copy _ _ _ Hengine); [exact Lout|exact (ce_host _ _ _ Hengine _ _ _ _ _ Lin HI Hw)]|].
  intros status st' [HI' Hcopy]. split; [done|]. intros Hok.
  eapply through_staging; [done..| |by apply Hcopy]. exact Hm.
Qed.

Lemma chunk_to_host_moves : step_moves (chunk_to_host copy staging dst src).
Proof.
  intros offset chunk st Ho Hc Hs HI. unfold chunk_to_host.
  pose proof (legal_in _ _ Ho Hc Hs) as Lin. pose proof (legal_out _ _ Ho Hc Hs) as Lout.
  rewrite u64_add_offset by (try done; lia).
  apply wp_bind. eapply wp_mono; [by apply (ce_copy _ _ _ Hengine)|]. intros status st1 [HI1 Hcopy].
  destruct (succeeded status) eqn:Hok; cbn [negb].
  - destruct (host_copy_moves (dst + offset) (gm_host_address staging) chunk st1) as (w & Hw & Hm);
      [lia|by apply (legal_visible _ _ _ Lout)|rewrite Hsame; by apply (legal_visible _ _ _ Lout)|].
    apply wp_bind. unfold wp at 1. rewrite Hw. apply wp_ret. rewrite Hsame in Hw, Hm.
    split; [exact (ce_host _ _ _ Hengine _ _ _ _ _ Lout HI1 Hw)|]. intros _.
    apply bool_decide_eq_true in Hok. eapply through_staging; [done..|by apply Hcopy|]. exact Hm.
  - apply wp_ret. split; [done|]. intros ->. done.
Qed.

Lemma chunk_on_device_moves : step_moves (chunk_on_device copy staging dst src).
Proof.
  intros offset chunk st Ho Hc Hs HI. unfold chunk_on_device.
  pose proof (legal_in _ _ Ho Hc Hs) as Lin. pose proof (legal_out _ _ Ho Hc Hs) as Lout.
  rewrite !u64_add_offset by (try done; lia).
  apply wp_bind. eapply wp_mono; [by apply (ce_copy _ _ _ Hengine)|]. intros status st1 [HI1 Hcopy].
  destruct (succeeded status) eqn:Hok.
  - apply bool_decide_eq_true in Hok. eapply wp_mono; [by apply (ce_copy _ _ _ Hengine)|].
    intros status' st2 [HI2 Hcopy2]. split; [done|]. intros Hok2.
    eapply through_staging; [done..| |by apply Hcopy2]. by apply Hcopy.
  - apply wp_ret. split; [done|]. intros ->. done.
Qed.

(** ** The loops *)

(** All bytes up to [offset] have been moved. *)
Definition moved_to (offset : Z) (m m' : contents) : Prop :=
  forall a, outside a -> m' a = moved dst src offset m a.

Lemma chunks_forward_moves step fuel offset m st :
  step_moves step -> dst <= src \/ src + size <= dst ->
  0 <= offset <= size -> size - offset <= Z.of_nat fuel * staging_size -> I st ->
  moved_to offset m (contents_of st) ->
  wp (chunks_forward staging step fuel size offset) (fun status st' => I st' /\
    (status = Success -> moved_to size m (contents_of st'))) st.
Proof.
  intros Hstep Hside. revert offset st. induction fuel as [|fuel IH]; intros offset st Ho Hf HI Hm; cbn [chunks_forward].
  { destruct (offset >=? size) eqn:E; [|lia]. apply wp_ret. replace offset with size in Hm by lia. done. }
  destruct (offset >=? size) eqn:E.
  { apply wp_ret. replace offset with size in Hm by lia. done. }
  set (chunk := Z.min _ _). fold staging_size in chunk.
  apply wp_bind. eapply wp_mono; [apply Hstep; [lia|lia|lia|exact HI]|]. intros status st1 [HI1 Hmoved].
  destruct (succeeded status) eqn:Hok; cbn [negb].
  2: { apply wp_ret. split; [done|]. by intros ->. }
  apply bool_decide_eq_true in Hok. specialize (Hmoved Hok).
  eapply IH; [lia|nia|done|]. intros a Ha. rewrite (Hmoved a Ha).
  unfold clear_of_staging in *.
  destruct (decide (dst + offset <= a < dst + offset + chunk)).
  - rewrite !moved_in by lia. rewrite Hm, moved_out; [apply (f_equal m); lia|lia|apply outside_src; lia].
  - rewrite moved_out by lia. rewrite Hm by done. destruct (decide (dst <= a < dst + offset)).
    + by rewrite !moved_in by lia.
    + by rewrite !moved_out by lia.
Qed.

(** All bytes from [remaining] on have been moved. *)
Definition moved_from (remaining : Z) (m m' : contents) : Prop :=
  forall a, outside a -> m' a = moved (dst + remaining) (src + remaining) (size - remaining) m a.

Lemma chunks_backward_moves step fuel remaining m st :
  step_moves step -> src <= dst ->
  0 <= remaining <= size -> remaining <= Z.of_nat fuel * staging_size -> I st ->
  moved_from remaining m (contents_of st) ->
  wp (chunks_backward staging step fuel remaining) (fun status st' => I st' /\
    (status = Success -> moved_to size m (contents_of st'))) st.
Proof.
  intros Hstep Hside. revert remaining st.
  assert (forall m', moved_from 0 m m' -> moved_to size m m') as Hend.
  { intros m' H a Ha. rewrite (H a Ha). by rewrite !Z.add_0_r, Z.sub_0_r. }
  induction fuel as [|fuel IH]; intros remaining st Ho Hf HI Hm; cbn [chunks_backward].
  { destruct (remaining =? 0) eqn:E; [|lia]. apply wp_ret. replace remaining with 0 in Hm by lia. auto. }
  destruct (remaining =? 0) eqn:E.
  { apply wp_ret. replace remaining with 0 in Hm by lia. auto. }
  set (chunk := Z.min _ _). fold staging_size in chunk.
  apply wp_bind. eapply wp_mono; [apply Hstep; [lia|lia|lia|exact HI]|]. intros status st1 [HI1 Hmoved].
  destruct (succeeded status) eqn:Hok; cbn [negb].
  2: { apply wp_ret. split; [done|]. by intros ->. }
  apply bool_decide_eq_true in Hok. specialize (Hmoved Hok).
  eapply IH; [lia|nia|done|]. intros a Ha. rewrite (Hmoved a Ha).
  unfold clear_of_staging in *.
  destruct (decide (dst + (remaining - chunk) <= a < dst + remaining)).
  - rewrite !moved_in by lia. rewrite Hm, moved_out; [done|lia|apply outside_src; lia].
  - rewrite moved_out by lia. rewrite Hm by done. destruct (decide (dst + remaining <= a < dst + size)).
    + rewrite !moved_in by lia. apply (f_equal m). lia.
    + by rewrite !moved_out by lia.
Qed.

Lemma chunk_count_enough : size <= Z.of_nat (chunk_count staging size) * staging_size.
Proof.
  unfold chunk_count. fold staging_size. pose proof (Z.div_pos size staging_size).
  pose proof (Z.mul_succ_div_gt size staging_size). nia.
Qed.

Lemma nothing_moved (m : contents) : moved_to 0 m m.
Proof. intros a _. by rewrite moved_out by lia. Qed.

Lemma forward_from_start step st :
  step_moves step -> dst <= src \/ src + size <= dst -> I st ->
  wp (chunks_forward staging step (chunk_count staging size) size 0) (fun status st' => I st' /\
    (status = Success -> moved_to size (contents_of st) (contents_of st'))) st.
Proof.
  intros Hstep Hside HI. pose proof chunk_count_enough. apply chunks_forward_moves; try done; [lia|lia|].
  apply nothing_moved.
Qed.

Lemma device_to_device_moves st :
  I st ->
  wp (copy_device_to_device copy staging dst src size) (fun status st' => I st' /\
    (status = Success -> moved_to size (contents_of st) (contents_of st'))) st.
Proof.
  intros HI. unfold copy_device_to_device. destruct Hdst as [D1 D2], Hsrc as [S1 S2].
  rewrite !u64_add_small by lia. pose proof chunk_on_device_moves as Hstep.
  destruct ((dst <? src + size) && (src <? dst + size)) eqn:Eo; cbn [negb].
  - destruct (dst >? src) eqn:E1; [|destruct (dst <? src) eqn:E2].
    + pose proof chunk_count_enough. apply chunks_backward_moves; try done; [lia|lia|].
      intros a _. by rewrite moved_out by lia.
    + apply forward_from_start; [done|lia|done].
    + apply wp_ret. split; [done|]. intros _ a _. replace dst with src by lia.
      destruct (decide (src <= a < src + size)); [rewrite moved_in by lia; apply (f_equal (contents_of st)); lia|].
      by rewrite moved_out by lia.
  - eapply wp_mono; [apply (ce_copy _ _ _ Hengine); [|done]|].
    + unfold legal, apart. split_and!; [lia|lia| |].
      * exists dst, size. split; [by right; left|lia].
      * exists src, size. split; [by right; right; left|lia].
    + intros status st' [HI' Hm]. split; [done|]. intros Hok a [Ha _]. by apply Hm.
Qed.
End loops.

End moves.
