(* ===== verification/MemoryFrame.v ===== *)
(** * What the runtime leaves alone

    The queue, event and launch functions do not touch the registries and the
    statistics of the memory API, nor the modules: a property of these that
    other threads keep survives every one of them. *)

From stdpp Require Import gmap.
From S2P Require Import Prelude Memory CodeObject ExecutableImage Launch HiddenKernargs Topology AqlPacket AqlQueue AqlProducer KfdProducer Signal KfdKernel MemoryState RuntimeState DirectQueue DirectLaunch DirectApi DirectEvents.

Import LrStatus.

Create HintDb keeps.

Section frame.
Context {W : Type} `{!Transport W, !Threads W}.
Abbreviation M := (kfd (runtime W)).

Definition books (s : runtime W) : memory_globals * list lr_memory_stats_t :=
  (g_memory s, ds_memory_stats <$> g_devices s).

(** What the functions on queues leave alone, and what those that neither
    create nor destroy one leave alone in addition. *)
Definition core (s : runtime W) := (books s, g_module_state s, g_events s, g_initialized s, g_kfd_session s).
Definition view (s : runtime W) := (core s, g_queues s, ds_queues <$> g_devices s).

Context (P : runtime W -> Prop).

(** [P] speaks of the core, or the view, and other threads keep it. *)
Record about_core : Prop := {
  ac_core s s' : core s' = core s -> P s -> P s';
  ac_threads s : P s -> P (other_threads s)
}.

Record about_view : Prop := {
  av_view s s' : view s' = view s -> P s -> P s';
  av_threads s : P s -> P (other_threads s)
}.

Lemma about_core_view : about_core -> about_view.
Proof. intros [H1 H2]. split; [|done]. intros s s' E. unfold view in E. apply H1. congruence. Qed.

Definition keeps {A} (m : M A) : Prop := forall s a s', P s -> m s = Ok (a, s') -> P s'.

Hypothesis HP : about_view.

Lemma keeps_ret {A} (a : A) : keeps (mret a).
Proof. intros s b s' Hs [= <- <-]. done. Qed.

Lemma keeps_bind {A B} (m : M A) (k : A -> M B) :
  keeps m -> (forall a, keeps (k a)) -> keeps (m ≫= k).
Proof.
  intros Hm Hk s b s' Hs H. unfold mbind, kfd_bind in H.
  destruct (m s) as [[a s1]|[]|f] eqn:E; [|done]. by eapply Hk; [eapply Hm|].
Qed.

Lemma keeps_fail {A} : keeps (failed_assert : M A).
Proof. by intros s a s'. Qed.

Lemma keeps_out_of_fuel {A} : keeps (out_of_fuel : M A).
Proof. by intros s a s'. Qed.

Lemma keeps_gets {A} (f : runtime W -> A) : keeps (gets f).
Proof. intros s a s' Hs [= <- <-]. done. Qed.

Lemma keeps_modify f :
  (forall s, view (f s) = view s) -> keeps (modify f).
Proof. intros Hf s a s' Hs [= <- <-]. by apply (av_view HP s). Qed.

Lemma keeps_below {A} (f : W -> A * W) : keeps (below f).
Proof.
  intros s a s' Hs H. unfold below in H. destruct (f _) as [b w]. injection H as <- <-. by apply (av_view HP s).
Qed.

Lemma keeps_below_ f : keeps (below_ f).
Proof. by apply keeps_modify. Qed.

Lemma keeps_dereference {K V} `{Countable K} (heap : runtime W -> gmap K V) p : keeps (dereference heap p).
Proof. intros s a s' Hs H'. unfold dereference in H'. destruct (heap s !! p); [|done]. by injection H' as <- <-. Qed.

Lemma keeps_get_device index : keeps (get_device index).
Proof.
  intros s a s' Hs H. unfold get_device in H. destruct (g_devices s !! _); [|done].
  destruct (0 <=? index); [|done]. by injection H as <- <-.
Qed.

Lemma keeps_update_queue q f : keeps (update_queue q f).
Proof. apply keeps_bind; [apply keeps_dereference|]. intros. by apply keeps_modify. Qed.

Lemma keeps_update_event e f : keeps (update_event e f).
Proof. apply keeps_bind; [apply keeps_dereference|]. intros. by apply keeps_modify. Qed.

Lemma keeps_update_dispatch d f : keeps (update_dispatch d f).
Proof. apply keeps_bind; [apply keeps_dereference|]. intros. by apply keeps_modify. Qed.

Lemma keeps_update_arena a f : keeps (update_arena a f).
Proof. apply keeps_bind; [apply keeps_dereference|]. intros. by apply keeps_modify. Qed.

Lemma core_device index f device s :
  (forall d, ds_memory_stats (f d) = ds_memory_stats d) -> g_devices s !! index = Some device ->
  core (set_g_devices (<[index := f device]> (g_devices s)) s) = core s.
Proof.
  intros Hf Hd. unfold core, books. cbn. do 5 f_equal. rewrite list_fmap_insert, Hf.
  apply list_insert_id. by rewrite list_lookup_fmap, Hd.
Qed.

Lemma view_device index f device s :
  (forall d, ds_memory_stats (f d) = ds_memory_stats d) -> (forall d, ds_queues (f d) = ds_queues d) ->
  g_devices s !! index = Some device ->
  view (set_g_devices (<[index := f device]> (g_devices s)) s) = view s.
Proof.
  intros Hf Hq Hd. unfold view. rewrite core_device by done. cbn. f_equal. rewrite list_fmap_insert, Hq.
  apply list_insert_id. by rewrite list_lookup_fmap, Hd.
Qed.

Lemma keeps_update_device index f :
  (forall d, ds_memory_stats (f d) = ds_memory_stats d) -> (forall d, ds_queues (f d) = ds_queues d) ->
  keeps (update_device index f).
Proof.
  intros Hf Hq s a s' Hs H. unfold update_device, mbind, kfd_bind, get_device in H.
  destruct (g_devices s !! _) as [device|] eqn:E; [|done]. destruct (0 <=? index); [|done].
  injection H as <- <-. apply (av_view HP s); [by apply view_device|done].
Qed.

Lemma keeps_on_queue_memory {A} queue f : keeps (on_queue_memory (A := A) queue f).
Proof.
  intros s a s' Hs H. unfold on_queue_memory in H. destruct (t_queue_memory _ _) as [c r].
  destruct (f c r) as [[[b c'] r']|[]|]; [|done]. injection H as <- <-. by apply (av_view HP s).
Qed.

Lemma keeps_lift {A} (r : result Empty_set A) : keeps (lift r).
Proof. intros s a s' Hs H. unfold lift in H. destruct r as [|[]|]; [|done]. by injection H as <- <-. Qed.

Lemma keeps_other_threads : keeps (modify other_threads).
Proof. intros s a s' Hs [= <- <-]. by apply (av_threads HP). Qed.

Lemma keeps_mapM {A B} (f : A -> M B) l : (forall x, keeps (f x)) -> keeps (mapM f l).
Proof.
  intros Hf. induction l as [|x l IH]; [apply keeps_ret|]. 
  apply keeps_bind; [apply Hf|]. intros y. apply keeps_bind; [exact IH|]. intros. apply keeps_ret.
Qed.

Lemma keeps_unlocked {A} (m : M A) : keeps m -> keeps (unlocked m).
Proof.
  intros Hm. apply keeps_bind; [apply keeps_other_threads|]. intros _.
  apply keeps_bind; [exact Hm|]. intros a. apply keeps_bind; [apply keeps_other_threads|]. intros _. apply keeps_ret.
Qed.

(** The same for properties of the core. *)
Hypothesis HC : about_core.

Lemma keeps_modify_core f : (forall s, core (f s) = core s) -> keeps (modify f).
Proof. intros Hf s a s' Hs [= <- <-]. by apply (ac_core HC s). Qed.

Lemma keeps_update_device_core index f :
  (forall d, ds_memory_stats (f d) = ds_memory_stats d) -> keeps (update_device index f).
Proof.
  intros Hf s a s' Hs H. unfold update_device, mbind, kfd_bind, get_device in H.
  destruct (g_devices s !! _) as [device|] eqn:E; [|done]. destruct (0 <=? index); [|done].
  injection H as <- <-. apply (ac_core HC s); [by apply core_device|done].
Qed.
End frame.

#[export] Hint Resolve keeps_ret keeps_fail keeps_out_of_fuel keeps_gets keeps_below keeps_below_ keeps_dereference keeps_get_device keeps_update_queue keeps_update_event keeps_update_dispatch keeps_update_arena keeps_on_queue_memory keeps_lift keeps_other_threads about_core_view : keeps.

(** Binds and case distinctions, down to the operations. *)
Ltac keeps_step :=
  lazymatch goal with
  | |- keeps _ (_ ≫= _) => apply keeps_bind; [|intros ?]
  | |- keeps _ (if ?b then _ else _) => destruct b
  | |- keeps _ (match ?x with _ => _ end) => destruct x
  | |- keeps _ (let '_ := _ in _) => cbv zeta
  | |- keeps _ (mapM _ _) => apply keeps_mapM; intros ?
  | |- keeps _ (unlocked _) => apply keeps_unlocked; [solve [eauto with keeps]|]
  | |- keeps _ (modify other_threads) => solve [eauto with keeps]
  | |- keeps _ (modify _) =>
      first [apply keeps_modify; [solve [eauto with keeps]|reflexivity]
            |apply keeps_modify_core; [assumption|reflexivity]]
  | |- keeps _ (update_device _ _) =>
      first [apply keeps_update_device; [solve [eauto with keeps]|reflexivity|reflexivity]
            |apply keeps_update_device_core; [assumption|reflexivity]]
  | |- keeps _ _ => first [solve [eauto with keeps] | progress cbv beta zeta]
  end.

Ltac keeps := repeat keeps_step.

Section functions.
Context {W : Type} `{!Transport W, !Threads W}.
Context (P : runtime W -> Prop) (HP : about_view P).
Abbreviation keeps := (keeps P).

(** ** Signals and retirement *)

Lemma keeps_load_acquire signal : keeps (load_acquire signal).
Proof. unfold load_acquire, observe_signal, abi. keeps. Qed.

Lemma keeps_start_timestamp signal : keeps (start_timestamp_acquire signal).
Proof. unfold start_timestamp_acquire, observe_signal, abi. keeps. Qed.

Lemma keeps_end_timestamp signal : keeps (end_timestamp_acquire signal).
Proof. unfold end_timestamp_acquire, observe_signal, abi. keeps. Qed.

Lemma keeps_signal_reset signal value : keeps (signal_reset signal value).
Proof. unfold signal_reset, abi. keeps. Qed.

Lemma keeps_store_relaxed signal value : keeps (store_relaxed signal value).
Proof. unfold store_relaxed, abi. keeps. Qed.

Lemma keeps_active_signal dispatch : keeps (active_completion_signal dispatch).
Proof. unfold active_completion_signal, get_event. keeps. Qed.

Hint Resolve keeps_load_acquire keeps_start_timestamp keeps_end_timestamp keeps_signal_reset
  keeps_store_relaxed keeps_active_signal : keeps.

Lemma keeps_valid_queue queue : keeps (valid_direct_kfd_queue_locked queue).
Proof. unfold valid_direct_kfd_queue_locked, get_queue. keeps. Qed.

Lemma keeps_retain event queue : keeps (retain_direct_kfd_event_dependency_locked event queue).
Proof. unfold retain_direct_kfd_event_dependency_locked. keeps. Qed.

Lemma keeps_release event queue : keeps (release_direct_kfd_event_dependency_locked event queue).
Proof. unfold release_direct_kfd_event_dependency_locked, get_event. keeps. Qed.

Hint Resolve keeps_valid_queue keeps_retain keeps_release : keeps.

Lemma keeps_release_dependencies events queue : keeps (release_dependencies events queue).
Proof. induction events; cbn [release_dependencies]; keeps. Qed.

Hint Resolve keeps_release_dependencies : keeps.

Lemma keeps_reap_barriers fuel queue index : keeps (reap_barriers_loop fuel queue index).
Proof. revert index. induction fuel; intros index; cbn [reap_barriers_loop]; unfold get_queue, get_dispatch; keeps. Qed.

Lemma keeps_count_completed fuel queue count : keeps (count_completed fuel queue count).
Proof.
  revert count. induction fuel; intros count; cbn [count_completed];
    unfold get_queue, get_dispatch, pending_dispatch; keeps.
Qed.

Hint Resolve keeps_reap_barriers keeps_count_completed : keeps.

Lemma keeps_reap_dispatches queue : keeps (reap_direct_kfd_dispatches_locked queue).
Proof.
  unfold reap_direct_kfd_dispatches_locked, reap_completed_direct_kfd_barriers_locked, get_queue. keeps.
Qed.

Lemma keeps_finish_event event : keeps (finish_direct_kfd_event_wait_locked event).
Proof. unfold finish_direct_kfd_event_wait_locked, finish_pageable_copy, get_event. keeps. Qed.

Hint Resolve keeps_reap_dispatches keeps_finish_event : keeps.

Lemma keeps_reap_events_loop fuel queue : keeps (reap_events_loop fuel queue).
Proof. induction fuel; cbn [reap_events_loop]; unfold get_queue, get_event; keeps. Qed.

Hint Resolve keeps_reap_events_loop : keeps.

Lemma keeps_reap_events queue : keeps (reap_completed_direct_kfd_events_locked queue).
Proof. unfold reap_completed_direct_kfd_events_locked, get_queue. keeps. Qed.

(** ** Waiting *)

Lemma keeps_wait_signal_loop fuel queue signal : keeps (wait_for_signal_loop fuel queue signal).
Proof. induction fuel; cbn [wait_for_signal_loop]; unfold queue_error_reason; keeps. Qed.

Hint Resolve keeps_reap_events keeps_wait_signal_loop : keeps.

Lemma keeps_wait_signal queue signal : keeps (wait_for_direct_kfd_signal_locked queue signal).
Proof. unfold wait_for_direct_kfd_signal_locked, get_queue. keeps. Qed.

Lemma keeps_oldest_signal object : keeps (oldest_signal object).
Proof. unfold oldest_signal, pending_dispatch, get_dispatch, get_event. keeps. Qed.

Hint Resolve keeps_wait_signal keeps_oldest_signal : keeps.

Lemma keeps_synchronize_loop fuel queue : keeps (synchronize_loop fuel queue).
Proof. induction fuel; cbn [synchronize_loop]; unfold get_queue; keeps. Qed.

Hint Resolve keeps_synchronize_loop : keeps.

Lemma keeps_synchronize_queue queue : keeps (synchronize_direct_kfd_queue_locked queue).
Proof. unfold synchronize_direct_kfd_queue_locked, get_queue. keeps. Qed.

Hint Resolve keeps_synchronize_queue : keeps.

(** ** Room, scratch and kernel arguments *)

Lemma keeps_ring_room queue packets : keeps (ring_room queue packets).
Proof. unfold ring_room, get_queue, queue_read_index, queue_write_index. keeps. Qed.

Lemma keeps_capacity_wait queue lock : keeps (capacity_wait queue lock).
Proof. unfold capacity_wait, get_queue. keeps. Qed.

Hint Resolve keeps_ring_room keeps_capacity_wait : keeps.

Lemma keeps_capacity_round queue packets lock again :
  keeps again -> keeps (capacity_round queue packets lock again).
Proof. intros Ha. unfold capacity_round, get_queue. keeps. Qed.

Lemma keeps_capacity_loop fuel queue packets lock : keeps (capacity_loop fuel queue packets lock).
Proof. induction fuel; cbn [capacity_loop]; apply keeps_capacity_round; keeps. Qed.

Hint Resolve keeps_capacity_loop : keeps.

Lemma keeps_capacity queue packets lock : keeps (ensure_direct_kfd_queue_capacity_locked queue packets lock).
Proof. unfold ensure_direct_kfd_queue_capacity_locked, get_queue, queue_error_reason. keeps. Qed.

Lemma keeps_scratch device queue size : keeps (ensure_direct_kfd_queue_scratch_locked device queue size).
Proof. unfold ensure_direct_kfd_queue_scratch_locked, get_queue. keeps. Qed.

Lemma keeps_take_from_arenas arenas size : keeps (take_from_arenas arenas size).
Proof. induction arenas; cbn [take_from_arenas]; unfold get_arena; keeps. Qed.

Hint Resolve keeps_capacity keeps_scratch keeps_take_from_arenas : keeps.

Lemma keeps_create_dispatch device queue size : keeps (create_dispatch device queue size).
Proof.
  unfold create_dispatch, allocate_direct_kfd_kernarg_locked, rollback_direct_kfd_kernarg_locked,
    get_queue, get_arena. keeps.
Qed.

Lemma keeps_find_reusable queue size : keeps (find_reusable queue size).
Proof. unfold find_reusable, get_queue, get_dispatch. keeps. Qed.

Hint Resolve keeps_create_dispatch keeps_find_reusable : keeps.

Lemma keeps_acquire_dispatch device queue size : keeps (acquire_dispatch device queue size).
Proof. unfold acquire_dispatch, get_queue, get_dispatch. keeps. Qed.

Lemma keeps_write_kernargs info config requirements args size dispatch :
  keeps (write_kernargs info config requirements args size dispatch).
Proof. unfold write_kernargs, slice_host_address, slice_gpu_address, store_bytes, get_dispatch, get_arena. keeps. Qed.

(** ** Submission *)

Lemma keeps_register events queue : keeps (register_dependencies events queue).
Proof. induction events; cbn [register_dependencies]; keeps. Qed.

Hint Resolve keeps_acquire_dispatch keeps_write_kernargs keeps_register : keeps.

Lemma keeps_push_barriers groups queue dispatch : keeps (push_barriers groups queue dispatch).
Proof. induction groups; cbn [push_barriers]; keeps. Qed.

Lemma keeps_pop_barriers count queue : keeps (pop_barriers count queue).
Proof. induction count; cbn [pop_barriers]; unfold get_queue; keeps. Qed.

Lemma keeps_record_event device queue event clock : keeps (record_event device queue event clock).
Proof. unfold record_event, get_queue, get_event, queue_set_profiling_enabled. keeps. Qed.

Lemma keeps_unrecord_event device queue event backup : keeps (unrecord_event device queue event backup).
Proof. unfold unrecord_event, get_event. keeps. Qed.

Hint Resolve keeps_push_barriers keeps_pop_barriers keeps_record_event keeps_unrecord_event : keeps.

Lemma keeps_publish device queue dispatch groups barriers parameters recorded :
  keeps (publish_dispatch device queue dispatch groups barriers parameters recorded).
Proof. unfold publish_dispatch, return_dispatch, get_queue, get_dispatch. keeps. Qed.

Lemma keeps_attach device queue dispatch event : keeps (attach_event device queue dispatch event).
Proof. unfold attach_event, return_dispatch, get_event. keeps. Qed.

Hint Resolve keeps_publish keeps_attach : keeps.

Lemma keeps_submit_kernel device queue image index config args size event dependencies lock :
  keeps (submit_direct_kfd_kernel_impl_locked device queue image index config args size event dependencies lock).
Proof.
  unfold submit_direct_kfd_kernel_impl_locked, completion_event_usable, valid_event_locked,
    barrier_parameters, make_room_for_dispatch, return_dispatch, get_queue, get_event. keeps.
Qed.

(** ** Devices and events *)

Lemma keeps_wait_loop fuel ready : keeps ready -> keeps (wait_loop fuel ready).
Proof. intros Hr. induction fuel; cbn [wait_loop]; keeps. Qed.

Lemma keeps_all_of {A} (Q : A -> kfd (runtime W) bool) l : (forall x, keeps (Q x)) -> keeps (all_of Q l).
Proof. intros Hq. induction l; cbn [all_of]; keeps. Qed.

Lemma keeps_prepare device queue lock :
  keeps (prepare_direct_kfd_queue_synchronization_locked device queue lock).
Proof. unfold prepare_direct_kfd_queue_synchronization_locked, get_queue. keeps. Qed.

Lemma keeps_finish queue signal status :
  keeps (finish_direct_kfd_queue_synchronization_locked queue signal status).
Proof. unfold finish_direct_kfd_queue_synchronization_locked. keeps. Qed.

Hint Resolve keeps_prepare keeps_finish : keeps.

Lemma keeps_prepare_devices device all queues : keeps (prepare_device_queues device all queues).
Proof. induction queues; cbn [prepare_device_queues]; keeps. Qed.

Lemma keeps_finish_devices result l : keeps (finish_device_queues result l).
Proof. revert result. induction l; intros result; cbn [finish_device_queues]; keeps. Qed.

Hint Resolve keeps_prepare_devices keeps_finish_devices : keeps.

Lemma keeps_synchronize_device device : keeps (synchronize_direct_kfd_device device).
Proof.
  unfold synchronize_direct_kfd_device, wait_until. apply keeps_bind.
  - apply keeps_wait_loop. keeps. apply keeps_all_of. intros q. unfold queue_is, get_queue. keeps.
  - intros _. keeps.
Qed.

Lemma keeps_queue_synchronize queue : keeps (lr_queue_synchronize queue).
Proof.
  unfold lr_queue_synchronize, wait_for_direct_kfd_queue_synchronization, device_in_range, get_queue. keeps.
Qed.

Hint Resolve keeps_queue_synchronize : keeps.

Lemma keeps_wait_event event : keeps (wait_for_direct_kfd_event_locked event).
Proof. unfold wait_for_direct_kfd_event_locked, get_event. keeps. Qed.

Lemma keeps_consumers_loop fuel lock event : keeps (consumers_loop fuel lock event).
Proof. induction fuel; cbn [consumers_loop]; unfold valid_event_locked, get_event; keeps. Qed.

Hint Resolve keeps_consumers_loop : keeps.

Lemma keeps_consumers event : keeps (wait_for_direct_kfd_event_consumers event).
Proof. unfold wait_for_direct_kfd_event_consumers, get_event. keeps. Qed.

Lemma keeps_collect_loop device event dependencies unique pending :
  keeps (collect_loop device event dependencies unique pending).
Proof.
  revert unique pending. induction dependencies; intros unique pending; cbn [collect_loop];
    unfold valid_event_locked, get_event; keeps.
Qed.

Hint Resolve keeps_collect_loop : keeps.

Lemma keeps_collect device dependencies count event :
  keeps (collect_direct_kfd_event_dependencies_locked device dependencies count event).
Proof. unfold collect_direct_kfd_event_dependencies_locked. keeps. Qed.

(** ** Releases *)

Lemma keeps_release_dispatches dispatches : keeps (release_dispatches dispatches).
Proof. induction dispatches; cbn [release_dispatches]; unfold get_dispatch; keeps. Qed.

Lemma keeps_release_arenas arenas : keeps (release_arenas arenas).
Proof. induction arenas; cbn [release_arenas]; unfold get_arena; keeps. Qed.

Hint Resolve keeps_release_dispatches keeps_release_arenas : keeps.

Lemma keeps_release_resources queue : keeps (release_queue_resources queue).
Proof.
  unfold release_queue_resources, release_direct_kfd_dispatch_pool_locked,
    release_direct_kfd_kernarg_arenas_locked, get_queue. keeps.
Qed.

End functions.

#[export] Hint Resolve keeps_submit_kernel keeps_synchronize_queue keeps_synchronize_device keeps_wait_event keeps_consumers keeps_collect keeps_release_dispatches keeps_release_arenas keeps_release_resources : keeps.

Section queues.
Context {W : Type} `{!Transport W, !Threads W}.
Context (P : runtime W -> Prop) (HP : about_core P).
Abbreviation keeps := (keeps P).

(** ** Queues that come and go *)

Lemma keeps_delete_queue queue : keeps (delete_queue queue).
Proof. unfold delete_queue, get_queue. keeps. Qed.

Lemma keeps_create_queue device is_default : keeps (create_direct_kfd_queue device is_default).
Proof. unfold create_direct_kfd_queue, abandon_queue. keeps. Qed.

Hint Resolve keeps_delete_queue keeps_create_queue : keeps.

Lemma keeps_restore device : keeps (restore_direct_kfd_default_queue_locked device).
Proof.
  unfold restore_direct_kfd_default_queue_locked, release_direct_kfd_dispatch_pool_locked,
    release_direct_kfd_kernarg_arenas_locked, get_queue. keeps.
Qed.

Lemma keeps_release_device_queues fuel device index result :
  keeps (release_device_queues fuel device index result).
Proof.
  revert index result. induction fuel; intros index result; cbn [release_device_queues]; keeps.
  apply keeps_update_device_core; [done|]. intros d. by destruct (bool_decide _).
Qed.

Lemma keeps_release_queues_of devices result : keeps (release_queues_of devices result).
Proof.
  revert result. induction devices; intros result; cbn [release_queues_of]; keeps.
  apply keeps_release_device_queues.
Qed.

Lemma keeps_release_queues result : keeps (release_direct_kfd_queues_locked result).
Proof. unfold release_direct_kfd_queues_locked. keeps. apply keeps_release_queues_of. Qed.
End queues.
