(* ===== verification/MemoryBooks.v ===== *)
(** * The books of the memory API

    The registries and the statistics agree: allocations are disjoint, and the
    live bytes of a device are the bytes of its registered allocations. *)

From stdpp Require Import gmap.
From S2P Require Import Prelude Memory CodeObject ExecutableImage Topology AqlQueue KfdProducer Signal KfdKernel KfdMemory MemoryState RuntimeState DirectQueue DirectLaunch DirectApi DirectEvents RuntimeFacts MemoryRegistry MemoryCopy MemoryFrame.

(** ** Disjoint ranges *)

Definition total (l : list (Z * Z)) : Z := foldr (fun x acc => x.2 + acc) 0 l.

Lemma total_split (Q : Z * Z -> Prop) `{forall x, Decision (Q x)} l :
  total l = total (filter Q l) + total (filter (fun x => ~ Q x) l).
Proof.
  assert (forall x k, total (x :: k) = x.2 + total k) as Hc by done.
  induction l as [|x l IH]; [done|]. rewrite !filter_cons, Hc.
  destruct (decide (Q x)), (decide (~ Q x)); try tauto; rewrite Hc; lia.
Qed.

(** Disjoint ranges between two bounds have no room for more. *)
Lemma total_bound l lo hi :
  NoDup l -> lo <= hi ->
  (forall x, x ∈ l -> lo <= x.1 /\ 0 < x.2 /\ x.1 + x.2 <= hi) ->
  (forall x y, x ∈ l -> y ∈ l -> x <> y -> x.1 + x.2 <= y.1 \/ y.1 + y.2 <= x.1) ->
  total l <= hi - lo.
Proof.
  remember (length l) as n eqn:Hn. revert l lo hi Hn. induction n as [n IH] using lt_wf_ind.
  intros [|[b k] l] lo hi Hn Hnd Hlo Hin Hap; [cbn; lia|].
  apply NoDup_cons in Hnd as [Hx Hnd]. pose proof (Hin (b, k) ltac:(by left)) as Hb. cbn in Hn, Hb.
  change (total ((b, k) :: l)) with (k + total l).
  rewrite (total_split (fun x => x.1 + x.2 <= b)).
  assert (forall Q `{forall x : Z * Z, Decision (Q x)} l0 h0, l0 <= h0 ->
    (forall x, x ∈ l -> Q x -> l0 <= x.1 /\ x.1 + x.2 <= h0) -> total (filter Q l) <= h0 - l0) as Hpart.
  { intros Q ? l0 h0 Hl Hq. eapply IH; [|reflexivity|by apply NoDup_filter|done|..].
    - subst n. pose proof (length_filter Q l). lia.
    - intros x [Hqx Hxl]%list_elem_of_filter. specialize (Hq x Hxl Hqx).
      specialize (Hin x ltac:(by right)). lia.
    - intros x y [_ Hxl]%list_elem_of_filter [_ Hyl]%list_elem_of_filter Hne. apply Hap; [by right..|done]. }
  pose proof (Hpart (fun x => x.1 + x.2 <= b) _ lo b ltac:(lia)) as H1.
  pose proof (Hpart (fun x => ~ x.1 + x.2 <= b) _ (b + k) hi ltac:(lia)) as H2.
  assert (forall x, x ∈ l -> lo <= x.1 /\ 0 < x.2 /\ x.1 + x.2 <= hi /\ (x.1 + x.2 <= b \/ b + k <= x.1)) as Hsides.
  { intros x Hxl. pose proof (Hin x ltac:(by right)). split_and!; try lia.
    destruct (Hap (b, k) x ltac:(by left) ltac:(by right)) as [?|?]; [congruence|cbn in *; lia|cbn in *; lia]. }
  specialize (H1 ltac:(intros x Hxl ?; specialize (Hsides x Hxl); cbv beta in *; lia)).
  specialize (H2 ltac:(intros x Hxl ?; specialize (Hsides x Hxl); cbv beta in *; lia)). lia.
Qed.

(** ** Registries as device and size per address *)

Abbreviation registry := (gmap Z (Z * Z)).

Definition device_view (g : memory_globals) : registry :=
  (fun info => (ai_device_index info, ai_requested_size info)) <$> g_light_rocr_allocations g.

Definition host_view (g : memory_globals) : registry :=
  (fun info => (hi_device_index info, hi_requested_size info)) <$> g_light_rocr_host_allocations g.

(** The registered bytes of a device. *)
Definition registered (device : Z) (m : registry) : Z :=
  map_fold (fun _ x acc => (if x.1 =? device then x.2 else 0) + acc) 0 m.

Lemma registered_insert device m b d n :
  m !! b = None -> registered device (<[b := (d, n)]> m) = (if d =? device then n else 0) + registered device m.
Proof.
  intros Hb. unfold registered. rewrite (map_fold_insert_L _ _ b); [done|intros; lia|done].
Qed.

Lemma registered_delete device m b d n :
  m !! b = Some (d, n) -> registered device m = (if d =? device then n else 0) + registered device (delete b m).
Proof.
  intros Hb. rewrite <-(registered_insert device (delete b m) b) by apply lookup_delete_eq. by rewrite insert_delete_id.
Qed.

(** The range of a new allocation. *)
Definition fresh_range (m : registry) (a n : Z) : Prop :=
  0 < a /\ a + n <= U64_MOD /\
  forall b d k, m !! b = Some (d, k) -> a + n <= b \/ b + k <= a.

Record registry_ok (devices : nat) (m : registry) : Prop := {
  ro_entry b d n : m !! b = Some (d, n) -> 0 < b /\ 0 < n /\ b + n <= U64_MOD /\ 0 <= d < Z.of_nat devices;
  ro_apart b1 d1 n1 b2 d2 n2 : m !! b1 = Some (d1, n1) -> m !! b2 = Some (d2, n2) -> b1 <> b2 ->
    b1 + n1 <= b2 \/ b2 + n2 <= b1
}.

Lemma registry_ok_insert devices m a d n :
  registry_ok devices m -> fresh_range m a n -> 0 < n -> 0 <= d < Z.of_nat devices ->
  registry_ok devices (<[a := (d, n)]> m).
Proof.
  intros [He Ha] (F1 & F2 & F3) Hn Hd. split.
  - intros b d' n' [[<- [= <- <-]]|[_ Hb]]%lookup_insert_Some; [lia|by apply (He b d' n')].
  - intros b1 d1 n1 b2 d2 n2 [[<- [= <- <-]]|[_ H1]]%lookup_insert_Some
      [[<- [= <- <-]]|[_ H2]]%lookup_insert_Some Hne; [done|..].
    + by eapply F3.
    + apply F3 in H1. lia.
    + by eapply Ha.
Qed.

Lemma registry_ok_delete devices m b : registry_ok devices m -> registry_ok devices (delete b m).
Proof.
  intros [He Ha]. split.
  - intros b' d n [_ Hb]%lookup_delete_Some. by apply (He b').
  - intros b1 d1 n1 b2 d2 n2 [_ H1]%lookup_delete_Some [_ H2]%lookup_delete_Some. by apply (Ha _ d1 _ _ d2).
Qed.

Lemma registry_ok_empty devices : registry_ok devices ∅.
Proof. by split; intros; simplify_map_eq. Qed.

(** The registered bytes fit in the address space. *)
Lemma registered_bound devices m device : registry_ok devices m -> 0 <= registered device m < U64_MOD.
Proof.
  intros [He Ha].
  set (l := (fun x : Z * (Z * Z) => (x.1, x.2.2)) <$> map_to_list m).
  assert (total l <= U64_MOD - 1) as Ht.
  { apply total_bound; [| lia | |].
    - apply NoDup_fmap_2_strong; [|apply NoDup_map_to_list].
      intros [b1 [d1 n1]] [b2 [d2 n2]] H1%elem_of_map_to_list H2%elem_of_map_to_list [= -> _]. congruence.
    - intros x ([b [d n]] & -> & H%elem_of_map_to_list)%list_elem_of_fmap. apply He in H. cbn. lia.
    - intros x y ([b1 [d1 n1]] & -> & H1%elem_of_map_to_list)%list_elem_of_fmap
        ([b2 [d2 n2]] & -> & H2%elem_of_map_to_list)%list_elem_of_fmap Hne. cbn.
      eapply Ha; [done..|]. intros ->. apply Hne. congruence. }
  assert (0 <= registered device m <= total l) as Hr; [|lia].
  unfold registered, l. rewrite map_fold_foldr. clear Ht l.
  assert (forall x, x ∈ map_to_list m -> 0 < x.2.2) as Hpos.
  { intros [b [d n]] H%elem_of_map_to_list. apply He in H. cbn. lia. }
  induction (map_to_list m) as [|[b [d n]] l IH]; [done|].
  pose proof (Hpos (b, (d, n)) ltac:(by left)) as Hn. cbn in Hn.
  specialize (IH ltac:(intros x Hx; apply Hpos; by right)).
  rewrite fmap_cons. cbn [foldr uncurry fst snd].
  change (total ((b, n) :: ?k)) with (n + total k). destruct (d =? device); lia.
Qed.

(** One more allocation: the registry stays in order, the live bytes grow by
    its size without wrapping around, the other devices are as before. *)
Lemma registry_allocate devices m device base size live :
  registry_ok devices m -> fresh_range m base size -> 0 < size -> 0 <= device < Z.of_nat devices ->
  live = registered device m ->
  let m' := <[base := (device, size)]> m in
  registry_ok devices m' /\ u64_add live size = live + size /\ live + size = registered device m' /\
  (forall d, d <> device -> registered d m' = registered d m).
Proof.
  intros Hok Hf Hs Hd -> m'.
  assert (m !! base = None) as Hnew.
  { destruct (m !! base) as [[d n]|] eqn:E; [|done]. pose proof (ro_entry _ _ Hok _ _ _ E).
    apply (proj2 (proj2 Hf)) in E. lia. }
  assert (registry_ok devices m') as Hok' by by apply registry_ok_insert.
  assert (forall d, registered d m' = (if device =? d then size else 0) + registered d m) as Hreg.
  { intros d. by apply registered_insert. }
  pose proof (registered_bound _ _ device Hok') as Hb. rewrite Hreg, Z.eqb_refl in Hb.
  split_and!; [done|apply u64_add_small; lia| |].
  - rewrite Hreg, Z.eqb_refl. lia.
  - intros d Hne. rewrite Hreg. destruct (device =? d) eqn:E; lia.
Qed.

(** One less. *)
Lemma registry_free devices m device base size live :
  registry_ok devices m -> m !! base = Some (device, size) -> live = registered device m ->
  let m' := delete base m in
  registry_ok devices m' /\ 0 < size <= live /\ live - size = registered device m' /\
  (forall d, d <> device -> registered d m' = registered d m).
Proof.
  intros Hok Hb -> m'.
  assert (registry_ok devices m') as Hok' by by apply registry_ok_delete.
  assert (forall d, registered d m = (if device =? d then size else 0) + registered d m') as Hreg.
  { intros d. by apply registered_delete. }
  pose proof (registered_bound _ _ device Hok') as Hpos. pose proof (ro_entry _ _ Hok _ _ _ Hb).
  pose proof (Hreg device) as Hdev. rewrite Z.eqb_refl in Hdev.
  split_and!; [done|lia|lia|lia|]. intros d Hne. rewrite (Hreg d). destruct (device =? d) eqn:E; lia.
Qed.

(** ** The memory API keeps its books

    Every call keeps the agreement of registries and statistics, and the
    entries that other threads are about to free. *)

Import LrStatus.

(** ** The invariant *)

Record stats_ok (device : Z) (g : memory_globals) (stats : lr_memory_stats_t) : Prop := {
  so_live : st_live_bytes stats = registered device (device_view g);
  so_peak : st_live_bytes stats <= st_peak_live_bytes stats;
  so_host_live : st_pinned_host_live_bytes stats = registered device (host_view g);
  so_host_peak : st_pinned_host_live_bytes stats <= st_pinned_host_peak_live_bytes stats
}.

Record books_ok (g : memory_globals) (stats : list lr_memory_stats_t) : Prop := {
  bo_device : registry_ok (length stats) (device_view g);
  bo_host : registry_ok (length stats) (host_view g);
  bo_stats i device_stats : stats !! i = Some device_stats -> stats_ok (Z.of_nat i) g device_stats
}.

(** The books after one more or one less allocation. *)
Lemma books_ok_views g g' stats :
  device_view g' = device_view g -> host_view g' = host_view g -> books_ok g stats -> books_ok g' stats.
Proof.
  intros Hd Hh [H1 H2 H3]. split; [by rewrite Hd|by rewrite Hh|].
  intros i st Hi. destruct (H3 i st Hi). split; by rewrite ?Hd, ?Hh.
Qed.

(** A change of one device's statistics with the registries. *)
Lemma books_ok_stats g g' stats i old f :
  books_ok g stats -> stats !! i = Some old ->
  registry_ok (length stats) (device_view g') -> registry_ok (length stats) (host_view g') ->
  (stats_ok (Z.of_nat i) g old -> stats_ok (Z.of_nat i) g' (f old)) ->
  (forall j st, j <> i -> stats_ok (Z.of_nat j) g st -> stats_ok (Z.of_nat j) g' st) ->
  books_ok g' (<[i := f old]> stats).
Proof.
  intros [H1 H2 H3] Hi Hd Hh Hf Hother. split; [by rewrite length_insert..|].
  intros j st Hj. apply list_lookup_insert_Some in Hj as [(<- & <- & _)|[Hne Hj]].
  - by apply Hf, H3.
  - by apply Hother, H3.
Qed.

Section books_steps.
Context (g : memory_globals) (stats : list lr_memory_stats_t) (i : nat) (old : lr_memory_stats_t).
Hypothesis Hok : books_ok g stats.
Hypothesis Hi : stats !! i = Some old.
Let device := Z.of_nat i.

Lemma books_allocate base size allocation :
  fresh_range (device_view g) base size -> 0 < size ->
  let info := mkAllocationInfo device size 0 false allocation in
  books_ok (set_allocations (<[base := info]> (g_light_rocr_allocations g)) g)
    (<[i := record_allocation size old]> stats).
Proof.
  intros Hf Hs info. set (g' := set_allocations _ g).
  assert (device_view g' = <[base := (device, size)]> (device_view g)) as Hv.
  { unfold device_view, g'. cbn. by rewrite fmap_insert. }
  pose proof (bo_stats _ _ Hok _ _ Hi) as [S1 S2 S3 S4].
  edestruct (registry_allocate (length stats) (device_view g) device) as (Hr & Hadd & Hlive & Hother);
    [apply Hok|exact Hf|done|apply lookup_lt_Some in Hi; unfold device; lia|exact S1|].
  rewrite <-Hv in Hr, Hlive, Hother. apply (books_ok_stats g); [done|done|exact Hr|by destruct Hok| |].
  - intros _. split; cbn [record_allocation st_live_bytes st_peak_live_bytes st_pinned_host_live_bytes
      st_pinned_host_peak_live_bytes]; rewrite ?Hadd; try done. destruct (_ >? _) eqn:E; lia.
  - intros j st Hj [T1 T2 T3 T4]. split; try done. rewrite Hother; [done|unfold device; lia].
Qed.

Lemma books_free base info :
  g_light_rocr_allocations g !! base = Some info -> ai_device_index info = device ->
  books_ok (set_allocations (delete base (g_light_rocr_allocations g)) g)
    (<[i := record_free (ai_requested_size info) old]> stats).
Proof.
  intros Hb Hd. set (g' := set_allocations _ g).
  assert (device_view g' = delete base (device_view g)) as Hv.
  { unfold device_view, g'. cbn. by rewrite fmap_delete. }
  pose proof (bo_stats _ _ Hok _ _ Hi) as [S1 S2 S3 S4].
  edestruct (registry_free (length stats) (device_view g) device base) as (Hr & Hsize & Hlive & Hother);
    [apply Hok|unfold device_view; by rewrite lookup_fmap, Hb; cbn; rewrite Hd|exact S1|].
  rewrite <-Hv in Hr, Hlive, Hother. apply (books_ok_stats g); [done|done|exact Hr|by destruct Hok| |].
  - intros _. split; cbn [record_free st_live_bytes st_peak_live_bytes st_pinned_host_live_bytes
      st_pinned_host_peak_live_bytes]; try done; destruct (_ >? _) eqn:E; try lia; done.
  - intros j st Hj [T1 T2 T3 T4]. split; try done. rewrite Hother; [done|unfold device; lia].
Qed.

Lemma books_host_allocate base size allocation :
  fresh_range (host_view g) base size -> 0 < size ->
  let info := mkHostAllocationInfo device size 0 false allocation in
  books_ok (set_host_allocations (<[base := info]> (g_light_rocr_host_allocations g)) g)
    (<[i := record_host_allocation size old]> stats).
Proof.
  intros Hf Hs info. set (g' := set_host_allocations _ g).
  assert (host_view g' = <[base := (device, size)]> (host_view g)) as Hv.
  { unfold host_view, g'. cbn. by rewrite fmap_insert. }
  pose proof (bo_stats _ _ Hok _ _ Hi) as [S1 S2 S3 S4].
  edestruct (registry_allocate (length stats) (host_view g) device) as (Hr & Hadd & Hlive & Hother);
    [apply Hok|exact Hf|done|apply lookup_lt_Some in Hi; unfold device; lia|exact S3|].
  rewrite <-Hv in Hr, Hlive, Hother. apply (books_ok_stats g); [done|done|by destruct Hok|exact Hr| |].
  - intros _. split; cbn [record_host_allocation st_live_bytes st_peak_live_bytes st_pinned_host_live_bytes
      st_pinned_host_peak_live_bytes]; rewrite ?Hadd; try done. destruct (_ >? _) eqn:E; lia.
  - intros j st Hj [T1 T2 T3 T4]. split; try done. rewrite Hother; [done|unfold device; lia].
Qed.

Lemma books_host_free base info :
  g_light_rocr_host_allocations g !! base = Some info -> hi_device_index info = device ->
  books_ok (set_host_allocations (delete base (g_light_rocr_host_allocations g)) g)
    (<[i := record_host_free (hi_requested_size info) old]> stats).
Proof.
  intros Hb Hd. set (g' := set_host_allocations _ g).
  assert (host_view g' = delete base (host_view g)) as Hv.
  { unfold host_view, g'. cbn. by rewrite fmap_delete. }
  pose proof (bo_stats _ _ Hok _ _ Hi) as [S1 S2 S3 S4].
  edestruct (registry_free (length stats) (host_view g) device base) as (Hr & Hsize & Hlive & Hother);
    [apply Hok|unfold host_view; by rewrite lookup_fmap, Hb; cbn; rewrite Hd|exact S3|].
  rewrite <-Hv in Hr, Hlive, Hother. apply (books_ok_stats g); [done|done|by destruct Hok|exact Hr| |].
  - intros _. split; cbn [record_host_free st_live_bytes st_peak_live_bytes st_pinned_host_live_bytes
      st_pinned_host_peak_live_bytes]; try done; destruct (_ >? _) eqn:E; try lia; done.
  - intros j st Hj [T1 T2 T3 T4]. split; try done. rewrite Hother; [done|unfold device; lia].
Qed.

End books_steps.

Section invariant.
Context {W : Type} `{!Transport W, !MemoryTransport W, !Threads W}.
Abbreviation M := (kfd (runtime W)).
Implicit Type s : runtime W.

Definition memory_inv s : Prop := books_ok (g_memory s) (ds_memory_stats <$> g_devices s).

(** An entry that a thread has marked for destruction. *)
Definition held_device s (base : Z) (x : Z * Z) : Prop := exists info,
  g_light_rocr_allocations (g_memory s) !! base = Some info /\ ai_destroying info = true /\
  (ai_device_index info, ai_requested_size info) = x.

Definition held_host s (base : Z) (x : Z * Z) : Prop := exists info,
  g_light_rocr_host_allocations (g_memory s) !! base = Some info /\ hi_destroying info = true /\
  (hi_device_index info, hi_requested_size info) = x.

(** The invariant, with the entries [H] and [K] marked for destruction. *)
Record inv_held (H K : registry) s : Prop := {
  ih_inv : memory_inv s;
  ih_device b x : H !! b = Some x -> held_device s b x;
  ih_host b x : K !! b = Some x -> held_host s b x
}.

(** A change that keeps the books and the marked entries [H] and [K]; it may
    mark others, and free the ones that are not in [H] or [K]. *)
Definition respects (H K : registry) (f : runtime W -> runtime W) : Prop :=
  forall s, inv_held H K s -> inv_held H K (f s).

Lemma inv_held_books H K s s' : books s' = books s -> inv_held H K s -> inv_held H K s'.
Proof.
  intros [= Hg Hs] [H1 H2 H3]. split.
  - unfold memory_inv in *. by rewrite Hg, Hs.
  - intros b x Hb. unfold held_device. rewrite Hg. by apply H2.
  - intros b x Hb. unfold held_host. rewrite Hg. by apply H3.
Qed.

Lemma inv_held_about H K : respects H K other_threads -> about_core (inv_held H K).
Proof.
  intros Ht. split; [|intros s; apply Ht]. intros s s' E. apply inv_held_books. unfold core in E. congruence.
Qed.

(** ** Entries *)

Lemma inv_put_allocation H K s base info info' :
  inv_held H K s -> g_light_rocr_allocations (g_memory s) !! base = Some info ->
  ai_device_index info' = ai_device_index info -> ai_requested_size info' = ai_requested_size info ->
  (is_Some (H !! base) -> ai_destroying info' = true) ->
  inv_held H K (set_g_memory
    (set_allocations (<[base := info']> (g_light_rocr_allocations (g_memory s))) (g_memory s)) s).
Proof.
  intros [H1 H2 H3] Hb Hd Hn Hheld. split; [|intros b x Hx|by apply H3].
  - apply (books_ok_views (g_memory s)); [|done|exact H1]. unfold device_view. cbn. rewrite fmap_insert.
    apply insert_id. by rewrite lookup_fmap, Hb, Hd, Hn.
  - destruct (H2 b x Hx) as (i & Hi & Hdes & Hv). unfold held_device. cbn.
    destruct (decide (b = base)) as [->|Hne].
    + exists info'. rewrite lookup_insert_eq. rewrite Hb in Hi. injection Hi as <-.
      split_and!; [done|by apply Hheld|by rewrite Hd, Hn].
    + exists i. by rewrite lookup_insert_ne.
Qed.

Lemma inv_put_host_allocation H K s base info info' :
  inv_held H K s -> g_light_rocr_host_allocations (g_memory s) !! base = Some info ->
  hi_device_index info' = hi_device_index info -> hi_requested_size info' = hi_requested_size info ->
  (is_Some (K !! base) -> hi_destroying info' = true) ->
  inv_held H K (set_g_memory
    (set_host_allocations (<[base := info']> (g_light_rocr_host_allocations (g_memory s))) (g_memory s)) s).
Proof.
  intros [H1 H2 H3] Hb Hd Hn Hheld. split; [|by apply H2|intros b x Hx].
  - apply (books_ok_views (g_memory s)); [done| |exact H1]. unfold host_view. cbn. rewrite fmap_insert.
    apply insert_id. by rewrite lookup_fmap, Hb, Hd, Hn.
  - destruct (H3 b x Hx) as (i & Hi & Hdes & Hv). unfold held_host. cbn.
    destruct (decide (b = base)) as [->|Hne].
    + exists info'. rewrite lookup_insert_eq. rewrite Hb in Hi. injection Hi as <-.
      split_and!; [done|by apply Hheld|by rewrite Hd, Hn].
    + exists i. by rewrite lookup_insert_ne.
Qed.

(** The statistics of one device change. *)
Lemma update_stats_run device f s a s' :
  update_stats device f s = Ok (a, s') ->
  exists i old, device = Z.of_nat i /\ (ds_memory_stats <$> g_devices s) !! i = Some old /\
    books s' = (g_memory s, <[i := f old]> (ds_memory_stats <$> g_devices s)).
Proof.
  unfold update_stats, update_device, mbind, kfd_bind, get_device. intros Hrun.
  destruct (g_devices s !! _) as [state|] eqn:E; [|done]. destruct (0 <=? device) eqn:G; [|done].
  injection Hrun as <- <-. exists (Z.to_nat device), (ds_memory_stats state). split_and!; [lia| |].
  - by rewrite list_lookup_fmap, E.
  - unfold books. cbn. by rewrite list_fmap_insert.
Qed.

(** A new entry and its statistics. *)
Lemma inv_register H K s base size allocation device a1 s1 a2 s2 :
  inv_held H K s -> fresh_range (device_view (g_memory s)) base size -> 0 < size ->
  put_allocation base (mkAllocationInfo device size 0 false allocation) s = Ok (a1, s1) ->
  update_stats device (record_allocation size) s1 = Ok (a2, s2) -> inv_held H K s2.
Proof.
  intros [H1 H2 H3] Hf Hn [= <- <-] (i & old & -> & Hi & Hb)%update_stats_run.
  unfold books in Hb. injection Hb as Hg Hst. cbn in Hi, Hg, Hst. split.
  - unfold memory_inv. rewrite Hg, Hst. by apply books_allocate.
  - intros b x (info & Hl & ?)%H2. exists info. rewrite Hg. cbn. split; [|done].
    rewrite lookup_insert_ne; [done|]. intros <-.
    assert (device_view (g_memory s) !! base = Some (ai_device_index info, ai_requested_size info)) as Hv.
    { unfold device_view. by rewrite lookup_fmap, Hl. }
    pose proof (ro_entry _ _ (bo_device _ _ H1) _ _ _ Hv). apply (proj2 (proj2 Hf)) in Hv. lia.
  - intros b x (info & Hl & ?)%H3. exists info. by rewrite Hg.
Qed.

Lemma inv_host_register H K s base size allocation device a1 s1 a2 s2 :
  inv_held H K s -> fresh_range (host_view (g_memory s)) base size -> 0 < size ->
  put_host_allocation base (mkHostAllocationInfo device size 0 false allocation) s = Ok (a1, s1) ->
  update_stats device (record_host_allocation size) s1 = Ok (a2, s2) -> inv_held H K s2.
Proof.
  intros [H1 H2 H3] Hf Hn [= <- <-] (i & old & -> & Hi & Hb)%update_stats_run.
  unfold books in Hb. injection Hb as Hg Hst. cbn in Hi, Hg, Hst. split.
  - unfold memory_inv. rewrite Hg, Hst. by apply books_host_allocate.
  - intros b x (info & Hl & ?)%H2. exists info. by rewrite Hg.
  - intros b x (info & Hl & ?)%H3. exists info. rewrite Hg. cbn. split; [|done].
    rewrite lookup_insert_ne; [done|]. intros <-.
    assert (host_view (g_memory s) !! base = Some (hi_device_index info, hi_requested_size info)) as Hv.
    { unfold host_view. by rewrite lookup_fmap, Hl. }
    pose proof (ro_entry _ _ (bo_host _ _ H1) _ _ _ Hv). apply (proj2 (proj2 Hf)) in Hv. lia.
Qed.

(** An entry goes, with its statistics. *)
Lemma inv_erase H K s base info device a1 s1 a2 s2 :
  inv_held H K s -> H !! base = None ->
  g_light_rocr_allocations (g_memory s) !! base = Some info -> ai_device_index info = device ->
  erase_allocation base s = Ok (a1, s1) ->
  update_stats device (record_free (ai_requested_size info)) s1 = Ok (a2, s2) -> inv_held H K s2.
Proof.
  intros [H1 H2 H3] Hh Hl Hd [= <- <-] (i & old & -> & Hi & Hb)%update_stats_run.
  unfold books in Hb. injection Hb as Hg Hst. cbn in Hi, Hg, Hst. split.
  - unfold memory_inv. rewrite Hg, Hst. by apply books_free.
  - intros b x Hx. destruct (H2 b x Hx) as (i' & Hl' & ?). exists i'. rewrite Hg. cbn. split; [|done].
    rewrite lookup_delete_ne; [done|]. congruence.
  - intros b x (i' & Hl' & ?)%H3. exists i'. by rewrite Hg.
Qed.

Lemma inv_host_erase H K s base info device a1 s1 a2 s2 :
  inv_held H K s -> K !! base = None ->
  g_light_rocr_host_allocations (g_memory s) !! base = Some info -> hi_device_index info = device ->
  erase_host_allocation base s = Ok (a1, s1) ->
  update_stats device (record_host_free (hi_requested_size info)) s1 = Ok (a2, s2) -> inv_held H K s2.
Proof.
  intros [H1 H2 H3] Hh Hl Hd [= <- <-] (i & old & -> & Hi & Hb)%update_stats_run.
  unfold books in Hb. injection Hb as Hg Hst. cbn in Hi, Hg, Hst. split.
  - unfold memory_inv. rewrite Hg, Hst. by apply books_host_free.
  - intros b x (i' & Hl' & ?)%H2. exists i'. by rewrite Hg.
  - intros b x Hx. destruct (H3 b x Hx) as (i' & Hl' & ?). exists i'. rewrite Hg. cbn. split; [|done].
    rewrite lookup_delete_ne; [done|]. congruence.
Qed.
End invariant.
