(* ===== verification/MemoryCalls.v ===== *)
(** * Calls of the memory API

    Every public function, and the release at shutdown, against the invariant
    of [MemoryBooks]. *)

From stdpp Require Import gmap.
From S2P Require Import Prelude Memory CodeObject ElfReader ExecutableImage Topology AqlQueue KfdProducer Signal KfdKernel KfdMemory MemoryState RuntimeState DirectQueue DirectLaunch DirectApi DirectEvents RuntimeFacts MemoryRegistry MemoryCopy MemoryFrame MemoryBooks.

Import LrStatus.

(** ** Partial correctness *)

Section wlp.
Context {W : Type}.
Abbreviation M := (kfd (runtime W)).
Implicit Type s : runtime W.

Definition wlp {A} (m : M A) (Q : A -> runtime W -> Prop) s : Prop :=
  forall a s', m s = Ok (a, s') -> Q a s'.

Lemma wlp_bind {A B} (m : M A) (k : A -> M B) Q s :
  wlp m (fun a s1 => wlp (k a) Q s1) s -> wlp (m ≫= k) Q s.
Proof.
  intros Hm b s' H. unfold mbind, kfd_bind in H. destruct (m s) as [[a s1]|[]|f] eqn:E; [|done].
  by eapply Hm.
Qed.

Lemma wlp_ret {A} (a : A) (Q : A -> runtime W -> Prop) s : Q a s -> wlp (mret a) Q s.
Proof. by intros H b s' [= <- <-]. Qed.

Lemma wlp_gets {A} (f : runtime W -> A) (Q : A -> runtime W -> Prop) s : Q (f s) s -> wlp (gets f) Q s.
Proof. by intros H b s' [= <- <-]. Qed.

Lemma wlp_modify f (Q : unit -> runtime W -> Prop) s : Q tt (f s) -> wlp (modify f) Q s.
Proof. by intros H b s' [= <- <-]. Qed.

Lemma wlp_below {A} (f : W -> A * W) (Q : A -> runtime W -> Prop) s :
  (forall a w, f (rt_world s) = (a, w) -> Q a (set_rt_world w s)) -> wlp (below f) Q s.
Proof. intros H b s' Hb. unfold below in Hb. destruct (f _) as [a w] eqn:E. injection Hb as <- <-. by apply H. Qed.

Lemma wlp_fail {A} (Q : A -> runtime W -> Prop) s : wlp failed_assert Q s.
Proof. by intros a s'. Qed.

Lemma wlp_keeps {A} (P : runtime W -> Prop) (m : M A) (Q : A -> runtime W -> Prop) s :
  keeps P m -> P s -> (forall a s', P s' -> Q a s') -> wlp m Q s.
Proof. intros Hk Hs HQ a s' H. by eapply HQ, Hk. Qed.

Lemma wlp_mono {A} (m : M A) (P Q : A -> runtime W -> Prop) s :
  wlp m P s -> (forall a s', P a s' -> Q a s') -> wlp m Q s.
Proof. intros H HQ a s' Hm. by eapply HQ, H. Qed.

Lemma wlp_run {A} (m : M A) (Q : A -> runtime W -> Prop) s :
  (forall a s', m s = Ok (a, s') -> Q a s') -> wlp m Q s.
Proof. done. Qed.

Lemma keeps_wlp {A} (P : runtime W -> Prop) (m : M A) :
  (forall s, P s -> wlp m (fun _ => P) s) -> keeps P m.
Proof. intros H s a s' Hs Hm. by eapply H. Qed.
End wlp.

Section calls.
Context {W : Type} `{!Transport W, !MemoryTransport W, !Threads W}.
Abbreviation M := (kfd (runtime W)).
Implicit Type s : runtime W.
Context (H K : registry).
Hypothesis HT : respects H K other_threads.

Abbreviation P := (inv_held (W := W) H K).
Let HP : about_core P := inv_held_about H K HT.

(** ** Pins *)

Lemma keeps_pin_device base : keeps P (pin_device base).
Proof.
  apply keeps_wlp. intros s Hs. unfold pin_device, allocation_entry. apply wlp_bind, wlp_gets.
  destruct (g_light_rocr_allocations (g_memory s) !! base) as [info|] eqn:E; [|by apply wlp_ret].
  destruct (ai_destroying info) eqn:D; [by apply wlp_ret|].
  apply wlp_bind, wlp_below. intros pushed w _. destruct pushed; [|apply wlp_ret; by apply (inv_held_books H K s)].
  apply wlp_bind, wlp_modify, wlp_ret.
  apply (inv_put_allocation H K (set_rt_world w s) base info); [by apply (inv_held_books H K s)|done..|].
  intros [x Hx]. destruct (ih_device _ _ _ Hs _ _ Hx) as (i & Hi & Hd & _). rewrite E in Hi. congruence.
Qed.

Lemma keeps_pin_host base : keeps P (pin_host base).
Proof.
  apply keeps_wlp. intros s Hs. unfold pin_host, host_entry. apply wlp_bind, wlp_gets.
  destruct (g_light_rocr_host_allocations (g_memory s) !! base) as [info|] eqn:E; [|by apply wlp_ret].
  destruct (hi_destroying info) eqn:D; [by apply wlp_ret|].
  apply wlp_bind, wlp_below. intros pushed w _. destruct pushed; [|apply wlp_ret; by apply (inv_held_books H K s)].
  apply wlp_bind, wlp_modify, wlp_ret.
  apply (inv_put_host_allocation H K (set_rt_world w s) base info); [by apply (inv_held_books H K s)|done..|].
  intros [x Hx]. destruct (ih_host _ _ _ Hs _ _ Hx) as (i & Hi & Hd & _). rewrite E in Hi. congruence.
Qed.

Lemma keeps_unpin_device base : keeps P (unpin_device base).
Proof.
  apply keeps_wlp. intros s Hs. unfold unpin_device, allocation_entry. apply wlp_bind, wlp_gets.
  destruct (g_light_rocr_allocations (g_memory s) !! base) as [info|] eqn:E; [|by apply wlp_ret].
  apply wlp_modify, (inv_put_allocation H K s base info); try done.
  intros [x Hx]. destruct (ih_device _ _ _ Hs _ _ Hx) as (i & Hi & Hd & _). cbn. congruence.
Qed.

Lemma keeps_unpin_host base : keeps P (unpin_host base).
Proof.
  apply keeps_wlp. intros s Hs. unfold unpin_host, host_entry. apply wlp_bind, wlp_gets.
  destruct (g_light_rocr_host_allocations (g_memory s) !! base) as [info|] eqn:E; [|by apply wlp_ret].
  apply wlp_modify, (inv_put_host_allocation H K s base info); try done.
  intros [x Hx]. destruct (ih_host _ _ _ Hs _ _ Hx) as (i & Hi & Hd & _). cbn. congruence.
Qed.

Lemma keeps_pin_all pin bases : (forall base, keeps P (pin base)) -> keeps P (pin_all pin bases).
Proof. intros Hpin. induction bases; cbn [pin_all]; keeps. Qed.

Lemma keeps_unpin_all unpin bases : (forall base, keeps P (unpin base)) -> keeps P (unpin_all unpin bases).
Proof. intros Hunpin. induction bases; cbn [unpin_all]; keeps. Qed.

(** ** Statistics that do not concern allocations *)

Lemma keeps_update_stats device f :
  (forall i g st, stats_ok i g st -> stats_ok i g (f st)) -> keeps P (update_stats device f).
Proof.
  intros Hf s a s' [H1 H2 H3] (i & old & -> & Hi & Hb)%update_stats_run.
  unfold books in Hb. injection Hb as Hg Hst. split.
  - unfold memory_inv in *. rewrite Hg, Hst. apply (books_ok_stats (g_memory s)); try done; [apply H1..|apply Hf].
  - intros b x Hx. unfold held_device. rewrite Hg. by apply H2.
  - intros b x Hx. unfold held_host. rewrite Hg. by apply H3.
Qed.

Lemma keeps_record_memcpy device kind size : keeps P (update_stats device (record_memcpy kind size)).
Proof. apply keeps_update_stats. intros i g st [? ? ? ?]. by split. Qed.

Lemma keeps_reset_stats device : keeps P (update_stats device reset_stats).
Proof. apply keeps_update_stats. intros i g st [? ? ? ?]. by split; cbn. Qed.

Hint Resolve keeps_pin_device keeps_pin_host keeps_unpin_device keeps_unpin_host keeps_record_memcpy
  keeps_reset_stats : keeps.

(** ** Copies *)

Lemma keeps_device_opened device : keeps P (device_opened device).
Proof. unfold device_opened, device_in_range. keeps. Qed.

Lemma keeps_find_allocation address device size : keeps P (find_allocation address device size).
Proof. unfold find_allocation. keeps. Qed.

Lemma keeps_find_host_pointer address device size needs : keeps P (find_host_pointer address device size needs).
Proof. unfold find_host_pointer. keeps. Qed.

Lemma keeps_host_copy destination source size : keeps P (host_copy destination source size).
Proof. unfold host_copy. keeps. Qed.

Hint Resolve keeps_device_opened keeps_find_allocation keeps_find_host_pointer keeps_host_copy : keeps.

Lemma keeps_ensure_copy_state device : keeps P (ensure_direct_kfd_copy_state_locked device).
Proof. unfold ensure_direct_kfd_copy_state_locked, finish_copy_state, drop_image, get_queue. keeps. Qed.

Lemma keeps_submit_copy device destination source size event dependencies :
  keeps P (submit_direct_kfd_copy_locked device destination source size event dependencies).
Proof. unfold submit_direct_kfd_copy_locked. keeps. Qed.

Lemma keeps_chunks_forward staging step fuel size offset :
  (forall o c, keeps P (step o c)) -> keeps P (chunks_forward staging step fuel size offset).
Proof. intros Hstep. revert offset. induction fuel; intros offset; cbn [chunks_forward]; keeps. Qed.

Lemma keeps_chunks_backward staging step fuel remaining :
  (forall o c, keeps P (step o c)) -> keeps P (chunks_backward staging step fuel remaining).
Proof. intros Hstep. revert remaining. induction fuel; intros remaining; cbn [chunks_backward]; keeps. Qed.

Hint Resolve keeps_ensure_copy_state keeps_submit_copy : keeps.

Lemma keeps_copy_chunks copy staging kind dst src destination source size :
  (forall a b n, keeps P (copy a b n)) ->
  keeps P (copy_chunks copy staging kind dst src destination source size).
Proof.
  intros Hcopy. unfold copy_chunks, copy_device_to_device. keeps.
  all: first [apply keeps_chunks_forward|apply keeps_chunks_backward]; intros o c;
    unfold chunk_to_device, chunk_to_host, chunk_on_device; keeps.
Qed.

Lemma keeps_copy_pinned kind dst src device size operands :
  keeps P (copy_pinned kind dst src device size operands).
Proof. unfold copy_pinned. keeps. apply keeps_copy_chunks. intros. keeps. Qed.

Lemma keeps_resolve kind dst src device size : keeps P (resolve_operands kind dst src device size).
Proof. unfold resolve_operands, device_operand, translate_direct_kfd_device_pointer. keeps. Qed.

Lemma keeps_resolve_host kind dst src device size : keeps P (resolve_host_operand kind dst src device size).
Proof. unfold resolve_host_operand. keeps. Qed.

Hint Resolve keeps_copy_pinned keeps_resolve keeps_resolve_host : keeps.

Lemma keeps_memcpy device dst src size kind : keeps P (lr_memcpy device dst src size kind).
Proof.
  unfold lr_memcpy. keeps; first [apply keeps_pin_all|apply keeps_unpin_all]; intros base; keeps.
Qed.

Lemma keeps_submit_async kind dst src device size destination source pageable event dependencies :
  keeps P (submit_async kind dst src device size destination source pageable event dependencies).
Proof. unfold submit_async, stage_pageable, drop_pageable, get_event. keeps. Qed.

Hint Resolve keeps_submit_async : keeps.

Lemma keeps_memcpy_async device dst src size kind event dependencies count implicit :
  keeps P (memcpy_async_impl device dst src size kind event dependencies count implicit).
Proof.
  unfold memcpy_async_impl, async_event_usable, async_operands, translate_direct_kfd_device_pointer,
    valid_event_locked, get_event. keeps.
Qed.

(** ** Allocation *)

(** The promises of the transport: a successful allocation lies apart from
    everything that is registered. *)
Definition vram_promise s : Prop := forall node n a w,
  m_allocate_device_vram node n (rt_world s) = ((true, a), w) ->
  fresh_range (device_view (g_memory s)) (gm_gpu_address a) n.

Definition host_promise s : Prop := forall node n a w,
  m_allocate_host node n (rt_world s) = ((true, a), w) ->
  fresh_range (host_view (g_memory s)) (hm_host_address a) n.

Lemma fresh_range_less m a n k : fresh_range m a n -> k <= n -> fresh_range m a k.
Proof. intros (F1 & F2 & F3) Hk. split_and!; [lia..|]. intros b d l Hb. apply F3 in Hb. lia. Qed.

Lemma granule_rounding size :
  0 < size <= UINT64_MAX - (kVramAllocationGranule - 1) ->
  size <= Z.land (size + kVramAllocationGranule - 1) (UINT64_MAX - (kVramAllocationGranule - 1)).
Proof.
  unfold kVramAllocationGranule. intros Hs.
  change (UINT64_MAX - (2 * 1024 * 1024 - 1)) with (2 ^ 64 - 2 ^ 21).
  rewrite land_high_mask by lia. change (2 ^ 21) with 2097152. zlia.
Qed.

(** A device that is opened is one of the devices. *)
Lemma wp_device_opened device (Q : bool -> runtime W -> Prop) s :
  0 <= device -> Q false s ->
  (forall state, g_devices s !! Z.to_nat device = Some state -> Q true s) -> wp (device_opened device) Q s.
Proof.
  intros Hd Hf Ht. unfold device_opened, device_in_range. apply wp_bind, wp_gets.
  destruct (device <? _) eqn:E; cbn [negb]; [|by apply wp_ret].
  destruct (lookup_lt_is_Some_2 (g_devices s) (Z.to_nat device)) as [state Hs]; [lia|].
  apply wp_bind. eapply wp_get_device; [done..|]. apply wp_ret. destruct (ds_opened state); [by eapply Ht|done].
Qed.

Lemma inv_pending_cleanup l s :
  P s -> P (set_g_memory (set_pending_cleanup l (g_memory s)) s).
Proof.
  intros [H1 H2 H3]. split; [|by apply H2|by apply H3]. by apply (books_ok_views (g_memory s)).
Qed.

(** Memory that is not registered goes, or is remembered for later. *)
Lemma wp_release_or_retain allocation (Q : unit -> runtime W -> Prop) s :
  P s ->
  (forall s', P s' -> device_view (g_memory s') = device_view (g_memory s) ->
     ds_memory_stats <$> g_devices s' = ds_memory_stats <$> g_devices s -> Q tt s') ->
  wp (release_or_retain_light_rocr_cleanup allocation) Q s.
Proof.
  intros Hs HQ. assert (forall w, P (set_rt_world w s)) as Hw by (intros w; by apply (inv_held_books H K s)).
  unfold release_or_retain_light_rocr_cleanup. apply wp_bind, wp_gets. destruct (m_owns_memory _ _); cbn [negb].
  2: { apply wp_ret. by apply HQ. }
  apply wp_bind, wp_below. intros released w _. destruct released; [apply wp_ret; by apply HQ|].
  apply wp_bind, wp_below. intros pushed w' _. destruct pushed.
  - apply wp_modify, HQ; [|done..]. apply inv_pending_cleanup, (Hw w').
  - apply wp_bind, wp_below. intros again w'' _. apply wp_ret, HQ; [apply (Hw w'')|done..].
Qed.

Definition allocated_as device size s s' (status : LrStatus.t) (ptr : Z) : Prop :=
  if succeeded status then
    ptr <> 0 /\ device_view (g_memory s) !! ptr = None /\
    device_view (g_memory s') = <[ptr := (device, size)]> (device_view (g_memory s))
  else
    ptr = 0 /\ device_view (g_memory s') = device_view (g_memory s) /\
    ds_memory_stats <$> g_devices s' = ds_memory_stats <$> g_devices s.

Lemma wp_update_stats device f state (Q : unit -> runtime W -> Prop) s :
  0 <= device -> g_devices s !! Z.to_nat device = Some state ->
  (forall s', update_stats device f s = Ok (tt, s') -> g_memory s' = g_memory s -> Q tt s') ->
  wp (update_stats device f) Q s.
Proof.
  intros Hd Hs HQ. unfold update_stats. eapply wp_update_device; [done..|]. apply HQ; [|done].
  unfold update_stats, update_device, mbind, kfd_bind, get_device. rewrite Hs.
  destruct (0 <=? device) eqn:E; [done|lia].
Qed.

Lemma lr_malloc_spec device size s :
  0 <= device -> 0 <= size -> P s -> vram_promise s ->
  wp (lr_malloc device size) (fun '(status, ptr) s' => P s' /\ allocated_as device size s s' status ptr) s.
Proof.
  intros Hd Hn Hs Hpromise. unfold lr_malloc. apply wp_bind, wp_gets.
  destruct (g_initialized s); cbn [negb]; [|by apply wp_ret].
  apply wp_bind, wp_device_opened; [done| |intros state Hstate].
  { apply wp_bind, wp_gets. destruct (size =? 0); by apply wp_ret. }
  apply wp_bind, wp_gets. destruct (g_kfd_session s); [|destruct (size =? 0); by apply wp_ret].
  destruct (size =? 0) eqn:E0; [by apply wp_ret|]. cbn [negb orb].
  destruct ((size >? _) || (size >? _)) eqn:Eb; [by apply wp_ret|].
  apply wp_bind. eapply wp_get_device; [done..|]. apply wp_bind, wp_below. intros [ok a] w Ha.
  assert (P (set_rt_world w s)) as Hw by by apply (inv_held_books H K s).
  destruct ok; cbn [negb].
  2: { apply wp_bind, wp_release_or_retain; [done|]. intros s' Hs' Hv Hst. by apply wp_ret. }
  apply Hpromise in Ha. pose proof Ha as (Ha1 & _).
  apply (fresh_range_less _ _ _ size) in Ha; [|apply granule_rounding; unfold kMemoryPageSize, kVramAllocationGranule in *; lia].
  unfold register_allocation. destruct ((_ =? 0) || _) eqn:Ez.
  { apply wp_bind, wp_release_or_retain; [done|]. intros s' Hs' Hv Hst. by apply wp_ret. }
  apply wp_bind, wp_gets. destruct (g_light_rocr_allocations _ !! _) as [info|] eqn:El.
  { apply wp_bind, wp_release_or_retain; [done|]. intros s' Hs' Hv Hst. by apply wp_ret. }
  apply wp_bind, wp_modify, wp_bind. eapply wp_update_stats; [done|exact Hstate|].
  intros s' Hup Hg. apply wp_ret. split.
  - eapply (inv_register H K (set_rt_world w s)); [exact Hw|exact Ha|lia|reflexivity|exact Hup].
  - unfold allocated_as. cbn [succeeded]. rewrite Hg. split_and!; [lia| |].
    + unfold device_view. cbn in El. by rewrite lookup_fmap, El.
    + unfold device_view. cbn. by rewrite fmap_insert.
Qed.

Lemma lr_host_malloc_inv device size s :
  0 <= device -> 0 <= size -> P s -> host_promise s ->
  wp (lr_host_malloc device size) (fun '(status, ptr) s' => P s') s.
Proof.
  intros Hd Hn Hs Hpromise. unfold lr_host_malloc. apply wp_bind, wp_gets.
  destruct (g_initialized s); cbn [negb]; [|by apply wp_ret].
  apply wp_bind, wp_device_opened; [done| |intros state Hstate].
  { apply wp_bind, wp_gets. destruct (size =? 0); by apply wp_ret. }
  apply wp_bind, wp_gets. destruct (g_kfd_session s); [|destruct (size =? 0); by apply wp_ret].
  destruct (size =? 0) eqn:E0; [by apply wp_ret|]. cbn [negb orb].
  apply wp_bind. eapply wp_get_device; [done..|]. apply wp_bind, wp_below. intros [ok a] w Ha.
  assert (forall w', P (set_rt_world w' s)) as Hw by (intros w'; by apply (inv_held_books H K s)).
  apply wp_bind, wp_gets. destruct (negb ok || _ || _) eqn:Ec.
  { apply wp_bind, wp_below. intros released w' _. apply wp_ret. apply (Hw w'). }
  destruct ok; [|done]. apply Hpromise in Ha.
  apply wp_bind, wp_modify, wp_bind. eapply wp_update_stats; [done|exact Hstate|].
  intros s' Hup Hg. apply wp_ret.
  eapply (inv_host_register H K (set_rt_world w s)); [apply Hw|exact Ha|lia|reflexivity|exact Hup].
Qed.
End calls.

Section free.
Context {W : Type} `{!Transport W, !MemoryTransport W, !Threads W}.
Implicit Type s : runtime W.

Lemma inv_held_weaken H K b x s : H !! b = None -> inv_held (<[b := x]> H) K s -> inv_held H K s.
Proof.
  intros Hb [H1 H2 H3]. split; [done| |done]. intros b' x' Hx. apply H2.
  rewrite lookup_insert_ne; [done|congruence].
Qed.

Lemma inv_held_weaken_host H K b x s : K !! b = None -> inv_held H (<[b := x]> K) s -> inv_held H K s.
Proof.
  intros Hb [H1 H2 H3]. split; [done|done|]. intros b' x' Hx. apply H3.
  rewrite lookup_insert_ne; [done|congruence].
Qed.

(** The wait for the operations on an entry. *)
Lemma keeps_wait_until H K (ready : kfd (runtime W) bool) :
  respects H K other_threads ->
  keeps (inv_held H K) ready -> keeps (inv_held H K) (wait_until ready).
Proof. intros HT. apply keeps_wait_loop. by apply about_core_view, inv_held_about. Qed.

Lemma keep_allocation_inv H K base status s :
  H !! base = None -> inv_held H K s -> wlp (keep_allocation base status) (fun _ => inv_held H K) s.
Proof.
  intros Hb Hs. unfold keep_allocation, update_allocation, get_allocation, allocation_entry.
  apply wlp_bind, wlp_bind, wlp_bind, wlp_gets.
  destruct (g_light_rocr_allocations (g_memory s) !! base) as [info|] eqn:E; [|apply wlp_fail].
  apply wlp_ret, wlp_modify, wlp_ret. apply (inv_put_allocation H K s base info); try done.
  rewrite Hb. by intros [? ?].
Qed.

Lemma keep_host_allocation_inv H K base status s :
  K !! base = None -> inv_held H K s -> wlp (keep_host_allocation base status) (fun _ => inv_held H K) s.
Proof.
  intros Hb Hs. unfold keep_host_allocation, update_host_allocation, get_host_allocation, host_entry.
  apply wlp_bind, wlp_bind, wlp_bind, wlp_gets.
  destruct (g_light_rocr_host_allocations (g_memory s) !! base) as [info|] eqn:E; [|apply wlp_fail].
  apply wlp_ret, wlp_modify, wlp_ret. apply (inv_put_host_allocation H K s base info); try done.
  rewrite Hb. by intros [? ?].
Qed.

(** Marking an entry for destruction. *)
Lemma mark_allocation H K base info s :
  inv_held H K s -> g_light_rocr_allocations (g_memory s) !! base = Some info ->
  inv_held (<[base := (ai_device_index info, ai_requested_size info)]> H) K (set_g_memory (set_allocations
    (<[base := set_ai_destroying true info]> (g_light_rocr_allocations (g_memory s))) (g_memory s)) s).
Proof.
  intros Hs Hb. destruct (inv_put_allocation H K s base info (set_ai_destroying true info)) as [H1 H2 H3]; try done.
  split; [done| |done]. intros b x [[<- <-]|[_ Hx]]%lookup_insert_Some; [|by apply H2].
  exists (set_ai_destroying true info). cbn. by rewrite lookup_insert_eq.
Qed.

Lemma mark_host_allocation H K base info s :
  inv_held H K s -> g_light_rocr_host_allocations (g_memory s) !! base = Some info ->
  inv_held H (<[base := (hi_device_index info, hi_requested_size info)]> K) (set_g_memory (set_host_allocations
    (<[base := set_hi_destroying true info]> (g_light_rocr_host_allocations (g_memory s))) (g_memory s)) s).
Proof.
  intros Hs Hb. destruct (inv_put_host_allocation H K s base info (set_hi_destroying true info)) as [H1 H2 H3]; try done.
  split; [done|done|]. intros b x [[<- <-]|[_ Hx]]%lookup_insert_Some; [|by apply H3].
  exists (set_hi_destroying true info). cbn. by rewrite lookup_insert_eq.
Qed.

(** While [lr_free] waits, the others keep the entry it has marked. *)
Lemma lr_free_inv H K device ptr s :
  respects H K other_threads -> (forall x, H !! ptr = None -> respects (<[ptr := x]> H) K other_threads) ->
  inv_held H K s -> wlp (lr_free device ptr) (fun _ => inv_held H K) s.
Proof.
  intros HT HTmark Hs. unfold lr_free. apply wlp_bind, wlp_gets. destruct (negb _); [by apply wlp_ret|].
  apply wlp_bind. eapply (wlp_keeps (inv_held H K)); [by apply keeps_device_opened|done|]. clear s Hs. intros opened s Hs.
  destruct ((ptr =? 0) || _); [by apply wlp_ret|]. apply wlp_bind, wlp_gets.
  destruct (g_light_rocr_allocations (g_memory s) !! ptr) as [info|] eqn:E; [|by apply wlp_ret].
  destruct (negb _ || _) eqn:Eu; [by apply wlp_ret|].
  assert (H !! ptr = None) as Hh.
  { destruct (H !! ptr) as [x|] eqn:Ex; [|done]. destruct (ih_device _ _ _ Hs _ _ Ex) as (i & Hi & Hd & _).
    rewrite E in Hi. injection Hi as <-. rewrite Hd, orb_true_r in Eu. done. }
  pose proof (HTmark (ai_device_index info, ai_requested_size info) Hh) as HT'.
  set (H' := <[ptr := (ai_device_index info, ai_requested_size info)]> H).
  assert (ai_device_index info = device) as Hdev by lia.
  apply wlp_bind, wlp_modify, wlp_bind.
  eapply (wlp_keeps (inv_held H' K)); [apply keeps_wait_until; [done|]; unfold allocation_entry; keeps|by apply mark_allocation|].
  clear s Hs E. intros _ s Hs. apply wlp_bind.
  eapply (wlp_keeps (inv_held H' K)); [by apply keeps_synchronize_device, about_core_view, inv_held_about|done|].
  clear s Hs. intros status s Hs. pose proof (inv_held_weaken _ _ _ _ _ Hh Hs) as Hw.
  destruct (succeeded status); cbn [negb]; [|by apply keep_allocation_inv].
  destruct (ih_device _ _ _ Hs ptr _ (lookup_insert_eq _ _ _)) as (i & Hi & _ & [= Hid Hin]).
  unfold get_allocation, allocation_entry. apply wlp_bind, wlp_bind, wlp_gets. rewrite Hi. apply wlp_ret.
  apply wlp_bind, wlp_below. intros released w _.
  assert (inv_held H K (set_rt_world w s)) as Hw' by by apply (inv_held_books H K s).
  destruct released; cbn [negb]; [|by apply keep_allocation_inv].
  apply wlp_bind, wlp_run. intros a1 s1 He. apply wlp_bind, wlp_run. intros a2 s2 Hu. apply wlp_ret.
  eapply (inv_erase H K (set_rt_world w s)); [done|done|exact Hi| |exact He|exact Hu]. by rewrite Hid.
Qed.

Lemma lr_host_free_inv H K device ptr s :
  respects H K other_threads -> (forall x, K !! ptr = None -> respects H (<[ptr := x]> K) other_threads) ->
  inv_held H K s -> wlp (lr_host_free device ptr) (fun _ => inv_held H K) s.
Proof.
  intros HT HTmark Hs. unfold lr_host_free. apply wlp_bind, wlp_gets. destruct (negb _); [by apply wlp_ret|].
  apply wlp_bind. eapply (wlp_keeps (inv_held H K)); [by apply keeps_device_opened|done|]. clear s Hs. intros opened s Hs.
  destruct ((ptr =? 0) || _); [by apply wlp_ret|]. apply wlp_bind, wlp_gets.
  destruct (g_light_rocr_host_allocations (g_memory s) !! ptr) as [info|] eqn:E; [|by apply wlp_ret].
  destruct (negb _ || _) eqn:Eu; [by apply wlp_ret|].
  assert (K !! ptr = None) as Hh.
  { destruct (K !! ptr) as [x|] eqn:Ex; [|done]. destruct (ih_host _ _ _ Hs _ _ Ex) as (i & Hi & Hd & _).
    rewrite E in Hi. injection Hi as <-. rewrite Hd, orb_true_r in Eu. done. }
  pose proof (HTmark (hi_device_index info, hi_requested_size info) Hh) as HT'.
  set (K' := <[ptr := (hi_device_index info, hi_requested_size info)]> K).
  assert (hi_device_index info = device) as Hdev by lia.
  apply wlp_bind, wlp_modify, wlp_bind.
  eapply (wlp_keeps (inv_held H K')); [apply keeps_wait_until; [done|]; unfold host_entry; keeps|by apply mark_host_allocation|].
  clear s Hs E. intros _ s Hs. apply wlp_bind.
  eapply (wlp_keeps (inv_held H K')); [by apply keeps_synchronize_device, about_core_view, inv_held_about|done|].
  clear s Hs. intros status s Hs. pose proof (inv_held_weaken_host _ _ _ _ _ Hh Hs) as Hw.
  destruct (succeeded status); cbn [negb]; [|by apply keep_host_allocation_inv].
  destruct (ih_host _ _ _ Hs ptr _ (lookup_insert_eq _ _ _)) as (i & Hi & _ & [= Hid Hin]).
  unfold get_host_allocation, host_entry. apply wlp_bind, wlp_bind, wlp_gets. rewrite Hi. apply wlp_ret.
  apply wlp_bind, wlp_below. intros released w _.
  assert (inv_held H K (set_rt_world w s)) as Hw' by by apply (inv_held_books H K s).
  destruct released; cbn [negb]; [|by apply keep_host_allocation_inv].
  apply wlp_bind, wlp_run. intros a1 s1 He. apply wlp_bind, wlp_run. intros a2 s2 Hu. apply wlp_ret.
  eapply (inv_host_erase H K (set_rt_world w s)); [done|done|exact Hi| |exact He|exact Hu]. by rewrite Hid.
Qed.
End free.
