(* ===== verification/MemoryProperties.v ===== *)
(** * Theorems about the memory API *)

From stdpp Require Import gmap.
From S2P Require Import Prelude Memory CodeObject ExecutableImage Topology AqlQueue KfdProducer Signal KfdKernel KfdMemory MemoryState RuntimeState DirectQueue DirectLaunch DirectApi DirectEvents RuntimeFacts MemoryRegistry MemoryCopy CopyKernel MemoryFrame MemoryBooks MemoryCalls.

Import LrStatus.

(** An [unordered_map] is visited entry by entry. *)
Class OrderLaw (W : Type) `{!MemoryTransport W} :=
  m_order_perm : forall (A : Type) (m : gmap Z A), m_order m ≡ₚ map_to_list m.

(** ** Searches *)

Lemma allocation_offset_spec address device size base info offset :
  allocation_offset address device size (base, info) = Some offset <->
  ai_device_index info = device /\ ai_destroying info = false /\ address = base + offset /\
  0 <= offset < ai_requested_size info /\ offset + size <= ai_requested_size info.
Proof.
  unfold allocation_offset. destruct (negb _ || _) eqn:E1.
  { split; [done|]. intros (<- & H & _). rewrite Z.eqb_refl, H in E1. done. }
  apply orb_false_iff in E1 as [E1 Ed]. apply negb_false_iff, Z.eqb_eq in E1.
  destruct (address <? base) eqn:E2; [split; [done|lia]|].
  destruct ((_ >=? _) || _) eqn:E3; [split; [done|lia]|].
  split; [intros [= <-]; split_and!; try done; lia|]. intros (_ & _ & -> & ?). f_equal. lia.
Qed.

Lemma find_allocation_sound entries address device size base offset info :
  find_light_rocr_allocation entries address device size = Some (base, offset, info) ->
  (base, info) ∈ entries /\ allocation_offset address device size (base, info) = Some offset.
Proof.
  induction entries as [|[b i] entries IH]; cbn [find_light_rocr_allocation]; [done|].
  destruct (allocation_offset _ _ _ (b, i)) as [o|] eqn:E.
  - intros [= <- <- <-]. split; [by left|done].
  - intros Hf. destruct (IH Hf) as [Hin Ho]. split; [by right|done].
Qed.

Lemma find_allocation_complete entries address device size entry offset :
  entry ∈ entries -> allocation_offset address device size entry = Some offset ->
  is_Some (find_light_rocr_allocation entries address device size).
Proof.
  intros Hin Ho. induction entries as [|x entries IH]; [by apply not_elem_of_nil in Hin|].
  cbn [find_light_rocr_allocation]. destruct (allocation_offset _ _ _ x) eqn:Ex; [by eexists|].
  apply IH. apply elem_of_cons in Hin as [->|?]; [congruence|done].
Qed.

Section search.
Context {W : Type} `{!MemoryTransport W, !OrderLaw W}.

(** A pointer search is exact, whatever order the registry is visited in:
    it finds the one allocation of the device, not marked for destruction,
    that contains the bytes, with the offset in it, and fails exactly when
    there is none. *)
Theorem find_allocation_exact devices g address device size base offset info :
  registry_ok devices (device_view g) ->
  find_light_rocr_allocation (m_order (g_light_rocr_allocations g)) address device size =
    Some (base, offset, info) <->
  g_light_rocr_allocations g !! base = Some info /\ ai_device_index info = device /\
  ai_destroying info = false /\ address = base + offset /\ 0 <= offset < ai_requested_size info /\
  offset + size <= ai_requested_size info.
Proof.
  intros Hok. assert (forall b i, (b, i) ∈ m_order (g_light_rocr_allocations g) <->
    g_light_rocr_allocations g !! b = Some i) as Hin.
  { intros b i. by rewrite (m_order_perm _ _), elem_of_map_to_list. }
  split.
  - intros [Hb Ho]%find_allocation_sound. apply Hin in Hb. apply allocation_offset_spec in Ho. done.
  - intros (Hb & Hrest). apply allocation_offset_spec in Hrest as Ho.
    destruct (find_allocation_complete (m_order (g_light_rocr_allocations g)) address device size (base, info) offset)
      as [[[b o] i] Hf]; [by apply Hin|done|].
    rewrite Hf. apply find_allocation_sound in Hf as [Hb' Ho']. apply Hin in Hb'.
    apply allocation_offset_spec in Ho' as (_ & _ & Ha & Hr & _). destruct Hrest as (_ & _ & Ha' & Hr' & _).
    assert (forall x y, g_light_rocr_allocations g !! x = Some y ->
      device_view g !! x = Some (ai_device_index y, ai_requested_size y)) as Hview.
    { intros x y Hx. unfold device_view. by rewrite lookup_fmap, Hx. }
    destruct (decide (b = base)) as [->|Hne].
    + rewrite Hb in Hb'. injection Hb' as <-. do 3 f_equal. lia.
    + pose proof (ro_apart _ _ Hok _ _ _ _ _ _ (Hview _ _ Hb) (Hview _ _ Hb') ltac:(congruence)). lia.
Qed.
End search.

(** ** Runs *)

Inductive memory_call :=
| Malloc (device size : Z)
| Free (device ptr : Z)
| HostMalloc (device size : Z)
| HostFree (device ptr : Z)
| Memcpy (device dst src size : Z) (kind : option lr_memcpy_kind_t)
| MemcpyAsync (device dst src size : Z) (kind : option lr_memcpy_kind_t) (event : option event_ptr)
| MemcpyAsyncAfter (device dst src size : Z) (kind : option lr_memcpy_kind_t) (event : option event_ptr)
    (dependencies : option (list (option event_ptr))) (count : Z)
| ResetStats (device : Z).

(** Indices and sizes are unsigned. *)
Definition call_typed (call : memory_call) : Prop :=
  match call with
  | Malloc device size | HostMalloc device size => 0 <= device /\ 0 <= size
  | _ => True
  end.

Section calls.
Context {W : Type} `{!Transport W, !MemoryTransport W, !Threads W}.
Implicit Type s : runtime W.

Definition run_memory_call (call : memory_call) : kfd (runtime W) LrStatus.t :=
  match call with
  | Malloc device size => '(status, _) ← lr_malloc device size; mret status
  | Free device ptr => lr_free device ptr
  | HostMalloc device size => '(status, _) ← lr_host_malloc device size; mret status
  | HostFree device ptr => lr_host_free device ptr
  | Memcpy device dst src size kind => lr_memcpy device dst src size kind
  | MemcpyAsync device dst src size kind event => lr_memcpy_async device dst src size kind event
  | MemcpyAsyncAfter device dst src size kind event dependencies count =>
      lr_memcpy_async_with_dependencies device dst src size kind event dependencies count
  | ResetStats device => lr_reset_memory_stats device
  end.

(** What a call relies on while it does not hold the lock: the others keep
    the books and the entries [H] and [K], and, once a free has marked its own
    entry, that one.  They may mark, free and allocate anything else. *)
Definition relies (H K : registry) (call : memory_call) : Prop :=
  respects H K other_threads /\
  match call with
  | Free _ ptr => forall x, H !! ptr = None -> respects (<[ptr := x]> H) K other_threads
  | HostFree _ ptr => forall x, K !! ptr = None -> respects H (<[ptr := x]> K) other_threads
  | _ => True
  end.

Lemma wp_wlp {A} (m : kfd (runtime W) A) Q s : wp m Q s -> wlp m Q s.
Proof. intros H a s' E. unfold wp in H. by rewrite E in H. Qed.

Lemma call_keeps H K call s :
  relies H K call -> call_typed call -> vram_promise s -> host_promise s -> inv_held H K s ->
  wlp (run_memory_call call) (fun _ => inv_held H K) s.
Proof.
  intros [HT Hmark] Hty Hv Hh Hs. destruct call; cbn [run_memory_call].
  - destruct Hty. apply wlp_bind. eapply wlp_mono; [by apply wp_wlp, (lr_malloc_spec H K)|].
    intros [status ptr] s' [Hs' _]. by apply wlp_ret.
  - by apply lr_free_inv.
  - destruct Hty. apply wlp_bind. eapply wlp_mono; [by apply wp_wlp, (lr_host_malloc_inv H K)|].
    intros [status ptr] s' Hs'. by apply wlp_ret.
  - by apply lr_host_free_inv.
  - eapply wlp_keeps; [by apply keeps_memcpy|done|done].
  - eapply wlp_keeps; [by apply keeps_memcpy_async|done|done].
  - eapply wlp_keeps; [by apply keeps_memcpy_async|done|done].
  - eapply (wlp_keeps (inv_held H K)); [|done|done]. unfold lr_reset_memory_stats, device_in_range.
    keeps. apply keeps_reset_stats.
Qed.
End calls.

Section runs.
Context {W : Type} `{!Transport W, !MemoryTransport W}.
Implicit Type s : runtime W.

(** Calls of this thread that return, each beside its own other threads, and
    what the others do between them, where the transport keeps its promise. *)
Inductive memory_run (H K : registry) : runtime W -> runtime W -> Prop :=
| run_done s : memory_run H K s s
| run_call (threads : Threads W) call s status s1 s2 :
    relies H K call -> call_typed call -> vram_promise s -> host_promise s ->
    run_memory_call call s = Ok (status, s1) -> memory_run H K s1 s2 -> memory_run H K s s2
| run_others s s1 s2 :
    (inv_held H K s -> inv_held H K s1) -> memory_run H K s1 s2 -> memory_run H K s s2.

(** C8: the books of the memory API are right whenever a call returns.  Over
    any sequence of calls that return, allocations, frees and copies, on every
    path of each, while other threads act between the calls and wherever a call
    gives up the lock: registered allocations are disjoint and belong to a
    device, the live bytes of every device are exactly the bytes of its
    registered allocations and never exceed the peak, for device and pinned
    memory alike; and an entry in [H] or [K], marked by some other thread for
    destruction, stays registered and marked.  Of the other threads it is asked
    that they keep the books, [H] and [K], and, while a free of this thread
    waits, the entry that free has marked; they may start and finish frees of
    every other entry meanwhile.  What is concluded for a thread is what the
    others rely on. *)
Theorem memory_books_kept H K s s' :
  inv_held H K s -> memory_run H K s s' -> inv_held H K s'.
Proof.
  intros Hs Hrun. revert Hs.
  induction Hrun as [s|threads call s status s1 s2 Hrely Hty Hv Hh Hcall Hrun IH|s s1 s2 Hothers Hrun IH].
  - done.
  - intros Hs. apply IH. by eapply (call_keeps H K call s).
  - intros Hs. by apply IH, Hothers.
Qed.
End runs.

Section allocation.
Context {W : Type} `{!Transport W, !MemoryTransport W}.
Implicit Type s : runtime W.

(** An allocation is registered or leaves no trace.  [lr_malloc] returns;
    on success the pointer is new, not null, registered with its device and
    size, and counted; on every failure the registry and the statistics are as
    before and the pointer is null. *)
Theorem malloc_all_or_nothing H K device size s :
  0 <= device -> 0 <= size -> inv_held H K s -> vram_promise s ->
  wp (lr_malloc device size) (fun '(status, ptr) s' =>
    inv_held H K s' /\ allocated_as device size s s' status ptr) s.
Proof. apply lr_malloc_spec. Qed.
End allocation.

(** ** Copies *)

Section copies.
Context {W : Type} `{!Transport W, !MemoryTransport W, !Threads W, !AddressSpace W}.
Implicit Type st : runtime W.

(** The addresses a copy writes to and reads from. *)
Definition copy_target (kind : lr_memcpy_kind_t) (dst device_destination : Z) : Z :=
  if bool_decide (kind = DeviceToHost) then dst else device_destination.

Definition copy_origin (kind : lr_memcpy_kind_t) (src device_source : Z) : Z :=
  if bool_decide (kind = HostToDevice) then src else device_source.

(** C9: the loops of a synchronous copy are a [memmove].  Over any primitive
    [copy] that returns and, when it succeeds, has copied between the ranges it
    was given (ranges that do not overlap), the loops of [lr_memcpy] return, and
    when they succeed every byte outside the staging buffer and the runtime's
    own memory is as if all source bytes had been read before any was written:
    for every kind of copy and every size of the staging buffer, also between
    overlapping ranges of the device.  The primitive is never asked to copy
    between ranges that overlap or that leave the operands and the staging
    buffer. *)
Theorem memcpy_moves_bytes (I : runtime W -> Prop) (copy : Z -> Z -> Z -> kfd (runtime W) LrStatus.t) staging kind
    dst src device_destination device_source size st :
  let target := copy_target kind dst device_destination in
  let origin := copy_origin kind src device_source in
  let regions := [(gm_gpu_address staging, gm_size staging); (target, size); (origin, size)] in
  copy_engine I regions copy -> I st ->
  gm_host_address staging = gm_gpu_address staging -> 0 < gm_size staging -> 0 < size ->
  (forall base length, (base, length) ∈ regions -> range_ok base length /\
     forall a, base <= a < base + length -> as_visible a) ->
  clear_of_staging staging size target -> clear_of_staging staging size origin ->
  (kind <> DeviceToDevice -> apart target origin size) ->
  wp (copy_chunks copy staging kind dst src device_destination device_source size) (fun status st' =>
    I st' /\ (status = Success -> forall a, as_visible a /\
      ~ (gm_gpu_address staging <= a < gm_gpu_address staging + gm_size staging) ->
      contents_of st' a = moved target origin size (contents_of st) a)) st.
Proof.
  intros target origin regions Hengine HI Hsame Hstaging Hsize Hranges Ht Ho Hapart.
  assert (range_ok target size) as Hrt by (apply (Hranges target size); right; by left).
  assert (range_ok origin size) as Hro by (apply (Hranges origin size); right; right; by left).
  assert (forall base length a, (base, length) ∈ regions -> base <= a < base + length -> as_visible a) as Hvis.
  { intros base length a Hin. by apply Hranges. }
  unfold apart in Hapart. destruct kind; unfold copy_chunks; unfold target, origin, copy_target, copy_origin in *; cbn in *.
  - eapply forward_from_start; try done; [by eapply chunk_to_device_moves|]. specialize (Hapart ltac:(done)). lia.
  - eapply forward_from_start; try done; [by eapply chunk_to_host_moves|]. specialize (Hapart ltac:(done)). lia.
  - by eapply device_to_device_moves.
Qed.
End copies.

(** ** Shutdown *)

Section shutdown.
Context {W : Type} `{!Transport W, !MemoryTransport W, !OrderLaw W, !Threads W}.
Implicit Type s : runtime W.

Abbreviation allocations s := (g_light_rocr_allocations (g_memory s)).
Abbreviation host_allocations s := (g_light_rocr_host_allocations (g_memory s)).
Abbreviation cleanup s := (g_light_rocr_pending_cleanup (g_memory s)).

Lemma memory_inv_world s w : memory_inv s -> memory_inv (set_rt_world w s).
Proof. done. Qed.

(** The statistics of a registered entry, then the entry. *)
Lemma wp_record_release device f (size : Z) (Q : unit -> runtime W -> Prop) s :
  0 <= device < Z.of_nat (length (g_devices s)) ->
  (forall state, g_devices s !! Z.to_nat device = Some state ->
     Q tt (set_g_devices (<[Z.to_nat device := set_ds_memory_stats (f size (ds_memory_stats state)) state]>
       (g_devices s)) s)) ->
  wp (record_release device (f size)) Q s.
Proof.
  intros Hd HQ. unfold record_release, device_in_range. apply wp_bind, wp_gets.
  destruct (device <? _) eqn:E; [|lia].
  destruct (lookup_lt_is_Some_2 (g_devices s) (Z.to_nat device)) as [state Hs]; [lia|].
  unfold update_stats. eapply wp_update_device; [done|lia|]. by apply HQ.
Qed.

Lemma release_allocations_spec entries result s :
  memory_inv s -> NoDup entries.*1 -> (forall b i, (b, i) ∈ entries -> allocations s !! b = Some i) ->
  wp (release_allocations entries result) (fun result' s' => memory_inv s' /\
    host_allocations s' = host_allocations s /\ cleanup s' = cleanup s /\
    (forall b i, allocations s' !! b = Some i -> allocations s !! b = Some i) /\
    (result' = Success -> result = Success /\ forall b, b ∈ entries.*1 -> allocations s' !! b = None)) s.
Proof.
  revert result s. induction entries as [|[base info] entries IH]; intros result s Hinv Hnd Hin; cbn [release_allocations].
  { apply wp_ret. split_and!; try done. intros ->. split; [done|]. intros b Hb. by apply not_elem_of_nil in Hb. }
  apply NoDup_cons in Hnd as [Hx Hnd]. pose proof (Hin base info ltac:(by left)) as Hb.
  apply wp_bind, wp_below. intros released w _. destruct released; cbn [negb].
  - pose proof (bo_device _ _ Hinv) as Hok. assert (device_view (g_memory s) !! base = Some (ai_device_index info, ai_requested_size info)) as Hv.
    { unfold device_view. by rewrite lookup_fmap, Hb. }
    apply (ro_entry _ _ Hok) in Hv as (_ & _ & _ & Hd). rewrite length_fmap in Hd.
    apply wp_bind, wp_record_release; [exact Hd|]. intros state Hstate. cbn in Hstate. apply wp_bind, wp_modify.
    eapply wp_mono; [apply IH|].
    + assert (memory_inv (set_rt_world w s)) as Hw by done. unfold memory_inv in *. cbn.
      rewrite list_fmap_insert. apply books_free; [done|by rewrite list_lookup_fmap, Hstate|done|lia].
    + done.
    + intros b i Hbi. cbn. rewrite lookup_delete_ne; [apply Hin; by right|]. intros ->.
      apply Hx, list_elem_of_fmap. by exists (b, i).
    + cbn. intros result' s' (H1 & H2 & H3 & H4 & H5). split_and!; [done..| |].
      * intros b i Hbi%H4. by apply lookup_delete_Some in Hbi as [_ ?].
      * intros Hr. destruct (H5 Hr) as [H6 H7]. split; [done|]. intros b [->|Hbe]%elem_of_cons; [|by apply H7].
        destruct (allocations s' !! base) as [i|] eqn:E; [|done]. apply H4, lookup_delete_Some in E as [? _]. done.
  - eapply wp_mono; [apply IH; [done|done|]|].
    + intros b i Hbi. apply Hin. by right.
    + intros result' s' (H1 & H2 & H3 & H4 & H5). split_and!; [done..|]. intros Hr.
      destruct (H5 Hr) as [H6 _]. unfold first_failure in H6. destruct (succeeded result) eqn:E; [done|].
      subst result. done.
Qed.

Lemma release_host_allocations_spec entries result s :
  memory_inv s -> NoDup entries.*1 -> (forall b i, (b, i) ∈ entries -> host_allocations s !! b = Some i) ->
  wp (release_host_allocations entries result) (fun result' s' => memory_inv s' /\
    allocations s' = allocations s /\ cleanup s' = cleanup s /\
    (forall b i, host_allocations s' !! b = Some i -> host_allocations s !! b = Some i) /\
    (result' = Success -> result = Success /\ forall b, b ∈ entries.*1 -> host_allocations s' !! b = None)) s.
Proof.
  revert result s. induction entries as [|[base info] entries IH]; intros result s Hinv Hnd Hin; cbn [release_host_allocations].
  { apply wp_ret. split_and!; try done. intros ->. split; [done|]. intros b Hb. by apply not_elem_of_nil in Hb. }
  apply NoDup_cons in Hnd as [Hx Hnd]. pose proof (Hin base info ltac:(by left)) as Hb.
  apply wp_bind, wp_below. intros released w _. destruct released; cbn [negb].
  - pose proof (bo_host _ _ Hinv) as Hok. assert (host_view (g_memory s) !! base = Some (hi_device_index info, hi_requested_size info)) as Hv.
    { unfold host_view. by rewrite lookup_fmap, Hb. }
    apply (ro_entry _ _ Hok) in Hv as (_ & _ & _ & Hd). rewrite length_fmap in Hd.
    apply wp_bind, wp_record_release; [exact Hd|]. intros state Hstate. cbn in Hstate. apply wp_bind, wp_modify.
    eapply wp_mono; [apply IH|].
    + assert (memory_inv (set_rt_world w s)) as Hw by done. unfold memory_inv in *. cbn.
      rewrite list_fmap_insert. apply books_host_free; [done|by rewrite list_lookup_fmap, Hstate|done|lia].
    + done.
    + intros b i Hbi. cbn. rewrite lookup_delete_ne; [apply Hin; by right|]. intros ->.
      apply Hx, list_elem_of_fmap. by exists (b, i).
    + cbn. intros result' s' (H1 & H2 & H3 & H4 & H5). split_and!; [done..| |].
      * intros b i Hbi%H4. by apply lookup_delete_Some in Hbi as [_ ?].
      * intros Hr. destruct (H5 Hr) as [H6 H7]. split; [done|]. intros b [->|Hbe]%elem_of_cons; [|by apply H7].
        destruct (host_allocations s' !! base) as [i|] eqn:E; [|done]. apply H4, lookup_delete_Some in E as [? _]. done.
  - eapply wp_mono; [apply IH; [done|done|]|].
    + intros b i Hbi. apply Hin. by right.
    + intros result' s' (H1 & H2 & H3 & H4 & H5). split_and!; [done..|]. intros Hr.
      destruct (H5 Hr) as [H6 _]. unfold first_failure in H6. destruct (succeeded result) eqn:E; [done|].
      subst result. done.
Qed.

Lemma release_pending_spec l result s :
  wp (release_pending_cleanup l result) (fun '(result', kept) s' => books s' = books s /\
    (result' = Success -> result = Success /\ kept = [])) s.
Proof.
  revert result s. induction l as [|a l IH]; intros result s; cbn [release_pending_cleanup].
  { apply wp_ret. by split. }
  apply wp_bind, wp_below. intros released w _. destruct released.
  - eapply wp_mono; [apply IH|]. by intros [result' kept] s' [H1 H2].
  - apply wp_bind. eapply wp_mono; [apply IH|]. intros [result' kept] s' [H1 H2]. apply wp_ret.
    split; [done|]. intros Hr. destruct (H2 Hr) as [H3 _]. unfold first_failure in H3.
    destruct (succeeded result) eqn:E; [done|]. subst result. done.
Qed.

Lemma order_keys {A} (m : gmap Z A) b : b ∈ (m_order m).*1 <-> is_Some (m !! b).
Proof.
  rewrite (m_order_perm _ m), list_elem_of_fmap. split.
  - intros ([k x] & -> & Hk%elem_of_map_to_list). by exists x.
  - intros [x Hx]. exists (b, x). split; [done|]. by apply elem_of_map_to_list.
Qed.

Lemma order_nodup {A} (m : gmap Z A) : NoDup (m_order m).*1.
Proof. rewrite (m_order_perm _ m). apply NoDup_fst_map_to_list. Qed.

Lemma order_entries {A} (m : gmap Z A) b x : (b, x) ∈ m_order m -> m !! b = Some x.
Proof. rewrite (m_order_perm _ m). apply elem_of_map_to_list. Qed.

Lemma release_memory_spec result s :
  memory_inv s ->
  wp (release_memory_allocations_locked result) (fun result' s' => memory_inv s' /\
    (result' = Success -> g_light_rocr_allocations (g_memory s') = ∅ /\
       g_light_rocr_pending_cleanup (g_memory s') = [] /\
       g_light_rocr_host_allocations (g_memory s') = ∅ /\
       forall device, device ∈ g_devices s' -> st_live_bytes (ds_memory_stats device) = 0 /\
         st_pinned_host_live_bytes (ds_memory_stats device) = 0)) s.
Proof.
  intros Hinv. unfold release_memory_allocations_locked. apply wp_bind, wp_gets, wp_bind.
  eapply wp_mono; [apply release_allocations_spec; [done|apply order_nodup|apply order_entries]|].
  intros r1 s1 (I1 & Hh1 & _ & Hsub1 & Hgone1). apply wp_bind, wp_gets, wp_bind.
  eapply wp_mono; [apply release_pending_spec|]. intros [r2 kept] s2 [Hb2 Hgone2].
  unfold books in Hb2. injection Hb2 as Hg2 Hs2. apply wp_bind, wp_modify, wp_bind, wp_gets.
  assert (memory_inv (set_g_memory (set_pending_cleanup kept (g_memory s2)) s2)) as I2.
  { unfold memory_inv in *. cbn. rewrite Hg2, Hs2. by apply (books_ok_views (g_memory s1)). }
  eapply wp_mono; [apply release_host_allocations_spec; [exact I2|apply order_nodup|apply order_entries]|].
  cbn [g_memory set_g_memory set_pending_cleanup g_light_rocr_allocations g_light_rocr_pending_cleanup].
  intros r3 s3 (I3 & Ha3 & Hc3 & Hsub3 & Hgone3). split; [done|]. intros Hok.
  destruct (Hgone3 Hok) as [-> Hkeys3]. destruct (Hgone2 eq_refl) as [-> ->]. destruct (Hgone1 eq_refl) as [-> Hkeys1].
  assert (allocations s3 = ∅) as E1.
  { rewrite Ha3. cbn. rewrite Hg2. apply map_empty. intros b. destruct (allocations s1 !! b) as [i|] eqn:E; [|done].
    rewrite <-E. apply Hkeys1, order_keys. exists i. by apply Hsub1. }
  assert (host_allocations s3 = ∅) as E2.
  { apply map_empty. intros b. destruct (host_allocations s3 !! b) as [i|] eqn:E; [|done].
    rewrite <-E. apply Hkeys3, order_keys. exists i. by apply Hsub3. }
  split_and!; [done|done|done|]. intros device [i Hi]%list_elem_of_lookup.
  destruct (bo_stats _ _ I3 i (ds_memory_stats device)) as [S1 _ S3 _]; [by rewrite list_lookup_fmap, Hi|].
  rewrite S1, S3. unfold device_view, host_view. by rewrite E1, E2.
Qed.

(** The release at shutdown returns, keeps the books right on every path,
    and when it reports success everything is gone: no device or pinned
    allocation is registered, nothing waits for cleanup, and every device
    counts zero live bytes of both kinds. *)
Theorem release_allocations_drains result s :
  memory_inv s ->
  wp (release_memory_allocations_locked result) (fun result' s' => memory_inv s' /\
    (result' = Success -> g_light_rocr_allocations (g_memory s') = ∅ /\
       g_light_rocr_pending_cleanup (g_memory s') = [] /\
       g_light_rocr_host_allocations (g_memory s') = ∅ /\
       forall device, device ∈ g_devices s' -> st_live_bytes (ds_memory_stats device) = 0 /\
         st_pinned_host_live_bytes (ds_memory_stats device) = 0)) s.
Proof. apply release_memory_spec. Qed.
End shutdown.
