(* ===== verification/Modules.v ===== *)
(** * Modules and kernels

    The direct KFD branches of [src/module.cpp]: loading a code object on a
    device, kernel handles, destruction of a module, and the release at
    shutdown.  A module whose resources could not be released after a failed
    load is kept in a list of cleanup owners for the shutdown. *)

From stdpp Require Import gmap.
From S2P Require Import Prelude Memory CodeObject ElfReader ExecutableImage Topology AqlQueue KfdProducer Signal KfdKernel MemoryState RuntimeState DirectQueue DirectLaunch DirectApi DirectEvents MemoryRegistry.

Import LrStatus.

(** ** Error codes *)

Definition loader_error_status (error : ParseErrorCode.t) : LrStatus.t :=
  match error with
  | ParseErrorCode.UnsupportedElfClass
  | ParseErrorCode.UnsupportedEndianness
  | ParseErrorCode.UnsupportedElfVersion
  | ParseErrorCode.UnsupportedOsAbi
  | ParseErrorCode.UnsupportedAbiVersion
  | ParseErrorCode.UnsupportedObjectType
  | ParseErrorCode.UnsupportedMachine
  | ParseErrorCode.UnsupportedTarget
  | ParseErrorCode.UnsupportedExtendedProgramHeaderCount
  | ParseErrorCode.UnsupportedMetadataEncoding
  | ParseErrorCode.UnsupportedMetadataVersion
  | ParseErrorCode.UnsupportedRelocationFormat
  | ParseErrorCode.UnsupportedRelocationType => NotSupported
  | ParseErrorCode.None => Success
  | _ => InvalidArgument
  end.

Definition executable_image_error_status (error : ExecutableImageError.t) : LrStatus.t :=
  match error with
  | ExecutableImageError.UnsupportedAlignment
  | ExecutableImageError.UnsupportedRelocations => NotSupported
  | ExecutableImageError.AllocationFailed
  | ExecutableImageError.MisalignedAllocation
  | ExecutableImageError.GpuAddressOverflow => RuntimeError
  | ExecutableImageError.None => Success
  | _ => InvalidArgument
  end.

(** [lr_kernel_properties_t] *)
Record lr_kernel_properties_t := mkKernelProperties {
  kp_kernarg_size : Z;
  kp_group_segment_size : Z;
  kp_private_segment_size : Z
}.

Definition no_kernel_properties : lr_kernel_properties_t := mkKernelProperties 0 0 0.

Section modules.
Context {W : Type} `{!Transport W, !MemoryTransport W, !Threads W}.

Abbreviation M := (kfd (runtime W)).

(** ** Release *)

(** [g_kernels.erase(kernel); delete kernel;] *)
Definition delete_kernel (kernel : kernel_ptr) : M unit :=
  _ ← get_kernel kernel;
  modify_modules (fun g =>
    set_g_kernels (g_kernels g ∖ {[kernel]}) (set_rt_kernels (delete kernel (rt_kernels g)) g)).

Fixpoint delete_kernels (kernels : list kernel_ptr) : M unit :=
  match kernels with
  | [] => mret tt
  | kernel :: kernels => delete_kernel kernel ;; delete_kernels kernels
  end.

Definition destroy_module_handles (module : module_ptr) : M unit :=
  object ← get_module module;
  delete_kernels (md_kernels object) ;;
  modify_modules (fun g => set_rt_modules (delete module (rt_modules g)) g).

(** The cache operation that is still pending goes first. *)
Definition release_cache_operation (module : module_ptr) : M LrStatus.t :=
  object ← get_module module;
  match md_pending_cache_operation object, md_cache_operation_queue object with
  | None, _ => mret Success
  | Some _, None => mret RuntimeError
  | Some operation, Some queue =>
      queue_object ← get_queue queue;
      '(released, operation, handle) ← below (m_release_operation operation (lq_queue queue_object));
      update_queue queue (set_lq_queue handle) ;;
      if negb released then
        update_module module (set_md_cache_operation (Some operation) (Some queue)) ;;
        mret RuntimeError
      else
        update_module module (set_md_cache_operation None None) ;;
        mret Success
  end.

Definition release_module_image (module : module_ptr) : M bool :=
  object ← get_module module;
  match md_executable_image object with
  | None => mret true
  | Some image =>
      if bool_decide (is_Some (li_allocation image)) then
        '(released, image) ← below (m_release_image image);
        update_module module (set_md_executable_image (Some image)) ;;
        mret released
      else mret true
  end.

Definition release_direct_kfd_module_resources (module : module_ptr) : M LrStatus.t :=
  status ← release_cache_operation module;
  if negb (succeeded status) then mret status
  else
    released ← release_module_image module;
    if negb released then mret RuntimeError
    else
      update_module module (set_md_executable_image None) ;;
      destroy_module_handles module ;;
      mret Success.

Definition retain_direct_kfd_module_cleanup_owner (module : module_ptr) : M unit :=
  update_module module (set_md_destroying true) ;;
  modify_modules (fun g => set_g_module_cleanup_owners (g_module_cleanup_owners g ++ [module]) g).

(** [if (release(...) != LR_SUCCESS) retain(...)]; whether it was released. *)
Definition release_or_retain_module (module : module_ptr) : M bool :=
  status ← release_direct_kfd_module_resources module;
  if succeeded status then mret true
  else retain_direct_kfd_module_cleanup_owner module ;; mret false.

(** ** Loading *)

(** The module object, before its image. *)
Definition new_module (device : Z) : M module_ptr :=
  module ← gets (fun s => fresh (dom (rt_modules (g_module_state s))));
  modify_modules (fun g =>
    set_rt_modules (<[module := mkModule device [] false None None None]> (rt_modules g)) g) ;;
  mret module.

(** A cache operation that owns something stays with the module. *)
Definition keep_operation (module : module_ptr) (queue : queue_ptr) (operation : CodeCacheOperation)
  : M unit :=
  if bool_decide (is_Some operation) then
    update_module module (set_md_cache_operation (Some operation) (Some queue))
  else mret tt.

(** The freeze failed: a queue that went with the operation is replaced. *)
Definition abandon_frozen (device : Z) (module : module_ptr) (queue : queue_ptr)
    (operation : CodeCacheOperation) : M unit :=
  keep_operation module queue operation ;;
  released ← release_or_retain_module module;
  if negb released then mret tt
  else
    state ← get_device device;
    match ds_default_queue state with
    | None => failed_assert
    | Some default_queue =>
        object ← get_queue default_queue;
        if negb (queue_ready (lq_queue object)) then
          _ ← restore_direct_kfd_default_queue_locked device; mret tt
        else mret tt
    end.

(** [freeze_executable_image] on the default queue. *)
Definition freeze_module (device : Z) (queue : queue_ptr) (image : LoadedImage)
  : M (bool * CodeCacheOperation) :=
  state ← get_device device;
  object ← get_queue queue;
  '(frozen, operation, handle) ←
    below (m_freeze_executable_image (ds_node state) (lq_queue object) image);
  update_queue queue (set_lq_queue handle) ;;
  mret (frozen, operation).

(** The module in the registry. *)
Definition register_module (module : module_ptr) : M (LrStatus.t * option module_ptr) :=
  inserted ← below t_new;
  if negb inserted then
    _ ← release_or_retain_module module;
    mret (RuntimeError, None)
  else
    modify_modules (fun g => set_g_modules ({[module]} ∪ g_modules g) g) ;;
    mret (Success, Some module).

(** From the module object on. *)
Definition load_module (device : Z) (queue : queue_ptr) (hsaco : bytes) (code_object : CodeObject)
  : M (LrStatus.t * option module_ptr) :=
  module ← new_module device;
  state ← get_device device;
  '(error, image) ← below (m_materialize_executable_image (ds_node state) hsaco code_object);
  update_module module (set_md_executable_image (Some image)) ;;
  if negb (bool_decide (error = ExecutableImageError.None)) then
    _ ← release_or_retain_module module;
    mret (executable_image_error_status error, None)
  else
    '(frozen, operation) ← freeze_module device queue image;
    if negb frozen then
      abandon_frozen device module queue operation ;;
      mret (RuntimeError, None)
    else
      '(status, loaded) ← register_module module;
      below_ (m_drop_operation operation) ;;
      mret (status, loaded).

(** [valid_device] gives the lock up again, and the image is parsed without
    it. *)
Definition lr_module_load_hsaco (device : Z) (image : option bytes) (image_size : Z)
  : M (LrStatus.t * option module_ptr) :=
  initialized ← gets g_initialized;
  if negb initialized then mret (NotInitialized, None)
  else
    valid_device ← device_in_range device;
    match image with
    | None => mret (InvalidArgument, None)
    | Some hsaco =>
        if negb valid_device || (image_size =? 0) then mret (InvalidArgument, None)
        else
          parsed ← unlocked (lift (parse_code_object (Some hsaco) image_size));
          if negb (parse_ok parsed) then
            mret (loader_error_status (pe_code (pr_error parsed)), None)
          else
            opened ← device_opened device;
            session ← gets g_kfd_session;
            if negb opened || negb session then mret (InvalidArgument, None)
            else
              state ← get_device device;
              match ds_default_queue state with
              | None => mret (InvalidArgument, None)
              | Some queue =>
                  reserved ← below t_new;
                  if negb reserved then mret (RuntimeError, None)
                  else
                    constructed ← below t_new;
                    if negb constructed then mret (RuntimeError, None)
                    else load_module device queue hsaco (pr_code_object parsed)
              end
    end.

(** ** Destruction *)

(** The module can be used again after a failure. *)
Definition keep_module (module : module_ptr) (status : LrStatus.t) : M LrStatus.t :=
  update_module module (set_md_destroying false) ;; mret status.

Definition lr_module_destroy (module : option module_ptr) : M LrStatus.t :=
  initialized ← gets g_initialized;
  if negb initialized then mret NotInitialized
  else
    match module with
    | None => mret InvalidArgument
    | Some module =>
        known ← gets (fun s => bool_decide (module ∈ g_modules (g_module_state s)));
        if negb known then mret InvalidArgument
        else
          object ← get_module module;
          opened ← device_opened (md_device object);
          if md_destroying object || negb opened then mret InvalidArgument
          else
            update_module module (set_md_destroying true) ;;
            synchronization_status ← synchronize_direct_kfd_device (md_device object);
            if negb (succeeded synchronization_status) then keep_module module synchronization_status
            else
              status ← release_direct_kfd_module_resources module;
              if negb (succeeded status) then keep_module module status
              else
                modify_modules (fun g => set_g_modules (g_modules g ∖ {[module]}) g) ;;
                mret Success
    end.

(** ** Kernels *)

Definition named (name : string) (kernel : KernelInfo) : bool :=
  String.eqb (ki_name kernel) name || String.eqb (ki_symbol_name kernel) name.

(** The module is registered, on an open device, and its image is loaded. *)
Definition usable_image (module : module_ptr) : M (option LoadedImage) :=
  known ← gets (fun s => bool_decide (module ∈ g_modules (g_module_state s)));
  if negb known then mret None
  else
    object ← get_module module;
    opened ← device_opened (md_device object);
    mret (match md_executable_image object with
      | Some image =>
          if md_destroying object || negb opened || negb (ii_valid (li_info image)) then None
          else Some image
      | None => None
      end).

Definition add_kernel (module : module_ptr) (index : nat) : M kernel_ptr :=
  kernel ← gets (fun s => fresh (dom (rt_kernels (g_module_state s))));
  modify_modules (fun g =>
    set_g_kernels ({[kernel]} ∪ g_kernels g)
      (set_rt_kernels (<[kernel := mkKernel module index]> (rt_kernels g)) g)) ;;
  update_module module (fun m => set_md_kernels (md_kernels m ++ [kernel]) m) ;;
  mret kernel.

Definition lr_kernel_get (module : option module_ptr) (name : option string)
  : M (LrStatus.t * option kernel_ptr) :=
  initialized ← gets g_initialized;
  if negb initialized then mret (NotInitialized, None)
  else
    match module, name with
    | Some module, Some name =>
        usable ← usable_image module;
        match usable with
        | None => mret (InvalidArgument, None)
        | Some image =>
            match find_index (named name) (co_kernels (ii_code_object (li_info image))) with
            | None => mret (InvalidArgument, None)
            | Some index =>
                reserved ← below t_new;
                if negb reserved then mret (RuntimeError, None)
                else
                  constructed ← below t_new;
                  if negb constructed then mret (RuntimeError, None)
                  else
                    inserted ← below t_new;
                    if negb inserted then mret (RuntimeError, None)
                    else
                      kernel ← add_kernel module index;
                      mret (Success, Some kernel)
            end
        end
    | _, _ => mret (InvalidArgument, None)
    end.

(** [kernel->module->executable_image->code_object().kernels[index]] *)
Definition kernel_info (kernel : kernel_ptr) : M KernelInfo :=
  object ← get_kernel kernel;
  module ← get_module (kn_module object);
  match md_executable_image module with
  | None => failed_assert
  | Some image =>
      match co_kernels (ii_code_object (li_info image)) !! kn_image_kernel_index object with
      | Some info => mret info
      | None => failed_assert
      end
  end.

Definition lr_kernel_get_properties (kernel : kernel_ptr) : M (LrStatus.t * lr_kernel_properties_t) :=
  initialized ← gets g_initialized;
  if negb initialized then mret (NotInitialized, no_kernel_properties)
  else
    valid ← valid_kernel_locked kernel;
    if negb valid then mret (InvalidArgument, no_kernel_properties)
    else
      info ← kernel_info kernel;
      mret (Success, mkKernelProperties (ki_kernarg_size info) (ki_group_segment_size info)
        (ki_private_segment_size info)).

(** ** Shutdown *)

(** The loop over the registry; the order of an [unordered_set] is the
    library's. *)
Fixpoint release_modules (modules : list module_ptr) (result : LrStatus.t) : M LrStatus.t :=
  match modules with
  | [] => mret result
  | module :: modules =>
      status ← release_direct_kfd_module_resources module;
      if negb (succeeded status) then release_modules modules (first_failure result status)
      else
        modify_modules (fun g => set_g_modules (g_modules g ∖ {[module]}) g) ;;
        release_modules modules result
  end.

(** The [while] over the cleanup owners: one that cannot be released is
    skipped. *)
Fixpoint release_cleanup_owners (fuel : nat) (index : nat) (result : LrStatus.t) : M LrStatus.t :=
  owners ← gets (fun s => g_module_cleanup_owners (g_module_state s));
  match owners !! index with
  | None => mret result
  | Some module =>
      match fuel with
      | O => out_of_fuel
      | S fuel =>
          status ← release_direct_kfd_module_resources module;
          if negb (succeeded status) then
            release_cleanup_owners fuel (S index) (first_failure result status)
          else
            modify_modules (fun g =>
              set_g_module_cleanup_owners (erase index (g_module_cleanup_owners g)) g) ;;
            release_cleanup_owners fuel index result
      end
  end.

Definition release_modules_locked (result : LrStatus.t) : M LrStatus.t :=
  modules ← gets (fun s => elements (g_modules (g_module_state s)));
  result ← release_modules modules result;
  owners ← gets (fun s => g_module_cleanup_owners (g_module_state s));
  release_cleanup_owners (length owners) 0 result.
End modules.
