(* ===== verification/ModuleFacts.v ===== *)
(** * Modules and their handles stay consistent

    Every kernel handle belongs to a module that lists it, every module object
    is registered, waiting for cleanup or under construction, and an index into
    the kernels of a valid image is in range.  Every call of [Modules] keeps
    this, on every path, against what other threads may do. *)

From stdpp Require Import gmap.
From S2P Require Import Prelude Memory CodeObject ElfReader ExecutableImage Topology AqlQueue KfdProducer Signal KfdKernel MemoryState RuntimeState DirectQueue DirectLaunch DirectApi DirectEvents RuntimeFacts MemoryRegistry MemoryFrame MemoryCalls Modules.

Import LrStatus.

(** [ExecutableImage::release] leaves the image or invalidates it. *)
Class ImageLaw (W : Type) `{!MemoryTransport W} :=
  release_image_law image (w : W) ok image' w' :
    m_release_image image w = ((ok, image'), w') ->
    li_info image' = li_info image \/ ii_valid (li_info image') = false.

(** ** Objects *)

Definition image_kernels (image : LoadedImage) : list KernelInfo :=
  co_kernels (ii_code_object (li_info image)).

Definition index_ok (object : lr_module_t) (index : nat) : Prop :=
  forall image, md_executable_image object = Some image -> ii_valid (li_info image) = true ->
    (index < length (image_kernels image))%nat.

Record heap_wf (g : module_globals) : Prop := {
  hw_registered k : k ∈ g_kernels g <-> is_Some (rt_kernels g !! k);
  hw_listed k kernel : rt_kernels g !! k = Some kernel ->
    exists object, rt_modules g !! kn_module kernel = Some object /\ k ∈ md_kernels object /\
      index_ok object (kn_image_kernel_index kernel);
  hw_owned m object k : rt_modules g !! m = Some object -> k ∈ md_kernels object ->
    exists kernel, rt_kernels g !! k = Some kernel /\ kn_module kernel = m;
  hw_nodup m object : rt_modules g !! m = Some object -> NoDup (md_kernels object)
}.

(** A change of a module that keeps its handles, and its image unless it
    invalidates it. *)
Definition harmless (object object' : lr_module_t) : Prop :=
  md_kernels object' = md_kernels object /\
  forall image', md_executable_image object' = Some image' -> ii_valid (li_info image') = true ->
    md_kernels object = [] \/
    exists image, md_executable_image object = Some image /\ li_info image' = li_info image.

Lemma harmless_same object object' :
  md_kernels object' = md_kernels object -> md_executable_image object' = md_executable_image object ->
  harmless object object'.
Proof. intros Hk Hi. split; [done|]. rewrite Hi. intros image Himage _. right. by exists image. Qed.

Lemma harmless_index object object' index :
  harmless object object' -> md_kernels object <> [] -> index_ok object index -> index_ok object' index.
Proof.
  intros [_ Hi] Hne Hok image Himage Hvalid. destruct (Hi image Himage Hvalid) as [?|(image0 & H0 & He)]; [done|].
  specialize (Hok image0 H0). unfold image_kernels in *. rewrite He in *. by apply Hok.
Qed.

Lemma heap_wf_update g m object object' :
  heap_wf g -> rt_modules g !! m = Some object -> harmless object object' ->
  heap_wf (set_rt_modules (<[m := object']> (rt_modules g)) g).
Proof.
  intros [H1 H2 H3 H4] Hm Hh. split; cbn.
  - done.
  - intros k kernel Hk. destruct (H2 k kernel Hk) as (o & Ho & Hin & Hix).
    destruct (decide (kn_module kernel = m)) as [He|Hne].
    + rewrite He in Ho. rewrite Hm in Ho. injection Ho as <-. exists object'. rewrite He, lookup_insert_eq.
      split_and!; [done|by rewrite (proj1 Hh)|]. eapply harmless_index; [done| |done].
      intros E. rewrite E in Hin. by apply not_elem_of_nil in Hin.
    + exists o. by rewrite lookup_insert_ne.
  - intros m' o k [[<- <-]|[_ Ho]]%lookup_insert_Some Hk; [|by eapply H3].
    rewrite (proj1 Hh) in Hk. by eapply H3.
  - intros m' o [[<- <-]|[_ Ho]]%lookup_insert_Some; [|by eapply H4]. rewrite (proj1 Hh). by eapply H4.
Qed.

(** A new module. *)
Lemma heap_wf_new g m device :
  heap_wf g -> rt_modules g !! m = None ->
  heap_wf (set_rt_modules (<[m := mkModule device [] false None None None]> (rt_modules g)) g).
Proof.
  intros [H1 H2 H3 H4] Hm. split; cbn.
  - done.
  - intros k kernel Hk. destruct (H2 k kernel Hk) as (o & Ho & Hin & Hix). exists o.
    rewrite lookup_insert_ne; [done|]. congruence.
  - intros m' o k [[<- <-]|[_ Ho]]%lookup_insert_Some Hk; [by apply not_elem_of_nil in Hk|by eapply H3].
  - intros m' o [[<- <-]|[_ Ho]]%lookup_insert_Some; [apply NoDup_nil_2|by eapply H4].
Qed.

(** A new handle. *)
Lemma heap_wf_add g m object k index :
  heap_wf g -> rt_modules g !! m = Some object -> rt_kernels g !! k = None -> index_ok object index ->
  heap_wf (set_rt_modules (<[m := set_md_kernels (md_kernels object ++ [k]) object]> (rt_modules g))
    (set_g_kernels ({[k]} ∪ g_kernels g) (set_rt_kernels (<[k := mkKernel m index]> (rt_kernels g)) g))).
Proof.
  intros [H1 H2 H3 H4] Hm Hk Hix. split; cbn.
  - intros k'. rewrite elem_of_union, elem_of_singleton, H1, lookup_insert_is_Some. destruct (decide (k = k')); naive_solver.
  - intros k' kernel [[<- <-]|[Hne Hk']]%lookup_insert_Some; cbn.
    + exists (set_md_kernels (md_kernels object ++ [k]) object). rewrite lookup_insert_eq.
      split_and!; [done|set_solver|exact Hix].
    + destruct (H2 k' kernel Hk') as (o & Ho & Hin & Hok). destruct (decide (kn_module kernel = m)) as [He|Hne'].
      * rewrite He, Hm in Ho. injection Ho as <-. rewrite He, lookup_insert_eq. eexists.
        split_and!; [done|set_solver|exact Hok].
      * exists o. by rewrite lookup_insert_ne.
  - intros m' o k' [[<- <-]|[Hne Ho]]%lookup_insert_Some Hin; cbn in Hin.
    + apply elem_of_app in Hin as [Hin|Hin].
      * destruct (H3 _ _ _ Hm Hin) as (kernel & Hk' & He). exists kernel. rewrite lookup_insert_ne; [done|]. congruence.
      * apply list_elem_of_singleton in Hin as ->. eexists. by rewrite lookup_insert_eq.
    + destruct (H3 _ _ _ Ho Hin) as (kernel & Hk' & He). exists kernel. rewrite lookup_insert_ne; [done|]. congruence.
  - intros m' o [[<- <-]|[Hne Ho]]%lookup_insert_Some; cbn; [|by eapply H4].
    apply NoDup_app. split_and!; [by eapply H4| |apply NoDup_singleton].
    intros k' Hin ->%list_elem_of_singleton. destruct (H3 _ _ _ Hm Hin) as (kernel & Hk' & _). congruence.
Qed.

(** The handles of a module go, then the module. *)
Definition without_kernels (ks : list kernel_ptr) (g : module_globals) : module_globals :=
  set_g_kernels (g_kernels g ∖ list_to_set ks)
    (set_rt_kernels (filter (fun x => x.1 ∉ ks) (rt_kernels g)) g).

Lemma heap_wf_delete g m object :
  heap_wf g -> rt_modules g !! m = Some object ->
  heap_wf (set_rt_modules (delete m (rt_modules g)) (without_kernels (md_kernels object) g)).
Proof.
  intros [H1 H2 H3 H4] Hm. split; cbn.
  - intros k. rewrite elem_of_difference, elem_of_list_to_set, H1. split.
    + intros [[kernel Hk] Hn]. exists kernel. by apply map_lookup_filter_Some.
    + intros [kernel [Hk Hn]%map_lookup_filter_Some]. by split; [exists kernel|].
  - intros k kernel [Hk Hn]%map_lookup_filter_Some. cbn in Hn. destruct (H2 k kernel Hk) as (o & Ho & Hin & Hok).
    exists o. rewrite lookup_delete_ne; [done|]. intros He. rewrite <-He, Hm in Ho. injection Ho as <-. done.
  - intros m' o k [Hne Ho]%lookup_delete_Some Hin. destruct (H3 _ _ _ Ho Hin) as (kernel & Hk & He).
    exists kernel. split; [|done]. apply map_lookup_filter_Some. split; [done|]. cbn. intros Hk'.
    destruct (H3 _ _ _ Hm Hk') as (kernel' & Hk'' & He'). congruence.
  - intros m' o [Hne Ho]%lookup_delete_Some. by eapply H4.
Qed.

(** ** Registries *)

(** Every module object has one owner. *)
Record registry_wf (extra : gset module_ptr) (g : module_globals) : Prop := {
  rg_dom : dom (rt_modules g) = g_modules g ∪ list_to_set (g_module_cleanup_owners g) ∪ extra;
  rg_owners : NoDup (g_module_cleanup_owners g);
  rg_apart m : m ∈ g_module_cleanup_owners g -> m ∉ g_modules g;
  rg_extra m : m ∈ extra -> m ∉ g_modules g /\ m ∉ g_module_cleanup_owners g
}.

Record modules_wf (extra : gset module_ptr) (g : module_globals) : Prop := {
  mw_heap : heap_wf g;
  mw_registry : registry_wf extra g
}.

Lemma registry_wf_update extra g m object :
  registry_wf extra g -> is_Some (rt_modules g !! m) ->
  registry_wf extra (set_rt_modules (<[m := object]> (rt_modules g)) g).
Proof.
  intros [H1 H2 H3 H4] Hm. split; try done. cbn. rewrite dom_insert_L.
  assert (m ∈ dom (rt_modules g)) by by apply elem_of_dom. set_solver.
Qed.

Lemma no_modules_wf : modules_wf ∅ no_modules.
Proof.
  split; split; cbn; try done.
  - intros k. rewrite lookup_empty. split; [set_solver|by intros [? ?]].
  - apply NoDup_nil_2.
Qed.

(** A change of one module object that is no threat to the handles. *)
Definition tweaked (module : module_ptr) (g g' : module_globals) : Prop :=
  exists object object', rt_modules g !! module = Some object /\
    g' = set_rt_modules (<[module := object']> (rt_modules g)) g /\
    harmless object object' /\ md_destroying object' = md_destroying object.

Lemma tweaked_refl module g object : rt_modules g !! module = Some object -> tweaked module g g.
Proof.
  intros Hm. exists object, object. split_and!; [done| |by apply harmless_same|done].
  rewrite insert_id by done. by destruct g.
Qed.

Lemma harmless_trans o1 o2 o3 : harmless o1 o2 -> harmless o2 o3 -> harmless o1 o3.
Proof.
  intros [K1 I1] [K2 I2]. split; [congruence|]. intros image Hi Hv.
  destruct (I2 image Hi Hv) as [He|(image2 & H2 & E2)]; [left; congruence|]. rewrite E2 in Hv.
  destruct (I1 image2 H2 Hv) as [He|(image1 & H1 & E1)]; [by left|]. right. exists image1. split; [done|congruence].
Qed.

Lemma tweaked_trans module g1 g2 g3 : tweaked module g1 g2 -> tweaked module g2 g3 -> tweaked module g1 g3.
Proof.
  intros (o1 & o2 & L1 & -> & H1 & D1) (o2' & o3 & L2 & -> & H2 & D2). cbn in L2.
  rewrite lookup_insert_eq in L2. injection L2 as <-. exists o1, o3.
  split_and!; [done| |by eapply harmless_trans|congruence]. cbn. by rewrite insert_insert_eq.
Qed.

Lemma tweaked_lookup module g g' : tweaked module g g' -> is_Some (rt_modules g' !! module).
Proof. intros (o & o' & _ & -> & _). eexists. apply lookup_insert_eq. Qed.

Lemma tweaked_heap module g g' : tweaked module g g' -> heap_wf g -> heap_wf g'.
Proof. intros (o & o' & L & -> & Hh & _) Hg. by eapply heap_wf_update. Qed.

(** ** Steps *)

Section steps.
Context {W : Type} `{!Transport W, !MemoryTransport W, !ImageLaw W}.
Abbreviation M := (kfd (runtime W)).
Implicit Type s : runtime W.
Abbreviation ms s := (g_module_state s).

Lemma wlp_get_module m (Q : lr_module_t -> runtime W -> Prop) s :
  (forall object, rt_modules (ms s) !! m = Some object -> Q object s) -> wlp (get_module m) Q s.
Proof.
  intros H a s' E. unfold get_module, dereference in E. destruct (_ !! m) eqn:L; [|done].
  injection E as <- <-. by apply H.
Qed.

Lemma wlp_update_module m f (Q : unit -> runtime W -> Prop) s :
  (forall object, rt_modules (ms s) !! m = Some object ->
     Q tt (set_g_module_state (set_rt_modules (<[m := f object]> (rt_modules (ms s))) (ms s)) s)) ->
  wlp (update_module m f) Q s.
Proof. intros H. apply wlp_bind, wlp_get_module. intros object Ho. by apply wlp_modify, H. Qed.

(** Operations that leave the modules alone. *)
Definition quiet {A} (m : M A) : Prop := forall s a s', m s = Ok (a, s') -> ms s' = ms s.

Lemma wlp_quiet {A} (m : M A) (Q : A -> runtime W -> Prop) s :
  quiet m -> (forall a s', ms s' = ms s -> Q a s') -> wlp m Q s.
Proof. intros Hq HQ a s' E. by eapply HQ, Hq. Qed.

Lemma quiet_get_queue queue : quiet (get_queue queue).
Proof. intros s a s' E. unfold get_queue, dereference in E. destruct (_ !! queue); [|done]. by injection E as <- <-. Qed.

Lemma quiet_get_device index : quiet (get_device index).
Proof.
  intros s a s' E. unfold get_device in E. destruct (g_devices s !! _); [|done].
  destruct (0 <=? index); [|done]. by injection E as <- <-.
Qed.

Lemma quiet_update_queue queue f : quiet (update_queue queue f).
Proof.
  intros s a s' E. unfold update_queue, mbind, kfd_bind in E. destruct (get_queue queue s) as [[o s1]|[]|] eqn:G; [|done].
  injection E as <- <-. by apply quiet_get_queue in G.
Qed.

Lemma quiet_below {A} (f : W -> A * W) : quiet (below f).
Proof. intros s a s' E. unfold below in E. destruct (f _). by injection E as <- <-. Qed.

Lemma quiet_lift {A} (r : result Empty_set A) : quiet (lift r).
Proof. intros s a s' E. unfold lift in E. destruct r as [|[]|]; [|done]. by injection E as <- <-. Qed.

Lemma quiet_bind {A B} (m : M A) (k : A -> M B) : quiet m -> (forall a, quiet (k a)) -> quiet (m ≫= k).
Proof.
  intros Hm Hk s b s' E. unfold mbind, kfd_bind in E. destruct (m s) as [[a s1]|[]|] eqn:G; [|done].
  apply Hm in G. apply Hk in E. congruence.
Qed.

Lemma quiet_freeze device queue image : quiet (freeze_module device queue image).
Proof.
  apply quiet_bind; [apply quiet_get_device|]. intros state. apply quiet_bind; [apply quiet_get_queue|]. intros object.
  apply quiet_bind; [apply quiet_below|]. intros [[frozen operation] handle].
  apply quiet_bind; [apply quiet_update_queue|]. by intros _ s a s' [= <- <-].
Qed.

Lemma release_cache_operation_spec module s :
  wlp (release_cache_operation module) (fun _ s' => tweaked module (ms s) (ms s')) s.
Proof.
  apply wlp_bind, wlp_get_module. intros object Ho. pose proof (tweaked_refl _ _ _ Ho) as Hrefl.
  destruct (md_pending_cache_operation object) as [operation|]; [|by apply wlp_ret].
  destruct (md_cache_operation_queue object) as [queue|]; [|by apply wlp_ret].
  apply wlp_bind, wlp_quiet; [apply quiet_get_queue|]. intros q s1 E1.
  apply wlp_bind, wlp_quiet; [apply quiet_below|]. intros [[released o] handle] s2 E2.
  apply wlp_bind, wlp_quiet; [apply quiet_update_queue|]. intros _ s3 E3.
  assert (ms s3 = ms s) as E by congruence.
  destruct released; cbn [negb]; apply wlp_bind, wlp_update_module; intros object' Ho'; apply wlp_ret;
    rewrite E in Ho'; simplify_eq; exists object; eexists; (split_and!; [done|cbn; by rewrite E|by apply harmless_same|done]).
Qed.

Lemma release_module_image_spec module s :
  wlp (release_module_image module) (fun _ s' => tweaked module (ms s) (ms s')) s.
Proof.
  apply wlp_bind, wlp_get_module. intros object Ho. pose proof (tweaked_refl _ _ _ Ho) as Hrefl.
  destruct (md_executable_image object) as [image|] eqn:Hi; [|by apply wlp_ret].
  destruct (bool_decide _); [|by apply wlp_ret].
  apply wlp_bind, wlp_below. intros [released image'] w Hw. apply release_image_law in Hw.
  apply wlp_bind, wlp_update_module. intros object' Ho'. cbn in Ho'. rewrite Ho in Ho'. injection Ho' as <-. apply wlp_ret.
  exists object. eexists. split_and!; [done|done| |done]. split; [done|]. cbn.
  intros image0 [= <-] Hv. right. exists image. split; [done|]. destruct Hw; congruence.
Qed.

Lemma without_kernels_cons k ks g :
  without_kernels ks (set_g_kernels (g_kernels g ∖ {[k]}) (set_rt_kernels (delete k (rt_kernels g)) g)) =
  without_kernels (k :: ks) g.
Proof.
  unfold without_kernels, set_g_kernels, set_rt_kernels. cbn. f_equal; [set_solver|].
  apply map_eq. intros i. apply option_eq. intros x.
  rewrite !map_lookup_filter_Some, lookup_delete_Some. cbn. rewrite not_elem_of_cons. naive_solver.
Qed.

Lemma delete_kernels_spec ks s :
  wlp (delete_kernels ks) (fun _ s' => ms s' = without_kernels ks (ms s)) s.
Proof.
  revert s. induction ks as [|k ks IH]; intros s; cbn [delete_kernels].
  - apply wlp_ret. unfold without_kernels, set_g_kernels, set_rt_kernels. cbn.
    rewrite difference_empty_L, map_filter_id; [by destruct (ms s)|]. intros i x _. cbn. apply not_elem_of_nil.
  - apply wlp_bind. unfold delete_kernel. apply wlp_bind, wlp_quiet.
    { intros s0 a s' E. unfold get_kernel, dereference in E. destruct (_ !! k); [|done]. by injection E as <- <-. }
    intros _ s1 E1. apply wlp_modify. eapply wlp_mono; [apply IH|]. intros u s' E'.
    rewrite E'. cbn. rewrite E1. apply without_kernels_cons.
Qed.

Lemma destroy_module_handles_spec module object s :
  rt_modules (ms s) !! module = Some object ->
  wlp (destroy_module_handles module) (fun _ s' =>
    ms s' = set_rt_modules (delete module (rt_modules (ms s))) (without_kernels (md_kernels object) (ms s))) s.
Proof.
  intros Ho. apply wlp_bind, wlp_get_module. intros object' Ho'. rewrite Ho in Ho'. injection Ho' as <-.
  apply wlp_bind. eapply wlp_mono; [apply delete_kernels_spec|]. intros ? s1 E1. apply wlp_modify. cbn. by rewrite E1.
Qed.

(** Released completely, or still there. *)
Definition released (module : module_ptr) (g g' : module_globals) : Prop := exists g1 object,
  tweaked module g g1 /\ rt_modules g1 !! module = Some object /\
  g' = set_rt_modules (delete module (rt_modules g1)) (without_kernels (md_kernels object) g1).

Lemma release_resources_spec module s :
  wlp (release_direct_kfd_module_resources module) (fun status s' =>
    if succeeded status then released module (ms s) (ms s') else tweaked module (ms s) (ms s')) s.
Proof.
  apply wlp_bind. eapply wlp_mono; [apply release_cache_operation_spec|]. intros status s1 T1.
  destruct (succeeded status) eqn:Es; cbn [negb]; [|apply wlp_ret; by rewrite Es].
  apply wlp_bind. eapply wlp_mono; [apply release_module_image_spec|]. intros ok s2 T2.
  pose proof (tweaked_trans _ _ _ _ T1 T2) as T. destruct ok; cbn [negb]; [|by apply wlp_ret].
  apply wlp_bind, wlp_update_module. intros object Ho. apply wlp_bind.
  eapply wlp_mono; [eapply destroy_module_handles_spec; cbn; apply lookup_insert_eq|].
  intros ? s3 E3. apply wlp_ret. cbn [succeeded]. cbn in E3.
  exists (set_rt_modules (<[module := set_md_executable_image None object]> (rt_modules (ms s2))) (ms s2)),
    (set_md_executable_image None object). split_and!; [eapply tweaked_trans; [exact T|]| |exact E3].
  - exists object. eexists. split_and!; [done|done|by split|done].
  - cbn. apply lookup_insert_eq.
Qed.
End steps.

(** ** The invariant *)

Section invariant.
Context {W : Type} `{!Transport W, !MemoryTransport W, !Threads W, !ImageLaw W}.
Abbreviation M := (kfd (runtime W)).
Implicit Type s : runtime W.
Abbreviation ms s := (g_module_state s).

(** Modules that a thread has marked for destruction. *)
Definition marked (H : gset module_ptr) (g : module_globals) : Prop := forall m, m ∈ H ->
  m ∈ g_modules g /\ exists object, rt_modules g !! m = Some object /\ md_destroying object = true.

Record modules_held (H : gset module_ptr) s : Prop := {
  mh_wf : modules_wf ∅ (ms s);
  mh_marked : marked H (ms s)
}.

(** A change that keeps the modules consistent and the marked ones [H]; it may
    mark others, and destroy the ones that are not in [H]. *)
Definition respects_modules (H : gset module_ptr) (f : runtime W -> runtime W) : Prop :=
  forall s, modules_held H s -> modules_held H (f s).

Lemma modules_held_about H : respects_modules H other_threads -> about_core (modules_held H).
Proof.
  intros HT. split; [|intros s; apply HT]. intros s s' E [H1 H2]. assert (g_module_state s' = g_module_state s) as Es by (unfold core in E; congruence).
  split; by rewrite Es.
Qed.

Lemma tweaked_registry module extra g g' : tweaked module g g' -> registry_wf extra g -> registry_wf extra g'.
Proof. intros (o & o' & L & -> & _) Hg. apply registry_wf_update; [done|by eexists]. Qed.

Lemma tweaked_marked module H g g' : tweaked module g g' -> marked H g -> marked H g'.
Proof.
  intros (o & o' & L & -> & _ & Hd) Hm m Hin. destruct (Hm m Hin) as [Hr (object & Ho & Hdes)]. split; [done|].
  destruct (decide (m = module)) as [->|Hne].
  - exists o'. cbn. rewrite lookup_insert_eq. rewrite L in Ho. injection Ho as <-. split; [done|congruence].
  - exists object. cbn. by rewrite lookup_insert_ne.
Qed.

Lemma tweaked_wf module extra g g' : tweaked module g g' -> modules_wf extra g -> modules_wf extra g'.
Proof. intros T [H1 H2]. split; [by eapply tweaked_heap|by eapply tweaked_registry]. Qed.

(** A module goes: from the ones under construction, the registry or the
    cleanup owners. *)
Lemma released_facts module g g' :
  released module g g' -> heap_wf g ->
  heap_wf g' /\ g_modules g' = g_modules g /\ g_module_cleanup_owners g' = g_module_cleanup_owners g /\
  dom (rt_modules g') = dom (rt_modules g) ∖ {[module]} /\ is_Some (rt_modules g !! module) /\
  forall m, m <> module -> rt_modules g' !! m = rt_modules g !! m.
Proof.
  intros (g1 & object & T & Ho & ->) Hg. pose proof (tweaked_heap _ _ _ T Hg) as Hg1.
  destruct T as (o & o' & L & -> & _). split_and!; cbn in *.
  - by apply heap_wf_delete.
  - done.
  - done.
  - rewrite dom_delete_L, dom_insert_L. set_solver.
  - by eexists.
  - intros m Hne. by rewrite lookup_delete_ne, lookup_insert_ne.
Qed.

Lemma marked_other H g g' module :
  marked H g -> module ∉ H -> (forall m, m <> module -> m ∈ g_modules g -> m ∈ g_modules g') ->
  (forall m, m <> module -> rt_modules g' !! m = rt_modules g !! m) -> marked H g'.
Proof.
  intros Hm Hn Hg Hl m Hin. destruct (Hm m Hin) as [Hr Ho]. assert (m <> module) by congruence.
  split; [by apply Hg|]. by rewrite Hl.
Qed.

Lemma released_extra module g g' :
  released module g g' -> modules_wf {[module]} g -> modules_wf ∅ g'.
Proof.
  intros R [Hh [H1 H2 H3 H4]]. destruct (released_facts _ _ _ R Hh) as (F1 & F2 & F3 & F4 & _ & _).
  destruct (H4 module) as [N1 N2]; [set_solver|]. split; [done|]. split.
  - rewrite F2, F3, F4, H1. apply set_eq. intros m. set_unfold. destruct (decide (m = module)); naive_solver.
  - by rewrite F3.
  - rewrite F2, F3. done.
  - set_solver.
Qed.

Lemma released_registered module g g' :
  released module g g' -> modules_wf ∅ g -> module ∈ g_modules g ->
  modules_wf ∅ (set_g_modules (g_modules g' ∖ {[module]}) g').
Proof.
  intros R [Hh [H1 H2 H3 H4]] Hin. destruct (released_facts _ _ _ R Hh) as (F1 & F2 & F3 & F4 & _ & _). split.
  - destruct F1. by split.
  - split; cbn.
    + rewrite F2, F3, F4, H1. apply set_eq. intros m. set_unfold. destruct (decide (m = module)); naive_solver.
    + by rewrite F3.
    + rewrite F2, F3. set_solver.
    + set_solver.
Qed.

Lemma released_owner module g g' index :
  released module g g' -> modules_wf ∅ g -> g_module_cleanup_owners g !! index = Some module ->
  modules_wf ∅ (set_g_module_cleanup_owners (erase index (g_module_cleanup_owners g')) g').
Proof.
  intros R [Hh [H1 H2 H3 H4]] Hix. destruct (released_facts _ _ _ R Hh) as (F1 & F2 & F3 & F4 & _ & _). split.
  - destruct F1. by split.
  - assert (Permutation (g_module_cleanup_owners g) (module :: delete index (g_module_cleanup_owners g))) as Hp.
    { by apply delete_Permutation. }
    assert (forall m, m ∈ g_module_cleanup_owners g <-> m = module \/ m ∈ delete index (g_module_cleanup_owners g)) as Hel.
    { intros m. by rewrite <-elem_of_cons, <-Hp. }
    rewrite Hp in H2. apply NoDup_cons in H2 as [N1 N2].
    assert (module ∉ g_modules g) as N3. { apply H3. by eapply list_elem_of_lookup_2. }
    split; cbn; unfold erase; rewrite ?F2, ?F3.
    + rewrite F4, H1. apply set_eq. intros m. set_unfold. rewrite (Hel m).
      destruct (decide (m = module)); naive_solver.
    + done.
    + intros m Hm. apply H3, Hel. by right.
    + set_solver.
Qed.

(** ** Calls *)

Context (H : gset module_ptr).
Hypothesis HT : respects_modules H other_threads.
Let HP : about_core (modules_held H) := modules_held_about H HT.

(** A field of a module that is not marked. *)
Lemma modules_update module extra f g object :
  modules_wf extra g -> marked H g -> module ∉ H -> rt_modules g !! module = Some object ->
  harmless object (f object) ->
  let g' := set_rt_modules (<[module := f object]> (rt_modules g)) g in
  modules_wf extra g' /\ marked H g'.
Proof.
  intros [Hh Hr] Hm Hn Ho Hf g'. split; [split|].
  - by eapply heap_wf_update.
  - apply registry_wf_update; [done|by eexists].
  - eapply marked_other; [exact Hm|exact Hn|done|]. intros m Hne. cbn. by rewrite lookup_insert_ne.
Qed.

Lemma extra_unmarked module g : modules_wf {[module]} g -> marked H g -> module ∉ H.
Proof.
  intros [_ Hr] Hm Hin. destruct (rg_extra _ _ Hr module) as [N _]; [set_solver|]. by destruct (Hm _ Hin).
Qed.

Lemma retain_wf module g :
  modules_wf {[module]} g ->
  modules_wf ∅ (set_g_module_cleanup_owners (g_module_cleanup_owners g ++ [module]) g).
Proof.
  intros [Hh [H1 H2 H3 H4]]. destruct (H4 module) as [N1 N2]; [set_solver|]. split; [by destruct Hh|]. split; cbn.
  - rewrite H1, list_to_set_app_L. set_solver.
  - apply NoDup_app. split_and!; [done|set_solver|apply NoDup_singleton].
  - intros m [Hm|Hm]%elem_of_app; [by apply H3|]. apply list_elem_of_singleton in Hm as ->. done.
  - set_solver.
Qed.

Lemma release_or_retain_held module s :
  modules_wf {[module]} (ms s) -> marked H (ms s) ->
  wlp (release_or_retain_module module) (fun _ => modules_held H) s.
Proof.
  intros Hwf Hm. pose proof (extra_unmarked _ _ Hwf Hm) as Hn. apply wlp_bind.
  eapply wlp_mono; [apply release_resources_spec|]. intros status s1 R. cbv beta in R. destruct (succeeded status).
  - apply wlp_ret. destruct (released_facts _ _ _ R (mw_heap _ _ Hwf)) as (_ & F2 & _ & _ & _ & F6).
    split; [by eapply released_extra|]. eapply marked_other; [exact Hm|exact Hn|by rewrite F2|exact F6].
  - apply wlp_bind. unfold retain_direct_kfd_module_cleanup_owner. apply wlp_bind, wlp_update_module.
    intros object Ho. destruct (modules_update module {[module]} (set_md_destroying true) (ms s1) object) as [U1 U2];
      [by eapply tweaked_wf|by eapply tweaked_marked|done|done|by apply harmless_same|].
    apply wlp_modify, wlp_ret. split; [by apply retain_wf|]. exact U2.
Qed.


(** *** Loading *)

Lemma abandon_frozen_held device module queue operation s :
  modules_wf {[module]} (ms s) -> marked H (ms s) ->
  wlp (abandon_frozen device module queue operation) (fun _ => modules_held H) s.
Proof.
  intros Hwf Hm. apply wlp_bind. unfold keep_operation.
  apply wlp_mono with (P := fun _ s' => modules_wf {[module]} (ms s') /\ marked H (ms s')).
  { destruct (bool_decide _); [|by apply wlp_ret]. apply wlp_update_module. intros object Ho. cbn.
    eapply modules_update; [done|done|by eapply extra_unmarked|done|by apply harmless_same]. }
  intros _ s1 [Hwf1 Hm1]. apply wlp_bind. eapply wlp_mono; [by apply release_or_retain_held|].
  intros ok s2 Hs2. eapply (wlp_keeps (modules_held H)); [|exact Hs2|done]. unfold get_queue. keeps.
  by apply keeps_restore.
Qed.

Lemma new_module_wf device s :
  modules_held H s ->
  wlp (new_module device) (fun module s' => modules_wf {[module]} (ms s') /\ marked H (ms s') /\
    rt_modules (ms s') !! module = Some (mkModule device [] false None None None)) s.
Proof.
  intros [[Hh [H1 H2 H3 H4]] Hm]. apply wlp_bind, wlp_gets, wlp_bind, wlp_modify, wlp_ret. cbn.
  set (m := fresh (dom (rt_modules (ms s)))). assert (m ∉ dom (rt_modules (ms s))) as Hn by apply is_fresh.
  pose proof Hn as Hnone. apply not_elem_of_dom in Hnone. rewrite H1 in Hn.
  split_and!; [split; [by apply heap_wf_new|split; cbn]| |].
  - rewrite dom_insert_L, H1. set_solver.
  - done.
  - done.
  - intros m' ->%elem_of_singleton. set_solver.
  - eapply (marked_other H _ _ m); [exact Hm| |done|].
    + intros Hin. destruct (Hm m Hin) as [? _]. set_solver.
    + intros m' Hne. cbn. by rewrite lookup_insert_ne.
  - apply lookup_insert_eq.
Qed.

Lemma register_module_held module s :
  modules_wf {[module]} (ms s) -> marked H (ms s) ->
  wlp (register_module module) (fun _ => modules_held H) s.
Proof.
  intros Hwf Hm. apply wlp_bind, wlp_below. intros inserted w _. destruct inserted; cbn [negb].
  - apply wlp_bind, wlp_modify, wlp_ret. destruct Hwf as [Hh [H1 H2 H3 H4]].
    destruct (H4 module) as [N1 N2]; [set_solver|]. split; [split; [by destruct Hh|split; cbn]|].
    + rewrite H1. set_solver.
    + done.
    + intros m Hin. pose proof (H3 m Hin). set_solver.
    + set_solver.
    + intros m Hin. destruct (Hm m Hin) as [Hr Ho]. split; [cbn; set_solver|done].
  - apply wlp_bind. eapply wlp_mono; [by apply release_or_retain_held|]. intros ok s1 Hs1. by apply wlp_ret.
Qed.

Lemma load_module_held device queue hsaco code_object s :
  modules_held H s -> wlp (load_module device queue hsaco code_object) (fun _ => modules_held H) s.
Proof.
  intros Hs. apply wlp_bind. eapply wlp_mono; [by apply new_module_wf|]. intros module s1 (Hwf & Hm & Hnew).
  apply wlp_bind, wlp_quiet; [apply quiet_get_device|]. intros state s2 E2.
  apply wlp_bind, wlp_below. intros [error image] w _. apply wlp_bind, wlp_update_module. intros object Ho.
  cbn in Ho |- *. rewrite E2 in Ho |- *. rewrite Hnew in Ho. injection Ho as <-.
  destruct (modules_update module {[module]} (set_md_executable_image (Some image)) (ms s1)
    (mkModule device [] false None None None)) as [U1 U2];
    [done|done|by eapply extra_unmarked|done| |].
  { split; [done|]. intros image' _ _. by left. }
  destruct (bool_decide _); cbn [negb].
  2: { apply wlp_bind. eapply wlp_mono; [by apply release_or_retain_held|]. intros ok s3 Hs3. by apply wlp_ret. }
  apply wlp_bind, wlp_quiet; [apply quiet_freeze|]. intros [frozen operation] s3 E3. cbn in E3. rewrite <-E3 in U1, U2.
  destruct frozen; cbn [negb].
  - apply wlp_bind. eapply wlp_mono; [by apply register_module_held|]. intros [status loaded] s4 Hs4.
    apply wlp_bind, wlp_modify, wlp_ret. destruct Hs4. by split.
  - apply wlp_bind. eapply wlp_mono; [by apply abandon_frozen_held|]. intros ? s4 Hs4. by apply wlp_ret.
Qed.

Lemma module_load_held device image size s :
  modules_held H s -> wlp (lr_module_load_hsaco device image size) (fun _ => modules_held H) s.
Proof.
  intros Hs. eapply (wlp_keeps (modules_held H)); [|done|done].
  unfold lr_module_load_hsaco, device_opened, device_in_range. keeps.
  apply keeps_wlp. intros s' Hs'. by apply load_module_held.
Qed.

(** *** Handles *)

Lemma find_index_lt {A} (P : A -> bool) l index : find_index P l = Some index -> (index < length l)%nat.
Proof.
  unfold find_index. intros ([i x] & Hf & ->)%fmap_Some. apply list_find_Some in Hf as [Hl _]. by eapply lookup_lt_Some.
Qed.

Lemma add_kernel_held module object index s :
  modules_held H s -> rt_modules (ms s) !! module = Some object -> index_ok object index ->
  wlp (add_kernel module index) (fun k s' => modules_held H s' /\
    ms s' = set_rt_modules (<[module := set_md_kernels (md_kernels object ++ [k]) object]> (rt_modules (ms s)))
      (set_g_kernels ({[k]} ∪ g_kernels (ms s))
        (set_rt_kernels (<[k := mkKernel module index]> (rt_kernels (ms s))) (ms s)))) s.
Proof.
  intros [[Hh Hr] Hm] Ho Hix. apply wlp_bind, wlp_gets, wlp_bind, wlp_modify, wlp_bind, wlp_update_module. cbn.
  intros object' Ho'. rewrite Ho in Ho'. injection Ho' as <-. apply wlp_ret.
  set (k := fresh (dom (rt_kernels (ms s)))). assert (k ∉ dom (rt_kernels (ms s))) as Hk%not_elem_of_dom by apply is_fresh.
  split; [|done]. split; [split; cbn|].
  - by apply heap_wf_add.
  - destruct (registry_wf_update ∅ (ms s) module (set_md_kernels (md_kernels object ++ [k]) object) Hr); [by eexists|].
    by split.
  - intros m Hin. destruct (Hm m Hin) as [Hreg (o & Hl & Hd)]. split; [done|]. cbn.
    destruct (decide (m = module)) as [->|Hne]; [|exists o; by rewrite lookup_insert_ne].
    eexists. rewrite lookup_insert_eq. split; [done|]. cbn. congruence.
Qed.

Lemma quiet_device_opened device : quiet (device_opened (W := W) device).
Proof.
  unfold device_opened, device_in_range. apply quiet_bind; [by intros ? ? ? [= <- <-]|]. intros known.
  destruct (known : bool); [|by intros ? ? ? [= <- <-]]. apply quiet_bind; [apply quiet_get_device|]. by intros ? ? ? ? [= <- <-].
Qed.

Lemma keeps_usable_image module : keeps (modules_held H) (usable_image module).
Proof. unfold usable_image, get_module, device_opened, device_in_range. keeps. Qed.

(** A usable image is the valid one of the module. *)
Lemma usable_image_spec module s :
  wlp (usable_image module) (fun found s' => ms s' = ms s /\ forall image, found = Some image ->
    exists object, rt_modules (ms s) !! module = Some object /\ md_executable_image object = Some image /\
      ii_valid (li_info image) = true /\ module ∈ g_modules (ms s) /\ md_destroying object = false) s.
Proof.
  apply wlp_bind, wlp_gets. destruct (bool_decide _) eqn:Eb; cbn [negb]; [|by apply wlp_ret].
  apply bool_decide_eq_true in Eb. apply wlp_bind, wlp_get_module. intros object Ho.
  apply wlp_bind, wlp_quiet; [apply quiet_device_opened|]. intros opened s1 E1. apply wlp_ret. split; [done|]. intros image Hi.
  destruct (md_executable_image object) as [image0|] eqn:Hm; [|done].
  destruct (md_destroying object) eqn:Ed; [done|]. destruct opened; [|done]. destruct (ii_valid _) eqn:Ev; [|done].
  injection Hi as <-. by exists object.
Qed.

Lemma kernel_get_held module name s :
  modules_held H s ->
  wlp (lr_kernel_get module name) (fun _ => modules_held H) s.
Proof.
  intros Hs. apply wlp_bind, wlp_gets. destruct (g_initialized s); cbn [negb]; [|by apply wlp_ret].
  destruct module as [module|]; [|by apply wlp_ret]. destruct name as [name|]; [|by apply wlp_ret].
  apply wlp_bind, wlp_run. intros usable s1 Hrun.
  pose proof (keeps_usable_image module _ _ _ Hs Hrun) as Hs1.
  apply usable_image_spec in Hrun as [E1 Hspec]. destruct usable as [image|]; [|by apply wlp_ret].
  destruct (Hspec image eq_refl) as (object & Ho & Himage & Hv & _). rewrite <-E1 in Ho.
  destruct (find_index _ _) as [index|] eqn:Ef; [|by apply wlp_ret]. apply find_index_lt in Ef.
  do 3 (apply wlp_bind, wlp_below; intros [] ? _; cbn [negb]; [|apply wlp_ret; by destruct Hs1]).
  apply wlp_bind. eapply wlp_mono; [eapply (add_kernel_held module object index)|].
  - by destruct Hs1.
  - done.
  - intros image' Hi' _. rewrite Himage in Hi'. by injection Hi' as <-.
  - intros k s2 [Hs2 _]. by apply wlp_ret.
Qed.

(** *** Destruction *)

(** A module that this thread has marked. *)
Lemma mark_module module object s :
  modules_held H s -> module ∉ H -> module ∈ g_modules (ms s) -> rt_modules (ms s) !! module = Some object ->
  modules_held (H ∪ {[module]}) (set_g_module_state
    (set_rt_modules (<[module := set_md_destroying true object]> (rt_modules (ms s))) (ms s)) s).
Proof.
  intros [Hwf Hm] Hn Hreg Ho.
  destruct (modules_update module ∅ (set_md_destroying true) (ms s) object) as [U1 U2]; [done|done|done|done|by apply harmless_same|].
  split; [exact U1|]. intros m [Hin| ->%elem_of_singleton]%elem_of_union; [by apply U2|].
  split; [done|]. eexists. split; [apply lookup_insert_eq|done].
Qed.

Lemma keep_module_held module status s :
  modules_held (H ∪ {[module]}) s -> module ∉ H -> wlp (keep_module module status) (fun _ => modules_held H) s.
Proof.
  intros [Hwf Hm] Hn. apply wlp_bind, wlp_update_module. intros object Ho. apply wlp_ret.
  assert (marked H (ms s)) as Hm' by (intros m Hin; apply Hm; set_solver).
  destruct (modules_update module ∅ (set_md_destroying false) (ms s) object) as [U1 U2]; [done|done|done|done|by apply harmless_same|].
  by split.
Qed.

(** What [lr_module_destroy] does behind its wait. *)
Lemma finish_destroy_held module s :
  modules_held (H ∪ {[module]}) s -> module ∉ H ->
  wlp (status ← release_direct_kfd_module_resources module;
       if negb (succeeded status) then keep_module module status
       else modify_modules (fun g => set_g_modules (g_modules g ∖ {[module]}) g) ;; mret Success)
    (fun _ => modules_held H) s.
Proof.
  intros Hs Hn. apply wlp_bind. eapply wlp_mono; [apply release_resources_spec|]. intros result s4 R. cbv beta in R.
  destruct (mh_marked _ _ Hs module) as [Hreg _]; [set_solver|]. destruct (succeeded result) eqn:Er; cbn [negb].
  - apply wlp_bind, wlp_modify, wlp_ret. destruct (released_facts _ _ _ R (mw_heap _ _ (mh_wf _ _ Hs))) as (_ & F2 & _ & _ & _ & F6).
    split; [eapply released_registered; [exact R|apply Hs|exact Hreg]|].
    eapply (marked_other H (ms s) _ module); [|exact Hn| |exact F6].
    + intros m Hin. apply (mh_marked _ _ Hs). set_solver.
    + intros m Hne Hin. cbn. rewrite F2. set_solver.
  - apply keep_module_held; [|done]. destruct Hs as [Hwf Hm]. split; [by eapply tweaked_wf|by eapply tweaked_marked].
Qed.

(** While [lr_module_destroy] waits, the others keep the module it has marked. *)
Lemma module_destroy_held module s :
  (forall m, module = Some m -> m ∉ H -> respects_modules (H ∪ {[m]}) other_threads) ->
  modules_held H s -> wlp (lr_module_destroy module) (fun _ => modules_held H) s.
Proof.
  intros Hmark Hs. apply wlp_bind, wlp_gets. destruct (g_initialized s); cbn [negb]; [|by apply wlp_ret].
  destruct module as [module|]; [|by apply wlp_ret]. apply wlp_bind, wlp_gets.
  destruct (bool_decide _) eqn:Eb; cbn [negb]; [|by apply wlp_ret]. apply bool_decide_eq_true in Eb.
  apply wlp_bind, wlp_get_module. intros object Ho.
  apply wlp_bind, wlp_quiet; [apply quiet_device_opened|]. intros opened s1 E1.
  assert (modules_held H s1) as Hs1 by (destruct Hs; split; by rewrite E1). rewrite <-E1 in Eb, Ho.
  destruct (md_destroying object) eqn:Ed; [by apply wlp_ret|]. destruct (negb opened); [by apply wlp_ret|]. cbn [orb].
  assert (module ∉ H) as Hn.
  { intros Hin. destruct (mh_marked _ _ Hs1 _ Hin) as [_ (o & Hl & Hd)]. congruence. }
  apply wlp_bind, wlp_update_module. intros object' Ho'. rewrite Ho in Ho'. injection Ho' as <-.
  pose proof (mark_module module object s1 Hs1 Hn Eb Ho) as Hs2. clear E1 Hs.
  pose proof (modules_held_about (H ∪ {[module]}) (Hmark module eq_refl Hn)) as HP'.
  apply wlp_bind. eapply (wlp_keeps (modules_held (H ∪ {[module]}))); [by apply keeps_synchronize_device, about_core_view|exact Hs2|].
  intros status s3 Hs3. destruct (succeeded status) eqn:Es; cbn [negb]; [by apply finish_destroy_held|by apply keep_module_held].
Qed.
End invariant.
