(* ===== verification/RuntimeApi.v ===== *)
(** * The runtime as a whole

    The direct KFD branches of [src/runtime.cpp]: initialisation, which opens
    a session and selects the one GPU it supports, opening and describing a
    device, and the shutdown, which waits for everything and releases it in
    order; a shutdown that cannot finish leaves the runtime initialised, to be
    tried again. *)

From stdpp Require Import gmap.
From S2P Require Import Prelude Memory CodeObject ExecutableImage Topology AqlQueue KfdProducer Signal KfdKernel MemoryState RuntimeState DirectQueue DirectLaunch DirectApi DirectEvents MemoryRegistry MemoryCopy Modules.

Import LrStatus.

Definition lr_status_string (status : LrStatus.t) : string :=
  match status with
  | Success => "success"
  | InvalidArgument => "invalid argument"
  | NotInitialized => "runtime is not initialized"
  | AlreadyInitialized => "runtime is already initialized"
  | NotSupported => "operation is not supported by this build"
  | RuntimeError => "runtime error"
  | DeviceFault => "device fault"
  end.

(** What initialisation asks of the transport. *)
Class Platform (W : Type) := {
  (** [KfdSession::open], and the end of a session object. *)
  p_open_session : W -> bool * W;
  p_close_session : W -> W;
  (** [discover_topology]; [None] is an error. *)
  p_discover_topology : W -> option Topology * W;
  (** [KfdSession::acquire_vm] *)
  p_acquire_vm : Node -> W -> bool * W
}.

(** [lr_device_properties_t] *)
Record lr_device_properties_t := mkDeviceProperties {
  dp_compute_unit_count : Z;
  dp_wavefront_size : Z;
  dp_maximum_waves_per_compute_unit : Z;
  dp_maximum_workgroup_size : Z;
  dp_group_segment_size : Z
}.

Definition no_device_properties : lr_device_properties_t := mkDeviceProperties 0 0 0 0 0.

(** [DeviceState{}] with its node *)
Definition new_device (node : Node) : DeviceState := mkDevice node false None [] [] None no_stats.

(** The bytes [std::strncpy] writes: the name, then zeros. *)
Definition name_buffer (name : string) (size : nat) : bytes :=
  take size (String.list_byte_of_string name ++ replicate size Byte.x00).

Section runtime_api.
Context {W : Type} `{!Transport W, !MemoryTransport W, !Platform W, !Threads W}.

Abbreviation M := (kfd (runtime W)).

(** ** Initialisation *)

(** [g_initialized.store(false); return status;], and the session object goes. *)
Definition init_failed (opened : bool) (status : LrStatus.t) : M LrStatus.t :=
  modify (set_g_initialized false) ;;
  (if opened then below_ p_close_session else mret tt) ;;
  mret status.

Definition lr_init : M LrStatus.t :=
  initialized ← gets g_initialized;
  if (initialized : bool) then mret AlreadyInitialized
  else
    modify (set_g_initialized true) ;;
    opened ← below p_open_session;
    if negb opened then init_failed false RuntimeError
    else
      discovered ← below p_discover_topology;
      match discovered with
      | None => init_failed true RuntimeError
      | Some topology =>
          let selected := select_unique_gpu topology "gfx1101" in
          match gs_error selected with
          | GpuSelectionError.None =>
              match topo_nodes topology !! gs_node_index selected with
              | None => failed_assert
              | Some node =>
                  modify (fun s => set_g_kfd_session true (set_g_devices [new_device node] s)) ;;
                  mret Success
              end
          | _ => init_failed true NotSupported
          end
      end.

(** ** Devices *)

(** The second component is what [*count] holds. *)
Definition lr_device_count : M (LrStatus.t * Z) :=
  initialized ← gets g_initialized;
  if negb initialized then mret (NotInitialized, 0)
  else
    count ← gets (fun s => Z.of_nat (length (g_devices s)));
    mret (Success, to_u32 count).

Definition lr_device_open (index : Z) : M LrStatus.t :=
  initialized ← gets g_initialized;
  if negb initialized then mret NotInitialized
  else
    known ← device_in_range index;
    if negb known then mret InvalidArgument
    else
      state ← get_device index;
      session ← gets g_kfd_session;
      acquired ← (if ds_opened state then mret true
                  else if (session : bool) then below (p_acquire_vm (ds_node state)) else mret false);
      if negb acquired then mret RuntimeError
      else
        status ← match ds_default_queue state with
          | Some _ => mret Success
          | None =>
              '(status, created) ← create_direct_kfd_queue index true;
              match created with
              | Some queue => update_device index (set_ds_default_queue (Some queue))
              | None => mret tt
              end ;;
              mret status
          end;
        if negb (succeeded status) then mret status
        else update_device index (set_ds_opened true) ;; mret Success.

(** The caller's buffer after the call; it has at least one byte. *)
Definition lr_device_name (device : Z) (name : bytes) : M (LrStatus.t * bytes) :=
  if size_of name =? 0 then mret (InvalidArgument, name)
  else
    initialized ← gets g_initialized;
    if negb initialized then mret (NotInitialized, name)
    else
      known ← device_in_range device;
      if negb known then mret (InvalidArgument, name)
      else
        state ← get_device device;
        let node := ds_node state in
        let device_name :=
          if String.eqb (node_name node) "" then gfx_target_name (node_architecture node)
          else node_name node in
        if Z.of_nat (String.length device_name) + 1 >? size_of name then
          mret (InvalidArgument, <[0%nat := Byte.x00]> name)
        else
          mret (Success, <[(length name - 1)%nat := Byte.x00]> (name_buffer device_name (length name))).

Definition lr_device_get_properties (device : Z) : M (LrStatus.t * lr_device_properties_t) :=
  initialized ← gets g_initialized;
  if negb initialized then mret (NotInitialized, no_device_properties)
  else
    known ← device_in_range device;
    if negb known then mret (InvalidArgument, no_device_properties)
    else
      state ← get_device device;
      let node := ds_node state in
      let maximum_waves := u64_mul (node_maximum_waves_per_simd node) (node_simd_per_compute_unit node) in
      if maximum_waves >? UINT32_MAX then mret (RuntimeError, no_device_properties)
      else
        mret (Success, mkDeviceProperties (compute_unit_count node) (node_wavefront_size node)
          (to_u32 maximum_waves) 1024 (u64_mul (node_lds_size_kb node) 1024)).

Definition lr_synchronize (device : Z) : M LrStatus.t :=
  initialized ← gets g_initialized;
  if negb initialized then mret NotInitialized
  else
    known ← device_in_range device;
    if negb known then mret InvalidArgument
    else
      state ← get_device device;
      if negb (ds_opened state) || bool_decide (ds_default_queue state = None) then
        mret InvalidArgument
      else synchronize_direct_kfd_device device.

(** ** Shutdown *)

(** The loop over the devices: all are synchronized, the first failure is
    reported. *)
Fixpoint synchronize_devices (devices : list Z) (result : LrStatus.t) : M LrStatus.t :=
  match devices with
  | [] => mret result
  | device :: devices =>
      status ← synchronize_direct_kfd_device_locked device;
      synchronize_devices devices (first_failure result status)
  end.

(** [if (release_status != LR_SUCCESS) { g_initialized.store(true); return ...; }] *)
Definition or_stay (status : LrStatus.t) (k : M LrStatus.t) : M LrStatus.t :=
  if negb (succeeded status) then modify (set_g_initialized true) ;; mret status else k.

(** The release, in the order of the source, once nobody else is inside. *)
Definition release_everything : M LrStatus.t :=
  count ← gets (fun s => length (g_devices s));
  status ← synchronize_devices (Z.of_nat <$> seq 0 count) Success;
  or_stay status (
  status ← release_direct_kfd_copy_states_locked Success;
  or_stay status (
  status ← release_modules_locked Success;
  or_stay status (
  status ← release_direct_kfd_events_locked Success;
  or_stay status (
  status ← release_direct_kfd_queues_locked Success;
  or_stay status (
  status ← release_memory_allocations_locked Success;
  or_stay status (
  modify (fun s => set_g_kfd_session false (set_g_devices [] s)) ;;
  below_ p_close_session ;;
  mret Success)))))).

Definition lr_shutdown : M LrStatus.t :=
  initialized ← gets g_initialized;
  if negb initialized then mret NotInitialized
  else
    modify (set_g_initialized false) ;;
    wait_for_all_direct_kfd_queue_operations_locked ;;
    wait_for_all_direct_kfd_event_operations_locked ;;
    wait_for_all_light_rocr_memory_operations_locked ;;
    release_everything.
End runtime_api.
