(* ===== verification/Shutdown.v ===== *)
(** * The shutdown leaves nothing behind

    Each step of the release of [RuntimeApi], what it removes and what it
    leaves alone. *)

From stdpp Require Import gmap.
From S2P Require Import Prelude Memory CodeObject ElfReader ExecutableImage Topology AqlQueue KfdProducer Signal KfdKernel MemoryState RuntimeState DirectQueue DirectLaunch DirectApi DirectEvents RuntimeFacts MemoryRegistry MemoryCopy MemoryFrame MemoryBooks MemoryCalls MemoryProperties Modules ModuleFacts RuntimeApi.

Import LrStatus.

(** Nobody else is inside: the lock is held throughout. *)
Definition nobody (W : Type) : Threads W := fun s => s.

Section shutdown.
Context {W : Type} `{!Transport W, !MemoryTransport W, !Platform W, !OrderLaw W, !ImageLaw W}.
Abbreviation M := (kfd (runtime W)).
Implicit Type s : runtime W.
Local Existing Instance nobody.

(** A property of the view survives what does not wait for other threads. *)
Lemma alone_view (P : runtime W -> Prop) : (forall s s', view s' = view s -> P s -> P s') -> about_view P.
Proof. intros H. by split. Qed.

Lemma alone_core (P : runtime W -> Prop) : (forall s s', core s' = core s -> P s -> P s') -> about_core P.
Proof. intros H. by split. Qed.

Lemma about_view_is (x : _) : about_view (fun s : runtime W => view s = x).
Proof. apply alone_view. congruence. Qed.

Lemma about_core_is (x : _) : about_core (fun s : runtime W => core s = x).
Proof. apply alone_core. congruence. Qed.

Lemma wlp_view {A} (m : M A) (Q : A -> runtime W -> Prop) s :
  (forall x, keeps (fun s => view s = x) m) -> (forall a s', view s' = view s -> Q a s') -> wlp m Q s.
Proof. intros Hk HQ a s' E. apply HQ. by eapply (Hk (view s) s). Qed.

Lemma wlp_core {A} (m : M A) (Q : A -> runtime W -> Prop) s :
  (forall x, keeps (fun s => core s = x) m) -> (forall a s', core s' = core s -> Q a s') -> wlp m Q s.
Proof. intros Hk HQ a s' E. apply HQ. by eapply (Hk (core s) s). Qed.

Abbreviation lists s := (ds_queues <$> g_devices s).

Lemma view_parts s s' : view s' = view s -> core s' = core s /\ g_queues s' = g_queues s /\ lists s' = lists s.
Proof. unfold view. intros E. split_and!; congruence. Qed.

(** ** Devices and copy states *)

Lemma synchronize_devices_view devices result x :
  keeps (fun s => view s = x) (synchronize_devices devices result).
Proof.
  pose proof (about_view_is x) as HP. revert result. induction devices as [|d devices IH]; intros result;
    cbn [synchronize_devices]; [apply keeps_ret|]. apply keeps_bind; [|intros status; apply IH].
  unfold synchronize_direct_kfd_device_locked. keeps.
  match goal with |- keeps _ (synchronize_queues ?l) => induction l; cbn [synchronize_queues]; keeps end.
Qed.

Lemma release_copy_states_view result x :
  keeps (fun s => view s = x) (release_direct_kfd_copy_states_locked result).
Proof.
  pose proof (about_view_is x) as HP. unfold release_direct_kfd_copy_states_locked. keeps.
  match goal with |- keeps _ (release_copy_states ?l _) => generalize l; intros devices end.
  revert result. induction devices; intros result; cbn [release_copy_states]; keeps.
  unfold release_copy_state. keeps.
Qed.

(** ** Events *)

Lemma failure_propagates result status : first_failure result status = Success -> result = Success /\ status = Success.
Proof. unfold first_failure. destruct (succeeded result) eqn:E; [|by intros ->]. intros ->. by apply bool_decide_eq_true in E. Qed.

Lemma release_events_spec events result s :
  wlp (release_events events result) (fun result' s' =>
    (result' = Success -> result = Success /\ g_events s' = g_events s ∖ list_to_set events) /\
    books s' = books s /\ g_module_state s' = g_module_state s /\ g_queues s' = g_queues s /\
    lists s' = lists s /\ g_initialized s' = g_initialized s) s.
Proof.
  revert result s. induction events as [|e events IH]; intros result s; cbn [release_events].
  { apply wlp_ret. split_and!; try done. intros ->. split; [done|]. set_solver. }
  apply wlp_bind, wlp_run. intros object s1 E1.
  assert (s1 = s) as ->.
  { unfold get_event, dereference in E1. destruct (_ !! e); [|done]. by injection E1. }
  clear E1. apply wlp_bind, wlp_below. intros [released signal] w _. destruct released.
  - apply wlp_bind, wlp_modify. eapply wlp_mono; [apply IH|]. intros result' s' (H1 & H2 & H3 & H4 & H5 & H6).
    split_and!; try done. intros Hr. destruct (H1 Hr) as [-> He]. split; [done|]. rewrite He. cbn. set_solver.
  - apply wlp_bind, wlp_run. intros ? s2 E2. unfold update_event, mbind, kfd_bind, get_event, dereference in E2.
    cbn in E2. destruct (rt_events s !! e); [|done]. injection E2 as _ <-.
    eapply wlp_mono; [apply IH|]. intros result' s' (H1 & H2 & H3 & H4 & H5 & H6). split_and!; try done.
    intros Hr. destruct (H1 Hr) as [Hf _]. by destruct (failure_propagates _ _ Hf).
Qed.

(** ** Queues *)

Lemma lists_device s i device f :
  g_devices s !! i = Some device ->
  lists (set_g_devices (<[i := f device]> (g_devices s)) s) = <[i := ds_queues (f device)]> (lists s).
Proof. intros Hd. cbn. by rewrite list_fmap_insert. Qed.

Lemma delete_queue_spec queue s :
  wlp (delete_queue queue) (fun _ s' => core s' = core s /\ lists s' = lists s /\
    g_queues s' = g_queues s ∖ {[queue]}) s.
Proof.
  unfold delete_queue. apply wlp_bind, wlp_view; [intros x; apply keeps_dereference|]. intros object s1 E1.
  apply wlp_bind, wlp_view; [intros x; apply keeps_release_dispatches, about_view_is|]. intros [all kept] s2 E2.
  apply wlp_bind, wlp_view; [intros x; apply keeps_release_arenas, about_view_is|]. intros [all' kept'] s3 E3.
  apply wlp_modify. rewrite E2, E1 in E3. apply view_parts in E3 as (Ec & Eq & El).
  split_and!; [exact Ec|exact El|]. cbn. by rewrite Eq.
Qed.

Lemma get_device_run index state s s1 :
  get_device index s = Ok (state, s1) -> g_devices s !! Z.to_nat index = Some state /\ s1 = s /\ 0 <= index.
Proof.
  unfold get_device. destruct (g_devices s !! _); [|done]. destruct (0 <=? index) eqn:E; [|done].
  intros [= <- <-]. split_and!; [done|done|lia].
Qed.

Lemma update_device_run index f s u s1 :
  update_device index f s = Ok (u, s1) -> exists state, g_devices s !! Z.to_nat index = Some state /\
    s1 = set_g_devices (<[Z.to_nat index := f state]> (g_devices s)) s /\ 0 <= index.
Proof.
  unfold update_device, mbind, kfd_bind. destruct (get_device index s) as [[state s2]|[]|] eqn:E; [|done].
  apply get_device_run in E as (Hd & -> & Hi). intros [= _ <-]. by exists state.
Qed.

(** What is removed from the queues of a device. *)
Lemma release_device_queues_spec fuel device index result queues s :
  lists s !! device = Some queues ->
  wlp (release_device_queues fuel (Z.of_nat device) index result) (fun result' s' =>
    core s' = core s /\ (result' = Success -> result = Success /\
      lists s' = <[device := take index queues]> (lists s) /\
      g_queues s' = g_queues s ∖ list_to_set (drop index queues))) s.
Proof.
  revert index result queues s. induction fuel as [|fuel IH]; intros index result queues s Hq; cbn [release_device_queues].
  - apply wlp_bind, wlp_run. intros state s1 (Hs & -> & _)%get_device_run. rewrite Nat2Z.id in Hs.
    rewrite list_lookup_fmap, Hs in Hq. injection Hq as <-. destruct (ds_queues state !! index) eqn:E; [by intros a s'|].
    apply wlp_ret. apply lookup_ge_None_1 in E. split; [done|]. intros ->. split; [done|].
    rewrite take_ge, drop_ge by done. split; [|set_solver]. rewrite list_insert_id; [done|]. by rewrite list_lookup_fmap, Hs.
  - apply wlp_bind, wlp_run. intros state s1 (Hs & -> & _)%get_device_run. rewrite Nat2Z.id in Hs.
    rewrite list_lookup_fmap, Hs in Hq. injection Hq as <-. destruct (ds_queues state !! index) as [queue|] eqn:E.
    2: { apply wlp_ret. apply lookup_ge_None_1 in E. split; [done|]. intros ->. split; [done|].
      rewrite take_ge, drop_ge by done. split; [|set_solver]. rewrite list_insert_id; [done|]. by rewrite list_lookup_fmap, Hs. }
    apply wlp_bind, wlp_view; [intros x; apply keeps_synchronize_queue, about_view_is|]. intros status s1 E1.
    apply wlp_bind, wlp_view.
    { intros x. destruct (succeeded status); [apply keeps_release_resources, about_view_is|apply keeps_ret]. }
    intros status2 s2 E2. rewrite E1 in E2. apply view_parts in E2 as (Ec & Eq & El).
    assert (lists s2 !! device = Some (ds_queues state)) as Hl2 by by rewrite El, list_lookup_fmap, Hs.
    destruct (succeeded status2) eqn:Es; cbn [negb].
    + match goal with |- context [update_device _ ?g] => set (f := g) end.
      assert (forall d, ds_memory_stats (f d) = ds_memory_stats d /\ ds_queues (f d) = delete index (ds_queues d)) as Hf
        by (intros d; unfold f; by destruct (bool_decide _)).
      apply wlp_bind, wlp_run. intros ? s3 (state2 & Hs2 & -> & _)%update_device_run. rewrite Nat2Z.id in *.
      rewrite list_lookup_fmap, Hs2 in Hl2. injection Hl2 as Hl2. set (s3 := set_g_devices _ s2).
      assert (lists s3 = <[device := delete index (ds_queues state)]> (lists s)) as El3.
      { unfold s3. rewrite lists_device by done. by rewrite El, (proj2 (Hf state2)), Hl2. }
      assert (core s3 = core s) as Ec3.
      { unfold s3. rewrite core_device; [done| |done]. intros d. apply Hf. }
      apply wlp_bind. eapply wlp_mono; [apply delete_queue_spec|]. intros ? s4 (F1 & F2 & F3).
      assert (device < length (lists s))%nat as Hlen by (rewrite length_fmap; by eapply lookup_lt_Some).
      eapply wlp_mono; [apply (IH index result (delete index (ds_queues state)))|].
      { rewrite F2, El3. by apply list_lookup_insert_eq. }
      intros result' s' [G1 G2]. split; [congruence|]. intros Hr. destruct (G2 Hr) as (-> & G3 & G4).
      split_and!; [done| |].
      * rewrite G3, F2, El3, list_insert_insert_eq. f_equal.
        rewrite delete_take_drop. apply take_app_length'. rewrite length_take. apply lookup_lt_Some in E. lia.
      * rewrite G4, F3. change (g_queues s3) with (g_queues s2). rewrite Eq, (drop_S _ _ _ E).
        rewrite delete_take_drop, drop_app_length'; [cbn; set_solver|].
        rewrite length_take. apply lookup_lt_Some in E. lia.
    + eapply wlp_mono; [apply (IH (S index) (first_failure result status2) (ds_queues state)); by rewrite El, list_lookup_fmap, Hs|].
      intros result' s' [G1 G2]. split; [congruence|]. intros Hr. destruct (G2 Hr) as [Hf _].
      apply failure_propagates in Hf as [_ ->]. done.
Qed.

Lemma release_queues_of_spec (devices : list nat) result s :
  NoDup devices ->
  wlp (release_queues_of (Z.of_nat <$> devices) result) (fun result' s' => core s' = core s /\
    (result' = Success -> result = Success /\ g_queues s' ⊆ g_queues s /\
      forall i queues q, i ∈ devices -> lists s !! i = Some queues -> q ∈ queues -> q ∉ g_queues s')) s.
Proof.
  revert result s. induction devices as [|d devices IH]; intros result s Hnd; cbn [fmap list_fmap release_queues_of].
  { apply wlp_ret. split; [done|]. intros ->. split_and!; [done|done|]. intros i queues q Hi. by apply not_elem_of_nil in Hi. }
  apply NoDup_cons in Hnd as [Hd Hnd]. apply wlp_bind, wlp_run. intros state s1 (Hs & -> & _)%get_device_run.
  rewrite Nat2Z.id in Hs. assert (lists s !! d = Some (ds_queues state)) as Hl by by rewrite list_lookup_fmap, Hs.
  apply wlp_bind. eapply wlp_mono; [by apply release_device_queues_spec|]. intros result1 s1 [F1 F2].
  eapply wlp_mono; [by apply IH|]. intros result' s' [G1 G2]. split; [congruence|]. intros Hr.
  destruct (G2 Hr) as (-> & G3 & G4). destruct (F2 eq_refl) as (-> & F3 & F4). rewrite drop_0 in F4.
  split_and!; [done|set_solver|]. intros i queues q Hi Hq Hin. apply elem_of_cons in Hi as [->|Hi].
  - rewrite Hl in Hq. injection Hq as <-. set_solver.
  - apply (G4 i queues q Hi); [|done]. rewrite F3, list_lookup_insert_ne; [done|]. congruence.
Qed.

(** Every registered queue is in the list of a device. *)
Definition listed s : Prop := forall q, q ∈ g_queues s ->
  exists i queues, lists s !! i = Some queues /\ q ∈ queues.

Lemma release_queues_spec result s :
  listed s ->
  wlp (release_direct_kfd_queues_locked result) (fun result' s' => core s' = core s /\
    (result' = Success -> result = Success /\ g_queues s' = ∅)) s.
Proof.
  intros Hlisted. apply wlp_bind, wlp_gets. eapply wlp_mono; [apply release_queues_of_spec, NoDup_seq|].
  intros result' s' [F1 F2]. split; [done|]. intros Hr. destruct (F2 Hr) as (-> & F3 & F4). split; [done|].
  apply set_eq. intros q. split; [|set_solver]. intros Hq. exfalso. destruct (Hlisted q) as (i & queues & Hi & Hin); [set_solver|].
  apply (F4 i queues q); [|done|done|done]. apply elem_of_seq. apply lookup_lt_Some in Hi. rewrite length_fmap in Hi. lia.
Qed.

(** ** Modules *)

(** Releasing modules leaves everything else. *)
Definition rest s := (books s, g_events s, g_queues s, lists s, g_initialized s, g_kfd_session s).

Lemma about_rest x : about_view (fun s : runtime W => rest s = x).
Proof. apply alone_view. unfold view, core, rest. intros s s' E. intros <-. congruence. Qed.

Lemma keeps_modules_modify f x : keeps (fun s : runtime W => rest s = x) (modify_modules f).
Proof. by intros s a s' <- [= _ <-]. Qed.

Lemma keeps_module_resources module x :
  keeps (fun s => rest s = x) (release_direct_kfd_module_resources module).
Proof.
  pose proof (about_rest x) as HP. pose proof (fun f => keeps_modules_modify f x) as Hm.
  unfold release_direct_kfd_module_resources, release_cache_operation, release_module_image,
    destroy_module_handles, update_module, get_module, get_queue. keeps.
  match goal with |- keeps _ (delete_kernels ?l) => induction l; cbn [delete_kernels] end; keeps.
  unfold delete_kernel, get_kernel. keeps.
Qed.

Lemma release_modules_locked_rest result x : keeps (fun s => rest s = x) (release_modules_locked result).
Proof.
  pose proof (about_rest x) as HP. pose proof (fun f => keeps_modules_modify f x) as Hm.
  pose proof (fun m => keeps_module_resources m x) as Hr. unfold release_modules_locked. keeps.
  - match goal with |- keeps _ (release_modules ?l _) => generalize l; intros modules end.
    revert result. induction modules; intros result; cbn [release_modules]; keeps.
  - match goal with |- keeps _ (release_cleanup_owners ?f ?i ?r) => generalize f, i, r; intros fuel end.
    induction fuel; intros index status; cbn [release_cleanup_owners]; keeps.
Qed.

Abbreviation ms s := (g_module_state s).

Lemma tweaked_registers module g g' :
  tweaked module g g' -> g_modules g' = g_modules g /\ g_module_cleanup_owners g' = g_module_cleanup_owners g.
Proof. by intros (o & o' & _ & -> & _). Qed.

Lemma release_modules_spec modules result s :
  modules_wf ∅ (ms s) -> NoDup modules -> (forall m, m ∈ modules -> m ∈ g_modules (ms s)) ->
  wlp (release_modules modules result) (fun result' s' => modules_wf ∅ (ms s') /\
    g_module_cleanup_owners (ms s') = g_module_cleanup_owners (ms s) /\
    (result' = Success -> result = Success /\ g_modules (ms s') = g_modules (ms s) ∖ list_to_set modules)) s.
Proof.
  revert result s. induction modules as [|m modules IH]; intros result s Hwf Hnd Hin; cbn [release_modules].
  { apply wlp_ret. split_and!; [done|done|]. intros ->. split; [done|]. set_solver. }
  apply NoDup_cons in Hnd as [Hm Hnd]. apply wlp_bind. eapply wlp_mono; [apply release_resources_spec|].
  intros status s1 R. cbv beta in R. destruct (succeeded status) eqn:Es; cbn [negb].
  - pose proof (released_registered _ _ _ R Hwf ltac:(apply Hin; by left)) as Hwf1.
    destruct (released_facts _ _ _ R (mw_heap _ _ Hwf)) as (_ & F2 & F3 & _).
    apply wlp_bind, wlp_modify. eapply wlp_mono; [apply IH; [exact Hwf1|done|]|].
    + intros m' Hm'. cbn. rewrite F2. apply elem_of_difference. split; [apply Hin; by right|]. set_solver.
    + intros result' s' (G1 & G2 & G3). split_and!; [done|by rewrite G2|]. intros Hr. destruct (G3 Hr) as [-> G4].
      split; [done|]. rewrite G4. cbn. rewrite F2. set_solver.
  - destruct (tweaked_registers _ _ _ R) as [E1 E2].
    eapply wlp_mono; [apply IH; [by eapply tweaked_wf|done|]|].
    + intros m' Hm'. rewrite E1. apply Hin. by right.
    + intros result' s' (G1 & G2 & G3). split_and!; [done|congruence|]. intros Hr. destruct (G3 Hr) as [Hf _].
      apply failure_propagates in Hf as [_ ->]. done.
Qed.

Lemma release_cleanup_owners_spec fuel index result s :
  modules_wf ∅ (ms s) ->
  wlp (release_cleanup_owners fuel index result) (fun result' s' => modules_wf ∅ (ms s') /\
    g_modules (ms s') = g_modules (ms s) /\ (result' = Success -> result = Success /\
      g_module_cleanup_owners (ms s') = take index (g_module_cleanup_owners (ms s)))) s.
Proof.
  revert index result s. induction fuel as [|fuel IH]; intros index result s Hwf; cbn [release_cleanup_owners];
    apply wlp_bind, wlp_gets; destruct (_ !! index) as [m|] eqn:E; try (by intros a s');
    try (apply wlp_ret; split_and!; [done|done|]; intros ->; split; [done|]; by rewrite take_ge by (by apply lookup_ge_None_1)).
  apply wlp_bind. eapply wlp_mono; [apply release_resources_spec|].
  intros status s1 R. cbv beta in R. destruct (succeeded status) eqn:Es; cbn [negb].
  - pose proof (released_owner _ _ _ _ R Hwf E) as Hwf1.
    destruct (released_facts _ _ _ R (mw_heap _ _ Hwf)) as (_ & F2 & F3 & _).
    apply wlp_bind, wlp_modify. eapply wlp_mono; [apply IH; exact Hwf1|]. intros result' s' (G1 & G2 & G3).
    split_and!; [done|by rewrite G2|]. intros Hr. destruct (G3 Hr) as [-> G4]. split; [done|]. rewrite G4. cbn.
    unfold erase. rewrite F3, delete_take_drop. apply take_app_length'. rewrite length_take. apply lookup_lt_Some in E. lia.
  - destruct (tweaked_registers _ _ _ R) as [E1 E2]. eapply wlp_mono; [apply IH; by eapply tweaked_wf|].
    intros result' s' (G1 & G2 & G3). split_and!; [done|congruence|]. intros Hr. destruct (G3 Hr) as [Hf _].
    apply failure_propagates in Hf as [_ ->]. done.
Qed.

(** No module, no handle. *)
Lemma no_modules_left g :
  modules_wf ∅ g -> g_modules g = ∅ -> g_module_cleanup_owners g = [] -> g = no_modules.
Proof.
  intros [[H1 H2 _ _] [H3 _ _ _]] Hm Ho. rewrite Hm, Ho in H3.
  assert (rt_modules g = ∅) as Hr by (apply dom_empty_inv_L; set_solver).
  assert (rt_kernels g = ∅) as Hk.
  { apply map_empty. intros k. destruct (rt_kernels g !! k) as [kernel|] eqn:E; [|done].
    destruct (H2 k kernel E) as (object & Hl & _). rewrite Hr, lookup_empty in Hl. done. }
  assert (g_kernels g = ∅) as Hg.
  { apply set_eq. intros k. rewrite H1, Hk, lookup_empty. split; [by intros [? ?]|set_solver]. }
  destruct g; cbn in *. by subst.
Qed.

Lemma release_modules_locked_spec result s :
  modules_wf ∅ (ms s) ->
  wlp (release_modules_locked result) (fun result' s' => modules_wf ∅ (ms s') /\ rest s' = rest s /\
    (result' = Success -> result = Success /\ ms s' = no_modules)) s.
Proof.
  intros Hwf. apply wlp_run. intros result' s' Hrun.
  pose proof (release_modules_locked_rest result (rest s) s _ _ eq_refl Hrun) as Hrest.
  assert (wlp (release_modules_locked result) (fun result' s' => modules_wf ∅ (ms s') /\
    (result' = Success -> result = Success /\ ms s' = no_modules)) s) as Hspec.
  { apply wlp_bind, wlp_gets, wlp_bind. eapply wlp_mono; [apply release_modules_spec; [done|apply NoDup_elements|]|].
    { intros m Hm. by apply elem_of_elements. }
    intros result1 s1 (G1 & G2 & G3). apply wlp_bind, wlp_gets.
    eapply wlp_mono; [by apply release_cleanup_owners_spec|]. intros result2 s2 (K1 & K2 & K3). split; [done|]. intros Hr.
    destruct (K3 Hr) as [-> K4]. destruct (G3 eq_refl) as [-> G4]. split; [done|].
    apply no_modules_left; [done| |by rewrite K4, take_0]. rewrite K2, G4. set_solver. }
  destruct (Hspec _ _ Hrun). by split_and!.
Qed.

(** ** Memory *)

(** The release of memory leaves the rest. *)
Definition others s := (g_module_state s, g_events s, g_queues s, g_initialized s).

Lemma release_memory_others result x : keeps (fun s => others s = x) (release_memory_allocations_locked result).
Proof.
  set (P := fun s : runtime W => others s = x).
  assert (about_view P) as HP.
  { apply alone_view. unfold P, view, core, others. intros s s' E Hs. congruence. }
  assert (forall f, keeps P (modify_memory f)) as Hm by by intros f s a s' Hs [= _ <-].
  assert (forall d f, keeps P (record_release d f)) as Hr.
  { intros d f. unfold record_release, device_in_range. apply keeps_bind; [apply keeps_gets|]. intros known.
    destruct known; [|apply keeps_ret]. by intros s a s' Hs (state & _ & -> & _)%update_device_run. }
  unfold release_memory_allocations_locked. keeps.
  - match goal with |- keeps _ (release_allocations ?l _) => generalize l; intros entries end.
    revert result. induction entries as [|[base info] entries IH]; intros result; cbn [release_allocations];
      unfold erase_allocation; keeps.
  - match goal with |- keeps _ (release_pending_cleanup ?l ?r) => generalize l, r; intros pending end.
    induction pending; intros status; cbn [release_pending_cleanup]; keeps.
  - match goal with |- keeps _ (release_host_allocations ?l ?r) => generalize l, r; intros entries end.
    induction entries as [|[base info] entries IH]; intros status; cbn [release_host_allocations];
      unfold erase_host_allocation; keeps.
Qed.
End shutdown.
