(* ===== verification/RuntimeProperties.v ===== *)
(** * Theorems about modules and the life of the runtime *)

From stdpp Require Import gmap.
From S2P Require Import Prelude Memory CodeObject ElfReader ExecutableImage Topology AqlQueue KfdProducer Signal KfdKernel MemoryState RuntimeState DirectQueue DirectLaunch DirectApi DirectEvents RuntimeFacts MemoryRegistry MemoryCopy MemoryFrame MemoryBooks MemoryCalls MemoryProperties Modules ModuleFacts RuntimeApi Shutdown.

Import LrStatus.

(** ** Modules *)

Inductive module_call :=
| LoadModule (device : Z) (image : option bytes) (size : Z)
| DestroyModule (module : option module_ptr)
| GetKernel (module : option module_ptr) (name : option string).

Section modules.
Context {W : Type} `{!Transport W, !MemoryTransport W, !Threads W, !ImageLaw W}.
Implicit Type s : runtime W.
Abbreviation ms s := (g_module_state s).

Definition run_module_call (call : module_call) : kfd (runtime W) LrStatus.t :=
  match call with
  | LoadModule device image size => '(status, _) ← lr_module_load_hsaco device image size; mret status
  | DestroyModule module => lr_module_destroy module
  | GetKernel module name => '(status, _) ← lr_kernel_get module name; mret status
  end.

(** What a call relies on while it does not hold the lock: the others keep
    the modules consistent, those in [H], and, once a destruction has marked
    its module, that one.  They may load, mark and destroy any other. *)
Definition module_relies (H : gset module_ptr) (call : module_call) : Prop :=
  respects_modules H other_threads /\
  match call with
  | DestroyModule (Some m) => m ∉ H -> respects_modules (H ∪ {[m]}) other_threads
  | _ => True
  end.

Lemma module_call_held H call s :
  module_relies H call -> modules_held H s -> wlp (run_module_call call) (fun _ => modules_held H) s.
Proof.
  intros [HT Hmark] Hs. destruct call as [device image size|module|module name]; cbn [run_module_call].
  - apply wlp_bind. eapply wlp_mono; [by apply module_load_held|]. intros [status m] s' Hs'. by apply wlp_ret.
  - apply module_destroy_held; [done| |done]. by intros m ->.
  - apply wlp_bind. eapply wlp_mono; [by apply kernel_get_held|]. intros [status k] s' Hs'. by apply wlp_ret.
Qed.
End modules.

Section module_runs.
Context {W : Type} `{!Transport W, !MemoryTransport W, !ImageLaw W}.
Implicit Type s : runtime W.

(** Calls of this thread that return, each beside its own other threads, and
    what the others do between them. *)
Inductive module_run (H : gset module_ptr) : runtime W -> runtime W -> Prop :=
| module_run_done s : module_run H s s
| module_run_call (threads : Threads W) call s status s1 s2 :
    module_relies H call -> run_module_call call s = Ok (status, s1) -> module_run H s1 s2 -> module_run H s s2
| module_run_others s s1 s2 :
    (modules_held H s -> modules_held H s1) -> module_run H s1 s2 -> module_run H s s2.

(** C11: modules and kernel handles stay consistent.  Over any sequence of
    loads, destructions and look-ups that return, on every path of each call,
    while other threads act between the calls and wherever a call gives up the
    lock: every kernel handle belongs to one module that lists it and names a
    kernel of its image, every module object is registered or waiting for
    cleanup and never both, and a module in [H], marked by some other thread
    for destruction, stays registered and marked.  Of the other threads it is
    asked that they keep the modules consistent, those in [H], and, while a
    destruction of this thread waits, the module it has marked; they may start
    and finish destructions of every other module meanwhile.  What is concluded
    for a thread is what the others rely on. *)
Theorem modules_kept H s s' :
  modules_held H s -> module_run H s s' -> modules_held H s'.
Proof.
  intros Hs Hrun. revert Hs.
  induction Hrun as [s|threads call s status s1 s2 Hrely Hcall Hrun IH|s s1 s2 Hothers Hrun IH]; intros Hs.
  - done.
  - apply IH. by eapply module_call_held.
  - by apply IH, Hothers.
Qed.
End module_runs.

Section handles.
Context {W : Type} `{!Transport W, !MemoryTransport W, !Threads W, !ImageLaw W}.
Implicit Type s : runtime W.
Abbreviation ms s := (g_module_state s).

(** The properties of a valid handle. *)
Lemma wp_kernel_properties k kernel module image info s :
  g_initialized s = true -> k ∈ g_kernels (ms s) -> rt_kernels (ms s) !! k = Some kernel ->
  kn_module kernel ∈ g_modules (ms s) -> rt_modules (ms s) !! kn_module kernel = Some module ->
  md_destroying module = false -> md_executable_image module = Some image -> ii_valid (li_info image) = true ->
  image_kernels image !! kn_image_kernel_index kernel = Some info ->
  wp (lr_kernel_get_properties k) (fun '(status, properties) s' => s' = s /\ status = Success /\
    properties = mkKernelProperties (ki_kernarg_size info) (ki_group_segment_size info)
      (ki_private_segment_size info)) s.
Proof.
  intros Hi Hk Hl Hm Hlm Hd Hmi Hv Hinfo. unfold lr_kernel_get_properties. apply wp_bind, wp_gets. rewrite Hi. cbn [negb].
  unfold valid_kernel_locked, kernel_info, get_kernel, get_module. apply wp_bind. apply wp_bind, wp_gets.
  rewrite bool_decide_eq_true_2 by done. cbn [negb]. apply wp_bind. eapply wp_dereference; [exact Hl|].
  rewrite bool_decide_eq_true_2 by done. cbn [negb]. apply wp_bind. eapply wp_dereference; [exact Hlm|].
  rewrite Hd, Hmi, Hv. apply wp_ret. cbn [negb andb]. apply wp_bind, wp_bind. eapply wp_dereference; [exact Hl|].
  apply wp_bind. eapply wp_dereference; [exact Hlm|]. rewrite Hmi.
  change (co_kernels _) with (image_kernels image). rewrite Hinfo. apply wp_ret. by apply wp_ret.
Qed.

Lemma usable_image_pure module s : keeps (fun s' => s' = s) (usable_image module).
Proof. unfold usable_image, device_opened, device_in_range, get_module. keeps. Qed.

Definition found_kernel module name s (k : kernel_ptr) s1 : Prop := exists object image index info,
  rt_modules (ms s) !! module = Some object /\ md_executable_image object = Some image /\
  find_index (named name) (image_kernels image) = Some index /\ image_kernels image !! index = Some info /\
  rt_kernels (ms s) !! k = None /\ rt_kernels (ms s1) !! k = Some (mkKernel module index) /\
  wp (lr_kernel_get_properties k) (fun '(status, properties) s2 => s2 = s1 /\ status = Success /\
    properties = mkKernelProperties (ki_kernarg_size info) (ki_group_segment_size info)
      (ki_private_segment_size info)) s1.

Lemma kernel_get_spec module name s :
  wlp (lr_kernel_get (Some module) (Some name)) (fun '(status, found) s1 => forall k,
    status = Success -> found = Some k -> found_kernel module name s k s1) s.
Proof.
  apply wlp_bind, wlp_gets. destruct (g_initialized s) eqn:Hinit; cbn [negb]; [|by apply wlp_ret].
  apply wlp_bind, wlp_run. intros usable s1 Hrun.
  pose proof (usable_image_pure module s _ _ _ eq_refl Hrun) as ->.
  apply usable_image_spec in Hrun as [_ Hspec]. destruct usable as [image|]; [|by apply wlp_ret].
  destruct (Hspec image eq_refl) as (object & Ho & Himage & Hv & Hreg & Hdes).
  change (co_kernels _) with (image_kernels image).
  destruct (find_index _ _) as [index|] eqn:Ef; [|by apply wlp_ret].
  destruct (lookup_lt_is_Some_2 (image_kernels image) index) as [info Hinfo]; [by eapply find_index_lt|].
  do 3 (apply wlp_bind, wlp_below; intros [] ? _; cbn [negb]; [|by apply wlp_ret]).
  apply wlp_bind. unfold add_kernel. apply wlp_bind, wlp_gets, wlp_bind, wlp_modify, wlp_bind, wlp_update_module. cbn.
  intros object' Ho'. rewrite Ho in Ho'. injection Ho' as <-. apply wlp_ret, wlp_ret. intros k _ [= <-].
  set (k := fresh (dom (rt_kernels (ms s)))). assert (k ∉ dom (rt_kernels (ms s))) as Hk%not_elem_of_dom by apply is_fresh.
  exists object, image, index, info. cbn. rewrite lookup_insert_eq. split_and!; try done.
  apply (wp_kernel_properties k (mkKernel module index) (set_md_kernels (md_kernels object ++ [k]) object) image info);
    cbn; try done; [set_solver|apply lookup_insert_eq..].
Qed.

(** A kernel that was found is the one that was asked for.  When
    [lr_kernel_get] succeeds, the module is registered, the new handle is
    registered with it, and asking for the properties of the handle returns:
    successfully, with the sizes of the first kernel of the module's image
    whose name or symbol is the given one. *)
Theorem kernel_get_resolves module name s k s1 :
  lr_kernel_get (Some module) (Some name) s = Ok ((Success, Some k), s1) ->
  exists object image index info,
    rt_modules (ms s) !! module = Some object /\ md_executable_image object = Some image /\
    find_index (named name) (image_kernels image) = Some index /\ image_kernels image !! index = Some info /\
    rt_kernels (ms s) !! k = None /\ rt_kernels (ms s1) !! k = Some (mkKernel module index) /\
    wp (lr_kernel_get_properties k) (fun '(status, properties) s2 => s2 = s1 /\ status = Success /\
      properties = mkKernelProperties (ki_kernarg_size info) (ki_group_segment_size info)
        (ki_private_segment_size info)) s1.
Proof. intros Hrun. by apply (kernel_get_spec module name s _ _ Hrun k). Qed.
End handles.

(** ** Shutdown *)

Section life.
Context {W : Type} `{!Transport W, !MemoryTransport W, !Platform W, !Threads W, !OrderLaw W, !ImageLaw W}.
Implicit Type s : runtime W.

(** What holds between calls: the books of the memory API, the modules, and
    every registered queue in the list of its device. *)
Record runtime_ok s : Prop := {
  ok_memory : memory_inv s;
  ok_modules : modules_wf ∅ (g_module_state s);
  ok_queues : listed s
}.

(** Nothing is registered, and no device or session is left. *)
Record at_rest s : Prop := {
  ar_devices : g_devices s = [];
  ar_session : g_kfd_session s = false;
  ar_queues : g_queues s = ∅;
  ar_events : g_events s = ∅;
  ar_modules : g_module_state s = no_modules;
  ar_allocations : g_light_rocr_allocations (g_memory s) = ∅;
  ar_host_allocations : g_light_rocr_host_allocations (g_memory s) = ∅;
  ar_cleanup : g_light_rocr_pending_cleanup (g_memory s) = []
}.

Definition shutdown_result (status : LrStatus.t) s : Prop :=
  if succeeded status then g_initialized s = false /\ at_rest s
  else g_initialized s = true /\ memory_inv s /\ modules_wf ∅ (g_module_state s).

Lemma or_stay_spec status k s :
  memory_inv s -> modules_wf ∅ (g_module_state s) ->
  (status = Success -> wlp k shutdown_result s) -> wlp (or_stay status k) shutdown_result s.
Proof.
  intros Hm Hw Hk. unfold or_stay. destruct (succeeded status) eqn:E; cbn [negb].
  - apply Hk. by apply bool_decide_eq_true in E.
  - apply wlp_bind, wlp_modify, wlp_ret. unfold shutdown_result. rewrite E. by split_and!.
Qed.

Lemma memory_inv_books s s' : books s' = books s -> memory_inv s -> memory_inv s'.
Proof. intros [= Hg Hs]. unfold memory_inv. by rewrite Hg, Hs. Qed.

Lemma core_parts s s' :
  core s' = core s -> books s' = books s /\ g_module_state s' = g_module_state s /\ g_events s' = g_events s /\
    g_initialized s' = g_initialized s.
Proof. unfold core. intros E. split_and!; congruence. Qed.

Lemma runtime_ok_view s s' :
  view s' = view s -> runtime_ok s /\ g_initialized s = false -> runtime_ok s' /\ g_initialized s' = false.
Proof.
  intros (Ec & Eq & El)%view_parts. apply core_parts in Ec as (Eb & Em & _ & Ei). intros [[H1 H2 H3] Hi].
  split; [|congruence]. split; [by eapply memory_inv_books|by rewrite Em|]. unfold listed. by rewrite Eq, El.
Qed.

Lemma release_everything_spec s :
  runtime_ok s -> g_initialized s = false -> wlp release_everything shutdown_result s.
Proof.
  intros Hok Hi. unfold release_everything. apply wlp_bind, wlp_gets, wlp_bind.
  apply wlp_view; [intros x; apply synchronize_devices_view|]. intros status s1 E1.
  destruct (runtime_ok_view _ _ E1 (conj Hok Hi)) as [Hok1 Hi1]. clear E1 Hok Hi s.
  apply or_stay_spec; [apply Hok1..|]. intros ->. apply wlp_bind.
  apply wlp_view; [intros x; apply release_copy_states_view|]. intros status s2 E2.
  destruct (runtime_ok_view _ _ E2 (conj Hok1 Hi1)) as [[M2 W2 L2] I2]. clear E2 Hok1 Hi1 s1.
  apply or_stay_spec; [done..|]. intros ->. apply wlp_bind. eapply wlp_mono; [by apply release_modules_locked_spec|].
  intros status3 s3 (W3 & R3 & D3). unfold rest in R3.
  assert (memory_inv s3) as M3 by (eapply memory_inv_books; [|exact M2]; congruence).
  apply or_stay_spec; [done..|]. intros ->. destruct (D3 eq_refl) as [_ N3]. clear D3.
  apply wlp_bind. unfold release_direct_kfd_events_locked. apply wlp_bind, wlp_gets.
  eapply wlp_mono; [apply release_events_spec|]. intros status4 s4 (D4 & B4 & S4 & Q4 & L4 & I4).
  assert (memory_inv s4) as M4 by by eapply memory_inv_books.
  apply or_stay_spec; [done|by rewrite S4|]. intros ->. destruct (D4 eq_refl) as [_ E4]. clear D4.
  assert (g_events s4 = ∅) as N4 by (rewrite E4; set_solver). clear E4.
  assert (g_queues s3 = g_queues s2 /\ ds_queues <$> g_devices s3 = ds_queues <$> g_devices s2) as [Q3 L3] by (split; congruence).
  assert (listed s4) as Hl4 by (unfold listed; by rewrite Q4, L4, Q3, L3).
  apply wlp_bind. eapply wlp_mono; [by apply release_queues_spec|]. intros status5 s5 [C5 D5].
  apply core_parts in C5 as (B5 & S5 & E5 & I5). assert (memory_inv s5) as M5 by by eapply memory_inv_books.
  apply or_stay_spec; [done|by rewrite S5, S4|]. intros ->. destruct (D5 eq_refl) as [_ N5]. clear D5.
  apply wlp_bind, wlp_run. intros status6 s6 Hrun.
  pose proof (release_memory_others Success (others s5) s5 _ _ eq_refl Hrun) as O6. unfold others in O6.
  pose proof (release_memory_spec Success s5 M5) as Hspec. unfold wp in Hspec. rewrite Hrun in Hspec.
  destruct Hspec as [M6 D6]. apply or_stay_spec; [done|congruence|]. intros ->.
  destruct (D6 eq_refl) as (N6 & N7 & N8 & _). apply wlp_bind, wlp_modify, wlp_bind, wlp_modify, wlp_ret.
  unfold shutdown_result. cbn [succeeded]. split; [cbn; congruence|]. split; cbn; try done; congruence.
Qed.

(** C10: a shutdown leaves nothing behind, or can be tried again.  With other
    threads finishing their calls meanwhile, and for every answer of the
    transport: when [lr_shutdown] reports success, the runtime is not
    initialised and holds no device, session, queue, event, module, kernel
    handle or allocation; when it reports a failure, it is initialised as
    before, and the registries of memory and modules are consistent; and if it
    was not initialised, nothing changes. *)
Theorem shutdown_leaves_nothing s status s' :
  (forall s, runtime_ok s /\ g_initialized s = false ->
     runtime_ok (other_threads s) /\ g_initialized (other_threads s) = false) ->
  runtime_ok s -> lr_shutdown s = Ok (status, s') ->
  if g_initialized s then shutdown_result status s' else status = NotInitialized /\ s' = s.
Proof.
  intros HT Hok Hrun. enough (wlp lr_shutdown (fun status s' =>
    if g_initialized s then shutdown_result status s' else status = NotInitialized /\ s' = s) s) as Hw by by apply Hw.
  clear Hrun s' status. apply wlp_bind, wlp_gets. destruct (g_initialized s) eqn:Ei; cbn [negb]; [|by apply wlp_ret].
  set (P := fun s : runtime W => runtime_ok s /\ g_initialized s = false).
  assert (about_view P) as HP by (split; [apply runtime_ok_view|exact HT]).
  apply wlp_bind, wlp_modify. assert (P (set_g_initialized false s)) as Hs by by split; [destruct Hok|].
  assert (forall ready, keeps P ready -> keeps P (wait_until ready)) as Hwait
    by (intros ready Hr; by apply keeps_wait_loop).
  apply wlp_bind. eapply (wlp_keeps P); [|exact Hs|].
  { apply Hwait. keeps. apply keeps_all_of. intros q. unfold queue_is, get_queue. keeps. }
  intros _ s1 Hs1. apply wlp_bind. eapply (wlp_keeps P); [|exact Hs1|].
  { apply Hwait. keeps. apply keeps_all_of. intros q. unfold event_is, get_event. keeps. }
  intros _ s2 Hs2. apply wlp_bind. eapply (wlp_keeps P); [|exact Hs2|].
  { apply Hwait. keeps. }
  intros _ s3 [Hok3 Hi3]. by apply release_everything_spec.
Qed.
End life.

(** ** Initialisation *)

Section init.
Context {W : Type} `{!Platform W}.
Implicit Type s : runtime W.

(** Everything but the world below. *)
Definition same_but_world s s' : Prop := s' = set_rt_world (rt_world s') s.

Lemma init_failed_spec opened status s :
  wp (init_failed opened status) (fun status' s' => status' = status /\
    same_but_world (set_g_initialized false s) s') s.
Proof.
  apply wp_bind, wp_modify, wp_bind. destruct opened; [apply wp_below_|apply wp_ret]; apply wp_ret; by split.
Qed.

(** C36: initialisation is all or nothing, and always returns.  A runtime that
    is initialised is left alone.  Otherwise, for every answer of the
    transport: success means a session and one device, which is a GPU of the
    topology whose architecture is named gfx1101, the only one that is; and
    any error leaves the runtime as it was, not initialised. *)
Theorem init_all_or_nothing s :
  wp lr_init (fun status s' =>
    if g_initialized s then status = AlreadyInitialized /\ s' = s
    else match status with
      | Success => g_initialized s' = true /\ g_kfd_session s' = true /\
          exists topology w w' index node,
            p_open_session (rt_world s) = (true, w) /\ p_discover_topology w = (Some topology, w') /\ g_devices s' = [new_device node] /\
            topo_nodes topology !! index = Some node /\ is_gpu node = true /\
            gfx_target_name (node_architecture node) = "gfx1101" /\
            forall j node', topo_nodes topology !! j = Some node' ->
              node_matches "gfx1101" node' = true -> j = index
      | RuntimeError | NotSupported => same_but_world s s'
      | _ => False
      end) s.
Proof.
  apply wp_bind, wp_gets. destruct (g_initialized s) eqn:Hi; [by apply wp_ret|].
  assert (forall w, same_but_world (set_g_initialized false (set_rt_world w (set_g_initialized true s))) = same_but_world s) as Hsame.
  { intros w. destruct s. cbn in Hi. by subst. }
  apply wp_bind, wp_modify, wp_bind, wp_below. intros opened w1 Hopen.
  destruct opened; cbn [negb].
  2: { eapply wp_mono; [apply init_failed_spec|]. intros status s' [-> Hs']. by rewrite Hsame in Hs'. }
  apply wp_bind, wp_below. intros [topology|] w2 Htop.
  2: { eapply wp_mono; [apply init_failed_spec|]. intros status s' [-> Hs']. cbv beta iota; rewrite <-(Hsame w2); exact Hs'. }
  pose proof (select_unique_gpu_correct topology "gfx1101") as Hsel. cbv zeta in Hsel.
  destruct (gs_error _) eqn:He.
  2-4: eapply wp_mono; [apply init_failed_spec|]; intros status s' [-> Hs']; cbv beta iota; rewrite <-(Hsame w2); exact Hs'.
  destruct Hsel as [_ (node & Hn & Hgpu & Hname & Huniq)]. rewrite Hn. apply wp_bind, wp_modify, wp_ret.
  split_and!; [done|done|]. exists topology, w1, w2, (gs_node_index (select_unique_gpu topology "gfx1101")), node.
  by split_and!.
Qed.
End init.
