(* ===== verification/StatefulGraph.v ===== *)
(** * Stateful graphs: descriptors, validation and compiled plans

    [executor/stateful_graph/stateful_graph_abi.hpp], the validation of
    [device_scheduler.hpp] and [compiled_scheduler.hpp], and the functions of
    [resident_executor.hpp] that check and compile a graph on the host; and what
    they accept: dependencies as a relation between tasks, the topological walk,
    and plans as tilings of a program. *)

From stdpp Require Import relations.
From S2P Require Import Prelude.

(** ** The ABI *)

Definition kAbiVersion : Z := 8.
Definition kWorkerThreads : Z := 256.
Definition kMaximumResidentWorkers : Z := 32.
Definition kMaximumTasks : Z := 64.
Definition kMaximumPrograms : Z := 256.
Definition kProgramIndexBits : Z := 8.
Definition kProgramIndexMask : Z := Z.shiftl 1 kProgramIndexBits - 1.

Definition make_phase (generation program_index : Z) : Z :=
  Z.lor (to_u32 (Z.shiftl generation kProgramIndexBits)) program_index.
Definition phase_generation (phase : Z) : Z := Z.shiftr phase kProgramIndexBits.
Definition phase_program (phase : Z) : Z := Z.land phase kProgramIndexMask.

(** [Status] *)
Definition status_ready : Z := 0.
Definition status_running : Z := 1.
Definition status_complete : Z := 2.
Definition status_max_steps : Z := 3.
Definition status_invalid_program : Z := 4.

(** [State] *)
Record GraphState := mkGraphState {
  gs_abi_version : Z;
  gs_status : Z;
  gs_phase : Z;
  gs_step : Z;
  gs_max_steps : Z;
  gs_stop_value : Z;
  gs_error_code : Z;
  gs_worker_count : Z;
  gs_executed_tasks : Z;
  gs_predicate_value : Z;
  gs_branch_value : Z
}.

Record Task := mkTask {
  tk_opcode : Z;
  tk_dependency_mask : Z;
  tk_begin : Z;
  tk_end : Z;
  tk_argument0 : Z;
  tk_argument1 : Z;
  tk_dependency_mask_high : Z
}.

(** [ProgramFlags] *)
Definition kProgramAdvancesStep : Z := 1.
Definition kProgramEvaluatesPredicate : Z := 2.
Definition kProgramBranchesOnState : Z := 4.

Record Program := mkProgram {
  pg_task_offset : Z;
  pg_task_count : Z;
  pg_next_program : Z;
  pg_flags : Z;
  pg_branch_program : Z
}.

Record MaskState := mkMaskState {
  ms_claimed_mask : Z;
  ms_completed_mask : Z;
  ms_claimed_mask_high : Z;
  ms_completed_mask_high : Z;
  ms_completed_count : Z
}.

Definition empty_mask_state : MaskState := mkMaskState 0 0 0 0 0.

Record Stage := mkStage {
  sg_task_offset : Z;
  sg_task_count : Z
}.

Record CompiledProgram := mkCompiledProgram {
  cp_stage_offset : Z;
  cp_stage_count : Z
}.

(** ** Masks *)

Definition task_dependencies (task : Task) : Z :=
  Z.lor (tk_dependency_mask task) (to_u64 (Z.shiftl (tk_dependency_mask_high task) 32)).

(** [all_tasks_mask] of the device, [valid_task_mask] of the host *)
Definition all_tasks_mask (task_count : Z) : Z :=
  if task_count =? kMaximumTasks then UINT64_MAX else u64_sub (to_u64 (Z.shiftl 1 task_count)) 1.

Definition all_flags : Z := Z.lor kProgramAdvancesStep (Z.lor kProgramEvaluatesPredicate kProgramBranchesOnState).

Definition has_flag (program : Program) (flag : Z) : bool := negb (Z.land (pg_flags program) flag =? 0).

(** ** Loops and tables *)

(** An element of a table in memory. *)
Definition read {E A} (table : list A) (index : Z) : result E A :=
  match table !! Z.to_nat index with
  | Some x => if 0 <=? index then Ok x else Fault OutOfBounds
  | None => Fault OutOfBounds
  end.

(** A loop that ends with [return false] at the first index that fails. *)
Fixpoint all_indices {E} (body : Z -> result E bool) (indices : list Z) : result E bool :=
  match indices with
  | [] => Ok true
  | index :: indices =>
      passed ← body index;
      if passed : bool then all_indices body indices else Ok false
  end.

(** A loop over its indices that changes a variable. *)
Fixpoint each_index {E S} (body : Z -> S -> result E S) (indices : list Z) (s : S) : result E S :=
  match indices with
  | [] => Ok s
  | index :: indices => s ← body index s; each_index body indices s
  end.

(** ** Validation on the device *)

(** What a resident kernel supplies: the checks of its context and tasks, and
    [execute], which the whole workgroup runs.  [execute task k] is its [k]th
    access to shared memory: new values of [predicate_value] and
    [branch_value], the only members of [State] a task may set, and a new
    context; [None] when it returns. *)
Class Workload (X : Type) := {
  valid_context : GraphState -> X -> bool;
  valid_task : Task -> X -> bool;
  execute : Task -> nat -> GraphState -> X -> option (Z * Z * X)
}.

Section validation.
Context {X : Type} `{!Workload X} {E : Type}.

Definition task_valid (tasks : list Task) (program : Program) (context : X) (task_index : Z) : result E bool :=
  task ← read tasks (pg_task_offset program + task_index);
  let task_mask := to_u64 (Z.shiftl 1 task_index) in
  let dependencies := task_dependencies task in
  Ok (negb (negb (valid_task task context) ||
            negb (Z.ldiff dependencies (all_tasks_mask (pg_task_count program)) =? 0) ||
            negb (Z.land dependencies task_mask =? 0))).

(** One step of the topological walk. *)
Definition visit_task (tasks : list Task) (program : Program) (task_index : Z) (reachable_mask : Z) : result E Z :=
  let task_mask := to_u64 (Z.shiftl 1 task_index) in
  task ← read tasks (pg_task_offset program + task_index);
  let dependencies := task_dependencies task in
  Ok (if (Z.land reachable_mask task_mask =? 0) && (Z.land dependencies reachable_mask =? dependencies)
      then Z.lor reachable_mask task_mask else reachable_mask).

Definition walk_pass (tasks : list Task) (program : Program) (reachable_mask : Z) : result E Z :=
  each_index (visit_task tasks program) (seqZ 0 (pg_task_count program)) reachable_mask.

Definition walk_tasks (tasks : list Task) (program : Program) : result E Z :=
  each_index (fun _ => walk_pass tasks program) (seqZ 0 (pg_task_count program)) 0.

Definition program_shape_valid (program : Program) (program_count total_task_count : Z) : bool :=
  negb ((pg_task_count program =? 0) || (pg_task_count program >? kMaximumTasks) ||
        (pg_task_offset program >? total_task_count) ||
        (pg_task_count program >? total_task_count - pg_task_offset program) ||
        (pg_next_program program >=? program_count) ||
        negb (Z.ldiff (pg_flags program) all_flags =? 0) ||
        (has_flag program kProgramBranchesOnState && (pg_branch_program program >=? program_count))).

Definition program_valid (tasks : list Task) (programs : list Program)
    (program_count total_task_count : Z) (context : X) (program_index : Z) : result E bool :=
  program ← read programs program_index;
  if negb (program_shape_valid program program_count total_task_count) then Ok false
  else
    tasks_valid ← all_indices (task_valid tasks program context) (seqZ 0 (pg_task_count program));
    if negb tasks_valid then Ok false
    else
      reachable_mask ← walk_tasks tasks program;
      Ok (reachable_mask =? all_tasks_mask (pg_task_count program)).

(** [detail::validate_programs]; a table is [None] when its pointer is null. *)
Definition validate_programs (state : GraphState) (tasks : option (list Task)) (programs : option (list Program))
    (phase_states : option (list MaskState)) (program_count total_task_count phase_state_count : Z)
    (context : X) : result E bool :=
  if negb (gs_abi_version state =? kAbiVersion) || (program_count =? 0) || (total_task_count =? 0) ||
     (program_count >? kMaximumPrograms) || (phase_program (gs_phase state) >=? program_count) ||
     (phase_generation (gs_phase state) >=? phase_state_count) || (gs_max_steps state =? 0)
  then Ok false
  else
    match tasks, programs, phase_states with
    | Some tasks, Some programs, Some _ =>
        if (phase_state_count =? 0) || (gs_worker_count state =? 0) ||
           (gs_worker_count state >? kMaximumResidentWorkers) || negb (valid_context state context)
        then Ok false
        else all_indices (program_valid tasks programs program_count total_task_count context)
               (seqZ 0 program_count)
    | _, _, _ => Ok false
    end.

(** ** Validation of a compiled plan on the device *)

Definition stage_task_valid (tasks : list Task) (stage : Stage) (completed_mask : Z) (task_index : Z)
  : result E bool :=
  task ← read tasks (sg_task_offset stage + task_index);
  let dependencies := task_dependencies task in
  Ok (Z.land dependencies completed_mask =? dependencies).

(** The loop over the stages of a program; the task offset after the last, or
    [None] when it returns [false]. *)
Fixpoint stages_valid (tasks : list Task) (stages : list Stage) (program : Program) (indices : list Z)
    (expected_task_offset completed_mask : Z) : result E (option Z) :=
  match indices with
  | [] => Ok (Some expected_task_offset)
  | stage_index :: indices =>
      stage ← read stages stage_index;
      let completed_count := to_u32 (expected_task_offset - pg_task_offset program) in
      if (sg_task_count stage =? 0) || negb (sg_task_offset stage =? expected_task_offset) ||
         (sg_task_count stage >? to_u32 (pg_task_count program - completed_count))
      then Ok None
      else
        independent ← all_indices (stage_task_valid tasks stage completed_mask) (seqZ 0 (sg_task_count stage));
        if negb independent then Ok None
        else
          let stage_mask := to_u64 (Z.shiftl (all_tasks_mask (sg_task_count stage)) completed_count) in
          stages_valid tasks stages program indices (to_u32 (expected_task_offset + sg_task_count stage))
            (Z.lor completed_mask stage_mask)
  end.

Definition compiled_program_valid (tasks : list Task) (programs : list Program) (stages : list Stage)
    (compiled_programs : list CompiledProgram) (stage_count : Z) (program_index : Z) : result E bool :=
  program ← read programs program_index;
  compiled ← read compiled_programs program_index;
  if (cp_stage_count compiled =? 0) || (cp_stage_offset compiled >? stage_count) ||
     (cp_stage_count compiled >? stage_count - cp_stage_offset compiled)
  then Ok false
  else
    covered ← stages_valid tasks stages program
      (seqZ (cp_stage_offset compiled) (cp_stage_count compiled)) (pg_task_offset program) 0;
    Ok (match covered with
        | Some expected_task_offset => expected_task_offset =? to_u32 (pg_task_offset program + pg_task_count program)
        | None => false
        end).

(** [compiled_detail::validate_plan] *)
Definition validate_plan (state : GraphState) (tasks : option (list Task)) (programs : option (list Program))
    (phase_states : option (list MaskState)) (stages : option (list Stage))
    (compiled_programs : option (list CompiledProgram))
    (program_count total_task_count phase_state_count stage_count : Z) (context : X) : result E bool :=
  valid ← validate_programs state tasks programs phase_states program_count total_task_count
    phase_state_count context;
  match valid, tasks, programs, stages, compiled_programs with
  | true, Some tasks, Some programs, Some stages, Some compiled_programs =>
      if stage_count =? 0 then Ok false
      else all_indices (compiled_program_valid tasks programs stages compiled_programs stage_count)
             (seqZ 0 program_count)
  | _, _, _, _, _ => Ok false
  end.
End validation.

(** ** The host *)

Inductive host_error :=
| InvalidArgument (message : string).

#[export] Instance host_error_failure : Failure host_error := fun _ => True.

Record ResidentConfig := mkResidentConfig {
  rc_phase_state_count : Z;
  rc_worker_count : Z
}.

Record CompiledPlan := mkCompiledPlan {
  pl_stages : list Stage;
  pl_programs : list CompiledProgram
}.

Record ValidatedGraph := mkValidatedGraph {
  vg_task_bytes : Z;
  vg_program_bytes : Z;
  vg_phase_state_bytes : Z
}.

Definition sizeof_State : Z := 64.
Definition sizeof_Task : Z := 32.
Definition sizeof_Program : Z := 32.
Definition sizeof_MaskState : Z := 20.
Definition sizeof_Stage : Z := 8.
Definition sizeof_CompiledProgram : Z := 8.

Definition vector_size {A} (v : list A) : Z := Z.of_nat (length v).

Definition kMaximumPhaseStates : Z := to_u32 (phase_generation UINT32_MAX + 1).

(** A loop whose body throws or goes on. *)
Fixpoint for_each {A} (body : A -> result host_error unit) (l : list A) : result host_error unit :=
  match l with
  | [] => Ok tt
  | x :: l => _ ← body x; for_each body l
  end.

Definition require (condition : bool) (message : string) : result host_error unit :=
  if condition then Ok tt else Err (InvalidArgument message).

Definition check_dependencies (tasks : list Task) (program : Program) (index : Z) : result host_error unit :=
  task ← read tasks (pg_task_offset program + index);
  let dependencies := task_dependencies task in
  require (negb (negb (Z.ldiff dependencies (all_tasks_mask (pg_task_count program)) =? 0) ||
                 negb (Z.land dependencies (to_u64 (Z.shiftl 1 index)) =? 0)))
    "invalid stateful graph dependency mask".

Definition check_program (tasks : list Task) (program_count : Z) (program : Program) : result host_error unit :=
  _ ← require (negb ((pg_task_count program =? 0) || (pg_task_count program >? kMaximumTasks) ||
        (pg_task_offset program >? vector_size tasks) ||
        (pg_task_count program >? vector_size tasks - pg_task_offset program)))
      "invalid stateful graph task range";
  _ ← require (negb ((pg_next_program program >=? program_count) ||
        (has_flag program kProgramBranchesOnState && (pg_branch_program program >=? program_count))))
      "invalid stateful graph successor";
  _ ← require (Z.ldiff (pg_flags program) all_flags =? 0) "invalid stateful graph program flags";
  for_each (check_dependencies tasks program) (seqZ 0 (pg_task_count program)).

(** [detail::validate_resident_graph] *)
Definition validate_resident_graph (tasks : list Task) (programs : list Program) (config : ResidentConfig)
  : result host_error ValidatedGraph :=
  _ ← require (negb (vector_size tasks =? 0)) "stateful graph must contain tasks";
  _ ← require (negb (vector_size tasks >? UINT32_MAX)) "invalid stateful graph task count";
  _ ← require (negb ((vector_size programs =? 0) || (vector_size programs >? kMaximumPrograms)))
      "invalid stateful graph program count";
  _ ← require (negb ((rc_phase_state_count config =? 0) || (rc_phase_state_count config >? kMaximumPhaseStates)))
      "invalid stateful graph phase-state count";
  _ ← require (negb ((rc_worker_count config =? 0) || (rc_worker_count config >? kMaximumResidentWorkers)))
      "invalid stateful graph resident worker count";
  _ ← for_each (check_program tasks (vector_size programs)) programs;
  Ok (mkValidatedGraph (u64_mul (vector_size tasks) sizeof_Task) (u64_mul (vector_size programs) sizeof_Program)
        (u64_mul (rc_phase_state_count config) sizeof_MaskState)).

(** *** A compiled plan *)

Definition check_stage_task (tasks : list Task) (stage : Stage) (completed_mask : Z) (task_index : Z)
  : result host_error unit :=
  task ← read tasks (sg_task_offset stage + task_index);
  let dependencies := task_dependencies task in
  require (Z.land dependencies completed_mask =? dependencies) "compiled stage contains dependent tasks".

Fixpoint check_stages (tasks : list Task) (stages : list Stage) (program : Program) (indices : list Z)
    (expected_task_offset completed_mask : Z) : result host_error Z :=
  match indices with
  | [] => Ok expected_task_offset
  | stage_index :: indices =>
      stage ← read stages stage_index;
      let completed_count := to_u32 (expected_task_offset - pg_task_offset program) in
      _ ← require (negb ((sg_task_count stage =? 0) || negb (sg_task_offset stage =? expected_task_offset) ||
            (sg_task_count stage >? to_u32 (pg_task_count program - completed_count))))
          "invalid stateful graph compiled stage";
      _ ← for_each (check_stage_task tasks stage completed_mask) (seqZ 0 (sg_task_count stage));
      check_stages tasks stages program indices (to_u32 (expected_task_offset + sg_task_count stage))
        (Z.lor completed_mask (to_u64 (Z.shiftl (all_tasks_mask (sg_task_count stage)) completed_count)))
  end.

Definition check_compiled_program (tasks : list Task) (programs : list Program) (plan : CompiledPlan)
    (program_index : Z) : result host_error unit :=
  program ← read programs program_index;
  compiled ← read (pl_programs plan) program_index;
  _ ← require (negb ((cp_stage_count compiled =? 0) || (cp_stage_offset compiled >? vector_size (pl_stages plan)) ||
        (cp_stage_count compiled >? vector_size (pl_stages plan) - cp_stage_offset compiled)))
      "invalid stateful graph compiled stages";
  expected_task_offset ← check_stages tasks (pl_stages plan) program
    (seqZ (cp_stage_offset compiled) (cp_stage_count compiled)) (pg_task_offset program) 0;
  require (expected_task_offset =? to_u32 (pg_task_offset program + pg_task_count program))
    "compiled plan does not cover program".

(** [detail::validate_compiled_plan] *)
Definition validate_compiled_plan (tasks : list Task) (programs : list Program) (plan : CompiledPlan)
  : result host_error unit :=
  _ ← require (negb ((vector_size (pl_stages plan) =? 0) ||
        negb (vector_size (pl_programs plan) =? vector_size programs)))
      "invalid stateful graph compiled plan size";
  for_each (check_compiled_program tasks programs plan) (seqZ 0 (vector_size programs)).

(** The inner loop of [compile_resident_plan]: the end of a stage. *)
Fixpoint stage_end (fuel : nat) (tasks : list Task) (program : Program) (completed_mask next_task : Z)
  : result host_error Z :=
  match fuel with
  | O => Fault OutOfFuel
  | S fuel =>
      if next_task <? pg_task_count program then
        task ← read tasks (to_u32 (pg_task_offset program + next_task));
        let dependencies := task_dependencies task in
        if Z.land dependencies completed_mask =? dependencies
        then stage_end fuel tasks program completed_mask (next_task + 1)
        else Ok next_task
      else Ok next_task
  end.

(** The outer loop: the stages of a program, behind those of the others. *)
Fixpoint compile_stages (fuel : nat) (tasks : list Task) (program : Program) (next_task completed_mask : Z)
    (stages : list Stage) : result host_error (list Stage) :=
  match fuel with
  | O => Fault OutOfFuel
  | S fuel =>
      if next_task <? pg_task_count program then
        let stage_begin := next_task in
        next_task ← stage_end (S (Z.to_nat (pg_task_count program))) tasks program completed_mask next_task;
        if next_task =? stage_begin then
          Err (InvalidArgument "stateful graph tasks are not in topological stage order")
        else
          let stage_task_count := next_task - stage_begin in
          compile_stages fuel tasks program next_task
            (Z.lor completed_mask (to_u64 (Z.shiftl (all_tasks_mask stage_task_count) stage_begin)))
            (stages ++ [mkStage (to_u32 (pg_task_offset program + stage_begin)) stage_task_count])
      else Ok stages
  end.

Fixpoint compile_programs (tasks : list Task) (programs : list Program) (plan : CompiledPlan)
  : result host_error CompiledPlan :=
  match programs with
  | [] => Ok plan
  | program :: programs =>
      let stage_offset := to_u32 (vector_size (pl_stages plan)) in
      stages ← compile_stages (S (Z.to_nat (pg_task_count program))) tasks program 0 0 (pl_stages plan);
      compile_programs tasks programs (mkCompiledPlan stages
        (pl_programs plan ++ [mkCompiledProgram stage_offset (to_u32 (to_u32 (vector_size stages) - stage_offset))]))
  end.

Definition compile_resident_plan (tasks : list Task) (programs : list Program) (config : ResidentConfig)
  : result host_error CompiledPlan :=
  _ ← validate_resident_graph tasks programs config;
  plan ← compile_programs tasks programs (mkCompiledPlan [] []);
  _ ← validate_compiled_plan tasks programs plan;
  Ok plan.

(** *** Admission *)

Record DeviceProperties := mkDeviceProperties {
  dp_compute_unit_count : Z;
  dp_wavefront_size : Z;
  dp_maximum_waves_per_compute_unit : Z;
  dp_maximum_workgroup_size : Z;
  dp_group_segment_size : Z
}.

Record ResidentAdmission := mkResidentAdmission {
  ra_requested_worker_count : Z;
  ra_safe_worker_limit : Z;
  ra_worker_count : Z
}.

Definition resident_worker_limit (device : DeviceProperties) (kernel_group_segment_size : Z)
    (block_threads dynamic_group_segment_size : Z) : result host_error Z :=
  _ ← require (negb ((dp_compute_unit_count device =? 0) || (dp_wavefront_size device =? 0) ||
        (dp_maximum_waves_per_compute_unit device =? 0) || (dp_maximum_workgroup_size device =? 0) ||
        (block_threads =? 0))) "incomplete resident resource properties";
  _ ← require (negb (block_threads >? dp_maximum_workgroup_size device)) "resident workgroup exceeds device limit";
  let waves := to_u32 (to_u32 (block_threads + dp_wavefront_size device) - 1) / dp_wavefront_size device in
  _ ← require (negb (waves >? dp_maximum_waves_per_compute_unit device)) "resident workgroup exceeds wave limit";
  let group_segment_size := u64_add kernel_group_segment_size dynamic_group_segment_size in
  _ ← require (negb (group_segment_size >? dp_group_segment_size device)) "resident workgroup exceeds LDS limit";
  Ok (Z.min (dp_compute_unit_count device) kMaximumResidentWorkers).

Definition admit_resident_workers (device : DeviceProperties) (kernel_group_segment_size : Z)
    (requested_worker_count block_threads dynamic_group_segment_size : Z) : result host_error ResidentAdmission :=
  _ ← require (negb (requested_worker_count =? 0)) "resident worker request must be nonzero";
  safe_limit ← resident_worker_limit device kernel_group_segment_size block_threads dynamic_group_segment_size;
  Ok (mkResidentAdmission requested_worker_count safe_limit (Z.min requested_worker_count safe_limit)).

(** ** A small graph: the test of [tests/stateful_graph_resident_executor.cpp] *)

Definition chain_tasks : list Task := [mkTask 0 0 0 1 0 0 0; mkTask 1 1 0 1 0 0 0].
Definition chain_programs : list Program := [mkProgram 0 2 0 kProgramAdvancesStep 0].
Definition chain_config : ResidentConfig := mkResidentConfig 8 4.

Example chain_compiles :
  compile_resident_plan chain_tasks chain_programs chain_config =
    Ok (mkCompiledPlan [mkStage 0 1; mkStage 1 1] [mkCompiledProgram 0 2]).
Proof. vm_compute. reflexivity. Qed.

Example cycle_does_not_compile :
  compile_resident_plan [mkTask 0 2 0 1 0 0 0; mkTask 1 1 0 1 0 0 0] chain_programs chain_config =
    Err (InvalidArgument "stateful graph tasks are not in topological stage order").
Proof. vm_compute. reflexivity. Qed.

(** ** Masks as sets of bits *)

Definition bits_within (m n : Z) : Prop := forall j, 0 <= j -> Z.testbit m j = true -> Z.testbit n j = true.

#[export] Instance bits_within_preorder : PreOrder bits_within.
Proof. split; unfold bits_within; naive_solver. Qed.

Lemma land_within a b : (Z.land a b =? a) = true <-> bits_within a b.
Proof.
  rewrite Z.eqb_eq. split.
  - intros H j Hj Ha. rewrite <-H, Z.land_spec in Ha. by apply andb_prop in Ha as [_ ?].
  - intros H. apply Z.bits_inj'. intros j Hj. rewrite Z.land_spec. specialize (H j Hj).
    destruct (Z.testbit a j); [|done]. by rewrite H.
Qed.

Lemma ldiff_within a b : (Z.ldiff a b =? 0) = true <-> bits_within a b.
Proof.
  rewrite Z.eqb_eq. split.
  - intros H j Hj Ha. pose proof (f_equal (fun z => Z.testbit z j) H) as Hb. cbn beta in Hb.
    rewrite Z.ldiff_spec, Z.bits_0, Ha in Hb. by destruct (Z.testbit b j).
  - intros H. apply Z.bits_inj'. intros j Hj. rewrite Z.ldiff_spec, Z.bits_0. specialize (H j Hj).
    destruct (Z.testbit a j); [|done]. by rewrite H.
Qed.

Lemma land_one a i : 0 <= i < 64 -> (Z.land a (to_u64 (Z.shiftl 1 i)) =? 0) = negb (Z.testbit a i).
Proof.
  intros Hi. rewrite Z.shiftl_1_l, to_u64_small.
  2: { pose proof (Z.pow_pos_nonneg 2 i). pose proof (Z.pow_lt_mono_r 2 i 64). change (2 ^ 64) with U64_MOD in *. lia. }
  destruct (Z.testbit a i) eqn:Ha; cbn.
  - apply Z.eqb_neq. intros H. apply (f_equal (fun z => Z.testbit z i)) in H. cbn beta in H.
    rewrite Z.land_spec, Z.bits_0, Ha, Z.pow2_bits_true in H by lia. done.
  - apply Z.eqb_eq, Z.bits_inj'. intros j Hj. rewrite Z.land_spec, Z.bits_0.
    destruct (decide (j = i)) as [->|Hne]; [by rewrite Ha|]. rewrite Z.pow2_bits_false by lia. apply andb_false_r.
Qed.

Lemma one_bit i j : 0 <= i < 64 -> 0 <= j -> Z.testbit (to_u64 (Z.shiftl 1 i)) j = bool_decide (j = i).
Proof.
  intros Hi Hj. rewrite Z.shiftl_1_l, to_u64_small.
  2: { pose proof (Z.pow_pos_nonneg 2 i). pose proof (Z.pow_lt_mono_r 2 i 64). change (2 ^ 64) with U64_MOD in *. lia. }
  case_bool_decide as H; [subst; by apply Z.pow2_bits_true|]. by apply Z.pow2_bits_false.
Qed.

Lemma all_tasks_ones n : 0 <= n <= 64 -> all_tasks_mask n = Z.ones n.
Proof.
  intros Hn. unfold all_tasks_mask, kMaximumTasks. destruct (n =? 64) eqn:E.
  - apply Z.eqb_eq in E as ->. reflexivity.
  - rewrite Z.shiftl_1_l, Z.ones_equiv. pose proof (Z.pow_pos_nonneg 2 n). pose proof (Z.pow_le_mono_r 2 n 63).
    change (2 ^ 63) with 9223372036854775808 in *. rewrite to_u64_small, u64_sub_small by lia. lia.
Qed.

Lemma all_tasks_bit n j : 0 <= n <= 64 -> 0 <= j -> Z.testbit (all_tasks_mask n) j = (j <? n).
Proof. intros Hn Hj. rewrite all_tasks_ones, Z.testbit_ones by lia. lia. Qed.

Lemma log2_below x w : 0 <= x < 2 ^ w -> 0 < w -> Z.log2 x < w.
Proof.
  intros Hx Hw. destruct (decide (x = 0)) as [->|]; [by cbn|]. apply Z.log2_lt_pow2; lia.
Qed.

(** ** Loops *)

Lemma read_ok {E A} (table : list A) i : 0 <= i < Z.of_nat (length table) ->
  exists x, table !! Z.to_nat i = Some x /\ read (E := E) table i = Ok x.
Proof.
  intros Hi. destruct (lookup_lt_is_Some_2 table (Z.to_nat i)) as [x Hx]; [lia|]. exists x. split; [done|].
  unfold read. rewrite Hx. by replace (0 <=? i) with true by lia.
Qed.

Lemma read_is {E A} (table : list A) i x : 0 <= i -> table !! Z.to_nat i = Some x -> read (E := E) table i = Ok x.
Proof. intros Hi Hx. unfold read. rewrite Hx. by replace (0 <=? i) with true by lia. Qed.

(** A loop of checks decides the conjunction of what its rounds decide. *)
Lemma all_indices_spec {E} (body : Z -> result E bool) (P : Z -> Prop) indices :
  (forall i, i ∈ indices -> exists b, body i = Ok b /\ (b = true <-> P i)) ->
  exists b, all_indices body indices = Ok b /\ (b = true <-> forall i, i ∈ indices -> P i).
Proof.
  induction indices as [|i indices IH]; intros Hbody; cbn.
  - exists true. split; [done|]. split; [intros _ i Hi; by apply elem_of_nil in Hi|done].
  - destruct (Hbody i) as (b & -> & Hb); [left|]. cbn. destruct b.
    + destruct IH as (b & -> & IH); [intros; apply Hbody; by right|]. exists b. split; [done|]. rewrite IH.
      split; [|by intros H j Hj; apply H; right]. intros H j [->|Hj]%elem_of_cons; [by apply Hb|by apply H].
    + exists false. split; [done|]. split; [done|]. intros H. apply Hb, H. left.
Qed.

Lemma for_each_spec {A} (body : A -> result host_error unit) (P : A -> Prop) l :
  (forall x, x ∈ l -> (body x = Ok tt /\ P x) \/ (exists e, body x = Err e /\ ~ P x)) ->
  (for_each body l = Ok tt /\ forall x, x ∈ l -> P x) \/
  (exists e, for_each body l = Err e /\ ~ forall x, x ∈ l -> P x).
Proof.
  induction l as [|x l IH]; intros Hbody; cbn.
  - left. split; [done|]. intros x Hx. by apply elem_of_nil in Hx.
  - destruct (Hbody x) as [[-> Hx]|(e & -> & Hx)]; [left| |].
    + cbn. destruct IH as [[-> Hl]|(e & -> & Hl)]; [intros; apply Hbody; by right| |].
      * left. split; [done|]. by intros y [->|Hy]%elem_of_cons; [|apply Hl].
      * right. exists e. split; [done|]. intros H. apply Hl. intros y Hy. apply H. by right.
    + right. exists e. split; [done|]. intros H. apply Hx, H. left.
Qed.

(** ** Dependencies *)

Definition task_typed (task : Task) : Prop :=
  is_u32 (tk_dependency_mask task) /\ is_u32 (tk_dependency_mask_high task).

Lemma task_dependencies_range task : task_typed task -> is_u64 (task_dependencies task).
Proof.
  intros [Hl Hh]. unfold task_dependencies. pose proof (to_u64_range (Z.shiftl (tk_dependency_mask_high task) 32)).
  split; [apply Z.lor_nonneg; lia|]. change U64_MOD with (2 ^ 64). apply Z.log2_lt_cancel. rewrite Z.log2_pow2 by lia.
  rewrite Z.log2_lor by lia. apply Z.max_lub_lt; apply log2_below; lia.
Qed.

(** Task [i] of a program waits for its task [j]. *)
Definition depends (tasks : list Task) (program : Program) (i j : Z) : Prop :=
  0 <= i < pg_task_count program /\ 0 <= j /\
  exists task, tasks !! Z.to_nat (pg_task_offset program + i) = Some task /\
    Z.testbit (task_dependencies task) j = true.

Lemma elem_of_indices n i : i ∈ seqZ 0 n <-> 0 <= i < n.
Proof. rewrite elem_of_seqZ. lia. Qed.

(** The number of tasks in a mask. *)
Definition mask_count (n m : Z) : nat := length (filter (fun i => Z.testbit m i = true) (seqZ 0 n)).

Lemma filter_length_grows (l : list Z) (P Q : Z -> Prop) `{dP : !forall x, Decision (P x)} `{dQ : !forall x, Decision (Q x)} :
  (forall x, x ∈ l -> P x -> Q x) -> (length (filter P l) <= length (filter Q l))%nat.
Proof.
  induction l as [|x l IH]; intros H; [done|]. rewrite !filter_cons.
  specialize (IH ltac:(intros; apply H; [by right|done])). pose proof (H x ltac:(left)).
  repeat case_decide; cbn; [lia|tauto|lia|lia].
Qed.

Lemma filter_length_strict (l : list Z) (P Q : Z -> Prop) `{dP : !forall x, Decision (P x)} `{dQ : !forall x, Decision (Q x)} y :
  (forall x, x ∈ l -> P x -> Q x) -> y ∈ l -> Q y -> ~ P y -> (length (filter P l) < length (filter Q l))%nat.
Proof.
  induction l as [|x l IH]; intros H Hy HQ HP; [by apply elem_of_nil in Hy|]. rewrite !filter_cons.
  pose proof (H x ltac:(left)). pose proof (filter_length_grows l P Q ltac:(intros; apply H; [by right|done])).
  apply elem_of_cons in Hy as [->|Hy].
  - rewrite decide_False, decide_True by done. cbn. lia.
  - specialize (IH ltac:(intros; apply H; [by right|done]) Hy HQ HP). repeat case_decide; cbn; [lia|tauto|lia|lia].
Qed.

Lemma mask_count_full n m : 0 <= n -> (Z.to_nat n <= mask_count n m)%nat ->
  forall i, 0 <= i < n -> Z.testbit m i = true.
Proof.
  intros Hn Hc i Hi. destruct (Z.testbit m i) eqn:E; [done|exfalso].
  assert (mask_count n m < mask_count n (-1))%nat as Hlt.
  { apply (filter_length_strict _ _ _ i); [|by apply elem_of_indices|by rewrite Z.bits_m1 by lia|by rewrite E].
    intros j Hj%elem_of_indices _. by rewrite Z.bits_m1 by lia. }
  assert (mask_count n (-1) <= Z.to_nat n)%nat; [|lia]. unfold mask_count.
  etransitivity; [apply length_filter|]. by rewrite length_seqZ.
Qed.

(** ** The topological walk *)

Section walk.
Context {E : Type} (tasks : list Task) (program : Program).
Let n := pg_task_count program.
Let dep := depends tasks program.
Hypothesis count : 0 <= n <= 64.
Hypothesis offset : 0 <= pg_task_offset program.
Hypothesis present : pg_task_offset program + n <= Z.of_nat (length tasks).

(** The masks the walk goes through: tasks that can be put in order. *)
Definition orderable (m : Z) : Prop := forall i, 0 <= i -> Z.testbit m i = true -> i < n /\ sn dep i.

Lemma visit_spec i m : 0 <= i < n -> orderable m ->
  exists m', visit_task (E := E) tasks program i m = Ok m' /\ orderable m' /\ bits_within m m' /\
    ((forall j, dep i j -> Z.testbit m j = true) -> Z.testbit m' i = true).
Proof.
  intros Hi Hm. unfold visit_task. destruct (read_ok (E := E) tasks (pg_task_offset program + i)) as (task & Ht & ->);
    [lia|]. cbn. rewrite land_one by lia. destruct (Z.testbit m i) eqn:Hbit; cbn.
  { exists m. by split_and!. }
  destruct (_ =? _) eqn:Hd.
  2: { exists m. split_and!; [done..|]. intros Hall. exfalso.
    enough ((Z.land (task_dependencies task) m =? task_dependencies task) = true) by congruence.
    apply land_within. intros j Hj Hb. apply Hall. split_and!; [lia|lia|lia|]. by exists task. }
  eexists. split; [done|]. rewrite land_within in Hd. split_and!.
  - intros j Hj. rewrite Z.lor_spec, one_bit by lia. case_bool_decide; [subst j|rewrite orb_false_r; by apply Hm].
    intros _. split; [lia|]. constructor. intros k (_ & Hk & task' & Ht' & Hb). rewrite Ht in Ht'. injection Ht' as <-.
    by apply (Hm k Hk), Hd.
  - intros j Hj Hb. by rewrite Z.lor_spec, Hb.
  - intros _. rewrite Z.lor_spec, one_bit, bool_decide_eq_true_2 by lia. apply orb_true_r.
Qed.

Lemma pass_spec l m : (forall i, i ∈ l -> 0 <= i < n) -> orderable m ->
  exists m', each_index (visit_task (E := E) tasks program) l m = Ok m' /\ orderable m' /\ bits_within m m' /\
    (forall i, i ∈ l -> (forall j, dep i j -> Z.testbit m j = true) -> Z.testbit m' i = true).
Proof.
  revert m. induction l as [|i l IH]; intros m Hl Hm.
  { exists m. split_and!; [done..|]. intros i Hi. by apply elem_of_nil in Hi. }
  cbn. destruct (visit_spec i m) as (m1 & -> & H1 & Hw1 & Hi); [apply Hl; left|done|]. cbn.
  destruct (IH m1) as (m2 & -> & H2 & Hw2 & Hall); [intros; apply Hl; by right|done|].
  exists m2. split_and!; [done|done|by etransitivity|].
  intros k [->|Hk]%elem_of_cons Hd.
  - apply Hw2; [|by apply Hi]. specialize (Hl i ltac:(left)). lia.
  - apply Hall; [done|]. intros j Hj. apply Hw1; [apply Hj|by apply Hd].
Qed.

(** A task that can be put in order but was not yet reached leads to one whose
    dependencies were all reached. *)
Lemma next_task_exists m i :
  (forall i j, dep i j -> j < n) -> sn dep i -> 0 <= i < n -> Z.testbit m i = false ->
  exists k, 0 <= k < n /\ Z.testbit m k = false /\ forall j, dep k j -> Z.testbit m j = true.
Proof.
  intros Hin Hsn. induction Hsn as [i _ IH]. intros Hi Hbit.
  destruct (read_ok (E := E) tasks (pg_task_offset program + i)) as (task & Ht & _); [lia|].
  assert (forall j, 0 <= j -> Z.testbit (task_dependencies task) j = true -> dep i j) as Hdep
    by (intros j Hj Hb; split_and!; [lia|lia|lia|by exists task]).
  set (missing j := Z.testbit (task_dependencies task) j && negb (Z.testbit m j)).
  destruct (existsb missing (seqZ 0 n)) eqn:Ex.
  - apply existsb_exists in Ex as (j & Hj & [Hb Hm%negb_true_iff]%andb_prop).
    apply list_elem_of_In, elem_of_indices in Hj. apply (IH j); [apply Hdep; [lia|done]|done..].
  - exists i. split_and!; [lia|lia|done|]. intros j Hd. pose proof (Hin _ _ Hd) as Hn.
    destruct Hd as (_ & Hj & task' & Ht' & Hb). rewrite Ht in Ht'. injection Ht' as <-.
    destruct (Z.testbit m j) eqn:Hm; [done|exfalso]. assert (existsb missing (seqZ 0 n) = true); [|congruence].
    apply existsb_exists. exists j. split; [by apply list_elem_of_In, elem_of_indices|].
    unfold missing. by rewrite Hb, Hm.
Qed.

Hypothesis closed : forall i j, dep i j -> j < n.

(** Each pass reaches something new until everything is reached. *)
Lemma passes_spec l m k : orderable m ->
  (k <= mask_count n m)%nat \/ (forall i, 0 <= i < n -> sn dep i -> Z.testbit m i = true) ->
  exists m', each_index (fun _ => walk_pass (E := E) tasks program) l m = Ok m' /\ orderable m' /\
    ((k + length l <= mask_count n m')%nat \/ (forall i, 0 <= i < n -> sn dep i -> Z.testbit m' i = true)).
Proof.
  revert m k. induction l as [|x l IH]; intros m k Hm Hk; cbn [each_index length].
  { exists m. split_and!; [done..|]. by rewrite Nat.add_0_r. }
  destruct (pass_spec (seqZ 0 n) m) as (m1 & Hp & H1 & Hw & Hnew); [by intros i ?%elem_of_indices|done|].
  change (walk_pass (E := E) tasks program m = Ok m1) in Hp. cbn beta. rewrite Hp. cbn [mbind result_bind]. rewrite <-Nat.add_succ_comm. apply IH; [done|].
  destruct (existsb (fun i => Z.testbit m1 i && negb (Z.testbit m i)) (seqZ 0 n)) eqn:Ex.
  - apply existsb_exists in Ex as (i & Hi & [Hb1 Hb%negb_true_iff]%andb_prop). destruct Hk as [Hk|Hk].
    + left. apply list_elem_of_In in Hi.
      assert (mask_count n m < mask_count n m1)%nat; [|lia].
      apply (filter_length_strict _ _ _ i); [|done|done|congruence].
      intros j Hj%elem_of_indices. apply Hw. lia.
    + exfalso. apply list_elem_of_In, elem_of_indices in Hi. destruct (H1 i) as [_ Hsn]; [lia|done|].
      by rewrite (Hk i) in Hb.
  - right. intros i Hi Hsn. destruct (Z.testbit m1 i) eqn:Hb1; [done|exfalso].
    destruct (next_task_exists m i) as (j & Hj & Hbj & Hd); [done|done|done| |].
    { destruct (Z.testbit m i) eqn:Hbi; [|done]. rewrite (Hw i) in Hb1; [done|lia|done]. }
    assert (existsb (fun i => Z.testbit m1 i && negb (Z.testbit m i)) (seqZ 0 n) = true); [|congruence].
    apply existsb_exists. exists j. split; [by apply list_elem_of_In, elem_of_indices|].
    rewrite Hbj, Hnew; [done|by apply elem_of_indices|done].
Qed.

(** The walk reaches exactly the tasks that can be put in order. *)
Lemma walk_tasks_spec :
  exists m, walk_tasks (E := E) tasks program = Ok m /\
    forall i, 0 <= i -> (Z.testbit m i = true <-> i < n /\ sn dep i).
Proof.
  destruct (passes_spec (seqZ 0 n) 0 0) as (m & Hm & Ho & Hc); [|left; lia|].
  { intros i Hi. by rewrite Z.bits_0. }
  exists m. split; [exact Hm|]. intros i Hi. split; [by apply Ho|]. intros [Hn Hsn].
  destruct Hc as [Hc|Hc]; [|by apply Hc]. apply (mask_count_full n m); [lia| |lia]. by rewrite length_seqZ in Hc.
Qed.
End walk.

(** A finite relation without cycles can be put in order. *)
Lemma acyclic_orderable (R : Z -> Z -> Prop) n :
  (forall i j, R i j -> 0 <= i < n /\ 0 <= j < n) -> (forall i, ~ tc R i i) <-> forall i, sn R i.
Proof.
  intros HR. split.
  - intros Hirr i. apply tc_finite_sn; [exact Hirr|]. exists (seqZ 0 n). intros j Hj. apply elem_of_indices.
    clear Hirr. induction Hj as [i j H|i j k H _ IH]; [by apply HR in H as [_ ?]|done].
  - intros Hsn i. specialize (Hsn i). induction Hsn as [i _ IH]. intros Hc. inversion Hc as [? ? H|? k ? H Hk]; subst.
    + by apply (IH i).
    + apply (IH k H). eapply tc_r; [exact Hk|done].
Qed.

(** ** What the device accepts *)

Definition program_typed (program : Program) : Prop :=
  is_u32 (pg_task_offset program) /\ is_u32 (pg_task_count program) /\ is_u32 (pg_next_program program) /\
  is_u32 (pg_flags program) /\ is_u32 (pg_branch_program program).

Record program_ok (tasks : list Task) (program_count total_task_count : Z) (good : Task -> Prop)
    (program : Program) : Prop := {
  po_count : 0 < pg_task_count program <= kMaximumTasks;
  po_range : pg_task_offset program + pg_task_count program <= total_task_count;
  po_next : pg_next_program program < program_count;
  po_branch : has_flag program kProgramBranchesOnState = true -> pg_branch_program program < program_count;
  po_flags : bits_within (pg_flags program) all_flags;
  po_tasks i : 0 <= i < pg_task_count program ->
    exists task, tasks !! Z.to_nat (pg_task_offset program + i) = Some task /\ good task;
  po_closed i j : depends tasks program i j -> j < pg_task_count program;
  po_acyclic i : ~ tc (depends tasks program) i i
}.

Section accepts.
Context {X : Type} `{!Workload X} {E : Type}.

Lemma task_valid_spec tasks program (context : X) i :
  0 <= pg_task_offset program -> 0 <= i < pg_task_count program -> pg_task_count program <= 64 ->
  pg_task_offset program + pg_task_count program <= Z.of_nat (length tasks) ->
  exists b, task_valid (E := E) tasks program context i = Ok b /\
    (b = true <-> (exists task, tasks !! Z.to_nat (pg_task_offset program + i) = Some task /\
                     valid_task task context = true) /\
                  forall j, depends tasks program i j -> j < pg_task_count program /\ j <> i).
Proof.
  intros Hoff Hi Hn Hlen. unfold task_valid.
  destruct (read_ok (E := E) tasks (pg_task_offset program + i)) as (task & Ht & ->); [lia|]. cbn.
  eexists. split; [done|]. rewrite land_one by lia.
  rewrite negb_true_iff, !orb_false_iff, !negb_false_iff, ldiff_within, negb_true_iff. split.
  - intros [[Hv Hw] Hself]. split; [by exists task|]. intros j (_ & Hj & task' & Ht' & Hb).
    rewrite Ht in Ht'. injection Ht' as <-. split; [|intros ->; congruence].
    specialize (Hw j Hj Hb). rewrite all_tasks_bit in Hw by lia. lia.
  - intros [(task' & Ht' & Hv) Hd]. rewrite Ht in Ht'. injection Ht' as <-.
    assert (forall j, 0 <= j -> Z.testbit (task_dependencies task) j = true -> j < pg_task_count program /\ j <> i) as Hd'.
    { intros j Hj Hb. apply Hd. split_and!; [lia|lia|lia|by exists task]. }
    split_and!; [done| |].
    + intros j Hj Hb. rewrite all_tasks_bit by lia. destruct (Hd' j Hj Hb). lia.
    + destruct (Z.testbit (task_dependencies task) i) eqn:Hb; [|done]. destruct (Hd' i) as [_ []]; [lia|done|done].
Qed.

Lemma program_shape_spec program program_count total_task_count :
  program_typed program ->
  program_shape_valid program program_count total_task_count = true <->
  0 < pg_task_count program <= kMaximumTasks /\
  pg_task_offset program + pg_task_count program <= total_task_count /\
  pg_next_program program < program_count /\ bits_within (pg_flags program) all_flags /\
  (has_flag program kProgramBranchesOnState = true -> pg_branch_program program < program_count).
Proof.
  intros (Ho & Hc & Hn & _ & Hb). unfold program_shape_valid.
  rewrite negb_true_iff, !orb_false_iff, negb_false_iff, ldiff_within, andb_false_iff.
  destruct (has_flag _ _); intuition lia.
Qed.

Lemma program_valid_spec tasks programs program_count total_task_count (context : X) i program :
  0 <= i -> programs !! Z.to_nat i = Some program -> program_typed program ->
  total_task_count <= Z.of_nat (length tasks) ->
  exists b, program_valid (E := E) tasks programs program_count total_task_count context i = Ok b /\
    (b = true <-> program_ok tasks program_count total_task_count (fun task => valid_task task context = true) program).
Proof.
  intros Hi Hp Htyped Hlen. unfold program_valid. rewrite (read_is _ _ _ Hi Hp). cbn.
  pose proof (program_shape_spec program program_count total_task_count Htyped) as Hshape.
  destruct (program_shape_valid program program_count total_task_count); cbn.
  2: { exists false. split; [done|]. split; [done|]. intros []. destruct Hshape as [_ Hs]. by apply Hs. }
  destruct Hshape as [(Hc & Hr & Hn & Hf & Hb) _]; [done|]. unfold kMaximumTasks in Hc. pose proof Htyped as (Ho & _).
  destruct (all_indices_spec (task_valid (E := E) tasks program context)
    (fun i => (exists task, tasks !! Z.to_nat (pg_task_offset program + i) = Some task /\ valid_task task context = true) /\
      forall j, depends tasks program i j -> j < pg_task_count program /\ j <> i)
    (seqZ 0 (pg_task_count program))) as (b & -> & Hall).
  { intros j Hj%elem_of_indices. apply task_valid_spec; lia. }
  cbn. destruct b; cbn.
  2: { exists false. split; [done|]. split; [done|]. intros [_ _ _ _ _ Ht Hcl Hac]. apply Hall. intros j Hj%elem_of_indices.
    split; [by apply Ht|]. intros k Hk. split; [by eapply Hcl|]. intros ->. apply (Hac j). by apply tc_once. }
  destruct Hall as [Hall _]. specialize (Hall eq_refl).
  assert (forall i j, depends tasks program i j -> j < pg_task_count program) as Hclosed.
  { intros j k Hd. apply (Hall j); [apply elem_of_indices, Hd|done]. }
  destruct (walk_tasks_spec (E := E) tasks program) as (m & -> & Hm); [lia|lia|lia|exact Hclosed|]. cbn.
  eexists. split; [done|]. rewrite Z.eqb_eq.
  assert (m = all_tasks_mask (pg_task_count program) <-> forall i, sn (depends tasks program) i) as ->.
  { split.
    - intros -> j. destruct (decide (0 <= j < pg_task_count program)) as [Hj|Hj].
      + apply (Hm j); [lia|]. rewrite all_tasks_bit by lia. lia.
      + constructor. intros k (Hk & _). lia.
    - intros Hsn. apply Z.bits_inj'. intros j Hj. rewrite all_tasks_bit by lia. specialize (Hm j Hj).
      destruct (Z.testbit m j); [destruct Hm as [[Hm _] _]; [done|lia]|].
      destruct (j <? _) eqn:El; [|done]. apply Hm. split; [lia|apply Hsn]. }
  rewrite <-(acyclic_orderable _ (pg_task_count program)).
  2: { intros j k Hd. split; [apply Hd|]. split; [apply Hd|by eapply Hclosed]. }
  split; [|by intros []]. intros Hac. split; try done. intros j Hj. apply Hall. by apply elem_of_indices.
Qed.

(** The graphs a resident kernel may run. *)
Record graph_ok (state : GraphState) (tasks : list Task) (programs : list Program)
    (program_count total_task_count phase_state_count : Z) (context : X) : Prop := {
  go_abi : gs_abi_version state = kAbiVersion;
  go_programs : 0 < program_count <= kMaximumPrograms;
  go_tasks : 0 < total_task_count;
  go_program : phase_program (gs_phase state) < program_count;
  go_generation : phase_generation (gs_phase state) < phase_state_count;
  go_max_steps : 0 < gs_max_steps state;
  go_workers : 0 < gs_worker_count state <= kMaximumResidentWorkers;
  go_context : valid_context state context = true;
  go_each i : 0 <= i < program_count -> exists program, programs !! Z.to_nat i = Some program /\
    program_ok tasks program_count total_task_count (fun task => valid_task task context = true) program
}.

Definition state_typed (state : GraphState) : Prop :=
  is_u32 (gs_phase state) /\ is_u32 (gs_step state) /\ is_u32 (gs_max_steps state) /\ is_u32 (gs_worker_count state).

Lemma validate_programs_spec state tasks programs phase_states
    program_count total_task_count phase_state_count (context : X) :
  state_typed state -> Forall program_typed programs ->
  is_u32 program_count -> is_u32 total_task_count -> is_u32 phase_state_count ->
  program_count <= Z.of_nat (length programs) -> total_task_count <= Z.of_nat (length tasks) ->
  exists b, validate_programs (E := E) state (Some tasks) (Some programs) (Some phase_states)
      program_count total_task_count phase_state_count context = Ok b /\
    (b = true <-> graph_ok state tasks programs program_count total_task_count phase_state_count context).
Proof.
  intros (Hphase & _ & Hmax & Hworkers) Hprograms Hpc Htc Hpsc Hpl Htl. unfold validate_programs.
  assert (0 <= phase_generation (gs_phase state)) as Hgen by (apply Z.shiftr_nonneg; lia).
  match goal with |- context [if ?guard then _ else _] => destruct guard eqn:G1 end.
  { exists false. split; [done|]. split; [done|]. intros []. unfold kMaximumPrograms in *. lia. }
  match goal with |- context [if ?guard then _ else _] => destruct guard eqn:G2 end.
  { exists false. split; [done|]. split; [done|]. intros []. rewrite go_context0 in G2. unfold kMaximumResidentWorkers in *.
    cbn in G2. lia. }
  destruct (all_indices_spec (program_valid (E := E) tasks programs program_count total_task_count context)
    (fun i => exists program, programs !! Z.to_nat i = Some program /\
      program_ok tasks program_count total_task_count (fun task => valid_task task context = true) program)
    (seqZ 0 program_count)) as (b & -> & Hall).
  { intros i Hi%elem_of_indices. destruct (lookup_lt_is_Some_2 programs (Z.to_nat i)) as [program Hp]; [lia|].
    destruct (program_valid_spec tasks programs program_count total_task_count context i program) as (b & -> & Hb);
      [lia|done|by eapply Forall_lookup_1|done|].
    exists b. split; [done|]. rewrite Hb. split; [by exists program|]. intros (program' & Hp' & H). congruence. }
  exists b. split; [done|]. rewrite Hall. destruct (valid_context state context) eqn:Hv; [|cbn in G2; lia].
  unfold kMaximumPrograms, kMaximumResidentWorkers in *. cbn in G2. split.
  - intros H. split; unfold kMaximumPrograms, kMaximumResidentWorkers; try lia. intros i Hi. apply H. by apply elem_of_indices.
  - intros [] i Hi%elem_of_indices. by apply go_each0.
Qed.
End accepts.

(** ** What the host accepts *)

Record host_program_ok (tasks : list Task) (program_count : Z) (program : Program) : Prop := {
  hp_count : 0 < pg_task_count program <= kMaximumTasks;
  hp_range : pg_task_offset program + pg_task_count program <= vector_size tasks;
  hp_next : pg_next_program program < program_count;
  hp_branch : has_flag program kProgramBranchesOnState = true -> pg_branch_program program < program_count;
  hp_flags : bits_within (pg_flags program) all_flags;
  hp_depends i j : depends tasks program i j -> j < pg_task_count program /\ j <> i
}.

Record host_graph_ok (tasks : list Task) (programs : list Program) (config : ResidentConfig) : Prop := {
  hg_tasks : 0 < vector_size tasks <= UINT32_MAX;
  hg_programs : 0 < vector_size programs <= kMaximumPrograms;
  hg_phase_states : 0 < rc_phase_state_count config <= kMaximumPhaseStates;
  hg_workers : 0 < rc_worker_count config <= kMaximumResidentWorkers;
  hg_each : forall program, program ∈ programs -> host_program_ok tasks (vector_size programs) program
}.

(** A function that returns exactly when something holds, and else throws. *)
Definition throws_unless {A} (m : result host_error A) (P : Prop) : Prop :=
  (exists a, m = Ok a /\ P) \/ (exists e, m = Err e /\ ~ P).

Lemma throws_require (condition : bool) message (P : Prop) :
  (condition = true <-> P) -> throws_unless (require condition message) P.
Proof.
  intros H. unfold require. destruct condition; [left; exists tt; split; [done|by apply H]|].
  right. eexists. split; [done|]. intros HP%H. done.
Qed.

Lemma throws_bind {A B} (m : result host_error A) (k : A -> result host_error B) (P Q : Prop) :
  throws_unless m P -> (forall a, m = Ok a -> P -> throws_unless (k a) Q) -> throws_unless (m ≫= k) (P /\ Q).
Proof.
  intros [(a & -> & HP)|(e & -> & HP)] Hk; cbn.
  - destruct (Hk a eq_refl HP) as [(b & -> & HQ)|(e & -> & HQ)]; [left; eauto|right].
    exists e. split; [done|]. by intros [_ ?].
  - right. exists e. split; [done|]. by intros [? _].
Qed.

Lemma throws_iff {A} (m : result host_error A) (P Q : Prop) : (P <-> Q) -> throws_unless m P -> throws_unless m Q.
Proof. intros H [(a & -> & HP)|(e & -> & HP)]; [left|right]; (eexists; split; [done|]); by rewrite <-H. Qed.

Lemma throws_for_each {A} (body : A -> result host_error unit) (P : A -> Prop) l :
  (forall x, x ∈ l -> throws_unless (body x) (P x)) -> throws_unless (for_each body l) (forall x, x ∈ l -> P x).
Proof.
  intros H. destruct (for_each_spec body P l) as [[Hok HP]|(e & Herr & HP)].
  - intros x Hx. destruct (H x Hx) as [([] & ? & ?)|(e & ? & ?)]; [by left|right; eauto].
  - left. by exists tt.
  - right. by exists e.
Qed.

Lemma check_dependencies_spec tasks program i :
  0 <= pg_task_offset program -> 0 <= i < pg_task_count program -> pg_task_count program <= 64 ->
  pg_task_offset program + pg_task_count program <= vector_size tasks ->
  throws_unless (check_dependencies tasks program i)
    (forall j, depends tasks program i j -> j < pg_task_count program /\ j <> i).
Proof.
  intros Hoff Hi Hn Hlen. unfold check_dependencies, vector_size in *.
  destruct (read_ok (E := host_error) tasks (pg_task_offset program + i)) as (task & Ht & ->); [lia|]. cbn.
  apply throws_require. rewrite land_one by lia.
  rewrite negb_true_iff, orb_false_iff, negb_false_iff, ldiff_within, negb_involutive. split.
  - intros [Hw Hself] j (_ & Hj & task' & Ht' & Hb). rewrite Ht in Ht'. injection Ht' as <-.
    specialize (Hw j Hj Hb). rewrite all_tasks_bit in Hw by lia. split; [lia|]. intros ->. congruence.
  - intros Hd. assert (forall j, 0 <= j -> Z.testbit (task_dependencies task) j = true ->
      j < pg_task_count program /\ j <> i) as Hd'.
    { intros j Hj Hb. apply Hd. split_and!; [lia|lia|lia|by exists task]. }
    split.
    + intros j Hj Hb. rewrite all_tasks_bit by lia. destruct (Hd' j Hj Hb). lia.
    + destruct (Z.testbit (task_dependencies task) i) eqn:Hb; [|done]. destruct (Hd' i) as [_ []]; [lia|done|done].
Qed.

Lemma check_program_spec tasks program_count program :
  program_typed program -> throws_unless (check_program tasks program_count program)
    (host_program_ok tasks program_count program).
Proof.
  intros (Ho & Hc & Hnext & _ & Hb). eapply throws_iff; cycle 1.
  { apply throws_bind; [apply throws_require; reflexivity|]. intros _ _ H1.
    apply throws_bind; [apply throws_require; reflexivity|]. intros _ _ H2.
    apply throws_bind; [apply throws_require; reflexivity|]. intros _ _ H3.
    apply throws_for_each. intros i Hi%elem_of_indices. unfold kMaximumTasks in H1. apply check_dependencies_spec; lia. }
  rewrite ldiff_within, !negb_true_iff, !orb_false_iff, andb_false_iff. split.
  - intros (H1 & H2 & H3 & H4). split; [unfold kMaximumTasks in *; lia|lia|lia| |done|].
    + intros Hf. rewrite Hf in H2. destruct H2 as [_ [?|?]]; [done|lia].
    + intros i j Hd. apply (H4 i); [apply elem_of_indices, Hd|done].
  - intros []. unfold kMaximumTasks in *. split_and!; [lia..| |done|].
    + destruct (has_flag _ _); [right; specialize (hp_branch0 eq_refl); lia|by left].
    + intros i _ j. apply hp_depends0.
Qed.

Lemma validate_resident_graph_spec tasks programs config :
  Forall program_typed programs -> 0 <= rc_phase_state_count config -> 0 <= rc_worker_count config ->
  throws_unless (validate_resident_graph tasks programs config) (host_graph_ok tasks programs config).
Proof.
  intros Htyped Hps Hw. eapply throws_iff; cycle 1.
  { do 5 (apply throws_bind; [apply throws_require; reflexivity|]; intros _ _ ?).
    eapply (throws_bind _ _ _ True); [|by intros _ _ _; left; eexists].
    apply throws_for_each. intros program Hp. apply check_program_spec. by eapply Forall_forall. }
  unfold vector_size. rewrite !negb_true_iff, !orb_false_iff. split.
  - intros (H1 & H2 & H3 & H4 & H5 & H6 & _). split; unfold vector_size; try lia. exact H6.
  - intros []. unfold vector_size in *. split_and!; try lia; done.
Qed.

(** A graph the host accepted, in a fresh state, is one the device accepts
    exactly when its programs have no cycles and the workload takes it. *)
Lemma host_graph_device {X} `{!Workload X} tasks programs config state (context : X) :
  host_graph_ok tasks programs config ->
  gs_abi_version state = kAbiVersion -> phase_program (gs_phase state) < vector_size programs ->
  phase_generation (gs_phase state) = 0 -> 0 < gs_max_steps state ->
  gs_worker_count state = rc_worker_count config -> valid_context state context = true ->
  (forall task, task ∈ tasks -> valid_task task context = true) ->
  Forall program_typed programs ->
  graph_ok state tasks programs (vector_size programs) (vector_size tasks) (rc_phase_state_count config) context <->
  forall program i, program ∈ programs -> ~ tc (depends tasks program) i i.
Proof.
  intros [H1 H2 H3 H4 H5] Habi Hphase Hgen Hmax Hworkers Hctx Htasks Htyped. split.
  - intros [] program i Hp. apply list_elem_of_lookup in Hp as [k Hk].
    destruct (go_each0 (Z.of_nat k)) as (program' & Hp' & [])
      ; [apply lookup_lt_Some in Hk; unfold vector_size; lia|].
    rewrite Nat2Z.id in Hp'. replace program with program' by congruence. done.
  - intros Hac. split; try done; try lia. intros i Hi.
    destruct (lookup_lt_is_Some_2 programs (Z.to_nat i)) as [program Hp]; [unfold vector_size in *; lia|].
    exists program. split; [done|]. assert (program ∈ programs) as Hin by (by eapply list_elem_of_lookup_2).
    destruct (H5 program Hin) as [Hc Hr Hn Hb Hf Hd].
    assert (program_typed program) as (Ho & _) by (by eapply Forall_lookup_1).
    split; try done; [|intros j k Hjk; by apply (Hd j k)|intros j; by apply Hac].
    intros j Hj. destruct (lookup_lt_is_Some_2 tasks (Z.to_nat (pg_task_offset program + j))) as [task Ht];
      [unfold vector_size in *; lia|]. exists task. split; [done|]. apply Htasks. by eapply list_elem_of_lookup_2.
Qed.

(** ** Compiled plans *)

(** Stages that run the tasks of a program from [b] to [e], each without
    dependencies inside. *)
Fixpoint tiling (tasks : list Task) (program : Program) (b : Z) (stages : list Stage) (e : Z) : Prop :=
  match stages with
  | [] => b = e
  | stage :: stages =>
      sg_task_offset stage = pg_task_offset program + b /\ 0 < sg_task_count stage /\
      b + sg_task_count stage <= pg_task_count program /\
      (forall i j, b <= i < b + sg_task_count stage -> depends tasks program i j -> j < b) /\
      tiling tasks program (b + sg_task_count stage) stages e
  end.

Definition plan_segment (stages : list Stage) (compiled : CompiledProgram) : list Stage :=
  list.take (Z.to_nat (cp_stage_count compiled)) (drop (Z.to_nat (cp_stage_offset compiled)) stages).

(** The stages of a compiled program run its tasks. *)
Record compiled_ok (tasks : list Task) (stages : list Stage) (stage_count : Z) (program : Program)
    (compiled : CompiledProgram) : Prop := {
  co_count : 0 < cp_stage_count compiled;
  co_range : cp_stage_offset compiled + cp_stage_count compiled <= stage_count;
  co_tiling : tiling tasks program 0 (plan_segment stages compiled) (pg_task_count program)
}.

Lemma mask_extend b c : 0 <= b -> 0 < c -> b + c <= 64 ->
  Z.lor (all_tasks_mask b) (to_u64 (Z.shiftl (all_tasks_mask c) b)) = all_tasks_mask (b + c).
Proof.
  intros Hb Hc Hle. rewrite !all_tasks_ones by lia. rewrite to_u64_small.
  - apply Z.bits_inj'. intros j Hj. rewrite Z.lor_spec, Z.shiftl_spec by done.
    rewrite !Z.testbit_ones by lia. destruct (Z.lt_ge_cases j b).
    + replace ((0 <=? j) && (j <? b)) with true by lia. cbn. lia.
    + replace ((0 <=? j) && (j <? b)) with false by lia. rewrite orb_false_l. lia.
  - rewrite Z.shiftl_mul_pow2, Z.ones_equiv by lia. unfold Z.pred.
    assert (2 ^ c * 2 ^ b <= U64_MOD).
    { rewrite <-Z.pow_add_r by lia. change U64_MOD with (2 ^ 64). apply Z.pow_le_mono_r; lia. }
    pose proof (Z.pow_pos_nonneg 2 b). pose proof (Z.pow_pos_nonneg 2 c). nia.
Qed.

(** The test of one task against the tasks before its stage. *)
Lemma before_stage tasks program i b task :
  0 <= i < pg_task_count program -> 0 <= b <= 64 ->
  tasks !! Z.to_nat (pg_task_offset program + i) = Some task ->
  (Z.land (task_dependencies task) (all_tasks_mask b) =? task_dependencies task) = true <->
  forall j, depends tasks program i j -> j < b.
Proof.
  intros Hi Hb Ht. rewrite land_within. split.
  - intros H j (_ & Hj & task' & Ht' & Hbit). rewrite Ht in Ht'. injection Ht' as <-.
    specialize (H j Hj Hbit). rewrite all_tasks_bit in H by lia. lia.
  - intros H j Hj Hbit. rewrite all_tasks_bit by lia. enough (j < b) by lia. apply H.
    split_and!; [lia|lia|lia|by exists task].
Qed.

Section stages.
Context (tasks : list Task) (program : Program).
Let n := pg_task_count program.
Let off := pg_task_offset program.
Hypothesis count : 0 <= n <= 64.
Hypothesis offset : 0 <= off.
Hypothesis present : off + n <= Z.of_nat (length tasks).
Hypothesis wide : off + n < U32_MOD.
Hypothesis typed : forall i task, tasks !! i = Some task -> is_u64 (task_dependencies task).

Lemma stage_tasks {E} b stage :
  0 <= b -> sg_task_offset stage = off + b -> b + sg_task_count stage <= n ->
  exists r, all_indices (stage_task_valid (E := E) tasks stage (all_tasks_mask b)) (seqZ 0 (sg_task_count stage)) = Ok r /\
    (r = true <-> forall i j, b <= i < b + sg_task_count stage -> depends tasks program i j -> j < b).
Proof.
  intros Hb Hoff Hle.
  destruct (all_indices_spec (stage_task_valid (E := E) tasks stage (all_tasks_mask b))
    (fun i => forall j, depends tasks program (b + i) j -> j < b) (seqZ 0 (sg_task_count stage))) as (r & -> & Hr).
  { intros i Hi%elem_of_indices. unfold stage_task_valid. rewrite Hoff, <-Z.add_assoc.
    destruct (read_ok (E := E) tasks (off + (b + i))) as (task & Ht & ->); [lia|]. cbn. eexists. split; [done|].
    apply before_stage; [fold n; lia|lia|done]. }
  exists r. split; [done|]. rewrite Hr. split.
  - intros H i j Hi. specialize (H (i - b)). replace (b + (i - b)) with i in H by lia. apply H.
    apply elem_of_indices. lia.
  - intros H i Hi%elem_of_indices j. apply H. lia.
Qed.

(** The device's check of the stages of a program. *)
Lemma stages_valid_spec {E} stages indices seg b :
  Forall2 (fun i stage => read (E := E) stages i = Ok stage) indices seg -> Forall (fun stage => is_u32 (sg_task_count stage)) seg ->
  0 <= b <= n ->
  exists r, stages_valid (E := E) tasks stages program indices (off + b) (all_tasks_mask b) = Ok r /\
    forall e, r = Some (off + e) <-> tiling tasks program b seg e.
Proof.
  intros Hread. revert b. induction Hread as [|i stage indices seg Hi _ IH]; intros b Htyped Hb; cbn [stages_valid tiling].
  { exists (Some (off + b)). split; [done|]. intros e. split; [intros [= ?]; lia|by intros ->]. }
  rewrite Hi. cbn [mbind result_bind]. apply Forall_cons in Htyped as [Hst Htyped].
  replace (to_u32 (off + b - pg_task_offset program)) with b by (fold off; rewrite to_u32_small; lia).
  fold n. rewrite (to_u32_small (n - b)) by lia.
  match goal with |- context [if ?guard then _ else _] => destruct guard eqn:G end.
  { exists None. split; [done|]. intros e. split; [done|]. intros (H1 & H2 & H3 & _). fold off in H1. lia. }
  destruct (stage_tasks (E := E) b stage) as (r & -> & Hr); [lia|lia|lia|]. cbn [mbind result_bind].
  destruct r; cbn [negb].
  2: { exists None. split; [done|]. intros e. split; [done|]. intros (_ & _ & _ & H & _). by apply Hr in H. }
  rewrite mask_extend by lia. rewrite (to_u32_small (off + b + _)) by lia. rewrite <-Z.add_assoc.
  destruct (IH (b + sg_task_count stage) Htyped) as (r & -> & Hend); [lia|]. exists r. split; [done|]. intros e.
  rewrite Hend. split; [|by intros (_ & _ & _ & _ & ?)]. intros H. fold off n.
  split_and!; [lia|lia|lia|by apply Hr|done].
Qed.

(** The host's check agrees with it. *)
Lemma check_stages_spec stages indices seg b e :
  Forall2 (fun i stage => read (E := host_error) stages i = Ok stage) indices seg ->
  0 <= b <= n -> tiling tasks program b seg e -> Forall (fun stage => is_u32 (sg_task_count stage)) seg ->
  check_stages tasks stages program indices (off + b) (all_tasks_mask b) = Ok (off + e).
Proof.
  intros Hread. revert b. induction Hread as [|i stage indices seg Hi _ IH]; intros b Hb; cbn [check_stages tiling].
  { by intros ->. }
  intros (H1 & H2 & H3 & H4 & H5) [Hst Htyped]%Forall_cons. fold off in H1. fold n in H3. rewrite Hi. cbn [mbind result_bind].
  replace (to_u32 (off + b - pg_task_offset program)) with b by (fold off; rewrite to_u32_small; lia).
  fold n. rewrite (to_u32_small (n - b)) by lia.
  match goal with |- context [require ?guard _] => replace guard with true by lia end. cbn [require mbind result_bind].
  destruct (throws_for_each (check_stage_task tasks stage (all_tasks_mask b))
    (fun i => forall j, depends tasks program (b + i) j -> j < b) (seqZ 0 (sg_task_count stage))) as [([] & -> & _)|(err & _ & [])].
  { intros k Hk%elem_of_indices. unfold check_stage_task. rewrite H1, <-Z.add_assoc.
    destruct (read_ok (E := host_error) tasks (off + (b + k))) as (task & Ht & ->); [lia|]. cbn.
    apply throws_require, before_stage; [fold n; lia|lia|done]. }
  - cbn [mbind result_bind]. rewrite mask_extend by lia. rewrite (to_u32_small (off + b + _)) by lia.
    rewrite <-Z.add_assoc. apply IH; [lia|done|done].
  - intros k Hk%elem_of_indices j. apply H4. lia.
Qed.

(** The tasks of a program wait only for earlier ones. *)
Definition in_order : Prop := forall i j, depends tasks program i j -> j < i.

Lemma stage_end_spec fuel b next :
  0 <= b <= next -> next <= n -> (Z.to_nat (n - next) < fuel)%nat ->
  exists e, stage_end fuel tasks program (all_tasks_mask b) next = Ok e /\ next <= e <= n /\
    (forall i j, next <= i < e -> depends tasks program i j -> j < b) /\
    (e < n -> exists j, depends tasks program e j /\ b <= j).
Proof.
  revert next. induction fuel as [|fuel IH]; intros next Hb Hn Hf; [lia|]. cbn [stage_end]. fold n.
  destruct (next <? n) eqn:El.
  2: { exists next. split_and!; [done|lia|lia|intros; lia|lia]. }
  fold off. rewrite (to_u32_small (off + next)) by lia.
  destruct (read_ok (E := host_error) tasks (off + next)) as (task & Ht & ->); [lia|]. cbn [mbind result_bind].
  pose proof (before_stage tasks program next b task) as Hbs.
  destruct (Z.land (task_dependencies task) (all_tasks_mask b) =? task_dependencies task) eqn:Hd.
  - destruct (IH (next + 1)) as (e & -> & He & Htasks & Hend); [lia..|]. exists e. split_and!; [done|lia|lia| |done].
    intros i j Hi. destruct (decide (i = next)) as [->|]; [|apply Htasks; lia].
    apply Hbs; [fold n; lia|lia|done|done].
  - exists next. split_and!; [done|lia|lia|intros; lia|]. intros _.
    destruct (existsb (fun j => Z.testbit (task_dependencies task) j && (b <=? j)) (seqZ 0 64)) eqn:Ex.
    + apply existsb_exists in Ex as (j & Hj & [Hbit Hle]%andb_prop). apply list_elem_of_In, elem_of_indices in Hj.
      exists j. split; [|lia]. split_and!; [fold n; lia|fold n; lia|lia|by exists task].
    + exfalso. enough (false = true) by done. apply Hbs; [fold n; lia|lia|done|].
      intros j (_ & Hj & task' & Ht' & Hbit). fold off in Ht'. rewrite Ht in Ht'. injection Ht' as <-.
      destruct (decide (j < b)) as [|Hge]; [done|exfalso]. destruct (decide (j < 64)) as [Hlt|Hlt].
      * assert (existsb (fun j => Z.testbit (task_dependencies task) j && (b <=? j)) (seqZ 0 64) = true); [|congruence].
        apply existsb_exists. exists j. split; [by apply list_elem_of_In, elem_of_indices|]. rewrite Hbit. cbn. lia.
      * pose proof (typed _ _ Ht) as Hu. rewrite Z.bits_above_log2 in Hbit; [done|lia|].
        enough (Z.log2 (task_dependencies task) < 64) by lia. by apply log2_below.
Qed.

Lemma compile_stages_spec fuel b stages :
  0 <= b <= n -> (Z.to_nat (n - b) < fuel)%nat ->
  (exists seg, compile_stages fuel tasks program b (all_tasks_mask b) stages = Ok (stages ++ seg) /\
     tiling tasks program b seg n /\ Forall (fun stage => is_u32 (sg_task_count stage)) seg /\
     (length seg <= Z.to_nat (n - b))%nat /\ (forall i j, b <= i -> depends tasks program i j -> j < i)) \/
  (exists e, compile_stages fuel tasks program b (all_tasks_mask b) stages = Err e /\ ~ in_order).
Proof.
  revert b stages. induction fuel as [|fuel IH]; intros b stages Hb Hf; [lia|]. cbn [compile_stages]. fold n.
  destruct (b <? n) eqn:El.
  2: { left. exists []. rewrite app_nil_r. split_and!; [done|cbn; lia|constructor|cbn; lia|].
    intros i j Hi (Hin & _). fold n in Hin. lia. }
  destruct (stage_end_spec (S (Z.to_nat n)) b b) as (e & -> & He & Htasks & Hend); [lia..|]. cbn [mbind result_bind].
  destruct (e =? b) eqn:Ee.
  - right. eexists. split; [done|]. intros Hord. destruct Hend as (j & Hd & Hj); [lia|]. specialize (Hord _ _ Hd). lia.
  - rewrite mask_extend by lia. replace (b + (e - b)) with e by lia.
    rewrite (to_u32_small (pg_task_offset program + b)) by (fold off; lia).
    destruct (IH e (stages ++ [mkStage (pg_task_offset program + b) (e - b)])) as [(seg & -> & Ht & Hu & Hlen & Hord)|(err & -> & Hno)];
      [lia|lia|left|right; by exists err].
    eexists (_ :: seg). rewrite <-app_assoc. split; [done|]. cbn [tiling sg_task_offset sg_task_count length].
    split_and!; [done|lia|fold n; lia| |by replace (b + (e - b)) with e by lia|constructor; [cbn; lia|done]|lia|].
    + intros i j Hi. apply Htasks. lia.
    + intros i j Hi Hd. destruct (decide (i < e)) as [Hl|Hl]; [|apply Hord; [lia|done]].
      enough (j < b) by lia. apply (Htasks i); [lia|done].
Qed.
End stages.

Lemma in_order_acyclic tasks program i : in_order tasks program -> ~ tc (depends tasks program) i i.
Proof.
  intros Hord Hc. enough (forall j, tc (depends tasks program) i j -> j < i) as H by (specialize (H i Hc); lia).
  clear Hc. intros j Hj. induction Hj as [i j H|i k j H _ IH]; [by apply Hord|]. specialize (Hord _ _ H). lia.
Qed.

Definition plan_typed (stages : list Stage) (compiled_programs : list CompiledProgram) : Prop :=
  Forall (fun stage => is_u32 (sg_task_count stage)) stages /\
  Forall (fun compiled => is_u32 (cp_stage_offset compiled) /\ is_u32 (cp_stage_count compiled)) compiled_programs.

(** The stages of a compiled program, as the loop over them reads them. *)
Lemma segment_reads {E} (stages : list Stage) o k :
  0 <= o -> 0 <= k -> o + k <= Z.of_nat (length stages) ->
  Forall2 (fun i stage => read (E := E) stages i = Ok stage) (seqZ o k)
    (list.take (Z.to_nat k) (drop (Z.to_nat o) stages)).
Proof.
  intros Ho Hk Hle. apply Forall2_same_length_lookup_2.
  - rewrite length_seqZ, length_take, length_drop. lia.
  - intros i index stage Hi Hs. apply lookup_seqZ in Hi as [-> Hi]. rewrite lookup_take_lt, lookup_drop in Hs by lia.
    apply read_is; [lia|]. by replace (Z.to_nat (o + Z.of_nat i)) with (Z.to_nat o + i)%nat by lia.
Qed.

Section plans.
Context (tasks : list Task) (total_task_count : Z).
Hypothesis table : total_task_count <= Z.of_nat (length tasks).
Hypothesis narrow : is_u32 total_task_count.
Hypothesis typed : Forall task_typed tasks.

(** A program whose tasks are in the table. *)
Definition located (program : Program) : Prop :=
  0 <= pg_task_offset program /\ 0 < pg_task_count program <= 64 /\
  pg_task_offset program + pg_task_count program <= total_task_count.

Lemma compiled_program_valid_spec {E} programs stages compiled_programs stage_count i program compiled :
  0 <= i -> programs !! Z.to_nat i = Some program -> compiled_programs !! Z.to_nat i = Some compiled ->
  located program -> plan_typed stages compiled_programs -> stage_count <= Z.of_nat (length stages) ->
  exists b, compiled_program_valid (E := E) tasks programs stages compiled_programs stage_count i = Ok b /\
    (b = true <-> compiled_ok tasks stages stage_count program compiled).
Proof.
  intros Hi Hp Hc (Ho & Hn & Hr) [Hstages Hcompiled] Hlen. unfold compiled_program_valid.
  rewrite (read_is _ _ _ Hi Hp), (read_is _ _ _ Hi Hc). cbn [mbind result_bind].
  destruct (Forall_lookup_1 _ _ _ _ Hcompiled Hc) as [Hco Hcc]. destruct (_ || _) eqn:G.
  { exists false. split; [done|]. split; [done|]. intros []. lia. }
  destruct (stages_valid_spec tasks program ltac:(lia) ltac:(lia) ltac:(lia) ltac:(lia) (E := E) stages
    (seqZ (cp_stage_offset compiled) (cp_stage_count compiled)) (plan_segment stages compiled) 0) as (r & Hv & Htile).
  { apply segment_reads; lia. }
  { by apply Forall_take, Forall_drop. }
  { lia. }
  rewrite Z.add_0_r in Hv. change (all_tasks_mask 0) with 0 in Hv. rewrite Hv. cbn [mbind result_bind].
  eexists. split; [done|]. specialize (Htile (pg_task_count program)).
  rewrite to_u32_small by lia. destruct r as [x|].
  - rewrite Z.eqb_eq. split.
    + intros ->. split; [lia|lia|]. by apply Htile.
    + intros [_ _ H]. apply Htile in H. by injection H as ->.
  - split; [done|]. intros [_ _ H]. by apply Htile in H.
Qed.

Lemma segment_middle (before seg after : list Stage) o c :
  o = vector_size before -> c = vector_size seg -> plan_segment (before ++ seg ++ after) (mkCompiledProgram o c) = seg.
Proof.
  unfold vector_size, plan_segment. intros -> ->. cbn. rewrite !Nat2Z.id, drop_app_length, take_app_length. done.
Qed.

Lemma tiling_nonempty program seg n : 0 < n -> tiling tasks program 0 seg n -> 0 < vector_size seg.
Proof. unfold vector_size. destruct seg; cbn; lia. Qed.

Lemma compile_programs_spec programs plan :
  Forall located programs -> vector_size (pl_stages plan) + 64 * vector_size programs < U32_MOD ->
  (exists stages compiled, compile_programs tasks programs plan =
       Ok (mkCompiledPlan (pl_stages plan ++ stages) (pl_programs plan ++ compiled)) /\
     (forall after, Forall2 (fun program compiled => compiled_ok tasks (pl_stages plan ++ stages ++ after)
        (vector_size (pl_stages plan ++ stages)) program compiled) programs compiled) /\
     plan_typed stages compiled /\ vector_size stages <= 64 * vector_size programs /\
     (0 < vector_size programs -> 0 < vector_size stages) /\
     forall program, program ∈ programs -> in_order tasks program) \/
  (exists e, compile_programs tasks programs plan = Err e /\ ~ forall program, program ∈ programs -> in_order tasks program).
Proof.
  revert plan. induction programs as [|program programs IH]; intros plan Hloc Hsize; cbn [compile_programs].
  { left. exists [], []. rewrite !app_nil_r. destruct plan. split_and!; [done|by constructor|by split; constructor|by cbn|by cbn|].
    intros program Hp. by apply elem_of_nil in Hp. }
  apply Forall_cons in Hloc as [(Ho & Hn & Hr) Hloc]. unfold vector_size in Hsize. cbn [length] in Hsize.
  destruct (compile_stages_spec tasks program ltac:(lia) ltac:(lia) ltac:(lia) ltac:(lia)
    ltac:(intros; apply task_dependencies_range; by eapply Forall_lookup_1)
    (S (Z.to_nat (pg_task_count program))) 0 (pl_stages plan)) as [(seg & Hc & Htile & Hseg & Hlen & Hord)|(e & Hc & Hno)]; [lia|lia|..];
    change (all_tasks_mask 0) with 0 in Hc; rewrite Hc; cbn [mbind result_bind].
  2: { right. exists e. split; [done|]. intros H. apply Hno, H. left. }
  assert (in_order tasks program) as Hin by (intros i j Hd; apply (Hord i j); [apply Hd|done]).
  set (compiled := mkCompiledProgram (vector_size (pl_stages plan)) (vector_size seg)).
  replace (mkCompiledProgram _ _) with compiled.
  2: { unfold compiled, vector_size. rewrite length_app, Nat2Z.inj_add.
    rewrite (to_u32_small (Z.of_nat (length (pl_stages plan)))), (to_u32_small (_ + _)), to_u32_small by lia.
    f_equal. lia. }
  destruct (IH (mkCompiledPlan (pl_stages plan ++ seg) (pl_programs plan ++ [compiled])) Hloc) as
    [(stages & compileds & -> & Hok & Hty & Hl & _ & Hall)|(e & -> & Hno)]; cbn [pl_stages pl_programs] in *.
  { unfold vector_size. rewrite length_app. lia. }
  - left. exists (seg ++ stages), (compiled :: compileds). rewrite <-!app_assoc.
    pose proof (tiling_nonempty program seg (pg_task_count program) ltac:(lia) Htile).
    unfold vector_size in *. split_and!; [done| | | | |].
    + intros after. constructor.
      * split; unfold compiled; cbn [cp_stage_count cp_stage_offset].
        -- unfold vector_size. lia.
        -- rewrite !length_app. unfold vector_size. lia.
        -- rewrite <-app_assoc. rewrite segment_middle; done.
      * eapply Forall2_impl; [exact (Hok after)|]. intros p c. by rewrite <-!app_assoc.
    + destruct Hty as [Hty1 Hty2]. split; [by apply Forall_app|]. constructor; [|done]. unfold compiled. cbn. unfold vector_size. lia.
    + rewrite length_app. cbn [length]. lia.
    + rewrite length_app. lia.
    + by intros p [->|Hp]%elem_of_cons; [|apply Hall].
  - right. exists e. split; [done|]. intros H. apply Hno. intros p Hp. apply H. by right.
Qed.
End plans.

Section exact.
Context {X : Type} `{!Workload X}.

Definition plan_ok (tasks : list Task) (programs : list Program) (program_count : Z) (stages : list Stage)
    (compiled_programs : list CompiledProgram) (stage_count : Z) : Prop :=
  0 < stage_count /\ forall i program compiled, 0 <= i < program_count ->
    programs !! Z.to_nat i = Some program -> compiled_programs !! Z.to_nat i = Some compiled ->
    compiled_ok tasks stages stage_count program compiled.

Lemma graph_ok_located state tasks programs program_count total_task_count phase_state_count (context : X) i program :
  graph_ok state tasks programs program_count total_task_count phase_state_count context ->
  Forall program_typed programs -> 0 <= i < program_count -> programs !! Z.to_nat i = Some program ->
  located total_task_count program.
Proof.
  intros Hok Htyped Hi Hp. destruct (go_each _ _ _ _ _ _ _ Hok i Hi) as (program' & Hp' & [Hc Hr _ _ _ _ _ _]).
  rewrite Hp in Hp'. injection Hp' as <-. destruct (Forall_lookup_1 _ _ _ _ Htyped Hp) as (Ho & _).
  unfold kMaximumTasks in Hc. split_and!; lia.
Qed.

Lemma validate_plan_spec state tasks programs phase_states stages compiled_programs
    program_count total_task_count phase_state_count stage_count (context : X) :
  state_typed state -> Forall task_typed tasks -> Forall program_typed programs -> plan_typed stages compiled_programs ->
  is_u32 program_count -> is_u32 total_task_count -> is_u32 phase_state_count -> is_u32 stage_count ->
  program_count <= vector_size programs -> total_task_count <= vector_size tasks ->
  program_count <= vector_size compiled_programs -> stage_count <= vector_size stages ->
  exists b, validate_plan (E := Empty_set) state (Some tasks) (Some programs) (Some phase_states) (Some stages)
      (Some compiled_programs) program_count total_task_count phase_state_count stage_count context = Ok b /\
    (b = true <-> graph_ok state tasks programs program_count total_task_count phase_state_count context /\
                  plan_ok tasks programs program_count stages compiled_programs stage_count).
Proof.
  unfold vector_size. intros Hstate Htasks Htyped Hplan Hpc Htc Hpsc Hsc Hpl Htl Hcl Hsl. unfold validate_plan.
  destruct (validate_programs_spec (E := Empty_set) state tasks programs phase_states program_count total_task_count
    phase_state_count context) as (b & -> & Hb); [done..|]. cbn [mbind result_bind].
  destruct b; [|exists false; split; [done|]; split; [done|]; intros [H _]; by apply Hb].
  pose proof (proj1 Hb eq_refl) as Hok. unfold plan_ok. destruct (stage_count =? 0) eqn:Hz.
  { exists false. split; [done|]. split; [done|]. lia. }
  destruct (all_indices_spec (compiled_program_valid (E := Empty_set) tasks programs stages compiled_programs stage_count)
    (fun i => forall program compiled, programs !! Z.to_nat i = Some program ->
       compiled_programs !! Z.to_nat i = Some compiled -> compiled_ok tasks stages stage_count program compiled)
    (seqZ 0 program_count)) as (b & -> & Hall).
  { intros i Hi%elem_of_indices. destruct (lookup_lt_is_Some_2 programs (Z.to_nat i)) as [program Hp]; [lia|].
    destruct (lookup_lt_is_Some_2 compiled_programs (Z.to_nat i)) as [compiled Hc]; [lia|].
    destruct (compiled_program_valid_spec tasks total_task_count Htl Htc (E := Empty_set) programs stages compiled_programs
      stage_count i program compiled) as (b & -> & Hcv); [lia|done|done|by eapply graph_ok_located|done|lia|].
    exists b. split; [done|]. rewrite Hcv. split; [intros; by simplify_eq|]. intros H. by apply H. }
  exists b. split; [done|]. rewrite Hall. split.
  - intros H. split_and!; [done|lia|]. intros i program compiled Hi. apply H. by apply elem_of_indices.
  - intros (_ & _ & H) i Hi%elem_of_indices program compiled. by apply H.
Qed.
End exact.

(** C12: the device accepts exactly the graphs it can run.  On typed
    descriptors and tables at least as long as their counts, both checks
    return without reading outside the tables.  [validate_programs] accepts if
    and only if the header is in range, every program has its tasks in the
    table, successors that exist, known flags, dependencies inside the program
    and no cycle among them; [validate_plan] if and only if moreover the stages
    of each program run all its tasks in order, none before a task it depends
    on. *)
Theorem graph_validation_exact {X} `{!Workload X} state tasks programs phase_states stages compiled_programs
    program_count total_task_count phase_state_count stage_count (context : X) :
  state_typed state -> Forall task_typed tasks -> Forall program_typed programs -> plan_typed stages compiled_programs ->
  is_u32 program_count -> is_u32 total_task_count -> is_u32 phase_state_count -> is_u32 stage_count ->
  program_count <= vector_size programs -> total_task_count <= vector_size tasks ->
  program_count <= vector_size compiled_programs -> stage_count <= vector_size stages ->
  exists accepted accepted_plan,
    validate_programs (E := Empty_set) state (Some tasks) (Some programs) (Some phase_states)
      program_count total_task_count phase_state_count context = Ok accepted /\
    validate_plan (E := Empty_set) state (Some tasks) (Some programs) (Some phase_states) (Some stages)
      (Some compiled_programs) program_count total_task_count phase_state_count stage_count context = Ok accepted_plan /\
    (accepted = true <-> graph_ok state tasks programs program_count total_task_count phase_state_count context) /\
    (accepted_plan = true <->
       graph_ok state tasks programs program_count total_task_count phase_state_count context /\
       plan_ok tasks programs program_count stages compiled_programs stage_count).
Proof.
  intros Hstate Htasks Htyped Hplan Hpc Htc Hpsc Hsc Hpl Htl Hcl Hsl.
  destruct (validate_programs_spec (E := Empty_set) state tasks programs phase_states program_count total_task_count
    phase_state_count context) as (b & -> & Hb); [done..|].
  destruct (validate_plan_spec state tasks programs phase_states stages compiled_programs program_count total_task_count
    phase_state_count stage_count context) as (b' & -> & Hb'); [done..|]. by exists b, b'.
Qed.

(** The check of the host accepts a plan whose programs are all covered. *)
Lemma validate_compiled_plan_accepts tasks programs stages compiled :
  0 < vector_size stages -> vector_size tasks <= UINT32_MAX -> Forall (located (vector_size tasks)) programs ->
  plan_typed stages compiled -> Forall2 (compiled_ok tasks stages (vector_size stages)) programs compiled ->
  validate_compiled_plan tasks programs (mkCompiledPlan stages compiled) = Ok tt.
Proof.
  intros Hne Ht Hloc [Hty1 Hty2] Hcok. pose proof (Forall2_length _ _ _ Hcok) as Hl.
  unfold validate_compiled_plan. cbn [pl_stages pl_programs]. replace (vector_size compiled) with (vector_size programs) by (unfold vector_size; lia). rewrite Z.eqb_refl.
  rewrite (proj2 (Z.eqb_neq _ _)) by lia. cbn.
  destruct (throws_for_each (check_compiled_program tasks programs (mkCompiledPlan stages compiled)) (fun _ => True)
    (seqZ 0 (vector_size programs))) as [([] & -> & _)|(e & _ & [])]; [|done|done].
  intros i Hi%elem_of_indices. left. exists tt. split; [|done]. unfold vector_size in Hi.
  destruct (lookup_lt_is_Some_2 programs (Z.to_nat i)) as [program Hpi]; [lia|].
  destruct (lookup_lt_is_Some_2 compiled (Z.to_nat i)) as [c Hci]; [lia|].
  destruct (Forall2_lookup_lr _ _ _ _ _ _ Hcok Hpi Hci) as [Hc1 Hc2 Hc3].
  destruct (Forall_lookup_1 _ _ _ _ Hty2 Hci) as [Hc4 Hc5]. destruct (Forall_lookup_1 _ _ _ _ Hloc Hpi) as (L1 & L2 & L3).
  unfold check_compiled_program. cbn [pl_stages pl_programs].
  rewrite (read_is programs i program ltac:(lia) Hpi), (read_is compiled i c ltac:(lia) Hci). cbn [mbind result_bind].
  match goal with |- context [require ?guard _] => replace guard with true by lia end. cbn [require mbind result_bind].
  pose proof (check_stages_spec tasks program ltac:(lia) ltac:(lia) ltac:(unfold vector_size in *; lia) ltac:(lia) stages
    (seqZ (cp_stage_offset c) (cp_stage_count c)) (plan_segment stages c) 0 (pg_task_count program)) as Hcs.
  rewrite Z.add_0_r in Hcs. change (all_tasks_mask 0) with 0 in Hcs. rewrite Hcs; [|apply segment_reads; unfold vector_size in *; lia|lia|done|by apply Forall_take, Forall_drop].
  cbn [mbind result_bind]. rewrite to_u32_small by lia. by rewrite Z.eqb_refl.
Qed.

(** C13: a plan is compiled exactly for the graphs that are valid and list
    their tasks in order, and the device accepts it.  On typed descriptors
    [compile_resident_plan] returns, without reading outside the tables; it
    returns a plan if and only if the graph is valid and every task depends on
    earlier ones only, and throws otherwise; and for every plan it returns, in
    a fresh state with a workload that takes the tasks, [validate_plan] on the
    device accepts the graph and the plan. *)
Theorem compile_resident_plan_exact tasks programs config :
  Forall task_typed tasks -> Forall program_typed programs ->
  is_u32 (rc_phase_state_count config) -> is_u32 (rc_worker_count config) ->
  throws_unless (compile_resident_plan tasks programs config)
    (host_graph_ok tasks programs config /\ forall program, program ∈ programs -> in_order tasks program) /\
  forall plan, compile_resident_plan tasks programs config = Ok plan ->
  forall X `{WX : !Workload X} state phase_states (context : X), state_typed state ->
    gs_abi_version state = kAbiVersion -> phase_program (gs_phase state) < vector_size programs ->
    phase_generation (gs_phase state) = 0 -> 0 < gs_max_steps state ->
    gs_worker_count state = rc_worker_count config -> valid_context state context = true ->
    (forall task, task ∈ tasks -> valid_task task context = true) ->
    validate_plan (E := Empty_set) state (Some tasks) (Some programs) (Some phase_states) (Some (pl_stages plan))
      (Some (pl_programs plan)) (vector_size programs) (vector_size tasks) (rc_phase_state_count config)
      (vector_size (pl_stages plan)) context = Ok true.
Proof.
  intros Htasks Htyped Hps Hw. unfold compile_resident_plan.
  destruct (validate_resident_graph_spec tasks programs config) as [(graph & -> & Hok)|(e & -> & Hno)]; [done|lia|lia|..];
    cbn [mbind result_bind].
  2: { split; [right; exists e; split; [done|]; tauto|done]. }
  pose proof Hok as [Ht Hp Hg Hwk Heach]. unfold kMaximumPrograms in Hp.
  assert (Forall (located (vector_size tasks)) programs) as Hloc.
  { apply Forall_forall. intros program Hin. destruct (Heach program Hin). unfold kMaximumTasks in *.
    rewrite Forall_forall in Htyped. destruct (Htyped program Hin) as (Ho & _). split_and!; lia. }
  destruct (compile_programs_spec tasks (vector_size tasks) ltac:(done) ltac:(lia) Htasks programs (mkCompiledPlan [] []))
    as [(stages & compiled & -> & Hcok & [Hty1 Hty2] & Hlen & Hne & Hord)|(e & -> & Hno)]; [done|unfold vector_size in *; cbn [pl_stages length]; lia|..]; cbn [mbind result_bind pl_stages pl_programs app].
  2: { split; [right; exists e; split; [done|]; tauto|done]. }
  specialize (Hcok []). cbn [pl_stages app] in Hcok. rewrite app_nil_r in Hcok. pose proof (Forall2_length _ _ _ Hcok) as Hl.
  rewrite (validate_compiled_plan_accepts tasks programs stages compiled); [|lia|lia|done|by split|done].
  cbn [mbind result_bind]. split; [left; by eexists|]. intros plan [= <-]. cbn [pl_stages pl_programs].
  intros X WX state masks context Hst Habi Hphase Hgen Hmax Hwc Hctx Hvt.
  destruct (validate_plan_spec state tasks programs masks stages compiled (vector_size programs) (vector_size tasks)
    (rc_phase_state_count config) (vector_size stages) context) as (b & -> & Hb); try done; try (unfold vector_size in *; lia).
  destruct b; [done|]. enough (false = true) by done. apply Hb. split.
  - apply (host_graph_device tasks programs config); try done. intros program i Hin. by apply in_order_acyclic, Hord.
  - split; [lia|]. intros i program c Hi Hpi Hci. exact (Forall2_lookup_lr _ _ _ _ _ _ Hcok Hpi Hci).
Qed.
