(* ===== verification/ResidentScheduler.v ===== *)
(** * The resident scheduler

    [run_resident] of [executor/stateful_graph/device_scheduler.hpp]: the
    workgroups of a resident kernel claim and run the tasks of a graph, with
    nothing between them but atomic accesses to the control state.  A workgroup
    is one thread of the model (its first thread does all the scheduling, and
    the barriers keep the others beside it); a step is one access to shared
    memory, and a schedule is any list of workers. *)

From stdpp Require Import gmap relations.
From S2P Require Import Prelude StatefulGraph.

(** ** Device memory *)

(** The tables of [ResidentArgs], which no worker writes. *)
Record ResidentArgs := mkResidentArgs {
  ar_tasks : list Task;
  ar_programs : list Program;
  ar_program_count : Z;
  ar_task_count : Z;
  ar_phase_state_count : Z
}.

Record Device (X : Type) := mkDevice {
  d_state : GraphState;
  d_phase_states : list MaskState;
  d_context : X
}.
Arguments mkDevice {X} d_state d_phase_states d_context.
Arguments d_state {X} d.
Arguments d_phase_states {X} d.
Arguments d_context {X} d.

Section setters.
Context {X : Type}.
Implicit Types d : Device X.

Definition set_graph_state d (s : GraphState) : Device X := mkDevice s (d_phase_states d) (d_context d).
Definition set_phase_states d (l : list MaskState) : Device X := mkDevice (d_state d) l (d_context d).
Definition store_status d (x : Z) : Device X :=
  let s := d_state d in
  set_graph_state d (mkGraphState (gs_abi_version s) x (gs_phase s) (gs_step s) (gs_max_steps s) (gs_stop_value s)
    (gs_error_code s) (gs_worker_count s) (gs_executed_tasks s) (gs_predicate_value s) (gs_branch_value s)).
Definition store_phase d (x : Z) : Device X :=
  let s := d_state d in
  set_graph_state d (mkGraphState (gs_abi_version s) (gs_status s) x (gs_step s) (gs_max_steps s) (gs_stop_value s)
    (gs_error_code s) (gs_worker_count s) (gs_executed_tasks s) (gs_predicate_value s) (gs_branch_value s)).
Definition store_step d (x : Z) : Device X :=
  let s := d_state d in
  set_graph_state d (mkGraphState (gs_abi_version s) (gs_status s) (gs_phase s) x (gs_max_steps s) (gs_stop_value s)
    (gs_error_code s) (gs_worker_count s) (gs_executed_tasks s) (gs_predicate_value s) (gs_branch_value s)).
Definition store_error d (x : Z) : Device X :=
  let s := d_state d in
  set_graph_state d (mkGraphState (gs_abi_version s) (gs_status s) (gs_phase s) (gs_step s) (gs_max_steps s)
    (gs_stop_value s) x (gs_worker_count s) (gs_executed_tasks s) (gs_predicate_value s) (gs_branch_value s)).
Definition store_executed d (x : Z) : Device X :=
  let s := d_state d in
  set_graph_state d (mkGraphState (gs_abi_version s) (gs_status s) (gs_phase s) (gs_step s) (gs_max_steps s)
    (gs_stop_value s) (gs_error_code s) (gs_worker_count s) x (gs_predicate_value s) (gs_branch_value s)).
(** An access of a running task. *)
Definition store_task_values d (predicate branch : Z) (context : X) : Device X :=
  let s := d_state d in
  mkDevice (mkGraphState (gs_abi_version s) (gs_status s) (gs_phase s) (gs_step s) (gs_max_steps s) (gs_stop_value s)
    (gs_error_code s) (gs_worker_count s) (gs_executed_tasks s) predicate branch) (d_phase_states d) context.
End setters.

(** ** Masks of a phase *)

(** The bits of a task in the two words of a mask. *)
Definition mask_word (task_index : Z) : Z := Z.shiftr task_index 5.
Definition word_mask (task_index : Z) : Z := to_u32 (Z.shiftl 1 (Z.land task_index 31)).

(** The word [atomicOr] returns, and the mask after it. *)
Definition or_claimed (masks : MaskState) (task_index : Z) : Z * MaskState :=
  if mask_word task_index =? 0 then
    (ms_claimed_mask masks,
     mkMaskState (Z.lor (ms_claimed_mask masks) (word_mask task_index)) (ms_completed_mask masks)
       (ms_claimed_mask_high masks) (ms_completed_mask_high masks) (ms_completed_count masks))
  else
    (ms_claimed_mask_high masks,
     mkMaskState (ms_claimed_mask masks) (ms_completed_mask masks)
       (Z.lor (ms_claimed_mask_high masks) (word_mask task_index)) (ms_completed_mask_high masks)
       (ms_completed_count masks)).

Definition or_completed (masks : MaskState) (task_index : Z) : MaskState :=
  if mask_word task_index =? 0 then
    mkMaskState (ms_claimed_mask masks) (Z.lor (ms_completed_mask masks) (word_mask task_index))
      (ms_claimed_mask_high masks) (ms_completed_mask_high masks) (ms_completed_count masks)
  else
    mkMaskState (ms_claimed_mask masks) (ms_completed_mask masks) (ms_claimed_mask_high masks)
      (Z.lor (ms_completed_mask_high masks) (word_mask task_index)) (ms_completed_count masks).

Definition add_completed_count (masks : MaskState) : MaskState :=
  mkMaskState (ms_claimed_mask masks) (ms_completed_mask masks) (ms_claimed_mask_high masks)
    (ms_completed_mask_high masks) (to_u32 (ms_completed_count masks + 1)).

(** ** A worker *)

(** What an observer of the graph sees. *)
Inductive graph_event :=
| Started (generation task_index : Z)
| Finished (generation task_index : Z)
| Advanced (predicate_value branch_value : Z).

(** Where a worker is: before its next access to shared memory, with the
    local variables it still needs. *)
Inductive worker_pc :=
| ValidatePrograms
| ReportError (validation_status : Z)
| PublishValidation (validation_status : Z)
| AwaitStart
| CheckStart
| LoadPhase
| LoadClaimed (phase_before : Z)
| LoadClaimedHigh (phase_before claimed_mask : Z)
| LoadCompleted (phase_before claimed_mask claimed_mask_high : Z)
| LoadCompletedHigh (phase_before claimed_mask claimed_mask_high low : Z)
| ReloadPhase (phase_before claimed_mask claimed_mask_high completed_mask : Z)
| Scan (phase_before claimed_mask claimed_mask_high completed_mask offset : Z)
| Execute (generation program_index task_index : Z) (access : nat)
| MarkCompleted (generation program_index task_index : Z)
| CountCompleted (generation program_index task_index : Z)
| StoreStep (generation program_index : Z)
| StoreExecuted (generation program_index next_step : Z)
| Decide (generation program_index next_step : Z)
| PublishEnd (status : Z)
| PublishPhase (phase : Z)
| CheckStatus
| Returned.

Section worker.
Context {X : Type} `{!Workload X} (args : ResidentArgs).
Implicit Types d : Device X.

Definition outcome : Type := result Empty_set (worker_pc * Device X * list graph_event).

Definition goto (pc : worker_pc) d : outcome := Ok (pc, d, []).

Definition masks_at d (generation : Z) : result Empty_set MaskState := read (d_phase_states d) generation.

Definition store_masks d (generation : Z) (masks : MaskState) : Device X :=
  set_phase_states d (<[Z.to_nat generation := masks]> (d_phase_states d)).

(** The end of the last task of a program: what to publish. *)
Definition decide_next (generation program_index next_step : Z) d : outcome :=
  program ← read (ar_programs args) program_index;
  let s := d_state d in
  let predicate := has_flag program kProgramEvaluatesPredicate && (gs_predicate_value s >=? gs_stop_value s) in
  if predicate then goto (PublishEnd status_complete) d
  else if next_step >=? gs_max_steps s then goto (PublishEnd status_max_steps) d
  else
    let next_generation := to_u32 (generation + 1) in
    if next_generation >=? ar_phase_state_count args then
      goto (PublishEnd status_invalid_program) (store_error d 2)
    else
      let next_program :=
        if has_flag program kProgramBranchesOnState && negb (gs_branch_value s =? 0)
        then pg_branch_program program else pg_next_program program in
      goto (PublishPhase (make_phase next_generation next_program)) d.

(** One candidate of the scan: claim it if it is ready. *)
Definition scan_task (worker phase claimed_mask claimed_mask_high completed_mask offset : Z) d : outcome :=
  let generation := phase_generation phase in
  let program_index := phase_program phase in
  program ← read (ar_programs args) program_index;
  if offset <? pg_task_count program then
    let task_index := to_u32 (worker + offset) mod pg_task_count program in
    task ← read (ar_tasks args) (pg_task_offset program + task_index);
    let claimed := if mask_word task_index =? 0 then claimed_mask else claimed_mask_high in
    let dependencies := task_dependencies task in
    if (Z.land claimed (word_mask task_index) =? 0) && (Z.land dependencies completed_mask =? dependencies) then
      masks ← masks_at d generation;
      let '(previous, masks') := or_claimed masks task_index in
      let d := store_masks d generation masks' in
      if Z.land previous (word_mask task_index) =? 0
      then Ok (Execute generation program_index task_index 0, d, [Started generation task_index])
      else goto (Scan phase claimed_mask claimed_mask_high completed_mask (offset + 1)) d
    else goto (Scan phase claimed_mask claimed_mask_high completed_mask (offset + 1)) d
  else goto CheckStatus d.

Definition worker_step (worker : Z) (pc : worker_pc) d : outcome :=
  let s := d_state d in
  match pc with
  | ValidatePrograms =>
      valid ← validate_programs s (Some (ar_tasks args)) (Some (ar_programs args)) (Some (d_phase_states d))
        (ar_program_count args) (ar_task_count args) (ar_phase_state_count args) (d_context d);
      goto (ReportError (if valid : bool then status_running else status_invalid_program)) d
  | ReportError status =>
      goto (PublishValidation status) (if status =? status_invalid_program then store_error d 1 else d)
  | PublishValidation status => goto CheckStart (store_status d status)
  | AwaitStart => goto (if gs_status s =? status_ready then AwaitStart else CheckStart) d
  | CheckStart | CheckStatus => goto (if gs_status s =? status_running then LoadPhase else Returned) d
  | LoadPhase => goto (LoadClaimed (gs_phase s)) d
  | LoadClaimed phase =>
      program ← read (ar_programs args) (phase_program phase);
      masks ← masks_at d (phase_generation phase);
      goto (if pg_task_count program >? 32 then LoadClaimedHigh phase (ms_claimed_mask masks)
            else LoadCompleted phase (ms_claimed_mask masks) 0) d
  | LoadClaimedHigh phase claimed =>
      masks ← masks_at d (phase_generation phase);
      goto (LoadCompleted phase claimed (ms_claimed_mask_high masks)) d
  | LoadCompleted phase claimed claimed_high =>
      program ← read (ar_programs args) (phase_program phase);
      masks ← masks_at d (phase_generation phase);
      goto (if pg_task_count program >? 32 then LoadCompletedHigh phase claimed claimed_high (ms_completed_mask masks)
            else ReloadPhase phase claimed claimed_high (ms_completed_mask masks)) d
  | LoadCompletedHigh phase claimed claimed_high low =>
      masks ← masks_at d (phase_generation phase);
      goto (ReloadPhase phase claimed claimed_high
              (Z.lor low (to_u64 (Z.shiftl (ms_completed_mask_high masks) 32)))) d
  | ReloadPhase phase claimed claimed_high completed =>
      goto (if phase =? gs_phase s then Scan phase claimed claimed_high completed 0 else CheckStatus) d
  | Scan phase claimed claimed_high completed offset =>
      scan_task worker phase claimed claimed_high completed offset d
  | Execute generation program_index task_index access =>
      program ← read (ar_programs args) program_index;
      task ← read (ar_tasks args) (pg_task_offset program + task_index);
      match execute task access s (d_context d) with
      | Some (predicate, branch, context) =>
          goto (Execute generation program_index task_index (S access)) (store_task_values d predicate branch context)
      | None => goto (MarkCompleted generation program_index task_index) d
      end
  | MarkCompleted generation program_index task_index =>
      masks ← masks_at d generation;
      Ok (CountCompleted generation program_index task_index,
          store_masks d generation (or_completed masks task_index), [Finished generation task_index])
  | CountCompleted generation program_index task_index =>
      program ← read (ar_programs args) program_index;
      masks ← masks_at d generation;
      let masks := add_completed_count masks in
      goto (if ms_completed_count masks =? pg_task_count program then StoreStep generation program_index else CheckStatus)
        (store_masks d generation masks)
  | StoreStep generation program_index =>
      program ← read (ar_programs args) program_index;
      let next_step := to_u32 (gs_step s + Z.b2z (has_flag program kProgramAdvancesStep)) in
      goto (StoreExecuted generation program_index next_step) (store_step d next_step)
  | StoreExecuted generation program_index next_step =>
      program ← read (ar_programs args) program_index;
      goto (Decide generation program_index next_step)
        (store_executed d (u64_add (gs_executed_tasks s) (pg_task_count program)))
  | Decide generation program_index next_step => decide_next generation program_index next_step d
  | PublishEnd status =>
      Ok (CheckStatus, store_status d status, [Advanced (gs_predicate_value s) (gs_branch_value s)])
  | PublishPhase phase =>
      Ok (CheckStatus, store_phase d phase, [Advanced (gs_predicate_value s) (gs_branch_value s)])
  | Returned => goto Returned d
  end.

(** The workgroups of a launch, and a step of one of them. *)
Definition launch_workers (worker_count : nat) : list worker_pc :=
  match worker_count with
  | O => []
  | S others => ValidatePrograms :: replicate others AwaitStart
  end.

Definition system_step (worker : nat) (workers : list worker_pc) d
  : result Empty_set (list worker_pc * Device X * list graph_event) :=
  match workers !! worker with
  | Some pc =>
      '(pc, d, events) ← worker_step (Z.of_nat worker) pc d;
      Ok (<[worker := pc]> workers, d, events)
  | None => Ok (workers, d, [])
  end.

(** A schedule: who steps next, again and again. *)
Fixpoint run_schedule (schedule : list nat) (workers : list worker_pc) d
  : result Empty_set (list worker_pc * Device X * list graph_event) :=
  match schedule with
  | [] => Ok (workers, d, [])
  | worker :: schedule =>
      '(workers, d, events) ← system_step worker workers d;
      '(workers, d, more) ← run_schedule schedule workers d;
      Ok (workers, d, events ++ more)
  end.
End worker.

(** ** What a graph run is

    The contract of the scheduler: a run is a sequence of programs; the tasks
    of the current one start once each, after the tasks they depend on have
    finished; when all have finished, the run goes on with the next program or
    ends. *)

Record graph_run := mkRun {
  gr_generation : Z;
  gr_program : Z;
  gr_started : gset Z;
  gr_finished : gset Z;
  gr_step : Z;
  gr_executed : Z;
  gr_ended : option Z
}.

Section run.
Context (args : ResidentArgs) (max_steps stop_value : Z).

Definition advance (program : Program) (r : graph_run) (predicate_value branch_value : Z) : graph_run :=
  let next_step := to_u32 (gr_step r + Z.b2z (has_flag program kProgramAdvancesStep)) in
  let executed := u64_add (gr_executed r) (pg_task_count program) in
  let ended status := mkRun (gr_generation r) (gr_program r) (gr_started r) (gr_finished r) next_step executed (Some status) in
  if has_flag program kProgramEvaluatesPredicate && (stop_value <=? predicate_value) then ended status_complete
  else if max_steps <=? next_step then ended status_max_steps
  else if ar_phase_state_count args <=? gr_generation r + 1 then ended status_invalid_program
  else mkRun (gr_generation r + 1)
    (if has_flag program kProgramBranchesOnState && negb (branch_value =? 0)
     then pg_branch_program program else pg_next_program program)
    ∅ ∅ next_step executed None.

Definition start_task (r : graph_run) (i : Z) : graph_run :=
  mkRun (gr_generation r) (gr_program r) ({[i]} ∪ gr_started r) (gr_finished r) (gr_step r) (gr_executed r) (gr_ended r).
Definition finish_task (r : graph_run) (i : Z) : graph_run :=
  mkRun (gr_generation r) (gr_program r) (gr_started r) ({[i]} ∪ gr_finished r) (gr_step r) (gr_executed r) (gr_ended r).

Inductive graph_step (r : graph_run) : graph_event -> graph_run -> Prop :=
| graph_start program i :
    gr_ended r = None -> ar_programs args !! Z.to_nat (gr_program r) = Some program ->
    0 <= i < pg_task_count program -> i ∉ gr_started r ->
    (forall j, depends (ar_tasks args) program i j -> j ∈ gr_finished r) ->
    graph_step r (Started (gr_generation r) i) (start_task r i)
| graph_finish i :
    i ∈ gr_started r -> i ∉ gr_finished r -> graph_step r (Finished (gr_generation r) i) (finish_task r i)
| graph_advance program predicate_value branch_value :
    gr_ended r = None -> ar_programs args !! Z.to_nat (gr_program r) = Some program ->
    (forall i, 0 <= i < pg_task_count program -> i ∈ gr_finished r) ->
    graph_step r (Advanced predicate_value branch_value) (advance program r predicate_value branch_value).

(** A sequence of events of a run. *)
Inductive graph_steps (r : graph_run) : list graph_event -> graph_run -> Prop :=
| graph_steps_nil : graph_steps r [] r
| graph_steps_cons e r' l r'' : graph_step r e r' -> graph_steps r' l r'' -> graph_steps r (e :: l) r''.

Lemma graph_steps_one r e r' : graph_step r e r' -> graph_steps r [e] r'.
Proof. intros H. econstructor; [exact H|constructor]. Qed.

Lemma graph_steps_app r l r' l' r'' : graph_steps r l r' -> graph_steps r' l' r'' -> graph_steps r (l ++ l') r''.
Proof. induction 1; [done|]. intros H'. econstructor; [done|]. by apply IHgraph_steps. Qed.
End run.

(** ** Bits of the masks *)

Definition claimed_bit (masks : MaskState) (i : Z) : bool :=
  if i <? 32 then Z.testbit (ms_claimed_mask masks) i else Z.testbit (ms_claimed_mask_high masks) (i - 32).
Definition completed_bit (masks : MaskState) (i : Z) : bool :=
  if i <? 32 then Z.testbit (ms_completed_mask masks) i else Z.testbit (ms_completed_mask_high masks) (i - 32).

Lemma mask_word_low i : 0 <= i < 64 -> (mask_word i =? 0) = (i <? 32).
Proof.
  intros Hi. unfold mask_word. rewrite Z.shiftr_div_pow2 by lia. change (2 ^ 5) with 32.
  destruct (i <? 32) eqn:E; zlia.
Qed.

Lemma word_mask_pow i : 0 <= i < 64 -> word_mask i = 2 ^ (if i <? 32 then i else i - 32).
Proof.
  intros Hi. unfold word_mask. change 31 with (Z.ones 5). rewrite Z.land_ones, Z.shiftl_1_l by lia. change (2 ^ 5) with 32.
  replace (i mod 32) with (if i <? 32 then i else i - 32) by (destruct (i <? 32) eqn:E; zlia).
  apply to_u32_small. destruct (i <? 32) eqn:E.
  - pose proof (Z.pow_pos_nonneg 2 i). pose proof (Z.pow_lt_mono_r 2 i 32). change (2 ^ 32) with U32_MOD in *. lia.
  - pose proof (Z.pow_pos_nonneg 2 (i - 32)). pose proof (Z.pow_lt_mono_r 2 (i - 32) 32). change (2 ^ 32) with U32_MOD in *. lia.
Qed.

Lemma word_bit_clear w k : 0 <= k -> (Z.land w (2 ^ k) =? 0) = negb (Z.testbit w k).
Proof.
  intros Hk. destruct (Z.testbit w k) eqn:Hw; cbn.
  - apply Z.eqb_neq. intros H. apply (f_equal (fun z => Z.testbit z k)) in H. cbn beta in H.
    rewrite Z.land_spec, Z.bits_0, Hw, Z.pow2_bits_true in H by lia. done.
  - apply Z.eqb_eq, Z.bits_inj'. intros j Hj. rewrite Z.land_spec, Z.bits_0.
    destruct (decide (j = k)) as [->|]; [by rewrite Hw|]. rewrite Z.pow2_bits_false by lia. apply andb_false_r.
Qed.

Lemma word_bit_set w k j : 0 <= k -> 0 <= j -> Z.testbit (Z.lor w (2 ^ k)) j = bool_decide (j = k) || Z.testbit w j.
Proof.
  intros Hk Hj. rewrite Z.lor_spec. case_bool_decide as H; [subst; rewrite Z.pow2_bits_true by lia; apply orb_true_r|].
  rewrite Z.pow2_bits_false by lia. apply orb_false_r.
Qed.

Lemma or_claimed_spec masks i : 0 <= i < 64 ->
  exists previous masks', or_claimed masks i = (previous, masks') /\
    (Z.land previous (word_mask i) =? 0) = negb (claimed_bit masks i) /\
    (forall j, 0 <= j < 64 -> claimed_bit masks' j = bool_decide (j = i) || claimed_bit masks j) /\
    (forall j, completed_bit masks' j = completed_bit masks j) /\
    ms_completed_mask masks' = ms_completed_mask masks /\ ms_completed_count masks' = ms_completed_count masks.
Proof.
  intros Hi. unfold or_claimed. rewrite mask_word_low, word_mask_pow by done. unfold claimed_bit.
  destruct (i <? 32) eqn:E; (eexists _, _; split; [done|]); (split; [by apply word_bit_clear; lia|]);
    (split; [|by split_and!]); intros j Hj; cbn [ms_claimed_mask ms_claimed_mask_high]; destruct (j <? 32) eqn:Ej;
    try (rewrite word_bit_set by lia; f_equal; apply bool_decide_ext; lia);
    rewrite (bool_decide_eq_false_2 (j = i)) by lia; done.
Qed.

(** [atomicOr] of a bit that is set changes nothing. *)
Lemma or_claimed_again masks i : 0 <= i < 64 -> claimed_bit masks i = true -> (or_claimed masks i).2 = masks.
Proof.
  intros Hi. unfold or_claimed, claimed_bit. rewrite mask_word_low, word_mask_pow by done.
  assert (forall w k, 0 <= k -> Z.testbit w k = true -> Z.lor w (2 ^ k) = w) as Hset.
  { intros w k Hk Hw. apply Z.bits_inj'. intros j Hj. rewrite word_bit_set by done.
    case_bool_decide; [by subst|done]. }
  destruct masks, (i <? 32) eqn:E; cbn; intros Hb; rewrite Hset; [done|lia|done|done|lia|done].
Qed.

Lemma or_completed_spec masks i : 0 <= i < 64 -> is_u32 (ms_completed_mask masks) ->
  (forall j, 0 <= j < 64 -> completed_bit (or_completed masks i) j = bool_decide (j = i) || completed_bit masks j) /\
  (forall j, claimed_bit (or_completed masks i) j = claimed_bit masks j) /\
  is_u32 (ms_completed_mask (or_completed masks i)) /\
  ms_completed_count (or_completed masks i) = ms_completed_count masks.
Proof.
  intros Hi Hm. unfold or_completed. rewrite mask_word_low, word_mask_pow by done. unfold completed_bit.
  destruct (i <? 32) eqn:E; (split; [|split; [done|split; [cbn [ms_completed_mask]|done]]]);
    try (intros j Hj; cbn [ms_completed_mask ms_completed_mask_high]; destruct (j <? 32) eqn:Ej;
      try (rewrite word_bit_set by lia; f_equal; apply bool_decide_ext; lia);
      rewrite (bool_decide_eq_false_2 (j = i)) by lia; done).
  2: done.
  pose proof (Z.pow_pos_nonneg 2 i). split; [apply Z.lor_nonneg; lia|].
  change U32_MOD with (2 ^ 32) in *. apply Z.log2_lt_cancel. rewrite Z.log2_pow2, Z.log2_lor by lia.
  apply Z.max_lub_lt; [by apply log2_below|]. rewrite Z.log2_pow2; lia.
Qed.

(** What the two loads of a completed mask show. *)
Lemma low_word_bit masks j : is_u32 (ms_completed_mask masks) -> 0 <= j ->
  Z.testbit (ms_completed_mask masks) j = true -> j < 32 /\ completed_bit masks j = true.
Proof.
  intros Hm Hj Hb. assert (j < 32) as Hl.
  { destruct (Z.lt_ge_cases j 32); [done|]. rewrite Z.bits_above_log2 in Hb; [done|lia|].
    enough (Z.log2 (ms_completed_mask masks) < 32) by lia. by apply log2_below. }
  split; [done|]. unfold completed_bit. by replace (j <? 32) with true by lia.
Qed.

Lemma high_word_bit masks j : 0 <= j ->
  Z.testbit (to_u64 (Z.shiftl (ms_completed_mask_high masks) 32)) j = true -> completed_bit masks j = true.
Proof.
  intros Hj. unfold to_u64. change U64_MOD with (2 ^ 64). destruct (Z.lt_ge_cases j 64).
  - rewrite Z.mod_pow2_bits_low, Z.shiftl_spec by lia. unfold completed_bit. destruct (j <? 32) eqn:E; [|done].
    by rewrite Z.testbit_neg_r by lia.
  - by rewrite Z.mod_pow2_bits_high by lia.
Qed.

(** ** Phases *)

Lemma phase_decode g p : 0 <= g < 2 ^ 24 -> 0 <= p < 256 ->
  phase_generation (make_phase g p) = g /\ phase_program (make_phase g p) = p.
Proof.
  intros Hg Hp. assert (make_phase g p = g * 256 + p) as ->.
  { unfold make_phase, kProgramIndexBits. rewrite Z.shiftl_mul_pow2 by lia. change (2 ^ 8) with 256.
    rewrite to_u32_small by (change (2 ^ 24) with 16777216 in *; lia). rewrite <-Z.add_lor_land, <-Z.add_0_r at 1.
    replace (Z.land (g * 256) p) with 0; [lia|]. symmetry. apply Z.bits_inj'. intros j Hj.
    rewrite Z.land_spec, Z.bits_0. change 256 with (2 ^ 8). destruct (Z.lt_ge_cases j 8).
    - by rewrite Z.mul_pow2_bits_low by lia.
    - rewrite (Z.bits_above_log2 p); [apply andb_false_r|lia|]. enough (Z.log2 p < 8) by lia. apply log2_below; lia. }
  unfold phase_generation, phase_program, kProgramIndexMask, kProgramIndexBits.
  change (Z.shiftl 1 8 - 1) with (Z.ones 8). rewrite Z.land_ones, Z.shiftr_div_pow2 by lia. change (2 ^ 8) with 256. zlia.
Qed.

(** ** The invariant *)

(** The task a worker has claimed and not yet counted. *)
Definition held (pc : worker_pc) : option Z :=
  match pc with
  | Execute _ _ i _ | MarkCompleted _ _ i | CountCompleted _ _ i => Some i
  | _ => None
  end.

(** The worker that moves the run on to its next phase. *)
Definition owner (pc : worker_pc) : bool :=
  match pc with
  | StoreStep _ _ | StoreExecuted _ _ _ | Decide _ _ _ | PublishEnd _ | PublishPhase _ => true
  | _ => false
  end.

Definition free (pc : worker_pc) : Prop := held pc = None /\ owner pc = false.

(** A worker between two accesses that leave the control state alone. *)
Definition looks (pc : worker_pc) : Prop :=
  free pc \/ match pc with Execute _ _ _ _ => True | _ => False end.

(** How far an owner is, and how far the run is: every step that is not a
    look at the masks or an access of a task takes it further. *)
Definition owner_stage (pc : worker_pc) : Z :=
  match pc with
  | StoreStep _ _ => 1
  | StoreExecuted _ _ _ => 2
  | Decide _ _ _ => 3
  | PublishEnd _ | PublishPhase _ => 4
  | _ => 0
  end.

Definition run_score (r : graph_run) (counted : gset Z) : Z :=
  gr_generation r * 300 + Z.of_nat (size (gr_started r)) + Z.of_nat (size (gr_finished r)) + Z.of_nat (size counted) +
  (if gr_ended r then 10 else 0).

Section invariant.
Context {X : Type} `{!Workload X} (args : ResidentArgs) (first max_steps stop_value : Z).
Implicit Types d : Device X.
Abbreviation tasks := (ar_tasks args).
Abbreviation program_count := (ar_program_count args).
Abbreviation phase_state_count := (ar_phase_state_count args).

Definition program_at (p : Z) (program : Program) : Prop := ar_programs args !! Z.to_nat p = Some program.

Hypothesis programs_ok : forall p, 0 <= p < program_count -> exists program, program_at p program /\
  program_typed program /\ program_ok tasks program_count (ar_task_count args) (fun _ => True) program.
Hypothesis programs_few : program_count <= 256.
Hypothesis phases_few : phase_state_count <= 2 ^ 24.
Hypothesis first_phase : 0 <= first.

(** The phase a worker has loaded is that of a generation up to now, and the
    completed tasks it has seen have finished. *)
Definition known (r : graph_run) (past : Z -> Z) (phase : Z) : Prop :=
  exists g, first <= g <= gr_generation r /\ phase = make_phase g (past g).
Definition seen (r : graph_run) (phase completed : Z) : Prop :=
  forall j, 0 <= j -> Z.testbit completed j = true -> phase_generation phase = gr_generation r -> j ∈ gr_finished r.

Definition free_ok (r : graph_run) (past : Z -> Z) (pc : worker_pc) : Prop :=
  match pc with
  | ValidatePrograms | ReportError _ | PublishValidation _ => False
  | LoadClaimed phase | LoadClaimedHigh phase _ | LoadCompleted phase _ _ => known r past phase
  | LoadCompletedHigh phase _ _ low => known r past phase /\ seen r phase low
  | ReloadPhase phase _ _ completed => known r past phase /\ seen r phase completed
  | Scan phase _ _ completed offset => known r past phase /\ seen r phase completed /\ 0 <= offset
  | Returned => is_Some (gr_ended r)
  | _ => True
  end.

(** All tasks of the current program have been counted. *)
Definition all_counted (r : graph_run) (counted : gset Z) : Prop :=
  forall program i, program_at (gr_program r) program -> 0 <= i < pg_task_count program -> i ∈ counted.

(** What an owner has done of the step to the next phase. *)
Definition owner_ok (r : graph_run) (d : Device X) (pc : worker_pc) : Prop :=
  let s := d_state d in
  exists program, program_at (gr_program r) program /\
  let r' := advance args max_steps stop_value program r (gs_predicate_value s) (gs_branch_value s) in
  match pc with
  | StoreStep g p => g = gr_generation r /\ p = gr_program r /\ gs_step s = gr_step r /\ gs_executed_tasks s = gr_executed r
  | StoreExecuted g p next_step =>
      g = gr_generation r /\ p = gr_program r /\ next_step = gr_step r' /\ gs_step s = gr_step r' /\
      gs_executed_tasks s = gr_executed r
  | Decide g p next_step =>
      g = gr_generation r /\ p = gr_program r /\ next_step = gr_step r' /\ gs_step s = gr_step r' /\
      gs_executed_tasks s = gr_executed r'
  | PublishEnd status =>
      gr_ended r' = Some status /\ gs_step s = gr_step r' /\ gs_executed_tasks s = gr_executed r'
  | PublishPhase phase =>
      gr_ended r' = None /\ phase = make_phase (gr_generation r') (gr_program r') /\
      gs_step s = gr_step r' /\ gs_executed_tasks s = gr_executed r'
  | _ => True
  end.

Definition worker_ok (r : graph_run) (counted : gset Z) (past : Z -> Z) (d : Device X) (pc : worker_pc) : Prop :=
  match pc with
  | Execute g p i _ | MarkCompleted g p i =>
      g = gr_generation r /\ p = gr_program r /\ i ∈ gr_started r /\ i ∉ gr_finished r
  | CountCompleted g p i => g = gr_generation r /\ p = gr_program r /\ i ∈ gr_finished r /\ i ∉ counted
  | _ => if owner pc then gr_ended r = None /\ all_counted r counted /\ owner_ok r d pc else free_ok r past pc
  end.

(** The masks of the generations: full, current, empty. *)
Record masks_ok (r : graph_run) (counted : gset Z) (past : Z -> Z) (l : list MaskState) : Prop := {
  mk_length : phase_state_count <= vector_size l;
  mk_current : exists masks, l !! Z.to_nat (gr_generation r) = Some masks /\
    (forall i, 0 <= i < 64 -> claimed_bit masks i = bool_decide (i ∈ gr_started r)) /\
    (forall i, 0 <= i < 64 -> completed_bit masks i = bool_decide (i ∈ gr_finished r)) /\
    ms_completed_count masks = Z.of_nat (size counted) /\ is_u32 (ms_completed_mask masks);
  mk_past g : first <= g < gr_generation r -> exists masks, l !! Z.to_nat g = Some masks /\
    is_u32 (ms_completed_mask masks) /\
    forall program i, program_at (past g) program -> 0 <= i < pg_task_count program -> claimed_bit masks i = true;
  mk_future g : gr_generation r < g < phase_state_count -> l !! Z.to_nat g = Some empty_mask_state
}.

(** The shared state and the sets of tasks. *)
Record run_ok (r : graph_run) (counted : gset Z) (past : Z -> Z) (d : Device X) : Prop := {
  rn_generation : first <= gr_generation r < phase_state_count;
  rn_past : past (gr_generation r) = gr_program r;
  rn_programs g : first <= g <= gr_generation r -> 0 <= past g < program_count;
  rn_phase : gs_phase (d_state d) = make_phase (gr_generation r) (gr_program r);
  rn_status : gs_status (d_state d) = default status_running (gr_ended r);
  rn_ended status : gr_ended r = Some status -> status <> status_running /\ status <> status_ready;
  rn_max_steps : gs_max_steps (d_state d) = max_steps;
  rn_stop_value : gs_stop_value (d_state d) = stop_value;
  rn_counted : counted ⊆ gr_finished r;
  rn_finished : gr_finished r ⊆ gr_started r;
  rn_started program i : program_at (gr_program r) program -> i ∈ gr_started r -> 0 <= i < pg_task_count program;
  rn_masks : masks_ok r counted past (d_phase_states d);
  rn_done : is_Some (gr_ended r) -> all_counted r counted
}.

Record sched_inv (r : graph_run) (counted : gset Z) (past : Z -> Z) (workers : list worker_pc) (d : Device X) : Prop := {
  si_run : run_ok r counted past d;
  si_workers w pc : workers !! w = Some pc -> worker_ok r counted past d pc;
  si_unique v w pv pw i : workers !! v = Some pv -> workers !! w = Some pw ->
    held pv = Some i -> held pw = Some i -> v = w;
  si_owner v w pv pw : workers !! v = Some pv -> workers !! w = Some pw ->
    owner pv = true -> owner pw = true -> v = w;
  si_held i : i ∈ gr_started r -> i ∉ counted -> exists w pc, workers !! w = Some pc /\ held pc = Some i;
  si_owned : gr_ended r = None -> all_counted r counted -> exists w pc, workers !! w = Some pc /\ owner pc = true;
  si_idle : (forall w pc, workers !! w = Some pc -> owner pc = false) ->
    gs_step (d_state d) = gr_step r /\ gs_executed_tasks (d_state d) = gr_executed r
}.

(** What one step must do: stay inside the tables, keep the invariant, show
    events of the run, and take it further or leave the control state alone. *)
Definition step_ok (r : graph_run) (counted : gset Z) (past : Z -> Z) (d : Device X) (pc : worker_pc)
    (workers : list worker_pc) (w : nat) (o : outcome (X := X)) : Prop :=
  exists pc' d' events r' counted' past', o = Ok (pc', d', events) /\
    graph_steps args max_steps stop_value r events r' /\ sched_inv r' counted' past' (<[w := pc']> workers) d' /\
    (run_score r counted + owner_stage pc < run_score r' counted' + owner_stage pc' \/
     r' = r /\ counted' = counted /\ past' = past /\ d_phase_states d' = d_phase_states d /\
     gs_phase (d_state d') = gs_phase (d_state d) /\ gs_status (d_state d') = gs_status (d_state d) /\
     owner pc = false /\ owner pc' = false /\ held pc' = held pc /\ looks pc /\ (free pc -> d' = d)).

Lemma program_here r counted past d : run_ok r counted past d -> exists program, program_at (gr_program r) program /\
  program_typed program /\ program_ok tasks program_count (ar_task_count args) (fun _ => True) program.
Proof.
  intros H. apply programs_ok. rewrite <-(rn_past _ _ _ _ H). apply (rn_programs _ _ _ _ H).
  pose proof (rn_generation _ _ _ _ H). lia.
Qed.

Lemma known_phase r counted past d phase : run_ok r counted past d -> known r past phase ->
  exists g program masks, first <= g <= gr_generation r /\ phase_generation phase = g /\ phase_program phase = past g /\
    program_at (past g) program /\ program_typed program /\
    program_ok tasks program_count (ar_task_count args) (fun _ => True) program /\
    read (E := Empty_set) (ar_programs args) (past g) = Ok program /\
    masks_at d g = Ok masks /\ d_phase_states d !! Z.to_nat g = Some masks /\ is_u32 (ms_completed_mask masks).
Proof.
  intros H (g & Hg & ->). pose proof (rn_generation _ _ _ _ H) as Hgen. pose proof (rn_programs _ _ _ _ H g Hg) as Hp.
  destruct (phase_decode g (past g)) as [D1 D2]; [lia|lia|]. destruct (programs_ok (past g) Hp) as (program & Hat & Hty & Hok).
  assert (exists masks, d_phase_states d !! Z.to_nat g = Some masks /\ is_u32 (ms_completed_mask masks)) as (masks & Hm & Hu).
  { destruct (rn_masks _ _ _ _ H) as [_ (m & Hm & _ & _ & _ & Hu) Hpast _].
    destruct (decide (g = gr_generation r)) as [->|]; [by exists m|]. destruct (Hpast g) as (m' & ? & ? & _); [lia|by exists m']. }
  exists g, program, masks. split_and!; try done; try lia; by apply read_is; [lia|].
Qed.

Lemma owner_stage_nonneg pc : 0 <= owner_stage pc <= 4.
Proof. destruct pc; cbn; lia. Qed.

Lemma owner_stage_free pc : owner pc = false -> owner_stage pc = 0.
Proof. by destruct pc. Qed.

(** The score of a generation is less than that of the next. *)
Lemma score_bound r counted past d : run_ok r counted past d ->
  gr_generation r * 300 <= run_score r counted <= gr_generation r * 300 + 202.
Proof.
  intros Hrun. destruct (program_here _ _ _ _ Hrun) as (program & Hat & _ & Hpo).
  pose proof (po_count _ _ _ _ _ Hpo) as Hn. unfold kMaximumTasks in Hn.
  assert (size (gr_started r) <= 64)%nat as Hs.
  { transitivity (size (list_to_set (C := gset Z) (seqZ 0 (pg_task_count program)))).
    - apply subseteq_size. intros i Hi. apply elem_of_list_to_set, elem_of_indices. by eapply rn_started.
    - rewrite size_list_to_set, length_seqZ by apply NoDup_seqZ. lia. }
  pose proof (subseteq_size _ _ (rn_finished _ _ _ _ Hrun)). pose proof (subseteq_size _ _ (rn_counted _ _ _ _ Hrun)).
  unfold run_score. destruct (gr_ended r); lia.
Qed.

(** *** Frames *)

Lemma free_ok_mono r counted past d r' past' pc :
  run_ok r counted past d ->
  gr_generation r <= gr_generation r' -> (forall g, first <= g <= gr_generation r -> past' g = past g) ->
  (gr_generation r = gr_generation r' -> gr_finished r ⊆ gr_finished r') ->
  (is_Some (gr_ended r) -> is_Some (gr_ended r')) ->
  free_ok r past pc -> free_ok r' past' pc.
Proof.
  intros Hrun Hg Hpast Hfin Hend.
  assert (forall phase, known r past phase -> known r' past' phase) as Hk.
  { intros phase (g & Hr & ->). exists g. split; [lia|]. by rewrite Hpast by lia. }
  assert (forall phase completed, known r past phase -> seen r phase completed -> seen r' phase completed) as Hs.
  { intros phase completed Hph H j Hj Hb Heq.
    destruct (known_phase _ _ _ _ _ Hrun Hph) as (g & _ & _ & Hr & Hd & _).
    apply Hfin; [lia|]. apply H; [done|done|lia]. }
  destruct pc; cbn; try tauto; naive_solver.
Qed.

(** A worker moves, and the others keep what they know. *)
Lemma sched_frame r counted past workers d w pc pc' r' counted' past' d' :
  sched_inv r counted past workers d -> workers !! w = Some pc ->
  run_ok r' counted' past' d' -> worker_ok r' counted' past' d' pc' ->
  (forall v pv, v <> w -> workers !! v = Some pv -> worker_ok r counted past d pv -> worker_ok r' counted' past' d' pv) ->
  (forall i, held pc' = Some i -> held pc = Some i \/ forall v pv, workers !! v = Some pv -> held pv <> Some i) ->
  (owner pc' = true -> owner pc = true \/ forall v pv, workers !! v = Some pv -> owner pv = false) ->
  (forall i, i ∈ gr_started r' -> i ∉ counted' ->
     held pc' = Some i \/ (i ∈ gr_started r /\ i ∉ counted /\ held pc <> Some i)) ->
  (gr_ended r' = None -> all_counted r' counted' ->
     owner pc' = true \/ (gr_ended r = None /\ all_counted r counted /\ owner pc = false)) ->
  (owner pc' = false -> (forall v pv, v <> w -> workers !! v = Some pv -> owner pv = false) ->
     gs_step (d_state d') = gr_step r' /\ gs_executed_tasks (d_state d') = gr_executed r') ->
  sched_inv r' counted' past' (<[w := pc']> workers) d'.
Proof.
  intros [Hrun Hw Hu Ho Hh Hown Hidle] Hpc Hrun' Hpc' Hother Hheld Howner Hcover Hmove Hst.
  pose proof (lookup_lt_Some _ _ _ Hpc) as Hlt.
  assert (forall v pv, <[w := pc']> workers !! v = Some pv -> v = w /\ pv = pc' \/ v <> w /\ workers !! v = Some pv) as Hl.
  { intros v pv [(<- & <- & _)|[Hne Hv]]%list_lookup_insert_Some; [by left|right; by split]. }
  split.
  - done.
  - intros v pv [[-> ->]|[Hne Hv]]%Hl; [done|]. by eapply Hother, Hw.
  - intros u v pu pv i [[-> ->]|[Nu Hlu]]%Hl [[-> ->]|[Nv Hlv]]%Hl E1 E2; [done| | |by eapply Hu].
    + destruct (Hheld i E1) as [E|E]; [|by destruct (E _ _ Hlv)]. by eapply Hu.
    + destruct (Hheld i E2) as [E|E]; [|by destruct (E _ _ Hlu)]. by eapply Hu.
  - intros u v pu pv [[-> ->]|[Nu Hlu]]%Hl [[-> ->]|[Nv Hlv]]%Hl E1 E2; [done| | |by eapply Ho].
    + destruct (Howner E1) as [E|E]; [by eapply Ho|]. by rewrite (E _ _ Hlv) in E2.
    + destruct (Howner E2) as [E|E]; [by eapply Ho|]. by rewrite (E _ _ Hlu) in E1.
  - intros i Hi Hc. destruct (Hcover i Hi Hc) as [E|(Hi' & Hc' & Hne)].
    + exists w, pc'. split; [by apply list_lookup_insert_eq|done].
    + destruct (Hh i Hi' Hc') as (v & pv & Hv & E). exists v, pv. split; [|done].
      rewrite list_lookup_insert_ne; [done|]. intros ->. congruence.
  - intros He Ha. destruct (Hmove He Ha) as [E|(He' & Ha' & E)].
    + exists w, pc'. split; [by apply list_lookup_insert_eq|done].
    + destruct (Hown He' Ha') as (v & pv & Hv & E'). exists v, pv. split; [|done].
      rewrite list_lookup_insert_ne; [done|]. intros ->. congruence.
  - intros Hno. apply Hst.
    + apply (Hno w). by apply list_lookup_insert_eq.
    + intros v pv Hne Hv. apply (Hno v). by rewrite list_lookup_insert_ne.
Qed.

(** A step that only moves the worker, between points where it holds nothing. *)
Lemma step_free r counted past workers d w pc pc' :
  sched_inv r counted past workers d -> workers !! w = Some pc -> free pc -> free pc' ->
  free_ok r past pc' -> step_ok r counted past d pc workers w (goto pc' d).
Proof.
  intros Hinv Hpc [H1 O1] [H2 O2] Hok. exists pc', d, [], r, counted, past. split; [done|]. split; [constructor|].
  split; [|right; split_and!; try done; [congruence|by left]]. eapply sched_frame; [exact Hinv|exact Hpc|apply Hinv| |done|by rewrite H2|by rewrite O2| | |].
  - destruct pc'; done.
  - intros i Hi Hc. right. split_and!; [done|done|by rewrite H1].
  - intros He Ha. right. by split_and!.
  - intros _ Hno. apply (si_idle _ _ _ _ _ Hinv). intros v pv Hv. destruct (decide (v = w)) as [->|]; [by simplify_eq|by eapply Hno].
Qed.

(** Nobody moves the run on while a task is not counted, and nobody holds a
    task when all are. *)
Lemma no_owner r counted past workers d i :
  sched_inv r counted past workers d -> i ∈ gr_started r -> i ∉ counted ->
  gr_ended r = None /\ forall v pv, workers !! v = Some pv -> owner pv = false.
Proof.
  intros Hinv Hi Hc. destruct (program_here _ _ _ _ (si_run _ _ _ _ _ Hinv)) as (program & Hat & _).
  pose proof (rn_started _ _ _ _ (si_run _ _ _ _ _ Hinv) program i Hat Hi) as Hr. split.
  - destruct (gr_ended r) eqn:E; [|done]. exfalso. apply Hc.
    apply (rn_done _ _ _ _ (si_run _ _ _ _ _ Hinv) ltac:(rewrite E; eauto) program); done.
  - intros v pv Hv. destruct (owner pv) eqn:E; [|done]. exfalso. apply Hc.
    pose proof (si_workers _ _ _ _ _ Hinv v pv Hv) as Hok. destruct pv; try done; destruct Hok as (_ & Ha & _); by eapply Ha.
Qed.

Lemma held_started r counted past d pv i :
  run_ok r counted past d -> worker_ok r counted past d pv -> held pv = Some i -> i ∈ gr_started r /\ i ∉ counted.
Proof.
  intros Hrun Hok E. pose proof (rn_counted _ _ _ _ Hrun) as Hc. pose proof (rn_finished _ _ _ _ Hrun) as Hf. clear Hrun.
  destruct pv; try done; cbn in E; simplify_eq; cbn in Hok; destruct Hok as (_ & _ & H1 & H2); split; auto.
Qed.

Lemma no_holder r counted past workers d v pv :
  sched_inv r counted past workers d -> all_counted r counted -> workers !! v = Some pv -> held pv = None.
Proof.
  intros Hinv Ha Hv. destruct (held pv) as [i|] eqn:E; [|done]. exfalso.
  pose proof (si_run _ _ _ _ _ Hinv) as Hrun. destruct (program_here _ _ _ _ Hrun) as (program & Hat & _).
  destruct (held_started r counted past d pv i) as [Hi Hc]; [done|by eapply si_workers|done|].
  apply Hc. eapply Ha; [done|]. by eapply rn_started.
Qed.

(** *** Loads *)

(** A completed mask read now shows finished tasks only. *)
Lemma masks_seen r counted past d g masks j :
  run_ok r counted past d -> d_phase_states d !! Z.to_nat g = Some masks -> g = gr_generation r ->
  0 <= j < 64 -> completed_bit masks j = true -> j ∈ gr_finished r.
Proof.
  intros Hrun Hm -> Hj Hb. destruct (mk_current _ _ _ _ (rn_masks _ _ _ _ Hrun)) as (m & Hm' & _ & Hc & _).
  rewrite Hm in Hm'. injection Hm' as <-. rewrite Hc in Hb by done. by apply bool_decide_eq_true in Hb.
Qed.

Lemma completed_seen r counted past d g phase masks :
  run_ok r counted past d -> d_phase_states d !! Z.to_nat g = Some masks -> phase_generation phase = g ->
  is_u32 (ms_completed_mask masks) -> seen r phase (ms_completed_mask masks).
Proof.
  intros Hrun Hm Hg Hu j Hj Hb Heq. destruct (low_word_bit masks j Hu Hj Hb) as [Hl Hc].
  eapply masks_seen; [done|done|lia|lia|done].
Qed.

Lemma completed_high_seen r counted past d g phase masks low :
  run_ok r counted past d -> d_phase_states d !! Z.to_nat g = Some masks -> phase_generation phase = g ->
  seen r phase low -> seen r phase (Z.lor low (to_u64 (Z.shiftl (ms_completed_mask_high masks) 32))).
Proof.
  intros Hrun Hm Hg Hlow j Hj Hb Heq. rewrite Z.lor_spec in Hb. apply orb_prop in Hb as [Hb|Hb]; [by apply Hlow|].
  eapply masks_seen; [done|done|lia| |by apply high_word_bit].
  split; [done|]. destruct (Z.lt_ge_cases j 64); [done|]. rewrite Z.bits_above_log2 in Hb; [done|apply to_u64_range|].
  pose proof (to_u64_range (Z.shiftl (ms_completed_mask_high masks) 32)).
  enough (Z.log2 (to_u64 (Z.shiftl (ms_completed_mask_high masks) 32)) < 64) by lia. apply log2_below; [|lia].
  change (2 ^ 64) with U64_MOD. lia.
Qed.

Ltac free_step := eapply step_free; [eassumption|eassumption|by split|by split|].

Lemma step_load r counted past workers d w pc :
  sched_inv r counted past workers d -> workers !! w = Some pc ->
  match pc with
  | AwaitStart | CheckStart | CheckStatus | LoadPhase | LoadClaimed _ | LoadClaimedHigh _ _ | LoadCompleted _ _ _
  | LoadCompletedHigh _ _ _ _ | ReloadPhase _ _ _ _ | Returned => True
  | _ => False
  end -> step_ok r counted past d pc workers w (worker_step args (Z.of_nat w) pc d).
Proof.
  intros Hinv Hpc Hload. pose proof (si_run _ _ _ _ _ Hinv) as Hrun. pose proof (si_workers _ _ _ _ _ Hinv w pc Hpc) as Hok.
  pose proof (rn_status _ _ _ _ Hrun) as Hst.
  assert (free_ok r past (if gs_status (d_state d) =? status_running then LoadPhase else Returned)) as Hcheck.
  { destruct (_ =? _) eqn:E; [done|]. cbn. rewrite Hst in E. destruct (gr_ended r); [eauto|done]. }
  assert (free (if gs_status (d_state d) =? status_running then LoadPhase else Returned)) as Hfree by (case_match; by split).
  destruct pc; try done; cbn [worker_step]; cbn in Hok.
  - destruct (gs_status _ =? status_ready); free_step; done.
  - by eapply step_free.
  - free_step. exists (gr_generation r). pose proof (rn_generation _ _ _ _ Hrun). split; [lia|].
    by rewrite (rn_past _ _ _ _ Hrun), (rn_phase _ _ _ _ Hrun).
  - destruct (known_phase _ _ _ _ _ Hrun Hok) as (g & program & masks & Hg & -> & -> & _ & _ & _ & Hrd & Hm & _).
    rewrite Hrd, Hm. cbn. destruct (_ >? _); free_step; done.
  - destruct (known_phase _ _ _ _ _ Hrun Hok) as (g & program & masks & Hg & -> & _ & _ & _ & _ & _ & Hm & _).
    rewrite Hm. cbn. free_step. done.
  - destruct (known_phase _ _ _ _ _ Hrun Hok) as (g & program & masks & Hg & Hph & -> & _ & _ & _ & Hrd & Hm & Hl & Hu).
    rewrite Hph, Hrd, Hm. cbn. destruct (_ >? _); free_step; (split; [done|by eapply completed_seen]).
  - destruct Hok as [Hk Hs].
    destruct (known_phase _ _ _ _ _ Hrun Hk) as (g & program & masks & Hg & Hph & _ & _ & _ & _ & _ & Hm & Hl & Hu).
    rewrite Hph, Hm. cbn. free_step. split; [done|by eapply completed_high_seen].
  - destruct Hok as [Hk Hs]. destruct (_ =? gs_phase _); free_step; [|done]. by split_and!.
  - by eapply step_free.
  - free_step. done.
Qed.

(** *** Claiming a task *)

(** The masks after a change of those of the current generation. *)
Lemma masks_update r counted past l masks masks' r' counted' :
  masks_ok r counted past l -> 0 <= gr_generation r -> first <= gr_generation r ->
  l !! Z.to_nat (gr_generation r) = Some masks ->
  gr_generation r' = gr_generation r -> gr_program r' = gr_program r ->
  (forall i, 0 <= i < 64 -> claimed_bit masks' i = bool_decide (i ∈ gr_started r')) ->
  (forall i, 0 <= i < 64 -> completed_bit masks' i = bool_decide (i ∈ gr_finished r')) ->
  ms_completed_count masks' = Z.of_nat (size counted') -> is_u32 (ms_completed_mask masks') ->
  masks_ok r' counted' past (<[Z.to_nat (gr_generation r) := masks']> l).
Proof.
  intros [Hlen _ Hpast Hfuture] Hg Hfirst Hm Eg Ep H1 H2 H3 H4. pose proof (lookup_lt_Some _ _ _ Hm) as Hlt.
  split; rewrite ?Eg.
  - unfold vector_size in *. by rewrite length_insert.
  - exists masks'. split; [by apply list_lookup_insert_eq|]. by split; [|split; [|split]].
  - intros g Hr. rewrite list_lookup_insert_ne by lia. by apply Hpast.
  - intros g Hr. rewrite list_lookup_insert_ne by lia. by apply Hfuture.
Qed.

Lemma run_update r counted past d masks masks' r' counted' :
  run_ok r counted past d -> d_phase_states d !! Z.to_nat (gr_generation r) = Some masks ->
  gr_generation r' = gr_generation r -> gr_program r' = gr_program r -> gr_ended r' = gr_ended r ->
  (forall i, 0 <= i < 64 -> claimed_bit masks' i = bool_decide (i ∈ gr_started r')) ->
  (forall i, 0 <= i < 64 -> completed_bit masks' i = bool_decide (i ∈ gr_finished r')) ->
  ms_completed_count masks' = Z.of_nat (size counted') -> is_u32 (ms_completed_mask masks') ->
  counted' ⊆ gr_finished r' -> gr_finished r' ⊆ gr_started r' -> counted ⊆ counted' ->
  (forall program i, program_at (gr_program r) program -> i ∈ gr_started r' -> 0 <= i < pg_task_count program) ->
  run_ok r' counted' past (store_masks d (gr_generation r) masks').
Proof.
  intros [] Hm Eg Ep Ee H1 H2 H3 H4 H5 H6 H7 H8. split; cbn [store_masks set_phase_states d_state d_phase_states]; rewrite ?Eg, ?Ep, ?Ee; try done.
  - eapply masks_update; [done|lia|lia|done..].
  - intros He program i. rewrite Ep. intros Hp Hi. by apply H7, (rn_done0 He program).
Qed.

(** The facts about the current masks that the steps use. *)
Lemma current_masks r counted past d : run_ok r counted past d -> exists masks,
  masks_at d (gr_generation r) = Ok masks /\ d_phase_states d !! Z.to_nat (gr_generation r) = Some masks /\
  (forall i, 0 <= i < 64 -> claimed_bit masks i = bool_decide (i ∈ gr_started r)) /\
  (forall i, 0 <= i < 64 -> completed_bit masks i = bool_decide (i ∈ gr_finished r)) /\
  ms_completed_count masks = Z.of_nat (size counted) /\ is_u32 (ms_completed_mask masks).
Proof.
  intros Hrun. destruct (mk_current _ _ _ _ (rn_masks _ _ _ _ Hrun)) as (masks & Hm & Hrest). exists masks.
  split; [|by split]. apply read_is; [|done]. pose proof (rn_generation _ _ _ _ Hrun). lia.
Qed.

Lemma bool_decide_insert (i j : Z) (s : gset Z) :
  bool_decide (j ∈ {[i]} ∪ s) = bool_decide (j = i) || bool_decide (j ∈ s).
Proof. rewrite <-bool_decide_or. apply bool_decide_ext. set_solver. Qed.

Lemma store_same d g masks : d_phase_states d !! Z.to_nat g = Some masks -> store_masks d g masks = d.
Proof. intros H. unfold store_masks, set_phase_states. rewrite list_insert_id by done. by destruct d. Qed.

(** What others know stays true when a task starts, finishes or is counted. *)
Lemma others_keep r counted past d r' counted' d' i pv :
  run_ok r counted past d -> gr_generation r' = gr_generation r -> gr_program r' = gr_program r ->
  gr_ended r' = gr_ended r -> gr_started r ⊆ gr_started r' -> gr_finished r ⊆ gr_finished r' ->
  gr_finished r' ⊆ {[i]} ∪ gr_finished r -> counted' ⊆ {[i]} ∪ counted ->
  held pv <> Some i -> owner pv = false ->
  worker_ok r counted past d pv -> worker_ok r' counted' past d' pv.
Proof.
  intros Hrun Eg Ep Ee Hs Hf Hf' Hc' Hheld Hown Hok.
  assert (free_ok r past pv -> free_ok r' past pv) as Hfree.
  { apply (free_ok_mono _ _ _ _ _ _ _ Hrun); [lia|done|done|by rewrite Ee]. }
  destruct pv; first [done|exact (Hfree Hok)|cbn in *; rewrite Eg, Ep; destruct Hok as (H1 & H2 & H3 & H4);
    split_and!; [done|done|set_solver|set_solver]].
Qed.

Lemma step_claim r counted past workers d w pc masks masks' i program :
  sched_inv r counted past workers d -> workers !! w = Some pc -> free pc -> gr_ended r = None ->
  program_at (gr_program r) program -> 0 <= i < pg_task_count program -> pg_task_count program <= 64 ->
  d_phase_states d !! Z.to_nat (gr_generation r) = Some masks ->
  (forall j, 0 <= j < 64 -> claimed_bit masks' j = bool_decide (j = i) || claimed_bit masks j) ->
  (forall j, completed_bit masks' j = completed_bit masks j) ->
  ms_completed_mask masks' = ms_completed_mask masks -> ms_completed_count masks' = ms_completed_count masks ->
  i ∉ gr_started r -> (forall j, depends tasks program i j -> j ∈ gr_finished r) ->
  step_ok r counted past d pc workers w (Ok (Execute (gr_generation r) (gr_program r) i 0,
    store_masks d (gr_generation r) masks', [Started (gr_generation r) i])).
Proof.
  intros Hinv Hpc [Hheld Hown] Hend Hat Hi Hn Hm Hcl Hco Hcm Hcc Hnew Hdeps. pose proof (si_run _ _ _ _ _ Hinv) as Hrun.
  destruct (current_masks _ _ _ _ Hrun) as (masks0 & _ & Hm0 & B1 & B2 & B3 & B4). rewrite Hm in Hm0. injection Hm0 as <-.
  assert (i ∉ gr_finished r) as Hnf by (pose proof (rn_finished _ _ _ _ Hrun); set_solver).
  assert (forall v pv, workers !! v = Some pv -> owner pv = false) as Hno.
  { intros v pv Hv. destruct (owner pv) eqn:E; [|done]. exfalso. apply Hnf.
    pose proof (si_workers _ _ _ _ _ Hinv v pv Hv) as Hok. apply (rn_counted _ _ _ _ Hrun).
    destruct pv; try done; destruct Hok as (_ & Ha & _); by eapply Ha. }
  eexists _, _, _, (start_task r i), counted, past. split; [done|]. split.
  { apply graph_steps_one. eapply graph_start; done. }
  split; [|left; unfold run_score; cbn; rewrite size_union, size_singleton by (by apply disjoint_singleton_l);
    pose proof (owner_stage_free pc Hown); lia].
  eapply sched_frame; [exact Hinv|exact Hpc| | | | | | | |].
  - eapply run_update; try done; cbn.
    + intros j Hj. rewrite Hcl, B1 by done. by rewrite bool_decide_insert.
    + intros j Hj. by rewrite Hco, B2.
    + by rewrite Hcc.
    + by rewrite Hcm.
    + apply (rn_counted _ _ _ _ Hrun).
    + pose proof (rn_finished _ _ _ _ Hrun). set_solver.
    + intros program' j Hat' [->%elem_of_singleton|Hj]%elem_of_union; [|by eapply rn_started].
      unfold program_at in *. by simplify_eq.
  - cbn. split_and!; [done|done|set_solver|done].
  - intros v pv Hne Hv Hok. apply (others_keep r counted past d _ _ _ i); try done; cbn; try apply union_subseteq_r.
    + intros E. by apply Hnew, (held_started r counted past d pv).
    + by eapply Hno.
  - cbn. intros j [= <-]. right. intros v pv Hv E. apply Hnew.
    by apply (held_started r counted past d pv); [|eapply si_workers|].
  - done.
  - cbn. intros j [->%elem_of_singleton|Hj]%elem_of_union Hc; [by left|right]. split_and!; [done|done|by rewrite Hheld].
  - intros _ Ha. exfalso. apply Hnf, (rn_counted _ _ _ _ Hrun). by eapply Ha.
  - intros _ _. by apply (si_idle _ _ _ _ _ Hinv).
Qed.

Lemma step_scan r counted past workers d w phase c ch completed offset :
  sched_inv r counted past workers d -> workers !! w = Some (Scan phase c ch completed offset) ->
  step_ok r counted past d (Scan phase c ch completed offset) workers w (worker_step args (Z.of_nat w) (Scan phase c ch completed offset) d).
Proof.
  intros Hinv Hpc. pose proof (si_run _ _ _ _ _ Hinv) as Hrun. pose proof (si_workers _ _ _ _ _ Hinv w _ Hpc) as Hok.
  destruct Hok as (Hk & Hs & Hoff). cbn [worker_step]. unfold scan_task.
  destruct (known_phase _ _ _ _ _ Hrun Hk) as (g & program & masks & Hg & Hph & Hpp & Hat & Hty & Hpo & Hrd & Hm & Hl & Hu).
  rewrite Hph, Hpp, Hrd. cbn [mbind result_bind]. destruct (offset <? pg_task_count program) eqn:Eo; [|free_step; done].
  pose proof (po_count _ _ _ _ _ Hpo) as Hn. unfold kMaximumTasks in Hn.
  set (i := to_u32 (Z.of_nat w + offset) mod pg_task_count program).
  assert (0 <= i < pg_task_count program) as Hi by (apply Z.mod_pos_bound; lia).
  destruct (po_tasks _ _ _ _ _ Hpo i Hi) as (task & Ht & _). destruct Hty as (Hto & _).
  rewrite (read_is tasks (pg_task_offset program + i) task ltac:(lia) Ht). cbn [mbind result_bind].
  assert (free_ok r past (Scan phase c ch completed (offset + 1))) as Hnext by (split_and!; [done|done|lia]).
  destruct (_ && _) eqn:Eready; [|free_step; done]. apply andb_prop in Eready as [_ Hd]. rewrite land_within in Hd.
  rewrite Hm. cbn [mbind result_bind].
  destruct (or_claimed_spec masks i) as (previous & masks' & Hor & Hprev & Hcl & Hco & Hcm & Hcc); [lia|].
  assert (claimed_bit masks i = true -> store_masks d g masks' = d) as again.
  { intros Hb. replace masks' with masks; [by apply store_same|]. pose proof (or_claimed_again masks i ltac:(lia) Hb) as H.
    by rewrite Hor in H. }
  rewrite Hor, Hprev. destruct (decide (g = gr_generation r)) as [->|Hold].
  - rewrite (rn_past _ _ _ _ Hrun) in *. destruct (current_masks _ _ _ _ Hrun) as (m & _ & Hm' & B1 & B2 & B3 & B4).
    rewrite Hl in Hm'. injection Hm' as <-. rewrite B1 by lia. case_bool_decide as Hst; cbn [negb].
    + rewrite again; [free_step; done|]. rewrite B1 by lia. by apply bool_decide_eq_true.
    + assert (gr_ended r = None) as Hend.
      { destruct (gr_ended r) eqn:E; [|done]. exfalso. apply Hst, (rn_finished _ _ _ _ Hrun), (rn_counted _ _ _ _ Hrun).
        by apply (rn_done _ _ _ _ Hrun ltac:(rewrite E; eauto) program). }
      eapply (step_claim _ _ _ _ _ _ _ masks masks' i program); try eassumption; [by split|lia|].
      intros j (_ & Hj & task' & Ht' & Hb). rewrite Ht in Ht'. injection Ht' as <-. apply Hs; [done|by apply Hd|lia].
  - destruct (mk_past _ _ _ _ (rn_masks _ _ _ _ Hrun) g) as (m & Hm' & _ & Hfull); [lia|].
    rewrite Hl in Hm'. injection Hm' as <-. rewrite (Hfull program i) by done. cbn [negb].
    rewrite again; [free_step; done|]. by eapply Hfull.
Qed.

(** *** Running, publishing and counting a task *)

(** A change of what only tasks and owners look at. *)
Lemma run_ok_values r counted past d d' :
  run_ok r counted past d -> gs_phase (d_state d') = gs_phase (d_state d) -> gs_status (d_state d') = gs_status (d_state d) ->
  gs_max_steps (d_state d') = gs_max_steps (d_state d) -> gs_stop_value (d_state d') = gs_stop_value (d_state d) ->
  d_phase_states d' = d_phase_states d -> run_ok r counted past d'.
Proof. intros [] E1 E2 E3 E4 E5. split; rewrite ?E1, ?E2, ?E3, ?E4, ?E5; done. Qed.

Lemma step_execute r counted past workers d w g p i access :
  sched_inv r counted past workers d -> workers !! w = Some (Execute g p i access) ->
  step_ok r counted past d (Execute g p i access) workers w (worker_step args (Z.of_nat w) (Execute g p i access) d).
Proof.
  intros Hinv Hpc. pose proof (si_run _ _ _ _ _ Hinv) as Hrun.
  pose proof (si_workers _ _ _ _ _ Hinv w _ Hpc) as Hok. pose proof Hok as (-> & -> & Hst & Hnf). cbn [worker_step].
  destruct (program_here _ _ _ _ Hrun) as (program & Hat & (Hto & _) & Hpo).
  assert (i ∉ counted) as Hnc by (intros Hc; by apply Hnf, (rn_counted _ _ _ _ Hrun)).
  destruct (no_owner _ _ _ _ _ _ Hinv Hst Hnc) as [Hend Hno].
  pose proof (rn_started _ _ _ _ Hrun program i Hat Hst) as Hi. destruct (po_tasks _ _ _ _ _ Hpo i Hi) as (task & Ht & _).
  assert (0 <= gr_program r) as Hp0.
  { rewrite <-(rn_past _ _ _ _ Hrun). apply (rn_programs _ _ _ _ Hrun). pose proof (rn_generation _ _ _ _ Hrun). lia. }
  rewrite (read_is _ _ program Hp0 Hat). cbn [mbind result_bind].
  rewrite (read_is tasks (pg_task_offset program + i) task ltac:(lia) Ht). cbn [mbind result_bind].
  assert (forall pc' d', held pc' = Some i -> owner pc' = false -> worker_ok r counted past d' pc' ->
    run_ok r counted past d' -> gs_step (d_state d') = gs_step (d_state d) ->
    gs_executed_tasks (d_state d') = gs_executed_tasks (d_state d) -> d_phase_states d' = d_phase_states d ->
    step_ok r counted past d (Execute (gr_generation r) (gr_program r) i access) workers w (goto pc' d')) as Hgo.
  { intros pc' d' Hh Ho Hw Hr E1 E2 E3. exists pc', d', [], r, counted, past. split; [done|]. split; [constructor|].
    split; [|right; split_and!; try done; [by rewrite (rn_phase _ _ _ _ Hr), (rn_phase _ _ _ _ Hrun)
      |by rewrite (rn_status _ _ _ _ Hr), (rn_status _ _ _ _ Hrun)|by right|by intros []]].
    eapply sched_frame; [exact Hinv|exact Hpc|done|done| | | | | |].
    - intros v pv Hne Hv H. pose proof (Hno v pv Hv). destruct pv; done.
    - intros j Hj. left. cbn. congruence.
    - by rewrite Ho.
    - intros j Hj Hc. destruct (decide (j = i)) as [->|Hne]; [by left|right]. split_and!; [done|done|cbn; congruence].
    - intros He Ha. by right.
    - intros _ _. rewrite E1, E2. by apply (si_idle _ _ _ _ _ Hinv). }
  destruct (execute task access (d_state d) (d_context d)) as [[[predicate branch] context]|].
  - apply Hgo; try done. by eapply run_ok_values.
  - by apply Hgo.
Qed.

Lemma step_mark r counted past workers d w g p i :
  sched_inv r counted past workers d -> workers !! w = Some (MarkCompleted g p i) ->
  step_ok r counted past d (MarkCompleted g p i) workers w (worker_step args (Z.of_nat w) (MarkCompleted g p i) d).
Proof.
  intros Hinv Hpc. pose proof (si_run _ _ _ _ _ Hinv) as Hrun.
  destruct (si_workers _ _ _ _ _ Hinv w _ Hpc) as (-> & -> & Hst & Hnf). cbn [worker_step].
  destruct (program_here _ _ _ _ Hrun) as (program & Hat & _ & Hpo).
  pose proof (po_count _ _ _ _ _ Hpo) as Hn. unfold kMaximumTasks in Hn. pose proof (rn_started _ _ _ _ Hrun program i Hat Hst) as Hi.
  assert (i ∉ counted) as Hnc by (intros Hc; by apply Hnf, (rn_counted _ _ _ _ Hrun)).
  destruct (no_owner _ _ _ _ _ _ Hinv Hst Hnc) as [Hend Hno].
  destruct (current_masks _ _ _ _ Hrun) as (masks & -> & Hl & B1 & B2 & B3 & B4). cbn [mbind result_bind].
  destruct (or_completed_spec masks i) as (C1 & C2 & C3 & C4); [lia|done|].
  eexists _, _, _, (finish_task r i), counted, past. split; [done|]. split; [by apply graph_steps_one, graph_finish|].
  split; [|left; unfold run_score; cbn; rewrite size_union, size_singleton by (by apply disjoint_singleton_l); lia].
  pose proof (rn_counted _ _ _ _ Hrun) as Hcf. pose proof (rn_finished _ _ _ _ Hrun) as Hfs.
  eapply sched_frame; [exact Hinv|exact Hpc| | | | | | | |].
  - eapply run_update; try done; cbn.
    + intros j Hj. by rewrite C2, B1.
    + intros j Hj. rewrite C1, B2 by done. by rewrite bool_decide_insert.
    + by rewrite C4.
    + etransitivity; [exact Hcf|apply union_subseteq_r].
    + apply union_subseteq; split; [by apply singleton_subseteq_l|done].
    + intros program' j. by eapply rn_started.
  - cbn. split_and!; [done|done|by apply elem_of_union_l, elem_of_singleton|done].
  - intros v pv Hne Hv Hok. apply (others_keep r counted past d _ _ _ i); try done; cbn; try apply union_subseteq_r; try done.
    + intros E. apply Hne. by eapply (si_unique _ _ _ _ _ Hinv).
    + by eapply Hno.
  - cbn. intros j Hj. by left.
  - done.
  - cbn. intros j Hj Hc. destruct (decide (j = i)) as [->|]; [by left|right]. split_and!; [done|done|congruence].
  - intros _ Ha. exfalso. apply Hnc. by eapply Ha.
  - intros _ _. by apply (si_idle _ _ _ _ _ Hinv).
Qed.

(** Counting the last task makes its worker the owner, and only that. *)
Lemma step_count r counted past workers d w g p i :
  sched_inv r counted past workers d -> workers !! w = Some (CountCompleted g p i) ->
  step_ok r counted past d (CountCompleted g p i) workers w (worker_step args (Z.of_nat w) (CountCompleted g p i) d).
Proof.
  intros Hinv Hpc. pose proof (si_run _ _ _ _ _ Hinv) as Hrun.
  destruct (si_workers _ _ _ _ _ Hinv w _ Hpc) as (-> & -> & Hf & Hnc). cbn [worker_step].
  destruct (program_here _ _ _ _ Hrun) as (program & Hat & _ & Hpo).
  pose proof (po_count _ _ _ _ _ Hpo) as Hn. unfold kMaximumTasks in Hn.
  pose proof (rn_counted _ _ _ _ Hrun) as Hcf. pose proof (rn_finished _ _ _ _ Hrun) as Hfs. pose proof (Hfs i Hf) as Hst.
  destruct (no_owner _ _ _ _ _ _ Hinv Hst Hnc) as [Hend Hno].
  assert (0 <= gr_program r) as Hp0.
  { rewrite <-(rn_past _ _ _ _ Hrun). apply (rn_programs _ _ _ _ Hrun). pose proof (rn_generation _ _ _ _ Hrun). lia. }
  rewrite (read_is _ _ program Hp0 Hat). cbn [mbind result_bind].
  destruct (current_masks _ _ _ _ Hrun) as (masks & -> & Hl & B1 & B2 & B3 & B4). cbn [mbind result_bind].
  set (counted' := {[i]} ∪ counted). assert (size counted' = S (size counted)) as Hsize.
  { unfold counted'. rewrite size_union, size_singleton by set_solver. lia. }
  assert (counted' ⊆ gr_finished r) as Hcf'.
  { apply union_subseteq; split; [by apply singleton_subseteq_l|done]. }
  assert (counted' ⊆ list_to_set (seqZ 0 (pg_task_count program))) as Hrange.
  { intros j Hj. apply elem_of_list_to_set, elem_of_indices. eapply rn_started; [done|done|]. by apply Hfs, Hcf'. }
  assert (size (list_to_set (C := gset Z) (seqZ 0 (pg_task_count program))) = Z.to_nat (pg_task_count program)) as Hall.
  { rewrite size_list_to_set by apply NoDup_seqZ. apply length_seqZ. }
  pose proof (subseteq_size _ _ Hrange) as Hle.
  assert (ms_completed_count (add_completed_count masks) = Z.of_nat (size counted) + 1) as Hcount.
  { cbn. rewrite B3, to_u32_small; lia. }
  rewrite Hcount.
  assert (Z.of_nat (size counted) + 1 = pg_task_count program <-> all_counted r counted') as Hlast.
  { split.
    - intros E program' j Hat' Hj. unfold program_at in *. simplify_eq.
      assert (counted' ≡ list_to_set (seqZ 0 (pg_task_count program))) as ->.
      { apply set_subseteq_size_equiv; [done|lia]. }
      by apply elem_of_list_to_set, elem_of_indices.
    - intros Ha. assert (list_to_set (seqZ 0 (pg_task_count program)) ⊆ counted') as H%subseteq_size; [|lia].
      intros j Hj%elem_of_list_to_set%elem_of_indices. by eapply Ha. }
  set (masks' := add_completed_count masks) in *.
  assert (run_ok r counted' past (store_masks d (gr_generation r) masks')) as Hrun'.
  { eapply run_update; try done; [rewrite Hcount; lia| |].
    - apply union_subseteq_r.
    - intros program' j. by eapply rn_started. }
  assert (forall pc', held pc' = None -> worker_ok r counted' past (store_masks d (gr_generation r) masks') pc' ->
    (all_counted r counted' -> owner pc' = true) ->
    step_ok r counted past d (CountCompleted (gr_generation r) (gr_program r) i) workers w
      (goto pc' (store_masks d (gr_generation r) masks'))) as Hgo.
  { intros pc' Hh Hw Ho. eexists pc', _, [], r, counted', past. split; [done|]. split; [constructor|].
    split; [|left; unfold run_score; cbn; rewrite Hsize; pose proof (owner_stage_nonneg pc'); lia].
    eapply sched_frame; [exact Hinv|exact Hpc|done|done| | | | | |].
    - intros v pv Hne Hv Hok. apply (others_keep r counted past d _ _ _ i); try done; [apply union_subseteq_r| |by eapply Hno].
      intros E. apply Hne. by eapply (si_unique _ _ _ _ _ Hinv).
    - by rewrite Hh.
    - intros _. by right.
    - intros j Hj Hc. right. split_and!; [done|set_solver|cbn]. intros [= ->]. apply Hc. set_solver.
    - intros _ Ha. left. by apply Ho.
    - intros _ _. by apply (si_idle _ _ _ _ _ Hinv). }
  destruct (_ =? _) eqn:E.
  - apply Hgo; [done| |done]. cbn. split_and!; [done|apply Hlast; lia|]. exists program.
    destruct (si_idle _ _ _ _ _ Hinv Hno). by split_and!.
  - apply Hgo; [done|done|]. intros Ha%Hlast. lia.
Qed.

(** *** The step to the next phase *)

(** Beside an owner everybody is free. *)
Lemma others_free r counted past workers d w pc :
  sched_inv r counted past workers d -> workers !! w = Some pc -> owner pc = true ->
  gr_ended r = None /\ all_counted r counted /\ owner_ok r d pc /\
  forall v pv, v <> w -> workers !! v = Some pv -> free pv /\ free_ok r past pv.
Proof.
  intros Hinv Hpc Ho. pose proof (si_workers _ _ _ _ _ Hinv w pc Hpc) as Hok.
  assert (gr_ended r = None /\ all_counted r counted /\ owner_ok r d pc) as (He & Ha & Hown) by (destruct pc; done).
  split_and!; [done..|]. intros v pv Hne Hv. pose proof (no_holder _ _ _ _ _ v pv Hinv Ha Hv) as Hh.
  assert (owner pv = false) as Hno.
  { destruct (owner pv) eqn:E; [|done]. destruct Hne. by eapply (si_owner _ _ _ _ _ Hinv). }
  pose proof (si_workers _ _ _ _ _ Hinv v pv Hv) as Hv'. split; [done|]. destruct pv; done.
Qed.

Lemma step_owner r counted past workers d w pc pc' d' :
  sched_inv r counted past workers d -> workers !! w = Some pc -> owner pc = true -> owner pc' = true ->
  owner_stage pc < owner_stage pc' ->
  run_ok r counted past d' -> owner_ok r d' pc' -> step_ok r counted past d pc workers w (goto pc' d').
Proof.
  intros Hinv Hpc Ho Ho' Hstage Hrun Hown. destruct (others_free _ _ _ _ _ _ _ Hinv Hpc Ho) as (He & Ha & _ & Hfree).
  assert (held pc = None) as Hh by (destruct pc; done). assert (held pc' = None) as Hh' by (destruct pc'; done).
  exists pc', d', [], r, counted, past. split; [done|]. split; [constructor|]. split; [|left; lia].
  eapply sched_frame; [exact Hinv|exact Hpc|done| | | | | | |].
  - destruct pc'; done.
  - intros v pv Hne Hv _. destruct (Hfree v pv Hne Hv) as [[H1 H2] Hok]. destruct pv; done.
  - by rewrite Hh'.
  - by left.
  - intros i Hi Hc. right. split_and!; [done|done|by rewrite Hh].
  - by left.
  - by rewrite Ho'.
Qed.

Lemma advance_step program r predicate branch :
  gr_step (advance args max_steps stop_value program r predicate branch) =
    to_u32 (gr_step r + Z.b2z (has_flag program kProgramAdvancesStep)) /\
  gr_executed (advance args max_steps stop_value program r predicate branch) =
    u64_add (gr_executed r) (pg_task_count program).
Proof. unfold advance. repeat case_match; done. Qed.

Lemma step_owners r counted past workers d w pc :
  sched_inv r counted past workers d -> workers !! w = Some pc ->
  match pc with StoreStep _ _ | StoreExecuted _ _ _ | Decide _ _ _ => True | _ => False end ->
  step_ok r counted past d pc workers w (worker_step args (Z.of_nat w) pc d).
Proof.
  intros Hinv Hpc Hkind. pose proof (si_run _ _ _ _ _ Hinv) as Hrun.
  assert (owner pc = true) as Ho by (destruct pc; done).
  destruct (others_free _ _ _ _ _ _ _ Hinv Hpc Ho) as (He & Ha & (program & Hat & Hown) & _).
  assert (0 <= gr_program r) as Hp0.
  { rewrite <-(rn_past _ _ _ _ Hrun). apply (rn_programs _ _ _ _ Hrun). pose proof (rn_generation _ _ _ _ Hrun). lia. }
  pose proof (read_is (E := Empty_set) _ _ program Hp0 Hat) as Hrd.
  pose proof (advance_step program r (gs_predicate_value (d_state d)) (gs_branch_value (d_state d))) as [A1 A2].
  destruct pc; try done; cbn [worker_step].
  - destruct Hown as (-> & -> & E1 & E2). rewrite Hrd. cbn [mbind result_bind].
    eapply step_owner; [done|done|done|done|by cbn; lia|by eapply run_ok_values|]. exists program. split; [done|]. cbn.
    by rewrite A1, E1.
  - destruct Hown as (-> & -> & E1 & E2 & E3). rewrite Hrd. cbn [mbind result_bind].
    eapply step_owner; [done|done|done|done|by cbn; lia|by eapply run_ok_values|]. exists program. split; [done|]. cbn.
    by rewrite A2, E3.
  - destruct Hown as (-> & -> & -> & E1 & E2). unfold decide_next. rewrite Hrd. cbn [mbind result_bind].
    pose proof (rn_generation _ _ _ _ Hrun) as Hg. change (2 ^ 24) with 16777216 in phases_few.
    rewrite (to_u32_small (gr_generation r + 1)) by lia. rewrite A1, A2 in *.
    rewrite (rn_max_steps _ _ _ _ Hrun), (rn_stop_value _ _ _ _ Hrun).
    set (next_step := to_u32 _) in *. unfold advance in E1, E2. fold next_step in E1, E2.
    rewrite !Z.geb_leb.
    destruct (has_flag program kProgramEvaluatesPredicate && _) eqn:G1;
      [|destruct (max_steps <=? next_step) eqn:G2; [|destruct (phase_state_count <=? gr_generation r + 1) eqn:G3]];
      (eapply step_owner; [done|done|done|done|by cbn; lia|by eapply run_ok_values|]; exists program; split; [done|]; cbn;
       unfold advance; fold next_step; rewrite ?G1, ?G2, ?G3; cbn; by split_and!).
Qed.

(** The end of a run. *)
Lemma step_end r counted past workers d w status :
  sched_inv r counted past workers d -> workers !! w = Some (PublishEnd status) ->
  step_ok r counted past d (PublishEnd status) workers w (worker_step args (Z.of_nat w) (PublishEnd status) d).
Proof.
  intros Hinv Hpc. pose proof (si_run _ _ _ _ _ Hinv) as Hrun.
  destruct (others_free _ _ _ _ _ _ _ Hinv Hpc eq_refl) as (He & Ha & (program & Hat & Hend & E1 & E2) & Hfree).
  cbn [worker_step].
  assert (forall i, 0 <= i < pg_task_count program -> i ∈ gr_finished r) as Hfin.
  { intros i Hi. apply (rn_counted _ _ _ _ Hrun). by eapply Ha. }
  set (r' := advance args max_steps stop_value program r (gs_predicate_value (d_state d)) (gs_branch_value (d_state d))) in *.
  assert (gr_generation r' = gr_generation r /\ gr_program r' = gr_program r /\ gr_started r' = gr_started r /\
    gr_finished r' = gr_finished r /\ status <> status_running /\ status <> status_ready) as (F1 & F2 & F3 & F4 & F5).
  { unfold r', advance in *. repeat case_match; cbn in *; simplify_eq; by split_and!. }
  eexists _, _, _, r', counted, past. split; [done|]. split; [by apply graph_steps_one, graph_advance|].
  split; [|left; unfold run_score; rewrite F1, F3, F4, Hend, He; cbn; lia].
  assert (all_counted r' counted) as Ha' by (unfold all_counted; by rewrite F2).
  eapply sched_frame; [exact Hinv|exact Hpc| | | | | | | |].
  - destruct Hrun as [? ? ? ? ? ? ? ? ? ? ? [M1 M2 M3 M4] ?].
    split; cbn; rewrite ?F1, ?F2, ?F3, ?F4, ?Hend; try done; [by intros ? [= <-]|split; rewrite ?F1, ?F3, ?F4; done].
  - done.
  - intros v pv Hne Hv _. destruct (Hfree v pv Hne Hv) as [[H1 H2] Hok].
    assert (free_ok r' past pv) as Hok'.
    { eapply (free_ok_mono r counted past d); [done|lia|done|by rewrite F4| |done]. rewrite Hend. eauto. }
    destruct pv; done.
  - done.
  - done.
  - rewrite F3. intros i Hi Hc. right. by split_and!.
  - by rewrite Hend.
  - intros _ _. by cbn.
Qed.

(** The next phase. *)
Lemma step_phase r counted past workers d w phase :
  sched_inv r counted past workers d -> workers !! w = Some (PublishPhase phase) ->
  step_ok r counted past d (PublishPhase phase) workers w (worker_step args (Z.of_nat w) (PublishPhase phase) d).
Proof.
  intros Hinv Hpc. pose proof (si_run _ _ _ _ _ Hinv) as Hrun.
  destruct (others_free _ _ _ _ _ _ _ Hinv Hpc eq_refl) as (He & Ha & (program & Hat & Hend & Hph & E1 & E2) & Hfree).
  cbn [worker_step].
  assert (forall i, 0 <= i < pg_task_count program -> i ∈ gr_finished r) as Hfin.
  { intros i Hi. apply (rn_counted _ _ _ _ Hrun). by eapply Ha. }
  set (r' := advance args max_steps stop_value program r (gs_predicate_value (d_state d)) (gs_branch_value (d_state d))) in *.
  destruct (program_here _ _ _ _ Hrun) as (program0 & Hat0 & (_ & _ & Hn0 & _ & Hb0) & Hpo).
  replace program0 with program in * by (unfold program_at in *; congruence). clear Hat0.
  assert (gr_generation r' = gr_generation r + 1 /\ gr_generation r + 1 < phase_state_count /\
    0 <= gr_program r' < program_count /\ gr_started r' = ∅ /\ gr_finished r' = ∅) as (F1 & F2 & F3 & F4 & F5).
  { unfold r', advance in *. destruct (_ && _); [done|]. destruct (_ <=? _); [done|]. destruct (_ <=? _) eqn:G; [done|]. cbn.
    split_and!; try done; try lia; destruct (_ && _) eqn:Gb; try lia.
    - apply (po_branch _ _ _ _ _ Hpo). by apply andb_prop in Gb as [? _].
    - apply (po_next _ _ _ _ _ Hpo). }
  set (past' g := if g =? gr_generation r' then gr_program r' else past g).
  assert (forall g, g <= gr_generation r -> past' g = past g) as Hp1.
  { intros g Hg. unfold past'. by replace (g =? gr_generation r') with false by lia. }
  assert (past' (gr_generation r') = gr_program r') as Hp2 by (unfold past'; by rewrite Z.eqb_refl).
  eexists _, _, _, r', ∅, past'. split; [done|]. split; [by apply graph_steps_one, graph_advance|].
  split; [|left; pose proof (score_bound _ _ _ _ Hrun) as Hs; unfold run_score in *; rewrite F1, F4, F5, Hend, He in *;
    rewrite !size_empty; cbn; lia].
  pose proof (rn_generation _ _ _ _ Hrun) as Hg.
  assert (~ all_counted r' ∅) as Hnone.
  { intros H. destruct (programs_ok _ F3) as (program' & Hat' & _ & Hpo'). pose proof (po_count _ _ _ _ _ Hpo').
    by specialize (H program' 0 Hat' ltac:(lia)). }
  eapply sched_frame; [exact Hinv|exact Hpc| | | | | | | |].
  - destruct Hrun as [R1 R2 R3 R4 R5 R6 R7 R8 R9 R10 R11 [M1 (m & M2 & B1 & _ & _ & B4) M3 M4] R12].
    split; cbn; rewrite ?Hend; try done; [lia| |by rewrite R5, He|by rewrite F4, F5|by rewrite F4; set_solver|].
    + intros g Hr. destruct (decide (g = gr_generation r')) as [->|]; [by rewrite Hp2|]. rewrite Hp1 by lia. apply R3. lia.
    + split; [done| | |].
      * exists empty_mask_state. rewrite F4, F5, size_empty. split; [apply M4; lia|].
        unfold claimed_bit, completed_bit. cbn. split; [|split; [|done]]; intros i Hi;
          (rewrite bool_decide_eq_false_2 by set_solver; destruct (i <? 32); apply Z.bits_0).
      * intros g Hr. rewrite Hp1 by lia. destruct (decide (g = gr_generation r)) as [->|]; [|apply M3; lia].
        exists m. split; [done|]. split; [done|]. intros program' i Hat' Hi. rewrite R2 in Hat'.
        replace program' with program in Hi by (unfold program_at in *; congruence). pose proof (po_count _ _ _ _ _ Hpo).
        unfold kMaximumTasks in *. rewrite B1 by lia. apply bool_decide_eq_true. by apply R10, Hfin.
      * intros g Hr. apply M4. lia.
  - done.
  - intros v pv Hne Hv _. destruct (Hfree v pv Hne Hv) as [[H1 H2] Hok].
    assert (free_ok r' past' pv) as Hok'.
    { eapply (free_ok_mono r counted past d); [done|lia| |lia|by rewrite He; intros [? ?]|done]. intros g Hr. apply Hp1. lia. }
    destruct pv; done.
  - done.
  - done.
  - rewrite F4. set_solver.
  - intros _ H. by destruct Hnone.
  - intros _ _. by cbn.
Qed.

(** Every step of every worker. *)
Lemma step_running r counted past workers d w pc :
  sched_inv r counted past workers d -> workers !! w = Some pc ->
  step_ok r counted past d pc workers w (worker_step args (Z.of_nat w) pc d).
Proof.
  intros Hinv Hpc. pose proof (si_workers _ _ _ _ _ Hinv w pc Hpc) as Hok. destruct pc; try done;
    first [by eapply step_load|by eapply step_scan|by eapply step_execute|by eapply step_mark|by eapply step_count
          |by eapply step_owners|by eapply step_end|by eapply step_phase].
Qed.
End invariant.

(** ** A launch *)

Section launch.
Context {X : Type} `{!Workload X} (args : ResidentArgs) (d0 : Device X).
Abbreviation s0 := (d_state d0).
Abbreviation phase_state_count := (ar_phase_state_count args).

(** Tables as long as their counts, and a state that was just initialised. *)
Record launchable : Prop := {
  la_state : state_typed s0;
  la_programs : Forall program_typed (ar_programs args);
  la_program_count : is_u32 (ar_program_count args);
  la_task_count : is_u32 (ar_task_count args);
  la_phases : 0 <= phase_state_count <= kMaximumPhaseStates;
  la_program_table : ar_program_count args <= vector_size (ar_programs args);
  la_task_table : ar_task_count args <= vector_size (ar_tasks args);
  la_phase_table : phase_state_count <= vector_size (d_phase_states d0);
  la_ready : gs_status s0 = status_ready;
  la_masks g : phase_generation (gs_phase s0) <= g < phase_state_count ->
    d_phase_states d0 !! Z.to_nat g = Some empty_mask_state
}.

Definition graph_accepted : Prop :=
  graph_ok s0 (ar_tasks args) (ar_programs args) (ar_program_count args) (ar_task_count args) phase_state_count
    (d_context d0).

Definition initial_run : graph_run :=
  mkRun (phase_generation (gs_phase s0)) (phase_program (gs_phase s0)) ∅ ∅ (gs_step s0) (gs_executed_tasks s0) None.

Hypothesis ready : launchable.

Abbreviation first := (phase_generation (gs_phase s0)).
Abbreviation running := (sched_inv args first (gs_max_steps s0) (gs_stop_value s0)).

Lemma phase_encode phase : is_u32 phase -> make_phase (phase_generation phase) (phase_program phase) = phase.
Proof.
  intros Hp. unfold make_phase, phase_generation, phase_program, kProgramIndexMask, kProgramIndexBits.
  change (Z.shiftl 1 8 - 1) with (Z.ones 8). rewrite Z.shiftl_mul_pow2, Z.shiftr_div_pow2, Z.land_ones by lia.
  change (2 ^ 8) with 256. rewrite to_u32_small by zlia.
  transitivity (phase / 256 * 256 + phase mod 256); [|zlia]. symmetry. rewrite Z.add_nocarry_lxor, <-Z.lxor_lor; try done;
    (apply Z.bits_inj'; intros j Hj; rewrite Z.land_spec, Z.bits_0; change 256 with (2 ^ 8); destruct (Z.lt_ge_cases j 8);
     [by rewrite Z.mul_pow2_bits_low by lia|rewrite (Z.mod_pow2_bits_high phase 8 j) by lia; apply andb_false_r]).
Qed.

Lemma accepted_programs p : graph_accepted -> 0 <= p < ar_program_count args ->
  exists program, program_at args p program /\ program_typed program /\
    program_ok (ar_tasks args) (ar_program_count args) (ar_task_count args) (fun _ => True) program.
Proof.
  intros Hok Hp. destruct (go_each _ _ _ _ _ _ _ Hok p Hp) as (program & Hat & [P1 P2 P3 P4 P5 P6 P7 P8]).
  exists program. split; [done|]. split.
  - by eapply Forall_lookup_1; [apply (la_programs ready)|].
  - split; try done. intros i Hi. destruct (P6 i Hi) as (task & ? & _). by exists task.
Qed.

Lemma phases_small : phase_state_count <= 2 ^ 24.
Proof. pose proof (la_phases ready) as Hp. change kMaximumPhaseStates with 16777216 in Hp. change (2 ^ 24) with 16777216. lia. Qed.

(** The three stages of a launch: validation, the run, and a refusal. *)
Inductive starting : list worker_pc -> Device X -> Prop :=
| starting_validate others : Forall (eq AwaitStart) others -> starting (ValidatePrograms :: others) d0
| starting_report others status : Forall (eq AwaitStart) others ->
    (status = status_running /\ graph_accepted) \/ (status = status_invalid_program /\ ~ graph_accepted) ->
    starting (ReportError status :: others) d0
| starting_accept others : Forall (eq AwaitStart) others -> graph_accepted ->
    starting (PublishValidation status_running :: others) d0
| starting_refuse others : Forall (eq AwaitStart) others -> ~ graph_accepted ->
    starting (PublishValidation status_invalid_program :: others) (store_error d0 1).

Definition refused (workers : list worker_pc) (d : Device X) : Prop :=
  ~ graph_accepted /\ gs_status (d_state d) = status_invalid_program /\ gs_error_code (d_state d) = 1 /\
  forall w pc, workers !! w = Some pc -> pc ∈ [AwaitStart; CheckStart; Returned].

Definition launch_inv (r : graph_run) (workers : list worker_pc) (d : Device X) : Prop :=
  (r = initial_run /\ starting workers d) \/
  (graph_accepted /\ exists counted past, running r counted past workers d) \/
  (r = initial_run /\ refused workers d).

Lemma accepted_range : graph_accepted ->
  0 <= first < phase_state_count /\ 0 <= phase_program (gs_phase s0) < ar_program_count args /\
  ar_program_count args <= 256.
Proof.
  intros Hok. pose proof (la_state ready) as (Hphase & _). destruct Hok as [_ [_ H1] _ H2 H3 _ _ _ _].
  split_and!; try done.
  - apply Z.shiftr_nonneg. lia.
  - unfold phase_program. apply Z.land_nonneg. by left; lia.
Qed.

(** The first state of a run that was accepted. *)
Lemma running_starts others : Forall (eq AwaitStart) others -> graph_accepted ->
  running initial_run ∅ (fun _ => phase_program (gs_phase s0)) (CheckStart :: others) (store_status d0 status_running).
Proof.
  intros Hothers Hok. destruct (accepted_range Hok) as (Hg & Hp & _). pose proof (la_state ready) as (Hphase & _).
  destruct (accepted_programs _ Hok Hp) as (program & Hat & _ & Hpo). pose proof (po_count _ _ _ _ _ Hpo) as Hn.
  assert (forall w pc, (CheckStart :: others) !! w = Some pc -> pc = CheckStart \/ pc = AwaitStart) as Hw.
  { intros [|w] pc H; cbn in H; [left; congruence|right]. symmetry. by eapply (Forall_lookup_1 _ _ _ _ Hothers). }
  assert (~ all_counted args initial_run ∅) as Hnone.
  { intros H. by specialize (H program 0 Hat ltac:(lia)). }
  split.
  - split; try done; cbn; [lia|..].
    + by rewrite phase_encode.
    + split; cbn; [apply (la_phase_table ready)| |lia|].
      * exists empty_mask_state. split; [apply (la_masks ready); lia|]. rewrite size_empty.
        unfold claimed_bit, completed_bit. cbn. split; [|split; [|done]]; intros i Hi;
          (rewrite bool_decide_eq_false_2 by set_solver; destruct (i <? 32); apply Z.bits_0).
      * intros g Hr. apply (la_masks ready). lia.
    + by intros [? ?].
  - intros w pc [->| ->]%Hw; done.
  - intros v w pv pw i [->| ->]%Hw _ E; done.
  - intros v w pv pw [->| ->]%Hw _ E; done.
  - cbn. set_solver.
  - intros _ H. by destruct Hnone.
  - done.
Qed.

(** What is to be shown of a step. *)
Definition launch_step_ok (r : graph_run) (o : result Empty_set (list worker_pc * Device X * list graph_event)) : Prop :=
  exists workers d events r', o = Ok (workers, d, events) /\
    graph_steps args (gs_max_steps s0) (gs_stop_value s0) r events r' /\ launch_inv r' workers d /\
    (~ graph_accepted -> events = []).

Lemma quiet_step workers d : launch_inv initial_run workers d -> launch_step_ok initial_run (Ok (workers, d, [])).
Proof. intros H. exists workers, d, [], initial_run. split; [done|]. split; [constructor|by split]. Qed.

Lemma starting_step workers d w pc : starting workers d -> workers !! w = Some pc ->
  launch_step_ok initial_run ('(pc, d, events) ← worker_step args (Z.of_nat w) pc d; Ok (<[w := pc]> workers, d, events)).
Proof.
  intros Hstart Hpc.
  assert (forall others, Forall (eq AwaitStart) others -> forall v pv, others !! v = Some pv -> pv = AwaitStart) as Hothers.
  { intros others H v pv Hv. symmetry. by eapply (Forall_lookup_1 _ _ _ _ H). }
  assert (gs_status (d_state d) = status_ready) as Hready by (destruct Hstart; apply (la_ready ready)).
  destruct w as [|w].
  - destruct Hstart as [others H|others status H Hcase|others H Hok|others H Hno]; cbn in Hpc; injection Hpc as <-; cbn [worker_step].
    + pose proof ready as []. unfold kMaximumPhaseStates in *.
      destruct (validate_programs_spec (E := Empty_set) s0 (ar_tasks args) (ar_programs args) (d_phase_states d0)
        (ar_program_count args) (ar_task_count args) phase_state_count (d_context d0)) as (b & -> & Hb); try done.
      { split; [lia|]. change (to_u32 (phase_generation UINT32_MAX + 1)) with 16777216 in *. lia. }
      cbn. apply quiet_step. left. split; [done|]. apply starting_report; [done|].
      destruct b; [left; split; [done|by apply Hb]|right]. split; [done|]. intros Hok%Hb. done.
    + cbn. apply quiet_step. left. split; [done|]. destruct Hcase as [[-> Hok]|[-> Hno]]; cbn; by constructor.
    + cbn. apply quiet_step. right; left. split; [done|]. eexists _, _. by apply running_starts.
    + cbn. apply quiet_step. right; right. split; [done|]. split_and!; [done|done|done|].
      intros [|v] pv Hv; cbn in Hv; [simplify_eq; set_solver|]. rewrite (Hothers others H v pv Hv). set_solver.
  - assert (pc = AwaitStart) as ->.
    { destruct Hstart as [others H|others status H Hcase|others H Hok|others H Hno]; cbn in Hpc; by eapply Hothers. }
    cbn [worker_step]. rewrite Hready. cbn. apply quiet_step. left. split; [done|].
    rewrite list_insert_id by done. done.
Qed.

Lemma refused_step workers d w pc : refused workers d -> workers !! w = Some pc ->
  launch_step_ok initial_run ('(pc, d, events) ← worker_step args (Z.of_nat w) pc d; Ok (<[w := pc]> workers, d, events)).
Proof.
  intros (Hno & Hst & Herr & Hw) Hpc.
  assert (exists pc', worker_step args (Z.of_nat w) pc d = goto pc' d /\ pc' ∈ [AwaitStart; CheckStart; Returned]) as (pc' & -> & Hin).
  { pose proof (Hw w pc Hpc) as Hin. rewrite !elem_of_cons, elem_of_nil in Hin.
    destruct Hin as [->|[->|[->|[]]]]; cbn; rewrite ?Hst; cbn; eexists; (split; [done|set_solver]). }
  cbn. apply quiet_step. right; right. split; [done|]. split_and!; [done..|].
  intros v pv [(<- & <- & _)|[_ Hv]]%list_lookup_insert_Some; [done|by eapply Hw].
Qed.

Lemma launch_step r workers d w : launch_inv r workers d -> launch_step_ok r (system_step args w workers d).
Proof.
  intros Hinv. unfold system_step. destruct (workers !! w) as [pc|] eqn:Hpc.
  2: { exists workers, d, [], r. split; [done|]. split; [constructor|by split]. }
  destruct Hinv as [[-> Hstart]|[(Hok & counted & past & Hrun)|[-> Href]]].
  - by eapply starting_step.
  - destruct (accepted_range Hok) as (Hg & Hp & Hc).
    destruct (step_running args first (gs_max_steps s0) (gs_stop_value s0)
      ltac:(intros p Hpr; by apply accepted_programs) Hc phases_small ltac:(lia)
      r counted past workers d w pc Hrun Hpc) as (pc' & d' & events & r' & counted' & past' & -> & Hsteps & Hinv' & _).
    cbn. eexists _, _, _, r'. split; [done|]. split; [done|]. split; [|done]. right; left. eauto.
  - by eapply refused_step.
Qed.

Lemma launch_run schedule r workers d : launch_inv r workers d ->
  launch_step_ok r (run_schedule args schedule workers d).
Proof.
  revert r workers d. induction schedule as [|w schedule IH]; intros r workers d Hinv; cbn [run_schedule].
  { exists workers, d, [], r. split; [done|]. split; [constructor|by split]. }
  destruct (launch_step r workers d w Hinv) as (workers1 & d1 & e1 & r1 & -> & H1 & Hinv1 & N1). cbn [mbind result_bind].
  destruct (IH r1 workers1 d1 Hinv1) as (workers2 & d2 & e2 & r2 & -> & H2 & Hinv2 & N2). cbn [mbind result_bind].
  eexists _, _, _, r2. split; [done|]. split; [by eapply graph_steps_app|].
  split; [done|]. intros Hno. by rewrite N1, N2.
Qed.

Lemma launch_starts others : launch_inv initial_run (launch_workers (S others)) d0.
Proof. left. split; [done|]. constructor. by apply Forall_replicate. Qed.

(** What the host finds when a worker has returned. *)
Definition outcome_agrees (r : graph_run) (workers : list worker_pc) (d : Device X) : Prop :=
  forall w, workers !! w = Some Returned ->
    if gr_ended r is Some status then
      gs_status (d_state d) = status /\ gs_step (d_state d) = gr_step r /\ gs_executed_tasks (d_state d) = gr_executed r
    else False.

Lemma running_agrees r counted past workers d : running r counted past workers d -> outcome_agrees r workers d.
Proof.
  intros Hinv w Hw. destruct (si_workers _ _ _ _ _ _ _ _ _ Hinv w _ Hw) as [status Hend]. rewrite Hend.
  pose proof (rn_status _ _ _ _ _ _ _ _ (si_run _ _ _ _ _ _ _ _ _ Hinv)) as Hst. rewrite Hend in Hst. split; [done|].
  apply (si_idle _ _ _ _ _ _ _ _ _ Hinv). intros v pv Hv. destruct (owner pv) eqn:E; [|done].
  pose proof (si_workers _ _ _ _ _ _ _ _ _ Hinv v pv Hv) as Hok. destruct pv; try done; destruct Hok as (He & _); congruence.
Qed.
End launch.

(** C4: the resident scheduler runs the graph, whatever the schedule.  On
    tables as long as their counts and a fresh state, any number of workers
    that take their steps in any order never read or write outside the tables.
    When the graph is accepted, the starts, ends and transitions they make are
    a run of the graph: every task of the current program starts once, after
    all its dependencies have finished; a program follows when all tasks of the
    one before have finished, chosen by its flags and the values the tasks left;
    and a worker returns only after the run has ended, with its status, steps
    and task count in the state.  When the graph is refused, no task starts and
    workers return with the error. *)
Theorem resident_run_refines {X} `{!Workload X} args (d0 : Device X) others schedule :
  launchable args d0 ->
  exists workers d events, run_schedule args schedule (launch_workers (S others)) d0 = Ok (workers, d, events) /\
    (graph_accepted args d0 -> exists r,
       graph_steps args (gs_max_steps (d_state d0)) (gs_stop_value (d_state d0)) (initial_run d0) events r /\
       outcome_agrees r workers d) /\
    (~ graph_accepted args d0 -> events = [] /\ forall w, workers !! w = Some Returned ->
       gs_status (d_state d) = status_invalid_program /\ gs_error_code (d_state d) = 1).
Proof.
  intros Hready. destruct (launch_run args d0 Hready schedule (initial_run d0) (launch_workers (S others)) d0)
    as (workers & d & events & r & -> & Hsteps & Hinv & Hquiet); [by apply launch_starts|].
  exists workers, d, events. split; [done|].
  destruct Hinv as [[-> Hstart]|[(Hok & counted & past & Hrun)|[-> Href]]].
  - assert (forall w, workers !! w <> Some Returned) as Hnone.
    { intros [|w] Hw; [by destruct Hstart|].
      destruct Hstart as [o H|o st H|o H|o H]; cbn in Hw; by apply (Forall_lookup_1 _ _ _ _ H) in Hw. }
    split; [intros Hok|intros Hno].
    + exists (initial_run d0). split; [done|]. by intros w Hw%Hnone.
    + split; [by apply Hquiet|by intros w Hw%Hnone].
  - split; [|done]. intros _. exists r. split; [done|]. by eapply running_agrees.
  - destruct Href as (Hno & Hst & Herr & _). split; [done|]. intros _. split; [by apply Hquiet|done].
Qed.
