(* ===== verification/ResidentProgress.v ===== *)
(** * The resident scheduler: progress

    A launch whose workers all keep taking steps comes to its end: there is
    always a worker whose steps take the run further. *)

From stdpp Require Import gmap relations.
From S2P Require Import Prelude StatefulGraph ResidentScheduler.

Section progress.
Context {X : Type} `{!Workload X} (args : ResidentArgs) (first max_steps stop_value : Z).
Context (accesses : nat).
Implicit Types d : Device X.
Abbreviation tasks := (ar_tasks args).
Abbreviation program_count := (ar_program_count args).
Abbreviation phase_state_count := (ar_phase_state_count args).
Abbreviation inv := (sched_inv args first max_steps stop_value).

Hypothesis programs_ok : forall p, 0 <= p < program_count -> exists program, program_at args p program /\
  program_typed program /\ program_ok tasks program_count (ar_task_count args) (fun _ => True) program.
Hypothesis programs_few : program_count <= 256.
Hypothesis phases_few : phase_state_count <= 2 ^ 24.
Hypothesis first_phase : 0 <= first.
Hypothesis tasks_end : forall task k s (x : X), (accesses <= k)%nat -> execute task k s x = None.

(** ** A task that can start *)

Lemma ready_exists program (s : gset Z) :
  program_ok tasks program_count (ar_task_count args) (fun _ => True) program -> 0 <= pg_task_offset program ->
  ~ (forall i, 0 <= i < pg_task_count program -> i ∈ s) ->
  exists i, 0 <= i < pg_task_count program /\ i ∉ s /\ forall j, depends tasks program i j -> j ∈ s.
Proof.
  intros Hok Hoff Hmore.
  assert (exists i, 0 <= i < pg_task_count program /\ i ∉ s) as (i & Hi & Hs).
  { destruct (decide (Forall (fun i => i ∈ s) (seqZ 0 (pg_task_count program)))) as [H|H].
    - destruct Hmore. intros i Hi. rewrite Forall_forall in H. by apply H, elem_of_indices.
    - apply not_Forall_Exists, Exists_exists in H as (i & Hi%elem_of_indices & Hs); [by exists i|apply _]. }
  assert (sn (depends tasks program) i) as Hsn.
  { apply (acyclic_orderable _ (pg_task_count program)); [|apply (po_acyclic _ _ _ _ _ Hok)].
    intros j k Hd. split; [apply Hd|]. split; [apply Hd|]. by apply (po_closed _ _ _ _ _ Hok) in Hd. }
  induction Hsn as [i _ IH]. destruct (po_tasks _ _ _ _ _ Hok i Hi) as (task & Ht & _).
  destruct (decide (Exists (fun j => Z.testbit (task_dependencies task) j = true /\ j ∉ s) (seqZ 0 (pg_task_count program))))
    as [H|H].
  - apply Exists_exists in H as (j & Hj%elem_of_indices & Hb & Hjs). apply (IH j); [|done|done].
    split; [done|]. split; [lia|]. by exists task.
  - exists i. split; [done|]. split; [done|]. intros j Hd. destruct (decide (j ∈ s)) as [|Hjs]; [done|]. destruct H.
    apply Exists_exists. exists j. pose proof (po_closed _ _ _ _ _ Hok _ _ Hd). destruct Hd as (_ & Hj & task' & Ht' & Hb).
    rewrite Ht in Ht'. injection Ht' as <-. split; [by apply elem_of_indices|done].
Qed.

(** ** A worker that looks for a task *)

(** The distance of a free worker from the end of its scan. *)
Definition rank (pc : worker_pc) : Z :=
  match pc with
  | Scan _ _ _ _ offset => Z.max 0 (64 - offset)
  | ReloadPhase _ _ _ _ => 65
  | LoadCompletedHigh _ _ _ _ => 66
  | LoadCompleted _ _ _ => 67
  | LoadClaimedHigh _ _ => 68
  | LoadClaimed _ => 69
  | LoadPhase => 70
  | CheckStatus => 71
  | CheckStart => 72
  | AwaitStart => 73
  | _ => 0
  end.

Section still.
Context (r : graph_run) (d : Device X) (w : nat) (program : Program) (masks : MaskState).

Definition ready (i : Z) : Prop := i ∉ gr_started r /\ forall j, depends tasks program i j -> j ∈ gr_finished r.

(** A scan with what the masks hold now. *)
Definition sees_free (c ch : Z) : Prop := forall i, 0 <= i < pg_task_count program -> i ∉ gr_started r ->
  (Z.land (if mask_word i =? 0 then c else ch) (word_mask i) =? 0) = true.
Definition sees_finished (completed : Z) : Prop := forall j, j ∈ gr_finished r -> Z.testbit completed j = true.

Definition up_to_date (pc : worker_pc) : Prop :=
  match pc with
  | LoadClaimed phase => phase = gs_phase (d_state d)
  | LoadClaimedHigh phase c => phase = gs_phase (d_state d) /\ c = ms_claimed_mask masks
  | LoadCompleted phase c ch => phase = gs_phase (d_state d) /\ sees_free c ch
  | LoadCompletedHigh phase c ch low =>
      phase = gs_phase (d_state d) /\ sees_free c ch /\ low = ms_completed_mask masks
  | ReloadPhase phase c ch completed => phase = gs_phase (d_state d) /\ sees_free c ch /\ sees_finished completed
  | Scan phase c ch completed offset =>
      phase = gs_phase (d_state d) /\ sees_free c ch /\ sees_finished completed /\
      forall o, 0 <= o < offset -> ~ ready (to_u32 (Z.of_nat w + o) mod pg_task_count program)
  | _ => True
  end.

(** The worker finds a task in at most [m] steps of its own. *)
Definition near (m : Z) (pc : worker_pc) : Prop := (up_to_date pc /\ rank pc <= m) \/ rank pc + 100 <= m.
End still.

Lemma rank_bounds pc : 0 <= rank pc <= 73 \/ exists p c ch co o, pc = Scan p c ch co o /\ o < 0.
Proof. destruct pc; cbn; try (left; lia). destruct (decide (offset < 0)); [right; eauto 10|left; lia]. Qed.

(** The task at the other end of the scan. *)
Lemma scan_reaches n w i : 0 < n <= 64 -> 0 <= i < n -> Z.of_nat w < 2 ^ 31 ->
  exists o, 0 <= o < n /\ to_u32 (Z.of_nat w + o) mod n = i.
Proof.
  intros Hn Hi Hw. change (2 ^ 31) with 2147483648 in Hw. exists ((i - Z.of_nat w) mod n).
  pose proof (Z.mod_pos_bound (i - Z.of_nat w) n ltac:(lia)). split; [lia|]. rewrite to_u32_small by lia.
  rewrite Z.add_mod_idemp_r by lia. replace (Z.of_nat w + (i - Z.of_nat w)) with i by lia. apply Z.mod_small. lia.
Qed.

(** What the loads of a scan show while nothing changes. *)
Lemma current_free (r : graph_run) (program : Program) masks :
  pg_task_count program <= 64 ->
  (forall i, 0 <= i < 64 -> claimed_bit masks i = bool_decide (i ∈ gr_started r)) ->
  forall ch, (32 < pg_task_count program -> ch = ms_claimed_mask_high masks) ->
  sees_free r program (ms_claimed_mask masks) ch.
Proof.
  intros Hn Hbits ch Hch i Hi Hs. specialize (Hbits i ltac:(lia)). rewrite bool_decide_eq_false_2 in Hbits by done.
  unfold claimed_bit in Hbits. rewrite mask_word_low, word_mask_pow by lia. destruct (i <? 32) eqn:E.
  - rewrite word_bit_clear by lia. by rewrite Hbits.
  - rewrite word_bit_clear by lia. rewrite Hch by lia. by rewrite Hbits.
Qed.

Lemma current_finished (r : graph_run) (program : Program) masks :
  pg_task_count program <= 64 ->
  (forall i, 0 <= i < 64 -> completed_bit masks i = bool_decide (i ∈ gr_finished r)) ->
  (forall i, i ∈ gr_finished r -> 0 <= i < pg_task_count program) ->
  (pg_task_count program <= 32 -> sees_finished r (ms_completed_mask masks)) /\
  sees_finished r (Z.lor (ms_completed_mask masks) (to_u64 (Z.shiftl (ms_completed_mask_high masks) 32))).
Proof.
  intros Hn Hbits Hrange.
  assert (forall j, j ∈ gr_finished r -> 0 <= j < pg_task_count program /\ completed_bit masks j = true) as H.
  { intros j Hj. split; [by apply Hrange|]. rewrite Hbits by (specialize (Hrange j Hj); lia). by apply bool_decide_eq_true. }
  split.
  - intros Hl j Hj. destruct (H j Hj) as [Hr Hb]. unfold completed_bit in Hb. by replace (j <? 32) with true in Hb by lia.
  - intros j Hj. destruct (H j Hj) as [Hr Hb]. unfold completed_bit in Hb. rewrite Z.lor_spec. destruct (j <? 32) eqn:E.
    + by rewrite Hb.
    + unfold to_u64. change U64_MOD with (2 ^ 64). rewrite Z.mod_pow2_bits_low, Z.shiftl_spec by lia.
      rewrite Hb. apply orb_true_r.
Qed.

(** A step of a scan. *)
Lemma scan_moves d w phase c ch completed offset program masks :
  program_ok tasks program_count (ar_task_count args) (fun _ => True) program -> 0 <= pg_task_offset program ->
  read (E := Empty_set) (ar_programs args) (phase_program phase) = Ok program ->
  masks_at d (phase_generation phase) = Ok masks -> 0 <= offset ->
  exists pc d' events, scan_task args (Z.of_nat w) phase c ch completed offset d = Ok (pc, d', events) /\
    (held pc <> None \/ (pc = Scan phase c ch completed (offset + 1) /\ offset < pg_task_count program) \/ pc = CheckStatus).
Proof.
  intros Hpo Hoff Hrd Hm Ho. unfold scan_task. rewrite Hrd. cbn [mbind result_bind].
  destruct (offset <? pg_task_count program) eqn:El; [|eexists _, _, _; split; [done|by right; right]].
  pose proof (po_count _ _ _ _ _ Hpo) as Hn. unfold kMaximumTasks in Hn.
  set (i := to_u32 (Z.of_nat w + offset) mod pg_task_count program).
  assert (0 <= i < pg_task_count program) as Hi by (apply Z.mod_pos_bound; lia).
  destruct (po_tasks _ _ _ _ _ Hpo i Hi) as (task & Ht & _).
  rewrite (read_is tasks (pg_task_offset program + i) task ltac:(lia) Ht). cbn [mbind result_bind].
  destruct (_ && _); [|eexists _, _, _; split; [done|right; left; split; [done|lia]]]. rewrite Hm. cbn [mbind result_bind].
  destruct (or_claimed_spec masks i) as (previous & masks' & -> & -> & _); [lia|].
  destruct (claimed_bit masks i); cbn [negb]; eexists _, _, _; (split; [done|]); [right; left; split; [done|lia]|by left].
Qed.

(** A step of an up-to-date scan: the task is claimed if it is ready. *)
Lemma scan_finds r d w program masks phase c ch completed offset :
  program_ok tasks program_count (ar_task_count args) (fun _ => True) program -> 0 <= pg_task_offset program ->
  read (E := Empty_set) (ar_programs args) (phase_program phase) = Ok program ->
  masks_at d (phase_generation phase) = Ok masks ->
  (forall i, 0 <= i < 64 -> claimed_bit masks i = bool_decide (i ∈ gr_started r)) ->
  sees_free r program c ch -> sees_finished r completed -> 0 <= offset < pg_task_count program ->
  exists pc d' events, scan_task args (Z.of_nat w) phase c ch completed offset d = Ok (pc, d', events) /\
    (held pc <> None \/ pc = Scan phase c ch completed (offset + 1) /\
       ~ ready r program (to_u32 (Z.of_nat w + offset) mod pg_task_count program)).
Proof.
  intros Hpo Hoff Hrd Hm Hbits Hfree Hfin Ho. unfold scan_task. rewrite Hrd. cbn [mbind result_bind].
  replace (offset <? pg_task_count program) with true by lia.
  pose proof (po_count _ _ _ _ _ Hpo) as Hn. unfold kMaximumTasks in Hn.
  set (i := to_u32 (Z.of_nat w + offset) mod pg_task_count program).
  assert (0 <= i < pg_task_count program) as Hi by (apply Z.mod_pos_bound; lia).
  destruct (po_tasks _ _ _ _ _ Hpo i Hi) as (task & Ht & _).
  rewrite (read_is tasks (pg_task_offset program + i) task ltac:(lia) Ht). cbn [mbind result_bind].
  destruct (_ && _) eqn:Eg.
  - rewrite Hm. cbn [mbind result_bind]. destruct (or_claimed_spec masks i) as (previous & masks' & -> & -> & _); [lia|].
    rewrite Hbits by lia. case_bool_decide as Hst; cbn [negb]; eexists _, _, _; (split; [done|]); [|by left].
    right. split; [done|]. by intros [? _].
  - eexists _, _, _. split; [done|]. right. split; [done|]. intros [Hst Hd]. rewrite (Hfree i Hi Hst) in Eg. cbn in Eg.
    assert ((Z.land (task_dependencies task) completed =? task_dependencies task) = true); [|congruence].
    apply land_within. intros j Hj Hb. apply Hfin, Hd. split; [done|]. split; [done|]. by exists task.
Qed.

(** The program and masks of a phase that a worker read earlier. *)
Ltac stale_phase Hrun Hok :=
  destruct (known_phase _ _ _ _ programs_ok programs_few phases_few first_phase _ _ _ _ _ Hrun Hok)
    as (? & ? & ? & _ & K1 & K2 & _ & _ & _ & K3 & K4 & _).

(** One step of a free worker while some task is ready: it claims one, or comes
    nearer. *)
Lemma near_step r counted past workers d w pc program masks m :
  inv r counted past workers d -> workers !! w = Some pc -> free pc -> gr_ended r = None ->
  program_at args (gr_program r) program -> Z.of_nat w < 2 ^ 31 ->
  d_phase_states d !! Z.to_nat (gr_generation r) = Some masks ->
  (exists i, 0 <= i < pg_task_count program /\ ready r program i) ->
  near r d w program masks m pc ->
  exists pc' d' events, worker_step args (Z.of_nat w) pc d = Ok (pc', d', events) /\
    (held pc' <> None \/ near r d w program masks (m - 1) pc').
Proof.
  intros Hinv Hpc [Hheld Hown] Hend Hat Hw Hl (t & Ht & Hready) Hnear.
  pose proof (si_run _ _ _ _ _ _ _ _ _ Hinv) as Hrun. pose proof (si_workers _ _ _ _ _ _ _ _ _ Hinv w pc Hpc) as Hok.
  destruct (current_masks _ _ _ _ first_phase _ _ _ _ Hrun) as (masks0 & Hm & Hl0 & B1 & B2 & _ & _). rewrite Hl in Hl0. injection Hl0 as <-.
  destruct (program_here _ _ _ _ programs_ok _ _ _ _ Hrun) as (program0 & Hat0 & (Hoff & _) & Hpo).
  replace program0 with program in * by (unfold program_at in *; congruence). clear Hat0.
  pose proof (po_count _ _ _ _ _ Hpo) as Hn. unfold kMaximumTasks in Hn.
  assert (forall i, i ∈ gr_finished r -> 0 <= i < pg_task_count program) as Hrange.
  { intros i Hi. eapply rn_started; [done|done|]. by apply (rn_finished _ _ _ _ _ _ _ _ Hrun). }
  destruct (current_finished r program masks) as [F1 F2]; [lia|done|done|].
  assert (gs_status (d_state d) =? status_running = true) as Hst.
  { rewrite (rn_status _ _ _ _ _ _ _ _ Hrun), Hend. done. }
  pose proof (rn_generation _ _ _ _ _ _ _ _ Hrun) as Hg. pose proof (rn_past _ _ _ _ _ _ _ _ Hrun) as Hpast.
  pose proof (rn_programs _ _ _ _ _ _ _ _ Hrun (gr_generation r) ltac:(lia)) as Hpr. rewrite Hpast in Hpr.
  destruct (phase_decode (gr_generation r) (gr_program r)) as [D1 D2]; [lia|lia|].
  rewrite <-(rn_phase _ _ _ _ _ _ _ _ Hrun) in D1, D2.
  pose proof (read_is (E := Empty_set) _ _ program (proj1 Hpr) Hat) as Hrd.
  assert (forall pc', worker_step args (Z.of_nat w) pc d = goto pc' d -> near r d w program masks (m - 1) pc' ->
    exists pc' d' events, worker_step args (Z.of_nat w) pc d = Ok (pc', d', events) /\
    (held pc' <> None \/ near r d w program masks (m - 1) pc')) as Hgo.
  { intros pc' H Hn'. exists pc', d, []. split; [done|by right]. }
  destruct pc; try done; cbn [worker_ok free_ok owner] in Hok; unfold near in Hnear; cbn [up_to_date rank] in Hnear.
  - (* AwaitStart *)
    eapply Hgo; [cbn [worker_step]; done|]. rewrite (rn_status _ _ _ _ _ _ _ _ Hrun), Hend. cbn. left. cbn. split; [done|lia].
  - eapply Hgo; [cbn [worker_step]; by rewrite Hst|]. left. cbn. split; [done|lia].
  - eapply Hgo; [done|]. left. cbn. split; [done|lia].
  - destruct Hnear as [[-> Hr]|Hr].
    + eapply Hgo; [cbn [worker_step]; by rewrite D1, D2, Hrd, Hm|]. left. destruct (_ >? _) eqn:E; cbn; [split; [done|lia]|].
      split; [|lia]. split; [done|]. apply current_free; [lia|done|lia].
    + stale_phase Hrun Hok. eapply Hgo; [cbn [worker_step]; by rewrite K1, K2, K3, K4|]. right. destruct (_ >? _); cbn; lia.
  - destruct Hnear as [[[-> ->] Hr]|Hr].
    + eapply Hgo; [cbn [worker_step]; by rewrite D1, Hm|]. left. cbn. split; [|lia]. split; [done|]. by apply current_free; [lia|..].
    + stale_phase Hrun Hok. eapply Hgo; [cbn [worker_step]; by rewrite K1, K4|]. right. cbn. lia.
  - destruct Hnear as [[[-> Hf] Hr]|Hr].
    + eapply Hgo; [cbn [worker_step]; by rewrite D1, D2, Hrd, Hm|]. left. destruct (_ >? _) eqn:E; cbn; (split; [|lia]).
      * by split_and!.
      * split_and!; [done|done|]. apply F1. lia.
    + stale_phase Hrun Hok. eapply Hgo; [cbn [worker_step]; by rewrite K1, K2, K3, K4|]. right. destruct (_ >? _); cbn; lia.
  - destruct Hok as [Hok _]. destruct Hnear as [[(-> & Hf & ->) Hr]|Hr].
    + eapply Hgo; [cbn [worker_step]; by rewrite D1, Hm|]. left. cbn. split; [|lia]. by split_and!.
    + stale_phase Hrun Hok. eapply Hgo; [cbn [worker_step]; by rewrite K1, K4|]. right. cbn. lia.
  - destruct Hnear as [[(-> & Hf & Hc) Hr]|Hr].
    + eapply Hgo; [cbn [worker_step]; by rewrite Z.eqb_refl|]. left. cbn. split; [|lia]. split_and!; [done..|]. intros; lia.
    + eapply Hgo; [done|]. destruct (_ =? gs_phase _); [right; cbn; lia|]. left. cbn. split; [done|lia].
  - destruct Hok as (Hok & _ & Hoffset). cbn [worker_step]. clear Hgo. destruct Hnear as [[(-> & Hf & Hc & Hpassed) Hr]|Hr].
    + destruct (decide (offset < pg_task_count program)) as [Hlt|Hge].
      2: { exfalso. destruct (scan_reaches (pg_task_count program) w t) as (o & Ho & E); [lia|lia|done|].
        apply (Hpassed o); [lia|]. by rewrite E. }
      set (i := to_u32 (Z.of_nat w + offset) mod pg_task_count program).
      assert (0 <= i < pg_task_count program) as Hi by (apply Z.mod_pos_bound; lia).
      destruct (scan_finds r d w program masks (gs_phase (d_state d)) claimed_mask claimed_mask_high completed_mask offset)
        as (pc' & d' & events & Hstep & Hcase); try done; [lia|by rewrite D2|by rewrite D1|].
      exists pc', d', events. split; [done|]. destruct Hcase as [Hheld'|[-> Hnot]]; [by left|right]. left. cbn [up_to_date rank].
      split; [|lia]. split_and!; [done..|]. intros o Ho. destruct (decide (o = offset)) as [->|]; [done|]. apply Hpassed. lia.
    + destruct (known_phase _ _ _ _ programs_ok programs_few phases_few first_phase _ _ _ _ _ Hrun Hok)
        as (g & program' & masks' & _ & K1 & K2 & _ & (K3 & _) & K4 & K5 & K6 & _).
      destruct (scan_moves d w phase_before claimed_mask claimed_mask_high completed_mask offset program' masks')
        as (pc' & d' & events & Hstep & Hcase); try done; [lia|by rewrite K2|by rewrite K1|].
      exists pc', d', events. split; [done|]. pose proof (po_count _ _ _ _ _ K4) as Hn'. unfold kMaximumTasks in Hn'.
      destruct Hcase as [Hheld'|[[-> Hlt]| ->]]; [by left|right; right; cbn; lia|right; left; cbn; split; [done|lia]].
  - eapply Hgo; [cbn [worker_step]; by rewrite Hst|]. left. cbn. split; [done|lia].
  - exfalso. cbn in Hok. rewrite Hend in Hok. by destruct Hok.
Qed.

(** ** Somebody always takes the run further *)

Definition hold_near (m : Z) (pc : worker_pc) : Prop :=
  match pc with
  | Execute _ _ _ access => Z.max 0 (Z.of_nat accesses - Z.of_nat access) + 1 <= m
  | _ => 0 <= m
  end.

(** Worker [w] takes the run further in at most [m] steps of its own, unless
    another does before. *)
Definition urgent (r : graph_run) (workers : list worker_pc) d (w : nat) (m : Z) : Prop :=
  exists pc, workers !! w = Some pc /\
    ((~ free pc /\ hold_near m pc) \/
     ((forall v pv, workers !! v = Some pv -> free pv) /\
      exists program masks, program_at args (gr_program r) program /\
        d_phase_states d !! Z.to_nat (gr_generation r) = Some masks /\ near r d w program masks m pc)).

Definition patience : Z := Z.of_nat accesses + 200.

Lemma not_free pc : ~ free pc -> held pc <> None \/ owner pc = true.
Proof. unfold free. destruct (held pc), (owner pc); try tauto; by left. Qed.

Lemma urgent_exists r counted past workers d :
  inv r counted past workers d -> gr_ended r = None -> (0 < length workers)%nat ->
  exists w, urgent r workers d w patience.
Proof.
  intros Hinv Hend Hlen. pose proof (si_run _ _ _ _ _ _ _ _ _ Hinv) as Hrun. unfold patience.
  destruct (decide (Forall (fun pc => held pc = None /\ owner pc = false) workers)) as [Hall|Hsome].
  - destruct (lookup_lt_is_Some_2 workers 0 Hlen) as [pc Hpc]. exists 0%nat, pc. split; [done|]. right. split.
    + intros v pv Hv. by apply (Forall_lookup_1 _ _ _ _ Hall Hv).
    + destruct (program_here _ _ _ _ programs_ok _ _ _ _ Hrun) as (program & Hat & _).
      destruct (current_masks _ _ _ _ first_phase _ _ _ _ Hrun) as (masks & _ & Hl & _).
      exists program, masks. split; [done|]. split; [done|]. right.
      destruct (rank_bounds pc) as [Hr|(p & c & ch & co & o & -> & Ho)]; [lia|].
      destruct (si_workers _ _ _ _ _ _ _ _ _ Hinv _ _ Hpc) as (_ & _ & ?). lia.
  - apply not_Forall_Exists in Hsome; [|apply _]. apply Exists_exists in Hsome as (pc & [w Hw]%list_elem_of_lookup & Hnf).
    exists w, pc. split; [done|]. left. split; [done|]. destruct pc; cbn; lia.
Qed.

(** When everybody is free, a task is ready. *)
Lemma ready_task r counted past workers d program :
  inv r counted past workers d -> gr_ended r = None -> (forall v pv, workers !! v = Some pv -> free pv) ->
  program_at args (gr_program r) program -> 0 <= pg_task_offset program < U32_MOD ->
  program_ok tasks program_count (ar_task_count args) (fun _ => True) program ->
  exists i, 0 <= i < pg_task_count program /\ ready r program i.
Proof.
  intros Hinv Hend Hall Hat Hoff Hpo. pose proof (si_run _ _ _ _ _ _ _ _ _ Hinv) as Hrun.
  assert (gr_started r ⊆ counted) as Hs.
  { intros i Hi. destruct (decide (i ∈ counted)) as [|Hc]; [done|].
    destruct (si_held _ _ _ _ _ _ _ _ _ Hinv i Hi Hc) as (v & pv & Hv & Hh). by rewrite (proj1 (Hall v pv Hv)) in Hh. }
  pose proof (rn_counted _ _ _ _ _ _ _ _ Hrun) as Hc.
  destruct (ready_exists program (gr_finished r)) as (i & Hi & Hnf & Hd); [done|lia| |].
  - intros H. destruct (si_owned _ _ _ _ _ _ _ _ _ Hinv) as (v & pv & Hv & Ho); [done| |by rewrite (proj2 (Hall v pv Hv)) in Ho].
    intros program' i Hat' Hi. replace program' with program in Hi by (unfold program_at in *; congruence).
    by apply Hs, (rn_finished _ _ _ _ _ _ _ _ Hrun), H.
  - exists i. split; [done|]. split; [|done]. intros Hi'. by apply Hnf, Hc, Hs.
Qed.

Lemma urgent_step r counted past workers d w m v pv :
  inv r counted past workers d -> gr_ended r = None -> Z.of_nat (length workers) < 2 ^ 31 ->
  urgent r workers d w m -> workers !! v = Some pv ->
  exists pc' d' events r' counted' past', worker_step args (Z.of_nat v) pv d = Ok (pc', d', events) /\
    inv r' counted' past' (<[v := pc']> workers) d' /\
    (run_score r counted + owner_stage pv < run_score r' counted' + owner_stage pc' \/
     r' = r /\ counted' = counted /\ owner_stage pc' = owner_stage pv /\
     urgent r (<[v := pc']> workers) d' w (if decide (v = w) then m - 1 else m)).
Proof.
  intros Hinv Hend Hlen (pc & Hpc & Hu) Hv.
  destruct (step_running args first max_steps stop_value programs_ok programs_few phases_few first_phase
    r counted past workers d v pv Hinv Hv) as (pc' & d' & events & r' & counted' & past' & Hstep & _ & Hinv' & Hcase).
  exists pc', d', events, r', counted', past'. split; [done|]. split; [done|].
  destruct Hcase as [?|(-> & -> & -> & Em & _ & _ & Ho & Ho' & Hheld & Hlook & Hd)]; [by left|right].
  split_and!; [done|done|by rewrite !owner_stage_free|].
  pose proof (lookup_lt_Some _ _ _ Hv) as Hlt.
  assert (free pv -> free pc') as Hfree by (intros [H1 _]; split; congruence).
  destruct (decide (v = w)) as [->|Hne].
  - assert (pv = pc) as -> by congruence. exists pc'. split; [by apply list_lookup_insert_eq|].
    destruct Hu as [[Hnf Hm]|(Hall & program & masks & Hat & Hl & Hnear)].
    + left. destruct Hlook as [Hf|Hexec]; [done|]. destruct pc; try done.
      split. { intros [H _]. rewrite Hheld in H. done. }
      cbn [worker_step] in Hstep. destruct (read (ar_programs args) program_index) as [program| |]; [|done|done].
      cbn [mbind result_bind] in Hstep. destruct (read tasks (pg_task_offset program + task_index)) as [task| |]; [|done|done].
      cbn [mbind result_bind] in Hstep. cbn in Hm.
      destruct (execute task access (d_state d) (d_context d)) as [[[a b] x]|] eqn:Ex; unfold goto in Hstep; simplify_eq; cbn; [|lia].
      destruct (decide (accesses <= access)%nat); [by rewrite tasks_end in Ex|]. lia.
    + right. pose proof (Hall _ _ Hpc) as Hf. rewrite (Hd Hf) in *. split.
      { intros u pu [(<- & <- & _)|[_ Hu]]%list_lookup_insert_Some; [by apply Hfree|by eapply Hall]. }
      exists program, masks. split; [done|]. split; [done|].
      assert (exists i, 0 <= i < pg_task_count program /\ ready r program i) as Hready.
      { destruct (program_here _ _ _ _ programs_ok _ _ _ _ (si_run _ _ _ _ _ _ _ _ _ Hinv)) as (program0 & Hat0 & (Hoff & _) & Hpo).
        replace program0 with program in * by (unfold program_at in *; congruence). eapply ready_task; [exact Hinv|done|exact Hall|done|done|done]. }
      destruct (near_step r counted past workers d w pc program masks m) as (pc2 & d2 & ev2 & Hstep2 & Hnext); try done; [lia|].
      rewrite Hstep in Hstep2. simplify_eq. destruct Hnext as [Hh|]; [|done]. by rewrite (proj1 (Hfree Hf)) in Hh.
  - exists pc. split; [by rewrite list_lookup_insert_ne|].
    destruct Hu as [[Hnf Hm]|(Hall & program & masks & Hat & Hl & Hnear)]; [by left|right].
    rewrite (Hd (Hall _ _ Hv)). split; [|by exists program, masks].
    intros u pu [(<- & <- & _)|[_ Hu]]%list_lookup_insert_Some; [|by eapply Hall]. by eapply Hfree, Hall.
Qed.

(** ** Rounds *)

(** A round is a schedule in which a worker appears; each round brings it one
    step further. *)
Lemma rounds_count (w : nat) (Q : Z -> list worker_pc -> Device X -> Prop) rounds m workers d :
  (forall m workers d v, Q m workers d -> exists workers' d' events, system_step args v workers d = Ok (workers', d', events) /\
     Q (if decide (v = w) then m - 1 else m) workers' d') ->
  (forall m m' workers d, m <= m' -> Q m workers d -> Q m' workers d) ->
  (forall l, l ∈ rounds -> w ∈ l) -> Q m workers d ->
  exists workers' d' events, run_schedule args (concat rounds) workers d = Ok (workers', d', events) /\
    Q (m - Z.of_nat (length rounds)) workers' d'.
Proof.
  intros Hstep Hmono.
  assert (forall l more m workers d, Q m workers d -> exists workers' d' events m',
    run_schedule args (l ++ more) workers d =
      ('(workers, d, e) ← run_schedule args more workers' d'; Ok (workers, d, events ++ e)) /\
    Q m' workers' d' /\ m' <= m /\ (w ∈ l -> m' <= m - 1)) as Hround.
  { induction l as [|v l IH]; intros more m' ws dev HQ.
    - exists ws, dev, [], m'. split; [cbn; by destruct (run_schedule args more ws dev) as [[[? ?] ?]| |]|].
      split; [done|]. split; [lia|]. intros H. by apply elem_of_nil in H.
    - destruct (Hstep m' ws dev v HQ) as (ws1 & dev1 & e1 & E1 & HQ1).
      destruct (IH more _ _ _ HQ1) as (ws2 & dev2 & e2 & m2 & E2 & HQ2 & Hle & Hin).
      exists ws2, dev2, (e1 ++ e2), m2. split; [|split; [done|]].
      + cbn. rewrite E1. cbn [mbind result_bind]. rewrite E2. destruct (run_schedule args more ws2 dev2) as [[[? ?] ?]| |]; cbn; [|done|done].
        by rewrite app_assoc.
      + split; [destruct (decide (v = w)); lia|]. intros [->|H]%elem_of_cons; [rewrite decide_True in Hle by done; lia|].
        specialize (Hin H). destruct (decide (v = w)); lia. }
  intros Hall. revert m workers d. induction rounds as [|l rounds IH]; intros m workers d HQ.
  - exists workers, d, []. split; [done|]. by rewrite Z.sub_0_r.
  - cbn [concat]. destruct (Hround l (concat rounds) m workers d HQ) as (ws1 & d1 & e1 & m1 & -> & HQ1 & _ & Hm1).
    destruct (IH ltac:(intros; apply Hall; by right) m1 ws1 d1 HQ1) as (ws2 & d2 & e2 & -> & HQ2). cbn [mbind result_bind].
    eexists _, _, _. split; [done|]. eapply Hmono; [|done]. specialize (Hm1 (Hall l ltac:(left))). cbn [length]. lia.
Qed.

Lemma run_schedule_app l more workers d workers' d' events :
  run_schedule args l workers d = Ok (workers', d', events) ->
  run_schedule args (l ++ more) workers d =
    ('(workers, d, e) ← run_schedule args more workers' d'; Ok (workers, d, events ++ e)).
Proof.
  revert workers d events. induction l as [|v l IH]; intros workers d events; cbn.
  - intros [= <- <- <-]. by destruct (run_schedule args more workers d) as [[[? ?] ?]| |].
  - destruct (system_step args v workers d) as [[[ws1 d1] e1]| |]; cbn; [|done|done].
    destruct (run_schedule args l ws1 d1) as [[[ws2 d2] e2]| |] eqn:E; cbn; [|done|done]. intros [= <- <- <-].
    rewrite (IH _ _ _ E). destruct (run_schedule args more ws2 d2) as [[[? ?] ?]| |]; cbn; [|done|done]. by rewrite app_assoc.
Qed.

(** ** The end of the run *)

Definition total (r : graph_run) (counted : gset Z) (workers : list worker_pc) : Z :=
  run_score r counted + foldr (fun pc n => owner_stage pc + n) 0 workers.

Lemma stages_insert workers v pc pc' : workers !! v = Some pc ->
  foldr (fun pc n => owner_stage pc + n) 0 (<[v := pc']> workers) =
    foldr (fun pc n => owner_stage pc + n) 0 workers - owner_stage pc + owner_stage pc'.
Proof.
  revert v. induction workers as [|p workers IH]; intros [|v] H; simplify_eq/=; [lia|]. rewrite (IH v H). lia.
Qed.

Definition ceiling (count : nat) : Z := phase_state_count * 300 + 202 + 4 * Z.of_nat count.

Lemma total_below r counted past workers d : inv r counted past workers d ->
  0 <= total r counted workers <= ceiling (length workers).
Proof.
  intros Hinv. pose proof (si_run _ _ _ _ _ _ _ _ _ Hinv) as Hrun.
  pose proof (score_bound _ _ _ _ programs_ok _ _ _ _ Hrun) as Hs. pose proof (rn_generation _ _ _ _ _ _ _ _ Hrun) as Hg.
  assert (0 <= foldr (fun pc n => owner_stage pc + n) 0 workers <= 4 * Z.of_nat (length workers)) as Hf.
  { clear. induction workers as [|pc workers IH]; cbn [foldr length]; [lia|]. pose proof (owner_stage_nonneg pc). lia. }
  unfold total, ceiling. lia.
Qed.

Lemma ended_stays r l r' : graph_steps args max_steps stop_value r l r' -> is_Some (gr_ended r) -> is_Some (gr_ended r').
Proof.
  induction 1 as [|r e r1 l r2 Hstep _ IH]; [done|]. intros Hend. apply IH. destruct Hstep as [?? He| |?? ? He]; cbn; try done;
    rewrite He in Hend; by destruct Hend.
Qed.

(** While the run goes on, rounds of an urgent worker raise the total. *)
Definition advancing (w : nat) (before : Z) (count : nat) (m : Z) (workers : list worker_pc) d : Prop :=
  length workers = count /\ exists r counted past, inv r counted past workers d /\
    (before < total r counted workers \/ is_Some (gr_ended r) \/
     (gr_ended r = None /\ total r counted workers = before /\ urgent r workers d w m)).

Lemma inv_step r counted past workers d v : inv r counted past workers d ->
  exists workers' d' events r' counted' past', system_step args v workers d = Ok (workers', d', events) /\
    length workers' = length workers /\ inv r' counted' past' workers' d' /\
    total r counted workers <= total r' counted' workers' /\ (is_Some (gr_ended r) -> is_Some (gr_ended r')).
Proof.
  intros Hinv. unfold system_step. destruct (workers !! v) as [pv|] eqn:Hv.
  2: { eexists workers, d, [], r, counted, past. split_and!; try done. }
  destruct (step_running args first max_steps stop_value programs_ok programs_few phases_few first_phase
    r counted past workers d v pv Hinv Hv) as (pc' & d' & events & r' & counted' & past' & -> & Hsteps & Hinv' & Hcase).
  cbn [mbind result_bind]. eexists _, _, _, r', counted', past'. split; [done|]. split; [by rewrite length_insert|]. split; [done|].
  split; [|by eapply ended_stays]. unfold total. rewrite (stages_insert _ _ _ _ Hv).
  destruct Hcase as [?|(-> & -> & _ & _ & _ & _ & Ho & Ho' & _)]; [lia|]. rewrite !owner_stage_free by done. lia.
Qed.

Lemma advancing_step w before count m workers d v : Z.of_nat count < 2 ^ 31 -> advancing w before count m workers d ->
  exists workers' d' events, system_step args v workers d = Ok (workers', d', events) /\
    advancing w before count (if decide (v = w) then m - 1 else m) workers' d'.
Proof.
  intros Hcount (Hlen & r & counted & past & Hinv & Hcase).
  destruct Hcase as [Hmore|[Hend|(Hend & Heq & Hu)]].
  - destruct (inv_step r counted past workers d v Hinv) as (ws & d' & e & r' & counted' & past' & -> & Hl & Hinv' & Hle & _).
    eexists _, _, _. split; [done|]. split; [lia|]. exists r', counted', past'. split; [done|]. left. lia.
  - destruct (inv_step r counted past workers d v Hinv) as (ws & d' & e & r' & counted' & past' & -> & Hl & Hinv' & _ & He).
    eexists _, _, _. split; [done|]. split; [lia|]. exists r', counted', past'. split; [done|]. right; left. by apply He.
  - unfold system_step. destruct (workers !! v) as [pv|] eqn:Hv.
    + destruct (urgent_step r counted past workers d w m v pv) as (pc' & d' & e & r' & counted' & past' & -> & Hinv' & Hcase);
        [done|done|lia|done|done|]. cbn [mbind result_bind]. eexists _, _, _. split; [done|]. split; [by rewrite length_insert|].
      exists r', counted', past'. split; [done|]. unfold total in *. rewrite (stages_insert _ _ _ _ Hv).
      destruct Hcase as [?|(-> & -> & Es & Hu')]; [left; lia|]. right; right. split_and!; [done|lia|done].
    + eexists _, _, _. split; [done|]. split; [done|]. exists r, counted, past. split; [done|]. right; right. split_and!; [done|done|].
      destruct (decide (v = w)) as [->|]; [|done]. destruct Hu as (pc & Hpc & _). congruence.
Qed.

Lemma near_mono r d w program masks m m' pc : m <= m' -> near r d w program masks m pc -> near r d w program masks m' pc.
Proof. intros Hm [[? ?]|?]; [left; split; [done|lia]|right; lia]. Qed.

Lemma urgent_mono r workers d w m m' : m <= m' -> urgent r workers d w m -> urgent r workers d w m'.
Proof.
  intros Hm (pc & Hpc & [[Hf Hh]|(Hall & program & masks & Hat & Hl & Hn)]); exists pc; (split; [done|]).
  - left. split; [done|]. destruct pc; cbn in *; lia.
  - right. split; [done|]. exists program, masks. split_and!; [done|done|by eapply near_mono].
Qed.

Lemma urgent_nonneg r workers d w m : urgent r workers d w m -> 0 <= m.
Proof.
  intros (pc & _ & [[_ Hh]|(_ & _ & _ & _ & _ & [[_ Hn]|Hn])]); [destruct pc; cbn in *; lia| |];
    destruct pc; cbn in Hn; lia.
Qed.

(** Every worker appears in every round. *)
Definition fair_rounds (count : nat) (rounds : list (list nat)) : Prop :=
  forall l w, l ∈ rounds -> (w < count)%nat -> w ∈ l.

Definition block : nat := S (Z.to_nat patience).

Definition reaches (count : nat) (l : list nat) (workers : list worker_pc) d
    (P : graph_run -> gset Z -> list worker_pc -> Prop) : Prop :=
  exists workers' d' events r' counted' past', run_schedule args l workers d = Ok (workers', d', events) /\
    length workers' = count /\ inv r' counted' past' workers' d' /\ P r' counted' workers'.

Lemma block_progress count rounds r counted past workers d :
  inv r counted past workers d -> gr_ended r = None -> length workers = count -> (0 < count)%nat -> Z.of_nat count < 2 ^ 31 ->
  fair_rounds count rounds -> length rounds = block ->
  reaches count (concat rounds) workers d (fun r' counted' workers' =>
    total r counted workers < total r' counted' workers' \/ is_Some (gr_ended r')).
Proof.
  intros Hinv Hend Hlen Hpos Hcount Hfair Hblock. destruct (urgent_exists r counted past workers d) as [w Hu]; [done|done|lia|].
  assert (w < count)%nat as Hw.
  { destruct Hu as (pc & Hpc%lookup_lt_Some & _). lia. }
  destruct (rounds_count w (advancing w (total r counted workers) count) rounds patience workers d)
    as (ws & d' & e & Hrun & Hlen' & r' & counted' & past' & Hinv' & Hcase).
  - intros m ws d1 v. by apply advancing_step.
  - intros m m' ws d1 Hm (Hl & r1 & c1 & p1 & Hi & Hc). split; [done|]. exists r1, c1, p1. split; [done|].
    destruct Hc as [?|[?|(? & ? & Hu')]]; [by left|by right; left|right; right]. split_and!; [done|done|by eapply urgent_mono].
  - intros l Hl. by apply Hfair.
  - split; [done|]. exists r, counted, past. split; [done|]. right; right. by split_and!.
  - exists ws, d', e, r', counted', past'. split_and!; [done|done|done|]. destruct Hcase as [?|[?|(_ & _ & Hu')]]; [by left|by right|].
    apply urgent_nonneg in Hu'. unfold block in Hblock. lia.
Qed.

Lemma ended_run count l r counted past workers d :
  inv r counted past workers d -> is_Some (gr_ended r) -> length workers = count ->
  reaches count l workers d (fun r' _ _ => is_Some (gr_ended r')).
Proof.
  revert r counted past workers d. induction l as [|v l IH]; intros r counted past workers d Hinv Hend Hlen.
  { by exists workers, d, [], r, counted, past. }
  destruct (inv_step r counted past workers d v Hinv) as (ws & d1 & e & r1 & c1 & p1 & E1 & Hl & Hinv1 & _ & He).
  destruct (IH r1 c1 p1 ws d1 Hinv1 (He Hend) ltac:(lia)) as (ws2 & d2 & e2 & r2 & c2 & p2 & E2 & Hl2 & Hinv2 & Hend2).
  eexists _, _, _, r2, c2, p2. split; [cbn; rewrite E1; cbn; by rewrite E2|done].
Qed.

Lemma run_to_end blocks count rounds r counted past workers d :
  inv r counted past workers d -> length workers = count -> (0 < count)%nat -> Z.of_nat count < 2 ^ 31 ->
  fair_rounds count rounds -> length rounds = (blocks * block)%nat ->
  ceiling count - total r counted workers < Z.of_nat blocks ->
  reaches count (concat rounds) workers d (fun r' _ _ => is_Some (gr_ended r')).
Proof.
  revert rounds r counted past workers d. induction blocks as [|blocks IH];
    intros rounds r counted past workers d Hinv Hlen Hpos Hcount Hfair Hrounds Hlow.
  { pose proof (total_below _ _ _ _ _ Hinv) as Hb. rewrite Hlen in Hb. lia. }
  destruct (gr_ended r) eqn:Hend; [eapply ended_run; [done|rewrite Hend; eauto|done]|].
  rewrite <-(take_drop block rounds) in Hfair |- *. rewrite concat_app.
  assert (length (list.take block rounds) = block) as Ht by (rewrite length_take; lia).
  destruct (block_progress count (list.take block rounds) r counted past workers d) as (ws & d1 & e & r1 & c1 & p1 & E1 & Hl1 & Hinv1 & Hcase);
    try done; [by intros l w Hl; apply Hfair, elem_of_app; left|].
  unfold reaches. rewrite (run_schedule_app _ _ _ _ _ _ _ E1).
  assert (reaches count (concat (drop block rounds)) ws d1 (fun r' _ _ => is_Some (gr_ended r')))
    as (ws2 & d2 & e2 & r2 & c2 & p2 & E2 & Hl2 & Hinv2 & Hend2).
  { destruct Hcase as [Hmore|He]; [|by eapply ended_run]. eapply IH; try done.
    - intros l w Hl. apply Hfair, elem_of_app. by right.
    - rewrite length_drop. lia.
    - lia. }
  rewrite E2. cbn [mbind result_bind]. by eexists _, _, _, r2, c2, p2.
Qed.

(** ** Workers return *)

Definition rank_end (pc : worker_pc) : Z :=
  match pc with
  | Returned => 0
  | CheckStatus | CheckStart => 1
  | AwaitStart => 2
  | Scan _ _ _ _ offset => 2 + Z.max 0 (64 - offset)
  | ReloadPhase _ _ _ _ => 67
  | LoadCompletedHigh _ _ _ _ => 68
  | LoadCompleted _ _ _ => 69
  | LoadClaimedHigh _ _ => 70
  | LoadClaimed _ => 71
  | LoadPhase => 72
  | _ => 73
  end.

Lemma rank_end_returned pc : rank_end pc <= 0 -> pc = Returned.
Proof. destruct pc; cbn; lia || done. Qed.

Lemma ended_worker r counted past workers d v pv :
  inv r counted past workers d -> is_Some (gr_ended r) -> workers !! v = Some pv ->
  exists pc' d' events, worker_step args (Z.of_nat v) pv d = Ok (pc', d', events) /\
    (rank_end pc' < rank_end pv \/ pc' = Returned).
Proof.
  intros Hinv Hend Hv. pose proof (si_run _ _ _ _ _ _ _ _ _ Hinv) as Hrun.
  pose proof (si_workers _ _ _ _ _ _ _ _ _ Hinv v pv Hv) as Hok. pose proof (rn_status _ _ _ _ _ _ _ _ Hrun) as Hst.
  assert (gs_status (d_state d) =? status_running = false) as Hno.
  { rewrite Hst. destruct Hend as [st E]. rewrite E. apply Z.eqb_neq. by apply (rn_ended _ _ _ _ _ _ _ _ Hrun st). }
  assert (owner pv = false) as Ho.
  { destruct (owner pv) eqn:E; [|done]. destruct Hend as [st Hst']. destruct pv; try done; destruct Hok as (He & _); congruence. }
  pose proof (rn_done _ _ _ _ _ _ _ _ Hrun Hend) as Ha.
  pose proof (no_holder _ _ _ _ programs_ok _ _ _ _ _ v pv Hinv Ha Hv) as Hh.
  destruct pv; try done; cbn [worker_ok free_ok owner] in Hok; cbn [worker_step].
  - destruct (gs_status _ =? status_ready) eqn:E; eexists _, _, _; (split; [done|]); [|left; cbn; lia].
    destruct Hend as [st Hst']. rewrite Hst' in Hst. cbn in Hst.
    destruct (rn_ended _ _ _ _ _ _ _ _ Hrun st Hst') as [_ []]. lia.
  - rewrite Hno. eexists _, _, _. split; [done|by right].
  - eexists _, _, _. split; [done|left; cbn; lia].
  - destruct (known_phase _ _ _ _ programs_ok programs_few phases_few first_phase _ _ _ _ _ Hrun Hok)
      as (g & program & masks & _ & K1 & K2 & _ & _ & _ & K3 & K4 & _). rewrite K1, K2, K3, K4. cbn.
    eexists _, _, _. split; [done|left]. destruct (_ >? _); cbn; lia.
  - destruct (known_phase _ _ _ _ programs_ok programs_few phases_few first_phase _ _ _ _ _ Hrun Hok)
      as (g & program & masks & _ & K1 & K2 & _ & _ & _ & K3 & K4 & _). rewrite K1, K4. cbn.
    eexists _, _, _. split; [done|left]. cbn; lia.
  - destruct (known_phase _ _ _ _ programs_ok programs_few phases_few first_phase _ _ _ _ _ Hrun Hok)
      as (g & program & masks & _ & K1 & K2 & _ & _ & _ & K3 & K4 & _). rewrite K1, K2, K3, K4. cbn.
    eexists _, _, _. split; [done|left]. destruct (_ >? _); cbn; lia.
  - destruct Hok as [Hok _]. destruct (known_phase _ _ _ _ programs_ok programs_few phases_few first_phase _ _ _ _ _ Hrun Hok)
      as (g & program & masks & _ & K1 & K2 & _ & _ & _ & K3 & K4 & _). rewrite K1, K4. cbn.
    eexists _, _, _. split; [done|left]. cbn; lia.
  - eexists _, _, _. split; [done|left]. destruct (_ =? gs_phase _); cbn; lia.
  - destruct Hok as (Hok & _ & Hoffset).
    destruct (known_phase _ _ _ _ programs_ok programs_few phases_few first_phase _ _ _ _ _ Hrun Hok)
      as (g & program & masks & _ & K1 & K2 & _ & (K3 & _) & K4 & K5 & K6 & _).
    destruct (step_running args first max_steps stop_value programs_ok programs_few phases_few first_phase
      r counted past workers d v _ Hinv Hv) as (pc2 & d2 & e2 & r2 & c2 & p2 & Hstep & Hsteps & Hinv2 & _).
    destruct (scan_moves d v phase_before claimed_mask claimed_mask_high completed_mask offset program masks)
      as (pc' & d' & events & Hstep' & Hcase); try done; [lia|by rewrite K2|by rewrite K1|].
    cbn [worker_step] in Hstep. rewrite Hstep' in Hstep. simplify_eq. eexists _, _, _. split; [done|].
    pose proof (po_count _ _ _ _ _ K4) as Hn. unfold kMaximumTasks in Hn.
    destruct Hcase as [Hheld|[[-> Hlt]| ->]]; [|left; cbn; lia|left; cbn; lia]. destruct Hheld.
    eapply (no_holder _ _ _ _ programs_ok); [exact Hinv2| |apply list_lookup_insert_eq; by eapply lookup_lt_Some].
    apply (rn_done _ _ _ _ _ _ _ _ (si_run _ _ _ _ _ _ _ _ _ Hinv2)). by eapply ended_stays.
  - rewrite Hno. eexists _, _, _. split; [done|by right].
  - eexists _, _, _. split; [done|by right].
Qed.

(** A run that has ended: rounds bring each worker to its return. *)
Definition leaving (v : nat) (count : nat) (m : Z) (workers : list worker_pc) d : Prop :=
  length workers = count /\ (exists r counted past, inv r counted past workers d /\ is_Some (gr_ended r)) /\
  exists pc, workers !! v = Some pc /\ (pc = Returned \/ rank_end pc <= m).

Lemma leaving_step v count m workers d u : leaving v count m workers d ->
  exists workers' d' events, system_step args u workers d = Ok (workers', d', events) /\
    leaving v count (if decide (u = v) then m - 1 else m) workers' d'.
Proof.
  intros (Hlen & (r & counted & past & Hinv & Hend) & pc & Hpc & Hm).
  destruct (inv_step r counted past workers d u Hinv) as (ws & d' & e & r' & c' & p' & Hstep & Hl & Hinv' & _ & He).
  exists ws, d', e. split; [done|]. split; [lia|]. split; [by exists r', c', p'; split; [|apply He]|].
  unfold system_step in Hstep. destruct (workers !! u) as [pu|] eqn:Hu.
  - destruct (ended_worker r counted past workers d u pu Hinv Hend Hu) as (pc' & d2 & e2 & E & Hrank). rewrite E in Hstep.
    cbn in Hstep. injection Hstep as <- <- <-. destruct (decide (u = v)) as [->|Hne].
    + exists pc'. split; [apply list_lookup_insert_eq; by eapply lookup_lt_Some|]. assert (pu = pc) as -> by congruence.
      destruct Hrank as [Hrank| ->]; [|by left]. destruct Hm as [->|Hm]; [|right; lia].
      left. apply rank_end_returned. cbn in Hrank. lia.
    + exists pc. split; [by rewrite list_lookup_insert_ne|done].
  - injection Hstep as <- <- <-. exists pc. split; [done|]. destruct (decide (u = v)) as [->|]; [congruence|done].
Qed.

Lemma leaving_rounds count rounds r counted past workers d :
  inv r counted past workers d -> is_Some (gr_ended r) -> length workers = count -> fair_rounds count rounds ->
  (73 <= length rounds)%nat ->
  exists workers' d' events, run_schedule args (concat rounds) workers d = Ok (workers', d', events) /\
    Forall (eq Returned) workers'.
Proof.
  intros Hinv Hend Hlen Hfair Hmany.
  destruct (ended_run count (concat rounds) r counted past workers d Hinv Hend Hlen)
    as (ws & d' & e & _ & _ & _ & Hrun & Hl & _). exists ws, d', e. split; [done|].
  apply Forall_lookup_2. intros v pv Hv. pose proof (lookup_lt_Some _ _ _ Hv) as Hlt.
  destruct (lookup_lt_is_Some_2 workers v) as [pc Hpc]; [lia|].
  destruct (rounds_count v (leaving v count) rounds 73 workers d) as (ws' & d2 & e2 & Hrun' & _ & _ & pc' & Hpc' & Hm).
  - intros m w1 d1 u. apply leaving_step.
  - intros m m' w1 d1 Hm (H1 & H2 & p1 & H3 & H4). split; [done|]. split; [done|]. exists p1. split; [done|].
    destruct H4 as [?|?]; [by left|right; lia].
  - intros l Hl'. apply Hfair; [done|lia].
  - split; [done|]. split; [by exists r, counted, past|]. exists pc. split; [done|]. right.
    pose proof (si_workers _ _ _ _ _ _ _ _ _ Hinv v pc Hpc) as Hok. destruct pc; cbn in *; lia.
  - rewrite Hrun in Hrun'. injection Hrun' as <- <- <-. rewrite Hv in Hpc'. injection Hpc' as <-.
    destruct Hm as [->|Hm]; [done|]. symmetry. apply rank_end_returned. lia.
Qed.
(** A part of fair rounds is fair. *)
Lemma fair_take count n rounds : fair_rounds count rounds -> fair_rounds count (list.take n rounds).
Proof. intros Hf l w Hl. apply Hf. rewrite <-(take_drop n rounds). apply elem_of_app. by left. Qed.

Lemma fair_drop count n rounds : fair_rounds count rounds -> fair_rounds count (drop n rounds).
Proof. intros Hf l w Hl. apply Hf. rewrite <-(take_drop n rounds). apply elem_of_app. by right. Qed.

Lemma running_rounds blocks count rounds r counted past workers d :
  inv r counted past workers d -> length workers = count -> (0 < count)%nat -> Z.of_nat count < 2 ^ 31 ->
  fair_rounds count rounds -> ceiling count < Z.of_nat blocks -> (blocks * block + 73 <= length rounds)%nat ->
  exists workers' d' events, run_schedule args (concat rounds) workers d = Ok (workers', d', events) /\
    Forall (eq Returned) workers'.
Proof.
  intros Hinv Hlen Hpos Hcount Hfair Hblocks Hmany. pose proof (total_below _ _ _ _ _ Hinv) as Hb. rewrite Hlen in Hb.
  destruct (run_to_end blocks count (list.take (blocks * block) rounds) r counted past workers d)
    as (w2 & d2 & e2 & r2 & c2 & p2 & Hrun & Hl2 & Hinv2 & Hend); [done..|by apply fair_take|rewrite length_take; lia|lia|].
  rewrite <-(take_drop (blocks * block) rounds), concat_app, (run_schedule_app _ _ _ _ _ _ _ Hrun).
  destruct (leaving_rounds count (drop (blocks * block) rounds) r2 c2 p2 w2 d2) as (w3 & d3 & e3 & -> & Hall);
    [done..|by apply fair_drop|rewrite length_drop; lia|].
  cbn. by eexists _, _, _.
Qed.
End progress.

(** ** A launch *)

Section launch_ends.
Context {X : Type} `{!Workload X} (args : ResidentArgs) (d0 : Device X).
Hypothesis ready_launch : launchable args d0.

Abbreviation s0 := (d_state d0).
Abbreviation running := (sched_inv args (phase_generation (gs_phase s0)) (gs_max_steps s0) (gs_stop_value s0)).

(** Validation takes worker 0 three steps. *)
Definition start_rank (pc : worker_pc) : Z :=
  match pc with ValidatePrograms => 2 | ReportError _ => 1 | _ => 0 end.

Definition beginning (count : nat) (m : Z) (workers : list worker_pc) (d : Device X) : Prop :=
  length workers = count /\ exists r, launch_inv args d0 r workers d /\
    (starting args d0 workers d -> exists pc, workers !! 0%nat = Some pc /\ start_rank pc <= m).

Lemma starting_head workers d : starting args d0 workers d ->
  exists pc others, workers = pc :: others /\
    match pc with ValidatePrograms | ReportError _ | PublishValidation _ => True | _ => False end.
Proof. by intros []; eexists _, _. Qed.

Lemma system_step_length w workers (d : Device X) workers' d' events :
  system_step args w workers d = Ok (workers', d', events) -> length workers' = length workers.
Proof.
  unfold system_step. destruct (workers !! w) as [pc|]; [|by intros [= <- _ _]].
  destruct (worker_step args (Z.of_nat w) pc d) as [[[? ?] ?]| |]; cbn; [|done|done]. intros [= <- _ _]. apply length_insert.
Qed.

Lemma launch_running r counted past workers d v pv :
  graph_accepted args d0 -> running r counted past workers d -> workers !! v = Some pv ->
  exists pc' d' events r' counted' past', worker_step args (Z.of_nat v) pv d = Ok (pc', d', events) /\
    running r' counted' past' (<[v := pc']> workers) d'.
Proof.
  intros Hok Hrun Hv. destruct (accepted_range args d0 ready_launch Hok) as (Hg & Hp & Hc).
  destruct (step_running args (phase_generation (gs_phase s0)) (gs_max_steps s0) (gs_stop_value s0)
    ltac:(intros p Hpr; by apply (accepted_programs args d0 ready_launch)) Hc (phases_small args d0 ready_launch) ltac:(lia)
    r counted past workers d v pv Hrun Hv) as (pc' & d' & events & r' & c' & p' & E & _ & Hinv' & _).
  by exists pc', d', events, r', c', p'.
Qed.

Lemma beginning_step count m workers d v : beginning count m workers d ->
  exists workers' d' events, system_step args v workers d = Ok (workers', d', events) /\
    beginning count (if decide (v = 0%nat) then m - 1 else m) workers' d'.
Proof.
  intros (Hlen & r & Hinv & Hm). destruct (launch_step args d0 ready_launch r workers d v Hinv)
    as (ws & d' & e & r' & Hstep & _ & Hinv' & _). exists ws, d', e. split; [done|].
  split; [by rewrite (system_step_length _ _ _ _ _ _ Hstep)|]. exists r'. split; [done|]. intros Hstart'.
  destruct (starting_head _ _ Hstart') as (pc' & others & -> & Hkind). exists pc'. split; [done|].
  unfold system_step in Hstep. destruct (workers !! v) as [pv|] eqn:Hv.
  2: { injection Hstep as -> -> _. destruct (Hm Hstart') as (pc & [= <-] & Hle). destruct v as [|v]; [done|].
    by rewrite decide_False by lia. }
  destruct (worker_step args (Z.of_nat v) pv d) as [[[pn dn] en]| |] eqn:Hw; cbn in Hstep; [|done|done].
  injection Hstep as Hws -> _. pose proof (lookup_lt_Some _ _ _ Hv) as Hlt.
  assert (starting args d0 workers d) as Hstart.
  { destruct Hinv as [[_ ?]|[(Hok & c & p & Hr)|[_ (_ & Hst & _ & Hr)]]]; [done| |]; exfalso.
    - destruct (launch_running r c p workers d v pv Hok Hr Hv) as (pc2 & d2 & e2 & r2 & c2 & p2 & E2 & Hinv2).
      rewrite Hw in E2. simplify_eq. rewrite Hws in Hinv2.
      pose proof (si_workers _ _ _ _ _ _ _ _ _ Hinv2 0%nat pc' eq_refl) as H. destruct pc'; done.
    - assert (pc' ∈ [AwaitStart; CheckStart; Returned]) as Hin.
      { assert ((<[v := pn]> workers) !! 0%nat = Some pc') as H0 by by rewrite Hws.
        apply list_lookup_insert_Some in H0 as [(-> & <- & _)|[_ H0]]; [|by eapply Hr].
        pose proof (Hr _ _ Hv) as Hin. rewrite !elem_of_cons, elem_of_nil in Hin.
        destruct Hin as [->|[->|[->|[]]]]; cbn in Hw; rewrite ?Hst in Hw; unfold goto in Hw; cbn in Hw; simplify_eq; set_solver. }
      rewrite !elem_of_cons, elem_of_nil in Hin. by destruct Hin as [->|[->|[->|[]]]]. }
  destruct (Hm Hstart) as (pc & Hpc & Hle). destruct v as [|v].
  - rewrite decide_True by done. assert (pv = pc) as -> by congruence.
    assert (pn = pc') as -> by (destruct workers; [done|]; cbn in Hws; congruence).
    destruct Hstart as [o H|o st H|o H|o H]; cbn in Hpc; injection Hpc as <-; cbn in Hw, Hle.
    + destruct (validate_programs _ _ _ _ _ _ _ _); cbn in Hw; unfold goto in Hw; simplify_eq. cbn. lia.
    + unfold goto in Hw. simplify_eq. cbn. lia.
    + unfold goto in Hw. by simplify_eq.
    + unfold goto in Hw. by simplify_eq.
  - rewrite decide_False by lia. destruct workers as [|p0 workers]; [done|]. cbn in Hws, Hpc. by simplify_eq.
Qed.

(** A refused launch: everybody returns. *)
Definition refused_leaving (v : nat) (m : Z) (workers : list worker_pc) (d : Device X) : Prop :=
  refused args d0 workers d /\ exists pc, workers !! v = Some pc /\ (pc = Returned \/ rank_end pc <= m).

Lemma refused_worker workers d v pv : refused args d0 workers d -> workers !! v = Some pv ->
  exists pc', worker_step args (Z.of_nat v) pv d = goto pc' d /\ pc' ∈ [AwaitStart; CheckStart; Returned] /\
    (rank_end pc' < rank_end pv \/ pc' = Returned).
Proof.
  intros (_ & Hst & _ & Hw) Hv. pose proof (Hw v pv Hv) as Hin. rewrite !elem_of_cons, elem_of_nil in Hin.
  destruct Hin as [->|[->|[->|[]]]]; cbn [worker_step]; rewrite ?Hst; eexists; (split; [done|]);
    (split; [set_solver|]); cbn; first [left; lia|by right].
Qed.

Lemma refused_leaving_step v m workers d u : refused_leaving v m workers d ->
  exists workers' d' events, system_step args u workers d = Ok (workers', d', events) /\
    refused_leaving v (if decide (u = v) then m - 1 else m) workers' d'.
Proof.
  intros (Href & pc & Hpc & Hm). unfold system_step. destruct (workers !! u) as [pu|] eqn:Hu.
  - destruct (refused_worker workers d u pu Href Hu) as (pc' & -> & Hin & Hrank). cbn. eexists _, _, _. split; [done|].
    destruct Href as (H1 & H2 & H3 & H4). split.
    { split_and!; [done..|]. intros w pw [(<- & <- & _)|[_ Hw]]%list_lookup_insert_Some; [done|by eapply H4]. }
    destruct (decide (u = v)) as [->|Hne].
    + exists pc'. split; [apply list_lookup_insert_eq; by eapply lookup_lt_Some|]. assert (pu = pc) as -> by congruence.
      destruct Hrank as [Hrank| ->]; [|by left]. destruct Hm as [->|Hm]; [|right; lia].
      left. apply rank_end_returned. cbn in Hrank. lia.
    + exists pc. split; [by rewrite list_lookup_insert_ne|done].
  - eexists _, _, _. split; [done|]. split; [done|]. exists pc. split; [done|]. destruct (decide (u = v)) as [->|]; [congruence|done].
Qed.

Lemma refused_rounds count rounds workers d :
  refused args d0 workers d -> length workers = count -> fair_rounds count rounds -> (73 <= length rounds)%nat ->
  exists workers' d' events, run_schedule args (concat rounds) workers d = Ok (workers', d', events) /\
    Forall (eq Returned) workers'.
Proof.
  intros Href Hlen Hfair Hmany.
  destruct (launch_run args d0 ready_launch (concat rounds) (initial_run d0) workers d) as (ws & d' & e & _ & Hrun & _);
    [right; by right|]. exists ws, d', e. split; [done|].
  assert (length ws = length workers) as Hl.
  { clear -Hrun. revert workers d e Hrun. induction (concat rounds) as [|v l IH]; intros workers d e; cbn; [by intros [= -> _ _]|].
    destruct (system_step args v workers d) as [[[w1 d1] e1]| |] eqn:E; cbn; [|done|done].
    destruct (run_schedule args l w1 d1) as [[[w2 d2] e2]| |] eqn:E2; cbn; [|done|done]. intros [= -> -> _].
    rewrite (IH _ _ _ E2). by eapply system_step_length. }
  apply Forall_lookup_2. intros v pv Hv. pose proof (lookup_lt_Some _ _ _ Hv) as Hlt.
  destruct (lookup_lt_is_Some_2 workers v) as [pc Hpc]; [lia|].
  destruct (rounds_count args v (refused_leaving v) rounds 73 workers d) as (ws' & d2 & e2 & Hrun' & _ & pc' & Hpc' & Hm).
  - intros m w1 d1 u. apply refused_leaving_step.
  - intros m m' w1 d1 Hm (H2 & p1 & H3 & H4). split; [done|]. exists p1. split; [done|].
    destruct H4 as [?|?]; [by left|right; lia].
  - intros l Hl'. apply Hfair; [done|lia].
  - split; [done|]. exists pc. split; [done|]. right. destruct Href as (_ & _ & _ & Hw). pose proof (Hw v pc Hpc) as Hin. rewrite !elem_of_cons, elem_of_nil in Hin.
    destruct Hin as [->|[->|[->|[]]]]; cbn; lia.
  - rewrite Hrun in Hrun'. injection Hrun' as <- <- <-. rewrite Hv in Hpc'. injection Hpc' as <-.
    destruct Hm as [->|Hm]; [done|]. symmetry. apply rank_end_returned. lia.
Qed.

(** Rounds that are enough for any launch. *)
Definition enough_rounds (accesses count : nat) : nat :=
  3 + Z.to_nat (ceiling args count + 1) * block accesses + 73.
End launch_ends.

(** C5: a launch comes to its end.  When the accesses of every task are
    bounded, then after enough rounds in which every worker takes a step, in
    whatever order, all workers have returned: there is no deadlock between
    tasks that wait, no missed transition, no endless scan. *)
Theorem resident_run_ends {X} `{!Workload X} args (d0 : Device X) accesses others rounds :
  launchable args d0 -> (forall task k s (x : X), (accesses <= k)%nat -> execute task k s x = None) ->
  Z.of_nat (S others) < 2 ^ 31 -> fair_rounds (S others) rounds ->
  (enough_rounds args accesses (S others) <= length rounds)%nat ->
  exists workers d events, run_schedule args (concat rounds) (launch_workers (S others)) d0 = Ok (workers, d, events) /\
    Forall (eq Returned) workers.
Proof.
  intros Hready Hend Hcount Hfair Hmany. unfold enough_rounds in Hmany.
  set (count := S others) in *. set (blocks := Z.to_nat (ceiling args count + 1)) in *.
  destruct (rounds_count args 0 (beginning args d0 count) (list.take 3 rounds) 2 (launch_workers count) d0)
    as (w1 & d1 & e1 & Hrun1 & Hlen1 & r1 & Hinv1 & Hnot).
  { intros m ws d v. by apply beginning_step. }
  { intros m m' ws d Hm (H1 & r & H2 & H3). split; [done|]. exists r. split; [done|]. intros Hs.
    destruct (H3 Hs) as (pc & ? & ?). exists pc. split; [done|lia]. }
  { intros l Hl. apply (fair_take count 3 rounds Hfair); [done|unfold count; lia]. }
  { split; [cbn; by rewrite length_replicate|]. exists (initial_run d0). split; [apply launch_starts|].
    intros _. exists ValidatePrograms. by split; [|cbn]. }
  rewrite length_take in Hnot. replace (_ `min` _)%nat with 3%nat in Hnot by lia.
  rewrite <-(take_drop 3 rounds), concat_app, (run_schedule_app _ _ _ _ _ _ _ _ Hrun1).
  assert (exists workers d events, run_schedule args (concat (drop 3 rounds)) w1 d1 = Ok (workers, d, events) /\
    Forall (eq Returned) workers) as (w2 & d2 & e2 & -> & Hall); [|cbn; by eexists _, _, _].
  destruct Hinv1 as [[_ Hstart]|[(Hok & counted & past & Hrun)|[_ Href]]].
  - destruct (Hnot Hstart) as (pc & _ & Hr). destruct pc; cbn in Hr; lia.
  - destruct (accepted_range args d0 Hready Hok) as (Hg & Hp & Hc).
    apply (running_rounds args (phase_generation (gs_phase (d_state d0))) (gs_max_steps (d_state d0)) (gs_stop_value (d_state d0))
      accesses ltac:(intros p Hpr; by apply (accepted_programs args d0 Hready)) Hc (phases_small args d0 Hready) ltac:(lia) Hend
      blocks count _ r1 counted past); [done|done|unfold count; lia|done|by apply fair_drop|unfold blocks; lia|rewrite length_drop; lia].
  - apply (refused_rounds args d0 Hready count); [done|done|by apply fair_drop|rewrite length_drop; lia].
Qed.
