(* ===== verification/LoaderWitnesses.v ===== *)
(** * The loader's and runtime's theorems on the sample object

    Each theorem with hypotheses is applied to [sample_object] or to the code
    object the loader makes of it. *)

From S2P Require Import Prelude Order Memory CodeObject Segments MessagePack MessagePackFormat Metadata ElfDynamic KernelSymbols LoadPlan ElfReader ExecutableImage ImageValidation ImageContents LoaderImage Launch HiddenKernargs.

(** ** A code object

    A complete AMDHSA code object, built field by field: ELF header, five
    program headers, the metadata note, the dynamic segment with its hash,
    symbol, string and relocation tables, one kernel descriptor, a code
    segment and a data segment with one relocated word and a zero-filled tail.
    It instantiates the hypotheses of the loader's and runtime's theorems. *)

Definition pad_to (alignment : nat) (l : bytes) : bytes :=
  l ++ replicate ((alignment - length l mod alignment) mod alignment) x00.

(** ** The metadata *)

Definition sample_argument (name kind : string) (offset size : Z) : MessagePackValue :=
  MMap 0 [(".name"%string, MString 0 name); (".offset"%string, MUnsigned 0 offset);
          (".size"%string, MUnsigned 0 size); (".value_kind"%string, MString 0 kind)].

Definition sample_kernel : MessagePackValue :=
  MMap 0 [(".name"%string, MString 0 "k"); (".symbol"%string, MString 0 "k.kd");
          (".kernarg_segment_size"%string, MUnsigned 0 16);
          (".kernarg_segment_align"%string, MUnsigned 0 8);
          (".group_segment_fixed_size"%string, MUnsigned 0 256);
          (".private_segment_fixed_size"%string, MUnsigned 0 32);
          (".wavefront_size"%string, MUnsigned 0 32);
          (".uses_dynamic_stack"%string, MBoolean 0 false);
          (".args"%string, MArray 0
             [sample_argument "out" "global_buffer" 0 8;
              sample_argument "" "hidden_block_count_x" 8 4;
              sample_argument "" "hidden_group_size_x" 12 2])].

Definition sample_metadata : MessagePackValue :=
  MMap 0 [("amdhsa.version"%string, MArray 0 [MUnsigned 0 1; MUnsigned 0 2]);
          ("amdhsa.target"%string, MString 0 "amdgcn-amd-amdhsa--gfx1101");
          ("amdhsa.kernels"%string, MArray 0 [sample_kernel])].

Definition sample_note : bytes :=
  let descriptor := encode sample_metadata in
  le_bytes 4 7 ++ le_bytes 4 (size_of descriptor) ++ le_bytes 4 32 ++
  [x41; x4d; x44; x47; x50; x55; x00; x00] ++ pad_to 4 descriptor.

(** ** The layout: file offsets are virtual addresses *)

Definition note_at : Z := 64 + 5 * 56.
Definition dynamic_at : Z := (note_at + size_of sample_note + 7) / 8 * 8.
Definition hash_at : Z := dynamic_at + 9 * 16.
Definition symbols_at : Z := hash_at + 24.
Definition strings_at : Z := symbols_at + 2 * 24.
Definition relocations_at : Z := strings_at + 8.
Definition descriptor_at : Z := (relocations_at + 24 + 63) / 64 * 64.
Definition code_at : Z := descriptor_at + 64.
Definition data_at : Z := code_at + 64.
Definition file_end : Z := data_at + 8.

Definition program_header (type flags offset file_size memory_size alignment : Z) : bytes :=
  le_bytes 4 type ++ le_bytes 4 flags ++ le_bytes 8 offset ++ le_bytes 8 offset ++
  le_bytes 8 offset ++ le_bytes 8 file_size ++ le_bytes 8 memory_size ++ le_bytes 8 alignment.

Definition sample_header : bytes :=
  [x7f; x45; x4c; x46; x02; x01; x01; x40; x03] ++ replicate 7 x00 ++
  le_bytes 2 3 ++ le_bytes 2 224 ++ le_bytes 4 1 ++ le_bytes 8 0 ++ le_bytes 8 64 ++
  le_bytes 8 0 ++ le_bytes 4 kAmdgpuMachineGfx1101 ++ le_bytes 2 64 ++ le_bytes 2 56 ++
  le_bytes 2 5 ++ le_bytes 2 0 ++ le_bytes 2 0 ++ le_bytes 2 0.

Definition sample_program_headers : bytes :=
  program_header 1 4 0 code_at code_at 64 ++
  program_header 1 5 code_at 64 64 64 ++
  program_header 1 6 data_at 8 40 64 ++
  program_header 4 4 note_at (size_of sample_note) (size_of sample_note) 4 ++
  program_header 2 4 dynamic_at 144 144 8.

Definition sample_dynamic : bytes :=
  concat ((fun '(tag, value) => le_bytes 8 tag ++ le_bytes 8 value) <$>
    [(4, hash_at); (5, strings_at); (10, 6); (6, symbols_at); (11, 24);
     (7, relocations_at); (8, 24); (9, 24); (0, 0)]).

Definition sample_descriptor : bytes :=
  le_bytes 4 256 ++ le_bytes 4 32 ++ le_bytes 4 16 ++ replicate 4 x00 ++
  le_bytes 8 (code_at - descriptor_at) ++ replicate 20 x00 ++ le_bytes 4 1 ++ le_bytes 4 2 ++
  le_bytes 4 3 ++ le_bytes 2 0x400 ++ le_bytes 2 0 ++ replicate 4 x00.

Definition sample_object : bytes := Eval vm_compute in
  let parts :=
    pad_to 8 (sample_header ++ sample_program_headers ++ sample_note) ++
    sample_dynamic ++
    le_bytes 4 1 ++ le_bytes 4 2 ++ le_bytes 4 1 ++ le_bytes 4 0 ++ le_bytes 4 0 ++ le_bytes 4 0 ++
    replicate 24 x00 ++
    le_bytes 4 1 ++ [x11; x00] ++ le_bytes 2 1 ++ le_bytes 8 descriptor_at ++ le_bytes 8 64 ++
    [x00; x6b; x2e; x6b; x64; x00; x00; x00] ++
    le_bytes 8 data_at ++ le_bytes 8 13 ++ le_bytes 8 code_at in
  pad_to 64 parts ++ sample_descriptor ++ replicate 64 xbf ++ replicate 8 xff.

(** What the loader makes of it. *)
Definition sample_code_object : CodeObject := Eval vm_compute in
  match parse_code_object (Some sample_object) (size_of sample_object) with
  | Ok result => pr_code_object result
  | _ => default_code_object
  end.

Example sample_accepted :
  parse_code_object (Some sample_object) (size_of sample_object) =
    Ok (mkParseResult sample_code_object no_error).
Proof. vm_compute. reflexivity. Qed.

(** ** The loader's and runtime's theorems on the sample object

    Each theorem with hypotheses is applied to [sample_object] or to the code
    object the loader makes of it. *)

(** ** Shared facts *)

Lemma sample_size : size_of sample_object = 1224.
Proof. reflexivity. Qed.

Lemma sample_size_u64 : is_u64 (size_of sample_object).
Proof. rewrite sample_size. lia. Qed.

Lemma sample_wf : code_object_wf (size_of sample_object) sample_code_object.
Proof.
  destruct (parse_code_object_cases sample_object sample_size_u64) as (result & Hp & Hwf).
  rewrite sample_accepted in Hp. simplify_eq. by apply Hwf.
Qed.

Lemma sample_table : elf_table sample_object 64 5.
Proof. split; try (vm_compute; reflexivity); rewrite ?sample_size; unfold kElf64ProgramHeaderSize; lia. Qed.

Definition sample_segments : list LoadSegment := co_load_segments sample_code_object.

Lemma sample_segments_wf : Forall (segment_wf (size_of sample_object)) sample_segments.
Proof. apply sample_wf. Qed.

Definition sample_plan : LoadPlan := co_load_plan sample_code_object.

Lemma sample_plan_typed : plan_typed sample_plan.
Proof. apply (loader_plan_typed _ _ sample_wf). Qed.

Lemma sample_kernels_typed : Forall kernel_typed (co_kernels sample_code_object).
Proof. apply (loader_kernels_typed _ _ sample_wf). Qed.

Definition sample_kernel_info : KernelInfo :=
  match co_kernels sample_code_object with k :: _ => k | [] => default_kernel_info end.

Lemma sample_kernel_ok : kernel_metadata_ok sample_kernel_info.
Proof.
  pose proof (loader_kernels _ _ sample_wf) as H.
  assert (co_kernels sample_code_object = [sample_kernel_info]) as E by (vm_compute; reflexivity).
  rewrite E in H. by apply Forall_cons in H as [[? _ _ _ _ _ _ _ _] _].
Qed.

Lemma sample_supported : image_supported sample_code_object sample_plan.
Proof.
  assert (plan_relocations sample_plan = [mkRelocation RelocationEncoding.Rela 1216 13 0 1152 0 false])
    as Er by (vm_compute; reflexivity).
  assert (co_kernels sample_code_object = [sample_kernel_info]) as Ek by (vm_compute; reflexivity).
  split; rewrite ?Er, ?Ek.
  - vm_compute. reflexivity.
  - split; vm_compute; [discriminate|reflexivity].
  - vm_compute. discriminate.
  - repeat constructor; simpl; lia.
  - vm_compute. repeat constructor.
  - repeat constructor.
Qed.

(** ** The loader *)

Lemma parse_code_object_wf_witness :
  code_object_wf (size_of sample_object) sample_code_object /\
  Forall (descriptor_agrees sample_object (co_load_segments sample_code_object)) (co_kernels sample_code_object).
Proof. exact (parse_code_object_wf sample_object _ sample_size_u64 sample_accepted eq_refl). Defined.

Lemma parse_code_object_total_witness :
  exists result, parse_code_object (Some sample_object) (size_of sample_object) = Ok result.
Proof. exact (parse_code_object_total sample_object sample_size_u64). Defined.

Lemma parse_document_total_witness :
  safe (parse_document (encode sample_metadata) 0 (size_of (encode sample_metadata)) 0) (value_wf 65).
Proof.
  apply parse_document_total; [vm_compute; split; [discriminate|reflexivity]|lia| |lia].
  vm_compute. discriminate.
Defined.

Definition sample_parsed : list ParsedLoadSegment :=
  (fun s => mkParsedLoadSegment s 0) <$> sample_segments.

Lemma sample_parsed_ranges :
  Forall (range_in_u64 seg_virtual_address seg_memory_size) sample_parsed.
Proof. repeat (constructor; [unfold range_in_u64; simpl; lia|]). constructor. Qed.

Lemma sample_parsed_search :
  find_overlapping_segment seg_virtual_address seg_memory_size sample_parsed = None.
Proof. vm_compute. reflexivity. Qed.


Lemma decode_arguments_layout_witness :
  safe (decode_kernel_arguments sample_kernel 16)
    (fun '(l, explicit_size) => arguments_wf 16 l explicit_size).
Proof.
  apply (decode_arguments_layout 4); [|lia]. unfold sample_kernel, sample_argument.
  repeat first [apply Forall_nil_2 | apply Forall_cons_2 | constructor | lia |
    by apply (bool_decide_unpack _)].
Defined.

Definition sample_symbol : Symbol := mkSymbol descriptor_at 64 1 1 symbols_at.

Lemma kernel_descriptor_decoded_witness :
  safe (decode_kernel_descriptor sample_object sample_segments sample_symbol sample_kernel_info)
    (fun k => kernel_ok sample_segments k /\ descriptor_agrees sample_object sample_segments k /\ ki_name k = ki_name sample_kernel_info /\
              ki_symbol_name k = ki_symbol_name sample_kernel_info).
Proof.
  apply kernel_descriptor_decoded;
    [apply sample_size_u64|vm_compute; split; [discriminate|reflexivity]|
     apply sample_segments_wf|apply sample_kernel_ok].
Defined.

Lemma metadata_note_search_total_witness :
  safe (find_metadata_note sample_object (size_of sample_object)) (metadata_in_file sample_object).
Proof. exact (metadata_note_search_total sample_object 64 5 sample_table). Defined.

Lemma relocations_bounded_witness :
  safe (append_relocations sample_object (size_of sample_object) sample_segments)
    (relocations_wf sample_segments).
Proof. exact (relocations_bounded sample_object 64 5 _ sample_table sample_segments_wf). Defined.

Lemma load_plan_exact_witness :
  safe (build_load_plan sample_object (size_of sample_object) sample_code_object)
    (fun result => plan_wf sample_segments (co_load_plan result)).
Proof.
  apply (load_plan_exact sample_object 64 5 sample_code_object sample_table sample_segments_wf).
  vm_compute. repeat constructor; discriminate.
Defined.

(** ** The image *)

Lemma two_pointer_overlap_exact_witness :
  copy_and_zero_fill_ranges_overlap sample_plan = true <->
  exists c z, c ∈ plan_copies sample_plan /\ z ∈ plan_zero_fills sample_plan /\
    copy_meets_zero_fill c z.
Proof. apply two_pointer_overlap_exact; [apply sample_plan_typed|vm_compute; reflexivity..]. Defined.

Lemma protection_search_exact_witness :
  range_has_protection sample_plan 1152 64 kElfExecute = true <->
  exists p, p ∈ plan_protections sample_plan /\ Z.land (lp_flags p) kElfExecute = kElfExecute /\
    lp_virtual_address p <= 1152 /\ 1152 + 64 <= lp_virtual_address p + lp_size p.
Proof.
  apply protection_search_exact; [apply sample_plan_typed|lia|lia|vm_compute; reflexivity].
Defined.

Lemma validate_plan_exact_witness :
  let requirements := executable_image_requirements (Some sample_object) (size_of sample_object) sample_code_object in
  (status_ok (rq_status requirements) = true <->
   (Some sample_object = None -> size_of sample_object = 0) /\ plan_valid (size_of sample_object) sample_code_object sample_plan) /\
  (status_ok (rq_status requirements) = true ->
   plan_image_size sample_plan <= rq_allocation_size requirements < plan_image_size sample_plan + 4096 /\
   rq_allocation_size requirements mod kExecutableImagePageSize = 0).
Proof.
  exact (validate_plan_exact (Some sample_object) (size_of sample_object) sample_code_object sample_plan_typed
    sample_kernels_typed).
Defined.

Lemma translate_address_exact_witness :
  let r := translate_executable_address sample_plan 65536 1088 64 64 in
  translatable sample_plan 65536 1088 64 64 /\
    r = mkAddressResult image_ok (65536 + (1088 - plan_image_virtual_address sample_plan)) \/
  ~ translatable sample_plan 65536 1088 64 64 /\
    status_ok (ar_status r) = false /\ ar_gpu_address r = 0.
Proof. apply translate_address_exact; [apply sample_plan_typed|lia..]. Defined.

Lemma materialize_executable_image_correct_witness :
  exists outcome memory,
    materialize_executable_image (Some sample_object) (size_of sample_object) sample_code_object
      (Some (replicate 4096 xff)) (size_of (replicate 4096 xff)) 65536 =
      Ok (outcome, Some memory) /\
    if status_ok (mr_status outcome) then
      plan_valid (size_of sample_object) sample_code_object sample_plan /\
      image_contents sample_object sample_plan (page_rounded_size sample_plan)
        (65536 - plan_image_virtual_address sample_plan) (replicate 4096 xff) memory /\
      mr_image outcome = mkImageInfo sample_code_object (page_rounded_size sample_plan) 65536
        (resolved_kernel sample_code_object 65536 <$> co_kernels sample_code_object) true
    else memory = replicate 4096 xff /\ ii_valid (mr_image outcome) = false.
Proof.
  apply (materialize_executable_image_correct sample_object sample_code_object
    (replicate 4096 xff) 65536 sample_plan_typed sample_kernels_typed). lia.
Defined.

Lemma loader_plan_validates_witness :
  status_ok (rq_status
    (executable_image_requirements (Some sample_object) (size_of sample_object)
       sample_code_object)) = true <->
  image_supported sample_code_object sample_plan.
Proof.
  exact (loader_plan_validates sample_object (mkParseResult sample_code_object no_error)
    sample_size_u64 sample_accepted eq_refl).
Defined.

Lemma accepted_object_loads_witness :
  exists kernels memory,
    materialize_executable_image (Some sample_object) (size_of sample_object) sample_code_object
      (Some (replicate 4096 xff)) (size_of (replicate 4096 xff)) 65536 =
    Ok (mkMaterialization image_ok
          (mkImageInfo sample_code_object (page_rounded_size sample_plan) 65536 kernels true),
        Some memory) /\
    image_contents sample_object sample_plan (page_rounded_size sample_plan)
      (65536 - plan_image_virtual_address sample_plan) (replicate 4096 xff) memory /\
    kernels = resolved_kernel sample_code_object 65536 <$> co_kernels sample_code_object /\
    Forall (fun k =>
      65536 <= rk_descriptor_gpu_address k /\
      rk_descriptor_gpu_address k + kAmdhsaKernelDescriptorSize <=
        65536 + page_rounded_size sample_plan /\
      65536 <= rk_code_entry_gpu_address k < 65536 + page_rounded_size sample_plan) kernels.
Proof.
  apply (accepted_object_loads sample_object (mkParseResult sample_code_object no_error)
    (replicate 4096 xff) 65536 sample_size_u64 sample_accepted eq_refl sample_supported).
  split; vm_compute; try split; first [reflexivity|discriminate].
Defined.

(** ** Launching its kernel *)

Lemma materialize_kernarg_buffer_correct_witness :
  exists outcome memory,
    materialize_kernarg_buffer sample_kernel_info (Some (replicate 8 x01)) 8
      (Some (replicate 32 xff)) 32 4096 = Ok (outcome, Some memory) /\
    if kernarg_status_ok (km_status outcome) then
      kernarg_accepted sample_kernel_info (replicate 8 x01) (replicate 32 xff) 4096 /\
      memory = replicate 8 x01 ++
        replicate (Z.to_nat (ki_kernarg_size sample_kernel_info) - length (replicate 8 x01)) x00 ++
        drop (Z.to_nat (ki_kernarg_size sample_kernel_info)) (replicate 32 xff) /\
      km_buffer outcome = mkKernargInfo 4096 (ki_kernarg_size sample_kernel_info)
        (ki_kernarg_alignment sample_kernel_info) true
    else
      ~ kernarg_accepted sample_kernel_info (replicate 8 x01) (replicate 32 xff) 4096 /\
      memory = replicate 32 xff /\ kb_valid (km_buffer outcome) = false.
Proof.
  apply (materialize_kernarg_buffer_correct sample_kernel_info (replicate 8 x01)
    (replicate 32 xff) 4096).
  - vm_compute. split; [discriminate|reflexivity].
  - discriminate.
Defined.

Definition sample_config : lr_launch_config_t :=
  mkLaunchConfig (mkDim3 100 1 1) (mkDim3 64 1 1) 0.

Lemma populate_hidden_kernargs_correct_witness :
  exists new,
    populate_light_rocr_hidden_kernargs sample_kernel_info sample_config
      (Some (replicate 16 xaa)) (size_of (replicate 16 xaa)) = Ok (true, Some new) /\
    populated sample_config (ki_arguments sample_kernel_info) (replicate 16 xaa) new /\
    take (Z.to_nat (ki_explicit_argument_size sample_kernel_info)) new =
      take (Z.to_nat (ki_explicit_argument_size sample_kernel_info)) (replicate 16 xaa).
Proof.
  apply (populate_hidden_kernargs_correct sample_kernel_info sample_config (replicate 16 xaa)
    sample_kernel_ok); [|split; [vm_compute; discriminate|intros []; cbn; lia]].
  repeat split; cbn; lia.
Defined.
