(* ===== verification/DeviceWitnesses.v ===== *)
(** * The device-facing and bundle theorems on concrete values

    A gfx1101 node, a four-packet KFD queue, its packets and signals; the
    example manifest of [docs/manifest-schema.md] with a kernarg buffer; and a
    graph of two tasks in a chain, run by two workers. *)

From stdpp Require Import relations.
From S2P Require Import Prelude StatefulGraph ResidentScheduler ResidentProgress Order Memory CodeObject HiddenKernargs BundleText BundleManifest BundleArgs Topology Scratch CodeCache AqlPacket AqlQueue AqlProducer KfdProducer Signal.

(** ** Topology, scratch, code cache *)

Definition sample_architecture : GpuArchitecture := mkGpuArchitecture 11 0 1.

Lemma canonical_gfx_target_name_witness :
  canonical_gfx_target (gfx_target_name sample_architecture +:+ ":xnack-") =
    gfx_target_name sample_architecture /\
  canonical_gfx_target
    ("amdgcn-amd-amdhsa" +:+ "--" +:+ gfx_target_name sample_architecture +:+ ":xnack-") =
    gfx_target_name sample_architecture.
Proof.
  apply canonical_gfx_target_name; [discriminate|]. split; [reflexivity|]. right. by eexists.
Defined.

Definition sample_node : Node :=
  mkNode 1 7 0 120 2 32 16 64 3 32 1 0 0 4098 29822 0 0 128 0 false "navi32"
    sample_architecture [].

Lemma sample_node_typed : node_typed sample_node.
Proof. split; simpl; lia. Qed.

Definition sample_aperture : ScratchAperture := mkScratchAperture 0x1000000000000 0x100000000.

Definition sample_requirements : QueueScratchRequirements := Eval vm_compute in
  match queue_scratch_requirements_at sample_node 32 sample_aperture with
  | Ok r => r
  | _ => mkScratchRequirements 0 0 0 0 0
  end.

Lemma queue_scratch_requirements_correct_witness :
  requirements_ok sample_node 32 sample_aperture sample_requirements.
Proof.
  apply queue_scratch_requirements_correct; [apply sample_node_typed|lia|vm_compute; reflexivity].
Defined.

Definition sample_control : QueueScratchControl := Eval vm_compute in
  match make_queue_scratch_control_at sample_node 32 0x200000000 sample_aperture with
  | Ok (_, control) => control
  | _ => mkScratchControl (0, 0, 0, 0) 0 0 0 0
  end.

Lemma make_queue_scratch_control_correct_witness :
  requirements_ok sample_node 32 sample_aperture sample_requirements /\
  srd_base (sc_resource_descriptor sample_control) = 0x200000000 /\
  srd_swizzle (sc_resource_descriptor sample_control) = true /\
  srd_records (sc_resource_descriptor sample_control) = sr_allocation_size sample_requirements /\
  tmpring_waves (sc_compute_tmpring_size sample_control) =
    sr_waves_per_shader_engine sample_requirements /\
  tmpring_wave_size (sc_compute_tmpring_size sample_control) =
    sr_wave_size_units sample_requirements /\
  sc_backing_memory_location sample_control = 0x200000000 /\
  sc_backing_memory_byte_size sample_control = sr_allocation_size sample_requirements /\
  (sr_allocation_size sample_requirements <> 0 ->
   0x200000000 <> 0 /\ 0x200000000 mod kScratchBackingAlignment = 0 /\
   0x200000000 + sr_allocation_size sample_requirements <= 2 ^ 48).
Proof.
  apply (make_queue_scratch_control_correct sample_node 32);
    [apply sample_node_typed|lia|lia|vm_compute; reflexivity].
Defined.

Lemma build_code_cache_invalidate_correct_witness :
  let r := build_code_cache_invalidate 0x10000 0x1000 0x20000 0x40 in
  (cc_error r = CodeCacheCommandError.None <->
   invalidate_accepted 0x10000 0x1000 0x20000 0x40) /\
  (cc_error r = CodeCacheCommandError.None ->
   invalidates 0x10000 0x1000 0x20000 0x40 r).
Proof. apply build_code_cache_invalidate_correct; lia. Defined.

(** ** Packets *)

Definition sample_dispatch : AqlKernelDispatchParameters :=
  mkDispatchParameters 128 1 1 64 1 1 32 256 0x10440 0x20000 0x40.

Definition sample_ordering : AqlDispatchOrdering := mkDispatchOrdering 0 true.

Lemma build_dispatch_packet_valid_witness :
  let packet := build_aql_kernel_dispatch_packet sample_dispatch sample_ordering in
  (valid_aql_kernel_dispatch_packet packet = true <->
   0 < 64 <= 128 /\ 0 < 1 <= 1 /\ 0 < 1 <= 1 /\ 0x10440 <> 0) /\
  Z.land (dp_header packet) 0xff = AqlPacket.kAqlPacketTypeKernelDispatch /\
  Z.testbit (dp_header packet) 8 = true /\
  Z.land (Z.shiftr (dp_header packet) 9) 3 = kAqlFenceScopeSystem /\
  Z.land (Z.shiftr (dp_header packet) 11) 3 = kAqlFenceScopeSystem.
Proof.
  apply (build_dispatch_packet_valid sample_dispatch sample_ordering).
  split; simpl; split_and!; lia.
Defined.

Definition sample_packet : bytes := Eval vm_compute in
  dispatch_bytes (build_aql_kernel_dispatch_packet sample_dispatch sample_ordering).

(** The header has been invalidated and byte 40 of the packet is visible. *)
Lemma publish_packet_atomic_witness :
  exists memory remaining,
    rtc (publish_step 64 sample_packet) (Start, replicate 256 x00) (Copying remaining, memory) /\
    publish_inv 64 sample_packet (replicate 256 x00) (Copying remaining, memory).
Proof.
  assert (rtc (publish_step 64 sample_packet) (Start, replicate 256 x00)
    (Copying (seq 2 38 ++ seq 41 23),
     store_byte (store_header 64 (replicate 256 x00) (le_bytes 2 AqlPacket.kAqlPacketTypeInvalid))
       (64 + 40) x00)) as Hsteps.
  { eapply rtc_l; [apply step_invalidate|]. eapply rtc_l; [|apply rtc_refl].
    apply (step_copy 64 sample_packet _ (seq 2 38) 40 (seq 41 23)). reflexivity. }
  eexists _, _. split; [exact Hsteps|].
  refine (proj1 (publish_packet_atomic 64 sample_packet (replicate 256 x00) _ _ _ Hsteps)).
  - reflexivity.
  - rewrite length_replicate. lia.
Defined.

(** ** Reservations *)

Definition sample_queue : AqlQueue :=
  Some (mkQueueState true 0x7000 (Some 0x1000) (Some 0x2000) 256).

Definition sample_amd_queue : AmdQueueV1 := mkAmdQueue 10 10 0.

(** Two threads load the index, the second one gets its ids first, and the
    first one must go round its loop again. *)
Lemma reservations_exclusive_witness :
  reservations_inv 10
    [(1, ReserveLoop 12); (2, ReserveDone (mkIndexResult PrimitiveNone 10))]
    (mkAmdQueue 12 10 0).
Proof.
  apply (reservations_exclusive sample_queue [1; 2] sample_amd_queue); [simpl; lia| |].
  { repeat (constructor; [lia|]). constructor. }
  eapply rtc_l; [by eapply (step_thread _ _ 0)|].
  eapply rtc_l; [by eapply (step_thread _ _ 1)|].
  eapply rtc_l; [by eapply (step_thread _ _ 1)|].
  eapply rtc_l; [by eapply (step_thread _ _ 0)|]. apply rtc_refl.
Defined.

(** ** The producer *)

Definition sample_ops : AqlQueueProducerOps kfd_context :=
  light_rocr_kfd_producer_ops sample_queue None.

Definition sample_context : kfd_context := mkKfdContext sample_amd_queue [] [0; 0; 0; 1]%nat.

Definition sample_ring : bytes := replicate 256 x00.

Lemma sample_fresh : kfd_fresh sample_queue sample_amd_queue sample_ring.
Proof. split; vm_compute; repeat split; discriminate. Qed.

Lemma sample_refines : queue_refines sample_ops sample_context sample_ring [].
Proof. apply (kfd_fresh_refines sample_queue None _ _ _ sample_fresh). Qed.

Definition sample_barrier : AqlBarrierAndParameters :=
  mkBarrierParameters (0x40, 0x80, 0, 0, 0) 0xc0.

Lemma sample_count : is_u64 (po_packet_count sample_ops).
Proof. vm_compute. split; [discriminate|reflexivity]. Qed.

Lemma submit_dispatch_fifo_witness :
  safe (submit_aql_kernel_dispatch sample_ops sample_dispatch sample_ordering true sample_context
          sample_ring)
    (submitted sample_ops
       (dispatch_accepted sample_ops
          (build_aql_kernel_dispatch_packet sample_dispatch sample_ordering) sample_context)
       sample_context sample_ring []
       [dispatch_bytes (build_aql_kernel_dispatch_packet sample_dispatch sample_ordering)]).
Proof.
  apply (submit_dispatch_fifo sample_ops sample_count); [apply sample_refines|]. reflexivity.
Defined.

Lemma submit_barriers_fifo_witness :
  safe (submit_aql_barriers_and sample_ops (Some [sample_barrier; sample_barrier]) 2 sample_context
          sample_ring)
    (submitted sample_ops true sample_context sample_ring []
       (barrier_packets [sample_barrier; sample_barrier])).
Proof.
  apply (submit_barriers_fifo sample_ops sample_count [sample_barrier; sample_barrier]);
    [apply sample_refines|simpl; lia].
Defined.

Lemma submit_barriers_dispatch_fifo_witness :
  safe (submit_aql_barriers_and_kernel_dispatch sample_ops (Some [sample_barrier]) 1
          sample_dispatch sample_ordering sample_context sample_ring)
    (submitted sample_ops
       (dispatch_accepted sample_ops
          (build_aql_kernel_dispatch_packet sample_dispatch sample_ordering) sample_context)
       sample_context sample_ring []
       (barrier_packets [sample_barrier] ++
        [dispatch_bytes (build_aql_kernel_dispatch_packet sample_dispatch sample_ordering)])).
Proof.
  apply (submit_barriers_dispatch_fifo sample_ops sample_count [sample_barrier]);
    [apply sample_refines|simpl; lia].
Defined.

(** A session of one accepted dispatch. *)
Definition sample_outcome : AqlSubmitResult * kfd_context * bytes := Eval vm_compute in
  match submit_aql_kernel_dispatch sample_ops sample_dispatch sample_ordering false sample_context
          sample_ring with
  | Ok outcome => outcome
  | _ => (mkSubmitResult SubmitInvalidQueue 0, sample_context, sample_ring)
  end.

Lemma sample_session :
  session sample_ops sample_context sample_ring [sample_packet] sample_outcome.1.2 sample_outcome.2.
Proof.
  apply (session_dispatch sample_ops sample_context sample_ring [] sample_context sample_ring
    sample_dispatch sample_ordering sample_outcome.1.1); [apply session_start|].
  vm_compute. reflexivity.
Qed.

Lemma session_fifo_witness :
  pq_write (queue:=sample_ops) sample_outcome.1.2 =
    pq_write (queue:=sample_ops) sample_context + 1 /\
  pq_write (queue:=sample_ops) sample_outcome.1.2 -
    pq_read (queue:=sample_ops) sample_outcome.1.2 <= po_packet_count sample_ops /\
  forall i packet, [sample_packet] !! i = Some packet ->
    pq_read (queue:=sample_ops) sample_outcome.1.2 <=
      pq_write (queue:=sample_ops) sample_context + Z.of_nat i ->
    slot (po_packet_count sample_ops) sample_outcome.2
      (pq_write (queue:=sample_ops) sample_context + Z.of_nat i) = packet.
Proof.
  exact (session_fifo sample_ops sample_count sample_context sample_ring [] [sample_packet]
    sample_outcome.1.2 sample_outcome.2 sample_refines sample_session).
Defined.

Lemma kfd_queue_fifo_witness :
  let write := aq_write_dispatch_id (kc_control sample_outcome.1.2) in
  let read := aq_read_dispatch_id (kc_control sample_outcome.1.2) in
  write = aq_write_dispatch_id sample_amd_queue + Z.of_nat (length [sample_packet]) /\
  write - read <= packet_count sample_queue /\
  forall i packet, [sample_packet] !! i = Some packet ->
    read <= aq_write_dispatch_id sample_amd_queue + Z.of_nat i ->
    slot (packet_count sample_queue) sample_outcome.2
      (aq_write_dispatch_id sample_amd_queue + Z.of_nat i) = packet.
Proof.
  exact (kfd_queue_fifo sample_queue None sample_amd_queue sample_ring [0; 0; 0; 1]%nat
    [sample_packet] sample_outcome.1.2 sample_outcome.2 sample_fresh sample_session).
Defined.

(** ** Signals *)

(** The value reaches 0 in the third round, the clock expires in the sixth. *)
Definition sample_signal (n : nat) : AmdSignal :=
  mkAmdSignal 1 (if (n <? 2)%nat then 1 else 0) 0 0 0 0 0 0 (0, 0).

Lemma signal_wait_returns_witness :
  exists last, (last <= 5)%nat /\
    signal_wait_until_equal sample_signal Z.of_nat 0 5 6 =
      Ok (mkWaitResult (if sg_value (sample_signal last) =? 0 then Satisfied else TimedOut)
            (sg_value (sample_signal last))) /\
    (forall i, (i < last)%nat -> sg_value (sample_signal i) <> 0 /\ Z.of_nat i < 5) /\
    (sg_value (sample_signal last) <> 0 -> 5 <= Z.of_nat last).
Proof. apply (signal_wait_returns sample_signal Z.of_nat 0 5 5 6); lia. Defined.

(** JSON text, written with single quotation marks. *)
Definition json_text (s : string) : bytes :=
  (fun b => if bool_decide (b = x27) then x22 else b) <$> String.list_byte_of_string s.

Definition sample_manifest_text : bytes := json_text "{
  'manifest_version': 1,
  'target': 'gfx1101',
  'kernels': [
    {
      'name': 'vector_add',
      'symbol': 'vector_add_kernel',
      'code_object': 'kernels.hsaco',
      'args': [
        {'name': 'x', 'type': 'ptr', 'offset': 0, 'size': 8},
        {'name': 'y', 'type': 'ptr', 'offset': 8, 'size': 8},
        {'name': 'out', 'type': 'ptr', 'offset': 16, 'size': 8},
        {'name': 'n', 'type': 'i32', 'offset': 24, 'size': 4}
      ],
      'kernarg_size': 32,
      'block': [128, 1, 1],
      'grid': ['ceil_div(n, 256) * 128', 1, 1],
      'shared_memory_bytes': 0,
      'workspace_bytes': 0
    }
  ]
}".

Definition sample_argument (name type : string) (offset size : Z) : KernelArgument :=
  mkKernelArgument (String.list_byte_of_string name) (String.list_byte_of_string type) offset size
    false.

Definition sample_manifest : KernelManifest :=
  mkKernelManifest 1 (String.list_byte_of_string "gfx1101") (String.list_byte_of_string "vector_add")
    (String.list_byte_of_string "vector_add_kernel") (String.list_byte_of_string "kernels.hsaco")
    (128, 1, 1) 128 256 32 0 0 [0; 8; 16; 24]
    [sample_argument "x" "ptr" 0 8; sample_argument "y" "ptr" 8 8;
     sample_argument "out" "ptr" 16 8; sample_argument "n" "i32" 24 4].

Lemma sample_manifest_parses :
  parse_bundle_manifests (Some sample_manifest_text) = Ok [sample_manifest].
Proof. vm_compute. reflexivity. Qed.

Lemma sample_manifest_wf : kernel_wf sample_manifest.
Proof.
  pose proof (parse_kernels_safe sample_manifest_text) as H.
  change (parse_kernels sample_manifest_text)
    with (parse_bundle_manifests (Some sample_manifest_text)) in H.
  rewrite sample_manifest_parses in H. destruct H as [_ H _ _ _]. by apply Forall_cons in H as [H _].
Qed.

Lemma sample_disjoint : slots_disjoint (mf_args sample_manifest).
Proof. unfold slots_disjoint. repeat constructor; unfold before; cbn; lia. Qed.

Lemma launch_config_from_manifest_exact_witness :
  launch_config_from_manifest sample_manifest 513 =
    Ok (mkLaunchConfig (mkDim3 384 1 1) (mkDim3 128 1 1) 0) /\ launchable sample_manifest 513.
Proof.
  split; [vm_compute; reflexivity|].
  pose proof (launch_config_from_manifest_exact sample_manifest 513 sample_manifest_wf
    ltac:(lia)) as H.
  assert (launch_config_from_manifest sample_manifest 513 =
    Ok (mkLaunchConfig (mkDim3 384 1 1) (mkDim3 128 1 1) 0)) as E by (vm_compute; reflexivity).
  rewrite E in H. apply H.
Defined.

Definition sample_kernarg_buffer : KernargBuffer :=
  mkKernargBuffer (replicate 32 x00) (mf_args sample_manifest) (replicate 4 false).

Definition sample_calls : list call :=
  [SetRaw 0 (Some (le_bytes 8 4096)) 8;
   SetRawNamed (String.list_byte_of_string "n") (Some (le_bytes 4 513)) 4;
   SetRaw 4 (Some []) 0;
   BindOptionalNulls;
   SetRawNamed (String.list_byte_of_string "y") (Some (le_bytes 8 8192)) 8;
   SetRaw 2 (Some (le_bytes 8 12288)) 8].

Lemma sample_calls_ok : Forall call_ok sample_calls.
Proof.
  repeat constructor; try (cbn; lia); intros v [= <-]; vm_compute; congruence.
Qed.

Lemma sample_make : make_kernarg_buffer sample_manifest = Ok sample_kernarg_buffer.
Proof. vm_compute. reflexivity. Qed.

Lemma kernarg_buffer_refines_witness :
  slots_of (run step sample_kernarg_buffer sample_calls).2 =
  (run slots_step (fresh_slots (mf_args sample_manifest)) sample_calls).2.
Proof.
  pose proof (kernarg_buffer_refines sample_manifest sample_kernarg_buffer sample_calls
    sample_manifest_wf sample_make sample_calls_ok) as H.
  destruct (run step sample_kernarg_buffer sample_calls) as [results final].
  destruct H as (_ & _ & _ & _ & _ & H). rewrite <-(H sample_disjoint). reflexivity.
Defined.

(** The packed bytes: three pointers and the count. *)
Definition sample_packed : bytes :=
  le_bytes 8 4096 ++ le_bytes 8 8192 ++ le_bytes 8 12288 ++ le_bytes 4 513 ++ replicate 4 x00.

Lemma sample_calls_pack :
  (run step sample_kernarg_buffer sample_calls).2 =
  mkKernargBuffer sample_packed (mf_args sample_manifest) [true; true; true; true].
Proof. vm_compute. reflexivity. Qed.

Definition sample_bound_buffer : KernargBuffer :=
  mkKernargBuffer sample_packed (mf_args sample_manifest) [true; true; true; true].

Lemma sample_bound_wf : buffer_wf sample_bound_buffer.
Proof. split; [reflexivity|vm_compute; congruence|..]; repeat constructor; vm_compute; congruence. Qed.

Lemma bundle_launch_exact_witness :
  launch_ready sample_manifest 513 sample_bound_buffer /\
  bundle_launch (fun config data => Ok (config, data)) sample_manifest 513 sample_bound_buffer =
    Ok (mkLaunchConfig (mkDim3 384 1 1) (mkDim3 128 1 1) 0, sample_packed).
Proof.
  destruct (bundle_launch_exact (fun config data => Ok (config, data)) sample_manifest 513
    sample_bound_buffer sample_manifest_wf ltac:(lia) sample_bound_wf) as [[H E]|[_ [e E]]].
  - split; [exact H|]. rewrite E. vm_compute. reflexivity.
  - exfalso. assert (bundle_launch (fun config data => Ok (config, data)) sample_manifest 513
      sample_bound_buffer = Ok (mkLaunchConfig (mkDim3 384 1 1) (mkDim3 128 1 1) 0, sample_packed))
      as E' by (vm_compute; reflexivity). congruence.
Defined.

(** A block that is not one-dimensional is accepted here, and refused at the
    dispatch: the grid's [y] is 1. *)
Definition two_dimensional_manifest : KernelManifest :=
  mkKernelManifest 1 (mf_target sample_manifest) (mf_name sample_manifest)
    (mf_symbol sample_manifest) (mf_code_object sample_manifest) (64, 2, 1) 128 256 32 0 0
    [0; 8; 16; 24] (mf_args sample_manifest).

Lemma launch_config_accepts_narrow_grid :
  launch_config_from_manifest two_dimensional_manifest 513 =
    Ok (mkLaunchConfig (mkDim3 384 1 1) (mkDim3 64 2 1) 0).
Proof. vm_compute. reflexivity. Qed.

(** ** Stateful graphs *)

(** A workload whose tasks make one access and bump the predicate value. *)
Definition counting_workload : Workload unit := {|
  valid_context := fun _ _ => true;
  valid_task := fun _ _ => true;
  execute := fun _ k s x =>
    match k with O => Some (gs_predicate_value s + 1, gs_branch_value s, x) | S _ => None end
|}.
#[local] Existing Instance counting_workload.

Definition chain_state : GraphState := mkGraphState 8 0 0 0 3 0 0 2 0 0 0.

Lemma chain_typed :
  state_typed chain_state /\ Forall task_typed chain_tasks /\ Forall program_typed chain_programs /\
  plan_typed [mkStage 0 1; mkStage 1 1] [mkCompiledProgram 0 2].
Proof. repeat (split || constructor || lia || done). Qed.

Lemma graph_validation_exact_witness :
  exists accepted accepted_plan,
    validate_programs (E := Empty_set) chain_state (Some chain_tasks) (Some chain_programs)
      (Some (replicate 8 empty_mask_state)) 1 2 8 tt = Ok accepted /\
    validate_plan (E := Empty_set) chain_state (Some chain_tasks) (Some chain_programs)
      (Some (replicate 8 empty_mask_state)) (Some [mkStage 0 1; mkStage 1 1]) (Some [mkCompiledProgram 0 2])
      1 2 8 2 tt = Ok accepted_plan /\
    (accepted = true <-> graph_ok chain_state chain_tasks chain_programs 1 2 8 tt) /\
    (accepted_plan = true <-> graph_ok chain_state chain_tasks chain_programs 1 2 8 tt /\
       plan_ok chain_tasks chain_programs 1 [mkStage 0 1; mkStage 1 1] [mkCompiledProgram 0 2] 2).
Proof.
  destruct chain_typed as (Hs & Ht & Hp & Hpl).
  apply graph_validation_exact; try done; cbn; lia.
Defined.

Lemma compile_resident_plan_exact_witness :
  host_graph_ok chain_tasks chain_programs chain_config /\
  validate_plan (E := Empty_set) (mkGraphState 8 0 0 0 3 0 0 4 0 0 0) (Some chain_tasks) (Some chain_programs)
    (Some (replicate 8 empty_mask_state)) (Some [mkStage 0 1; mkStage 1 1]) (Some [mkCompiledProgram 0 2])
    1 2 8 2 tt = Ok true.
Proof.
  destruct chain_typed as (Hs & Ht & Hp & Hpl).
  destruct (compile_resident_plan_exact chain_tasks chain_programs chain_config Ht Hp ltac:(cbn; lia) ltac:(cbn; lia))
    as [Hcompile Hdevice].
  rewrite chain_compiles in Hcompile. destruct Hcompile as [(plan & _ & Hok & _)|(e & Hno & _)]; [|discriminate Hno].
  split; [exact Hok|].
  apply (Hdevice _ chain_compiles unit counting_workload); done.
Defined.

Definition chain_args : ResidentArgs := mkResidentArgs chain_tasks chain_programs 1 2 8.
Definition chain_device : Device unit := mkDevice chain_state (replicate 8 empty_mask_state) tt.

Lemma chain_launchable : ResidentScheduler.launchable chain_args chain_device.
Proof.
  destruct chain_typed as (Hs & Ht & Hp & Hpl). split; try done; try (cbn; lia).
  intros g Hg. change (phase_generation _) with 0 in Hg. cbn in Hg. cbn [d_phase_states chain_device].
  apply lookup_replicate_2. lia.
Qed.

(** Two workers in turn: the three runs of the chain, six tasks. *)
Example chain_runs :
  match run_schedule chain_args (concat (replicate 120 [0; 1]%nat)) (launch_workers 2) chain_device with
  | Ok (workers, d, events) => (workers, gs_status (d_state d), gs_executed_tasks (d_state d), length events)
  | _ => ([], 0, 0, 0%nat)
  end = ([Returned; Returned], status_max_steps, 6, 15%nat).
Proof. vm_compute. reflexivity. Qed.

Lemma resident_run_refines_witness :
  exists workers d events,
    run_schedule chain_args (concat (replicate 120 [0; 1]%nat)) (launch_workers 2) chain_device = Ok (workers, d, events) /\
    (graph_accepted chain_args chain_device -> exists r,
       graph_steps chain_args 3 0 (initial_run chain_device) events r /\ outcome_agrees r workers d) /\
    (~ graph_accepted chain_args chain_device -> events = [] /\ forall w, workers !! w = Some Returned ->
       gs_status (d_state d) = status_invalid_program /\ gs_error_code (d_state d) = 1).
Proof.
  exact (resident_run_refines chain_args chain_device 1 (concat (replicate 120 [0; 1]%nat)) chain_launchable).
Defined.

Lemma resident_run_ends_witness :
  exists workers d events,
    run_schedule chain_args (concat (replicate (enough_rounds chain_args 1 2) [0; 1]%nat)) (launch_workers 2) chain_device =
      Ok (workers, d, events) /\
    Forall (eq Returned) workers.
Proof.
  apply (resident_run_ends chain_args chain_device 1 1 (replicate (enough_rounds chain_args 1 2) [0; 1]%nat)).
  - exact chain_launchable.
  - intros task [|k] s x Hk; [lia|reflexivity].
  - lia.
  - intros l w Hl Hw. apply elem_of_replicate in Hl as [-> _].
    destruct w as [|[|w]]; [by left|by right; left|lia].
  - rewrite length_replicate. reflexivity.
Defined.
