(* ===== verification/KfdWitnesses.v ===== *)
(** * A simulated driver, and the KFD properties at concrete runs

    An instance of the kernel's operations and laws: a world is a ledger and a
    script of error codes, one for each coming call (success when the script
    is over).  The laws of [KfdKernel] hold of it, so they can hold, and the
    properties of the KFD transport can be run on it.  With a device file
    beside it: a session opened twice, the code object of [LoaderWitnesses] in
    its memory, a freeze that goes through and one that the GPU never
    finishes. *)

From stdpp Require Import fin_maps gmap pretty strings.
From Stdlib Require Import Ascii.
From S2P Require Import Prelude Order Memory CodeObject ExecutableImage ImageContents Topology Scratch CodeCache AqlQueue Signal KfdKernel KfdMemory KfdMemoryFacts ScratchPool ScratchPoolFacts KfdVm KfdSession KfdSignal KfdSignalFacts KfdTopology KfdTopologyFacts CwsrLayout KfdQueue KfdQueueFacts KfdQueueParts KfdQueueLife KfdImage KfdCodeCache KfdRegistry LoaderWitnesses DeviceWitnesses.

Import MemoryAllocationUsage.

Definition no_ledger : ledger := mkLedger ∅ ∅ ∅ ∅ ∅ ∅.

(** The hole an inner [munmap] left last is where the next mapping goes, if it
    fits. *)
Record sim_world := mkSim {
  sim_ledger : ledger;
  sim_script : list Z;
  sim_hole : option (Z * Z)
}.

(** The error code of the next call; the simulated driver is never
    interrupted. *)
Definition sim_next (w : sim_world) : Z :=
  match sim_script w with
  | [] => 0
  | e :: _ => if e =? EINTR then 22 else e
  end.

Definition sim_step (w : sim_world) (l : ledger) : sim_world := mkSim l (tail (sim_script w)) (sim_hole w).

(** A bound on everything in use: the ends of the ranges, user pages and queue
    memory, the handles. *)
Definition range_bound (m : gmap Z Z) : Z :=
  foldr (fun '(start, size) z => Z.max (Z.max start (start + size)) z) 0 (map_to_list m).

Definition buffer_bound (m : gmap Z buffer) : Z :=
  foldr (fun '(handle, b) z =>
    Z.max (Z.max handle (match bf_pages b with Some (start, size) => start + size | None => 0 end)) z)
    0 (map_to_list m).

Definition list_bound (used : list (Z * Z)) : Z :=
  foldr (fun '(start, size) z => Z.max (start + size) z) 0 used.

Definition queue_bound (m : gmap Z (list (Z * Z))) : Z :=
  foldr (fun '(queue_id, used) z => Z.max (list_bound used) z) 0 (map_to_list m).

Definition set_bound (s : gset Z) : Z := foldr Z.max 0 (elements s).

Definition sim_bound (l : ledger) : Z :=
  Z.max (Z.max (range_bound (lg_ranges l)) (buffer_bound (lg_buffers l)))
    (Z.max (queue_bound (lg_queues l)) (set_bound (lg_torn l))).

(** Whether a place is fresh. *)
Definition apart_b (address length : Z) (r : Z * Z) : bool :=
  (r.1 + r.2 <=? address) || (address + length <=? r.1).

Definition fresh_b (l : ledger) (address length : Z) : bool :=
  bool_decide (lg_ranges l !! address = None) && bool_decide (address ∉ lg_torn l) &&
  forallb (fun '(_, b) => match bf_pages b with Some r => apart_b address length r | None => true end)
    (map_to_list (lg_buffers l)) &&
  forallb (fun '(_, used) => forallb (apart_b address length) used) (map_to_list (lg_queues l)) &&
  forallb (fun '(start, size) => ((start <=? address) || (address + length <=? start)) &&
      (bool_decide (start ∈ lg_torn l) || (start + size <=? address) || (address <? start)))
    (map_to_list (lg_ranges l)).

(** The hole, if a mapping of this length can go there. *)
Definition sim_place (w : sim_world) (length : Z) : Z :=
  match sim_hole w with
  | Some (address, size) =>
      if (0 <? address) && (length <=? size) && (address mod 4096 =? 0) &&
         fresh_b (sim_ledger w) address length then address
      else (sim_bound (sim_ledger w) / 4096 + 1) * 4096
  | None => (sim_bound (sim_ledger w) / 4096 + 1) * 4096
  end.

Definition sim_mmap (a : mmap_arguments) (w : sim_world) : (Z + Z) * sim_world :=
  let l := sim_ledger w in
  let fixed := Z.land (mm_flags a) MAP_FIXED =? MAP_FIXED in
  let address := sim_place w (mm_length a) in
  if negb (sim_next w =? 0) then (inl (sim_next w), sim_step w l)
  else if mm_address a =? 0 then
    if fixed || (U64_MOD <=? address) then (inl 12, sim_step w l)
    else (inr address, sim_step w (add_range address (mm_length a) l))
  else (inr (mm_address a), sim_step w l).

(** The range an address lies behind. *)
Definition sim_owner (ranges : list (Z * Z)) (address : Z) : option Z :=
  foldr (fun '(start, _) z =>
    if start <=? address then Some (match z with Some z => Z.max start z | None => start end) else z)
    None ranges.

(** Every range that begins in the pages is gone; of another one the pages
    are missing. *)
Definition sim_unmapped (l : ledger) (address length : Z) : ledger :=
  let ranges := delete address
    (filter (fun r => ~ (address <= r.1 < address + length)) (lg_ranges l)) in
  match lg_ranges l !! address, sim_owner (map_to_list ranges) address with
  | None, Some start => tear_range start (set_ranges l ranges (lg_torn l))
  | _, _ => set_ranges l ranges (lg_torn l ∖ {[address]})
  end.

Definition sim_munmap (address length : Z) (w : sim_world) : Z * sim_world :=
  let l := sim_ledger w in
  if sim_next w =? 0 then
    (0, mkSim (sim_unmapped l address length) (tail (sim_script w)) (Some (address, length)))
  else (sim_next w, sim_step w l).

Definition sim_update (handle : Z) (f : buffer -> buffer) (l : ledger) : ledger :=
  match lg_buffers l !! handle with
  | Some b => add_buffer handle (f b) l
  | None => l
  end.

(** One GPU, with 47-bit addresses. *)
Definition sim_aperture : ProcessAperture :=
  mkProcessAperture 7 (2 ^ 48) (2 ^ 48 + 2 ^ 32 - 1) (2 ^ 49) (2 ^ 49 + 2 ^ 32 - 1) 4096 (2 ^ 47 - 1).

(** The error code of a call that cannot succeed. *)
Definition sim_error (e : Z) : Z := if e =? 0 then 12 else e.

Definition sim_reply (errno : Z) : kfd_reply := mkReply errno 0 0 0 0 [] 0 0 0 0.

Definition sim_ioctl (fd : Z) (request : kfd_request) (w : sim_world) : kfd_reply * sim_world :=
  let l := sim_ledger w in
  let e := sim_next w in
  match request with
  | ALLOC_MEMORY_OF_GPU a =>
      let handle := sim_bound l + 1 in
      if negb (e =? 0) || (U64_MOD <=? handle) then
        (sim_reply (sim_error e), sim_step w l)
      else (mkReply 0 handle 0 0 0 [] 0 0 0 0,
            sim_step w (add_buffer handle (mkBuffer 0 (user_pages a)) l))
  | MAP_MEMORY_TO_GPU handle _ n p =>
      if e =? 0 then
        (mkReply 0 0 0 n 0 [] 0 0 0 0,
         sim_step w (sim_update handle (fun b => mkBuffer (bf_live b + (n - p)) (bf_pages b)) l))
      else (mkReply e 0 0 p 0 [] 0 0 0 0, sim_step w l)
  | UNMAP_MEMORY_FROM_GPU handle _ n p =>
      if e =? 0 then
        (mkReply 0 0 0 n 0 [] 0 0 0 0,
         sim_step w (sim_update handle (fun b => mkBuffer (bf_live b - (n - p)) (bf_pages b)) l))
      else (mkReply e 0 0 p 0 [] 0 0 0 0, sim_step w l)
  | FREE_MEMORY_OF_GPU handle =>
      (sim_reply e, sim_step w (if e =? 0 then remove_buffer handle l else l))
  | SET_SCRATCH_BACKING_VA _ _ | ACQUIRE_VM _ _ | SET_MEMORY_POLICY _ | SET_TRAP_HANDLER _ _ =>
      (sim_reply e, sim_step w l)
  | GET_PROCESS_APERTURES_NEW n =>
      (mkReply e 0 0 0 1 (if n =? 0 then [] else [sim_aperture]) 0 0 0 0, sim_step w l)
  | CREATE_QUEUE a =>
      let queue_id := set_bound (dom (lg_queues l)) + 1 in
      if negb (e =? 0) || (U32_MOD <=? queue_id) then
        (sim_reply (sim_error e), sim_step w l)
      else (mkReply 0 0 0 0 0 [] queue_id (2 ^ 62 + queue_id mod 1024 * 8) 0 0,
            sim_step w (add_queue queue_id (queue_memory a) l))
  | DESTROY_QUEUE queue_id =>
      (sim_reply e, sim_step w (if e =? 0 then remove_queue queue_id l else l))
  | CREATE_EVENT offset _ _ =>
      let event_id := set_bound (lg_events l) + 1 in
      if negb (e =? 0) || (U32_MOD <=? event_id) then
        (sim_reply (sim_error e), sim_step w l)
      else (mkReply 0 0 0 0 0 [] 0 0 offset event_id, sim_step w (add_event event_id l))
  | DESTROY_EVENT event_id =>
      (sim_reply e, sim_step w (if e =? 0 then remove_event event_id l else l))
  end.

Definition sim_open (path : string) (w : sim_world) : (Z + Z) * sim_world :=
  let l := sim_ledger w in
  let fd := set_bound (lg_files l) + 1 in
  if sim_next w =? 0 then (inr fd, sim_step w (add_file fd l)) else (inl (sim_next w), sim_step w l).

#[global] Instance sim_kernel : Kernel sim_world := {
  k_ioctl := sim_ioctl;
  k_mmap := sim_mmap;
  k_munmap := sim_munmap;
  k_madvise address length advice w := (sim_next w, sim_step w (sim_ledger w));
  k_open := sim_open;
  k_close fd w := mkSim (remove_file fd (sim_ledger w)) (sim_script w) (sim_hole w);
  k_new w := (sim_next w =? 0, sim_step w (sim_ledger w));
  k_strerror e := "error";
  k_byte a w := byte_of (a + 90);
  valid_syscalls := true;
  k_patience := 1
}.

(** ** The simulated driver keeps the laws *)

Lemma range_bound_spec m start size : m !! start = Some size ->
  start <= range_bound m /\ start + size <= range_bound m.
Proof.
  intros H%elem_of_map_to_list. unfold range_bound. revert H.
  induction (map_to_list m) as [|[s n] l IH]; [by intros ?%elem_of_nil|].
  intros [[= -> ->]|H]%elem_of_cons; cbn; [lia|]. specialize (IH H). lia.
Qed.

Lemma buffer_bound_spec m handle b : m !! handle = Some b ->
  handle <= buffer_bound m /\
  forall start size, bf_pages b = Some (start, size) -> start + size <= buffer_bound m.
Proof.
  intros H%elem_of_map_to_list. unfold buffer_bound. revert H.
  induction (map_to_list m) as [|[h' b'] l IH]; [by intros ?%elem_of_nil|].
  intros [[= -> ->]|H]%elem_of_cons; cbn.
  - split; [lia|]. intros start size ->. lia.
  - destruct (IH H) as [IH1 IH2]. split; [lia|]. intros start size Hp. specialize (IH2 start size Hp). lia.
Qed.

Lemma list_bound_spec used : Forall (fun '(start, size) => start + size <= list_bound used) used.
Proof.
  induction used as [|[s n] used IH]; constructor; cbn; [lia|].
  eapply Forall_impl; [exact IH|]. intros [s' n']. unfold list_bound in *. cbn in *. lia.
Qed.

Lemma queue_bound_spec m queue_id used : m !! queue_id = Some used ->
  Forall (fun '(start, size) => start + size <= queue_bound m) used.
Proof.
  intros H%elem_of_map_to_list. unfold queue_bound. revert H.
  induction (map_to_list m) as [|[q u] l IH]; [by intros ?%elem_of_nil|].
  intros [[= -> ->]|H]%elem_of_cons; cbn.
  - eapply Forall_impl; [apply list_bound_spec|]. intros [s n]. lia.
  - eapply Forall_impl; [by apply IH|]. intros [s n]. lia.
Qed.

Lemma range_bound_nonneg m : 0 <= range_bound m.
Proof. unfold range_bound. induction (map_to_list m) as [|[s n] l IH]; cbn; lia. Qed.

Lemma set_bound_spec s x : x ∈ s -> x <= set_bound s.
Proof.
  intros H%elem_of_elements. unfold set_bound. revert H.
  induction (elements s) as [|f l IH]; [by intros ?%elem_of_nil|].
  intros [->|H]%elem_of_cons; cbn; [lia|]. specialize (IH H). lia.
Qed.

Lemma set_bound_nonneg s : 0 <= set_bound s.
Proof. unfold set_bound. induction (elements s) as [|f l IH]; cbn; lia. Qed.

Lemma sim_above l address : sim_bound l < address -> forall length, fresh_range l address length.
Proof.
  unfold sim_bound. intros Hlt length. split.
  - destruct (_ !! address) as [size|] eqn:H; [|done]. apply range_bound_spec in H. lia.
  - intros H%set_bound_spec. lia.
  - split.
    + intros handle b start size Hb Hp. left. apply buffer_bound_spec in Hb as [_ Hb].
      specialize (Hb start size Hp). lia.
    + intros q used Hq. eapply Forall_impl; [by eapply queue_bound_spec|]. intros [s n]. lia.
  - intros s n Hs%range_bound_spec. lia.
  - intros s n Hs%range_bound_spec _. lia.
Qed.

Lemma forallb_map {A} (m : gmap Z A) (f : Z * A -> bool) k x :
  forallb f (map_to_list m) = true -> m !! k = Some x -> f (k, x) = true.
Proof. rewrite forallb_forall. intros H Hk%elem_of_map_to_list. by apply H, list_elem_of_In. Qed.

Lemma fresh_b_spec l address length : fresh_b l address length = true -> fresh_range l address length.
Proof.
  unfold fresh_b. rewrite !andb_true_iff, !bool_decide_eq_true. intros ((((H1 & H2) & H3) & H4) & H5).
  split; [done|done| | |].
  - split.
    + intros handle b s n Hb Hp. apply (forallb_map _ _ _ _ H3) in Hb. rewrite Hp in Hb.
      unfold apart_b in Hb. cbn in Hb. lia.
    + intros q used Hq. apply (forallb_map _ _ _ _ H4) in Hq. rewrite forallb_forall in Hq.
      apply Forall_forall. intros [s n] Hin. apply list_elem_of_In, Hq in Hin.
      unfold apart_b in Hin. cbn in Hin. lia.
  - intros s n Hs. apply (forallb_map _ _ _ _ H5) in Hs. lia.
  - intros s n Hs Ht. apply (forallb_map _ _ _ _ H5), andb_true_iff in Hs as [_ Hs].
    rewrite bool_decide_eq_false_2 in Hs by done. lia.
Qed.

Lemma sim_place_fresh w length :
  0 < sim_place w length /\ sim_place w length mod 4096 = 0 /\
  fresh_range (sim_ledger w) (sim_place w length) length.
Proof.
  assert (forall l, let address := (sim_bound l / 4096 + 1) * 4096 in
    0 < address /\ address mod 4096 = 0 /\ fresh_range l address length) as Hnew.
  { intros l. cbv zeta. pose proof (range_bound_nonneg (lg_ranges l)) as Hn.
    pose proof (Z.mul_succ_div_gt (sim_bound l) 4096 ltac:(lia)) as Hgt.
    split_and!; [unfold sim_bound in *; lia|apply Z_mod_mult|]. apply sim_above. lia. }
  unfold sim_place. destruct (sim_hole w) as [[address size]|]; [|apply Hnew].
  destruct (_ && _) eqn:G; [|apply Hnew]. apply andb_true_iff in G as [G Gf].
  apply fresh_b_spec in Gf. split_and!; [lia|lia|done].
Qed.

Lemma sim_owner_cons s n ranges address :
  sim_owner ((s, n) :: ranges) address = if s <=? address
    then Some (match sim_owner ranges address with Some z => Z.max s z | None => s end)
    else sim_owner ranges address.
Proof. done. Qed.

Lemma sim_owner_spec ranges address start size :
  (start, size) ∈ ranges -> start <= address ->
  Forall (fun r => r.1 <= start \/ address < r.1) ranges -> sim_owner ranges address = Some start.
Proof.
  intros Hin Hle Hall.
  assert (forall ranges, Forall (fun r => r.1 <= start \/ address < r.1) ranges ->
    match sim_owner ranges address with Some z => z <= start | None => True end) as Hup.
  { clear ranges Hin Hall. induction ranges as [|[s n] ranges IH]; [done|].
    intros [Hs Hall]%Forall_cons. specialize (IH Hall). cbn [fst] in Hs. rewrite sim_owner_cons.
    destruct (Z.leb_spec s address); [|done]. destruct (sim_owner ranges address); lia. }
  induction ranges as [|[s n] ranges IH]; [by apply elem_of_nil in Hin|].
  apply Forall_cons in Hall as [Hs Hall]. cbn [fst] in Hs. rewrite sim_owner_cons.
  apply elem_of_cons in Hin as [[= <- <-]|Hin].
  - destruct (Z.leb_spec start address); [|lia]. specialize (Hup ranges Hall).
    destruct (sim_owner ranges address); f_equal; lia.
  - rewrite (IH Hin Hall). destruct (Z.leb_spec s address); [f_equal; lia|done].
Qed.

(** The ranges that are left when no other one begins in the pages. *)
Lemma sim_ranges_left l address length :
  (forall s n, lg_ranges l !! s = Some n -> s <= address \/ address + length <= s) ->
  delete address (filter (fun r => ~ (address <= r.1 < address + length)) (lg_ranges l)) =
  delete address (lg_ranges l).
Proof.
  intros Ha. apply map_eq. intros s. destruct (decide (s = address)) as [->|Hne].
  { by rewrite !lookup_delete_eq. }
  rewrite !lookup_delete_ne by done. destruct (lg_ranges l !! s) as [n|] eqn:Hs.
  - apply map_lookup_filter_Some. split; [done|]. cbn. specialize (Ha _ _ Hs). lia.
  - apply map_lookup_filter_None. by left.
Qed.

(** Unmapping a range in which no other one begins takes it away, and
    unmapping inner pages of it tears it. *)
Lemma sim_unmapped_range l address length :
  lg_ranges l !! address = Some length -> alone l address length ->
  sim_unmapped l address length = remove_range address l.
Proof. intros Hl Ha. unfold sim_unmapped. rewrite Hl, sim_ranges_left; done. Qed.

Lemma sim_unmapped_inner l start address length :
  inner l start address length -> sim_unmapped l address length = tear_range start l.
Proof.
  intros [(size & Hs & Hle) Hlt Hpos Ha _]. unfold sim_unmapped.
  assert (lg_ranges l !! address = None) as Hn.
  { destruct (lg_ranges l !! address) as [n|] eqn:H; [|done]. specialize (Ha _ _ H). lia. }
  rewrite Hn, sim_ranges_left by (intros s n H; specialize (Ha _ _ H); lia).
  rewrite delete_id by done. rewrite (sim_owner_spec _ _ start size).
  - unfold tear_range, set_ranges. cbn. done.
  - by apply elem_of_map_to_list.
  - lia.
  - apply Forall_forall. intros [s n] H%elem_of_map_to_list. specialize (Ha _ _ H). cbn. lia.
Qed.

Lemma sim_error_nonzero e : sim_error e =? 0 = false.
Proof. unfold sim_error. by destruct (e =? 0) eqn:E. Qed.

Lemma sim_next_patient w : sim_next w =? EINTR = false.
Proof. unfold sim_next. destruct (sim_script w) as [|e s]; [done|]. by destruct (e =? EINTR) eqn:H. Qed.

Lemma sim_patient fd request w : rp_errno (sim_ioctl fd request w).1 =? EINTR = false.
Proof.
  pose proof (sim_next_patient w). unfold sim_ioctl. destruct request; cbn;
    unfold sim_error; repeat match goal with |- context [if ?b then _ else _] => destruct b end; done.
Qed.

#[global, refine] Instance sim_laws : KernelLaws sim_world := { ledger_of := sim_ledger }.
Proof.
  - intros fd request w. unfold invoke_ioctl. cbn. unfold mbind, kfd_bind, call. cbn.
    pose proof (sim_patient fd request w) as H. destruct (sim_ioctl fd request w) as [reply w'].
    cbn in *. rewrite H. by eexists _, _.
  - intros a w Ha. cbn. unfold sim_mmap. rewrite Ha. cbn.
    destruct (negb _); [done|]. destruct (_ || _) eqn:G; [done|]. apply orb_false_iff in G as [_ G].
    pose proof (sim_place_fresh w (mm_length a)) as (H1 & H2 & H3). split_and!; try done. lia.
  - intros a start w Hf _. cbn. unfold sim_mmap. rewrite Hf. cbn. destruct (negb _); [done|].
    by destruct (mm_address a =? 0).
  - intros address length w Hr Ha _. cbn. unfold sim_munmap. destruct (sim_next w =? 0) eqn:E; cbn.
    + by apply sim_unmapped_range.
    + by rewrite E.
  - intros start address length w Hi. cbn. unfold sim_munmap. destruct (sim_next w =? 0) eqn:E; cbn.
    + by apply sim_unmapped_inner.
    + by rewrite E.
  - done.
  - done.
  - intros fd a w _. cbn. destruct (_ || _) eqn:G; cbn; [by rewrite andb_false_r|].
    apply orb_false_iff in G as [_ G]. unfold sim_bound in *.
    pose proof (range_bound_nonneg (lg_ranges (sim_ledger w))). split_and!; try done; try lia.
    destruct (Z.eqb_spec (Z.max (Z.max (range_bound (lg_ranges (sim_ledger w))) (buffer_bound (lg_buffers (sim_ledger w))))
      (Z.max (queue_bound (lg_queues (sim_ledger w))) (set_bound (lg_torn (sim_ledger w)))) + 1) 0);
      cbn; [lia|]. split; [|done].
    destruct (_ !! _) as [b|] eqn:H'; [|done]. apply buffer_bound_spec in H' as [H' _]. lia.
  - intros fd handle ids n p w b Hb Hp. cbn. destruct (sim_next w =? 0); cbn; (split; [lia|]).
    + unfold sim_update. by rewrite Hb.
    + unfold add_buffer. rewrite insert_id; [by rewrite set_buffers_id|]. rewrite Hb. do 2 f_equal.
      destruct b; cbn; f_equal; lia.
  - intros fd handle ids n p w b Hb Hp. cbn. destruct (sim_next w =? 0); cbn; (split; [lia|]).
    + unfold sim_update. by rewrite Hb.
    + unfold add_buffer. rewrite insert_id; [by rewrite set_buffers_id|]. rewrite Hb. do 2 f_equal.
      destruct b; cbn; f_equal; lia.
  - done.
  - intros fd a w _. cbn. pose proof (set_bound_nonneg (dom (lg_queues (sim_ledger w)))).
    destruct (_ || _) eqn:G; cbn.
    { by rewrite sim_error_nonzero. }
    apply orb_false_iff in G as [_ G].
    pose proof (Z.mod_pos_bound (set_bound (dom (lg_queues (sim_ledger w))) + 1) 1024 ltac:(lia)) as Hm.
    split_and!; [lia..| |done].
    destruct (_ !! _) as [used|] eqn:H'; [|done]. apply elem_of_dom_2, set_bound_spec in H'. lia.
  - done.
  - intros fd offset t r w. cbn. pose proof (set_bound_nonneg (lg_events (sim_ledger w))).
    destruct (_ || _) eqn:G; cbn.
    { by rewrite sim_error_nonzero. }
    apply orb_false_iff in G as [_ G]. split_and!; [lia|lia| |done].
    intros He%set_bound_spec. lia.
  - done.
  - intros fd request w Hq. by destruct request.
  - intros fd n w. cbn. destruct (n =? 0); repeat constructor; done.
  - intros path w. unfold sys_open. cbn. unfold mbind, kfd_bind, call, sim_open. cbn.
    destruct (sim_next w =? 0); cbn; [by eexists _, _|]. rewrite sim_next_patient. by eexists _, _.
  - intros path w. cbn. unfold sim_open. destruct (sim_next w =? 0); [|done].
    pose proof (set_bound_nonneg (lg_files (sim_ledger w))). split_and!; [lia| |done].
    intros Hf%set_bound_spec. lia.
  - done.
Defined.

(** ** Runs *)

Definition sim_start (script : list Z) : sim_world := mkSim no_ledger script None.

(** A run in which every call succeeds: the allocation is there, and the
    release gives back all of it. *)
Lemma kfd_memory_lifecycle_witness :
  wp (allocate_memory 3 4 sim_aperture 8192 Vram) (fun '(status, a) w1 =>
    status_ok status = true /\ allocated sim_aperture Vram 8192 a /\
    wp (attempts (release_memory 3) 0 a) (fun '(released, b) w2 =>
      status_ok released = true /\ sim_ledger w2 = no_ledger) w1) (sim_start []).
Proof.
  assert (is_u64 (ap_gpuvm_limit sim_aperture)) as Hlim by (vm_compute; intuition congruence).
  assert (is_u64 8192) as Hsize by (vm_compute; intuition congruence).
  pose proof (kfd_memory_lifecycle sim_aperture 3 4 Vram 8192 (sim_start []) Hlim Hsize) as H.
  assert (wp (allocate_memory 3 4 sim_aperture 8192 Vram) (fun '(status, a) w1 =>
    status_ok status = true /\ wp (attempts (release_memory 3) 0 a) (fun '(released, b) w2 =>
      status_ok released = true) w1) (sim_start [])) as Hrun by (vm_compute; done).
  unfold wp in H, Hrun |- *.
  destruct (allocate_memory 3 4 sim_aperture 8192 Vram (sim_start [])) as [[[status a] w1]|[]|f]; [|done].
  destruct Hrun as [Hs Hr]. destruct H as (_ & Hal & Hrel). specialize (Hrel 0%nat).
  destruct (attempts (release_memory 3) 0 a w1) as [[[released b] w2]|[]|f]; [|done].
  split_and!; [done|by apply Hal|done|]. by apply Hrel.
Defined.

Lemma kfd_host_memory_lifecycle_witness :
  wp (allocate_host_memory 3 sim_aperture 4096) (fun '(status, a) w1 =>
    status_ok status = true /\ host_allocated sim_aperture 4096 a /\
    wp (attempts (release_host_memory 3) 1 a) (fun '(released, b) w2 =>
      status_ok released = true /\ sim_ledger w2 = no_ledger) w1) (sim_start [0; 0; 0; 0; 0; 0; 5]).
Proof.
  set (w0 := sim_start _).
  assert (is_u64 (ap_gpuvm_limit sim_aperture)) as Hlim by (vm_compute; intuition congruence).
  assert (is_u64 4096) as Hsize by (vm_compute; intuition congruence).
  pose proof (kfd_host_memory_lifecycle sim_aperture 3 4096 w0 Hlim Hsize) as H.
  assert (wp (allocate_host_memory 3 sim_aperture 4096) (fun '(status, a) w1 =>
    status_ok status = true /\ wp (attempts (release_host_memory 3) 1 a) (fun '(released, b) w2 =>
      status_ok released = true) w1) w0) as Hrun by (vm_compute; done).
  unfold wp in H, Hrun |- *.
  destruct (allocate_host_memory 3 sim_aperture 4096 w0) as [[[status a] w1]|[]|f]; [|done].
  destruct Hrun as [Hs Hr]. destruct H as (_ & Hal & Hrel). specialize (Hrel 1%nat).
  destruct (attempts (release_host_memory 3) 1 a w1) as [[[released b] w2]|[]|f]; [|done].
  split_and!; [done|by apply Hal|done|]. by apply Hrel.
Defined.

(** A session with one acquired GPU. *)
Definition sim_session : KfdState :=
  mkKfdState 3 {[ 7 := mkDeviceVm 4 128 true true true sim_aperture None None false ]} false None.

(** Two allocations, of which the second one's mapping fails and then the
    release of its buffer, and two releases: the pool is whole again. *)
Lemma scratch_pool_partition_witness :
  wp (scratch_run 3 sim_aperture
        [AllocateScratch 65536 false; AllocateScratch 4096 false; ReleaseScratch 0; ReleaseScratch 0]
        (sim_session, []))
    (fun '(state', owners) w' => owners = [] /\ exists device pool,
       ks_device_vms state' !! 7 = Some device /\ dv_scratch_pool device = Some pool /\
       sp_free_ranges pool = [(0, kGfx11ScratchPoolSize)] /\
       sim_ledger w' = with_pool pool no_ledger)
    (sim_start [0; 0; 0; 0; 0; 0; 0; 0; 0; 0; 5; 5]).
Proof.
  set (ops := [_; _; _; _]). set (w0 := sim_start _).
  assert (ap_gpu_id sim_aperture <> 0) as Hid by done.
  assert (Forall scratch_op_ok ops) as Hops by (repeat constructor; done).
  assert (forall device, ks_device_vms sim_session !! ap_gpu_id sim_aperture = Some device ->
    dv_scratch_pool device = None) as Hnone by (intros device [= <-]; done).
  pose proof (scratch_pool_partition 3 sim_aperture sim_session ops w0 Hid Hops Hnone) as H.
  assert (wp (scratch_run 3 sim_aperture ops (sim_session, [])) (fun '(state', owners) w' =>
    match ks_device_vms state' !! 7 with
    | Some device => match dv_scratch_pool device with
                     | Some pool => sp_configured pool = true /\ owners = []
                     | None => False
                     end
    | None => False
    end) w0) as Hrun by (vm_compute; split; reflexivity).
  unfold wp in H, Hrun |- *.
  destruct (scratch_run 3 sim_aperture ops (sim_session, []) w0) as [[[state' owners] w']|[]|f]; [|done].
  destruct H as [_ H]. destruct (ks_device_vms state' !! 7) as [device|] eqn:Hd; [|destruct Hrun].
  destruct (dv_scratch_pool device) as [pool|] eqn:Hp; [|destruct Hrun]. destruct Hrun as [Hc Ho].
  split; [exact Ho|]. exists device, pool. destruct (H device pool Hd Hp Hc) as (_ & _ & Hall).
  destruct (Hall Ho). by split_and!.
Defined.

(** ** Sessions *)

Definition sim_node : Node :=
  mkNode 1 7 0 120 2 32 16 64 3 32 1 0 0 4098 29822 0 0 128 0 false "navi32"
    (mkGpuArchitecture 11 0 1) [].


Lemma sim_new_session_inv script : vm_inv no_ledger (mkKfdState 3 ∅ false None) (ledger_of (sim_start script)).
Proof.
  split; cbn; try done. intros f. split; [by left|]. intros [|(g & d & Hg & _)]; [done|].
  by rewrite lookup_empty in Hg.
Qed.

(** The first attempt to release finds the driver busy. *)
Lemma session_memory_lifecycle_witness :
  wp (allocate_memory_impl (Some (mkKfdState 3 ∅ false None)) sim_node 8192 "/dev/dri" Vram)
    (fun '(status, owner, session') w1 => status_ok status = true /\
       session_allocates no_ledger 7 8192 Vram (status, owner, session') w1) (sim_start []).
Proof.
  assert (is_u64 8192) as Hsize by (vm_compute; intuition congruence).
  pose proof (session_memory_lifecycle no_ledger (mkKfdState 3 ∅ false None) sim_node 8192 "/dev/dri" Vram
    (sim_start []) (sim_new_session_inv []) Hsize) as H.
  assert (wp (allocate_memory_impl (Some (mkKfdState 3 ∅ false None)) sim_node 8192 "/dev/dri" Vram)
    (fun '(status, owner, session') w1 => status_ok status = true) (sim_start [])) as Hrun
    by (vm_compute; reflexivity).
  unfold wp in H, Hrun |- *.
  destruct (allocate_memory_impl (Some (mkKfdState 3 ∅ false None)) sim_node 8192 "/dev/dri" Vram (sim_start []))
    as [[[[status owner] session'] w1]|[]|f]; [|destruct Hrun].
  split; [exact Hrun|exact H].
Defined.

Lemma session_host_lifecycle_witness :
  wp (allocate_host (Some (mkKfdState 3 ∅ false None)) sim_node 100 "/dev/dri")
    (fun '(status, owner, session') w1 => status_ok status = true /\
       session_allocates_host no_ledger 7 100 (status, owner, session') w1) (sim_start []).
Proof.
  assert (is_u64 100) as Hsize by (vm_compute; intuition congruence).
  pose proof (session_host_lifecycle no_ledger (mkKfdState 3 ∅ false None) sim_node 100 "/dev/dri"
    (sim_start []) (sim_new_session_inv []) Hsize) as H.
  assert (wp (allocate_host (Some (mkKfdState 3 ∅ false None)) sim_node 100 "/dev/dri")
    (fun '(status, owner, session') w1 => status_ok status = true) (sim_start [])) as Hrun
    by (vm_compute; reflexivity).
  unfold wp in H, Hrun |- *.
  destruct (allocate_host (Some (mkKfdState 3 ∅ false None)) sim_node 100 "/dev/dri" (sim_start []))
    as [[[[status owner] session'] w1]|[]|f]; [|destruct Hrun].
  split; [exact Hrun|exact H].
Defined.

(** ** A range that cannot be returned *)

(** A release of an owner without a size is refused before anything else. *)
Lemma scratch_release_refused {W} `{!Kernel W} state owner (w : W) :
  sa_state owner = true -> sa_pool_range_owned owner = true -> sa_size owner = 0 ->
  scratch_release state owner w =
    Ok ((failure MemoryError.InvalidSession "scratch release requires a live pool allocation",
         owner, state), w).
Proof.
  intros Hs Ho Hz. unfold scratch_release, release_scratch. rewrite Hs, Ho. cbn. rewrite Ho, Hz.
  rewrite !orb_true_r. cbn. unfold scratch_after, scratch_raw. cbn. destruct owner. cbn in *. by subst.
Qed.

(** An owner of a scratch range can be made that never gives it back.
    When the mapping of a range fails, its buffer is released and the range
    cannot be put back for want of memory, [KfdSession::allocate_scratch]
    makes the owner with the size of the released allocation, 0, instead of
    the size of the range: the range is off the free list, and every release
    of the owner, with any kernel, is refused and changes nothing. *)
Theorem scratch_owner_never_releases :
  wp (session_allocate_scratch (Some sim_session) sim_node 65536 "/dev/dri")
    (fun '(status, owner, session') _ => exists state device pool, session' = Some state /\
       ks_device_vms state !! 7 = Some device /\ dv_scratch_pool device = Some pool /\
       sp_free_ranges pool = [(65536, kGfx11ScratchPoolSize - 65536)] /\
       sa_pool_range_owned owner = true /\
       forall {W} `{!Kernel W} (w : W), scratch_release state owner w =
         Ok ((failure MemoryError.InvalidSession "scratch release requires a live pool allocation",
              owner, state), w))
    (sim_start [0; 0; 0; 0; 0; 0; 0; 5; 0; 12]).
Proof.
  set (w0 := sim_start _).
  assert (wp (session_allocate_scratch (Some sim_session) sim_node 65536 "/dev/dri")
    (fun '(status, owner, session') _ => sa_state owner = true /\ sa_size owner = 0 /\
       sa_pool_range_owned owner = true /\
       match session' with
       | Some state => match ks_device_vms state !! 7 with
                       | Some device => match dv_scratch_pool device with
                                        | Some pool => sp_free_ranges pool =
                                            [(65536, kGfx11ScratchPoolSize - 65536)]
                                        | None => False
                                        end
                       | None => False
                       end
       | None => False
       end) w0) as H by (vm_compute; split_and!; reflexivity).
  eapply wp_mono; [exact H|]. intros [[status owner] [state|]] w (Hs & Hz & Ho & Hp); [|done].
  destruct (ks_device_vms state !! 7) as [device|] eqn:Hd; [|done].
  destruct (dv_scratch_pool device) as [pool|] eqn:Hpool; [|done].
  exists state, device, pool. split_and!; [done..|]. intros W HK w1. by apply scratch_release_refused.
Qed.

(** ** Queues on the simulated driver *)

Import MemoryAllocationUsage.

(** A GPU of one compute unit that states the size of its save area. *)
Definition small_node : Node :=
  mkNode 1 7 0 2 2 32 16 64 1 32 1 4096 4096 4098 29822 0 768 128 0 false "GFX0b0001"
    (mkGpuArchitecture 11 0 1) [].

Lemma small_node_wf : node_wf small_node.
Proof.
  split; try (cbn; unfold INT32_MAX; lia); try reflexivity.
  - split; cbn; lia.
  - intros _. split; [discriminate|vm_compute; reflexivity].
  - constructor.
Qed.

Lemma cwsr_area_exact_witness :
  exists layout, compute_cwsr_layout small_node = inr layout /\ layout = spec_layout small_node /\
    cw_allocation_size layout = 8192.
Proof.
  pose proof (cwsr_area_exact small_node small_node_wf) as H.
  destruct (compute_cwsr_layout small_node) as [status|layout] eqn:Hc.
  - exfalso. revert Hc. vm_compute. discriminate.
  - exists layout. destruct H as (Hl & _). split_and!; [reflexivity|exact Hl|]. subst layout. vm_compute. reflexivity.
Defined.

(** With exceptions on, the trap handler and the event page come first. *)
Definition new_session : KfdState := mkKfdState 3 ∅ true None.

Lemma new_session_inv : vm_inv no_ledger new_session (ledger_of (sim_start [])).
Proof.
  split; cbn; try done. intros f. split; [by left|]. intros [|(g & d & Hg & _)]; [done|].
  by rewrite lookup_empty in Hg.
Qed.

Definition handler : bytes := replicate 64 x00.

Definition small_queue : kfd sim_world (AqlQueueStatus * option KfdQueueState * option KfdState) :=
  session_create_aql_queue handler (Some new_session) small_node 4096 32 "/dev/dri" 1.

Lemma handler_fits : size_of handler <= kMemoryPageSize.
Proof. vm_compute. discriminate. Qed.

Lemma small_node_area : node_cwsr_size small_node = 0 \/ 40 <= node_cwsr_size small_node.
Proof. right. vm_compute. discriminate. Qed.

Lemma new_session_pool : session_inv no_ledger (node_gpu_id small_node) new_session [] (ledger_of (sim_start [])).
Proof. by split. Qed.

Lemma new_session_ready : session_ready small_node no_ledger no_ledger new_session [] (ledger_of (sim_start [])).
Proof. split; [apply new_session_inv|apply new_session_pool]. Qed.


(** What the creation leaves, and the same world with the driver's next answers. *)
Definition small_state : option (KfdQueueState * KfdState * ledger) := Eval vm_compute in
  match small_queue (sim_start []) with
  | Ok ((_, Some q, Some state), w) => Some (q, state, sim_ledger w)
  | _ => None
  end.

Lemma small_state_held : match small_state with
  | Some (q, state, l) => exists L, handle_held L 7 state [] (Some q) l
  | None => False
  end.
Proof.
  assert (is_u32 32) as Hps by (split; [discriminate|reflexivity]).
  pose proof (session_create_spec "/dev/dri" handler handler_fits small_node small_node_wf
    small_node_area no_ledger no_ledger new_session [] 4096 32 1 (sim_start [])
    new_session_ready Hps) as H.
  fold small_queue in H. unfold wp in H.
  assert (wp small_queue (fun '(status, queue, session) w' => queue_status_ok status = true) (sim_start [])) as Hrun
    by (vm_compute; reflexivity). unfold wp in Hrun.
  assert (small_state = match small_queue (sim_start []) with
    | Ok ((_, Some q, Some state), w) => Some (q, state, sim_ledger w) | _ => None end) as E by (vm_compute; reflexivity).
  destruct (small_queue (sim_start [])) as [[[[status [q|]] [state|]] w]|[]|f]; try discriminate E.
  rewrite E. destruct H as (state' & L' & leaked & forgotten & [= <-] & _ & Hh & _ & _ & _ & Hok).
  destruct (Hok Hrun) as (_ & -> & _). exists L'. exact Hh.
Qed.

(** The driver is busy at first: the second release succeeds. *)
Lemma aql_queue_release_witness :
  match small_state with
  | Some (q, state, l) => exists L, handle_held L 7 state [] (Some q) l /\
      wp (queue_attempts 1 state (Some q)) (fun '(status, queue', state') w' =>
        queue_status_ok status = true /\ queue' = None /\ session_inv L 7 state' [] (sim_ledger w')) (mkSim l [16] None)
  | None => False
  end.
Proof.
  pose proof small_state_held as H. destruct small_state as [[[q state] l]|] eqn:E; [|exact H].
  destruct H as (L & Hh). exists L. split; [exact Hh|].
  assert (7 <> 0) as Hg by discriminate.
  pose proof (proj1 (aql_queue_release L 7 state [] (Some q) (mkSim l [16] None) Hg Hh) 1%nat) as Hrel.
  assert (wp (queue_attempts 1 state (Some q)) (fun '(status, queue', state') w' => queue_status_ok status = true)
    (mkSim l [16] None)) as Hrun.
  { unfold small_state in E. injection E as <- <- <-. vm_compute. reflexivity. }
  unfold wp in Hrel, Hrun |- *.
  destruct (queue_attempts 1 state (Some q) (mkSim l [16] None)) as [[[[status queue'] state'] w']|[]|f]; [|destruct Hrun].
  destruct Hrel as [_ Hok]. split; [exact Hrun|]. exact (Hok Hrun).
Defined.

(** ** A retried release and somebody else's memory *)

(** A release that the driver stops at the event, then host memory, then the
    release again. *)
Definition retried_release (q : KfdQueueState) (state : KfdState)
  : kfd sim_world (AqlQueueStatus * MemoryStatus * HostMemoryAllocation * AqlQueueStatus) :=
  '(first, queue, state) ← queue_release state (Some q);
  '(allocated, owner, session) ← allocate_host (Some state) small_node 4096 "/dev/dri";
  '(second, queue, state) ← queue_release (default state session) queue;
  give (first, allocated, owner, second).

(** The retry of a release can unmap memory that is not the queue's.
    [release_aql_queue] unmaps the doorbell page inside the reservation of the
    doorbell's memory; when a later step of [AqlQueue::release] fails, the
    reservation has a hole in which the kernel may place another mapping, and
    the retried release then unmaps the whole reservation.  In this run host
    memory is allocated between the two attempts: all three calls that succeed
    report success, the owner still names its pages and its buffer, and the
    pages are gone. *)
Theorem retried_release_unmaps_other :
  match small_state with
  | Some (q, state, l) => wp (retried_release q state) (fun '(first, allocated, owner, second) w' =>
      queue_status_ok first = false /\ status_ok allocated = true /\ queue_status_ok second = true /\
      ho_host_address owner <> 0 /\ ho_size owner = 4096 /\
      lg_ranges (sim_ledger w') !! ho_host_address owner = None /\
      bf_pages <$> lg_buffers (sim_ledger w') !! ho_handle owner = Some (Some (ho_host_address owner, 4096)))
      (mkSim l [0; 0; 16] None)
  | None => False
  end.
Proof. vm_compute. split_and!; try reflexivity; discriminate. Qed.

(** ** Signals on the simulated driver *)

Definition signal_session : KfdState := mkKfdState 3 ∅ false None.

(** Two signals, the first goes, a third takes its slot, the second is destroyed. *)
Definition some_calls : list signal_call :=
  [KfdSignalFacts.CreateSignal sim_node 1; KfdSignalFacts.CreateSignal sim_node 5; KfdSignalFacts.ReleaseSignal 0;
   KfdSignalFacts.CreateSignal sim_node 7; KfdSignalFacts.DestroySignal 0].


Lemma created_signal_ready_witness :
  wp (create_user_signal (Some signal_session) sim_node 1 "/dev/dri" no_signals)
    (fun '(status, signal, signals', session) w' => signal_status_ok status = true /\
       user_signal_gpu_handle signals' signal mod kAmdSignalSize = 0) (sim_start []).
Proof.
  assert (signals_inv sim_world no_ledger signal_session no_signals [] [] (ledger_of (sim_start []))) as Hinv.
  { split; [|done|].
    - split; cbn; try done; [|constructor]. intros p slot. rewrite elem_of_nil.
      split; [done|]. intros (page & Hp & _). done.
    - exists no_ledger. split; [by apply held_nil_inv|apply (sim_new_session_inv [])]. }
  pose proof (created_signal_ready no_ledger signal_session no_signals [] [] sim_node 1 "/dev/dri"
    (sim_start []) Hinv) as H.
  assert (wp (create_user_signal (Some signal_session) sim_node 1 "/dev/dri" no_signals)
    (fun '(status, signal, signals', session) w' => signal_status_ok status = true) (sim_start [])) as Hrun
    by (vm_compute; reflexivity).
  unfold wp in H, Hrun |- *.
  destruct (create_user_signal (Some signal_session) sim_node 1 "/dev/dri" no_signals (sim_start []))
    as [[[[[status signal] signals'] session] w1]|[]|f]; [|destruct Hrun].
  split; [exact Hrun|]. destruct (H Hrun) as (p & slot & page & _ & _ & _ & _ & _ & _ & Hmod & _).
  exact Hmod.
Defined.

(** ** A node on disk *)

Definition disk_bank : MemoryBank :=
  mkMemoryBank MemoryHeapType.FrameBufferPrivate 17163091968 0 256 1124 false false.

Definition disk_node : Node :=
  mkNode 1 51030 0 120 2 32 16 64 3 32 1 0 0 4098 29822 0 768 128 17163091968 false "GFX0b0001"
    (mkGpuArchitecture 11 0 1) [disk_bank].

Definition disk : list (string * text) :=
  [("/nodes/1/properties", print_properties (node_properties disk_node));
   ("/nodes/1/gpu_id", chars "51030" ++ [newline]);
   ("/nodes/1/name", chars "GFX0b0001" ++ [newline]);
   ("/nodes/1/mem_banks/0/properties", print_properties (bank_properties disk_bank))].

Fixpoint disk_read (path : string) (l : list (string * text)) : file_contents :=
  match l with
  | [] => OpenFailed 2
  | (name, contents) :: l => if String.eqb name path then Contents contents else disk_read path l
  end.

#[global] Instance disk_fs : SysFs unit := {
  fs_read path w := (disk_read path disk, w);
  fs_list path w := (inl 2, w);
  fs_message e := "error"
}.

(** Every bank of the node has its file. *)
Lemma node_files_roundtrip_witness :
  read_node 1 "/nodes/1" tt = (inr disk_node, tt).
Proof.
  apply (node_files_roundtrip "/nodes/1" disk_node tt).
  - split; [intros []; vm_compute; reflexivity|intros []; vm_compute; reflexivity|intros []; vm_compute; reflexivity|].
    intros [|i] bank Hb; [injection Hb as <-; intros []; vm_compute; reflexivity|by destruct i].
  - split; [|vm_compute; reflexivity|vm_compute; discriminate|].
    + split; try (cbn; unfold INT32_MAX; lia); try reflexivity.
      * split; cbn; lia.
      * intros _. split; [discriminate|vm_compute; reflexivity].
      * constructor; [split; cbn; lia|constructor].
    + constructor; [|constructor]. split; [split; cbn; lia|reflexivity|reflexivity].
Defined.

(** ** Sessions *)

#[export] Instance sim_session_kernel : SessionKernel sim_world := {|
  s_fstat _ w := (inr 234, w);
  s_get_version _ w := (inr (mkKfdVersion 1 17), w);
  s_runtime_enable _ _ w := (inr tt, w);
  s_clock_counters _ _ w := (inr (mkClockValues 1 2 3 4), w);
  s_getpid w := (100, w);
  s_start_thread w := (inr tt, w);
  s_what _ := ""
|}.

#[export] Instance sim_session_laws : SessionLaws sim_world.
Proof. split; try reflexivity; intros; eexists; reflexivity. Qed.

Definition no_sessions : SessionRegistry := mkRegistry 100 ∅ ∅.

Lemma no_sessions_ok w : registry_ok no_sessions (w : sim_world).
Proof. split; cbn; intros *; rewrite ?lookup_empty; done. Qed.

(** Two sessions of one process. *)
Definition open_twice : kfd sim_world (KfdSession * KfdSession * SessionRegistry) :=
  '(_, first, r) ← session_open "/dev/kfd" no_sessions;
  '(_, second, r) ← session_open "/dev/kfd" r;
  give (first, second, r).

(** Both have the same state, and one descriptor is open. *)
Lemma session_open_shares_witness :
  wp open_twice (fun '(first, second, r) w => registry_ok r w /\ first = Some 1%positive /\ second = first /\
    lg_files (sim_ledger w) = {[1]} /\ lg_events (sim_ledger w) = {[1]}) (sim_start []).
Proof.
  assert (wp open_twice (fun '(first, second, r) w => first = Some 1%positive /\ second = first /\
    lg_files (sim_ledger w) = {[1]} /\ lg_events (sim_ledger w) = {[1]}) (sim_start [])) as Hrun
    by (vm_compute; split_and!; reflexivity).
  assert (wp open_twice (fun '(_, _, r) w => registry_ok r w) (sim_start [])) as Hok.
  { unfold open_twice. apply wp_bind. eapply wp_mono; [apply (session_open_shares "/dev/kfd"); [apply no_sessions_ok|done]|].
    intros [[status first] r] w1 (Hr & Hpid & _). apply wp_bind.
    eapply wp_mono; [apply (session_open_shares "/dev/kfd"); [exact Hr|intros w; by rewrite Hpid]|].
    intros [[status2 second] r2] w2 (Hr2 & _). apply wp_give. exact Hr2. }
  unfold wp in *. destruct (open_twice (sim_start [])) as [[[[first second] r] w]|[]|f]; [|destruct Hrun].
  split; [exact Hok|exact Hrun].
Defined.

(** ** Images *)

Definition empty_session : KfdState := mkKfdState 3 ∅ false None.

(** The sample object, materialized on a fresh session. *)
Definition sim_materialize : kfd sim_world (KfdImageStatus * KfdExecutableImage * bytes * option KfdState) :=
  kfd_materialize_executable_image (Some empty_session) sim_node sample_object sample_code_object "/dev/dri".

Lemma kfd_image_lifecycle_witness :
  wp sim_materialize (fun '(status, image, contents, session) w =>
    kfd_image_ok status = true /\
    image_materialized no_ledger sample_object sample_code_object (status, image, contents, session) w)
    (sim_start []).
Proof.
  pose proof (kfd_image_lifecycle no_ledger empty_session sim_node sample_object sample_code_object "/dev/dri"
    (sim_start []) (sim_new_session_inv []) sample_plan_typed sample_kernels_typed) as H.
  assert (wp sim_materialize (fun '(status, _, _, _) _ => kfd_image_ok status = true) (sim_start [])) as Hrun
    by (vm_compute; reflexivity).
  unfold sim_materialize in *. unfold wp in H, Hrun |- *.
  destruct (kfd_materialize_executable_image (Some empty_session) sim_node sample_object sample_code_object "/dev/dri"
    (sim_start [])) as [[[[[status image] contents] session] w]|[]|f]; [|destruct Hrun].
  split; [exact Hrun|exact H].
Defined.

(** ** The code cache *)

Definition sim_memory (address : Z) : MemoryAllocation :=
  mkMemoryAllocation true (mkRawAllocation (address - 4096) 12288 address address 4096 1 [7] 1 0 true).

Definition sim_image : KfdExecutableImage :=
  mkKfdImage (sim_memory 0x40000) (mkImageInfo sample_code_object 4096 0x40000 [] true).

(** A session that succeeds, over a GPU that leaves [value] in the signal and
    a driver that answers [destroyed] to the release of the queue. *)
Definition answers (value : Z) (destroyed : AqlQueueStatus) (X : Type) (e : cacheE X) : X :=
  match e in cacheE X return X with
  | NewState => true
  | OwnsQueue _ _ => true
  | AllocateExecutable _ _ _ => (no_error, sim_memory 0x50000)
  | CreateSignal _ _ _ => (signal_ok, Some (1%positive, 0%nat))
  | SignalHandle _ => 0x60000
  | LoadSignal _ => value
  | WaitSignal _ _ _ => value =? 0
  | ReleaseSignal _ => (signal_ok, None)
  | ReleaseMemory _ => (no_error, no_memory)
  | ReleaseQueue _ queue => (destroyed, queue)
  | WriteBytes _ _ => tt
  | FlushHostWrites _ _ => tt
  | LoadReadIndex _ => 10
  | LoadWriteIndex _ => 11
  | AddWriteIndex _ _ => mkIndexResult PrimitiveNone 11
  | StoreHeader _ _ _ => tt
  | StoreDoorbell _ _ => tt
  end.

Lemma answers_sensible {A} value destroyed (p : prog A) : Forall sensible (play (answers value destroyed) p).1.
Proof.
  induction p as [a| |X e k IH]; [constructor..|]. cbn. specialize (IH (answers value destroyed X e)).
  destruct (play _ (k _)) as [trace o]. constructor; [|exact IH].
  by destruct e; cbn.
Qed.

(** The GPU never finishes and the driver keeps the queue: after an attempt
    with another queue and one with the right one, the destructor keeps both
    allocations. *)
Definition stuck_life : prog CodeCacheOperation :=
  operation_life (Some empty_session) sim_node 1%positive sample_queue sim_image 0 "/dev/dri"
    [(2%positive, sample_queue); (1%positive, sample_queue)].

Definition busy : AqlQueueStatus := mkQueueStatus AqlQueueError.DestroyQueue 16 "busy".

Lemma cache_memory_outlives_packet_witness :
  exists kept view, (play (answers 1 busy) stuck_life).2 = Some kept /\
    watch (play (answers 1 busy) stuck_life).1 idle_view = Some view /\ follows kept view /\
    view = mkView (Some (sim_memory 0x50000)) (Some (Some (1%positive, 0%nat))) (Some 1%positive).
Proof.
  destruct (cache_memory_outlives_packet (Some empty_session) sim_node 1%positive sample_queue sim_image 0 "/dev/dri"
    [(2%positive, sample_queue); (1%positive, sample_queue)]
    (play (answers 1 busy) stuck_life).1 (play (answers 1 busy) stuck_life).2
    (play_runs (answers 1 busy) stuck_life) (answers_sensible 1 busy stuck_life))
    as (kept & view & Hkept & Hview & Hfollows).
  exists kept, view. split_and!; [exact Hkept|exact Hview|exact Hfollows|].
  vm_compute in Hview. injection Hview as <-. reflexivity.
Defined.

(** The GPU finishes in time. *)
Definition good_freeze : prog (CodeCacheStatus * CodeCacheOperation * AqlQueue) :=
  freeze_executable_image (Some empty_session) sim_node 1%positive sample_queue sim_image 0 "/dev/dri".

Lemma answers_sole_producer {A} value destroyed queue (p : prog A) :
  sole_producer queue (play (answers value destroyed) p).1.
Proof.
  assert (Forall (fun v => let 'Event e x := v in x = answers value destroyed _ e) (play (answers value destroyed) p).1) as H.
  { induction p as [a| |Y f k IH]; cbn; [constructor..|].
    specialize (IH (answers value destroyed Y f)). destruct (play _ (k _)) as [trace o]. by constructor. }
  rewrite Forall_forall in H.
  split.
  - intros i Hi%H. cbn in Hi. lia.
  - intros i Hi%H. cbn in Hi. lia.
  - intros i n r Hi%H Hr%H _. cbn in *. by subst.
Qed.

Lemma freeze_in_order_witness :
  (play (answers 0 busy) good_freeze).2 = Some (cache_ok, None, sample_queue) /\
  frozen_in_order sim_node 1%positive sample_queue sim_image 0 "/dev/dri" (play (answers 0 busy) good_freeze).1.
Proof.
  assert ((play (answers 0 busy) good_freeze).2 = Some (cache_ok, None, sample_queue)) as Hend
    by (vm_compute; reflexivity).
  split; [exact Hend|]. pose proof (play_runs (answers 0 busy) good_freeze) as Hrun. rewrite Hend in Hrun.
  exact (proj2 (freeze_in_order (Some empty_session) sim_node 1%positive sample_queue sim_image 0 "/dev/dri"
    (play (answers 0 busy) good_freeze).1 cache_ok None sample_queue Hrun (answers_sole_producer 0 busy sample_queue good_freeze)
    eq_refl)).
Defined.
