(* ===== verification/DirectWitnesses.v ===== *)
(** * The direct KFD runtime on a simulated device

    A world in which the laws of the device hold: every signal the host looks
    at is completed right after the load, so that each wait takes two loads and
    work completes between any two looks of the host. *)

From stdpp Require Import gmap relations.
From S2P Require Import Prelude Memory CodeObject Topology AqlPacket AqlQueue AqlProducer KfdProducer Signal KfdKernel MemoryState RuntimeState DirectQueue DirectLaunch DirectApi DirectEvents RuntimeFacts DirectQueueFacts DirectEventFacts DirectSync DirectLaunchFacts DirectProperties DeviceWitnesses.

Import LrStatus.

(** ** The world *)

Record device_world := mkWorld {
  dw_signals : gmap Z AmdSignal;
  dw_rings : gmap Z (kfd_context * bytes);
  dw_allocations : list bool;
  dw_next : Z
}.

Definition done_signal : AmdSignal := mkAmdSignal kAmdSignalKindUser 0 0 0 0 100 200 0 (0, 0).

Definition busy_signal : AmdSignal := mkAmdSignal kAmdSignalKindUser 1 0 0 0 0 0 0 (0, 0).

Definition ring_key (queue : AqlQueue) : Z := from_option qs_doorbell_address 0 queue.

Definition signal_at (a : Z) (w : device_world) : AmdSignal := default done_signal (dw_signals w !! a).

Definition set_signal (a : Z) (object : AmdSignal) (w : device_world) : device_world :=
  mkWorld (<[a := object]> (dw_signals w)) (dw_rings w) (dw_allocations w) (dw_next w).

Definition take_space (size : Z) (w : device_world) : device_world :=
  mkWorld (dw_signals w) (dw_rings w) (dw_allocations w) (dw_next w + size).

#[export] Instance device_transport : Transport device_world := {|
  t_new w := (default true (head (dw_allocations w)),
    mkWorld (dw_signals w) (dw_rings w) (tail (dw_allocations w)) (dw_next w));
  t_at_capacity w := (false, w);
  t_create_user_signal _ w :=
    ((true, Some (dw_next w)), take_space 64 (set_signal (dw_next w) busy_signal w));
  t_release_signal _ w := ((true, None), w);
  t_signal a w := (signal_at a w, set_signal a done_signal w);
  t_store_signal a f w := set_signal a (f (signal_at a w)) w;
  t_create_aql_queue _ _ w :=
    ((true, false, Some (mkQueueState true (dw_next w) (Some (dw_next w)) (Some (dw_next w)) 256)),
     take_space 4096 w);
  t_release_queue _ w := ((true, None), w);
  t_error_reason _ w := (0, w);
  t_scratch_private_segment_size _ _ := 0;
  t_queue_memory queue w := default (sample_context, sample_ring) (dw_rings w !! ring_key queue);
  t_set_queue_memory queue memory w :=
    mkWorld (dw_signals w) (<[ring_key queue := memory]> (dw_rings w)) (dw_allocations w) (dw_next w);
  t_query_clock_counters _ w := (Some (mkClock 1000 0 1000 100000000), w);
  t_allocate_gtt _ size w := ((true, mkGpuMemory (dw_next w) (dw_next w) size), take_space size w);
  t_release_memory _ w := (true, w);
  t_bytes _ size _ := replicate (Z.to_nat size) Byte.x00;
  t_set_bytes _ _ w := w;
  t_copy_staging _ _ _ w := w;
  t_release_host_memory _ w := (true, w);
  t_patience := 8
|}.

Lemma quiet_kept w w' :
  quiet_step w w' -> dw_rings w' = dw_rings w /\
  forall a, sg_value (signal_at a w) = 0 -> sg_value (signal_at a w') = 0.
Proof.
  destruct 1; try done. split; [done|]. intros b Hb. unfold signal_at. simpl.
  destruct (decide (a = b)) as [->|]; [by rewrite lookup_insert_eq|by rewrite lookup_insert_ne].
Qed.

#[export] Instance device_laws : DeviceLaws device_world.
Proof.
  refine {| finished a w := sg_value (signal_at a w) = 0 |}.
  - intros a w _. unfold signal_at. simpl. by rewrite lookup_insert_eq.
  - done.
  - intros a w w' H. by apply quiet_kept.
  - done.
  - intros queue a w. exists 1%nat. split; [simpl; lia|]. left. simpl. unfold signal_at. simpl.
    by rewrite lookup_insert_eq.
Defined.

#[export] Instance device_memory : QueueMemory device_world.
Proof.
  split.
  - intros queue memory w. simpl. by rewrite lookup_insert_eq.
  - intros queue w w' H. simpl. by rewrite (proj1 (quiet_kept _ _ H)).
Qed.

(** ** A runtime

    Queue 1 has dispatch 1 in flight, which completes event 1 and waits behind
    a barrier for event 2; dispatch 2 is in its pool, dispatch 3 belongs to a
    launch under way.  Queues 2 and 3 are idle. *)

Definition an_event (signal : Z) (queue : option queue_ptr) (dependencies : list (queue_ptr * Z))
  : lr_event_t :=
  mkEvent 0 (Some signal) (bool_decide (is_Some queue)) (bool_decide (queue = None))
    (foldr Z.add 0 dependencies.*2) dependencies 0 false 0 0 (mkClock 500 0 500 100000000) no_clock
    queue None 0 0.

Definition idle_queue (is_default : bool) (doorbell : Z) : lr_queue_t :=
  new_queue 0 is_default (Some (mkQueueState true doorbell (Some 0x1000) (Some 0x2000) 256)).

Definition busy_queue (barriers : list PendingBarrier) : lr_queue_t :=
  mkQueue 0 true sample_queue [None; Some 1%positive] 1 barriers [2%positive] [] [1%positive] 0
    false false.

Definition a_world (value : AmdSignal) (allocations : list bool) : device_world :=
  mkWorld {[ 0x8000 := value; 0x8040 := done_signal ]} ∅ allocations 0x10000.

(** [waits] says whether the dispatch has its barrier. *)
Definition a_runtime (waits : bool) (w : device_world) : runtime device_world :=
  mkRuntime true true [mkDevice sample_node true (Some 1%positive) [1; 2; 3]%positive [1%positive] None no_stats]
    {[ 1; 2; 3 ]}%positive {[ 1; 2 ]}%positive
    {[ 1%positive := busy_queue (if waits then [mkBarrier 1%positive [2%positive]] else []);
       2%positive := idle_queue false 0x9000; 3%positive := idle_queue false 0xa000 ]}
    {[ 1%positive := an_event 0x8000 (Some 1%positive) [];
       2%positive := an_event 0x8040 None (if waits then [(1%positive, 1)] else []) ]}
    {[ 1%positive := mkDispatch (Some 0x8080) no_slice (Some 1%positive);
       2%positive := mkDispatch (Some 0x80c0) no_slice None;
       3%positive := mkDispatch (Some 0x8100) no_slice None ]}
    ∅ (mkMemory ∅ [] ∅) no_modules w.

(** The entries of a finite map, one by one. *)
Ltac entries H :=
  try (simpl in H); repeat (apply lookup_insert_Some in H as [[<- <-]|[? H]]); try (rewrite lookup_empty in H);
  try (apply lookup_singleton_Some in H as [<- <-]); try done.

Lemma busy_queue_wf waits w :
  queue_wf (a_runtime waits w) (busy_queue (if waits then [mkBarrier 1%positive [2%positive]] else [])).
Proof.
  split.
  - simpl. lia.
  - done.
  - change (NoDup [1%positive; 2%positive]). rewrite !NoDup_cons, !elem_of_cons, !elem_of_nil. split_and!; [naive_solver|naive_solver|constructor].
  - change (owned _) with [1%positive; 2%positive]. intros d Hd. set_unfold in Hd.
    destruct Hd as [->| [->|[]]]; eexists; (split; [reflexivity|by eexists]).
  - change (in_flight _) with [1%positive]. intros d dispatch e Hd Hl He. set_unfold in Hd.
    destruct Hd as [->|[]]. injection Hl as <-. injection He as <-. by eexists.
  - intros d dispatch Hd Hl. simpl in Hd. set_unfold in Hd. destruct Hd as [->|[]]. by injection Hl as <-.
  - change (in_flight _) with [1%positive]. destruct waits; intros b Hb; set_unfold in Hb.
    + destruct Hb as [->|[]]. by left.
    + done.
  - destruct waits; unfold references; simpl; intros e He; set_unfold in He; [|done].
    destruct He as [->|[]]. by eexists.
  - simpl. repeat constructor. set_solver.
  - simpl. lia.
Qed.

Lemma idle_queue_wf s doorbell is_default : g_devices s <> [] -> queue_wf (W := device_world) s (idle_queue is_default doorbell).
Proof.
  intros Hd. split; simpl; try done; try (intros; set_solver).
  - constructor.
  - constructor.
  - destruct (g_devices s); [done|]. simpl. lia.
Qed.

Lemma holds_a_runtime waits w q e :
  holds (a_runtime waits w) q e =
  if decide (q = 1%positive) then if waits then occurrences e [2%positive] else 0%nat else 0%nat.
Proof.
  unfold holds. destruct (decide (q = 1%positive)) as [->|]; [by destruct waits|].
  destruct (rt_queues _ !! q) as [object|] eqn:H; [|done]. by entries H.
Qed.

Lemma a_runtime_wf waits w : runtime_wf (a_runtime waits w).
Proof.
  split; [split|].
  - intros q object H. entries H; [apply busy_queue_wf|by apply idle_queue_wf|by apply idle_queue_wf].
  - intros e object H. entries H; split; simpl; try done; try lia; try by eexists.
    all: try (by intros ? [= <-]; eexists).
  - intros q1 q2 o1 o2 d H1 H2. entries H1; entries H2; unfold owned; simpl; set_solver.
  - intros q object e H. entries H; simpl.
    all: rewrite ?list_elem_of_singleton, ?elem_of_nil; split.
    all: try (intros ->; by eexists); try done.
    all: intros (event & He & Hr); entries He.
  - intros i device e H. destruct i; [|done]. injection H as <-. simpl.
    rewrite list_elem_of_singleton. split; [intros ->; by eexists|].
    intros (event & He & Hp & _). entries He.
  - intros i device H. destruct i; [|done]. injection H as <-. simpl. repeat constructor. set_solver.
  - intros i device q H. destruct i; [|done]. injection H as <-. simpl. intros Hq. set_unfold in Hq.
    destruct Hq as [->|[->|[->|[]]]]; by eexists.
  - intros q. simpl. intros Hq. set_unfold in Hq. destruct Hq as [[->| ->]| ->]; by eexists.
  - intros e. simpl. split.
    + intros He. set_unfold in He. destruct He as [->| ->]; by eexists.
    + intros [event He]. entries He; set_solver.
  - intros e event He. entries He; split; simpl; try done.
    all: try by destruct waits.
    all: try (destruct waits; simpl; repeat constructor; set_solver).
    + intros q. rewrite holds_a_runtime, lookup_empty. by destruct waits; repeat case_decide.
    + intros q. rewrite holds_a_runtime. destruct waits; simpl.
      * destruct (decide (q = 1%positive)) as [->|]; [done|]. by rewrite lookup_insert_ne.
      * by repeat case_decide.
Qed.

(** ** Retirement and synchronization *)

(** The dispatch completes while the host looks at its barrier. *)
Definition busy_runtime : runtime device_world := a_runtime true (a_world busy_signal []).

Lemma dispatch_reaping_witness :
  runtime_wf busy_runtime /\
  wp (reap_direct_kfd_dispatches_locked 1%positive) (fun status s' => runtime_wf s') busy_runtime.
Proof.
  split; [apply a_runtime_wf|].
  eapply wp_mono; [apply (dispatch_reaping 1%positive busy_runtime); [apply a_runtime_wf|reflexivity]|].
  intros status s' [Hwf _]. exact Hwf.
Defined.

(** The dispatch is complete, and the pool cannot grow. *)
Definition poor_runtime : runtime device_world := a_runtime false (a_world done_signal [false]).

Definition poor_after : runtime device_world :=
  match reap_direct_kfd_dispatches_locked 1%positive poor_runtime with
  | Ok (_, s) => s
  | _ => poor_runtime
  end.

Lemma failed_reap_forgets_event_witness :
  signal_of poor_runtime 1%positive = Some 0x8000 /\ signal_of poor_after 1%positive = Some 0x8080.
Proof.
  destruct (failed_reap_forgets_event 1%positive poor_runtime (busy_queue []) 1%positive 1%positive
    (mkDispatch (Some 0x8080) no_slice (Some 1%positive)) poor_after) as (_ & H1 & H2).
  - apply a_runtime_wf.
  - reflexivity.
  - reflexivity.
  - reflexivity.
  - reflexivity.
  - vm_compute. reflexivity.
  - split; [rewrite H1; reflexivity|exact H2].
Defined.

Lemma synchronize_drains_witness :
  wp (synchronize_direct_kfd_queue_locked 1%positive) (fun _ s' => runtime_wf s') busy_runtime /\
  match synchronize_direct_kfd_queue_locked 1%positive busy_runtime with
  | Ok (status, s') => status = Success /\ rt_events s' !! 2%positive = Some (an_event 0x8040 None [])
  | _ => False
  end.
Proof.
  split; [|vm_compute; split; reflexivity].
  eapply wp_mono; [apply (synchronize_drains 1%positive busy_runtime (busy_queue [mkBarrier 1%positive [2%positive]])); [apply a_runtime_wf|reflexivity]|].
  intros status s' [Hwf _]. exact Hwf.
Defined.

(** ** Submission *)

Lemma sample_ring_holds w : dw_rings w = ∅ -> ring_holds sample_queue [] w.
Proof.
  intros Hw. split; [vm_compute; split; [discriminate|reflexivity]|]. intros validate.
  split; [reflexivity|]. simpl. rewrite Hw, lookup_empty. simpl.
  apply (kfd_fresh_refines sample_queue validate _ _ _ sample_fresh).
Qed.

(** A launch that waits for the pending event 1. *)
Lemma ready_to_publish :
  publishable 0 1%positive (busy_queue [mkBarrier 1%positive [2%positive]]) 3%positive
    [[1%positive]] None busy_runtime.
Proof.
  split.
  - apply a_runtime_wf.
  - reflexivity.
  - split; [by eexists|]. intros q object H. entries H; unfold owned; simpl; set_solver.
  - intros e He. simpl in He. set_unfold in He. destruct He as [->|[]]. by eexists.
  - intros e event He. entries He; vm_compute; reflexivity.
  - done.
Qed.

Definition some_parameters (completion_signal : Z) : AqlKernelDispatchParameters :=
  mkDispatchParameters 64 1 1 64 1 1 0 0 0x4000 0 completion_signal.

Definition some_barrier : AqlBarrierAndParameters := mkBarrierParameters (0x8000, 0, 0, 0, 0) 0.

#[export] Instance no_other_threads : Threads device_world := fun s => s.

Lemma publish_all_or_nothing_witness :
  wp (publish_dispatch 0 1%positive 3%positive [[1%positive]] [some_barrier] some_parameters None)
    (fun _ s' => runtime_wf s') busy_runtime /\
  match publish_dispatch 0 1%positive 3%positive [[1%positive]] [some_barrier] some_parameters None
          busy_runtime with
  | Ok (status, s') => status = Success /\
      in_flight <$> (rt_queues s' !! 1%positive) = Some [1; 3]%positive
  | _ => False
  end.
Proof.
  split; [|vm_compute; split; reflexivity].
  eapply wp_mono; [apply (publish_all_or_nothing 0 1%positive
    (busy_queue [mkBarrier 1%positive [2%positive]]) 3%positive [[1%positive]] [some_barrier] None
    some_parameters [] busy_runtime)|].
  - apply ready_to_publish.
  - reflexivity.
  - apply sample_ring_holds. reflexivity.
  - vm_compute. discriminate.
  - intros status s' [Hwf _]. exact Hwf.
Defined.

(** *** Room, with the lock given up *)

(** Another thread marks queue 2 for destruction. *)
Definition destroying_thread : Threads device_world := fun s =>
  match rt_queues s !! 2%positive with
  | Some object => set_rt_queues (<[2%positive := set_lq_destroying true object]> (rt_queues s)) s
  | None => s
  end.

Lemma destroying_thread_leaves : leave_waiting_queues (Threads0 := destroying_thread).
Proof.
  intros q object packets s Hwf Hq Hflag Hh. pose proof (ring_advanced_later _ _ _ _ Hh (rtc_refl _ _)) as Hadv.
  unfold other_threads, destroying_thread. destruct (rt_queues s !! 2%positive) as [two|] eqn:H2.
  2: { exists object. by split. }
  assert (runtime_wf (set_rt_queues (<[2%positive := set_lq_destroying true two]> (rt_queues s)) s)) as Hwf'.
  { eapply runtime_wf_queue; [done|done| |by left|done|done].
    destruct (gw_queues _ (rw_graph _ Hwf) _ _ H2). by split. }
  destruct (decide (q = 2%positive)) as [->|Hne].
  - assert (two = object) as ->. { apply (inj Some). exact (eq_trans (eq_sym H2) Hq). } exists (set_lq_destroying true object).
    split; try done. apply lookup_insert_eq.
  - exists object. split; try done. simpl. by rewrite lookup_insert_ne.
Qed.

(** The launch of dispatch 3 has put two packets into the ring of four. *)
Definition launched_runtime : runtime device_world :=
  match publish_dispatch 0 1%positive 3%positive [[1%positive]] [some_barrier] some_parameters None
          busy_runtime with
  | Ok (_, s) => s
  | _ => busy_runtime
  end.

Definition launched_queue : lr_queue_t :=
  submitted_queue 3%positive [[1%positive]] (busy_queue [mkBarrier 1%positive [2%positive]]).

Lemma launched_runtime_ok :
  runtime_wf launched_runtime /\ rt_queues launched_runtime !! 1%positive = Some launched_queue /\
  exists packets, ring_holds sample_queue packets (rt_world launched_runtime).
Proof.
  pose proof (publish_dispatch_spec 0 1%positive (busy_queue [mkBarrier 1%positive [2%positive]]) 3%positive
    [[1%positive]] None busy_runtime ready_to_publish [some_barrier] some_parameters [] eq_refl
    (sample_ring_holds (rt_world busy_runtime) eq_refl) ltac:(vm_compute; discriminate)) as Hspec.
  assert (wp (publish_dispatch 0 1%positive 3%positive [[1%positive]] [some_barrier] some_parameters None)
    (fun status s' => status = Success /\ s' = launched_runtime) busy_runtime) as Hrun.
  { unfold launched_runtime, wp. destruct (publish_dispatch _ _ _ _ _ _ _ _) as [[status s']|[]|f] eqn:E.
    - split; [|done]. assert (status = Success) as -> by (vm_compute in E; by injection E as <- _). done.
    - by vm_compute in E. }
  unfold wp in Hspec, Hrun. destruct (publish_dispatch _ _ _ _ _ _ _ busy_runtime) as [[status s']|[]|f]; [|done].
  destruct Hrun as [-> ->], Hspec as [Hwf [(_ & Hq & _ & _ & Hadd)|(error & Hne & Hs & _)]].
  - split_and!; [done|rewrite Hq; apply lookup_insert_eq|]. eexists. apply Hadd.
  - by destruct error.
Qed.


(** ** Times *)

Definition timed_event (tick : Z) : lr_event_t :=
  mkEvent 0 (Some 0x8000) false true 0 [] 0 false 0 tick (mkClock 500 0 500 100000000)
    (mkClock 2000 0 3500 100000000) None None 0 0.

Definition timed_runtime : runtime device_world :=
  set_rt_events {[ 1%positive := timed_event 700; 2%positive := timed_event 1000 ]} busy_runtime.

(** 300 GPU ticks are 600 ticks of a 100 MHz clock: 6 microseconds. *)
Lemma elapsed_time_accurate_witness :
  within_a_tick 6000 300 (mkClock 500 0 500 100000000) (mkClock 2000 0 3500 100000000).
Proof.
  apply (elapsed_time_accurate 1%positive 2%positive timed_runtime (timed_event 700) (timed_event 1000)
    6000 timed_runtime); try reflexivity.
  - discriminate.
  - split; simpl; lia.
Defined.

(** ** What goes wrong *)

(** The end of a queue synchronization, then the destruction of event 1. *)
Definition synchronize_and_destroy : kfd (runtime device_world) (LrStatus.t * LrStatus.t) :=
  synchronized ← finish_direct_kfd_queue_synchronization_locked 1%positive (Some 0x8200) Success;
  destroyed ← lr_event_destroy (Some 1%positive);
  mret (synchronized, destroyed).

(** A dispatch can outlive the completion event it borrows.  When the device
    completes it after the dispatches of the queue were looked at but before
    the events were, the event is finished while the dispatch stays in flight;
    destroying the event succeeds, and the next reap follows a pointer to the
    deleted event. *)
Theorem finished_event_still_borrowed :
  runtime_wf busy_runtime /\
  match synchronize_and_destroy busy_runtime with
  | Ok (statuses, s) => statuses = (Success, Success) /\
      in_flight <$> (rt_queues s !! 1%positive) = Some [1%positive] /\
      pd_completion_event <$> (rt_dispatches s !! 1%positive) = Some (Some 1%positive) /\
      rt_events s !! 1%positive = None /\
      reap_direct_kfd_dispatches_locked 1%positive s = Fault OutOfBounds
  | _ => False
  end.
Proof. split; [apply a_runtime_wf|vm_compute; repeat split; reflexivity]. Qed.

(** Another thread destroys queue 2 while this one waits without the lock. *)
Definition destroyer : Threads device_world := fun s =>
  match lr_queue_destroy (Threads0 := no_other_threads) (Some 2%positive) s with
  | Ok (_, s) => s
  | _ => s
  end.

(** Destroying two queues of a device at the same time erases through an
    iterator that the other thread's erase has invalidated: [device_queue] is
    kept across the wait without the lock.  Alone, each of the calls
    succeeds. *)
Theorem destroyed_queue_iterator_stale :
  runtime_wf busy_runtime /\
  match lr_queue_destroy (Threads0 := no_other_threads) (Some 3%positive) busy_runtime with
  | Ok (status, _) => status = Success
  | _ => False
  end /\
  lr_queue_destroy (Threads0 := destroyer) (Some 3%positive) busy_runtime = Fault OutOfBounds.
Proof. split_and!; [apply a_runtime_wf|vm_compute; reflexivity|vm_compute; reflexivity]. Qed.
