(* ===== verification/RuntimeWitnesses.v ===== *)
(** * A device that copies, and a runtime with a module

    A simulated device that runs the copy kernel for every dispatch packet it
    is given, a runtime on it with memory and a loaded module, the calls on it
    and its shutdown, and the theorems of [MemoryProperties] and
    [RuntimeProperties] applied. *)

From stdpp Require Import gmap.
From S2P Require Import Prelude Memory CodeObject ExecutableImage Launch HiddenKernargs Topology AqlPacket AqlQueue AqlProducer KfdProducer Signal KfdKernel MemoryState RuntimeState DirectQueue DirectLaunch DirectApi DirectEvents RuntimeFacts MemoryRegistry MemoryCopy CopyKernel MemoryFrame MemoryBooks MemoryCalls MemoryProperties Modules ModuleFacts RuntimeApi Shutdown RuntimeProperties DeviceWitnesses.

Import LrStatus.

(** ** The world *)

Record copy_world := mkCopyWorld {
  cw_memory : contents;
  cw_kernarg : bytes;
  cw_signal : AmdSignal;
  cw_next : Z
}.

Definition kKernargAddress : Z := 0x10000.

Definition write_contents (a : Z) (l : bytes) (m : contents) : contents := fun x =>
  if (a <=? x) && (x <? a + Z.of_nat (length l)) then default (m x) (l !! Z.to_nat (x - a)) else m x.

Definition finished_signal : AmdSignal := mkAmdSignal kAmdSignalKindUser 0 0 0 0 100 200 0 (0, 0).

Definition word (offset : nat) (l : bytes) : Z := le_value (list.take 8 (drop offset l)).

(** The arguments in the kernarg memory. *)
Definition decode_arguments (l : bytes) : CopyArguments :=
  mkCopyArguments (word 0 l) (word 8 l) (word 16 l) (word 24 l) (word 32 l).

(** The device takes the packet in the first slot, if there is one, and the
    ring is empty again. *)
Definition run_packet (context : kfd_context) (w : copy_world) : copy_world :=
  let control := kc_control context in
  if aq_write_dispatch_id control =? aq_read_dispatch_id control then w
  else
    let arguments := decode_arguments (cw_kernarg w) in
    mkCopyWorld (run_order arguments (seqZ 0 (ca_size arguments)) (cw_memory w)) (cw_kernarg w)
      finished_signal (cw_next w).

#[export] Instance copy_transport : Transport copy_world := {|
  t_new w := (true, w);
  t_at_capacity w := (false, w);
  t_create_user_signal _ w := ((true, Some 0x8080), w);
  t_release_signal _ w := ((true, None), w);
  t_signal _ w := (cw_signal w, w);
  t_store_signal _ f w := mkCopyWorld (cw_memory w) (cw_kernarg w) (f (cw_signal w)) (cw_next w);
  t_create_aql_queue _ _ w := ((false, false, None), w);
  t_release_queue _ w := ((true, None), w);
  t_error_reason _ w := (0, w);
  t_scratch_private_segment_size _ _ := 0;
  t_queue_memory _ _ := (sample_context, sample_ring);
  t_set_queue_memory _ memory w := run_packet memory.1 w;
  t_query_clock_counters _ w := (Some (mkClock 1000 0 1000 100000000), w);
  t_allocate_gtt _ size w := ((false, mkGpuMemory 0 0 0), w);
  t_release_memory _ w := (true, w);
  t_bytes a n w :=
    if a =? kKernargAddress then replicate (Z.to_nat n) Byte.x00 else cw_memory w <$> seqZ a n;
  t_set_bytes a l w :=
    if a =? kKernargAddress then mkCopyWorld (cw_memory w) l (cw_signal w) (cw_next w)
    else mkCopyWorld (write_contents a l (cw_memory w)) (cw_kernarg w) (cw_signal w) (cw_next w);
  t_copy_staging _ _ _ w := w;
  t_release_host_memory _ w := (true, w);
  t_patience := 4
|}.

(** Memory is handed out from low to high addresses. *)
Definition can_take (size : Z) (w : copy_world) : bool := (0 <? cw_next w) && (cw_next w + size <=? U64_MOD).

Definition take (size : Z) (w : copy_world) : copy_world :=
  mkCopyWorld (cw_memory w) (cw_kernarg w) (cw_signal w) (if can_take size w then cw_next w + size else cw_next w).

#[export] Instance copy_memory : MemoryTransport copy_world := {|
  m_order A m := map_to_list m;
  m_allocate_device_vram _ size w := ((can_take size w, mkGpuMemory 0 (cw_next w) size), take size w);
  m_allocate_host _ size w := ((can_take size w, mkHostMemory (cw_next w) (cw_next w)), take size w);
  m_owns_memory _ _ := true;
  m_materialize_executable_image _ _ _ w :=
    ((ExecutableImageError.AllocationFailed, mkLoadedImage None default_image_info), w);
  m_freeze_executable_image _ queue _ w := ((false, None, queue), w);
  m_release_operation _ queue w := ((true, None, queue), w);
  m_drop_operation _ w := w;
  m_release_image image w := ((true, mkLoadedImage None default_image_info), w);
  kLightRocrCopyKernelHsaco := []
|}.

#[export] Instance copy_order : OrderLaw copy_world.
Proof. intros A m. reflexivity. Qed.

#[export] Instance copy_space : AddressSpace copy_world.
Proof.
  refine {| as_visible a := a <> kKernargAddress; as_contents := cw_memory |}.
  - intros a n w Hv. simpl. destruct (a =? kKernargAddress) eqn:E; [|done].
    destruct (decide (0 < n)) as [Hn|Hn]; [exfalso; apply (Hv a); lia|].
    replace (Z.to_nat n) with O by lia. by rewrite seqZ_nil by lia.
  - intros a l w x Hv Hx. simpl. destruct (a =? kKernargAddress) eqn:E; [|done]. simpl.
    destruct l as [|b l]; [by destruct ((_ <=? _) && _) eqn:G; [simpl in G; lia|]|].
    exfalso. apply (Hv a); [simpl; lia|lia].
Defined.

#[export] Instance alone : Threads copy_world := fun s => s.

(** ** The runtime *)

Definition copy_kernel_info : KernelInfo :=
  mkKernelInfo kLightRocrCopyKernelName "lrrt_copy_bytes.kd" 0 0 0 40 8 64 0 0 32 false [] 40 0 0 0 0 0.

Definition copy_image : LoadedImage :=
  mkLoadedImage (Some (mkGpuMemory 0 0x40000 4096))
    (mkImageInfo (mkCodeObject 0 0 0 [] true (mkMetadataVersion 1 2) "" [copy_kernel_info] default_load_plan)
       4096 0x40000 [mkResolvedKernel 0x40000 0x40100] true).

Definition copy_staging : GpuMemory := mkGpuMemory 0x6000 0x6000 1.

Definition idle_copy_queue : lr_queue_t :=
  mkQueue 0 true sample_queue [] 0 [] [1%positive] [1%positive] [] 0 false false.

Definition copy_runtime (g : memory_globals) (stats : lr_memory_stats_t) (w : copy_world) : runtime copy_world :=
  mkRuntime true true
    [mkDevice sample_node true (Some 1%positive) [1%positive] [] (Some (mkCopyState copy_image 0 (Some copy_staging))) stats]
    {[ 1%positive ]} ∅ {[ 1%positive := idle_copy_queue ]} ∅
    {[ 1%positive := mkDispatch (Some 0x8080) (mkSlice (Some 1%positive) 0 4096) None ]}
    {[ 1%positive := mkArena (mkGpuMemory kKernargAddress kKernargAddress 0x800000) 4096 ]} g no_modules w.

Definition idle_runtime (m : contents) (k : bytes) : runtime copy_world :=
  copy_runtime (mkMemory ∅ [] ∅) no_stats (mkCopyWorld m k finished_signal 0x20000).

(** ** Copies *)

Definition idle (st : runtime copy_world) : Prop := exists m k, st = idle_runtime m k.

Definition sample_regions : list (Z * Z) := [(0x6000, 1); (0x5000, 1); (0x5800, 1)].

Definition sample_copy (destination source size : Z) : kfd (runtime copy_world) LrStatus.t :=
  submit_direct_kfd_copy_locked 0 destination source size None [].

Lemma sample_within a n : 0 < n -> within sample_regions a n -> n = 1 /\ (a = 0x6000 \/ a = 0x5000 \/ a = 0x5800).
Proof.
  intros Hn (base & len & Hin & H1 & H2). unfold sample_regions in Hin. set_unfold in Hin.
  destruct Hin as [[= -> ->]|[[= -> ->]|[[= -> ->]|[]]]]; lia.
Qed.

(** The device copies between any two of the regions. *)
Lemma sample_copy_runs d s m k :
  d = 0x6000 \/ d = 0x5000 \/ d = 0x5800 -> s = 0x6000 \/ s = 0x5000 \/ s = 0x5800 ->
  exists k', sample_copy d s 1 (idle_runtime m k) =
    Ok (Success, idle_runtime (run_order (copy_arguments d s 1) [0] m) k').
Proof. intros [->|[->| ->]] [->|[->| ->]]; eexists; vm_compute; reflexivity. Qed.

Lemma sample_engine : copy_engine idle sample_regions sample_copy.
Proof.
  split.
  - intros d s n st (Hn & Hap & [-> Hd]%sample_within & [_ Hs]%sample_within) (m & k & ->); [|lia..].
    destruct (sample_copy_runs d s m k Hd Hs) as [k' Hrun]. unfold wp. rewrite Hrun. split; [by do 2 eexists|].
    intros _ a _. change (contents_of (idle_runtime ?m ?k)) with m.
    destruct (copy_kernel_moves d s 1 m) as (offsets & Hgrid & _ & Hmoves).
    + unfold kMaximumCopySize, kMaximumWorkgroups, kBlockSize. lia.
    + unfold range_ok. lia.
    + unfold range_ok. lia.
    + done.
    + apply Hmoves. assert (Some [0] = Some offsets) as [= <-]; [|done]. rewrite <-Hgrid.
      by destruct Hd as [->|[->| ->]], Hs as [->|[->| ->]]; vm_compute.
  - intros d s n st w (Hn & Hap & [-> Hd]%sample_within & [_ Hs]%sample_within) (m & k & ->) Hrun; [|lia..].
    injection Hrun as Hrun. rewrite <-Hrun. exists (write_contents d (m <$> seqZ s 1) m), k.
    by destruct Hd as [->|[->| ->]], Hs as [->|[->| ->]].
Qed.

(** A byte of host memory to the device, through the staging buffer. *)
Lemma memcpy_moves_bytes_witness :
  wp (copy_chunks (fun destination source size =>
        submit_direct_kfd_copy_locked 0 destination source size None []) copy_staging HostToDevice
      0 0x5800 0x5000 0 1)
    (fun status st' => idle st' /\ (status = Success -> contents_of st' 0x5000 = Byte.x41))
    (idle_runtime (fun a => if a =? 0x5800 then Byte.x41 else Byte.x00) []).
Proof.
  pose proof (memcpy_moves_bytes idle sample_copy copy_staging HostToDevice 0 0x5800 0x5000 0 1
    (idle_runtime (fun a => if a =? 0x5800 then Byte.x41 else Byte.x00) [])) as Hmoves.
  cbv zeta in Hmoves. eapply wp_mono; [apply Hmoves; clear Hmoves|].
  - exact sample_engine.
  - by do 2 eexists.
  - reflexivity.
  - simpl. lia.
  - lia.
  - intros base len Hin. change (_ :: _) with sample_regions in Hin. unfold sample_regions in Hin.
    set_unfold in Hin. unfold range_ok. simpl.
    unfold kKernargAddress. destruct Hin as [[= -> ->]|[[= -> ->]|[[= -> ->]|[]]]]; (split_and!; [lia..|intros a Ha; lia]).
  - unfold clear_of_staging. simpl. unfold copy_target. simpl. lia.
  - unfold clear_of_staging. simpl. unfold copy_origin. simpl. lia.
  - intros _. unfold apart, copy_target, copy_origin. simpl. lia.
  - intros status st' [HI Hm]. split; [exact HI|]. intros Hok. rewrite (Hm Hok).
    + reflexivity.
    + simpl. unfold kKernargAddress. lia.
Defined.


(** ** Allocations *)

Definition quiet : contents := fun _ => Byte.x00.

Definition after {A} (m : kfd (runtime copy_world) A) (st : runtime copy_world) : runtime copy_world :=
  match m st with Ok (_, st') => st' | _ => st end.

(** What has been handed out lies below the next address. *)
Definition below_next (st : runtime copy_world) : Prop :=
  map_Forall (fun b (x : Z * Z) => b + x.2 <= cw_next (rt_world st)) (device_view (g_memory st)) /\
  map_Forall (fun b (x : Z * Z) => b + x.2 <= cw_next (rt_world st)) (host_view (g_memory st)).

Lemma below_next_vram st : below_next st -> vram_promise st.
Proof.
  intros [Hd _] node n a w [= Hok <- _]. unfold can_take in Hok. split_and!; simpl; [lia..|].
  intros b d k Hb. apply Hd in Hb. simpl in Hb. lia.
Qed.

Lemma below_next_host st : below_next st -> host_promise st.
Proof.
  intros [_ Hd] node n a w [= Hok <- _]. unfold can_take in Hok. split_and!; simpl; [lia..|].
  intros b d k Hb. apply Hd in Hb. simpl in Hb. lia.
Qed.

Lemma idle_inv m k : inv_held ∅ ∅ (idle_runtime m k).
Proof.
  split; [|by intros b x Hb; simplify_map_eq..]. unfold memory_inv. simpl.
  split; [apply registry_ok_empty..|]. intros i st Hi. destruct i as [|i]; simplify_eq/=. by split; vm_compute.
Qed.

Definition idle_start : runtime copy_world := idle_runtime quiet [].

(** Two allocations of this thread. *)
Definition first_ptr : Z := 0x20000.
Definition second_ptr : Z := 0x220000.

Definition allocate_one : runtime copy_world := after (run_memory_call (Malloc 0 100)) idle_start.
Definition allocate_two : runtime copy_world := after (run_memory_call (Malloc 0 60)) allocate_one.

(** Another thread marks an entry, as the first half of [lr_free] does. *)
Definition mark_free (ptr : Z) (st : runtime copy_world) : runtime copy_world :=
  match g_light_rocr_allocations (g_memory st) !! ptr with
  | None => st
  | Some info => after (put_allocation ptr (set_ai_destroying true info)) st
  end.

(** It finishes the free: the second half, behind the wait. *)
Definition finish_free (ptr : Z) (st : runtime copy_world) : runtime copy_world :=
  match g_light_rocr_allocations (g_memory st) !! ptr with
  | None => st
  | Some info =>
      if ai_destroying info then
        after (erase_allocation ptr ;; update_stats (ai_device_index info) (record_free (ai_requested_size info))) st
      else st
  end.

Lemma mark_free_respects ptr st : inv_held ∅ ∅ st -> inv_held ∅ ∅ (mark_free ptr st).
Proof.
  intros Hs. unfold mark_free. destruct (_ !! ptr) as [info|] eqn:E; [|done].
  eapply inv_held_weaken; [apply lookup_empty|by apply mark_allocation].
Qed.

(** A finished free keeps every mark but its own. *)
Lemma finish_free_respects H K ptr : H !! ptr = None -> respects H K (finish_free ptr).
Proof.
  intros Hn st Hs. unfold finish_free.
  destruct (g_light_rocr_allocations (g_memory st) !! ptr) as [info|] eqn:E; [|done].
  destruct (ai_destroying info); [|done]. unfold after, mbind, kfd_bind.
  destruct (erase_allocation ptr st) as [[a1 st1]|[]|f] eqn:E1; [|done].
  destruct (update_stats _ _ st1) as [[a2 st2]|[]|f] eqn:E2; [|done].
  by eapply (inv_erase H K st ptr info).
Qed.

Lemma after_keeps {A} (P : runtime copy_world -> Prop) (m : kfd (runtime copy_world) A) st :
  keeps P m -> P st -> P (after m st).
Proof. intros Hk Hs. unfold after. destruct (m st) as [[a st']|[]|f] eqn:E; [by eapply Hk|done]. Qed.

Lemma after_wlp {A} (P : runtime copy_world -> Prop) (m : kfd (runtime copy_world) A) st :
  P st -> wlp m (fun _ => P) st -> P (after m st).
Proof. intros Hs Hm. unfold after. destruct (m st) as [[a st']|[]|f] eqn:E; [by eapply Hm|done]. Qed.

(** Another thread ends a copy out of the first allocation, and the free of the
    second that it had marked. *)
Definition busy_thread : Threads copy_world := fun st =>
  finish_free second_ptr (after (unpin_device first_ptr) st).

Lemma busy_thread_respects H K : H !! second_ptr = None -> respects H K (other_threads (Threads := busy_thread)).
Proof.
  intros Hn st Hs. apply finish_free_respects; [done|]. apply (after_keeps (inv_held H K)); [|exact Hs].
  apply keeps_unpin_device.
Qed.

Lemma busy_thread_relied : relies (Threads0 := busy_thread) ∅ ∅ (Free 0 first_ptr).
Proof.
  split; [by apply busy_thread_respects|]. intros x _. apply busy_thread_respects. reflexivity.
Qed.

Lemma alone_relied call : relies (Threads0 := alone) ∅ ∅ call.
Proof. split; [by intros st Hs|]. by destruct call; intros; try done; intros st Hs. Qed.

(** The other thread pins the first allocation and marks the second. *)
Definition others_busy : runtime copy_world := mark_free second_ptr (after (pin_device first_ptr) allocate_two).

(** Both are free: the second since the first waited. *)
Definition free_first : runtime copy_world :=
  after (run_memory_call (Threads0 := busy_thread) (Free 0 first_ptr)) others_busy.

Lemma promised_call threads call status st st1 st2 :
  relies (Threads0 := threads) ∅ ∅ call -> below_next st -> call_typed call ->
  run_memory_call (Threads0 := threads) call st = Ok (status, st1) ->
  memory_run ∅ ∅ st1 st2 -> memory_run ∅ ∅ st st2.
Proof. intros Hr Hb Hty. eapply run_call; [exact Hr|exact Hty|by apply below_next_vram|by apply below_next_host]. Qed.

Lemma below_start : below_next idle_start.
Proof. by split; intros b x Hb; vm_compute in Hb. Qed.

Lemma below_one : below_next allocate_one.
Proof. split; apply (bool_decide_unpack _); vm_compute; exact I. Qed.

Lemma below_busy : below_next others_busy.
Proof. split; apply (bool_decide_unpack _); vm_compute; exact I. Qed.

Lemma three_run : memory_run ∅ ∅ idle_start free_first.
Proof.
  eapply (promised_call alone (Malloc 0 100)); [apply alone_relied|exact below_start|simpl; lia|vm_compute; reflexivity|].
  eapply (promised_call alone (Malloc 0 60)); [apply alone_relied|exact below_one|simpl; lia|vm_compute; reflexivity|].
  apply (run_others ∅ ∅ _ others_busy).
  { intros Hs. apply mark_free_respects, (after_keeps (inv_held ∅ ∅)); [apply keeps_pin_device|exact Hs]. }
  eapply (promised_call busy_thread (Free 0 first_ptr));
    [exact busy_thread_relied|exact below_busy|exact I|vm_compute; reflexivity|].
  apply run_done.
Qed.

(** A free that waits for a copy of another thread, which finishes a free of
    its own meanwhile: without that thread it would wait on, and in the end
    nothing is registered and no byte is live. *)
Lemma memory_books_kept_witness :
  memory_run ∅ ∅ idle_start free_first /\ inv_held ∅ ∅ free_first /\
  run_memory_call (Threads0 := alone) (Free 0 first_ptr) others_busy = Fault OutOfFuel /\
  (st_live_bytes ∘ ds_memory_stats <$> g_devices others_busy) = [160] /\
  (st_live_bytes ∘ ds_memory_stats <$> g_devices free_first) = [0] /\
  (ai_destroying <$> (g_light_rocr_allocations (g_memory others_busy) !! second_ptr)) = Some true /\
  g_light_rocr_allocations (g_memory free_first) = ∅.
Proof.
  split; [exact three_run|]. split; [|by split_and!; vm_compute].
  exact (memory_books_kept ∅ ∅ idle_start free_first (idle_inv quiet []) three_run).
Defined.

Lemma two_inv : inv_held ∅ ∅ allocate_two.
Proof.
  eapply (call_keeps ∅ ∅ (Malloc 0 60) _ (alone_relied _));
    [simpl; lia|by apply below_next_vram, below_one|by apply below_next_host, below_one| |vm_compute; reflexivity].
  eapply (call_keeps ∅ ∅ (Malloc 0 100) _ (alone_relied _));
    [simpl; lia|by apply below_next_vram, below_start|by apply below_next_host, below_start
    |apply idle_inv|vm_compute; reflexivity].
Qed.

(** One hundred bytes at the first free address. *)
Lemma malloc_all_or_nothing_witness :
  wp (lr_malloc 0 100) (fun '(status, ptr) s' => status = Success /\ ptr = 0x20000 /\
    device_view (g_memory s') = <[0x20000 := (0, 100)]> (device_view (g_memory idle_start))) idle_start.
Proof.
  pose proof (malloc_all_or_nothing ∅ ∅ 0 100 idle_start ltac:(lia) ltac:(lia) (idle_inv quiet [])
    (below_next_vram _ below_start)) as Hspec.
  assert (wp (lr_malloc 0 100) (fun '(status, ptr) _ => status = Success /\ ptr = 0x20000) idle_start) as Hrun
    by (vm_compute; by split).
  unfold wp in *. destruct (lr_malloc 0 100 idle_start) as [[[status ptr] s']| |]; [|done|done].
  destruct Hrun as [-> ->]. destruct Hspec as [_ (_ & _ & Hview)]. by split_and!.
Defined.

(** A pointer into the middle of the allocation. *)
Lemma find_allocation_exact_witness :
  exists info, g_light_rocr_allocations (g_memory allocate_two) !! 0x20000 = Some info /\
    find_light_rocr_allocation (m_order (g_light_rocr_allocations (g_memory allocate_two))) 0x20032 0 50 =
      Some (0x20000, 50, info).
Proof.
  eexists. split; [vm_compute; reflexivity|].
  refine (proj2 (find_allocation_exact 1 (g_memory allocate_two) 0x20032 0 50 0x20000 50 _ _) _).
  - exact (bo_device _ _ (ih_inv _ _ _ two_inv)).
  - split_and!; vm_compute; congruence.
Defined.

(** Shutdown with two allocations. *)
Lemma release_allocations_drains_witness :
  wp (release_memory_allocations_locked Success) (fun result' s' => result' = Success /\
    g_light_rocr_allocations (g_memory s') = ∅) allocate_two.
Proof.
  pose proof (release_allocations_drains Success allocate_two (ih_inv _ _ _ two_inv)) as Hspec.
  assert (wp (release_memory_allocations_locked Success) (fun result' _ => result' = Success) allocate_two) as Hrun
    by (vm_compute; reflexivity).
  unfold wp in *. destruct (release_memory_allocations_locked Success allocate_two) as [[result' s']| |]; [|done|done].
  subst result'. by destruct Hspec as [_ [Ha _]].
Defined.

(** ** A copy recorded on an event that another thread waits for *)

(** A device that has not run the packet yet. *)
Definition slow_transport : Transport copy_world := {|
  t_new w := (true, w);
  t_at_capacity w := (false, w);
  t_create_user_signal _ w := ((true, Some 0x8080), w);
  t_release_signal _ w := ((true, None), w);
  t_signal _ w := (cw_signal w, w);
  t_store_signal _ f w := mkCopyWorld (cw_memory w) (cw_kernarg w) (f (cw_signal w)) (cw_next w);
  t_create_aql_queue _ _ w := ((false, false, None), w);
  t_release_queue _ w := ((true, None), w);
  t_error_reason _ w := (0, w);
  t_scratch_private_segment_size _ _ := 0;
  t_queue_memory _ _ := (sample_context, sample_ring);
  t_set_queue_memory _ _ w := w;
  t_query_clock_counters _ w := (Some (mkClock 1000 0 1000 100000000), w);
  t_allocate_gtt _ size w := ((false, mkGpuMemory 0 0 0), w);
  t_release_memory _ w := (true, w);
  t_bytes _ n _ := replicate (Z.to_nat n) Byte.x00;
  t_set_bytes _ _ w := w;
  t_copy_staging _ _ _ w := w;
  t_release_host_memory _ w := (true, w);
  t_patience := 4
|}.

(** An event recorded on the queue, whose signal the device has brought to
    zero, and an allocation. *)
Definition recorded_runtime : runtime copy_world :=
  let device := mkDevice sample_node true (Some 1%positive) [1%positive] [1%positive]
    (Some (mkCopyState copy_image 0 (Some copy_staging))) no_stats in
  let queue := mkQueue 0 true sample_queue [] 0 [] [1%positive] [1%positive] [1%positive] 0 false false in
  let event := mkEvent 0 (Some 0x8080) true false 0 [] 0 false 0 0 no_clock no_clock (Some 1%positive) None 0 0 in
  let memory := mkMemory {[ 0x5000 := mkAllocationInfo 0 0x1000 0 false (mkGpuMemory 0 0x5000 0x1000) ]} [] ∅ in
  mkRuntime true true [device] {[ 1%positive ]} {[ 1%positive ]} {[ 1%positive := queue ]}
    {[ 1%positive := event ]}
    {[ 1%positive := mkDispatch (Some 0x8088) (mkSlice (Some 1%positive) 0 4096) None ]}
    {[ 1%positive := mkArena (mkGpuMemory kKernargAddress kKernargAddress 0x800000) 4096 ]} memory no_modules
    (mkCopyWorld quiet [] finished_signal 0).

Definition copy_on_event : kfd (runtime copy_world) LrStatus.t :=
  lr_memcpy_async (Transport0 := slow_transport) (Threads0 := alone) 0 0x5000 0x5800 1 (Some DeviceToDevice) (Some 1%positive).

(** The other thread has its turn the second time the lock is free. *)
Definition copies_meanwhile : Threads copy_world := fun s =>
  let w := rt_world s in
  let s := set_rt_world (mkCopyWorld (cw_memory w) (cw_kernarg w) (cw_signal w) (cw_next w + 1)) s in
  if cw_next w =? 1 then after copy_on_event s else s.

Definition wait_with (threads : Threads copy_world) : option LrStatus.t :=
  match lr_event_synchronize (Transport0 := slow_transport) (Threads0 := threads) (Some 1%positive)
    recorded_runtime with
  | Ok (status, _) => Some status
  | _ => None
  end.

(** An asynchronous copy can make another thread's wait fail.  The event is
    recorded and its signal is zero: alone, [lr_event_synchronize] succeeds.
    When another thread starts a copy on the same event between the wait and
    the lock, which succeeds, the wait finds the signal of the new recording
    and reports an error although nothing failed. *)
Theorem copy_breaks_event_wait :
  wait_with alone = Some Success /\
  (exists s', copy_on_event recorded_runtime = Ok (Success, s')) /\
  wait_with copies_meanwhile = Some RuntimeError.
Proof. split; [reflexivity|]. split; [eexists|]; vm_compute; reflexivity. Qed.


#[export] Instance copy_images : ImageLaw copy_world.
Proof. intros image w ok image' w' [= _ <- _]. by right. Qed.

#[export] Instance copy_platform : Platform copy_world := {|
  p_open_session w := (true, w);
  p_close_session w := w;
  p_discover_topology w := (Some (mkTopology (mkKfdVersion 1 17) [sample_node]), w);
  p_acquire_vm _ w := (true, w)
|}.

(** A module with the copy kernel, without handles. *)
Definition sample_module : lr_module_t := mkModule 0 [] false (Some copy_image) None None.

Definition sample_modules : module_globals :=
  mkModules {[ 1%positive ]} ∅ [] {[ 1%positive := sample_module ]} ∅.

Definition loaded_runtime : runtime copy_world := set_g_module_state sample_modules idle_start.

Definition get_copy_kernel : kfd (runtime copy_world) (LrStatus.t * option kernel_ptr) :=
  lr_kernel_get (Some 1%positive) (Some kLightRocrCopyKernelName).

(** The handle, and the sizes of the kernel. *)
Lemma kernel_get_resolves_witness :
  match get_copy_kernel loaded_runtime with
  | Ok (_, s1) => wp (lr_kernel_get_properties 1%positive) (fun '(status, properties) s2 =>
      s2 = s1 /\ status = Success /\ properties = mkKernelProperties 40 0 0) s1
  | _ => False
  end.
Proof.
  destruct (get_copy_kernel loaded_runtime) as [[[status found] s1]| |] eqn:E;
    [|vm_compute in E; discriminate E|vm_compute in E; discriminate E].
  assert (status = Success /\ found = Some 1%positive) as [-> ->].
  { vm_compute in E. injection E as <- <- _. by split. }
  destruct (kernel_get_resolves 1%positive kLightRocrCopyKernelName loaded_runtime 1%positive s1 E)
    as (object & image & index & info & Ho & Hi & Hx & Hinfo & _ & _ & Hwp).
  vm_compute in Ho. injection Ho as <-. vm_compute in Hi. injection Hi as <-.
  vm_compute in Hx. injection Hx as <-. vm_compute in Hinfo. injection Hinfo as <-. exact Hwp.
Defined.

Lemma loaded_wf : modules_wf ∅ (g_module_state loaded_runtime).
Proof.
  split; split; cbn.
  - intros k. rewrite lookup_empty. split; [set_solver|by intros [? ?]].
  - by intros k kernel ?%lookup_empty_Some.
  - intros m object k [<- <-]%lookup_singleton_Some Hk. by apply not_elem_of_nil in Hk.
  - intros m object [<- <-]%lookup_singleton_Some. apply NoDup_nil_2.
  - reflexivity.
  - apply NoDup_nil_2.
  - intros m Hm. by apply not_elem_of_nil in Hm.
  - set_solver.
Qed.

(** A second module, which another thread has begun to destroy. *)
Definition two_modules : runtime copy_world :=
  set_g_module_state (mkModules {[ 1%positive; 2%positive ]} ∅ []
    {[ 1%positive := sample_module; 2%positive := set_md_destroying true sample_module ]} ∅) idle_start.

Lemma two_modules_held : modules_held ∅ two_modules.
Proof.
  assert (forall m object, rt_modules (g_module_state two_modules) !! m = Some object ->
    md_kernels object = []) as Hk.
  { intros m object Hm. cbn in Hm. apply lookup_insert_Some in Hm as [[_ <-]|[_ [_ <-]%lookup_singleton_Some]]; done. }
  split; [split; split; cbn|intros m Hm; set_solver].
  - intros k. rewrite lookup_empty. split; [set_solver|by intros [? ?]].
  - by intros k kernel ?%lookup_empty_Some.
  - intros m object k Hm Hin. rewrite (Hk _ _ Hm) in Hin. by apply not_elem_of_nil in Hin.
  - intros m object Hm. rewrite (Hk _ _ Hm). apply NoDup_nil_2.
  - vm_compute. reflexivity.
  - apply NoDup_nil_2.
  - intros m Hm. by apply not_elem_of_nil in Hm.
  - set_solver.
Qed.

(** That thread finishes: the second half of [lr_module_destroy]. *)
Definition finish_destroy (module : module_ptr) (st : runtime copy_world) : runtime copy_world :=
  match rt_modules (g_module_state st) !! module with
  | Some object =>
      if bool_decide (module ∈ g_modules (g_module_state st)) && md_destroying object then
        after (status ← release_direct_kfd_module_resources module;
               if negb (succeeded status) then keep_module module status
               else modify_modules (fun g => set_g_modules (g_modules g ∖ {[module]}) g) ;; mret Success) st
      else st
  | None => st
  end.

Lemma finish_destroy_respects H module : module ∉ H -> respects_modules H (finish_destroy module).
Proof.
  intros Hn st Hs. unfold finish_destroy. destruct (_ !! module) as [object|] eqn:E; [|done].
  destruct (bool_decide _ && _) eqn:Eb; [|done]. apply andb_true_iff in Eb as [Hreg%bool_decide_eq_true Hd].
  apply (after_wlp (modules_held H)); [done|]. apply finish_destroy_held; [by intros st1| |done].
  destruct Hs as [Hwf Hm]. split; [done|]. intros m [Hin| ->%elem_of_singleton]%elem_of_union; [by apply Hm|].
  split; [done|]. by exists object.
Qed.

Definition finishing_thread : Threads copy_world := finish_destroy 2%positive.

Lemma finishing_relied : module_relies (Threads0 := finishing_thread) ∅ (DestroyModule (Some 1%positive)).
Proof. split; [|intros _]; apply finish_destroy_respects; set_solver. Qed.

(** A handle, and the module destroyed. *)
Definition get_first : module_call := GetKernel (Some 1%positive) (Some kLightRocrCopyKernelName).

Definition module_gone : runtime copy_world :=
  after (run_module_call (Threads0 := finishing_thread) (DestroyModule (Some 1%positive)))
    (after (run_module_call get_first) two_modules).

Lemma module_gone_run : module_run ∅ two_modules module_gone.
Proof.
  eapply (module_run_call ∅ alone get_first); [split; [by intros st Hs|done]|vm_compute; reflexivity|].
  eapply (module_run_call ∅ finishing_thread); [exact finishing_relied|vm_compute; reflexivity|].
  apply module_run_done.
Qed.

(** The handle goes with its module, and the other thread's module meanwhile. *)
Lemma modules_kept_witness :
  module_run ∅ two_modules module_gone /\ modules_held ∅ module_gone /\
  g_kernels (g_module_state module_gone) = ∅ /\ g_modules (g_module_state module_gone) = ∅.
Proof.
  split; [exact module_gone_run|]. split; [|by split; vm_compute].
  exact (modules_kept ∅ two_modules module_gone two_modules_held module_gone_run).
Defined.

Lemma loaded_ok : runtime_ok loaded_runtime.
Proof.
  split; [exact (ih_inv _ _ _ (idle_inv quiet []))|exact loaded_wf|].
  intros q Hq. exists 0%nat, [1%positive]. split; [reflexivity|]. cbn in Hq. set_solver.
Qed.

(** The shutdown of a runtime with a module, a queue and a copy state. *)
Lemma shutdown_leaves_nothing_witness :
  match lr_shutdown loaded_runtime with
  | Ok (status, s') => status = Success /\ g_initialized s' = false /\ at_rest s'
  | _ => False
  end.
Proof.
  destruct (lr_shutdown loaded_runtime) as [[status s']| |] eqn:E;
    [|vm_compute in E; discriminate E|vm_compute in E; discriminate E].
  assert (status = Success) as -> by (vm_compute in E; by injection E).
  split; [reflexivity|]. refine (shutdown_leaves_nothing loaded_runtime Success s' _ loaded_ok E).
  intros s Hs. exact Hs.
Defined.

(** ** Initialisation during a shutdown *)

(** Another thread waits for the queue. *)
Definition busy_runtime : runtime copy_world :=
  match update_queue 1%positive (set_lq_active_synchronizers 1) loaded_runtime with
  | Ok (_, s) => s
  | _ => loaded_runtime
  end.

(** When the lock is free, the waiting thread finishes, and a third one
    initialises the runtime. *)
Definition finish_and_init : kfd (runtime copy_world) LrStatus.t :=
  finish_direct_kfd_queue_synchronization_locked 1%positive (Some 0x8080) Success ;;
  lr_init.

Definition initialises_meanwhile : Threads copy_world := fun s => after finish_and_init s.

Definition shutdown_with_init : result Empty_set (LrStatus.t * runtime copy_world) :=
  lr_shutdown (Threads0 := initialises_meanwhile) busy_runtime.

(** An initialisation can succeed in the middle of a shutdown.  The flag
    says that the runtime is not initialised as soon as [lr_shutdown] starts,
    so while it waits for another call to finish, [lr_init] succeeds and
    replaces the devices.  The shutdown then succeeds as well, and leaves a
    runtime that is initialised, without devices or session, in which the
    queue of the device that was replaced is still registered. *)
Theorem init_during_shutdown :
  (exists s, finish_and_init (set_g_initialized false busy_runtime) = Ok (Success, s)) /\
  exists s, shutdown_with_init = Ok (Success, s) /\
    g_initialized s = true /\ g_devices s = [] /\ g_kfd_session s = false /\ g_queues s = {[ 1%positive ]}.
Proof. split; eexists; [|split]; try (vm_compute; reflexivity). by split_and!. Qed.
